(* ===== verification/_CoqProject ===== *)
-Q . S2P
Prelude.v
Numbers.v
Dfs.v
KernelRegistry.v
RegistrySpec.v
Pipeline.v
Replay.v
Endpoint.v
NetAddr.v
MeshWire.v
MeshCodec.v
Reorder.v
ReorderFacts.v
MeshSec.v
MeshSecFacts.v
LoadBalance.v
LoadBalanceFacts.v
MeshControl.v
QuicPacket.v
QuicFrame.v
StateM.v
QuicStream.v
QuicStreamFacts.v
QuicRecovery.v
QuicRecoveryFacts.v
QuicParams.v
QuicCrypto.v
QuicConn.v
QuicConnFacts.v
QuicConnTheorems.v
DispatchTypes.v
Dispatch.v
DispatchFacts.v
DispatchTheorems.v
Rules.v
RulesFacts.v
Socks5.v
Socks5Facts.v
HttpProxy.v
HttpProxyFacts.v
Dns.v
DnsFacts.v
Config.v
ConfigValidate.v
ConfigFacts.v
ConfigTheorems.v
Geosite.v
Floats.v
Observation.v
ObservationFacts.v
Health.v
Schedulers.v
Resolver.v
ResolverRun.v
ResolverFacts.v
RuleYaml.v
RuleYamlFacts.v
Hooks.v
Forward.v
ForwardRun.v
ForwardFacts.v
ForwardTheorems.v
ForwardDemo.v
UdpLoop.v
MeshPeer.v
MeshIngress.v
MeshPeerFacts.v
Ingress.v
Socks5Ingress.v
HttpIngress.v
IngressFacts.v
HttpIngressFacts.v
Session.v
SessionFacts.v
EgressAdapter.v
Egress.v
EgressFacts.v
Assembly.v
Operator.v
OperatorFacts.v
