(* ===== verification/Prelude.v ===== *)
(** * MeshBus verification library

    MeshBus is a proxy and mesh runtime.  Ingress plugins turn a connection into
    an [Event] with metadata; the kernel runs the event through a graph of
    pipelines (hooks that continue, jump, drop or send to a sink) described by a
    registry that [verify] has accepted; an accepted event opens a session on the
    bus, whose frames the dispatcher offers to the egresses in the order a
    scheduler ranks them; egress adapters turn frames back into sessions of an
    exit.  The mesh egress and ingress talk to each other over UDP: payloads are
    chunked and numbered, wrapped as native events, framed, sealed in the MeshSec
    envelope, paced by the UDP loop, and on the other side opened under a replay
    window, repaired by parity, put in order and acknowledged with AckNack feedback
    that drives the path controller.  A QUIC engine of its own provides another
    carrier.  Names are resolved by an own resolver that queries over the bus, and
    observers count what happens and report the health of exits.  An operator reads
    a node's state, probes it and sees its redacted configuration over a local HTTP
    endpoint, from a command line that is its client.

    ** Files, in dependency order

    Shared:
    - [Prelude] - results and the [?] operator, [BTreeMap] as the list its
      iterator yields, the parts of [str] the code uses, and the rewriting database
      [mb_ok] that turns a successful run of a checker into what it checked.
    - [Numbers] - fixed-width integers, big- and little-endian bytes, decimal and
      hexadecimal text.  [NetAddr] - UTF-8, IPv4 and IPv6 addresses of core::net and
      that they parse back.  [Floats] - f64 and f32 on SpecFloat.
    - [Dfs] - the depth-first cycle check two registries share.
    - [StateM] - a state monad whose [None] is a panic, total-correctness triples
      with the automation for invariants, and sorted maps keyed by integers.

    Kernel (crates/mesh-bus-core/src/kernel):
    - [KernelRegistry], [RegistrySpec] - verdicts, events, metadata, every check of
      [verify] in source order with its error, and its declarative contract.
    - [Pipeline] - the interpreter (pipeline/data_handle.rs) and the compiled graph
      (compiled.rs) with its panics as errors, and the kernel's theorems.
    - [DispatchTypes], [Dispatch], [DispatchFacts], [DispatchTheorems] - the frame
      dispatcher (dispatch*.rs, source_activity.rs, forwarder.rs, the candidate
      buckets of compiled.rs, the forwarding types): its state is [Runtime], one
      definition per handler, histories of handlers as [Step]s.
    - [Observation], [ObservationFacts], [Health] - observation/,
      metrics_observer.rs, health_observer.rs, lib/mb-health.
    - [Session], [SessionFacts] - transport/session/, port.rs, runtime.rs, and
      lib/mb-splice with the relay of the TCP ingress that uses it.
    - [EgressAdapter] - egress_adapter.rs and egress_adapter/.

    Mesh (lib/mb-proto-mesh and the libraries beside it):
    - [Replay], [MeshWire], [MeshCodec] (with the parity code), [MeshSec],
      [MeshSecFacts], [Endpoint], [Reorder], [ReorderFacts], [MeshControl].
    - [UdpLoop] - transport/udp_loop, link_evidence.rs and transform/; [MeshPeer],
      [MeshIngress], [MeshPeerFacts] - crates/mesh-bus-egress-mesh-peer-udp and
      -ingress-mesh-peer-udp.

    Balancing: [LoadBalance], [LoadBalanceFacts] (lib/mb-loadbalance) and [Schedulers] (crates/mesh-bus-scheduler-*, with the CAKE scoring).

    QUIC (lib/mb-quic): [QuicPacket], [QuicFrame], [QuicStream], [QuicStreamFacts],
    [QuicRecovery], [QuicRecoveryFacts], [QuicParams], [QuicCrypto], [QuicConn],
    [QuicConnFacts], [QuicConnTheorems].

    Protocols: [Socks5], [Socks5Facts], [HttpProxy], [HttpProxyFacts], [Dns],
    [DnsFacts] (lib/mb-proto-socks5, -http-proxy, -dns).

    Policy: [Rules], [RulesFacts], [RuleYaml], [RuleYamlFacts] (lib/mb-rule),
    [Geosite] (lib/mb-geosite), [Hooks] (crates/mesh-bus-pipeline-hooks), [Forward],
    [ForwardRun], [ForwardFacts], [ForwardTheorems], [ForwardDemo] (the forward
    pipeline assembled by crates/mesh-bus-runtime/src/pipeline.rs).

    Configuration: [Config], [ConfigValidate], [ConfigFacts], [ConfigTheorems]
    (crates/mesh-bus-runtime/src/config.rs, config/, config_validate.rs).  Resolver: [Resolver], [ResolverRun],
    [ResolverFacts] (crates/mesh-bus-resolver).

    Ingress: [Ingress], [Socks5Ingress], [HttpIngress], [IngressFacts],
    [HttpIngressFacts] (crates/mesh-bus-ingress-{tcp,udp,socks5,http-connect}).

    Exits: [Egress], [EgressFacts] (crates/mesh-bus-egress-{tcp,udp,service,socks5},
    the sessions of -egress-mesh-peer-udp, lib/mb-socket-tune).

    The node: [Assembly] (crates/mesh-bus-runtime/src/lib.rs: [run] builds a node from
    a configuration) and [Operator], [OperatorFacts] (crates/mesh-bus-observer-metrics,
    -observer-prometheus, -operator-api and -bin: metrics, responses, the operator's
    endpoint, the command line).

    ** How code becomes definitions

    Fallible functions return [result]; a method that takes [&mut self] takes the
    state and returns it, or runs in the monad of [StateM]; a panic is a value of
    its own where the code can reach one.  Integers are [Z] (or [N]) with the
    wrap-around, saturation or truncation of their width written out; bytes are
    [list Z] with [bytes_ok]; floats are exact IEEE numbers.  Tasks that share
    state are functions on it, and the order in which they run is a list of steps
    or a step relation; a dispatch is one step, so that sessions interleave between
    dispatches and not inside one.

    Code outside the repository, sockets and clocks are parameters: hooks, egresses
    and schedulers are arbitrary functions on a world; address prefixes, regular
    expressions and JSON values ([RuleLibs], [RuleParsers]), the databases and
    files ([Mmdb], [Files]), the network of the resolver ([ResolverNet]), the batch
    system calls ([UdpSys]), the bus as its ingresses see it ([PeerBus],
    [IngressWorld]), local sockets ([LocalSockets]), the channels of sessions
    ([SessionWorld]), the system calls of a splice ([SpliceSys]), the egress behind an adapter ([InnerEgress]), the sockets of
    exits and probes ([ExitSockets]), the tasks of a mesh session ([MeshTasks]), the binding of addresses ([Listeners]) and a
    running node's counters and clock ([NodeView]) are classes without laws, as are hashes of keys and the comparison of rendezvous scores.
    Bincode is a class with the round trip it documents; the cryptography of
    MeshSec ([MeshCrypto]) and of QUIC ([QuicLib]) are classes whose laws are the
    decryption of what was sealed and lengths, and the TLS session of a connection
    makes progress ([TlsProgress]).  A theorem that uses a law has a witness with an
    instance.

    ** What the theorems show

    - Kernel: [verify] succeeds exactly on registries that satisfy the contract;
      the jump check succeeds exactly on acyclic graphs; a run on a verified
      registry never leaves the declared graph; the compiled graph runs as the
      interpreter does.
    - Dispatch: no history of dispatches, polls and closes panics, and the pin,
      flow, counter and source-activity tables stay consistent; those the scheduler
      ranks are tried, each once; an opened stream is answered exactly once.
    - Sessions and adapters: a session carries what its holder sends, in order, and
      returns what comes back, over the dispatcher, over an exit's own transport and
      over a socket; spliced sockets carry each other's bytes; the answers of a datagram session name their
      targets; an adapter opens one exit session per stream and gives it the pieces
      in order; datagram answers take the oldest unanswered send.
    - Mesh: the replay window refines the set of accepted counters; a packet opens
      at most once while the keys and epochs that accept it stay; streams of frames decode to themselves however they are cut; a
      generation with one loss is repaired; families deliver first arrivals once and
      in order; what a sender seals fits the path; its requests are answered once;
      a stream reaches the session of the other side as it was sent; an ingress
      keeps within its bounds; a flush sends each datagram once.
    - Balancers and path control: round robin gives each candidate its weight;
      leases follow their policies; bytes in flight are accounted for.
    - QUIC: varints, headers, frames and transport parameters are read back; a
      stream delivers what was written whatever the order of its frames; loss
      detection is exact; over every history of a connection no packet number is used
      twice, its accounting is consistent and receiving returns; a packet of any level
      that one connection protects another reads.
    - Rules: a chain decides by its first rule whose expression holds, read as a
      proposition; validation and the YAML parser accept exactly what they should.
    - Forward pipeline: every run of an assembled pipeline ends in a verdict; the
      rules judge the address a name resolves to; actions have their effects.
    - Configuration: [parse_config] accepts exactly a declarative contract; two
      accepted configurations that name each other can talk.
    - Observation and health: declarations are accepted exactly; a reliable
      publication counts every subscriber once; what exclusion of an exit needs.
    - Protocols, resolver and ingresses: messages are read back, handshakes end and
      admit only verified users, the bus is asked only when the policy grants it and the
      client is told what came of it, queries end and are logged once, and the answer
      of a server is what it sent to that very query.
    - Exits: a node that leaves over SOCKS5 and the ingress it reaches understand
      each other; a refusal travels back along a chain of nodes; a stream that is
      connected over the mesh is one its peer has opened, with one call of its bus; what an exit reads
      arrives in order and to its end, whatever the order of its tasks.
    - The node: a configuration that passes the checks starts, with the ingresses it
      configures and the exits its pipeline was told of.
    - Operation: the endpoint answers nobody without its token, the client tells what
      the node answered, and redaction hides the values of secret keys and nothing
      else; the metrics of an exit add up.
    Several theorems record where the code and its intent part; the manifest lists
    them.

    ** Fuel

    Loops that are not structural take fuel with a bound proved sufficient: pipeline
    runs take [MAX_JUMP_DEPTH] from the code itself; the cycle check takes more than
    the number of nodes; [Wrr::pick] takes a bound proved enough when a weight is
    positive; the drains of the reorder buffers take the buffer's size; the decoders
    of QUIC payloads, transport parameters and mesh streams take the length of their
    input; the splitting of datagrams takes one more than the number of packets at
    which the code gives up, and running out of it is a value of its own; the TLS pump takes the rank of
    [TlsProgress]; the reading of a DNS name takes a bound on its pointers and
    labels ([name_fuel]).  Loops over the environment take what the environment can
    still do: the number of answers left in its script, or a patience after which a
    socket stops refusing.  The handshakes take 513 reads of a message, since a
    message is at most 513 bytes and each read gives one; a request head takes its
    maximum and one.  A splice runs under a schedule of its threads' system calls; two
    for each byte and one for each scripted answer are proved enough.

    ** Not modelled

    Parts that only call the system or a library, where a definition would be a list
    of parameters: certificates and the TLS session of QUIC, buffer reuse,
    the spawning of tasks, logging and signals.
    JSON and YAML texts are written and read by serde: a response of the operator API
    is the record that is serialised.  The schema crate is generated at build time.
    Packets lost inside the kernel, and the interleaving of two dispatches, are
    outside the model. *)
From Stdlib Require Export Ascii ZArith Lia.
From stdpp Require Export base numbers gmap strings list.
#[export] Set Warnings "-clear-no-such-hyp".

(** ** Results: Rust's [Result<T, E>] *)

Inductive result (A E : Type) : Type :=
| Ok (a : A)
| Err (e : E).
Arguments Ok {A E} a.
Arguments Err {A E} e.

Declare Scope mb_scope.
Delimit Scope mb_scope with mb.

(** The [?] operator: return the error of [c] early, or go on with its value. *)
Notation "'let?' x := c 'in' k" :=
  (match c with Ok x => k | Err e => Err e end)
  (at level 10, x pattern, c at level 200, k at level 200) : mb_scope.
Notation "'do?' c ; k" :=
  (match c with Ok _ => k | Err e => Err e end)
  (at level 10, c at level 200, k at level 200) : mb_scope.

Open Scope mb_scope.

Definition is_ok {A E} (r : result A E) : bool :=
  match r with Ok _ => true | Err _ => false end.

Definition map_err {A E F} (f : E -> F) (r : result A E) : result A F :=
  match r with Ok a => Ok a | Err e => Err (f e) end.

(** [if cond { return Err(e) }]: succeed exactly when [b] holds. *)
Definition ensure {E} (b : bool) (e : E) : result unit E :=
  if b then Ok tt else Err e.

(** [for x in l { f(x)?; }] *)
Fixpoint try_each {A E} (f : A -> result unit E) (l : list A) : result unit E :=
  match l with
  | [] => Ok tt
  | x :: l => do? f x; try_each f l
  end.

Lemma ensure_ok {E} (b : bool) (e : E) : ensure b e = Ok tt <-> b = true.
Proof. destruct b; simpl; split; congruence. Qed.

Lemma seq_ok {E} (r : result unit E) (k : result unit E) :
  (do? r; k) = Ok tt <-> r = Ok tt /\ k = Ok tt.
Proof. destruct r as [[]|e]; split; try (intros [? ?]); auto; discriminate. Qed.

Lemma try_each_ok {A E} (f : A -> result unit E) l :
  try_each f l = Ok tt <-> Forall (fun x => f x = Ok tt) l.
Proof.
  induction l as [|x l IH]; simpl.
  - split; auto.
  - rewrite seq_ok, IH, Forall_cons_iff. reflexivity.
Qed.

(** The equivalences that turn a run of a checker into the facts it checked. *)
Create Rewrite HintDb mb_ok.
#[export] Hint Rewrite @ensure_ok @seq_ok @try_each_ok : mb_ok.

(** ** Ordered maps: Rust's [BTreeMap<String, V>] as the list its iterator yields *)

Definition btree (V : Type) := list (string * V).

Fixpoint bt_get {V} (m : btree V) (k : string) : option V :=
  match m with
  | [] => None
  | (k', v) :: m => if decide (k = k') then Some v else bt_get m k
  end.

Definition bt_contains {V} (m : btree V) (k : string) : bool :=
  match bt_get m k with Some _ => true | None => false end.

Definition bt_keys {V} (m : btree V) : list string := m.*1.
Definition bt_values {V} (m : btree V) : list V := m.*2.

(** A value of type [BTreeMap] holds each key once. *)
Definition bt_wf {V} (m : btree V) : Prop := NoDup (bt_keys m).

Lemma bt_get_in {V} (m : btree V) k v : bt_get m k = Some v -> (k, v) ∈ m.
Proof.
  induction m as [|[k' v'] m IH]; simpl; [discriminate|].
  case_decide; intros Hg; simplify_eq; [left|right; auto].
Qed.

Lemma bt_get_keys {V} (m : btree V) k :
  is_Some (bt_get m k) <-> k ∈ bt_keys m.
Proof.
  induction m as [|[k' v'] m IH]; simpl.
  - split; [intros [? Hg]; discriminate|]. set_solver.
  - case_decide; subst; [|set_solver]. split; [set_solver|eauto].
Qed.

Lemma bt_contains_keys {V} (m : btree V) k :
  bt_contains m k = true <-> k ∈ bt_keys m.
Proof.
  rewrite <- bt_get_keys. unfold bt_contains, is_Some.
  destruct (bt_get m k); naive_solver.
Qed.

Lemma bt_contains_is_some {V} (m : btree V) k :
  bt_contains m k = true <-> exists v, bt_get m k = Some v.
Proof. unfold bt_contains. destruct (bt_get m k); naive_solver. Qed.

Lemma bt_in_get {V} (m : btree V) k v :
  bt_wf m -> (k, v) ∈ m -> bt_get m k = Some v.
Proof.
  unfold bt_wf. induction m as [|[k' v'] m IH]; simpl; intros Hnd Hin.
  - set_solver.
  - apply NoDup_cons in Hnd as [Hk' Hnd].
    apply elem_of_cons in Hin as [Heq|Hin]; simplify_eq; case_decide; simplify_eq; auto.
    exfalso. apply Hk'. unfold bt_keys. apply list_elem_of_fmap.
    exists (k', v). auto.
Qed.

#[export] Hint Resolve bt_get_in bt_in_get : core.

(** ** Strings: the parts of [str] the sources use, on byte strings *)

Local Open Scope string_scope.

Fixpoint strip_prefix (p s : string) : option string :=
  match p, s with
  | EmptyString, _ => Some s
  | String a p, String b s => if decide (a = b) then strip_prefix p s else None
  | String _ _, EmptyString => None
  end.

Definition starts_with (p s : string) : bool :=
  match strip_prefix p s with Some _ => true | None => false end.

(** [s.strip_suffix(suf)]: the shortest prefix of [s] whose rest is [suf]. *)
Fixpoint strip_suffix (suf s : string) : option string :=
  if decide (s = suf) then Some EmptyString
  else match s with
       | EmptyString => None
       | String a s => String a <$> strip_suffix suf s
       end.

Definition ends_with (suf s : string) : bool :=
  match strip_suffix suf s with Some _ => true | None => false end.

(** [s.split_once(c)] *)
Fixpoint split_once (c : Ascii.ascii) (s : string) : option (string * string) :=
  match s with
  | EmptyString => None
  | String a s =>
      if decide (a = c) then Some (EmptyString, s)
      else '(h, t) ← split_once c s; Some (String a h, t)
  end.

(** [s.split(c)]: never empty, one piece more than there are separators. *)
Fixpoint split_on (c : Ascii.ascii) (s : string) : list string :=
  match s with
  | EmptyString => [EmptyString]
  | String a s =>
      if decide (a = c) then EmptyString :: split_on c s
      else match split_on c s with
           | [] => [String a EmptyString]
           | h :: t => String a h :: t
           end
  end.

Definition str_is_empty (s : string) : bool :=
  match s with EmptyString => true | _ => false end.

Fixpoint str_all (p : Ascii.ascii -> bool) (s : string) : bool :=
  match s with EmptyString => true | String a s => p a && str_all p s end.

Definition byte_of (a : Ascii.ascii) : N := Ascii.N_of_ascii a.

Definition in_range (lo hi : N) (a : Ascii.ascii) : bool :=
  (lo <=? byte_of a)%N && (byte_of a <=? hi)%N.

(** [u8::is_ascii_alphanumeric] *)
Definition is_ascii_alphanumeric (a : Ascii.ascii) : bool :=
  in_range 48 57 a || in_range 65 90 a || in_range 97 122 a.

Lemma strip_prefix_app p s r : strip_prefix p s = Some r <-> s = p +:+ r.
Proof.
  revert s. induction p as [|a p IH]; intros s; simpl.
  - split; [intros [= ->]|intros ->]; done.
  - destruct s as [|b s]; [split; discriminate|].
    case_decide; subst; [rewrite IH; split; [intros ->|intros [= ->]]; done|].
    split; [discriminate|]. intros [= Ha _]. congruence.
Qed.

Lemma strip_suffix_app suf s r : strip_suffix suf s = Some r -> s = r +:+ suf.
Proof.
  revert r. induction s as [|a s IH]; intros r; simpl; case_decide; subst; simpl.
  - intros [= <-]. done.
  - discriminate.
  - intros [= <-]. done.
  - destruct (strip_suffix suf s) eqn:E; simpl; [|discriminate].
    intros [= <-]. by rewrite (IH _ eq_refl) at 1.
Qed.

Lemma str_all_app p a b : str_all p (a +:+ b) = str_all p a && str_all p b.
Proof.
  induction a as [|x a IH]; [done|]. change (String x a +:+ b) with (String x (a +:+ b)).
  cbn [str_all]. by rewrite IH, andb_assoc.
Qed.
