(* ===== verification/Numbers.v ===== *)
(** Machine integers and their textual forms: byte-order conversions
    ([to_be_bytes], [from_le_bytes], ...), decimal and hexadecimal formatting,
    and [str::parse] on unsigned integers, with their round trips. *)
From S2P Require Import Prelude.
Local Open Scope Z_scope.

(** ** Bytes *)

Definition is_byte (b : Z) : Prop := 0 <= b < 256.
Definition bytes_ok (l : list Z) : Prop := Forall is_byte l.

#[export] Instance is_byte_dec b : Decision (is_byte b).
Proof. unfold is_byte. apply _. Defined.

(** [x as u8], [as u16], [as u32], [as u64]: the low bits. *)
Definition as_u8 (z : Z) : Z := z mod 2 ^ 8.
Definition as_u16 (z : Z) : Z := z mod 2 ^ 16.
Definition as_u32 (z : Z) : Z := z mod 2 ^ 32.
Definition as_u64 (z : Z) : Z := z mod 2 ^ 64.

(** [n] bytes, the lowest first. *)
Fixpoint to_le_bytes (n : nat) (z : Z) : list Z :=
  match n with
  | O => []
  | S n => z mod 256 :: to_le_bytes n (z / 256)
  end.

Fixpoint from_le_bytes (l : list Z) : Z :=
  match l with [] => 0 | b :: l => b + 256 * from_le_bytes l end.

Definition to_be_bytes (n : nat) (z : Z) : list Z := reverse (to_le_bytes n z).
Definition from_be_bytes (l : list Z) : Z := from_le_bytes (reverse l).

Lemma to_le_bytes_length n z : length (to_le_bytes n z) = n.
Proof. revert z. induction n as [|n IH]; intros z; simpl; [done|]. by rewrite IH. Qed.

Lemma to_be_bytes_length n z : length (to_be_bytes n z) = n.
Proof. unfold to_be_bytes. by rewrite length_reverse, to_le_bytes_length. Qed.

Lemma to_le_bytes_ok n z : bytes_ok (to_le_bytes n z).
Proof.
  revert z. induction n as [|n IH]; intros z; constructor; [|apply IH].
  apply Z.mod_pos_bound. lia.
Qed.

Lemma to_be_bytes_ok n z : bytes_ok (to_be_bytes n z).
Proof. apply Forall_reverse, to_le_bytes_ok. Qed.

Lemma from_to_le n z : 0 <= z < 256 ^ Z.of_nat n -> from_le_bytes (to_le_bytes n z) = z.
Proof.
  revert z. induction n as [|n IH]; intros z Hz; simpl.
  - simpl in Hz. lia.
  - rewrite IH; [rewrite (Z.div_mod z 256) at 3; lia|].
    replace (Z.of_nat (S n)) with (1 + Z.of_nat n) in Hz by lia.
    rewrite Z.pow_add_r in Hz by lia.
    split; [apply Z.div_pos; lia|apply Z.div_lt_upper_bound; lia].
Qed.

Lemma from_to_be n z : 0 <= z < 256 ^ Z.of_nat n -> from_be_bytes (to_be_bytes n z) = z.
Proof. unfold from_be_bytes, to_be_bytes. rewrite reverse_involutive. apply from_to_le. Qed.

Lemma from_le_bound l : bytes_ok l -> 0 <= from_le_bytes l < 256 ^ Z.of_nat (length l).
Proof.
  induction 1 as [|b l Hb Hl IH]; [simpl; lia|].
  cbn [from_le_bytes length]. rewrite Nat2Z.inj_succ, Z.pow_succ_r by lia.
  unfold is_byte in Hb. nia.
Qed.

Lemma to_from_le l : bytes_ok l -> to_le_bytes (length l) (from_le_bytes l) = l.
Proof.
  induction 1 as [|b l Hb Hl IH]; simpl; [done|]. unfold is_byte in Hb.
  assert (Hm : (b + 256 * from_le_bytes l) mod 256 = b)
    by (rewrite Z.mul_comm, Z.mod_add, Z.mod_small by lia; done).
  assert (Hd : (b + 256 * from_le_bytes l) / 256 = from_le_bytes l)
    by (rewrite Z.mul_comm, Z.div_add, Z.div_small by lia; lia).
  rewrite Hm, Hd, IH. done.
Qed.

Lemma to_from_be l : bytes_ok l -> to_be_bytes (length l) (from_be_bytes l) = l.
Proof.
  intros Hl. unfold to_be_bytes, from_be_bytes.
  rewrite <- (length_reverse l), to_from_le by (by apply Forall_reverse).
  apply reverse_involutive.
Qed.

(** Lists of a known length, by their elements. *)
Lemma list_of_4 {A} (l : list A) : length l = 4%nat -> exists a b c d, l = [a; b; c; d].
Proof. destruct l as [|a [|b [|c [|d [|]]]]]; simpl; intros; try lia. eauto. Qed.

(** ** Decimal *)

Definition digit (d : Z) : Ascii.ascii := Ascii.ascii_of_N (Z.to_N (48 + d)).

Definition is_digit (a : Ascii.ascii) : bool := in_range 48 57 a.

Definition digit_val (a : Ascii.ascii) : Z := Z.of_N (byte_of a) - 48.

Fixpoint dec_aux (fuel : nat) (z : Z) (acc : string) : string :=
  match fuel with
  | O => acc
  | S fuel =>
      let acc := String (digit (z mod 10)) acc in
      if z <? 10 then acc else dec_aux fuel (z / 10) acc
  end.

(** [format!("{}", z)] on an unsigned integer; the fuel exceeds the number of
    binary digits, hence of decimal ones. *)
Definition dec_show (z : Z) : string := dec_aux (S (Z.to_nat (Z.log2 z))) z "".

(** The digits of [s], most significant first, failing at the first overflow. *)
Fixpoint parse_digits (max : Z) (s : string) (acc : Z) : option Z :=
  match s with
  | EmptyString => Some acc
  | String a s =>
      if is_digit a then
        let acc := acc * 10 + digit_val a in
        if max <? acc then None else parse_digits max s acc
      else None
  end.

(** [s.parse::<uN>()], [max] being the type's largest value: an optional [+] and
    at least one digit. *)
Definition parse_uint (max : Z) (s : string) : option Z :=
  let s := match strip_prefix "+" s with Some r => r | None => s end in
  if str_is_empty s then None else parse_digits max s 0.

Lemma byte_of_ascii n : (n < 256)%N -> byte_of (Ascii.ascii_of_N n) = n.
Proof. apply Ascii.N_ascii_embedding. Qed.

Lemma digit_spec d : 0 <= d < 10 -> is_digit (digit d) = true /\ digit_val (digit d) = d.
Proof.
  intros Hd. unfold is_digit, in_range, digit_val, digit. rewrite byte_of_ascii by lia.
  split; [|lia]. apply andb_true_iff. split; apply N.leb_le; lia.
Qed.

Lemma dec_aux_parse max fuel z acc :
  0 <= z <= max -> z < 2 ^ Z.of_nat fuel -> (0 < fuel)%nat ->
  parse_digits max (dec_aux fuel z acc) 0 = parse_digits max acc z.
Proof.
  revert z acc. induction fuel as [|fuel IH]; intros z acc Hz Hf Hp; [lia|].
  assert (Hd : 0 <= z mod 10 < 10) by (apply Z.mod_pos_bound; lia).
  destruct (digit_spec _ Hd) as [Hdig Hval]. cbn [dec_aux].
  assert (Hzz := Z.div_mod z 10 ltac:(lia)).
  destruct (Z.ltb_spec z 10) as [Hlt|Hge].
  - cbn [parse_digits]. rewrite Hdig, Hval, Z.mod_small by lia.
    destruct (Z.ltb_spec max (0 * 10 + z)); [lia|]. by replace (0 * 10 + z) with z by lia.
  - assert (Hq : 0 < z / 10 <= z) by (split; [apply Z.div_str_pos|apply Z.div_le_upper_bound]; lia).
    rewrite Nat2Z.inj_succ, Z.pow_succ_r in Hf by lia.
    rewrite IH; [|lia|apply Z.div_lt_upper_bound; lia|].
    + cbn [parse_digits]. rewrite Hdig, Hval.
      replace (z / 10 * 10 + z mod 10) with z by lia.
      destruct (Z.ltb_spec max z); [lia|done].
    + destruct fuel; [|lia]. simpl in Hf. lia.
Qed.

Lemma dec_fuel z : 0 <= z -> z < 2 ^ Z.of_nat (S (Z.to_nat (Z.log2 z))).
Proof.
  intros Hz. rewrite Nat2Z.inj_succ, Z2Nat.id by apply Z.log2_nonneg.
  destruct (decide (z = 0)) as [->|Hne]; [simpl; lia|]. apply Z.log2_spec. lia.
Qed.

Lemma dec_aux_all fuel z acc :
  str_all is_digit acc = true -> str_all is_digit (dec_aux fuel z acc) = true.
Proof.
  revert z acc. induction fuel as [|fuel IH]; intros z acc Hacc; [done|].
  assert (Hd : 0 <= z mod 10 < 10) by (apply Z.mod_pos_bound; lia).
  destruct (digit_spec _ Hd) as [Hdig _]. cbn [dec_aux].
  assert (str_all is_digit (String (digit (z mod 10)) acc) = true) by (simpl; by rewrite Hdig).
  destruct (z <? 10); auto.
Qed.

Lemma dec_aux_nonempty fuel z a acc : dec_aux fuel z (String a acc) <> EmptyString.
Proof.
  revert z a acc. induction fuel as [|fuel IH]; intros z a acc; simpl; [done|].
  destruct (z <? 10); [done|apply IH].
Qed.

Lemma dec_show_nonempty z : dec_show z <> EmptyString.
Proof. unfold dec_show. simpl. destruct (z <? 10); [done|apply dec_aux_nonempty]. Qed.

Lemma dec_show_digits z : str_all is_digit (dec_show z) = true.
Proof. by apply dec_aux_all. Qed.

(** Printing and parsing an unsigned integer. *)
Lemma parse_dec_show max z : 0 <= z <= max -> parse_uint max (dec_show z) = Some z.
Proof.
  intros Hz. unfold parse_uint.
  assert (Hp : parse_digits max (dec_show z) 0 = Some z).
  { unfold dec_show. rewrite dec_aux_parse; [done|done|apply dec_fuel; lia|lia]. }
  pose proof (dec_show_digits z) as Hall. pose proof (dec_show_nonempty z) as Hne.
  destruct (dec_show z) as [|a s]; [done|]. simpl. case_decide as Ha; [|done].
  subst a. vm_compute in Hall. discriminate.
Qed.

(** ** Hexadecimal *)

Definition hex_digit (d : Z) : Ascii.ascii :=
  Ascii.ascii_of_N (Z.to_N (if d <? 10 then 48 + d else 87 + d)).

(** The low [n] hexadecimal digits of [z], most significant first:
    [format!("{:032x}", z)] on a [u128] with [n] = 32. *)
Fixpoint hex_aux (n : nat) (z : Z) (acc : string) : string :=
  match n with
  | O => acc
  | S n => hex_aux n (z / 16) (String (hex_digit (z mod 16)) acc)
  end.

Definition hex_show (n : nat) (z : Z) : string := hex_aux n z "".

(** Byte strings given by their elements. *)
Ltac all_bytes := unfold bytes_ok; repeat apply Forall_cons_2; try apply Forall_nil_2; done.
