(* ===== verification/Dfs.v ===== *)
(** Depth-first search for a cycle, as the kernel registry ([_dfs_cycle] of
    kernel/registry/data_handle.rs) and the observation registry ([dfs_cycle] of
    kernel/observation/registry.rs) write it: it terminates, and it fails exactly
    when the graph has a cycle. *)
From stdpp Require Import relations.
From S2P Require Import Prelude.

Section Dfs.
Context {K : Type} {HeqK : EqDecision K} {HcountK : Countable K} {Er : Type}.

(** [color.get(n).copied().unwrap_or(0)]: 0 not visited, 1 on the stack, 2 done. *)
Definition color_of (color : gmap K Z) (n : K) : Z :=
  default 0%Z (color !! n).

(** The loop of [_dfs_cycle] over the neighbours of [node]; [visit] is the
    recursive call, [err node n] the error of a back edge.  [None]: the fuel of a
    recursive call ran out. *)
Fixpoint dfs_neighbors (err : K -> K -> Er)
    (visit : K -> gmap K Z -> option (result (gmap K Z) Er))
    (node : K) (ns : list K) (color : gmap K Z)
  : option (result (gmap K Z) Er) :=
  match ns with
  | [] => Some (Ok (<[node := 2%Z]> color))
  | n :: ns =>
      if (color_of color n =? 0)%Z then
        match visit n color with
        | Some (Ok color) => dfs_neighbors err visit node ns color
        | r => r
        end
      else if (color_of color n =? 1)%Z then Some (Err (err node n))
      else dfs_neighbors err visit node ns color
  end.

Fixpoint dfs_cycle (err : K -> K -> Er) (fuel : nat) (adj : K -> list K) (node : K)
    (color : gmap K Z) : option (result (gmap K Z) Er) :=
  match fuel with
  | O => None
  | S fuel => dfs_neighbors err (dfs_cycle err fuel adj) node (adj node) (<[node := 1%Z]> color)
  end.

Fixpoint dfs_all (err : K -> K -> Er) (fuel : nat) (adj : K -> list K) (starts : list K)
    (color : gmap K Z) : option (result (gmap K Z) Er) :=
  match starts with
  | [] => Some (Ok color)
  | s :: starts =>
      if (color_of color s =? 0)%Z then
        match dfs_cycle err fuel adj s color with
        | Some (Ok color) => dfs_all err fuel adj starts color
        | r => r
        end
      else dfs_all err fuel adj starts color
  end.

Context (adj : K -> list K).
Context (err : K -> K -> Er).

Definition edge (a b : K) : Prop := b ∈ adj a.

Definition white (c : gmap K Z) n := color_of c n = 0%Z.
Definition grey (c : gmap K Z) n := color_of c n = 1%Z.
Definition black (c : gmap K Z) n := ~ white c n /\ ~ grey c n.

Lemma color_insert c n z m :
    color_of (<[n := z]> c) m = if decide (n = m) then z else color_of c m.
Proof.
    unfold color_of. rewrite lookup_insert. case_decide; done.
Qed.

  (** Finished nodes are closed under edges and lie on no cycle. *)
Definition black_closed (c : gmap K Z) : Prop :=
    forall n, black c n -> (forall m, edge n m -> black c m) /\ ~ tc edge n n.

Lemma black_tc c n m : black_closed c -> black c n -> tc edge n m -> black c m.
Proof.
    intros Hc Hn Ht. induction Ht as [x y He|x y z He _ IH].
    - by apply (Hc x).
    - apply IH. by apply (Hc x).
Qed.

  (** What a successful visit does to the colours. *)
Definition step_ok (node : K) (c c' : gmap K Z) : Prop :=
    black c' node
    /\ (forall n, black c n -> n <> node -> black c' n)
    /\ (forall n, n <> node -> grey c n <-> grey c' n).

Definition visit_ok
      (visit : K -> gmap K Z -> option (result (gmap K Z) Er)) : Prop :=
    forall n c c', visit n c = Some (Ok c') -> white c n -> step_ok n c c'.

Definition visit_closed
      (visit : K -> gmap K Z -> option (result (gmap K Z) Er)) : Prop :=
    forall n c c', visit n c = Some (Ok c') -> white c n -> black_closed c -> black_closed c'.

Lemma white_not_black c n : white c n -> ~ black c n.
Proof. intros Hw [H _]. auto. Qed.

Lemma white_not_grey c n : white c n -> ~ grey c n.
Proof. unfold white, grey. lia. Qed.

Lemma finish_black c n : black (<[n := 2%Z]> c) n.
Proof. unfold black, white, grey. rewrite color_insert, decide_True by done. lia. Qed.

Lemma finish_mono c n m : black c m -> black (<[n := 2%Z]> c) m.
Proof.
    intros Hm. destruct (decide (n = m)) as [->|]; [apply finish_black|].
    unfold black, white, grey in *. by rewrite color_insert, decide_False.
Qed.

Lemma neighbors_step visit node :
    visit_ok visit ->
    forall ns c c', dfs_neighbors err visit node ns c = Some (Ok c') -> grey c node ->
    step_ok node c c'.
Proof.
    intros Hv ns. induction ns as [|n ns IH]; simpl; intros c c' H Hg.
    - injection H as <-. split; [apply finish_black|].
      split; intros; [by apply finish_mono|]. unfold grey. by rewrite color_insert, decide_False.
    - destruct (Z.eqb_spec (color_of c n) 0) as [Hw|Hw].
      + destruct (visit n c) as [[c1|]|] eqn:E; try discriminate.
        destruct (Hv _ _ _ E Hw) as (Hb & Hm & Hgr).
        assert (n <> node) as Hne by (intros ->; unfold grey in Hg; lia).
        destruct (IH _ _ H) as (? & Hm' & Hgr'); [by apply Hgr|].
        split; [done|]. split.
        * intros m Hm0 ?. apply Hm'; [|done]. apply Hm; [done|].
          intros ->. by apply (white_not_black c n).
        * intros m ?. rewrite <- Hgr' by done. destruct (decide (m = n)) as [->|].
          -- split; [by intros ?%white_not_grey|]. intros Hx. by destruct Hb as [_ []].
          -- by apply Hgr.
      + destruct (Z.eqb_spec (color_of c n) 1); [discriminate|]. eauto.
Qed.

Lemma dfs_step fuel : visit_ok (dfs_cycle err fuel adj).
Proof.
    induction fuel as [|fuel IH]; intros node c c' H Hw; simpl in H; [discriminate|].
    apply neighbors_step in H as (Hb & Hm & Hg); [|done|].
    - split; [done|]. split.
      + intros n Hn ?. apply Hm; [|done]. unfold black, white, grey in *.
        by rewrite color_insert, decide_False.
      + intros n ?. rewrite <- Hg by done. unfold grey. by rewrite color_insert, decide_False.
    - unfold grey. by rewrite color_insert, decide_True.
Qed.

Lemma start_black c n m : black (<[n := 1%Z]> c) m -> n <> m /\ black c m.
Proof.
    unfold black, white, grey. rewrite color_insert. case_decide; [lia|]. auto.
Qed.

Lemma start_mono c n m : black c m -> m <> n -> black (<[n := 1%Z]> c) m.
Proof. unfold black, white, grey. intros ? ?. by rewrite color_insert, decide_False. Qed.

Lemma finish_closed c node :
    grey c node -> (forall m, edge node m -> black c m) -> black_closed c ->
    black_closed (<[node := 2%Z]> c).
Proof.
    intros Hg Hadj Hc n Hn. destruct (decide (n = node)) as [->|Hne].
    - split; [by intros m He; apply finish_mono, Hadj|].
      intros Ht. assert (Hb : black c node); [|by destruct Hb as [_ []]].
      inversion Ht as [x y He|x y z He Ht']; subst; [by apply Hadj|].
      eapply black_tc; [done|by apply Hadj|done].
    - assert (black c n) as Hn'.
      { unfold black, white, grey in *. by rewrite color_insert, decide_False in Hn. }
      destruct (Hc n Hn') as [Hs ?]. split; [|done]. intros m He. by apply finish_mono, Hs.
Qed.

Lemma neighbors_closed visit node :
    visit_ok visit -> visit_closed visit ->
    forall ns c c', dfs_neighbors err visit node ns c = Some (Ok c') -> grey c node ->
    (forall m, edge node m -> m ∈ ns \/ black c m) ->
    black_closed c -> black_closed c'.
Proof.
    intros Hv Hvc ns. induction ns as [|n ns IH]; simpl; intros c c' H Hg Hadj Hc.
    - injection H as <-. by apply finish_closed; [|intros m [?%not_elem_of_nil|]%Hadj|].
    - destruct (Z.eqb_spec (color_of c n) 0) as [Hw|Hw].
      + destruct (visit n c) as [[c1|]|] eqn:E; try discriminate.
        destruct (Hv _ _ _ E Hw) as (Hb & Hm & Hgr).
        assert (n <> node) as Hne by (intros ->; unfold grey in Hg; lia).
        apply (IH _ _ H); [by apply Hgr| |by eapply Hvc].
        intros m He. destruct (Hadj m He) as [[->|?]%elem_of_cons|Hbm]; auto.
        right. apply Hm; [done|]. intros ->. by apply (white_not_black c n).
      + destruct (Z.eqb_spec (color_of c n) 1); [discriminate|].
        apply (IH _ _ H); auto. intros m He.
        destruct (Hadj m He) as [[->|?]%elem_of_cons|?]; auto.
        right. split; done.
Qed.

Lemma dfs_closed fuel : visit_closed (dfs_cycle err fuel adj).
Proof.
    induction fuel as [|fuel IH]; intros node c c' H Hw Hc; simpl in H; [discriminate|].
    eapply neighbors_closed in H; eauto using dfs_step.
    - unfold grey. by rewrite color_insert, decide_True.
    - intros n Hn. destruct (start_black _ _ _ Hn) as [Hne Hn'].
      destruct (Hc n Hn') as [Hs Hcy]. split; [|done].
      intros m He. apply start_mono; [by apply Hs|].
      intros Heq. subst m. by apply (white_not_black c node), Hs.
Qed.

  (** ** Soundness: success means no cycle through a visited node *)

Lemma dfs_all_closed fuel starts : forall c c',
    dfs_all err fuel adj starts c = Some (Ok c') -> black_closed c ->
    (forall n, ~ grey c n) ->
    black_closed c' /\ (forall n, black c n -> black c' n) /\ (forall n, n ∈ starts -> black c' n).
Proof.
    induction starts as [|s starts IH]; simpl; intros c c' H Hc Hg.
    - injection H as <-. set_solver.
    - destruct (Z.eqb_spec (color_of c s) 0) as [Hw|Hw].
      + destruct (dfs_cycle err fuel adj s c) as [[c1|]|] eqn:E; try discriminate.
        destruct (dfs_step _ _ _ _ E Hw) as (Hb & Hm & Hgr).
        destruct (IH _ _ H) as (? & Hm' & Hs').
        * by eapply dfs_closed.
        * intros n Hn. destruct (decide (n = s)) as [->|]; [by destruct Hb as [_ []]|].
          by apply (Hg n), Hgr.
        * split; [done|]. split.
          -- intros n Hn. apply Hm', Hm; [done|]. intros ->. by apply (white_not_black c s).
          -- intros n [->|?]%elem_of_cons; auto.
      + destruct (IH _ _ H Hc Hg) as (? & ? & ?). split; [done|]. split; [done|].
        intros n [->|?]%elem_of_cons; auto. apply H1. split; [done|]. apply Hg.
Qed.

  (** ** Completeness: a reported cycle is one *)

Definition stack_reaches (c : gmap K Z) (node : K) : Prop :=
    forall g, grey c g -> g = node \/ tc edge g node.

Definition visit_err
      (visit : K -> gmap K Z -> option (result (gmap K Z) Er)) : Prop :=
    forall n c e, visit n c = Some (Err e) -> white c n ->
    (forall g, grey c g -> tc edge g n) -> exists m, tc edge m m.

Lemma neighbors_err visit node :
    visit_ok visit -> visit_err visit ->
    forall ns c e, dfs_neighbors err visit node ns c = Some (Err e) -> grey c node ->
    (forall m, m ∈ ns -> edge node m) -> stack_reaches c node -> exists m, tc edge m m.
Proof.
    intros Hv Hve ns. induction ns as [|n ns IH]; simpl; intros c e H Hg Hns Hst; [discriminate|].
    assert (He : edge node n) by (apply Hns; left).
    destruct (Z.eqb_spec (color_of c n) 0) as [Hw|Hw].
    - destruct (visit n c) as [[c1|]|] eqn:E; try discriminate.
      + destruct (Hv _ _ _ E Hw) as (Hb & Hm & Hgr).
        assert (n <> node) as Hne by (intros ->; unfold grey in Hg; lia).
        apply (IH _ _ H); [by apply Hgr|set_solver|].
        intros g Hgg. destruct (decide (g = n)) as [->|]; [by destruct Hb as [_ []]|].
        by apply Hst, Hgr.
      + apply (Hve _ _ _ E Hw). intros g Hgg.
        destruct (Hst g Hgg) as [->|?]; [by apply tc_once|by eapply tc_r].
    - destruct (Z.eqb_spec (color_of c n) 1) as [Hgn|].
      + exists node. destruct (Hst n Hgn) as [->|?]; [by apply tc_once|by eapply tc_l].
      + apply (IH _ _ H); auto. set_solver.
Qed.

Lemma dfs_err fuel : visit_err (dfs_cycle err fuel adj).
Proof.
    induction fuel as [|fuel IH]; intros node c e H Hw Hst; simpl in H; [discriminate|].
    eapply neighbors_err in H; eauto using dfs_step.
    - unfold grey. by rewrite color_insert, decide_True.
    - intros g. unfold grey. rewrite color_insert. case_decide; auto.
Qed.

Lemma dfs_all_err fuel starts : forall c e,
    dfs_all err fuel adj starts c = Some (Err e) -> (forall n, ~ grey c n) -> exists m, tc edge m m.
Proof.
    induction starts as [|s starts IH]; simpl; intros c e H Hg; [discriminate|].
    destruct (Z.eqb_spec (color_of c s) 0) as [Hw|Hw]; [|eauto].
    destruct (dfs_cycle err fuel adj s c) as [[c1|]|] eqn:E; try discriminate.
    - destruct (dfs_step _ _ _ _ E Hw) as (Hb & Hm & Hgr).
      apply (IH _ _ H). intros n Hn.
      destruct (decide (n = s)) as [->|]; [by destruct Hb as [_ []]|]. by apply (Hg n), Hgr.
    - apply (dfs_err _ _ _ _ E Hw). intros g Hgg. by destruct (Hg g).
Qed.

  (** ** Termination: the recursion is no deeper than the nodes not yet visited *)

Context (nodes : gset K).
Hypothesis nodes_closed : forall a b, a ∈ nodes -> edge a b -> b ∈ nodes.

Definition unvisited (c : gmap K Z) : gset K :=
    filter (fun n : K => color_of c n = 0%Z) nodes.

Lemma elem_of_unvisited c n : n ∈ unvisited c <-> white c n /\ n ∈ nodes.
Proof. unfold unvisited. by rewrite elem_of_filter. Qed.

Lemma unvisited_step n c c' : step_ok n c c' -> unvisited c' ⊆ unvisited c.
Proof.
    intros (Hb & Hm & Hg) m. rewrite !elem_of_unvisited. intros [Hw ?]. split; [|done].
    destruct (decide (m = n)) as [->|Hne]; [by destruct Hb|].
    destruct (decide (color_of c m = 1%Z)) as [Hgm|Hgm].
    - apply Hg in Hgm; [|done]. unfold white, grey in *. lia.
    - destruct (decide (color_of c m = 0%Z)) as [|Hwm]; [done|].
      destruct (Hm m) as [Hx _]; [by split|done|]. by destruct Hx.
Qed.

Lemma unvisited_start c n :
    n ∈ nodes -> white c n -> size (unvisited (<[n := 1%Z]> c)) < size (unvisited c).
Proof.
    intros Hn Hw. apply subset_size. split.
    - intros m. rewrite !elem_of_unvisited. unfold white. rewrite color_insert.
      case_decide; [lia|done].
    - intros Hsub. assert (n ∈ unvisited (<[n := 1%Z]> c)) as Hx.
      { apply Hsub, elem_of_unvisited. done. }
      apply elem_of_unvisited in Hx as [Hx _]. unfold white in Hx.
      by rewrite color_insert, decide_True in Hx.
Qed.

Lemma neighbors_total fuel node :
    (forall n c, n ∈ nodes -> white c n -> size (unvisited c) <= fuel ->
       dfs_cycle err fuel adj n c <> None) ->
    forall ns c, (forall n, n ∈ ns -> n ∈ nodes) -> size (unvisited c) <= fuel ->
    dfs_neighbors err (dfs_cycle err fuel adj) node ns c <> None.
Proof.
    intros Hd ns. induction ns as [|n ns IH]; simpl; intros c Hns Hsz; [done|].
    destruct (Z.eqb_spec (color_of c n) 0) as [Hw|Hw].
    - destruct (dfs_cycle err fuel adj n c) as [[c1|]|] eqn:E; [|done|].
      + apply IH; [set_solver|]. pose proof (dfs_step _ _ _ _ E Hw) as Hs%unvisited_step%subseteq_size.
        lia.
      + exfalso. revert E. apply Hd; set_solver.
    - destruct (Z.eqb_spec (color_of c n) 1); [done|]. apply IH; set_solver.
Qed.

Lemma dfs_cycle_total fuel : forall n c,
    n ∈ nodes -> white c n -> size (unvisited c) <= fuel -> dfs_cycle err fuel adj n c <> None.
Proof.
    induction fuel as [|fuel IH]; intros n c Hn Hw Hsz; simpl;
      pose proof (unvisited_start c n Hn Hw); [lia|].
    apply neighbors_total; [done| |lia]. intros m Hm. by eapply nodes_closed.
Qed.

Lemma dfs_all_some fuel starts : forall c,
    (forall n, n ∈ starts -> n ∈ nodes) -> size (unvisited c) <= fuel ->
    dfs_all err fuel adj starts c <> None.
Proof.
    induction starts as [|s starts IH]; simpl; intros c Hst Hsz; [done|].
    destruct (Z.eqb_spec (color_of c s) 0) as [Hw|Hw]; [|apply IH; set_solver].
    destruct (dfs_cycle err fuel adj s c) as [[c1|]|] eqn:E; [|done|].
    - apply IH; [set_solver|]. pose proof (dfs_step _ _ _ _ E Hw) as Hs%unvisited_step%subseteq_size.
      lia.
    - exfalso. revert E. apply dfs_cycle_total; set_solver.
Qed.
End Dfs.

Lemma size_list_to_set_le `{Countable K} (l : list K) : size (list_to_set l : gset K) <= length l.
Proof.
  induction l as [|x l IH]; [done|].
  rewrite list_to_set_cons, length_cons, size_union_alt, size_singleton.
  assert (size (list_to_set l ∖ {[x]} : gset K) <= size (list_to_set l : gset K)).
  { apply subseteq_size. set_solver. }
  lia.
Qed.

(** ** The search decides acyclicity *)

Section Decide.
Context {K : Type} {HeqK : EqDecision K} {HcountK : Countable K} {Er : Type}.
Context (adj : K -> list K) (err : K -> K -> Er) (nodes starts : list K).
Hypothesis Hclosed : forall a b, a ∈ nodes -> b ∈ adj a -> b ∈ nodes.
Hypothesis Hstarts : forall n, n ∈ starts -> n ∈ nodes.
Hypothesis Hsources : forall a b, b ∈ adj a -> a ∈ starts.

Lemma dfs_all_defined fuel : length nodes <= fuel -> dfs_all err fuel adj starts ∅ <> None.
Proof.
  intros Hf. apply (dfs_all_some adj err (list_to_set nodes)).
  - intros a b. rewrite !elem_of_list_to_set. apply Hclosed.
  - intros n Hn. by apply elem_of_list_to_set, Hstarts.
  - transitivity (size (list_to_set nodes : gset K)).
    + apply subseteq_size. intros x. rewrite elem_of_unvisited. tauto.
    + pose proof (size_list_to_set_le nodes). lia.
Qed.

Lemma dfs_all_acyclic fuel r :
  dfs_all err fuel adj starts ∅ = Some r -> is_ok r = true <-> forall n, ~ tc (edge adj) n n.
Proof.
  intros Hr. assert (Hg : forall n, ~ grey (∅ : gmap K Z) n) by done. destruct r as [c|e]; cbn [is_ok].
  - split; [|done]. intros _ p Hp. destruct (dfs_all_closed _ _ _ _ _ _ Hr) as (Hc & _ & Hb); [|done|].
    + intros n [Hn _]. by destruct Hn.
    + apply (Hc p); [|done]. apply Hb. inversion Hp; subst; by eapply Hsources.
  - split; [discriminate|]. intros Hac. destruct (dfs_all_err _ _ _ _ _ _ Hr Hg) as [m Hm]. by destruct (Hac m).
Qed.
End Decide.
