(* ===== verification/KernelRegistry.v ===== *)
(** The kernel's data, the registry and its [verify] pass, and the graph of declared
    jumps it checks.

    Sources: crates/mesh-bus-core/src/kernel/{verdict,event,metadata} and
    kernel/registry/{types,verify_error,id_shape,data_handle}.rs.  Each [_check_*] function of the source is a
    definition of the same name (without the leading underscore), in the
    order of iteration of the [BTreeMap]s, so the first error it reports is
    the source's. *)
From stdpp Require Import relations.
From S2P Require Import Prelude Dfs.
Local Open Scope string_scope.

Abbreviation PipelineId := string (only parsing).
Abbreviation SinkId := string (only parsing).
Abbreviation SourceId := string (only parsing).
Abbreviation HookId := string (only parsing).

(** ** Verdicts *)

Record Reason := mkReason {
  reason_code : string;
  reason_detail : option string
}.

Inductive Verdict :=
| Continue
| Jump (target : PipelineId)
| Accept (sink : SinkId)
| Reject (reason : Reason)
| VDrop.

Definition verdict_label (v : Verdict) : string :=
  match v with
  | Continue => "Continue"
  | Jump _ => "Jump"
  | Accept _ => "Accept"
  | Reject _ => "Reject"
  | VDrop => "Drop"
  end.

(** ** Metadata *)

Inductive MetaValue :=
| MString (s : string)
| MU64 (n : Z)
| MBool (b : bool)
| MBytes (bs : list Z).

(** [SmallMap = Vec<(&'static str, MetaValue)>], scanned linearly. *)
Definition SmallMap := list (string * MetaValue).

Inductive ScheduleHintLabel := LOrdered | LFanOut | LStripe.

Record NetMeta := mkNetMeta {
  src_ip : option string;
  dst_host : option string;
  dst_port : option Z;
  net_protocol : option string
}.

Record TransportMeta := mkTransportMeta {
  tm_deadline_ms : option Z;
  tm_schedule_hint : option ScheduleHintLabel;
  tm_schedule_fanout_k : option Z
}.

Record TypedMap := mkTypedMap {
  net : NetMeta;
  transport : TransportMeta;
  policy_route_group : option string;
  auth_user : option string;
  trace_flow_id : option string;
  ext : SmallMap
}.

Definition TypedMap_default : TypedMap :=
  mkTypedMap (mkNetMeta None None None None) (mkTransportMeta None None None)
    None None None [].

(** [ext.iter_mut().find(|(k, _)| *k == key)] updates the first slot with the
    key, and a new key goes to the end. *)
Fixpoint ext_set (m : SmallMap) (key : string) (value : MetaValue) : SmallMap :=
  match m with
  | [] => [(key, value)]
  | (k, v) :: m =>
      if decide (k = key) then (k, value) :: m else (k, v) :: ext_set m key value
  end.

Fixpoint ext_get (m : SmallMap) (key : string) : option MetaValue :=
  match m with
  | [] => None
  | (k, v) :: m => if decide (k = key) then Some v else ext_get m key
  end.

(** ** Events and traces *)

Record Event := mkEvent {
  payload : list Z;
  meta : TypedMap
}.

Definition event_empty : Event := mkEvent [] TypedMap_default.

Record HookTrace := mkHookTrace {
  ht_hook_id : HookId;
  ht_verdict : string
}.

Definition hook_trace_record (hook_id : HookId) (v : Verdict) : HookTrace :=
  mkHookTrace hook_id (verdict_label v).

Record KernelCtx := mkKernelCtx { hook_trace : list HookTrace }.

Record Pipeline := mkPipeline {
  p_id : PipelineId;
  p_hooks : list HookId
}.

Record Wiring := mkWiring {
  w_source : SourceId;
  w_pipeline : PipelineId
}.

(** ** The extension map is a map *)

Lemma ext_get_set_eq m k v : ext_get (ext_set m k v) k = Some v.
Proof.
  induction m as [|[k' v'] m IH]; simpl; [by rewrite decide_True|].
  case_decide; simpl; [by rewrite decide_True|]. by rewrite decide_False.
Qed.

Lemma ext_get_set_ne m k k' v :
  k <> k' -> ext_get (ext_set m k v) k' = ext_get m k'.
Proof.
  intros Hne. induction m as [|[k0 v0] m IH]; simpl; [by rewrite decide_False|].
  case_decide; subst; simpl.
  - by rewrite !decide_False.
  - case_decide; [done|]. apply IH.
Qed.

Lemma ext_set_keys m k v x : x ∈ (ext_set m k v).*1 -> x ∈ m.*1 \/ x = k.
Proof.
  induction m as [|[k0 v0] m IH]; simpl; [set_solver|].
  case_decide; simpl; set_solver.
Qed.

Lemma ext_set_keys_nodup m k v : NoDup m.*1 -> NoDup (ext_set m k v).*1.
Proof.
  induction m as [|[k0 v0] m IH]; simpl; intros Hnd.
  - repeat constructor; set_solver.
  - apply NoDup_cons in Hnd as [Hk Hnd]. case_decide; simpl; constructor; auto.
    by intros [?|?]%ext_set_keys.
Qed.

(** * The registry *)

Local Open Scope string_scope.

(** ** Registry data *)

(** [fn(&mut Event, &mut KernelCtx) -> Verdict]: the new event and context
    come back beside the verdict. *)
Definition HookFn := Event -> KernelCtx -> Verdict * Event * KernelCtx.

Inductive HookKind := HkNet | HkTransport | HkPolicy | HkAuth | HkSideEffect.

#[export] Instance HookKind_eq_dec : EqDecision HookKind.
Proof. solve_decision. Defined.

Record HookSpec := mkHookSpec {
  h_id : HookId;
  h_kind : HookKind;
  allowed_namespaces : list string;
  reads : list string;
  writes : list string;
  may_terminate : bool;
  may_jump : bool;
  may_jump_to : list PipelineId;
  may_accept_to : list SinkId;
  side_effect_only : bool
}.

Record SourceSpec := mkSourceSpec {
  s_id : SourceId;
  s_kind : string;
  initial_writes : list string
}.

Record SinkSpec := mkSinkSpec {
  k_id : SinkId;
  k_kind : string
}.

Record KernelRegistry := mkKernelRegistry {
  sources : btree SourceSpec;
  sinks : btree SinkSpec;
  hooks : btree HookSpec;
  pipelines : btree Pipeline;
  wirings : list Wiring;
  fns : btree HookFn
}.

Inductive VerifyError :=
| UnknownHook (pipeline hook : string)
| MissingHookFn (pipeline hook : string)
| UnknownHookFn (hook : string)
| RegistryIdentityMismatch (kind key id : string)
| InvalidSourceId (source_id : string)
| InvalidSinkId (sink_id : string)
| InvalidPipelineId (pipeline_id : string)
| InvalidHookId (hook_id : string)
| InvalidSourceKind (source_id kind : string)
| InvalidSinkKind (sink_id kind : string)
| UnknownSource (source_id : string)
| UnknownWiringPipeline (source_id pipeline : string)
| DuplicateWiringSource (source_id : string)
| MissingSourceWiring (source_id : string)
| UnknownSink (hook sink : string)
| InvalidAcceptDeclaration (hook : string)
| UnknownPipelineJumpTarget (from hook to : string)
| InvalidJumpDeclaration (hook : string)
| JumpCycle (node : string)
| UnsatisfiedRead (pipeline hook key : string)
| NamespaceViolation (pipeline hook key side : string)
| InvalidMetadataKey (owner key : string)
| InvalidNamespacePattern (hook pattern : string)
| PolicyReadsPayload (pipeline hook : string)
| SideEffectMutatesVerdict (pipeline hook key : string)
| PipelineDoesNotTerminate (pipeline : string).

Abbreviation check := (result unit VerifyError).

Definition VERDICT_NAMESPACES : list string := ["policy"; "auth"].
Definition METADATA_NAMESPACES : list string :=
  ["net"; "transport"; "policy"; "auth"; "trace"; "ext"].

Definition str_mem (x : string) (l : list string) : bool := bool_decide (x ∈ l).

(** ** Identifier shapes (id_shape.rs) *)

Definition is_valid_id_shape (id : string) : bool :=
  negb (str_is_empty id)
  && str_all (fun b => is_ascii_alphanumeric b
                       || str_mem (String b EmptyString) ["_"; "."; ":"; "-"]) id.

Definition check_source_id (id : string) : check :=
  ensure (is_valid_id_shape id) (InvalidSourceId id).
Definition check_sink_id (id : string) : check :=
  ensure (is_valid_id_shape id) (InvalidSinkId id).
Definition check_pipeline_id (id : string) : check :=
  ensure (is_valid_id_shape id) (InvalidPipelineId id).
Definition check_hook_id (id : string) : check :=
  ensure (is_valid_id_shape id) (InvalidHookId id).

Definition check_id_shapes (reg : KernelRegistry) : check :=
  do? try_each check_source_id (bt_keys (sources reg));
  do? try_each (fun w => check_source_id (w_source w)) (wirings reg);
  do? try_each check_sink_id (bt_keys (sinks reg));
  do? try_each check_pipeline_id (bt_keys (pipelines reg));
  do? try_each (fun w => check_pipeline_id (w_pipeline w)) (wirings reg);
  do? try_each check_hook_id (bt_keys (hooks reg) ++ bt_keys (fns reg));
  do? try_each (fun p => do? check_pipeline_id (p_id p); try_each check_hook_id (p_hooks p))
        (bt_values (pipelines reg));
  do? try_each (fun s => do? check_hook_id (h_id s); try_each check_pipeline_id (may_jump_to s))
        (bt_values (hooks reg));
  try_each (fun s => try_each check_sink_id (may_accept_to s)) (bt_values (hooks reg)).

(** ** Identity and kind checks *)

Definition check_identities {V} (kind : string) (id_of : V -> string) (m : btree V) : check :=
  try_each (fun '(k, v) => ensure (bool_decide (id_of v = k))
                             (RegistryIdentityMismatch kind k (id_of v))) m.

Definition check_registry_identities (reg : KernelRegistry) : check :=
  do? check_identities "source" s_id (sources reg);
  do? check_identities "sink" k_id (sinks reg);
  do? check_identities "hook" h_id (hooks reg);
  check_identities "pipeline" p_id (pipelines reg).

Definition check_spec_kinds (reg : KernelRegistry) : check :=
  do? try_each (fun '(id, s) => ensure (bool_decide (s_kind s = "application/source"))
                                  (InvalidSourceKind id (s_kind s))) (sources reg);
  try_each (fun '(id, k) => ensure (str_mem (k_kind k) ["stream_egress"; "datagram_egress"])
                              (InvalidSinkKind id (k_kind k))) (sinks reg).

(** ** Wirings: [wired] is the set of sources wired so far *)

Fixpoint check_wirings_loop (reg : KernelRegistry) (ws : list Wiring) (wired : list string)
  : result (list string) VerifyError :=
  match ws with
  | [] => Ok wired
  | w :: ws =>
      do? ensure (negb (str_mem (w_source w) wired)) (DuplicateWiringSource (w_source w));
      do? ensure (bt_contains (sources reg) (w_source w)) (UnknownSource (w_source w));
      do? ensure (bt_contains (pipelines reg) (w_pipeline w))
            (UnknownWiringPipeline (w_source w) (w_pipeline w));
      check_wirings_loop reg ws (w_source w :: wired)
  end.

Definition check_wirings_exist (reg : KernelRegistry) : check :=
  let? wired := check_wirings_loop reg (wirings reg) [] in
  try_each (fun id => ensure (str_mem id wired) (MissingSourceWiring id))
    (bt_keys (sources reg)).

(** ** Hooks, sinks and jump declarations *)

Definition check_hooks_exist (reg : KernelRegistry) : check :=
  try_each (fun '(pid, p) =>
    try_each (fun h => ensure (bt_contains (hooks reg) h) (UnknownHook pid h)) (p_hooks p))
    (pipelines reg).

Definition check_hook_fns (reg : KernelRegistry) : check :=
  do? try_each (fun h => ensure (bt_contains (hooks reg) h) (UnknownHookFn h))
        (bt_keys (fns reg));
  try_each (fun '(pid, p) =>
    try_each (fun h => ensure (bt_contains (fns reg) h) (MissingHookFn pid h)) (p_hooks p))
    (pipelines reg).

Definition check_accept_declarations (reg : KernelRegistry) : check :=
  try_each (fun '(hid, s) =>
    ensure (negb (negb (may_terminate s) && negb (bool_decide (may_accept_to s = []))))
      (InvalidAcceptDeclaration hid)) (hooks reg).

Definition check_sink_targets (reg : KernelRegistry) : check :=
  try_each (fun '(hid, s) =>
    try_each (fun k => ensure (bt_contains (sinks reg) k) (UnknownSink hid k)) (may_accept_to s))
    (hooks reg).

Definition check_jump_declarations (reg : KernelRegistry) : check :=
  try_each (fun '(hid, s) =>
    ensure (negb (negb (may_jump s) && negb (bool_decide (may_jump_to s = []))))
      (InvalidJumpDeclaration hid)) (hooks reg).

Definition check_jump_targets (reg : KernelRegistry) : check :=
  try_each (fun '(pid, p) =>
    try_each (fun h =>
      match bt_get (hooks reg) h with
      | Some s => try_each (fun t => ensure (bt_contains (pipelines reg) t)
                                       (UnknownPipelineJumpTarget pid h t)) (may_jump_to s)
      | None => Ok tt
      end) (p_hooks p)) (pipelines reg).

(** ** The jump graph and its depth-first cycle check *)

(** [adj]: the targets of the hooks a pipeline runs, in order. *)
Definition jump_targets (reg : KernelRegistry) (p : Pipeline) : list PipelineId :=
  flat_map may_jump_to (omap (bt_get (hooks reg)) (p_hooks p)).

Definition adj (reg : KernelRegistry) (pid : PipelineId) : list PipelineId :=
  match bt_get (pipelines reg) pid with
  | Some p => jump_targets reg p
  | None => []
  end.

(** Every node the search can meet: the pipelines and their jump targets. *)
Definition dag_nodes (reg : KernelRegistry) : list string :=
  bt_keys (pipelines reg) ++ flat_map (adj reg) (bt_keys (pipelines reg)).

Definition dag_fuel (reg : KernelRegistry) : nat := S (length (dag_nodes reg)).

(** The source recurses without a bound; [dag_fuel] is enough for every
    registry ([dfs_all_total]), so the last branch is never taken. *)
Definition check_jump_dag (reg : KernelRegistry) : check :=
  match dfs_all (fun node _ => JumpCycle node) (dag_fuel reg) (adj reg) (bt_keys (pipelines reg)) ∅ with
  | Some (Ok _) => Ok tt
  | Some (Err e) => Err e
  | None => Err (JumpCycle EmptyString)
  end.

(** ** Termination, metadata keys and namespaces *)

Definition hook_can_end (s : HookSpec) : bool :=
  may_terminate s || (may_jump s && negb (bool_decide (may_jump_to s = []))).

Definition check_pipeline_terminates (reg : KernelRegistry) : check :=
  try_each (fun '(pid, p) =>
    ensure (existsb (fun h => match bt_get (hooks reg) h with
                              | Some s => hook_can_end s
                              | None => false
                              end) (p_hooks p))
      (PipelineDoesNotTerminate pid)) (pipelines reg).

Definition dot : Ascii.ascii := "."%char.

(** [key.split('.').next().unwrap_or("")] *)
Definition head (key : string) : string :=
  match split_on dot key with [] => EmptyString | h :: _ => h end.

Definition ns_covers (patterns : list string) (key : string) : bool :=
  existsb (fun p =>
    match strip_suffix ".*" p with
    | None => false
    | Some p_head =>
        match strip_prefix p_head key with
        | Some rest => starts_with "." rest
        | None => false
        end
    end) patterns.

Definition is_valid_namespace_pattern (pattern : string) : bool :=
  match strip_suffix ".*" pattern with
  | None => false
  | Some h => str_mem h METADATA_NAMESPACES
  end.

Definition is_valid_metadata_key (key : string) : bool :=
  match split_once dot key with
  | None => false
  | Some (h, rest) =>
      str_mem h METADATA_NAMESPACES
      && forallb (fun part => negb (str_is_empty part)
                              && str_all (fun b => is_ascii_alphanumeric b
                                                   || bool_decide (b = "_"%char)) part)
           (split_on dot rest)
  end.

Definition check_metadata_keys (reg : KernelRegistry) : check :=
  do? try_each (fun '(sid, s) =>
        try_each (fun key => ensure (is_valid_metadata_key key)
                               (InvalidMetadataKey ("source:" +:+ sid) key))
          (initial_writes s)) (sources reg);
  try_each (fun '(hid, s) =>
    try_each (fun key => ensure (is_valid_metadata_key key)
                           (InvalidMetadataKey ("hook:" +:+ hid) key))
      (reads s ++ writes s)) (hooks reg).

Definition check_namespace_patterns (reg : KernelRegistry) : check :=
  try_each (fun '(hid, s) =>
    try_each (fun pat => ensure (is_valid_namespace_pattern pat)
                           (InvalidNamespacePattern hid pat))
      (allowed_namespaces s)) (hooks reg).

(** The keys a pipeline starts with: what the sources wired to it write. *)
Definition initial_available (reg : KernelRegistry) (pid : PipelineId) : list string :=
  flat_map initial_writes
    (omap (fun w => bt_get (sources reg) (w_source w))
       (filter (fun w => w_pipeline w = pid) (wirings reg))).

Definition check_hook_namespaces (pid hid : string) (s : HookSpec) (available : list string)
  : check :=
  do? ensure (negb (bool_decide (h_kind s = HkPolicy) && str_mem "net.payload" (reads s)))
        (PolicyReadsPayload pid hid);
  do? try_each (fun w => ensure (ns_covers (allowed_namespaces s) w)
                           (NamespaceViolation pid hid w "write")) (writes s);
  do? try_each (fun r => ensure (ns_covers (allowed_namespaces s) r)
                           (NamespaceViolation pid hid r "read")) (reads s);
  do? (if side_effect_only s then
         try_each (fun w => ensure (negb (str_mem (head w) VERDICT_NAMESPACES))
                              (SideEffectMutatesVerdict pid hid w)) (writes s)
       else Ok tt);
  try_each (fun r => ensure (str_mem r available) (UnsatisfiedRead pid hid r)) (reads s).

(** A hook without a spec is skipped ([None => continue]). *)
Fixpoint check_pipeline_namespaces (reg : KernelRegistry) (pid : string)
    (hs : list HookId) (available : list string) : check :=
  match hs with
  | [] => Ok tt
  | h :: hs =>
      match bt_get (hooks reg) h with
      | None => check_pipeline_namespaces reg pid hs available
      | Some s =>
          do? check_hook_namespaces pid h s available;
          check_pipeline_namespaces reg pid hs (writes s ++ available)
      end
  end.

Definition check_namespace_rules (reg : KernelRegistry) : check :=
  try_each (fun '(pid, p) =>
    check_pipeline_namespaces reg pid (p_hooks p) (initial_available reg pid))
    (pipelines reg).

(** ** The whole pass *)

Definition verify (reg : KernelRegistry) : check :=
  do? check_registry_identities reg;
  do? check_id_shapes reg;
  do? check_spec_kinds reg;
  do? check_wirings_exist reg;
  do? check_hooks_exist reg;
  do? check_accept_declarations reg;
  do? check_sink_targets reg;
  do? check_jump_declarations reg;
  do? check_jump_targets reg;
  do? check_jump_dag reg;
  do? check_pipeline_terminates reg;
  do? check_metadata_keys reg;
  do? check_namespace_patterns reg;
  do? check_namespace_rules reg;
  check_hook_fns reg.

(** * The jump graph *)

(** ** The registry's jump graph *)

Section Registry.
Context (reg : KernelRegistry).

  (** Pipeline [a] declares a jump to pipeline [b]. *)
Definition jumps_to (a b : PipelineId) : Prop := b ∈ adj reg a.

Definition acyclic : Prop := forall p, ~ tc jumps_to p p.

Lemma adj_registered a b : b ∈ adj reg a -> a ∈ bt_keys (pipelines reg).
Proof.
    unfold adj. destruct (bt_get (pipelines reg) a) eqn:E; [|set_solver].
    intros _. apply bt_get_keys. eauto.
Qed.

Lemma dag_nodes_closed a b : a ∈ dag_nodes reg -> b ∈ adj reg a -> b ∈ dag_nodes reg.
Proof.
    intros _ Hb. apply elem_of_app. right. apply list_elem_of_In, in_flat_map.
    exists a. split; apply list_elem_of_In; [|done]. by eapply adj_registered.
Qed.

Lemma dfs_all_total : dfs_all (fun node _ => JumpCycle node) (dag_fuel reg) (adj reg) (bt_keys (pipelines reg)) ∅ <> None.
Proof.
    apply (dfs_all_defined _ _ (dag_nodes reg)); [apply dag_nodes_closed| |unfold dag_fuel; lia].
    intros n Hn. apply elem_of_app. by left.
Qed.

Lemma check_jump_dag_iff : check_jump_dag reg = Ok tt <-> acyclic.
Proof.
    unfold check_jump_dag. pose proof dfs_all_total as Ht.
    destruct (dfs_all _ _ _ _ _) as [r|] eqn:E; [|done].
    rewrite <- (dfs_all_acyclic _ _ _ adj_registered _ _ E). destruct r; cbn; naive_solver.
Qed.
End Registry.
