(* ===== verification/RegistrySpec.v ===== *)
(** What a verified registry is, without the checks: the declarative contract
    of [verify] (kernel/registry/data_handle.rs) and the proof that the pass
    implements it exactly. *)
From S2P Require Import Prelude KernelRegistry.
Local Open Scope string_scope.

(** ** The contract *)

Definition keyed {V} (id_of : V -> string) (m : btree V) : Prop :=
  forall k v, (k, v) ∈ m -> id_of v = k.

Definition shaped (id : string) : Prop := is_valid_id_shape id = true.

Record ids_shaped (reg : KernelRegistry) : Prop := {
  is_sources : Forall shaped (bt_keys (sources reg));
  is_sinks : Forall shaped (bt_keys (sinks reg));
  is_hooks : Forall shaped (bt_keys (hooks reg) ++ bt_keys (fns reg))%list;
  is_pipelines : Forall shaped (bt_keys (pipelines reg));
  is_wirings : Forall (fun w => shaped (w_source w) /\ shaped (w_pipeline w)) (wirings reg);
  is_pipeline_hooks :
    Forall (fun p => shaped (p_id p) /\ Forall shaped (p_hooks p)) (bt_values (pipelines reg));
  is_specs :
    Forall (fun s => shaped (h_id s) /\ Forall shaped (may_jump_to s)
                     /\ Forall shaped (may_accept_to s)) (bt_values (hooks reg))
}.

(** Every source has exactly one wiring, and a wiring joins known ends. *)
Record wired (reg : KernelRegistry) : Prop := {
  wi_once : NoDup (w_source <$> wirings reg);
  wi_source : forall w, w ∈ wirings reg -> w_source w ∈ bt_keys (sources reg);
  wi_pipeline : forall w, w ∈ wirings reg -> w_pipeline w ∈ bt_keys (pipelines reg);
  wi_all : forall s, s ∈ bt_keys (sources reg) -> s ∈ w_source <$> wirings reg
}.

(** What a hook may read when it runs after the hooks [before] of [pid]. *)
Definition readable (reg : KernelRegistry) (pid : PipelineId) (before : list HookId)
    (key : string) : Prop :=
  key ∈ initial_available reg pid
  \/ exists h s, h ∈ before /\ bt_get (hooks reg) h = Some s /\ key ∈ writes s.

Record hook_disciplined (s : HookSpec) : Prop := {
  hd_policy : ~ (h_kind s = HkPolicy /\ "net.payload" ∈ reads s);
  hd_covered : forall k, k ∈ reads s \/ k ∈ writes s -> ns_covers (allowed_namespaces s) k = true;
  hd_side_effect :
    side_effect_only s = true -> forall k, k ∈ writes s -> head k ∉ VERDICT_NAMESPACES
}.

Record RegistryOk (reg : KernelRegistry) : Prop := {
  ro_keyed : keyed s_id (sources reg) /\ keyed k_id (sinks reg)
             /\ keyed h_id (hooks reg) /\ keyed p_id (pipelines reg);
  ro_shaped : ids_shaped reg;
  ro_source_kinds : forall id s, (id, s) ∈ sources reg -> s_kind s = "application/source";
  ro_sink_kinds : forall id k, (id, k) ∈ sinks reg ->
    k_kind k ∈ ["stream_egress"; "datagram_egress"];
  ro_wired : wired reg;
  ro_hooks : forall pid p h, (pid, p) ∈ pipelines reg -> h ∈ p_hooks p ->
    h ∈ bt_keys (hooks reg) /\ h ∈ bt_keys (fns reg);
  ro_fns : forall h, h ∈ bt_keys (fns reg) -> h ∈ bt_keys (hooks reg);
  ro_accepts : forall h s, (h, s) ∈ hooks reg ->
    (may_accept_to s <> [] -> may_terminate s = true)
    /\ (forall k, k ∈ may_accept_to s -> k ∈ bt_keys (sinks reg));
  ro_jumps : forall h s, (h, s) ∈ hooks reg -> may_jump_to s <> [] -> may_jump s = true;
  ro_targets : forall pid p t, (pid, p) ∈ pipelines reg -> t ∈ jump_targets reg p ->
    t ∈ bt_keys (pipelines reg);
  ro_acyclic : acyclic reg;
  ro_ends : forall pid p, (pid, p) ∈ pipelines reg ->
    exists h s, h ∈ p_hooks p /\ bt_get (hooks reg) h = Some s /\ hook_can_end s = true;
  ro_keys :
    (forall id s k, (id, s) ∈ sources reg -> k ∈ initial_writes s -> is_valid_metadata_key k = true)
    /\ (forall h s k, (h, s) ∈ hooks reg -> k ∈ reads s \/ k ∈ writes s ->
        is_valid_metadata_key k = true);
  ro_patterns : forall h s p, (h, s) ∈ hooks reg -> p ∈ allowed_namespaces s ->
    is_valid_namespace_pattern p = true;
  ro_disciplined : forall pid p h s, (pid, p) ∈ pipelines reg -> h ∈ p_hooks p ->
    bt_get (hooks reg) h = Some s -> hook_disciplined s;
  ro_reads : forall pid p before h after s k, (pid, p) ∈ pipelines reg ->
    p_hooks p = (before ++ h :: after)%list -> bt_get (hooks reg) h = Some s -> k ∈ reads s ->
    readable reg pid before k
}.

(** ** Each check, as what it checks *)

Lemma str_mem_iff x l : str_mem x l = true <-> x ∈ l.
Proof. unfold str_mem. by rewrite bool_decide_eq_true. Qed.

Lemma negb_str_mem_iff x l : negb (str_mem x l) = true <-> x ∉ l.
Proof. by rewrite negb_true_iff, <- not_true_iff_false, str_mem_iff. Qed.

#[local] Hint Rewrite str_mem_iff negb_str_mem_iff @bt_contains_keys @bool_decide_eq_true
  @Forall_forall : mb_ok.

Lemma Forall_pair {V} (P : string -> V -> Prop) (m : btree V) :
  Forall (fun '(k, v) => P k v) m <-> forall k v, (k, v) ∈ m -> P k v.
Proof.
  rewrite Forall_forall. split; [intros H k v Hin; apply (H _ Hin)|]. intros H [k v]; apply H.
Qed.

Lemma check_identities_iff {V} kind (id_of : V -> string) m :
  check_identities kind id_of m = Ok tt <-> keyed id_of m.
Proof.
  unfold check_identities, keyed. rewrite try_each_ok, <- Forall_pair.
  apply Forall_iff. intros [k v]. by autorewrite with mb_ok.
Qed.

Lemma check_registry_identities_iff reg :
  check_registry_identities reg = Ok tt <->
  keyed s_id (sources reg) /\ keyed k_id (sinks reg)
  /\ keyed h_id (hooks reg) /\ keyed p_id (pipelines reg).
Proof. unfold check_registry_identities. by rewrite !seq_ok, !check_identities_iff. Qed.

Lemma check_id_iff (e : string -> VerifyError) l :
  try_each (fun id => ensure (is_valid_id_shape id) (e id)) l = Ok tt <-> Forall shaped l.
Proof. rewrite try_each_ok. apply Forall_iff. intros x. apply ensure_ok. Qed.

Lemma check_id_shapes_iff reg : check_id_shapes reg = Ok tt <-> ids_shaped reg.
Proof.
  unfold check_id_shapes, check_source_id, check_sink_id, check_pipeline_id, check_hook_id.
  rewrite !seq_ok, !check_id_iff, !try_each_ok.
  split.
  - intros (? & Hws & ? & ? & Hwp & ? & Hp & Hh & Ha). split; try done.
    + rewrite Forall_forall in *. intros w Hw. split.
      * by apply (ensure_ok _ (InvalidSourceId (w_source w))), Hws.
      * by apply (ensure_ok _ (InvalidPipelineId (w_pipeline w))), Hwp.
    + eapply Forall_impl; [exact Hp|]. intros p. by rewrite seq_ok, ensure_ok, check_id_iff.
    + rewrite Forall_forall in *. intros s Hs.
      specialize (Hh s Hs). specialize (Ha s Hs). simpl in *.
      rewrite seq_ok, ensure_ok, check_id_iff in Hh. rewrite check_id_iff in Ha. tauto.
  - intros [? ? ? ? Hw Hp Hh].
    assert (Hs : forall (P Q : Wiring -> Prop), (forall w, P w -> Q w) -> Forall P (wirings reg) ->
      Forall Q (wirings reg)) by (intros P Q HPQ HP; by eapply Forall_impl).
    repeat split; try done.
    + eapply Hs; [|exact Hw]. intros w [? ?]. by apply ensure_ok.
    + eapply Hs; [|exact Hw]. intros w [? ?]. by apply ensure_ok.
    + eapply Forall_impl; [exact Hp|]. intros p. by rewrite seq_ok, ensure_ok, check_id_iff.
    + eapply Forall_impl; [exact Hh|]. intros s. rewrite seq_ok, ensure_ok, check_id_iff. tauto.
    + eapply Forall_impl; [exact Hh|]. intros s. rewrite check_id_iff. tauto.
Qed.

Lemma check_spec_kinds_iff reg :
  check_spec_kinds reg = Ok tt <->
  (forall id s, (id, s) ∈ sources reg -> s_kind s = "application/source")
  /\ (forall id k, (id, k) ∈ sinks reg -> k_kind k ∈ ["stream_egress"; "datagram_egress"]).
Proof.
  unfold check_spec_kinds. rewrite seq_ok, !try_each_ok, <- !Forall_pair.
  f_equiv; apply Forall_iff; intros [? ?]; by autorewrite with mb_ok.
Qed.

Lemma check_wirings_loop_ok reg ws : forall wired wired',
  check_wirings_loop reg ws wired = Ok wired' <->
  (NoDup (w_source <$> ws) /\ (forall w, w ∈ ws -> w_source w ∉ wired))
  /\ (forall w, w ∈ ws -> w_source w ∈ bt_keys (sources reg) /\
        w_pipeline w ∈ bt_keys (pipelines reg))
  /\ wired' = (reverse (w_source <$> ws) ++ wired)%list.
Proof.
  induction ws as [|w ws IH]; intros wi wi'; simpl.
  - split; [intros [= <-]|intros (_ & _ & ->); done].
    split; [split; [constructor|set_solver]|]. split; [set_solver|done].
  - unfold ensure. destruct (negb (str_mem (w_source w) wi)) eqn:E1.
    2: { split; [discriminate|]. intros [[_ H] _]. exfalso.
         apply negb_false_iff, str_mem_iff in E1. by apply (H w); [left|]. }
    apply negb_str_mem_iff in E1.
    destruct (bt_contains (sources reg) (w_source w)) eqn:E2.
    2: { split; [discriminate|]. intros [_ [H _]]. exfalso.
         destruct (H w) as [H2 _]; [left|]. apply bt_contains_keys in H2. congruence. }
    destruct (bt_contains (pipelines reg) (w_pipeline w)) eqn:E3.
    2: { split; [discriminate|]. intros [_ [H _]]. exfalso.
         destruct (H w) as [_ H3]; [left|]. apply bt_contains_keys in H3. congruence. }
    rewrite bt_contains_keys in E2. rewrite bt_contains_keys in E3. rewrite IH, NoDup_cons, reverse_cons, <- app_assoc. simpl.
    rewrite list_elem_of_fmap. split.
    + intros ([Hnd Hni] & Hk & ->). split; [|split; [set_solver|done]].
      split; [split; [|done]|set_solver]. intros (w' & Heq & Hw').
      apply (Hni w' Hw'). rewrite Heq. left.
    + intros ([[Hne Hnd] Hni] & Hk & ->). split; [|split; [set_solver|done]].
      split; [done|]. intros w' Hw' [Heq|?]%elem_of_cons; [by apply Hne; exists w'|].
      by apply (Hni w'); [right|].
Qed.

Lemma check_wirings_exist_iff reg : check_wirings_exist reg = Ok tt <-> wired reg.
Proof.
  unfold check_wirings_exist.
  assert (Hall : forall l, try_each (fun id => ensure (str_mem id l) (MissingSourceWiring id))
            (bt_keys (sources reg)) = Ok tt <->
          forall s, s ∈ bt_keys (sources reg) -> s ∈ l).
  { intros l. rewrite try_each_ok, Forall_forall. by setoid_rewrite ensure_ok;
      setoid_rewrite str_mem_iff. }
  destruct (check_wirings_loop reg (wirings reg) []) as [wi|e] eqn:E.
  - apply check_wirings_loop_ok in E as ([Hnd _] & Hk & ->). rewrite Hall, app_nil_r.
    setoid_rewrite elem_of_reverse.
    split; [intros H; split; naive_solver|]. intros [_ _ _ H]. exact H.
  - split; [discriminate|]. intros [Hnd Hs Hp _]. exfalso.
    assert (check_wirings_loop reg (wirings reg) [] =
      Ok (reverse (w_source <$> wirings reg) ++ [])%list) as E'; [|congruence].
    apply check_wirings_loop_ok. split; [split; [done|set_solver]|]. split; [|done].
    intros w Hw. split; auto.
Qed.

Lemma Forall_entries {V} (P : string * V -> Prop) (m : btree V) :
  Forall P m <-> forall k v, (k, v) ∈ m -> P (k, v).
Proof. rewrite Forall_forall. split; [auto|]. intros H [k v]; apply H. Qed.

(** A check of every hook of every pipeline. *)
Lemma each_hook_iff {E} (f : string -> string -> result unit E) (m : btree Pipeline) :
  try_each (fun '(pid, p) => try_each (f pid) (p_hooks p)) m = Ok tt <->
  forall pid p h, (pid, p) ∈ m -> h ∈ p_hooks p -> f pid h = Ok tt.
Proof.
  rewrite try_each_ok, Forall_entries; cbn beta iota. setoid_rewrite try_each_ok. setoid_rewrite Forall_forall.
  naive_solver.
Qed.

(** A check of every element some field of every entry lists. *)
Lemma each_item_iff {V E} (items : V -> list string) (f : string -> V -> string -> result unit E)
    (m : btree V) :
  try_each (fun '(k, v) => try_each (f k v) (items v)) m = Ok tt <->
  forall k v x, (k, v) ∈ m -> x ∈ items v -> f k v x = Ok tt.
Proof.
  rewrite try_each_ok, Forall_entries; cbn beta iota. setoid_rewrite try_each_ok. setoid_rewrite Forall_forall.
  naive_solver.
Qed.

Lemma check_hooks_iff reg :
  check_hooks_exist reg = Ok tt /\ check_hook_fns reg = Ok tt <->
  (forall pid p h, (pid, p) ∈ pipelines reg -> h ∈ p_hooks p ->
     h ∈ bt_keys (hooks reg) /\ h ∈ bt_keys (fns reg))
  /\ (forall h, h ∈ bt_keys (fns reg) -> h ∈ bt_keys (hooks reg)).
Proof.
  unfold check_hooks_exist, check_hook_fns. rewrite seq_ok.
  rewrite (each_hook_iff (fun pid h => ensure (bt_contains (hooks reg) h) (UnknownHook pid h))).
  rewrite (each_hook_iff (fun pid h => ensure (bt_contains (fns reg) h) (MissingHookFn pid h))).
  rewrite try_each_ok, Forall_forall.
  repeat setoid_rewrite ensure_ok. repeat setoid_rewrite bt_contains_keys. firstorder.
Qed.

Lemma implied_iff (a : bool) {A} (l : list A) :
  negb (negb a && negb (bool_decide (l = []))) = true <-> (l <> [] -> a = true).
Proof. destruct a; simpl; [tauto|]. case_bool_decide; simpl; naive_solver. Qed.

Lemma check_accepts_iff reg :
  check_accept_declarations reg = Ok tt /\ check_sink_targets reg = Ok tt <->
  forall h s, (h, s) ∈ hooks reg ->
    (may_accept_to s <> [] -> may_terminate s = true)
    /\ (forall k, k ∈ may_accept_to s -> k ∈ bt_keys (sinks reg)).
Proof.
  unfold check_accept_declarations, check_sink_targets.
  rewrite (each_item_iff may_accept_to
             (fun h _ k => ensure (bt_contains (sinks reg) k) (UnknownSink h k))).
  rewrite try_each_ok, Forall_entries; cbn beta iota. repeat setoid_rewrite ensure_ok.
  setoid_rewrite bt_contains_keys. setoid_rewrite implied_iff. firstorder.
Qed.

Lemma check_jump_declarations_iff reg :
  check_jump_declarations reg = Ok tt <->
  forall h s, (h, s) ∈ hooks reg -> may_jump_to s <> [] -> may_jump s = true.
Proof.
  unfold check_jump_declarations. rewrite try_each_ok, Forall_entries; cbn beta iota.
  setoid_rewrite ensure_ok. by setoid_rewrite implied_iff.
Qed.

Lemma elem_of_jump_targets reg p t :
  t ∈ jump_targets reg p <->
  exists h s, h ∈ p_hooks p /\ bt_get (hooks reg) h = Some s /\ t ∈ may_jump_to s.
Proof.
  unfold jump_targets. rewrite list_elem_of_In, in_flat_map.
  setoid_rewrite <- list_elem_of_In. setoid_rewrite list_elem_of_omap. naive_solver.
Qed.

Lemma check_jump_targets_iff reg :
  check_jump_targets reg = Ok tt <->
  forall pid p t, (pid, p) ∈ pipelines reg -> t ∈ jump_targets reg p ->
    t ∈ bt_keys (pipelines reg).
Proof.
  unfold check_jump_targets. rewrite each_hook_iff. setoid_rewrite elem_of_jump_targets. split.
  - intros H pid p t Hp (h & s & Hh & Hs & Ht). specialize (H pid p h Hp Hh).
    rewrite Hs, try_each_ok, Forall_forall in H. apply bt_contains_keys.
    by apply (ensure_ok _ (UnknownPipelineJumpTarget pid h t)), H.
  - intros H pid p h Hp Hh. destruct (bt_get (hooks reg) h) as [s|] eqn:Hs; [|done].
    rewrite try_each_ok, Forall_forall. intros t Ht. apply ensure_ok, bt_contains_keys. eauto 6.
Qed.

Lemma check_pipeline_terminates_iff reg :
  check_pipeline_terminates reg = Ok tt <->
  forall pid p, (pid, p) ∈ pipelines reg ->
    exists h s, h ∈ p_hooks p /\ bt_get (hooks reg) h = Some s /\ hook_can_end s = true.
Proof.
  unfold check_pipeline_terminates. rewrite try_each_ok, Forall_entries; cbn beta iota.
  setoid_rewrite ensure_ok. setoid_rewrite existsb_exists. setoid_rewrite <- list_elem_of_In.
  split; intros H pid p Hp; destruct (H pid p Hp) as (h & Hh); exists h.
  - destruct Hh as [Hh Hs]. destruct (bt_get (hooks reg) h) as [s|]; [|done]. eauto.
  - destruct Hh as (s & Hh & -> & Hs). eauto.
Qed.

Lemma check_metadata_keys_iff reg :
  check_metadata_keys reg = Ok tt <->
  (forall id s k, (id, s) ∈ sources reg -> k ∈ initial_writes s -> is_valid_metadata_key k = true)
  /\ (forall h s k, (h, s) ∈ hooks reg -> k ∈ reads s \/ k ∈ writes s ->
      is_valid_metadata_key k = true).
Proof.
  unfold check_metadata_keys. rewrite seq_ok.
  rewrite (each_item_iff initial_writes (fun sid _ key => ensure (is_valid_metadata_key key)
             (InvalidMetadataKey ("source:" +:+ sid) key))).
  rewrite (each_item_iff (fun s => reads s ++ writes s)%list
             (fun hid _ key => ensure (is_valid_metadata_key key)
             (InvalidMetadataKey ("hook:" +:+ hid) key))).
  repeat setoid_rewrite ensure_ok. by setoid_rewrite elem_of_app.
Qed.

Lemma check_namespace_patterns_iff reg :
  check_namespace_patterns reg = Ok tt <->
  forall h s p, (h, s) ∈ hooks reg -> p ∈ allowed_namespaces s ->
    is_valid_namespace_pattern p = true.
Proof.
  unfold check_namespace_patterns.
  rewrite (each_item_iff allowed_namespaces (fun hid _ pat =>
             ensure (is_valid_namespace_pattern pat) (InvalidNamespacePattern hid pat))).
  by setoid_rewrite ensure_ok.
Qed.

Lemma check_hook_namespaces_iff pid hid s available :
  check_hook_namespaces pid hid s available = Ok tt <->
  hook_disciplined s /\ (forall k, k ∈ reads s -> k ∈ available).
Proof.
  unfold check_hook_namespaces. rewrite !seq_ok, !try_each_ok, ensure_ok, !Forall_forall.
  repeat setoid_rewrite ensure_ok. setoid_rewrite str_mem_iff.
  rewrite negb_true_iff, andb_false_iff, bool_decide_eq_false, <- not_true_iff_false, str_mem_iff.
  assert (Hse : (if side_effect_only s then
      try_each (fun w => ensure (negb (str_mem (head w) VERDICT_NAMESPACES))
                 (SideEffectMutatesVerdict pid hid w)) (writes s) else Ok tt) = Ok tt <->
    (side_effect_only s = true -> forall k, k ∈ writes s -> head k ∉ VERDICT_NAMESPACES)).
  { destruct (side_effect_only s); [|by split]. rewrite try_each_ok, Forall_forall.
    setoid_rewrite ensure_ok. setoid_rewrite negb_str_mem_iff. tauto. }
  rewrite Hse. split.
  - intros (Hp & Hw & Hr & Hs & Ha). split; [|done]. split; [|naive_solver|done]. tauto.
  - intros ([Hp Hc Hs] & Ha). repeat split; auto.
    destruct (decide (h_kind s = HkPolicy)); [|tauto].
    destruct (decide ("net.payload" ∈ reads s)); tauto.
Qed.

(** The loop over the hooks of a pipeline, with the keys written so far. *)
Lemma check_pipeline_namespaces_iff reg pid hs : forall available,
  check_pipeline_namespaces reg pid hs available = Ok tt <->
  (forall h s, h ∈ hs -> bt_get (hooks reg) h = Some s -> hook_disciplined s)
  /\ (forall before h after s k, hs = (before ++ h :: after)%list ->
        bt_get (hooks reg) h = Some s -> k ∈ reads s ->
        k ∈ available
        \/ exists h' s', h' ∈ before /\ bt_get (hooks reg) h' = Some s' /\ k ∈ writes s').
Proof.
  induction hs as [|h0 hs IH]; intros available; simpl.
  - split; [|done]. split; [set_solver|]. intros [|] ? ? ? ? ?; discriminate.
  - destruct (bt_get (hooks reg) h0) as [s0|] eqn:E0.
    + rewrite seq_ok, check_hook_namespaces_iff, IH. split.
      * intros ([Hd0 Ha0] & Hd & Hr). split.
        { intros h s [->|?]%elem_of_cons Hs; [by simplify_eq|eauto]. }
        intros [|b before] h after s k Heq Hs Hk; simplify_eq/=; [auto|].
        destruct (Hr before h after s k eq_refl Hs Hk) as [[?|?]%elem_of_app|(h' & s' & ? & ? & ?)].
        -- right. exists b, s0. set_solver.
        -- by left.
        -- right. exists h', s'. set_solver.
      * intros [Hd Hr]. split; [split; [by apply (Hd h0); [left|]|]|split].
        -- intros k Hk. destruct (Hr [] h0 hs s0 k eq_refl E0 Hk) as [?|(? & ? & ? & _)]; [done|].
           set_solver.
        -- intros h s Hh Hs. apply (Hd h); [by right|done].
        -- intros before h after s k -> Hs Hk. rewrite elem_of_app.
           destruct (Hr (h0 :: before) h after s k eq_refl Hs Hk) as [?|(h' & s' & Hin & Hs' & Hk')];
             [auto|].
           apply elem_of_cons in Hin as [->|Hin]; [simplify_eq; auto|]. right. eauto.
    + rewrite IH. split; intros [Hd Hr]; split.
      * intros h s [->|?]%elem_of_cons Hs; [congruence|eauto].
      * intros [|b before] h after s k Heq Hs Hk; simplify_eq/=.
        destruct (Hr before h after s k eq_refl Hs Hk) as [?|(h' & s' & ? & ? & ?)]; [auto|].
        right. exists h', s'. set_solver.
      * intros h s Hh Hs. apply (Hd h); [by right|done].
      * intros before h after s k -> Hs Hk.
        destruct (Hr (h0 :: before) h after s k eq_refl Hs Hk) as [?|(h' & s' & Hin & Hs' & Hk')];
          [auto|].
        apply elem_of_cons in Hin as [->|Hin]; [congruence|]. right. eauto.
Qed.

Lemma check_namespace_rules_iff reg :
  check_namespace_rules reg = Ok tt <->
  (forall pid p h s, (pid, p) ∈ pipelines reg -> h ∈ p_hooks p ->
     bt_get (hooks reg) h = Some s -> hook_disciplined s)
  /\ (forall pid p before h after s k, (pid, p) ∈ pipelines reg ->
      p_hooks p = (before ++ h :: after)%list -> bt_get (hooks reg) h = Some s -> k ∈ reads s ->
      readable reg pid before k).
Proof.
  unfold check_namespace_rules, readable. rewrite try_each_ok, Forall_entries; cbn beta iota.
  setoid_rewrite check_pipeline_namespaces_iff. split.
  - intros H. split; intros; [eapply (proj1 (H _ _ ltac:(eassumption)))|
      eapply (proj2 (H _ _ ltac:(eassumption)))]; eauto.
  - intros [H1 H2] pid p Hp. split; eauto.
Qed.

(** ** The pass is the contract *)

Lemma verify_iff reg : verify reg = Ok tt <-> RegistryOk reg.
Proof.
  unfold verify. rewrite !seq_ok.
  rewrite check_registry_identities_iff, check_id_shapes_iff, check_spec_kinds_iff,
    check_wirings_exist_iff, check_jump_declarations_iff, check_jump_targets_iff,
    check_jump_dag_iff, check_pipeline_terminates_iff, check_metadata_keys_iff,
    check_namespace_patterns_iff, check_namespace_rules_iff.
  split.
  - intros (? & ? & [? ?] & ? & Hh & Ha & Hk & ? & ? & ? & ? & ? & ? & [? ?] & Hf).
    pose proof (proj1 (check_hooks_iff reg) (conj Hh Hf)) as [? ?].
    pose proof (proj1 (check_accepts_iff reg) (conj Ha Hk)).
    by constructor.
  - intros [? ? ? ? ? H1 H2 H3 ? ? ? ? ? ? ? ?].
    pose proof (proj2 (check_hooks_iff reg) (conj H1 H2)) as [? ?].
    pose proof (proj2 (check_accepts_iff reg) H3) as [? ?].
    tauto.
Qed.
