(* ===== verification/Pipeline.v ===== *)
(** Pipeline execution: the interpreter over a registry and the compiled graph.

    Sources: crates/mesh-bus-core/src/kernel/pipeline/data_handle.rs
    ([run_pipeline], [run_pipeline_with_registry]) and kernel/compiled.rs
    ([intern], [CompiledKernel]).

    The event and the context are [&mut] arguments of the source: here every
    run returns them beside its result.  An [expect] or an index that fails is
    a panic: the compiled side returns [None] for it. *)
From stdpp Require Import relations.
From S2P Require Import Prelude Dfs KernelRegistry RegistrySpec.
Local Open Scope string_scope.

(** ** The interpreter *)

Inductive PipelineRunError :=
| RunUnknownHook (hook : string)
| RunUnknownPipeline (pipeline : string)
| FellOffEnd (pipeline : string)
| JumpDepthExceeded
| UndeclaredAcceptTarget (hook sink : string)
| UndeclaredJumpTarget (hook pipeline : string).

Definition MAX_JUMP_DEPTH : nat := 32.

(** How the inner [for] over the hooks of one pipeline ends. *)
Inductive hooks_outcome :=
| Return (r : result Verdict PipelineRunError)
| Next (target : PipelineId)
| OffEnd.

Section Run.
Context {E C : Type}.
Context (resolve : HookId -> E -> C -> result Verdict PipelineRunError * E * C).

Fixpoint run_hooks (hs : list HookId) (ev : E) (ctx : C) : hooks_outcome * E * C :=
    match hs with
    | [] => (OffEnd, ev, ctx)
    | h :: hs =>
        match resolve h ev ctx with
        | (Err e, ev, ctx) => (Return (Err e), ev, ctx)
        | (Ok Continue, ev, ctx) => run_hooks hs ev ctx
        | (Ok (Jump target), ev, ctx) => (Next target, ev, ctx)
        | (Ok terminal, ev, ctx) => (Return (Ok terminal), ev, ctx)
        end
    end.

  (** [budget] is [MAX_JUMP_DEPTH + 1 - jumps]: the guard [jumps > MAX_JUMP_DEPTH]
      at the head of the loop is [budget = 0]. *)
Fixpoint run_loop (pipelines : list Pipeline) (budget : nat) (current : PipelineId)
      (ev : E) (ctx : C) : result Verdict PipelineRunError * E * C :=
    match budget with
    | O => (Err JumpDepthExceeded, ev, ctx)
    | S budget =>
        match List.find (fun p => bool_decide (p_id p = current)) pipelines with
        | None => (Err (RunUnknownPipeline current), ev, ctx)
        | Some p =>
            match run_hooks (p_hooks p) ev ctx with
            | (Return r, ev, ctx) => (r, ev, ctx)
            | (Next target, ev, ctx) => run_loop pipelines budget target ev ctx
            | (OffEnd, ev, ctx) => (Err (FellOffEnd current), ev, ctx)
            end
        end
    end.

Definition run_pipeline (entry : PipelineId) (pipelines : list Pipeline) (ev : E) (ctx : C) :=
    run_loop pipelines (S MAX_JUMP_DEPTH) entry ev ctx.
End Run.

(** The declared-target checks on the verdict of hook [id]. *)
Definition check_verdict (id : HookId) (accepts : list SinkId) (jumps : list PipelineId)
    (v : Verdict) : result unit PipelineRunError :=
  match v with
  | Accept sink => ensure (str_mem sink accepts) (UndeclaredAcceptTarget id sink)
  | Jump target => ensure (str_mem target jumps) (UndeclaredJumpTarget id target)
  | _ => Ok tt
  end.

(** Call [f], check its verdict, and record it in the trace. *)
Definition call_hook (id : HookId) (f : HookFn) (accepts : list SinkId) (jumps : list PipelineId)
    (ev : Event) (ctx : KernelCtx) : result Verdict PipelineRunError * Event * KernelCtx :=
  match f ev ctx with
  | (v, ev, ctx) =>
      match check_verdict id accepts jumps v with
      | Err e => (Err e, ev, ctx)
      | Ok _ => (Ok v, ev, mkKernelCtx (hook_trace ctx ++ [hook_trace_record id v])%list)
      end
  end.

Definition resolve_hook (reg : KernelRegistry) (hook_id : HookId) (ev : Event) (ctx : KernelCtx)
  : result Verdict PipelineRunError * Event * KernelCtx :=
  match bt_get (hooks reg) hook_id, bt_get (fns reg) hook_id with
  | Some spec, Some f => call_hook hook_id f (may_accept_to spec) (may_jump_to spec) ev ctx
  | _, _ => (Err (RunUnknownHook hook_id), ev, ctx)
  end.

Definition run_pipeline_with_registry (reg : KernelRegistry) (pid : PipelineId)
    (ev : Event) (ctx : KernelCtx) : result Verdict PipelineRunError * Event * KernelCtx :=
  run_pipeline (resolve_hook reg) pid (bt_values (pipelines reg)) ev ctx.

(** ** The compiled graph (compiled.rs) *)

(** [i as u32] *)
Definition as_u32 (i : nat) : Z := (Z.of_nat i mod 2 ^ 32)%Z.

(** [ids.iter().cloned().enumerate().map(..).collect()] *)
Fixpoint intern_from (i : nat) (ids : list string) (m : gmap string Z) : gmap string Z :=
  match ids with
  | [] => m
  | id :: ids => intern_from (S i) ids (<[id := as_u32 i]> m)
  end.

Definition intern (ids : list string) : gmap string Z * list string :=
  (intern_from 0 ids ∅, ids).

Record CompiledHook := mkCompiledHook {
  ch_id : HookId;
  ch_f : HookFn;
  ch_may_accept_to : list SinkId;
  ch_may_jump_to : list PipelineId
}.

Record CompiledPipeline := mkCompiledPipeline {
  cp_id : PipelineId;
  cp_hooks : list Z
}.

Record CompiledKernel := mkCompiledKernel {
  source_slots : gmap string Z;
  sink_slots : gmap string Z;
  hook_slots : gmap string Z;
  pipeline_slots : gmap string Z;
  source_ids : list SourceId;
  sink_ids : list SinkId;
  hook_ids : list HookId;
  pipeline_ids : list PipelineId;
  compiled_hooks : list CompiledHook;
  compiled_pipelines : list CompiledPipeline
}.

Definition compile_hook (reg : KernelRegistry) (hid : HookId) : option CompiledHook :=
  spec ← bt_get (hooks reg) hid;
  f ← bt_get (fns reg) hid;
  Some (mkCompiledHook hid f (may_accept_to spec) (may_jump_to spec)).

Definition compile_pipeline (reg : KernelRegistry) (slots : gmap string Z) (pid : PipelineId)
  : option CompiledPipeline :=
  p ← bt_get (pipelines reg) pid;
  hs ← mapM (fun hid => slots !! hid) (p_hooks p);
  Some (mkCompiledPipeline pid hs).

(** [None] is a panic of one of the [expect]s. *)
Definition from_registry (reg : KernelRegistry) : option (result CompiledKernel VerifyError) :=
  match verify reg with
  | Err e => Some (Err e)
  | Ok _ =>
      let '(source_slots, source_ids) := intern (bt_keys (sources reg)) in
      let '(sink_slots, sink_ids) := intern (bt_keys (sinks reg)) in
      let '(hook_slots, hook_ids) := intern (bt_keys (hooks reg)) in
      let '(pipeline_slots, pipeline_ids) := intern (bt_keys (pipelines reg)) in
      chs ← mapM (compile_hook reg) hook_ids;
      cps ← mapM (compile_pipeline reg hook_slots) pipeline_ids;
      Some (Ok (mkCompiledKernel source_slots sink_slots hook_slots pipeline_slots
                  source_ids sink_ids hook_ids pipeline_ids chs cps))
  end.

Fixpoint crun_hooks (ck : CompiledKernel) (hs : list Z) (ev : Event) (ctx : KernelCtx)
  : option (hooks_outcome * Event * KernelCtx) :=
  match hs with
  | [] => Some (OffEnd, ev, ctx)
  | slot :: hs =>
      ch ← compiled_hooks ck !! Z.to_nat slot;
      match call_hook (ch_id ch) (ch_f ch) (ch_may_accept_to ch) (ch_may_jump_to ch) ev ctx with
      | (Err e, ev, ctx) => Some (Return (Err e), ev, ctx)
      | (Ok Continue, ev, ctx) => crun_hooks ck hs ev ctx
      | (Ok (Jump target), ev, ctx) => Some (Next target, ev, ctx)
      | (Ok terminal, ev, ctx) => Some (Return (Ok terminal), ev, ctx)
      end
  end.

Fixpoint crun_loop (ck : CompiledKernel) (budget : nat) (current : PipelineId)
    (ev : Event) (ctx : KernelCtx)
  : option (result Verdict PipelineRunError * Event * KernelCtx) :=
  match budget with
  | O => Some (Err JumpDepthExceeded, ev, ctx)
  | S budget =>
      match pipeline_slots ck !! current with
      | None => Some (Err (RunUnknownPipeline current), ev, ctx)
      | Some pslot =>
          p ← compiled_pipelines ck !! Z.to_nat pslot;
          out ← crun_hooks ck (cp_hooks p) ev ctx;
          match out with
          | (Return r, ev, ctx) => Some (r, ev, ctx)
          | (Next target, ev, ctx) => crun_loop ck budget target ev ctx
          | (OffEnd, ev, ctx) => Some (Err (FellOffEnd current), ev, ctx)
          end
      end
  end.

Definition compiled_run_pipeline (ck : CompiledKernel) (entry : PipelineId)
    (ev : Event) (ctx : KernelCtx) :=
  crun_loop ck (S MAX_JUMP_DEPTH) entry ev ctx.

(** * Facts on the interpreter *)

Local Open Scope string_scope.

(** A [BTreeMap] has each key once, and fewer than 2^32 entries fit in slots. *)
Record registry_wf (reg : KernelRegistry) : Prop := {
  wf_hooks : bt_wf (hooks reg);
  wf_pipelines : bt_wf (pipelines reg);
  wf_hook_count : (Z.of_nat (length (hooks reg)) <= 2 ^ 32)%Z;
  wf_pipeline_count : (Z.of_nat (length (pipelines reg)) <= 2 ^ 32)%Z
}.

(** ** Slots *)

Lemma as_u32_small (k n : nat) :
  (Z.of_nat n <= 2 ^ 32)%Z -> k < n -> Z.to_nat (as_u32 k) = k.
Proof. intros Hn Hk. unfold as_u32. rewrite Z.mod_small by lia. lia. Qed.

Lemma intern_from_other ids : forall i m id,
  id ∉ ids -> intern_from i ids m !! id = m !! id.
Proof.
  induction ids as [|x ids IH]; intros i m id Hid; simpl; [done|].
  rewrite IH by set_solver. rewrite lookup_insert_ne; [done|]. set_solver.
Qed.

Lemma intern_from_lookup ids : forall i m k id,
  NoDup ids -> ids !! k = Some id -> intern_from i ids m !! id = Some (as_u32 (i + k)).
Proof.
  induction ids as [|x ids IH]; intros i m k id Hnd Hk; [done|].
  apply NoDup_cons in Hnd as [Hx Hnd]. destruct k as [|k]; simpl in *.
  - injection Hk as ->. rewrite intern_from_other, lookup_insert_eq by done. f_equal. f_equal. lia.
  - rewrite (IH _ _ k) by done. f_equal. f_equal. lia.
Qed.

Lemma intern_slot (ids : list string) id :
  NoDup ids -> (Z.of_nat (length ids) <= 2 ^ 32)%Z -> id ∈ ids ->
  exists slot, intern_from 0 ids ∅ !! id = Some slot /\ ids !! Z.to_nat slot = Some id.
Proof.
  intros Hnd Hlen [k Hk]%list_elem_of_lookup.
  exists (as_u32 k). rewrite (intern_from_lookup _ _ _ k) by done. split; [done|].
  by rewrite (as_u32_small k (length ids)) by (try done; by eapply lookup_lt_Some).
Qed.

Lemma mapM_lookup {A B} (f : A -> option B) l l' i x :
  mapM f l = Some l' -> l !! i = Some x -> exists y, l' !! i = Some y /\ f x = Some y.
Proof. intros H Hi. apply mapM_Some in H. by eapply Forall2_lookup_l in H. Qed.

(** Looking a pipeline up by its embedded id or by its key is the same. *)
Lemma find_by_id (m : btree Pipeline) pid :
  keyed p_id m -> List.find (fun p => bool_decide (p_id p = pid)) (bt_values m) = bt_get m pid.
Proof.
  unfold keyed. induction m as [|[k p] m IH]; simpl; intros Hk; [done|].
  rewrite (Hk k p) by left.
  destruct (decide (pid = k)) as [->|Hne]; [by rewrite bool_decide_true|].
  rewrite bool_decide_false by done. apply IH. intros; apply Hk; by right.
Qed.

(** ** What [from_registry] builds *)

Record compiles (reg : KernelRegistry) (ck : CompiledKernel) : Prop := {
  co_ok : RegistryOk reg;
  co_hook_slots : hook_slots ck = intern_from 0 (bt_keys (hooks reg)) ∅;
  co_pipeline_slots : pipeline_slots ck = intern_from 0 (bt_keys (pipelines reg)) ∅;
  co_hooks : mapM (compile_hook reg) (bt_keys (hooks reg)) = Some (compiled_hooks ck);
  co_pipelines : mapM (compile_pipeline reg (hook_slots ck)) (bt_keys (pipelines reg))
                 = Some (compiled_pipelines ck)
}.

Lemma from_registry_compiles reg ck : from_registry reg = Some (Ok ck) -> compiles reg ck.
Proof.
  unfold from_registry. destruct (verify reg) as [[]|e] eqn:Ev; [|discriminate].
  simpl. destruct (mapM (compile_hook reg) _) as [chs|] eqn:Eh; simpl; [|discriminate].
  destruct (mapM (compile_pipeline _ _) _) as [cps|] eqn:Ep; simpl; [|discriminate].
  intros [= <-]. split; simpl; try done. by apply verify_iff.
Qed.

Section Compiled.
Context (reg : KernelRegistry) (ck : CompiledKernel).
Context (Hwf : registry_wf reg) (Hco : compiles reg ck).

Lemma hook_slot_compiled h :
    h ∈ bt_keys (hooks reg) ->
    exists slot ch, hook_slots ck !! h = Some slot
      /\ compiled_hooks ck !! Z.to_nat slot = Some ch /\ compile_hook reg h = Some ch.
Proof.
    intros Hh. destruct (intern_slot (bt_keys (hooks reg)) h) as (slot & Hs & Hi); try done.
    { apply wf_hooks, Hwf. }
    { unfold bt_keys. rewrite length_fmap. apply wf_hook_count, Hwf. }
    destruct (mapM_lookup _ _ _ _ _ (co_hooks _ _ Hco) Hi) as (ch & ? & ?).
    exists slot, ch. by rewrite (co_hook_slots _ _ Hco).
Qed.

Lemma pipeline_slot_compiled pid :
    pid ∈ bt_keys (pipelines reg) ->
    exists slot cp, pipeline_slots ck !! pid = Some slot
      /\ compiled_pipelines ck !! Z.to_nat slot = Some cp
      /\ compile_pipeline reg (hook_slots ck) pid = Some cp.
Proof.
    intros Hp. destruct (intern_slot (bt_keys (pipelines reg)) pid) as (slot & Hs & Hi); try done.
    { apply wf_pipelines, Hwf. }
    { unfold bt_keys. rewrite length_fmap. apply wf_pipeline_count, Hwf. }
    destruct (mapM_lookup _ _ _ _ _ (co_pipelines _ _ Hco) Hi) as (cp & ? & ?).
    exists slot, cp. by rewrite (co_pipeline_slots _ _ Hco).
Qed.

Lemma crun_hooks_eq hs : forall slots ev ctx,
    Forall (fun h => h ∈ bt_keys (hooks reg)) hs ->
    mapM (fun hid => hook_slots ck !! hid) hs = Some slots ->
    crun_hooks ck slots ev ctx = Some (run_hooks (resolve_hook reg) hs ev ctx).
Proof.
    induction hs as [|h hs IH]; intros slots ev ctx Hin Hm; [by injection Hm as <-|].
    apply Forall_cons_iff in Hin as [Hh Hin].
    destruct (hook_slot_compiled h Hh) as (slot & ch & Hs & Hch & Hc).
    simpl in Hm. rewrite Hs in Hm. simpl in Hm.
    destruct (mapM _ hs) as [slots'|] eqn:E; [|discriminate]. injection Hm as <-. simpl.
    rewrite Hch. simpl. unfold compile_hook in Hc.
    destruct (bt_get (hooks reg) h) as [spec|] eqn:Es; [|discriminate]. simpl in Hc.
    destruct (bt_get (fns reg) h) as [f|] eqn:Ef; [|discriminate]. injection Hc as <-. simpl.
    unfold resolve_hook. rewrite Es, Ef.
    destruct (call_hook h f _ _ ev ctx) as [[[[]|] ev'] ctx']; auto.
Qed.

Lemma crun_loop_eq budget : forall current ev ctx,
    crun_loop ck budget current ev ctx =
    Some (run_loop (resolve_hook reg) (bt_values (pipelines reg)) budget current ev ctx).
Proof.
    induction budget as [|budget IH]; intros current ev ctx; simpl; [done|].
    rewrite find_by_id by apply (ro_keyed _ (co_ok _ _ Hco)). destruct (bt_get (pipelines reg) current) as [p|] eqn:Ep.
    - assert (Hp : current ∈ bt_keys (pipelines reg)) by (apply bt_get_keys; eauto).
      destruct (pipeline_slot_compiled current Hp) as (slot & cp & Hs & Hcp & Hc).
      rewrite Hs, Hcp. simpl. unfold compile_pipeline in Hc. rewrite Ep in Hc. simpl in Hc.
      destruct (mapM _ (p_hooks p)) as [slots|] eqn:Em; [|discriminate]. injection Hc as <-. simpl.
      rewrite (crun_hooks_eq (p_hooks p)); [|rewrite Forall_forall|done].
      + simpl. destruct (run_hooks _ _ _ _) as [[[] ?] ?]; auto.
      + intros h Hh. eapply (ro_hooks _ (co_ok _ _ Hco)); eauto.
    - rewrite (co_pipeline_slots _ _ Hco), intern_from_other, lookup_empty; [done|].
      intros Hin%bt_get_keys. rewrite Ep in Hin. by destruct Hin.
Qed.
End Compiled.

(** ** When compilation panics *)

Lemma mapM_None_iff {A B} (f : A -> option B) l :
  mapM f l = None <-> exists x, x ∈ l /\ f x = None.
Proof.
  induction l as [|x l IH]; simpl.
  - split; [discriminate|]. intros (? & []%not_elem_of_nil & _).
  - destruct (f x) as [y|] eqn:E; simpl.
    + destruct (mapM f l); simpl.
      * split; [discriminate|]. intros (z & [->|?]%elem_of_cons & ?); [congruence|].
        assert (Some l0 = None) by (apply IH; eauto). discriminate.
      * split; [|done]. intros _. destruct (proj1 IH eq_refl) as (z & ? & ?).
        exists z. split; [by right|done].
    + split; [|done]. intros _. exists x. split; [left|done].
Qed.

Lemma compile_hook_none reg h :
  h ∈ bt_keys (hooks reg) -> compile_hook reg h = None <-> h ∉ bt_keys (fns reg).
Proof.
  intros [s Hs]%bt_get_keys. unfold compile_hook. rewrite Hs. simpl.
  rewrite <- bt_get_keys. destruct (bt_get (fns reg) h); simpl.
  - split; [discriminate|]. intros []. eauto.
  - split; [by intros _ []|done].
Qed.

Lemma from_registry_panics reg :
  bt_wf (hooks reg) -> verify reg = Ok tt ->
  from_registry reg = None <-> exists h, h ∈ bt_keys (hooks reg) /\ h ∉ bt_keys (fns reg).
Proof.
  intros Hwf Hv. unfold from_registry. rewrite Hv. simpl.
  destruct (mapM (compile_hook reg) (bt_keys (hooks reg))) as [chs|] eqn:Eh; simpl.
  - assert (Hall : forall h, h ∈ bt_keys (hooks reg) -> h ∈ bt_keys (fns reg)).
    { intros h Hh. apply dec_stable. intros Hn. apply compile_hook_none in Hn; [|done].
      assert (Some chs = None); [|discriminate]. rewrite <- Eh. apply mapM_None_iff. eauto. }
    apply verify_iff in Hv.
    destruct (mapM (compile_pipeline _ _) _) as [cps|] eqn:Ep; simpl.
    + split; [discriminate|]. intros (h & Hh & Hn). by destruct Hn; apply Hall.
    + split; [|done]. intros _. exfalso.
      apply mapM_None_iff in Ep as (pid & [p Hp]%bt_get_keys & Hc).
      unfold compile_pipeline in Hc. rewrite Hp in Hc. simpl in Hc.
      destruct (mapM _ (p_hooks p)) as [?|] eqn:Em; [discriminate|].
      apply mapM_None_iff in Em as (h & Hh & Hl).
      destruct (ro_hooks _ Hv pid p h (bt_get_in _ _ _ Hp) Hh) as [Hk _].
      apply list_elem_of_lookup in Hk as [k Hk].
      by rewrite (intern_from_lookup _ _ _ k) in Hl.
  - split; [|done]. intros _. apply mapM_None_iff in Eh as (h & Hh & Hc).
    exists h. split; [done|]. by apply compile_hook_none.
Qed.

(** ** Runs on a verified registry *)

Definition terminal (v : Verdict) : Prop :=
  match v with Accept _ | Reject _ | VDrop => True | Continue | Jump _ => False end.

(** What a run may end with, beside the jump bound: a terminal verdict whose
    accepted sink is registered, a pipeline without a terminal verdict, or a
    verdict the hook did not declare. *)
Definition ends_well (reg : KernelRegistry) (r : result Verdict PipelineRunError) : Prop :=
  match r with
  | Ok v => terminal v /\ (forall s, v = Accept s -> s ∈ bt_keys (sinks reg))
  | Err (FellOffEnd _ | UndeclaredAcceptTarget _ _ | UndeclaredJumpTarget _ _) => True
  | Err _ => False
  end.

Section Verified.
Context (reg : KernelRegistry) (Hok : RegistryOk reg).

Lemma run_hooks_verified pid p :
    (pid, p) ∈ pipelines reg ->
    forall hs ev ctx, (forall h, h ∈ hs -> h ∈ p_hooks p) ->
    match run_hooks (resolve_hook reg) hs ev ctx with
    | (Return r, _, _) => ends_well reg r
    | (Next t, _, _) => t ∈ jump_targets reg p
    | (OffEnd, _, _) => True
    end.
Proof.
    intros Hp hs. induction hs as [|h hs IH]; intros ev ctx Hin; simpl; [done|].
    destruct (ro_hooks _ Hok pid p h Hp) as [[s Hs]%bt_get_keys [f Hf]%bt_get_keys].
    { apply Hin. left. }
    unfold resolve_hook. rewrite Hs, Hf. unfold call_hook.
    destruct (f ev ctx) as [[v ev'] ctx']. unfold check_verdict, ensure.
    destruct v as [|t|k|r|]; simpl; try done.
    - apply IH. intros; apply Hin; by right.
    - destruct (str_mem t (may_jump_to s)) eqn:E; simpl; [|done].
      apply elem_of_jump_targets. exists h, s. split_and!; [apply Hin; left|done|by apply str_mem_iff].
    - destruct (str_mem k (may_accept_to s)) eqn:E; simpl; [|done]. split; [done|].
      intros k' [= <-]. eapply (ro_accepts _ Hok h s); [by apply bt_get_in|].
      by apply str_mem_iff.
Qed.

Lemma run_loop_verified budget : forall current ev ctx,
    current ∈ bt_keys (pipelines reg) ->
    let r := (run_loop (resolve_hook reg) (bt_values (pipelines reg)) budget current ev ctx).1.1 in
    r = Err JumpDepthExceeded \/ ends_well reg r.
Proof.
    induction budget as [|budget IH]; intros current ev ctx Hc; simpl; [by left|].
    rewrite find_by_id by apply (ro_keyed _ Hok). apply bt_get_keys in Hc as [p Hp]. rewrite Hp.
    pose proof (run_hooks_verified current p (bt_get_in _ _ _ Hp) (p_hooks p) ev ctx) as Hr.
    destruct (run_hooks _ _ _ _) as [[[r|t|] ev'] ctx']; simpl; [right; by apply Hr| |by right].
    apply IH. eapply (ro_targets _ Hok); [by apply bt_get_in|by apply Hr].
Qed.

  (** Pipelines visited so far are distinct, since jumps go along the graph. *)
Lemma run_loop_depth budget : forall current path ev ctx,
    current ∈ bt_keys (pipelines reg) ->
    NoDup path -> path ⊆ bt_keys (pipelines reg) ->
    (forall p, p ∈ path -> tc (jumps_to reg) p current) ->
    length (pipelines reg) <= budget + length path ->
    (run_loop (resolve_hook reg) (bt_values (pipelines reg)) budget current ev ctx).1.1
      <> Err JumpDepthExceeded.
Proof.
    induction budget as [|budget IH]; intros current path ev ctx Hc Hnd Hsub Htc Hlen.
    all: assert (Hnp : current ∉ path) by (intros Hin; apply (ro_acyclic _ Hok current); auto).
    all: assert (Hle : length (current :: path) <= length (bt_keys (pipelines reg))).
    1, 3: apply submseteq_length, NoDup_submseteq; [by constructor|]; set_solver.
    all: unfold bt_keys in Hle; rewrite length_fmap in Hle; simpl in Hle.
    - simpl in Hlen. lia.
    - simpl. rewrite find_by_id by apply (ro_keyed _ Hok). apply bt_get_keys in Hc as Hp. destruct Hp as [p Hp].
      rewrite Hp.
      pose proof (run_hooks_verified current p (bt_get_in _ _ _ Hp) (p_hooks p) ev ctx) as Hr.
      destruct (run_hooks _ _ _ _) as [[[r|t|] ev'] ctx']; simpl; [|..|done].
      + specialize (Hr ltac:(done)). intros ->. exact Hr.
      + assert (He : jumps_to reg current t).
        { unfold jumps_to, adj. rewrite Hp. by apply Hr. }
        apply (IH t (current :: path)).
        * eapply (ro_targets _ Hok); [by apply bt_get_in|by apply Hr].
        * by constructor.
        * set_solver.
        * intros q [->|?]%elem_of_cons; [by apply tc_once|]. eapply tc_r; eauto.
        * simpl. lia.
Qed.
End Verified.

(** * The kernel's theorems: verification, the jump graph, runs and their compiled form *)

Local Open Scope string_scope.

(** ** A small registry: [main] tags the event and jumps to [cn], which accepts *)

Module Demo.
Definition set_group (ev : Event) : Event :=
    let m := meta ev in
    mkEvent (payload ev)
      (mkTypedMap (net m) (transport m) (Some "cn") (auth_user m) (trace_flow_id m) (ext m)).

Definition tag_fn : HookFn := fun ev ctx => (Continue, set_group ev, ctx).
Definition to_cn_fn : HookFn := fun ev ctx =>
    match policy_route_group (meta ev) with
    | Some _ => (Jump "cn", ev, ctx)
    | None => (VDrop, ev, ctx)
    end.
Definition allow_fn : HookFn := fun ev ctx => (Accept "direct", ev, ctx).

Definition tag_spec : HookSpec :=
    mkHookSpec "tag" HkNet ["net.*"; "policy.*"] ["net.dst_host"] ["policy.route_group"]
      false false [] [] false.
Definition to_cn_spec : HookSpec :=
    mkHookSpec "to_cn" HkPolicy ["policy.*"] ["policy.route_group"] [] true true ["cn"] [] false.
Definition allow_spec : HookSpec :=
    mkHookSpec "allow" HkNet ["net.*"] [] [] true false [] ["direct"] false.

Definition demo_with (fs : btree HookFn) : KernelRegistry :=
    mkKernelRegistry
      [("socks", mkSourceSpec "socks" "application/source" ["net.dst_host"; "net.dst_port"])]
      [("direct", mkSinkSpec "direct" "stream_egress")]
      [("allow", allow_spec); ("tag", tag_spec); ("to_cn", to_cn_spec)]
      [("cn", mkPipeline "cn" ["allow"]); ("main", mkPipeline "main" ["tag"; "to_cn"])]
      [mkWiring "socks" "main"]
      fs.

Definition registry : KernelRegistry :=
    demo_with [("allow", allow_fn); ("tag", tag_fn); ("to_cn", to_cn_fn)].

  (** The same registry with one more declared hook, without a function, that
      no pipeline uses. *)
Definition spare_spec : HookSpec :=
    mkHookSpec "spare" HkNet ["net.*"] [] [] true false [] [] false.

Definition with_spare_hook : KernelRegistry :=
    let r := registry in
    mkKernelRegistry (sources r) (sinks r)
      [("allow", allow_spec); ("spare", spare_spec); ("tag", tag_spec); ("to_cn", to_cn_spec)]
      (pipelines r) (wirings r) (fns r).

Definition no_ctx : KernelCtx := mkKernelCtx [].

Lemma registry_verifies : verify registry = Ok tt.
Proof. vm_compute. reflexivity. Qed.

Lemma registry_is_wf : registry_wf registry.
Proof.
    split; [apply (bool_decide_unpack _); vm_compute; exact I..| |]; simpl; lia.
Qed.
End Demo.

(** C1: [verify] accepts a registry exactly when the declarative contract
    [RegistryOk] holds: keys agree with embedded ids, ids and kinds are well
    formed, every source is wired once to a known pipeline, pipelines only run
    hooks that have a spec and a function, accept targets are registered sinks,
    jump targets are registered pipelines, the jump graph has no cycle, every
    pipeline has a hook that can end it, and every key a hook reads is written
    by a wired source or an earlier hook. *)
Theorem verify_refines_contract (reg : KernelRegistry) :
  verify reg = Ok tt <-> RegistryOk reg.
Proof. apply verify_iff. Qed.

(** C12: the depth-first cycle check always finishes within the nodes of the
    graph, and succeeds exactly when no pipeline can reach itself by declared
    jumps. *)
Theorem jump_check_decides_acyclicity (reg : KernelRegistry) :
  dfs_all (fun node _ => JumpCycle node) (dag_fuel reg) (adj reg) (bt_keys (pipelines reg)) ∅ <> None
  /\ (check_jump_dag reg = Ok tt <-> acyclic reg).
Proof. split; [apply dfs_all_total|apply check_jump_dag_iff]. Qed.

(** C2: on every registry that compiles, the compiled graph run is the
    interpreter's run, with the same result, event and context, and it never
    panics. *)
Theorem compiled_run_is_interpreted_run (reg : KernelRegistry) (ck : CompiledKernel)
    (Hwf : registry_wf reg) (Hc : from_registry reg = Some (Ok ck))
    (pid : PipelineId) (ev : Event) (ctx : KernelCtx) :
  compiled_run_pipeline ck pid ev ctx = Some (run_pipeline_with_registry reg pid ev ctx).
Proof. apply crun_loop_eq; [done|]. by apply from_registry_compiles. Qed.

Definition Demo_compiled : CompiledKernel :=
  match from_registry Demo.registry with
  | Some (Ok ck) => ck
  | _ => mkCompiledKernel ∅ ∅ ∅ ∅ [] [] [] [] [] []
  end.

Lemma compiled_run_is_interpreted_run_witness :
  from_registry Demo.registry = Some (Ok Demo_compiled)
  /\ compiled_run_pipeline Demo_compiled "main" event_empty Demo.no_ctx
     = Some (run_pipeline_with_registry Demo.registry "main" event_empty Demo.no_ctx).
Proof.
  split; [reflexivity|].
  apply (compiled_run_is_interpreted_run Demo.registry Demo_compiled Demo.registry_is_wf).
  reflexivity.
Defined.

(** C11: on a verified registry a run that starts at a registered pipeline never
    meets an unknown pipeline or hook: it ends with a terminal verdict whose
    accepted sink is registered, with a verdict its hook did not declare, off
    the end of a pipeline, or at the jump bound. *)
Theorem verified_run_ends_well (reg : KernelRegistry) (pid : PipelineId)
    (Hv : verify reg = Ok tt) (Hp : pid ∈ bt_keys (pipelines reg))
    (ev : Event) (ctx : KernelCtx) :
  let r := (run_pipeline_with_registry reg pid ev ctx).1.1 in
  r = Err JumpDepthExceeded \/ ends_well reg r.
Proof. apply run_loop_verified; [|done]. by apply verify_iff. Qed.

Lemma verified_run_ends_well_witness :
  verify Demo.registry = Ok tt /\ "main" ∈ bt_keys (pipelines Demo.registry)
  /\ (let r := (run_pipeline_with_registry Demo.registry "main" event_empty Demo.no_ctx).1.1 in
      r = Err JumpDepthExceeded \/ ends_well Demo.registry r).
Proof.
  assert (Hp : "main" ∈ bt_keys (pipelines Demo.registry)) by (right; left).
  split; [exact Demo.registry_verifies|]. split; [exact Hp|].
  exact (verified_run_ends_well Demo.registry "main" Demo.registry_verifies Hp
           event_empty Demo.no_ctx).
Defined.

(** a verified registry of at most [MAX_JUMP_DEPTH + 1] pipelines never
    reports [JumpDepthExceeded]: a run visits each pipeline at most once. *)
Theorem small_registry_never_exceeds_jump_depth (reg : KernelRegistry) (pid : PipelineId)
    (Hv : verify reg = Ok tt) (Hp : pid ∈ bt_keys (pipelines reg))
    (Hn : length (pipelines reg) <= S MAX_JUMP_DEPTH) (ev : Event) (ctx : KernelCtx) :
  (run_pipeline_with_registry reg pid ev ctx).1.1 <> Err JumpDepthExceeded.
Proof.
  apply (run_loop_depth reg (proj1 (verify_iff reg) Hv) _ _ []); try done; try set_solver.
  constructor.
Qed.

Lemma small_registry_never_exceeds_jump_depth_witness :
  length (pipelines Demo.registry) <= S MAX_JUMP_DEPTH
  /\ (run_pipeline_with_registry Demo.registry "main" event_empty Demo.no_ctx).1.1
     <> Err JumpDepthExceeded.
Proof.
  assert (Hp : "main" ∈ bt_keys (pipelines Demo.registry)) by (right; left).
  assert (Hn : length (pipelines Demo.registry) <= S MAX_JUMP_DEPTH) by (vm_compute; lia).
  split; [exact Hn|].
  exact (small_registry_never_exceeds_jump_depth Demo.registry "main" Demo.registry_verifies Hp Hn
           event_empty Demo.no_ctx).
Defined.

(** compiling a verified registry panics exactly when some declared hook
    has no function, whether a pipeline runs it or not: [verify] only asks for
    the functions of hooks that pipelines run, but [from_registry] expects one
    for every hook. *)
Theorem compile_panics_on_hook_without_fn (reg : KernelRegistry)
    (Hwf : bt_wf (hooks reg)) (Hv : verify reg = Ok tt) :
  from_registry reg = None <-> exists h, h ∈ bt_keys (hooks reg) /\ h ∉ bt_keys (fns reg).
Proof. by apply from_registry_panics. Qed.

Lemma compile_panics_on_hook_without_fn_witness :
  verify Demo.with_spare_hook = Ok tt /\ from_registry Demo.with_spare_hook = None.
Proof.
  assert (Hv : verify Demo.with_spare_hook = Ok tt) by (vm_compute; reflexivity).
  split; [exact Hv|].
  apply (compile_panics_on_hook_without_fn Demo.with_spare_hook); [|exact Hv|].
  - apply (bool_decide_unpack _). vm_compute. exact I.
  - exists "spare". split; apply (bool_decide_unpack _); vm_compute; exact I.
Defined.
