(* ===== verification/Replay.v ===== *)
(** The MeshSec anti-replay window (lib/mb-proto-mesh/src/replay.rs): a ring of
    64-bit words per (peer, epoch, boot salt), and the set of accepted counters
    it stands for.  [check_and_insert] is shown to implement that set. *)
From S2P Require Import Prelude.
Local Open Scope Z_scope.

(** ** The ring of words *)

Definition U64_MAX : Z := 2 ^ 64 - 1.

Record Window := mkWindow { highest : Z; seen : bool; bits : list Z }.

Definition window_new (words : nat) : Window := mkWindow 0 false (replicate words 0).

(** [(counter % (self.bits.len() as u64 * 64)) as usize] *)
Definition slot (w : list Z) (counter : Z) : Z := counter mod (Z.of_nat (length w) * 64).

Definition word_of (w : list Z) (counter : Z) : nat := Z.to_nat (slot w counter / 64).
Definition mask_of (w : list Z) (counter : Z) : Z := Z.shiftl 1 (slot w counter mod 64).

Definition test (w : list Z) (counter : Z) : bool :=
  negb (Z.land (w !!! word_of w counter) (mask_of w counter) =? 0).

Definition set (w : list Z) (counter : Z) : list Z :=
  alter (fun x => Z.lor x (mask_of w counter)) (word_of w counter) w.

(** [!m] on a [u64] flips its 64 bits. *)
Definition clear (w : list Z) (counter : Z) : list Z :=
  alter (fun x => Z.land x (Z.lxor (mask_of w counter) U64_MAX)) (word_of w counter) w.

(** ** The cache *)

Inductive ReplayError := ReplayTooOld | Replay.

(** [(peer_id, epoch_number, boot_salt)] *)
Definition ReplayKey : Type := string * Z * list Z.

Record MeshSecReplayCache := mkReplayCache {
  words : nat;
  window_bits : Z;
  windows : gmap ReplayKey Window
}.

Definition replay_new (window_bits : Z) : MeshSecReplayCache :=
  mkReplayCache (Z.to_nat (Z.max (window_bits / 64) 1)) window_bits ∅.

(** The body of [check_and_insert] on the entry's window. *)
Definition window_check (wb : Z) (w : Window) (counter : Z) : result unit ReplayError * Window :=
  if negb (seen w) then (Ok tt, mkWindow counter true (set (bits w) counter))
  else if highest w <? counter then
    let diff := counter - highest w in
    let bs := if wb <=? diff then (fun _ => 0) <$> bits w
              else foldl clear (bits w) (seqZ (highest w + 1) (counter - (highest w + 1))) in
    (Ok tt, mkWindow counter true (set bs counter))
  else if wb <=? highest w - counter then (Err ReplayTooOld, w)
  else if test (bits w) counter then (Err Replay, w)
  else (Ok tt, mkWindow (highest w) true (set (bits w) counter)).

Definition check_and_insert (c : MeshSecReplayCache) (key : ReplayKey) (counter : Z) :
    result unit ReplayError * MeshSecReplayCache :=
  let w := default (window_new (words c)) (windows c !! key) in
  let '(r, w') := window_check (window_bits c) w counter in
  (r, mkReplayCache (words c) (window_bits c) (<[key := w']> (windows c))).

(** A sequence of calls and their results. *)
Fixpoint replay_run (c : MeshSecReplayCache) (ops : list (ReplayKey * Z)) :
    list (result unit ReplayError) :=
  match ops with
  | [] => []
  | (key, counter) :: ops =>
      let '(r, c') := check_and_insert c key counter in r :: replay_run c' ops
  end.

(** ** What it promises: the highest counter and the set of accepted ones *)

Module Spec.
Record history := mkHistory { top : Z; accepted : gset Z }.

Definition fresh (wb : Z) (h : option history) (counter : Z) : result unit ReplayError :=
  match h with
  | None => Ok tt
  | Some h =>
      if top h <? counter then Ok tt
      else if wb <=? top h - counter then Err ReplayTooOld
      else if decide (counter ∈ accepted h) then Err Replay
      else Ok tt
  end.

Definition accept (h : option history) (counter : Z) : history :=
  match h with
  | None => mkHistory counter {[counter]}
  | Some h => mkHistory (Z.max (top h) counter) ({[counter]} ∪ accepted h)
  end.

Definition step (wb : Z) (s : gmap ReplayKey history) (key : ReplayKey) (counter : Z) :
    result unit ReplayError * gmap ReplayKey history :=
  match fresh wb (s !! key) counter with
  | Ok _ => (Ok tt, <[key := accept (s !! key) counter]> s)
  | Err e => (Err e, s)
  end.

Fixpoint run (wb : Z) (s : gmap ReplayKey history) (ops : list (ReplayKey * Z)) :
    list (result unit ReplayError) :=
  match ops with
  | [] => []
  | (key, counter) :: ops => let '(r, s') := step wb s key counter in r :: run wb s' ops
  end.
End Spec.

(** ** Bits of the ring *)

Lemma mask_bits w c i : 0 <= i -> Z.testbit (mask_of w c) i = bool_decide (i = slot w c mod 64).
Proof.
  intros Hi. unfold mask_of. rewrite Z.shiftl_1_l.
  rewrite Z.pow2_bits_eqb by (apply Z.mod_pos_bound; lia).
  case_bool_decide; [apply Z.eqb_eq; lia|apply Z.eqb_neq; lia].
Qed.

Lemma test_bit w c : test w c = Z.testbit (w !!! word_of w c) (slot w c mod 64).
Proof.
  assert (Hb : 0 <= slot w c mod 64) by (apply Z.mod_pos_bound; lia).
  unfold test. destruct (Z.testbit (w !!! word_of w c) _) eqn:E.
  - apply negb_true_iff, Z.eqb_neq. intros H0.
    apply (f_equal (fun z => Z.testbit z (slot w c mod 64))) in H0.
    rewrite Z.land_spec, E, mask_bits, Z.bits_0 in H0 by done.
    by rewrite bool_decide_eq_true_2 in H0.
  - apply negb_false_iff, Z.eqb_eq, Z.bits_inj'. intros i Hi.
    rewrite Z.land_spec, mask_bits, Z.bits_0 by done.
    case_bool_decide; subst; [by rewrite E|apply andb_false_r].
Qed.

Section Ring.
Variable w : list Z.
Hypothesis Hw : w <> [].

Lemma size_pos : 0 < Z.of_nat (length w) * 64.
Proof. destruct w; [done|simpl; lia]. Qed.

Lemma slot_bound c : 0 <= slot w c < Z.of_nat (length w) * 64.
Proof. apply Z.mod_pos_bound, size_pos. Qed.

Lemma word_bound c : (word_of w c < length w)%nat.
Proof.
  pose proof (slot_bound c) as H. unfold word_of.
  assert (0 <= slot w c / 64 < Z.of_nat (length w)); [|lia].
  split; [apply Z.div_pos; lia|apply Z.div_lt_upper_bound; lia].
Qed.

Lemma same_slot c d : slot w c = slot w d <-> word_of w c = word_of w d /\ slot w c mod 64 = slot w d mod 64.
Proof.
  split; [intros H; unfold word_of; by rewrite H|]. intros [H1 H2].
  pose proof (slot_bound c). pose proof (slot_bound d). unfold word_of in H1.
  apply Z2Nat.inj in H1; [|apply Z.div_pos; lia..].
  rewrite (Z.div_mod (slot w c) 64), (Z.div_mod (slot w d) 64) by lia. congruence.
Qed.

Lemma alter_lookup (f : Z -> Z) i j :
  (i < length w)%nat -> (j < length w)%nat ->
  alter f i w !!! j = if decide (i = j) then f (w !!! j) else w !!! j.
Proof.
  intros Hi Hj. destruct (lookup_lt_is_Some_2 w j Hj) as [x Hx].
  apply list_lookup_total_correct. rewrite (list_lookup_total_correct _ _ _ Hx).
  case_decide; subst; [by rewrite list_lookup_alter_eq, Hx|by rewrite list_lookup_alter_ne].
Qed.

Lemma test_alter (f : Z -> Z) c d :
  test (alter f (word_of w c) w) d
  = Z.testbit (if decide (word_of w c = word_of w d) then f (w !!! word_of w d)
               else w !!! word_of w d) (slot w d mod 64).
Proof.
  rewrite test_bit. unfold word_of at 1, slot. rewrite length_alter.
  fold (slot w d). fold (word_of w d).
  by rewrite alter_lookup by apply word_bound.
Qed.

(** Setting or clearing a counter changes exactly the counters of its slot. *)
Lemma test_set c d : test (set w c) d = bool_decide (slot w c = slot w d) || test w d.
Proof.
  assert (Hb : 0 <= slot w d mod 64) by (apply Z.mod_pos_bound; lia).
  unfold set. rewrite test_alter, test_bit.
  pose proof (same_slot c d) as Hs. case_decide as Hword.
  - rewrite Z.lor_spec, mask_bits by done. rewrite orb_comm. f_equal.
    apply bool_decide_ext. naive_solver.
  - rewrite bool_decide_eq_false_2 by naive_solver. done.
Qed.

Lemma test_clear c d : test (clear w c) d = negb (bool_decide (slot w c = slot w d)) && test w d.
Proof.
  assert (Hb : 0 <= slot w d mod 64 < 64) by (apply Z.mod_pos_bound; lia).
  unfold clear. rewrite test_alter, test_bit.
  pose proof (same_slot c d) as Hs. case_decide as Hword.
  - rewrite Z.land_spec, Z.lxor_spec, mask_bits by lia.
    change U64_MAX with (Z.ones 64).
    rewrite Z.ones_spec_low, xorb_true_r, andb_comm by lia. f_equal. f_equal.
    apply bool_decide_ext. naive_solver.
  - rewrite bool_decide_eq_false_2 by naive_solver. done.
Qed.

Lemma test_zero d : test ((fun _ => 0) <$> w) d = false.
Proof.
  rewrite test_bit.
  assert (Hword : word_of ((fun _ => 0) <$> w) d = word_of w d)
    by (unfold word_of, slot; by rewrite length_fmap).
  destruct (lookup_lt_is_Some_2 w _ (word_bound d)) as [x Hx].
  rewrite Hword. erewrite list_lookup_total_correct; [apply Z.bits_0|].
  by rewrite list_lookup_fmap, Hx.
Qed.
End Ring.

Lemma slot_len w w' c : length w = length w' -> slot w c = slot w' c.
Proof. unfold slot. by intros ->. Qed.

Lemma set_length w c : length (set w c) = length w.
Proof. apply length_alter. Qed.

Lemma clear_length w c : length (clear w c) = length w.
Proof. apply length_alter. Qed.

Lemma clear_all_length cs w : length (foldl clear w cs) = length w.
Proof. revert w. induction cs as [|c cs IH]; intros w; simpl; [done|]. by rewrite IH, clear_length. Qed.

Lemma test_clear_all cs w d :
  w <> [] ->
  test (foldl clear w cs) d = bool_decide (Forall (fun c => slot w c <> slot w d) cs) && test w d.
Proof.
  revert w. induction cs as [|c cs IH]; intros w Hw; simpl; [done|].
  assert (Hl := clear_length w c).
  rewrite IH by (intros E; rewrite E in Hl; destruct w; done).
  rewrite test_clear by done. rewrite !andb_assoc. f_equal.
  assert (Hs : forall x, slot (clear w c) x = slot w x) by (intros x; by apply slot_len).
  rewrite <- bool_decide_not, <- bool_decide_and. apply bool_decide_ext.
  rewrite Forall_cons. setoid_rewrite Hs. naive_solver.
Qed.

(** ** The window refines the history *)

(** Every counter of the window has a slot of its own. *)
Definition aligned (wb : Z) : Prop := 0 <= wb <= 64 * Z.max (wb / 64) 1.

Definition window_rel (wb : Z) (n : nat) (w : Window) (h : option Spec.history) : Prop :=
  length (bits w) = n
  /\ match h with
  | None => w = window_new n
  | Some h =>
      seen w = true /\ highest w = Spec.top h /\ 0 <= highest w
      /\ (forall c, c ∈ Spec.accepted h -> 0 <= c <= highest w)
      /\ (forall c, 0 <= c <= highest w -> highest w - c < wb ->
            test (bits w) c = bool_decide (c ∈ Spec.accepted h))
  end.

(** Two counters closer than the ring's size share a slot only when equal. *)
Lemma slot_inj w c d :
  w <> [] -> Z.abs (c - d) < Z.of_nat (length w) * 64 -> slot w c = slot w d -> c = d.
Proof.
  intros Hw Hd Hs. pose proof (size_pos w Hw) as Hp. unfold slot in Hs.
  set (m := Z.of_nat (length w) * 64) in *.
  assert (Hq : c - d = m * (c / m - d / m)).
  { rewrite (Z.div_mod c m), (Z.div_mod d m) at 1 by lia. lia. }
  assert (c / m - d / m = 0) by nia. nia.
Qed.

Lemma test_new n c : (0 < n)%nat -> test (replicate n 0) c = false.
Proof.
  intros Hn. rewrite <- (fmap_replicate (fun _ => 0) n 0). apply test_zero.
  destruct n; [lia|done].
Qed.

Section Refinement.
Variable wb : Z.
Hypothesis Hal : aligned wb.
Let n : nat := Z.to_nat (Z.max (wb / 64) 1).

Lemma ring_covers : wb <= Z.of_nat n * 64.
Proof. unfold aligned in Hal. subst n. lia. Qed.

Lemma ring_nonempty (w : list Z) : length w = n -> w <> [].
Proof. intros Hl ->. subst n. simpl in Hl. lia. Qed.

(** Accepting a counter on a ring that agrees with the old history. *)
Lemma set_agrees (w : list Z) (c : Z) (acc : gset Z) (top : Z) :
  length w = n -> c <= top ->
  (top - c < wb \/ top = c) ->
  (forall d, 0 <= d <= top -> top - d < wb -> d <> c -> test w d = bool_decide (d ∈ acc)) ->
  forall d, 0 <= d <= top -> top - d < wb ->
    test (set w c) d = bool_decide (d ∈ {[c]} ∪ acc).
Proof.
  intros Hl Hc Hcw Hacc d Hd Hdw. rewrite test_set by (by apply ring_nonempty).
  destruct (decide (d = c)) as [->|Hne].
  - rewrite bool_decide_eq_true_2 by done. rewrite bool_decide_eq_true_2 by set_solver. done.
  - rewrite bool_decide_eq_false_2.
    + rewrite Hacc by done. apply bool_decide_ext. set_solver.
    + intros Hs. apply Hne. symmetry. pose proof ring_covers.
      apply (slot_inj w); [by apply ring_nonempty|rewrite Hl; lia|done].
Qed.

(** Sliding the ring forward forgets the counters that were skipped. *)
Definition slide (w : list Z) (hi c : Z) : list Z :=
  if wb <=? c - hi then (fun _ => 0) <$> w
  else foldl clear w (seqZ (hi + 1) (c - (hi + 1))).

Lemma slide_length w hi c : length (slide w hi c) = length w.
Proof. unfold slide. destruct (_ <=? _); [apply length_fmap|apply clear_all_length]. Qed.

Lemma slide_agrees (w : list Z) (hi c : Z) (acc : gset Z) :
  length w = n -> 0 <= hi < c -> (forall d, d ∈ acc -> 0 <= d <= hi) ->
  (forall d, 0 <= d <= hi -> hi - d < wb -> test w d = bool_decide (d ∈ acc)) ->
  forall d, 0 <= d <= c -> c - d < wb -> d <> c ->
    test (slide w hi c) d = bool_decide (d ∈ acc).
Proof.
  intros Hl Hhi Hacc Htest d Hd Hdw Hne. pose proof ring_covers as Hcov.
  assert (Hn := ring_nonempty w Hl). unfold slide. destruct (Z.leb_spec wb (c - hi)).
  - rewrite test_zero by done. symmetry. apply bool_decide_eq_false_2.
    intros Hin. apply Hacc in Hin. lia.
  - rewrite test_clear_all by done. destruct (decide (d <= hi)) as [Hle|Hgt].
    + rewrite bool_decide_eq_true_2; [apply Htest; lia|].
      apply Forall_forall. intros x Hx Hs. apply elem_of_seqZ in Hx.
      apply (slot_inj w) in Hs; [lia|done|rewrite Hl; lia].
    + rewrite !bool_decide_eq_false_2; [done|intros Hin; apply Hacc in Hin; lia|].
      intros Hall. rewrite Forall_forall in Hall. apply (Hall d); [|done].
      apply elem_of_seqZ. lia.
Qed.

Lemma window_check_refines w h c :
  0 <= c -> window_rel wb n w h ->
  let '(r, w') := window_check wb w c in
  r = Spec.fresh wb h c
  /\ window_rel wb n w' (match r with Ok _ => Some (Spec.accept h c) | Err _ => h end).
Proof.
  intros Hc [Hl Hrel]. unfold window_check. destruct h as [h|].
  2:{ simpl in Hrel. subst w. simpl. split; [done|]. split; [simpl; by rewrite set_length|]. simpl.
      split_and!; [done..|set_unfold; lia|].
      intros d Hd Hdw. rewrite <- (right_id_L ∅ (∪) {[c]}).
      eapply (set_agrees _ c ∅ c); eauto; [lia|].
      intros e _ _ _. rewrite bool_decide_eq_false_2 by set_solver.
      apply test_new. subst n. lia. }
  destruct Hrel as (Hseen & Hhi & Hpos & Hacc & Htest). rewrite Hseen. simpl. rewrite <- Hhi.
  destruct (Z.ltb_spec (highest w) c) as [Hlt|Hge].
  - split; [done|]. fold (slide (bits w) (highest w) c).
    split; [simpl; by rewrite set_length, slide_length|].
    simpl. split_and!; [done|lia|lia|set_unfold; intros x [->|Hx%Hacc]; lia|].
    intros d Hd Hdw. eapply (set_agrees _ c _ c);
      [by rewrite slide_length|lia|lia| |done|done].
    intros e He Hew Hne. eapply slide_agrees; eauto.
  - destruct (Z.leb_spec wb (highest w - c)) as [Hold|Hin]; [by split; [|split]|].
    rewrite Htest by lia. case_bool_decide as Hc'.
    + rewrite decide_True by done. by split; [|split].
    + rewrite decide_False by done. split; [done|]. split; [simpl; by rewrite set_length|]. simpl.
      split_and!; [done|lia|lia|set_unfold; intros x [->|Hx%Hacc]; lia|].
      apply set_agrees; auto.
Qed.

Definition cache_rel (c : MeshSecReplayCache) (s : gmap ReplayKey Spec.history) : Prop :=
  words c = n /\ window_bits c = wb
  /\ forall key, window_rel wb n (default (window_new n) (windows c !! key)) (s !! key).

Lemma check_and_insert_refines c s key counter :
  0 <= counter -> cache_rel c s ->
  let '(r, c') := check_and_insert c key counter in
  let '(r', s') := Spec.step wb s key counter in
  r = r' /\ cache_rel c' s'.
Proof.
  intros Hc (Hwords & Hwb & Hrel). unfold check_and_insert, Spec.step. rewrite Hwords, Hwb.
  pose proof (window_check_refines _ _ counter Hc (Hrel key)) as Hstep.
  destruct (window_check _ _ _) as [r w']. destruct Hstep as [Hr Hw'].
  rewrite <- Hr. destruct r as [[]|e]; (split; [done|]); split_and!; [done..| |done|done|];
    intros k; simpl; destruct (decide (k = key)) as [->|Hne];
    rewrite ?lookup_insert_eq, ?lookup_insert_ne by done; auto.
Qed.

Lemma replay_run_refines c s ops :
  Forall (fun op => 0 <= op.2) ops -> cache_rel c s -> replay_run c ops = Spec.run wb s ops.
Proof.
  intros Hops. revert c s. induction Hops as [|[key counter] ops Hc Hops IH]; intros c s Hrel; simpl; [done|].
  pose proof (check_and_insert_refines c s key counter Hc Hrel) as Hstep.
  destruct (check_and_insert _ _ _) as [r c'], (Spec.step _ _ _ _) as [r' s'].
  destruct Hstep as [-> Hrel']. f_equal. auto.
Qed.

Lemma replay_new_rel : cache_rel (replay_new wb) ∅.
Proof.
  split_and!; [done..|]. intros key. simpl. rewrite !lookup_empty. simpl.
  split; [apply length_replicate|done].
Qed.
End Refinement.

(** ** What the history accepts *)

Module SpecFacts.
Import Spec.

Definition history_inv (h : history) : Prop :=
  top h ∈ accepted h /\ forall d, d ∈ accepted h -> d <= top h.

Definition inv (s : gmap ReplayKey history) : Prop := map_Forall (fun _ => history_inv) s.

Definition accepted_at (s : gmap ReplayKey history) (key : ReplayKey) : gset Z :=
  match s !! key with Some h => accepted h | None => ∅ end.

Fixpoint exec (wb : Z) (s : gmap ReplayKey history) (ops : list (ReplayKey * Z)) :
    gmap ReplayKey history :=
  match ops with
  | [] => s
  | (key, counter) :: ops => exec wb (step wb s key counter).2 ops
  end.

Lemma step_inv wb s key c : inv s -> inv (step wb s key c).2.
Proof.
  intros Hs. unfold step. destruct (fresh _ _ _); [|done]. apply map_Forall_insert_2; [|done].
  destruct (s !! key) as [h|] eqn:E; simpl; [|split; simpl; set_solver by lia].
  destruct (Hs _ _ E) as [Htop Hmax]. split; simpl; set_unfold.
  - destruct (Z.max_spec (top h) c) as [[? ->]|[? ->]]; auto.
  - intros d [->|Hd%Hmax]; lia.
Qed.

Lemma step_accepted wb s key c k d :
  d ∈ accepted_at (step wb s key c).2 k
  <-> d ∈ accepted_at s k \/ (k, d) = (key, c) /\ (step wb s key c).1 = Ok tt.
Proof.
  unfold step, accepted_at. destruct (fresh _ _ _) as [[]|e]; simpl; [|naive_solver].
  destruct (decide (k = key)) as [->|Hne].
  - rewrite lookup_insert_eq. destruct (s !! key); simpl; set_solver.
  - rewrite lookup_insert_ne by done. naive_solver.
Qed.

Lemma exec_accepted wb s ops k d :
  d ∈ accepted_at (exec wb s ops) k
  <-> d ∈ accepted_at s k \/ ((k, d), Ok tt) ∈ zip ops (run wb s ops).
Proof.
  revert s. induction ops as [|[key c] ops IH]; intros s; simpl; [set_solver|].
  rewrite IH, step_accepted. destruct (step wb s key c) as [r s']. simpl.
  rewrite elem_of_cons. destruct r as [[]|]; naive_solver.
Qed.

Lemma exec_inv wb s ops : inv s -> inv (exec wb s ops).
Proof.
  revert s. induction ops as [|[key c] ops IH]; intros s Hs; simpl; [done|].
  by apply IH, step_inv.
Qed.

Lemma run_last wb s ops key c :
  last (run wb s (ops ++ [(key, c)])) = Some (fresh wb (exec wb s ops !! key) c).
Proof.
  revert s. induction ops as [|[k d] ops IH]; intros s; simpl.
  - unfold step. destruct (fresh _ _ _) as [[]|]; done.
  - destruct (step wb s k d) as [r s'] eqn:E. simpl. rewrite last_cons, IH. done.
Qed.

Lemma fresh_ok wb s key c :
  0 <= wb -> inv s ->
  fresh wb (s !! key) c = Ok tt
  <-> forall d, d ∈ accepted_at s key -> d <> c /\ d - c < wb.
Proof.
  intros Hwb Hs. unfold accepted_at. destruct (s !! key) as [h|] eqn:E; simpl; [|set_solver].
  destruct (Hs _ _ E) as [Htop Hmax].
  destruct (Z.ltb_spec (top h) c).
  { split; [|done]. intros _ d Hd%Hmax. lia. }
  destruct (Z.leb_spec wb (top h - c)).
  { split; [done|]. intros Hall. destruct (Hall _ Htop). lia. }
  case_decide as Hc.
  - split; [done|]. intros Hall. by destruct (Hall _ Hc).
  - split; [|done]. intros _ d Hd. pose proof (Hmax d Hd). split; [congruence|lia].
Qed.
End SpecFacts.

(** ** Properties *)

(** C7: on a window size whose counters have slots of their own, any sequence of
    calls on a new cache returns exactly what the specification returns, which
    keeps for every (peer, epoch, salt) the highest counter and the set of all
    accepted counters. *)
Theorem replay_refines_history (wb : Z) (ops : list (ReplayKey * Z))
    (Hal : aligned wb) (Hops : Forall (fun op => 0 <= op.2) ops) :
  replay_run (replay_new wb) ops = Spec.run wb ∅ ops.
Proof. apply replay_run_refines; [done..|apply replay_new_rel]. Qed.

Lemma aligned_1024 : aligned 1024.
Proof. unfold aligned. vm_compute. split; discriminate. Qed.

Definition key_a : ReplayKey := ("peer-a"%string, 7, [1; 2; 3; 4]).
Definition key_b : ReplayKey := ("peer-a"%string, 7, [9; 2; 3; 4]).

Lemma replay_refines_history_witness :
  replay_run (replay_new 1024) [(key_a, 5); (key_a, 2000); (key_a, 5); (key_b, 5); (key_a, 2000)]
  = [Ok tt; Ok tt; Err ReplayTooOld; Ok tt; Err Replay].
Proof.
  rewrite (replay_refines_history 1024); [reflexivity|exact aligned_1024|].
  repeat constructor; simpl; lia.
Defined.

(** after any sequence of calls a counter is accepted exactly when no counter
    accepted before under the same key is equal to it or ahead of it by the
    window size or more: nothing is accepted twice, and everything new inside
    the window is accepted, in whatever order the counters arrive. *)
Theorem replay_accepts_exactly_fresh (wb : Z) (ops : list (ReplayKey * Z)) (key : ReplayKey)
    (c : Z) (Hal : aligned wb) (Hops : Forall (fun op => 0 <= op.2) ops) (Hc : 0 <= c) :
  last (replay_run (replay_new wb) (ops ++ [(key, c)])) = Some (Ok tt)
  <-> forall d, ((key, d), Ok tt) ∈ zip ops (replay_run (replay_new wb) ops) ->
        d <> c /\ d - c < wb.
Proof.
  assert (Hrel := replay_new_rel wb).
  rewrite !(replay_run_refines wb Hal _ ∅) by (auto; apply Forall_app; auto).
  rewrite SpecFacts.run_last.
  assert (Hf := SpecFacts.fresh_ok wb (SpecFacts.exec wb ∅ ops) key c).
  setoid_rewrite SpecFacts.exec_accepted in Hf.
  split.
  - intros [= Hok] d Hd. apply Hf; auto; [unfold aligned in Hal; lia|].
    apply SpecFacts.exec_inv. apply map_Forall_empty.
  - intros Hall. f_equal. apply Hf; [unfold aligned in Hal; lia| |].
    + apply SpecFacts.exec_inv. apply map_Forall_empty.
    + intros d [Hd|Hd]; [|auto]. unfold SpecFacts.accepted_at in Hd.
      rewrite lookup_empty in Hd. set_solver.
Qed.

Lemma replay_accepts_exactly_fresh_witness :
  last (replay_run (replay_new 1024) ([(key_a, 1030); (key_b, 7)] ++ [(key_a, 7)])) = Some (Ok tt)
  /\ last (replay_run (replay_new 1024) ([(key_a, 1030); (key_a, 7)] ++ [(key_a, 7)]))
     <> Some (Ok tt).
Proof.
  split.
  - apply (replay_accepts_exactly_fresh 1024); [exact aligned_1024|repeat constructor; simpl; lia|lia|].
    intros d Hd. vm_compute in Hd. set_unfold. destruct Hd as [[=]|[[=]|[]]]; subst; lia.
  - assert (Hops : Forall (fun op : ReplayKey * Z => 0 <= op.2) [(key_a, 1030); (key_a, 7)])
      by (repeat constructor; simpl; lia).
    intros H.
    pose proof (proj1 (replay_accepts_exactly_fresh 1024 _ key_a 7 aligned_1024 Hops ltac:(lia)) H)
      as Hall. clear H.
    destruct (Hall 7); [vm_compute; right; left|done].
Defined.

(** A window of 100 counters has a ring of 64 slots: accepting 66 clears the slot
    of 1, which is then accepted a second time. *)
Example misaligned_window_accepts_replay :
  replay_run (replay_new 100) [(key_a, 0); (key_a, 1); (key_a, 66); (key_a, 1)]
  = [Ok tt; Ok tt; Ok tt; Ok tt].
Proof. vm_compute. reflexivity. Qed.
