(* ===== verification/Endpoint.v ===== *)
(** Endpoints (lib/mb-endpoint/src/lib.rs): construction, parsing and display of
    [host:port], with the round trip between the last two. *)
From S2P Require Import Prelude Numbers.
Local Open Scope string_scope.

Record Endpoint := mkEndpoint { host : string; port : Z }.

Inductive ParseError :=
| EmptyHost
| MissingColon
| InvalidPort (s : string)
| HostTooLong (n : nat)
| MalformedIpv6.

#[export] Instance Endpoint_eq_dec : EqDecision Endpoint.
Proof. solve_decision. Defined.

Definition U16_MAX : Z := 65535.

Definition endpoint_new (host : string) (port : Z) : result Endpoint ParseError :=
  if str_is_empty host then Err EmptyHost
  else if (255 <? String.length host)%nat then Err (HostTooLong (String.length host))
  else if (port =? 0)%Z then Err (InvalidPort "0")
  else Ok (mkEndpoint host port).

(** [s.rfind(c)] and the two slices around it. *)
Fixpoint rsplit_once (c : Ascii.ascii) (s : string) : option (string * string) :=
  match s with
  | EmptyString => None
  | String a s =>
      match rsplit_once c s with
      | Some (h, t) => Some (String a h, t)
      | None => if decide (a = c) then Some (EmptyString, s) else None
      end
  end.

(** The host and port texts of [Endpoint::parse]'s two branches. *)
Definition parse_split (input : string) : result (string * string) ParseError :=
  match strip_prefix "[" input with
  | Some rest =>
      match split_once "]" rest with
      | None => Err MalformedIpv6
      | Some (host, after) =>
          match strip_prefix ":" after with
          | None => Err MissingColon
          | Some port_str => Ok (host, port_str)
          end
      end
  | None =>
      match rsplit_once ":" input with
      | None => Err MissingColon
      | Some hp => Ok hp
      end
  end.

Definition endpoint_parse (input : string) : result Endpoint ParseError :=
  let? (host, port) := parse_split input in
  match parse_uint U16_MAX port with
  | None => Err (InvalidPort port)
  | Some p => endpoint_new host p
  end.

Fixpoint str_contains (c : Ascii.ascii) (s : string) : bool :=
  match s with
  | EmptyString => false
  | String a s => bool_decide (a = c) || str_contains c s
  end.

Definition endpoint_fmt (e : Endpoint) : string :=
  if str_contains ":" (host e) then "[" +:+ host e +:+ "]:" +:+ dec_show (port e)
  else host e +:+ ":" +:+ dec_show (port e).

(** ** Well-formed endpoints *)

(** What [Endpoint::new] guarantees of every endpoint. *)
Definition endpoint_ok (e : Endpoint) : Prop :=
  host e <> "" /\ (String.length (host e) <= 255)%nat /\ (1 <= port e <= U16_MAX)%Z.

Lemma endpoint_new_ok h p e :
  (0 <= p <= U16_MAX)%Z ->
  endpoint_new h p = Ok e <-> e = mkEndpoint h p /\ endpoint_ok e.
Proof.
  intros Hp. unfold endpoint_new, endpoint_ok. destruct h as [|a h]; simpl.
  { split; [done|]. intros (-> & ? & _). done. }
  destruct (Nat.ltb_spec 255 (S (String.length h))).
  { split; [done|]. intros (-> & _ & ? & _). simpl in *. lia. }
  destruct (Z.eqb_spec p 0) as [->|Hne].
  { split; [done|]. intros (-> & _ & _ & ?). simpl in *. lia. }
  split; [|intros [-> _]; done]. intros [= <-]. simpl. split_and!; [done..|lia|lia|lia].
Qed.

(** Hosts that [parse] reads back: one with a colon is printed in brackets and
    must not hold a closing one, one without must not open one. *)
Definition host_printable (h : string) : bool :=
  if str_contains ":" h then negb (str_contains "]" h)
  else negb (starts_with "[" h).

Lemma split_once_app c h t :
  str_contains c h = false -> split_once c (h +:+ String c t) = Some (h, t).
Proof.
  induction h as [|a h IH]; simpl; intros Hc.
  - by rewrite decide_True.
  - apply orb_false_iff in Hc as [Ha Hc]. apply bool_decide_eq_false in Ha.
    rewrite decide_False, IH by done. done.
Qed.

Lemma rsplit_once_none c s : str_contains c s = false -> rsplit_once c s = None.
Proof.
  induction s as [|a s IH]; simpl; [done|]. intros [Ha Hs]%orb_false_iff.
  apply bool_decide_eq_false in Ha. by rewrite IH, decide_False.
Qed.

Lemma rsplit_once_app c h t :
  str_contains c t = false -> rsplit_once c (h +:+ String c t) = Some (h, t).
Proof.
  intros Ht. induction h as [|a h IH]; simpl.
  - by rewrite rsplit_once_none, decide_True.
  - by rewrite IH.
Qed.

Lemma digits_no_colon s : str_all is_digit s = true -> str_contains ":" s = false.
Proof.
  induction s as [|a s IH]; simpl; [done|]. intros [Ha Hs]%andb_true_iff.
  rewrite IH by done. rewrite bool_decide_eq_false_2; [done|]. intros ->. discriminate.
Qed.

Lemma strip_bracket_none h t :
  h <> "" -> starts_with "[" h = false -> strip_prefix "[" (h +:+ t) = None.
Proof.
  unfold starts_with. destruct h as [|a h]; [done|]. intros _. simpl.
  by case_decide.
Qed.

Lemma parse_split_fmt e :
  host e <> "" -> host_printable (host e) = true ->
  parse_split (endpoint_fmt e) = Ok (host e, dec_show (port e)).
Proof.
  unfold host_printable, endpoint_fmt, parse_split. intros Hne Hp.
  destruct (str_contains ":" (host e)) eqn:Hc.
  - apply negb_true_iff in Hp.
    rewrite (proj2 (strip_prefix_app "[" _ (host e +:+ "]:" +:+ dec_show (port e)))) by done.
    change ("]:" +:+ dec_show (port e)) with (String "]" (":" +:+ dec_show (port e))).
    rewrite split_once_app by done.
    by rewrite (proj2 (strip_prefix_app ":" _ (dec_show (port e)))).
  - apply negb_true_iff in Hp. rewrite strip_bracket_none by done.
    change (":" +:+ dec_show (port e)) with (String ":" (dec_show (port e))).
    by rewrite rsplit_once_app by apply digits_no_colon, dec_show_digits.
Qed.

Lemma parse_fmt e :
  endpoint_ok e -> host_printable (host e) = true -> endpoint_parse (endpoint_fmt e) = Ok e.
Proof.
  intros Hok Hp. unfold endpoint_parse. rewrite parse_split_fmt; [|apply Hok|done].
  rewrite parse_dec_show by (destruct Hok as (_ & _ & ?); lia).
  apply endpoint_new_ok; [destruct Hok as (_ & _ & ?); lia|]. by destruct e.
Qed.

Lemma parse_digits_bound max s acc z :
  (0 <= acc <= max)%Z -> parse_digits max s acc = Some z -> (0 <= z <= max)%Z.
Proof.
  revert acc. induction s as [|a s IH]; intros acc Hacc; simpl; [intros [= <-]; done|].
  destruct (is_digit a) eqn:Ha; [|done]. destruct (Z.ltb_spec max (acc * 10 + digit_val a)); [done|].
  apply IH. unfold is_digit, in_range in Ha. apply andb_true_iff in Ha as [H1%N.leb_le H2%N.leb_le].
  unfold digit_val in *. lia.
Qed.

Lemma parse_uint_bound max s z :
  (0 <= max)%Z -> parse_uint max s = Some z -> (0 <= z <= max)%Z.
Proof.
  unfold parse_uint. intros Hmax. destruct (str_is_empty _); [done|].
  apply parse_digits_bound. lia.
Qed.

Lemma parse_ok input e : endpoint_parse input = Ok e -> endpoint_ok e.
Proof.
  unfold endpoint_parse. destruct (parse_split input) as [[h p]|]; [|done].
  destruct (parse_uint U16_MAX p) as [z|] eqn:Ez; [|done].
  apply parse_uint_bound in Ez; [|done]. rewrite endpoint_new_ok by done. naive_solver.
Qed.

(** [parse] only returns endpoints that satisfy the constructor's contract
    (a host of 1 to 255 bytes and a non-zero 16-bit port), and it reads back the
    display form of every such endpoint whose host is printable. *)
Theorem endpoint_display_parse (e : Endpoint) :
  (forall input, endpoint_parse input = Ok e -> endpoint_ok e)
  /\ (endpoint_ok e -> host_printable (host e) = true -> endpoint_parse (endpoint_fmt e) = Ok e).
Proof. split; [intros input; apply parse_ok|apply parse_fmt]. Qed.

Lemma endpoint_display_parse_witness :
  endpoint_parse (endpoint_fmt (mkEndpoint "2001:db8::1" 443)) = Ok (mkEndpoint "2001:db8::1" 443)
  /\ endpoint_fmt (mkEndpoint "2001:db8::1" 443) = "[2001:db8::1]:443".
Proof.
  split; [|reflexivity].
  apply endpoint_display_parse; [|reflexivity].
  split_and!; [done|simpl; lia|vm_compute; discriminate..].
Defined.

(** A host that [Endpoint::new] accepts and whose display form does not parse. *)
Example bracket_host_not_reparsed :
  endpoint_new "[x" 80 = Ok (mkEndpoint "[x" 80)
  /\ endpoint_parse (endpoint_fmt (mkEndpoint "[x" 80)) = Err MalformedIpv6.
Proof. split; reflexivity. Qed.
