(* ===== verification/NetAddr.v ===== *)
(** The parts of the Rust standard library the protocol codecs use: bytes of a
    [str], UTF-8 validity, and [Ipv4Addr] and [Ipv6Addr] with their parsers and
    displays (core::net), as executable definitions. *)
From S2P Require Import Prelude Numbers.
Local Open Scope Z_scope.

(** ** Bytes of a string *)

Definition byte_z (a : Ascii.ascii) : Z := Z.of_N (byte_of a).
Definition ascii_z (z : Z) : Ascii.ascii := Ascii.ascii_of_N (Z.to_N z).

Fixpoint bytes_of_string (s : string) : list Z :=
  match s with EmptyString => [] | String a s => byte_z a :: bytes_of_string s end.

Fixpoint string_of_bytes (l : list Z) : string :=
  match l with [] => EmptyString | b :: l => String (ascii_z b) (string_of_bytes l) end.

Lemma ascii_z_byte a : ascii_z (byte_z a) = a.
Proof. unfold ascii_z, byte_z. rewrite N2Z.id. apply Ascii.ascii_N_embedding. Qed.

Lemma byte_z_ascii z : is_byte z -> byte_z (ascii_z z) = z.
Proof. unfold is_byte, byte_z, ascii_z. intros Hz. rewrite byte_of_ascii by lia. lia. Qed.

Lemma string_of_bytes_of s : string_of_bytes (bytes_of_string s) = s.
Proof. induction s as [|a s IH]; simpl; [done|]. by rewrite IH, ascii_z_byte. Qed.

Lemma bytes_of_string_of l : bytes_ok l -> bytes_of_string (string_of_bytes l) = l.
Proof. induction 1 as [|b l Hb _ IH]; simpl; [done|]. by rewrite IH, byte_z_ascii. Qed.

Lemma bytes_of_string_length s : length (bytes_of_string s) = String.length s.
Proof. induction s as [|a s IH]; simpl; congruence. Qed.

Lemma bytes_of_string_ok s : bytes_ok (bytes_of_string s).
Proof.
  induction s as [|a s IH]; simpl; constructor; [|done].
  unfold is_byte, byte_z, byte_of. pose proof (Ascii.N_ascii_bounded a). lia.
Qed.

(** ** UTF-8 *)

Definition between (lo hi z : Z) : bool := (lo <=? z) && (z <=? hi).
Definition continuation (z : Z) : bool := between 0x80 0xbf z.

(** [str::from_utf8(l).is_ok()]: the well-formed sequences of the Unicode table. *)
Fixpoint utf8_valid (fuel : nat) (l : list Z) : bool :=
  match l, fuel with
  | [], _ => true
  | _, O => false
  | b :: l, S fuel =>
      if between 0 0x7f b then utf8_valid fuel l
      else if between 0xc2 0xdf b then
        match l with c1 :: l => continuation c1 && utf8_valid fuel l | _ => false end
      else if between 0xe0 0xef b then
        match l with
        | c1 :: c2 :: l =>
            (if b =? 0xe0 then between 0xa0 0xbf c1
             else if b =? 0xed then between 0x80 0x9f c1 else continuation c1)
            && continuation c2 && utf8_valid fuel l
        | _ => false
        end
      else if between 0xf0 0xf4 b then
        match l with
        | c1 :: c2 :: c3 :: l =>
            (if b =? 0xf0 then between 0x90 0xbf c1
             else if b =? 0xf4 then between 0x80 0x8f c1 else continuation c1)
            && continuation c2 && continuation c3 && utf8_valid fuel l
        | _ => false
        end
      else false
  end.

Definition from_utf8 (l : list Z) : option string :=
  if utf8_valid (length l) l then Some (string_of_bytes l) else None.

(** Every [String] holds UTF-8. *)
Definition is_utf8 (s : string) : bool := utf8_valid (String.length s) (bytes_of_string s).

Lemma from_utf8_bytes s : is_utf8 s = true -> from_utf8 (bytes_of_string s) = Some s.
Proof.
  unfold is_utf8, from_utf8. intros Hs. rewrite bytes_of_string_length, Hs. by rewrite string_of_bytes_of.
Qed.

(** ** The parser of [core::net]: a reader returns a value and the rest *)

(** [char::to_digit(radix)] for 10 and 16. *)
Definition to_digit (radix : Z) (a : Ascii.ascii) : option Z :=
  let b := byte_z a in
  let d := if between 48 57 b then Some (b - 48)
           else if between 97 122 b then Some (b - 87)
           else if between 65 90 b then Some (b - 55) else None in
  match d with Some d => if d <? radix then Some d else None | None => None end.

(** The run of digits in front, its value and its length. *)
Fixpoint read_digits (radix : Z) (s : string) (acc : Z) (n : nat) : Z * nat * string :=
  match s with
  | EmptyString => (acc, n, s)
  | String a s' =>
      match to_digit radix a with
      | Some d => read_digits radix s' (acc * radix + d) (S n)
      | None => (acc, n, s)
      end
  end.

(** [read_number(radix, Some(max_digits), allow_zero_prefix)] into a type of maximum [max]. *)
Definition read_number (radix : Z) (max_digits : nat) (allow_zero : bool) (max : Z) (s : string) :
    option (Z * string) :=
  let '(v, n, rest) := read_digits radix s 0 0 in
  if (n =? 0)%nat || (max_digits <? n)%nat then None
  else if negb allow_zero && starts_with "0" s && (1 <? n)%nat then None
  else if max <? v then None
  else Some (v, rest).

Definition read_char (c : Ascii.ascii) (s : string) : option string :=
  match s with String a s => if decide (a = c) then Some s else None | EmptyString => None end.

(** [read_separator(sep, index, inner)] *)
Definition read_separator {A} (c : Ascii.ascii) (index : nat) (inner : string -> option (A * string))
    (s : string) : option (A * string) :=
  match index with
  | O => inner s
  | S _ => match read_char c s with Some s => inner s | None => None end
  end.

Definition read_octet (i : nat) : string -> option (Z * string) :=
  read_separator "." i (read_number 10 3 false 255).

Definition read_ipv4 (s : string) : option (list Z * string) :=
  '(a, s) ← read_octet 0 s; '(b, s) ← read_octet 1 s; '(c, s) ← read_octet 2 s; '(d, s) ← read_octet 3 s;
  Some ([a; b; c; d], s).

(** [s.parse::<Ipv4Addr>()]: four octets, the whole input, at most 15 bytes. *)
Definition parse_ipv4 (s : string) : option (list Z) :=
  if (15 <? String.length s)%nat then None
  else match read_ipv4 s with Some (o, EmptyString) => Some o | _ => None end.

Definition show_ipv4 (o : list Z) : string :=
  match o with
  | [a; b; c; d] => dec_show a +:+ "." +:+ dec_show b +:+ "." +:+ dec_show c +:+ "." +:+ dec_show d
  | _ => ""
  end%string.

(** [read_groups]: the groups read, whether they end in an embedded IPv4 address,
    and the rest; [i] groups were read before, out of [i + limit]. *)
Fixpoint read_groups (limit i : nat) (s : string) : list Z * bool * string :=
  match limit with
  | O => ([], false, s)
  | S more =>
      let v4 := match more with O => None | S _ => read_separator ":" i read_ipv4 s end in
      match v4 with
      | Some ([a; b; c; d], s) => ([a * 256 + b; c * 256 + d], true, s)
      | _ =>
          match read_separator ":" i (read_number 16 4 true 65535) s with
          | Some (g, s) => let '(gs, b, s) := read_groups more (S i) s in (g :: gs, b, s)
          | None => ([], false, s)
          end
      end
  end.

Definition read_ipv6 (s : string) : option (list Z * string) :=
  let '(head, head_v4, s) := read_groups 8 0 s in
  if (length head =? 8)%nat then Some (head, s)
  else if head_v4 then None
  else
    s ← read_char ":" s; s ← read_char ":" s;
    let '(tail, _, s) := read_groups (8 - (length head + 1)) 0 s in
    Some (head ++ replicate (8 - length head - length tail) 0 ++ tail, s).

(** [s.parse::<Ipv6Addr>()] as its eight groups. *)
Definition parse_ipv6 (s : string) : option (list Z) :=
  match read_ipv6 s with Some (g, EmptyString) => Some g | _ => None end.

Definition octets_of_groups (g : list Z) : list Z := g ≫= fun x => [x / 256; x mod 256].

Fixpoint groups_of_octets (o : list Z) : list Z :=
  match o with a :: b :: o => (a * 256 + b) :: groups_of_octets o | _ => [] end.

(** [format!("{:x}", z)] of a group. *)
Definition hex_group (z : Z) : string :=
  hex_show (if z <? 16 then 1 else if z <? 256 then 2 else if z <? 4096 then 3 else 4) z.

Fixpoint join_groups (g : list Z) : string :=
  match g with
  | [] => ""
  | [x] => hex_group x
  | x :: g => hex_group x +:+ ":" +:+ join_groups g
  end%string.

(** The longest run of zero groups, the first of equals: (start, length). *)
Fixpoint zero_span (g : list Z) (i : nat) (longest current : nat * nat) : nat * nat :=
  match g with
  | [] => longest
  | x :: g =>
      if x =? 0 then
        let current := if (current.2 =? 0)%nat then (i, 1%nat) else (current.1, S current.2) in
        let longest := if (longest.2 <? current.2)%nat then current else longest in
        zero_span g (S i) longest current
      else zero_span g (S i) longest (0, 0)%nat
  end.

Definition show_ipv6 (g : list Z) : string :=
  if bool_decide (take 6 g = [0; 0; 0; 0; 0; 0xffff])
  then "::ffff:" +:+ show_ipv4 (octets_of_groups (drop 6 g))
  else
    let '(start, len) := zero_span g 0 (0, 0)%nat (0, 0)%nat in
    if (1 <? len)%nat then join_groups (take start g) +:+ "::" +:+ join_groups (drop (start + len) g)
    else join_groups g.

Example ipv4_parse_examples :
  parse_ipv4 "127.0.0.1" = Some [127; 0; 0; 1] /\ parse_ipv4 "01.2.3.4" = None
  /\ parse_ipv4 "1.2.3.256" = None /\ parse_ipv4 "1.2.3" = None /\ parse_ipv4 "1.2.3.4 " = None.
Proof. vm_compute. auto. Qed.

Example ipv6_parse_examples :
  parse_ipv6 "2001:db8::1" = Some [0x2001; 0xdb8; 0; 0; 0; 0; 0; 1] /\ parse_ipv6 "::" = Some (replicate 8 0)
  /\ parse_ipv6 "::ffff:1.2.3.4" = Some [0; 0; 0; 0; 0; 0xffff; 0x102; 0x304]
  /\ parse_ipv6 "1:2:3:4:5:6:7:8:9" = None /\ parse_ipv6 "1::2::3" = None /\ parse_ipv6 "12345::" = None.
Proof. vm_compute. repeat split. Qed.

Example ipv6_show_examples :
  show_ipv6 [0x2001; 0xdb8; 0; 0; 1; 0; 0; 0] = "2001:db8:0:0:1::"%string /\ show_ipv6 (replicate 8 0) = "::"%string
  /\ show_ipv6 [0; 0; 0; 0; 0; 0xffff; 0x102; 0x304] = "::ffff:1.2.3.4"%string
  /\ show_ipv6 [1; 0; 3; 4; 5; 6; 7; 8] = "1:0:3:4:5:6:7:8"%string.
Proof. vm_compute. auto. Qed.

(** ** Socket addresses *)

Inductive SocketAddr := SockV4 (octets : list Z) (port : Z) | SockV6 (groups : list Z) (scope port : Z).

#[export] Instance SocketAddr_eq_dec : EqDecision SocketAddr.
Proof. solve_decision. Defined.

#[export] Instance SocketAddr_countable : Countable SocketAddr.
Proof.
  apply (inj_countable' (fun a => match a with SockV4 o p => inl (o, p) | SockV6 g s p => inr (g, s, p) end)
           (fun c => match c with inl (o, p) => SockV4 o p | inr (g, s, p) => SockV6 g s p end)).
  by intros [].
Defined.

(** [read_number(10, None, true)]: any number of digits, as long as the value fits. *)
Definition read_unbounded (max : Z) (s : string) : option (Z * string) :=
  read_number 10 (String.length s) true max s.

Definition read_port (s : string) : option (Z * string) :=
  s ← read_char ":" s; read_unbounded 65535 s.

Definition read_socket_v4 (s : string) : option (SocketAddr * string) :=
  '(o, s) ← read_ipv4 s; '(p, s) ← read_port s; Some (SockV4 o p, s).

(** [read_scope_id().unwrap_or(0)] *)
Definition read_scope (s : string) : Z * string :=
  match (s' ← read_char "%" s; read_unbounded (2 ^ 32 - 1) s') with Some r => r | None => (0, s) end.

Definition read_socket_v6 (s : string) : option (SocketAddr * string) :=
  s ← read_char "[" s; '(g, s) ← read_ipv6 s;
  let '(scope, s) := read_scope s in
  s ← read_char "]" s; '(p, s) ← read_port s; Some (SockV6 g scope p, s).

(** [s.parse::<SocketAddr>()] *)
Definition parse_socket_addr (s : string) : option SocketAddr :=
  match read_socket_v4 s with
  | Some (a, "") => Some a
  | Some _ => None
  | None => match read_socket_v6 s with Some (a, "") => Some a | _ => None end
  end.

(** [addr.ip().is_loopback()] *)
Definition is_loopback (a : SocketAddr) : bool :=
  match a with
  | SockV4 o _ => match o with b :: _ => b =? 127 | [] => false end
  | SockV6 g _ _ => bool_decide (g = [0; 0; 0; 0; 0; 0; 0; 1])
  end.

Example socket_addr_examples :
  parse_socket_addr "127.0.0.1:8080" = Some (SockV4 [127; 0; 0; 1] 8080)
  /\ parse_socket_addr "[::1]:53" = Some (SockV6 [0; 0; 0; 0; 0; 0; 0; 1] 0 53)
  /\ parse_socket_addr "[fe80::1%3]:53" = Some (SockV6 [0xfe80; 0; 0; 0; 0; 0; 0; 1] 3 53)
  /\ parse_socket_addr "localhost:80" = None /\ parse_socket_addr "1.2.3.4:65536" = None
  /\ parse_socket_addr "1.2.3.4" = None.
Proof. vm_compute. repeat split. Qed.

(** ** Printing after parsing *)

Lemma to_digit_10 a d : to_digit 10 a = Some d -> 0 <= d < 10 /\ a = digit d.
Proof.
  unfold to_digit, between. set (b := byte_z a). intros Hd.
  assert (Hcase : (48 <= b <= 57 /\ d = b - 48) \/ False).
  { destruct ((48 <=? b) && (b <=? 57)) eqn:E1.
    - left. apply andb_true_iff in E1 as [?%Z.leb_le ?%Z.leb_le].
      destruct (b - 48 <? 10); [|done]. injection Hd as <-. lia.
    - destruct ((97 <=? b) && (b <=? 122)) eqn:E2.
      + apply andb_true_iff in E2 as [?%Z.leb_le ?%Z.leb_le]. destruct (Z.ltb_spec (b - 87) 10); [lia|done].
      + destruct ((65 <=? b) && (b <=? 90)) eqn:E3; [|done].
        apply andb_true_iff in E3 as [?%Z.leb_le ?%Z.leb_le]. destruct (Z.ltb_spec (b - 55) 10); [lia|done]. }
  destruct Hcase as [[Hb ->]|[]]. split; [lia|]. rewrite <- (ascii_z_byte a). fold b. unfold digit, ascii_z. f_equal. f_equal. lia.
Qed.

Lemma digit_to_digit d : 0 <= d < 10 -> to_digit 10 (digit d) = Some d.
Proof.
  intros Hd. assert (d = 0 \/ d = 1 \/ d = 2 \/ d = 3 \/ d = 4 \/ d = 5 \/ d = 6 \/ d = 7 \/ d = 8 \/ d = 9) as Hc by lia.
  by repeat (destruct Hc as [-> |Hc]); subst.
Qed.

Lemma read_digits_count radix s : forall acc n, (n <= (read_digits radix s acc n).1.2)%nat.
Proof.
  induction s as [|a s IH]; intros acc n; simpl; [lia|]. destruct (to_digit radix a); simpl; [|lia].
  specialize (IH (acc * radix + z) (S n)). lia.
Qed.

(** One octet: what is read is how the octet is printed. *)
Definition three_digits (z : Z) : string :=
  if z <? 10 then String (digit z) ""
  else if z <? 100 then String (digit (z / 10)) (String (digit (z mod 10)) "")
  else String (digit (z / 100)) (String (digit (z / 10 mod 10)) (String (digit (z mod 10)) "")).

Lemma dec_show_small z : 0 <= z < 1000 -> dec_show z = three_digits z.
Proof.
  intros Hz. apply String.eqb_eq.
  assert (H : forallb (fun z => String.eqb (dec_show z) (three_digits z)) (seqZ 0 1000) = true)
    by (vm_compute; reflexivity).
  rewrite forallb_forall in H. apply H, list_elem_of_In, elem_of_seqZ. lia.
Qed.

Lemma read_octet_shown s v rest :
  read_number 10 3 false 255 s = Some (v, rest) -> 0 <= v <= 255 /\ s = (dec_show v +:+ rest)%string.
Proof.
  unfold read_number. destruct (read_digits 10 s 0 0) as [[w n] r] eqn:E.
  destruct (Nat.eqb_spec n 0) as [|Hn0]; [done|]. destruct (Nat.ltb_spec 3 n) as [|Hn3]; [done|]. cbn [orb].
  destruct (negb false && starts_with "0" s && (1 <? n)%nat) eqn:Hz; [done|].
  destruct (Z.ltb_spec 255 w) as [|Hw]; [done|]. intros [= <- <-].
  cbn [negb andb] in Hz.
  destruct s as [|a s]; cbn [read_digits] in E; [by injection E as _ <- _|].
  destruct (to_digit 10 a) as [d1|] eqn:Ea; [|by injection E as _ <- _].
  apply to_digit_10 in Ea as [Hd1 ->].
  assert (H0 : d1 = 0 -> starts_with "0" (String (digit d1) s) = true) by (by intros ->).
  destruct s as [|b s]; cbn [read_digits] in E.
  { injection E as <- <- <-. split; [lia|]. rewrite dec_show_small by lia. unfold three_digits.
    by rewrite (proj2 (Z.ltb_lt _ _)) by lia. }
  destruct (to_digit 10 b) as [d2|] eqn:Eb.
  2: { injection E as <- <- <-. split; [lia|]. rewrite dec_show_small by lia. unfold three_digits.
       by rewrite (proj2 (Z.ltb_lt _ _)) by lia. }
  apply to_digit_10 in Eb as [Hd2 ->].
  assert (Hd1' : d1 <> 0).
  { intros ->. specialize (H0 eq_refl). rewrite H0 in Hz. cbn [andb] in Hz.
    apply Nat.ltb_ge in Hz. assert (2 <= n)%nat; [|lia].
    destruct s as [|c s]; cbn [read_digits] in E; [injection E as _ <- _; lia|].
    destruct (to_digit 10 c); [|injection E as _ <- _; lia].
    pose proof (read_digits_count 10 s (((0 * 10 + 0) * 10 + d2) * 10 + z) 3). rewrite E in H. simpl in H. lia. }
  destruct s as [|c s]; cbn [read_digits] in E.
  { injection E as <- <- <-. split; [lia|]. rewrite dec_show_small by lia. unfold three_digits.
    rewrite (proj2 (Z.ltb_ge _ _)), (proj2 (Z.ltb_lt _ _)) by lia.
    replace (((0 * 10 + d1) * 10 + d2) / 10) with d1 by (apply (Z.div_unique _ _ _ d2); lia).
    replace (((0 * 10 + d1) * 10 + d2) mod 10) with d2 by (apply (Z.mod_unique _ _ d1); lia). done. }
  destruct (to_digit 10 c) as [d3|] eqn:Ec.
  2: { injection E as <- <- <-. split; [lia|]. rewrite dec_show_small by lia. unfold three_digits.
    rewrite (proj2 (Z.ltb_ge _ _)), (proj2 (Z.ltb_lt _ _)) by lia.
    replace (((0 * 10 + d1) * 10 + d2) / 10) with d1 by (apply (Z.div_unique _ _ _ d2); lia).
    replace (((0 * 10 + d1) * 10 + d2) mod 10) with d2 by (apply (Z.mod_unique _ _ d1); lia). done. }
  apply to_digit_10 in Ec as [Hd3 ->].
  destruct s as [|e s]; cbn [read_digits] in E; [|destruct (to_digit 10 e) as [d4|] eqn:Ee].
  2: { pose proof (read_digits_count 10 s ((((0 * 10 + d1) * 10 + d2) * 10 + d3) * 10 + d4) 4).
       rewrite E in H. simpl in H. lia. }
  all: injection E as <- <- <-; split; [lia|]; rewrite dec_show_small by lia; unfold three_digits;
    rewrite !(proj2 (Z.ltb_ge _ _)) by lia;
    replace ((((0 * 10 + d1) * 10 + d2) * 10 + d3) / 100) with d1 by (apply (Z.div_unique _ _ _ (d2 * 10 + d3)); lia);
    replace ((((0 * 10 + d1) * 10 + d2) * 10 + d3) / 10) with (d1 * 10 + d2) by (apply (Z.div_unique _ _ _ d3); lia);
    replace ((((0 * 10 + d1) * 10 + d2) * 10 + d3) mod 10) with d3 by (apply (Z.mod_unique _ _ (d1 * 10 + d2)); lia);
    replace ((d1 * 10 + d2) mod 10) with d2 by (apply (Z.mod_unique _ _ d1); lia); done.
Qed.

Lemma read_char_some c s rest : read_char c s = Some rest -> s = String c rest.
Proof. destruct s as [|a s]; simpl; [done|]. case_decide; [|done]. by intros [= <-]; subst. Qed.

Lemma read_octet_sep i s v rest :
  read_octet (S i) s = Some (v, rest) -> 0 <= v <= 255 /\ s = ("." +:+ dec_show v +:+ rest)%string.
Proof.
  unfold read_octet, read_separator. destruct (read_char "." s) as [s'|] eqn:E; [|done].
  apply read_char_some in E as ->. intros [Hv ->]%read_octet_shown. done.
Qed.

Lemma str_app_assoc (a b c : string) : ((a +:+ b) +:+ c = a +:+ b +:+ c)%string.
Proof. induction a as [|x a IH]; [done|]. exact (f_equal (String x) IH). Qed.

Lemma str_app_nil (a : string) : (a +:+ "" = a)%string.
Proof. induction a as [|x a IH]; [done|]. exact (f_equal (String x) IH). Qed.

Lemma str_app_length (a b : string) : String.length (a +:+ b)%string = (String.length a + String.length b)%nat.
Proof. induction a as [|x a IH]; [done|]. exact (f_equal S IH). Qed.

(** A dotted quad is its own canonical form. *)
Lemma parse_ipv4_shown s o :
  parse_ipv4 s = Some o -> length o = 4%nat /\ bytes_ok o /\ show_ipv4 o = s.
Proof.
  unfold parse_ipv4, read_ipv4. destruct (15 <? String.length s)%nat; [done|].
  destruct (read_octet 0 s) as [[a s1]|] eqn:E1; [|done]. cbn [mbind option_bind].
  destruct (read_octet 1 s1) as [[b s2]|] eqn:E2; [|done]. cbn [mbind option_bind].
  destruct (read_octet 2 s2) as [[c s3]|] eqn:E3; [|done]. cbn [mbind option_bind].
  destruct (read_octet 3 s3) as [[d s4]|] eqn:E4; [|done]. cbn [mbind option_bind].
  destruct s4; [|done]. intros [= <-].
  apply read_octet_shown in E1 as [Ha ->]. apply read_octet_sep in E2 as [Hb ->].
  apply read_octet_sep in E3 as [Hc ->]. apply read_octet_sep in E4 as [Hd ->].
  split_and!; [done| |].
  - repeat constructor; lia.
  - unfold show_ipv4. by rewrite str_app_nil.
Qed.

Lemma dec_show_octet_len z : 0 <= z < 256 -> (String.length (dec_show z) <= 3)%nat.
Proof. intros Hz. rewrite dec_show_small by lia. unfold three_digits. repeat case_match; simpl; lia. Qed.

Lemma show_ipv4_len o :
  length o = 4%nat -> bytes_ok o -> show_ipv4 o <> "" /\ (String.length (show_ipv4 o) <= 15)%nat.
Proof.
  intros Hl Ho. destruct (list_of_4 o Hl) as (a & b & c & d & ->). unfold bytes_ok, is_byte in Ho.
  rewrite !Forall_cons in Ho. destruct Ho as (Ha & Hb & Hc & Hd & _). unfold show_ipv4. split.
  - pose proof (dec_show_nonempty a). by destruct (dec_show a).
  - rewrite !str_app_length. simpl.
    pose proof (dec_show_octet_len a Ha). pose proof (dec_show_octet_len b Hb).
    pose proof (dec_show_octet_len c Hc). pose proof (dec_show_octet_len d Hd). lia.
Qed.

Lemma hex_aux_len n : forall z acc, String.length (hex_aux n z acc) = (n + String.length acc)%nat.
Proof. induction n as [|n IH]; intros z acc; simpl; [done|]. rewrite IH. simpl. lia. Qed.

Lemma hex_group_len z : (1 <= String.length (hex_group z) <= 4)%nat.
Proof. unfold hex_group, hex_show. rewrite hex_aux_len. simpl. repeat case_match; lia. Qed.

Lemma join_groups_len g : (String.length (join_groups g) <= 5 * length g)%nat.
Proof.
  induction g as [|x [|y g] IH]; [simpl; lia|simpl; pose proof (hex_group_len x); lia|].
  cbn [join_groups]. rewrite !str_app_length. pose proof (hex_group_len x). cbn [join_groups length] in IH |- *.
  simpl. lia.
Qed.

Lemma join_groups_nonempty g : g <> [] -> join_groups g <> "".
Proof.
  destruct g as [|x [|y g]]; [done|..]; intros _; cbn [join_groups]; pose proof (hex_group_len x);
    destruct (hex_group x); simpl in *; try lia; done.
Qed.

Lemma octets_ok g : Forall (fun x => 0 <= x < 65536) g -> bytes_ok (octets_of_groups g).
Proof.
  unfold octets_of_groups, bytes_ok. induction 1 as [|x g Hx _ IH]; simpl; [constructor|].
  assert (0 <= x / 256 < 256) by (split; [apply Z.div_pos|apply Z.div_lt_upper_bound]; lia).
  assert (0 <= x mod 256 < 256) by (apply Z.mod_pos_bound; lia).
  apply Forall_cons; split; [done|]. apply Forall_cons; split; [done|exact IH].
Qed.

Lemma show_ipv6_len g :
  length g = 8%nat -> Forall (fun x => 0 <= x < 65536) g ->
  show_ipv6 g <> "" /\ (String.length (show_ipv6 g) <= 255)%nat.
Proof.
  intros Hl Hg. unfold show_ipv6. case_bool_decide.
  - split; [done|]. rewrite str_app_length. change (String.length "::ffff:") with 7%nat.
    assert (Ho : length (octets_of_groups (drop 6 g)) = 4%nat)
      by (destruct g as [|? [|? [|? [|? [|? [|? [|? [|? [|]]]]]]]]]; done).
    destruct (show_ipv4_len _ Ho (octets_ok _ (Forall_drop _ 6 g Hg))) as [_ Hle]. lia.
  - destruct (zero_span g 0 _ _) as [start len]. destruct (1 <? len)%nat.
    + rewrite !str_app_length. pose proof (join_groups_len (take start g)).
      pose proof (join_groups_len (drop (start + len) g)). rewrite length_take in *. rewrite length_drop in *.
      split; [|simpl; lia].
      intros E. apply (f_equal String.length) in E. rewrite !str_app_length in E. simpl in E. lia.
    + split; [apply join_groups_nonempty; intros ->; discriminate|]. pose proof (join_groups_len g). lia.
Qed.

(** ** Groups of an IPv6 address *)

Definition group_ok (x : Z) : Prop := 0 <= x < 65536.

Lemma to_digit_nonneg radix a d : to_digit radix a = Some d -> 0 <= d.
Proof.
  unfold to_digit, between. set (b := byte_z a).
  repeat (match goal with |- context [if ?c then _ else _] => destruct c eqn:? end); intros [= <-];
    repeat match goal with H : _ && _ = true |- _ => apply andb_true_iff in H as [?%Z.leb_le ?%Z.leb_le] end; lia.
Qed.

Lemma read_digits_nonneg radix s : forall acc n, 0 <= radix -> 0 <= acc -> 0 <= (read_digits radix s acc n).1.1.
Proof.
  induction s as [|a s IH]; intros acc n Hr Ha; simpl; [done|].
  destruct (to_digit radix a) as [d|] eqn:E; [|done]. apply to_digit_nonneg in E. apply IH; [done|nia].
Qed.

Lemma read_number_range radix k z max s v rest :
  0 <= radix -> read_number radix k z max s = Some (v, rest) -> 0 <= v <= max.
Proof.
  intros Hr. unfold read_number. pose proof (read_digits_nonneg radix s 0 0 Hr ltac:(lia)) as Hn.
  destruct (read_digits radix s 0 0) as [[w n] r]. simpl in Hn. destruct (_ || _); [done|].
  destruct (_ && _); [done|]. destruct (Z.ltb_spec max w); [done|]. intros [= <- <-]. lia.
Qed.

Lemma read_ipv4_ok s o rest : read_ipv4 s = Some (o, rest) -> length o = 4%nat /\ bytes_ok o.
Proof.
  unfold read_ipv4. destruct (read_octet 0 s) as [[a s1]|] eqn:E1; [|done]. cbn [mbind option_bind].
  destruct (read_octet 1 s1) as [[b s2]|] eqn:E2; [|done]. cbn [mbind option_bind].
  destruct (read_octet 2 s2) as [[c s3]|] eqn:E3; [|done]. cbn [mbind option_bind].
  destruct (read_octet 3 s3) as [[d s4]|] eqn:E4; [|done]. cbn [mbind option_bind]. intros [= <- <-].
  apply read_octet_shown in E1 as [Ha _]. apply read_octet_sep in E2 as [Hb _].
  apply read_octet_sep in E3 as [Hc _]. apply read_octet_sep in E4 as [Hd _].
  split; [done|]. unfold bytes_ok, is_byte. rewrite !Forall_cons. split_and!; [lia..|constructor].
Qed.

Lemma read_separator_inv {A} c i (inner : string -> option (A * string)) s r :
  read_separator c i inner s = Some r -> exists s', inner s' = Some r.
Proof.
  destruct i; simpl; [eauto|]. destruct (read_char c s); [eauto|done].
Qed.

Lemma read_groups_ok limit : forall i s,
  (length (read_groups limit i s).1.1 <= limit)%nat /\ Forall group_ok (read_groups limit i s).1.1.
Proof.
  assert (Hnum : forall i s g s', read_separator ":" i (read_number 16 4 true 65535) s = Some (g, s') -> group_ok g).
  { intros i s g s' [s0 E]%read_separator_inv. apply read_number_range in E; [|lia]. unfold group_ok. lia. }
  induction limit as [|more IH]; intros i s; cbn [read_groups]; [split; [done|constructor]|].
  set (rest := match read_separator ":" i (read_number 16 4 true 65535) s with Some _ => _ | None => _ end).
  assert (Hrest : (length rest.1.1 <= S more)%nat /\ Forall group_ok rest.1.1).
  { subst rest. destruct (read_separator ":" i (read_number 16 4 true 65535) s) as [[g s']|] eqn:E.
    - apply Hnum in E. specialize (IH (S i) s'). destruct (read_groups more (S i) s') as [[gs b] s2].
      simpl in *. split; [lia|]. constructor; [done|apply IH].
    - simpl. split; [lia|constructor]. }
  clearbody rest. destruct more as [|more]; [exact Hrest|].
  destruct (read_separator ":" i read_ipv4 s) as [[o s']|] eqn:E; [|exact Hrest].
  apply read_separator_inv in E as [s0 E]. apply read_ipv4_ok in E as [Hl Ho].
  destruct (list_of_4 o Hl) as (a & b & c & d & ->). unfold bytes_ok, is_byte in Ho. rewrite !Forall_cons in Ho.
  destruct Ho as (Ha & Hb & Hc & Hd & _). simpl. split; [lia|].
  repeat constructor; unfold group_ok; lia.
Qed.

Lemma parse_ipv6_ok s g : parse_ipv6 s = Some g -> length g = 8%nat /\ Forall group_ok g.
Proof.
  unfold parse_ipv6, read_ipv6. pose proof (read_groups_ok 8 0 s) as [Hl Hg].
  destruct (read_groups 8 0 s) as [[head v4] s1]. cbn [fst] in *.
  destruct (Nat.eqb_spec (length head) 8) as [E8|E8].
  { destruct s1; [|done]. by intros [= <-]. }
  destruct v4; [done|]. destruct (read_char ":" s1) as [s2|]; [|done]. cbn [mbind option_bind].
  destruct (read_char ":" s2) as [s3|]; [|done]. cbn [mbind option_bind].
  pose proof (read_groups_ok (8 - (length head + 1)) 0 s3) as [Hl' Hg'].
  destruct (read_groups _ 0 s3) as [[tail b] s4]. cbn [fst] in *. destruct s4; [|done]. intros [= <-]. split.
  - rewrite !length_app, length_replicate. lia.
  - rewrite !Forall_app. split_and!; [done| |done]. apply Forall_replicate. unfold group_ok. lia.
Qed.

Lemma groups_octets g : Forall group_ok g -> groups_of_octets (octets_of_groups g) = g.
Proof.
  induction 1 as [|x g Hx _ IH]; [done|].
  change (octets_of_groups (x :: g)) with (x / 256 :: x mod 256 :: octets_of_groups g). cbn [groups_of_octets].
  rewrite IH. f_equal. pose proof (Z.div_mod x 256). lia.
Qed.

Lemma octets_length g : length (octets_of_groups g) = (2 * length g)%nat.
Proof.
  induction g as [|x g IH]; [done|].
  change (octets_of_groups (x :: g)) with (x / 256 :: x mod 256 :: octets_of_groups g). simpl. lia.
Qed.

(** * Displayed addresses parse back *)

Local Open Scope string_scope.
Local Open Scope Z_scope.

(** ** Numbers followed by something else *)

Lemma str_app_cons a s r : String a s +:+ r = String a (s +:+ r).
Proof. reflexivity. Qed.

(** [s] does not start with a digit. *)
Definition no_digit (radix : Z) (s : string) : Prop :=
  match s with EmptyString => True | String a _ => to_digit radix a = None end.

Lemma read_digits_app radix s rest : forall acc n v k,
  read_digits radix s acc n = (v, k, "") -> no_digit radix rest -> read_digits radix (s +:+ rest) acc n = (v, k, rest).
Proof.
  induction s as [|a s IH]; intros acc n v k; cbn.
  - intros [= -> ->] Hr. change ("" +:+ rest) with rest. destruct rest as [|b rest]; cbn; [done|]. by rewrite Hr.
  - rewrite str_app_cons. cbn. destruct (to_digit radix a); [apply IH|]. done.
Qed.

(** What is left after the digits of [s ++ rest] is an end of [s], and [rest]. *)
Lemma read_digits_left radix (P : Ascii.ascii -> bool) s rest : forall acc n,
  no_digit radix rest -> str_all P s = true ->
  exists s2, (read_digits radix (s +:+ rest) acc n).2 = s2 +:+ rest /\ str_all P s2 = true.
Proof.
  induction s as [|a s IH]; intros acc n Hr Hs.
  - exists "". split; [|done]. change ("" +:+ rest) with rest. destruct rest as [|b rest]; cbn; [done|]. by rewrite Hr.
  - rewrite str_app_cons. cbn. cbn in Hs. apply andb_true_iff in Hs as [Ha Hs]. destruct (to_digit radix a).
    + by apply IH.
    + exists (String a s). split; [done|]. cbn. by rewrite Ha.
Qed.

Lemma read_number_left radix k z max s v r : read_number radix k z max s = Some (v, r) -> r = (read_digits radix s 0 0).2.
Proof.
  unfold read_number. destruct (read_digits radix s 0 0) as [[w n] rest]. repeat case_match; try done. by intros [= _ <-].
Qed.

(** A check of all numbers below [n]. *)
Lemma forallb_range (f : Z -> bool) (n z : Z) : forallb f (seqZ 0 n) = true -> 0 <= z < n -> f z = true.
Proof. intros Hall Hz. rewrite forallb_forall in Hall. apply Hall, list_elem_of_In, elem_of_seqZ. lia. Qed.

Definition octet_reads (v : Z) : bool :=
  let s := dec_show v in
  let '(w, n, r) := read_digits 10 s 0 0 in
  (w =? v) && (1 <=? n)%nat && (n <=? 3)%nat && str_is_empty r && negb (starts_with "0" s && (1 <? n)%nat)
  && str_all (fun a => bool_decide (a <> ":"%char)) s && negb (str_is_empty s).

Lemma octet_facts v : 0 <= v < 256 -> octet_reads v = true.
Proof.
  apply (forallb_range octet_reads 256). vm_compute. reflexivity.
Qed.

Lemma starts_with_app c s rest : s <> "" -> starts_with (String c "") (s +:+ rest) = starts_with (String c "") s.
Proof. destruct s as [|a s]; [done|]. intros _. unfold starts_with. rewrite str_app_cons. cbn. by destruct (decide (c = a)). Qed.

Lemma read_octet_app v rest :
  0 <= v < 256 -> no_digit 10 rest -> read_number 10 3 false 255 (dec_show v +:+ rest) = Some (v, rest).
Proof.
  intros Hv Hr. pose proof (octet_facts v Hv) as Hf. unfold octet_reads in Hf. unfold read_number.
  destruct (read_digits 10 (dec_show v) 0 0) as [[w n] r] eqn:E. rewrite !andb_true_iff in Hf.
  destruct Hf as ((((((Hw & Hn1) & Hn3) & Hr0) & Hz) & _) & Hne). destruct r; [|done].
  rewrite (read_digits_app _ _ rest _ _ _ _ E Hr). rewrite starts_with_app by (by destruct (dec_show v)).
  apply Z.eqb_eq in Hw as ->. apply negb_true_iff in Hz.
  replace ((n =? 0)%nat || (3 <? n)%nat) with false by (symmetry; apply Nat.leb_le in Hn1; apply Nat.leb_le in Hn3; apply orb_false_iff; split;
      [apply Nat.eqb_neq|apply Nat.ltb_ge]; lia).
  cbn [negb andb]. rewrite Hz. destruct (Z.ltb_spec 255 v); [lia|done].
Qed.

Lemma dot_no_digit s : no_digit 10 (String "." s).
Proof. done. Qed.

Lemma read_char_cons c s : read_char c (String c s) = Some s.
Proof. cbn. by rewrite decide_True. Qed.

Lemma read_char_self c s : read_char c (String c "" +:+ s) = Some s.
Proof. rewrite str_app_cons. cbn. by rewrite decide_True. Qed.

(** ** IPv4 *)

Lemma read_ipv4_app o rest :
  length o = 4%nat -> bytes_ok o -> no_digit 10 rest -> read_ipv4 (show_ipv4 o +:+ rest) = Some (o, rest).
Proof.
  intros Hl Ho Hr. destruct (list_of_4 o Hl) as (a & b & c & d & ->). unfold bytes_ok, is_byte in Ho.
  rewrite !Forall_cons in Ho. destruct Ho as (Ha & Hb & Hc & Hd & _). unfold show_ipv4, read_ipv4, read_octet.
  rewrite !str_app_assoc. cbn [read_separator].
  do 3 (rewrite read_octet_app by done; cbn [mbind option_bind]; rewrite read_char_self).
  by rewrite read_octet_app by done.
Qed.

Lemma parse_show_ipv4 o : length o = 4%nat -> bytes_ok o -> parse_ipv4 (show_ipv4 o) = Some o.
Proof.
  intros Hl Ho. destruct (show_ipv4_len o Hl Ho) as [_ H15]. unfold parse_ipv4.
  replace (15 <? String.length (show_ipv4 o))%nat with false by (symmetry; apply Nat.ltb_ge; lia).
  rewrite <- (str_app_nil (show_ipv4 o)) at 1. by rewrite read_ipv4_app.
Qed.

Definition no_colon (a : Ascii.ascii) : bool := bool_decide (a <> ":"%char).

Lemma show_ipv4_no_colon o : length o = 4%nat -> bytes_ok o -> str_all no_colon (show_ipv4 o) = true.
Proof.
  intros Hl Ho. destruct (list_of_4 o Hl) as (a & b & c & d & ->). unfold bytes_ok, is_byte in Ho.
  rewrite !Forall_cons in Ho. destruct Ho as (Ha & Hb & Hc & Hd & _).
  assert (Hn : forall v, 0 <= v < 256 -> str_all no_colon (dec_show v) = true).
  { intros v Hv. pose proof (octet_facts v Hv) as Hf. unfold octet_reads in Hf.
    destruct (read_digits 10 (dec_show v) 0 0) as [[w n] r]. rewrite !andb_true_iff in Hf. tauto. }
  unfold show_ipv4. rewrite !str_all_app, !Hn by done. done.
Qed.

(** A text with a colon is no IPv4 address. *)
Lemma colon_not_ipv4 a b : parse_ipv4 (a +:+ ":" +:+ b) = None.
Proof.
  destruct (parse_ipv4 _) as [o|] eqn:E; [|done]. apply parse_ipv4_shown in E as (Hl & Ho & E).
  pose proof (show_ipv4_no_colon o Hl Ho) as Hn. rewrite E, !str_all_app in Hn. cbn in Hn. by rewrite andb_false_r in Hn.
Qed.

(** ** Groups *)

Definition group_reads (g : Z) : bool :=
  let s := hex_group g in
  let '(w, n, r) := read_digits 16 s 0 0 in
  (w =? g) && (1 <=? n)%nat && (n <=? 4)%nat && str_is_empty r && str_all (fun a => bool_decide (a <> "."%char)) s.

Lemma group_facts g : group_ok g -> group_reads g = true.
Proof.
  intros Hg. unfold group_ok in Hg.
  assert (Hall : forallb (fun a => forallb (fun b => group_reads (256 * a + b)) (seqZ 0 256)) (seqZ 0 256) = true)
    by (vm_compute; reflexivity).
  rewrite (Z.div_mod g 256) by lia.
  apply (forallb_range (fun b => group_reads (256 * (g / 256) + b)) 256); [|apply Z.mod_pos_bound; lia].
  apply (forallb_range (fun a => forallb (fun b => group_reads (256 * a + b)) (seqZ 0 256)) 256); [done|].
  split; [apply Z.div_pos; lia|apply Z.div_lt_upper_bound; lia].
Qed.

Lemma read_group_app g rest :
  group_ok g -> no_digit 16 rest -> read_number 16 4 true 65535 (hex_group g +:+ rest) = Some (g, rest).
Proof.
  intros Hg Hr. pose proof (group_facts g Hg) as Hf. unfold group_reads in Hf. unfold read_number.
  destruct (read_digits 16 (hex_group g) 0 0) as [[w n] r] eqn:E. rewrite !andb_true_iff in Hf.
  destruct Hf as ((((Hw & Hn1) & Hn3) & Hr0) & _). destruct r; [|done].
  rewrite (read_digits_app _ _ rest _ _ _ _ E Hr). apply Z.eqb_eq in Hw as ->.
  replace ((n =? 0)%nat || (4 <? n)%nat) with false by (symmetry; apply Nat.leb_le in Hn1; apply Nat.leb_le in Hn3; apply orb_false_iff; split;
      [apply Nat.eqb_neq|apply Nat.ltb_ge]; lia).
  cbn [negb andb]. unfold group_ok in Hg. destruct (Z.ltb_spec 65535 g); [lia|done].
Qed.

(** What follows a group in a text: nothing, or a colon. *)
Definition stops (s : string) : Prop := s = "" \/ exists r, s = String ":" r.

Lemma stops_no_digit radix s : radix = 10 \/ radix = 16 -> stops s -> no_digit radix s.
Proof. by intros [-> | ->] [->|[r ->]]. Qed.

(** A hexadecimal group before a colon or the end does not begin a dotted quad. *)
Lemma group_not_ipv4 g rest : group_ok g -> stops rest -> read_ipv4 (hex_group g +:+ rest) = None.
Proof.
  intros Hg Hs. pose proof (group_facts g Hg) as Hf. unfold group_reads in Hf.
  destruct (read_digits 16 (hex_group g) 0 0) as [[w n] r]. rewrite !andb_true_iff in Hf. destruct Hf as [_ Hdot].
  destruct (read_digits_left 10 _ _ rest 0 0 (stops_no_digit 10 _ (or_introl eq_refl) Hs) Hdot) as (s2 & E & Hs2).
  unfold read_ipv4, read_octet. cbn [read_separator].
  destruct (read_number 10 3 false 255 (hex_group g +:+ rest)) as [[v left]|] eqn:En; [|done].
  apply read_number_left in En. rewrite E in En. subst left. cbn [mbind option_bind].
  enough (Hc : read_char "." (s2 +:+ rest) = None) by (by rewrite Hc).
  destruct s2 as [|a s2].
  - by destruct Hs as [->|[r' ->]].
  - cbn in Hs2. apply andb_true_iff in Hs2 as [Ha%bool_decide_eq_true _]. rewrite str_app_cons. cbn. by rewrite decide_False.
Qed.

(** Nothing is read where a group should start with a colon, or at the end. *)
Lemma nothing_read s : stops s -> read_ipv4 s = None /\ read_number 16 4 true 65535 s = None.
Proof. by intros [->|[r ->]]. Qed.

(** Two colons or the end: no more groups. *)
Definition ends_groups (s : string) : Prop := s = "" \/ exists r, s = String ":" (String ":" r).

Lemma ends_stops s : ends_groups s -> stops s.
Proof. intros [->|[r ->]]; [by left|right; eauto]. Qed.

Lemma read_groups_end limit i rest : ends_groups rest -> read_groups limit i rest = ([], false, rest).
Proof.
  intros He. destruct limit as [|more]; [done|]. cbn [read_groups].
  assert (Hsep : forall A (inner : string -> option (A * string)),
    (forall s, stops s -> inner s = None) -> read_separator ":" i inner rest = None).
  { intros A inner Hi. destruct i; cbn [read_separator]; [by apply Hi, ends_stops|].
    destruct He as [->|[r ->]]; [done|]. cbn [read_char]. rewrite decide_True by done. apply Hi. right. eauto. }
  rewrite !Hsep by (intros; by apply nothing_read). by destruct more.
Qed.

(** Groups printed after [i] others. *)
Definition joined (i : nat) (gs : list Z) : string :=
  match gs with [] => "" | _ => (match i with O => "" | S _ => ":" end) +:+ join_groups gs end.

Lemma joined_cons i g gs :
  joined i (g :: gs) = (match i with O => "" | S _ => ":" end) +:+ hex_group g +:+ joined (S i) gs.
Proof.
  unfold joined. destruct gs as [|g' gs]; cbn [join_groups]; [by rewrite str_app_nil|done].
Qed.

Definition separator (i : nat) : string := match i with O => "" | S _ => ":" end.

Lemma read_separated {A} i (inner : string -> option (A * string)) s :
  read_separator ":" i inner (separator i +:+ s) = inner s.
Proof. by destruct i. Qed.

(** One hexadecimal group, and one dotted quad. *)
Lemma read_groups_step limit i g rest :
  group_ok g -> stops rest ->
  read_groups (S limit) i (separator i +:+ hex_group g +:+ rest)
  = (g :: (read_groups limit (S i) rest).1.1, (read_groups limit (S i) rest).1.2, (read_groups limit (S i) rest).2).
Proof.
  intros Hg Hs. cbn [read_groups]. rewrite !read_separated, group_not_ipv4 by done.
  rewrite read_group_app by (done || (apply stops_no_digit; [by right|done])).
  destruct (read_groups limit (S i) rest) as [[gs b] s]. by destruct limit.
Qed.

Lemma read_groups_quad limit i a b c d :
  Forall is_byte [a; b; c; d] ->
  read_groups (S (S limit)) i (separator i +:+ show_ipv4 [a; b; c; d]) = ([a * 256 + b; c * 256 + d], true, "").
Proof.
  intros Ho. cbn [read_groups]. rewrite read_separated, <- (str_app_nil (show_ipv4 _)), read_ipv4_app; done.
Qed.

Lemma read_groups_joined gs : forall limit i rest,
  (length gs <= limit)%nat -> Forall group_ok gs -> ends_groups rest ->
  read_groups limit i (joined i gs +:+ rest) = (gs, false, rest).
Proof.
  induction gs as [|g gs IH]; intros limit i rest Hl Hg He; [by apply read_groups_end|].
  apply Forall_cons in Hg as [Hg Hgs]. destruct limit as [|more]; [cbn in Hl; lia|]. cbn [length] in Hl.
  rewrite joined_cons, !str_app_assoc. fold (separator i). rewrite read_groups_step; [|done|].
  - by rewrite IH by (done || lia).
  - unfold joined. destruct gs; [by apply ends_stops|]. right. eauto.
Qed.

(** ** Zero runs *)

Definition zero_run (g : list Z) (span : nat * nat) : Prop :=
  (span.1 + span.2 <= length g)%nat /\ take span.2 (drop span.1 g) = replicate span.2 0.

Lemma zero_run_more pre x rest span : zero_run pre span -> zero_run (pre ++ x :: rest) span.
Proof.
  unfold zero_run. intros [Hl Ht]. rewrite length_app. split; [lia|].
  rewrite drop_app_le by lia. rewrite take_app_le by (rewrite length_drop; lia). done.
Qed.

Lemma zero_run_app pre rest span : zero_run pre span -> zero_run (pre ++ rest) span.
Proof. destruct rest as [|x rest]; [by rewrite app_nil_r|apply zero_run_more]. Qed.

(** A run that reaches the end of [pre] grows by a zero. *)
Lemma zero_run_grow pre start len :
  zero_run pre (start, len) -> (start + len = length pre)%nat -> zero_run (pre ++ [0]) (start, S len).
Proof.
  unfold zero_run. cbn [fst snd]. intros [Hl Ht] He. rewrite length_app. cbn [length]. split; [lia|].
  rewrite drop_app_le by lia. rewrite take_app_ge by (rewrite length_drop; lia).
  replace (S len - length (drop start pre))%nat with 1%nat by (rewrite length_drop; lia). cbn [take].
  rewrite replicate_S_end, <- Ht. by rewrite take_ge by (rewrite length_drop; lia).
Qed.

Lemma zero_span_run g : forall pre longest current,
  zero_run pre longest -> zero_run pre current -> (current.2 = 0%nat \/ (current.1 + current.2 = length pre)%nat) ->
  zero_run (pre ++ g) (zero_span g (length pre) longest current).
Proof.
  induction g as [|x g IH]; intros pre longest current Hlong Hcur He; cbn [zero_span]; [by rewrite app_nil_r|].
  assert (Hnil : zero_run (pre ++ [x]) (0%nat, 0%nat)) by (split; [cbn; lia|done]).
  assert (Hlen : length (pre ++ [x]) = S (length pre)) by (rewrite length_app; cbn; lia).
  replace (pre ++ x :: g)%list with ((pre ++ [x]) ++ g)%list by (by rewrite <- app_assoc).
  rewrite <- Hlen. destruct (Z.eqb_spec x 0) as [->|Hx].
  - set (cur := if (current.2 =? 0)%nat then _ else _).
    assert (Hc : zero_run (pre ++ [0]) cur /\ (cur.1 + cur.2)%nat = length (pre ++ [0])).
    { unfold cur. destruct (Nat.eqb_spec current.2 0) as [E0|E0].
      - split; [|cbn; lia]. apply (zero_run_grow pre (length pre) 0); [|lia].
        split; [cbn; lia|]. cbn. by rewrite drop_ge.
      - destruct He as [?|He]; [lia|]. destruct current as [st ln]. cbn in He |- *. split; [|lia]. by apply zero_run_grow. }
    destruct Hc as [Hc Hce]. apply IH; [|done|by right].
    destruct (_ <? _)%nat; [done|]. by apply zero_run_app.
  - apply IH; [by apply zero_run_app|done|by left].
Qed.

Lemma zero_run_split g start len :
  zero_run g (start, len) -> (take start g ++ replicate len 0 ++ drop (start + len) g)%list = g.
Proof.
  intros [Hl Ht]. cbn in *. rewrite <- Ht, <- drop_drop, (take_drop len), (take_drop start). done.
Qed.

(** ** IPv6 *)

Lemma show_ipv6_cases g :
  length g = 8%nat ->
  (take 6 g = [0; 0; 0; 0; 0; 0xffff] /\ show_ipv6 g = "::ffff:" +:+ show_ipv4 (octets_of_groups (drop 6 g)))
  \/ (exists head tail k, (2 <= k)%nat /\ g = (head ++ replicate k 0 ++ tail)%list
        /\ show_ipv6 g = joined 0 head +:+ "::" +:+ joined 0 tail)
  \/ show_ipv6 g = joined 0 g.
Proof.
  intros Hl. unfold show_ipv6. case_bool_decide as Hm; [by left|right].
  pose proof (zero_span_run g [] (0%nat, 0%nat) (0%nat, 0%nat)) as Hrun. cbn [app length] in Hrun.
  destruct (zero_span g 0 _ _) as [start len].
  assert (Hj : forall gs, join_groups gs = joined 0 gs) by (by intros []).
  destruct (Nat.ltb_spec 1 len) as [Hlen|]; [left|right; apply Hj].
  exists (take start g), (drop (start + len) g), len. split_and!; [lia| |by rewrite !Hj].
  symmetry. apply zero_run_split, Hrun; [..|by left]; (split; [cbn; lia|done]).
Qed.

Lemma read_ipv6_compressed head tail k :
  (2 <= k)%nat -> length (head ++ replicate k 0 ++ tail) = 8%nat -> Forall group_ok head -> Forall group_ok tail ->
  read_ipv6 (joined 0 head +:+ "::" +:+ joined 0 tail) = Some ((head ++ replicate k 0 ++ tail)%list, "").
Proof.
  intros Hk Hl Hh Ht. rewrite !length_app, length_replicate in Hl. unfold read_ipv6.
  rewrite read_groups_joined by (done || lia || (right; eexists; reflexivity)).
  destruct (Nat.eqb_spec (length head) 8); [lia|]. rewrite !str_app_cons, !read_char_cons. cbn [mbind option_bind].
  rewrite read_char_cons. cbn [mbind option_bind]. change ("" +:+ joined 0 tail) with (joined 0 tail). rewrite <- (str_app_nil (joined 0 tail)).
  rewrite read_groups_joined by (done || lia || by left). do 4 f_equal. f_equal. lia.
Qed.

Lemma parse_show_ipv6 g : length g = 8%nat -> Forall group_ok g -> parse_ipv6 (show_ipv6 g) = Some g.
Proof.
  intros Hl Hg. unfold parse_ipv6.
  destruct (show_ipv6_cases g Hl) as [[Hm ->]|[(head & tail & k & Hk & Hsplit & ->)| ->]].
  - destruct g as [|g0 [|g1 [|g2 [|g3 [|g4 [|g5 [|x [|y [|]]]]]]]]]; try done. injection Hm as -> -> -> -> -> ->.
    cbn [drop]. rewrite !Forall_cons in Hg. destruct Hg as (_ & _ & _ & _ & _ & _ & Hx & Hy & _).
    assert (Ho : Forall is_byte (octets_of_groups [x; y])) by (apply octets_ok; by repeat first [apply List.Forall_nil | apply List.Forall_cons]).
    change (octets_of_groups [x; y]) with [x / 256; x mod 256; y / 256; y mod 256] in *.
    set (quad := show_ipv4 _). unfold read_ipv6.
    change ("::ffff:" +:+ quad) with (String ":" (String ":" ("ffff:" +:+ quad))).
    rewrite read_groups_end by (right; eauto). cbn [length Nat.eqb Nat.add].
    rewrite read_char_cons. cbn [mbind option_bind]. rewrite read_char_cons. cbn [mbind option_bind Nat.sub].
    change ("ffff:" +:+ quad) with (separator 0 +:+ hex_group 0xffff +:+ (separator 1 +:+ quad)).
    rewrite read_groups_step by first [unfold group_ok; lia | right; eexists; reflexivity].
    unfold quad. rewrite read_groups_quad by done. cbn.
    replace (x / 256 * 256 + x mod 256) with x by (pose proof (Z.div_mod x 256); lia).
    by replace (y / 256 * 256 + y mod 256) with y by (pose proof (Z.div_mod y 256); lia).
  - subst g. rewrite !Forall_app in Hg. destruct Hg as (Hh & _ & Ht). by rewrite (read_ipv6_compressed head tail k).
  - unfold read_ipv6. rewrite <- (str_app_nil (joined 0 g)).
    rewrite read_groups_joined by (done || lia || by left). by rewrite Hl.
Qed.

Lemma show_ipv6_not_ipv4 g : length g = 8%nat -> parse_ipv4 (show_ipv6 g) = None.
Proof.
  intros Hl. destruct (show_ipv6_cases g Hl) as [[_ ->]|[(head & tail & k & _ & _ & ->)| ->]].
  - apply (colon_not_ipv4 "" (":ffff:" +:+ _)).
  - apply (colon_not_ipv4 _ (":" +:+ _)).
  - destruct g as [|x [|y g]]; try done. apply (colon_not_ipv4 (hex_group x) (join_groups (y :: g))).
Qed.
