(* ===== verification/MeshWire.v ===== *)
(** The mesh protocol's data (lib/mb-proto-mesh/src/lib.rs): frames, events,
    packages and feedback, and the functions that relate a frame to the native
    event that carries it. Integers are [Z], byte strings [list Z]. *)
From S2P Require Import Prelude Numbers Endpoint.
Local Open Scope string_scope.

Definition MAGIC : Z := 0x4d42.
Definition PROTOCOL_VERSION : Z := 1.
Definition HEADER_LEN : nat := 8.
Definition EVENT_MSG_TYPE : Z := 64.

Inductive BindingKind := RawUdp | Quic | TcpReference.
Inductive FlowSemanticsWire := ByteStream | FDatagram | Message.
Inductive ReturnSemanticsWire := Direct | PacketDedup | SequenceReorder.
Inductive CloseReasonWire := Normal | Unsupported | NoUsableExit | ProtocolError.
Inductive StreamOpenRejectReason :=
| ReliableStreamUnsupported | RNoUsableExit | PolicyRejected | RProtocolError.

Record Hello := mkHello {
  hello_node_id : string;
  hello_binding : BindingKind;
  hello_nonce : Z;
  hello_spki_pin_sha256 : option (list Z)
}.

Record SeqRange := mkSeqRange { start : Z; end_ : Z }.

Record AckNack := mkAckNack {
  ack_family_id : string;
  cumulative_seq : Z;
  received_bitmap : string;
  missing_ranges : list SeqRange
}.

Record ReceiverMouth := mkReceiverMouth {
  mouth_id : string;
  udp_addr : string;
  family_filter : list string;
  advertised_capacity : Z;
  mouth_epoch : Z
}.

Record LinkSample := mkLinkSample {
  ls_source_node_id : string;
  ls_mouth_id : string;
  ls_epoch : Z;
  ls_seq : Z;
  ls_observed_at_ms : Z;
  ls_rtt_us : Z;
  ls_loss_permille : Z;
  ls_goodput_bps : Z;
  ls_queue_delay_us : Z;
  ls_close_count : Z;
  ls_saturated : bool
}.

(** [E] is the endpoint field: [Endpoint] in the program's frames, the pair
    [(host, port)] in what the [serde(with = ...)] adapters hand to the codec. *)
Record StreamOpen (E : Type) := mkStreamOpen {
  so_session_id : string;
  so_open_token : Z;
  so_target : E;
  so_route_group : option string;
  so_flow_semantics : FlowSemanticsWire;
  so_return_semantics : ReturnSemanticsWire;
  so_source_node_id : string;
  so_path_trace : list string
}.
Arguments mkStreamOpen {E}. Arguments so_session_id {E}. Arguments so_open_token {E}.
Arguments so_target {E}. Arguments so_route_group {E}. Arguments so_flow_semantics {E}.
Arguments so_return_semantics {E}. Arguments so_source_node_id {E}. Arguments so_path_trace {E}.

Record DatagramOpen (E : Type) := mkDatagramOpen {
  do_session_id : string;
  do_fixed_target : option E;
  do_max_datagram_bytes : Z
}.
Arguments mkDatagramOpen {E}. Arguments do_session_id {E}. Arguments do_fixed_target {E}.
Arguments do_max_datagram_bytes {E}.

Inductive Frame (E : Type) :=
| FHello (h : Hello)
| FStreamOpen (s : StreamOpen E)
| FStreamOpenReject (session_id : string) (open_token : Z)
    (reason : StreamOpenRejectReason) (close_reason : CloseReasonWire)
| FStreamData (session_id : string) (seq : Z) (payload : list Z)
| FStreamShutdownWrite (session_id : string)
| FStreamClose (session_id : string) (close_reason : CloseReasonWire)
| FDatagramOpen (d : DatagramOpen E)
| FDatagramSend (session_id : string) (seq : Z) (target : E) (payload : list Z)
| FDatagramReturn (session_id : string) (seq : Z) (source : E) (payload : list Z)
| FDatagramClose (session_id : string) (close_reason : CloseReasonWire)
| FPortOpen (m : ReceiverMouth)
| FPortClose (mouth_id : string) (epoch : Z)
| FLinkSample (s : LinkSample)
| FAckNack (a : AckNack)
| FStreamOpenAccepted (session_id : string) (open_token : Z).
Arguments FHello {E}. Arguments FStreamOpen {E}. Arguments FStreamOpenReject {E}.
Arguments FStreamData {E}. Arguments FStreamShutdownWrite {E}. Arguments FStreamClose {E}.
Arguments FDatagramOpen {E}. Arguments FDatagramSend {E}. Arguments FDatagramReturn {E}.
Arguments FDatagramClose {E}. Arguments FPortOpen {E}. Arguments FPortClose {E}.
Arguments FLinkSample {E}. Arguments FAckNack {E}. Arguments FStreamOpenAccepted {E}.

Definition MeshFrame : Type := Frame Endpoint.
Definition WireFrame : Type := Frame (string * Z).

Definition msg_type {E} (f : Frame E) : Z :=
  match f with
  | FHello _ => 1
  | FStreamOpen _ => 16
  | FStreamOpenReject _ _ _ _ => 17
  | FStreamData _ _ _ => 18
  | FStreamShutdownWrite _ => 19
  | FStreamClose _ _ => 20
  | FDatagramOpen _ => 31
  | FDatagramSend _ _ _ _ => 32
  | FDatagramReturn _ _ _ _ => 33
  | FDatagramClose _ _ => 34
  | FPortOpen _ => 48
  | FPortClose _ _ => 49
  | FLinkSample _ => 50
  | FAckNack _ => 51
  | FStreamOpenAccepted _ _ => 52
  end%Z.

(** ** Events *)

Inductive EventSemantic := Stream | Datagram | Control | Observation.
Inductive ReliabilityClass := BestEffort | Reliable | Repairable.
Inductive OrderingClass := Unordered | OrderedWithinFamily.
Inductive DeliveryMode := Steer | Stripe | Replicate | Repair | Probe.
Inductive NativeEventMode := SecureUdpNative | MeshFrameMode.

Definition STEER_DELIVERY_POLICY_ID : string := "steer".

Definition policy_id (m : DeliveryMode) : string :=
  match m with
  | Steer => STEER_DELIVERY_POLICY_ID
  | Stripe => "stripe"
  | Replicate => "replicate"
  | Repair => "repair"
  | Probe => "probe"
  end.

Definition from_policy_id (id : string) : DeliveryMode :=
  if decide (id = "stripe") then Stripe
  else if decide (id = "replicate") then Replicate
  else if decide (id = "repair") then Repair
  else if decide (id = "probe") then Probe
  else Steer.

Record EventPci := mkEventPci { checksum : option string; compression : option string }.

Record DataPackage := mkDataPackage {
  package_id : string;
  seq : Z;
  offset : Z;
  len : Z;
  fragment_id : Z;
  fragment_count : Z;
  payload : list Z
}.

Record MeshEvent := mkMeshEvent {
  event_id : string;
  family_id : string;
  semantic : EventSemantic;
  reliability : ReliabilityClass;
  ordering : OrderingClass;
  delivery_policy_id : string;
  path_epoch : Z;
  ttl : Z;
  pci : EventPci;
  package : option DataPackage
}.

Definition native_frame_classes (s : EventSemantic) : ReliabilityClass * OrderingClass :=
  match s with
  | Control | Observation => (BestEffort, Unordered)
  | Stream | Datagram => (Reliable, OrderedWithinFamily)
  end.

Definition wrap_frame_event (family_id : string) (seq : Z) (semantic : EventSemantic)
    (delivery_policy_id : string) (frame_clear : list Z) : MeshEvent :=
  let '(reliability, ordering) := native_frame_classes semantic in
  let id := family_id +:+ ":" +:+ dec_show seq in
  mkMeshEvent id family_id semantic reliability ordering delivery_policy_id 0 64
    (mkEventPci None None)
    (Some (mkDataPackage id seq 0 (as_u32 (Z.of_nat (length frame_clear))) 0 1 frame_clear)).

Definition event_frame_payload (e : MeshEvent) : option (list Z) := payload <$> package e.

Definition frame_event_meta {E} (f : Frame E) : string * Z * EventSemantic :=
  match f with
  | FDatagramOpen d => (do_session_id d, 0%Z, Control)
  | FDatagramSend sid seq _ _ => (sid, seq, Datagram)
  | FDatagramReturn sid seq _ _ => (sid, seq, Datagram)
  | FDatagramClose sid _ => (sid, 0%Z, Control)
  | FStreamOpen s => (so_session_id s, 0%Z, Control)
  | FStreamData sid seq _ => (sid, seq, Stream)
  | FStreamOpenAccepted sid _ => (sid, 0%Z, Control)
  | FStreamOpenReject sid _ _ _ => (sid, 0%Z, Control)
  | FStreamShutdownWrite sid => (sid, 0%Z, Control)
  | FStreamClose sid _ => (sid, 0%Z, Control)
  | FHello _ => ("", 0%Z, Control)
  | FPortOpen m => (mouth_id m, 0%Z, Control)
  | FPortClose mouth _ => (mouth, 0%Z, Control)
  | FLinkSample s => (ls_mouth_id s, ls_seq s, Observation)
  | FAckNack a => (ack_family_id a, 0%Z, Control)
  end.

#[export] Instance BindingKind_eq_dec : EqDecision BindingKind.
Proof. solve_decision. Defined.
#[export] Instance FlowSemanticsWire_eq_dec : EqDecision FlowSemanticsWire.
Proof. solve_decision. Defined.
#[export] Instance ReturnSemanticsWire_eq_dec : EqDecision ReturnSemanticsWire.
Proof. solve_decision. Defined.
#[export] Instance CloseReasonWire_eq_dec : EqDecision CloseReasonWire.
Proof. solve_decision. Defined.
#[export] Instance StreamOpenRejectReason_eq_dec : EqDecision StreamOpenRejectReason.
Proof. solve_decision. Defined.
#[export] Instance EventSemantic_eq_dec : EqDecision EventSemantic.
Proof. solve_decision. Defined.
#[export] Instance ReliabilityClass_eq_dec : EqDecision ReliabilityClass.
Proof. solve_decision. Defined.
#[export] Instance OrderingClass_eq_dec : EqDecision OrderingClass.
Proof. solve_decision. Defined.
#[export] Instance EventPci_eq_dec : EqDecision EventPci.
Proof. solve_decision. Defined.
#[export] Instance DeliveryMode_eq_dec : EqDecision DeliveryMode.
Proof. solve_decision. Defined.
#[export] Instance SeqRange_eq_dec : EqDecision SeqRange.
Proof. solve_decision. Defined.
#[export] Instance DataPackage_eq_dec : EqDecision DataPackage.
Proof. solve_decision. Defined.
#[export] Instance Hello_eq_dec : EqDecision Hello.
Proof. solve_decision. Defined.
#[export] Instance AckNack_eq_dec : EqDecision AckNack.
Proof. solve_decision. Defined.
#[export] Instance ReceiverMouth_eq_dec : EqDecision ReceiverMouth.
Proof. solve_decision. Defined.
#[export] Instance LinkSample_eq_dec : EqDecision LinkSample.
Proof. solve_decision. Defined.
#[export] Instance StreamOpen_eq_dec {E} `{EqDecision E} : EqDecision (StreamOpen E).
Proof. solve_decision. Defined.
#[export] Instance DatagramOpen_eq_dec {E} `{EqDecision E} : EqDecision (DatagramOpen E).
Proof. solve_decision. Defined.
#[export] Instance Frame_eq_dec {E} `{EqDecision E} : EqDecision (Frame E).
Proof. solve_decision. Defined.
#[export] Instance MeshEvent_eq_dec : EqDecision MeshEvent.
Proof. solve_decision. Defined.

(** The policy ids name the modes one to one, every other id meaning [Steer]. *)
Lemma from_policy_id_policy_id m : from_policy_id (policy_id m) = m.
Proof. by destruct m. Qed.

Lemma from_policy_id_steer id :
  from_policy_id id = Steer <-> forall m, policy_id m = id -> m = Steer.
Proof.
  split.
  - intros H m <-. by rewrite from_policy_id_policy_id in H.
  - intros H. unfold from_policy_id.
    repeat case_decide; subst; [by apply (H Stripe)|by apply (H Replicate)|
      by apply (H Repair)|by apply (H Probe)|done].
Qed.
