(* ===== verification/MeshCodec.v ===== *)
(** The mesh wire codec (lib/mb-proto-mesh/src/lib.rs): the 8-byte envelope, its
    incremental decoder, and the serde adapters for endpoints. Bincode is a
    parameter: a class of serializers with the round trip it documents. *)
From S2P Require Import Prelude Numbers Endpoint MeshWire.
Local Open Scope Z_scope.

(** ** Bincode, the serializer the codec is built on *)

(** [bincode::serialize]/[bincode::deserialize] at one type, [None] being an
    error; [bc_text] is the text of the error for a value or an input. *)
Class Bincode (T : Type) := {
  bc_serialize : T -> option (list Z);
  bc_deserialize : list Z -> option T;
  bc_encode_text : T -> string;
  bc_decode_text : list Z -> string
}.

(** What is documented of it: serialization yields bytes that deserialize to the
    value. *)
Class BincodeLaws (T : Type) `{Bincode T} := {
  bc_bytes : forall x bs, bc_serialize x = Some bs -> bytes_ok bs;
  bc_roundtrip : forall x bs, bc_serialize x = Some bs -> bc_deserialize bs = Some x
}.

(** ** Endpoint adapters: [(host, port)] on the wire, [Endpoint::new] on the way in *)

Definition map_endpoint {A B} (g : A -> B) (f : Frame A) : Frame B :=
  match f with
  | FHello h => FHello h
  | FStreamOpen s =>
      FStreamOpen (mkStreamOpen (so_session_id s) (so_open_token s) (g (so_target s))
        (so_route_group s) (so_flow_semantics s) (so_return_semantics s)
        (so_source_node_id s) (so_path_trace s))
  | FStreamOpenReject a b c d => FStreamOpenReject a b c d
  | FStreamData a b c => FStreamData a b c
  | FStreamShutdownWrite a => FStreamShutdownWrite a
  | FStreamClose a b => FStreamClose a b
  | FDatagramOpen d =>
      FDatagramOpen (mkDatagramOpen (do_session_id d) (g <$> do_fixed_target d)
        (do_max_datagram_bytes d))
  | FDatagramSend a b e p => FDatagramSend a b (g e) p
  | FDatagramReturn a b e p => FDatagramReturn a b (g e) p
  | FDatagramClose a b => FDatagramClose a b
  | FPortOpen m => FPortOpen m
  | FPortClose a b => FPortClose a b
  | FLinkSample s => FLinkSample s
  | FAckNack a => FAckNack a
  | FStreamOpenAccepted a b => FStreamOpenAccepted a b
  end.

(** [endpoint_serde::serialize] *)
Definition endpoint_ser (e : Endpoint) : string * Z := (host e, port e).

(** [endpoint_serde::deserialize] on the decoded pair; the error is turned into
    the codec's. *)
Definition endpoint_de (hp : string * Z) : option Endpoint :=
  match endpoint_new hp.1 hp.2 with Ok e => Some e | Err _ => None end.

(** [option_endpoint_serde::deserialize]: [map(..).transpose()] *)
Definition option_endpoint_de (o : option (string * Z)) : option (option Endpoint) :=
  match o with None => Some None | Some hp => Some <$> endpoint_de hp end.

Definition frame_de (f : WireFrame) : option MeshFrame :=
  match f with
  | FHello h => Some (FHello h)
  | FStreamOpen s =>
      e ← endpoint_de (so_target s);
      Some (FStreamOpen (mkStreamOpen (so_session_id s) (so_open_token s) e
        (so_route_group s) (so_flow_semantics s) (so_return_semantics s)
        (so_source_node_id s) (so_path_trace s)))
  | FStreamOpenReject a b c d => Some (FStreamOpenReject a b c d)
  | FStreamData a b c => Some (FStreamData a b c)
  | FStreamShutdownWrite a => Some (FStreamShutdownWrite a)
  | FStreamClose a b => Some (FStreamClose a b)
  | FDatagramOpen d =>
      t ← option_endpoint_de (do_fixed_target d);
      Some (FDatagramOpen (mkDatagramOpen (do_session_id d) t (do_max_datagram_bytes d)))
  | FDatagramSend a b hp p => e ← endpoint_de hp; Some (FDatagramSend a b e p)
  | FDatagramReturn a b hp p => e ← endpoint_de hp; Some (FDatagramReturn a b e p)
  | FDatagramClose a b => Some (FDatagramClose a b)
  | FPortOpen m => Some (FPortOpen m)
  | FPortClose a b => Some (FPortClose a b)
  | FLinkSample s => Some (FLinkSample s)
  | FAckNack a => Some (FAckNack a)
  | FStreamOpenAccepted a b => Some (FStreamOpenAccepted a b)
  end.

(** The endpoints a frame carries, which [Endpoint::new] made. *)
Definition frame_endpoints {E} (f : Frame E) : list E :=
  match f with
  | FStreamOpen s => [so_target s]
  | FDatagramOpen d => match do_fixed_target d with Some e => [e] | None => [] end
  | FDatagramSend _ _ e _ | FDatagramReturn _ _ e _ => [e]
  | _ => []
  end.

Definition frame_ok (f : MeshFrame) : Prop := Forall endpoint_ok (frame_endpoints f).

Inductive CodecError :=
| Incomplete
| BadMagic (m : Z)
| UnsupportedVersion (v : Z)
| Encode (s : string)
| Decode (s : string).

(** ** The envelope *)

(** The bytes [encode_frame] and [encode_event] write around a payload. *)
Definition envelope (msg_type : Z) (payload : list Z) : list Z :=
  to_be_bytes 2 MAGIC ++ [PROTOCOL_VERSION] ++ [msg_type]
  ++ to_be_bytes 4 (as_u32 (Z.of_nat (length payload))) ++ payload.

Section Codec.
Context `{Bincode WireFrame} `{Bincode MeshEvent}.

Definition serialize_frame (f : MeshFrame) : option (list Z) :=
  bc_serialize (T := WireFrame) (map_endpoint endpoint_ser f).

Definition deserialize_frame (bs : list Z) : option MeshFrame :=
  bc_deserialize (T := WireFrame) bs ≫= frame_de.

Definition encode_frame (f : MeshFrame) : result (list Z) CodecError :=
  match serialize_frame f with
  | None => Err (Encode (bc_encode_text (T := WireFrame) (map_endpoint endpoint_ser f)))
  | Some payload => Ok (envelope (msg_type f) payload)
  end.

(** [decode_mesh_frame_clear] *)
Definition decode_mesh_frame_clear (clear : list Z) : result MeshFrame CodecError :=
  match deserialize_frame clear with
  | Some f => Ok f
  | None => Err (Decode (bc_decode_text (T := WireFrame) clear))
  end.

(** The buffer is advanced past the frame it returns, and left as it is on every
    error but a failed deserialization. *)
Definition decode_frame (buf : list Z) : result MeshFrame CodecError * list Z :=
  if (length buf <? HEADER_LEN)%nat then (Err Incomplete, buf)
  else
    let magic := from_be_bytes [buf !!! 0%nat; buf !!! 1%nat] in
    if negb (magic =? MAGIC) then (Err (BadMagic magic), buf)
    else
      let version := buf !!! 2%nat in
      if negb (version =? PROTOCOL_VERSION) then (Err (UnsupportedVersion version), buf)
      else
        let payload_len :=
          Z.to_nat (from_be_bytes [buf !!! 4%nat; buf !!! 5%nat; buf !!! 6%nat; buf !!! 7%nat]) in
        if (length buf <? HEADER_LEN + payload_len)%nat then (Err Incomplete, buf)
        else
          let payload := take payload_len (drop HEADER_LEN buf) in
          (decode_mesh_frame_clear payload, drop (HEADER_LEN + payload_len) buf).

Definition encode_event (e : MeshEvent) : result (list Z) CodecError :=
  match bc_serialize e with
  | None => Err (Encode (bc_encode_text e))
  | Some payload => Ok (envelope EVENT_MSG_TYPE payload)
  end.

Definition decode_event (buf : list Z) : result MeshEvent CodecError * list Z :=
  if (length buf <? HEADER_LEN)%nat then (Err Incomplete, buf)
  else
    let magic := from_be_bytes [buf !!! 0%nat; buf !!! 1%nat] in
    if negb (magic =? MAGIC) then (Err (BadMagic magic), buf)
    else
      let version := buf !!! 2%nat in
      if negb (version =? PROTOCOL_VERSION) then (Err (UnsupportedVersion version), buf)
      else if negb (buf !!! 3%nat =? EVENT_MSG_TYPE) then
        (Err (Decode ("not a mesh event: msg_type " +:+ dec_show (buf !!! 3%nat))%string), buf)
      else
        let payload_len :=
          Z.to_nat (from_be_bytes [buf !!! 4%nat; buf !!! 5%nat; buf !!! 6%nat; buf !!! 7%nat]) in
        if (length buf <? HEADER_LEN + payload_len)%nat then (Err Incomplete, buf)
        else
          let payload := take payload_len (drop HEADER_LEN buf) in
          (match bc_deserialize payload with
           | Some e => Ok e
           | None => Err (Decode (bc_decode_text (T := MeshEvent) payload))
           end, drop (HEADER_LEN + payload_len) buf).
End Codec.

(** ** The envelope and the buffer *)

Lemma len_bytes n :
  (Z.of_nat n < 2 ^ 32) ->
  exists b0 b1 b2 b3, to_be_bytes 4 (as_u32 (Z.of_nat n)) = [b0; b1; b2; b3]
    /\ Z.to_nat (from_be_bytes [b0; b1; b2; b3]) = n.
Proof.
  intros Hn. destruct (list_of_4 _ (to_be_bytes_length 4 (as_u32 (Z.of_nat n))))
    as (b0 & b1 & b2 & b3 & Hb).
  exists b0, b1, b2, b3. split; [done|]. rewrite <- Hb. unfold as_u32.
  rewrite Z.mod_small by lia. rewrite from_to_be; [apply Nat2Z.id|simpl; lia].
Qed.

Lemma envelope_cons t p :
  Z.of_nat (length p) < 2 ^ 32 ->
  exists b0 b1 b2 b3, envelope t p = 77 :: 66 :: 1 :: t :: b0 :: b1 :: b2 :: b3 :: p
    /\ Z.to_nat (from_be_bytes [b0; b1; b2; b3]) = length p.
Proof.
  intros (b0 & b1 & b2 & b3 & Hb & Hn)%len_bytes. exists b0, b1, b2, b3.
  split; [|done]. unfold envelope. rewrite Hb. done.
Qed.

Lemma envelope_length t p : length (envelope t p) = (HEADER_LEN + length p)%nat.
Proof.
  unfold envelope. rewrite !length_app, !to_be_bytes_length. simpl. lia.
Qed.

(** A strict prefix that holds the whole header is the header and a strict prefix
    of the payload. *)
Lemma envelope_prefix t p buf :
  Z.of_nat (length p) < 2 ^ 32 -> buf `prefix_of` envelope t p -> buf <> envelope t p ->
  (length buf < HEADER_LEN)%nat
  \/ exists b0 b1 b2 b3 q, buf = 77 :: 66 :: 1 :: t :: b0 :: b1 :: b2 :: b3 :: q
      /\ Z.to_nat (from_be_bytes [b0; b1; b2; b3]) = length p
      /\ (length buf < HEADER_LEN + length p)%nat.
Proof.
  intros Hp [rest Hbuf] Hne. destruct (decide (length buf < HEADER_LEN)%nat); [by left|right].
  assert (Hlt : (length buf < HEADER_LEN + length p)%nat).
  { rewrite <- (envelope_length t p), Hbuf, length_app. destruct rest; [|simpl; lia].
    rewrite app_nil_r in Hbuf. done. }
  destruct (envelope_cons t p Hp) as (b0 & b1 & b2 & b3 & He & Hn).
  exists b0, b1, b2, b3. rewrite He in Hbuf. unfold HEADER_LEN in *.
  do 8 (destruct buf as [|? buf]; [simpl in *; lia|]). simplify_eq/=. eauto.
Qed.

(** Discharge a length test that fails. *)
Ltac not_short :=
  match goal with
  | |- context [(?a <? ?b)%nat] =>
      rewrite (proj2 (Nat.ltb_ge a b))
        by (unfold HEADER_LEN; simpl; rewrite ?length_app; simpl; lia)
  end.

(** And one that holds. *)
Ltac short :=
  match goal with
  | |- context [(?a <? ?b)%nat] =>
      rewrite (proj2 (Nat.ltb_lt a b)) by (unfold HEADER_LEN in *; simpl in *; lia)
  end.

Section CodecFacts.
Context `{Bincode WireFrame} `{Bincode MeshEvent}.

Lemma decode_frame_envelope t p rest :
  Z.of_nat (length p) < 2 ^ 32 ->
  decode_frame (envelope t p ++ rest) = (decode_mesh_frame_clear p, rest).
Proof.
  intros Hp. destruct (envelope_cons t p Hp) as (b0 & b1 & b2 & b3 & -> & Hn).
  unfold decode_frame. cbn -[from_be_bytes take drop Nat.ltb]. rewrite Hn.
  change (from_be_bytes [77; 66]) with MAGIC. rewrite Z.eqb_refl.
  repeat not_short.
  unfold HEADER_LEN. rewrite !skipn_cons, drop_0, take_app_length, drop_app_length. done.
Qed.

Lemma decode_frame_prefix t p buf :
  Z.of_nat (length p) < 2 ^ 32 -> buf `prefix_of` envelope t p -> buf <> envelope t p ->
  decode_frame buf = (Err Incomplete, buf).
Proof.
  intros Hp Hpre Hne. unfold decode_frame.
  destruct (envelope_prefix t p buf Hp Hpre Hne) as [Hs|(b0 & b1 & b2 & b3 & q & -> & Hn & Hlt)].
  { by rewrite (proj2 (Nat.ltb_lt _ _) Hs). }
  cbn -[from_be_bytes take drop Nat.ltb]. rewrite Hn.
  change (from_be_bytes [77; 66]) with MAGIC. rewrite Z.eqb_refl.
  not_short. simpl negb. cbv iota.
  by short.
Qed.

Lemma decode_event_envelope p rest :
  Z.of_nat (length p) < 2 ^ 32 ->
  decode_event (envelope EVENT_MSG_TYPE p ++ rest)
  = (match bc_deserialize p with
     | Some e => Ok e
     | None => Err (Decode (bc_decode_text (T := MeshEvent) p))
     end, rest).
Proof.
  intros Hp. destruct (envelope_cons EVENT_MSG_TYPE p Hp) as (b0 & b1 & b2 & b3 & -> & Hn).
  unfold decode_event. cbn -[from_be_bytes take drop Nat.ltb]. rewrite Hn.
  change (from_be_bytes [77; 66]) with MAGIC. rewrite Z.eqb_refl.
  repeat not_short.
  unfold HEADER_LEN. rewrite !skipn_cons, drop_0, take_app_length, drop_app_length. done.
Qed.

Lemma decode_event_prefix p buf :
  Z.of_nat (length p) < 2 ^ 32 -> buf `prefix_of` envelope EVENT_MSG_TYPE p ->
  buf <> envelope EVENT_MSG_TYPE p -> decode_event buf = (Err Incomplete, buf).
Proof.
  intros Hp Hpre Hne. unfold decode_event.
  destruct (envelope_prefix _ p buf Hp Hpre Hne) as [Hs|(b0 & b1 & b2 & b3 & q & -> & Hn & Hlt)].
  { by rewrite (proj2 (Nat.ltb_lt _ _) Hs). }
  cbn -[from_be_bytes take drop Nat.ltb]. rewrite Hn.
  change (from_be_bytes [77; 66]) with MAGIC. rewrite Z.eqb_refl.
  not_short. simpl negb. cbv iota.
  by short.
Qed.

(** Frames never pass for events. *)
Lemma decode_event_of_frame t p rest :
  Z.of_nat (length p) < 2 ^ 32 -> t <> EVENT_MSG_TYPE ->
  decode_event (envelope t p ++ rest)
  = (Err (Decode ("not a mesh event: msg_type " +:+ dec_show t)%string), envelope t p ++ rest).
Proof.
  intros Hp Ht. destruct (envelope_cons t p Hp) as (b0 & b1 & b2 & b3 & -> & Hn).
  unfold decode_event. cbn -[from_be_bytes take drop Nat.ltb dec_show].
  change (from_be_bytes [77; 66]) with MAGIC. rewrite Z.eqb_refl.
  repeat not_short.
  apply Z.eqb_neq in Ht. simpl negb. cbv iota. rewrite Ht. done.
Qed.

Lemma msg_type_not_event {E} (f : Frame E) : msg_type f <> EVENT_MSG_TYPE.
Proof. by destruct f. Qed.

Lemma endpoint_de_ser e : endpoint_ok e -> endpoint_de (endpoint_ser e) = Some e.
Proof.
  intros He. unfold endpoint_de, endpoint_ser. simpl.
  assert (Hn : endpoint_new (host e) (port e) = Ok e).
  { apply endpoint_new_ok; [destruct He as (_ & _ & ?); lia|]. by destruct e. }
  by rewrite Hn.
Qed.

Lemma frame_de_ser f : frame_ok f -> frame_de (map_endpoint endpoint_ser f) = Some f.
Proof.
  unfold frame_ok. destruct f as [|s| | | | |d|? ? e|? ? e| | | | | |]; simpl; intros Hok;
    try done.
  - inversion Hok. rewrite endpoint_de_ser by done. by destruct s.
  - destruct d as [sid t mx]; simpl in *. destruct t as [e|]; simpl in *; [|done].
    inversion Hok. by rewrite endpoint_de_ser.
  - inversion Hok. by rewrite endpoint_de_ser.
  - inversion Hok. by rewrite endpoint_de_ser.
Qed.

Lemma deserialize_serialize `{!BincodeLaws WireFrame} f bs :
  frame_ok f -> serialize_frame f = Some bs -> deserialize_frame bs = Some f.
Proof.
  intros Hok Hs. unfold deserialize_frame. rewrite (bc_roundtrip _ _ Hs). simpl.
  by apply frame_de_ser.
Qed.
End CodecFacts.

(** What [decode_frame] takes off the buffer. *)
Definition is_header_error {A} (r : result A CodecError) : Prop :=
  match r with
  | Err Incomplete | Err (BadMagic _) | Err (UnsupportedVersion _) => True
  | _ => False
  end.

Lemma be_bytes_2 a b z :
  is_byte a -> is_byte b -> from_be_bytes [a; b] = z -> [a; b] = to_be_bytes 2 z.
Proof. intros Ha Hb <-. symmetry. apply (to_from_be [a; b]). all_bytes. Qed.

Lemma header_exact buf :
  bytes_ok buf -> (HEADER_LEN <= length buf)%nat ->
  from_be_bytes [buf !!! 0%nat; buf !!! 1%nat] = MAGIC -> buf !!! 2%nat = PROTOCOL_VERSION ->
  let n := Z.to_nat (from_be_bytes [buf !!! 4%nat; buf !!! 5%nat; buf !!! 6%nat; buf !!! 7%nat]) in
  (HEADER_LEN + n <= length buf)%nat ->
  envelope (buf !!! 3%nat) (take n (drop HEADER_LEN buf)) ++ drop (HEADER_LEN + n) buf = buf.
Proof.
  unfold HEADER_LEN. intros Hb Hl.
  destruct buf as [|m0 [|m1 [|v [|t [|b0 [|b1 [|b2 [|b3 p]]]]]]]]; simpl in Hl; try lia.
  cbn -[from_be_bytes take drop envelope]. intros Hm -> Hn.
  unfold bytes_ok in Hb. rewrite !Forall_cons in Hb.
  destruct Hb as (H0 & H1 & H2 & H3 & H4 & H5 & H6 & H7 & Hp).
  assert (Hrng : 0 <= from_be_bytes [b0; b1; b2; b3] < 2 ^ 32).
  { apply (from_le_bound (reverse [b0; b1; b2; b3])). apply Forall_reverse. all_bytes. }
  set (n := Z.to_nat (from_be_bytes [b0; b1; b2; b3])) in *.
  rewrite !skipn_cons, drop_0 in *.
  assert (Hlen : length (take n p) = n) by (rewrite length_take; lia).
  unfold envelope. rewrite Hlen, <- (be_bytes_2 m0 m1 MAGIC) by done.
  replace (as_u32 (Z.of_nat n)) with (from_be_bytes [b0; b1; b2; b3])
    by (unfold n, as_u32; rewrite Z2Nat.id, Z.mod_small by lia; done).
  change 4%nat with (length [b0; b1; b2; b3]). rewrite to_from_be by all_bytes.
  simpl. by rewrite take_drop.
Qed.

Lemma decode_frame_cases `{Bincode WireFrame} buf :
  bytes_ok buf ->
  let '(r, buf') := decode_frame buf in
  (is_header_error r /\ buf' = buf)
  \/ exists t p, r = decode_mesh_frame_clear p /\ envelope t p ++ buf' = buf.
Proof.
  intros Hb. unfold decode_frame.
  destruct (Nat.ltb_spec (length buf) HEADER_LEN) as [|Hl]; [by left|].
  destruct (Z.eqb_spec (from_be_bytes [buf !!! 0%nat; buf !!! 1%nat]) MAGIC) as [Hm|]; [|by left].
  destruct (Z.eqb_spec (buf !!! 2%nat) PROTOCOL_VERSION) as [Hv|]; [|by left].
  simpl negb. cbv iota.
  set (n := Z.to_nat (from_be_bytes [buf !!! 4%nat; _; _; _])).
  destruct (Nat.ltb_spec (length buf) (HEADER_LEN + n)) as [|Hn]; [by left|].
  right. eexists (buf !!! 3%nat), _. split; [done|].
  by apply header_exact.
Qed.

(** ** Properties *)

(** the frame codec frames a byte stream: the encoding of a frame followed by
    any bytes decodes to the frame and leaves those bytes, and on every strict
    prefix of the encoding the decoder asks for more and leaves the buffer as it
    was. *)
Theorem frame_stream_codec `{Bincode WireFrame, !BincodeLaws WireFrame}
    (f : MeshFrame) (bs : list Z) (Hok : frame_ok f) (Hs : serialize_frame f = Some bs)
    (Hl : Z.of_nat (length bs) < 2 ^ 32) :
  exists w, encode_frame f = Ok w
    /\ (forall rest, decode_frame (w ++ rest) = (Ok f, rest))
    /\ (forall buf, buf `prefix_of` w -> buf <> w -> decode_frame buf = (Err Incomplete, buf)).
Proof.
  exists (envelope (msg_type f) bs). unfold encode_frame. rewrite Hs. split_and!; [done| |].
  - intros rest. rewrite decode_frame_envelope by done. unfold decode_mesh_frame_clear.
    by rewrite (deserialize_serialize f bs).
  - intros buf. by apply decode_frame_prefix.
Qed.

(** whatever the buffer holds, [decode_frame] either reports a header problem
    and leaves the buffer alone, or removes exactly one envelope from its front
    and returns what that envelope's payload deserializes to. *)
Theorem decode_frame_exact `{Bincode WireFrame} (buf : list Z) (Hb : bytes_ok buf) :
  let '(r, buf') := decode_frame buf in
  (is_header_error r /\ buf' = buf)
  \/ exists t p, r = decode_mesh_frame_clear p /\ envelope t p ++ buf' = buf.
Proof. by apply decode_frame_cases. Qed.

(** a frame wrapped as a native event and sent as an encoded event is
    recovered by the receiver's steps (decode the event, take its payload, decode
    the frame); the event carries the frame's family, sequence number and
    semantic, it is ordered exactly when the frame is stream or datagram data,
    and no encoded frame decodes as an event. *)
Theorem native_event_roundtrip
    `{Bincode WireFrame, !BincodeLaws WireFrame, Bincode MeshEvent, !BincodeLaws MeshEvent}
    (f : MeshFrame) (mode : DeliveryMode) (bs es : list Z) (Hok : frame_ok f)
    (Hs : serialize_frame f = Some bs) (Hl : Z.of_nat (length bs) < 2 ^ 32) :
  let '(family, sq, sem) := frame_event_meta f in
  let ev := wrap_frame_event family sq sem (policy_id mode) (envelope (msg_type f) bs) in
  bc_serialize ev = Some es -> Z.of_nat (length es) < 2 ^ 32 ->
  exists w, encode_event ev = Ok w /\ decode_event w = (Ok ev, [])
    /\ (exists clear, event_frame_payload ev = Some clear /\ decode_frame clear = (Ok f, []))
    /\ (seq <$> package ev) = Some sq
    /\ (ordering ev = OrderedWithinFamily <-> sem = Stream \/ sem = Datagram)
    /\ from_policy_id (delivery_policy_id ev) = mode
    /\ (decode_event (envelope (msg_type f) bs)).1
       = Err (Decode ("not a mesh event: msg_type " +:+ dec_show (msg_type f))%string).
Proof.
  destruct (frame_event_meta f) as [[family sq] sem]. intros ev He Hel.
  exists (envelope EVENT_MSG_TYPE es). unfold encode_event. rewrite He.
  split_and!.
  - done.
  - rewrite <- (app_nil_r (envelope _ es)), decode_event_envelope by done.
    by rewrite (bc_roundtrip _ _ He).
  - exists (envelope (msg_type f) bs). split; [by destruct sem|].
    rewrite <- (app_nil_r (envelope _ bs)), decode_frame_envelope by done.
    unfold decode_mesh_frame_clear. by rewrite (deserialize_serialize f bs).
  - by destruct sem.
  - destruct sem; naive_solver.
  - destruct sem; apply from_policy_id_policy_id.
  - rewrite <- (app_nil_r (envelope _ bs)), decode_event_of_frame;
      [done|done|apply msg_type_not_event].
Qed.

(** A serializer of one frame and one event, as an instance of the laws. *)
Module DemoCodec.
Definition frame : MeshFrame := FDatagramSend "s1" 7 (mkEndpoint "h" 53) [1; 2; 3].
Definition bs : list Z := [7; 0; 0; 0; 53].
Definition event : MeshEvent := wrap_frame_event "s1" 7 Datagram "stripe" (envelope 32 bs).
Definition es : list Z := [64; 1].

#[export] Instance wire : Bincode WireFrame := {
  bc_serialize f := if decide (f = map_endpoint endpoint_ser frame) then Some bs else None;
  bc_deserialize l := if decide (l = bs) then Some (map_endpoint endpoint_ser frame) else None;
  bc_encode_text _ := "unsupported"%string;
  bc_decode_text _ := "invalid"%string
}.

#[export] Instance wire_laws : BincodeLaws WireFrame.
Proof.
  split; simpl; intros x l; case_decide; intros; simplify_eq.
  - all_bytes.
  - by rewrite decide_True.
Qed.

#[export] Instance events : Bincode MeshEvent := {
  bc_serialize e := if decide (e = event) then Some es else None;
  bc_deserialize l := if decide (l = es) then Some event else None;
  bc_encode_text _ := "unsupported"%string;
  bc_decode_text _ := "invalid"%string
}.

#[export] Instance events_laws : BincodeLaws MeshEvent.
Proof.
  split; simpl; intros x l; case_decide; intros; simplify_eq.
  - all_bytes.
  - by rewrite decide_True.
Qed.

Lemma frame_is_ok : frame_ok frame.
Proof. repeat constructor; simpl; done || lia. Qed.
End DemoCodec.
Import DemoCodec.

Lemma frame_stream_codec_witness :
  serialize_frame DemoCodec.frame = Some DemoCodec.bs
  /\ exists w, encode_frame DemoCodec.frame = Ok w
       /\ decode_frame (w ++ [77; 66]) = (Ok DemoCodec.frame, [77; 66]).
Proof.
  assert (Hs : serialize_frame DemoCodec.frame = Some DemoCodec.bs) by reflexivity.
  split; [exact Hs|].
  destruct (frame_stream_codec DemoCodec.frame DemoCodec.bs DemoCodec.frame_is_ok Hs)
    as (w & Hw & Hrest & _); [reflexivity|].
  exists w. split; [exact Hw|]. apply Hrest.
Defined.

Lemma decode_frame_exact_witness :
  let buf := envelope 32 DemoCodec.bs ++ [9] in
  let '(r, buf') := decode_frame buf in
  (is_header_error r /\ buf' = buf)
  \/ exists t p, r = decode_mesh_frame_clear p /\ envelope t p ++ buf' = buf.
Proof. apply decode_frame_exact. apply (bool_decide_unpack _). vm_compute. exact I. Defined.

Lemma native_event_roundtrip_witness :
  exists w, encode_event DemoCodec.event = Ok w /\ decode_event w = (Ok DemoCodec.event, []).
Proof.
  assert (Hs : serialize_frame DemoCodec.frame = Some DemoCodec.bs) by reflexivity.
  destruct (native_event_roundtrip DemoCodec.frame Stripe DemoCodec.bs DemoCodec.es
              DemoCodec.frame_is_ok Hs) as (w & Hw & Hd & _); [reflexivity..|].
  exists w. split; [exact Hw|exact Hd].
Defined.

(** * One-XOR-parity repair *)

Local Open Scope Z_scope.

(** [for (p, b) in acc.iter_mut().zip(chunk) { *p ^= *b }] *)
Fixpoint xor_into (acc chunk : list Z) : list Z :=
  match acc, chunk with
  | a :: acc, b :: chunk => Z.lxor a b :: xor_into acc chunk
  | _, _ => acc
  end.

(** [chunks.iter().map(|c| c.len()).max().unwrap_or(0)] *)
Definition width (chunks : list (list Z)) : nat := max_list (length <$> chunks).

Definition xor_parity (chunks : list (list Z)) : list Z :=
  foldl xor_into (replicate (width chunks) 0) chunks.

(** The first loop: [None] when it returns early, else the missing index. *)
Fixpoint find_missing (present : list (option (list Z))) (idx : nat) (missing : option nat) :
    option (option nat) :=
  match present with
  | [] => Some missing
  | Some _ :: present => find_missing present (S idx) missing
  | None :: present =>
      match missing with
      | Some _ => None
      | None => find_missing present (S idx) (Some idx)
      end
  end.

(** [out.resize(n, 0)] when the slot is longer. *)
Definition resize_to (out slot : list Z) : list Z :=
  if (length out <? length slot)%nat then out ++ replicate (length slot - length out) 0 else out.

Definition reconstruct_missing (present : list (option (list Z))) (parity : list Z) :
    option (list Z) :=
  match find_missing present 0 None with
  | Some (Some _) =>
      Some (foldl (fun out slot => xor_into (resize_to out slot) slot) parity (omap id present))
  | _ => None
  end.

(** ** Bytewise sums *)

Definition at_ (l : list Z) (j : nat) : Z := default 0 (l !! j).

Definition xsum (j : nat) (chunks : list (list Z)) : Z :=
  foldr (fun c acc => Z.lxor (at_ c j) acc) 0 chunks.

Lemma xor_into_length acc c : length (xor_into acc c) = length acc.
Proof. revert c. induction acc as [|a acc IH]; intros [|b c]; simpl; auto. Qed.

Lemma xor_into_at acc c j :
  (j < length acc)%nat -> at_ (xor_into acc c) j = Z.lxor (at_ acc j) (at_ c j).
Proof.
  revert c j. induction acc as [|a acc IH]; intros [|b c] [|j] Hj; simpl in *; try lia;
    unfold at_; simpl; rewrite ?Z.lxor_0_r; auto.
  apply IH. lia.
Qed.

Lemma xor_fold_length acc chunks : length (foldl xor_into acc chunks) = length acc.
Proof.
  revert acc. induction chunks as [|c chunks IH]; intros acc; simpl; [done|].
  by rewrite IH, xor_into_length.
Qed.

Lemma xor_fold_at acc chunks j :
  (j < length acc)%nat -> at_ (foldl xor_into acc chunks) j = Z.lxor (at_ acc j) (xsum j chunks).
Proof.
  revert acc. induction chunks as [|c chunks IH]; intros acc Hj; simpl.
  - by rewrite Z.lxor_0_r.
  - rewrite IH by (by rewrite xor_into_length). rewrite xor_into_at by done.
    apply Z.lxor_assoc.
Qed.

Lemma xsum_app j xs ys : xsum j (xs ++ ys) = Z.lxor (xsum j xs) (xsum j ys).
Proof.
  induction xs as [|x xs IH]; simpl; [done|]. by rewrite IH, Z.lxor_assoc.
Qed.

Lemma list_eq_at (l k : list Z) :
  length l = length k -> (forall j, (j < length l)%nat -> at_ l j = at_ k j) -> l = k.
Proof.
  intros Hl Hat. apply list_eq. intros j. destruct (decide (j < length l)%nat) as [Hj|Hj].
  - specialize (Hat j Hj). unfold at_ in Hat.
    destruct (lookup_lt_is_Some_2 l j Hj) as [x Hx], (lookup_lt_is_Some_2 k j) as [y Hy]; [lia|].
    rewrite Hx, Hy in *. simpl in Hat. congruence.
  - rewrite !lookup_ge_None_2 by lia. done.
Qed.

Lemma at_pad c n j : at_ (c ++ replicate n 0) j = at_ c j.
Proof.
  unfold at_. destruct (decide (j < length c)%nat).
  - by rewrite lookup_app_l.
  - rewrite lookup_app_r, (lookup_ge_None_2 c) by lia. simpl.
    destruct (replicate n 0 !! (j - length c)%nat) eqn:E; [|done].
    apply lookup_replicate in E as [-> _]. done.
Qed.

(** ** The missing slot *)

Lemma find_missing_all chunks idx m : find_missing (Some <$> chunks) idx m = Some m.
Proof. revert idx. induction chunks; intros idx; simpl; auto. Qed.

Lemma find_missing_app xs ys idx m :
  find_missing ((Some <$> xs) ++ ys) idx m = find_missing ys (idx + length xs) m.
Proof.
  revert idx. induction xs as [|x xs IH]; intros idx; simpl; [by rewrite Nat.add_0_r|].
  rewrite IH. f_equal. lia.
Qed.

Lemma omap_present xs ys :
  omap id ((Some <$> xs) ++ None :: (Some <$> ys)) = (xs ++ ys : list (list Z)).
Proof.
  assert (Hall : forall zs : list (list Z), omap id (Some <$> zs) = zs)
    by (induction zs as [|z zs IH]; [done|simpl; f_equal; exact IH]).
  induction xs as [|x xs IH]; [apply Hall|simpl; f_equal; exact IH].
Qed.

Lemma fold_no_resize out slots :
  Forall (fun s => length s <= length out)%nat slots ->
  foldl (fun out slot => xor_into (resize_to out slot) slot) out slots = foldl xor_into out slots.
Proof.
  revert out. induction slots as [|s slots IH]; intros out Hall; simpl; [done|].
  apply Forall_cons in Hall as [Hs Hall]. unfold resize_to at 2.
  rewrite (proj2 (Nat.ltb_ge _ _)) by lia. apply IH. by rewrite xor_into_length.
Qed.

Lemma width_bound c chunks : c ∈ chunks -> (length c <= width chunks)%nat.
Proof. intros Hc. apply max_list_elem_of_le, list_elem_of_fmap_2, Hc. Qed.

Lemma find_missing_none l idx i m : find_missing l idx (Some i) = Some m -> exists ys, l = Some <$> ys.
Proof.
  revert idx. induction l as [|[c|] l IH]; intros idx Hf; [by exists []| |done].
  destruct (IH _ Hf) as [ys ->]. by exists (c :: ys).
Qed.

Lemma find_missing_one l idx i :
  find_missing l idx None = Some (Some i) ->
  exists xs ys, l = (Some <$> xs) ++ None :: (Some <$> ys).
Proof.
  revert idx. induction l as [|[c|] l IH]; intros idx Hf; [done| |].
  - destruct (IH _ Hf) as (xs & ys & ->). by exists (c :: xs), ys.
  - destruct (find_missing_none _ _ _ _ Hf) as [ys ->]. by exists [], ys.
Qed.

(** Which slots are missing decides whether anything is reconstructed. *)
Lemma reconstruct_some present parity :
  is_Some (reconstruct_missing present parity)
  <-> exists xs ys, present = (Some <$> xs) ++ None :: (Some <$> ys).
Proof.
  unfold reconstruct_missing. split.
  - destruct (find_missing present 0 None) as [[i|]|] eqn:E; [|intros [? [=]]..].
    intros _. by eapply find_missing_one.
  - intros (xs & ys & ->). rewrite find_missing_app. simpl. rewrite find_missing_all. eauto.
Qed.

Lemma reconstruct_split xs c ys :
  let chunks := xs ++ c :: ys in
  reconstruct_missing ((Some <$> xs) ++ None :: (Some <$> ys)) (xor_parity chunks)
  = Some (c ++ replicate (width chunks - length c) 0).
Proof.
  intros chunks. unfold reconstruct_missing.
  rewrite find_missing_app. simpl. rewrite find_missing_all, omap_present.
  assert (Hlen : length (xor_parity chunks) = width chunks)
    by (unfold xor_parity; by rewrite xor_fold_length, length_replicate).
  assert (Hc : (length c <= width chunks)%nat) by (apply width_bound; set_solver).
  rewrite fold_no_resize.
  2:{ apply Forall_forall. intros s Hs. rewrite Hlen. apply width_bound. set_solver. }
  f_equal. apply list_eq_at.
  { rewrite xor_fold_length, length_app, length_replicate. lia. }
  intros j Hj. rewrite xor_fold_length in Hj. rewrite xor_fold_at, at_pad by done.
  unfold xor_parity. rewrite xor_fold_at by (rewrite length_replicate; lia).
  replace (at_ (replicate (width chunks) 0) j) with 0
    by (symmetry; apply (at_pad [])). subst chunks. rewrite !xsum_app. simpl.
  generalize (xsum j xs) (xsum j ys) (at_ c j). intros x y z.
  rewrite Z.lxor_0_l. apply Z.bits_inj'. intros i Hi. rewrite !Z.lxor_spec.
  by destruct (Z.testbit x i), (Z.testbit y i), (Z.testbit z i).
Qed.

(** from the parity of a generation and all of its chunks but one, the lost
    chunk is recovered, padded with zeros to the longest chunk; when none or more
    than one chunk is missing nothing is returned. *)
Theorem parity_repairs_one_loss (present : list (option (list Z))) :
  (forall xs c ys, present = (Some <$> xs) ++ None :: (Some <$> ys) ->
     reconstruct_missing present (xor_parity (xs ++ c :: ys))
     = Some (c ++ replicate (width (xs ++ c :: ys) - length c) 0))
  /\ (forall parity, is_Some (reconstruct_missing present parity)
        <-> exists xs ys, present = (Some <$> xs) ++ None :: (Some <$> ys)).
Proof.
  split; [|intros parity; apply reconstruct_some].
  intros xs c ys ->. apply reconstruct_split.
Qed.

Lemma parity_repairs_one_loss_witness :
  reconstruct_missing [Some [1; 2; 3]; None; Some [255]] (xor_parity [[1; 2; 3]; [7; 9]; [255]])
  = Some [7; 9; 0].
Proof.
  exact (proj1 (parity_repairs_one_loss [Some [1; 2; 3]; None; Some [255]])
           [[1; 2; 3]] [7; 9] [[255]] eq_refl).
Defined.
