(* ===== verification/Reorder.v ===== *)
(** Reordering (lib/mb-reorder/src/lib.rs, lib/mb-chunker/src/lib.rs): the chunker
    that numbers payloads, the reorder buffer that restores their order, and the
    per-family reorder state with its window, bitmap and AckNack feedback. *)
From S2P Require Import Prelude Numbers MeshWire.
Local Open Scope Z_scope.

Definition U64_MAX : Z := 2 ^ 64 - 1.

(** [x += 1] on a [u64] *)
Definition incr (x : Z) : Z := as_u64 (x + 1).

(** ** Chunker *)

Record Chunk := mkChunk { chunk_seq : Z; chunk_payload : list Z }.
Record Chunker := mkChunker { next_seq : Z }.

Definition chunker_new (start_seq : Z) : Chunker := mkChunker start_seq.

Definition next_frame (c : Chunker) (payload : list Z) : Chunk * Chunker :=
  (mkChunk (next_seq c) payload, mkChunker (incr (next_seq c))).

(** ** The run of entries at the frontier *)

(** [while let Some(x) = m.remove(&next) { out.push(x); next += 1 }] *)
Fixpoint drain {A} (fuel : nat) (next : Z) (m : gmap Z A) : list A * Z * gmap Z A :=
  match fuel with
  | O => ([], next, m)
  | S fuel =>
      match m !! next with
      | None => ([], next, m)
      | Some x =>
          let '(out, next', m') := drain fuel (incr next) (delete next m) in
          (x :: out, next', m')
      end
  end.

(** Each round removes an entry, so the loop ends within the map's size. *)
Definition drain_fuel {A} (m : gmap Z A) : nat := S (size m).

(** ** Reorder buffer *)

Record ReorderBuffer := mkReorderBuffer { next : Z; pending : gmap Z (list Z) }.

Definition rb_new (start_seq : Z) : ReorderBuffer := mkReorderBuffer start_seq ∅.

(** [insert]: store, then pull the returned iterator until it ends. *)
Definition rb_insert (b : ReorderBuffer) (sq : Z) (payload : list Z) :
    list (list Z) * ReorderBuffer :=
  let m := if (next b <=? sq) && bool_decide (pending b !! sq = None)
           then <[sq := payload]> (pending b) else pending b in
  let '(out, next', m') := drain (drain_fuel m) (next b) m in
  (out, mkReorderBuffer next' m').

Definition next_expected (b : ReorderBuffer) : Z := next b.
Definition pending_count (b : ReorderBuffer) : nat := size (pending b).

Fixpoint rb_run (b : ReorderBuffer) (ops : list (Z * list Z)) : list (list Z) * ReorderBuffer :=
  match ops with
  | [] => ([], b)
  | (sq, p) :: ops =>
      let '(out, b') := rb_insert b sq p in
      let '(outs, b'') := rb_run b' ops in (out ++ outs, b'')
  end.

(** ** Family reorder state *)

Definition FAMILY_BITMAP_BITS : Z := 128.

Inductive FamilyPushOutcome :=
| Deliver (packages : list DataPackage)
| Buffered
| Duplicate
| Gap (a : AckNack)
| WindowOverflow (a : AckNack).

Record FamilyReorderState := mkFamily {
  fam_family_id : string;
  next_expected_seq : Z;
  fam_bitmap : Z;
  reorder_window : Z;
  repair_deadline_ms : Z;
  buffer : gmap Z DataPackage;
  highest_seen : option Z;
  closed : option CloseReasonWire
}.

Definition family_new (family_id : string) (start_seq reorder_window repair_deadline_ms : Z) :
    FamilyReorderState :=
  mkFamily family_id start_seq 0 reorder_window repair_deadline_ms ∅ None None.

Definition window (s : FamilyReorderState) : Z := Z.min (reorder_window s) FAMILY_BITMAP_BITS.

(** [rebuild_bitmap]: bit [d] for every buffered [next_expected_seq + d]. *)
Definition rebuild_bitmap (next_expected : Z) (buffer : gmap Z DataPackage) : Z :=
  foldl (fun bits k =>
           let d := as_u64 (k - next_expected) in
           if d <? FAMILY_BITMAP_BITS then Z.lor bits (Z.shiftl 1 d) else bits)
    0 (map_to_list buffer).*1.

(** The loop of [ack_snapshot] over [next_expected_seq ..= highest]. *)
Fixpoint missing_loop (buffer : gmap Z DataPackage) (seqs : list Z) (run_start : option Z)
    (acc : list SeqRange) : option Z * list SeqRange :=
  match seqs with
  | [] => (run_start, acc)
  | sq :: seqs =>
      if bool_decide (is_Some (buffer !! sq)) then
        match run_start with
        | Some start => missing_loop buffer seqs None (acc ++ [mkSeqRange start (sq - 1)])
        | None => missing_loop buffer seqs None acc
        end
      else
        match run_start with
        | None => missing_loop buffer seqs (Some sq) acc
        | Some start => missing_loop buffer seqs (Some start) acc
        end
  end.

Definition missing_of (next_expected : Z) (highest_seen : option Z) (buffer : gmap Z DataPackage) :
    list SeqRange :=
  match highest_seen with
  | None => []
  | Some highest =>
      match missing_loop buffer (seqZ next_expected (highest - next_expected + 1)) None [] with
      | (Some start, acc) => acc ++ [mkSeqRange start highest]
      | (None, acc) => acc
      end
  end.

Definition ack_snapshot (s : FamilyReorderState) : AckNack :=
  mkAckNack (fam_family_id s) (next_expected_seq s) (hex_show 32 (fam_bitmap s))
    (missing_of (next_expected_seq s) (highest_seen s) (buffer s)).

Definition push_package (s : FamilyReorderState) (package : DataPackage) :
    FamilyPushOutcome * FamilyReorderState :=
  if bool_decide (is_Some (closed s)) then (WindowOverflow (ack_snapshot s), s)
  else
    let sq := seq package in
    if (sq <? next_expected_seq s) || bool_decide (is_Some (buffer s !! sq)) then (Duplicate, s)
    else if sq =? next_expected_seq s then
      let '(more, next', buffer') :=
        drain (drain_fuel (buffer s)) (incr (next_expected_seq s)) (buffer s) in
      (Deliver (package :: more),
       mkFamily (fam_family_id s) next' (rebuild_bitmap next' buffer') (reorder_window s)
         (repair_deadline_ms s) buffer' (highest_seen s) (closed s))
    else if window s <=? sq - next_expected_seq s then
      let s' := mkFamily (fam_family_id s) (next_expected_seq s) (fam_bitmap s) (reorder_window s)
                  (repair_deadline_ms s) (buffer s) (highest_seen s) (Some ProtocolError) in
      (WindowOverflow (ack_snapshot s'), s')
    else
      let extended_frontier := match highest_seen s with None => true | Some h => h <? sq end in
      let buffer' := <[sq := package]> (buffer s) in
      let highest' := match highest_seen s with None => sq | Some h => Z.max h sq end in
      let s' := mkFamily (fam_family_id s) (next_expected_seq s)
                  (rebuild_bitmap (next_expected_seq s) buffer') (reorder_window s)
                  (repair_deadline_ms s) buffer' (Some highest') (closed s) in
      if extended_frontier then (Gap (ack_snapshot s'), s') else (Buffered, s').

Definition close_reason (s : FamilyReorderState) : option CloseReasonWire := closed s.

Fixpoint push_all (s : FamilyReorderState) (ps : list DataPackage) :
    list FamilyPushOutcome * FamilyReorderState :=
  match ps with
  | [] => ([], s)
  | p :: ps =>
      let '(o, s') := push_package s p in
      let '(os, s'') := push_all s' ps in (o :: os, s'')
  end.

Definition delivered_by (o : FamilyPushOutcome) : list DataPackage :=
  match o with Deliver ps => ps | _ => [] end.

Definition delivered (os : list FamilyPushOutcome) : list DataPackage := os ≫= delivered_by.

(** ** Draining *)

(** [l] are the values of [arr] at [lo], [lo + 1], ... *)
Definition values_from {A} (arr : gmap Z A) (lo : Z) (l : list A) : Prop :=
  Forall2 (fun k x => arr !! k = Some x) (seqZ lo (Z.of_nat (length l))) l.

Lemma values_from_cons {A} (arr : gmap Z A) lo x l :
  arr !! lo = Some x -> values_from arr (lo + 1) l -> values_from arr lo (x :: l).
Proof.
  intros Hx Hl. unfold values_from. simpl length.
  rewrite seqZ_cons by lia. constructor; [done|].
  replace (Z.pred (Z.of_nat (S (length l)))) with (Z.of_nat (length l)) by lia.
  by replace (Z.succ lo) with (lo + 1) by lia.
Qed.

Lemma values_from_app {A} (arr : gmap Z A) lo l k :
  values_from arr lo l -> values_from arr (lo + Z.of_nat (length l)) k ->
  values_from arr lo (l ++ k).
Proof.
  unfold values_from. intros Hl Hk. rewrite length_app, Nat2Z.inj_add, seqZ_app by lia.
  by apply Forall2_app.
Qed.

Lemma values_from_mono {A} (arr arr' : gmap Z A) lo l :
  (forall k x, arr !! k = Some x -> arr' !! k = Some x) ->
  values_from arr lo l -> values_from arr' lo l.
Proof. intros Hm Hl. eapply Forall2_impl; [exact Hl|]. intros k x. apply Hm. Qed.

Lemma incr_small x : 0 <= x < U64_MAX -> incr x = x + 1.
Proof. intros Hx. unfold incr, as_u64. apply Z.mod_small. unfold U64_MAX in Hx. lia. Qed.

(** With enough fuel the loop takes the whole run at the frontier and stops at the
    first gap. *)
Lemma drain_spec {A} fuel nx (m : gmap Z A) :
  (size m < fuel)%nat -> 0 <= nx <= U64_MAX ->
  (forall k, is_Some (m !! k) -> 0 <= k < U64_MAX) ->
  let '(out, nx', m') := drain fuel nx m in
  values_from m nx out /\ nx' = nx + Z.of_nat (length out) /\ nx' <= U64_MAX /\ m' !! nx' = None
  /\ (forall k, m' !! k = if decide (nx <= k < nx') then None else m !! k).
Proof.
  revert nx m. induction fuel as [|fuel IH]; intros nx m Hf Hnx Hb; [lia|]. cbn [drain].
  destruct (m !! nx) as [x|] eqn:Ex.
  - assert (Hlt : 0 <= nx < U64_MAX) by eauto. rewrite incr_small by done.
    specialize (IH (nx + 1) (delete nx m)).
    rewrite map_size_delete_Some in IH by eauto.
    destruct (drain _ _ _) as [[out nx'] m'].
    destruct IH as (Hv & Hn & Hmax & Hnone & Hm'); [|lia| |].
    { assert (size m <> 0%nat) by (apply map_size_non_empty_iff; intros ->; done). lia. }
    { intros k. rewrite lookup_delete_is_Some. naive_solver. }
    split_and!; [|simpl; lia|done|done|].
    + apply values_from_cons; [done|]. eapply values_from_mono; [|exact Hv].
      intros k y Hk. by apply lookup_delete_Some in Hk as [_ Hk].
    + intros k. rewrite Hm'. destruct (decide (k = nx)) as [->|Hne].
      * rewrite decide_False, decide_True, lookup_delete_eq by lia. done.
      * rewrite lookup_delete_ne by done. repeat case_decide; done || lia.
  - split_and!; [constructor|simpl; lia|lia|done|].
    intros k. rewrite decide_False by lia. done.
Qed.

(** ** First arrivals: what a reordering component promises to hand out *)

(** The first value that arrived under each sequence number from [start] on. *)
Definition arrive {A} (start : Z) (arr : gmap Z A) (op : Z * A) : gmap Z A :=
  if (start <=? op.1) && bool_decide (arr !! op.1 = None) then <[op.1 := op.2]> arr else arr.

Definition arrivals {A} (start : Z) (ops : list (Z * A)) : gmap Z A := foldl (arrive start) ∅ ops.

(** [m] holds the arrivals from [nx] on, and everything below [nx] has arrived. *)
Record holds {A} (start nx : Z) (m arr : gmap Z A) : Prop := {
  holds_range : 0 <= start <= nx /\ nx <= U64_MAX;
  holds_keys : forall k, is_Some (arr !! k) -> start <= k < U64_MAX;
  holds_below : forall k, start <= k < nx -> is_Some (arr !! k);
  holds_pending : forall k, m !! k = if decide (nx <= k) then arr !! k else None
}.

(** [nx] is the first number that has not arrived. *)
Definition frontier {A} (start nx : Z) (m arr : gmap Z A) : Prop :=
  holds start nx m arr /\ arr !! nx = None.

Lemma drain_frontier {A} start nx (m arr : gmap Z A) :
  holds start nx m arr ->
  let '(out, nx', m') := drain (drain_fuel m) nx m in
  frontier start nx' m' arr /\ values_from arr nx out /\ nx' = nx + Z.of_nat (length out).
Proof.
  intros [Hr Hk Hb Hp].
  assert (Hsub : forall k x, m !! k = Some x -> arr !! k = Some x).
  { intros k x. rewrite Hp. by case_decide. }
  pose proof (drain_spec (drain_fuel m) nx m) as Hd. destruct (drain _ _ _) as [[out nx'] m'].
  destruct Hd as (Hv & Hn & Hmax & Hnone & Hm'); [unfold drain_fuel; lia|lia| |].
  { intros k [x Hx]. assert (start <= k < U64_MAX) by eauto. lia. }
  assert (Hv' : values_from arr nx out) by (by eapply values_from_mono).
  split_and!; [|done|done]. split; [split|].
  - lia.
  - done.
  - intros k Hlt. destruct (decide (k < nx)); [by apply Hb; lia|].
    unfold values_from in Hv'.
    destruct (lookup_lt_is_Some_2 (seqZ nx (Z.of_nat (length out))) (Z.to_nat (k - nx))) as [k' Hk'];
      [rewrite length_seqZ; lia|].
    apply lookup_seqZ in Hk' as Hk''.
    destruct (Forall2_lookup_l _ _ _ _ _ Hv' Hk') as (x & _ & Hx).
    exists x. rewrite <- Hx. f_equal. lia.
  - intros k. rewrite Hm', Hp. repeat case_decide; done || lia.
  - rewrite Hm' in Hnone. rewrite decide_False, Hp, decide_True in Hnone by lia. done.
Qed.

Lemma arrive_lookup {A} start (arr : gmap Z A) op k :
  arrive start arr op !! k
  = if decide (k = op.1 /\ start <= k /\ arr !! k = None) then Some op.2 else arr !! k.
Proof.
  unfold arrive. destruct (Z.leb_spec start op.1); simpl; [case_bool_decide|];
    case_decide; destruct (decide (k = op.1)) as [->|Hne]; simplify_map_eq; naive_solver lia.
Qed.

(** Storing an arrival that is at or above the frontier, or dropping another. *)
Lemma store_holds {A} start nx (m arr : gmap Z A) op :
  holds start nx m arr -> 0 <= op.1 < U64_MAX ->
  holds start nx (if (nx <=? op.1) && bool_decide (m !! op.1 = None) then <[op.1 := op.2]> m else m)
    (arrive start arr op).
Proof.
  intros [Hr Hk Hb Hp] Hop. split.
  - done.
  - intros k. rewrite arrive_lookup. case_decide; [lia|apply Hk].
  - intros k Hlt. rewrite arrive_lookup. case_decide; eauto.
  - intros k. rewrite arrive_lookup. destruct (decide (k = op.1)) as [->|Hne].
    + destruct (Z.leb_spec nx op.1) as [Hle|Hgt]; simpl.
      * rewrite Hp, !(decide_True (P := nx <= op.1)) by done.
        destruct (arr !! op.1) as [x|] eqn:E.
        -- rewrite bool_decide_eq_false_2, Hp, E by done.
           rewrite decide_True, decide_False by naive_solver. done.
        -- rewrite bool_decide_eq_true_2, lookup_insert_eq by done.
           rewrite decide_True by (split_and!; done || lia). done.
      * rewrite Hp, !(decide_False (P := nx <= op.1)) by lia. done.
    + rewrite (decide_False (P := k = op.1 /\ _)) by naive_solver.
      rewrite <- Hp. destruct (_ && _); [by rewrite lookup_insert_ne|done].
Qed.

Lemma arrive_mono {A} start (arr : gmap Z A) op k x :
  arr !! k = Some x -> arrive start arr op !! k = Some x.
Proof. intros Hk. rewrite arrive_lookup. case_decide; naive_solver. Qed.

Lemma arrivals_mono {A} start (arr : gmap Z A) ops k x :
  arr !! k = Some x -> foldl (arrive start) arr ops !! k = Some x.
Proof. revert arr. induction ops as [|op ops IH]; simpl; eauto using arrive_mono. Qed.

Lemma empty_frontier {A} start : 0 <= start <= U64_MAX -> frontier (A := A) start start ∅ ∅.
Proof.
  intros Hs. split; [split|done]; [lia|intros k; rewrite lookup_empty; intros [? [=]]|lia|].
  intros k. rewrite lookup_empty. by case_decide.
Qed.
