(* ===== verification/ReorderFacts.v ===== *)
(** What the reorder components guarantee: the buffer inverts the chunker under
    any arrival order, a family delivers first arrivals in order and completely
    while its window lasts, and its feedback is exact. *)
From Stdlib Require Import Sorted.
From S2P Require Import Prelude Numbers MeshWire Reorder.
Local Open Scope Z_scope.

(** ** First arrivals *)

Lemma arrivals_from {A} start (arr : gmap Z A) ops k x :
  foldl (arrive start) arr ops !! k = Some x -> arr !! k = Some x \/ (k, x) ∈ ops.
Proof.
  revert arr. induction ops as [|[k' y] ops IH]; intros arr; simpl; [auto|].
  intros [Ha|Hin]%IH; [|set_solver]. rewrite arrive_lookup in Ha. simpl in Ha.
  case_decide as Hc; [|auto]. destruct Hc as [-> _]. simplify_eq. set_solver.
Qed.

Lemma arrivals_complete {A} start (arr : gmap Z A) ops k x :
  start <= k -> (k, x) ∈ ops -> is_Some (foldl (arrive start) arr ops !! k).
Proof.
  intros Hk. revert arr. induction ops as [|op ops IH]; intros arr; [set_solver|].
  intros [<-|Hin]%elem_of_cons; [|by apply IH]. simpl.
  assert (is_Some (arrive start arr (k, x) !! k)) as [y Hy].
  { rewrite arrive_lookup. simpl. case_decide as Hc; [eauto|].
    destruct (arr !! k) eqn:E; [eauto|]. naive_solver. }
  exists y. by apply arrivals_mono.
Qed.

Lemma values_from_unique {A} (arr : gmap Z A) lo l k :
  length l = length k -> values_from arr lo l -> values_from arr lo k -> l = k.
Proof.
  unfold values_from. intros Hl Hvl Hvk. rewrite <- Hl in Hvk.
  apply list_eq. intros i. destruct (decide (i < length l)%nat) as [Hi|Hi].
  - destruct (lookup_lt_is_Some_2 l i Hi) as [x Hx].
    destruct (lookup_lt_is_Some_2 k i) as [y Hy]; [lia|].
    destruct (Forall2_lookup_r _ _ _ _ _ Hvl Hx) as (a & Ha & Hax).
    destruct (Forall2_lookup_r _ _ _ _ _ Hvk Hy) as (b & Hb & Hby). congruence.
  - by rewrite !lookup_ge_None_2 by lia.
Qed.

(** ** The reorder buffer *)

Lemma rb_insert_frontier start b (arr : gmap Z (list Z)) sq p :
  frontier start (next b) (pending b) arr -> 0 <= sq < U64_MAX ->
  let '(out, b') := rb_insert b sq p in
  frontier start (next b') (pending b') (arrive start arr (sq, p))
  /\ values_from (arrive start arr (sq, p)) (next b) out
  /\ next b' = next b + Z.of_nat (length out).
Proof.
  intros [Hh _] Hsq. unfold rb_insert.
  pose proof (store_holds start _ _ _ (sq, p) Hh Hsq) as Hh'. simpl in Hh'.
  pose proof (drain_frontier start (next b) _ _ Hh') as Hd.
  by destruct (drain _ _ _) as [[out nx'] m'].
Qed.

Lemma rb_run_frontier start b (arr : gmap Z (list Z)) ops :
  frontier start (next b) (pending b) arr -> Forall (fun op => 0 <= op.1 < U64_MAX) ops ->
  let '(out, b') := rb_run b ops in
  frontier start (next b') (pending b') (foldl (arrive start) arr ops)
  /\ values_from (foldl (arrive start) arr ops) (next b) out
  /\ next b' = next b + Z.of_nat (length out).
Proof.
  intros Hf Hops. revert b arr Hf. induction Hops as [|[sq p] ops Hsq _ IH]; intros b arr Hf; simpl.
  { split_and!; [done|constructor|simpl; lia]. }
  pose proof (rb_insert_frontier start b arr sq p Hf Hsq) as Hi.
  destruct (rb_insert b sq p) as [out b'] eqn:Ei. destruct Hi as (Hf' & Hv & Hn).
  specialize (IH b' _ Hf'). destruct (rb_run b' ops) as [outs b''].
  destruct IH as (Hf'' & Hvs & Hns). split_and!; [done| |rewrite length_app; lia].
  apply values_from_app; [|by rewrite <- Hn].
  eapply values_from_mono; [|exact Hv]. intros k x. apply arrivals_mono.
Qed.

(** The chunks a chunker makes of a list of payloads. *)
Fixpoint chunk_all (c : Chunker) (ps : list (list Z)) : list Chunk :=
  match ps with
  | [] => []
  | p :: ps => let '(ch, c') := next_frame c p in ch :: chunk_all c' ps
  end.

Definition chunk_op (c : Chunk) : Z * list Z := (chunk_seq c, chunk_payload c).

Lemma chunk_all_seq start ps :
  0 <= start -> start + Z.of_nat (length ps) <= U64_MAX ->
  chunk_op <$> chunk_all (chunker_new start) ps = zip (seqZ start (Z.of_nat (length ps))) ps.
Proof.
  revert start. induction ps as [|p ps IH]; intros start H0 Hb; simpl in *; [done|].
  rewrite seqZ_cons by lia. simpl. f_equal. rewrite incr_small by (unfold U64_MAX in *; lia).
  fold (chunker_new (start + 1)). rewrite IH by lia. f_equal. f_equal; lia.
Qed.

Lemma zip_seqZ_elem start (ps : list (list Z)) k x :
  (k, x) ∈ zip (seqZ start (Z.of_nat (length ps))) ps
  <-> start <= k /\ ps !! Z.to_nat (k - start) = Some x.
Proof.
  rewrite list_elem_of_lookup. split.
  - intros [i Hi]. apply lookup_zip_Some in Hi as [Hk Hx].
    apply lookup_seqZ in Hk as [-> Hi]. split; [lia|]. by replace (Z.to_nat _) with i by lia.
  - intros [Hk Hx]. exists (Z.to_nat (k - start)). apply lookup_zip_Some. split; [|done].
    apply lookup_lt_Some in Hx as Hlt. apply lookup_seqZ. lia.
Qed.

(** When exactly the values [ps] have arrived, numbered from [start], all of them
    are out and nothing is pending. *)
Lemma complete_frontier {A} start nx (m arr : gmap Z A) (ps out : list A) :
  frontier start nx m arr -> values_from arr start out -> nx = start + Z.of_nat (length out) ->
  (forall k x, arr !! k = Some x -> start <= k /\ ps !! Z.to_nat (k - start) = Some x) ->
  (forall k, start <= k < start + Z.of_nat (length ps) -> is_Some (arr !! k)) ->
  out = ps /\ nx = start + Z.of_nat (length ps) /\ m = ∅.
Proof.
  intros [Hh Hnone] Hv Hn Harr Hsome.
  assert (Hnx : nx = start + Z.of_nat (length ps)).
  { destruct Hh as [Hr _ Hbelow _].
    destruct (Z.lt_trichotomy nx (start + Z.of_nat (length ps))) as [Hlt|[|Hgt]]; [|done|].
    - destruct (Hsome nx) as [x Hx]; [lia|]. congruence.
    - destruct (Hbelow (start + Z.of_nat (length ps))) as [x Hx]; [lia|].
      apply Harr in Hx as [_ Hx%lookup_lt_Some]. lia. }
  split_and!; [|done|].
  - apply (values_from_unique arr start); [lia|done|].
    apply Forall2_same_length_lookup. split; [rewrite length_seqZ; lia|].
    intros i k x Hk Hx. apply lookup_seqZ in Hk as [-> Hi].
    destruct (Hsome (start + Z.of_nat i)) as [y Hy]; [lia|]. rewrite Hy. f_equal.
    apply Harr in Hy as [_ Hy]. replace (Z.to_nat _) with i in Hy by lia. congruence.
  - apply map_eq. intros k. rewrite lookup_empty, (holds_pending _ _ _ _ Hh).
    case_decide as Hk; [|done]. destruct (arr !! k) eqn:E; [|done].
    apply Harr in E as [_ E%lookup_lt_Some]. lia.
Qed.

(** The arrivals of operations that number [ps] from [start]. *)
Lemma numbered_arrivals {A} start (ps : list A) ops :
  (forall k x, (k, x) ∈ ops <-> start <= k /\ ps !! Z.to_nat (k - start) = Some x) ->
  (forall k x, arrivals start ops !! k = Some x ->
     start <= k /\ ps !! Z.to_nat (k - start) = Some x)
  /\ (forall k, start <= k < start + Z.of_nat (length ps) -> is_Some (arrivals start ops !! k)).
Proof.
  intros Hin. split.
  - intros k x [Hx|Hx]%arrivals_from; [by rewrite lookup_empty in Hx|]. by apply Hin.
  - intros k Hk. destruct (lookup_lt_is_Some_2 ps (Z.to_nat (k - start))) as [x Hx]; [lia|].
    apply (arrivals_complete start ∅ ops k x); [lia|]. apply Hin. split; [lia|done].
Qed.

Lemma reorder_all start ps ops :
  0 <= start -> start + Z.of_nat (length ps) <= U64_MAX ->
  (forall k x, (k, x) ∈ ops <-> (k, x) ∈ zip (seqZ start (Z.of_nat (length ps))) ps) ->
  let '(out, b) := rb_run (rb_new start) ops in
  out = ps /\ next b = start + Z.of_nat (length ps) /\ pending b = ∅.
Proof.
  intros H0 Hb Hops. setoid_rewrite zip_seqZ_elem in Hops.
  assert (Hrange : Forall (fun op : Z * list Z => 0 <= op.1 < U64_MAX) ops).
  { apply Forall_forall. intros [k x] [Hk Hx%lookup_lt_Some]%Hops. simpl. lia. }
  pose proof (rb_run_frontier start (rb_new start) ∅ ops
    (empty_frontier start ltac:(lia)) Hrange) as Hr.
  destruct (rb_run _ ops) as [out b]. destruct Hr as (Hf & Hv & Hn).
  destruct (numbered_arrivals start ps ops Hops) as [Harr Hsome].
  by apply (complete_frontier start _ _ (arrivals start ops)).
Qed.

(** whatever order a chunker's chunks arrive in, and however often each is
    repeated, the reorder buffer hands out exactly the chunked payloads, in order,
    and ends empty. *)
Theorem reorder_inverts_chunker (start : Z) (ps : list (list Z)) (arrived : list Chunk)
    (H0 : 0 <= start) (Hb : start + Z.of_nat (length ps) <= U64_MAX)
    (Harr : forall c, c ∈ arrived <-> c ∈ chunk_all (chunker_new start) ps) :
  let '(out, b) := rb_run (rb_new start) (chunk_op <$> arrived) in
  out = ps /\ next_expected b = start + Z.of_nat (length ps) /\ pending_count b = 0%nat.
Proof.
  pose proof (reorder_all start ps (chunk_op <$> arrived) H0 Hb) as Hr.
  destruct (rb_run _ _) as [out b]. destruct Hr as (-> & Hn & Hp).
  { intros k x. rewrite <- chunk_all_seq, !list_elem_of_fmap by done.
    split; intros (c & Hc & Hin); exists c; (split; [done|]); by apply Harr. }
  unfold next_expected, pending_count. rewrite Hn, Hp, map_size_empty. done.
Qed.

Lemma reorder_inverts_chunker_witness :
  let ps := [[1; 2]; [3]; [4]] in
  let '(out, b) := rb_run (rb_new 5)
    (chunk_op <$> [mkChunk 7 [4]; mkChunk 5 [1; 2]; mkChunk 7 [4]; mkChunk 6 [3]]) in
  out = ps /\ next_expected b = 5 + Z.of_nat (length ps) /\ pending_count b = 0%nat.
Proof.
  apply (reorder_inverts_chunker 5 [[1; 2]; [3]; [4]]); [lia|vm_compute; discriminate|].
  intros c. change (chunk_all (chunker_new 5) [[1; 2]; [3]; [4]])
    with [mkChunk 5 [1; 2]; mkChunk 6 [3]; mkChunk 7 [4]]. set_solver.
Defined.

(** ** The family state *)

Definition package_op (p : DataPackage) : Z * DataPackage := (seq p, p).

Record family_inv (start : Z) (s : FamilyReorderState) (arr : gmap Z DataPackage) : Prop := {
  fam_frontier : frontier start (next_expected_seq s) (buffer s) arr;
  fam_bits : fam_bitmap s = rebuild_bitmap (next_expected_seq s) (buffer s);
  fam_window : forall k, is_Some (buffer s !! k) -> k - next_expected_seq s < window s;
  fam_highest : forall k, is_Some (buffer s !! k) -> exists h, highest_seen s = Some h /\ k <= h;
  fam_seqs : forall k p, arr !! k = Some p -> seq p = k
}.

Lemma family_new_inv id start w d :
  0 <= start <= U64_MAX -> family_inv start (family_new id start w d) ∅.
Proof.
  intros Hs. split; simpl; [by apply empty_frontier|done| | |];
    intros k; rewrite lookup_empty; [intros [? [=]]..|intros p [=]].
Qed.

(** Nothing is stored for a number below the start or that has arrived. *)
Lemma arrive_old {A} start (arr : gmap Z A) op :
  op.1 < start \/ is_Some (arr !! op.1) -> arrive start arr op = arr.
Proof.
  intros Hold. unfold arrive. destruct (Z.leb_spec start op.1); simpl; [|done].
  destruct Hold as [|[x Hx]]; [lia|]. by rewrite bool_decide_eq_false_2 by congruence.
Qed.

Lemma arrive_seqs start arr p :
  (forall k q, arr !! k = Some q -> seq q = k) ->
  forall k q, arrive start arr (package_op p) !! k = Some q -> seq q = k.
Proof.
  intros Hs k q. rewrite arrive_lookup. case_decide as Hc; [|apply Hs].
  destruct Hc as [-> _]. simpl. intros [= <-]. done.
Qed.

(** Delivering the package at the frontier and the run it completes. *)
Lemma deliver_frontier start nx (m arr : gmap Z DataPackage) p :
  frontier start nx m arr -> seq p = nx -> nx < U64_MAX ->
  let '(more, nx', m') := drain (drain_fuel m) (incr nx) m in
  frontier start nx' m' (arrive start arr (package_op p))
  /\ values_from (arrive start arr (package_op p)) nx (p :: more)
  /\ nx' = nx + Z.of_nat (length (p :: more))
  /\ (forall k, is_Some (m' !! k) -> is_Some (m !! k)).
Proof.
  intros [[Hr Hk Hb Hp] Hnone] Hp' Hmax.
  assert (Hat : forall k, arrive start arr (package_op p) !! k
                 = if decide (k = nx) then Some p else arr !! k).
  { intros k. rewrite arrive_lookup. simpl. rewrite Hp'.
    destruct (decide (k = nx)) as [->|]; [|rewrite decide_False by tauto; done].
    rewrite decide_True; [done|]. split_and!; done || lia. }
  assert (Hh : holds start (nx + 1) m (arrive start arr (package_op p))).
  { split; [lia|..].
    - intros k. rewrite Hat. case_decide; [lia|apply Hk].
    - intros k Hlt. rewrite Hat. case_decide; [eauto|apply Hb; lia].
    - intros k. rewrite Hp, Hat. repeat case_decide; subst; try done; try lia.
      by replace k with (seq p) by lia. }
  rewrite incr_small by lia. pose proof (drain_frontier _ _ _ _ Hh) as Hd.
  destruct (drain _ _ _) as [[more nx'] m']. destruct Hd as (Hf & Hv & Hn).
  split_and!; [done| |simpl length; lia|].
  - apply values_from_cons; [|done]. by rewrite Hat, decide_True.
  - intros k. rewrite (holds_pending _ _ _ _ (proj1 Hf)), Hp, Hat.
    repeat case_decide; subst; try lia; try done; by intros [? [=]].
Qed.

Lemma family_step start s arr p :
  family_inv start s arr -> closed s = None -> 0 <= seq p < U64_MAX ->
  let '(o, s') := push_package s p in
  (closed s' = None /\ family_inv start s' (arrive start arr (package_op p))
   /\ values_from (arrive start arr (package_op p)) (next_expected_seq s) (delivered_by o)
   /\ next_expected_seq s' = next_expected_seq s + Z.of_nat (length (delivered_by o)))
  \/ (closed s' <> None /\ family_inv start s' arr
      /\ (exists a, o = WindowOverflow a) /\ next_expected_seq s' = next_expected_seq s
      /\ window s <= seq p - next_expected_seq s).
Proof.
  intros [Hf Hbits Hwin Hhi Hseqs] Hcl Hsq. unfold push_package.
  rewrite Hcl, bool_decide_eq_false_2 by (by intros [? [=]]). cbv zeta.
  destruct (Z.ltb_spec (seq p) (next_expected_seq s)) as [Hlt|Hge]; cbn [orb].
  { left. destruct Hf as [Hh Hnone]. rewrite arrive_old.
    - split_and!; [done|by split|constructor|simpl; lia].
    - simpl. destruct (decide (seq p < start)); [by left|right].
      apply (holds_below _ _ _ _ Hh). lia. }
  case_bool_decide as Hin.
  { left. destruct Hf as [Hh Hnone]. rewrite arrive_old.
    - split_and!; [done|by split|constructor|simpl; lia].
    - right. simpl. destruct Hin as [x Hx]. rewrite (holds_pending _ _ _ _ Hh) in Hx.
      case_decide; [eauto|done]. }
  destruct (Z.eqb_spec (seq p) (next_expected_seq s)) as [Heq|Hne].
  { pose proof (deliver_frontier start _ _ _ p Hf Heq ltac:(lia)) as Hd.
    destruct (drain _ _ _) as [[more nx'] m']. destruct Hd as (Hf' & Hv & Hn & Hsub).
    left. split_and!; [done| |done|done]. unfold window in *. simpl in Hn.
    split; simpl; [done|done| |by auto|by eapply arrive_seqs].
    intros k Hk%Hsub%Hwin. unfold window in *. simpl. lia. }
  destruct (Z.leb_spec (window s) (seq p - next_expected_seq s)) as [Hover|Hfit].
  { right. split_and!; [done|by split|eauto|done|done]. }
  destruct Hf as [Hh Hnone].
  pose proof (store_holds start _ _ _ (package_op p) Hh Hsq) as Hh'. simpl in Hh'.
  rewrite (proj2 (Z.leb_le _ _) Hge), bool_decide_eq_true_2 in Hh' by (by apply eq_None_not_Some).
  simpl in Hh'. set (hi := match highest_seen s with Some h => Z.max h (seq p) | None => seq p end).
  set (s' := mkFamily _ _ _ _ _ _ _ _).
  assert (Hs' : family_inv start s' (arrive start arr (package_op p))).
  { split; simpl; [|done| | |by eapply arrive_seqs].
    - split; [done|]. rewrite arrive_lookup, decide_False by (simpl; lia). done.
    - intros k. unfold window in *. simpl.
      rewrite lookup_insert_is_Some. intros [<-|[_ Hk%Hwin]]; lia.
    - intros k. rewrite lookup_insert_is_Some. intros Hk. exists hi. split; [done|]. unfold hi.
      destruct Hk as [<-|[_ (h & -> & Hle)%Hhi]]; [destruct (highest_seen s)|]; lia. }
  destruct (match highest_seen s with Some h => h <? seq p | None => true end);
    left; (split_and!; [done|done|constructor|simpl; lia]).
Qed.

(** ** Runs of a family *)

Lemma push_closed s p :
  closed s <> None -> push_package s p = (WindowOverflow (ack_snapshot s), s).
Proof.
  intros Hc. unfold push_package. destruct (closed s) eqn:E; [|done].
  by rewrite bool_decide_eq_true_2 by eauto.
Qed.

Lemma push_all_closed s ps :
  closed s <> None -> push_all s ps = (replicate (length ps) (WindowOverflow (ack_snapshot s)), s).
Proof.
  intros Hc. induction ps as [|p ps IH]; simpl; [done|].
  by rewrite push_closed, IH.
Qed.

Lemma push_window s p : window (push_package s p).2 = window s.
Proof.
  unfold push_package. repeat (case_bool_decide || case_match); by simplify_eq/=.
Qed.

Definition is_overflow (o : FamilyPushOutcome) : Prop := exists a, o = WindowOverflow a.

Definition first_arrivals (start : Z) (ps : list DataPackage) : gmap Z DataPackage :=
  arrivals start (package_op <$> ps).

Lemma delivered_overflow n a : delivered (replicate n (WindowOverflow a)) = [].
Proof. unfold delivered. induction n; simpl; auto. Qed.

Lemma family_run start s arr ps :
  family_inv start s arr -> closed s = None -> Forall (fun p => 0 <= seq p < U64_MAX) ps ->
  let '(os, s') := push_all s ps in
  exists k, (k <= length ps)%nat
    /\ family_inv start s' (foldl (arrive start) arr (package_op <$> take k ps))
    /\ values_from (foldl (arrive start) arr (package_op <$> take k ps))
         (next_expected_seq s) (delivered os)
    /\ next_expected_seq s' = next_expected_seq s + Z.of_nat (length (delivered os))
    /\ (closed s' = None -> k = length ps) /\ Forall is_overflow (drop k os).
Proof.
  intros Hinv Hcl Hps. revert s arr Hinv Hcl.
  induction Hps as [|p ps Hp _ IH]; intros s arr Hinv Hcl; simpl.
  { exists 0%nat. split_and!; [done|done|constructor|simpl; lia|done|constructor]. }
  pose proof (family_step start s arr p Hinv Hcl Hp) as Hstep.
  destruct (push_package s p) as [o s'].
  destruct Hstep as [(Hcl' & Hinv' & Hv & Hn)|(Hcl' & Hinv' & Ho & Hn & _)].
  - specialize (IH s' _ Hinv' Hcl'). destruct (push_all s' ps) as [os s''].
    destruct IH as (k & Hk & Hi & Hvs & Hns & Hc & Hov).
    exists (S k). split_and!; [simpl; lia|done| |simpl; rewrite length_app; lia|auto|done].
    simpl. apply values_from_app; [|by rewrite <- Hn].
    eapply values_from_mono; [|exact Hv]. intros j x. apply arrivals_mono.
  - rewrite push_all_closed by done. exists 0%nat. simpl. destruct Ho as [a ->]. simpl.
    change (replicate _ _ ≫= _) with (delivered (replicate (length ps) (WindowOverflow (ack_snapshot s')))).
    rewrite delivered_overflow.
    split_and!; [lia|done|constructor|simpl; lia|done|].
    constructor; [by exists a|]. apply Forall_replicate. by eexists.
Qed.

(** C9: for any packages pushed into a new family, in any order and with any
    duplicates, there is a point up to which the family works and after which it
    answers window overflow only. What it has delivered by then is, in order and
    without gaps from the start sequence, the first arrival of every number below
    the frontier; the frontier is the first number that has not arrived; and the
    buffer holds exactly the first arrivals above it. *)
Theorem family_delivers_first_arrivals (id : string) (start w d : Z) (ps : list DataPackage)
    (Hs : 0 <= start <= U64_MAX) (Hps : Forall (fun p => 0 <= seq p < U64_MAX) ps) :
  let '(os, s) := push_all (family_new id start w d) ps in
  exists k, (k <= length ps)%nat /\ (close_reason s = None -> k = length ps)
    /\ Forall is_overflow (drop k os)
    /\ values_from (first_arrivals start (take k ps)) start (delivered os)
    /\ next_expected_seq s = start + Z.of_nat (length (delivered os))
    /\ first_arrivals start (take k ps) !! next_expected_seq s = None
    /\ (forall n, buffer s !! n
          = if decide (next_expected_seq s <= n) then first_arrivals start (take k ps) !! n else None).
Proof.
  pose proof (family_run start _ ∅ ps (family_new_inv id start w d Hs) eq_refl Hps) as Hr.
  destruct (push_all _ ps) as [os s]. destruct Hr as (k & Hk & [[Hh Hnone] _ _ _ _] & Hv & Hn & Hc & Ho).
  exists k. split_and!; [done..|]. apply (holds_pending _ _ _ _ Hh).
Qed.

(** While every package lies within the window of the start sequence the family
    does not close. *)
Lemma family_stays_open start s arr ps :
  family_inv start s arr -> closed s = None ->
  Forall (fun p => 0 <= seq p < U64_MAX /\ seq p - start < window s) ps ->
  closed (push_all s ps).2 = None.
Proof.
  intros Hinv Hcl Hps. revert s arr Hinv Hcl Hps.
  induction ps as [|p ps IH]; intros s arr Hinv Hcl Hps; simpl; [done|].
  apply Forall_cons in Hps as [[Hp Hw] Hps].
  pose proof (family_step start s arr p Hinv Hcl Hp) as Hstep. pose proof (push_window s p) as Hpw.
  destruct (push_package s p) as [o s']. simpl in Hpw.
  destruct Hstep as [(Hcl' & Hinv' & _)|(_ & _ & _ & _ & Hover)].
  - specialize (IH s' _ Hinv' Hcl'). rewrite Hpw in IH.
    destruct (push_all s' ps). simpl in *. auto.
  - destruct (holds_range _ _ _ _ (proj1 (fam_frontier _ _ _ Hinv))). lia.
Qed.

Section Numbered.
Variables (start : Z) (sent : list DataPackage).
Hypothesis Hnum : seq <$> sent = seqZ start (Z.of_nat (length sent)).

Lemma sent_lookup i p : sent !! i = Some p -> seq p = start + Z.of_nat i.
Proof.
  intros Hi. apply (f_equal (fmap (M := option) seq)) in Hi.
  rewrite <- list_lookup_fmap, Hnum in Hi. apply lookup_seqZ in Hi as [-> _]. done.
Qed.

Lemma sent_elem p : p ∈ sent <-> start <= seq p /\ sent !! Z.to_nat (seq p - start) = Some p.
Proof.
  rewrite list_elem_of_lookup. split; [|naive_solver].
  intros [i Hi]. pose proof (sent_lookup i p Hi) as ->. split; [lia|].
  by replace (Z.to_nat _) with i by lia.
Qed.

Lemma sent_ops (arrived : list DataPackage) :
  (forall p, p ∈ arrived <-> p ∈ sent) ->
  forall n p, (n, p) ∈ package_op <$> arrived
    <-> start <= n /\ sent !! Z.to_nat (n - start) = Some p.
Proof.
  intros Harr n p. rewrite list_elem_of_fmap. unfold package_op. split.
  - intros (q & [= -> ->] & Hq). by apply sent_elem, Harr.
  - intros [Hle Hp]. pose proof (sent_lookup _ _ Hp). exists p. split; [f_equal; lia|].
    apply Harr. by eapply list_elem_of_lookup_2.
Qed.

Lemma sent_in_window id w d (arrived : list DataPackage) :
  0 <= start -> start + Z.of_nat (length sent) <= U64_MAX ->
  Z.of_nat (length sent) <= Z.min w FAMILY_BITMAP_BITS ->
  (forall p, p ∈ arrived <-> p ∈ sent) ->
  Forall (fun p => 0 <= seq p < U64_MAX /\ seq p - start < window (family_new id start w d)) arrived.
Proof.
  intros Hs Hmax Hw Harr. apply Forall_forall. intros p [Hp Hl%lookup_lt_Some]%Harr%sent_elem.
  unfold window. simpl. lia.
Qed.
End Numbered.

(** packages numbered consecutively from the start sequence, no more of them
    than the reorder window, are all delivered exactly once and in order, whatever
    order they arrive in and however often each is repeated, and the family stays
    open. *)
Theorem family_delivers_all_within_window (id : string) (start w d : Z)
    (sent arrived : list DataPackage)
    (Hs : 0 <= start) (Hmax : start + Z.of_nat (length sent) <= U64_MAX)
    (Hw : Z.of_nat (length sent) <= Z.min w FAMILY_BITMAP_BITS)
    (Hnum : seq <$> sent = seqZ start (Z.of_nat (length sent)))
    (Harr : forall p, p ∈ arrived <-> p ∈ sent) :
  let '(os, s) := push_all (family_new id start w d) arrived in
  delivered os = sent /\ close_reason s = None.
Proof.
  assert (Hs' : 0 <= start <= U64_MAX) by lia.
  pose proof (family_new_inv id start w d Hs') as Hnew.
  pose proof (sent_in_window start sent Hnum id w d arrived Hs Hmax Hw Harr) as Hin.
  pose proof (family_stays_open start _ ∅ arrived Hnew eq_refl Hin) as Hopen.
  pose proof (family_run start _ ∅ arrived Hnew eq_refl
    (Forall_impl _ _ _ Hin (fun p H => proj1 H))) as Hr.
  destruct (push_all _ arrived) as [os s]. destruct Hr as (k & Hk & Hinv & Hv & Hn & Hc & _).
  split; [|done]. rewrite (Hc Hopen), firstn_all in Hinv, Hv.
  destruct (numbered_arrivals start sent _ (sent_ops start sent Hnum arrived Harr)) as [Ha Hsome].
  eapply complete_frontier; [apply (fam_frontier _ _ _ Hinv)|done|done|done|done].
Qed.

(** ** Feedback *)

Definition covered (rs : list SeqRange) (s : Z) : Prop :=
  exists r, r ∈ rs /\ MeshWire.start r <= s <= end_ r.

(** Non-empty ranges in ascending order, with at least one number between two. *)
Definition ranges_ok (rs : list SeqRange) : Prop :=
  Forall (fun r => MeshWire.start r <= end_ r) rs
  /\ StronglySorted (fun r1 r2 => end_ r1 + 1 < MeshWire.start r2) rs.

Section Missing.
Variables (buf : gmap Z DataPackage) (b : Z).

Record loop_inv (lo : Z) (rs : option Z) (acc : list SeqRange) : Prop := {
  li_bound : b <= default lo rs <= lo;
  li_open : forall st, rs = Some st -> st < lo;
  li_run : forall s, default lo rs <= s < lo -> buf !! s = None;
  li_cover : forall s, covered acc s <-> b <= s < default lo rs /\ buf !! s = None;
  li_ranges : ranges_ok acc;
  li_ends : Forall (fun r => end_ r + 1 < default lo rs) acc
}.

Lemma covered_snoc acc st e s :
  covered (acc ++ [mkSeqRange st e]) s <-> covered acc s \/ st <= s <= e.
Proof.
  unfold covered. split.
  - intros (r & [Hr| ->%list_elem_of_singleton]%elem_of_app & Hs); [left; eauto|by right].
  - intros [(r & Hr & Hs)|Hs]; [|exists (mkSeqRange st e); set_solver].
    exists r. set_solver.
Qed.

Lemma ranges_snoc acc st e :
  ranges_ok acc -> Forall (fun r => end_ r + 1 < st) acc -> st <= e ->
  ranges_ok (acc ++ [mkSeqRange st e]).
Proof.
  intros [Hne Hs] Hends He. split.
  - apply Forall_app. split; [done|]. by repeat constructor.
  - clear Hne. induction Hs as [|r acc Hs IH Hall]; simpl; [by repeat constructor|].
    apply Forall_cons in Hends as [Hr Hends]. constructor; [auto|].
    apply Forall_app. split; [done|]. by repeat constructor.
Qed.

Lemma loop_step lo rs acc :
  loop_inv lo rs acc ->
  let '(rs', acc') :=
    if bool_decide (is_Some (buf !! lo)) then
      match rs with Some st => (None, acc ++ [mkSeqRange st (lo - 1)]) | None => (None, acc) end
    else match rs with None => (Some lo, acc) | Some st => (Some st, acc) end in
  loop_inv (lo + 1) rs' acc'.
Proof.
  intros [Hb Ho Hrun Hc Hr He]. case_bool_decide as Hin; destruct rs as [st|]; simpl in *.
  - specialize (Ho st eq_refl). split; simpl; [lia|done|lia| | |].
    + intros s. rewrite covered_snoc, Hc. split.
      * intros [[Hs Hn]|Hs]; [split; [lia|done]|]. split; [lia|apply Hrun; lia].
      * intros [Hs Hn]. destruct (decide (s = lo)) as [->|]; [rewrite Hn in Hin; by destruct Hin|].
        destruct (decide (s < st)); [left; split; [lia|done]|right; lia].
    + apply ranges_snoc; [done|done|lia].
    + apply Forall_app. split; [|repeat constructor; simpl; lia].
      eapply Forall_impl; [exact He|]. simpl. lia.
  - split; simpl; [lia|done|lia| |done|eapply Forall_impl; [exact He|]; simpl; lia].
    intros s. rewrite Hc. split; intros [Hs Hn]; (split; [|done]); [lia|].
    destruct (decide (s = lo)) as [->|]; [rewrite Hn in Hin; by destruct Hin|lia].
  - specialize (Ho st eq_refl). split; simpl; [lia|intros ? [= <-]; lia| |done|done|done].
    intros s Hs. destruct (decide (s = lo)) as [->|]; [by apply eq_None_not_Some|apply Hrun; lia].
  - split; simpl; [lia|intros ? [= <-]; lia| |done|done|done].
    intros s Hs. replace s with lo by lia. by apply eq_None_not_Some.
Qed.

Lemma missing_loop_inv n lo rs acc :
  loop_inv lo rs acc ->
  let '(rs', acc') := missing_loop buf (seqZ lo (Z.of_nat n)) rs acc in
  loop_inv (lo + Z.of_nat n) rs' acc'.
Proof.
  revert lo rs acc. induction n as [|n IH]; intros lo rs acc Hi.
  { change (seqZ lo (Z.of_nat 0)) with (@nil Z). cbn [missing_loop Z.of_nat].
    by rewrite Z.add_0_r. }
  rewrite seqZ_cons by lia. cbn [missing_loop].
  replace (Z.pred (Z.of_nat (S n))) with (Z.of_nat n) by lia.
  replace (lo + Z.of_nat (S n)) with (lo + 1 + Z.of_nat n) by lia.
  replace (Z.succ lo) with (lo + 1) by lia.
  pose proof (loop_step lo rs acc Hi) as Hs.
  case_bool_decide; destruct rs; by apply IH.
Qed.

Lemma missing_of_spec hi :
  let rs := missing_of b (Some hi) buf in
  (forall s, covered rs s <-> b <= s <= hi /\ buf !! s = None) /\ ranges_ok rs.
Proof.
  intros rs. subst rs. unfold missing_of.
  assert (Hinit : loop_inv b None []).
  { split; simpl; [lia|done|lia| |split; constructor|constructor].
    intros s. split; [intros (r & Hr & _); set_solver|lia]. }
  destruct (decide (hi - b + 1 <= 0)) as [Hempty|Hne].
  { unfold seqZ. rewrite Z2Nat.nonpos by done. simpl. split; [|split; constructor].
    intros s. split; [intros (r & Hr & _); set_solver|lia]. }
  replace (hi - b + 1) with (Z.of_nat (Z.to_nat (hi - b + 1))) by lia.
  pose proof (missing_loop_inv (Z.to_nat (hi - b + 1)) b None [] Hinit) as Hl.
  destruct (missing_loop _ _ _ _) as [rs acc]. destruct Hl as [Hb Ho Hrun Hc Hr He].
  replace (b + Z.of_nat (Z.to_nat (hi - b + 1))) with (hi + 1) in * by lia.
  destruct rs as [st|]; simpl in *.
  - specialize (Ho st eq_refl). split; [|apply ranges_snoc; [done|done|lia]].
    intros s. rewrite covered_snoc, Hc. split.
    + intros [[Hs Hn]|Hs]; [split; [lia|done]|split; [lia|apply Hrun; lia]].
    + intros [Hs Hn]. destruct (decide (s < st)); [left; split; [lia|done]|right; lia].
  - split; [|done]. intros s. rewrite Hc. split; intros [Hs Hn]; split; done || lia.
Qed.
End Missing.

(** Bit [d] of the bitmap is set exactly when [next + d] is buffered. *)
Lemma bitmap_fold nx ks bits d :
  0 <= d -> 0 <= nx -> Forall (fun k => nx <= k <= U64_MAX) ks ->
  Z.testbit (foldl (fun bits k =>
      let d := as_u64 (k - nx) in
      if d <? FAMILY_BITMAP_BITS then Z.lor bits (Z.shiftl 1 d) else bits) bits ks) d
  = Z.testbit bits d || bool_decide (d < FAMILY_BITMAP_BITS /\ nx + d ∈ ks).
Proof.
  intros Hd Hnx Hks. revert bits. induction Hks as [|k ks Hk Hks IH]; intros bits; simpl.
  { rewrite bool_decide_eq_false_2 by set_solver. by rewrite orb_false_r. }
  rewrite IH. assert (Hw : as_u64 (k - nx) = k - nx)
    by (apply Z.mod_small; unfold U64_MAX in Hk; lia). rewrite Hw.
  destruct (Z.ltb_spec (k - nx) FAMILY_BITMAP_BITS) as [Hlt|Hge].
  - rewrite Z.lor_spec, Z.shiftl_1_l, Z.pow2_bits_eqb, <- orb_assoc by lia. f_equal.
    destruct (Z.eqb_spec (k - nx) d); simpl.
    + symmetry. apply bool_decide_eq_true_2. split; [lia|]. apply elem_of_cons. left. lia.
    + apply bool_decide_ext. rewrite elem_of_cons. split; [tauto|].
      intros [? [?|?]]; [lia|done].
  - f_equal. apply bool_decide_ext. rewrite elem_of_cons. split; [tauto|].
    intros [? [?|?]]; [lia|done].
Qed.

Lemma bitmap_spec nx (buf : gmap Z DataPackage) d :
  0 <= d -> 0 <= nx -> (forall k, is_Some (buf !! k) -> nx <= k <= U64_MAX) ->
  Z.testbit (rebuild_bitmap nx buf) d
  = bool_decide (d < FAMILY_BITMAP_BITS /\ is_Some (buf !! (nx + d))).
Proof.
  intros Hd Hnx Hb. unfold rebuild_bitmap.
  assert (Hk : forall k, k ∈ (map_to_list buf).*1 <-> is_Some (buf !! k)).
  { intros k. rewrite list_elem_of_fmap. split.
    - intros ([k' x] & -> & Hin%elem_of_map_to_list). eauto.
    - intros [x Hx]. exists (k, x). split; [done|]. by apply elem_of_map_to_list. }
  rewrite bitmap_fold; [|done|done|].
  - rewrite Z.bits_0. simpl. apply bool_decide_ext. by rewrite Hk.
  - apply Forall_forall. intros k Hin. by apply Hb, Hk.
Qed.

Lemma family_ack start s arr :
  family_inv start s arr ->
  (forall n, covered (missing_ranges (ack_snapshot s)) n
     <-> exists h, highest_seen s = Some h /\ next_expected_seq s <= n <= h /\ buffer s !! n = None)
  /\ ranges_ok (missing_ranges (ack_snapshot s))
  /\ cumulative_seq (ack_snapshot s) = next_expected_seq s
  /\ (forall d, 0 <= d < FAMILY_BITMAP_BITS ->
        Z.testbit (fam_bitmap s) d = bool_decide (is_Some (buffer s !! (next_expected_seq s + d))))
  /\ (forall n, is_Some (buffer s !! n) ->
        next_expected_seq s < n < next_expected_seq s + window s
        /\ exists h, highest_seen s = Some h /\ n <= h).
Proof.
  intros [[Hh Hnone] Hbits Hwin Hhi _]. pose proof (holds_range _ _ _ _ Hh) as Hr.
  assert (Hbuf : forall k, is_Some (buffer s !! k) -> next_expected_seq s < k < U64_MAX).
  { intros k Hk. destruct Hk as [x Hx]. rewrite (holds_pending _ _ _ _ Hh) in Hx.
    case_decide; [|done]. assert (k <> next_expected_seq s) by congruence.
    assert (start <= k < U64_MAX) by (apply (holds_keys _ _ _ _ Hh); eauto). lia. }
  unfold ack_snapshot. simpl. split_and!.
  - destruct (highest_seen s) as [h|].
    + intros n. rewrite (proj1 (missing_of_spec (buffer s) (next_expected_seq s) h)). naive_solver.
    + intros n. split; [intros (r & Hin & _); set_solver|naive_solver].
  - destruct (highest_seen s) as [h|]; [apply missing_of_spec|split; constructor].
  - done.
  - intros d Hd. rewrite Hbits, bitmap_spec; [|lia|lia|].
    + apply bool_decide_ext. naive_solver lia.
    + intros k Hk. specialize (Hbuf k Hk). lia.
  - intros n Hn. specialize (Hbuf n Hn). specialize (Hwin n Hn). split; [lia|auto].
Qed.

(** the feedback of a family is exact in every reachable state: the missing
    ranges are ascending, disjoint and maximal and cover exactly the numbers from
    the frontier to the highest seen that are not buffered, the cumulative number
    is the frontier, bit [d] of the bitmap says whether [frontier + d] is
    buffered, and everything buffered lies strictly inside the reorder window. *)
Theorem family_feedback_exact (id : string) (start w d : Z) (ps : list DataPackage)
    (Hs : 0 <= start <= U64_MAX) (Hps : Forall (fun p => 0 <= seq p < U64_MAX) ps) :
  let s := (push_all (family_new id start w d) ps).2 in
  (forall n, covered (missing_ranges (ack_snapshot s)) n
     <-> exists h, highest_seen s = Some h /\ next_expected_seq s <= n <= h /\ buffer s !! n = None)
  /\ ranges_ok (missing_ranges (ack_snapshot s))
  /\ cumulative_seq (ack_snapshot s) = next_expected_seq s
  /\ (forall d, 0 <= d < FAMILY_BITMAP_BITS ->
        Z.testbit (fam_bitmap s) d = bool_decide (is_Some (buffer s !! (next_expected_seq s + d))))
  /\ (forall n, is_Some (buffer s !! n) ->
        next_expected_seq s < n < next_expected_seq s + window s
        /\ exists h, highest_seen s = Some h /\ n <= h).
Proof.
  pose proof (family_run start _ ∅ ps (family_new_inv id start w d Hs) eq_refl Hps) as Hr.
  destruct (push_all _ ps) as [os s]. destruct Hr as (k & _ & Hinv & _).
  by eapply family_ack.
Qed.

(** ** A family of four packages, arriving as 3, 1, 3, 0 *)

Module DemoFamily.
Definition pkg (n : Z) : DataPackage := mkDataPackage "p" n 0 1 0 1 [n].
Definition arrived : list DataPackage := pkg <$> [3; 1; 3; 0; 2].

Lemma in_range : Forall (fun p => 0 <= seq p < U64_MAX) arrived.
Proof. apply (bool_decide_unpack _). vm_compute. exact I. Qed.
End DemoFamily.

Lemma family_delivers_first_arrivals_witness :
  let '(os, s) := push_all (family_new "f" 0 16 0) DemoFamily.arrived in
  delivered os = DemoFamily.pkg <$> [0; 1; 2; 3]
  /\ exists k, values_from (first_arrivals 0 (take k DemoFamily.arrived)) 0 (delivered os).
Proof.
  pose proof (family_delivers_first_arrivals "f" 0 16 0 DemoFamily.arrived
                ltac:(unfold U64_MAX; lia) DemoFamily.in_range) as H.
  destruct (push_all _ _) as [os s] eqn:E. vm_compute in E. injection E as <- <-.
  destruct H as (k & _ & _ & _ & Hv & _). split; [reflexivity|]. exists k. exact Hv.
Defined.

Lemma family_delivers_all_within_window_witness :
  let '(os, s) := push_all (family_new "f" 0 16 0) DemoFamily.arrived in
  delivered os = DemoFamily.pkg <$> [0; 1; 2; 3] /\ close_reason s = None.
Proof.
  apply (family_delivers_all_within_window "f" 0 16 0 (DemoFamily.pkg <$> [0; 1; 2; 3]));
    [lia|vm_compute; discriminate|vm_compute; discriminate|reflexivity|].
  intros p. unfold DemoFamily.arrived. rewrite !list_elem_of_fmap.
  split; intros (n & -> & Hn); exists n; set_solver.
Defined.

Lemma family_feedback_exact_witness :
  let s := (push_all (family_new "f" 0 16 0) (take 3 DemoFamily.arrived)).2 in
  missing_ranges (ack_snapshot s) = [mkSeqRange 0 0; mkSeqRange 2 2]
  /\ ranges_ok (missing_ranges (ack_snapshot s)).
Proof.
  assert (Hin : Forall (fun p => 0 <= seq p < U64_MAX) (take 3 DemoFamily.arrived))
    by (apply Forall_take, DemoFamily.in_range).
  split; [vm_compute; reflexivity|].
  apply (family_feedback_exact "f" 0 16 0 _ ltac:(unfold U64_MAX; lia) Hin).
Defined.
