(* ===== verification/MeshSec.v ===== *)
(** The MeshSec secure envelope (lib/mb-proto-mesh/src/meshsec.rs): header codec,
    padding, key schedule, sealing and opening with the replay window. The
    cryptographic primitives (HKDF, HMAC, XChaCha20-Poly1305) are a class of
    parameters with the laws the envelope relies on. *)
From S2P Require Import Prelude Numbers MeshWire Endpoint MeshCodec Replay.
Local Open Scope Z_scope.

Definition MESHSEC_VERSION_V1 : Z := 1.
Definition MESHSEC_HEADER_LEN : nat := 22.
Definition MESHSEC_TAG_LEN : nat := 16.
Definition MESHSEC_FIXED_OVERHEAD : nat := 38.
Definition MESHSEC_RECEIVER_HINT_LEN : nat := 8.
Definition MESHSEC_BOOT_SALT_LEN : nat := 4.
Definition MESHSEC_EPOCH_SECONDS : Z := 600.
Definition MESHSEC_REPLAY_WINDOW_BITS : Z := 1024.
Definition MESHSEC_PADDING_BUCKETS : list nat := [128; 384; 1024]%nat.
Definition MESHSEC_MAX_CLEAR_LEN : nat := 1022.

Inductive MeshSecError :=
| Truncated
| MsUnsupportedVersion (v : Z)
| PayloadTooLarge
| Auth
| MsReplay
| MsReplayTooOld
| Serialize (s : string).

(** The replay cache's errors, as the envelope reports them. *)
Definition of_replay (e : ReplayError) : MeshSecError :=
  match e with Replay.Replay => MsReplay | ReplayTooOld => MsReplayTooOld end.

Record MeshSecEnvelopeHeader := mkHeader {
  version_flags : Z;
  receiver_hint : list Z;
  epoch_low : Z;
  boot_salt : list Z;
  counter : Z
}.

Record MeshSecSealContext := mkSealContext {
  local_node_id : string;
  remote_node_id : string;
  static_key : list Z;
  ctx_boot_salt : list Z
}.

Record MeshSecOpenKey := mkOpenKey {
  peer_id : string;
  key_remote_node_id : string;
  key_static_key : list Z
}.

(** ** Header and padding *)

Definition encode_meshsec_header (h : MeshSecEnvelopeHeader) (out : list Z) : list Z :=
  out ++ [version_flags h] ++ receiver_hint h ++ [epoch_low h] ++ boot_salt h
  ++ to_le_bytes 8 (counter h).

(** [packet[a..b]] *)
Definition slice (a b : nat) (l : list Z) : list Z := take (b - a) (drop a l).

Definition decode_meshsec_header (packet : list Z) : result MeshSecEnvelopeHeader MeshSecError :=
  if (length packet <? MESHSEC_FIXED_OVERHEAD)%nat then Err Truncated
  else
    let version := packet !!! 0%nat in
    if negb (version =? MESHSEC_VERSION_V1) then Err (MsUnsupportedVersion version)
    else Ok (mkHeader version (slice 1 9 packet) (packet !!! 9%nat) (slice 10 14 packet)
               (from_le_bytes (slice 14 22 packet))).

(** The addition's [checked_add] cannot fail on a [nat]; a length is below 2^63. *)
Definition meshsec_bucket_len (clear_len : nat) : result nat MeshSecError :=
  let needed := (clear_len + 2)%nat in
  match list_find (fun b => needed <= b)%nat MESHSEC_PADDING_BUCKETS with
  | Some (_, b) => Ok b
  | None => Err PayloadTooLarge
  end.

Definition pack_meshsec_plaintext (clear : list Z) : result (list Z) MeshSecError :=
  if (MESHSEC_MAX_CLEAR_LEN <? length clear)%nat then Err PayloadTooLarge
  else
    let? bucket := meshsec_bucket_len (length clear) in
    Ok (to_be_bytes 2 (as_u16 (Z.of_nat (length clear))) ++ clear
        ++ replicate (bucket - 2 - length clear) 0).

Definition unpack_meshsec_plaintext (plain : list Z) : result (list Z) MeshSecError :=
  if (length plain <? 2)%nat then Err Truncated
  else
    let real := Z.to_nat (from_be_bytes [plain !!! 0%nat; plain !!! 1%nat]) in
    if (length plain <? 2 + real)%nat then Err Truncated
    else Ok (slice 2 (2 + real) plain).

(** ** Cryptography *)

(** [hkdf_sha256_32], [hmac_sha256] and the cipher's [encrypt] and [decrypt] (key,
    nonce, message, additional data). *)
Class MeshCrypto := {
  hkdf_sha256_32 : option (list Z) -> list Z -> list Z -> list Z;
  hmac_sha256 : list Z -> list Z -> list Z;
  aead_encrypt : list Z -> list Z -> list Z -> list Z -> option (list Z);
  aead_decrypt : list Z -> list Z -> list Z -> list Z -> option (list Z)
}.

Class MeshCryptoLaws `{MeshCrypto} := {
  hmac_len : forall k m, length (hmac_sha256 k m) = 32%nat;
  hmac_bytes : forall k m, bytes_ok (hmac_sha256 k m);
  (** Encryption of a padding bucket succeeds, and adds the tag. *)
  encrypt_ok : forall k n m a, (length m <= 1024)%nat ->
    exists c, aead_encrypt k n m a = Some c /\ length c = (length m + MESHSEC_TAG_LEN)%nat;
  decrypt_encrypt : forall k n m a c, aead_encrypt k n m a = Some c -> aead_decrypt k n c a = Some m
}.

Definition str_bytes (s : string) : list Z :=
  (fun a => Z.of_N (byte_of a)) <$> String.list_ascii_of_string s.

(** [a <= b] on strings: bytewise lexicographic *)
Fixpoint str_leb (a b : string) : bool :=
  match a, b with
  | EmptyString, _ => true
  | String _ _, EmptyString => false
  | String x a, String y b =>
      if (byte_of x <? byte_of y)%N then true
      else if (byte_of y <? byte_of x)%N then false else str_leb a b
  end.

Definition meshsec_direction (sender_id receiver_id : string) : string :=
  (if str_leb sender_id receiver_id then "ab" else "ba")%string.

Definition meshsec_nonce (counter : Z) : list Z := to_le_bytes 8 counter ++ replicate 16 0.

Definition meshsec_epoch_number (now_unix_secs : Z) : Z := now_unix_secs / MESHSEC_EPOCH_SECONDS.

Section Envelope.
Context `{MeshCrypto}.

Definition derive_receiver_hint (static_key : list Z) (epoch_number : Z) : list Z :=
  let k_hint := hkdf_sha256_32 None static_key (str_bytes "meshsec/v1/hint") in
  let mac := hmac_sha256 k_hint (to_le_bytes 8 epoch_number) in
  slice 0 MESHSEC_RECEIVER_HINT_LEN mac.

Definition derive_epoch_key (static_key : list Z) (epoch_number : Z) : list Z :=
  hkdf_sha256_32 (Some (to_le_bytes 8 epoch_number)) static_key (str_bytes "meshsec/v1/epoch").

Definition derive_sender_key (epoch_key : list Z) (sender_id direction : string)
    (boot_salt : list Z) : list Z :=
  let info := str_bytes "meshsec/v1/dir/" ++ str_bytes direction ++ boot_salt in
  hkdf_sha256_32 (Some (str_bytes sender_id)) epoch_key info.

Definition seal_bytes (clear : list Z) (ctx : MeshSecSealContext) (epoch_number cnt : Z) :
    result (list Z) MeshSecError :=
  let? plain := pack_meshsec_plaintext clear in
  let header := mkHeader MESHSEC_VERSION_V1 (derive_receiver_hint (static_key ctx) epoch_number)
                  (Z.land epoch_number 255) (ctx_boot_salt ctx) cnt in
  let out := encode_meshsec_header header [] in
  let k_epoch := derive_epoch_key (static_key ctx) epoch_number in
  let direction := meshsec_direction (local_node_id ctx) (remote_node_id ctx) in
  let k_tx := derive_sender_key k_epoch (local_node_id ctx) direction (ctx_boot_salt ctx) in
  match aead_encrypt k_tx (meshsec_nonce cnt) plain (take MESHSEC_HEADER_LEN out) with
  | None => Err Auth
  | Some sealed => Ok (out ++ sealed)
  end.

Definition meshsec_try_decrypt (key : MeshSecOpenKey) (local : string) (epoch_number : Z)
    (header : MeshSecEnvelopeHeader) (aad ciphertext : list Z) : option (list Z) :=
  if decide (derive_receiver_hint (key_static_key key) epoch_number <> receiver_hint header)
  then None
  else
    let k_epoch := derive_epoch_key (key_static_key key) epoch_number in
    let direction := meshsec_direction (key_remote_node_id key) local in
    let k_tx := derive_sender_key k_epoch (key_remote_node_id key) direction (boot_salt header) in
    aead_decrypt k_tx (meshsec_nonce (counter header)) ciphertext aad.

(** The inner loop of [open_bytes]: the first key that decrypts. *)
Fixpoint open_keys (keys : list MeshSecOpenKey) (local : string) (epoch : Z)
    (header : MeshSecEnvelopeHeader) (aad ct : list Z) : option (MeshSecOpenKey * list Z) :=
  match keys with
  | [] => None
  | key :: keys =>
      match meshsec_try_decrypt key local epoch header aad ct with
      | None => open_keys keys local epoch header aad ct
      | Some plain => Some (key, plain)
      end
  end.

(** The outer loop: the first accepted epoch, with a matching low byte, under which
    a key decrypts. *)
Fixpoint open_epochs (epochs : list Z) (keys : list MeshSecOpenKey) (local : string)
    (header : MeshSecEnvelopeHeader) (aad ct : list Z) : option (Z * MeshSecOpenKey * list Z) :=
  match epochs with
  | [] => None
  | epoch :: epochs =>
      if negb (Z.land epoch 255 =? epoch_low header) then open_epochs epochs keys local header aad ct
      else
        match open_keys keys local epoch header aad ct with
        | None => open_epochs epochs keys local header aad ct
        | Some (key, plain) => Some (epoch, key, plain)
        end
  end.

(** What a packet decrypts to, before any state is touched. *)
Definition open_first (packet : list Z) (keys : list MeshSecOpenKey) (local : string)
    (lo hi : Z) (header : MeshSecEnvelopeHeader) : option (Z * MeshSecOpenKey * list Z) :=
  open_epochs (seqZ lo (hi - lo + 1)) keys local header
    (take MESHSEC_HEADER_LEN packet) (drop MESHSEC_HEADER_LEN packet).

(** [open_bytes] with [accepted_epoch = lo ..= hi]. *)
Definition open_bytes (packet : list Z) (keys : list MeshSecOpenKey) (local : string) (lo hi : Z)
    (replay : MeshSecReplayCache) :
    result (string * list Z) MeshSecError * MeshSecReplayCache :=
  match decode_meshsec_header packet with
  | Err e => (Err e, replay)
  | Ok header =>
      match open_first packet keys local lo hi header with
      | None => (Err Auth, replay)
      | Some (epoch, key, plain) =>
          match check_and_insert replay (peer_id key, epoch, boot_salt header) (counter header) with
          | (Err e, replay') => (Err (of_replay e), replay')
          | (Ok _, replay') =>
              match unpack_meshsec_plaintext plain with
              | Err e => (Err e, replay')
              | Ok clear => (Ok (peer_id key, clear), replay')
              end
          end
      end
  end.

Definition seal_mesh_frame `{Bincode WireFrame} (frame : MeshFrame) (ctx : MeshSecSealContext)
    (epoch_number cnt : Z) : result (list Z) MeshSecError :=
  match serialize_frame frame with
  | None => Err (Serialize (bc_encode_text (T := WireFrame) (map_endpoint endpoint_ser frame)))
  | Some clear => seal_bytes clear ctx epoch_number cnt
  end.

Definition open_mesh_frame `{Bincode WireFrame} (packet : list Z) (keys : list MeshSecOpenKey)
    (local : string) (lo hi : Z) (replay : MeshSecReplayCache) :
    result (string * MeshFrame) MeshSecError * MeshSecReplayCache :=
  match open_bytes packet keys local lo hi replay with
  | (Err e, replay') => (Err e, replay')
  | (Ok (peer, clear), replay') =>
      match deserialize_frame clear with
      | None => (Err (Serialize (bc_decode_text (T := WireFrame) clear)), replay')
      | Some frame => (Ok (peer, frame), replay')
      end
  end.
End Envelope.
