(* ===== verification/MeshSecFacts.v ===== *)
(** What the secure envelope guarantees: the header and padding round trips,
    sealing followed by opening, that a packet opens at most once, and that
    traffic no key authenticates leaves the replay window alone. *)
From S2P Require Import Prelude Numbers MeshWire Endpoint MeshCodec Replay MeshSec.
Local Open Scope Z_scope.

(** ** Header and padding *)

Definition header_ok (h : MeshSecEnvelopeHeader) : Prop :=
  version_flags h = MESHSEC_VERSION_V1 /\ length (receiver_hint h) = MESHSEC_RECEIVER_HINT_LEN
  /\ length (boot_salt h) = MESHSEC_BOOT_SALT_LEN /\ 0 <= counter h < 2 ^ 64.

Lemma list_of_8 {A} (l : list A) :
  length l = 8%nat -> exists a b c d e f g h, l = [a; b; c; d; e; f; g; h].
Proof.
  destruct l as [|a [|b [|c [|d [|e [|f [|g [|h [|]]]]]]]]]; simpl; intros; try lia.
  by exists a, b, c, d, e, f, g, h.
Qed.

Lemma header_length h : header_ok h -> length (encode_meshsec_header h []) = MESHSEC_HEADER_LEN.
Proof.
  intros (_ & Hh & Hs & _). unfold encode_meshsec_header.
  rewrite !length_app, to_le_bytes_length, Hh, Hs. done.
Qed.

Lemma header_roundtrip h ct :
  header_ok h -> (MESHSEC_TAG_LEN <= length ct)%nat ->
  decode_meshsec_header (encode_meshsec_header h [] ++ ct) = Ok h.
Proof.
  intros Hok Hct. pose proof (header_length h Hok) as Hl. unfold decode_meshsec_header.
  rewrite (proj2 (Nat.ltb_ge _ _)) 
    by (rewrite length_app, Hl; unfold MESHSEC_FIXED_OVERHEAD, MESHSEC_HEADER_LEN, MESHSEC_TAG_LEN in *; lia).
  destruct Hok as (Hv & Hh & Hs & Hc). clear Hl. destruct h as [v hint e salt cnt].
  unfold encode_meshsec_header.
  cbn [version_flags receiver_hint epoch_low boot_salt counter] in *. subst v.
  destruct (list_of_8 hint Hh) as (a & b & c & d & x & f & g & h & ->).
  destruct (list_of_4 salt Hs) as (s0 & s1 & s2 & s3 & ->).
  pose proof (from_to_le 8 cnt Hc) as Hcnt.
  destruct (list_of_8 _ (to_le_bytes_length 8 cnt)) as (c0 & c1 & c2 & c3 & c4 & c5 & c6 & c7 & Hle).
  rewrite Hle in Hcnt |- *.
  unfold slice. cbn -[from_le_bytes]. rewrite take_0, Hcnt. done.
Qed.

(** The bucket is the smallest that holds the length prefix and the payload. *)
Lemma bucket_spec n b :
  meshsec_bucket_len n = Ok b ->
  b ∈ MESHSEC_PADDING_BUCKETS /\ (n + 2 <= b)%nat
  /\ (forall b', b' ∈ MESHSEC_PADDING_BUCKETS -> (n + 2 <= b')%nat -> (b <= b')%nat).
Proof.
  unfold meshsec_bucket_len, MESHSEC_PADDING_BUCKETS. simpl.
  repeat (case_decide; simpl); intros [= <-]; (split_and!; [set_solver|lia|]);
    intros b'; set_unfold; lia.
Qed.

Lemma bucket_exists n : (n <= MESHSEC_MAX_CLEAR_LEN)%nat -> exists b, meshsec_bucket_len n = Ok b.
Proof.
  intros Hn. unfold meshsec_bucket_len, MESHSEC_PADDING_BUCKETS, MESHSEC_MAX_CLEAR_LEN in *. simpl.
  repeat (case_decide; simpl); eauto. lia.
Qed.

Lemma pack_spec clear plain :
  pack_meshsec_plaintext clear = Ok plain ->
  (length clear <= MESHSEC_MAX_CLEAR_LEN)%nat
  /\ meshsec_bucket_len (length clear) = Ok (length plain)
  /\ exists a b n, plain = a :: b :: clear ++ replicate n 0
       /\ Z.to_nat (from_be_bytes [a; b]) = length clear.
Proof.
  unfold pack_meshsec_plaintext.
  destruct (Nat.ltb_spec MESHSEC_MAX_CLEAR_LEN (length clear)) as [|Hle]; [done|].
  destruct (meshsec_bucket_len (length clear)) as [b|] eqn:Hb; [|done]. intros Hp.
  assert (Hpl : plain = to_be_bytes 2 (as_u16 (Z.of_nat (length clear))) ++ clear
                  ++ replicate (b - 2 - length clear) 0) by congruence.
  subst plain. clear Hp.
  pose proof (bucket_spec _ _ Hb) as (_ & Hfit & _). unfold MESHSEC_MAX_CLEAR_LEN in Hle.
  assert (Hsmall : as_u16 (Z.of_nat (length clear)) = Z.of_nat (length clear))
    by (apply Z.mod_small; lia). rewrite Hsmall.
  pose proof (to_be_bytes_length 2 (Z.of_nat (length clear))) as Hl.
  pose proof (from_to_be 2 (Z.of_nat (length clear))) as Hft.
  split_and!; [done| |].
  - f_equal. rewrite !length_app, Hl, length_replicate. lia.
  - destruct (to_be_bytes 2 _) as [|x [|y [|]]]; simpl in Hl; try lia.
    exists x, y, (b - 2 - length clear)%nat. split; [done|]. rewrite Hft; [lia|simpl; lia].
Qed.

Lemma unpack_pack clear plain :
  pack_meshsec_plaintext clear = Ok plain -> unpack_meshsec_plaintext plain = Ok clear.
Proof.
  intros (_ & _ & a & b & n & -> & Hn)%pack_spec. unfold unpack_meshsec_plaintext.
  cbn -[from_be_bytes Nat.ltb slice]. rewrite Hn.
  rewrite !(proj2 (Nat.ltb_ge _ _)) by (simpl; rewrite ?length_app; lia).
  unfold slice. rewrite !skipn_cons, drop_0. replace (S (S (length clear)) - 2)%nat with (length clear) by lia.
  by rewrite take_app_length.
Qed.

Lemma pack_total clear :
  (length clear <= MESHSEC_MAX_CLEAR_LEN)%nat -> exists plain, pack_meshsec_plaintext clear = Ok plain.
Proof.
  intros Hle. unfold pack_meshsec_plaintext. rewrite (proj2 (Nat.ltb_ge _ _)) by done.
  destruct (bucket_exists _ Hle) as [b ->]. eauto.
Qed.

(** ** The first key that decrypts *)

Section Opening.
Context `{MeshCrypto}.

Lemma open_keys_first pre key post local epoch header aad ct plain :
  Forall (fun k => meshsec_try_decrypt k local epoch header aad ct = None) pre ->
  meshsec_try_decrypt key local epoch header aad ct = Some plain ->
  open_keys (pre ++ key :: post) local epoch header aad ct = Some (key, plain).
Proof.
  intros Hpre Hk. induction Hpre as [|k pre Hn _ IH]; simpl; [by rewrite Hk|by rewrite Hn].
Qed.

Lemma open_keys_in keys local epoch header aad ct key plain :
  open_keys keys local epoch header aad ct = Some (key, plain) ->
  key ∈ keys /\ meshsec_try_decrypt key local epoch header aad ct = Some plain.
Proof.
  induction keys as [|k keys IH]; simpl; [done|].
  destruct (meshsec_try_decrypt k _ _ _ _ _) eqn:E; [intros [= <- <-]; set_solver|set_solver].
Qed.

Lemma open_epochs_in epochs keys local header aad ct epoch key plain :
  open_epochs epochs keys local header aad ct = Some (epoch, key, plain) ->
  epoch ∈ epochs /\ key ∈ keys /\ meshsec_try_decrypt key local epoch header aad ct = Some plain.
Proof.
  induction epochs as [|e epochs IH]; simpl; [done|].
  destruct (negb _); [set_solver|].
  destruct (open_keys _ _ _ _ _ _) as [[k p]|] eqn:E; [|set_solver].
  intros [= <- <- <-]. apply open_keys_in in E. set_solver.
Qed.

(** Among fewer than 256 consecutive epochs the low byte picks one. *)
Lemma open_epochs_first lo n epoch keys local header aad ct key plain :
  lo <= epoch < lo + Z.of_nat n -> (n <= 256)%nat -> epoch_low header = Z.land epoch 255 ->
  open_keys keys local epoch header aad ct = Some (key, plain) ->
  open_epochs (seqZ lo (Z.of_nat n)) keys local header aad ct = Some (epoch, key, plain).
Proof.
  revert lo. induction n as [|n IH]; intros lo Hin Hn Hlow Hk; [lia|].
  rewrite seqZ_cons by lia. cbn [open_epochs]. rewrite Hlow.
  replace (Z.pred (Z.of_nat (S n))) with (Z.of_nat n) by lia.
  destruct (decide (lo = epoch)) as [->|Hne].
  { rewrite Z.eqb_refl. simpl. by rewrite Hk. }
  replace (Z.land lo 255 =? Z.land epoch 255) with false; [simpl; apply IH; done || lia|].
  symmetry. apply Z.eqb_neq. change 255 with (Z.ones 8). rewrite !Z.land_ones by lia.
  intros Heq. apply Hne. change (2 ^ 8) with 256 in Heq.
  pose proof (Z.div_mod lo 256). pose proof (Z.div_mod epoch 256). lia.
Qed.

Lemma hint_length `{!MeshCryptoLaws} k e : length (derive_receiver_hint k e) = MESHSEC_RECEIVER_HINT_LEN.
Proof. unfold derive_receiver_hint, slice. rewrite length_take, length_drop, hmac_len. done. Qed.
End Opening.

(** ** Sealing and opening *)

Section SealOpen.
Context `{MeshCrypto, !MeshCryptoLaws}.
Variables (ctx : MeshSecSealContext) (key : MeshSecOpenKey) (epoch cnt : Z).
Hypothesis Hkey : key_static_key key = static_key ctx.
Hypothesis Hpeer : key_remote_node_id key = local_node_id ctx.
Hypothesis Hsalt : length (ctx_boot_salt ctx) = MESHSEC_BOOT_SALT_LEN.
Hypothesis Hcnt : 0 <= cnt < 2 ^ 64.

Definition sealed_header : MeshSecEnvelopeHeader :=
  mkHeader MESHSEC_VERSION_V1 (derive_receiver_hint (static_key ctx) epoch)
    (Z.land epoch 255) (ctx_boot_salt ctx) cnt.

Lemma sealed_header_ok : header_ok sealed_header.
Proof. split_and!; [done|apply hint_length|done|apply Hcnt|apply Hcnt]. Qed.

(** The packet a sender makes decodes to its header, and the peer's key decrypts
    the rest. *)
Lemma seal_shape clear :
  (length clear <= MESHSEC_MAX_CLEAR_LEN)%nat ->
  exists packet plain, seal_bytes clear ctx epoch cnt = Ok packet
    /\ pack_meshsec_plaintext clear = Ok plain
    /\ length packet = (MESHSEC_FIXED_OVERHEAD + length plain)%nat
    /\ decode_meshsec_header packet = Ok sealed_header
    /\ meshsec_try_decrypt key (remote_node_id ctx) epoch sealed_header
         (take MESHSEC_HEADER_LEN packet) (drop MESHSEC_HEADER_LEN packet) = Some plain.
Proof.
  intros Hlen. destruct (pack_total clear Hlen) as [plain Hplain].
  unfold seal_bytes. rewrite Hplain. fold sealed_header.
  pose proof (header_length _ sealed_header_ok) as Hh.
  set (hdr := encode_meshsec_header sealed_header []) in *.
  set (k_tx := derive_sender_key _ _ _ _).
  destruct (encrypt_ok k_tx (meshsec_nonce cnt) plain (take MESHSEC_HEADER_LEN hdr)) as (ct & Hct & Hl).
  { destruct (pack_spec _ _ Hplain) as (_ & (Hb & _)%bucket_spec & _).
    unfold MESHSEC_PADDING_BUCKETS in Hb. set_unfold. lia. }
  rewrite Hct. exists (hdr ++ ct), plain. split_and!; [done|done| | |].
  - rewrite length_app, Hh, Hl. unfold MESHSEC_HEADER_LEN, MESHSEC_TAG_LEN, MESHSEC_FIXED_OVERHEAD. lia.
  - apply header_roundtrip; [apply sealed_header_ok|lia].
  - rewrite take_app_length', drop_app_length' by done.
    rewrite take_ge in Hct by lia. unfold meshsec_try_decrypt. rewrite Hkey, Hpeer.
    rewrite decide_False by (intros Hn; by apply Hn). by apply decrypt_encrypt.
Qed.

Lemma seal_open clear pre post lo hi r r' :
  (length clear <= MESHSEC_MAX_CLEAR_LEN)%nat -> lo <= epoch <= hi -> hi - lo < 256 ->
  check_and_insert r (peer_id key, epoch, ctx_boot_salt ctx) cnt = (Ok tt, r') ->
  exists packet, seal_bytes clear ctx epoch cnt = Ok packet
    /\ (forall b, meshsec_bucket_len (length clear) = Ok b ->
          length packet = (MESHSEC_FIXED_OVERHEAD + b)%nat)
    /\ (Forall (fun k => meshsec_try_decrypt k (remote_node_id ctx) epoch sealed_header
                 (take MESHSEC_HEADER_LEN packet) (drop MESHSEC_HEADER_LEN packet) = None) pre ->
        open_bytes packet (pre ++ key :: post) (remote_node_id ctx) lo hi r
        = (Ok (peer_id key, clear), r')).
Proof.
  intros Hlen Hep Hrange Hr.
  destruct (seal_shape clear Hlen) as (packet & plain & Hs & Hp & Hpl & Hd & Ht).
  exists packet. split_and!; [done| |].
  - intros b Hb. destruct (pack_spec _ _ Hp) as (_ & Hb' & _). rewrite Hb in Hb'.
    injection Hb' as ->. done.
  - intros Hpre. unfold open_bytes. rewrite Hd. unfold open_first.
    replace (hi - lo + 1) with (Z.of_nat (Z.to_nat (hi - lo + 1))) by lia.
    rewrite (open_epochs_first lo _ epoch _ _ _ _ _ key plain); [|lia|lia|done|].
    + simpl. rewrite Hr. by rewrite (unpack_pack _ _ Hp).
    + by apply open_keys_first.
Qed.
End SealOpen.

(** ** At most once *)

Section AtMostOnce.
Context `{MeshCrypto}.
Variables (local : string) (wb : Z).
Hypothesis Hal : aligned wb.

(** One call of [open_bytes]: the keys and the accepted epochs of the moment, and
    the packet. *)
Record OpenCall := mkOpenCall {
  oc_keys : list MeshSecOpenKey; oc_lo : Z; oc_hi : Z; oc_packet : list Z }.

Definition open_call (o : OpenCall) (r : MeshSecReplayCache) :
    result (string * list Z) MeshSecError * MeshSecReplayCache :=
  open_bytes (oc_packet o) (oc_keys o) local (oc_lo o) (oc_hi o) r.

Fixpoint open_run (r : MeshSecReplayCache) (calls : list OpenCall) :
    list (result (string * list Z) MeshSecError) :=
  match calls with
  | [] => []
  | o :: calls => let '(res, r') := open_call o r in res :: open_run r' calls
  end.

Lemma cai_step r s key c :
  cache_rel wb r s -> SpecFacts.inv s -> 0 <= c ->
  exists s', cache_rel wb (check_and_insert r key c).2 s' /\ SpecFacts.inv s'
    /\ ((check_and_insert r key c).1 = Ok tt -> c ∈ SpecFacts.accepted_at s' key
        /\ c ∉ SpecFacts.accepted_at s key)
    /\ (forall k d, d ∈ SpecFacts.accepted_at s k -> d ∈ SpecFacts.accepted_at s' k).
Proof.
  intros Hrel Hinv Hc. pose proof (check_and_insert_refines wb Hal r s key c Hc Hrel) as Hstep.
  pose proof (SpecFacts.step_inv wb s key c Hinv) as Hinv'.
  pose proof (SpecFacts.step_accepted wb s key c) as Hacc.
  pose proof (SpecFacts.fresh_ok wb s key c) as Hfresh.
  destruct (check_and_insert r key c) as [o r'], (Spec.step wb s key c) as [o' s'] eqn:Es.
  destruct Hstep as [-> Hrel']. simpl in *. exists s'. split_and!; [done|done| |].
  - intros ->. split; [apply Hacc; auto|]. intros Hin.
    unfold Spec.step in Es. destruct (Spec.fresh wb (s !! key) c) as [[]|] eqn:Ef; [|by simplify_eq].
    destruct (proj1 (Hfresh ltac:(unfold aligned in Hal; lia) Hinv) eq_refl c Hin). done.
  - intros k d Hd. apply Hacc. auto.
Qed.

(** One call either leaves the cache alone or makes one check. *)
Lemma open_bytes_check keys lo hi packet r :
  (exists e, open_bytes packet keys local lo hi r = (Err e, r))
  \/ exists header epoch key plain,
      decode_meshsec_header packet = Ok header
      /\ open_first packet keys local lo hi header = Some (epoch, key, plain)
      /\ let rk := (peer_id key, epoch, boot_salt header) in
         (open_bytes packet keys local lo hi r).2 = (check_and_insert r rk (counter header)).2
         /\ (is_ok (open_bytes packet keys local lo hi r).1 = true ->
             (check_and_insert r rk (counter header)).1 = Ok tt).
Proof.
  unfold open_bytes. destruct (decode_meshsec_header packet) as [header|e] eqn:Hd; [|left; eauto].
  destruct (open_first _ _ _ _ _ header) as [[[epoch key] plain]|] eqn:Ho; [|left; eauto].
  right. exists header, epoch, key, plain. split; [done|]. split; [done|].
  destruct (check_and_insert _ _ _) as [[[]|e] r'] eqn:Ec; [|done].
  by destruct (unpack_meshsec_plaintext plain).
Qed.

Lemma counter_nonneg packet header :
  bytes_ok packet -> decode_meshsec_header packet = Ok header -> 0 <= counter header.
Proof.
  intros Hb. unfold decode_meshsec_header. destruct (_ <? _)%nat; [done|].
  destruct (negb _); [done|]. intros [= <-]. simpl.
  apply (from_le_bound (slice 14 22 packet)). by apply Forall_take, Forall_drop.
Qed.

(** The replay key (peer, epoch, boot salt) and counter a call checks its packet
    under: those of the first key and epoch that decrypt it. *)
Definition check_of (o : OpenCall) : option (ReplayKey * Z) :=
  match decode_meshsec_header (oc_packet o) with
  | Err _ => None
  | Ok h =>
      '(epoch, key, _) ← open_first (oc_packet o) (oc_keys o) local (oc_lo o) (oc_hi o) h;
      Some ((peer_id key, epoch, boot_salt h), counter h)
  end.

Lemma open_step o r s :
  bytes_ok (oc_packet o) -> cache_rel wb r s -> SpecFacts.inv s ->
  exists s', cache_rel wb (open_call o r).2 s' /\ SpecFacts.inv s'
    /\ (forall k d, d ∈ SpecFacts.accepted_at s k -> d ∈ SpecFacts.accepted_at s' k)
    /\ (is_ok (open_call o r).1 = true ->
        exists rk c, check_of o = Some (rk, c) /\ c ∈ SpecFacts.accepted_at s' rk
          /\ c ∉ SpecFacts.accepted_at s rk).
Proof.
  intros Hb Hrel Hinv. unfold open_call.
  destruct (open_bytes_check (oc_keys o) (oc_lo o) (oc_hi o) (oc_packet o) r)
    as [[e ->]|(h & epoch & key & plain & Hd & Ho & Hs & Hok)].
  { exists s. by split_and!. }
  rewrite Hs. pose proof (counter_nonneg (oc_packet o) h Hb Hd) as Hc.
  destruct (cai_step r s (peer_id key, epoch, boot_salt h) (counter h) Hrel Hinv Hc)
    as (s' & Hrel' & Hinv' & Hacc & Hmono).
  exists s'. split_and!; [done..|]. intros Hr. specialize (Hacc (Hok Hr)).
  exists (peer_id key, epoch, boot_salt h), (counter h). split; [|done].
  unfold check_of. by rewrite Hd, Ho.
Qed.

(** Once a counter is used, no call that checks under it opens. *)
Lemma open_run_used calls r s rk c o i res :
  Forall (fun o => bytes_ok (oc_packet o)) calls -> cache_rel wb r s -> SpecFacts.inv s ->
  c ∈ SpecFacts.accepted_at s rk -> check_of o = Some (rk, c) ->
  calls !! i = Some o -> open_run r calls !! i = Some res -> is_ok res = false.
Proof.
  intros Hb. revert r s i. induction Hb as [|p calls Hp _ IH]; intros r s i Hrel Hinv Hin Hck Hi;
    [done|]. simpl.
  pose proof (open_step p r s Hp Hrel Hinv) as (s' & Hrel' & Hinv' & Hmono & Hacc).
  destruct (open_call p r) as [o' r'] eqn:E. simpl in *.
  destruct i as [|i]; simpl in *.
  - simplify_eq. intros [= <-]. destruct (is_ok o') eqn:Eo; [|done]. exfalso.
    destruct (Hacc eq_refl) as (rk' & c' & Hck' & _ & Hnin). rewrite Hck in Hck'. by simplify_eq.
  - intros Ho. eapply (IH r' s' i); eauto.
Qed.

Lemma open_run_once calls r s i j ci cj oi oj :
  Forall (fun o => bytes_ok (oc_packet o)) calls -> cache_rel wb r s -> SpecFacts.inv s ->
  (i < j)%nat -> calls !! i = Some ci -> calls !! j = Some cj -> check_of ci = check_of cj ->
  open_run r calls !! i = Some oi -> open_run r calls !! j = Some oj ->
  is_ok oi = true -> is_ok oj = false.
Proof.
  intros Hb. revert r s i j.
  induction Hb as [|p calls Hp Hps IH]; intros r s i j Hrel Hinv Hij Hi Hj Hsame; [done|]. simpl.
  pose proof (open_step p r s Hp Hrel Hinv) as (s' & Hrel' & Hinv' & Hmono & Hacc).
  destruct (open_call p r) as [o' r'] eqn:E. simpl in *.
  destruct j as [|j]; [lia|]. destruct i as [|i]; simpl in *.
  - simplify_eq. intros [= <-] Hoj Hok. destruct (Hacc Hok) as (rk & c & Hck & Hin & _).
    rewrite Hsame in Hck. by eapply (open_run_used calls r' s' rk c cj j).
  - intros Hoi Hoj. eapply (IH r' s' i j); eauto. lia.
Qed.
End AtMostOnce.

(** ** Properties *)

(** padding is total on everything that fits, refuses everything else, always
    yields the smallest bucket that holds the length prefix and the payload, and
    is undone by unpadding. *)
Theorem padding_roundtrip (clear : list Z) :
  ((length clear <= MESHSEC_MAX_CLEAR_LEN)%nat ->
   exists plain, pack_meshsec_plaintext clear = Ok plain
     /\ unpack_meshsec_plaintext plain = Ok clear
     /\ length plain ∈ MESHSEC_PADDING_BUCKETS
     /\ (forall b, b ∈ MESHSEC_PADDING_BUCKETS -> (length clear + 2 <= b)%nat -> (length plain <= b)%nat))
  /\ ((MESHSEC_MAX_CLEAR_LEN < length clear)%nat ->
      pack_meshsec_plaintext clear = Err PayloadTooLarge).
Proof.
  split.
  - intros Hle. destruct (pack_total clear Hle) as [plain Hp]. exists plain.
    destruct (pack_spec _ _ Hp) as (_ & (Hin & _ & Hmin)%bucket_spec & _).
    split_and!; [done|by apply unpack_pack|done|done].
  - intros Hlt. unfold pack_meshsec_plaintext. by rewrite (proj2 (Nat.ltb_lt _ _)).
Qed.

(** a sealed packet opens to the clear bytes under the sender's peer id at the
    receiver that holds the same static key, for every epoch inside the accepted
    range (of at most 256 epochs), whenever the replay window accepts the counter
    and no key listed earlier decrypts it; its length shows the bucket only. *)
Theorem seal_open_roundtrip `{MeshCrypto, !MeshCryptoLaws}
    (ctx : MeshSecSealContext) (key : MeshSecOpenKey) (epoch cnt lo hi : Z)
    (clear : list Z) (pre post : list MeshSecOpenKey) (r r' : MeshSecReplayCache)
    (Hkey : key_static_key key = static_key ctx)
    (Hpeer : key_remote_node_id key = local_node_id ctx)
    (Hsalt : length (ctx_boot_salt ctx) = MESHSEC_BOOT_SALT_LEN)
    (Hcnt : 0 <= cnt < 2 ^ 64) (Hlen : (length clear <= MESHSEC_MAX_CLEAR_LEN)%nat)
    (Hep : lo <= epoch <= hi) (Hrange : hi - lo < 256)
    (Hr : check_and_insert r (peer_id key, epoch, ctx_boot_salt ctx) cnt = (Ok tt, r')) :
  exists packet, seal_bytes clear ctx epoch cnt = Ok packet
    /\ (forall b, meshsec_bucket_len (length clear) = Ok b ->
          length packet = (MESHSEC_FIXED_OVERHEAD + b)%nat)
    /\ (Forall (fun k => meshsec_try_decrypt k (remote_node_id ctx) epoch (sealed_header ctx epoch cnt)
                 (take MESHSEC_HEADER_LEN packet) (drop MESHSEC_HEADER_LEN packet) = None) pre ->
        open_bytes packet (pre ++ key :: post) (remote_node_id ctx) lo hi r
        = (Ok (peer_id key, clear), r')).
Proof. by eapply seal_open. Qed.

(** C8: in any sequence of calls that open packets at one receiver, each with the
    keys and the accepted epochs of the moment, starting from a new replay cache
    whose window is a positive multiple of 64: when a packet has opened, a later
    call that authenticates it as the same sender's packet of the same epoch does
    not open it, whatever happened in between; a call with the same keys and epochs
    does. So without a change of keys or epochs a packet opens at most once. *)
Theorem packet_opens_at_most_once `{MeshCrypto} (local : string) (wb : Z) (calls : list OpenCall) (i j : nat)
    (ci cj : OpenCall) (oi oj : result (string * list Z) MeshSecError)
    (Hal : aligned wb) (Hb : Forall (fun o => bytes_ok (oc_packet o)) calls) (Hij : (i < j)%nat)
    (Hi : calls !! i = Some ci) (Hj : calls !! j = Some cj) (Hp : oc_packet ci = oc_packet cj)
    (Hoi : open_run local (replay_new wb) calls !! i = Some oi)
    (Hoj : open_run local (replay_new wb) calls !! j = Some oj)
    (Hok : is_ok oi = true) :
  (check_of local ci = check_of local cj -> is_ok oj = false)
  /\ (oc_keys ci = oc_keys cj -> oc_lo ci = oc_lo cj -> oc_hi ci = oc_hi cj -> is_ok oj = false).
Proof.
  assert (Hmain : check_of local ci = check_of local cj -> is_ok oj = false).
  { intros Hsame. eapply (open_run_once local wb Hal calls (replay_new wb) ∅); eauto.
    - apply replay_new_rel.
    - apply map_Forall_empty. }
  split; [exact Hmain|]. intros Hk Hlo Hhi. apply Hmain. unfold check_of. by rewrite Hp, Hk, Hlo, Hhi.
Qed.

(** opening changes the replay cache only when a configured key authenticates
    the packet under an accepted epoch, and then only the window of that peer,
    epoch and boot salt. *)
Theorem open_changes_only_authentic_window `{MeshCrypto} (packet : list Z)
    (keys : list MeshSecOpenKey) (local : string) (lo hi : Z) (r : MeshSecReplayCache) :
  let '(o, r') := open_bytes packet keys local lo hi r in
  (r' = r /\ is_ok o = false)
  \/ exists header epoch key plain,
      decode_meshsec_header packet = Ok header /\ lo <= epoch <= hi /\ key ∈ keys
      /\ meshsec_try_decrypt key local epoch header
           (take MESHSEC_HEADER_LEN packet) (drop MESHSEC_HEADER_LEN packet) = Some plain
      /\ forall k, k <> (peer_id key, epoch, boot_salt header) -> windows r' !! k = windows r !! k.
Proof.
  pose proof (open_bytes_check local keys lo hi packet r) as Hc.
  destruct (open_bytes packet keys local lo hi r) as [o r'].
  destruct Hc as [[e [= -> ->]]|(h & epoch & key & plain & Hd & Ho & Hs & _)]; [by left|right].
  exists h, epoch, key, plain. apply open_epochs_in in Ho as (Hep%elem_of_seqZ & Hin & Ht).
  split_and!; [done|lia|lia|done|done|]. intros k Hne. simpl in Hs. rewrite Hs.
  unfold check_and_insert. destruct (window_check _ _ _) as [res w']. simpl.
  by rewrite lookup_insert_ne.
Qed.

(** A keyed checksum as a stand-in for the primitives, to run the envelope. *)
Module DemoCrypto.
Definition sum (l : list Z) : Z := foldr Z.add 0 l mod 256.

Definition tag (k n a m : list Z) : list Z := replicate 16 (sum (k ++ n ++ a ++ m)).

#[export] Instance crypto : MeshCrypto := {
  hkdf_sha256_32 salt ikm info := replicate 32 (sum (default [] salt ++ ikm ++ info));
  hmac_sha256 k m := replicate 32 (sum (k ++ m));
  aead_encrypt k n m a := Some (m ++ tag k n a m);
  aead_decrypt k n c a :=
    let m := take (length c - 16) c in
    if decide (drop (length c - 16) c = tag k n a m) then Some m else None
}.

#[export] Instance crypto_laws : MeshCryptoLaws.
Proof.
  assert (Hs : forall l, is_byte (sum l)) by (intros l; apply Z.mod_pos_bound; lia).
  split; simpl.
  - intros k m. done.
  - intros k m. change (bytes_ok (replicate 32 (sum (k ++ m)))). by apply Forall_replicate.
  - intros k n m a _. eexists. split; [done|]. rewrite length_app. done.
  - intros k n m a c [= <-]. rewrite length_app. change (length (tag k n a m)) with 16%nat.
    replace (length m + 16 - 16)%nat with (length m) by lia.
    rewrite take_app_length, drop_app_length. by rewrite decide_True.
Qed.

Definition ctx : MeshSecSealContext := mkSealContext "node-a" "node-b" [1; 2; 3] [9; 9; 9; 9].
Definition key : MeshSecOpenKey := mkOpenKey "peer-a" "node-a" [1; 2; 3].
Definition other : MeshSecOpenKey := mkOpenKey "peer-c" "node-c" [4].
Definition packet : list Z :=
  match seal_bytes [5; 6; 7] ctx 1000 42 with Ok p => p | Err _ => [] end.
End DemoCrypto.
Import DemoCrypto.

Lemma padding_roundtrip_witness :
  exists plain, pack_meshsec_plaintext (replicate 127 1) = Ok plain
    /\ unpack_meshsec_plaintext plain = Ok (replicate 127 1).
Proof.
  destruct (proj1 (padding_roundtrip (replicate 127 1))) as (plain & Hp & Hu & _).
  - apply (bool_decide_unpack _). vm_compute. exact I.
  - exists plain. split; [exact Hp|exact Hu].
Defined.

Lemma seal_open_roundtrip_witness :
  exists packet, seal_bytes [5; 6; 7] ctx 1000 42 = Ok packet /\ length packet = 166%nat
    /\ open_bytes packet [key; other] "node-b" 999 1001 (replay_new 1024)
       = (Ok ("peer-a"%string, [5; 6; 7]),
          (check_and_insert (replay_new 1024) ("peer-a"%string, 1000, [9; 9; 9; 9]) 42).2).
Proof.
  destruct (seal_open_roundtrip ctx key 1000 42 999 1001 [5; 6; 7] [] [other] (replay_new 1024)
    (check_and_insert (replay_new 1024) ("peer-a"%string, 1000, [9; 9; 9; 9]) 42).2)
    as (p & Hs & Hl & Ho); [reflexivity..|lia| |lia|lia|reflexivity|].
  - apply (bool_decide_unpack _). vm_compute. exact I.
  - exists p. split; [exact Hs|]. split; [apply (Hl 128%nat); reflexivity|]. apply Ho. constructor.
Defined.

(** The accepted epochs move on between the two arrivals of the packet. *)
Lemma packet_opens_at_most_once_witness :
  let calls := [mkOpenCall [key] 999 1001 packet; mkOpenCall [key] 999 1001 [1];
                mkOpenCall [other; key] 1000 1002 packet] in
  exists oi oj,
    open_run "node-b" (replay_new 1024) calls !! 0%nat = Some oi
    /\ open_run "node-b" (replay_new 1024) calls !! 2%nat = Some oj
    /\ is_ok oi = true /\ is_ok oj = false.
Proof.
  intros calls.
  assert (Hb : Forall (fun o => bytes_ok (oc_packet o)) calls)
    by (apply (bool_decide_unpack _); vm_compute; exact I).
  assert (H0 : open_run "node-b" (replay_new 1024) calls !! 0%nat = Some (Ok ("peer-a"%string, [5; 6; 7])))
    by (vm_compute; reflexivity).
  assert (H2 : open_run "node-b" (replay_new 1024) calls !! 2%nat = Some (Err MsReplay)) by (vm_compute; reflexivity).
  exists (Ok ("peer-a"%string, [5; 6; 7])), (Err MsReplay). split_and!; [exact H0|exact H2|reflexivity|].
  refine (proj1 (packet_opens_at_most_once "node-b" 1024 calls 0 2 _ _ _ _ aligned_1024 Hb ltac:(lia)
    eq_refl eq_refl eq_refl H0 H2 eq_refl) _).
  vm_compute. reflexivity.
Defined.
