(* ===== verification/LoadBalance.v ===== *)
(** Load balancing (lib/mb-loadbalance/src/lib.rs): weighted round robin, smooth
    weighted round robin, consistent hashing, the sticky table and the source
    lease rotation. Weights are [u32], times [u64] milliseconds. The hash of a
    string (fxhash) and the comparison of two rendezvous scores (fxhash and [f64]
    arithmetic) are parameters. *)
From S2P Require Import Prelude Numbers.
Local Open Scope Z_scope.

Record Candidate := mkCandidate { id : string; weight : Z }.

Definition U64_MAX : Z := 2 ^ 64 - 1.

(** ** Weighted round robin *)

Record Wrr := mkWrr { cands : list Candidate; cursor : nat; counter : Z }.

Definition wrr_new (cands : list Candidate) : Wrr := mkWrr cands 0 0.

#[export] Instance Candidate_inhabited : Inhabited Candidate := populate (mkCandidate "" 0).

(** The loop of [pick]; [None] when it has not returned within the fuel. *)
Fixpoint wrr_loop (fuel : nat) (s : Wrr) : option (string * Wrr) :=
  match fuel with
  | O => None
  | S fuel =>
      let c := cands s !!! cursor s in
      if counter s <? weight c then
        Some (id c, mkWrr (cands s) (cursor s) (counter s + 1))
      else wrr_loop fuel (mkWrr (cands s) ((cursor s + 1) mod length (cands s)) 0)
  end.

(** One round over the candidates and a last look at the first one visited. *)
Definition wrr_fuel (s : Wrr) : nat := S (length (cands s)).

(** [Some (r, s')] when [pick] returns [r]; [None] when its loop does not end. *)
Definition wrr_pick (s : Wrr) : option (option string * Wrr) :=
  match cands s with
  | [] => Some (None, s)
  | _ => '(x, s') ← wrr_loop (wrr_fuel s) s; Some (Some x, s')
  end.

Fixpoint wrr_run (n : nat) (s : Wrr) : option (list (option string) * Wrr) :=
  match n with
  | O => Some ([], s)
  | S n =>
      '(x, s') ← wrr_pick s;
      '(xs, s'') ← wrr_run n s';
      Some (x :: xs, s'')
  end.

(** ** Smooth weighted round robin *)

Record Swrr := mkSwrr { scands : list Candidate; current : list Z }.

Definition swrr_new (cands : list Candidate) : Swrr :=
  mkSwrr cands (replicate (length cands) 0).

Definition total_weight (cs : list Candidate) : Z := foldr Z.add 0 (weight <$> cs).

(** The loop over [0..cands.len()]: the currents with the weights added so far and
    the best index. *)
Fixpoint swrr_loop (cs : list Candidate) (i : nat) (current : list Z) (best : nat) :
    list Z * nat :=
  match cs with
  | [] => (current, best)
  | c :: cs =>
      let current := alter (fun x => x + weight c) i current in
      let best := if current !!! best <? current !!! i then i else best in
      swrr_loop cs (S i) current best
  end.

Definition swrr_step (s : Swrr) : nat * Swrr :=
  let total := total_weight (scands s) in
  let '(current, best) := swrr_loop (scands s) 0 (current s) 0 in
  (best, mkSwrr (scands s) (alter (fun x => x - total) best current)).

Definition swrr_pick (s : Swrr) : option string * Swrr :=
  match scands s with
  | [] => (None, s)
  | _ => let '(best, s') := swrr_step s in (Some (id (scands s !!! best)), s')
  end.

Fixpoint swrr_run (n : nat) (s : Swrr) : list (option string) * Swrr :=
  match n with
  | O => ([], s)
  | S n =>
      let '(x, s') := swrr_pick s in
      let '(xs, s'') := swrr_run n s' in (x :: xs, s'')
  end.

(** ** Consistent hashing *)

(** The bucket loop. *)
Fixpoint bucket_loop (cs : list Candidate) (bucket : Z) : option string :=
  match cs with
  | [] => None
  | c :: cs => if bucket <? weight c then Some (id c) else bucket_loop cs (bucket - weight c)
  end.

Definition consistent_pick (fxhash : string -> Z) (cs : list Candidate) (key : string) :
    option string :=
  match cs with
  | [] => None
  | _ =>
      let total := total_weight cs in
      if total =? 0 then None else bucket_loop cs (fxhash key mod total)
  end.

(** ** Sticky table *)

Record StickyEntry := mkStickyEntry { sticky_candidate_id : string; expires_at_ms : Z }.

Record StickyTable := mkStickyTable {
  ttl_ms : Z;
  sticky_entries : gmap string StickyEntry;
  picker : Wrr;
  picker_ids : list string
}.

Definition saturating_add (a b : Z) : Z := Z.min (a + b) U64_MAX.
Definition saturating_sub (a b : Z) : Z := Z.max (a - b) 0.

Definition sticky_new (ttl_ms : Z) : StickyTable :=
  mkStickyTable (Z.max ttl_ms 1) ∅ (wrr_new []) [].

Definition refresh_picker (t : StickyTable) (candidates : list Candidate) : StickyTable :=
  let ids := id <$> candidates in
  if decide (ids = picker_ids t) then t
  else mkStickyTable (ttl_ms t) (sticky_entries t) (wrr_new candidates) ids.

(** [None] when the picker's loop does not end. *)
Definition sticky_pick (t : StickyTable) (key : string) (candidates : list Candidate) (now_ms : Z) :
    option (option string * StickyTable) :=
  match candidates with
  | [] =>
      Some (None, refresh_picker (mkStickyTable (ttl_ms t) ∅ (picker t) (picker_ids t)) candidates)
  | _ =>
      let hit :=
        match sticky_entries t !! key with
        | Some e =>
            if (now_ms <? expires_at_ms e)
               && bool_decide (sticky_candidate_id e ∈ id <$> candidates)
            then Some (sticky_candidate_id e) else None
        | None => None
        end in
      match hit with
      | Some x => Some (Some x, t)
      | None =>
          let t := refresh_picker t candidates in
          '(picked, w) ← wrr_pick (picker t);
          match picked with
          | None => Some (None, mkStickyTable (ttl_ms t) (sticky_entries t) w (picker_ids t))
          | Some picked =>
              let e := mkStickyEntry picked (saturating_add now_ms (ttl_ms t)) in
              Some (Some picked,
                    mkStickyTable (ttl_ms t) (<[key := e]> (sticky_entries t)) w (picker_ids t))
          end
      end
  end.

(** ** Source leases *)

Inductive MaxAgePolicy := MaxAgeOff | Soft | Hard.

Record SourceLeaseRotateConfig := mkLeaseConfig {
  idle_timeout_ms : Z;
  max_age_ms : Z;
  max_age_policy : MaxAgePolicy;
  switch_cooldown_ms : Z
}.

Record SourceLeaseActivity := mkLeaseActivity { active_flows : Z; idle_since_ms : option Z }.

Inductive SourceLeaseReason := LeaseNew | Hit | IdleExpired | MaxAgeSoft | MaxAgeHard | Unhealthy.

Record SourceLeaseDecision := mkLeaseDecision {
  candidate_id : string;
  lease_reason : SourceLeaseReason;
  generation : Z
}.

Record SourceLeaseEntry := mkLeaseEntry {
  entry_candidate_id : string;
  created_at_ms : Z;
  last_seen_at_ms : Z;
  entry_generation : Z;
  cooldown_until_ms : Z
}.

Record SourceLeaseRotate := mkLeaseRotate {
  lease_config : SourceLeaseRotateConfig;
  lease_entries : gmap string SourceLeaseEntry
}.

#[export] Instance MaxAgePolicy_eq_dec : EqDecision MaxAgePolicy.
Proof. solve_decision. Defined.
#[export] Instance SourceLeaseReason_eq_dec : EqDecision SourceLeaseReason.
Proof. solve_decision. Defined.

Definition lease_new (c : SourceLeaseRotateConfig) : SourceLeaseRotate :=
  mkLeaseRotate
    (mkLeaseConfig (Z.max (idle_timeout_ms c) 1) (Z.max (max_age_ms c) 1) (max_age_policy c)
       (switch_cooldown_ms c)) ∅.

Definition idle_expired (c : SourceLeaseRotateConfig) (e : SourceLeaseEntry) (now_ms : Z)
    (activity : option SourceLeaseActivity) : bool :=
  match activity with
  | Some a =>
      if 0 <? active_flows a then false
      else
        match idle_since_ms a with
        | Some idle_since => idle_timeout_ms c <=? saturating_sub now_ms idle_since
        | None => idle_timeout_ms c <=? saturating_sub now_ms (last_seen_at_ms e)
        end
  | None => idle_timeout_ms c <=? saturating_sub now_ms (last_seen_at_ms e)
  end.

Section Lease.
(** [score_gt key generation a b]: the score of [a] exceeds the score of [b]. *)
Variable score_gt : string -> Z -> Candidate -> Candidate -> bool.

Fixpoint rendezvous_loop (key : string) (gen : Z) (cs : list Candidate) (exclude : option string)
    (best : option Candidate) : option Candidate :=
  match cs with
  | [] => best
  | c :: cs =>
      if bool_decide (Some (id c) = exclude) then rendezvous_loop key gen cs exclude best
      else
        let better := match best with None => true | Some b => score_gt key gen c b end in
        rendezvous_loop key gen cs exclude (if better then Some c else best)
  end.

Definition pick_weighted_rendezvous (key : string) (gen : Z) (cs : list Candidate)
    (exclude : option string) : option string :=
  id <$> rendezvous_loop key gen cs exclude None.

(** What [pick_inner] decides about the source's entry: keep it, or pick again for
    a reason, with a generation and an excluded candidate. *)
Inductive lease_verdict :=
| Keep (e : SourceLeaseEntry)
| Repick (reason : SourceLeaseReason) (gen : Z) (exclude : option string).

Definition lease_judge (c : SourceLeaseRotateConfig) (existing : option SourceLeaseEntry)
    (candidates : list Candidate) (now_ms : Z) (activity : option SourceLeaseActivity) :
    lease_verdict :=
  match existing with
  | None => Repick LeaseNew 0 None
  | Some e =>
      if negb (bool_decide (entry_candidate_id e ∈ id <$> candidates)) then
        Repick Unhealthy (as_u64 (entry_generation e + 1)) None
      else if idle_expired c e now_ms activity then
        Repick IdleExpired (as_u64 (entry_generation e + 1)) None
      else if negb (bool_decide (max_age_policy c = MaxAgeOff))
              && (max_age_ms c <=? saturating_sub now_ms (created_at_ms e))
              && (cooldown_until_ms e <=? now_ms) then
        let reason := match max_age_policy c with
                      | MaxAgeOff => Hit | Soft => MaxAgeSoft | Hard => MaxAgeHard end in
        let exclude := if bool_decide (max_age_policy c = Hard) && (1 <? length candidates)%nat
                       then Some (entry_candidate_id e) else None in
        Repick reason (as_u64 (entry_generation e + 1)) exclude
      else Keep e
  end.

(** [pick_inner]; [pick] is this with no activity, [pick_with_activity] this. *)
Definition pick_inner (s : SourceLeaseRotate) (source_key : string) (candidates : list Candidate)
    (now_ms : Z) (activity : option SourceLeaseActivity) :
    option SourceLeaseDecision * SourceLeaseRotate :=
  let c := lease_config s in
  match candidates with
  | [] => (None, mkLeaseRotate c ∅)
  | _ =>
      match lease_judge c (lease_entries s !! source_key) candidates now_ms activity with
      | Keep e =>
          let e' := mkLeaseEntry (entry_candidate_id e) (created_at_ms e) now_ms
                      (entry_generation e) (cooldown_until_ms e) in
          (Some (mkLeaseDecision (entry_candidate_id e) Hit (entry_generation e)),
           mkLeaseRotate c (<[source_key := e']> (lease_entries s)))
      | Repick reason gen exclude =>
          match pick_weighted_rendezvous source_key gen candidates exclude with
          | None => (None, s)
          | Some picked =>
              let e' := mkLeaseEntry picked now_ms now_ms gen
                          (saturating_add now_ms (switch_cooldown_ms c)) in
              (Some (mkLeaseDecision picked reason gen),
               mkLeaseRotate c (<[source_key := e']> (lease_entries s)))
          end
      end
  end.
End Lease.
