(* ===== verification/LoadBalanceFacts.v ===== *)
(** What the balancers guarantee: weighted round robin walks a cycle in which every
    candidate has its weight, the smooth variant picks everyone exactly its weight
    in a period and returns to its start, consistent hashing reads the same cycle,
    sticky picks stay, and source leases rotate as their policy says. *)
From S2P Require Import Prelude Numbers LoadBalance.
Local Open Scope Z_scope.

(** ** The cycle of a weighted list *)

Definition cycle (cs : list Candidate) : list string :=
  cs ≫= fun c => replicate (Z.to_nat (weight c)) (id c).

Definition weights_ok (cs : list Candidate) : Prop := Forall (fun c => 0 <= weight c) cs.

Lemma cycle_length cs : weights_ok cs -> Z.of_nat (length (cycle cs)) = total_weight cs.
Proof.
  unfold total_weight. induction 1 as [|c cs Hc _ IH]; [done|].
  cbn [cycle mbind list_bind fmap list_fmap foldr]. rewrite length_app, length_replicate, Nat2Z.inj_add.
  fold (cycle cs). rewrite IH. lia.
Qed.

Lemma cycle_nil cs : cycle cs = [] <-> Forall (fun c => weight c <= 0) cs.
Proof.
  induction cs as [|c cs IH]; [done|]. rewrite Forall_cons, <- IH.
  change (cycle (c :: cs)) with (replicate (Z.to_nat (weight c)) (id c) ++ cycle cs).
  rewrite app_nil. split; intros [H1 H2]; (split; [|done]).
  - destruct (Z.to_nat (weight c)) eqn:E; [lia|done].
  - by replace (Z.to_nat (weight c)) with 0%nat by lia.
Qed.

(** ** Weighted round robin *)

Definition wrr_ok (s : Wrr) : Prop := (cursor s < length (cands s))%nat /\ 0 <= counter s.

(** What is left of the cycle before it starts again. *)
Definition ahead (s : Wrr) : list string :=
  let c := cands s !!! cursor s in
  replicate (Z.to_nat (weight c - counter s)) (id c) ++ cycle (drop (S (cursor s)) (cands s)).

Lemma drop_cursor (cs : list Candidate) i :
  (i < length cs)%nat -> drop i cs = (cs !!! i) :: drop (S i) cs.
Proof.
  intros Hi. destruct (lookup_lt_is_Some_2 cs i Hi) as [c Hc].
  rewrite (drop_S cs c i Hc). f_equal. symmetry. by apply list_lookup_total_correct.
Qed.

Lemma ahead_start cs i :
  (i < length cs)%nat -> ahead (mkWrr cs i 0) = cycle (drop i cs).
Proof.
  intros Hi. unfold ahead. simpl. rewrite Z.sub_0_r, (drop_cursor cs i Hi). done.
Qed.

(** A candidate with picks left, at or after the cursor. *)
Definition ready (s : Wrr) (j : nat) : Prop :=
  (cursor s <= j < length (cands s))%nat
  /\ (if decide (j = cursor s) then counter s < weight (cands s !!! j) else 0 < weight (cands s !!! j)).

Lemma wrr_loop_ready fuel s j :
  wrr_ok s -> ready s j -> (j - cursor s < fuel)%nat ->
  exists x s', wrr_loop fuel s = Some (x, s') /\ ahead s = x :: ahead s'
    /\ wrr_ok s' /\ cands s' = cands s.
Proof.
  revert s. induction fuel as [|fuel IH]; intros s [Hc Hk] [Hj Hr] Hf; [lia|]. cbn [wrr_loop].
  destruct (Z.ltb_spec (counter s) (weight (cands s !!! cursor s))) as [Hlt|Hge].
  - eexists _, _. split; [done|]. split_and!; [|split; simpl; lia|done].
    unfold ahead. simpl.
    replace (Z.to_nat (weight (cands s !!! cursor s) - counter s))
      with (S (Z.to_nat (weight (cands s !!! cursor s) - (counter s + 1)))) by lia. done.
  - case_decide as Hne; [subst; lia|].
    assert (Hn : ((cursor s + 1) mod length (cands s) = S (cursor s))%nat)
      by (rewrite Nat.mod_small by lia; lia).
    rewrite Hn. set (s1 := mkWrr (cands s) (S (cursor s)) 0).
    assert (Ha : ahead s = ahead s1).
    { subst s1. rewrite ahead_start by lia. unfold ahead.
      by replace (Z.to_nat (weight (cands s !!! cursor s) - counter s)) with 0%nat by lia. }
    destruct (IH s1) as (x & s' & He & Hx & Hok & Hcs); [split; simpl; lia| |simpl; lia|].
    { split; [simpl; lia|]. simpl. case_decide; [subst j; lia|lia]. }
    exists x, s'. by rewrite Ha.
Qed.

(** With nothing ahead the loop walks to the end of the list and starts again. *)
Lemma wrr_loop_wrap fuel s :
  wrr_ok s -> ahead s = [] ->
  wrr_loop (length (cands s) - cursor s + fuel) s = wrr_loop fuel (mkWrr (cands s) 0 0).
Proof.
  intros [Hc Hk] Ha. remember (length (cands s) - cursor s)%nat as n eqn:En.
  revert s Hc Hk Ha En. induction n as [|n IH]; intros s Hc Hk Ha En; [lia|]. cbn [wrr_loop Nat.add].
  unfold ahead in Ha. apply app_nil in Ha as [Hz Hrest].
  destruct (Z.ltb_spec (counter s) (weight (cands s !!! cursor s))) as [Hlt|Hge].
  { destruct (Z.to_nat (weight (cands s !!! cursor s) - counter s)) eqn:E; [lia|done]. }
  destruct (decide (S (cursor s) = length (cands s))) as [He|Hne].
  - replace ((cursor s + 1) mod length (cands s))%nat with 0%nat
      by (rewrite Nat.add_1_r, He, Nat.Div0.mod_same; done).
    by replace n with 0%nat by lia.
  - rewrite Nat.mod_small by lia. rewrite Nat.add_1_r.
    apply (IH (mkWrr (cands s) (S (cursor s)) 0)); [simpl; lia|simpl; lia| |simpl; lia].
    rewrite ahead_start by lia. done.
Qed.

Lemma cycle_ready cs i :
  (i <= length cs)%nat -> cycle (drop i cs) <> [] ->
  exists j, (i <= j < length cs)%nat /\ 0 < weight (cs !!! j).
Proof.
  intros Hi Hne. remember (length cs - i)%nat as n eqn:En. revert i Hi Hne En.
  induction n as [|n IH]; intros i Hi Hne En.
  { rewrite drop_ge in Hne by lia. done. }
  rewrite drop_cursor in Hne by lia. destruct (decide (0 < weight (cs !!! i))) as [Hw|Hw].
  { exists i. split; [lia|done]. }
  destruct (IH (S i)) as (j & Hj & Hjw); [lia| |lia|exists j; split; [lia|done]].
  intros Hnil. apply Hne.
  change (cycle (?c :: ?l)) with (replicate (Z.to_nat (weight c)) (id c) ++ cycle l).
  rewrite Hnil. by replace (Z.to_nat (weight (cs !!! i))) with 0%nat by lia.
Qed.

(** The candidates after the cursor are used up when nothing is ahead. *)
Lemma ahead_nil_after s j :
  ahead s = [] -> (cursor s < j < length (cands s))%nat -> weight (cands s !!! j) <= 0.
Proof.
  intros Ha Hj. unfold ahead in Ha. apply app_nil in Ha as [_ Ha]. apply cycle_nil in Ha.
  rewrite Forall_lookup in Ha. destruct (lookup_lt_is_Some_2 (cands s) j) as [c Hc]; [lia|].
  rewrite (list_lookup_total_correct _ _ _ Hc). apply (Ha (j - S (cursor s))%nat).
  rewrite lookup_drop. by replace (S (cursor s) + (j - S (cursor s)))%nat with j by lia.
Qed.

Lemma wrr_loop_restart s :
  wrr_ok s -> cycle (cands s) <> [] -> ahead s = [] ->
  exists x s', wrr_loop (S (length (cands s))) s = Some (x, s') /\ wrr_ok s'
    /\ cands s' = cands s /\ cycle (cands s) = x :: ahead s'.
Proof.
  intros Hok Hne Ha. pose proof Hok as [Hc Hk].
  destruct (cycle_ready (cands s) 0) as (j & Hj & Hw); [lia|done|].
  assert (Hjc : (j <= cursor s)%nat).
  { destruct (decide (j <= cursor s)%nat); [done|].
    pose proof (ahead_nil_after s j Ha). lia. }
  replace (S (length (cands s))) with (length (cands s) - cursor s + S (cursor s))%nat by lia.
  rewrite wrr_loop_wrap by done.
  destruct (wrr_loop_ready (S (cursor s)) (mkWrr (cands s) 0 0) j) as (x & s' & He & Hx & Hok' & Hcs).
  - split; simpl; lia.
  - split; [simpl; lia|]. simpl. by case_decide.
  - simpl. lia.
  - exists x, s'. split_and!; [done..|]. by rewrite <- Hx, ahead_start by lia.
Qed.

Lemma wrr_loop_go s :
  wrr_ok s -> ahead s <> [] ->
  exists x s', wrr_loop (S (length (cands s))) s = Some (x, s') /\ wrr_ok s'
    /\ cands s' = cands s /\ ahead s = x :: ahead s'.
Proof.
  intros Hok Ha. pose proof Hok as [Hc Hk].
  assert (exists j, ready s j) as [j Hj].
  { destruct (decide (counter s < weight (cands s !!! cursor s))) as [Hlt|Hge].
    - exists (cursor s). split; [lia|]. by rewrite decide_True.
    - unfold ahead in Ha.
      replace (Z.to_nat (weight (cands s !!! cursor s) - counter s)) with 0%nat in Ha by lia.
      destruct (cycle_ready (cands s) (S (cursor s))) as (j & Hj & Hw); [lia|done|].
      exists j. split; [lia|]. case_decide; [lia|done]. }
  destruct (wrr_loop_ready (S (length (cands s))) s j Hok Hj) as (x & s' & He & Hx & Hok' & Hcs).
  { destruct Hj as [? _]. lia. }
  by exists x, s'.
Qed.

(** One pick takes the head of what is ahead, starting the cycle again at its end. *)
Lemma wrr_pick_ahead s :
  wrr_ok s -> cycle (cands s) <> [] ->
  exists x s', wrr_pick s = Some (Some x, s') /\ wrr_ok s' /\ cands s' = cands s
    /\ (ahead s = x :: ahead s' \/ ahead s = [] /\ cycle (cands s) = x :: ahead s').
Proof.
  intros Hok Hne. unfold wrr_pick, wrr_fuel.
  destruct (cands s) as [|c cs] eqn:Ecs; [done|]. rewrite <- Ecs in *.
  destruct (ahead s) as [|y ys] eqn:Ea.
  - destruct (wrr_loop_restart s Hok Hne Ea) as (x & s' & -> & Hok' & Hcs & Hx).
    exists x, s'. by split_and!; [..|right].
  - destruct (wrr_loop_go s Hok) as (x & s' & -> & Hok' & Hcs & Hx); [by rewrite Ea|].
    exists x, s'. split_and!; [done..|left; congruence].
Qed.

Lemma concat_cycle_take {A} n (l c : list A) :
  c <> [] -> take n (l ++ concat (replicate (S n) c)) = take n (l ++ concat (replicate n c)).
Proof.
  intros Hc. rewrite replicate_S_end, concat_app, app_assoc. simpl. rewrite app_nil_r.
  apply take_app_le. rewrite length_app.
  assert (n <= length (concat (replicate n c)))%nat; [|lia].
  clear l. induction n as [|n IH]; simpl; [lia|]. rewrite length_app.
  destruct c; [done|]. simpl in *. lia.
Qed.

Lemma wrr_run_cycle n s :
  wrr_ok s -> cycle (cands s) <> [] ->
  exists s', wrr_run n s
    = Some (Some <$> take n (ahead s ++ concat (replicate n (cycle (cands s)))), s').
Proof.
  revert s. induction n as [|n IH]; intros s Hok Hne; [by exists s|].
  destruct (wrr_pick_ahead s Hok Hne) as (x & s1 & Hp & Hok1 & Hcs & Ha).
  destruct (IH s1 Hok1) as [s2 H2]; [by rewrite Hcs|]. exists s2.
  cbn [wrr_run]. rewrite Hp. simpl. rewrite H2. simpl. f_equal. f_equal.
  rewrite Hcs. destruct Ha as [-> | [-> Hc]].
  - cbn [app take fmap list_fmap]. f_equal. f_equal.
    symmetry. exact (concat_cycle_take n (ahead s1) (cycle (cands s)) Hne).
  - cbn [app replicate concat]. generalize (concat (replicate n (cycle (cands s)))). intros l.
    by rewrite Hc.
Qed.

(** as long as some weight is positive, every pick of the weighted round robin
    returns, and the picks from a new balancer are the cycle in which each
    candidate appears [weight] times in a row, repeated; with all weights zero and
    some candidate, the loop of [pick] never ends. *)
Theorem wrr_walks_the_cycle (cs : list Candidate) (n : nat) :
  (0 < total_weight cs -> weights_ok cs ->
   exists s', wrr_run n (wrr_new cs) = Some (Some <$> take n (concat (replicate n (cycle cs))), s'))
  /\ (cs <> [] -> Forall (fun c => weight c = 0) cs ->
      forall fuel, wrr_loop fuel (wrr_new cs) = None).
Proof.
  split.
  - intros Ht Hw. assert (Hne : cycle cs <> []).
    { intros Hn. pose proof (cycle_length cs Hw) as Hl. rewrite Hn in Hl. simpl in Hl. lia. }
    assert (Hlen : (0 < length cs)%nat) by (destruct cs; [done|simpl; lia]).
    destruct (wrr_run_cycle n (wrr_new cs)) as [s' Hs']; [by split|done|]. exists s'.
    rewrite Hs'. f_equal. f_equal. f_equal. unfold wrr_new. rewrite ahead_start by done. simpl.
    rewrite drop_0. change (cycle cs ++ concat (replicate n (cycle cs)))
      with (concat (replicate (S n) (cycle cs))).
    rewrite <- (app_nil_l (concat (replicate (S n) _))), concat_cycle_take by done. done.
  - intros Hne Hz fuel. unfold wrr_new.
    assert (Hi : (0 < length cs)%nat) by (destruct cs; [done|simpl; lia]). revert Hi.
    generalize 0%nat. induction fuel as [|fuel IH]; intros i Hi; [done|]. cbn [wrr_loop].
    simpl. destruct (lookup_lt_is_Some_2 cs i Hi) as [c Hc].
    rewrite (list_lookup_total_correct _ _ _ Hc), (proj1 (Forall_lookup _ _) Hz _ _ Hc). simpl.
    apply IH. apply Nat.mod_upper_bound. lia.
Qed.

Module DemoCands.
Definition two : list Candidate := [mkCandidate "a" 2; mkCandidate "b" 1].
Definition three : list Candidate := [mkCandidate "a" 5; mkCandidate "b" 1; mkCandidate "c" 1].
End DemoCands.

Lemma wrr_walks_the_cycle_witness :
  (exists s', wrr_run 4 (wrr_new DemoCands.two)
     = Some ([Some "a"; Some "a"; Some "b"; Some "a"]%string, s'))
  /\ forall fuel, wrr_loop fuel (wrr_new [mkCandidate "a" 0]) = None.
Proof.
  split.
  - apply (wrr_walks_the_cycle DemoCands.two 4); [reflexivity|].
    apply (bool_decide_unpack _). vm_compute. exact I.
  - apply (wrr_walks_the_cycle [mkCandidate "a" 0] 0); [done|]. repeat constructor.
Defined.

(** ** Sums over indices *)

Fixpoint sumf (n : nat) (f : nat -> Z) : Z :=
  match n with O => 0 | S n => sumf n f + f n end.

Lemma sumf_le n f g : (forall j, (j < n)%nat -> f j <= g j) -> sumf n f <= sumf n g.
Proof.
  induction n as [|n IH]; intros H; simpl; [lia|].
  specialize (IH (fun j Hj => H j (Nat.lt_lt_succ_r _ _ Hj))). specialize (H n ltac:(lia)). lia.
Qed.

Lemma sumf_const n c : sumf n (fun _ => c) = Z.of_nat n * c.
Proof. induction n as [|n IH]; simpl; [lia|]. rewrite IH. lia. Qed.

Lemma sumf_lin n a b f g :
  sumf n (fun j => a * f j + b * g j) = a * sumf n f + b * sumf n g.
Proof. induction n as [|n IH]; simpl; [lia|]. rewrite IH. lia. Qed.

Lemma sumf_ext n f g : (forall j, (j < n)%nat -> f j = g j) -> sumf n f = sumf n g.
Proof.
  intros H. apply Z.le_antisymm; apply sumf_le; intros j Hj; rewrite (H j Hj); lia.
Qed.

(** Equal sums of pointwise ordered functions are pointwise equal. *)
Lemma sumf_eq_all n f g :
  (forall j, (j < n)%nat -> f j <= g j) -> sumf n f = sumf n g ->
  forall j, (j < n)%nat -> f j = g j.
Proof.
  induction n as [|n IH]; intros Hle Hs j Hj; [lia|]. simpl in Hs.
  pose proof (sumf_le n f g (fun j Hj => Hle j (Nat.lt_lt_succ_r _ _ Hj))).
  pose proof (Hle n ltac:(lia)).
  destruct (decide (j = n)) as [->|]; [lia|]. apply IH; [|lia|lia]. intros; apply Hle; lia.
Qed.

(** How often [j] occurs in [l]. *)
Definition occurs (j : nat) (l : list nat) : Z := Z.of_nat (count_occ Nat.eq_dec l j).

Lemma sumf_delta n i : sumf n (fun j => if decide (i = j) then 1 else 0) = if decide (i < n)%nat then 1 else 0.
Proof.
  induction n as [|n IH]; simpl; [done|]. rewrite IH. repeat case_decide; lia.
Qed.

Lemma occurs_cons i l j : occurs j (i :: l) = (if decide (i = j) then 1 else 0) + occurs j l.
Proof.
  unfold occurs. simpl. destruct (Nat.eq_dec i j); case_decide; lia.
Qed.

Lemma sumf_occurs n l :
  Forall (fun i => i < n)%nat l -> sumf n (fun j => occurs j l) = Z.of_nat (length l).
Proof.
  induction 1 as [|i l Hi _ IH].
  { rewrite (sumf_ext n _ (fun _ => 0)) by done. rewrite sumf_const. simpl. lia. }
  rewrite (sumf_ext n _ (fun j => 1 * (if decide (i = j) then 1 else 0) + 1 * occurs j l))
    by (intros j _; rewrite occurs_cons; lia).
  rewrite sumf_lin, sumf_delta, IH, decide_True by done. simpl. lia.
Qed.

(** ** Smooth weighted round robin *)

Section Smooth.
Variable cs : list Candidate.
Hypothesis Hw : weights_ok cs.
Let n := length cs.
Let w (j : nat) : Z := weight (cs !!! j).
Let T := total_weight cs.

Lemma sumf_total (l : list Candidate) : sumf (length l) (fun j => weight (l !!! j)) = total_weight l.
Proof.
  unfold total_weight. induction l as [|c l IH] using rev_ind; [done|].
  rewrite length_app, Nat.add_1_r. simpl.
  rewrite fmap_app, foldr_app. simpl.
  rewrite (sumf_ext _ _ (fun j => weight (l !!! j))).
  - rewrite IH. rewrite lookup_total_app_r by lia. rewrite Nat.sub_diag. simpl.
    rewrite Z.add_0_r. generalize (weight c) (weight <$> l). intros x ys.
    induction ys as [|y ys IHy]; simpl; lia.
  - intros j Hj. by rewrite lookup_total_app_l.
Qed.

(** The loop adds every weight and ends at an index of the largest sum. *)
Lemma swrr_loop_spec (l : list Candidate) i cur best :
  (i + length l)%nat = length cur -> (best < length cur)%nat -> (best < i \/ i = 0 /\ best = 0)%nat ->
  (forall j, (j < i)%nat -> cur !!! j <= cur !!! best) ->
  let '(cur', best') := swrr_loop l i cur best in
  length cur' = length cur /\ (best' < length cur')%nat
  /\ (forall j, (j < length cur)%nat ->
        cur' !!! j = if decide (i <= j)%nat then cur !!! j + weight (l !!! (j - i)%nat) else cur !!! j)
  /\ (forall j, (j < length cur)%nat -> cur' !!! j <= cur' !!! best').
Proof.
  revert i cur best. induction l as [|c l IH]; intros i cur best Hl Hb Hbi Hmax; simpl in *.
  { split_and!; [done|done| |intros j Hj; apply Hmax; lia].
    intros j Hj. rewrite decide_False by lia. done. }
  set (cur1 := alter (fun x => x + weight c) i cur).
  assert (Hl1 : length cur1 = length cur) by apply length_alter.
  assert (Hat : forall j, cur1 !!! j = if decide (j = i) then cur !!! i + weight c else cur !!! j).
  { intros j. subst cur1. case_decide as Hj; [subst; by rewrite list_lookup_total_alter_eq by lia|].
    by rewrite list_lookup_total_alter_ne. }
  set (best1 := if cur1 !!! best <? cur1 !!! i then i else best).
  specialize (IH (S i) cur1 best1). destruct (swrr_loop l (S i) cur1 best1) as [cur' best'].
  destruct IH as (H1 & H2 & H3 & H4).
  - lia.
  - subst best1. destruct (_ <? _); lia.
  - subst best1. destruct (_ <? _); lia.
  - intros j Hj. subst best1. destruct (Z.ltb_spec (cur1 !!! best) (cur1 !!! i)) as [Hlt|Hge].
    + destruct (decide (j = i)) as [->|]; [lia|]. specialize (Hmax j ltac:(lia)).
      rewrite !Hat in *. repeat case_decide; lia.
    + destruct (decide (j = i)) as [->|]; [lia|]. specialize (Hmax j ltac:(lia)).
      rewrite !Hat in *. repeat case_decide; lia.
  - rewrite Hl1 in *. split_and!; [done|done| |done].
    intros j Hj. rewrite H3, Hat by done. destruct (Nat.lt_trichotomy j i) as [Hlt|[->|Hgt]].
    + by rewrite !decide_False by lia.
    + by rewrite decide_False, !decide_True, Nat.sub_diag by lia.
    + rewrite decide_True, decide_False, decide_True by lia.
      by replace (j - i)%nat with (S (j - S i)) by lia.
Qed.

(** [s] after picking the indices [bs]. *)
Record smooth_inv (s : Swrr) (bs : list nat) : Prop := {
  si_cands : scands s = cs;
  si_len : length (current s) = n;
  si_idx : Forall (fun b => b < n)%nat bs;
  si_cur : forall j, (j < n)%nat -> current s !!! j = Z.of_nat (length bs) * w j - occurs j bs * T;
  si_low : forall j, (j < n)%nat -> - T < current s !!! j
}.

Lemma smooth_step s bs :
  0 < T -> smooth_inv s bs ->
  let '(b, s') := swrr_step s in smooth_inv s' (b :: bs).
Proof.
  intros HT [Hc Hl Hi Hcur Hlow]. unfold swrr_step. rewrite Hc.
  assert (Hn : (0 < n)%nat).
  { destruct (decide (length cs = 0%nat)) as [E%nil_length_inv|]; [|unfold n; lia].
    unfold T in HT. by rewrite E in HT. }
  pose proof (swrr_loop_spec cs 0 (current s) 0) as Hs.
  destruct (swrr_loop cs 0 (current s) 0) as [cur b].
  destruct Hs as (H1 & H2 & H3 & H4); [unfold n in *; simpl; lia|lia|lia|lia|].
  rewrite Hl in *. fold T.
  assert (Hcur' : forall j, (j < n)%nat ->
    cur !!! j = Z.of_nat (S (length bs)) * w j - occurs j bs * T).
  { intros j Hj. rewrite H3, decide_True, Nat.sub_0_r, Hcur by lia. fold (w j). lia. }
  assert (Hpos : 0 < cur !!! b).
  { assert (Hsum : sumf n (fun j => cur !!! j) = T).
    { rewrite (sumf_ext n _ (fun j => Z.of_nat (S (length bs)) * w j + - T * occurs j bs))
        by (intros j Hj; rewrite Hcur' by done; lia).
      rewrite sumf_lin, sumf_occurs by done. unfold w, n. rewrite sumf_total. fold T. lia. }
    pose proof (sumf_le n (fun j => cur !!! j) (fun _ => cur !!! b) H4) as Hle.
    rewrite sumf_const in Hle. nia. }
  assert (Hat : forall j, alter (fun x => x - T) b cur !!! j
                  = if decide (b = j) then cur !!! j - T else cur !!! j).
  { intros j. case_decide as Hj; [subst; by rewrite list_lookup_total_alter_eq by lia|].
    by rewrite list_lookup_total_alter_ne. }
  split; simpl.
  - done.
  - rewrite length_alter. lia.
  - constructor; [lia|done].
  - intros j Hj. rewrite Hat, occurs_cons, Hcur' by done. simpl length. case_decide; lia.
  - intros j Hj. rewrite Hat. case_decide as Hbj; [subst; lia|]. rewrite Hcur' by done.
    specialize (Hlow j Hj). rewrite Hcur in Hlow by done.
    assert (0 <= w j); [|lia]. unfold w.
    destruct (lookup_lt_is_Some_2 cs j Hj) as [c Hcj]. rewrite (list_lookup_total_correct _ _ _ Hcj).
    eapply Forall_lookup_1 in Hw; done.
Qed.

Hypothesis Hnd : NoDup (id <$> cs).
Hypothesis HT : 0 < T.

Definition picked (x : string) (xs : list (option string)) : Z :=
  Z.of_nat (length (filter (fun y => y = Some x) xs)).

Lemma id_inj i j : (i < n)%nat -> (j < n)%nat -> id (cs !!! i) = id (cs !!! j) -> i = j.
Proof.
  intros Hi Hj He. destruct (lookup_lt_is_Some_2 cs i Hi) as [a Ha], (lookup_lt_is_Some_2 cs j Hj) as [b Hb].
  rewrite (list_lookup_total_correct _ _ _ Ha), (list_lookup_total_correct _ _ _ Hb) in He.
  apply (NoDup_lookup (id <$> cs) i j (id a)); [done|by rewrite list_lookup_fmap, Ha|].
  rewrite list_lookup_fmap, Hb. simpl. by rewrite He.
Qed.

Lemma smooth_run k s bs :
  smooth_inv s bs ->
  let '(xs, s') := swrr_run k s in
  exists bs', smooth_inv s' bs' /\ length bs' = (k + length bs)%nat
    /\ forall j, (j < n)%nat -> occurs j bs' = picked (id (cs !!! j)) xs + occurs j bs.
Proof.
  revert s bs. induction k as [|k IH]; intros s bs Hs; simpl; [exists bs; split_and!; [done|lia|done]|].
  pose proof (smooth_step s bs HT Hs) as Hstep. unfold swrr_pick.
  destruct (scands s) as [|c l] eqn:Ec.
  { rewrite (si_cands _ _ Hs) in Ec. exfalso. unfold T in HT. by rewrite Ec in HT. }
  rewrite <- Ec. destruct (swrr_step s) as [b s1].
  specialize (IH s1 _ Hstep). destruct (swrr_run k s1) as [xs s2].
  destruct IH as (bs' & Hi & Hl & Ho). exists bs'. split_and!; [done|simpl in *; lia|].
  intros j Hj. rewrite Ho, occurs_cons by done. unfold picked. rewrite filter_cons, (si_cands _ _ Hs).
  assert (Hb : (b < n)%nat) by (pose proof (si_idx _ _ Hstep) as Hf; by apply Forall_cons in Hf as [? _]).
  destruct (decide (b = j)) as [->|Hne].
  - rewrite decide_True by done. simpl length. lia.
  - rewrite decide_False; [lia|]. intros [= He]. apply Hne. by apply id_inj.
Qed.

Lemma smooth_new : smooth_inv (swrr_new cs) [].
Proof.
  split; simpl; [done|apply length_replicate|constructor| |];
    intros j Hj; rewrite lookup_total_replicate_2 by done; unfold occurs; simpl; lia.
Qed.

Lemma smooth_period :
  let '(xs, s') := swrr_run (Z.to_nat T) (swrr_new cs) in
  s' = swrr_new cs /\ forall j, (j < n)%nat -> picked (id (cs !!! j)) xs = w j.
Proof.
  pose proof (smooth_run (Z.to_nat T) _ _ smooth_new) as Hr.
  destruct (swrr_run _ _) as [xs s']. destruct Hr as (bs & [Hc Hl Hi Hcur Hlow] & Hlen & Ho).
  simpl in Hlen. rewrite Nat.add_0_r in Hlen.
  assert (Heq : forall j, (j < n)%nat -> occurs j bs = w j).
  { apply sumf_eq_all.
    - intros j Hj. specialize (Hlow j Hj). rewrite Hcur in Hlow by done.
      rewrite Hlen, Z2Nat.id in Hlow by lia. nia.
    - rewrite sumf_occurs by done. unfold w, n. rewrite sumf_total. fold T. lia. }
  split.
  - destruct s' as [cs' cur]; simpl in *. subst cs'. unfold swrr_new. f_equal.
    apply list_eq_same_length with n; [by rewrite length_replicate|done|].
    intros j x y Hj Hx Hy. apply lookup_replicate in Hy as [-> _].
    rewrite <- (list_lookup_total_correct _ _ _ Hx), Hcur, Heq by done. rewrite Hlen. lia.
  - intros j Hj. rewrite <- Heq, Ho by done. unfold occurs. simpl. lia.
Qed.
End Smooth.

(** over a period of [total] picks the smooth weighted round robin picks every
    candidate exactly [weight] times and returns to its initial state. *)
Theorem swrr_is_fair (cs : list Candidate)
    (Hw : weights_ok cs) (Hnd : NoDup (id <$> cs)) (HT : 0 < total_weight cs) :
  let '(xs, s') := swrr_run (Z.to_nat (total_weight cs)) (swrr_new cs) in
  s' = swrr_new cs /\ forall c, c ∈ cs -> picked (id c) xs = weight c.
Proof.
  pose proof (smooth_period cs Hw Hnd HT) as Hp.
  destruct (swrr_run _ _) as [xs s']. destruct Hp as [Hs Hp]. split; [done|].
  intros c (j & Hj)%list_elem_of_lookup. rewrite <- (list_lookup_total_correct _ _ _ Hj).
  apply Hp. by eapply lookup_lt_Some.
Qed.

Lemma swrr_is_fair_witness :
  let '(xs, s') := swrr_run 7 (swrr_new DemoCands.three) in
  xs = Some <$> ["a"; "a"; "b"; "a"; "c"; "a"; "a"]%string
  /\ s' = swrr_new DemoCands.three
  /\ forall c, c ∈ DemoCands.three -> picked (id c) xs = weight c.
Proof.
  pose proof (swrr_is_fair DemoCands.three) as H. change (Z.to_nat _) with 7%nat in H.
  destruct (swrr_run 7 (swrr_new DemoCands.three)) as [xs s'] eqn:E. vm_compute in E.
  injection E as <- <-. split; [reflexivity|]. apply H.
  - apply (bool_decide_unpack _). vm_compute. exact I.
  - apply (bool_decide_unpack _). vm_compute. exact I.
  - reflexivity.
Defined.

(** * Consistent hashing, sticky picks and source leases *)

Local Open Scope Z_scope.

(** ** Consistent hashing *)

Lemma bucket_loop_cycle cs b :
  weights_ok cs -> 0 <= b -> bucket_loop cs b = cycle cs !! Z.to_nat b.
Proof.
  intros Hw. revert b. induction Hw as [|c cs Hc _ IH]; intros b Hb; [done|].
  change (cycle (c :: cs)) with (replicate (Z.to_nat (weight c)) (id c) ++ cycle cs).
  cbn [bucket_loop]. destruct (Z.ltb_spec b (weight c)) as [Hlt|Hge].
  - rewrite lookup_app_l by (rewrite length_replicate; lia).
    symmetry. apply lookup_replicate_2. lia.
  - rewrite lookup_app_r by (rewrite length_replicate; lia). rewrite length_replicate, IH by lia.
    f_equal. lia.
Qed.

Lemma cycle_elem cs x : x ∈ cycle cs <-> exists c, c ∈ cs /\ 0 < weight c /\ x = id c.
Proof.
  unfold cycle. rewrite list_elem_of_bind. split.
  - intros (c & Hx & Hc). apply elem_of_replicate in Hx as [-> Hn]. exists c. split_and!; [done|lia|done].
  - intros (c & Hc & Hw & ->). exists c. split; [|done]. apply elem_of_replicate. split; [done|lia].
Qed.

(** consistent hashing is total when some weight is positive: the key's hash
    modulo the total weight is a position of the weighted cycle, so each candidate
    owns exactly [weight] of the [total] buckets and candidates of weight zero are
    never picked; with no weight at all there is no pick. *)
Theorem consistent_hash_reads_cycle (fxhash : string -> Z) (cs : list Candidate) (key : string)
    (Hw : weights_ok cs) :
  (0 < total_weight cs ->
   consistent_pick fxhash cs key = cycle cs !! Z.to_nat (fxhash key mod total_weight cs)
   /\ exists c, c ∈ cs /\ 0 < weight c /\ consistent_pick fxhash cs key = Some (id c))
  /\ (total_weight cs = 0 -> consistent_pick fxhash cs key = None).
Proof.
  unfold consistent_pick. split; [intros HT|intros HT; rewrite HT; by destruct cs].
  assert (Hb : 0 <= fxhash key mod total_weight cs < total_weight cs) by (apply Z.mod_pos_bound; lia).
  destruct cs as [|c0 cs0] eqn:Ecs; [done|]. rewrite <- Ecs in *.
  rewrite (proj2 (Z.eqb_neq _ _)) by lia. rewrite bucket_loop_cycle by (done || lia).
  split; [done|]. pose proof (cycle_length cs Hw) as Hl.
  destruct (lookup_lt_is_Some_2 (cycle cs) (Z.to_nat (fxhash key mod total_weight cs))) as [x Hx]; [lia|].
  rewrite Hx. apply list_elem_of_lookup_2 in Hx as (c & Hc & Hp & ->)%cycle_elem. by exists c.
Qed.

Lemma consistent_hash_reads_cycle_witness :
  consistent_pick (fun _ => 100) DemoCands.two "k" = Some "a"%string
  /\ exists c, c ∈ DemoCands.two /\ 0 < weight c
       /\ consistent_pick (fun _ => 100) DemoCands.two "k" = Some (id c).
Proof.
  split; [reflexivity|]. apply consistent_hash_reads_cycle; [|reflexivity].
  apply (bool_decide_unpack _). vm_compute. exact I.
Defined.

(** ** Sticky table *)

(** The picker was built for the ids it is remembered under. *)
Definition sticky_inv (t : StickyTable) : Prop :=
  (id <$> cands (picker t)) = picker_ids t /\ (cands (picker t) <> [] -> wrr_ok (picker t)).

Lemma wrr_loop_member fuel s x s' :
  wrr_ok s -> wrr_loop fuel s = Some (x, s') ->
  x ∈ id <$> cands s /\ cands s' = cands s /\ wrr_ok s'.
Proof.
  revert s. induction fuel as [|fuel IH]; intros s [Hc Hk]; [done|]. cbn [wrr_loop].
  destruct (_ <? _); intros Hl.
  - simplify_eq. split_and!; [|done|split; simpl; lia]. apply list_elem_of_fmap_2.
    destruct (lookup_lt_is_Some_2 (cands s) (cursor s) Hc) as [c Hcc].
    rewrite (list_lookup_total_correct _ _ _ Hcc). by eapply list_elem_of_lookup_2.
  - apply IH in Hl; [done|]. split; simpl; [|lia]. apply Nat.mod_upper_bound. lia.
Qed.

Lemma wrr_pick_member s x s' :
  (cands s <> [] -> wrr_ok s) -> wrr_pick s = Some (x, s') ->
  cands s' = cands s /\ (cands s' <> [] -> wrr_ok s')
  /\ match x with Some y => y ∈ id <$> cands s | None => cands s = [] end.
Proof.
  unfold wrr_pick. intros Hok. destruct (cands s) as [|c cs] eqn:E; [intros [= <- <-]; by rewrite E|].
  rewrite <- E in *. destruct (wrr_loop _ s) as [[y s1]|] eqn:El; [|done]. intros [= <- <-].
  apply wrr_loop_member in El as (H1 & H2 & H3); [done|]. apply Hok. by rewrite E.
Qed.

Lemma refresh_inv t cs :
  sticky_inv t -> sticky_inv (refresh_picker t cs) /\ picker_ids (refresh_picker t cs) = (id <$> cs)
    /\ sticky_entries (refresh_picker t cs) = sticky_entries t /\ ttl_ms (refresh_picker t cs) = ttl_ms t.
Proof.
  intros [Hi Hk]. unfold refresh_picker. case_decide; [done|]. split_and!; [|done..].
  split; [done|]. simpl. intros Hne. split; simpl; [|lia]. destruct cs; [done|simpl; lia].
Qed.

(** One pick: the result is an active candidate, remembered under the key. *)
Lemma sticky_pick_spec t key cs now x t' :
  sticky_inv t -> cs <> [] -> 0 <= now < U64_MAX -> 1 <= ttl_ms t ->
  sticky_pick t key cs now = Some (x, t') ->
  sticky_inv t' /\ ttl_ms t' = ttl_ms t
  /\ (forall k, k <> key -> sticky_entries t' !! k = sticky_entries t !! k)
  /\ exists y e, x = Some y /\ y ∈ id <$> cs /\ sticky_entries t' !! key = Some e
       /\ sticky_candidate_id e = y /\ now < expires_at_ms e.
Proof.
  intros Hinv Hne Hnow Httl. unfold sticky_pick. destruct cs as [|c l] eqn:Ecs; [done|].
  rewrite <- Ecs in *. clear Hne.
  destruct (match sticky_entries t !! key with Some e => _ | None => None end) as [y|] eqn:Eh.
  { intros [= <- <-]. split_and!; [done..|].
    destruct (sticky_entries t !! key) as [e|]; [|done].
    destruct (Z.ltb_spec now (expires_at_ms e)); [|done]. simpl in Eh.
    case_bool_decide; simplify_eq. by exists (sticky_candidate_id e), e. }
  destruct (refresh_inv t cs Hinv) as ([Hi Hk] & Hids & Hent & Htt).
  destruct (wrr_pick (picker (refresh_picker t cs))) as [[p w]|] eqn:Ep; [|done]. simpl.
  apply wrr_pick_member in Ep as (Hc & Hok & Hp); [|done].
  destruct p as [p|]; intros [= <- <-].
  - split_and!; [split; simpl; [by rewrite Hc|done]|done| |].
    + intros k Hne. simpl. by rewrite lookup_insert_ne, Hent.
    + eexists p, _. split_and!; [done|by rewrite <- Hids, <- Hi|apply lookup_insert_eq|done|].
      simpl. unfold saturating_add. rewrite Htt. lia.
  - exfalso. rewrite Hp in Hi. rewrite <- Hi, Ecs in Hids. done.
Qed.

Fixpoint sticky_run (t : StickyTable) (ops : list (string * list Candidate * Z)) : option StickyTable :=
  match ops with
  | [] => Some t
  | (key, cs, now) :: ops => '(_, t') ← sticky_pick t key cs now; sticky_run t' ops
  end.

Definition other_op (key : string) (op : string * list Candidate * Z) : Prop :=
  op.1.1 <> key /\ op.1.2 <> [] /\ 0 <= op.2 < U64_MAX.

Lemma sticky_run_others t key ops t' :
  sticky_inv t -> 1 <= ttl_ms t -> Forall (other_op key) ops -> sticky_run t ops = Some t' ->
  sticky_entries t' !! key = sticky_entries t !! key.
Proof.
  intros Hinv Httl Hops. revert t Hinv Httl. induction Hops as [|[[k cs] now] ops (H1 & H2 & H3) _ IH];
    intros t Hinv Httl; simpl; [intros [= <-]; done|].
  destruct (sticky_pick t k cs now) as [[x t1]|] eqn:E; [|done]. simpl. intros Hr.
  apply sticky_pick_spec in E as (Hi & Ht & Ho & _); [|done..].
  rewrite (IH t1) by (done || lia). by apply Ho.
Qed.

Lemma sticky_hit t key cs now e :
  cs <> [] -> sticky_entries t !! key = Some e -> now < expires_at_ms e ->
  sticky_candidate_id e ∈ id <$> cs ->
  sticky_pick t key cs now = Some (Some (sticky_candidate_id e), t).
Proof.
  intros Hne He Hx Hin. unfold sticky_pick. destruct cs as [|c l]; [done|].
  rewrite He, (proj2 (Z.ltb_lt _ _) Hx), bool_decide_eq_true_2 by done. done.
Qed.

(** a pick returns an active candidate and remembers it; until the entry
    expires, and whatever is picked for other keys in between, the key gets the
    same candidate as long as that is active. *)
Theorem sticky_pick_sticks (t : StickyTable) (key : string) (cs : list Candidate) (now : Z)
    (x : option string) (t' : StickyTable)
    (Hinv : sticky_inv t) (Hne : cs <> []) (Hnow : 0 <= now < U64_MAX) (Httl : 1 <= ttl_ms t)
    (Hp : sticky_pick t key cs now = Some (x, t')) :
  exists y e, x = Some y /\ y ∈ id <$> cs /\ sticky_entries t' !! key = Some e
    /\ now < expires_at_ms e
    /\ forall ops t'' cs' now', Forall (other_op key) ops -> sticky_run t' ops = Some t'' ->
         cs' <> [] -> y ∈ id <$> cs' -> now' < expires_at_ms e ->
         sticky_pick t'' key cs' now' = Some (Some y, t'').
Proof.
  apply sticky_pick_spec in Hp as (Hi & Ht & _ & y & e & -> & Hy & He & Hc & Hx); [|done..].
  exists y, e. split_and!; [done..|]. intros ops t'' cs' now' Hops Hrun Hne' Hin Hnow'.
  rewrite <- Hc. apply sticky_hit; [done| |done|by rewrite Hc].
  rewrite (sticky_run_others t' key ops t'') by (done || lia). done.
Qed.

Lemma sticky_pick_sticks_witness :
  let t := sticky_new 100 in
  exists t', sticky_pick t "k" DemoCands.two 5 = Some (Some "a"%string, t')
    /\ exists y e, Some "a"%string = Some y /\ y ∈ id <$> DemoCands.two
         /\ sticky_entries t' !! "k"%string = Some e /\ 5 < expires_at_ms e.
Proof.
  assert (Hinv : sticky_inv (sticky_new 100)) by (split; [reflexivity|done]).
  set (t' := match sticky_pick (sticky_new 100) "k" DemoCands.two 5 with
             | Some (_, t') => t' | None => sticky_new 100 end).
  assert (Hp : sticky_pick (sticky_new 100) "k" DemoCands.two 5 = Some (Some "a"%string, t'))
    by (vm_compute; reflexivity).
  exists t'. split; [exact Hp|].
  destruct (sticky_pick_sticks (sticky_new 100) "k" DemoCands.two 5 _ _ Hinv ltac:(done)
              ltac:(vm_compute; split; [discriminate|reflexivity])
              ltac:(vm_compute; discriminate) Hp)
    as (y & e & H1 & H2 & H3 & H4 & _).
  exists y, e. split_and!; [exact H1|exact H2|exact H3|exact H4].
Defined.

(** The picker is kept when only weights change: with [b] raised from 1 to 100 the
    picks for new keys still alternate. *)
Example sticky_ignores_new_weights :
  let before := [mkCandidate "a" 1; mkCandidate "b" 1] in
  let after := [mkCandidate "a" 1; mkCandidate "b" 100] in
  let pick t key cs := match sticky_pick t key cs 0 with Some r => r | None => (None, t) end in
  let '(r1, t1) := pick (sticky_new 10) "k1"%string before in
  let '(r2, t2) := pick t1 "k2"%string after in
  let '(r3, t3) := pick t2 "k3"%string after in
  let '(r4, _) := pick t3 "k4"%string after in
  [r1; r2; r3; r4] = [Some "a"; Some "b"; Some "a"; Some "b"]%string.
Proof. vm_compute. reflexivity. Qed.

(** ** Source leases *)

Section Leases.
Variable score_gt : string -> Z -> Candidate -> Candidate -> bool.

Lemma rendezvous_member key gen cs exclude best c :
  rendezvous_loop score_gt key gen cs exclude best = Some c ->
  best = Some c \/ c ∈ cs /\ exclude <> Some (id c).
Proof.
  revert best. induction cs as [|d cs IH]; intros best; simpl; [auto|].
  case_bool_decide as He; intros [Hb|[Hin Hx]]%IH; [auto|set_solver| |set_solver].
  destruct (match best with Some _ => _ | None => true end); [|auto].
  simplify_eq. right. split; [set_solver|congruence].
Qed.

Lemma rendezvous_some key gen cs exclude best :
  (is_Some best \/ exists c, c ∈ cs /\ exclude <> Some (id c)) ->
  is_Some (rendezvous_loop score_gt key gen cs exclude best).
Proof.
  revert best. induction cs as [|d cs IH]; intros best Hs; simpl; [destruct Hs as [|(?&?&_)]; [done|set_solver]|].
  case_bool_decide as He.
  - apply IH. destruct Hs as [|(c & Hc & Hx)]; [auto|]. right. exists c. set_solver.
  - apply IH. left. destruct best; [by destruct (score_gt _ _ _ _)|done].
Qed.

Lemma rendezvous_pick key gen cs exclude :
  (exists c, c ∈ cs /\ exclude <> Some (id c)) ->
  exists x, pick_weighted_rendezvous score_gt key gen cs exclude = Some x
    /\ x ∈ id <$> cs /\ exclude <> Some x.
Proof.
  intros Hc. unfold pick_weighted_rendezvous.
  destruct (rendezvous_some key gen cs exclude None) as [c Hr]; [auto|].
  rewrite Hr. apply rendezvous_member in Hr as [[=]|[Hin Hx]].
  exists (id c). split_and!; [done|by apply list_elem_of_fmap_2|done].
Qed.

(** Two candidates with different ids leave one that is not excluded. *)
Lemma not_all_excluded (cs : list Candidate) x :
  NoDup (id <$> cs) -> (1 < length cs)%nat -> exists c, c ∈ cs /\ Some x <> Some (id c).
Proof.
  destruct cs as [|a [|b cs]]; simpl; [lia..|]. intros Hnd _.
  destruct (decide (id a = x)) as [<-|Hne]; [|exists a; split; [set_solver|congruence]].
  exists b. split; [set_solver|]. intros [= He]. rewrite He in Hnd.
  apply NoDup_cons in Hnd as [Hn _]. apply Hn. set_solver.
Qed.

(** What a decision must be, given the source's entry. *)
Definition lease_allowed (c : SourceLeaseRotateConfig) (cs : list Candidate) (now : Z)
    (act : option SourceLeaseActivity) (e : SourceLeaseEntry) (d : SourceLeaseDecision) : Prop :=
  match lease_reason d with
  | LeaseNew => False
  | Hit => candidate_id d = entry_candidate_id e /\ generation d = entry_generation e
           /\ idle_expired c e now act = false
           /\ (max_age_policy c <> MaxAgeOff ->
               saturating_sub now (created_at_ms e) < max_age_ms c \/ now < cooldown_until_ms e)
  | Unhealthy => (entry_candidate_id e ∉ id <$> cs) /\ generation d = as_u64 (entry_generation e + 1)
  | IdleExpired => entry_candidate_id e ∈ id <$> cs /\ idle_expired c e now act = true
                   /\ generation d = as_u64 (entry_generation e + 1)
  | MaxAgeSoft | MaxAgeHard =>
      max_age_policy c = (if decide (lease_reason d = MaxAgeHard) then Hard else Soft)
      /\ idle_expired c e now act = false
      /\ max_age_ms c <= saturating_sub now (created_at_ms e) /\ cooldown_until_ms e <= now
      /\ generation d = as_u64 (entry_generation e + 1)
      /\ (lease_reason d = MaxAgeHard -> (1 < length cs)%nat ->
          candidate_id d <> entry_candidate_id e)
  end.

Lemma lease_judge_spec c existing cs now act :
  NoDup (id <$> cs) -> cs <> [] ->
  match lease_judge c existing cs now act with
  | Keep e => existing = Some e /\ entry_candidate_id e ∈ id <$> cs
      /\ lease_allowed c cs now act e (mkLeaseDecision (entry_candidate_id e) Hit (entry_generation e))
  | Repick reason gen exclude =>
      (exists k, k ∈ cs /\ exclude <> Some (id k))
      /\ match existing with
         | None => reason = LeaseNew /\ gen = 0
         | Some e => forall x, exclude <> Some x ->
             lease_allowed c cs now act e (mkLeaseDecision x reason gen)
         end
  end.
Proof.
  intros Hnd Hne. assert (Hany : exists k, k ∈ cs /\ None <> Some (id k))
    by (destruct cs as [|k cs]; [done|exists k; split; [set_solver|done]]).
  unfold lease_judge. destruct existing as [e|]; [|done].
  case_bool_decide as Hin; [|done]. simpl negb. cbv iota.
  destruct (idle_expired c e now act) eqn:Ei; [done|].
  destruct (Z.leb_spec (max_age_ms c) (saturating_sub now (created_at_ms e))) as [Ha|Ha];
    destruct (Z.leb_spec (cooldown_until_ms e) now) as [Hc|Hc];
    destruct (max_age_policy c) eqn:Ep; simpl;
    try (split_and!; [done|done|]; unfold lease_allowed; simpl; split_and!;
         [done|done|done|intros; (lia || congruence)]).
  - split; [done|]. intros x _. unfold lease_allowed. simpl. split_and!; try done; lia.
  - split.
    + destruct (Nat.ltb_spec 1 (length cs)); [by apply not_all_excluded|done].
    + intros x Hx. unfold lease_allowed. simpl. split_and!; try done; try lia.
      intros _ Hl. rewrite (proj2 (Nat.ltb_lt _ _) Hl) in Hx. congruence.
Qed.

(** with distinct candidates a lease decision always exists and names an active
    candidate; it is remembered for the source and nothing else changes. A new
    source gets generation 0; a known one keeps its candidate exactly when the
    candidate is active, not idle and not due for rotation, and otherwise moves to
    the next generation for the reason given: unhealthy, idle, or past its maximal
    age and cooldown, the hard policy never choosing the same candidate again
    when there is another. *)
Theorem lease_decisions_follow_policy (s : SourceLeaseRotate) (key : string)
    (cs : list Candidate) (now : Z) (act : option SourceLeaseActivity)
    (Hnd : NoDup (id <$> cs)) (Hne : cs <> []) :
  exists d e' s', pick_inner score_gt s key cs now act = (Some d, s')
    /\ candidate_id d ∈ id <$> cs
    /\ lease_entries s' = <[key := e']> (lease_entries s) /\ lease_config s' = lease_config s
    /\ entry_candidate_id e' = candidate_id d /\ entry_generation e' = generation d
    /\ last_seen_at_ms e' = now
    /\ match lease_entries s !! key with
       | None => lease_reason d = LeaseNew /\ generation d = 0
       | Some e => lease_allowed (lease_config s) cs now act e d
       end.
Proof.
  unfold pick_inner. destruct cs as [|c0 l] eqn:Ecs; [done|]. rewrite <- Ecs in *.
  pose proof (lease_judge_spec (lease_config s) (lease_entries s !! key) cs now act Hnd Hne) as Hj.
  destruct (lease_judge _ _ _ _ _) as [e|reason gen exclude].
  - destruct Hj as (He & Hin & Hal). eexists _, _, _. split; [done|]. rewrite He. by split_and!.
  - destruct Hj as [Hex Hcase]. destruct (rendezvous_pick key gen cs exclude Hex) as (x & -> & Hx & Hne').
    eexists _, _, _. split; [done|]. split_and!; [done..|].
    destruct (lease_entries s !! key) as [e|]; [by apply Hcase|done].
Qed.
End Leases.

Lemma lease_decisions_follow_policy_witness :
  let cfg := mkLeaseConfig 100 50 Hard 10 in
  let gt (_ : string) (_ : Z) (_ _ : Candidate) := false in
  let s0 := lease_new cfg in
  let s1 := (pick_inner gt s0 "src" DemoCands.two 0 None).2 in
  exists d e' s', pick_inner gt s1 "src" DemoCands.two 60 None = (Some d, s')
    /\ candidate_id d = "b"%string /\ lease_reason d = MaxAgeHard
    /\ lease_entries s' = <["src"%string := e']> (lease_entries s1).
Proof.
  intros cfg gt s0 s1.
  destruct (lease_decisions_follow_policy gt s1 "src" DemoCands.two 60 None)
    as (d & e' & s' & Hp & _ & He & _);
    [apply (bool_decide_unpack _); vm_compute; exact I|done|].
  exists d, e', s'. split; [exact Hp|]. vm_compute in Hp. injection Hp as <- <-.
  split_and!; [reflexivity|reflexivity|exact He].
Defined.
