(* ===== verification/MeshControl.v ===== *)
(** The mesh path controller (lib/mb-mesh-control/src/lib.rs): RTT estimation,
    in-flight accounting, acknowledgement and loss from AckNack feedback, and the
    probe timer. Microseconds and bytes are [u64]; the in-flight [BTreeMap] is the
    list its iterator yields. *)
From Stdlib Require Import Sorted.
From S2P Require Import Prelude Numbers MeshWire.
Local Open Scope Z_scope.

Definition U64_MAX : Z := 2 ^ 64 - 1.
Definition GRANULARITY_US : Z := 1000.
Definition INITIAL_RTT_US : Z := 333000.
Definition MAX_ACK_DELAY_US : Z := 25000.
Definition MAX_DATAGRAM_BYTES : Z := 1200.
Definition INITIAL_WINDOW_BYTES : Z := 10 * MAX_DATAGRAM_BYTES.
Definition MIN_WINDOW_BYTES : Z := 2 * MAX_DATAGRAM_BYTES.

Definition sat_add (a b : Z) : Z := Z.min (a + b) U64_MAX.
Definition sat_sub (a b : Z) : Z := Z.max (a - b) 0.

Record InflightPackage := mkInflight {
  ip_seq : Z;
  sent_at_us : Z;
  size : Z;
  ack_eliciting : bool
}.

Record AckUpdate := mkAckUpdate { acked_seqs : list Z; lost_seqs : list Z }.

Record MeshRttEstimator := mkRtt {
  latest : Z;
  min : Z;
  smoothed : Z;
  rttvar : Z;
  sampled : bool
}.

Definition rtt_default : MeshRttEstimator :=
  mkRtt INITIAL_RTT_US INITIAL_RTT_US INITIAL_RTT_US (INITIAL_RTT_US / 2) false.

Definition on_sample (e : MeshRttEstimator) (rtt ack_delay : Z) : MeshRttEstimator :=
  if negb (sampled e) then mkRtt rtt rtt rtt (rtt / 2) true
  else
    let mn := Z.min (min e) rtt in
    let delay := Z.min ack_delay MAX_ACK_DELAY_US in
    let adjusted := if as_u64 (mn + delay) <=? rtt then rtt - delay else rtt in
    let var_sample := Z.abs (smoothed e - adjusted) in
    mkRtt rtt mn
      (as_u64 (as_u64 (smoothed e * 7) + adjusted) / 8)
      (as_u64 (as_u64 (rttvar e * 3) + var_sample) / 4) true.

Definition pto_base (e : MeshRttEstimator) : Z :=
  as_u64 (as_u64 (smoothed e + Z.max (as_u64 (4 * rttvar e)) GRANULARITY_US) + MAX_ACK_DELAY_US).

Record MeshPathController := mkController {
  rtt : MeshRttEstimator;
  cwnd : Z;
  bytes_in_flight : Z;
  pto_count : Z;
  inflight : list (Z * InflightPackage);
  last_ack_eliciting_sent_at : option Z
}.

Definition controller_default : MeshPathController :=
  mkController rtt_default INITIAL_WINDOW_BYTES 0 0 [] None.

Definition send_budget (c : MeshPathController) : Z := sat_sub (cwnd c) (bytes_in_flight c).

(** [BTreeMap::insert] and [remove] on the ascending list. *)
Fixpoint bt_insert {V} (k : Z) (v : V) (l : list (Z * V)) : list (Z * V) :=
  match l with
  | [] => [(k, v)]
  | (k', v') :: l' =>
      if k <? k' then (k, v) :: l
      else if k =? k' then (k, v) :: l'
      else (k', v') :: bt_insert k v l'
  end.

Fixpoint bt_remove {V} (k : Z) (l : list (Z * V)) : option (V * list (Z * V)) :=
  match l with
  | [] => None
  | (k', v') :: l' =>
      if k =? k' then Some (v', l')
      else '(v, r) ← bt_remove k l'; Some (v, (k', v') :: r)
  end.

Definition on_sent (c : MeshPathController) (p : InflightPackage) : MeshPathController :=
  let '(bytes, last) :=
    if ack_eliciting p then (sat_add (bytes_in_flight c) (size p), Some (sent_at_us p))
    else (bytes_in_flight c, last_ack_eliciting_sent_at c) in
  mkController (rtt c) (cwnd c) bytes (pto_count c) (bt_insert (ip_seq p) p (inflight c)) last.

(** The closure [missing]. *)
Definition missing (ack : AckNack) (sq : Z) : bool :=
  existsb (fun r => (start r <=? sq) && (sq <=? end_ r)) (missing_ranges ack).

Definition with_lost (c : MeshPathController) (p : InflightPackage)
    (infl : list (Z * InflightPackage)) : MeshPathController :=
  mkController (rtt c) (cwnd c) (sat_sub (bytes_in_flight c) (size p)) (pto_count c) infl
    (last_ack_eliciting_sent_at c).

Definition with_acked (c : MeshPathController) (p : InflightPackage)
    (infl : list (Z * InflightPackage)) (ack_delay_us now_us : Z) : MeshPathController :=
  if ack_eliciting p then
    mkController (on_sample (rtt c) (sat_sub now_us (sent_at_us p)) ack_delay_us)
      (sat_add (cwnd c) (size p)) (sat_sub (bytes_in_flight c) (size p)) (pto_count c) infl
      (last_ack_eliciting_sent_at c)
  else
    mkController (rtt c) (cwnd c) (bytes_in_flight c) (pto_count c) infl
      (last_ack_eliciting_sent_at c).

(** [for seq in seqs] *)
Fixpoint on_ack_loop (ack : AckNack) (ack_delay_us now_us : Z) (seqs : list Z)
    (c : MeshPathController) (u : AckUpdate) : MeshPathController * AckUpdate :=
  match seqs with
  | [] => (c, u)
  | sq :: seqs =>
      match bt_remove sq (inflight c) with
      | None => on_ack_loop ack ack_delay_us now_us seqs c u
      | Some (p, infl) =>
          if missing ack sq then
            on_ack_loop ack ack_delay_us now_us seqs (with_lost c p infl)
              (mkAckUpdate (acked_seqs u) (lost_seqs u ++ [sq]))
          else
            on_ack_loop ack ack_delay_us now_us seqs (with_acked c p infl ack_delay_us now_us)
              (mkAckUpdate (acked_seqs u ++ [sq]) (lost_seqs u))
      end
  end.

Definition on_ack (c : MeshPathController) (ack : AckNack) (ack_delay_us now_us : Z) :
    AckUpdate * MeshPathController :=
  let '(c', u) := on_ack_loop ack ack_delay_us now_us (inflight c).*1 c (mkAckUpdate [] []) in
  let pto := match acked_seqs u with [] => pto_count c' | _ => 0 end in
  (u, mkController (rtt c') (cwnd c') (bytes_in_flight c') pto (inflight c')
        (last_ack_eliciting_sent_at c')).

(** [last + (pto_base << pto_count)]: the shift takes its count modulo 64 and both
    operations wrap. *)
Definition loss_timer (c : MeshPathController) : option Z :=
  last ← last_ack_eliciting_sent_at c;
  Some (as_u64 (last + as_u64 (Z.shiftl (pto_base (rtt c)) (pto_count c mod 64)))).

Definition on_pto_expired (c : MeshPathController) : MeshPathController :=
  mkController (rtt c) (Z.max (cwnd c) MIN_WINDOW_BYTES) (bytes_in_flight c)
    (Z.min (pto_count c + 1) (2 ^ 32 - 1)) (inflight c) (last_ack_eliciting_sent_at c).

(** ** Operations on the path *)

Inductive PathOp :=
| Sent (p : InflightPackage)
| Acked (ack : AckNack) (ack_delay_us now_us : Z)
| PtoExpired.

Definition path_step (c : MeshPathController) (op : PathOp) : MeshPathController :=
  match op with
  | Sent p => on_sent c p
  | Acked ack d now => (on_ack c ack d now).2
  | PtoExpired => on_pto_expired c
  end.

Definition path_run (ops : list PathOp) : MeshPathController :=
  foldl path_step controller_default ops.

(** ** In-flight accounting *)

Definition sum_sizes (l : list (Z * InflightPackage)) : Z :=
  foldr (fun kp acc => size kp.2 + acc) 0 l.

(** Everything in flight asks for an acknowledgement, and the byte count is the sum
    of the sizes. *)
Record path_inv (c : MeshPathController) : Prop := {
  pi_nodup : NoDup (inflight c).*1;
  pi_packages : Forall (fun kp => 0 <= size kp.2 /\ ack_eliciting kp.2 = true) (inflight c);
  pi_bytes : bytes_in_flight c = sum_sizes (inflight c) /\ sum_sizes (inflight c) <= U64_MAX;
  pi_window : INITIAL_WINDOW_BYTES <= cwnd c <= U64_MAX
}.

(** What senders do: fresh sequence numbers and ack-eliciting packages. *)
Definition op_ok (c : MeshPathController) (op : PathOp) : Prop :=
  match op with
  | Sent p => (ip_seq p ∉ (inflight c).*1) /\ 0 <= size p /\ ack_eliciting p = true
              /\ sum_sizes (inflight c) + size p <= U64_MAX
  | _ => True
  end.

Lemma bt_insert_perm {V} k (v : V) l : k ∉ l.*1 -> bt_insert k v l ≡ₚ (k, v) :: l.
Proof.
  induction l as [|[k' v'] l IH]; intros Hk; simpl; [done|].
  destruct (Z.ltb_spec k k'); [done|]. destruct (Z.eqb_spec k k'); [set_solver|].
  rewrite IH by set_solver. apply Permutation_swap.
Qed.

Lemma bt_remove_head {V} k (v : V) l : bt_remove k ((k, v) :: l) = Some (v, l).
Proof. simpl. by rewrite Z.eqb_refl. Qed.

Lemma sum_sizes_perm l l' : l ≡ₚ l' -> sum_sizes l = sum_sizes l'.
Proof. induction 1; simpl; lia. Qed.

Lemma sum_sizes_nonneg l :
  Forall (fun kp => 0 <= size kp.2 /\ ack_eliciting kp.2 = true) l -> 0 <= sum_sizes l.
Proof. induction 1 as [|[k p] l [Hp _] _ IH]; simpl in *; lia. Qed.

(** The loop empties the in-flight list, sorting its numbers into lost and acked. *)
Lemma on_ack_loop_spec ack d now l c u :
  inflight c = l ->
  let '(c', u') := on_ack_loop ack d now l.*1 c u in
  inflight c' = [] /\ pto_count c' = pto_count c
  /\ acked_seqs u' = acked_seqs u ++ filter (fun k => missing ack k = false) l.*1
  /\ lost_seqs u' = lost_seqs u ++ filter (fun k => missing ack k = true) l.*1.
Proof.
  revert c u. induction l as [|[k p] l IH]; intros c u Hl.
  { simpl. by rewrite !app_nil_r. }
  cbn [fmap list_fmap on_ack_loop fst]. rewrite Hl, bt_remove_head, !filter_cons.
  destruct (missing ack k).
  - specialize (IH (with_lost c p l) (mkAckUpdate (acked_seqs u) (lost_seqs u ++ [k])) eq_refl).
    destruct (on_ack_loop _ _ _ _ _ _) as [c' u']. simpl in IH.
    rewrite decide_False, decide_True, cons_middle, app_assoc by done. done.
  - specialize (IH (with_acked c p l d now) (mkAckUpdate (acked_seqs u ++ [k]) (lost_seqs u))).
    destruct (on_ack_loop _ _ _ _ _ _) as [c' u']. simpl in IH.
    rewrite decide_True, decide_False, (cons_middle k (acked_seqs u)), app_assoc by done.
    destruct IH as (H1 & H2 & H3 & H4); [unfold with_acked; by destruct (ack_eliciting p)|].
    split_and!; [done| |done|done]. rewrite H2. unfold with_acked. by destruct (ack_eliciting p).
Qed.

Lemma on_ack_loop_bytes ack d now l c u :
  inflight c = l -> Forall (fun kp => 0 <= size kp.2 /\ ack_eliciting kp.2 = true) l ->
  bytes_in_flight c = sum_sizes l -> 0 <= cwnd c <= U64_MAX ->
  let '(c', _) := on_ack_loop ack d now l.*1 c u in
  bytes_in_flight c' = 0 /\ cwnd c <= cwnd c' <= U64_MAX.
Proof.
  revert c u. induction l as [|[k p] l IH]; intros c u Hl Hf Hb Hc.
  { simpl in *. lia. }
  apply Forall_cons in Hf as [[Hp Ha] Hf]. simpl in Hp, Ha, Hb.
  pose proof (sum_sizes_nonneg l Hf) as Hn.
  cbn [fmap list_fmap on_ack_loop fst]. rewrite Hl, bt_remove_head. destruct (missing ack k).
  - apply (IH (with_lost c p l)); [done|done| |done]. simpl. unfold sat_sub. lia.
  - unfold with_acked. rewrite Ha.
    match goal with |- let '(_, _) := on_ack_loop _ _ _ _ ?c1 ?u1 in _ =>
      specialize (IH c1 u1 eq_refl Hf); simpl in IH; destruct (on_ack_loop _ _ _ _ c1 u1) end.
    unfold sat_sub, sat_add in *. destruct IH; lia.
Qed.

Lemma path_step_inv c op :
  path_inv c -> op_ok c op -> path_inv (path_step c op) /\ cwnd c <= cwnd (path_step c op).
Proof.
  intros [Hnd Hpk [Hb Hmax] Hw] Hop. destruct op as [p|ack d now|]; simpl in *.
  - destruct Hop as (Hk & Hs & Ha & Hsum). unfold on_sent. rewrite Ha. simpl.
    pose proof (bt_insert_perm (ip_seq p) p (inflight c) Hk) as Hperm. split; [|lia]. split; simpl.
    + rewrite (fmap_Permutation _ _ _ Hperm). by constructor.
    + rewrite Hperm. by constructor.
    + rewrite (sum_sizes_perm _ _ Hperm). simpl. unfold sat_add. lia.
    + done.
  - unfold on_ack. pose proof (on_ack_loop_spec ack d now _ c (mkAckUpdate [] []) eq_refl) as Hl.
    pose proof (on_ack_loop_bytes ack d now _ c (mkAckUpdate [] []) eq_refl Hpk Hb
                  ltac:(unfold INITIAL_WINDOW_BYTES, MAX_DATAGRAM_BYTES in *; lia)) as Hby.
    destruct (on_ack_loop _ _ _ _ _ _) as [c' u]. destruct Hl as (Hi & _), Hby as [Hb' Hw'].
    simpl. split; [|lia]. split; simpl; rewrite ?Hi; [constructor|constructor| |lia].
    simpl. unfold U64_MAX. lia.
  - unfold MIN_WINDOW_BYTES, INITIAL_WINDOW_BYTES, MAX_DATAGRAM_BYTES in *.
    split; [|lia]. split; simpl; [done|done|done|].
    unfold U64_MAX, MIN_WINDOW_BYTES, INITIAL_WINDOW_BYTES, MAX_DATAGRAM_BYTES in *. lia.
Qed.

(** The operations of a run, each in the state it is applied to. *)
Fixpoint run_ok (c : MeshPathController) (ops : list PathOp) : Prop :=
  match ops with
  | [] => True
  | op :: ops => op_ok c op /\ run_ok (path_step c op) ops
  end.

#[export] Instance op_ok_dec c op : Decision (op_ok c op).
Proof. destruct op; simpl; apply _. Defined.

#[export] Instance run_ok_dec c ops : Decision (run_ok c ops).
Proof. revert c. induction ops as [|op ops IH]; intros c; simpl; apply _. Defined.

Lemma path_run_inv c ops :
  path_inv c -> run_ok c ops ->
  path_inv (foldl path_step c ops) /\ cwnd c <= cwnd (foldl path_step c ops).
Proof.
  revert c. induction ops as [|op ops IH]; intros c Hc Hok; simpl; [done|].
  destruct Hok as [Hop Hok]. destruct (path_step_inv c op Hc Hop) as [Hc' Hw].
  destruct (IH _ Hc' Hok). split; [done|lia].
Qed.

Lemma default_inv : path_inv controller_default.
Proof. split; simpl; [constructor|constructor|unfold U64_MAX; lia|done]. Qed.

(** ** Round-trip estimation *)

Definition samples_from (e : MeshRttEstimator) (l : list (Z * Z)) : MeshRttEstimator :=
  foldl (fun e s => on_sample e s.1 s.2) e l.

(** [lo] and [hi] bound the samples seen. *)
Definition rtt_between (e : MeshRttEstimator) (lo hi : Z) : Prop :=
  sampled e = true /\ lo <= min e /\ min e <= smoothed e <= hi /\ min e <= latest e <= hi
  /\ 0 <= rttvar e <= hi.

Lemma on_sample_between e rtt0 d lo hi :
  0 <= lo -> hi < 2 ^ 60 -> lo <= rtt0 <= hi -> 0 <= d -> rtt_between e lo hi ->
  rtt_between (on_sample e rtt0 d) lo hi.
Proof.
  intros Hlo Hhi Hr Hd (Hs & Hm & Hsm & Hl & Hv). unfold on_sample. rewrite Hs. simpl.
  set (delay := Z.min d MAX_ACK_DELAY_US).
  assert (Hdel : 0 <= delay <= 25000) by (unfold delay, MAX_ACK_DELAY_US; lia).
  set (mn := Z.min (min e) rtt0). assert (Hmn : lo <= mn <= rtt0 /\ mn <= min e) by (unfold mn; lia).
  assert (Hw : forall z, 0 <= z < 2 ^ 64 -> as_u64 z = z) by (intros; by apply Z.mod_small).
  rewrite (Hw (mn + delay)) by lia.
  set (adj := if mn + delay <=? rtt0 then rtt0 - delay else rtt0).
  assert (Hadj : mn <= adj <= hi) by (unfold adj; destruct (Z.leb_spec (mn + delay) rtt0); lia).
  rewrite (Hw (smoothed e * 7)), (Hw (rttvar e * 3)) by lia.
  rewrite (Hw (smoothed e * 7 + adj)), (Hw (rttvar e * 3 + Z.abs (smoothed e - adj))) by lia.
  unfold rtt_between. simpl. split_and!; try done; try lia.
  - apply Z.div_le_lower_bound; lia.
  - apply Z.div_le_upper_bound; lia.
  - apply Z.div_pos; lia.
  - apply Z.div_le_upper_bound; lia.
Qed.

Lemma first_sample_between rtt0 d lo hi :
  0 <= lo -> lo <= rtt0 <= hi -> rtt_between (on_sample rtt_default rtt0 d) lo hi.
Proof.
  intros Hlo Hr. unfold rtt_between. simpl. split_and!; try done; try lia.
  - apply Z.div_pos; lia.
  - apply Z.div_le_upper_bound; lia.
Qed.

Lemma samples_between e l lo hi :
  0 <= lo -> hi < 2 ^ 60 -> Forall (fun s => lo <= s.1 <= hi /\ 0 <= s.2) l ->
  rtt_between e lo hi -> rtt_between (samples_from e l) lo hi.
Proof.
  intros Hlo Hhi Hl. revert e. induction Hl as [|s l [Hs Hd] _ IH]; intros e He; simpl; [done|].
  apply IH. by apply on_sample_between.
Qed.

(** ** Properties *)

(** an acknowledgement disposes of everything in flight: the numbers inside a
    missing range are lost, all others are acked, each in ascending order as
    stored; nothing stays in flight, and the probe count is reset when anything
    was acked. *)
Theorem ack_disposes_of_all_inflight (c : MeshPathController) (ack : AckNack) (d now : Z) :
  let '(u, c') := on_ack c ack d now in
  acked_seqs u = filter (fun k => missing ack k = false) (inflight c).*1
  /\ lost_seqs u = filter (fun k => missing ack k = true) (inflight c).*1
  /\ inflight c' = [] /\ (acked_seqs u <> [] -> pto_count c' = 0).
Proof.
  unfold on_ack. pose proof (on_ack_loop_spec ack d now _ c (mkAckUpdate [] []) eq_refl) as Hl.
  destruct (on_ack_loop _ _ _ _ _ _) as [c' u]. simpl in *. destruct Hl as (Hi & _ & Ha & Hlost).
  split_and!; [done..|]. by destruct (acked_seqs u).
Qed.

(** for senders that use fresh sequence numbers and ack-eliciting packages, the
    bytes in flight are the sizes of the packages in flight after any sequence of
    sends, acknowledgements and probe timeouts, and the window never falls below
    its initial value. *)
Theorem inflight_accounting (ops : list PathOp) (Hok : run_ok controller_default ops) :
  let c := path_run ops in
  bytes_in_flight c = sum_sizes (inflight c) /\ NoDup (inflight c).*1
  /\ INITIAL_WINDOW_BYTES <= cwnd c <= U64_MAX
  /\ send_budget c = Z.max (cwnd c - sum_sizes (inflight c)) 0.
Proof.
  destruct (path_run_inv _ ops default_inv Hok) as [[Hnd _ [Hb _] Hw] _].
  unfold path_run, send_budget, sat_sub. rewrite <- Hb. split_and!; [done|done|apply Hw..|done].
Qed.

(** after any non-empty sequence of round-trip samples the smoothed estimate
    and the latest sample lie between the smallest and the largest sample, and the
    estimator's minimum does not exceed them. *)
Theorem rtt_stays_between_samples (s : Z * Z) (l : list (Z * Z)) (lo hi : Z)
    (Hlo : 0 <= lo) (Hhi : hi < 2 ^ 60)
    (Hl : Forall (fun s => lo <= s.1 <= hi /\ 0 <= s.2) (s :: l)) :
  rtt_between (samples_from rtt_default (s :: l)) lo hi.
Proof.
  apply Forall_cons in Hl as [[Hs Hd] Hl]. simpl.
  apply samples_between; [done|done|done|]. by apply first_sample_between.
Qed.

Lemma inflight_accounting_witness :
  let p n := mkInflight n 10 900 true in
  let ops := [Sent (p 1); Sent (p 2); PtoExpired;
              Acked (mkAckNack "f" 1 "" [mkSeqRange 2 2]) 0 500; Sent (p 3)] in
  let c := path_run ops in
  bytes_in_flight c = sum_sizes (inflight c) /\ bytes_in_flight c = 900 /\ cwnd c = 12900.
Proof.
  intros p ops c.
  assert (Hok : run_ok controller_default ops).
  { apply (bool_decide_unpack _). vm_compute. exact I. }
  destruct (inflight_accounting ops Hok) as [Hb _].
  split; [exact Hb|]. split; vm_compute; reflexivity.
Defined.

Lemma rtt_stays_between_samples_witness :
  rtt_between (samples_from rtt_default [(40000, 0); (90000, 10000); (35000, 0)]) 35000 90000.
Proof.
  apply rtt_stays_between_samples; [lia|lia|].
  apply (bool_decide_unpack _). vm_compute. exact I.
Defined.

(** A package sent after the highest number the receiver has seen is not in any
    missing range, and is acked all the same. *)
Example ack_confirms_unseen_package :
  let p n := mkInflight n 0 100 true in
  let c := path_run [Sent (p 1); Sent (p 2); Sent (p 3)] in
  acked_seqs (on_ack c (mkAckNack "f" 2 "" []) 0 10).1 = [1; 2; 3].
Proof. vm_compute. reflexivity. Qed.

(** The 64th consecutive probe timeout arms the timer of the first again. *)
Example probe_timer_wraps :
  let c0 := on_sent controller_default (mkInflight 1 0 100 true) in
  loss_timer (Nat.iter 64 on_pto_expired c0) = loss_timer c0.
Proof. vm_compute. reflexivity. Qed.
