(* ===== verification/QuicPacket.v ===== *)
(** QUIC packet framing and flow control (lib/mb-quic/src/packet.rs,
    flow_control.rs): variable-length integers, connection ids, packet-number
    truncation and recovery, long headers, and the credit window; with their round trips. *)
From S2P Require Import Prelude Numbers.
Local Open Scope Z_scope.

(** The errors of the engine; framing returns the first two. *)
Inductive QuicError :=
| ShortBuffer
| Malformed (s : string)
| UnsupportedVersion (v : Z)
| CryptoFailure (s : string)
| Tls (s : string)
| Transport (s : string).

(** ** Variable-length integers *)

Definition VARINT_MAX : Z := Z.shiftl 1 62 - 1.

Definition encode_varint (out : list Z) (value : Z) : list Z :=
  if value <? Z.shiftl 1 6 then out ++ [as_u8 value]
  else if value <? Z.shiftl 1 14 then out ++ to_be_bytes 2 (Z.lor (as_u16 value) 0x4000)
  else if value <? Z.shiftl 1 30 then out ++ to_be_bytes 4 (Z.lor (as_u32 value) 0x80000000)
  else out ++ to_be_bytes 8 (Z.lor value 0xc000000000000000).

Definition varint_len (value : Z) : nat :=
  if value <? Z.shiftl 1 6 then 1
  else if value <? Z.shiftl 1 14 then 2
  else if value <? Z.shiftl 1 30 then 4
  else 8.

Definition decode_varint (buf : list Z) : result (Z * nat) QuicError :=
  match buf with
  | [] => Err ShortBuffer
  | first :: tl =>
      let len := Z.to_nat (Z.shiftl 1 (Z.shiftr first 6)) in
      if (length buf <? len)%nat then Err ShortBuffer
      else
        Ok (foldl (fun value b => Z.lor (as_u64 (Z.shiftl value 8)) b) (Z.land first 0x3f)
              (take (len - 1) tl), len)
  end.

(** ** Connection ids *)

(** The 20-byte array and its length as the active bytes. *)
Record ConnectionId := mkCid { cid_bytes : list Z }.

Definition cid_new (src : list Z) : result ConnectionId QuicError :=
  if (20 <? length src)%nat then Err (Malformed "connection id > 20 bytes")
  else Ok (mkCid src).

Definition cid_len (c : ConnectionId) : nat := length (cid_bytes c).
Definition cid_is_empty (c : ConnectionId) : bool := (cid_len c =? 0)%nat.

(** ** Packet numbers *)

(** [be[8 - nbytes..]] *)
Definition encode_packet_number (out : list Z) (pn : Z) (nbytes : nat) : list Z :=
  out ++ drop (8 - nbytes) (to_be_bytes 8 pn).

Definition sat_sub (a b : Z) : Z := Z.max (a - b) 0.

Definition packet_number_len (pn : Z) (largest_acked : option Z) : nat :=
  let range := match largest_acked with
               | Some acked => as_u64 (as_u64 (sat_sub pn acked * 2) + 1)
               | None => as_u64 (pn + 1)
               end in
  if range <? Z.shiftl 1 8 then 1
  else if range <? Z.shiftl 1 16 then 2
  else if range <? Z.shiftl 1 24 then 3
  else 4.

Definition decode_packet_number (largest_pn truncated pn_nbits : Z) : Z :=
  let pn_win := Z.shiftl 1 pn_nbits in
  let pn_hwin := pn_win / 2 in
  let pn_mask := pn_win - 1 in
  let expected := as_u64 (largest_pn + 1) in
  let candidate := Z.lor (Z.land expected (Z.lxor pn_mask (2 ^ 64 - 1))) truncated in
  if (as_u64 (candidate + pn_hwin) <=? expected)
     && (as_u64 (candidate + pn_win) <? Z.shiftl 1 62)
  then as_u64 (candidate + pn_win)
  else if (as_u64 (expected + pn_hwin) <? candidate) && (pn_win <=? candidate)
  then candidate - pn_win
  else candidate.

(** ** Long headers *)

Inductive LongType := Initial | Handshake | ZeroRtt | Retry.

#[export] Instance LongType_eq_dec : EqDecision LongType.
Proof. solve_decision. Defined.

Definition type_bits (t : LongType) : Z :=
  match t with Initial => 0 | ZeroRtt => 1 | Handshake => 2 | Retry => 3 end.

Definition from_bits (bits : Z) : LongType :=
  let b := Z.land bits 3 in
  if b =? 0 then Initial else if b =? 1 then ZeroRtt else if b =? 2 then Handshake else Retry.

Record LongHeader := mkLongHeader {
  ty : LongType;
  version : Z;
  dcid : ConnectionId;
  scid : ConnectionId;
  token : list Z
}.

Definition write_long_header (out : list Z) (h : LongHeader) (first_byte_low : Z) : list Z :=
  let first := Z.lor (Z.lor 192 (as_u8 (Z.shiftl (type_bits (ty h)) 4))) (Z.land first_byte_low 15) in
  let out := out ++ [first] ++ to_be_bytes 4 (version h)
             ++ [as_u8 (Z.of_nat (cid_len (dcid h)))] ++ cid_bytes (dcid h)
             ++ [as_u8 (Z.of_nat (cid_len (scid h)))] ++ cid_bytes (scid h) in
  if decide (ty h = Initial) then encode_varint out (Z.of_nat (length (token h))) ++ token h
  else out.

(** [&buf[a..b]] *)
Definition sub (a b : nat) (l : list Z) : list Z := take (b - a) (drop a l).

Definition parse_long_header (buf : list Z) : result (LongHeader * Z * nat) QuicError :=
  match buf with
  | [] => Err ShortBuffer
  | first :: _ =>
      if Z.land first 0x80 =? 0 then Err (Malformed "not a long header")
      else if (length buf <? 7)%nat then Err ShortBuffer
      else
        let t := from_bits (Z.shiftr first 4) in
        let version := from_be_bytes [buf !!! 1%nat; buf !!! 2%nat; buf !!! 3%nat; buf !!! 4%nat] in
        let dcid_len := Z.to_nat (buf !!! 5%nat) in
        let off := 6%nat in
        if (length buf <? off + dcid_len + 1)%nat then Err ShortBuffer
        else
          let? dcid := cid_new (sub off (off + dcid_len) buf) in
          let off := (off + dcid_len)%nat in
          let scid_len := Z.to_nat (buf !!! off) in
          let off := S off in
          if (length buf <? off + scid_len)%nat then Err ShortBuffer
          else
            let? scid := cid_new (sub off (off + scid_len) buf) in
            let off := (off + scid_len)%nat in
            if decide (t = Initial) then
              let? (tlen, n) := decode_varint (drop off buf) in
              let off := (off + n)%nat in
              if Z.of_nat (length buf) <? Z.of_nat off + tlen then Err ShortBuffer
              else
                let off' := (off + Z.to_nat tlen)%nat in
                Ok (mkLongHeader t version dcid scid (sub off off' buf), Z.land first 15, off')
            else Ok (mkLongHeader t version dcid scid [], Z.land first 15, off)
  end.

Definition parse_short_header_dcid (buf : list Z) (dcid_len : nat) :
    result (ConnectionId * nat) QuicError :=
  match buf with
  | [] => Err ShortBuffer
  | first :: _ =>
      if negb (Z.land first 0x80 =? 0) then Err (Malformed "not a short header")
      else if (length buf <? 1 + dcid_len)%nat then Err ShortBuffer
      else let? dcid := cid_new (sub 1 (1 + dcid_len) buf) in Ok (dcid, (1 + dcid_len)%nat)
  end.

(** ** Flow control *)

Record FlowController := mkFlow { limit : Z; used : Z }.

Definition flow_new (initial_limit : Z) : FlowController := mkFlow initial_limit 0.
Definition available (f : FlowController) : Z := sat_sub (limit f) (used f).

Definition consume (f : FlowController) (n : Z) : bool * FlowController :=
  if available f <? n then (false, f) else (true, mkFlow (limit f) (as_u64 (used f + n))).

Definition set_limit (f : FlowController) (new_limit : Z) : FlowController :=
  if limit f <? new_limit then mkFlow new_limit (used f) else f.

Definition maybe_extend (f : FlowController) (window : Z) : option Z * FlowController :=
  if as_u64 (sat_sub (limit f) (used f) * 2) <=? window then
    let l := as_u64 (used f + window) in (Some l, mkFlow l (used f))
  else (None, f).

(** * Framing facts *)

Local Open Scope Z_scope.

(** ** Bits and bytes *)

Lemma lor_shifted a b k : 0 <= k -> 0 <= a < 2 ^ k -> Z.lor a (Z.shiftl b k) = a + Z.shiftl b k.
Proof.
  intros Hk Ha.
  assert (Hz : Z.land a (Z.shiftl b k) = 0).
  { apply Z.bits_inj'. intros i Hi. rewrite Z.land_spec, Z.bits_0, Z.shiftl_spec by done.
    destruct (decide (i < k)).
    - rewrite (Z.testbit_neg_r b) by lia. apply andb_false_r.
    - destruct (decide (a = 0)) as [->|]; [by rewrite Z.bits_0|].
      rewrite Z.bits_above_log2; [done|lia|]. apply Z.log2_lt_pow2; [lia|].
      eapply Z.lt_le_trans; [apply Ha|]. apply Z.pow_le_mono_r; lia. }
  by rewrite Z.add_nocarry_lxor, Z.lxor_lor by done.
Qed.

Lemma pow256_pos n : 0 <= n -> 1 <= 256 ^ n.
Proof. intros Hn. pose proof (Z.pow_pos_nonneg 256 n). lia. Qed.

Lemma from_le_app l k :
  from_le_bytes (l ++ k) = from_le_bytes l + 256 ^ Z.of_nat (length l) * from_le_bytes k.
Proof.
  induction l as [|b l IH]; [simpl; lia|].
  cbn [from_le_bytes app length]. rewrite IH, Nat2Z.inj_succ, Z.pow_succ_r by lia. lia.
Qed.

Lemma from_be_cons b l :
  from_be_bytes (b :: l) = b * 256 ^ Z.of_nat (length l) + from_be_bytes l.
Proof.
  unfold from_be_bytes. rewrite reverse_cons, from_le_app, length_reverse. simpl. lia.
Qed.

Lemma from_be_bound l : bytes_ok l -> 0 <= from_be_bytes l < 256 ^ Z.of_nat (length l).
Proof.
  intros Hl. unfold from_be_bytes. rewrite <- (length_reverse l).
  apply from_le_bound. by apply Forall_reverse.
Qed.

(** The accumulation loop of [decode_varint] reads a big-endian number. *)
Lemma varint_fold l v :
  bytes_ok l -> 0 <= v -> (v + 1) * 256 ^ Z.of_nat (length l) <= 2 ^ 62 ->
  foldl (fun value b => Z.lor (as_u64 (Z.shiftl value 8)) b) v l
  = v * 256 ^ Z.of_nat (length l) + from_be_bytes l.
Proof.
  intros Hl. revert v. induction Hl as [|b l Hb Hl IH]; intros v Hv Hbound.
  { unfold from_be_bytes. simpl. lia. }
  cbn [foldl]. rewrite from_be_cons. cbn [length] in *.
  rewrite Nat2Z.inj_succ, Z.pow_succ_r in * by lia.
  set (P := 256 ^ Z.of_nat (length l)) in *.
  assert (HP : 1 <= P) by (subst P; apply pow256_pos; lia).
  unfold is_byte in Hb.
  assert (Hsh : as_u64 (Z.shiftl v 8) = Z.shiftl v 8).
  { unfold as_u64. apply Z.mod_small. rewrite Z.shiftl_mul_pow2 by lia. nia. }
  rewrite Hsh, Z.lor_comm, lor_shifted by lia. rewrite Z.shiftl_mul_pow2 by lia.
  change (2 ^ 8) with 256. rewrite IH; [|lia|fold P; nia]. fold P. nia.
Qed.

(** ** Varints *)

Lemma varint_bytes_decode (n : nat) (t value : Z) (rest : list Z) :
  (0 < n <= 8)%nat -> 0 <= t < 4 -> Z.of_nat n = 2 ^ t -> 0 <= value < 64 * 256 ^ (Z.of_nat n - 1) ->
  decode_varint (to_be_bytes n (value + t * 64 * 256 ^ (Z.of_nat n - 1)) ++ rest) = Ok (value, n).
Proof.
  intros Hn Ht Hlen Hv. set (P := 256 ^ (Z.of_nat n - 1)) in *. set (w := value + t * 64 * P).
  assert (HP : 1 <= P) by (subst P; apply pow256_pos; lia).
  assert (HPn : 256 ^ Z.of_nat n = 256 * P).
  { subst P. rewrite <- Z.pow_succ_r by lia. f_equal. lia. }
  assert (Hw : from_be_bytes (to_be_bytes n w) = w) by (apply from_to_be; rewrite HPn; subst w; nia).
  pose proof (to_be_bytes_length n w) as Hl. pose proof (to_be_bytes_ok n w) as Hok.
  destruct (to_be_bytes n w) as [|first tl]; [simpl in Hl; lia|].
  apply Forall_cons in Hok as [Hf Htl]. simpl in Hl.
  rewrite from_be_cons in Hw. pose proof (from_be_bound tl Htl) as HR.
  replace (256 ^ Z.of_nat (length tl)) with P in * by (subst P; f_equal; lia).
  set (R := from_be_bytes tl) in *. set (q := first - 64 * t).
  assert (Hq : q * P + R = value) by (subst q w; lia).
  assert (Hq64 : 0 <= q < 64) by nia.
  assert (Hdiv : Z.shiftr first 6 = t).
  { rewrite Z.shiftr_div_pow2 by lia. change (2 ^ 6) with 64.
    symmetry. apply (Z.div_unique _ _ _ q); [lia|subst q; lia]. }
  assert (Hmod : Z.land first 63 = q).
  { change 63 with (Z.ones 6). rewrite Z.land_ones by lia. change (2 ^ 6) with 64.
    symmetry. apply (Z.mod_unique _ _ t); [lia|subst q; lia]. }
  cbn [app decode_varint]. rewrite Hdiv, Hmod, Z.shiftl_1_l, <- Hlen, Nat2Z.id.
  rewrite (proj2 (Nat.ltb_ge _ _)) by (simpl; rewrite length_app; lia).
  replace (n - 1)%nat with (length tl) by lia. rewrite take_app_length.
  rewrite varint_fold; [|done|lia|].
  - fold R. replace (256 ^ Z.of_nat (length tl)) with P by (subst P; f_equal; lia). by rewrite Hq.
  - replace (256 ^ Z.of_nat (length tl)) with P by (subst P; f_equal; lia).
    assert (P <= 256 ^ 7) by (subst P; apply Z.pow_le_mono_r; lia).
    change (256 ^ 7) with (2 ^ 56) in *. nia.
Qed.

Lemma encode_varint_shape v :
  0 <= v <= VARINT_MAX ->
  exists n t, (0 < n <= 8)%nat /\ 0 <= t < 4 /\ Z.of_nat n = 2 ^ t /\ varint_len v = n
    /\ 0 <= v < 64 * 256 ^ (Z.of_nat n - 1)
    /\ encode_varint [] v = to_be_bytes n (v + t * 64 * 256 ^ (Z.of_nat n - 1)).
Proof.
  intros Hv. unfold VARINT_MAX in Hv. unfold encode_varint, varint_len.
  change (Z.shiftl 1 62 - 1) with (2 ^ 62 - 1) in Hv.
  change (Z.shiftl 1 6) with 64. change (Z.shiftl 1 14) with (2 ^ 14). change (Z.shiftl 1 30) with (2 ^ 30).
  destruct (Z.ltb_spec v 64); [|destruct (Z.ltb_spec v (2 ^ 14)); [|destruct (Z.ltb_spec v (2 ^ 30))]].
  - exists 1%nat, 0. split_and!; try lia. unfold as_u8. rewrite Z.mod_small by lia.
    unfold to_be_bytes. cbn [to_le_bytes app reverse rev_append].
    change (v + 0 * 64 * _) with (v + 0). rewrite Z.add_0_r, Z.mod_small by lia. done.
  - exists 2%nat, 1. split_and!; try lia. unfold as_u16. rewrite Z.mod_small by lia.
    change 0x4000 with (Z.shiftl 1 14). rewrite lor_shifted by lia. done.
  - exists 4%nat, 2. split_and!; try lia. unfold as_u32. rewrite Z.mod_small by lia.
    change 0x80000000 with (Z.shiftl 2 30). rewrite lor_shifted by lia. done.
  - exists 8%nat, 3. split_and!; try lia.
    change 0xc000000000000000 with (Z.shiftl 3 62). rewrite lor_shifted by lia. done.
Qed.

Lemma encode_varint_out out v : encode_varint out v = out ++ encode_varint [] v.
Proof. unfold encode_varint. repeat case_match; done. Qed.

Lemma varint_len_encode v : 0 <= v <= VARINT_MAX -> length (encode_varint [] v) = varint_len v.
Proof.
  intros (n & t & _ & _ & _ & -> & _ & ->)%encode_varint_shape. apply to_be_bytes_length.
Qed.

Lemma decode_encode_varint v rest :
  0 <= v <= VARINT_MAX -> decode_varint (encode_varint [] v ++ rest) = Ok (v, varint_len v).
Proof.
  intros (n & t & Hn & Ht & Hl & -> & Hb & ->)%encode_varint_shape. by apply varint_bytes_decode.
Qed.

(** ** Packet numbers *)

Lemma take_to_le n m z : (n <= m)%nat -> take n (to_le_bytes m z) = to_le_bytes n z.
Proof.
  revert n z. induction m as [|m IH]; intros [|n] z Hn; simpl; [done|lia|done|].
  rewrite IH by lia. done.
Qed.

Lemma encode_pn_bytes pn n : (n <= 8)%nat -> encode_packet_number [] pn n = to_be_bytes n pn.
Proof.
  intros Hn. unfold encode_packet_number, to_be_bytes. rewrite app_nil_l.
  rewrite <- (take_to_le n 8 pn) by done.
  rewrite <- (take_drop n (to_le_bytes 8 pn)) at 1. rewrite reverse_app.
  apply drop_app_length'. rewrite length_reverse, length_drop, to_le_bytes_length. lia.
Qed.

Lemma from_to_le_mod n z : from_le_bytes (to_le_bytes n z) = z mod 256 ^ Z.of_nat n.
Proof.
  revert z. induction n as [|n IH]; intros z; [simpl; by rewrite Z.mod_1_r|].
  cbn [to_le_bytes from_le_bytes]. rewrite IH, Nat2Z.inj_succ, Z.pow_succ_r by lia.
  pose proof (pow256_pos (Z.of_nat n)). rewrite Z.rem_mul_r by lia. lia.
Qed.

Lemma from_to_be_mod n z : from_be_bytes (to_be_bytes n z) = z mod 256 ^ Z.of_nat n.
Proof. unfold from_be_bytes, to_be_bytes. rewrite reverse_involutive. apply from_to_le_mod. Qed.

(** Clearing the low bits and filling them in. *)
Lemma candidate_value e r n :
  0 <= e < 2 ^ 64 -> 0 <= n <= 64 -> 0 <= r < 2 ^ n ->
  Z.lor (Z.land e (Z.lxor (2 ^ n - 1) (2 ^ 64 - 1))) r = e / 2 ^ n * 2 ^ n + r.
Proof.
  intros He Hn Hr.
  assert (Hc : Z.land e (Z.lxor (2 ^ n - 1) (2 ^ 64 - 1)) = Z.shiftl (Z.shiftr e n) n).
  { rewrite <- Z.ldiff_ones_r by lia. 
    change (2 ^ 64 - 1) with (Z.ones 64).
    replace (2 ^ n - 1) with (Z.ones n) by (rewrite Z.ones_equiv; lia).
    apply Z.bits_inj'. intros i Hi. rewrite Z.land_spec, Z.lxor_spec, Z.ldiff_spec.
    destruct (decide (i < 64)).
    - rewrite (Z.ones_spec_low 64) by lia. by rewrite xorb_true_r.
    - replace (Z.testbit e i) with false; [done|]. symmetry.
      destruct (decide (e = 0)) as [->|]; [apply Z.bits_0|].
      apply Z.bits_above_log2; [lia|]. apply Z.log2_lt_pow2; [lia|].
      eapply Z.lt_le_trans; [apply He|]. apply Z.pow_le_mono_r; lia. }
  rewrite Hc, Z.lor_comm, lor_shifted by lia.
  rewrite Z.shiftl_mul_pow2, Z.shiftr_div_pow2 by lia. lia.
Qed.

(** A number within half a window of the expected one is recovered from its low
    bits. *)
Lemma decode_pn_window largest pn n :
  1 <= n <= 32 -> 0 <= largest < 2 ^ 62 - 1 -> 0 <= pn < 2 ^ 62 ->
  largest + 1 - 2 ^ (n - 1) < pn <= largest + 1 + 2 ^ (n - 1) ->
  decode_packet_number largest (pn mod 2 ^ n) n = pn.
Proof.
  intros Hn Hl Hp Hw. unfold decode_packet_number. rewrite Z.shiftl_1_l.
  set (W := 2 ^ n). assert (HWp : W = 2 * 2 ^ (n - 1)).
  { subst W. rewrite <- Z.pow_succ_r by lia. f_equal. lia. }
  set (H := 2 ^ (n - 1)) in *. assert (HH : 1 <= H) by (subst H; pose proof (Z.pow_pos_nonneg 2 (n - 1)); lia).
  assert (HWmax : W <= 2 ^ 32) by (subst W; apply Z.pow_le_mono_r; lia).
  assert (Hhalf : W / 2 = H) by (rewrite HWp, Z.mul_comm; by apply Z.div_mul). rewrite Hhalf.
  assert (Hexp : as_u64 (largest + 1) = largest + 1) by (apply Z.mod_small; lia). rewrite Hexp.
  set (E := largest + 1) in *.
  assert (Hr : 0 <= pn mod W < W) by (apply Z.mod_pos_bound; lia).
  pose proof (candidate_value E (pn mod W) n ltac:(subst E; lia) ltac:(lia) Hr) as Hcand.
  fold W in Hcand. rewrite Hcand. clear Hcand.
  assert (HE : 0 <= E mod W < W) by (apply Z.mod_pos_bound; lia).
  pose proof (Z.div_mod E W ltac:(lia)) as HEd. pose proof (Z.div_mod pn W ltac:(lia)) as Hpd.
  assert (Ha : 0 <= E / W) by (apply Z.div_pos; lia).
  set (c := E / W * W + pn mod W). set (d := pn / W - E / W).
  assert (Hc : pn = c + d * W) by (subst c d; lia).
  assert (Hcb : 0 <= c < 2 ^ 63) by (subst c; nia).
  assert (Hw64 : forall z, 0 <= z < 2 ^ 64 -> as_u64 z = z) by (intros; by apply Z.mod_small).
  rewrite (Hw64 (c + H)), (Hw64 (c + W)), (Hw64 (E + H)) by lia.
  assert (Hd : -1 <= d <= 1) by nia.
  assert (Hce : E - W < c < E + W) by (subst c; nia).
  assert (HdW : d * W = - W \/ d * W = 0 \/ d * W = W).
  { assert (d = -1 \/ d = 0 \/ d = 1) as [-> | [-> | ->]] by lia; lia. }
  change (Z.shiftl 1 62) with (2 ^ 62). clearbody c d E W H. clear HEd Hpd Hr HE Ha Hhalf Hw64.
  destruct (Z.leb_spec (c + H) E), (Z.ltb_spec (c + W) (2 ^ 62)), (Z.ltb_spec (E + H) c),
    (Z.leb_spec W c); simpl; lia.
Qed.

Lemma pn_len_enough pn acked n :
  0 <= acked <= pn -> pn < 2 ^ 62 -> pn - acked < 2 ^ 31 ->
  packet_number_len pn (Some acked) = n ->
  (1 <= n <= 4)%nat /\ pn - acked < 2 ^ (8 * Z.of_nat n - 1).
Proof.
  intros Ha Hp Hd. unfold packet_number_len, sat_sub.
  assert (Hw64 : forall z, 0 <= z < 2 ^ 64 -> as_u64 z = z) by (intros; by apply Z.mod_small).
  rewrite Z.max_l by lia. rewrite (Hw64 ((pn - acked) * 2)) by lia. rewrite Hw64 by lia.
  change (Z.shiftl 1 8) with (2 ^ 8). change (Z.shiftl 1 16) with (2 ^ 16).
  change (Z.shiftl 1 24) with (2 ^ 24).
  repeat (match goal with |- context [?a <? ?b] => destruct (Z.ltb_spec a b) end);
    intros <-; (split; [lia|simpl; lia]).
Qed.

(** ** Long headers *)

Definition long_header_ok (h : LongHeader) : Prop :=
  0 <= version h < 2 ^ 32 /\ (cid_len (dcid h) <= 20)%nat /\ (cid_len (scid h) <= 20)%nat
  /\ Z.of_nat (length (token h)) <= VARINT_MAX /\ (ty h = Initial \/ token h = []).

Definition first_byte (t : LongType) (low : Z) : Z :=
  Z.lor (Z.lor 192 (as_u8 (Z.shiftl (type_bits t) 4))) (Z.land low 15).

Lemma first_byte_value t low : first_byte t low = 192 + 16 * type_bits t + low mod 16.
Proof.
  unfold first_byte. change 15 with (Z.ones 4). rewrite Z.land_ones by lia. change (2 ^ 4) with 16.
  assert (Hm : 0 <= low mod 16 < 2 ^ 4) by (change (2 ^ 4) with 16; apply Z.mod_pos_bound; lia).
  rewrite Z.lor_comm.
  destruct t; cbn [type_bits]; [change (Z.lor 192 _) with (Z.shiftl 12 4)
    |change (Z.lor 192 _) with (Z.shiftl 14 4)|change (Z.lor 192 _) with (Z.shiftl 13 4)
    |change (Z.lor 192 _) with (Z.shiftl 15 4)]; rewrite lor_shifted by lia;
    rewrite Z.shiftl_mul_pow2 by lia; lia.
Qed.

Lemma first_byte_fields t low :
  (Z.land (first_byte t low) 0x80 =? 0) = false
  /\ from_bits (Z.shiftr (first_byte t low) 4) = t
  /\ Z.land (first_byte t low) 15 = low mod 16.
Proof.
  rewrite first_byte_value.
  assert (Hm : 0 <= low mod 16 < 16) by (apply Z.mod_pos_bound; lia). set (r := low mod 16) in *.
  assert (Ht : 0 <= type_bits t <= 3) by (destruct t; simpl; lia).
  assert (Hshr : Z.shiftr (192 + 16 * type_bits t + r) 4 = 12 + type_bits t).
  { rewrite Z.shiftr_div_pow2 by lia. change (2 ^ 4) with 16.
    symmetry. apply (Z.div_unique _ _ _ r); lia. }
  split_and!.
  - apply Z.eqb_neq. intros H0. apply (f_equal (fun z => Z.testbit z 7)) in H0.
    rewrite Z.land_spec, Z.bits_0 in H0. change (Z.testbit 0x80 7) with true in H0.
    rewrite andb_true_r in H0. apply Z.testbit_false in H0; [|lia]. change (2 ^ 7) with 128 in H0.
    replace ((192 + 16 * type_bits t + r) / 128) with 1 in H0; [done|].
    apply (Z.div_unique _ _ _ (64 + 16 * type_bits t + r)); lia.
  - rewrite Hshr. by destruct t.
  - change 15 with (Z.ones 4). rewrite Z.land_ones by lia. change (2 ^ 4) with 16.
    symmetry. apply (Z.mod_unique _ _ (12 + type_bits t)); lia.
Qed.

Lemma sub_mid a b (l m r : list Z) :
  length l = a -> (a + length m)%nat = b -> sub a b (l ++ m ++ r) = m.
Proof.
  intros <- <-. unfold sub. rewrite drop_app_length.
  replace (length l + length m - length l)%nat with (length m) by lia. apply take_app_length.
Qed.

Lemma at_mid a (l r : list Z) x : length l = a -> (l ++ x :: r) !!! a = x.
Proof. intros <-. apply list_lookup_total_correct. by rewrite lookup_app_r, Nat.sub_diag. Qed.

(** The bytes of a long header: six fixed bytes, the ids with their lengths, and
    the token of an Initial packet. *)
Lemma write_long_header_split h low :
  long_header_ok h ->
  exists v0 v1 v2 v3,
    from_be_bytes [v0; v1; v2; v3] = version h
    /\ write_long_header [] h low
       = [first_byte (ty h) low; v0; v1; v2; v3; Z.of_nat (cid_len (dcid h))]
         ++ cid_bytes (dcid h) ++ Z.of_nat (cid_len (scid h)) :: cid_bytes (scid h)
         ++ (if decide (ty h = Initial) then encode_varint [] (Z.of_nat (length (token h))) ++ token h
             else []).
Proof.
  intros (Hv & Hd & Hs & Htok & Hty).
  destruct (list_of_4 _ (to_be_bytes_length 4 (version h))) as (v0 & v1 & v2 & v3 & Hb).
  exists v0, v1, v2, v3. split; [rewrite <- Hb; apply from_to_be; simpl; lia|].
  unfold write_long_header. rewrite Hb. fold (first_byte (ty h) low).
  assert (H8 : forall n, (n <= 20)%nat -> as_u8 (Z.of_nat n) = Z.of_nat n)
    by (intros n Hn; apply Z.mod_small; lia).
  rewrite !H8 by done. case_decide; [rewrite encode_varint_out|rewrite app_nil_r];
    simpl; rewrite <- ?app_assoc; simpl; by rewrite <- ?app_assoc.
Qed.

Lemma cid_new_ok c : (cid_len c <= 20)%nat -> cid_new (cid_bytes c) = Ok c.
Proof.
  intros Hc. unfold cid_new. rewrite (proj2 (Nat.ltb_ge _ _)) by (unfold cid_len in Hc; lia).
  by destruct c.
Qed.

(** A slice past a known prefix of what follows [k]. *)
Lemma sub_after k n (l m buf rest : list Z) :
  drop k buf = (l ++ m) ++ rest -> length l = n -> sub (k + n) (k + n + length m) buf = m.
Proof.
  intros Hd <-. unfold sub. rewrite <- drop_drop, Hd, <- app_assoc, drop_app_length.
  replace (k + length l + length m - (k + length l))%nat with (length m) by lia.
  apply take_app_length.
Qed.

Lemma long_header_roundtrip h low rest :
  long_header_ok h ->
  parse_long_header (write_long_header [] h low ++ rest)
  = Ok (h, low mod 16, length (write_long_header [] h low)).
Proof.
  intros Hok. destruct (write_long_header_split h low Hok) as (v0 & v1 & v2 & v3 & Hver & Hw).
  rewrite Hw. destruct Hok as (Hv & Hd & Hs & Htok & Hty).
  destruct (first_byte_fields (ty h) low) as (Hbit & Hty' & Hlow).
  set (tp := if decide (ty h = Initial) then _ else []).
  set (p6 := [first_byte (ty h) low; v0; v1; v2; v3; Z.of_nat (cid_len (dcid h))]).
  set (d := cid_bytes (dcid h)). set (s := cid_bytes (scid h)). set (sl := Z.of_nat (cid_len (scid h))).
  set (buf := (p6 ++ d ++ sl :: s ++ tp) ++ rest).
  assert (Hbuf : buf = p6 ++ d ++ sl :: s ++ tp ++ rest)
    by (subst buf; rewrite <- !app_assoc; simpl; by rewrite <- !app_assoc).
  assert (Hdl : length d = cid_len (dcid h)) by done. assert (Hsl : length s = cid_len (scid h)) by done.
  assert (Hp6 : length p6 = 6%nat) by done.
  assert (Hlen : length buf = (7 + length d + length s + length tp + length rest)%nat)
    by (rewrite Hbuf, !length_app; simpl; rewrite !length_app; simpl; lia).
  assert (H5 : buf !!! 5%nat = Z.of_nat (length d)) by done.
  assert (Hver' : from_be_bytes [buf !!! 1%nat; buf !!! 2%nat; buf !!! 3%nat; buf !!! 4%nat] = version h)
    by done.
  assert (H0 : buf !!! 0%nat = first_byte (ty h) low) by done.
  assert (Hsd : sub 6 (6 + length d) buf = d) by (rewrite Hbuf; by apply sub_mid).
  assert (Hat : buf !!! (6 + length d)%nat = sl).
  { rewrite Hbuf, app_assoc. apply at_mid. by rewrite length_app, Hp6. }
  assert (Hss : sub (S (6 + length d)) (S (6 + length d) + length s) buf = s).
  { rewrite Hbuf, app_assoc, cons_middle, app_assoc. apply sub_mid; [|done].
    rewrite !length_app, Hp6. simpl. lia. }
  assert (Hdrop : drop (S (6 + length d) + length s) buf = tp ++ rest).
  { rewrite Hbuf, app_assoc, cons_middle, !app_assoc.
    rewrite <- (app_assoc _ tp rest). apply drop_app_length'. rewrite !length_app, Hp6. simpl. lia. }
  unfold parse_long_header. clearbody buf. destruct buf as [|x tl] eqn:Eb; [simpl in Hlen; lia|].
  change ((x :: tl) !!! 0%nat) with x in H0. rewrite <- Eb in *. subst x. rewrite Hbit, Hver', H5, Nat2Z.id.
  rewrite !(proj2 (Nat.ltb_ge _ _)) by lia. rewrite Hsd, Hat.
  assert (Hcd : cid_new d = Ok (dcid h)) by (by apply cid_new_ok).
  assert (Hcs : cid_new s = Ok (scid h)) by (by apply cid_new_ok).
  rewrite Hcd. unfold sl. rewrite Nat2Z.id, <- Hsl.
  rewrite Hss, Hcs.
  rewrite Hty', Hlow, Hdrop. rewrite !length_app, Hp6. simpl length. rewrite length_app.
  unfold tp in *. case_decide as Hi.
  - rewrite <- app_assoc, decode_encode_varint by lia.
    pose proof (varint_len_encode (Z.of_nat (length (token h))) ltac:(lia)) as Hvl.
    rewrite length_app, Hvl in *.
    rewrite (proj2 (Z.ltb_ge _ _)) by lia. rewrite Nat2Z.id.
    rewrite (sub_after _ _ _ _ _ rest Hdrop) by done. f_equal. f_equal; [|lia].
    by destruct h.
  - destruct Hty as [|Htk]; [done|]. destruct h as [t v dc sc tok]; simpl in *. subst tok.
    f_equal. f_equal. lia.
Qed.

(** ** Flow control *)

Inductive FlowOp := Consume (n : Z) | SetLimit (l : Z) | Extend (window : Z).

(** Limits and windows are varints. *)
Definition flow_op_ok (op : FlowOp) : Prop :=
  match op with Consume n => 0 <= n | SetLimit l => 0 <= l < 2 ^ 62 | Extend w => 0 <= w < 2 ^ 62 end.

(** The bytes an operation took, and the window after it. *)
Definition flow_step (f : FlowController) (op : FlowOp) : Z * FlowController :=
  match op with
  | Consume n => let '(ok, f') := consume f n in (if ok then n else 0, f')
  | SetLimit l => (0, set_limit f l)
  | Extend w => (0, (maybe_extend f w).2)
  end.

Fixpoint flow_run (f : FlowController) (ops : list FlowOp) : Z * FlowController :=
  match ops with
  | [] => (0, f)
  | op :: ops =>
      let '(n, f') := flow_step f op in
      let '(m, f'') := flow_run f' ops in (n + m, f'')
  end.

Definition flow_ok (f : FlowController) : Prop := 0 <= used f <= limit f /\ limit f < 2 ^ 63.

Lemma flow_step_ok f op :
  flow_ok f -> used f < 2 ^ 62 -> flow_op_ok op ->
  let '(n, f') := flow_step f op in
  flow_ok f' /\ used f' = used f + n /\ limit f <= limit f' /\ 0 <= n <= available f.
Proof.
  intros [Hu Hl] Hsmall Hop. unfold flow_ok. destruct op as [n|l|w]; simpl in *.
  - unfold consume, available, sat_sub. destruct (Z.ltb_spec (Z.max (limit f - used f) 0) n).
    + split_and!; lia.
    + simpl. unfold as_u64. rewrite Z.mod_small by lia. split_and!; lia.
  - unfold set_limit, available, sat_sub. destruct (Z.ltb_spec (limit f) l); simpl; split_and!; lia.
  - unfold maybe_extend, available, sat_sub.
    assert (Hw : as_u64 (Z.max (limit f - used f) 0 * 2) = Z.max (limit f - used f) 0 * 2)
      by (apply Z.mod_small; lia). rewrite Hw.
    destruct (Z.leb_spec (Z.max (limit f - used f) 0 * 2) w); simpl; [|split_and!; lia].
    unfold as_u64. rewrite Z.mod_small by lia. split_and!; lia.
Qed.

Lemma flow_run_ok f ops :
  flow_ok f -> Forall flow_op_ok ops -> (forall k, used (flow_run f (take k ops)).2 < 2 ^ 62) ->
  let '(n, f') := flow_run f ops in
  flow_ok f' /\ used f' = used f + n /\ limit f <= limit f' /\ 0 <= n.
Proof.
  intros Hf Hops. revert f Hf. induction Hops as [|op ops Hop _ IH]; intros f Hf Hk; simpl.
  { split_and!; [apply Hf..|lia|lia|lia]. }
  pose proof (flow_step_ok f op Hf (Hk 0%nat) Hop) as Hs.
  destruct (flow_step f op) as [n f'] eqn:Es. destruct Hs as (Hf' & Hu & Hl & Hn).
  specialize (IH f' Hf'). destruct (flow_run f' ops) as [m f''].
  destruct IH as (H1 & H2 & H3 & H4).
  { intros k. specialize (Hk (S k)). simpl in Hk. rewrite Es in Hk.
    by destruct (flow_run f' (take k ops)). }
  split_and!; [apply H1..|lia|lia|lia].
Qed.

(** ** Properties *)

(** a packet number sent in the length chosen against the largest acknowledged
    number is recovered by the receiver, provided the receiver has seen at least
    what was acknowledged, the number is at most 2^31 ahead of it, and it is not
    more than half a window behind the receiver's largest. *)
Theorem packet_number_recovered (pn acked largest : Z) (n : nat)
    (Hn : n = packet_number_len pn (Some acked))
    (Ha : 0 <= acked <= pn) (Hp : pn < 2 ^ 62) (Hd : pn - acked < 2 ^ 31)
    (Hl : acked <= largest < 2 ^ 62 - 1)
    (Hw : largest + 1 - 2 ^ (8 * Z.of_nat n - 1) < pn) :
  decode_packet_number largest (from_be_bytes (encode_packet_number [] pn n)) (8 * Z.of_nat n) = pn.
Proof.
  destruct (pn_len_enough pn acked n Ha Hp Hd (eq_sym Hn)) as [Hnb Hfit].
  rewrite encode_pn_bytes, from_to_be_mod by lia.
  replace (256 ^ Z.of_nat n) with (2 ^ (8 * Z.of_nat n)) by (rewrite Z.pow_mul_r by lia; done).
  apply decode_pn_window; lia.
Qed.

Lemma packet_number_recovered_witness :
  decode_packet_number 99990 (from_be_bytes (encode_packet_number [] 100000 2)) 16 = 100000.
Proof.
  apply (packet_number_recovered 100000 99000 99990 2); [reflexivity|lia|lia|lia|lia|].
  vm_compute. reflexivity.
Defined.

(** every varint up to 2^62 - 1 is encoded in [varint_len] bytes that decode to
    it whatever follows, and every well-formed long header is parsed back with its
    low bits and its length, whatever follows. *)
Theorem quic_header_roundtrip (h : LongHeader) (low v : Z) (rest : list Z) :
  (0 <= v <= VARINT_MAX ->
   length (encode_varint [] v) = varint_len v
   /\ decode_varint (encode_varint [] v ++ rest) = Ok (v, varint_len v))
  /\ (long_header_ok h ->
      parse_long_header (write_long_header [] h low ++ rest)
      = Ok (h, low mod 16, length (write_long_header [] h low))).
Proof.
  split; [intros Hv; split; [by apply varint_len_encode|by apply decode_encode_varint]|].
  apply long_header_roundtrip.
Qed.

Lemma quic_header_roundtrip_witness :
  let h := mkLongHeader Initial 1 (mkCid [1; 2; 3; 4]) (mkCid []) [9; 9] in
  decode_varint (encode_varint [] 15293 ++ [7]) = Ok (15293, 2%nat)
  /\ parse_long_header (write_long_header [] h 3 ++ [5]) = Ok (h, 3, length (write_long_header [] h 3)).
Proof.
  split.
  - apply (quic_header_roundtrip (mkLongHeader Retry 0 (mkCid []) (mkCid []) []) 0 15293 [7]).
    vm_compute. split; discriminate.
  - apply (quic_header_roundtrip (mkLongHeader Initial 1 (mkCid [1; 2; 3; 4]) (mkCid []) [9; 9]) 3 0 [5]).
    unfold long_header_ok. simpl. split_and!; [lia|lia|unfold cid_len; simpl; lia|
      unfold cid_len; simpl; lia|vm_compute; discriminate|by left].
Defined.

(** whatever is consumed, raised or extended, a flow-control window never lets
    more bytes through than its limit, counts exactly the bytes it let through,
    and its limit never decreases. *)
Theorem flow_window_sound (l0 : Z) (ops : list FlowOp)
    (H0 : 0 <= l0 < 2 ^ 62) (Hops : Forall flow_op_ok ops)
    (Hu : forall k, used (flow_run (flow_new l0) (take k ops)).2 < 2 ^ 62) :
  let '(n, f) := flow_run (flow_new l0) ops in
  used f = n /\ n <= limit f /\ l0 <= limit f /\ available f = limit f - used f.
Proof.
  pose proof (flow_run_ok (flow_new l0) ops) as Hr. destruct (flow_run _ ops) as [n f].
  destruct Hr as ([Hb _] & Hus & Hl & _); [unfold flow_ok; simpl; lia|done|done|]. simpl in *.
  unfold available, sat_sub. split_and!; lia.
Qed.

Lemma flow_window_sound_witness :
  let ops := [Consume 60; Consume 50; Extend 100; Consume 50; SetLimit 10] in
  let '(n, f) := flow_run (flow_new 100) ops in
  used f = n /\ n <= limit f /\ 100 <= limit f /\ available f = limit f - used f.
Proof.
  apply flow_window_sound; [lia| |].
  - repeat constructor; simpl; lia.
  - intros k. do 6 (destruct k as [|k]; [vm_compute; reflexivity|]). vm_compute. reflexivity.
Defined.
