(* ===== verification/QuicFrame.v ===== *)
(** QUIC frames (lib/mb-quic/src/frame.rs): the frame set of the engine, its
    encoder, the decoder on a packet payload, and [decode_all]. *)
From S2P Require Import Prelude Numbers QuicPacket.
Local Open Scope Z_scope.

Definition MAX_FRAME_PAYLOAD : Z := Z.shiftl 1 20.

Record AckRange := mkAckRange { gap : Z; range : Z }.

Inductive QFrame :=
| Padding (n : nat)
| Ping
| Ack (largest delay first_range : Z) (ranges : list AckRange)
| ResetStream (stream_id error_code final_size : Z)
| StopSending (stream_id error_code : Z)
| Crypto (offset : Z) (data : list Z)
| QStream (id offset : Z) (fin : bool) (data : list Z)
| MaxData (max : Z)
| MaxStreamData (stream_id max : Z)
| MaxStreams (bidi : bool) (max : Z)
| DataBlocked (limit : Z)
| StreamDataBlocked (stream_id limit : Z)
| StreamsBlocked (bidi : bool) (limit : Z)
| ConnectionClose (application : bool) (error_code : Z) (reason : list Z)
| HandshakeDone
| QDatagram (data : list Z).

(** [encode_varint(out, v)] for several values. *)
Definition ev (v : Z) : list Z := encode_varint [] v.
Definition ev_bytes (data : list Z) : list Z := ev (Z.of_nat (length data)) ++ data.

Definition stream_type (offset : Z) (fin : bool) : Z :=
  let ty := Z.lor 0x08 0x02 in
  let ty := if negb (offset =? 0) then Z.lor ty 0x04 else ty in
  if fin then Z.lor ty 0x01 else ty.

(** [Frame::encode], the bytes appended to [out]. *)
Definition frame_encode (f : QFrame) : list Z :=
  match f with
  | Padding n => replicate n 0
  | Ping => [0x01]
  | Ack largest delay first_range ranges =>
      [0x02] ++ ev largest ++ ev delay ++ ev (Z.of_nat (length ranges)) ++ ev first_range
      ++ (ranges ≫= fun r => ev (gap r) ++ ev (range r))
  | ResetStream sid code size => [0x04] ++ ev sid ++ ev code ++ ev size
  | StopSending sid code => [0x05] ++ ev sid ++ ev code
  | Crypto offset data => [0x06] ++ ev offset ++ ev_bytes data
  | QStream id offset fin data =>
      [stream_type offset fin] ++ ev id ++ (if negb (offset =? 0) then ev offset else [])
      ++ ev_bytes data
  | MaxData max => [0x10] ++ ev max
  | MaxStreamData sid max => [0x11] ++ ev sid ++ ev max
  | MaxStreams bidi max => [if bidi then 0x12 else 0x13] ++ ev max
  | DataBlocked limit => [0x14] ++ ev limit
  | StreamDataBlocked sid limit => [0x15] ++ ev sid ++ ev limit
  | StreamsBlocked bidi limit => [if bidi then 0x16 else 0x17] ++ ev limit
  | QDatagram data => [0x31] ++ ev_bytes data
  | ConnectionClose application code reason =>
      [if application then 0x1d else 0x1c] ++ ev code ++ (if negb application then ev 0 else [])
      ++ ev_bytes reason
  | HandshakeDone => [0x1e]
  end.

(** [let (v, n) = decode_varint(&buf[off..])?; off += n;] *)
Definition varint_at (buf : list Z) (off : nat) : result (Z * nat) QuicError :=
  let? (v, n) := decode_varint (drop off buf) in Ok (v, (off + n)%nat).

(** A length-checked slice of the payload at [off]. *)
Definition payload_at (buf : list Z) (off : nat) (len : Z) : result (list Z * nat) QuicError :=
  if MAX_FRAME_PAYLOAD <? len then Err (Malformed "frame payload exceeds MAX_FRAME_PAYLOAD")
  else if Z.of_nat (length buf) <? Z.of_nat off + len then Err ShortBuffer
  else Ok (sub off (off + Z.to_nat len) buf, (off + Z.to_nat len)%nat).

(** [while n < buf.len() && buf[n] == 0x00 { n += 1 }] *)
Fixpoint zero_run (buf : list Z) : nat :=
  match buf with
  | b :: buf => if b =? 0 then S (zero_run buf) else 0
  | [] => 0
  end.

(** [for _ in 0..count]: every round reads at least two bytes, so a payload is
    exhausted, and the read fails, before the fuel of its length is. *)
Fixpoint ack_ranges (fuel : nat) (buf : list Z) (off : nat) (count : Z) :
    result (list AckRange * nat) QuicError :=
  if count =? 0 then Ok ([], off)
  else
    match fuel with
    | O => Err ShortBuffer
    | S fuel =>
        let? (g, off) := varint_at buf off in
        let? (r, off) := varint_at buf off in
        let? (rs, off) := ack_ranges fuel buf off (count - 1) in
        Ok (mkAckRange g r :: rs, off)
    end.

(** The three ECN counts. *)
Definition skip_ecn (buf : list Z) (off : nat) : result nat QuicError :=
  let? (_, off) := varint_at buf off in
  let? (_, off) := varint_at buf off in
  let? (_, off) := varint_at buf off in
  Ok off.

Definition decode_ack (ty : Z) (buf : list Z) : result (QFrame * nat) QuicError :=
  let? (largest, off) := varint_at buf 1 in
  let? (delay, off) := varint_at buf off in
  let? (count, off) := varint_at buf off in
  let? (first_range, off) := varint_at buf off in
  let? (ranges, off) := ack_ranges (length buf) buf off count in
  let? off := (if ty =? 0x03 then skip_ecn buf off else Ok off) in
  Ok (Ack largest delay first_range ranges, off).

Definition decode_stream (ty : Z) (buf : list Z) : result (QFrame * nat) QuicError :=
  let off_bit := negb (Z.land ty 0x04 =? 0) in
  let len_bit := negb (Z.land ty 0x02 =? 0) in
  let fin := negb (Z.land ty 0x01 =? 0) in
  let? (id, off) := varint_at buf 1 in
  let? (offset, off) := (if off_bit then varint_at buf off else Ok (0, off)) in
  let? (dlen, off) := (if len_bit then varint_at buf off
                       else Ok (Z.of_nat (length buf - off), off)) in
  let? (data, off) := payload_at buf off dlen in
  Ok (QStream id offset fin data, off).

Definition decode_close (ty : Z) (buf : list Z) : result (QFrame * nat) QuicError :=
  let application := ty =? 0x1d in
  let? (code, off) := varint_at buf 1 in
  let? off := (if negb application then let? (_, off) := varint_at buf off in Ok off else Ok off) in
  let? (rlen, off) := varint_at buf off in
  let? (reason, off) := payload_at buf off rlen in
  Ok (ConnectionClose application code reason, off).

(** A frame of one, two or three varints. *)
Definition decode_1 (k : Z -> QFrame) (buf : list Z) : result (QFrame * nat) QuicError :=
  let? (a, off) := varint_at buf 1 in Ok (k a, off).

Definition decode_2 (k : Z -> Z -> QFrame) (buf : list Z) : result (QFrame * nat) QuicError :=
  let? (a, off) := varint_at buf 1 in
  let? (b, off) := varint_at buf off in
  Ok (k a b, off).

Definition decode_3 (k : Z -> Z -> Z -> QFrame) (buf : list Z) : result (QFrame * nat) QuicError :=
  let? (a, off) := varint_at buf 1 in
  let? (b, off) := varint_at buf off in
  let? (c, off) := varint_at buf off in
  Ok (k a b c, off).

Definition decode_crypto (buf : list Z) : result (QFrame * nat) QuicError :=
  let? (offset, off) := varint_at buf 1 in
  let? (len, off) := varint_at buf off in
  let? (data, off) := payload_at buf off len in
  Ok (Crypto offset data, off).

Definition decode_datagram (buf : list Z) : result (QFrame * nat) QuicError :=
  let? (len, off) := varint_at buf 1 in
  let? (data, off) := payload_at buf off len in
  Ok (QDatagram data, off).

(** [Frame::decode]: the next frame and the bytes it takes. *)
Definition frame_decode (buf : list Z) : result (QFrame * nat) QuicError :=
  match buf with
  | [] => Err ShortBuffer
  | ty :: _ =>
      if ty =? 0x00 then Ok (Padding (zero_run buf), zero_run buf)
      else if ty =? 0x01 then Ok (Ping, 1%nat)
      else if (ty =? 0x02) || (ty =? 0x03) then decode_ack ty buf
      else if ty =? 0x04 then decode_3 ResetStream buf
      else if ty =? 0x05 then decode_2 StopSending buf
      else if ty =? 0x06 then decode_crypto buf
      else if (0x08 <=? ty) && (ty <=? 0x0f) then decode_stream ty buf
      else if ty =? 0x10 then decode_1 MaxData buf
      else if ty =? 0x11 then decode_2 MaxStreamData buf
      else if (ty =? 0x12) || (ty =? 0x13) then decode_1 (MaxStreams (ty =? 0x12)) buf
      else if ty =? 0x14 then decode_1 DataBlocked buf
      else if ty =? 0x15 then decode_2 StreamDataBlocked buf
      else if (ty =? 0x16) || (ty =? 0x17) then decode_1 (StreamsBlocked (ty =? 0x16)) buf
      else if (ty =? 0x1c) || (ty =? 0x1d) then decode_close ty buf
      else if ty =? 0x1e then Ok (HandshakeDone, 1%nat)
      else if ty =? 0x30 then Ok (QDatagram (drop 1 buf), length buf)
      else if ty =? 0x31 then decode_datagram buf
      else Err (Malformed "unsupported frame type")
  end.

(** [while !buf.is_empty()]: every frame takes at least one byte. *)
Fixpoint decode_all_loop (fuel : nat) (buf : list Z) : result (list QFrame) QuicError :=
  match buf, fuel with
  | [], _ => Ok []
  | _, O => Err ShortBuffer
  | _, S fuel =>
      let? (f, n) := frame_decode buf in
      if (n =? 0)%nat then Ok []
      else let? fs := decode_all_loop fuel (drop n buf) in Ok (f :: fs)
  end.

Definition decode_all (buf : list Z) : result (list QFrame) QuicError :=
  decode_all_loop (length buf) buf.

(** ** Round trip *)

Definition varint_ok (v : Z) : Prop := 0 <= v <= VARINT_MAX.
Definition payload_ok (l : list Z) : Prop := Z.of_nat (length l) <= MAX_FRAME_PAYLOAD.

(** Frames whose fields fit the wire; a run of padding is one frame. *)
Definition frame_ok (f : QFrame) : Prop :=
  match f with
  | Padding _ => False
  | Ping | HandshakeDone => True
  | Ack a b c rs => varint_ok a /\ varint_ok b /\ varint_ok c /\ payload_ok (gap <$> rs)
                    /\ Forall (fun r => varint_ok (gap r) /\ varint_ok (range r)) rs
  | ResetStream a b c => varint_ok a /\ varint_ok b /\ varint_ok c
  | StopSending a b | MaxStreamData a b | StreamDataBlocked a b => varint_ok a /\ varint_ok b
  | Crypto a d => varint_ok a /\ payload_ok d
  | QStream a b _ d => varint_ok a /\ varint_ok b /\ payload_ok d
  | MaxData a | MaxStreams _ a | DataBlocked a | StreamsBlocked _ a => varint_ok a
  | ConnectionClose _ a d => varint_ok a /\ payload_ok d
  | QDatagram d => payload_ok d
  end.

Lemma payload_varint l : payload_ok l -> varint_ok (Z.of_nat (length l)).
Proof.
  unfold payload_ok, varint_ok, MAX_FRAME_PAYLOAD, VARINT_MAX.
  change (Z.shiftl 1 20) with (2 ^ 20). change (Z.shiftl 1 62) with (2 ^ 62). lia.
Qed.

Lemma ev_nonempty v : varint_ok v -> (1 <= length (ev v))%nat.
Proof.
  intros Hv. unfold ev. rewrite varint_len_encode by done. unfold varint_len.
  repeat case_match; lia.
Qed.

(** Reading a varint, or a payload, that the rest of the buffer starts with. *)
Lemma varint_at_step buf off v rest :
  varint_ok v -> drop off buf = ev v ++ rest ->
  varint_at buf off = Ok (v, (off + length (ev v))%nat)
  /\ drop (off + length (ev v)) buf = rest /\ (off + length (ev v) <= length buf)%nat.
Proof.
  intros Hv Hd. pose proof (ev_nonempty v Hv) as Hne.
  assert (Hlen : (length (ev v) + length rest = length buf - off)%nat)
    by (rewrite <- length_app, <- Hd, length_drop; done).
  split_and!; [| |lia].
  - unfold varint_at. rewrite Hd. unfold ev. rewrite decode_encode_varint by done.
    by rewrite varint_len_encode.
  - rewrite <- drop_drop, Hd. apply drop_app_length.
Qed.

Lemma payload_at_step buf off data rest :
  payload_ok data -> drop off buf = data ++ rest -> (off <= length buf)%nat ->
  payload_at buf off (Z.of_nat (length data)) = Ok (data, (off + length data)%nat).
Proof.
  intros Hp Hd Hoff. unfold payload_at, payload_ok in *. rewrite (proj2 (Z.ltb_ge _ _)) by lia.
  assert (Hlen : (length data + length rest = length buf - off)%nat)
    by (rewrite <- length_app, <- Hd, length_drop; done).
  rewrite (proj2 (Z.ltb_ge _ _)) by lia. rewrite Nat2Z.id. unfold sub. rewrite Hd.
  replace (off + length data - off)%nat with (length data) by lia. by rewrite take_app_length.
Qed.

(** One read of a decoder, on a buffer whose rest is known. *)
Ltac read_varint :=
  match goal with
  | Hd : drop ?off ?buf = ev ?v ++ ?r |- context [varint_at ?buf ?off] =>
      let Hr := fresh in let Hd' := fresh in let Hle := fresh in
      destruct (varint_at_step buf off v r ltac:(first [done|by apply payload_varint]) Hd)
        as (Hr & Hd' & Hle);
      rewrite Hr; cbv iota beta; clear Hr Hd
  end.

Ltac read_payload :=
  match goal with
  | Hd : drop ?off ?buf = ?d ++ ?r |- context [payload_at ?buf ?off _] =>
      rewrite (payload_at_step buf off d r) by first [done|lia]; cbv iota beta
  end.

Lemma decode_1_step k b x rest :
  varint_ok x -> decode_1 k (b :: ev x ++ rest) = Ok (k x, length (b :: ev x)).
Proof.
  intros Hx. unfold decode_1. set (buf := b :: _).
  assert (Hd : drop 1 buf = ev x ++ rest) by (subst buf; done). clearbody buf. read_varint. done.
Qed.

Lemma decode_2_step k b x y rest :
  varint_ok x -> varint_ok y ->
  decode_2 k (b :: (ev x ++ ev y) ++ rest) = Ok (k x y, length (b :: ev x ++ ev y)).
Proof.
  intros Hx Hy. unfold decode_2. set (buf := b :: _).
  assert (Hd : drop 1 buf = ev x ++ ev y ++ rest) by (subst buf; cbn; by rewrite <- app_assoc).
  clearbody buf. do 2 read_varint. simpl. by rewrite length_app.
Qed.

Lemma decode_3_step k b x y z rest :
  varint_ok x -> varint_ok y -> varint_ok z ->
  decode_3 k (b :: (ev x ++ ev y ++ ev z) ++ rest) = Ok (k x y z, length (b :: ev x ++ ev y ++ ev z)).
Proof.
  intros Hx Hy Hz. unfold decode_3. set (buf := b :: _).
  assert (Hd : drop 1 buf = ev x ++ ev y ++ ev z ++ rest) by (subst buf; cbn; by rewrite <- !app_assoc).
  clearbody buf. do 3 read_varint. simpl. rewrite !length_app. f_equal; f_equal; lia.
Qed.

Lemma decode_crypto_step b x data rest :
  varint_ok x -> payload_ok data ->
  decode_crypto (b :: (ev x ++ ev_bytes data) ++ rest)
  = Ok (Crypto x data, length (b :: ev x ++ ev_bytes data)).
Proof.
  intros Hx Hp. unfold decode_crypto, ev_bytes. set (buf := b :: _).
  assert (Hd : drop 1 buf = ev x ++ ev (Z.of_nat (length data)) ++ data ++ rest)
    by (subst buf; cbn; by rewrite <- !app_assoc).
  clearbody buf. do 2 read_varint. read_payload. simpl. rewrite !length_app. f_equal; f_equal; lia.
Qed.

Lemma decode_datagram_step b data rest :
  payload_ok data ->
  decode_datagram (b :: ev_bytes data ++ rest) = Ok (QDatagram data, length (b :: ev_bytes data)).
Proof.
  intros Hp. unfold decode_datagram, ev_bytes. set (buf := b :: _).
  assert (Hd : drop 1 buf = ev (Z.of_nat (length data)) ++ data ++ rest)
    by (subst buf; cbn; by rewrite <- !app_assoc).
  clearbody buf. read_varint. read_payload. simpl. by rewrite length_app.
Qed.

Lemma decode_close_step (app : bool) code reason rest :
  varint_ok code -> payload_ok reason ->
  let ty := if app then 0x1d else 0x1c in
  let enc := [ty] ++ ev code ++ (if negb app then ev 0 else []) ++ ev_bytes reason in
  decode_close ty (enc ++ rest) = Ok (ConnectionClose app code reason, length enc).
Proof.
  intros Hc Hp ty enc. unfold decode_close, ev_bytes in *. set (buf := enc ++ rest).
  assert (H0 : varint_ok 0) by (unfold varint_ok, VARINT_MAX; change (Z.shiftl 1 62) with (2 ^ 62); lia).
  assert (Hd : drop 1 buf = ev code ++ (if negb app then ev 0 else [])
                 ++ ev (Z.of_nat (length reason)) ++ reason ++ rest)
    by (subst buf enc; cbn; unfold ev_bytes; by rewrite <- !app_assoc).
  assert (Hl : length enc = (1 + length (ev code) + length (if negb app then ev 0 else [])
                 + length (ev (Z.of_nat (length reason))) + length reason)%nat)
    by (subst enc; unfold ev_bytes; rewrite !length_app; simpl; lia).
  rewrite Hl. clearbody buf. clear Hl enc. subst ty. destruct app; simpl negb in *; cbv iota in *.
  - rewrite app_nil_l in Hd. change (0x1d =? 0x1d) with true. simpl negb.
    do 2 read_varint. read_payload. simpl length. f_equal; f_equal; lia.
  - change (0x1c =? 0x1d) with false. simpl negb.
    do 3 read_varint. read_payload. f_equal; f_equal; lia.
Qed.

Lemma stream_type_bits offset (fin : bool) :
  let ty := stream_type offset fin in
  (0x08 <=? ty) && (ty <=? 0x0f) = true
  /\ negb (Z.land ty 0x04 =? 0) = negb (offset =? 0)
  /\ negb (Z.land ty 0x02 =? 0) = true /\ negb (Z.land ty 0x01 =? 0) = fin.
Proof. unfold stream_type. by destruct (offset =? 0), fin. Qed.

Lemma decode_stream_step id offset (fin : bool) data rest :
  varint_ok id -> varint_ok offset -> payload_ok data ->
  let enc := frame_encode (QStream id offset fin data) in
  decode_stream (stream_type offset fin) (enc ++ rest)
  = Ok (QStream id offset fin data, length enc).
Proof.
  intros Hi Ho Hp enc. unfold decode_stream.
  destruct (stream_type_bits offset fin) as (_ & H4 & H2 & H1). rewrite H4, H2, H1.
  set (buf := enc ++ rest).
  assert (Hd : drop 1 buf = ev id ++ (if negb (offset =? 0) then ev offset else [])
                 ++ ev (Z.of_nat (length data)) ++ data ++ rest)
    by (subst buf enc; cbn -[stream_type]; unfold ev_bytes; by rewrite <- !app_assoc).
  assert (Hl : length enc = (1 + length (ev id) + length (if negb (offset =? 0)%Z then ev offset else [])
                 + length (ev (Z.of_nat (length data))) + length data)%nat)
    by (subst enc; cbn -[stream_type]; unfold ev_bytes; rewrite !length_app; simpl; lia).
  rewrite Hl. clearbody buf. clear Hl enc H4 H2 H1.
  destruct (Z.eqb_spec offset 0) as [->|Hne]; simpl negb in *; cbv iota in *.
  - rewrite app_nil_l in Hd. do 2 read_varint. read_payload. f_equal; f_equal; simpl length; lia.
  - do 3 read_varint. read_payload. f_equal; f_equal; lia.
Qed.

(** The ranges of an ACK, with fuel for each of them. *)
Lemma ack_ranges_step fuel buf off rs rest :
  (length rs <= fuel)%nat ->
  Forall (fun r => varint_ok (gap r) /\ varint_ok (range r)) rs ->
  let enc := rs ≫= fun r => ev (gap r) ++ ev (range r) in
  drop off buf = enc ++ rest ->
  ack_ranges fuel buf off (Z.of_nat (length rs)) = Ok (rs, (off + length enc)%nat).
Proof.
  intros Hf Hrs. revert fuel off Hf. induction Hrs as [|[g r] rs [Hg Hr] _ IH]; intros fuel off Hf enc Hd.
  { destruct fuel; simpl; f_equal; f_equal; simpl; lia. }
  destruct fuel as [|fuel]; [simpl in Hf; lia|]. subst enc. cbn [mbind list_bind] in Hd.
  rewrite <- !app_assoc in Hd. cbn [ack_ranges].
  rewrite (proj2 (Z.eqb_neq _ _)) by (simpl length; lia). simpl in Hg, Hr. simpl gap in Hd. simpl range in Hd.
  do 2 read_varint.
  replace (Z.of_nat (length (mkAckRange g r :: rs)) - 1) with (Z.of_nat (length rs)) by (simpl length; lia).
  rewrite (IH fuel _) by (simpl in Hf; done || lia). f_equal. f_equal.
  cbn [mbind list_bind gap range]. rewrite !length_app. unfold mbind, list_bind. lia.
Qed.

(** Every range takes at least a byte, so the buffer's length is fuel enough. *)
Lemma ranges_length rs :
  Forall (fun r => varint_ok (gap r) /\ varint_ok (range r)) rs ->
  (length rs <= length (rs ≫= fun r => ev (gap r) ++ ev (range r)))%nat.
Proof.
  induction 1 as [|r rs [Hg Hr] _ IH]; [simpl; lia|].
  rewrite bind_cons, !length_app. cbn [length]. pose proof (ev_nonempty _ Hg). lia.
Qed.

Lemma decode_ack_step a b c rs rest :
  frame_ok (Ack a b c rs) ->
  let enc := frame_encode (Ack a b c rs) in
  decode_ack 0x02 (enc ++ rest) = Ok (Ack a b c rs, length enc).
Proof.
  intros (Ha & Hb & Hc & Hn & Hrs) enc. unfold decode_ack. set (buf := enc ++ rest).
  set (encr := rs ≫= fun r => ev (gap r) ++ ev (range r)).
  assert (Hd : drop 1 buf = ev a ++ ev b ++ ev (Z.of_nat (length rs)) ++ ev c ++ encr ++ rest)
    by (subst buf enc; cbn; fold encr; by rewrite <- !app_assoc).
  assert (Hl : length enc = (1 + length (ev a) + length (ev b) + length (ev (Z.of_nat (length rs)))
                 + length (ev c) + length encr)%nat)
    by (subst enc; cbn; fold encr; rewrite !length_app; lia).
  apply payload_varint in Hn. rewrite length_fmap in Hn.
  assert (Hbuf : length buf = (length enc + length rest)%nat) by (subst buf; by rewrite length_app).
  assert (Hfuel : (length rs <= length buf)%nat).
  { pose proof (ranges_length rs Hrs) as Hrl. fold encr in Hrl. lia. }
  rewrite Hl. clearbody buf. do 4 read_varint.
  rewrite (ack_ranges_step (length buf) buf _ rs rest) by done.
  change (0x02 =? 0x03) with false. cbv iota. f_equal; f_equal; fold encr; lia.
Qed.

Lemma frame_roundtrip f rest :
  frame_ok f -> frame_decode (frame_encode f ++ rest) = Ok (f, length (frame_encode f)).
Proof.
  intros Hf. destruct f as [n| |a b c rs|a b c|a b|a d|i o fin d|a|a b|bidi a|a|a b|bidi a|app code d| |d];
    [done|done|exact (decode_ack_step a b c rs rest Hf)|..|done|].
  - destruct Hf as (? & ? & ?). by apply (decode_3_step ResetStream).
  - destruct Hf. by apply (decode_2_step StopSending).
  - destruct Hf. by apply (decode_crypto_step 6).
  - destruct Hf as (? & ? & ?). rewrite <- (decode_stream_step i o fin d rest) by done.
    destruct (stream_type_bits o fin) as (Hty & _). unfold frame_encode. simpl app.
    unfold frame_decode. rewrite Hty. unfold stream_type. by destruct (o =? 0), fin.
  - by apply (decode_1_step MaxData).
  - destruct Hf. by apply (decode_2_step MaxStreamData).
  - destruct bidi; [by apply (decode_1_step (MaxStreams true))|by apply (decode_1_step (MaxStreams false))].
  - by apply (decode_1_step DataBlocked).
  - destruct Hf. by apply (decode_2_step StreamDataBlocked).
  - destruct bidi; [by apply (decode_1_step (StreamsBlocked true))|by apply (decode_1_step (StreamsBlocked false))].
  - destruct Hf. destruct app; [by apply (decode_close_step true)|by apply (decode_close_step false)].
  - by apply (decode_datagram_step 49).
Qed.

Lemma frame_encode_nonempty f : frame_ok f -> (1 <= length (frame_encode f))%nat.
Proof.
  destruct f; simpl; rewrite ?length_app; simpl; intros; try lia; done.
Qed.

(** Sequences of frames as a packet carries them: padding is coalesced, so no
    two runs of padding are adjacent. *)
Definition wire_ok (f : QFrame) : Prop :=
  match f with Padding n => (1 <= n)%nat | _ => frame_ok f end.

Fixpoint frames_ok (fs : list QFrame) : Prop :=
  match fs with
  | [] => True
  | f :: tl =>
      wire_ok f /\ frames_ok tl
      /\ match f, tl with Padding _, Padding _ :: _ => False | _, _ => True end
  end.

Lemma zero_run_padding n l :
  match l with x :: _ => x <> 0 | [] => True end -> zero_run (replicate n 0 ++ l) = n.
Proof.
  intros Hl. induction n as [|n IH]; simpl; [|by rewrite IH].
  destruct l as [|x l]; [done|]. simpl. by rewrite (proj2 (Z.eqb_neq _ _)).
Qed.

Lemma frame_encode_head f : frame_ok f -> exists x l, frame_encode f = x :: l /\ x <> 0.
Proof.
  destruct f as [n| | | | | |i o fin d| | |bidi a| | |bidi a|app c r| | ]; intros Hf; try done;
    (eexists _, _; split; [reflexivity|]); try done.
  - unfold stream_type. by destruct (o =? 0), fin.
  - by destruct bidi.
  - by destruct bidi.
  - by destruct app.
Qed.

Lemma wire_encode_nonempty f : wire_ok f -> (1 <= length (frame_encode f))%nat.
Proof.
  intros Hf. destruct f; try by apply frame_encode_nonempty. simpl. by rewrite length_replicate.
Qed.

(** What follows a run of padding does not start with another zero byte. *)
Lemma wire_roundtrip f fs :
  frames_ok (f :: fs) ->
  frame_decode (frame_encode f ++ (fs ≫= frame_encode)) = Ok (f, length (frame_encode f)).
Proof.
  intros (Hf & Hfs & Hadj). destruct f as [n| | | | | | | | | | | | | | | ]; try by apply frame_roundtrip.
  simpl in Hf. cbn [frame_encode]. rewrite length_replicate.
  assert (Hh : match fs ≫= frame_encode with x :: _ => x <> 0 | [] => True end).
  { destruct fs as [|g fs]; [done|]. destruct Hfs as [Hg _]. rewrite bind_cons.
    destruct (frame_encode_head g) as (x & l & -> & Hx); [by destruct g|done]. }
  pose proof (zero_run_padding n _ Hh) as Hz. revert Hz. destruct n as [|n]; [lia|].
  simpl replicate. rewrite <- app_comm_cons. unfold frame_decode. by intros ->.
Qed.

Lemma decode_all_encoded fuel fs :
  frames_ok fs -> (length (fs ≫= frame_encode) <= fuel)%nat ->
  decode_all_loop fuel (fs ≫= frame_encode) = Ok fs.
Proof.
  revert fuel. induction fs as [|f fs IH]; intros fuel Hfs Hl; [by destruct fuel|].
  pose proof (wire_roundtrip f fs Hfs) as Hd. destruct Hfs as (Hf & Hfs & _).
  rewrite bind_cons in *. rewrite length_app in Hl. pose proof (wire_encode_nonempty f Hf) as Hne.
  destruct fuel as [|fuel]; [lia|].
  destruct (frame_encode f ++ _) as [|x tl] eqn:E.
  { apply (f_equal length) in E. rewrite length_app in E. simpl in E. lia. }
  cbn [decode_all_loop]. rewrite Hd, (proj2 (Nat.eqb_neq _ _)), <- E, drop_app_length by lia.
  by rewrite IH by (done || lia).
Qed.

(** ** Progress *)

Lemma decode_varint_bound buf v n :
  bytes_ok buf -> decode_varint buf = Ok (v, n) -> (1 <= n <= length buf)%nat /\ 0 <= v.
Proof.
  intros Hb. destruct buf as [|b buf]; [done|]. cbn [decode_varint].
  destruct (Nat.ltb_spec (length (b :: buf)) (Z.to_nat (Z.shiftl 1 (Z.shiftr b 6)))); [done|].
  intros [= <- <-]. apply Forall_cons in Hb as [Hb Htl]. unfold is_byte in Hb.
  assert (0 <= Z.shiftr b 6) by (apply Z.shiftr_nonneg; lia).
  split.
  - split; [|lia]. rewrite Z.shiftl_1_l. pose proof (Z.pow_pos_nonneg 2 (Z.shiftr b 6)). lia.
  - assert (Hacc : 0 <= Z.land b 63) by (apply Z.land_nonneg; lia). revert Hacc.
    assert (Ht : bytes_ok (take (Z.to_nat (Z.shiftl 1 (Z.shiftr b 6)) - 1) buf)) by (by apply Forall_take).
    revert Ht. generalize (take (Z.to_nat (Z.shiftl 1 (Z.shiftr b 6)) - 1) buf) (Z.land b 63).
    intros l. induction l as [|x l IH]; intros acc Ht Hacc; simpl; [done|].
    apply Forall_cons in Ht as [Hx Ht]. apply IH; [done|]. apply Z.lor_nonneg.
    unfold is_byte in Hx. split; [|lia]. apply Z.mod_pos_bound. lia.
Qed.

Section Progress.
Variable buf : list Z.
Hypothesis Hb : bytes_ok buf.

Lemma varint_at_bound off v off' :
  varint_at buf off = Ok (v, off') -> (off < off' <= length buf)%nat /\ 0 <= v.
Proof.
  unfold varint_at. destruct (decode_varint (drop off buf)) as [[w n]|] eqn:E; [|done].
  intros [= <- <-]. apply decode_varint_bound in E; [|by apply Forall_drop].
  rewrite length_drop in E. lia.
Qed.

Lemma payload_at_bound off len d off' :
  0 <= len -> (off <= length buf)%nat -> payload_at buf off len = Ok (d, off') ->
  (off <= off' <= length buf)%nat.
Proof.
  intros Hl Hoff. unfold payload_at. destruct (_ <? len); [done|].
  destruct (Z.ltb_spec (Z.of_nat (length buf)) (Z.of_nat off + len)); [done|].
  intros [= <- <-]. lia.
Qed.

Lemma ack_ranges_bound fuel off count rs off' :
  (off <= length buf)%nat -> ack_ranges fuel buf off count = Ok (rs, off') ->
  (off <= off' <= length buf)%nat.
Proof.
  revert off count rs off'. induction fuel as [|fuel IH]; intros off count rs off' Hoff; cbn [ack_ranges];
    (destruct (count =? 0); [intros [= <- <-]; lia|]); [done|].
  destruct (varint_at buf off) as [[g o1]|] eqn:E1; [|done]. apply varint_at_bound in E1.
  destruct (varint_at buf o1) as [[r o2]|] eqn:E2; [|done]. apply varint_at_bound in E2.
  destruct (ack_ranges fuel buf o2 (count - 1)) as [[rs' o3]|] eqn:E3; [|done].
  intros [= <- <-]. apply IH in E3; lia.
Qed.

End Progress.

(** Take a decoder apart at its reads. *)
Ltac split_reads :=
  repeat match goal with
  | Hb : bytes_ok ?buf |- context [match varint_at ?buf ?o with _ => _ end] =>
      let E := fresh "E" in destruct (varint_at buf o) as [[? ?]|] eqn:E;
        [apply (varint_at_bound buf Hb) in E|done]
  | Hb : bytes_ok ?buf |- context [match payload_at ?buf ?o ?l with _ => _ end] =>
      let E := fresh "E" in destruct (payload_at buf o l) as [[? ?]|] eqn:E;
        [apply (payload_at_bound buf) in E; [|lia|lia]|done]
  | Hb : bytes_ok ?buf |- context [match ack_ranges ?f ?buf ?o ?c with _ => _ end] =>
      let E := fresh "E" in destruct (ack_ranges f buf o c) as [[? ?]|] eqn:E;
        [apply (ack_ranges_bound buf Hb) in E; [|lia]|done]
  | |- context [match (if ?b then _ else _) with _ => _ end] => destruct b
  end.

Lemma frame_decode_bound buf f n :
  bytes_ok buf -> frame_decode buf = Ok (f, n) -> (1 <= n <= length buf)%nat.
Proof.
  intros Hb Hd. assert (Hz : forall l, (zero_run l <= length l)%nat).
  { induction l as [|x l IH]; simpl; [lia|]. destruct (x =? 0); lia. }
  unfold frame_decode in Hd. destruct buf as [|ty tl] eqn:Ebuf; [done|]. rewrite <- Ebuf in *.
  assert (Hl : (1 <= length buf)%nat) by (rewrite Ebuf; simpl; lia).
  assert (Hz1 : ty = 0 -> (1 <= zero_run buf)%nat) by (intros ->; rewrite Ebuf; simpl; lia).
  pose proof (Hz buf) as Hzb. clear Ebuf Hz. revert Hd.
  unfold decode_ack, decode_stream, decode_close, decode_1, decode_2, decode_3, decode_crypto,
    decode_datagram, skip_ecn.
  repeat match goal with
  | |- (if ?a =? ?b then _ else _) = _ -> _ => destruct (Z.eqb_spec a b)
  | |- (if ?c then _ else _) = _ -> _ => destruct c
  end; split_reads; intros; simplify_eq/=; try done; try lia.
Qed.

(** A payload read frame by frame to its end, or up to a frame that fails. *)
Inductive frames_of : list Z -> list QFrame -> Prop :=
| frames_nil : frames_of [] []
| frames_cons buf f n fs :
    frame_decode buf = Ok (f, n) -> frames_of (drop n buf) fs -> frames_of buf (f :: fs).

Inductive frames_fail : list Z -> QuicError -> Prop :=
| fail_here x buf e : frame_decode (x :: buf) = Err e -> frames_fail (x :: buf) e
| fail_later buf f n e :
    frame_decode buf = Ok (f, n) -> frames_fail (drop n buf) e -> frames_fail buf e.

(** With fuel for its bytes, the loop reads the payload to one of the two ends. *)
Lemma decode_all_loop_spec fuel buf :
  bytes_ok buf -> (length buf <= fuel)%nat ->
  match decode_all_loop fuel buf with Ok fs => frames_of buf fs | Err e => frames_fail buf e end.
Proof.
  revert buf. induction fuel as [|fuel IH]; intros [|x buf] Hb Hl; simpl in Hl;
    [constructor|lia|constructor|]. cbn [decode_all_loop].
  destruct (frame_decode (x :: buf)) as [[f n]|e] eqn:E; [|by constructor].
  pose proof (frame_decode_bound _ _ _ Hb E) as Hn. simpl in Hn.
  rewrite (proj2 (Nat.eqb_neq _ _)) by lia.
  assert (Hd : (length (drop n (x :: buf)) <= fuel)%nat) by (rewrite length_drop; simpl; lia).
  specialize (IH (drop n (x :: buf)) (Forall_drop _ _ _ Hb) Hd).
  destruct (decode_all_loop fuel _); [by eapply frames_cons|by eapply fail_later].
Qed.

(** Both readings are determined by the payload, and exclude each other. *)
Ltac same_frame :=
  match goal with
  | E : frame_decode ?b = Ok _, E' : frame_decode ?b = Ok _ |- _ =>
      rewrite E in E'; injection E' as <- <-
  end.

Lemma frames_of_det buf fs gs : frames_of buf fs -> frames_of buf gs -> fs = gs.
Proof.
  intros H. revert gs. induction H; intros gs Hg; inversion Hg; subst; try done.
  same_frame. f_equal. auto.
Qed.

Lemma frames_fail_not buf fs e : frames_of buf fs -> frames_fail buf e -> False.
Proof.
  intros H. induction H; intros Hf; inversion Hf; subst; try done; try congruence;
    same_frame; auto.
Qed.

Lemma frames_fail_det buf d e : frames_fail buf d -> frames_fail buf e -> d = e.
Proof.
  intros H. induction H; intros Hf; inversion Hf; subst; try done; try congruence;
    same_frame; auto.
Qed.

(** ** Properties *)

(** every sequence of frames whose fields fit the wire, with padding
    coalesced, is read back from the payload its encodings make; a single frame
    other than padding is read back with its length whatever follows it. *)
Theorem quic_frames_roundtrip (fs : list QFrame) (f : QFrame) (rest : list Z)
    (Hfs : frames_ok fs) (Hf : frame_ok f) :
  decode_all (fs ≫= frame_encode) = Ok fs
  /\ frame_decode (frame_encode f ++ rest) = Ok (f, length (frame_encode f)).
Proof. split; [by apply decode_all_encoded|by apply frame_roundtrip]. Qed.

Lemma quic_frames_roundtrip_witness :
  let fs := [Ack 900 3 1 [mkAckRange 2 70]; QStream 4 70000 true [1; 2; 3]; Padding 5; Ping] in
  decode_all (fs ≫= frame_encode) = Ok fs
  /\ frame_decode (frame_encode (ConnectionClose false 10 [104; 105]) ++ [7; 7])
     = Ok (ConnectionClose false 10 [104; 105], 6%nat).
Proof.
  apply (quic_frames_roundtrip
    [Ack 900 3 1 [mkAckRange 2 70]; QStream 4 70000 true [1; 2; 3]; Padding 5; Ping]
    (ConnectionClose false 10 [104; 105]) [7; 7]).
  - cbn. unfold varint_ok, payload_ok, VARINT_MAX, MAX_FRAME_PAYLOAD. cbn.
    change (Z.shiftl 1 62) with (2 ^ 62). change (Z.shiftl 1 20) with (2 ^ 20).
    split_and!; try lia; try done. apply Forall_singleton. simpl. lia.
  - cbn. unfold varint_ok, payload_ok, VARINT_MAX, MAX_FRAME_PAYLOAD. cbn.
    change (Z.shiftl 1 62) with (2 ^ 62). change (Z.shiftl 1 20) with (2 ^ 20). lia.
Defined.

(** decoding a payload always comes to an end: a decoded frame takes at least
    one byte and no more than there are (so the guard against an empty frame
    never fires), the payload decodes to exactly the frames read one after the
    other up to its end, and it fails exactly with the error of the first frame
    that cannot be read. *)
Theorem decode_all_reads_to_the_end (buf : list Z) (Hb : bytes_ok buf) :
  (forall f n, frame_decode buf = Ok (f, n) -> (1 <= n <= length buf)%nat)
  /\ (forall fs, decode_all buf = Ok fs <-> frames_of buf fs)
  /\ (forall e, decode_all buf = Err e <-> frames_fail buf e).
Proof.
  pose proof (decode_all_loop_spec (length buf) buf Hb (le_n _)) as Hs. fold (decode_all buf) in Hs.
  split_and!; [intros f n; by apply frame_decode_bound|intros fs|intros e];
    (split; [by intros E; rewrite E in Hs|]); intros Hf; destruct (decode_all buf).
  - f_equal. by eapply frames_of_det.
  - by destruct (frames_fail_not buf fs e).
  - by destruct (frames_fail_not buf a e).
  - f_equal. by eapply frames_fail_det.
Qed.

Lemma decode_all_reads_to_the_end_witness :
  frames_of [0x10; 5; 0; 0; 1] [MaxData 5; Padding 2; Ping] /\ frames_fail [1; 0x40; 0] (Malformed "unsupported frame type").
Proof.
  split.
  - apply (decode_all_reads_to_the_end [0x10; 5; 0; 0; 1]); [|reflexivity].
    repeat constructor; unfold is_byte; lia.
  - apply (decode_all_reads_to_the_end [1; 0x40; 0]); [|reflexivity].
    repeat constructor; unfold is_byte; lia.
Defined.
