(* ===== verification/StateM.v ===== *)
(** Effects of the runtime's handlers: a state monad whose [None] is a panic, and
    total-correctness triples for it; and [BTreeMap]s keyed by integers as sorted
    association lists. *)
From Stdlib Require Import Sorted.
From S2P Require Import Prelude.
Definition M (S A : Type) : Type := S -> option (A * S).

#[export] Instance M_ret {S} : MRet (M S) := fun A a s => Some (a, s).
#[export] Instance M_bind {S} : MBind (M S) := fun A B k m s =>
  match m s with Some (a, s') => k a s' | None => None end.

(** Read a component, replace the state, panic. *)
Definition gets {S A} (f : S -> A) : M S A := fun s => Some (f s, s).
Definition modify {S} (f : S -> S) : M S unit := fun s => Some (tt, f s).
Definition panic {S A} : M S A := fun _ => None.

(** [v[i]], or [expect], of an optional value. *)
Definition unwrap {S A} (o : option A) : M S A :=
  match o with Some a => mret a | None => panic end.

Definition skip {S} : M S unit := mret tt.

(** [if let Some(x) = o { k(x) }] *)
Definition if_some {S A} (o : option A) (k : A -> M S unit) : M S unit :=
  match o with Some a => k a | None => skip end.

(** The [?] of a handler that also fails with an error value. *)
Definition try_bind {S A B E} (m : M S (result A E)) (k : A -> M S (result B E)) : M S (result B E) :=
  r ← m; match r with Ok a => k a | Err e => mret (Err e) end.

Notation "x ←? m ; k" := (try_bind m (fun x => k))
  (at level 20, m at level 100, k at level 200, right associativity).

(** Running a sequence. *)
Lemma run_bind {S A B} (m : M S A) (k : A -> M S B) s :
  (m ≫= k) s = match m s with Some (a, s') => k a s' | None => None end.
Proof. done. Qed.

Lemma run_try {S A B E} (m : M S (result A E)) (k : A -> M S (result B E)) s :
  try_bind m k s = match m s with Some (Ok a, s') => k a s' | Some (Err e, s') => Some (Err e, s') | None => None end.
Proof. unfold try_bind. rewrite run_bind. by destruct (m s) as [[[?|?] ?]|]. Qed.

Lemma run_ret {S A} (a : A) (s : S) : (mret a : M S A) s = Some (a, s).
Proof. done. Qed.

Lemma run_gets {S A} (f : S -> A) (s : S) : gets f s = Some (f s, s).
Proof. done. Qed.

Lemma run_modify {S} (f : S -> S) (s : S) : modify f s = Some (tt, f s).
Proof. done. Qed.

(** [m] run from a state in [P] does not panic and ends as [Q] says. *)
Definition triple {S A} (P : S -> Prop) (m : M S A) (Q : A -> S -> Prop) : Prop :=
  forall s, P s -> exists a s', m s = Some (a, s') /\ Q a s'.

Lemma triple_ret {S A} (P : S -> Prop) (a : A) (Q : A -> S -> Prop) :
  (forall s, P s -> Q a s) -> triple P (mret a) Q.
Proof. intros H s Hs. exists a, s. split; [done|auto]. Qed.

Lemma triple_bind {S A B} (P : S -> Prop) (R : A -> S -> Prop) (Q : B -> S -> Prop)
    (m : M S A) (k : A -> M S B) :
  triple P m R -> (forall a, triple (R a) (k a) Q) -> triple P (m ≫= k) Q.
Proof.
  intros Hm Hk s Hs. destruct (Hm s Hs) as (a & s' & E & Ha).
  destruct (Hk a s' Ha) as (b & s'' & E' & Hb). exists b, s''. split; [|done].
  unfold mbind, M_bind. by rewrite E.
Qed.

Lemma triple_modify {S} (P : S -> Prop) (f : S -> S) (Q : unit -> S -> Prop) :
  (forall s, P s -> Q tt (f s)) -> triple P (modify f) Q.
Proof. intros H s Hs. exists tt, (f s). split; [done|auto]. Qed.

Lemma triple_gets {S A} (P : S -> Prop) (f : S -> A) (Q : A -> S -> Prop) :
  (forall s, P s -> Q (f s) s) -> triple P (gets f) Q.
Proof. intros H s Hs. exists (f s), s. split; [done|auto]. Qed.

Lemma triple_unwrap {S A} (P : S -> Prop) (o : option A) (Q : A -> S -> Prop) :
  (exists a, o = Some a /\ forall s, P s -> Q a s) -> triple P (unwrap o) Q.
Proof. intros (a & -> & H). by apply triple_ret. Qed.

Lemma triple_conseq {S A} (P P' : S -> Prop) (Q Q' : A -> S -> Prop) (m : M S A) :
  triple P m Q -> (forall s, P' s -> P s) -> (forall a s, Q a s -> Q' a s) -> triple P' m Q'.
Proof.
  intros H HP HQ s Hs. destruct (H s (HP s Hs)) as (a & s' & E & Ha). exists a, s'. auto.
Qed.

Lemma triple_pure {S A} (F : Prop) (P : S -> Prop) (m : M S A) (Q : A -> S -> Prop) :
  (F -> triple P m Q) -> triple (fun s => F /\ P s) m Q.
Proof. intros H s [HF Hs]. by apply H. Qed.

(** Preserving an invariant: the triple with the same condition on both sides. *)
Definition keeps {S A} (I : S -> Prop) (m : M S A) : Prop := triple I m (fun _ => I).

Section Keeps.
Context {S : Type} (I : S -> Prop).

Lemma keeps_ret {A} (a : A) : keeps I (mret a).
Proof. apply triple_ret. auto. Qed.

Lemma keeps_bind {A B} (m : M S A) (k : A -> M S B) :
  keeps I m -> (forall a, keeps I (k a)) -> keeps I (m ≫= k).
Proof. intros Hm Hk. by apply (triple_bind I (fun _ => I)). Qed.

Lemma keeps_gets {A} (f : S -> A) : keeps I (gets f).
Proof. apply triple_gets. auto. Qed.

(** What is read holds of the state it is read from. *)
Lemma keeps_gets_bind {A B} (f : S -> A) (k : A -> M S B) :
  (forall s0, I s0 -> keeps I (k (f s0))) -> keeps I (gets f ≫= k).
Proof.
  intros H s Hs. destruct (H s Hs s Hs) as (b & s' & E & Hb). by exists b, s'.
Qed.

Lemma keeps_if_some {A} (o : option A) (k : A -> M S unit) :
  (forall a, o = Some a -> keeps I (k a)) -> keeps I (if_some o k).
Proof. destruct o; simpl; intros H; [by apply H|apply keeps_ret]. Qed.

Lemma keeps_if {A} (b : bool) (m1 m2 : M S A) :
  (b = true -> keeps I m1) -> (b = false -> keeps I m2) -> keeps I (if b then m1 else m2).
Proof. destruct b; auto. Qed.
End Keeps.

Create HintDb keeps.
#[export] Hint Resolve keeps_ret keeps_gets : keeps.
#[export] Hint Resolve keeps_bind keeps_if_some keeps_if | 3 : keeps.

(** * Maps with integer keys *)

Local Open Scope Z_scope.

Definition zmap (V : Type) : Type := list (Z * V).

Fixpoint zm_get {V} (m : zmap V) (k : Z) : option V :=
  match m with
  | [] => None
  | (k', v) :: m => if k =? k' then Some v else zm_get m k
  end.

(** [insert(k, v)]: replaces the value of a key already present. *)
Fixpoint zm_insert {V} (m : zmap V) (k : Z) (v : V) : zmap V :=
  match m with
  | [] => [(k, v)]
  | (k', v') :: m' =>
      if k <? k' then (k, v) :: m
      else if k =? k' then (k, v) :: m'
      else (k', v') :: zm_insert m' k v
  end.

Fixpoint zm_remove {V} (m : zmap V) (k : Z) : zmap V :=
  match m with
  | [] => []
  | (k', v') :: m' => if k =? k' then m' else (k', v') :: zm_remove m' k
  end.

(** [entry(k).or_insert(v)]: keeps the value of a key already present. *)
Definition zm_or_insert {V} (m : zmap V) (k : Z) (v : V) : zmap V :=
  match zm_get m k with Some _ => m | None => zm_insert m k v end.

Definition zm_keys {V} (m : zmap V) : list Z := m.*1.
Definition zm_values {V} (m : zmap V) : list V := m.*2.
Definition zm_wf {V} (m : zmap V) : Prop := StronglySorted Z.lt (zm_keys m).

Section Laws.
Context {V : Type}.
Implicit Types m : zmap V.

Lemma zm_wf_cons k (v : V) m :
  zm_wf ((k, v) :: m) <-> zm_wf m /\ Forall (fun k' => k < k') (zm_keys m).
Proof.
  unfold zm_wf, zm_keys. simpl. split.
  - intros H. by apply StronglySorted_inv in H.
  - intros [H1 H2]. by constructor.
Qed.

Lemma zm_keys_insert m k v : forall k', k' ∈ zm_keys (zm_insert m k v) <-> k' = k \/ k' ∈ zm_keys m.
Proof.
  unfold zm_keys. induction m as [|[k0 v0] m IH]; intros k'; simpl; [set_solver|].
  destruct (Z.ltb_spec k k0); [set_solver|]. destruct (Z.eqb_spec k k0); simpl; set_solver.
Qed.

Lemma zm_insert_wf m k v : zm_wf m -> zm_wf (zm_insert m k v).
Proof.
  induction m as [|[k0 v0] m IH]; simpl; intros Hwf; [by repeat constructor|].
  apply zm_wf_cons in Hwf as [Hwf Hall]. destruct (Z.ltb_spec k k0).
  - apply zm_wf_cons. split; [by apply zm_wf_cons|]. simpl. constructor; [done|].
    eapply Forall_impl; [exact Hall|]. intros; simpl in *; lia.
  - destruct (Z.eqb_spec k k0) as [->|]; apply zm_wf_cons; [done|]. split; [auto|].
    apply Forall_forall. intros k' Hk'. apply zm_keys_insert in Hk' as [->|Hk']; [lia|].
    by eapply Forall_forall in Hall.
Qed.

Lemma zm_keys_remove m k : forall k', k' ∈ zm_keys (zm_remove m k) -> k' ∈ zm_keys m.
Proof.
  unfold zm_keys. induction m as [|[k0 v0] m IH]; intros k'; simpl; [done|].
  destruct (k =? k0); simpl; set_solver.
Qed.

Lemma zm_remove_wf m k : zm_wf m -> zm_wf (zm_remove m k).
Proof.
  induction m as [|[k0 v0] m IH]; simpl; intros Hwf; [done|].
  apply zm_wf_cons in Hwf as [Hwf Hall]. destruct (k =? k0); [done|]. apply zm_wf_cons.
  split; [auto|]. apply Forall_forall. intros k' Hk'. apply zm_keys_remove in Hk'.
  by eapply Forall_forall in Hall.
Qed.

Lemma zm_get_keys m k : is_Some (zm_get m k) <-> k ∈ zm_keys m.
Proof.
  unfold zm_keys. induction m as [|[k0 v0] m IH]; simpl.
  - split; [by intros []|by intros ?%elem_of_nil].
  - destruct (Z.eqb_spec k k0) as [->|]; [split; [set_solver|done]|]. rewrite IH. set_solver.
Qed.

Lemma zm_get_None m k : zm_get m k = None <-> k ∉ zm_keys m.
Proof. rewrite <- zm_get_keys, <- not_eq_None_Some. destruct (zm_get m k); naive_solver. Qed.

Lemma zm_get_below m k : Forall (fun k' => k < k') (zm_keys m) -> zm_get m k = None.
Proof.
  intros H. apply zm_get_None. intros Hk. eapply Forall_forall in H; [|exact Hk]. simpl in H. lia.
Qed.

Lemma zm_get_insert m k v k' :
  zm_wf m -> zm_get (zm_insert m k v) k' = if k' =? k then Some v else zm_get m k'.
Proof.
  induction m as [|[k0 v0] m IH]; simpl; intros Hwf; [done|].
  apply zm_wf_cons in Hwf as [Hwf Hall]. destruct (Z.ltb_spec k k0); simpl; [done|].
  destruct (Z.eqb_spec k k0) as [->|]; simpl.
  - by destruct (Z.eqb_spec k' k0).
  - rewrite IH by done. destruct (Z.eqb_spec k' k0), (Z.eqb_spec k' k); congruence.
Qed.

Lemma zm_get_remove m k k' :
  zm_wf m -> zm_get (zm_remove m k) k' = if k' =? k then None else zm_get m k'.
Proof.
  induction m as [|[k0 v0] m IH]; simpl; intros Hwf; [by destruct (k' =? k)|].
  apply zm_wf_cons in Hwf as [Hwf Hall]. destruct (Z.eqb_spec k k0) as [->|]; simpl.
  - destruct (Z.eqb_spec k' k0) as [Hk|]; [rewrite Hk; by apply zm_get_below|done].
  - rewrite IH by done. destruct (Z.eqb_spec k' k0), (Z.eqb_spec k' k); congruence.
Qed.

Lemma zm_get_in m k v : zm_get m k = Some v -> (k, v) ∈ m.
Proof.
  induction m as [|[k0 v0] m IH]; simpl; [done|].
  destruct (Z.eqb_spec k k0) as [->|]; [intros [= ->]; left|intros; right; auto].
Qed.

Lemma zm_in_get m k v : zm_wf m -> (k, v) ∈ m -> zm_get m k = Some v.
Proof.
  induction m as [|[k0 v0] m IH]; simpl; intros Hwf Hin; [by apply elem_of_nil in Hin|].
  apply zm_wf_cons in Hwf as [Hwf Hall]. apply elem_of_cons in Hin as [[= -> ->]|Hin].
  - by rewrite Z.eqb_refl.
  - assert (k ∈ zm_keys m) by (unfold zm_keys; apply list_elem_of_fmap; by exists (k, v)).
    eapply Forall_forall in Hall; [|done]. simpl in Hall.
    rewrite (proj2 (Z.eqb_neq _ _)) by lia. auto.
Qed.

Lemma zm_in_insert m k v p : p ∈ zm_insert m k v -> p = (k, v) \/ p ∈ m.
Proof.
  induction m as [|[k0 v0] m IH]; simpl; [set_solver|].
  destruct (k <? k0); [set_solver|]. destruct (k =? k0); set_solver.
Qed.

Lemma zm_in_remove m k p : p ∈ zm_remove m k -> p ∈ m.
Proof.
  induction m as [|[k0 v0] m IH]; simpl; [done|]. destruct (k =? k0); set_solver.
Qed.

Lemma zm_remove_mid m1 k v m2 : zm_wf (m1 ++ (k, v) :: m2) -> zm_remove (m1 ++ (k, v) :: m2) k = m1 ++ m2.
Proof.
  induction m1 as [|[k0 v0] m1 IH]; simpl; intros Hwf; [by rewrite Z.eqb_refl|].
  apply zm_wf_cons in Hwf as [Hwf Hall]. rewrite IH by done.
  assert (Hk : k ∈ zm_keys (m1 ++ (k, v) :: m2)) by (unfold zm_keys; rewrite fmap_app; set_solver).
  eapply Forall_forall in Hall; [|exact Hk]. simpl in Hall. by rewrite (proj2 (Z.eqb_neq _ _)) by lia.
Qed.

(** What a removed key takes out, counted by a weight of the entries. *)
Lemma zm_remove_sum (w : V -> Z) m k v :
  zm_get m k = Some v ->
  foldr (fun p a => w p.2 + a) 0 m = w v + foldr (fun p a => w p.2 + a) 0 (zm_remove m k).
Proof.
  induction m as [|[k0 v0] m IH]; simpl; [done|].
  destruct (Z.eqb_spec k k0); [by intros [= ->]|]. simpl. intros H. rewrite (IH H). lia.
Qed.

Lemma zm_insert_sum_fresh (w : V -> Z) m k v :
  zm_get m k = None ->
  foldr (fun p a => w p.2 + a) 0 (zm_insert m k v) = w v + foldr (fun p a => w p.2 + a) 0 m.
Proof.
  induction m as [|[k0 v0] m IH]; simpl; [done|].
  destruct (Z.eqb_spec k k0); [done|]. destruct (k <? k0); simpl; [done|]. intros H.
  rewrite (IH H). lia.
Qed.
End Laws.

#[export] Hint Resolve zm_insert_wf zm_remove_wf : core.
