(* ===== verification/QuicStreamFacts.v ===== *)
(** QUIC streams, the theorems: what is read is always a prefix of what was
    written; once every frame the sender cut has arrived, in any order and any
    number of times, all of it is read; stream identifiers, limits and datagram
    queues. *)
From Stdlib Require Import Sorted.
From stdpp Require Import sorting.
From S2P Require Import Prelude Numbers StateM QuicPacket QuicFrame QuicStream.
Local Open Scope Z_scope.

(** ** Slices of the written stream *)

Definition slice_of (B : list Z) (off : Z) (data : list Z) : Prop :=
  0 <= off /\ exists rest, drop (Z.to_nat off) B = data ++ rest.

Lemma slice_drop B off data n :
  slice_of B off data -> (n <= length data)%nat -> slice_of B (off + Z.of_nat n) (drop n data).
Proof.
  intros [Ho [rest Hd]] Hn. split; [lia|]. exists rest.
  replace (Z.to_nat (off + Z.of_nat n)) with (Z.to_nat off + n)%nat by lia.
  rewrite <- drop_drop, Hd. by rewrite drop_app_le.
Qed.

(** Two slices with the same bounds are the same bytes. *)
Lemma slice_unique B off d1 d2 :
  slice_of B off d1 -> slice_of B off d2 -> length d1 = length d2 -> d1 = d2.
Proof. intros [_ [r1 H1]] [_ [r2 H2]] Hl. rewrite H1 in H2. by apply app_inj_1 in H2 as [-> _]. Qed.

Lemma slice_extends B off data :
  slice_of B off data -> take (Z.to_nat off) B ++ data = take (Z.to_nat (end_of off data)) B.
Proof.
  intros [Ho [rest Hd]]. unfold end_of.
  replace (Z.to_nat (off + Z.of_nat (length data))) with (Z.to_nat off + length data)%nat by lia.
  rewrite <- (take_drop (Z.to_nat off) B) at 2.
  destruct (decide (Z.to_nat off <= length B)%nat) as [Hle|Hgt].
  - rewrite take_app_ge by (rewrite length_take; lia). rewrite length_take, Hd.
    replace (_ - _)%nat with (length data) by lia. by rewrite take_app_length.
  - rewrite drop_ge in Hd |- * by lia. symmetry in Hd. apply app_nil in Hd as [-> ->].
    simpl. rewrite !app_nil_r. rewrite take_take. f_equal. lia.
Qed.

Lemma slice_len B off data :
  slice_of B off data -> data <> [] -> end_of off data <= Z.of_nat (length B).
Proof.
  intros [Ho [rest Hd]] Hne. apply (f_equal length) in Hd. unfold end_of.
  rewrite length_drop, length_app in Hd. destruct data; [done|]. simpl in *. lia.
Qed.

(** ** Receive histories *)

Inductive recv_op := Ingest (offset : Z) (data : list Z) (fin : bool) | Read.

Definition recv_step (s : RecvStream) (o : recv_op) : list Z * RecvStream :=
  match o with
  | Ingest off d f => ([], recv_ingest s off d f)
  | Read => recv_read s
  end.

Fixpoint recv_run (s : RecvStream) (ops : list recv_op) : list Z * RecvStream :=
  match ops with
  | [] => ([], s)
  | o :: ops =>
      let '(out, s) := recv_step s o in
      let '(out', s) := recv_run s ops in (out ++ out', s)
  end.

Definition chunks_ok (B : list Z) (m : zmap (list Z)) : Prop :=
  zm_wf m /\ Forall (fun c => slice_of B c.1 c.2) m.

Definition recv_ok (B : list Z) (s : RecvStream) : Prop := chunks_ok B (chunks s) /\ 0 <= read_off s.

Lemma ingest_chunks_ok B m start slice :
  chunks_ok B m -> slice_of B start slice -> chunks_ok B (zm_or_insert m start slice).
Proof.
  intros [Hwf Hf] Hs. unfold zm_or_insert. destruct (zm_get m start); [done|].
  split; [auto|]. apply Forall_forall. intros p [->|Hp]%zm_in_insert; [done|].
  by eapply Forall_forall in Hf.
Qed.

Lemma recv_ingest_ok B s off d f :
  recv_ok B s -> slice_of B off d -> recv_ok B (recv_ingest s off d f).
Proof.
  intros [Hc Hr] Hs. unfold recv_ingest.
  assert (Hcut : (end_of off d <=? read_off s) = false ->
                 slice_of B (Z.max off (read_off s))
                   (drop (Z.to_nat (Z.max off (read_off s) - off)) d)).
  { intros He%Z.leb_gt. unfold end_of in He.
    replace (Z.max off (read_off s)) with (off + Z.of_nat (Z.to_nat (Z.max off (read_off s) - off)))
      at 1 by lia.
    apply slice_drop; [done|lia]. }
  destruct f; cbn [read_off chunks]; destruct (end_of off d <=? read_off s), (length d =? 0)%nat;
    simpl; try done; (split; [apply ingest_chunks_ok; [done|by apply Hcut]|done]).
Qed.

(** One run of the read loop: what it returns continues what was read before. *)
Lemma read_loop_spec B m : forall off out,
  chunks_ok B m -> 0 <= off ->
  let '(out', m', off') := read_loop m off out in
  chunks_ok B m' /\ off <= off' /\ (exists got, out' = out ++ got /\ take (Z.to_nat off) B ++ got = take (Z.to_nat off') B)
  /\ Forall (fun k => off' < k) (zm_keys m').
Proof.
  induction m as [|[o d] m IH]; intros off out [Hwf Hf] Hoff; cbn [read_loop].
  - split_and!; [done|lia| |constructor]. exists []. by rewrite !app_nil_r.
  - apply zm_wf_cons in Hwf as [Hwf Hall]. apply Forall_cons in Hf as [Hd Hf]. simpl in Hd.
    destruct (Z.ltb_spec off o) as [Hlt|Hge].
    + split_and!; [split; [by apply zm_wf_cons|by constructor]|lia| |].
      * exists []. by rewrite !app_nil_r.
      * constructor; [done|]. eapply Forall_impl; [exact Hall|]. simpl. lia.
    + destruct (Nat.ltb_spec (Z.to_nat (off - o)) (length d)) as [Hs|Hs]; [|by apply IH].
      specialize (IH (off + Z.of_nat (length d - Z.to_nat (off - o)))
                    (out ++ drop (Z.to_nat (off - o)) d) (conj Hwf Hf) ltac:(lia)).
      destruct (read_loop _ _ _) as [[out' m'] off'] eqn:E.
      destruct IH as (Hok & Hle & (got & -> & Hgot) & Hk). split_and!; [done|lia| |done].
      exists (drop (Z.to_nat (off - o)) d ++ got). split; [by rewrite app_assoc|].
      rewrite app_assoc, <- Hgot. f_equal.
      pose proof (slice_drop B o d (Z.to_nat (off - o)) Hd ltac:(lia)) as Hsl.
      replace (o + Z.of_nat (Z.to_nat (off - o))) with off in Hsl by lia.
      rewrite (slice_extends B off _ Hsl). unfold end_of. by rewrite length_drop.
Qed.

Lemma recv_read_ok B s :
  recv_ok B s ->
  let '(out, s') := recv_read s in
  recv_ok B s' /\ read_off s <= read_off s'
  /\ take (Z.to_nat (read_off s)) B ++ out = take (Z.to_nat (read_off s')) B
  /\ Forall (fun k => read_off s' < k) (zm_keys (chunks s')) /\ final_size s' = final_size s.
Proof.
  intros [Hc Hr]. unfold recv_read. pose proof (read_loop_spec B (chunks s) (read_off s) [] Hc Hr) as H.
  destruct (read_loop _ _ _) as [[out m] off]. destruct H as (Hok & Hle & (got & -> & Hg) & Hk).
  simpl. split_and!; try done. split; [done|simpl; lia].
Qed.

Definition op_of (B : list Z) (o : recv_op) : Prop :=
  match o with Ingest off d _ => slice_of B off d | Read => True end.

Lemma recv_run_ok B ops : forall s,
  recv_ok B s -> Forall (op_of B) ops ->
  let '(out, s') := recv_run s ops in
  recv_ok B s' /\ take (Z.to_nat (read_off s)) B ++ out = take (Z.to_nat (read_off s')) B.
Proof.
  induction ops as [|o ops IH]; intros s Hs Ho; cbn [recv_run].
  { split; [done|by rewrite app_nil_r]. }
  apply Forall_cons in Ho as [Ho Hops].
  assert (Hstep : let '(out, s1) := recv_step s o in
            recv_ok B s1 /\ take (Z.to_nat (read_off s)) B ++ out = take (Z.to_nat (read_off s1)) B).
  { destruct o as [off d f|]; cbn [recv_step].
    - split; [by apply recv_ingest_ok|]. rewrite app_nil_r. unfold recv_ingest.
      destruct f, (_ || _); done.
    - pose proof (recv_read_ok B s Hs) as H. destruct (recv_read s). naive_solver. }
  destruct (recv_step s o) as [out s1]. destruct Hstep as [Hok Htk]. specialize (IH s1 Hok Hops).
  destruct (recv_run s1 ops) as [out' s2]. destruct IH as [Hok' Htk']. split; [done|].
  by rewrite app_assoc, Htk.
Qed.

(** ** Frames that do not straddle each other *)

Abbreviation sframe := (Z * list Z * bool)%type.

(** Position [p] is not strictly inside a frame of [fs]. *)
Definition boundary (fs : list sframe) (p : Z) : Prop :=
  forall o d f, (o, d, f) ∈ fs -> p <= o \/ end_of o d <= p.

Section Complete.
Context (B : list Z) (fs : list sframe).
Hypothesis fs_slices : forall o d f, (o, d, f) ∈ fs -> slice_of B o d.
Hypothesis fs_ends : forall o d f, (o, d, f) ∈ fs -> boundary fs (end_of o d).

Definition chunks_of_frames (m : zmap (list Z)) : Prop :=
  forall k d, (k, d) ∈ m -> d <> [] /\ exists f, (k, d, f) ∈ fs.

Lemma chunks_of_frames_ok m : zm_wf m -> chunks_of_frames m -> chunks_ok B m.
Proof.
  intros Hwf Hm. split; [done|]. apply Forall_forall. intros [k d] Hin. simpl.
  destruct (Hm k d Hin) as [_ [f Hf]]. by eapply fs_slices.
Qed.

(** Frames with the same offset that carry bytes are the same. *)
Lemma frame_unique o d1 d2 f1 f2 :
  (o, d1, f1) ∈ fs -> (o, d2, f2) ∈ fs -> d1 <> [] -> d2 <> [] -> d1 = d2.
Proof.
  intros H1 H2 N1 N2. eapply slice_unique; [by eapply fs_slices|by eapply fs_slices|].
  pose proof (fs_ends _ _ _ H1 _ _ _ H2) as E1. pose proof (fs_ends _ _ _ H2 _ _ _ H1) as E2.
  unfold end_of in *. destruct d1, d2; simpl in *; try done. lia.
Qed.

Lemma read_loop_boundary m : forall off out,
  zm_wf m -> chunks_of_frames m -> boundary fs off ->
  let '(out', m', off') := read_loop m off out in
  zm_wf m' /\ chunks_of_frames m' /\ boundary fs off' /\ off <= off'
  /\ (forall k d, zm_get m k = Some d -> end_of k d <= off' \/ zm_get m' k = Some d).
Proof.
  induction m as [|[o d] m IH]; intros off out Hwf Hm Hb; cbn [read_loop].
  { split_and!; [done..|lia|naive_solver]. }
  destruct (Hm o d ltac:(left)) as [Hne [f Hf]].
  pose proof Hwf as Hwf0. apply zm_wf_cons in Hwf as [Hwf Hall].
  assert (Hm' : chunks_of_frames m) by (intros k d' Hin; apply Hm; by right).
  destruct (Z.ltb_spec off o) as [Hlt|Hge]; [split_and!; [done..|lia|naive_solver]|].
  assert (Hcase : (Z.to_nat (off - o) <? length d)%nat = true /\ off = o
                  \/ (Z.to_nat (off - o) <? length d)%nat = false /\ end_of o d <= off).
  { destruct (Hb _ _ _ Hf) as [H|H]; unfold end_of in *.
    - left. split; [|lia]. apply Nat.ltb_lt. destruct d; [done|]. simpl. lia.
    - right. split; [|done]. apply Nat.ltb_ge. lia. }
  destruct Hcase as [[-> ->]|[-> He]].
  - rewrite Z.sub_diag. cbn [Z.to_nat drop]. rewrite Nat.sub_0_r.
    specialize (IH (end_of o d) (out ++ d) Hwf Hm' (fs_ends _ _ _ Hf)). unfold end_of in IH at 1.
    destruct (read_loop _ _ _) as [[out' m'] off']. destruct IH as (H1 & H2 & H3 & H4 & H5).
    unfold end_of in H4. split_and!; [done..|lia|]. intros k d'. cbn [zm_get].
    destruct (Z.eqb_spec k o) as [->|]; [intros [= <-]; left; unfold end_of; lia|auto].
  - specialize (IH off out Hwf Hm' Hb).
    destruct (read_loop _ _ _) as [[out' m'] off']. destruct IH as (H1 & H2 & H3 & H4 & H5).
    split_and!; [done..|]. intros k d'. cbn [zm_get].
    destruct (Z.eqb_spec k o) as [->|]; [intros [= <-]; left; lia|auto].
Qed.

(** The state after the frames [seen] arrived. *)
Record recv_has (s : RecvStream) (seen : list sframe) : Prop := {
  rh_wf : zm_wf (chunks s);
  rh_frames : chunks_of_frames (chunks s);
  rh_boundary : boundary fs (read_off s);
  rh_seen : forall o d f, (o, d, f) ∈ seen ->
    d = [] \/ end_of o d <= read_off s \/ zm_get (chunks s) o = Some d;
}.

Lemma recv_ingest_has s seen o d f :
  recv_has s seen -> (o, d, f) ∈ fs -> recv_has (recv_ingest s o d f) ((o, d, f) :: seen).
Proof.
  intros [Hwf Hfr Hb Hs] Hin. unfold recv_ingest.
  set (s1 := if f then _ else s).
  assert (Ec : chunks s1 = chunks s) by (subst s1; by destruct f).
  assert (Er : read_off s1 = read_off s) by (subst s1; by destruct f).
  clearbody s1. rewrite !Ec, !Er.
  destruct (Z.leb_spec (end_of o d) (read_off s)) as [He|He]; cbn [orb].
  { split; rewrite ?Ec, ?Er; [done..|]. intros o' d' f' [[= -> -> ->]|Hs']%elem_of_cons; eauto. }
  destruct (length d =? 0)%nat eqn:El.
  { apply Nat.eqb_eq, nil_length_inv in El.
    split; rewrite ?Ec, ?Er; [done..|]. intros o' d' f' [[= -> -> ->]|Hs']%elem_of_cons; eauto. }
  assert (Hd : d <> []) by (destruct d; done).
  destruct (Hb _ _ _ Hin) as [Ho|]; [|lia].
  replace (Z.max o (read_off s)) with o by lia. rewrite Z.sub_diag. cbn [Z.to_nat drop].
  unfold zm_or_insert. destruct (zm_get (chunks s) o) as [d0|] eqn:Eg.
  - destruct (Hfr _ _ (zm_get_in _ _ _ Eg)) as [Hd0 [f0 Hf0]].
    rewrite (frame_unique o d0 d f0 f) in Eg by done.
    split; simpl; [done..|]. intros o' d' f' [[= -> -> ->]|Hs']%elem_of_cons; eauto.
  - split; simpl; [auto| |done|].
    + intros k d' [[= -> ->]|Hk]%zm_in_insert; eauto.
    + intros o' d' f' Hs'. rewrite zm_get_insert by done.
      apply elem_of_cons in Hs' as [[= -> -> ->]|Hs']; [rewrite Z.eqb_refl; auto|].
      destruct (Z.eqb_spec o' o) as [->|]; [|eauto]. destruct (Hs _ _ _ Hs') as [?|[?|?]]; [auto..|].
      congruence.
Qed.

Lemma recv_read_has s seen out s' :
  recv_has s seen -> recv_read s = (out, s') -> recv_has s' seen.
Proof.
  intros [Hwf Hfr Hb Hs] E. unfold recv_read in E.
  pose proof (read_loop_boundary (chunks s) (read_off s) [] Hwf Hfr Hb) as H.
  destruct (read_loop _ _ _) as [[out' m'] off']. simplify_eq. destruct H as (H1 & H2 & H3 & H4 & H5).
  split; simpl; [done..|]. intros o d f Hin. destruct (Hs _ _ _ Hin) as [?|[?|Hg]]; [auto|right; left; lia|].
  destruct (H5 _ _ Hg); auto.
Qed.

Definition ingested (ops : list recv_op) : list sframe :=
  omap (fun o => match o with Ingest off d f => Some (off, d, f) | Read => None end) ops.

Lemma recv_run_has ops : forall s seen,
  recv_has s seen -> (forall x, x ∈ ingested ops -> x ∈ fs) ->
  recv_has (recv_run s ops).2 (reverse (ingested ops) ++ seen).
Proof.
  induction ops as [|[o d f|] ops IH]; intros s seen Hs Hin; cbn [recv_run recv_step]; [done|..].
  - specialize (IH (recv_ingest s o d f) ((o, d, f) :: seen)).
    destruct (recv_run _ ops). cbn [snd] in *. cbn [ingested omap list_omap].
    rewrite reverse_cons, <- app_assoc. apply IH; [apply recv_ingest_has; [done|apply Hin; left]|].
    intros x Hx. apply Hin. by right.
  - destruct (recv_read s) as [out s1] eqn:E. specialize (IH s1 seen (recv_read_has _ _ _ _ Hs E) Hin).
    destruct (recv_run s1 ops). done.
Qed.
End Complete.

(** ** Send histories *)

Inductive send_op := Write (data : list Z) (fin : bool) | Take (max : nat).

Fixpoint send_run (s : SendStream) (ops : list send_op) : list sframe * SendStream :=
  match ops with
  | [] => ([], s)
  | Write d f :: ops => send_run (send_write s d f) ops
  | Take max :: ops =>
      match send_take s max with
      | (Some fr, s) => let '(frs, s) := send_run s ops in (fr :: frs, s)
      | (None, s) => send_run s ops
      end
  end.

Definition written (ops : list send_op) : list Z :=
  ops ≫= fun o => match o with Write d _ => d | Take _ => [] end.

(** Nothing is written after the stream was finalised. *)
Fixpoint writes_end (closed : bool) (ops : list send_op) : bool :=
  match ops with
  | [] => true
  | Write _ f :: ops => negb closed && writes_end f ops
  | Take _ :: ops => writes_end closed ops
  end.

(** [fs] cuts the bytes from [o] to [o'] into consecutive frames. *)
Fixpoint cut (o : Z) (fs : list sframe) (o' : Z) : Prop :=
  match fs with
  | [] => o = o'
  | (p, d, _) :: fs => p = o /\ cut (end_of p d) fs o'
  end.

Definition datas (fs : list sframe) : list Z := fs ≫= fun fr => fr.1.2.

Lemma datas_cons p d f fs : datas ((p, d, f) :: fs) = d ++ datas fs.
Proof. done. Qed.

Lemma written_cons o ops :
  written (o :: ops) = match o with Write d _ => d | Take _ => [] end ++ written ops.
Proof. done. Qed.

Lemma send_run_cut ops : forall s,
  let '(fs, s') := send_run s ops in
  cut (send_off s) fs (send_off s') /\ datas fs ++ queued s' = queued s ++ written ops.
Proof.
  induction ops as [|[d f|max] ops IH]; intros s; cbn [send_run].
  - split; [done|]. by rewrite app_nil_r.
  - specialize (IH (send_write s d f)). destruct (send_run _ ops) as [fs s'].
    simpl in IH. rewrite <- app_assoc in IH. exact IH.
  - unfold send_take. destruct (negb (has_pending s)); [apply IH|].
    set (n := Nat.min _ _). set (s1 := mkSend _ _ _ _). specialize (IH s1).
    destruct (send_run s1 ops) as [fs s']. destruct IH as [Hc Hd]. split.
    + simpl. split; [done|]. unfold end_of. rewrite length_take. subst s1 n. simpl in Hc.
      by replace (Nat.min (Nat.min _ max) (length (queued s))) with (Nat.min (length (queued s)) max) by lia.
    + rewrite datas_cons, <- app_assoc, Hd. subst s1. cbn [queued]. by rewrite app_assoc, take_drop.
Qed.

(** What a cut gives: slices that do not straddle and cover every position. *)
Lemma cut_frames B fs : forall o o' rest,
  0 <= o -> cut o fs o' -> drop (Z.to_nat o) B = datas fs ++ rest ->
  (forall p d f, (p, d, f) ∈ fs -> slice_of B p d /\ o <= p /\ end_of p d <= o')
  /\ (forall p d f, (p, d, f) ∈ fs -> boundary fs (end_of p d))
  /\ (forall x, o <= x < o' -> exists p d f, (p, d, f) ∈ fs /\ p <= x < end_of p d)
  /\ o <= o' /\ o' = o + Z.of_nat (length (datas fs)).
Proof.
  induction fs as [|[[p0 d0] f0] fs IH]; intros o o' rest Ho Hcut HB.
  { simpl in Hcut. subst o'. split_and!; try (intros; set_solver); simpl; try lia. }
  destruct Hcut as [-> Hcut]. rewrite datas_cons in HB |- *.
  assert (Hs : slice_of B o d0) by (split; [done|]; eexists; by rewrite HB, <- app_assoc).
  destruct (IH (end_of o d0) o' rest) as (H1 & H2 & H3 & H4 & H5); [unfold end_of; lia|done| |].
  { unfold end_of. replace (Z.to_nat (o + Z.of_nat (length d0))) with (Z.to_nat o + length d0)%nat by lia.
    rewrite <- drop_drop, HB, <- app_assoc. apply drop_app_length. }
  assert (Hb0 : end_of o d0 >= o) by (unfold end_of; lia).
  split_and!; [| | |lia|unfold end_of in *; rewrite length_app; lia].
  - intros p d f [[= -> -> ->]|Hin]%elem_of_cons; [split_and!; [done|lia|lia]|].
    destruct (H1 _ _ _ Hin) as (? & ? & ?). split_and!; [done|lia|lia].
  - intros p d f Hpd p' d' f' Hpd'.
    apply elem_of_cons in Hpd as [[= -> -> ->]|Hpd]; apply elem_of_cons in Hpd' as [[= -> -> ->]|Hpd'].
    + right. lia.
    + left. by destruct (H1 _ _ _ Hpd') as (? & ? & ?).
    + right. destruct (H1 _ _ _ Hpd) as (? & ? & ?). unfold end_of in *. lia.
    + by eapply H2.
  - intros x Hx. destruct (decide (x < end_of o d0)) as [Hlt|Hge].
    + exists o, d0, f0. split; [left|lia].
    + destruct (H3 x ltac:(lia)) as (p & d & f & Hin & Hr). exists p, d, f. split; [by right|done].
Qed.

(** A frame with FIN ends the stream. *)
Definition fin_ok (fs : list sframe) (total : Z) : Prop :=
  forall p d, (p, d, true) ∈ fs -> end_of p d = total.

Lemma send_run_fin ops : forall s,
  writes_end (fin s) ops = true -> (fin_sent s = true -> fin s = true /\ queued s = []) ->
  let '(fs, s') := send_run s ops in
  fin_ok fs (send_off s + Z.of_nat (length (queued s ++ written ops)))
  /\ (fin_sent s' = true -> fin_sent s = true \/ exists p d, (p, d, true) ∈ fs)
  /\ (fin_sent s = true -> fs = []).
Proof.
  induction ops as [|[d f|max] ops IH]; intros s Hw Hf; cbn [send_run].
  - split_and!; [intros p d Hin; set_solver|auto|done].
  - cbn [writes_end] in Hw. apply andb_true_iff in Hw as [Hc Hw]. apply negb_true_iff in Hc.
    assert (Hns : fin_sent s = false) by (destruct (fin_sent s); [destruct Hf; congruence|done]).
    specialize (IH (send_write s d f)). simpl in IH. rewrite Hc in IH. specialize (IH Hw).
    rewrite Hns in IH |- *. destruct (send_run _ ops) as [fs s'].
    destruct IH as (H1 & H2 & H3); [done|]. split_and!; [|done|done].
    by rewrite written_cons, app_assoc.
  - cbn [writes_end] in Hw. unfold send_take.
    destruct (has_pending s) eqn:Hp; cbn [negb]; [|by apply (IH s)].
    assert (Hns : fin_sent s = false).
    { destruct (fin_sent s) eqn:E; [|done]. destruct Hf as [Hf Hq]; [done|]. unfold has_pending in Hp.
      by rewrite Hq, Hf, E in Hp. }
    set (n := Nat.min _ _). set (s1 := mkSend _ _ _ _).
    specialize (IH s1). simpl in IH. rewrite Hns in IH |- *. cbn [orb] in IH.
    destruct (send_run s1 ops) as [fs s'].
    assert (Hl : send_off s + Z.of_nat n + Z.of_nat (length (drop n (queued s) ++ written ops))
                 = send_off s + Z.of_nat (length (queued s ++ written ops)))
      by (subst n; rewrite !length_app, length_drop; lia).
    destruct IH as (H1 & H2 & H3); [done| |].
    { intros [? ?%Nat.eqb_eq]%andb_true_iff. split; [done|]. by apply nil_length_inv. }
    rewrite written_cons, app_nil_l. split_and!; [|intros Hs'|done].
    + intros p d [[= -> -> Hfr]|Hin]%elem_of_cons; [|rewrite <- Hl; by apply H1].
      symmetry in Hfr. apply andb_true_iff in Hfr as [Hfin Hq%Nat.eqb_eq].
      assert (Hwn : written ops = []).
      { rewrite Hfin in Hw. clear -Hw. induction ops as [|[]]; simpl in *; [done..|auto]. }
      rewrite Hwn, app_nil_r. unfold end_of. rewrite length_take. rewrite length_drop in Hq. lia.
    + right. destruct (H2 Hs') as [Hc|(p & d & Hin)]; [|exists p, d; by right].
      exists (send_off s), (take n (queued s)). rewrite Hc. left.
Qed.

(** ** End to end *)

Lemma recv_default_ok B : recv_ok B recv_default.
Proof. split; [split; constructor|done]. Qed.

Lemma recv_default_has fs : (forall o d f, (o, d, f) ∈ fs -> 0 <= o) -> recv_has fs recv_default [].
Proof.
  intros H. split; simpl.
  - constructor.
  - intros k d Hin. by apply elem_of_nil in Hin.
  - intros o d f Hin. eauto.
  - intros o d f Hin. by apply elem_of_nil in Hin.
Qed.

Lemma ingested_ops B (fs : list sframe) ops :
  (forall o d f, (o, d, f) ∈ fs -> slice_of B o d) -> (forall x, x ∈ ingested ops -> x ∈ fs) ->
  Forall (op_of B) ops.
Proof.
  intros Hs Hin. apply Forall_forall. intros [o d f|] Ho; simpl; [|done].
  apply (Hs o d f), Hin. apply list_elem_of_omap. by exists (Ingest o d f).
Qed.

(** The last FIN ingested sets the final size. *)
Lemma recv_run_final total ops : forall s,
  fin_ok (ingested ops) total ->
  (final_size s = Some total \/ exists p d, (p, d, true) ∈ ingested ops) ->
  final_size (recv_run s ops).2 = Some total.
Proof.
  induction ops as [|[o d f|] ops IH]; intros s Hok Hf; cbn [recv_run recv_step].
  - destruct Hf as [|(p & d & Hin%elem_of_nil)]; done.
  - assert (Hok' : fin_ok (ingested ops) total) by (intros p' d' Hin; apply Hok; by right).
    specialize (IH (recv_ingest s o d f) Hok'). destruct (recv_run _ ops) as [x s'] eqn:E.
    cbn [snd] in *. apply IH. destruct f.
    + left. unfold recv_ingest. cbn [read_off chunks final_size].
      assert (end_of o d = total) as -> by (apply Hok; left). by destruct (_ || _).
    + destruct Hf as [Hf|(p & d' & [[=]|Hin]%elem_of_cons)]; [left|right; eauto].
      unfold recv_ingest. by destruct (_ || _).
  - destruct (recv_read s) as [out s1] eqn:E. specialize (IH s1 Hok).
    destruct (recv_run s1 ops) as [x s']. apply IH. destruct Hf as [Hf|Hf]; [left|by right].
    unfold recv_read in E. destruct (read_loop _ _ _) as [[? ?] ?]. by simplify_eq.
Qed.

Lemma recv_run_last_read ops s B :
  recv_ok B s -> Forall (op_of B) ops -> last ops = Some Read ->
  Forall (fun k => read_off (recv_run s ops).2 < k) (zm_keys (chunks (recv_run s ops).2)).
Proof.
  revert s. induction ops as [|o ops IH]; intros s Hs Ho Hl; [done|].
  apply Forall_cons in Ho as [Ho Hops]. cbn [recv_run].
  assert (Hs1 : recv_ok B (recv_step s o).2).
  { destruct o as [off d f|]; cbn [recv_step]; [by apply recv_ingest_ok|].
    pose proof (recv_read_ok B s Hs) as H. destruct (recv_read s). naive_solver. }
  destruct ops as [|o' ops].
  - simpl in Hl. injection Hl as ->. cbn [recv_step recv_run].
    pose proof (recv_read_ok B s Hs) as H. destruct (recv_read s). naive_solver.
  - specialize (IH (recv_step s o).2 Hs1 Hops Hl). destruct (recv_step s o) as [out s1].
    destruct (recv_run _ (o' :: ops)). exact IH.
Qed.

(** C10: A sender writes and cuts its bytes into frames as it likes; the receiver
    gets some of these frames, in any order and any number of times, reading
    whenever it likes.  What it reads is always a prefix of what was written; once
    every frame has arrived and nothing is left to send, a read has returned all of
    it, and the stream is finished if the sender finalised it. *)
Theorem stream_delivers_what_was_written sops rops :
  writes_end false sops = true ->
  (forall x, x ∈ ingested rops -> x ∈ (send_run send_default sops).1) ->
  let s := (send_run send_default sops).2 in
  let out := (recv_run recv_default rops).1 in
  let r := (recv_run recv_default rops).2 in
  out = take (Z.to_nat (read_off r)) (written sops)
  /\ (has_pending s = false -> (forall x, x ∈ (send_run send_default sops).1 -> x ∈ ingested rops) ->
      last rops = Some Read ->
      out = written sops /\ (fin s = true -> is_finished r = true)).
Proof.
  intros Hw Hin s out r. subst s.
  pose proof (send_run_cut sops send_default) as Hcut.
  pose proof (send_run_fin sops send_default Hw ltac:(done)) as Hfin.
  destruct (send_run send_default sops) as [fs s]. cbn [fst snd] in *. simpl in Hcut, Hfin.
  destruct Hcut as [Hcut Hdat]. destruct Hfin as (Hfin & Hsent & _).
  destruct (cut_frames (written sops) fs 0 (send_off s) (queued s) ltac:(lia) Hcut)
    as (H1 & H2 & H3 & _ & H5); [by rewrite Hdat|].
  assert (Hsl : forall o d f, (o, d, f) ∈ fs -> slice_of (written sops) o d)
    by (intros; eapply H1; eauto).
  pose proof (ingested_ops (written sops) fs rops Hsl Hin) as Hops.
  pose proof (recv_run_ok (written sops) rops recv_default (recv_default_ok _) Hops) as Hrun.
  pose proof (recv_run_has (written sops) fs Hsl H2 rops recv_default [])
    as Hhas. rewrite app_nil_r in Hhas. specialize (Hhas ltac:(apply recv_default_has; intros ??? Hx; by apply H1 in Hx as (_ & ? & _)) Hin).
  pose proof (recv_run_last_read rops recv_default (written sops) (recv_default_ok _) Hops) as Hlast.
  pose proof (recv_run_final (Z.of_nat (length (written sops))) rops recv_default) as Hfs.
  subst out r. destruct (recv_run recv_default rops) as [out r]. cbn [fst snd] in *.
  destruct Hrun as [Hok Htk]. simpl in Htk. split; [done|]. intros Hnp Hall Hl. specialize (Hlast Hl).
  assert (Hq : queued s = []).
  { unfold has_pending in Hnp. apply orb_false_iff in Hnp as [Hq _]. by destruct (queued s). }
  rewrite Hq, app_nil_r in Hdat.
  assert (Hoff : Z.of_nat (length (written sops)) <= read_off r).
  { destruct (decide (read_off r < Z.of_nat (length (written sops)))) as [Hlt|]; [|lia]. exfalso.
    destruct (H3 (read_off r)) as (p & d & f & Hpd & Hr);
      [destruct Hok; rewrite Hdat in H5; lia|].
    destruct (rh_seen _ _ _ Hhas p d f) as [->|[He|Hg]]; [by apply elem_of_reverse, Hall| | |].
    - unfold end_of in Hr. simpl in Hr. lia.
    - lia.
    - assert (Hk : p ∈ zm_keys (chunks r)) by (apply zm_get_keys; by rewrite Hg).
      eapply Forall_forall in Hlast; [|exact Hk]. simpl in Hlast. lia. }
  split; [rewrite Htk; apply take_ge; lia|]. intros Hf. unfold is_finished. rewrite Hfs.
  - apply Z.leb_le. done.
  - intros p d Hx. apply Hfin. auto.
  - right. unfold has_pending in Hnp. rewrite Hq, Hf in Hnp. simpl in Hnp.
    destruct (fin_sent s); [|done]. destruct (Hsent eq_refl) as [?|(p & d & Hx)]; [done|eauto].
Qed.

(** Three writes cut into frames of four bytes; the frames arrive last to first,
    one of them twice, with a read in between. *)
Example stream_delivers_what_was_written_witness :
  let sops := [Write [1; 2; 3] false; Take 4; Write [4; 5] false; Take 1; Take 4; Write [6] true; Take 4] in
  let rops := [Ingest 5 [6] true; Ingest 4 [5] false; Read; Ingest 0 [1; 2; 3] false; Ingest 4 [5] false;
               Read; Ingest 3 [4] false; Read] in
  (recv_run recv_default rops).1 = written sops
  /\ is_finished (recv_run recv_default rops).2 = true.
Proof.
  intros sops rops.
  destruct (stream_delivers_what_was_written sops rops) as [_ H]; [reflexivity| |].
  - intros x Hx. vm_compute in Hx |- *. set_solver.
  - destruct H as [H1 H2]; [reflexivity| |reflexivity|].
    + intros x Hx. vm_compute in Hx |- *. set_solver.
    + split; [exact H1|apply H2; reflexivity].
Defined.

(** Frames that do not come from one cut are another matter: a longer frame at the
    offset of a buffered one is dropped whole, so its tail never arrives. *)
Example overlapping_retransmission_is_lost :
  let r := (recv_run recv_default [Ingest 0 [1] false; Ingest 0 [1; 2; 3] true; Read]).2 in
  read_off r = 1 /\ is_finished r = false /\ chunks r = [].
Proof. vm_compute. auto. Qed.

(** ** Stream identifiers and limits *)

Lemma nth_stream_value side bidi i :
  0 <= i < 2 ^ 62 ->
  nth_stream side bidi i = 4 * i + (if decide (side = Server) then 1 else 0) + (if bidi then 0 else 2).
Proof.
  intros Hi. unfold nth_stream, as_u64, INITIATOR_BIT, UNI_BIT.
  rewrite Z.shiftl_mul_pow2, Z.mod_small by lia. change (2 ^ 2) with 4.
  assert (H : forall b, (b = 1 \/ b = 2 \/ b = 3) -> Z.lor (i * 4) b = i * 4 + b).
  { intros b Hb. symmetry. rewrite <- Z.lxor_lor, Z.add_nocarry_lxor; [done|..];
    (apply Z.bits_inj'; intros n Hn; rewrite Z.land_spec, Z.bits_0;
     destruct (decide (n < 2)) as [Hlt|Hge];
     [assert (n = 0 \/ n = 1) as [-> | ->] by lia; change (i * 4) with (i * 2 ^ 2);
      rewrite Z.mul_pow2_bits_low by lia; done
     |rewrite (Z.bits_above_log2 b), ?andb_false_r; [done|lia|
        destruct Hb as [-> |[-> | ->]]; simpl; lia]]). }
  destruct (decide (side = Server)), bidi; cbn [negb].
  - rewrite H by auto. lia.
  - rewrite <- Z.lor_assoc. change (Z.lor 1 2) with 3. rewrite H by auto. lia.
  - lia.
  - rewrite H by auto. lia.
Qed.

Lemma land_low i b c : 0 <= b < 4 -> (c = 1 \/ c = 2) -> Z.land (4 * i + b) c = Z.land b c.
Proof.
  intros Hb Hc. assert (Hm : forall x, Z.land x c = Z.land (x mod 2 ^ 2) c).
  { intros x. rewrite <- Z.land_ones by lia. rewrite <- Z.land_assoc. f_equal.
    by destruct Hc as [-> | ->]. }
  rewrite Hm, (Hm b). f_equal. change (2 ^ 2) with 4. rewrite Z.add_comm, Z.mul_comm, Z.mod_add by lia. done.
Qed.

(** The identifier of the n-th stream of a side and kind says which side opened
    it and whether it is bidirectional, and no two (side, kind, n) share one. *)
Theorem stream_ids_bijective side bidi i :
  0 <= i < 2 ^ 62 ->
  initiator (nth_stream side bidi i) = side
  /\ is_bidi (nth_stream side bidi i) = bidi
  /\ (forall side', is_locally_initiated (nth_stream side bidi i) side' = bool_decide (side = side'))
  /\ 0 <= nth_stream side bidi i < 2 ^ 64
  /\ (forall side' bidi' j, 0 <= j < 2 ^ 62 ->
        nth_stream side bidi i = nth_stream side' bidi' j -> side = side' /\ bidi = bidi' /\ i = j).
Proof.
  intros Hi.
  assert (Hinit : initiator (nth_stream side bidi i) = side).
  { unfold initiator, INITIATOR_BIT. rewrite nth_stream_value, <- Z.add_assoc, land_low by
      (try done; try (left; done); destruct (decide (side = Server)), bidi; lia).
    destruct side, bidi; done. }
  assert (Hbidi : is_bidi (nth_stream side bidi i) = bidi).
  { unfold is_bidi, UNI_BIT. rewrite nth_stream_value, <- Z.add_assoc, land_low by
      (try done; try (right; done); destruct (decide (side = Server)), bidi; lia).
    destruct side, bidi; done. }
  split_and!; [done|done| |rewrite nth_stream_value by done; destruct (decide _), bidi; lia| |].
  - intros side'. unfold is_locally_initiated. by rewrite Hinit.
  - rewrite nth_stream_value by done; destruct (decide _), bidi; lia.
  - intros side' bidi' j Hj. rewrite !nth_stream_value by done.
    destruct (decide (side = Server)) as [->|], (decide (side' = Server)) as [->|];
      destruct bidi, bidi'; intros E; try lia; split_and!; try done; try lia;
      destruct side, side'; done.
Qed.

Example stream_ids_bijective_witness :
  nth_stream Server false 5 = 23 /\ initiator 23 = Server /\ is_bidi 23 = false.
Proof.
  split; [reflexivity|].
  destruct (stream_ids_bijective Server false 5 ltac:(lia)) as (H1 & H2 & _). exact (conj H1 H2).
Defined.

(** Opening respects the peer's limit, and streams opened are new to the count. *)
Lemma sm_open_spec m bidi :
  match sm_open m bidi with
  | (Some id, m') =>
      id = nth_stream (sm_side m) bidi (if bidi then next_bidi m else next_uni m)
      /\ (if bidi then next_bidi m < peer_max_bidi m else next_uni m < peer_max_uni m)
      /\ next_bidi m' = next_bidi m + (if bidi then 1 else 0)
      /\ next_uni m' = next_uni m + (if bidi then 0 else 1)
      /\ streams m' = <[id := stream_default]> (streams m)
  | (None, m') => m' = m /\ (if bidi then peer_max_bidi m <= next_bidi m else peer_max_uni m <= next_uni m)
  end.
Proof.
  unfold sm_open. destruct bidi; simpl; destruct (Z.leb_spec (if true then peer_max_bidi m else 0) (next_bidi m));
    repeat case_match; simplify_eq/=; split_and?; lia || done.
Qed.
