(* ===== verification/QuicRecoveryFacts.v ===== *)
(** QUIC loss recovery, the theorems: the bytes in flight are exactly those of the
    outstanding packets and the window never falls below its minimum; an ACK takes
    exactly the packets it names; loss detection declares exactly the packets the
    two thresholds name. *)
From Stdlib Require Import Sorted.
From S2P Require Import Prelude Numbers StateM QuicPacket QuicFrame QuicRecovery.
Local Open Scope Z_scope.

(** ** One packet-number space *)

Definition sizes (m : zmap SentPacket) : Z := foldr (fun p a => size p.2 + a) 0 m.

(** Packets are filed under their number, and their sizes are sizes. *)
Definition sent_ok (m : zmap SentPacket) : Prop :=
  zm_wf m /\ Forall (fun kp => kp.1 = pn kp.2 /\ 0 <= size kp.2) m.

Lemma sent_ok_remove m n : sent_ok m -> sent_ok (zm_remove m n).
Proof.
  intros [Hwf Hf]. split; [auto|]. apply Forall_forall. intros p Hp%zm_in_remove.
  by eapply Forall_forall in Hf.
Qed.

Lemma sent_ok_insert m p : sent_ok m -> 0 <= size p -> sent_ok (zm_insert m (pn p) p).
Proof.
  intros [Hwf Hf] Hs. split; [auto|]. apply Forall_forall. intros q [->|Hq]%zm_in_insert; [done|].
  by eapply Forall_forall in Hf.
Qed.

Lemma sent_ok_get m n p : sent_ok m -> zm_get m n = Some p -> pn p = n /\ 0 <= size p.
Proof.
  intros [_ Hf] Hg%zm_get_in. eapply Forall_forall in Hf; [|exact Hg]. simpl in Hf. naive_solver.
Qed.

Lemma sizes_nonneg m : sent_ok m -> 0 <= sizes m.
Proof.
  intros [_ Hf]. unfold sizes. induction Hf as [|[k p] m [_ Hp] _ IH]; simpl in *; lia.
Qed.

Lemma sum_sizes_app l1 l2 : sum_sizes (l1 ++ l2) = sum_sizes l1 + sum_sizes l2.
Proof. induction l1 as [|p l1 IH]; simpl; lia. Qed.

Definition sizes_ok (l : list SentPacket) : Prop := Forall (fun p => 0 <= size p) l.

Lemma sent_sizes_nonneg l : sizes_ok l -> 0 <= sum_sizes l.
Proof. induction 1; simpl; lia. Qed.

(** ** Acknowledgement *)

Lemma take_block_concat bs : forall acc,
  foldl take_block acc bs = foldl take_pn acc (bs ≫= fun b => seqZ b.1 (b.2 - b.1 + 1)).
Proof.
  induction bs as [|b bs IH]; intros acc; simpl; [done|]. rewrite IH. by rewrite foldl_app.
Qed.

Lemma elem_of_cons_ne (k n : Z) ns : k <> n -> bool_decide (k ∈ n :: ns) = bool_decide (k ∈ ns).
Proof. intros H. apply bool_decide_ext. set_solver. Qed.

Lemma take_pns_spec ns : forall m acc,
  sent_ok m ->
  let '(m', acc') := foldl take_pn (m, acc) ns in
  sent_ok m'
  /\ (forall n, zm_get m' n = if bool_decide (n ∈ ns) then None else zm_get m n)
  /\ exists got, acc' = acc ++ got /\ sizes_ok got /\ sizes m = sizes m' + sum_sizes got
     /\ NoDup (pn <$> got)
     /\ forall p, p ∈ got <-> exists n, n ∈ ns /\ zm_get m n = Some p.
Proof.
  induction ns as [|n ns IH]; intros m acc Hm; cbn [foldl].
  { split_and!; [done|done|]. exists []. rewrite app_nil_r. split_and!; [done|constructor|simpl; lia|constructor|].
    set_solver. }
  change (take_pn (m, acc) n) with
    (match zm_get m n with Some p => (zm_remove m n, acc ++ [p]) | None => (m, acc) end).
  destruct (zm_get m n) as [p|] eqn:Eg.
  - specialize (IH (zm_remove m n) (acc ++ [p]) (sent_ok_remove _ _ Hm)).
    destruct (foldl take_pn _ ns) as [m' acc'].
    destruct IH as (Hok & Hget & got & -> & Hsz & Hsum & Hnd & Hin).
    destruct (sent_ok_get _ _ _ Hm Eg) as [Hpn Hp0]. destruct Hm as [Hwf Hf].
    split_and!; [done| |].
    + intros k. rewrite Hget, zm_get_remove by done.
      destruct (Z.eqb_spec k n) as [->|].
      * rewrite (bool_decide_eq_true_2 (n ∈ n :: ns)) by left. by destruct (bool_decide (n ∈ ns)).
      * by rewrite elem_of_cons_ne.
    + exists (p :: got). rewrite <- app_assoc. split_and!; [done|by constructor| | |].
      * unfold sizes in *. rewrite (zm_remove_sum size m n p Eg). simpl. lia.
      * simpl. constructor; [|done]. rewrite Hpn. intros Hx.
        apply list_elem_of_fmap in Hx as (q & Hq & Hqin). apply Hin in Hqin as (k & Hk & Hgk).
        rewrite zm_get_remove in Hgk by done. destruct (Z.eqb_spec k n) as [|Hne]; [done|].
        apply Hne. destruct (sent_ok_get m k q (conj Hwf Hf) Hgk). congruence.
      * intros q. rewrite elem_of_cons, Hin. split.
        -- intros [->|(k & Hk & Hgk)]; [exists n; split; [left|done]|].
           rewrite zm_get_remove in Hgk by done. destruct (k =? n); [done|].
           exists k. split; [by right|done].
        -- intros (k & Hk & Hgk). destruct (Z.eqb_spec k n) as [->|Hne]; [left; congruence|right].
           exists k. split; [set_solver|]. rewrite zm_get_remove by done.
           by rewrite (proj2 (Z.eqb_neq _ _)).
  - specialize (IH m acc Hm). destruct (foldl take_pn _ ns) as [m' acc'].
    destruct IH as (Hok & Hget & got & -> & Hsz & Hsum & Hnd & Hin). split_and!; [done| |].
    + intros k. rewrite Hget. destruct (decide (k = n)) as [->|].
      * rewrite (bool_decide_eq_true_2 (n ∈ n :: ns)), Eg by left. by destruct (bool_decide (n ∈ ns)).
      * by rewrite elem_of_cons_ne.
    + exists got. split_and!; try done. intros q. rewrite Hin. split.
      * intros (k & Hk & Hgk). exists k. split; [by right|done].
      * intros (k & [->|Hk]%elem_of_cons & Hgk); [congruence|eauto].
Qed.

Definition in_blocks (bs : list (Z * Z)) (n : Z) : Prop := exists lo hi, (lo, hi) ∈ bs /\ lo <= n <= hi.

Lemma elem_of_blocks bs n : n ∈ (bs ≫= fun b => seqZ b.1 (b.2 - b.1 + 1)) <-> in_blocks bs n.
Proof.
  rewrite list_elem_of_bind. split.
  - intros ([lo hi] & Hn & Hb). apply elem_of_seqZ in Hn. simpl in Hn. exists lo, hi. split; [done|lia].
  - intros (lo & hi & Hb & Hn). exists (lo, hi). split; [|done]. apply elem_of_seqZ. simpl. lia.
Qed.

(** ** Congestion window *)

Definition cc_ok (c : Congestion) : Prop := MIN_WINDOW <= cwnd c /\ MIN_WINDOW <= ssthresh c.

Lemma cc_on_acked_fold l : forall c,
  sizes_ok l -> cc_ok c -> sum_sizes l <= bytes_in_flight c ->
  let c' := foldl (fun c p => cc_on_acked c (size p)) c l in
  cc_ok c' /\ bytes_in_flight c' = bytes_in_flight c - sum_sizes l /\ cwnd c <= cwnd c'.
Proof.
  induction l as [|p l IH]; intros c Hl Hc Hs; cbn [foldl]; [simpl in *; split_and!; [done|lia|lia]|].
  apply Forall_cons in Hl as [Hp Hl]. pose proof (sent_sizes_nonneg l Hl). cbn [sum_sizes foldr] in Hs.
  fold (sum_sizes l) in Hs.
  assert (Hw : cwnd c <= cwnd (cc_on_acked c (size p))).
  { unfold cc_on_acked. cbn [cwnd]. destruct (cwnd c <? ssthresh c); [lia|].
    assert (0 <= MAX_DATAGRAM * size p / Z.max (cwnd c) 1)
      by (apply Z.div_pos; unfold MAX_DATAGRAM; lia). lia. }
  assert (Hb : bytes_in_flight (cc_on_acked c (size p)) = bytes_in_flight c - size p)
    by (unfold cc_on_acked, sat_sub; simpl; lia).
  destruct (IH (cc_on_acked c (size p))) as (H1 & H2 & H3); [done| |rewrite Hb; lia|].
  { destruct Hc. split; [lia|]. by unfold cc_on_acked. }
  split_and!; [done| |lia]. rewrite H2, Hb. cbn [sum_sizes foldr]. fold (sum_sizes l). lia.
Qed.

Lemma cc_on_loss_spec c bytes t :
  cc_ok c -> 0 <= bytes <= bytes_in_flight c ->
  cc_ok (cc_on_loss c bytes t) /\ bytes_in_flight (cc_on_loss c bytes t) = bytes_in_flight c - bytes.
Proof.
  intros [Hw Ht] Hb. unfold cc_on_loss, cc_ok, sat_sub.
  destruct (t <=? recovery_start c); simpl; split; lia.
Qed.

(** ** Loss detection *)

Definition lost_now (largest now th : Z) (p : SentPacket) : bool :=
  negb (largest <=? pn p) && is_lost largest now th p (pn p).

(** Packets that are late but not yet lost. *)
Definition waiting (largest now th : Z) (p : SentPacket) : bool :=
  negb (largest <=? pn p) && negb (is_lost largest now th p (pn p)).

Definition deadline (th : Z) (p : SentPacket) : Z := time_sent p + th.

Lemma detect_loop_spec largest now th m2 : forall m1 lost next,
  sent_ok (m1 ++ m2) -> Forall (fun kp => lost_now largest now th kp.2 = false) m1 ->
  detect_loop largest now th (zm_keys m2) (m1 ++ m2) lost next
  = (m1 ++ List.filter (fun kp => negb (lost_now largest now th kp.2)) m2,
     lost ++ List.filter (lost_now largest now th) (zm_values m2),
     foldl opt_min next (deadline th <$> List.filter (waiting largest now th) (zm_values m2))).
Proof.
  induction m2 as [|[k p] m2 IH]; intros m1 lost next Hok Hm1.
  { simpl. by rewrite !app_nil_r. }
  assert (Hg : zm_get (m1 ++ (k, p) :: m2) k = Some p)
    by (apply zm_in_get; [apply Hok|set_solver]).
  destruct (sent_ok_get _ _ _ Hok Hg) as [Hk _]. cbn [zm_keys fmap list_fmap fst detect_loop].
  fold (zm_keys m2). cbn [zm_values fmap list_fmap snd]. fold (zm_values m2).
  replace (m1 ++ (k, p) :: m2) with ((m1 ++ [(k, p)]) ++ m2) in * by (by rewrite <- app_assoc).
  assert (Hkeep : lost_now largest now th p = false ->
            Forall (fun kp => lost_now largest now th kp.2 = false) (m1 ++ [(k, p)]))
    by (intros; apply Forall_app; split; [done|by repeat constructor]).
  cbn [List.filter]. cbn [snd]. rewrite Hg. subst k.
  destruct (Z.leb_spec largest (pn p)) as [Hle|Hlt].
  { assert (lost_now largest now th p = false) as El
      by (unfold lost_now; by rewrite (proj2 (Z.leb_le _ _))).
    assert (waiting largest now th p = false) as Ew
      by (unfold waiting; by rewrite (proj2 (Z.leb_le _ _))).
    rewrite IH by auto. rewrite El, Ew. cbn [negb]. by rewrite <- app_assoc. }
  destruct (is_lost largest now th p (pn p)) eqn:Eil.
  - assert (El : lost_now largest now th p = true)
      by (unfold lost_now; by rewrite Eil, (proj2 (Z.leb_gt _ _))).
    assert (Ew : waiting largest now th p = false)
      by (unfold waiting; by rewrite Eil, (proj2 (Z.leb_gt _ _))).
    assert (Hrm : zm_remove ((m1 ++ [(pn p, p)]) ++ m2) (pn p) = m1 ++ m2).
    { rewrite <- app_assoc. apply zm_remove_mid. rewrite <- app_assoc in Hok. apply Hok. }
    rewrite Hrm, IH; [|rewrite <- Hrm; by apply sent_ok_remove|done].
    rewrite El, Ew. cbn [negb]. by rewrite <- app_assoc.
  - assert (El : lost_now largest now th p = false)
      by (unfold lost_now; by rewrite Eil, (proj2 (Z.leb_gt _ _))).
    assert (Ew : waiting largest now th p = true)
      by (unfold waiting; by rewrite Eil, (proj2 (Z.leb_gt _ _))).
    rewrite IH by auto. rewrite El, Ew. cbn [negb fmap list_fmap foldl].
    by rewrite <- app_assoc.
Qed.

(** ** All spaces *)

Definition outstanding (ss : list SpaceRecovery) : Z := foldr (fun s a => sizes (sent s) + a) 0 ss.

Record rec_ok (r : LossRecovery) : Prop := {
  ro_len : length (spaces r) = SPACES;
  ro_sent : Forall (fun s => sent_ok (sent s)) (spaces r);
  ro_bytes : bytes_in_flight (cc r) = outstanding (spaces r);
  ro_cc : cc_ok (cc r);
}.

Lemma space_at_lookup r i : rec_ok r -> (i < SPACES)%nat -> spaces r !! i = Some (space_at r i).
Proof.
  intros Hr Hi. unfold space_at. rewrite <- (ro_len r Hr) in Hi.
  apply lookup_lt_is_Some in Hi as [s Hs]. rewrite Hs. f_equal. symmetry. by apply nth_lookup_Some.
Qed.

Lemma space_at_ok r i : rec_ok r -> (i < SPACES)%nat -> sent_ok (sent (space_at r i)).
Proof.
  intros Hr Hi. eapply (Forall_lookup_1 (fun s => sent_ok (sent s))); [apply Hr|by apply space_at_lookup].
Qed.

Lemma outstanding_put ss i s0 s :
  ss !! i = Some s0 -> outstanding (<[i := s]> ss) = outstanding ss - sizes (sent s0) + sizes (sent s).
Proof.
  revert i. induction ss as [|s1 ss IH]; intros [|i]; simpl; intros H; simplify_eq; [lia|].
  rewrite (IH i H). lia.
Qed.

Lemma outstanding_nonneg ss : Forall (fun s => sent_ok (sent s)) ss -> 0 <= outstanding ss.
Proof. induction 1 as [|s ss Hs _ IH]; simpl; [lia|]. pose proof (sizes_nonneg _ Hs). lia. Qed.

Lemma outstanding_part ss i s0 :
  Forall (fun s => sent_ok (sent s)) ss -> ss !! i = Some s0 -> sizes (sent s0) <= outstanding ss.
Proof.
  intros Hf. revert i. induction Hf as [|s ss Hs Hf IH]; intros [|i]; simpl; intros H; simplify_eq.
  - pose proof (outstanding_nonneg ss Hf). lia.
  - pose proof (sizes_nonneg _ Hs). specialize (IH i H). lia.
Qed.

(** Replacing a space by one with fewer bytes, and taking these out of flight. *)
Lemma rec_ok_put r i s c rt pc :
  rec_ok r -> (i < SPACES)%nat -> sent_ok (sent s) -> cc_ok c ->
  bytes_in_flight c = bytes_in_flight (cc r) - sizes (sent (space_at r i)) + sizes (sent s) ->
  rec_ok (mkLoss (put_space r i s) rt c pc (max_ack_delay r)).
Proof.
  intros Hr Hi Hs Hc Hb. pose proof (space_at_lookup r i Hr Hi) as Hl. unfold put_space.
  split; simpl; [by rewrite length_insert, (ro_len r Hr)| | |done].
  - apply Forall_insert; [apply Hr|done].
  - rewrite (outstanding_put _ _ _ _ Hl), Hb, (ro_bytes r Hr). done.
Qed.

Lemma on_packet_sent_ok r i p :
  rec_ok r -> (i < SPACES)%nat -> 0 <= size p -> zm_get (sent (space_at r i)) (pn p) = None ->
  rec_ok (on_packet_sent r i p).
Proof.
  intros Hr Hi Hp Hf. apply rec_ok_put; [done|done|..].
  - simpl. apply sent_ok_insert; [by apply space_at_ok|done].
  - apply Hr.
  - simpl. unfold sizes. rewrite (zm_insert_sum_fresh size) by done. lia.
Qed.

(** What an ACK takes out of a space. *)
Lemma on_ack_spec r i largest first_range ranges delay now :
  rec_ok r -> (i < SPACES)%nat ->
  let '(newly, r') := on_ack r i largest first_range ranges delay now in
  let bs := acked_numbers largest first_range ranges in
  rec_ok r' /\ NoDup (pn <$> newly)
  /\ (forall p, p ∈ newly <-> exists n, in_blocks bs n /\ zm_get (sent (space_at r i)) n = Some p)
  /\ (forall n, zm_get (sent (space_at r' i)) n
                = if decide (n ∈ (pn <$> newly)) then None else zm_get (sent (space_at r i)) n)
  /\ bytes_in_flight (cc r') = bytes_in_flight (cc r) - sum_sizes newly
  /\ cwnd (cc r) <= cwnd (cc r')
  /\ largest <= default largest (largest_acked (space_at r' i)).
Proof.
  intros Hr Hi. unfold on_ack. rewrite take_block_concat.
  pose proof (take_pns_spec (acked_numbers largest first_range ranges ≫= fun b => seqZ b.1 (b.2 - b.1 + 1))
                (sent (space_at r i)) [] (space_at_ok r i Hr Hi)) as H.
  destruct (foldl take_pn _ _) as [m newly].
  destruct H as (Hok & Hget & got & -> & Hsz & Hsum & Hnd & Hin). rewrite app_nil_l.
  pose proof (space_at_lookup r i Hr Hi) as Hl.
  pose proof (outstanding_part _ _ _ (ro_sent r Hr) Hl) as Hpart. rewrite <- (ro_bytes r Hr) in Hpart.
  pose proof (sizes_nonneg m Hok) as Hm0.
  destruct (cc_on_acked_fold got (cc r) Hsz (ro_cc r Hr) ltac:(lia)) as (Hcc & Hbytes & Hw).
  set (s' := mkSpace m _ _ _). cbn zeta.
  assert (Hsp : forall rt c pc, space_at (mkLoss (put_space r i s') rt c pc (max_ack_delay r)) i = s').
  { intros. unfold space_at, put_space. simpl. apply nth_lookup_Some.
    apply list_lookup_insert_eq. rewrite (ro_len r Hr). done. }
  rewrite Hsp. split_and!; [|done| | |done|done|].
  - apply rec_ok_put; try done. rewrite Hbytes. subst s'. simpl. lia.
  - intros p. rewrite Hin. setoid_rewrite elem_of_blocks. done.
  - intros n. subst s'. simpl. rewrite Hget. case_decide as Hn.
    + apply list_elem_of_fmap in Hn as (p & -> & (k & Hk & Hg)%Hin).
      destruct (sent_ok_get _ _ _ (space_at_ok r i Hr Hi) Hg) as [-> _]. by rewrite bool_decide_eq_true_2.
    + case_bool_decide as Hb; [|done]. destruct (zm_get _ n) as [p|] eqn:Eg; [|done]. exfalso. apply Hn.
      apply list_elem_of_fmap. exists p. split; [|apply Hin; eauto].
      by destruct (sent_ok_get _ _ _ (space_at_ok r i Hr Hi) Eg).
  - subst s'. cbn [largest_acked default from_option id]. unfold id. destruct (largest_acked _); lia.
Qed.

Lemma sizes_filter (f : SentPacket -> bool) m :
  sizes m = sizes (List.filter (fun kp => negb (f kp.2)) m) + sum_sizes (List.filter f (zm_values m)).
Proof.
  induction m as [|[k p] m IH]; [done|].
  change (sizes ((k, p) :: m)) with (size p + sizes m).
  change (zm_values ((k, p) :: m)) with (p :: zm_values m). cbn [List.filter snd].
  destruct (f p); cbn [negb].
  - cbn [sum_sizes foldr]. fold (sum_sizes (List.filter f (zm_values m))). lia.
  - set (m' := List.filter _ m) in *. change (sizes ((k, p) :: m')) with (size p + sizes m'). lia.
Qed.

Lemma zm_keys_filter_sub {V} (f : Z * V -> bool) (m : zmap V) k :
  k ∈ zm_keys (List.filter f m) -> k ∈ zm_keys m.
Proof.
  unfold zm_keys. intros ([k' v] & -> & Hin)%list_elem_of_fmap. apply list_elem_of_fmap.
  exists (k', v). split; [done|]. apply list_elem_of_In, List.filter_In in Hin as [Hin _].
  by apply list_elem_of_In.
Qed.

Lemma sent_ok_filter f m : sent_ok m -> sent_ok (List.filter f m).
Proof.
  intros [Hwf Hf]. split.
  - clear Hf. induction m as [|[k p] m IH]; simpl; [done|]. apply zm_wf_cons in Hwf as [Hwf Hall].
    destruct (f (k, p)); [|auto]. apply zm_wf_cons. split; [auto|]. apply Forall_forall.
    intros k' Hk'%zm_keys_filter_sub. by eapply Forall_forall in Hall.
  - apply Forall_forall. intros x Hx%list_elem_of_In. apply List.filter_In in Hx as [Hx%list_elem_of_In _].
    by eapply Forall_forall in Hf.
Qed.

Lemma sizes_ok_filter f m : sent_ok m -> sizes_ok (List.filter f (zm_values m)).
Proof.
  intros [_ Hf]. apply Forall_forall. intros p Hp%list_elem_of_In.
  apply List.filter_In in Hp as [Hp%list_elem_of_In _].
  apply list_elem_of_fmap in Hp as ([k p'] & -> & Hin). eapply Forall_forall in Hf; [|exact Hin]. apply Hf.
Qed.

Lemma detect_lost_spec r i now largest :
  rec_ok r -> (i < SPACES)%nat -> largest_acked (space_at r i) = Some largest ->
  let '(lost, r') := detect_lost r i now in
  let th := loss_threshold (rtt r) in
  let s := space_at r i in
  rec_ok r'
  /\ lost = List.filter (lost_now largest now th) (zm_values (sent s))
  /\ space_at r' i = mkSpace (List.filter (fun kp => negb (lost_now largest now th kp.2)) (sent s))
       (Some largest)
       (opt_minimum (deadline th <$> List.filter (waiting largest now th) (zm_values (sent s))))
       (last_ack_eliciting s)
  /\ bytes_in_flight (cc r') = bytes_in_flight (cc r) - sum_sizes lost.
Proof.
  intros Hr Hi Hlg. unfold detect_lost. rewrite Hlg. set (th := loss_threshold (rtt r)).
  pose proof (space_at_ok r i Hr Hi) as Hok. pose proof (space_at_lookup r i Hr Hi) as Hl.
  pose proof (detect_loop_spec largest now th (sent (space_at r i)) [] [] None Hok ltac:(constructor)) as E.
  rewrite !app_nil_l in E. rewrite E. clear E. set (m' := List.filter _ (sent _)).
  set (lost := List.filter (lost_now largest now th) (zm_values _)). set (s' := mkSpace m' _ _ _). cbn zeta.
  pose proof (outstanding_part _ _ _ (ro_sent r Hr) Hl) as Hpart. rewrite <- (ro_bytes r Hr) in Hpart.
  pose proof (sizes_filter (lost_now largest now th) (sent (space_at r i))) as Hsum.
  fold m' lost in Hsum. pose proof (sizes_nonneg m' (sent_ok_filter _ _ Hok)) as Hm0.
  pose proof (sent_sizes_nonneg lost (sizes_ok_filter _ _ Hok)) as Hl0.
  set (c' := if (length lost =? 0)%nat then cc r else _).
  assert (Hc : cc_ok c' /\ bytes_in_flight c' = bytes_in_flight (cc r) - sum_sizes lost).
  { subst c'. destruct (length lost =? 0)%nat eqn:E.
    - apply Nat.eqb_eq, nil_length_inv in E. rewrite E. simpl. split; [apply Hr|lia].
    - apply cc_on_loss_spec; [apply Hr|lia]. }
  destruct Hc as [Hc Hb]. split_and!; [|done| |done].
  - apply rec_ok_put; [done|done|by apply sent_ok_filter|done|]. rewrite Hb. subst s'. cbn [sent]. lia.
  - unfold space_at, put_space. simpl. apply nth_lookup_Some.
    apply list_lookup_insert_eq. by rewrite (ro_len r Hr).
Qed.

(** ** Histories *)

(** A packet number is sent once, which the connection's counter ensures. *)
Inductive rec_step : LossRecovery -> LossRecovery -> Prop :=
| step_sent r i p :
    (i < SPACES)%nat -> 0 <= size p -> zm_get (sent (space_at r i)) (pn p) = None ->
    rec_step r (on_packet_sent r i p)
| step_ack r i largest first_range ranges delay now :
    (i < SPACES)%nat -> rec_step r (on_ack r i largest first_range ranges delay now).2
| step_detect r i now : (i < SPACES)%nat -> rec_step r (detect_lost r i now).2
| step_pto r : rec_step r (on_pto_expired r).

Lemma rec_step_ok r r' : rec_ok r -> rec_step r r' -> rec_ok r'.
Proof.
  intros Hr Hs. destruct Hs as [r i p Hi Hp Hf|r i lg fr rs dl now Hi|r i now Hi|r].
  - by apply on_packet_sent_ok.
  - pose proof (on_ack_spec r i lg fr rs dl now Hr Hi) as H. destruct (on_ack _ _ _ _ _ _ _). apply H.
  - destruct (largest_acked (space_at r i)) as [lg|] eqn:E; [|unfold detect_lost; by rewrite E].
    pose proof (detect_lost_spec r i now lg Hr Hi E) as H. destruct (detect_lost _ _ _). apply H.
  - destruct Hr. by split.
Qed.

Lemma loss_default_ok : rec_ok loss_default.
Proof.
  split; [done| |done|].
  - repeat constructor.
  - split; simpl; vm_compute; discriminate.
Qed.

Lemma reachable_ok r : rtc rec_step loss_default r -> rec_ok r.
Proof.
  assert (forall r0, rtc rec_step r0 r -> rec_ok r0 -> rec_ok r) as H; [|eauto using loss_default_ok].
  induction 1; eauto using rec_step_ok.
Qed.

(** Whatever is sent, acknowledged, declared lost and timed out, in any order:
    the bytes in flight are exactly those of the packets still outstanding in the
    three spaces, so no subtraction ever saturates, and the congestion window never
    falls below two datagrams. *)
Theorem recovery_accounts_bytes r :
  rtc rec_step loss_default r ->
  bytes_in_flight (cc r) = outstanding (spaces r)
  /\ MIN_WINDOW <= cwnd (cc r)
  /\ (cc_available (cc r) = 0 <-> cwnd (cc r) <= outstanding (spaces r)).
Proof.
  intros Hr%reachable_ok. destruct Hr as [_ _ Hb [Hw _]]. split_and!; [done|done|].
  unfold cc_available, sat_sub. rewrite Hb. lia.
Qed.

Example recovery_accounts_bytes_witness :
  let r := (detect_lost (on_ack (on_packet_sent (on_packet_sent loss_default 2 (mkSent 0 5 1200 true)) 2
              (mkSent 4 9 1200 true)) 2 4 0 [] 0 50).2 2 60).2 in
  bytes_in_flight (cc r) = outstanding (spaces r) /\ MIN_WINDOW <= cwnd (cc r).
Proof.
  intros r. destruct (recovery_accounts_bytes r) as (H1 & H2 & _).
  - eapply rtc_l; [apply (step_sent _ 2 (mkSent 0 5 1200 true)); [unfold SPACES; lia|simpl; lia|reflexivity]|].
    eapply rtc_l; [apply (step_sent _ 2 (mkSent 4 9 1200 true)); [unfold SPACES; lia|simpl; lia|reflexivity]|].
    eapply rtc_l; [apply (step_ack _ 2 4 0 [] 0 50); unfold SPACES; lia|].
    eapply rtc_l; [apply (step_detect _ 2 60); unfold SPACES; lia|]. apply rtc_refl.
  - exact (conj H1 H2).
Defined.

(** In every reachable state an ACK returns exactly the outstanding packets its
    blocks name, each once, and these and no others leave the space; loss detection
    declares exactly the packets below the largest acknowledged number that are
    three or more behind or past the time threshold, and arms the loss timer with
    the earliest deadline of those still waited for. *)
Theorem ack_and_loss_are_exact r i largest first_range ranges delay now :
  rtc rec_step loss_default r -> (i < SPACES)%nat ->
  (forall p, p ∈ (on_ack r i largest first_range ranges delay now).1 <->
     exists n, in_blocks (acked_numbers largest first_range ranges) n
               /\ zm_get (sent (space_at r i)) n = Some p)
  /\ NoDup (pn <$> (on_ack r i largest first_range ranges delay now).1)
  /\ (forall lg, largest_acked (space_at r i) = Some lg ->
      let th := loss_threshold (rtt r) in
      let ps := zm_values (sent (space_at r i)) in
      (detect_lost r i now).1 = List.filter (lost_now lg now th) ps
      /\ loss_time (space_at (detect_lost r i now).2 i)
         = opt_minimum (deadline th <$> List.filter (waiting lg now th) ps)).
Proof.
  intros Hr%reachable_ok Hi.
  pose proof (on_ack_spec r i largest first_range ranges delay now Hr Hi) as Ha.
  destruct (on_ack _ _ _ _ _ _ _) as [newly r1]. destruct Ha as (_ & Hnd & Hin & _).
  split_and!; [done|done|]. intros lg Hlg. pose proof (detect_lost_spec r i now lg Hr Hi Hlg) as Hd.
  destruct (detect_lost r i now) as [lost r2]. destruct Hd as (_ & -> & Hs & _). cbn [fst snd]. by rewrite Hs.
Qed.

Example ack_and_loss_are_exact_witness :
  let r := on_packet_sent loss_default 2 (mkSent 0 5 1200 true) in
  exists p, p ∈ (on_ack r 2 0 0 [] 0 50).1.
Proof.
  intros r. exists (mkSent 0 5 1200 true).
  destruct (ack_and_loss_are_exact r 2 0 0 [] 0 50) as (H & _).
  - eapply rtc_l; [apply (step_sent _ 2 (mkSent 0 5 1200 true)); [unfold SPACES; lia|simpl; lia|reflexivity]|].
    apply rtc_refl.
  - unfold SPACES; lia.
  - apply H. exists 0. split; [|reflexivity]. exists 0, 0. split; [left|lia].
Defined.

(** The smoothed estimate stays between the extremes of the old one and the sample. *)
Lemma quic_sample_between r x delay mx :
  0 <= delay -> 0 <= mx -> 0 <= x -> sampled r = true ->
  Z.min (smoothed r) (x - Z.min delay mx) <= smoothed (on_sample r x delay mx) <= Z.max (smoothed r) x.
Proof.
  intros Hd Hm Hx Hs. unfold on_sample. rewrite Hs. cbn [negb smoothed].
  destruct (_ <=? x); (split; [apply Z.div_le_lower_bound|apply Z.div_le_upper_bound]; lia).
Qed.

(** A range larger than the number it is subtracted from wraps: the block is then
    empty in this arithmetic (and the subtraction panics where it is checked). *)
Example acked_numbers_wraps : acked_numbers 3 5 [] = [(2 ^ 64 - 2, 3)].
Proof. reflexivity. Qed.
