(* ===== verification/QuicParams.v ===== *)
(** QUIC transport parameters (lib/mb-quic/src/transport_params.rs): the encoder,
    the decoder, and their round trip. *)
From S2P Require Import Prelude Numbers QuicPacket QuicFrame.
Local Open Scope Z_scope.

Definition TP_ORIGINAL_DCID : Z := 0x00.
Definition TP_MAX_IDLE_TIMEOUT : Z := 0x01.
Definition TP_MAX_UDP_PAYLOAD : Z := 0x03.
Definition TP_INITIAL_MAX_DATA : Z := 0x04.
Definition TP_INITIAL_MAX_STREAM_DATA_BIDI_LOCAL : Z := 0x05.
Definition TP_INITIAL_MAX_STREAM_DATA_BIDI_REMOTE : Z := 0x06.
Definition TP_INITIAL_MAX_STREAM_DATA_UNI : Z := 0x07.
Definition TP_INITIAL_MAX_STREAMS_BIDI : Z := 0x08.
Definition TP_INITIAL_MAX_STREAMS_UNI : Z := 0x09.
Definition TP_INITIAL_SCID : Z := 0x0f.
Definition TP_MAX_DATAGRAM_FRAME_SIZE : Z := 0x20.

Record TransportParameters := mkTp {
  original_dcid : option ConnectionId;
  initial_scid : option ConnectionId;
  max_idle_timeout_ms : Z;
  max_udp_payload_size : Z;
  initial_max_data : Z;
  initial_max_stream_data_bidi_local : Z;
  initial_max_stream_data_bidi_remote : Z;
  initial_max_stream_data_uni : Z;
  initial_max_streams_bidi : Z;
  initial_max_streams_uni : Z;
  max_datagram_frame_size : Z;
}.

Definition tp_default : TransportParameters :=
  mkTp None None 30000 1452 (Z.shiftl 1 20) (256 * 1024) (256 * 1024) (256 * 1024) 64 8 1200.

(** What an absent parameter means, the decoder's initial value. *)
Definition tp_absent : TransportParameters := mkTp None None 0 65527 0 0 0 0 0 0 0.

Definition put_int (out : list Z) (id value : Z) : list Z :=
  let out := encode_varint out id in
  let v := encode_varint [] value in
  encode_varint out (Z.of_nat (length v)) ++ v.

Definition put_cid (out : list Z) (id : Z) (cid : ConnectionId) : list Z :=
  let out := encode_varint out id in
  encode_varint out (Z.of_nat (cid_len cid)) ++ cid_bytes cid.

Definition tp_encode (tp : TransportParameters) : list Z :=
  let out := [] in
  let out := match original_dcid tp with Some c => put_cid out TP_ORIGINAL_DCID c | None => out end in
  let out := match initial_scid tp with Some c => put_cid out TP_INITIAL_SCID c | None => out end in
  let out := put_int out TP_MAX_IDLE_TIMEOUT (max_idle_timeout_ms tp) in
  let out := put_int out TP_MAX_UDP_PAYLOAD (max_udp_payload_size tp) in
  let out := put_int out TP_INITIAL_MAX_DATA (initial_max_data tp) in
  let out := put_int out TP_INITIAL_MAX_STREAM_DATA_BIDI_LOCAL (initial_max_stream_data_bidi_local tp) in
  let out := put_int out TP_INITIAL_MAX_STREAM_DATA_BIDI_REMOTE (initial_max_stream_data_bidi_remote tp) in
  let out := put_int out TP_INITIAL_MAX_STREAM_DATA_UNI (initial_max_stream_data_uni tp) in
  let out := put_int out TP_INITIAL_MAX_STREAMS_BIDI (initial_max_streams_bidi tp) in
  let out := put_int out TP_INITIAL_MAX_STREAMS_UNI (initial_max_streams_uni tp) in
  put_int out TP_MAX_DATAGRAM_FRAME_SIZE (max_datagram_frame_size tp).

(** [decode_varint(val)?.0] *)
Definition int_of (val : list Z) : result Z QuicError :=
  let? (v, _) := decode_varint val in Ok v.

(** One parameter of the decoder's match. *)
Definition tp_set (tp : TransportParameters) (id : Z) (val : list Z) :
    result TransportParameters QuicError :=
  let '(mkTp od sc idle udp data bl br un sb su dg) := tp in
  if id =? TP_ORIGINAL_DCID then let? c := cid_new val in Ok (mkTp (Some c) sc idle udp data bl br un sb su dg)
  else if id =? TP_INITIAL_SCID then let? c := cid_new val in Ok (mkTp od (Some c) idle udp data bl br un sb su dg)
  else if id =? TP_MAX_IDLE_TIMEOUT then let? v := int_of val in Ok (mkTp od sc v udp data bl br un sb su dg)
  else if id =? TP_MAX_UDP_PAYLOAD then let? v := int_of val in Ok (mkTp od sc idle v data bl br un sb su dg)
  else if id =? TP_INITIAL_MAX_DATA then let? v := int_of val in Ok (mkTp od sc idle udp v bl br un sb su dg)
  else if id =? TP_INITIAL_MAX_STREAM_DATA_BIDI_LOCAL then
    let? v := int_of val in Ok (mkTp od sc idle udp data v br un sb su dg)
  else if id =? TP_INITIAL_MAX_STREAM_DATA_BIDI_REMOTE then
    let? v := int_of val in Ok (mkTp od sc idle udp data bl v un sb su dg)
  else if id =? TP_INITIAL_MAX_STREAM_DATA_UNI then
    let? v := int_of val in Ok (mkTp od sc idle udp data bl br v sb su dg)
  else if id =? TP_INITIAL_MAX_STREAMS_BIDI then let? v := int_of val in Ok (mkTp od sc idle udp data bl br un v su dg)
  else if id =? TP_INITIAL_MAX_STREAMS_UNI then let? v := int_of val in Ok (mkTp od sc idle udp data bl br un sb v dg)
  else if id =? TP_MAX_DATAGRAM_FRAME_SIZE then let? v := int_of val in Ok (mkTp od sc idle udp data bl br un sb su v)
  else Ok tp.

(** [while off < buf.len()]: a parameter takes at least two bytes, so fuel of the
    buffer's length is enough (see [tp_loop_fuel]). *)
Fixpoint tp_loop (fuel : nat) (buf : list Z) (off : nat) (tp : TransportParameters) :
    result TransportParameters QuicError :=
  if (length buf <=? off)%nat then Ok tp
  else
    match fuel with
    | O => Err ShortBuffer
    | S fuel =>
        let? (id, off) := varint_at buf off in
        let? (len, off) := varint_at buf off in
        if Z.of_nat (length buf) <? Z.of_nat off + len then Err ShortBuffer
        else
          let? tp := tp_set tp id (sub off (off + Z.to_nat len) buf) in
          tp_loop fuel buf (off + Z.to_nat len) tp
    end.

Definition tp_decode (buf : list Z) : result TransportParameters QuicError :=
  tp_loop (length buf) buf 0 tp_absent.

Lemma tp_loop_fuel fuel : forall buf off tp,
  bytes_ok buf -> (length buf - off <= fuel)%nat -> tp_loop (S fuel) buf off tp = tp_loop fuel buf off tp.
Proof.
  induction fuel as [|fuel IH]; intros buf off tp Hb Hf.
  { simpl. by rewrite (proj2 (Nat.leb_le _ _)) by lia. }
  cbn [tp_loop]. destruct (Nat.leb_spec (length buf) off) as [|Hlt]; [done|].
  destruct (varint_at buf off) as [[id o1]|] eqn:E1; [|done]. apply (varint_at_bound _ Hb) in E1.
  destruct (varint_at buf o1) as [[len o2]|] eqn:E2; [|done]. apply (varint_at_bound _ Hb) in E2.
  destruct (_ <? _); [done|]. destruct (tp_set _ _ _); [|done]. apply IH; [done|lia].
Qed.

(** ** Round trip *)

(** The parameters an encoding carries, as (id, value) entries. *)
Definition entry_bytes (e : Z * list Z) : list Z := ev e.1 ++ ev (Z.of_nat (length e.2)) ++ e.2.

Fixpoint tp_sets (tp : TransportParameters) (es : list (Z * list Z)) : result TransportParameters QuicError :=
  match es with
  | [] => Ok tp
  | (id, val) :: es => let? tp := tp_set tp id val in tp_sets tp es
  end.

Definition entry_ok (e : Z * list Z) : Prop := varint_ok e.1 /\ payload_ok e.2.

Lemma encode_varint_ev out v : encode_varint out v = out ++ ev v.
Proof. apply encode_varint_out. Qed.

(** Any sequence of well-formed entries is read one by one, to the end. *)
Lemma tp_loop_entries es : forall fuel buf off tp,
  Forall entry_ok es -> drop off buf = concat (entry_bytes <$> es) -> (off <= length buf)%nat ->
  (length es <= fuel)%nat ->
  tp_loop fuel buf off tp = tp_sets tp es.
Proof.
  induction es as [|[id val] es IH]; intros fuel buf off tp Hok Hd Hoff Hfuel.
  { apply (f_equal length) in Hd. rewrite length_drop in Hd. simpl in Hd.
    destruct fuel; simpl; by rewrite (proj2 (Nat.leb_le _ _)) by lia. }
  destruct fuel as [|fuel]; [simpl in Hfuel; lia|].
  apply Forall_cons in Hok as [[Hid Hval] Hok]. cbn [fst snd] in Hid, Hval.
  cbn [fmap list_fmap concat] in Hd. unfold entry_bytes in Hd at 1. cbn [fst snd] in Hd.
  rewrite <- !app_assoc in Hd. cbn [tp_loop].
  assert (Hlt : (off < length buf)%nat).
  { apply (f_equal length) in Hd. rewrite length_drop, length_app in Hd. pose proof (ev_nonempty id Hid). lia. }
  rewrite (proj2 (Nat.leb_gt _ _)) by lia. do 2 read_varint.
  match goal with H : drop _ buf = val ++ _ |- _ => rename H into Hv end.
  rewrite (proj2 (Z.ltb_ge _ _)).
  2: { apply (f_equal length) in Hv. rewrite length_drop, length_app in Hv. lia. }
  rewrite Nat2Z.id. unfold sub. rewrite Hv.
  match goal with |- context [(?a + ?b - ?a)%nat] => replace (a + b - a)%nat with b by lia end.
  rewrite take_app_length. cbn [tp_sets]. destruct (tp_set tp id val); [|done].
  apply IH; [done| | |simpl in Hfuel; lia].
  - rewrite <- drop_drop, Hv. apply drop_app_length.
  - apply (f_equal length) in Hv. rewrite length_drop, length_app in Hv. lia.
Qed.

Definition cid_entry (id : Z) (c : option ConnectionId) : list (Z * list Z) :=
  match c with Some c => [(id, cid_bytes c)] | None => [] end.

Definition tp_entries (tp : TransportParameters) : list (Z * list Z) :=
  cid_entry TP_ORIGINAL_DCID (original_dcid tp) ++ cid_entry TP_INITIAL_SCID (initial_scid tp)
  ++ (prod_map id ev <$>
      [(TP_MAX_IDLE_TIMEOUT, max_idle_timeout_ms tp); (TP_MAX_UDP_PAYLOAD, max_udp_payload_size tp);
       (TP_INITIAL_MAX_DATA, initial_max_data tp);
       (TP_INITIAL_MAX_STREAM_DATA_BIDI_LOCAL, initial_max_stream_data_bidi_local tp);
       (TP_INITIAL_MAX_STREAM_DATA_BIDI_REMOTE, initial_max_stream_data_bidi_remote tp);
       (TP_INITIAL_MAX_STREAM_DATA_UNI, initial_max_stream_data_uni tp);
       (TP_INITIAL_MAX_STREAMS_BIDI, initial_max_streams_bidi tp);
       (TP_INITIAL_MAX_STREAMS_UNI, initial_max_streams_uni tp);
       (TP_MAX_DATAGRAM_FRAME_SIZE, max_datagram_frame_size tp)]).

Lemma tp_encode_entries tp : tp_encode tp = concat (entry_bytes <$> tp_entries tp).
Proof.
  unfold tp_encode, tp_entries, put_int, put_cid, entry_bytes, cid_entry, cid_len.
  destruct (original_dcid tp), (initial_scid tp); rewrite !encode_varint_ev;
    cbn -[ev]; rewrite <- ?app_assoc, ?app_nil_r; reflexivity.
Qed.

Definition cid_ok (c : option ConnectionId) : Prop :=
  match c with Some c => (cid_len c <= 20)%nat | None => True end.

Definition tp_ok (tp : TransportParameters) : Prop :=
  cid_ok (original_dcid tp) /\ cid_ok (initial_scid tp)
  /\ Forall varint_ok [max_idle_timeout_ms tp; max_udp_payload_size tp; initial_max_data tp;
       initial_max_stream_data_bidi_local tp; initial_max_stream_data_bidi_remote tp;
       initial_max_stream_data_uni tp; initial_max_streams_bidi tp; initial_max_streams_uni tp;
       max_datagram_frame_size tp].

Lemma int_of_ev v : varint_ok v -> int_of (ev v) = Ok v.
Proof.
  intros Hv. unfold int_of. replace (ev v) with (ev v ++ []) by apply app_nil_r.
  unfold ev. by rewrite decode_encode_varint.
Qed.

Lemma cid_new_short l : (length l <= 20)%nat -> cid_new l = Ok (mkCid l).
Proof. intros Hl. unfold cid_new. by rewrite (proj2 (Nat.ltb_ge _ _)). Qed.

Lemma small_payload_ok (l : list Z) : (length l <= 20)%nat -> payload_ok l.
Proof. unfold payload_ok, MAX_FRAME_PAYLOAD. change (Z.shiftl 1 20) with (2 ^ 20). lia. Qed.

Lemma ev_short v : varint_ok v -> (length (ev v) <= 20)%nat.
Proof. intros Hv. unfold ev. rewrite varint_len_encode by done. unfold varint_len. repeat case_match; lia. Qed.

Lemma tp_entries_ok tp : tp_ok tp -> Forall entry_ok (tp_entries tp).
Proof.
  intros (Hd & Hs & Hints). unfold tp_entries.
  assert (Hc : forall id c, varint_ok id -> cid_ok c -> Forall entry_ok (cid_entry id c)).
  { intros id [c|] Hid Hc; repeat constructor; simpl; [apply Hid|apply Hid|].
    by apply small_payload_ok. }
  rewrite !Forall_app. split_and!; [apply Hc; done|apply Hc; done|].
  apply Forall_fmap. rewrite !Forall_cons in Hints. destruct_and!.
  assert (He : forall id v, varint_ok id -> varint_ok v -> entry_ok (id, ev v))
    by (split; [done|by apply small_payload_ok, ev_short]).
  repeat (constructor; [apply He; done|]). constructor.
Qed.

Definition known_ids : list Z :=
  [TP_ORIGINAL_DCID; TP_INITIAL_SCID; TP_MAX_IDLE_TIMEOUT; TP_MAX_UDP_PAYLOAD; TP_INITIAL_MAX_DATA;
   TP_INITIAL_MAX_STREAM_DATA_BIDI_LOCAL; TP_INITIAL_MAX_STREAM_DATA_BIDI_REMOTE;
   TP_INITIAL_MAX_STREAM_DATA_UNI; TP_INITIAL_MAX_STREAMS_BIDI; TP_INITIAL_MAX_STREAMS_UNI;
   TP_MAX_DATAGRAM_FRAME_SIZE].

(** Transport parameters are decoded back from their encoding, for every
    connection id of at most 20 bytes and every value that fits a varint; entries
    with an unknown id, wherever they stand, change nothing. *)
Theorem transport_params_roundtrip tp :
  tp_ok tp ->
  tp_decode (tp_encode tp) = Ok tp
  /\ (forall id val, entry_ok (id, val) ->
        id ∉ known_ids ->
        tp_decode (tp_encode tp ++ entry_bytes (id, val)) = Ok tp
        /\ tp_decode (entry_bytes (id, val) ++ tp_encode tp) = Ok tp).
Proof.
  intros Htp. pose proof (tp_entries_ok tp Htp) as Hok.
  assert (Hdec : forall es, Forall entry_ok es -> tp_decode (concat (entry_bytes <$> es)) = tp_sets tp_absent es).
  { intros es Hes. apply tp_loop_entries; [done|done|lia|]. clear -Hes.
    induction Hes as [|[id val] es [Hid _] _ IH]; [simpl; lia|].
    cbn [fmap list_fmap concat length]. rewrite length_app. unfold entry_bytes at 1. rewrite length_app.
    pose proof (ev_nonempty id Hid). simpl in *. lia. }
  assert (Hset : forall es, tp_sets tp_absent (tp_entries tp ++ es) = tp_sets tp es).
  { destruct Htp as (Hd & Hs & Hints). rewrite !Forall_cons in Hints. destruct_and!.
    intros es. destruct tp as [od sc ? ? ? ? ? ? ? ? ?]. unfold tp_entries, cid_ok in *.
    destruct od as [[od]|], sc as [[sc]|]; cbn -[ev int_of cid_new] in *;
      repeat (cbn -[ev int_of cid_new]; first [rewrite int_of_ev by done|rewrite cid_new_short by done]);
      done. }
  assert (Hunk : forall tp0 id val es,
      id ∉ known_ids ->
      tp_sets tp0 ((id, val) :: es) = tp_sets tp0 es).
  { intros [] id val es Hid. cbn [tp_sets]. unfold tp_set, known_ids in *.
    rewrite !(proj2 (Z.eqb_neq id _)) by set_solver. done. }
  rewrite tp_encode_entries. split.
  - rewrite Hdec by done. specialize (Hset []). rewrite app_nil_r in Hset. by rewrite Hset.
  - intros id val He Hid. split.
    + replace (_ ++ entry_bytes (id, val)) with (concat (entry_bytes <$> (tp_entries tp ++ [(id, val)])))
        by (rewrite fmap_app, concat_app; cbn [fmap list_fmap concat]; by rewrite app_nil_r).
      rewrite Hdec by (apply Forall_app; split; [done|by apply Forall_singleton]).
      by rewrite Hset, Hunk.
    + change (entry_bytes (id, val) ++ _) with (concat (entry_bytes <$> ((id, val) :: tp_entries tp))).
      rewrite Hdec by (by constructor). rewrite Hunk by done.
      specialize (Hset []). rewrite app_nil_r in Hset. by rewrite Hset.
Qed.

Definition tp_sample : TransportParameters :=
  mkTp None (Some (mkCid [7; 8])) 30000 1452 1048576 262144 262144 262144 64 8 1200.

Example transport_params_roundtrip_witness : tp_decode (tp_encode tp_sample) = Ok tp_sample.
Proof.
  refine (proj1 (transport_params_roundtrip tp_sample _)).
  unfold tp_ok, varint_ok, cid_ok, cid_len, VARINT_MAX.
  change (Z.shiftl 1 62) with (2 ^ 62). simpl. split_and!; [done|lia|repeat constructor; lia].
Defined.
