(* ===== verification/QuicCrypto.v ===== *)
(** QUIC packet protection (lib/mb-quic/src/crypto.rs, and [protect] and the
    unprotecting half of [decrypt_and_handle] of conn.rs): nonces, sealing, header
    protection, on the primitives of ring and rustls. *)
From S2P Require Import Prelude Numbers NetAddr QuicPacket QuicFrame.
Local Open Scope Z_scope.

(** What the engine calls of ring and rustls: AEAD, header-protection masks, HKDF,
    directional keys, and the TLS session. [None] is the libraries' error. *)
Class QuicLib := {
  hkdf_extract : list Z -> list Z -> list Z;
  hkdf_expand : list Z -> list Z -> nat -> list Z;
  ring_seal : list Z -> list Z -> list Z -> list Z -> option (list Z);
  ring_open : list Z -> list Z -> list Z -> list Z -> option (list Z);
  ring_mask : list Z -> list Z -> option (list Z);
  DirectionalKeys : Type;
  rustls_encrypt : DirectionalKeys -> Z -> list Z -> list Z -> option (list Z * list Z);
  rustls_decrypt : DirectionalKeys -> Z -> list Z -> list Z -> option (list Z);
  (** [HeaderProtectionKey::encrypt_in_place(sample, &mut first, &mut pn)] *)
  rustls_hp : DirectionalKeys -> list Z -> Z -> list Z -> option (Z * list Z);
  TlsState : Type;
  tls_read_hs : TlsState -> list Z -> option string * TlsState;
  tls_write_hs : TlsState -> list Z * option (bool * DirectionalKeys * DirectionalKeys) * TlsState;
  tls_params : TlsState -> option (list Z);
  tls_handshaking : TlsState -> bool;
  (** how many key changes the session can still produce *)
  tls_rank : TlsState -> nat;
}.

Definition INITIAL_SALT_V1 : list Z :=
  [0x38; 0x76; 0x2c; 0xf7; 0xf5; 0x59; 0x34; 0xb3; 0x4d; 0x17; 0x9a; 0xe6; 0xa4; 0xc8; 0x0c; 0xad;
   0xcc; 0xbb; 0x7f; 0x0a].

Definition AEAD_TAG_LEN : nat := 16.
Definition tag_len : nat := AEAD_TAG_LEN.

Section Crypto.
Context `{QuicLib}.

Definition hkdf_expand_label (prk label : list Z) (out_len : nat) : list Z :=
  let info := to_be_bytes 2 (as_u16 (Z.of_nat out_len)) ++ [as_u8 (6 + Z.of_nat (length label))]
              ++ bytes_of_string "tls13 " ++ label ++ [0] in
  hkdf_expand prk info out_len.

Definition initial_secret (dcid : list Z) (is_client : bool) : list Z :=
  let prk := hkdf_extract INITIAL_SALT_V1 dcid in
  hkdf_expand_label prk (bytes_of_string (if is_client then "client in" else "server in")) 32.

Record PacketKeys := mkKeys { aead : list Z; iv : list Z; hp : list Z }.

Definition from_initial_secret (secret : list Z) : PacketKeys :=
  mkKeys (hkdf_expand_label secret (bytes_of_string "quic key") 16)
    (hkdf_expand_label secret (bytes_of_string "quic iv") 12)
    (hkdf_expand_label secret (bytes_of_string "quic hp") 16).

(** [n[4 + i] ^= pn_be[i]] for i in 0..8, of a 12-byte IV. *)
Definition nonce (k : PacketKeys) (pn : Z) : list Z :=
  take 4 (iv k) ++ zip_with Z.lxor (drop 4 (iv k)) (to_be_bytes 8 pn).

Definition keys_seal (k : PacketKeys) (pn : Z) (header payload : list Z) : result (list Z) QuicError :=
  match ring_seal (aead k) (nonce k pn) header payload with
  | Some c => Ok c
  | None => Err (CryptoFailure "aead seal")
  end.

Definition keys_open (k : PacketKeys) (pn : Z) (header payload : list Z) : result (list Z) QuicError :=
  match ring_open (aead k) (nonce k pn) header payload with
  | Some p => Ok p
  | None => Err (CryptoFailure "aead open")
  end.

Definition keys_header_mask (k : PacketKeys) (sample : list Z) : result (list Z) QuicError :=
  if (length sample <? 16)%nat then Err (CryptoFailure "hp sample too short")
  else match ring_mask (hp k) (take 16 sample) with
       | Some m => Ok m
       | None => Err (CryptoFailure "hp mask")
       end.

Definition rustls_seal (k : DirectionalKeys) (pn : Z) (header payload : list Z) : result (list Z) QuicError :=
  match rustls_encrypt k pn header payload with
  | Some (c, tag) => Ok (c ++ tag)
  | None => Err (CryptoFailure "rustls aead seal")
  end.

Definition rustls_open (k : DirectionalKeys) (pn : Z) (header payload : list Z) : result (list Z) QuicError :=
  match rustls_decrypt k pn header payload with
  | Some p => Ok p
  | None => Err (CryptoFailure "rustls aead open")
  end.

(** The mask as what protecting a zero first byte and a zero packet number yields. *)
Definition rustls_header_mask (k : DirectionalKeys) (sample : list Z) : result (list Z) QuicError :=
  match rustls_hp k sample 0 [0; 0; 0; 0] with
  | Some (first, pn) => Ok (first :: pn)
  | None => Err (CryptoFailure "rustls hp mask")
  end.

Inductive PktCrypto := Native (k : PacketKeys) | Rustls (k : DirectionalKeys).

Definition seal (k : PktCrypto) := match k with Native k => keys_seal k | Rustls k => rustls_seal k end.
Definition open_ (k : PktCrypto) := match k with Native k => keys_open k | Rustls k => rustls_open k end.
Definition header_mask (k : PktCrypto) :=
  match k with Native k => keys_header_mask k | Rustls k => rustls_header_mask k end.

(** ** Header protection *)

(** [pkt[0] ^= mask[0] & (0x0f or 0x1f)] *)
Definition mask_first (mask pkt : list Z) : list Z :=
  alter (fun b => Z.lxor b (Z.land (mask !!! 0%nat) (if Z.land b 0x80 =? 0 then 0x1f else 0x0f))) 0%nat pkt.

(** [pkt[pn_off + i] ^= mask[1 + i]] for i in 0..pn_len *)
Definition mask_pn (mask : list Z) (pn_off pn_len : nat) (pkt : list Z) : list Z :=
  foldl (fun pkt i => alter (fun b => Z.lxor b (mask !!! S i)) (pn_off + i)%nat pkt) pkt (seq 0 pn_len).

Definition pn_length (pn : Z) : nat := Nat.max (packet_number_len pn None) 2.

(** The bytes in front of the packet number. *)
Definition packet_prefix (long : option LongType) (version : Z) (dcid scid : ConnectionId)
    (pn_len body_len : nat) : list Z :=
  match long with
  | None => [Z.lor 0x40 (Z.of_nat pn_len - 1)] ++ cid_bytes dcid
  | Some ty =>
      encode_varint
        (write_long_header [] (mkLongHeader ty version dcid scid []) (Z.of_nat pn_len - 1))
        (Z.of_nat (pn_len + body_len + tag_len))
  end.

(** The bytes [protect] writes for packet [pn]; [None] where it panics: a failed
    [expect], or a sample that ends behind the packet. *)
Definition protect_bytes (tx : PktCrypto) (long : option LongType) (version : Z)
    (dcid scid : ConnectionId) (pn : Z) (body : list Z) : option (list Z) :=
  let pn_len := pn_length pn in
  let out := packet_prefix long version dcid scid pn_len (length body) in
  let pn_off := length out in
  let header := encode_packet_number out pn pn_len in
  match seal tx pn header body with
  | Err _ => None
  | Ok sealed =>
      let out := header ++ sealed in
      let sample_off := (pn_off + 4)%nat in
      if (length out <? sample_off + 16)%nat then None
      else match header_mask tx (sub sample_off (sample_off + 16) out) with
           | Err _ => None
           | Ok mask => Some (mask_pn mask pn_off pn_len (mask_first mask out))
           end
  end.

(** Removing protection: the packet number, and the plaintext. *)
Definition unprotect (rx : PktCrypto) (largest : Z) (buf : list Z) (pn_off pkt_end : nat) :
    result (Z * list Z) QuicError :=
  let pkt := take pkt_end buf in
  let sample_off := (pn_off + 4)%nat in
  if (length pkt <? sample_off + 16)%nat then Err ShortBuffer
  else
    let? mask := header_mask rx (sub sample_off (sample_off + 16) pkt) in
    let pkt := mask_first mask pkt in
    let pn_len := Z.to_nat (Z.land (pkt !!! 0%nat) 0x03 + 1) in
    let pkt := mask_pn mask pn_off pn_len pkt in
    let truncated := foldl (fun t i => Z.lor (as_u64 (Z.shiftl t 8)) (pkt !!! (pn_off + i)%nat)) 0 (seq 0 pn_len) in
    let pn := decode_packet_number largest truncated (Z.of_nat (pn_len * 8)) in
    let? payload := open_ rx pn (take (pn_off + pn_len) pkt) (drop (pn_off + pn_len) pkt) in
    Ok (pn, payload).
End Crypto.

(** * Round trips and key updates *)

Local Open Scope Z_scope.

(** ** Laws of the primitives *)

(** Two ends of a direction: what one seals the other opens, their masks agree, a
    sealed payload is longer by the tag, a mask has five bytes. *)
Record keys_match `{QuicLib} (tx rx : PktCrypto) : Prop := {
  km_open : forall pn hdr body c, seal tx pn hdr body = Ok c -> open_ rx pn hdr c = Ok body;
  km_mask : forall sample, header_mask rx sample = header_mask tx sample;
  km_len : forall pn hdr body c, seal tx pn hdr body = Ok c -> length c = (length body + tag_len)%nat;
  km_mask_len : forall sample m, header_mask tx sample = Ok m -> length m = 5%nat;
}.

(** ** Masks *)

Section Masks.
Context `{QuicLib}.
Implicit Types mask pkt : list Z.

Lemma mask_first_length mask pkt : length (mask_first mask pkt) = length pkt.
Proof. apply length_alter. Qed.

Lemma mask_pn_length mask off n pkt : length (mask_pn mask off n pkt) = length pkt.
Proof.
  unfold mask_pn. revert pkt. induction (seq 0 n) as [|i l IH]; intros pkt; simpl; [done|].
  by rewrite IH, length_alter.
Qed.

Lemma mask_pn_lookup mask off n pkt j :
  mask_pn mask off n pkt !! j
  = if decide (off <= j < off + n)%nat
    then (fun b => Z.lxor b (mask !!! S (j - off))) <$> pkt !! j else pkt !! j.
Proof.
  unfold mask_pn. induction n as [|n IH].
  { simpl. by rewrite decide_False by lia. }
  rewrite seq_S, foldl_app. cbn [foldl]. rewrite Nat.add_0_l. set (q := foldl _ pkt (seq 0 n)) in *.
  destruct (decide (j = (off + n)%nat)) as [->|Hne].
  - rewrite list_lookup_alter_eq, IH. rewrite decide_False, decide_True by lia.
    by replace (off + n - off)%nat with n by lia.
  - rewrite list_lookup_alter_ne by lia. rewrite IH.
    destruct (decide (off <= j < off + n)%nat); [by rewrite decide_True by lia|].
    by rewrite decide_False by lia.
Qed.

Lemma first_bits b m bits :
  Z.land bits 0x80 = 0 -> Z.land (Z.lxor b (Z.land m bits)) 0x80 = Z.land b 0x80.
Proof.
  intros Hb.
  apply Z.bits_inj'. intros n Hn. rewrite !Z.land_spec, Z.lxor_spec, Z.land_spec.
  apply (f_equal (fun z => Z.testbit z n)) in Hb. rewrite Z.land_spec, Z.bits_0 in Hb.
  destruct (Z.testbit b n), (Z.testbit m n), (Z.testbit bits n), (Z.testbit 128 n); done.
Qed.

Lemma mask_first_cons mask b pkt :
  mask_first mask (b :: pkt)
  = Z.lxor b (Z.land (mask !!! 0%nat) (if Z.land b 0x80 =? 0 then 0x1f else 0x0f)) :: pkt.
Proof. done. Qed.

Lemma lxor_twice a b : Z.lxor (Z.lxor a b) b = a.
Proof. by rewrite Z.lxor_assoc, Z.lxor_nilpotent, Z.lxor_0_r. Qed.

(** Masking keeps the header form, so applying it twice undoes it. *)
Lemma mask_first_form mask b pkt :
  exists b', mask_first mask (b :: pkt) = b' :: pkt /\ Z.land b' 0x80 = Z.land b 0x80.
Proof.
  rewrite mask_first_cons. eexists. split; [done|]. apply first_bits. by destruct (_ =? 0).
Qed.

Lemma mask_first_twice mask pkt : mask_first mask (mask_first mask pkt) = pkt.
Proof.
  destruct pkt as [|b pkt]; [done|]. rewrite !mask_first_cons. rewrite first_bits by (by destruct (_ =? 0)).
  f_equal. apply lxor_twice.
Qed.

Lemma mask_pn_twice mask off n pkt : mask_pn mask off n (mask_pn mask off n pkt) = pkt.
Proof.
  apply list_eq. intros j. rewrite !mask_pn_lookup. destruct (decide _); [|done].
  destruct (pkt !! j); simpl; [|done]. by rewrite lxor_twice.
Qed.

(** The two masks touch different bytes, so their order does not matter. *)
Lemma mask_pn_first mask off n pkt :
  (1 <= off)%nat -> mask_first mask (mask_pn mask off n pkt) = mask_pn mask off n (mask_first mask pkt).
Proof.
  intros Ho. apply list_eq. intros j. unfold mask_first. rewrite mask_pn_lookup.
  destruct (decide (j = 0%nat)) as [->|Hj].
  - rewrite !list_lookup_alter_eq, mask_pn_lookup. by rewrite !decide_False by lia.
  - rewrite !list_lookup_alter_ne by done. by rewrite mask_pn_lookup.
Qed.

(** The sample lies behind the masked bytes. *)
Lemma masked_sample mask off n pkt a b :
  (1 <= off)%nat -> (off + n <= a)%nat -> sub a b (mask_pn mask off n (mask_first mask pkt)) = sub a b pkt.
Proof.
  intros Ho Ha. unfold sub. f_equal. apply list_eq. intros j. rewrite !lookup_drop, mask_pn_lookup.
  rewrite decide_False by lia. unfold mask_first. by rewrite list_lookup_alter_ne by lia.
Qed.
End Masks.

(** ** Packet numbers in the header *)

Lemma pn_length_range n : (2 <= pn_length n <= 4)%nat.
Proof. unfold pn_length, packet_number_len. repeat case_match; lia. Qed.

Lemma foldl_lookup {B} (h : B -> Z -> B) (pre l post : list Z) acc :
  foldl (fun t i => h t ((pre ++ l ++ post) !!! (length pre + i)%nat)) acc (seq 0 (length l)) = foldl h acc l.
Proof.
  revert post acc. induction l as [|x l IH] using rev_ind; intros post acc; [done|].
  rewrite length_app, Nat.add_1_r, seq_S, !foldl_app. cbn [foldl]. rewrite <- app_assoc, IH.
  rewrite app_assoc. cbn [app]. rewrite at_mid; [done|]. rewrite length_app. lia.
Qed.

Lemma truncated_of_bytes (pre l post : list Z) :
  bytes_ok l -> (length l <= 4)%nat ->
  foldl (fun t i => Z.lor (as_u64 (Z.shiftl t 8)) ((pre ++ l ++ post) !!! (length pre + i)%nat)) 0
    (seq 0 (length l)) = from_be_bytes l.
Proof.
  intros Hb Hl. rewrite (foldl_lookup (fun t b => Z.lor (as_u64 (Z.shiftl t 8)) b)).
  rewrite varint_fold by (try done; destruct l as [|? [|? [|? [|? [|]]]]]; simpl in *; lia). lia.
Qed.

Lemma short_first_byte k :
  (2 <= k <= 4)%nat ->
  Z.land (Z.lor 0x40 (Z.of_nat k - 1)) 0x80 = 0
  /\ Z.to_nat (Z.land (Z.lor 0x40 (Z.of_nat k - 1)) 0x03 + 1) = k.
Proof. intros Hk. assert (k = 2 \/ k = 3 \/ k = 4)%nat as [-> |[-> | ->]] by lia; done. Qed.

Lemma long_first_byte t k :
  (2 <= k <= 4)%nat -> Z.to_nat (Z.land (first_byte t (Z.of_nat k - 1)) 0x03 + 1) = k.
Proof. intros Hk. assert (k = 2 \/ k = 3 \/ k = 4)%nat as [-> |[-> | ->]] by lia; by destruct t. Qed.

(** The first byte of the prefix carries the length of the packet number. *)
Lemma prefix_first long version dcid scid k n :
  (2 <= k <= 4)%nat ->
  exists b rest, packet_prefix long version dcid scid k n = b :: rest
    /\ Z.to_nat (Z.land b 0x03 + 1) = k
    /\ (Z.land b 0x80 =? 0) = match long with None => true | Some _ => false end.
Proof.
  intros Hk. destruct long as [t|]; unfold packet_prefix.
  - rewrite encode_varint_out. unfold write_long_header. cbn [ty token length].
    exists (first_byte t (Z.of_nat k - 1)).
    destruct (decide (t = Initial)); [rewrite (encode_varint_out (_ ++ _))|]; simpl;
      (eexists; split; [reflexivity|]; split; [by apply long_first_byte|apply first_byte_fields]).
  - exists (Z.lor 0x40 (Z.of_nat k - 1)). eexists. split; [reflexivity|].
    destruct (short_first_byte k Hk) as [-> ?]. done.
Qed.

Section Protect.
Context `{QuicLib} (tx rx : PktCrypto).
Hypothesis Hm : keys_match tx rx.
Variables (long : option LongType) (version : Z) (dcid scid : ConnectionId).

(** The packet number is within the window of the receiver's largest. *)
Definition pn_in_window (largest n : Z) : Prop :=
  0 <= largest < 2 ^ 62 - 1 /\ 0 <= n < 2 ^ 62
  /\ largest + 1 - 2 ^ (8 * Z.of_nat (pn_length n) - 1) < n
       <= largest + 1 + 2 ^ (8 * Z.of_nat (pn_length n) - 1).

Lemma protect_unprotect n body out largest rest :
  protect_bytes tx long version dcid scid n body = Some out -> pn_in_window largest n ->
  let pre := packet_prefix long version dcid scid (pn_length n) (length body) in
  unprotect rx largest (out ++ rest) (length pre) (length out) = Ok (n, body)
  /\ length out = (length pre + pn_length n + length body + tag_len)%nat
  /\ exists b tl b' tl', pre = b :: tl /\ out = b' :: tl' /\ Z.land b' 0x80 = Z.land b 0x80.
Proof.
  intros Hp (Hl & Hn & Hw) pre. unfold protect_bytes in Hp. fold pre in Hp.
  pose proof (pn_length_range n) as Hk. set (k := pn_length n) in *.
  assert (Henc : encode_packet_number pre n k = pre ++ to_be_bytes k n).
  { unfold encode_packet_number. f_equal. pose proof (encode_pn_bytes n k ltac:(lia)) as E. exact E. }
  rewrite Henc in Hp. destruct (seal tx n (pre ++ to_be_bytes k n) body) as [c|] eqn:Es; [|done].
  pose proof (km_len _ _ Hm _ _ _ _ Es) as Hc.
  set (raw := (pre ++ to_be_bytes k n) ++ c) in *.
  destruct (Nat.ltb_spec (length raw) (length pre + 4 + 16)) as [|Hlong]; [done|].
  destruct (header_mask tx _) as [mask|] eqn:Emask; [|done]. injection Hp as <-.
  destruct (prefix_first long version dcid scid k (length body) Hk) as (b & tl & Hpre & Hkb & _).
  fold pre in Hpre.
  assert (Hpl : (1 <= length pre)%nat) by (rewrite Hpre; simpl; lia).
  assert (Hraw : raw = b :: tl ++ to_be_bytes k n ++ c)
    by (subst raw; rewrite Hpre, <- app_assoc; done).
  split_and!.
  - unfold unprotect. rewrite take_app_length.
    rewrite mask_pn_length, mask_first_length, (proj2 (Nat.ltb_ge _ _)) by lia.
    rewrite (masked_sample mask) by lia. rewrite (km_mask _ _ Hm), Emask.
    rewrite mask_pn_first, mask_first_twice by done.
    assert (H0 : mask_pn mask (length pre) k raw !!! 0%nat = b).
    { apply list_lookup_total_correct. rewrite mask_pn_lookup, decide_False by lia. by rewrite Hraw. }
    rewrite H0, Hkb, mask_pn_twice.
    assert (Ht : foldl (fun t i => Z.lor (as_u64 (Z.shiftl t 8)) (raw !!! (length pre + i)%nat)) 0 (seq 0 k)
                 = n mod 2 ^ (8 * Z.of_nat k)).
    { subst raw. rewrite <- app_assoc.
      pose proof (truncated_of_bytes pre (to_be_bytes k n) c (to_be_bytes_ok k n)) as T.
      rewrite to_be_bytes_length in T. rewrite T by lia. rewrite from_to_be_mod.
      by replace (256 ^ Z.of_nat k) with (2 ^ (8 * Z.of_nat k)) by (rewrite Z.pow_mul_r by lia; done). }
    rewrite Ht. replace (Z.of_nat (k * 8)) with (8 * Z.of_nat k) by lia.
    rewrite decode_pn_window by (try done; lia).
    assert (Hlen : length (pre ++ to_be_bytes k n) = (length pre + k)%nat)
      by (rewrite length_app, to_be_bytes_length; done).
    subst raw. rewrite <- Hlen, take_app_length, drop_app_length. by rewrite (km_open _ _ Hm _ _ _ _ Es).
  - rewrite mask_pn_length, mask_first_length. subst raw. rewrite !length_app, to_be_bytes_length. lia.
  - destruct (mask_first_form mask b (tl ++ to_be_bytes k n ++ c)) as (b' & Hb' & Hf). rewrite <- Hraw in Hb'.
    exists b, tl. rewrite Hb'.
    destruct (mask_pn mask (length pre) k (b' :: tl ++ to_be_bytes k n ++ c)) as [|b'' tl''] eqn:E.
    { apply (f_equal length) in E. rewrite mask_pn_length in E. done. }
    exists b', tl''. split_and!; [done| |done]. f_equal.
    pose proof (mask_pn_lookup mask (length pre) k (b' :: tl ++ to_be_bytes k n ++ c) 0) as L.
    rewrite E, decide_False in L by lia. by injection L.
Qed.

(** A packet can be protected only if its number and body have four bytes between
    them: the sample starts there. *)
Lemma protect_needs_four_bytes n body :
  (length body + pn_length n < 4)%nat -> protect_bytes tx long version dcid scid n body = None.
Proof.
  intros Hs. unfold protect_bytes. destruct (seal tx n _ body) as [c|] eqn:E; [|done].
  rewrite (proj2 (Nat.ltb_lt _ _)); [done|]. pose proof (pn_length_range n).
  rewrite length_app, (km_len _ _ Hm _ _ _ _ E). unfold encode_packet_number.
  rewrite length_app, length_drop, to_be_bytes_length. unfold tag_len, AEAD_TAG_LEN. lia.
Qed.
End Protect.

(** ** Nonces *)

Lemma zip_lxor_inj (l a b : list Z) :
  length a = length l -> length b = length l -> zip_with Z.lxor l a = zip_with Z.lxor l b -> a = b.
Proof.
  revert a b. induction l as [|x l IH]; intros [|u a] [|v b]; simpl; intros Ha Hb He; try done.
  injection He as Hx He. f_equal; [|apply IH; [lia|lia|done]].
  rewrite <- (Z.lxor_0_l u), <- (Z.lxor_0_l v), <- (Z.lxor_nilpotent x), !Z.lxor_assoc. by rewrite Hx.
Qed.

(** Under one set of keys with a 12-byte IV no two packet numbers have the same
    nonce; a nonce has the IV's length. *)
Theorem nonces_never_repeat `{QuicLib} (k : PacketKeys) (n m : Z) :
  length (iv k) = 12%nat -> 0 <= n < 2 ^ 64 -> 0 <= m < 2 ^ 64 ->
  length (nonce k n) = 12%nat /\ (nonce k n = nonce k m -> n = m).
Proof.
  intros Hiv Hn Hm. unfold nonce. split.
  - rewrite length_app, length_take, length_zip_with, length_drop, to_be_bytes_length. lia.
  - intros He. apply app_inj_1 in He as [_ He]; [|done].
    apply zip_lxor_inj in He; rewrite ?to_be_bytes_length, ?length_drop, ?Hiv; try done.
    apply (f_equal from_be_bytes) in He. rewrite !from_to_be in He by (simpl; lia). done.
Qed.
