(* ===== verification/QuicConn.v ===== *)
(** The QUIC connection (lib/mb-quic/src/conn.rs): the sans-I/O state machine that
    composes streams, recovery, flow control, datagrams, transport parameters and
    packet protection.  A handler runs in the state monad on [Conn]; [None] is a
    panic, an error value leaves the changes made before it. *)
From S2P Require Import Prelude Numbers StateM QuicPacket QuicFrame.
From S2P Require Import QuicStream QuicRecovery QuicParams QuicCrypto.
Local Open Scope Z_scope.

Definition APP_FRAME_BUDGET : nat := 1100.
Definition MAX_PACKETS_PER_DATAGRAM : nat := 64.
Definition MAX_STREAM_RX_BYTES : Z := Z.shiftl 8 20.
Definition VERSION_V1 : Z := 1.
Definition u64_max : Z := 2 ^ 64 - 1.
Definition sat_mul (a b : Z) : Z := Z.min (a * b) u64_max.

Inductive Level := LInitial | LHandshake | LData.

#[export] Instance level_eq_dec : EqDecision Level.
Proof. solve_decision. Defined.

(** [level as usize] *)
Definition lvl (l : Level) : nat := match l with LInitial => 0 | LHandshake => 1 | LData => 2 end.

(** ** The CRYPTO stream of a level *)

Record CryptoStream := mkCrypto {
  tx : list Z;
  tx_off : Z;
  rx_next : Z;
  rx_buf : zmap (list Z);
}.

Definition crypto_default : CryptoStream := mkCrypto [] 0 0 [].

Definition push_tx (c : CryptoStream) (data : list Z) : CryptoStream :=
  mkCrypto (tx c ++ data) (tx_off c) (rx_next c) (rx_buf c).

Definition take_tx (c : CryptoStream) (max : nat) : option (Z * list Z) * CryptoStream :=
  if (length (tx c) =? 0)%nat then (None, c)
  else
    let n := Nat.min (length (tx c)) max in
    (Some (tx_off c, take n (tx c)),
     mkCrypto (drop n (tx c)) (tx_off c + Z.of_nat n) (rx_next c) (rx_buf c)).

Definition buffered (c : CryptoStream) : Z :=
  foldr (fun kv a => Z.of_nat (length kv.2) + a) 0 (rx_buf c).

Definition crypto_recv (c : CryptoStream) (off : Z) (data : list Z) : CryptoStream :=
  if off + Z.of_nat (length data) <=? rx_next c then c
  else if MAX_STREAM_RX_BYTES <? buffered c + Z.of_nat (length data) then c
  else mkCrypto (tx c) (tx_off c) (rx_next c) (zm_insert (rx_buf c) off data).

(** The same loop as [RecvStream::read]. *)
Definition read_in_order (c : CryptoStream) : list Z * CryptoStream :=
  let '(out, m, next) := read_loop (rx_buf c) (rx_next c) [] in
  (out, mkCrypto (tx c) (tx_off c) next m).

Record Space := mkPnSpace {
  next_pn : Z;
  largest_recv : option Z;
  recv_count : Z;
  ack_pending : bool;
  crypto : CryptoStream;
}.

Definition pn_space_default : Space := mkPnSpace 0 None 0 false crypto_default.

Section Connection.
Context `{QuicLib}.

Record Conn := mkConn {
  c_side : Side;
  c_version : Z;
  c_dcid : ConnectionId;
  c_scid : ConnectionId;
  c_tls : TlsState;
  write_level : Level;
  c_spaces : list Space;
  tx_keys : list (option PktCrypto);
  rx_keys : list (option PktCrypto);
  initial_sent : bool;
  handshake_confirmed : bool;
  send_handshake_done : bool;
  closed : bool;
  peer_params : option (list Z);
  c_streams : StreamMap;
  datagrams : DatagramQueue;
  recovery : LossRecovery;
  send_fc : FlowController;
  recv_fc : FlowController;
  recv_window : Z;
  peer_stream_data : Z;
  sent_frames : gmap (nat * Z) (list QFrame); (** [BTreeMap<(usize, u64), Vec<Frame>>] *)
  retransmit : list QFrame;
  close_pending : option (bool * Z * list Z);
  c_now : Z;
  last_activity : Z;
  idle_timeout_us : Z
}.

Definition on_c_dcid (f : ConnectionId -> ConnectionId) (s : Conn) : Conn :=
  mkConn (c_side s) (c_version s) (f (c_dcid s)) (c_scid s) (c_tls s) (write_level s) (c_spaces
    s) (tx_keys s) (rx_keys s) (initial_sent s) (handshake_confirmed s) (send_handshake_done s)
    (closed s) (peer_params s) (c_streams s) (datagrams s) (recovery s) (send_fc s) (recv_fc s)
    (recv_window s) (peer_stream_data s) (sent_frames s) (retransmit s) (close_pending s)
    (c_now s) (last_activity s) (idle_timeout_us s).

Definition on_c_tls (f : TlsState -> TlsState) (s : Conn) : Conn :=
  mkConn (c_side s) (c_version s) (c_dcid s) (c_scid s) (f (c_tls s)) (write_level s) (c_spaces
    s) (tx_keys s) (rx_keys s) (initial_sent s) (handshake_confirmed s) (send_handshake_done s)
    (closed s) (peer_params s) (c_streams s) (datagrams s) (recovery s) (send_fc s) (recv_fc s)
    (recv_window s) (peer_stream_data s) (sent_frames s) (retransmit s) (close_pending s)
    (c_now s) (last_activity s) (idle_timeout_us s).

Definition on_write_level (f : Level -> Level) (s : Conn) : Conn :=
  mkConn (c_side s) (c_version s) (c_dcid s) (c_scid s) (c_tls s) (f (write_level s)) (c_spaces
    s) (tx_keys s) (rx_keys s) (initial_sent s) (handshake_confirmed s) (send_handshake_done s)
    (closed s) (peer_params s) (c_streams s) (datagrams s) (recovery s) (send_fc s) (recv_fc s)
    (recv_window s) (peer_stream_data s) (sent_frames s) (retransmit s) (close_pending s)
    (c_now s) (last_activity s) (idle_timeout_us s).

Definition on_c_spaces (f : list Space -> list Space) (s : Conn) : Conn :=
  mkConn (c_side s) (c_version s) (c_dcid s) (c_scid s) (c_tls s) (write_level s) (f (c_spaces
    s)) (tx_keys s) (rx_keys s) (initial_sent s) (handshake_confirmed s) (send_handshake_done
    s) (closed s) (peer_params s) (c_streams s) (datagrams s) (recovery s) (send_fc s) (recv_fc
    s) (recv_window s) (peer_stream_data s) (sent_frames s) (retransmit s) (close_pending s)
    (c_now s) (last_activity s) (idle_timeout_us s).

Definition on_tx_keys (f : list (option PktCrypto) -> list (option PktCrypto)) (s : Conn) : Conn :=
  mkConn (c_side s) (c_version s) (c_dcid s) (c_scid s) (c_tls s) (write_level s) (c_spaces s)
    (f (tx_keys s)) (rx_keys s) (initial_sent s) (handshake_confirmed s) (send_handshake_done
    s) (closed s) (peer_params s) (c_streams s) (datagrams s) (recovery s) (send_fc s) (recv_fc
    s) (recv_window s) (peer_stream_data s) (sent_frames s) (retransmit s) (close_pending s)
    (c_now s) (last_activity s) (idle_timeout_us s).

Definition on_rx_keys (f : list (option PktCrypto) -> list (option PktCrypto)) (s : Conn) : Conn :=
  mkConn (c_side s) (c_version s) (c_dcid s) (c_scid s) (c_tls s) (write_level s) (c_spaces s)
    (tx_keys s) (f (rx_keys s)) (initial_sent s) (handshake_confirmed s) (send_handshake_done
    s) (closed s) (peer_params s) (c_streams s) (datagrams s) (recovery s) (send_fc s) (recv_fc
    s) (recv_window s) (peer_stream_data s) (sent_frames s) (retransmit s) (close_pending s)
    (c_now s) (last_activity s) (idle_timeout_us s).

Definition on_initial_sent (f : bool -> bool) (s : Conn) : Conn :=
  mkConn (c_side s) (c_version s) (c_dcid s) (c_scid s) (c_tls s) (write_level s) (c_spaces s)
    (tx_keys s) (rx_keys s) (f (initial_sent s)) (handshake_confirmed s) (send_handshake_done
    s) (closed s) (peer_params s) (c_streams s) (datagrams s) (recovery s) (send_fc s) (recv_fc
    s) (recv_window s) (peer_stream_data s) (sent_frames s) (retransmit s) (close_pending s)
    (c_now s) (last_activity s) (idle_timeout_us s).

Definition on_handshake_confirmed (f : bool -> bool) (s : Conn) : Conn :=
  mkConn (c_side s) (c_version s) (c_dcid s) (c_scid s) (c_tls s) (write_level s) (c_spaces s)
    (tx_keys s) (rx_keys s) (initial_sent s) (f (handshake_confirmed s)) (send_handshake_done
    s) (closed s) (peer_params s) (c_streams s) (datagrams s) (recovery s) (send_fc s) (recv_fc
    s) (recv_window s) (peer_stream_data s) (sent_frames s) (retransmit s) (close_pending s)
    (c_now s) (last_activity s) (idle_timeout_us s).

Definition on_send_handshake_done (f : bool -> bool) (s : Conn) : Conn :=
  mkConn (c_side s) (c_version s) (c_dcid s) (c_scid s) (c_tls s) (write_level s) (c_spaces s)
    (tx_keys s) (rx_keys s) (initial_sent s) (handshake_confirmed s) (f (send_handshake_done
    s)) (closed s) (peer_params s) (c_streams s) (datagrams s) (recovery s) (send_fc s)
    (recv_fc s) (recv_window s) (peer_stream_data s) (sent_frames s) (retransmit s)
    (close_pending s) (c_now s) (last_activity s) (idle_timeout_us s).

Definition on_closed (f : bool -> bool) (s : Conn) : Conn :=
  mkConn (c_side s) (c_version s) (c_dcid s) (c_scid s) (c_tls s) (write_level s) (c_spaces s)
    (tx_keys s) (rx_keys s) (initial_sent s) (handshake_confirmed s) (send_handshake_done s) (f
    (closed s)) (peer_params s) (c_streams s) (datagrams s) (recovery s) (send_fc s) (recv_fc
    s) (recv_window s) (peer_stream_data s) (sent_frames s) (retransmit s) (close_pending s)
    (c_now s) (last_activity s) (idle_timeout_us s).

Definition on_peer_params (f : option (list Z) -> option (list Z)) (s : Conn) : Conn :=
  mkConn (c_side s) (c_version s) (c_dcid s) (c_scid s) (c_tls s) (write_level s) (c_spaces s)
    (tx_keys s) (rx_keys s) (initial_sent s) (handshake_confirmed s) (send_handshake_done s)
    (closed s) (f (peer_params s)) (c_streams s) (datagrams s) (recovery s) (send_fc s)
    (recv_fc s) (recv_window s) (peer_stream_data s) (sent_frames s) (retransmit s)
    (close_pending s) (c_now s) (last_activity s) (idle_timeout_us s).

Definition on_c_streams (f : StreamMap -> StreamMap) (s : Conn) : Conn :=
  mkConn (c_side s) (c_version s) (c_dcid s) (c_scid s) (c_tls s) (write_level s) (c_spaces s)
    (tx_keys s) (rx_keys s) (initial_sent s) (handshake_confirmed s) (send_handshake_done s)
    (closed s) (peer_params s) (f (c_streams s)) (datagrams s) (recovery s) (send_fc s)
    (recv_fc s) (recv_window s) (peer_stream_data s) (sent_frames s) (retransmit s)
    (close_pending s) (c_now s) (last_activity s) (idle_timeout_us s).

Definition on_datagrams (f : DatagramQueue -> DatagramQueue) (s : Conn) : Conn :=
  mkConn (c_side s) (c_version s) (c_dcid s) (c_scid s) (c_tls s) (write_level s) (c_spaces s)
    (tx_keys s) (rx_keys s) (initial_sent s) (handshake_confirmed s) (send_handshake_done s)
    (closed s) (peer_params s) (c_streams s) (f (datagrams s)) (recovery s) (send_fc s)
    (recv_fc s) (recv_window s) (peer_stream_data s) (sent_frames s) (retransmit s)
    (close_pending s) (c_now s) (last_activity s) (idle_timeout_us s).

Definition on_recovery (f : LossRecovery -> LossRecovery) (s : Conn) : Conn :=
  mkConn (c_side s) (c_version s) (c_dcid s) (c_scid s) (c_tls s) (write_level s) (c_spaces s)
    (tx_keys s) (rx_keys s) (initial_sent s) (handshake_confirmed s) (send_handshake_done s)
    (closed s) (peer_params s) (c_streams s) (datagrams s) (f (recovery s)) (send_fc s)
    (recv_fc s) (recv_window s) (peer_stream_data s) (sent_frames s) (retransmit s)
    (close_pending s) (c_now s) (last_activity s) (idle_timeout_us s).

Definition on_send_fc (f : FlowController -> FlowController) (s : Conn) : Conn :=
  mkConn (c_side s) (c_version s) (c_dcid s) (c_scid s) (c_tls s) (write_level s) (c_spaces s)
    (tx_keys s) (rx_keys s) (initial_sent s) (handshake_confirmed s) (send_handshake_done s)
    (closed s) (peer_params s) (c_streams s) (datagrams s) (recovery s) (f (send_fc s))
    (recv_fc s) (recv_window s) (peer_stream_data s) (sent_frames s) (retransmit s)
    (close_pending s) (c_now s) (last_activity s) (idle_timeout_us s).

Definition on_recv_fc (f : FlowController -> FlowController) (s : Conn) : Conn :=
  mkConn (c_side s) (c_version s) (c_dcid s) (c_scid s) (c_tls s) (write_level s) (c_spaces s)
    (tx_keys s) (rx_keys s) (initial_sent s) (handshake_confirmed s) (send_handshake_done s)
    (closed s) (peer_params s) (c_streams s) (datagrams s) (recovery s) (send_fc s) (f (recv_fc
    s)) (recv_window s) (peer_stream_data s) (sent_frames s) (retransmit s) (close_pending s)
    (c_now s) (last_activity s) (idle_timeout_us s).

Definition on_peer_stream_data (f : Z -> Z) (s : Conn) : Conn :=
  mkConn (c_side s) (c_version s) (c_dcid s) (c_scid s) (c_tls s) (write_level s) (c_spaces s)
    (tx_keys s) (rx_keys s) (initial_sent s) (handshake_confirmed s) (send_handshake_done s)
    (closed s) (peer_params s) (c_streams s) (datagrams s) (recovery s) (send_fc s) (recv_fc s)
    (recv_window s) (f (peer_stream_data s)) (sent_frames s) (retransmit s) (close_pending s)
    (c_now s) (last_activity s) (idle_timeout_us s).

Definition on_sent_frames (f : gmap (nat * Z) (list QFrame) -> gmap (nat * Z) (list QFrame)) (s : Conn) : Conn :=
  mkConn (c_side s) (c_version s) (c_dcid s) (c_scid s) (c_tls s) (write_level s) (c_spaces s)
    (tx_keys s) (rx_keys s) (initial_sent s) (handshake_confirmed s) (send_handshake_done s)
    (closed s) (peer_params s) (c_streams s) (datagrams s) (recovery s) (send_fc s) (recv_fc s)
    (recv_window s) (peer_stream_data s) (f (sent_frames s)) (retransmit s) (close_pending s)
    (c_now s) (last_activity s) (idle_timeout_us s).

Definition on_retransmit (f : list QFrame -> list QFrame) (s : Conn) : Conn :=
  mkConn (c_side s) (c_version s) (c_dcid s) (c_scid s) (c_tls s) (write_level s) (c_spaces s)
    (tx_keys s) (rx_keys s) (initial_sent s) (handshake_confirmed s) (send_handshake_done s)
    (closed s) (peer_params s) (c_streams s) (datagrams s) (recovery s) (send_fc s) (recv_fc s)
    (recv_window s) (peer_stream_data s) (sent_frames s) (f (retransmit s)) (close_pending s)
    (c_now s) (last_activity s) (idle_timeout_us s).

Definition on_close_pending (f : option (bool * Z * list Z) -> option (bool * Z * list Z)) (s : Conn) : Conn :=
  mkConn (c_side s) (c_version s) (c_dcid s) (c_scid s) (c_tls s) (write_level s) (c_spaces s)
    (tx_keys s) (rx_keys s) (initial_sent s) (handshake_confirmed s) (send_handshake_done s)
    (closed s) (peer_params s) (c_streams s) (datagrams s) (recovery s) (send_fc s) (recv_fc s)
    (recv_window s) (peer_stream_data s) (sent_frames s) (retransmit s) (f (close_pending s))
    (c_now s) (last_activity s) (idle_timeout_us s).

Definition on_c_now (f : Z -> Z) (s : Conn) : Conn :=
  mkConn (c_side s) (c_version s) (c_dcid s) (c_scid s) (c_tls s) (write_level s) (c_spaces s)
    (tx_keys s) (rx_keys s) (initial_sent s) (handshake_confirmed s) (send_handshake_done s)
    (closed s) (peer_params s) (c_streams s) (datagrams s) (recovery s) (send_fc s) (recv_fc s)
    (recv_window s) (peer_stream_data s) (sent_frames s) (retransmit s) (close_pending s) (f
    (c_now s)) (last_activity s) (idle_timeout_us s).

Definition on_last_activity (f : Z -> Z) (s : Conn) : Conn :=
  mkConn (c_side s) (c_version s) (c_dcid s) (c_scid s) (c_tls s) (write_level s) (c_spaces s)
    (tx_keys s) (rx_keys s) (initial_sent s) (handshake_confirmed s) (send_handshake_done s)
    (closed s) (peer_params s) (c_streams s) (datagrams s) (recovery s) (send_fc s) (recv_fc s)
    (recv_window s) (peer_stream_data s) (sent_frames s) (retransmit s) (close_pending s)
    (c_now s) (f (last_activity s)) (idle_timeout_us s).

Definition on_idle_timeout_us (f : Z -> Z) (s : Conn) : Conn :=
  mkConn (c_side s) (c_version s) (c_dcid s) (c_scid s) (c_tls s) (write_level s) (c_spaces s)
    (tx_keys s) (rx_keys s) (initial_sent s) (handshake_confirmed s) (send_handshake_done s)
    (closed s) (peer_params s) (c_streams s) (datagrams s) (recovery s) (send_fc s) (recv_fc s)
    (recv_window s) (peer_stream_data s) (sent_frames s) (retransmit s) (close_pending s)
    (c_now s) (last_activity s) (f (idle_timeout_us s)).

(** [self.spaces[i]], and the key arrays, indexed by a level. *)
Definition conn_space (c : Conn) (l : Level) : Space := nth (lvl l) (c_spaces c) pn_space_default.
Definition tx_key (c : Conn) (l : Level) : option PktCrypto := nth (lvl l) (tx_keys c) None.
Definition rx_key (c : Conn) (l : Level) : option PktCrypto := nth (lvl l) (rx_keys c) None.
Definition on_space (l : Level) (f : Space -> Space) : Conn -> Conn := on_c_spaces (alter f (lvl l)).
Definition on_crypto (l : Level) (f : CryptoStream -> CryptoStream) : Conn -> Conn :=
  on_space l (fun s => mkPnSpace (next_pn s) (largest_recv s) (recv_count s) (ack_pending s) (f (crypto s))).

Definition CM (A : Type) : Type := M Conn (result A QuicError).

(** ** Construction *)

Definition conn_new (side : Side) (dcid scid : ConnectionId) (tls : TlsState) : Conn :=
  let local := tp_default in
  mkConn side VERSION_V1 dcid scid tls LInitial (replicate 3 pn_space_default)
    [None; None; None] [None; None; None] false false false false None
    (sm_new side 0 0) dq_default loss_default (flow_new 0) (flow_new (initial_max_data local))
    (initial_max_data local) 0 ∅ [] None 0 0 (sat_mul (max_idle_timeout_ms local) 1000).

Definition install_initial_keys (client_dcid : list Z) (c : Conn) : Conn :=
  let cs := initial_secret client_dcid true in
  let ss := initial_secret client_dcid false in
  let '(t, r) := match c_side c with Client => (cs, ss) | Server => (ss, cs) end in
  on_rx_keys (<[0%nat := Some (Native (from_initial_secret r))]>)
    (on_tx_keys (<[0%nat := Some (Native (from_initial_secret t))]>) c).

(** [Conn::client], [Conn::server]: the ids are random, the session comes from rustls. *)
Definition conn_client (dcid scid : ConnectionId) (tls : TlsState) : Conn :=
  install_initial_keys (cid_bytes dcid) (conn_new Client dcid scid tls).
Definition conn_server (scid : ConnectionId) (tls : TlsState) : Conn :=
  conn_new Server (mkCid []) scid tls.

Definition effective_idle (own peer : Z) : Z :=
  if own =? 0 then peer else if peer =? 0 then own else Z.min own peer.

Definition adopt_peer_params (raw : list Z) (c : Conn) : Conn :=
  match tp_decode raw with
  | Err _ => c
  | Ok peer =>
      let peer_idle := sat_mul (max_idle_timeout_ms peer) 1000 in
      on_idle_timeout_us (fun l => effective_idle l peer_idle)
        (on_c_streams (fun m => set_peer_max m false (initial_max_streams_uni peer))
        (on_c_streams (fun m => set_peer_max m true (initial_max_streams_bidi peer))
        (on_peer_stream_data (fun _ => Z.max (initial_max_stream_data_bidi_remote peer)
                                         (initial_max_stream_data_uni peer))
        (on_send_fc (fun f => set_limit f (initial_max_data peer)) c))))
  end.

Definition is_established (c : Conn) : bool :=
  negb (tls_handshaking (c_tls c)) && bool_decide (is_Some (tx_key c LData))
  && bool_decide (is_Some (rx_key c LData)).

(** ** Application interface *)

Definition set_now (t : Z) (c : Conn) : Conn :=
  on_last_activity (fun a => if a =? 0 then t else a) (on_c_now (fun _ => t) c).

Definition poll_timeout (c : Conn) : option Z :=
  if closed c then None
  else
    let idle := if 0 <? idle_timeout_us c then Some (last_activity c + idle_timeout_us c) else None in
    match loss_timer (recovery c), idle with
    | Some a, Some b => Some (Z.min a b)
    | Some a, None => Some a
    | None, b => b
    end.

Definition retransmittable (f : QFrame) : bool :=
  match f with Crypto _ _ | QStream _ _ _ _ => true | _ => false end.

Definition requeue_lost (space : nat) (lost : list SentPacket) (c : Conn) : Conn :=
  foldl (fun c p =>
           match sent_frames c !! (space, pn p) with
           | None => c
           | Some frames =>
               on_retransmit (fun r => r ++ List.filter retransmittable frames)
                 (on_sent_frames (delete (space, pn p)) c)
           end) c lost.

(** [let lost = self.recovery.detect_lost(space, now); self.requeue_lost(..)] *)
Definition detect_and_requeue (now : Z) (c : Conn) (space : nat) : bool * Conn :=
  let '(lost, r) := detect_lost (recovery c) space now in
  (negb (length lost =? 0)%nat, requeue_lost space lost (on_recovery (fun _ => r) c)).

Definition on_timeout (now : Z) (c : Conn) : Conn :=
  let c := on_c_now (fun _ => now) c in
  if (0 <? idle_timeout_us c) && (last_activity c + idle_timeout_us c <=? now)
  then on_closed (fun _ => true) c
  else
    let '(a0, c) := detect_and_requeue now c 0 in
    let '(a1, c) := detect_and_requeue now c 1 in
    let '(a2, c) := detect_and_requeue now c 2 in
    if a0 || a1 || a2 then c
    else match loss_timer (recovery c) with
         | Some deadline => if deadline <=? now then on_recovery on_pto_expired c else c
         | None => c
         end.

Definition open_stream (bidi : bool) (c : Conn) : option Z * Conn :=
  let '(id, m) := sm_open (c_streams c) bidi in (id, on_c_streams (fun _ => m) c).

Definition write_stream (id : Z) (data : list Z) (f : bool) (c : Conn) : Conn :=
  on_c_streams (fun m => sm_update m id (fun s => mkStream (send_write (send s) data f) (recv s))) c.

Definition read_stream (id : Z) (c : Conn) : list Z * Conn :=
  let s := sm_entry (c_streams c) id in
  let '(out, r) := recv_read (recv s) in
  (out, on_c_streams (fun m => sm_update m id (fun s => mkStream (send s) r)) c).

Definition stream_finished (id : Z) (c : Conn) : bool :=
  match sm_get (c_streams c) id with Some s => is_finished (recv s) | None => false end.

Definition readable_streams (c : Conn) : list Z := readable (c_streams c).

Definition send_datagram (data : list Z) (c : Conn) : bool * Conn :=
  let '(ok, q) := queue_outgoing (datagrams c) data in (ok, on_datagrams (fun _ => q) c).

Definition recv_datagram (c : Conn) : option (list Z) * Conn :=
  let '(d, q) := dq_recv (datagrams c) in (d, on_datagrams (fun _ => q) c).

Definition close (application : bool) (code : Z) (reason : list Z) (c : Conn) : Conn :=
  if bool_decide (close_pending c = None) && negb (closed c)
  then on_close_pending (fun _ => Some (application, code, reason)) c else c.

(** ** Receiving *)

(** [while off < datagram.len()]; [None] when the fuel is used up. *)
Fixpoint split_loop (fuel : nat) (datagram : list Z) (off count : nat) :
    option (result (list (list Z)) QuicError) :=
  let buf := drop off datagram in
  match buf, fuel with
  | [], _ => Some (Ok [])
  | _, O => None
  | first :: _, S fuel =>
      if Z.land first 0x40 =? 0 then Some (Ok [])
      else
        match
          (if Z.land first 0x80 =? 0 then Ok (Z.of_nat (length buf))
           else
             let? (hdr, _, hdr_end) := parse_long_header buf in
             match ty hdr with
             | Initial | Handshake | ZeroRtt =>
                 let? (len, n) := decode_varint (drop hdr_end buf) in
                 Ok (Z.of_nat (hdr_end + n) + len)
             | Retry => Ok (Z.of_nat (length buf))
             end)
        with
        | Err e => Some (Err e)
        | Ok plen =>
            if (plen =? 0) || (Z.of_nat (length datagram) <? Z.of_nat off + plen) then Some (Err ShortBuffer)
            else if (MAX_PACKETS_PER_DATAGRAM <=? count)%nat
            then Some (Err (Malformed "too many coalesced packets"))
            else
              match split_loop fuel datagram (off + Z.to_nat plen) (S count) with
              | Some (Ok rest) => Some (Ok (take (Z.to_nat plen) buf :: rest))
              | r => r
              end
        end
  end.

(** A round pushes a packet, and the cap bounds the packets. *)
Definition split_packets (datagram : list Z) : option (result (list (list Z)) QuicError) :=
  split_loop (S MAX_PACKETS_PER_DATAGRAM) datagram 0 0.

Definition handle_ack (l : Level) (largest delay first_range : Z) (ranges : list AckRange) (c : Conn) : Conn :=
  let space := lvl l in
  let '(acked, r) := on_ack (recovery c) space largest first_range ranges delay (c_now c) in
  let c := on_recovery (fun _ => r) c in
  let c := foldl (fun c p => on_sent_frames (delete (space, pn p)) c) c acked in
  (detect_and_requeue (c_now c) c space).2.

Definition handle_frame (l : Level) (f : QFrame) (c : Conn) : result unit QuicError * Conn :=
  match f with
  | Padding _ | Ping => (Ok tt, c)
  | Ack largest delay first_range ranges => (Ok tt, handle_ack l largest delay first_range ranges c)
  | Crypto offset data => (Ok tt, on_crypto l (fun s => crypto_recv s offset data) c)
  | ResetStream id _ _ =>
      (Ok tt, on_c_streams (fun m => sm_update m id (fun s => mkStream (send s) (recv_stop (recv s)))) c)
  | StopSending _ _ => (Ok tt, c)
  | QStream id offset fin data =>
      let '(ok, fc) := consume (recv_fc c) (Z.of_nat (length data)) in
      let c := on_recv_fc (fun _ => fc) c in
      if negb ok then (Err (Transport "connection flow control exceeded"), c)
      else if would_exceed_cap (c_streams c) id then (Err (Transport "stream count cap"), c)
      else (Ok tt, on_c_streams (fun m => sm_update m id (fun s =>
                     mkStream (send s) (recv_ingest (recv s) offset data fin))) c)
  | MaxData max => (Ok tt, on_send_fc (fun f => set_limit f max) c)
  | MaxStreamData _ max => (Ok tt, on_peer_stream_data (fun d => if d <? max then max else d) c)
  | MaxStreams bidi max => (Ok tt, on_c_streams (fun m => set_peer_max m bidi max) c)
  | DataBlocked _ | StreamDataBlocked _ _ | StreamsBlocked _ _ => (Ok tt, c)
  | ConnectionClose _ _ _ => (Ok tt, on_closed (fun _ => true) c)
  | HandshakeDone =>
      (Ok tt, match c_side c with Client => on_handshake_confirmed (fun _ => true) c | Server => c end)
  | QDatagram data => (Ok tt, on_datagrams (fun q => dq_ingest q data) c)
  end.

(** [for frame in frames { self.handle_frame(level, frame)?; }] *)
Fixpoint handle_frames (l : Level) (fs : list QFrame) (c : Conn) : result unit QuicError * Conn :=
  match fs with
  | [] => (Ok tt, c)
  | f :: fs =>
      match handle_frame l f c with
      | (Ok _, c) => handle_frames l fs c
      | (Err e, c) => (Err e, c)
      end
  end.

Definition NO_KEYS : QuicError := CryptoFailure "no rx keys for level".

(** A packet that authenticates is counted and its number remembered. *)
Definition note_received (n : Z) (s : Space) : Space :=
  mkPnSpace (next_pn s)
    (Some (match largest_recv s with Some l => Z.max l n | None => n end))
    (recv_count s + 1) true (crypto s).

Definition decrypt_and_handle (l : Level) (buf : list Z) (pn_off pkt_end : nat) (c : Conn) :
    result unit QuicError * Conn :=
  match rx_key c l with
  | None => (Err NO_KEYS, c)
  | Some rx =>
      match unprotect rx (default 0 (largest_recv (conn_space c l))) buf pn_off pkt_end with
      | Err e => (Err e, c)
      | Ok (n, payload) =>
          let c := on_space l (note_received n) c in
          match decode_all payload with
          | Err e => (Err e, c)
          | Ok frames => handle_frames l frames c
          end
      end
  end.

Definition level_of (t : LongType) : option Level :=
  match t with Initial => Some LInitial | Handshake => Some LHandshake | _ => None end.

Definition recv_long (buf : list Z) (c : Conn) : result unit QuicError * Conn :=
  match parse_long_header buf with
  | Err e => (Err e, c)
  | Ok (hdr, _, hdr_end) =>
      if negb (version hdr =? c_version c) then (Err (UnsupportedVersion (version hdr)), c)
      else
        match level_of (ty hdr) with
        | None => (Err (Transport "unsupported long packet"), c)
        | Some level =>
            let c := if bool_decide (c_side c = Server) && bool_decide (level = LInitial)
                        && bool_decide (rx_key c LInitial = None)
                     then install_initial_keys (cid_bytes (dcid hdr)) (on_c_dcid (fun _ => scid hdr) c)
                     else c in
            match decode_varint (drop hdr_end buf) with
            | Err e => (Err e, c)
            | Ok (len, n) =>
                let len_off := (hdr_end + n)%nat in
                if Z.of_nat (length buf) <? Z.of_nat len_off + len then (Err ShortBuffer, c)
                else decrypt_and_handle level buf len_off (len_off + Z.to_nat len) c
            end
        end
  end.

Definition recv_short (buf : list Z) (c : Conn) : result unit QuicError * Conn :=
  match parse_short_header_dcid buf (cid_len (c_scid c)) with
  | Err e => (Err e, c)
  | Ok (_, pn_off) => decrypt_and_handle LData buf pn_off (length buf) c
  end.

Definition recv_one (buf : list Z) (c : Conn) : result unit QuicError * Conn :=
  match buf with
  | [] => (Err ShortBuffer, c)
  | first :: _ => if negb (Z.land first 0x80 =? 0) then recv_long buf c else recv_short buf c
  end.

(** ** The TLS pump *)

Fixpoint feed_tls (ls : list Level) (c : Conn) : result unit QuicError * Conn :=
  match ls with
  | [] => (Ok tt, c)
  | l :: ls =>
      let '(pending, cs) := read_in_order (crypto (conn_space c l)) in
      let c := on_crypto l (fun _ => cs) c in
      if (length pending =? 0)%nat then feed_tls ls c
      else
        match tls_read_hs (c_tls c) pending with
        | (Some e, t) => (Err (Tls e), on_c_tls (fun _ => t) c)
        | (None, t) => feed_tls ls (on_c_tls (fun _ => t) c)
        end
  end.

(** [loop { .. None => break }]; [None] when the fuel is used up. *)
Fixpoint write_tls (fuel : nat) (c : Conn) : option Conn :=
  match fuel with
  | O => None
  | S fuel =>
      let '(buf, change, t) := tls_write_hs (c_tls c) in
      let c := on_c_tls (fun _ => t) c in
      let c := if (length buf =? 0)%nat then c else on_crypto (write_level c) (fun s => push_tx s buf) c in
      match change with
      | None => Some c
      | Some (one_rtt, l, r) =>
          let level := if one_rtt then LData else LHandshake in
          write_tls fuel
            (on_write_level (fun _ => level)
              (on_rx_keys (<[lvl level := Some (Rustls r)]>)
                (on_tx_keys (<[lvl level := Some (Rustls l)]>) c)))
      end
  end.

Definition pump_tls : CM unit := fun c =>
  match feed_tls [LInitial; LHandshake; LData] c with
  | (Err e, c) => Some (Err e, c)
  | (Ok _, c) =>
      match write_tls (S (tls_rank (c_tls c))) c with
      | None => None
      | Some c =>
          let c := match peer_params c with
                   | Some _ => c
                   | None => match tls_params (c_tls c) with
                             | Some raw => on_peer_params (fun _ => Some raw) (adopt_peer_params raw c)
                             | None => c
                             end
                   end in
          let c := if bool_decide (c_side c = Server) && negb (tls_handshaking (c_tls c))
                      && negb (handshake_confirmed c)
                   then on_send_handshake_done (fun _ => true) (on_handshake_confirmed (fun _ => true) c)
                   else c in
          Some (Ok tt, c)
      end
  end.

(** One pass over the queue: the packets deferred, and whether any was handled. *)
Fixpoint recv_queue (queue deferred : list (list Z)) (progressed : bool) (c : Conn) :
    result (list (list Z) * bool) QuicError * Conn :=
  match queue with
  | [] => (Ok (deferred, progressed), c)
  | pkt :: queue =>
      match recv_one pkt c with
      | (Ok _, c) => recv_queue queue deferred true c
      | (Err e, c) =>
          match e with
          | CryptoFailure s =>
              if String.eqb s "no rx keys for level" then recv_queue queue (deferred ++ [pkt]) progressed c
              else (Err e, c)
          | _ => (Err e, c)
          end
      end
  end.

(** Every round but the last handles a packet, so the queue shrinks. *)
Fixpoint recv_loop (fuel : nat) (queue : list (list Z)) : CM unit := fun c =>
  match fuel with
  | O => None
  | S fuel =>
      match recv_queue queue [] false c with
      | (Err e, c) => Some (Err e, c)
      | (Ok (deferred, progressed), c) =>
          (_ ←? pump_tls;
           if (length deferred =? 0)%nat || negb progressed then mret (Ok tt)
           else recv_loop fuel deferred) c
      end
  end.

Definition conn_recv (datagram : list Z) : CM unit := fun c =>
  match split_packets datagram with
  | None => None
  | Some (Err e) => Some (Err e, c)
  | Some (Ok queue) => recv_loop (S (length queue)) queue c
  end.

(** ** Sending *)

(** [while remaining > 0] on one stream: a round sends a byte or ends the loop, so
    fuel of the remaining budget is enough. *)
Fixpoint drain_stream (fuel : nat) (id : Z) (remaining : nat) (frames : list QFrame) (c : Conn) :
    list QFrame * nat * Conn :=
  match fuel, remaining with
  | O, _ | _, O => (frames, remaining, c)
  | S fuel, _ =>
      let s := sm_entry (c_streams c) id in
      let '(t, s') := send_take (send s) (Nat.min remaining APP_FRAME_BUDGET) in
      let c := on_c_streams (fun m => sm_update m id (fun s => mkStream s' (recv s))) c in
      match t with
      | None => (frames, remaining, c)
      | Some (offset, data, f) =>
          let c := on_send_fc (fun fc => (consume fc (Z.of_nat (length data))).2) c in
          let remaining := (remaining - length data)%nat in
          let frames := frames ++ [QStream id offset f data] in
          if f then (frames, remaining, c) else drain_stream fuel id remaining frames c
      end
  end.

Fixpoint drain_streams (ids : list Z) (remaining : nat) (frames : list QFrame) (c : Conn) :
    list QFrame * Conn :=
  match ids with
  | [] => (frames, c)
  | id :: ids =>
      let '(frames, remaining, c) := drain_stream remaining id remaining frames c in
      drain_streams ids remaining frames c
  end.

Definition collect_stream_frames (frames : list QFrame) (c : Conn) : list QFrame * Conn :=
  let cong := cc_available (cc (recovery c)) in
  let remaining := Z.to_nat (Z.min (available (send_fc c)) cong) in
  drain_streams (sendable (c_streams c)) remaining frames c.

(** [while self.datagrams.has_outgoing()] *)
Fixpoint drain_datagrams (fuel : nat) (frames : list QFrame) (q : DatagramQueue) : list QFrame * DatagramQueue :=
  match fuel with
  | O => (frames, q)
  | S fuel =>
      if negb (has_outgoing q) then (frames, q)
      else match take_outgoing q APP_FRAME_BUDGET with
           | (Some d, q) => drain_datagrams fuel (frames ++ [QDatagram d]) q
           | (None, q) => (frames, q)
           end
  end.

(** [while let Some((offset, data)) = crypto.take_tx(..)] *)
Fixpoint drain_crypto (fuel : nat) (frames : list QFrame) (s : CryptoStream) : list QFrame * CryptoStream :=
  match fuel with
  | O => (frames, s)
  | S fuel =>
      match take_tx s APP_FRAME_BUDGET with
      | (None, s) => (frames, s)
      | (Some (off, data), s) => drain_crypto fuel (frames ++ [Crypto off data]) s
      end
  end.

Definition push_ack (l : Level) (frames : list QFrame) (c : Conn) : list QFrame * Conn :=
  let s := conn_space c l in
  match ack_pending s, largest_recv s with
  | true, Some largest =>
      (frames ++ [Ack largest 0 largest []],
       on_space l (fun s => mkPnSpace (next_pn s) (largest_recv s) (recv_count s) false (crypto s)) c)
  | _, _ => (frames, c)
  end.

(** The 1-RTT part of [build_packet]: a pending close, or the application frames. *)
Definition push_data (frames : list QFrame) (c : Conn) : list QFrame * bool * Conn :=
  match close_pending c with
  | Some (application, code, reason) =>
      (frames ++ [ConnectionClose application code reason], true, on_close_pending (fun _ => None) c)
  | None =>
      let '(ext, fc) := maybe_extend (recv_fc c) (recv_window c) in
      let c := on_recv_fc (fun _ => fc) c in
      let frames := frames ++ match ext with Some max => [MaxData max] | None => [] end in
      let frames := frames ++ retransmit c in
      let c := on_retransmit (fun _ => []) c in
      let '(frames, c) := collect_stream_frames frames c in
      let '(frames, q) := drain_datagrams (S (length (outgoing (datagrams c)))) frames (datagrams c) in
      (frames, false, on_datagrams (fun _ => q) c)
  end.

Definition push_crypto (l : Level) (frames : list QFrame) (c : Conn) : list QFrame * Conn :=
  let cs := crypto (conn_space c l) in
  let '(frames, cs) := drain_crypto (S (length (tx cs))) frames cs in
  let c := on_crypto l (fun _ => cs) c in
  if bool_decide (l = LData) && bool_decide (c_side c = Server) && send_handshake_done c
  then (frames ++ [HandshakeDone], on_send_handshake_done (fun _ => false) c)
  else (frames, c).

Definition is_ack_eliciting (f : QFrame) : bool :=
  match f with Padding _ | Ack _ _ _ _ | ConnectionClose _ _ _ => false | _ => true end.

Definition long_type (l : Level) : option LongType :=
  match l with LInitial => Some Initial | LHandshake => Some Handshake | LData => None end.

(** [protect]: the number is used up, and the packet written; [None] is a panic. *)
Definition protect (l : Level) (k : PktCrypto) (body : list Z) (c : Conn) : option (list Z * Conn) :=
  let n := next_pn (conn_space c l) in
  let c := on_space l (fun s => mkPnSpace (next_pn s + 1) (largest_recv s) (recv_count s)
                                  (ack_pending s) (crypto s)) c in
  match protect_bytes k (long_type l) (c_version c) (c_dcid c) (c_scid c) n body with
  | None => None
  | Some out => Some (out, c)
  end.

(** The frames of the next packet of a level, and whether it closes. *)
Definition gather_frames (l : Level) (c : Conn) : list QFrame * bool * Conn :=
  let '(frames, c) := push_ack l [] c in
  let '(frames, closing, c) := if bool_decide (l = LData) then push_data frames c else (frames, false, c) in
  if closing then (frames, closing, c)
  else let '(frames, c) := push_crypto l frames c in (frames, closing, c).

(** Recording what was sent: recovery, the frames to keep, activity, close. *)
Definition record_sent (l : Level) (n : Z) (size : Z) (frames : list QFrame) (closing : bool) (c : Conn) : Conn :=
  let elic := existsb is_ack_eliciting frames in
  let c := on_recovery (fun r => on_packet_sent r (lvl l) (mkSent n (c_now c) size elic)) c in
  let keep := List.filter retransmittable frames in
  let c := if (length keep =? 0)%nat then c else on_sent_frames (<[(lvl l, n) := keep]>) c in
  let c := if elic then on_last_activity (fun _ => c_now c) c else c in
  if closing then on_closed (fun _ => true) c else c.

Definition build_packet (l : Level) : M Conn (option (list Z)) := fun c =>
  match tx_key c l with
  | None => Some (None, c)
  | Some k =>
      let '(frames, closing, c) := gather_frames l c in
      if (length frames =? 0)%nat then Some (None, c)
      else
        let body := frames ≫= frame_encode in
        let n := next_pn (conn_space c l) in
        match protect l k body c with
        | None => None
        | Some (pkt, c) => Some (Some pkt, record_sent l n (Z.of_nat (length pkt)) frames closing c)
        end
  end.

Definition poll_transmit : M Conn (option (list Z)) := fun c =>
  if closed c then Some (None, c)
  else
    (_ ← (if bool_decide (c_side c = Client) && negb (initial_sent c)
          then _ ← pump_tls; skip else skip);
     p0 ← build_packet LInitial;
     p1 ← build_packet LHandshake;
     p2 ← build_packet LData;
     let datagram := default [] p0 ++ default [] p1 ++ default [] p2 in
     if (length datagram =? 0)%nat then mret None
     else
       first ← gets (fun c => bool_decide (c_side c = Client) && negb (initial_sent c));
       if first : bool then
         _ ← modify (on_initial_sent (fun _ => true));
         mret (Some (datagram ++ replicate (1200 - length datagram) 0))
       else mret (Some datagram)) c.
End Connection.
