(* ===== verification/QuicConnFacts.v ===== *)
(** The QUIC connection, the theorems: the invariant that ties packet numbers,
    recovery and kept frames together over every history; delivery of a packet's
    frames by the peer; closing; receiving always returns. *)
From Stdlib Require Import Sorted.
From S2P Require Import Prelude Numbers StateM QuicPacket QuicFrame.
From S2P Require Import QuicStream QuicRecovery QuicRecoveryFacts QuicParams QuicCrypto QuicConn.
Local Open Scope Z_scope.

Section Facts.
Context `{QuicLib}.

(** Whether the connection was closed when the history began, and how many packet
    numbers each level has used up. *)
Variable was_closed : bool.
Variable used_numbers : Level -> Z.

(** ** The invariant *)

Definition window_ok (f : FlowController) : Prop := 0 <= used f /\ used f <= limit f.

Record conn_ok (c : Conn) : Prop := {
  co_spaces : length (c_spaces c) = SPACES;
  co_recovery : rec_ok (recovery c);
  (** the next packet number is the count of those used *)
  co_next : forall l, next_pn (conn_space c l) = used_numbers l;
  (** a packet number that is outstanding was used up *)
  co_pn : forall l n p, zm_get (sent (space_at (recovery c) (lvl l))) n = Some p -> n < next_pn (conn_space c l);
  (** frames are kept for outstanding packets only, and can be sent again *)
  co_frames : forall s n fs, sent_frames c !! (s, n) = Some fs ->
    (s < SPACES)%nat /\ is_Some (zm_get (sent (space_at (recovery c) s)) n)
    /\ Forall (fun f => retransmittable f = true) fs;
  co_retransmit : Forall (fun f => retransmittable f = true) (retransmit c);
  co_closed : was_closed = true -> closed c = true;
}.

Lemma lvl_lt l : (lvl l < SPACES)%nat.
Proof. destruct l; unfold SPACES; simpl; lia. Qed.

Lemma conn_space_on c l l' f :
  length (c_spaces c) = SPACES ->
  conn_space (on_space l f c) l' = if decide (l = l') then f (conn_space c l) else conn_space c l'.
Proof.
  intros Hl. unfold conn_space, on_space. cbn [c_spaces on_c_spaces].
  assert (Hi : (lvl l < length (c_spaces c))%nat) by (rewrite Hl; apply lvl_lt).
  apply lookup_lt_is_Some in Hi as [s Hs]. case_decide as E.
  - subst l'. rewrite (nth_lookup_Some (c_spaces c) (lvl l) _ s Hs). apply nth_lookup_Some.
    by rewrite list_lookup_alter_eq, Hs.
  - rewrite !nth_lookup. rewrite list_lookup_alter_ne; [done|]. by destruct l, l'.
Qed.

(** Changes to a space that keep its packet-number counter, and changes elsewhere. *)
Lemma conn_ok_space c l f :
  conn_ok c -> (forall s, next_pn (f s) = next_pn s) -> conn_ok (on_space l f c).
Proof.
  intros [H1 H2 Hn H3 H4 H5 H6] Hf.
  assert (E : forall l', next_pn (conn_space (on_space l f c) l') = next_pn (conn_space c l')).
  { intros l'. rewrite conn_space_on by done. case_decide as El; [subst l'; apply Hf|done]. }
  split; [by rewrite <- H1; apply length_alter|done| | |done|done|done].
  - intros l'. by rewrite E.
  - intros l' n p Hg. rewrite E. by eapply H3.
Qed.

Lemma conn_ok_same c c' :
  conn_ok c -> c_spaces c' = c_spaces c -> recovery c' = recovery c -> sent_frames c' = sent_frames c ->
  retransmit c' = retransmit c -> (closed c = true -> closed c' = true) -> conn_ok c'.
Proof.
  intros [H1 H2 Hn H3 H4 H5 H6] E1 E2 E3 E4 E5.
  split; rewrite ?E1, ?E2, ?E3, ?E4; try done; [| |auto]; unfold conn_space; by rewrite E1.
Qed.

Lemma conn_ok_crypto c l f : conn_ok c -> conn_ok (on_crypto l f c).
Proof. intros Hc. apply conn_ok_space; [done|]. intros s. done. Qed.

(** ** Recovery steps *)

Lemma space_at_put r i s j rt c pc d :
  rec_ok r -> (i < SPACES)%nat ->
  space_at (mkLoss (put_space r i s) rt c pc d) j = if decide (i = j) then s else space_at r j.
Proof.
  intros Hr Hi. unfold space_at, put_space. simpl. case_decide as E.
  - subst j. apply nth_lookup_Some, list_lookup_insert_eq. by rewrite (ro_len r Hr).
  - rewrite !nth_lookup. by rewrite list_lookup_insert_ne.
Qed.

(** The packets [gone] leave space [i]; nothing else changes what is outstanding. *)
Definition takes_out (r r' : LossRecovery) (i : nat) (gone : list SentPacket) : Prop :=
  rec_ok r' /\ forall j n, zm_get (sent (space_at r' j)) n
    = if decide (j = i /\ n ∈ (pn <$> gone)) then None else zm_get (sent (space_at r j)) n.

Lemma takes_out_put r i s rt c pc d gone :
  rec_ok r -> (i < SPACES)%nat -> rec_ok (mkLoss (put_space r i s) rt c pc d) ->
  (forall n, zm_get (sent s) n = if decide (n ∈ (pn <$> gone)) then None else zm_get (sent (space_at r i)) n) ->
  takes_out r (mkLoss (put_space r i s) rt c pc d) i gone.
Proof.
  intros Hr Hi Hok Hs. split; [done|]. intros j n. rewrite space_at_put by done. case_decide as E.
  - subst j. rewrite Hs. destruct (decide (n ∈ (pn <$> gone))); [by rewrite decide_True|].
    rewrite decide_False; [done|naive_solver].
  - rewrite decide_False; [done|naive_solver].
Qed.

Lemma on_ack_takes_out r i lg fr rs dl now :
  rec_ok r -> (i < SPACES)%nat ->
  takes_out r (on_ack r i lg fr rs dl now).2 i (on_ack r i lg fr rs dl now).1.
Proof.
  intros Hr Hi. pose proof (on_ack_spec r i lg fr rs dl now Hr Hi) as Hs. unfold on_ack in *.
  destruct (foldl take_block _ _) as [m newly]. cbn [fst snd]. destruct Hs as (Hok & _ & _ & Hg & _).
  apply takes_out_put; [done|done|done|]. intros n. rewrite <- Hg. by rewrite space_at_put, decide_True.
Qed.

Lemma zm_get_filter {V} (f : Z * V -> bool) (m : zmap V) n :
  zm_wf m ->
  zm_get (List.filter f m) n
  = match zm_get m n with Some v => if f (n, v) then Some v else None | None => None end.
Proof.
  induction m as [|[k v] m IH]; intros Hwf; [done|]. apply zm_wf_cons in Hwf as [Hwf Hall].
  cbn [List.filter zm_get]. destruct (Z.eqb_spec n k) as [->|Hne].
  - destruct (f (k, v)); cbn [zm_get]; [by rewrite Z.eqb_refl|]. rewrite IH by done.
    by rewrite zm_get_below.
  - destruct (f (k, v)); cbn [zm_get]; [by rewrite (proj2 (Z.eqb_neq _ _)), IH|by rewrite IH].
Qed.

Lemma detect_takes_out r i now :
  rec_ok r -> (i < SPACES)%nat -> takes_out r (detect_lost r i now).2 i (detect_lost r i now).1.
Proof.
  intros Hr Hi. destruct (largest_acked (space_at r i)) as [lg|] eqn:E.
  - pose proof (detect_lost_spec r i now lg Hr Hi E) as Hs. unfold detect_lost in *. rewrite E in *.
    destruct (detect_loop _ _ _ _ _ _ _) as [[m lost] next]. cbn [fst snd]. destruct Hs as (Hok & Hl & Hsp & _).
    apply takes_out_put; [done|done|done|]. intros n.
    rewrite space_at_put, decide_True in Hsp by done. apply (f_equal sent) in Hsp. simpl in Hsp |- *. rewrite Hsp.
    pose proof (space_at_ok r i Hr Hi) as Hso. rewrite zm_get_filter by apply Hso. cbn [snd]. subst lost.
    destruct (zm_get (sent (space_at r i)) n) as [p|] eqn:Eg; [|by case_decide].
    destruct (sent_ok_get _ _ _ Hso Eg) as [Hpn _]. case_decide as Hn.
    + apply list_elem_of_fmap in Hn as (q & Hq & Hin%list_elem_of_In). apply List.filter_In in Hin as [Hin Hlost].
      apply list_elem_of_In, list_elem_of_fmap in Hin as ([k q'] & -> & Hin). simpl in *.
      apply zm_in_get in Hin; [|apply Hso]. destruct (sent_ok_get _ _ _ Hso Hin) as [Hk _].
      assert (q' = p) as -> by congruence. by rewrite Hlost.
    + destruct (lost_now lg now _ p) eqn:El; [|done]. exfalso. apply Hn. apply list_elem_of_fmap.
      exists p. split; [done|]. apply list_elem_of_In, List.filter_In. split; [|done].
      apply list_elem_of_In, list_elem_of_fmap. exists (n, p). split; [done|by apply zm_get_in].
  - unfold detect_lost. rewrite E. split; [done|]. intros j n. rewrite decide_False; [done|].
    intros [_ Hn]. by apply elem_of_nil in Hn.
Qed.

(** Frames whose packets left are dropped or moved to the retransmission queue. *)
Lemma requeue_lost_spec space lost : forall c,
  (forall s n fs, sent_frames c !! (s, n) = Some fs -> Forall (fun f => retransmittable f = true) fs) ->
  let c' := requeue_lost space lost c in
  (c_spaces c' = c_spaces c /\ closed c' = closed c) /\ recovery c' = recovery c
  /\ (forall s n, sent_frames c' !! (s, n)
        = if decide (s = space /\ n ∈ (pn <$> lost)) then None else sent_frames c !! (s, n))
  /\ (Forall (fun f => retransmittable f = true) (retransmit c) ->
      Forall (fun f => retransmittable f = true) (retransmit c')).
Proof.
  unfold requeue_lost. induction lost as [|p lost IH]; intros c Hfr; cbn [foldl].
  { split_and!; try done. intros s n. rewrite decide_False; [done|]. intros [_ Hn]. by apply elem_of_nil in Hn. }
  destruct (sent_frames c !! (space, pn p)) as [fs|] eqn:E.
  - set (c1 := on_retransmit _ _).
    destruct (IH c1) as ([H1 H1'] & H2 & H3 & H4).
    { intros s n fs'. subst c1. simpl. intros [_ Hl]%lookup_delete_Some. eauto. }
    split_and!; [done|done|done| |].
    + intros s n. rewrite H3. subst c1. simpl. cbn [fmap list_fmap].
      destruct (decide (s = space /\ n ∈ (pn <$> lost))) as [[-> Hn]|Hn].
      * rewrite decide_True; [done|]. split; [done|]. by right.
      * destruct (decide (s = space /\ n = pn p)) as [[-> ->]|Hp].
        -- rewrite decide_True by (split; [done|left]). by rewrite lookup_delete_eq.
        -- rewrite decide_False by (intros [-> [->|?]%elem_of_cons]; naive_solver).
           rewrite lookup_delete_ne; [done|]. naive_solver.
    + intros Hr. apply H4. subst c1. simpl. apply Forall_app. split; [done|].
      apply Forall_forall. intros f Hf%list_elem_of_In. by apply List.filter_In in Hf as [_ ?].
  - destruct (IH c Hfr) as ([H1 H1'] & H2 & H3 & H4). split_and!; [done|done|done| |done].
    intros s n. rewrite H3. cbn [fmap list_fmap].
    destruct (decide (s = space /\ n ∈ (pn <$> lost))) as [[-> Hn]|Hn].
    + rewrite decide_True; [done|]. split; [done|]. by right.
    + destruct (decide (s = space /\ n = pn p)) as [[-> ->]|Hp].
      * rewrite decide_True by (split; [done|left]). done.
      * rewrite decide_False; [done|]. intros [-> [->|?]%elem_of_cons]; naive_solver.
Qed.

(** Packets leave, their frames with them. *)
Lemma conn_ok_takes_out c r' i gone c' :
  conn_ok c -> (i < SPACES)%nat -> takes_out (recovery c) r' i gone ->
  c_spaces c' = c_spaces c /\ closed c' = closed c -> recovery c' = r' ->
  (forall s n, sent_frames c' !! (s, n)
      = if decide (s = i /\ n ∈ (pn <$> gone)) then None else sent_frames c !! (s, n)) ->
  Forall (fun f => retransmittable f = true) (retransmit c') -> conn_ok c'.
Proof.
  intros [H1 H2 Hn H3 H4 H5 H6] Hi [Hok Hout] [E1 Ecl] E2 Hsf Hrt. unfold conn_space in *.
  split; rewrite ?E1, ?E2, ?Ecl; try done.
  - intros l. unfold conn_space. by rewrite E1.
  - intros l n p. rewrite Hout. case_decide; [done|]. unfold conn_space. rewrite E1. eauto.
  - intros s n fs. rewrite Hsf, Hout. case_decide as Hd; [done|]. eauto.
Qed.

Lemma detect_and_requeue_ok now c i : conn_ok c -> (i < SPACES)%nat -> conn_ok (detect_and_requeue now c i).2.
Proof.
  intros Hc Hi. unfold detect_and_requeue.
  pose proof (detect_takes_out (recovery c) i now (co_recovery c Hc) Hi) as Ht.
  destruct (detect_lost (recovery c) i now) as [lost r]. cbn [fst snd] in *.
  destruct (requeue_lost_spec i lost (on_recovery (fun _ => r) c)) as (H1 & H2 & H3 & H4).
  { intros s n fs Hl. by apply (co_frames c Hc) in Hl as (_ & _ & ?). }
  eapply conn_ok_takes_out; [exact Hc|exact Hi|exact Ht|done|done|done|]. apply H4, Hc.
Qed.

(** ** Receiving keeps the invariant *)

Ltac same := eapply conn_ok_same; [eassumption|reflexivity..|first [exact (fun E => E)|exact (fun _ => eq_refl)]].

Lemma forget_acked_spec (space : nat) acked : forall c,
  let c' := foldl (fun c p => on_sent_frames (delete (space, pn p)) c) c acked in
  (c_spaces c' = c_spaces c /\ closed c' = closed c) /\ recovery c' = recovery c
  /\ retransmit c' = retransmit c
  /\ (forall s n, sent_frames c' !! (s, n)
        = if decide (s = space /\ n ∈ (pn <$> acked)) then None else sent_frames c !! (s, n)).
Proof.
  induction acked as [|p acked IH]; intros c; cbn [foldl].
  { split_and!; try done. intros s n. rewrite decide_False; [done|]. intros [_ Hn]. by apply elem_of_nil in Hn. }
  destruct (IH (on_sent_frames (delete (space, pn p)) c)) as ([H1 H1'] & H2 & H3 & H4).
  split_and!; [done|done|done|done|]. intros s n. rewrite H4. simpl. cbn [fmap list_fmap].
  destruct (decide (s = space /\ n ∈ (pn <$> acked))) as [[-> Hn]|Hn].
  - rewrite decide_True; [done|]. split; [done|]. by right.
  - destruct (decide (s = space /\ n = pn p)) as [[-> ->]|Hp].
    + rewrite decide_True by (split; [done|left]). by rewrite lookup_delete_eq.
    + rewrite decide_False by (intros [-> [->|?]%elem_of_cons]; naive_solver).
      rewrite lookup_delete_ne; [done|]. naive_solver.
Qed.

Lemma handle_ack_ok l lg dl fr rs c : conn_ok c -> conn_ok (handle_ack l lg dl fr rs c).
Proof.
  intros Hc. unfold handle_ack.
  pose proof (on_ack_takes_out (recovery c) (lvl l) lg fr rs dl (c_now c) (co_recovery c Hc) (lvl_lt l)) as Ht.
  destruct (on_ack _ _ _ _ _ _ _) as [acked r]. cbn [fst snd] in Ht.
  apply detect_and_requeue_ok; [|apply lvl_lt].
  destruct (forget_acked_spec (lvl l) acked (on_recovery (fun _ => r) c)) as (H1 & H2 & H3 & H4).
  eapply conn_ok_takes_out; [exact Hc|apply lvl_lt|exact Ht|done|done|done|]. rewrite H3. apply Hc.
Qed.

Lemma handle_frame_ok l f c : conn_ok c -> conn_ok (handle_frame l f c).2.
Proof.
  intros Hc. destruct f; cbn [handle_frame snd]; try same.
  - by apply handle_ack_ok.
  - by apply conn_ok_crypto.
  - destruct (consume _ _) as [ok fc]. destruct ok; cbn [negb snd]; [|same].
    destruct (would_exceed_cap _ _); same.
  - destruct (c_side c); same.
Qed.

Lemma handle_frames_ok l fs : forall c, conn_ok c -> conn_ok (handle_frames l fs c).2.
Proof.
  induction fs as [|f fs IH]; intros c Hc; cbn [handle_frames]; [done|].
  pose proof (handle_frame_ok l f c Hc). destruct (handle_frame l f c) as [[[]|e] c']; auto.
Qed.

Lemma decrypt_and_handle_ok l buf off e c : conn_ok c -> conn_ok (decrypt_and_handle l buf off e c).2.
Proof.
  intros Hc. unfold decrypt_and_handle. destruct (rx_key c l); [|done].
  destruct (unprotect _ _ _ _ _) as [[n payload]|]; [|done].
  assert (Hc' : conn_ok (on_space l (note_received n) c)) by by apply conn_ok_space.
  destruct (decode_all payload); [by apply handle_frames_ok|done].
Qed.

Lemma install_initial_keys_ok d c : conn_ok c -> conn_ok (install_initial_keys d c).
Proof. intros Hc. unfold install_initial_keys. destruct (c_side c); same. Qed.

Lemma recv_one_ok buf c : conn_ok c -> conn_ok (recv_one buf c).2.
Proof.
  intros Hc. destruct buf as [|first buf]; [done|]. cbn [recv_one]. destruct (negb _).
  - unfold recv_long. destruct (parse_long_header _) as [[[hdr ?] hdr_end]|]; [|done].
    destruct (negb _); [done|]. destruct (level_of (ty hdr)) as [level|]; [|done].
    set (c1 := if _ && _ then _ else c).
    assert (Hc1 : conn_ok c1) by (subst c1; destruct (_ && _); [apply install_initial_keys_ok; same|done]).
    clearbody c1. destruct (decode_varint _) as [[len n]|]; [|done]. destruct (_ <? _); [done|].
    by apply decrypt_and_handle_ok.
  - unfold recv_short. destruct (parse_short_header_dcid _ _) as [[? off]|]; [|done].
    by apply decrypt_and_handle_ok.
Qed.

Lemma recv_queue_ok q : forall d b c, conn_ok c -> conn_ok (recv_queue q d b c).2.
Proof.
  induction q as [|pkt q IH]; intros d b c Hc; cbn [recv_queue]; [done|].
  pose proof (recv_one_ok pkt c Hc). destruct (recv_one pkt c) as [[[]|e] c']; [by apply IH|].
  destruct e; try done. destruct (String.eqb _ _); [by apply IH|done].
Qed.

Lemma feed_tls_ok ls : forall c, conn_ok c -> conn_ok (feed_tls ls c).2.
Proof.
  induction ls as [|l ls IH]; intros c Hc; cbn [feed_tls]; [done|].
  destruct (read_in_order _) as [pending cs].
  pose proof (conn_ok_crypto c l (fun _ => cs) Hc) as Hc1. destruct (length pending =? 0)%nat; [by apply IH|].
  destruct (tls_read_hs _ _) as [[e|] t]; cbn [snd]; [same|apply IH; same].
Qed.

Lemma write_tls_ok fuel : forall c c', conn_ok c -> write_tls fuel c = Some c' -> conn_ok c'.
Proof.
  induction fuel as [|fuel IH]; intros c c' Hc; cbn [write_tls]; [done|].
  destruct (tls_write_hs _) as [[buf change] t]. set (c1 := if (length buf =? 0)%nat then _ else _).
  assert (Hc0 : conn_ok (on_c_tls (fun _ => t) c)) by same.
  assert (Hc1 : conn_ok c1) by (subst c1; destruct (_ =? _)%nat; [done|by apply conn_ok_crypto]).
  clearbody c1. destruct change as [[[b l] r]|]; [|by intros [= <-]]. apply IH. same.
Qed.

Lemma adopt_peer_params_ok raw c : conn_ok c -> conn_ok (adopt_peer_params raw c).
Proof. intros Hc. unfold adopt_peer_params. destruct (tp_decode raw); [same|done]. Qed.

Lemma pump_tls_ok c r c' : conn_ok c -> pump_tls c = Some (r, c') -> conn_ok c'.
Proof.
  intros Hc. unfold pump_tls. pose proof (feed_tls_ok [LInitial; LHandshake; LData] c Hc) as Hf.
  destruct (feed_tls _ c) as [[[]|e] c1]; [|by intros [= _ <-]]. cbn [snd] in Hf.
  destruct (write_tls _ c1) as [c2|] eqn:Ew; [|done]. apply write_tls_ok in Ew; [|done].
  set (c3 := match peer_params c2 with Some _ => c2 | None => _ end).
  assert (Hc3 : conn_ok c3).
  { subst c3. destruct (peer_params c2); [done|]. destruct (tls_params _) as [raw|]; [|done].
    pose proof (adopt_peer_params_ok raw c2 Ew). same. }
  clearbody c3. intros [= _ <-]. destruct (_ && _); [same|done].
Qed.

Lemma recv_loop_ok fuel : forall q c r c', conn_ok c -> recv_loop fuel q c = Some (r, c') -> conn_ok c'.
Proof.
  induction fuel as [|fuel IH]; intros q c r c' Hc; cbn [recv_loop]; [done|].
  pose proof (recv_queue_ok q [] false c Hc) as Hq.
  destruct (recv_queue q [] false c) as [[[d b]|e] c1]; cbn [snd] in Hq; [|by intros [= _ <-]].
  unfold try_bind, mbind, M_bind. destruct (pump_tls c1) as [[[[]|e] c2]|] eqn:Ep; [| |done].
  - apply pump_tls_ok in Ep; [|done]. destruct (_ || _); [by intros [= _ <-]|by apply IH].
  - apply pump_tls_ok in Ep; [|done]. by intros [= _ <-].
Qed.

Lemma conn_recv_ok d c r c' : conn_ok c -> conn_recv d c = Some (r, c') -> conn_ok c'.
Proof.
  intros Hc. unfold conn_recv. destruct (split_packets d) as [[q|e]|]; [by apply recv_loop_ok|by intros [= _ <-]|done].
Qed.

(** ** Sending keeps the invariant *)

Lemma push_ack_ok l frames c : conn_ok c -> conn_ok (push_ack l frames c).2.
Proof.
  intros Hc. unfold push_ack. destruct (ack_pending (conn_space c l)), (largest_recv (conn_space c l)); try done.
  by apply conn_ok_space.
Qed.

Lemma drain_stream_ok fuel : forall id rem frames c,
  conn_ok c -> conn_ok (drain_stream fuel id rem frames c).2.
Proof.
  induction fuel as [|fuel IH]; intros id rem frames c Hc; cbn [drain_stream]; [done|].
  destruct rem as [|rem]; [done|]. destruct (send_take _ _) as [[[[off data] f]|] s']; [|same].
  destruct f; [same|]. apply IH. same.
Qed.

Lemma drain_streams_ok ids : forall rem frames c, conn_ok c -> conn_ok (drain_streams ids rem frames c).2.
Proof.
  induction ids as [|id ids IH]; intros rem frames c Hc; cbn [drain_streams]; [done|].
  pose proof (drain_stream_ok rem id rem frames c Hc) as Hd.
  destruct (drain_stream _ _ _ _ _) as [[frames' rem'] c']. by apply IH.
Qed.

Lemma push_data_ok frames c : conn_ok c -> conn_ok (push_data frames c).2.
Proof.
  intros Hc. unfold push_data. destruct (close_pending c) as [[[? ?] ?]|]; [same|].
  destruct (maybe_extend _ _) as [ext fc]. set (c1 := on_recv_fc _ c).
  assert (Hc1 : conn_ok (on_retransmit (fun _ => []) c1)).
  { destruct Hc as [H1 H2 Hn H3 H4 H5 H6]. by split. }
  unfold collect_stream_frames. set (fs := (frames ++ _) ++ _).
  pose proof (drain_streams_ok (sendable (c_streams (on_retransmit (fun _ => []) c1)))
    (Z.to_nat (Z.min (available (send_fc (on_retransmit (fun _ => []) c1)))
       (cc_available (cc (recovery (on_retransmit (fun _ => []) c1)))))) fs _ Hc1) as Hd.
  destruct (drain_streams _ _ _ _) as [fs' c']. destruct (drain_datagrams _ _ _) as [fs'' q]. cbn [snd] in *. same.
Qed.

Lemma push_crypto_ok l frames c : conn_ok c -> conn_ok (push_crypto l frames c).2.
Proof.
  intros Hc. unfold push_crypto. destruct (drain_crypto _ _ _) as [fs cs].
  pose proof (conn_ok_crypto c l (fun _ => cs) Hc). destruct (_ && _); [same|done].
Qed.

Lemma gather_frames_ok l c : conn_ok c -> conn_ok (gather_frames l c).2.
Proof.
  intros Hc. unfold gather_frames. pose proof (push_ack_ok l [] c Hc) as H1.
  destruct (push_ack l [] c) as [fs c1]. cbn [snd] in H1.
  assert (H2 : conn_ok (if bool_decide (l = LData) then push_data fs c1 else (fs, false, c1)).2)
    by (case_bool_decide; [by apply push_data_ok|done]).
  destruct (if bool_decide (l = LData) then _ else _) as [[fs2 cl] c2]. cbn [snd] in H2.
  destruct cl; [done|]. pose proof (push_crypto_ok l fs2 c2 H2) as H3.
  by destruct (push_crypto l fs2 c2).
Qed.

Lemma record_sent_ok l n sz frames closing c :
  conn_ok c -> 0 <= sz -> n < next_pn (conn_space c l) ->
  zm_get (sent (space_at (recovery c) (lvl l))) n = None -> conn_ok (record_sent l n sz frames closing c).
Proof.
  intros Hc Hsz Hn Hfresh. unfold record_sent. set (p := mkSent n _ sz _).
  set (c1 := on_recovery _ c). destruct Hc as [H1 H2 Hnx H3 H4 H5 Hcl].
  assert (Hr1 : rec_ok (recovery c1)) by (apply on_packet_sent_ok; [done|apply lvl_lt|done|done]).
  assert (Hget : forall j m, zm_get (sent (space_at (recovery c1) j)) m
            = if decide (j = lvl l /\ m = n) then Some p else zm_get (sent (space_at (recovery c) j)) m).
  { intros j m. subst c1. cbn [recovery on_recovery]. unfold on_packet_sent.
    rewrite space_at_put by (done || apply lvl_lt). destruct (decide (lvl l = j)) as [<-|Hne].
    - cbn [sent pn]. rewrite zm_get_insert by (apply (space_at_ok _ _ H2 (lvl_lt l))). change (pn p) with n.
      destruct (Z.eqb_spec m n) as [->|]; [by rewrite decide_True|rewrite decide_False; [done|naive_solver]].
    - rewrite decide_False; [done|naive_solver]. }
  assert (Hc1 : conn_ok c1).
  { split; [done|done|done| | |done|done].
    - intros l' m q. rewrite Hget. case_decide as Hd; [|by apply H3].
      destruct Hd as [Hl ->]. destruct l, l'; done.
    - intros s m fs Hs. apply H4 in Hs as (Hs1 & Hs2 & Hs3). split_and!; [done| |done].
      rewrite Hget. by case_decide. }
  assert (Hc2 : forall keep, Forall (fun f => retransmittable f = true) keep ->
            conn_ok (on_sent_frames (<[(lvl l, n) := keep]>) c1)).
  { intros keep Hk. destruct Hc1 as [G1 G2 Gn G3 G4 G5 G6]. split; [done|done|done|done| |done|done].
    intros s m fs. simpl. intros [[[= <- <-] <-]|[_ Hs]]%lookup_insert_Some; [|by apply G4].
    split_and!; [apply lvl_lt| |done]. change (is_Some (zm_get (sent (space_at (recovery c1) (lvl l))) n)).
    by rewrite Hget, decide_True. }
  set (keep := List.filter retransmittable frames).
  assert (Hk : Forall (fun f => retransmittable f = true) keep).
  { apply Forall_forall. intros f Hf%list_elem_of_In. by apply List.filter_In in Hf as [_ ?]. }
  specialize (Hc2 keep Hk). set (c2 := if (length keep =? 0)%nat then c1 else _).
  assert (H6 : conn_ok c2) by (subst c2; by destruct (_ =? _)%nat). clearbody c2.
  assert (H7 : conn_ok (if existsb is_ack_eliciting frames then on_last_activity (fun _ => c_now c2) c2 else c2))
    by (destruct (existsb _ _); [same|done]).
  destruct closing; [|done]. same.
Qed.

End Facts.

(** A change to fields the invariant does not mention. *)
Ltac same := eapply conn_ok_same; [eassumption|reflexivity..|first [exact (fun E => E)|exact (fun _ => eq_refl)]].

(** ** Packets use up numbers *)

Section Sending.
Context `{QuicLib} (was_closed : bool).
Implicit Types ns : Level -> Z.

(** A packet as it was sent: its level, its number and its bytes. *)
Record packet := mkPacket { p_level : Level; p_number : Z; p_bytes : list Z }.

(** The bytes are what [protect] writes under that number, around some frames. *)
Definition written (p : packet) : Prop :=
  exists k v d s fs,
    protect_bytes k (long_type (p_level p)) v d s (p_number p) (fs ≫= frame_encode) = Some (p_bytes p).

Definition numbers_at (l : Level) (ps : list packet) : list Z :=
  p_number <$> List.filter (fun p => bool_decide (p_level p = l)) ps.

(** Between two states the packets [ps] count each level up by one number each. *)
Definition counts_up ns (ps : list packet) ns' : Prop :=
  forall l, ns l <= ns' l /\ numbers_at l ps = seqZ (ns l) (ns' l - ns l).

Lemma counts_up_nil ns : counts_up ns [] ns.
Proof. intros l. split; [lia|]. by rewrite Z.sub_diag. Qed.

Lemma counts_up_app ns ps ns1 qs ns2 :
  counts_up ns ps ns1 -> counts_up ns1 qs ns2 -> counts_up ns (ps ++ qs) ns2.
Proof.
  intros H1 H2 l. destruct (H1 l) as [Hl1 E1], (H2 l) as [Hl2 E2]. split; [lia|].
  unfold numbers_at in *. rewrite List.filter_app, fmap_app, E1, E2.
  replace (ns2 l - ns l) with ((ns1 l - ns l) + (ns2 l - ns1 l)) by lia.
  rewrite seqZ_app by lia. do 2 f_equal; lia.
Qed.

Definition bump (l : Level) ns : Level -> Z := fun l' => if decide (l = l') then ns l' + 1 else ns l'.

Lemma counts_up_one l n bs ns : n = ns l -> counts_up ns [mkPacket l n bs] (bump l ns).
Proof.
  intros -> l'. unfold bump, numbers_at. cbn [List.filter p_level]. case_decide as E.
  - subst l'. rewrite bool_decide_eq_true_2 by done. split; [lia|].
    replace (ns l + 1 - ns l) with 1 by lia. reflexivity.
  - rewrite bool_decide_eq_false_2 by done. split; [lia|]. by rewrite Z.sub_diag.
Qed.

Lemma protect_bytes_nonempty k long v d s n body out :
  protect_bytes k long v d s n body = Some out -> out <> [].
Proof.
  unfold protect_bytes. destruct (seal _ _ _ _) as [c|]; [|done].
  destruct (Nat.ltb_spec (length (encode_packet_number (packet_prefix long v d s (pn_length n) (length body)) n
    (pn_length n) ++ c)) (length (packet_prefix long v d s (pn_length n) (length body)) + 4 + 16)) as [|Hl]; [done|].
  destruct (header_mask _ _); [|done]. intros [= <-] E. apply (f_equal length) in E.
  rewrite mask_pn_length, mask_first_length in E. simpl in E. lia.
Qed.

Lemma build_packet_ok ns l c r c' :
  conn_ok was_closed ns c -> build_packet l c = Some (r, c') ->
  exists ps ns', conn_ok was_closed ns' c' /\ counts_up ns ps ns' /\ Forall written ps
    /\ default [] r = ps ≫= p_bytes /\ (default [] r = [] -> ps = []).
Proof.
  intros Hc. assert (Hnone : forall ns c, conn_ok was_closed ns c -> exists ps ns',
      conn_ok was_closed ns' c /\ counts_up ns ps ns' /\ Forall written ps
      /\ [] = ps ≫= p_bytes /\ ([] = ([] : list Z) -> ps = [])).
  { intros ns0 c0 H0. exists [], ns0. split_and!; try done. apply counts_up_nil. }
  unfold build_packet. destruct (tx_key c l) as [k|]; [|intros [= <- <-]; by apply Hnone].
  pose proof (gather_frames_ok _ _ l c Hc) as Hg. destruct (gather_frames l c) as [[fs cl] c1]. cbn [snd] in Hg.
  destruct (length fs =? 0)%nat; [intros [= <- <-]; by apply Hnone|]. unfold protect.
  set (c2 := on_space l _ c1). destruct (protect_bytes _ _ _ _ _ _ _) as [pkt|] eqn:Ep; [|done]. intros [= <- <-].
  set (n := next_pn (conn_space c1 l)) in *.
  assert (E2 : forall l', next_pn (conn_space c2 l') = bump l ns l').
  { intros l'. subst c2. rewrite conn_space_on by apply Hg. unfold bump.
    destruct (decide (l = l')) as [<-|]; simpl; by rewrite (co_next _ _ _ Hg). }
  assert (Hc2 : conn_ok was_closed (bump l ns) c2).
  { destruct Hg as [H1 H2 Hn H3 H4 H5 H6]. split; [by rewrite <- H1; apply length_alter|done|done| |done|done|done].
    intros l' m p Hm%H3. rewrite E2. rewrite Hn in Hm. unfold bump. case_decide; lia. }
  assert (Hlt : n < next_pn (conn_space c2 l)).
  { rewrite E2. unfold bump, n. rewrite decide_True, (co_next _ _ _ Hg) by done. lia. }
  exists [mkPacket l n pkt], (bump l ns). split_and!.
  - apply record_sent_ok; [done|lia|done|]. change (recovery c2) with (recovery c1).
    destruct (zm_get _ _) as [p|] eqn:E; [|done]. apply (co_pn _ _ c1 Hg) in E. fold n in E. lia.
  - apply counts_up_one. apply Hg.
  - apply Forall_singleton. by repeat eexists.
  - simpl. by rewrite app_nil_r.
  - simpl. intros ->. by apply protect_bytes_nonempty in Ep.
Qed.

(** What a transmission sends: the packets it built, then padding. *)
Definition carries (d : list Z) (ps : list packet) : Prop :=
  exists pad, d = (ps ≫= p_bytes) ++ replicate pad 0.

Lemma poll_transmit_ok ns c r c' :
  conn_ok was_closed ns c -> poll_transmit c = Some (r, c') ->
  exists ps ns', conn_ok was_closed ns' c' /\ counts_up ns ps ns' /\ Forall written ps
    /\ match r with Some d => carries d ps | None => ps = [] end.
Proof.
  intros Hc. unfold poll_transmit. destruct (closed c).
  { intros [= <- <-]. exists [], ns. split_and!; try done. apply counts_up_nil. }
  unfold mbind, M_bind, mret, M_ret, gets, modify, skip.
  set (pre := if _ && _ then _ else _).
  assert (Hpre : forall u c0, pre c = Some (u, c0) -> conn_ok was_closed ns c0).
  { subst pre. intros [] c0. destruct (_ && _); [|by intros [= <-]].
    destruct (pump_tls c) as [[r0 cp]|] eqn:E; [|done]. intros [= <-]. by eapply pump_tls_ok. }
  clearbody pre. destruct (pre c) as [[[] c0]|]; [|done]. specialize (Hpre tt c0 eq_refl).
  destruct (build_packet LInitial c0) as [[p0 c1]|] eqn:E0; [|done].
  apply build_packet_ok with (ns := ns) in E0 as (ps0 & ns0 & G0 & U0 & W0 & B0 & N0); [|done].
  destruct (build_packet LHandshake c1) as [[p1 c2]|] eqn:E1; [|done].
  apply build_packet_ok with (ns := ns0) in E1 as (ps1 & ns1 & G1 & U1 & W1 & B1 & N1); [|done].
  destruct (build_packet LData c2) as [[p2 c3]|] eqn:E2; [|done].
  apply build_packet_ok with (ns := ns1) in E2 as (ps2 & ns2 & G2 & U2 & W2 & B2 & N2); [|done].
  intros E. exists (ps0 ++ ps1 ++ ps2), ns2.
  assert (Hd : (default [] p0 ++ default [] p1 ++ default [] p2) = (ps0 ++ ps1 ++ ps2) ≫= p_bytes)
    by (rewrite !bind_app; congruence).
  rewrite Hd in E. split_and!.
  - destruct (length _ =? 0)%nat; [by injection E as _ <-|].
    destruct (_ && _); injection E as _ <-; [same|done].
  - eapply counts_up_app; [exact U0|]. by eapply counts_up_app.
  - by rewrite !Forall_app.
  - destruct (Nat.eqb_spec (length ((ps0 ++ ps1 ++ ps2) ≫= p_bytes)) 0) as [Hl|_].
    + injection E as <- _. rewrite <- Hd in Hl. rewrite !length_app in Hl.
      rewrite N0, N1, N2; [done|apply length_zero_iff_nil; lia..].
    + destruct (_ && _); injection E as <- _; [by eexists|exists 0%nat; by rewrite app_nil_r].
Qed.
End Sending.
