(* ===== verification/QuicConnTheorems.v ===== *)
(** The QUIC connection as a whole: histories of calls, the claims about them, and
    two connections that talk to each other. *)
From S2P Require Import Prelude Numbers StateM QuicPacket QuicFrame.
From S2P Require Import QuicStream QuicRecovery QuicRecoveryFacts QuicParams QuicCrypto.
From S2P Require Import QuicConn QuicConnFacts.
Local Open Scope Z_scope.

(** ** Histories *)

Inductive call :=
| SetNow (t : Z) | OnTimeout (t : Z) | OpenStream (bidi : bool)
| WriteStream (id : Z) (data : list Z) (fin : bool) | ReadStream (id : Z)
| SendDatagram (data : list Z) | RecvDatagram
| Close (application : bool) (code : Z) (reason : list Z)
| RecvBytes (datagram : list Z) | PollTransmit.

Section Histories.
Context `{QuicLib}.

(** [None] is a panic. *)
Definition conn_step (c : Conn) (k : call) : option Conn :=
  match k with
  | SetNow t => Some (set_now t c)
  | OnTimeout t => Some (on_timeout t c)
  | OpenStream bidi => Some (open_stream bidi c).2
  | WriteStream id d f => Some (write_stream id d f c)
  | ReadStream id => Some (read_stream id c).2
  | SendDatagram d => Some (send_datagram d c).2
  | RecvDatagram => Some (recv_datagram c).2
  | Close a code r => Some (close a code r c)
  | RecvBytes d => snd <$> conn_recv d c
  | PollTransmit => snd <$> poll_transmit c
  end.

Fixpoint conn_run (c : Conn) (ks : list call) : option Conn :=
  match ks with
  | [] => Some c
  | k :: ks => match conn_step c k with Some c => conn_run c ks | None => None end
  end.

Definition conn_start (side : Side) (dcid scid : ConnectionId) (tls : TlsState) : Conn :=
  match side with Client => conn_client dcid scid tls | Server => conn_server scid tls end.

(** The datagrams a history transmits, in order. *)
Definition step_sends (c : Conn) (k : call) : list (list Z) :=
  match k with
  | PollTransmit => match poll_transmit c with Some (Some d, _) => [d] | _ => [] end
  | _ => []
  end.

Fixpoint conn_sends (c : Conn) (ks : list call) : list (list Z) :=
  match ks with
  | [] => []
  | k :: ks => step_sends c k ++ match conn_step c k with Some c => conn_sends c ks | None => [] end
  end.

Definition no_numbers : Level -> Z := fun _ => 0.

Lemma conn_start_ok side dcid scid tls : conn_ok false no_numbers (conn_start side dcid scid tls).
Proof.
  assert (Hn : forall s d, conn_ok false no_numbers (conn_new s d scid tls)).
  { intros s d. split; [done|apply loss_default_ok| | | |constructor|done].
    - by intros [].
    - intros l n p. by destruct l.
    - intros i n fs. cbn. by rewrite lookup_empty. }
  destruct side; [apply install_initial_keys_ok|]; apply Hn.
Qed.

Lemma on_timeout_ok b ns t c : conn_ok b ns c -> conn_ok b ns (on_timeout t c).
Proof.
  intros Hc. unfold on_timeout. set (c1 := on_c_now _ c). assert (Hc1 : conn_ok b ns c1) by (subst c1; same).
  destruct (_ && _); [same|].
  pose proof (detect_and_requeue_ok b ns t c1 0 Hc1 ltac:(unfold SPACES; lia)) as H0.
  destruct (detect_and_requeue t c1 0) as [a0 c2]. cbn [snd] in H0.
  pose proof (detect_and_requeue_ok b ns t c2 1 H0 ltac:(unfold SPACES; lia)) as H1.
  destruct (detect_and_requeue t c2 1) as [a1 c3]. cbn [snd] in H1.
  pose proof (detect_and_requeue_ok b ns t c3 2 H1 ltac:(unfold SPACES; lia)) as H2.
  destruct (detect_and_requeue t c3 2) as [a2 c4]. cbn [snd] in H2.
  destruct (_ || _); [done|]. destruct (loss_timer _); [|done]. destruct (_ <=? t); [|done].
  destruct H2 as [G1 G2 Gn G3 G4 G5 G6]. split; try done. destruct G2. by split.
Qed.

(** A call keeps the invariant, and what it transmits counts the numbers up. *)
Lemma conn_step_ok b ns c k c' :
  conn_ok b ns c -> conn_step c k = Some c' ->
  exists log ns', conn_ok b ns' c' /\ counts_up ns (concat log) ns' /\ Forall written (concat log)
    /\ Forall2 carries (step_sends c k) log.
Proof.
  intros Hc Hk. assert (Hquiet : step_sends c k = [] -> conn_ok b ns c' -> exists log ns',
      conn_ok b ns' c' /\ counts_up ns (concat log) ns' /\ Forall written (concat log)
      /\ Forall2 carries (step_sends c k) log).
  { intros -> Hc'. exists [], ns. split_and!; try done; apply counts_up_nil. }
  destruct k; cbn [conn_step] in Hk;
    try (injection Hk as <-; apply Hquiet; [done|]; clear Hquiet).
  - unfold set_now. same.
  - by apply on_timeout_ok.
  - unfold open_stream. destruct (sm_open _ _). same.
  - unfold write_stream. same.
  - unfold read_stream. destruct (recv_read _). same.
  - unfold send_datagram. destruct (queue_outgoing _ _). same.
  - unfold recv_datagram. destruct (dq_recv _). same.
  - unfold close. destruct (_ && _); [same|done].
  - destruct (conn_recv datagram c) as [[r c1]|] eqn:E; [|done]. injection Hk as <-.
    apply Hquiet; [done|]. by eapply conn_recv_ok.
  - clear Hquiet. cbn [step_sends]. destruct (poll_transmit c) as [[r c1]|] eqn:E; [|done]. injection Hk as <-.
    apply poll_transmit_ok with (was_closed := b) (ns := ns) in E as (ps & ns' & H1 & H2 & H3 & H4); [|done].
    destruct r as [d|].
    + exists [ps], ns'. cbn [concat]. rewrite app_nil_r. split_and!; try done. by repeat constructor.
    + subst ps. exists [], ns'. split_and!; done.
Qed.

Lemma conn_run_ok b ks : forall ns c c',
  conn_ok b ns c -> conn_run c ks = Some c' ->
  exists log ns', conn_ok b ns' c' /\ counts_up ns (concat log) ns' /\ Forall written (concat log)
    /\ Forall2 carries (conn_sends c ks) log.
Proof.
  induction ks as [|k ks IH]; intros ns c c' Hc; cbn [conn_run conn_sends].
  { intros [= <-]. exists [], ns. split_and!; try done; apply counts_up_nil. }
  destruct (conn_step c k) as [c1|] eqn:E; [|done].
  apply conn_step_ok with (b := b) (ns := ns) in E as (log1 & ns1 & H1 & H2 & H3 & H4); [|done].
  intros (log2 & ns2 & G1 & G2 & G3 & G4)%(IH ns1); [|done].
  exists (log1 ++ log2), ns2. rewrite concat_app. split_and!; [done|by eapply counts_up_app|by apply Forall_app|].
  by apply Forall2_app.
Qed.

Lemma conn_run_keeps b ks ns c c' :
  conn_ok b ns c -> conn_run c ks = Some c' -> exists ns', conn_ok b ns' c'.
Proof. intros Hc (_ & ns' & H1 & _)%(conn_run_ok b ks ns c c' Hc). by exists ns'. Qed.
End Histories.

(** C5: Over every history of calls on a new connection, whatever the peer sends and
    whatever rustls does. Packet numbers are never reused: each datagram transmitted
    is the packets of a log followed by padding, each packet written under its
    logged number, and the numbers of a level run 0, 1, 2, ... in the order of
    sending, without gap or repetition, up to the level's next number. The bytes in
    flight are those of the outstanding packets and the congestion window is at
    least two datagrams; every outstanding packet number has been used up; frames
    are kept for outstanding packets only, and only CRYPTO and STREAM frames are
    kept or queued for retransmission. *)
Theorem connection_invariant `{QuicLib} side dcid scid tls ks c :
  conn_run (conn_start side dcid scid tls) ks = Some c ->
  let r := recovery c in
  (exists log : list (list packet),
     Forall2 carries (conn_sends (conn_start side dcid scid tls) ks) log
     /\ Forall written (concat log)
     /\ forall l, numbers_at l (concat log) = seqZ 0 (next_pn (conn_space c l)))
  /\ bytes_in_flight (cc r) = outstanding (spaces r) /\ MIN_WINDOW <= cwnd (cc r)
  /\ (forall l n p, zm_get (sent (space_at r (lvl l))) n = Some p -> n < next_pn (conn_space c l))
  /\ (forall s n fs, sent_frames c !! (s, n) = Some fs ->
        is_Some (zm_get (sent (space_at r s)) n) /\ Forall (fun f => retransmittable f = true) fs)
  /\ Forall (fun f => retransmittable f = true) (retransmit c).
Proof.
  intros Hrun. apply conn_run_ok with (b := false) (ns := no_numbers) in Hrun; [|apply conn_start_ok].
  destruct Hrun as (log & ns & [_ [_ _ Hb [Hw _]] Hnx Hpn Hfr Hrt _] & Hup & Hwr & Hc). cbn zeta.
  split_and!; try done.
  - exists log. split_and!; [done|done|]. intros l. destruct (Hup l) as [_ ->].
    unfold no_numbers. by rewrite Hnx, Z.sub_0_r.
  - intros s n fs Hs. by apply Hfr in Hs as (_ & ? & ?).
Qed.

(** A closed connection stays closed whatever is called, and transmits nothing. *)
Theorem closed_is_final `{QuicLib} side dcid scid tls ks1 c ks2 c' :
  conn_run (conn_start side dcid scid tls) ks1 = Some c -> closed c = true -> conn_run c ks2 = Some c' ->
  closed c' = true /\ poll_transmit c' = Some (None, c') /\ poll_timeout c' = None.
Proof.
  intros H1 Hcl H2. apply conn_run_keeps with (b := false) (ns := no_numbers) in H1 as [ns H1]; [|apply conn_start_ok].
  apply conn_run_keeps with (b := true) (ns := ns) in H2 as [ns' H2]; [|destruct H1; by split].
  pose proof (co_closed _ _ _ H2 eq_refl) as Hcl'. unfold poll_transmit, poll_timeout. by rewrite Hcl'.
Qed.

(** ** Receiving always returns *)

(** Each key change rustls reports brings the session closer to its last one. *)
Class TlsProgress `{QuicLib} := {
  tls_write_rank : forall t buf keys t', tls_write_hs t = (buf, Some keys, t') -> (tls_rank t' < tls_rank t)%nat;
}.

Section Total.
Context `{TlsProgress}.

Lemma write_tls_total fuel : forall c, (tls_rank (c_tls c) < fuel)%nat -> is_Some (write_tls fuel c).
Proof.
  induction fuel as [|fuel IH]; intros c Hf; [lia|]. cbn [write_tls].
  destruct (tls_write_hs (c_tls c)) as [[buf [[[b l] r]|]] t] eqn:E; [|by eexists].
  apply tls_write_rank in E. apply IH. destruct (length buf =? 0)%nat; simpl; lia.
Qed.

Lemma pump_tls_total c : is_Some (pump_tls c).
Proof.
  unfold pump_tls. destruct (feed_tls _ c) as [[[]|e] c1]; [|by eexists].
  destruct (write_tls_total (S (tls_rank (c_tls c1))) c1) as [c2 ->]; [lia|]. by eexists.
Qed.

Lemma recv_queue_shrinks q : forall d b c d' b' c',
  recv_queue q d b c = (Ok (d', b'), c') ->
  (length d' <= length d + length q)%nat /\ (b' = true -> b = true \/ (length d' < length d + length q)%nat).
Proof.
  induction q as [|pkt q IH]; intros d b c d' b' c'; cbn [recv_queue].
  { intros [= -> -> ->]. simpl. split; [lia|auto]. }
  destruct (recv_one pkt c) as [[[]|e] c1].
  - intros [H1 _]%IH. simpl. split; [lia|]. intros _. right. lia.
  - destruct e; try done. destruct (String.eqb _ _); [|done].
    intros [H1 H2]%IH. rewrite length_app in *. simpl in *. split; [lia|]. intros Hb.
    destruct (H2 Hb); [auto|right; lia].
Qed.

Lemma recv_loop_total fuel : forall q c, (length q < fuel)%nat -> is_Some (recv_loop fuel q c).
Proof.
  induction fuel as [|fuel IH]; intros q c Hf; [lia|]. cbn [recv_loop].
  destruct (recv_queue q [] false c) as [[[d b]|e] c1] eqn:E; [|by eexists].
  apply recv_queue_shrinks in E as [H1 H2]. unfold try_bind, mbind, M_bind.
  destruct (pump_tls_total c1) as [[[[]|e] c2] ->]; [|by eexists].
  destruct (length d =? 0)%nat; [by eexists|]. destruct b; [|by eexists]. apply IH.
  destruct (H2 eq_refl); [done|]. simpl in *. lia.
Qed.


End Total.

(** *** Splitting a datagram *)

Lemma split_loop_total fuel : forall d off count,
  (S MAX_PACKETS_PER_DATAGRAM <= count + fuel)%nat -> (count <= MAX_PACKETS_PER_DATAGRAM)%nat ->
  is_Some (split_loop fuel d off count).
Proof.
  induction fuel as [|fuel IH]; intros d off count Hf Hc; [lia|]. cbn [split_loop].
  destruct (drop off d) as [|first tl]; [by eexists|]. destruct (_ =? 0); [by eexists|].
  destruct (if Z.land first 0x80 =? 0 then _ else _) as [plen|e]; [|by eexists].
  destruct (_ || _); [by eexists|]. destruct (Nat.leb_spec MAX_PACKETS_PER_DATAGRAM count); [by eexists|].
  destruct (IH d (off + Z.to_nat plen)%nat (S count)) as [[q|e] ->]; [lia|lia|by eexists..].
Qed.

(** What is left over begins with a byte that has no fixed bit, or is empty. *)
Definition is_padding (pad : list Z) : Prop :=
  match pad with [] => True | b :: _ => Z.land b 0x40 = 0 end.

Lemma split_loop_spec fuel : forall d off count q,
  (count <= MAX_PACKETS_PER_DATAGRAM)%nat -> split_loop fuel d off count = Some (Ok q) ->
  (count + length q <= MAX_PACKETS_PER_DATAGRAM)%nat
  /\ exists pad, drop off d = concat q ++ pad /\ is_padding pad.
Proof.
  induction fuel as [|fuel IH]; intros d off count q Hc; cbn [split_loop];
    destruct (drop off d) as [|first tl] eqn:Ed; try done;
    try (intros [= <-]; split; [simpl; lia|by exists []]).
  destruct (Z.eqb_spec (Z.land first 0x40) 0) as [Hz|_].
  { intros [= <-]. split; [simpl; lia|]. by exists (first :: tl). }
  destruct (if Z.land first 0x80 =? 0 then _ else _) as [plen|e]; [|done].
  destruct (_ || _); [done|]. destruct (Nat.leb_spec MAX_PACKETS_PER_DATAGRAM count); [done|].
  destruct (split_loop fuel d _ (S count)) as [[q'|e]|] eqn:E; [|done..]. intros [= <-].
  apply IH in E as (Hl & pad & Hd & Hp); [|lia]. cbn [length concat]. split; [lia|].
  exists pad. split; [|done]. rewrite <- app_assoc, <- Hd, <- drop_drop, Ed. by rewrite take_drop.
Qed.

(** C13: Feeding a datagram always returns, with an error or without: splitting ends,
    because it stops at 64 packets, and yields packets that, with the padding behind
    them, are the datagram; a datagram that does not split leaves the connection as
    it was; and the deferral rounds and the TLS pump end, the pump because rustls
    reports finitely many key changes ([TlsProgress]). *)
Theorem recv_always_returns `{TlsProgress} d c :
  match split_packets d with
  | None => False
  | Some (Err e) => conn_recv d c = Some (Err e, c)
  | Some (Ok queue) =>
      (length queue <= MAX_PACKETS_PER_DATAGRAM)%nat
      /\ (exists pad, d = concat queue ++ pad /\ is_padding pad)
      /\ exists r c', conn_recv d c = Some (r, c')
  end.
Proof.
  unfold conn_recv, split_packets.
  destruct (split_loop_total (S MAX_PACKETS_PER_DATAGRAM) d 0 0) as [s E]; [lia..|]. rewrite E.
  destruct s as [q|e]; [|done]. apply split_loop_spec in E as [Hl Hpad]; [|lia].
  split; [done|]. split; [exact Hpad|].
  destruct (recv_loop_total (S (length q)) q c) as [[r c'] Er]; [lia|]. by exists r, c'.
Qed.

(** ** Two connections *)

(** What a packet says of the connection it comes from. *)
Definition conn_ids `{QuicLib} (c : Conn) : Z * ConnectionId * ConnectionId := (c_version c, c_dcid c, c_scid c).

(** Gathering frames leaves it alone. *)
Lemma drain_streams_ids `{QuicLib} ids : forall rem fs c, conn_ids (drain_streams ids rem fs c).2 = conn_ids c.
Proof.
  assert (Hs : forall fuel id rem fs c, conn_ids (drain_stream fuel id rem fs c).2 = conn_ids c).
  { induction fuel as [|fuel IH]; intros id rem fs c; [done|]. cbn [drain_stream]. destruct rem; [done|].
    destruct (send_take _ _) as [[[[off data] f]|] s']; [|done]. destruct f; [done|]. by rewrite IH. }
  induction ids as [|id ids IH]; intros rem fs c; cbn [drain_streams]; [done|].
  specialize (Hs rem id rem fs c). destruct (drain_stream _ _ _ _ _) as [[fs' rem'] c']. by rewrite IH.
Qed.

Lemma gather_frames_ids `{QuicLib} l c : conn_ids (gather_frames l c).2 = conn_ids c.
Proof.
  unfold gather_frames. assert (Ha : conn_ids (push_ack l [] c).2 = conn_ids c)
    by (unfold push_ack; by destruct (ack_pending (conn_space c l)), (largest_recv (conn_space c l))).
  destruct (push_ack l [] c) as [fs c1]. cbn [snd] in Ha.
  assert (Hd : conn_ids (if bool_decide (l = LData) then push_data fs c1 else (fs, false, c1)).2 = conn_ids c1).
  { case_bool_decide; [|done]. unfold push_data. destruct (close_pending c1) as [[[? ?] ?]|]; [done|].
    destruct (maybe_extend _ _) as [ext fc]. unfold collect_stream_frames.
    match goal with |- context [drain_streams ?i ?r ?f ?d] =>
      pose proof (drain_streams_ids i r f d) as E; destruct (drain_streams i r f d) as [fs' c'] end.
    by destruct (drain_datagrams _ _ _). }
  destruct (if bool_decide (l = LData) then _ else _) as [[fs2 cl] c2]. cbn [snd] in Hd. destruct cl; [cbn [snd]; congruence|].
  unfold push_crypto. destruct (drain_crypto _ _ _) as [fs3 cs].
  destruct (_ && _); cbn [snd]; rewrite <- Ha, <- Hd; done.
Qed.

(** *** Long headers under protection *)

(** Header protection changes the low bits of the first byte only, so a protected
    long header still parses. *)
Lemma first_byte_masked t low m :
  Z.lxor (first_byte t low) (Z.land m 15) = first_byte t (Z.lxor low m).
Proof.
  unfold first_byte. set (C := Z.lor 192 _).
  assert (HC : Z.land C 15 = 0) by (subst C; by destruct t).
  apply Z.bits_inj'. intros i Hi. apply (f_equal (fun z => Z.testbit z i)) in HC.
  rewrite Z.land_spec, Z.bits_0 in HC.
  rewrite !Z.lxor_spec, !Z.lor_spec, !Z.land_spec, Z.lxor_spec.
  destruct (Z.testbit C i), (Z.testbit low i), (Z.testbit m i), (Z.testbit 15 i); done.
Qed.

Lemma protected_long_header `{QuicLib} k t v d s n body out :
  long_header_ok (mkLongHeader t v d s []) ->
  protect_bytes k (Some t) v d s n body = Some out ->
  exists low rest,
    out = (write_long_header [] (mkLongHeader t v d s []) low
           ++ encode_varint [] (Z.of_nat (pn_length n + length body + tag_len))) ++ rest
    /\ length (packet_prefix (Some t) v d s (pn_length n) (length body))
       = length (write_long_header [] (mkLongHeader t v d s []) low
                 ++ encode_varint [] (Z.of_nat (pn_length n + length body + tag_len))).
Proof.
  intros Hok. unfold protect_bytes. set (pre := packet_prefix _ _ _ _ _ _).
  destruct (seal _ _ _ _) as [c|]; [|done]. destruct (_ <? _)%nat; [done|].
  destruct (header_mask _ _) as [mask|]; [|done]. intros [= <-].
  set (vl := encode_varint [] _). set (h := mkLongHeader t v d s []) in *. set (low := Z.of_nat (pn_length n) - 1).
  assert (Hpre : pre = write_long_header [] h low ++ vl) by (subst pre vl; apply encode_varint_out).
  assert (Hw : exists tl, forall lo, write_long_header [] h lo = first_byte t lo :: tl).
  { exists (to_be_bytes 4 v ++ [as_u8 (Z.of_nat (cid_len d))] ++ cid_bytes d ++ [as_u8 (Z.of_nat (cid_len s))]
      ++ cid_bytes s ++ (if decide (t = Initial) then encode_varint [] 0 else [])).
    intros lo. subst h. unfold write_long_header. cbn [ty version dcid scid token]. fold (first_byte t lo).
    destruct (decide (t = Initial)); [rewrite encode_varint_out, app_nil_r|rewrite !app_nil_r];
      simpl; rewrite <- ?app_assoc; simpl; by rewrite <- ?app_assoc. }
  destruct Hw as [tl Hw]. set (low' := Z.lxor low (mask !!! 0%nat)).
  assert (Hl : length pre = length (write_long_header [] h low' ++ vl)).
  { rewrite Hpre, !length_app, !Hw. done. }
  assert (Hraw : exists rest0, encode_packet_number pre n (pn_length n) ++ c = first_byte t low :: (tl ++ vl) ++ rest0).
  { exists (drop (8 - pn_length n) (to_be_bytes 8 n) ++ c). unfold encode_packet_number.
    rewrite Hpre, Hw. simpl. by rewrite <- !app_assoc. }
  destruct Hraw as [rest0 ->]. rewrite mask_first_cons. rewrite (proj1 (first_byte_fields t low)).
  rewrite first_byte_masked. fold low'.
  exists low', (drop (length pre) (mask_pn mask (length pre) (pn_length n) (first_byte t low' :: (tl ++ vl) ++ rest0))).
  split; [|done]. rewrite Hl. set (L := write_long_header [] h low' ++ vl).
  assert (HL : L = first_byte t low' :: tl ++ vl) by (subst L; by rewrite Hw).
  rewrite <- (take_drop (length L) (mask_pn _ _ _ _)) at 1. f_equal. rewrite app_comm_cons, <- HL.
  apply list_eq. intros j. destruct (decide (j < length L)%nat) as [Hj|Hj].
  - rewrite lookup_take_lt by done. rewrite mask_pn_lookup, decide_False by lia. by rewrite lookup_app_l.
  - rewrite lookup_take_ge by lia. symmetry. apply lookup_ge_None. lia.
Qed.

(** A server learns the client's connection id and the Initial keys from the first
    Initial packet. *)
Definition meets `{QuicLib} (a b : Conn) (l : Level) : Conn :=
  if bool_decide (c_side b = Server) && bool_decide (l = LInitial) && bool_decide (rx_key b LInitial = None)
  then install_initial_keys (cid_bytes (c_dcid a)) (on_c_dcid (fun _ => c_scid a) b) else b.

(** The peers agree on the version and the connection ids fit the wire. *)
Definition addressed `{QuicLib} (a b : Conn) : Prop :=
  c_version b = c_version a /\ 0 <= c_version a < 2 ^ 32
  /\ cid_len (c_scid b) = cid_len (c_dcid a) /\ (cid_len (c_dcid a) <= 20)%nat /\ (cid_len (c_scid a) <= 20)%nat.

Section Delivery.
Context `{QuicLib} (a b : Conn) (ktx krx : PktCrypto).
Hypothesis Hkm : keys_match ktx krx.
Hypothesis Haddr : addressed a b.

Lemma recv_protected_short n body out :
  protect_bytes ktx None (c_version a) (c_dcid a) (c_scid a) n body = Some out ->
  rx_key b LData = Some krx -> pn_in_window (default 0 (largest_recv (conn_space b LData))) n ->
  recv_one out b
  = match decode_all body with
    | Ok fs => handle_frames LData fs (on_space LData (note_received n) b)
    | Err e => (Err e, on_space LData (note_received n) b)
    end.
Proof.
  destruct Haddr as (_ & _ & Hcid & H20 & _). intros Ep Hb Hw.
  destruct (protect_unprotect ktx krx Hkm None _ _ _ n _ out _ [] Ep Hw) as (Hun & Hlen & b0 & tl & b1 & tl1 & Hpre & Hout & Hform).
  rewrite app_nil_r in Hun. cbn [packet_prefix] in *.
  assert (Hz : Z.land b1 0x80 = 0).
  { rewrite Hform. injection Hpre as <- _. apply short_first_byte, pn_length_range. }
  rewrite Hout. cbn [recv_one]. rewrite Hz. cbn [negb Z.eqb]. unfold recv_short. rewrite <- Hout.
  assert (Hoff : length ([Z.lor 0x40 (Z.of_nat (pn_length n) - 1)] ++ cid_bytes (c_dcid a)) = (1 + cid_len (c_scid b))%nat)
    by (rewrite length_app, Hcid; done).
  assert (Hps : exists cid, parse_short_header_dcid out (cid_len (c_scid b)) = Ok (cid, (1 + cid_len (c_scid b))%nat)).
  { unfold parse_short_header_dcid. destruct out as [|x out']; [done|]. injection Hout as -> _.
    rewrite Hz. cbn [negb Z.eqb]. rewrite (proj2 (Nat.ltb_ge _ _)) by (rewrite Hoff in Hlen; lia).
    rewrite cid_new_short; [by eexists|]. unfold sub. rewrite length_take. lia. }
  destruct Hps as [cid ->]. rewrite <- Hoff. unfold decrypt_and_handle. by rewrite Hb, Hun.
Qed.

Lemma recv_protected_long l t n body out :
  long_type l = Some t ->
  protect_bytes ktx (Some t) (c_version a) (c_dcid a) (c_scid a) n body = Some out ->
  Z.of_nat (length out) <= VARINT_MAX ->
  rx_key (meets a b l) l = Some krx -> pn_in_window (default 0 (largest_recv (conn_space b l))) n ->
  recv_one out b
  = match decode_all body with
    | Ok fs => handle_frames l fs (on_space l (note_received n) (meets a b l))
    | Err e => (Err e, on_space l (note_received n) (meets a b l))
    end.
Proof.
  destruct Haddr as (Hver & Hv & _ & Hd & Hs). intros Hl Ep Hmax Hb Hw.
  assert (Hlv : level_of t = Some l) by (destruct l; by simplify_eq/=).
  set (h := mkLongHeader t (c_version a) (c_dcid a) (c_scid a) []).
  assert (Hok : long_header_ok h).
  { unfold long_header_ok; simpl. split_and!; first [done|by right|lia]. }
  destruct (protect_unprotect ktx krx Hkm (Some t) _ _ _ n _ out _ [] Ep Hw) as (Hun & Hlen & _).
  rewrite app_nil_r in Hun.
  destruct (protected_long_header ktx t _ _ _ n body out Hok Ep) as (low & rest & Hout & Hpl). fold h in Hout, Hpl.
  set (len := (pn_length n + length body + tag_len)%nat) in *. rewrite Hpl in *.
  set (W := write_long_header [] h low) in *. rewrite length_app in *.
  assert (Hwr : exists tl, W = first_byte t low :: tl).
  { subst W. destruct (write_long_header_split h low Hok) as (? & ? & ? & ? & _ & ->). by eexists. }
  assert (Hone : recv_one out b = recv_long out b).
  { rewrite Hout. destruct Hwr as [tl ->]. cbn [app recv_one]. by rewrite (proj1 (first_byte_fields t low)). }
  assert (Hparse : parse_long_header out = Ok (h, low mod 16, length W))
    by (rewrite Hout, <- app_assoc; by apply long_header_roundtrip).
  assert (Hvar : decode_varint (drop (length W) out) = Ok (Z.of_nat len, varint_len (Z.of_nat len))).
  { rewrite Hout, <- app_assoc, drop_app_length. apply decode_encode_varint. subst len. lia. }
  rewrite varint_len_encode in * by (subst len; lia).
  rewrite Hone. unfold recv_long. rewrite Hparse. cbn [version h ty dcid scid].
  rewrite Hver, Z.eqb_refl, Hlv. cbn [negb]. fold (meets a b l). rewrite Hvar.
  rewrite (proj2 (Z.ltb_ge _ _)) by (subst len; lia). rewrite Nat2Z.id.
  replace (length W + varint_len (Z.of_nat len) + len)%nat with (length out) by (subst len; lia).
  unfold decrypt_and_handle. rewrite Hb.
  assert (Hsp : conn_space (meets a b l) l = conn_space b l).
  { unfold meets. destruct (_ && _); [|done]. unfold install_initial_keys. by destruct (c_side _). }
  by rewrite Hsp, Hun.
Qed.
End Delivery.

(** C6: What one side builds as a packet, at any level, the other side reads: with
    matching keys for that level (a server takes those of the first Initial packet
    from the packet), the same version, connection ids of at most 20 bytes of the
    length the peer expects, a packet number within the receive window and frames
    whose fields fit their encodings, receiving the packet handles exactly the
    frames that were gathered, in order, after noting the number. *)
Theorem packet_frames_delivered `{QuicLib} (a b a' a1 : Conn) (l : Level) (ktx krx : PktCrypto) pkt fs closing n :
  keys_match ktx krx -> addressed a b ->
  tx_key a l = Some ktx -> rx_key (meets a b l) l = Some krx ->
  gather_frames l a = (fs, closing, a1) -> next_pn (conn_space a1 l) = n ->
  frames_ok fs -> pn_in_window (default 0 (largest_recv (conn_space b l))) n ->
  Z.of_nat (length pkt) <= VARINT_MAX ->
  build_packet l a = Some (Some pkt, a') ->
  recv_one pkt b = handle_frames l fs (on_space l (note_received n) (meets a b l)).
Proof.
  intros Hm Had Ha Hb Eg Hn Hfs Hw Hmax. pose proof (gather_frames_ids l a) as Hd. rewrite Eg in Hd. cbn [snd] in Hd.
  unfold build_packet. rewrite Ha, Eg.
  destruct (length fs =? 0)%nat; [done|]. unfold protect. rewrite !Hn. cbn [c_version c_dcid c_scid on_space on_c_spaces].
  injection Hd as -> -> ->. destruct (protect_bytes ktx _ _ _ _ n _) as [out|] eqn:Ep; [|done]. intros [= -> _].
  assert (Hdec : decode_all (fs ≫= frame_encode) = Ok fs) by (unfold decode_all; by rewrite decode_all_encoded).
  destruct (long_type l) as [t|] eqn:El.
  - rewrite (recv_protected_long a b ktx krx Hm Had l t n _ pkt) by done. by rewrite Hdec.
  - destruct l; [done..|]. assert (E : meets a b LData = b) by (unfold meets; by rewrite andb_false_r).
    rewrite E in *. rewrite (recv_protected_short a b ktx krx Hm Had n _ pkt) by done. by rewrite Hdec.
Qed.

(** ** Acknowledgements *)

Lemma handle_ack_clears `{QuicLib} ns l n c :
  conn_ok false ns c -> 0 <= n < 2 ^ 62 ->
  let c' := handle_ack l n 0 n [] c in
  forall m, 0 <= m <= n -> zm_get (sent (space_at (recovery c') (lvl l))) m = None.
Proof.
  intros Hc Hn c' m Hm. subst c'. unfold handle_ack.
  pose proof (on_ack_takes_out (recovery c) (lvl l) n n [] 0 (c_now c) (co_recovery _ _ c Hc) (lvl_lt l)) as [Hok Ht].
  pose proof (on_ack_spec (recovery c) (lvl l) n n [] 0 (c_now c) (co_recovery _ _ c Hc) (lvl_lt l)) as Hs.
  destruct (on_ack _ _ _ _ _ _ _) as [acked r]. cbn [fst snd] in *.
  destruct Hs as (_ & _ & Hin & _).
  assert (Hr : zm_get (sent (space_at r (lvl l))) m = None).
  { rewrite Ht. case_decide as Hd; [done|]. destruct (zm_get _ m) as [p|] eqn:E; [|done]. exfalso. apply Hd.
    split; [done|]. apply list_elem_of_fmap. exists p.
    destruct (sent_ok_get _ _ _ (space_at_ok _ _ (co_recovery _ _ c Hc) (lvl_lt l)) E) as [Hp _].
    split; [done|]. apply Hin. exists m. split; [|done]. exists 0, n. split; [|lia].
    unfold acked_numbers. rewrite Z.sub_diag. left. }
  destruct (forget_acked_spec (lvl l) acked (on_recovery (fun _ => r) c)) as (_ & H2 & _ & _).
  set (c1 := foldl _ _ acked) in *. unfold detect_and_requeue. rewrite H2.
  cbn [recovery on_recovery]. change (recovery (on_recovery (fun _ => r) c)) with r in H2.
  pose proof (detect_takes_out r (lvl l) (c_now c1) Hok (lvl_lt l)) as [_ Hdt].
  destruct (detect_lost r (lvl l) (c_now c1)) as [lost r2]. cbn [fst snd] in *.
  assert (E : forall ps d, recovery (requeue_lost (lvl l) ps d) = recovery d).
  { intros ps. unfold requeue_lost. induction ps as [|p ps IH]; intros d; cbn [foldl]; [done|].
    rewrite IH. by destruct (sent_frames d !! _). }
  rewrite E. cbn [recovery on_recovery]. rewrite Hdt. by case_decide.
Qed.

(** A receiver that has seen packet [n], alone or not, acknowledges every number
    from 0 to [n]; a sender that handles this frame forgets every packet up to [n]
    and the frames it kept for them, delivered or not: after a loss nothing is left
    to retransmit. *)
Theorem ack_covers_unreceived_packets `{QuicLib} side dcid scid tls ks c l n :
  (forall r : Conn, largest_recv (conn_space r l) = Some n -> ack_pending (conn_space r l) = true ->
     (push_ack l [] r).1 = [Ack n 0 n []])
  /\ (conn_run (conn_start side dcid scid tls) ks = Some c -> 0 <= n < 2 ^ 62 ->
      let c' := (handle_frame l (Ack n 0 n []) c).2 in
      forall m, 0 <= m <= n ->
        zm_get (sent (space_at (recovery c') (lvl l))) m = None /\ sent_frames c' !! (lvl l, m) = None).
Proof.
  split.
  - intros r Hl Hp. unfold push_ack. by rewrite Hl, Hp.
  - intros Hrun Hn c' m Hm. apply conn_run_keeps with (b := false) (ns := no_numbers) in Hrun as [ns Hrun]; [|apply conn_start_ok].
    pose proof (handle_ack_clears ns l n c Hrun Hn m Hm) as Hg. split; [exact Hg|].
    pose proof (handle_frame_ok false ns l (Ack n 0 n []) c Hrun) as Hok. fold c' in Hok.
    destruct (sent_frames c' !! (lvl l, m)) as [fs|] eqn:E; [|done].
    apply (co_frames _ _ _ Hok) in E as (_ & [p Hp] & _). unfold c' in Hp. cbn [handle_frame snd] in Hp. congruence.
Qed.

(** ** A concrete library *)

(** Sealing appends a constant tag, masks are constant, and the session writes a
    greeting and yields its two key changes at once. *)
#[export] Instance toy_lib : QuicLib := {|
  hkdf_extract := fun _ _ => [];
  hkdf_expand := fun _ _ n => replicate n 7;
  ring_seal := fun _ _ _ p => Some (p ++ replicate 16 9);
  ring_open := fun _ _ _ c => if (length c <? 16)%nat then None else Some (take (length c - 16) c);
  ring_mask := fun _ _ => Some [0xff; 1; 2; 3; 4];
  DirectionalKeys := unit;
  rustls_encrypt := fun _ _ _ p => Some (p, replicate 16 9);
  rustls_decrypt := fun _ _ _ c => if (length c <? 16)%nat then None else Some (take (length c - 16) c);
  rustls_hp := fun _ _ first pn => Some (Z.lxor first 0x15, zip_with Z.lxor pn [1; 2; 3; 4]);
  TlsState := nat;
  tls_read_hs := fun t _ => (None, t);
  tls_write_hs := fun t => match t with
                           | S (S _) => ([22; 3; 1], Some (false, tt, tt), 1%nat)
                           | 1%nat => ([], Some (true, tt, tt), 0%nat)
                           | _ => ([], None, 0%nat)
                           end;
  tls_params := fun _ => Some (tp_encode tp_default);
  tls_handshaking := fun t => negb (t =? 0)%nat;
  tls_rank := fun t => t;
|}.

#[export] Instance toy_progress : TlsProgress.
Proof. split. intros t buf keys t'. destruct t as [|[|t]]; simpl; intros [= <- <- <-]; lia. Qed.

Lemma toy_match : keys_match (Rustls tt) (Rustls tt).
Proof.
  split.
  - intros n hdr body c. cbn -[replicate]. intros [= <-]. unfold rustls_open. cbn -[replicate Nat.ltb Nat.sub].
    rewrite length_app. cbn [length]. rewrite (proj2 (Nat.ltb_ge _ _)) by lia.
    by rewrite Nat.add_sub, take_app_length.
  - done.
  - intros n hdr body c. cbn -[replicate]. intros [= <-]. by rewrite length_app.
  - intros sample m. cbn. by intros [= <-].
Qed.

Definition toy_client : Conn := conn_client (mkCid [1; 2; 3; 4]) (mkCid [5; 6; 7; 8]) 2%nat.

Definition toy_server : Conn := conn_server (mkCid [1; 2; 3; 4]) 2%nat.

(** The first flight, then one stream with data in 1-RTT packet 0. *)
Definition toy_history : list call :=
  [SetNow 1000; PollTransmit; OpenStream true; WriteStream 0 [10; 20; 30] false; PollTransmit].

Definition toy_sender : Conn := default toy_client (conn_run toy_client (take 4 toy_history)).
Definition toy_hello : Conn := match pump_tls (set_now 1000 toy_client) with Some (_, c) => c | None => toy_client end.
Definition toy_initial : PktCrypto := Native (from_initial_secret (initial_secret [1; 2; 3; 4] true)).
Definition first_flight : list Z :=
  match poll_transmit (set_now 1000 toy_client) with Some (Some d, _) => d | _ => [] end.
Definition toy_receiver : Conn := default toy_server (conn_run toy_server [SetNow 1000; RecvBytes first_flight]).

Example connection_invariant_witness :
  exists c, conn_run toy_client toy_history = Some c
    /\ length (conn_sends toy_client toy_history) = 2%nat
    /\ (exists log, Forall2 carries (conn_sends toy_client toy_history) log
          /\ numbers_at LInitial (concat log) = [0] /\ numbers_at LData (concat log) = [0])
    /\ sent_frames c !! (2%nat, 0) = Some [QStream 0 0 false [10; 20; 30]].
Proof.
  destruct (conn_run toy_client toy_history) as [c|] eqn:E; [|vm_compute in E; discriminate].
  exists c. split; [reflexivity|]. split; [vm_compute; reflexivity|]. split.
  - destruct (@connection_invariant toy_lib Client (mkCid [1; 2; 3; 4]) (mkCid [5; 6; 7; 8]) 2%nat toy_history c E)
      as [(log & Hl & _ & Hn) _].
    exists log. split; [exact Hl|]. rewrite !Hn. vm_compute in E. injection E as <-. split; vm_compute; reflexivity.
  - vm_compute in E. injection E as <-. vm_compute. reflexivity.
Defined.

Example closed_is_final_witness :
  exists c c', conn_run toy_client (toy_history ++ [Close true 0 []; PollTransmit]) = Some c
    /\ conn_run c [SetNow 9; WriteStream 0 [1] true; PollTransmit] = Some c' /\ closed c' = true.
Proof.
  destruct (conn_run toy_client (toy_history ++ [Close true 0 []; PollTransmit])) as [c|] eqn:E;
    [|vm_compute in E; discriminate].
  destruct (conn_run c [SetNow 9; WriteStream 0 [1] true; PollTransmit]) as [c'|] eqn:E';
    [|vm_compute in E; injection E as <-; vm_compute in E'; discriminate].
  exists c, c'. split; [reflexivity|]. split; [exact E'|].
  refine (proj1 (closed_is_final Client (mkCid [1; 2; 3; 4]) (mkCid [5; 6; 7; 8]) 2%nat
    (toy_history ++ [Close true 0 []; PollTransmit]) c [SetNow 9; WriteStream 0 [1] true; PollTransmit] c' E _ E')).
  vm_compute in E. injection E as <-. reflexivity.
Defined.

Example recv_always_returns_witness : exists r c', conn_recv [0x40; 1; 2] toy_server = Some (r, c').
Proof. exact (proj2 (proj2 (recv_always_returns [0x40; 1; 2] toy_server))). Defined.

Lemma toy_native_match k : keys_match (Native k) (Native k).
Proof.
  split.
  - intros n hdr body c. cbn -[replicate]. unfold keys_seal. cbn -[replicate]. intros [= <-].
    unfold keys_open. cbn -[replicate Nat.ltb Nat.sub]. rewrite length_app. cbn [length].
    rewrite (proj2 (Nat.ltb_ge _ _)) by lia. by rewrite Nat.add_sub, take_app_length.
  - done.
  - intros n hdr body c. unfold seal, keys_seal. cbn -[replicate]. intros [= <-]. by rewrite length_app.
  - intros sample m. cbn. unfold keys_header_mask. destruct (_ <? _)%nat; [done|]. by intros [= <-].
Qed.

Lemma toy_addressed : addressed toy_sender toy_receiver /\ addressed toy_hello toy_server.
Proof. vm_compute. repeat split; try discriminate; repeat constructor. Qed.

(** A 1-RTT packet, and the client's first Initial packet, which gives the server
    its keys. *)
Example packet_frames_delivered_witness :
  (exists pkt a', build_packet LData toy_sender = Some (Some pkt, a')
    /\ recv_one pkt toy_receiver
       = handle_frames LData [QStream 0 0 false [10; 20; 30]] (on_space LData (note_received 0) toy_receiver))
  /\ (exists pkt a', build_packet LInitial toy_hello = Some (Some pkt, a')
    /\ recv_one pkt toy_server
       = handle_frames LInitial [Crypto 0 [22; 3; 1]]
           (on_space LInitial (note_received 0) (meets toy_hello toy_server LInitial))).
Proof.
  split.
  - destruct (build_packet LData toy_sender) as [[[pkt|] a']|] eqn:E; [|vm_compute in E; discriminate..].
    destruct (gather_frames LData toy_sender) as [[fs cl] a1] eqn:Eg.
    assert (Hfs : fs = [QStream 0 0 false [10; 20; 30]]) by (vm_compute in Eg; injection Eg as <- _ _; reflexivity).
    assert (Hn : next_pn (conn_space a1 LData) = 0) by (vm_compute in Eg; injection Eg as _ _ <-; reflexivity).
    exists pkt, a'. split; [reflexivity|]. rewrite <- Hfs.
    assert (Hmt : meets toy_sender toy_receiver LData = toy_receiver) by (unfold meets; by rewrite andb_false_r).
    assert (Ht : tx_key toy_sender LData = Some (@Rustls toy_lib tt)) by (vm_compute; reflexivity).
    assert (Hr : rx_key (meets toy_sender toy_receiver LData) LData = Some (@Rustls toy_lib tt))
      by (rewrite Hmt; vm_compute; reflexivity).
    assert (Hok : frames_ok fs)
      by (rewrite Hfs; vm_compute; repeat split; try discriminate; repeat constructor; discriminate).
    assert (Hw : pn_in_window (default 0 (largest_recv (conn_space toy_receiver LData))) 0)
      by (vm_compute; repeat split; discriminate).
    assert (Hmax : Z.of_nat (length pkt) <= VARINT_MAX)
      by (vm_compute in E; injection E as <- _; vm_compute; discriminate).
    rewrite <- Hmt at 2.
    exact (packet_frames_delivered toy_sender toy_receiver a' a1 LData (Rustls tt) (Rustls tt) pkt fs cl 0
      toy_match (proj1 toy_addressed) Ht Hr Eg Hn Hok Hw Hmax E).
  - destruct (build_packet LInitial toy_hello) as [[[pkt|] a']|] eqn:E; [|vm_compute in E; discriminate..].
    destruct (gather_frames LInitial toy_hello) as [[fs cl] a1] eqn:Eg.
    assert (Hfs : fs = [Crypto 0 [22; 3; 1]]) by (vm_compute in Eg; injection Eg as <- _ _; reflexivity).
    assert (Hn : next_pn (conn_space a1 LInitial) = 0) by (vm_compute in Eg; injection Eg as _ _ <-; reflexivity).
    exists pkt, a'. split; [reflexivity|]. rewrite <- Hfs.
    assert (Ht : tx_key toy_hello LInitial = Some toy_initial) by (vm_compute; reflexivity).
    assert (Hr : rx_key (meets toy_hello toy_server LInitial) LInitial = Some toy_initial) by (vm_compute; reflexivity).
    assert (Hok : frames_ok fs)
      by (rewrite Hfs; vm_compute; repeat split; try discriminate; repeat constructor; discriminate).
    assert (Hw : pn_in_window (default 0 (largest_recv (conn_space toy_server LInitial))) 0)
      by (vm_compute; repeat split; discriminate).
    assert (Hmax : Z.of_nat (length pkt) <= VARINT_MAX)
      by (vm_compute in E; injection E as <- _; vm_compute; discriminate).
    exact (packet_frames_delivered toy_hello toy_server a' a1 LInitial toy_initial toy_initial pkt fs cl 0
      (toy_native_match _) (proj2 toy_addressed) Ht Hr Eg Hn Hok Hw Hmax E).
Defined.

Example ack_covers_unreceived_packets_witness :
  exists c, conn_run toy_client toy_history = Some c
    /\ is_Some (sent_frames c !! (2%nat, 0))
    /\ sent_frames (handle_frame LData (Ack 0 0 0 []) c).2 !! (2%nat, 0) = None.
Proof.
  destruct (conn_run toy_client toy_history) as [c|] eqn:E; [|vm_compute in E; discriminate].
  exists c. split; [reflexivity|]. split.
  - vm_compute in E. injection E as <-. vm_compute. eexists; reflexivity.
  - destruct (@ack_covers_unreceived_packets toy_lib Client (mkCid [1; 2; 3; 4]) (mkCid [5; 6; 7; 8]) 2%nat
      toy_history c LData 0) as [_ H].
    exact (proj2 (H E ltac:(lia) 0 ltac:(lia))).
Defined.

(** The loss of a packet, end to end: packet 0 with the first bytes of a stream is
    lost, packet 1 arrives and is acknowledged. The sender keeps nothing, its timers
    find nothing to send again, and the receiver never has readable bytes. *)
Definition toy_loss : option (Conn * Conn) :=
  match poll_transmit toy_sender with
  | Some (_, a) =>
      match poll_transmit (write_stream 0 [40] false a) with
      | Some (Some p1, a) =>
          match conn_run toy_receiver [RecvBytes p1] with
          | Some b =>
              match poll_transmit b with
              | Some (Some ack, b) =>
                  match conn_run a [RecvBytes ack; OnTimeout 9000000; PollTransmit] with
                  | Some a => Some (a, b)
                  | None => None
                  end
              | _ => None
              end
          | None => None
          end
      | _ => None
      end
  | None => None
  end.

Example lost_stream_bytes_are_never_sent_again :
  match toy_loss with
  | Some (a, b) => sent_frames a = ∅ /\ retransmit a = [] /\ fst <$> poll_transmit a = Some None
                   /\ (read_stream 0 b).1 = [] /\ closed a = false
  | None => False
  end.
Proof. vm_compute. auto. Qed.

(** A server whose only frame is HANDSHAKE_DONE cannot protect the packet: one byte
    of payload leaves no room for the header-protection sample. *)
Example handshake_done_alone_panics :
  poll_transmit toy_receiver = None.
Proof. vm_compute. reflexivity. Qed.

(** RESET_STREAM creates the stream it names without the cap that STREAM obeys. *)
Example reset_stream_ignores_cap :
  let c := (handle_frames LData ((fun i => ResetStream (Z.of_nat i * 4) 0 0) <$> seq 0 300) toy_receiver).2 in
  sm_len (c_streams c) = 300%nat.
Proof. vm_compute. reflexivity. Qed.
