(* ===== verification/DispatchTypes.v ===== *)
(** The data of the frame dispatcher (crates/mesh-bus-core/src/lib.rs,
    transport/forwarding, kernel/forwarder.rs, kernel/compiled.rs): frames and
    their constructors, return events, capabilities, dataplane shapes and the
    compiled candidate buckets. Identifiers are the strings they wrap. *)
From S2P Require Import Prelude Numbers Endpoint.
Local Open Scope Z_scope.

(** ** Forwarding types *)

Inductive FlowSemantics := ByteStream | Datagram | Message.
Inductive ReturnSemantics := Direct | PacketDedup | SequenceReorder.
Inductive TrafficClass := Interactive | Bulk | Control | TcProbe.
Inductive ScheduleHint := Auto | SinglePath | FanOut (k : nat) | Stripe (n : nat).
Inductive ScheduleDecision := Ordered (order : list nat) | Replicate (order : list nat).

#[export] Instance FlowSemantics_eq_dec : EqDecision FlowSemantics.
Proof. solve_decision. Defined.
#[export] Instance ReturnSemantics_eq_dec : EqDecision ReturnSemantics.
Proof. solve_decision. Defined.

(** [ScheduleDecision::indices] *)
Definition indices (d : ScheduleDecision) : list nat :=
  match d with Ordered order | Replicate order => order end.

Record Capabilities := mkCapabilities {
  protocol : string;
  supports_stream : bool;
  supports_datagram : bool;
  max_payload_bytes : option Z;
  groups : list string
}.

Inductive CloseReason :=
| TtlExpired | SessionClosed | NoUsableExit | ConnectionRefused | NetworkUnreachable
| HostUnreachable | TimedOut | NotConnected | ConnectionReset | UpstreamEof
| ReaderClosed | AddressNotSupported | OtherClose (s : string).

Inductive DisconnectReason :=
| DConnectionRefused | DNetworkUnreachable | DHostUnreachable | DTtlExpired | DTimedOut
| DUpstreamEof | DConnectionReset | DNotConnected | DNoUsableExit | DSessionClosed
| DReaderClosed | DQueueFull | DAddressNotSupported | DOther (s : string).

#[export] Instance CloseReason_eq_dec : EqDecision CloseReason.
Proof. solve_decision. Defined.

Inductive ReturnEvent :=
| Connected (exit_id : string) (local_endpoint : option Endpoint) (rtt_ms : Z)
| Data (seq : Z) (payload : list Z)
| Idle
| Closed (reason : CloseReason).

Record ExitResult := mkExitResult {
  r_exit_id : string;
  success : bool;
  r_rtt_ms : Z;
  r_local_endpoint : option Endpoint;
  return_event : ReturnEvent
}.

Record SourceActivity := mkSourceActivity { sa_active_flows : Z; sa_idle_since_ms : option Z }.

(** ** Frames *)

Inductive FrameKind := KOpen | KData | KDatagram | KShutdownWrite | KClose | KCancel | KProbe.

#[export] Instance FrameKind_eq_dec : EqDecision FrameKind.
Proof. solve_decision. Defined.

Record BusFrame := mkFrame {
  packet_id : Z;
  flow_id : string;
  session_id : string;
  f_seq : Z;
  kind : FrameKind;
  payload : list Z;
  target : Endpoint;
  ttl : Z;
  traffic_class : TrafficClass;
  policy_ref : option string;
  deadline_ms : option Z;
  schedule_hint : ScheduleHint;
  path_trace : list string;
  flow_semantics : FlowSemantics;
  return_semantics : ReturnSemantics;
  source_key : option string;
  target_key : option string;
  route_group : option string;
  target_sink : option string
}.

(** [FlowId::mint_for]: the 64-bit hash of session, host and port is the standard
    library's [DefaultHasher], here a parameter. *)
Definition mint_for (hash : string -> string -> Z -> Z) (sid : string) (t : Endpoint) : string :=
  String "f" (hex_show 16 (hash sid (host t) (port t))).

Definition frame_open (hash : string -> string -> Z -> Z) (sid : string) (t : Endpoint) : BusFrame :=
  mkFrame 0 (mint_for hash sid t) sid 0 KOpen [] t 8 Control None None Auto []
    ByteStream Direct None None None None.

Definition frame_data (hash : string -> string -> Z -> Z) (sid : string) (sq : Z) (t : Endpoint)
    (pl : list Z) : BusFrame :=
  mkFrame sq (mint_for hash sid t) sid sq KData pl t 8 Bulk None None Auto []
    ByteStream Direct None None None None.

Definition frame_datagram (hash : string -> string -> Z -> Z) (sid : string) (sq : Z)
    (t : Endpoint) (pl : list Z) : BusFrame :=
  mkFrame sq (mint_for hash sid t) sid sq KDatagram pl t 8 Interactive None None Auto []
    Datagram PacketDedup None None None None.

Definition frame_close (hash : string -> string -> Z -> Z) (sid : string) (sq : Z) (t : Endpoint)
  : BusFrame :=
  mkFrame sq (mint_for hash sid t) sid sq KClose [] t 8 Control None None Auto []
    ByteStream Direct None None None None.

(** Field updates: [frame.ttl], [path_trace.push], [return_semantics]. *)
Definition set_ttl (f : BusFrame) (t : Z) : BusFrame :=
  let '(mkFrame a b c d e p g _ h i j k l m n o q r s) := f in
  mkFrame a b c d e p g t h i j k l m n o q r s.

Definition push_trace (f : BusFrame) (x : string) : BusFrame :=
  let '(mkFrame a b c d e p g t h i j k l m n o q r s) := f in
  mkFrame a b c d e p g t h i j k (l ++ [x]) m n o q r s.

Definition set_return (f : BusFrame) (rs : ReturnSemantics) : BusFrame :=
  let '(mkFrame a b c d e p g t h i j k l m _ o q r s) := f in
  mkFrame a b c d e p g t h i j k l m rs o q r s.

Record RankContext := mkRankContext {
  c_packet_id : Z;
  c_flow_id : string;
  c_session_id : string;
  c_target : Endpoint;
  c_traffic_class : TrafficClass;
  c_policy_ref : option string;
  c_deadline_ms : option Z;
  c_schedule_hint : ScheduleHint;
  c_flow_semantics : FlowSemantics;
  c_return_semantics : ReturnSemantics;
  c_source_key : option string;
  c_target_key : option string;
  c_source_activity : option SourceActivity
}.

(** [RankContext::from(&frame)], with the source activity set after it. *)
Definition rank_context (f : BusFrame) (sa : option SourceActivity) : RankContext :=
  mkRankContext (packet_id f) (flow_id f) (session_id f) (target f) (traffic_class f)
    (policy_ref f) (deadline_ms f) (schedule_hint f) (flow_semantics f) (return_semantics f)
    (source_key f) (target_key f) sa.

Definition capability_matches_flow (cap : Capabilities) (semantics : FlowSemantics) : bool :=
  match semantics with
  | ByteStream => supports_stream cap
  | Datagram => supports_datagram cap
  | Message => supports_stream cap || supports_datagram cap
  end.

(** ** Close reasons *)

Definition close_from_disconnect (r : DisconnectReason) : CloseReason :=
  match r with
  | DConnectionRefused => ConnectionRefused
  | DNetworkUnreachable => NetworkUnreachable
  | DHostUnreachable => HostUnreachable
  | DTtlExpired => TtlExpired
  | DTimedOut => TimedOut
  | DUpstreamEof => UpstreamEof
  | DConnectionReset => ConnectionReset
  | DNotConnected => NotConnected
  | DNoUsableExit => NoUsableExit
  | DSessionClosed => SessionClosed
  | DReaderClosed => ReaderClosed
  | DQueueFull => ConnectionReset
  | DAddressNotSupported => AddressNotSupported
  | DOther s => OtherClose s
  end.

Definition close_reason_is_success (r : CloseReason) : bool :=
  match r with
  | ConnectionRefused | NetworkUnreachable | HostUnreachable | TimedOut | NotConnected
  | ConnectionReset | AddressNotSupported | OtherClose _ => false
  | _ => true
  end.

(** ** Dataplane shapes *)

Inductive DataplaneShape := Forwarder | DatagramForwarder | FrameRouter.

#[export] Instance DataplaneShape_eq_dec : EqDecision DataplaneShape.
Proof. solve_decision. Defined.

Definition tag (s : DataplaneShape) : Z :=
  match s with Forwarder => 0 | FrameRouter => 1 | DatagramForwarder => 2 end.

Record TransformRequirements := mkTransformRequirements { steps : list string }.

Definition reqs_is_empty (t : TransformRequirements) : bool :=
  match steps t with [] => true | _ => false end.

Definition derive (fs : FlowSemantics) (rs : ReturnSemantics) (realized_paths_at_open : nat)
    (sink_caps : Capabilities) (transform_reqs : TransformRequirements) : DataplaneShape :=
  if negb (realized_paths_at_open =? 1)%nat || negb (reqs_is_empty transform_reqs) then FrameRouter
  else
    match fs, rs with
    | ByteStream, Direct => if supports_stream sink_caps then Forwarder else FrameRouter
    | Datagram, (Direct | PacketDedup) =>
        if supports_datagram sink_caps then DatagramForwarder else FrameRouter
    | _, _ => FrameRouter
    end.

(** ** Candidate buckets (kernel/compiled.rs) *)

Record CompiledCandidate := mkCompiledCandidate {
  egress_idx : nat;
  cc_exit_id : string;
  cc_groups : list string
}.

Record CompiledCandidates := mkCompiledCandidates { by_semantics : list (list CompiledCandidate) }.

Definition semantics_index (s : FlowSemantics) : nat :=
  match s with ByteStream => 0 | Datagram => 1 | Message => 2 end.

(** An egress as candidate lookup sees it: its id and capabilities. *)
Definition candidate_bucket (egs : list (string * Capabilities)) (want : FlowSemantics)
  : list CompiledCandidate :=
  omap (fun '(idx, (eid, caps)) =>
          if negb (capability_matches_flow caps want) then None
          else Some (mkCompiledCandidate idx eid (groups caps)))
       (imap (fun i e => (i, e)) egs).

Definition from_egresses (egs : list (string * Capabilities)) : CompiledCandidates :=
  mkCompiledCandidates [candidate_bucket egs ByteStream; candidate_bucket egs Datagram;
                        candidate_bucket egs Message].

(** [&self.by_semantics[semantics_index(semantics)]]: the array has three buckets. *)
Definition bucket (c : CompiledCandidates) (s : FlowSemantics) : list CompiledCandidate :=
  by_semantics c !!! semantics_index s.

(** ** Candidate selection and order *)

Definition cand_matches (route_group target_sink : option string) (c : CompiledCandidate) : bool :=
  match target_sink with Some sink => bool_decide (cc_exit_id c = sink) | None => true end
  && match route_group with
     | Some g => existsb (fun g' => bool_decide (g' = g)) (cc_groups c)
     | None => true
     end.

Definition healthy_candidates (cc : CompiledCandidates) (unhealthy : gset string)
    (fs : FlowSemantics) (route_group target_sink : option string) : list string * list nat :=
  let b := bucket cc fs in
  let hs := List.filter (fun c => cand_matches route_group target_sink c
                                  && negb (bool_decide (cc_exit_id c ∈ unhealthy))) b in
  match hs with
  | [] =>
      if bool_decide (is_Some route_group) || bool_decide (is_Some target_sink) then ([], [])
      else let ms := List.filter (cand_matches route_group target_sink) b in
           (cc_exit_id <$> ms, egress_idx <$> ms)
  | _ => (cc_exit_id <$> hs, egress_idx <$> hs)
  end.

Definition map_candidate_order (order : list nat) (candidate_map : list nat) : list nat :=
  omap (fun idx => candidate_map !! idx) order.

(** The filter keeps the first occurrence of an index in range. *)
Fixpoint valid_order_from (seen : gset nat) (order : list nat) (egress_count : nat) : list nat :=
  match order with
  | [] => []
  | idx :: order =>
      if (idx <? egress_count)%nat && negb (bool_decide (idx ∈ seen))
      then idx :: valid_order_from ({[idx]} ∪ seen) order egress_count
      else valid_order_from seen order egress_count
  end.

Definition valid_order (order : list nat) (egress_count : nat) : list nat :=
  valid_order_from ∅ order egress_count.

(** [order.remove(pos); order.insert(0, idx)] *)
Definition move_to_front (pos : nat) (idx : nat) (order : list nat) : list nat :=
  idx :: take pos order ++ drop (S pos) order.

(** [order.iter().position(|idx| *idx == pinned)] *)
Fixpoint position (x : nat) (l : list nat) : option nat :=
  match l with
  | [] => None
  | y :: l => if (y =? x)%nat then Some 0%nat else S <$> position x l
  end.

(** [None] is the panic of an index out of range. [ids] are the egresses' ids,
    [score] is [score_for] of the scheduler at the moment, and [within pin alt]
    the comparison [(pin as f64) < (1.0 + tau) * (alt as f64)]. *)
Definition apply_pin_with_hysteresis (order : list nat) (pinned : nat) (ids : list string)
    (score : string -> Z) (within : Z -> Z -> bool) : option (list nat) :=
  match position pinned order with
  | None => Some order
  | Some pos =>
      if (length order <=? 1)%nat then Some (move_to_front pos pinned order)
      else
        match List.find (fun i => negb (i =? pinned)%nat) order with
        | None => Some order
        | Some best_alt_idx =>
            pin_id ← ids !! pinned;
            alt_id ← ids !! best_alt_idx;
            if within (score pin_id) (score alt_id)
            then Some (move_to_front pos pinned order) else Some order
        end
  end.
