(* ===== verification/Dispatch.v ===== *)
(** The frame dispatcher (crates/mesh-bus-core/src/kernel/dispatch.rs,
    dispatch_forwarder.rs, dispatch_observation.rs, dispatch_return.rs,
    source_activity.rs, forwarder.rs).

    Egresses and the scheduler are trait objects: records of functions on a world
    [W], which also holds the clock. A handler runs in the state monad on
    [Runtime]; [None] is a panic (an index out of range). [Arc]s of counters and
    of close guards are references into heaps, so what two owners share stays
    shared. A dispatch is one step: the tasks of a session are sequential (the
    port waits for each dispatch), and steps of other sessions come before or
    after it. The replicas of one frame run concurrently: [arrivals] gives the
    order in which they finish. *)
From S2P Require Import Prelude Numbers Endpoint StateM DispatchTypes.
Local Open Scope Z_scope.

(** ** Data *)

Record FlowCounters := mkFlowCounters { bytes_in : Z; bytes_out : Z }.
Definition counters_new : FlowCounters := mkFlowCounters 0 0.

Inductive Direction := Up | Down.

(** [counters.field(dir).fetch_add(n)]: the atomics wrap. *)
Definition fetch_add (dir : Direction) (n : Z) (c : FlowCounters) : FlowCounters :=
  match dir with
  | Up => mkFlowCounters (bytes_in c) (as_u64 (bytes_out c + n))
  | Down => mkFlowCounters (as_u64 (bytes_in c + n)) (bytes_out c)
  end.

Record FlowState := mkFlowState {
  fs_shape : DataplaneShape;
  sink_idx : nat;
  fs_exit_id : string;
  fs_counters : nat;
  fs_source_key : option string
}.

Record ExitRuntimeStats := mkStats {
  send_count : Z;
  success_count : Z;
  failure_count : Z;
  last_rtt_ms : Z;
  payload_bytes_total : Z
}.
Definition stats_default : ExitRuntimeStats := mkStats 0 0 0 0 0.

Record SourceActivityState := mkActivity { active_flows : Z; idle_since_ms : option Z }.
Definition activity_default : SourceActivityState := mkActivity 0 None.

Record ForwarderClose := mkForwarderClose {
  fc_flow_id : string;
  fc_session_id : string;
  fc_exit_id : string;
  fc_closed : bool;
  fc_shape : DataplaneShape
}.

Inductive ProbeOutcome := Handled | Fallback | Failed (e : ReturnEvent).
Inductive ForwarderOpenOutcome := FHandled | FFailed (e : ReturnEvent) | Unsupported.

Inductive CoreEventId := FlowOpened | FlowPathChanged | FlowClosed | PathIoError.

(** The fields of [EventPayloadInner] the dispatcher sets; the others keep their
    defaults. The close reason is kept as a value instead of its debug text. *)
Record EventPayload := mkPayload {
  flow_id_text : option string;
  session_id_text : option string;
  p_exit_id : option string;
  selected_exit : option string;
  p_route_group : option string;
  p_target_sink : option string;
  p_packet_id : option Z;
  p_payload_bytes : Z;
  p_rtt_ms : Z;
  p_success : option bool;
  close_reason : option CloseReason;
  terminal : bool;
  p_shape : option Z;
  at_ms : Z
}.

(** What a stream-poll task captured. *)
Record PollTask := mkPollTask { pt_frame : BusFrame; pt_channel : nat }.

Section Dispatch.
(** The world behind the trait objects, and their transports. *)
Context {W Tr : Type}.

Inductive OpenedForwarderTransport := Halves (send recv : Tr) | TcpSplice (splice : Tr).

Record OpenedForwarderStream := mkOpenedStream {
  os_local_endpoint : option Endpoint;
  os_rtt_ms : Z;
  os_transport : OpenedForwarderTransport
}.

Record OpenedForwarderDatagram := mkOpenedDatagram {
  od_local_endpoint : option Endpoint;
  od_rtt_ms : Z;
  od_transport : Tr * Tr
}.

(** Counters and close guard are shared with the flow's entries. *)
Record ForwarderStreamState := mkStreamState {
  ss_transport : OpenedForwarderTransport;
  ss_counters : nat;
  ss_close : nat
}.

Record ForwarderDatagramState := mkDatagramState {
  ds_transport : Tr * Tr;
  ds_counters : nat;
  ds_close : nat;
  fixed_target : Endpoint
}.

Record EgressPlugin := mkEgress {
  eg_id : string;
  capabilities : Capabilities;
  open_forwarder_stream : BusFrame -> W ->
    option (result OpenedForwarderStream DisconnectReason) * W;
  open_forwarder_datagram : BusFrame -> W ->
    option (result OpenedForwarderDatagram DisconnectReason) * W;
  send : BusFrame -> W -> ExitResult * W;
  poll : string -> W -> ReturnEvent * W;
  close : string -> W -> W
}.

Record SchedulerPlugin := mkScheduler {
  schedule : list string -> RankContext -> W -> ScheduleDecision * W;
  score_for : string -> list string -> RankContext -> W -> Z
}.

Record Runtime := mkRuntime {
  flow_counters : gmap string nat; (** [DashMap<FlowId, Arc<FlowCounters>>] *)
  counters_heap : list FlowCounters; (** the counters the [Arc]s point to *)
  flow_states : gmap string FlowState;
  source_activity : gmap string SourceActivityState;
  forwarder_streams : gmap string ForwarderStreamState;
  forwarder_datagrams : gmap string ForwarderDatagramState;
  probe_channels : gset string; (** sessions with a waiting probe sender *)
  flow_pins : gmap string nat;
  packet_returns : gset (string * Z);
  active_stream_polls : gmap (string * nat) PollTask;
  unhealthy : gset string; (** the health snapshot *)
  exit_stats : gmap string ExitRuntimeStats;
  shutdown : bool;
  closes : list ForwarderClose; (** the [ForwarderClose]s the [Arc]s point to *)
  world : W; (** the egresses, the scheduler, the clock *)
  open_channels : gset nat; (** return channels whose receiver is alive *)
  returned : list (nat * ReturnEvent); (** events sent, with their channel *)
  published : list (CoreEventId * EventPayload); (** observations published *)
  probed : list (string * ProbeOutcome) (** probe outcomes sent *)
}.

Definition on_flow_counters (f : gmap string nat -> gmap string nat) (s : Runtime) : Runtime :=
  mkRuntime (f (flow_counters s)) (counters_heap s) (flow_states s) (source_activity s)
    (forwarder_streams s) (forwarder_datagrams s) (probe_channels s) (flow_pins s)
    (packet_returns s) (active_stream_polls s) (unhealthy s) (exit_stats s) (shutdown s)
    (closes s) (world s) (open_channels s) (returned s) (published s) (probed s).

Definition on_counters_heap (f : list FlowCounters -> list FlowCounters) (s : Runtime) : Runtime :=
  mkRuntime (flow_counters s) (f (counters_heap s)) (flow_states s) (source_activity s)
    (forwarder_streams s) (forwarder_datagrams s) (probe_channels s) (flow_pins s)
    (packet_returns s) (active_stream_polls s) (unhealthy s) (exit_stats s) (shutdown s)
    (closes s) (world s) (open_channels s) (returned s) (published s) (probed s).

Definition on_flow_states (f : gmap string FlowState -> gmap string FlowState) (s : Runtime) : Runtime :=
  mkRuntime (flow_counters s) (counters_heap s) (f (flow_states s)) (source_activity s)
    (forwarder_streams s) (forwarder_datagrams s) (probe_channels s) (flow_pins s)
    (packet_returns s) (active_stream_polls s) (unhealthy s) (exit_stats s) (shutdown s)
    (closes s) (world s) (open_channels s) (returned s) (published s) (probed s).

Definition on_source_activity (f : gmap string SourceActivityState -> gmap string SourceActivityState) (s : Runtime) : Runtime :=
  mkRuntime (flow_counters s) (counters_heap s) (flow_states s) (f (source_activity s))
    (forwarder_streams s) (forwarder_datagrams s) (probe_channels s) (flow_pins s)
    (packet_returns s) (active_stream_polls s) (unhealthy s) (exit_stats s) (shutdown s)
    (closes s) (world s) (open_channels s) (returned s) (published s) (probed s).

Definition on_forwarder_streams (f : gmap string ForwarderStreamState -> gmap string ForwarderStreamState) (s : Runtime) : Runtime :=
  mkRuntime (flow_counters s) (counters_heap s) (flow_states s) (source_activity s) (f
    (forwarder_streams s)) (forwarder_datagrams s) (probe_channels s) (flow_pins s)
    (packet_returns s) (active_stream_polls s) (unhealthy s) (exit_stats s) (shutdown s)
    (closes s) (world s) (open_channels s) (returned s) (published s) (probed s).

Definition on_forwarder_datagrams (f : gmap string ForwarderDatagramState -> gmap string ForwarderDatagramState) (s : Runtime) : Runtime :=
  mkRuntime (flow_counters s) (counters_heap s) (flow_states s) (source_activity s)
    (forwarder_streams s) (f (forwarder_datagrams s)) (probe_channels s) (flow_pins s)
    (packet_returns s) (active_stream_polls s) (unhealthy s) (exit_stats s) (shutdown s)
    (closes s) (world s) (open_channels s) (returned s) (published s) (probed s).

Definition on_probe_channels (f : gset string -> gset string) (s : Runtime) : Runtime :=
  mkRuntime (flow_counters s) (counters_heap s) (flow_states s) (source_activity s)
    (forwarder_streams s) (forwarder_datagrams s) (f (probe_channels s)) (flow_pins s)
    (packet_returns s) (active_stream_polls s) (unhealthy s) (exit_stats s) (shutdown s)
    (closes s) (world s) (open_channels s) (returned s) (published s) (probed s).

Definition on_flow_pins (f : gmap string nat -> gmap string nat) (s : Runtime) : Runtime :=
  mkRuntime (flow_counters s) (counters_heap s) (flow_states s) (source_activity s)
    (forwarder_streams s) (forwarder_datagrams s) (probe_channels s) (f (flow_pins s))
    (packet_returns s) (active_stream_polls s) (unhealthy s) (exit_stats s) (shutdown s)
    (closes s) (world s) (open_channels s) (returned s) (published s) (probed s).

Definition on_packet_returns (f : gset (string * Z) -> gset (string * Z)) (s : Runtime) : Runtime :=
  mkRuntime (flow_counters s) (counters_heap s) (flow_states s) (source_activity s)
    (forwarder_streams s) (forwarder_datagrams s) (probe_channels s) (flow_pins s) (f
    (packet_returns s)) (active_stream_polls s) (unhealthy s) (exit_stats s) (shutdown s)
    (closes s) (world s) (open_channels s) (returned s) (published s) (probed s).

Definition on_active_stream_polls (f : gmap (string * nat) PollTask -> gmap (string * nat) PollTask) (s : Runtime) : Runtime :=
  mkRuntime (flow_counters s) (counters_heap s) (flow_states s) (source_activity s)
    (forwarder_streams s) (forwarder_datagrams s) (probe_channels s) (flow_pins s)
    (packet_returns s) (f (active_stream_polls s)) (unhealthy s) (exit_stats s) (shutdown s)
    (closes s) (world s) (open_channels s) (returned s) (published s) (probed s).

Definition on_unhealthy (f : gset string -> gset string) (s : Runtime) : Runtime :=
  mkRuntime (flow_counters s) (counters_heap s) (flow_states s) (source_activity s)
    (forwarder_streams s) (forwarder_datagrams s) (probe_channels s) (flow_pins s)
    (packet_returns s) (active_stream_polls s) (f (unhealthy s)) (exit_stats s) (shutdown s)
    (closes s) (world s) (open_channels s) (returned s) (published s) (probed s).

Definition on_exit_stats (f : gmap string ExitRuntimeStats -> gmap string ExitRuntimeStats) (s : Runtime) : Runtime :=
  mkRuntime (flow_counters s) (counters_heap s) (flow_states s) (source_activity s)
    (forwarder_streams s) (forwarder_datagrams s) (probe_channels s) (flow_pins s)
    (packet_returns s) (active_stream_polls s) (unhealthy s) (f (exit_stats s)) (shutdown s)
    (closes s) (world s) (open_channels s) (returned s) (published s) (probed s).

Definition on_shutdown (f : bool -> bool) (s : Runtime) : Runtime :=
  mkRuntime (flow_counters s) (counters_heap s) (flow_states s) (source_activity s)
    (forwarder_streams s) (forwarder_datagrams s) (probe_channels s) (flow_pins s)
    (packet_returns s) (active_stream_polls s) (unhealthy s) (exit_stats s) (f (shutdown s))
    (closes s) (world s) (open_channels s) (returned s) (published s) (probed s).

Definition on_closes (f : list ForwarderClose -> list ForwarderClose) (s : Runtime) : Runtime :=
  mkRuntime (flow_counters s) (counters_heap s) (flow_states s) (source_activity s)
    (forwarder_streams s) (forwarder_datagrams s) (probe_channels s) (flow_pins s)
    (packet_returns s) (active_stream_polls s) (unhealthy s) (exit_stats s) (shutdown s) (f
    (closes s)) (world s) (open_channels s) (returned s) (published s) (probed s).

Definition on_world (f : W -> W) (s : Runtime) : Runtime :=
  mkRuntime (flow_counters s) (counters_heap s) (flow_states s) (source_activity s)
    (forwarder_streams s) (forwarder_datagrams s) (probe_channels s) (flow_pins s)
    (packet_returns s) (active_stream_polls s) (unhealthy s) (exit_stats s) (shutdown s)
    (closes s) (f (world s)) (open_channels s) (returned s) (published s) (probed s).

Definition on_open_channels (f : gset nat -> gset nat) (s : Runtime) : Runtime :=
  mkRuntime (flow_counters s) (counters_heap s) (flow_states s) (source_activity s)
    (forwarder_streams s) (forwarder_datagrams s) (probe_channels s) (flow_pins s)
    (packet_returns s) (active_stream_polls s) (unhealthy s) (exit_stats s) (shutdown s)
    (closes s) (world s) (f (open_channels s)) (returned s) (published s) (probed s).

Definition on_returned (f : list (nat * ReturnEvent) -> list (nat * ReturnEvent)) (s : Runtime) : Runtime :=
  mkRuntime (flow_counters s) (counters_heap s) (flow_states s) (source_activity s)
    (forwarder_streams s) (forwarder_datagrams s) (probe_channels s) (flow_pins s)
    (packet_returns s) (active_stream_polls s) (unhealthy s) (exit_stats s) (shutdown s)
    (closes s) (world s) (open_channels s) (f (returned s)) (published s) (probed s).

Definition on_published (f : list (CoreEventId * EventPayload) -> list (CoreEventId * EventPayload)) (s : Runtime) : Runtime :=
  mkRuntime (flow_counters s) (counters_heap s) (flow_states s) (source_activity s)
    (forwarder_streams s) (forwarder_datagrams s) (probe_channels s) (flow_pins s)
    (packet_returns s) (active_stream_polls s) (unhealthy s) (exit_stats s) (shutdown s)
    (closes s) (world s) (open_channels s) (returned s) (f (published s)) (probed s).

Definition on_probed (f : list (string * ProbeOutcome) -> list (string * ProbeOutcome)) (s : Runtime) : Runtime :=
  mkRuntime (flow_counters s) (counters_heap s) (flow_states s) (source_activity s)
    (forwarder_streams s) (forwarder_datagrams s) (probe_channels s) (flow_pins s)
    (packet_returns s) (active_stream_polls s) (unhealthy s) (exit_stats s) (shutdown s)
    (closes s) (world s) (open_channels s) (returned s) (published s) (f (probed s)).

(** ** Primitives *)

Abbreviation RM := (M Runtime).

(** The parts of the runtime that never change. *)
Variable egresses : list EgressPlugin.
Variable scheduler : SchedulerPlugin.
Variable clock : W -> Z * W.
Variable within : Z -> Z -> bool.
Variable arrivals : list nat -> list nat.

Definition egress_infos : list (string * Capabilities) :=
  (fun e => (eg_id e, capabilities e)) <$> egresses.
Definition compiled_candidates : CompiledCandidates := from_egresses egress_infos.

Definition egress_at (idx : nat) : RM EgressPlugin := unwrap (egresses !! idx).

(** An action of the world. *)
Definition act {A} (f : W -> A * W) : RM A :=
  w ← gets world;
  let '(a, w') := f w in
  modify (on_world (fun _ => w'));; mret a.

(** [return_tx.send(event).await.is_ok()] *)
Definition tx_send (ch : nat) (ev : ReturnEvent) : RM bool :=
  alive ← gets (fun s => bool_decide (ch ∈ open_channels s));
  if alive : bool then modify (on_returned (fun l => l ++ [(ch, ev)]));; mret true
  else mret false.

(** [tx_send] where the code ignores its result. *)
Definition tx_send_ (ch : nat) (ev : ReturnEvent) : RM unit := tx_send ch ev;; skip.

Definition publish (id : CoreEventId) (p : EventPayload) : RM unit :=
  modify (on_published (fun l => l ++ [(id, p)])).

(** [if let Some((_, tx)) = probe_channels.remove(sid) { tx.send(o) }] *)
Definition probe_reply (sid : string) (o : ProbeOutcome) : RM unit :=
  waiting ← gets (fun s => bool_decide (sid ∈ probe_channels s));
  if waiting : bool then
    modify (on_probe_channels (fun c => c ∖ {[sid]}));; modify (on_probed (fun l => l ++ [(sid, o)]))
  else skip.

(** ** Source activity (source_activity.rs) *)

Definition U32_MAX : Z := 2 ^ 32 - 1.
Definition sat64 (z : Z) : Z := Z.min z (2 ^ 64 - 1).

Definition activity_snapshot (key : option string) : RM (option SourceActivity) :=
  gets (fun s => k ← key; e ← source_activity s !! k;
                 Some (mkSourceActivity (active_flows e) (idle_since_ms e))).

Definition mark_open (key : option string) : RM unit :=
  if_some key (fun k =>
    modify (on_source_activity (fun m =>
      let e := default activity_default (m !! k) in
      <[k := mkActivity (Z.min (active_flows e + 1) U32_MAX) None]> m))).

Definition close_activity (now : Z) (e : SourceActivityState) : SourceActivityState :=
  let n := Z.max (active_flows e - 1) 0 in
  mkActivity n (if n =? 0 then Some now else idle_since_ms e).

Definition mark_closed_in_table (k : string) (now : Z) : RM unit :=
  modify (on_source_activity (fun m =>
    <[k := close_activity now (default activity_default (m !! k))]> m)).

Definition mark_closed (key : option string) : RM unit :=
  if_some key (fun k => now ← act clock; mark_closed_in_table k now).

(** ** Observation (dispatch_observation.rs) *)

Definition remove_flow_runtime_state (fid : string) : RM (option FlowState) :=
  removed ← gets (fun s => flow_states s !! fid);
  modify (on_flow_states (delete fid));;
  if_some removed (fun st => mark_closed (fs_source_key st));;
  modify (on_flow_counters (delete fid));;
  modify (on_flow_pins (delete fid));;
  mret removed.

Definition update_exit_stats (exit_id : string) (rtt bytes : Z) (ok : bool) : RM unit :=
  modify (on_exit_stats (fun m =>
    let e := default stats_default (m !! exit_id) in
    <[exit_id := mkStats (sat64 (send_count e + 1))
                   (if ok then sat64 (success_count e + 1) else success_count e)
                   (if ok then failure_count e else sat64 (failure_count e + 1))
                   rtt (sat64 (payload_bytes_total e + bytes))]> m)).

Definition record_dispatch (r : ExitResult) (payload_bytes : Z) : RM unit :=
  act clock;;
  update_exit_stats (r_exit_id r) (r_rtt_ms r) payload_bytes (success r).

Definition payload_len (f : BusFrame) : Z := Z.of_nat (length (payload f)).

Definition publish_flow_opened (f : BusFrame) (r : ExitResult) (sh : DataplaneShape) : RM unit :=
  now ← act clock;
  publish FlowOpened
    (mkPayload (Some (flow_id f)) (Some (session_id f)) (Some (r_exit_id r)) (Some (r_exit_id r))
       (route_group f) (target_sink f) (Some (packet_id f)) (payload_len f) (r_rtt_ms r)
       (Some true) None false (Some (tag sh)) now).

Definition publish_path_io_error (f : BusFrame) (r : ExitResult) (is_terminal : bool) : RM unit :=
  now ← act clock;
  publish PathIoError
    (mkPayload (Some (flow_id f)) (Some (session_id f)) (Some (r_exit_id r)) (Some (r_exit_id r))
       (route_group f) (target_sink f) (Some (packet_id f)) (payload_len f) (r_rtt_ms r)
       (Some false) (match return_event r with Closed reason => Some reason | _ => None end)
       is_terminal None now).

Definition flow_closed_payload (fid sid exit_id : string) (reason : CloseReason)
    (sh : DataplaneShape) (now : Z) : EventPayload :=
  mkPayload (Some fid) (Some sid) (Some exit_id) (Some exit_id) None None None 0 0
    (Some (close_reason_is_success reason)) (Some reason) false (Some (tag sh)) now.

Definition close_flow_if_open (fid : string) (reason : CloseReason) (sid : string) : RM unit :=
  removed ← remove_flow_runtime_state fid;
  if_some removed (fun st =>
    now ← act clock;
    publish FlowClosed (flow_closed_payload fid sid (fs_exit_id st) reason (fs_shape st) now)).

(** ** Returns (dispatch_return.rs) *)

Definition send_return_with_packet_id (ch : nat) (f : BusFrame) (ev : ReturnEvent) (pid : Z)
  : RM bool :=
  if bool_decide (return_semantics f = Direct) then tx_send ch ev
  else
    known ← gets (fun s => bool_decide ((flow_id f, pid) ∈ packet_returns s));
    modify (on_packet_returns (fun p => {[(flow_id f, pid)]} ∪ p));;
    if known : bool then mret true else tx_send ch ev.

Definition send_return (ch : nat) (f : BusFrame) (ev : ReturnEvent) : RM bool :=
  send_return_with_packet_id ch f ev (packet_id f).

(** ** Close guards (forwarder.rs) *)

(** The [on_close] closure of a forwarder. *)
Definition forwarder_cleanup (fid : string) : RM unit :=
  removed ← gets (fun s => flow_states s !! fid);
  modify (on_flow_states (delete fid));;
  if_some removed (fun st => mark_closed (fs_source_key st));;
  modify (on_flow_counters (delete fid));;
  modify (on_flow_pins (delete fid)).

(** [ForwarderClose::close_once] of the guard [c] points to. *)
Definition close_once (c : nat) (reason : CloseReason) : RM unit :=
  guard ← gets (fun s => closes s !! c);
  if_some guard (fun fc =>
  if fc_closed fc then skip
  else
    modify (on_closes (alter (fun fc => mkForwarderClose (fc_flow_id fc) (fc_session_id fc)
                                          (fc_exit_id fc) true (fc_shape fc)) c));;
    forwarder_cleanup (fc_flow_id fc);;
    now ← act clock;
    publish FlowClosed (flow_closed_payload (fc_flow_id fc) (fc_session_id fc) (fc_exit_id fc)
                          reason (fc_shape fc) now)).

(** ** Forwarders (dispatch_forwarder.rs) *)

Definition is_open (f : BusFrame) : bool := bool_decide (kind f = KOpen).

Definition pin_flow (fid : string) (idx : nat) : RM unit :=
  modify (on_flow_pins (<[fid := idx]>)).

(** [flow_counters.entry(fid).or_insert_with(..).clone()] *)
Definition counters_entry (fid : string) : RM nat :=
  found ← gets (fun s => flow_counters s !! fid);
  match found with
  | Some c => mret c
  | None =>
      c ← gets (fun s => length (counters_heap s));
      modify (on_counters_heap (fun h => h ++ [counters_new]));;
      modify (on_flow_counters (<[fid := c]>));;
      mret c
  end.

(** The entries of an opened flow: counters, state, activity of its source. *)
Definition register_flow (f : BusFrame) (sh : DataplaneShape) (idx : nat) (exit_id : string)
  : RM nat :=
  c ← counters_entry (flow_id f);
  previous ← gets (fun s => flow_states s !! flow_id f);
  modify (on_flow_states (<[flow_id f := mkFlowState sh idx exit_id c (source_key f)]>));;
  match previous with None => mark_open (source_key f) | Some _ => skip end;;
  mret c.

Definition close_guard_new (f : BusFrame) (exit_id : string) (sh : DataplaneShape) : RM nat :=
  g ← gets (fun s => length (closes s));
  modify (on_closes (fun l => l ++ [mkForwarderClose (flow_id f) (session_id f) exit_id false sh]));;
  mret g.

Definition connected_result (eid : string) (ep : option Endpoint) (rtt : Z) : ExitResult :=
  mkExitResult eid true rtt ep (Connected eid ep rtt).

Definition refused_result (eid : string) (r : DisconnectReason) : ExitResult :=
  mkExitResult eid false 0 None (Closed (close_from_disconnect r)).

Definition try_open_forwarder_stream (f : BusFrame) (idx : nat) (sh : DataplaneShape) (ch : nat)
  : RM ForwarderOpenOutcome :=
  if negb (is_open f) || negb (bool_decide (sh = Forwarder)) then mret Unsupported
  else
    exit ← egress_at idx;
    opened ← act (open_forwarder_stream exit f);
    match opened with
    | Some (Ok o) =>
        let r := connected_result (eg_id exit) (os_local_endpoint o) (os_rtt_ms o) in
        record_dispatch r (payload_len f);;
        pin_flow (flow_id f) idx;;
        c ← register_flow f sh idx (r_exit_id r);
        g ← close_guard_new f (r_exit_id r) Forwarder;
        modify (on_forwarder_streams (<[session_id f := mkStreamState (os_transport o) c g]>));;
        publish_flow_opened f r sh;;
        send_return ch f (return_event r);;
        mret FHandled
    | Some (Err reason) =>
        let r := refused_result (eg_id exit) reason in
        record_dispatch r (payload_len f);;
        publish_path_io_error f r true;;
        mret (FFailed (return_event r))
    | None => mret Unsupported
    end.

Definition try_open_forwarder_datagram (f : BusFrame) (idx : nat) (sh : DataplaneShape)
  : RM ProbeOutcome :=
  if negb (is_open f) || negb (bool_decide (sh = DatagramForwarder)) then mret Fallback
  else
    exit ← egress_at idx;
    opened ← act (open_forwarder_datagram exit f);
    match opened with
    | Some (Ok o) =>
        let r := connected_result (eg_id exit) (od_local_endpoint o) (od_rtt_ms o) in
        record_dispatch r 0;;
        pin_flow (flow_id f) idx;;
        c ← register_flow f sh idx (r_exit_id r);
        g ← close_guard_new f (r_exit_id r) DatagramForwarder;
        modify (on_forwarder_datagrams
          (<[session_id f := mkDatagramState (od_transport o) c g (target f)]>));;
        publish_flow_opened f r sh;;
        probe_reply (session_id f) Handled;;
        mret Handled
    | Some (Err reason) =>
        let r := refused_result (eg_id exit) reason in
        record_dispatch r 0;;
        publish_path_io_error f r true;;
        mret (Failed (return_event r))
    | None => mret Fallback
    end.

Definition add_bytes (c : nat) (dir : Direction) (n : Z) : RM unit :=
  modify (on_counters_heap (alter (fetch_add dir n) c)).

Definition is_idle (ev : ReturnEvent) : bool := match ev with Idle => true | _ => false end.

Definition dispatch_forwarder_frame (f : BusFrame) (st : FlowState) (ch : nat) : RM unit :=
  exit ← egress_at (sink_idx st);
  r ← act (send exit f);
  record_dispatch r (payload_len f);;
  if success r then
    add_bytes (fs_counters st) Up (payload_len f);;
    if negb (is_idle (return_event r)) then send_return ch f (return_event r);; skip else skip
  else
    publish_path_io_error f r true;;
    let reason := match return_event r with
                  | Closed reason => reason
                  | _ => OtherClose "send failed"
                  end in
    close_flow_if_open (flow_id f) reason (session_id f);;
    tx_send_ ch (Closed reason).

(** ** Stream polls (dispatch.rs) *)

Definition abort_session_polls (sid : string) : RM unit :=
  modify (on_active_stream_polls (filter (fun '((s, _), _) => s <> sid))).

(** Register a poll task unless one runs for the session on this egress. *)
Definition ensure_stream_poll (f : BusFrame) (idx : nat) (ch : nat) : RM unit :=
  if negb (bool_decide (flow_semantics f = ByteStream))
     && negb (bool_decide (flow_semantics f = Datagram)) then skip
  else
    running ← gets (fun s => bool_decide (is_Some (active_stream_polls s !! (session_id f, idx))));
    if running : bool then skip
    else modify (on_active_stream_polls (<[(session_id f, idx) := mkPollTask f ch]>)).

Definition end_poll (key : string * nat) : RM unit :=
  modify (on_active_stream_polls (delete key)).

(** One round of the loop of the poll task [key]; nothing when it does not run. *)
Definition poll_step (key : string * nat) : RM unit :=
  task ← gets (fun s => active_stream_polls s !! key);
  if_some task (fun t =>
    let f := pt_frame t in
    stop ← gets shutdown;
    if stop : bool then end_poll key
    else
      exit ← egress_at (key.2);
      ev ← act (poll exit (key.1));
      match ev with
      | Idle => skip
      | Closed reason =>
          close_flow_if_open (flow_id f) reason (key.1);;
          tx_send_ (pt_channel t) (Closed reason);;
          end_poll key
      | ev =>
          let pid := match ev with
                     | Data sq _ => if bool_decide (flow_semantics f = Datagram) then sq
                                    else packet_id f
                     | _ => packet_id f
                     end in
          ok ← send_return_with_packet_id (pt_channel t) f ev pid;
          if ok : bool then skip else end_poll key
      end).

(** ** Dispatch *)

Definition open_return_event (f : BusFrame) (r : ExitResult) : ReturnEvent :=
  if is_open f then Connected (r_exit_id r) (r_local_endpoint r) (r_rtt_ms r)
  else return_event r.

(** The bookkeeping of a frame an egress has taken. *)
Definition frame_sent (f : BusFrame) (sh : DataplaneShape) (idx : nat) (r : ExitResult) (ch : nat)
  : RM unit :=
  let ev := open_return_event f r in
  pin_flow (flow_id f) idx;;
  (if is_open f then
     register_flow f sh idx (r_exit_id r);;
     publish_flow_opened f r sh
   else
     c ← gets (fun s => flow_counters s !! flow_id f);
     if_some c (fun c => add_bytes c Up (payload_len f)));;
  ensure_stream_poll f idx ch;;
  if negb (is_idle ev) || is_open f then send_return ch f ev;; skip else skip.

Definition failed_return (last_failure : option ReturnEvent) : ReturnEvent :=
  match last_failure with
  | Some (Closed reason) => Closed reason
  | _ => Closed NoUsableExit
  end.

Definition no_usable : ReturnEvent := Closed NoUsableExit.

(** Whether the walk over the candidates goes on, with the last failure. *)
Inductive Walk := Done | Next (last_failure : option ReturnEvent).

(** The frame sent as a frame to candidate [idx]. *)
Definition try_send (f : BusFrame) (sh : DataplaneShape) (exit : EgressPlugin) (idx : nat)
    (ch : nat) : RM Walk :=
  r ← act (send exit f);
  record_dispatch r (payload_len f);;
  if success r then frame_sent f sh idx r ch;; mret Done
  else publish_path_io_error f r true;; mret (Next (Some (return_event r))).

(** One candidate of [dispatch_ordered]; [f] has its id in the path trace. *)
Definition try_candidate (f : BusFrame) (idx : nat) (exit : EgressPlugin) (ch : nat) : RM Walk :=
  let sh := if is_open f then
              derive (flow_semantics f) (return_semantics f) 1 (capabilities exit)
                (mkTransformRequirements [])
            else FrameRouter in
  if is_open f && bool_decide (sh = Forwarder) then
    o ← try_open_forwarder_stream f idx sh ch;
    match o with
    | FHandled => mret Done
    | FFailed ev => mret (Next (Some ev))
    | Unsupported => try_send f sh exit idx ch
    end
  else if is_open f && bool_decide (sh = DatagramForwarder) then
    o ← try_open_forwarder_datagram f idx sh;
    match o with
    | Handled => mret Done
    | Fallback => probe_reply (session_id f) Fallback;; mret Done
    | Failed ev => mret (Next (Some ev))
    end
  else try_send f sh exit idx ch.

Fixpoint dispatch_loop (f : BusFrame) (order : list nat) (last_failure : option ReturnEvent)
    (ch : nat) : RM Walk :=
  match order with
  | [] => mret (Next last_failure)
  | idx :: order =>
      exit ← egress_at idx;
      let f := push_trace f (eg_id exit) in
      w ← try_candidate f idx exit ch;
      match w with Done => mret Done | Next lf => dispatch_loop f order lf ch end
  end.

Definition dispatch_ordered (f : BusFrame) (order : list nat) (ch : nat) : RM unit :=
  w ← dispatch_loop f (valid_order order (length egresses)) None ch;
  match w with
  | Done => skip
  | Next last_failure =>
      probe_reply (session_id f) (Failed (default no_usable last_failure));;
      tx_send_ ch (failed_return last_failure)
  end.

(** One replica's result as it arrives; [ret] tells whether one has been returned. *)
Definition replica_done (f : BusFrame) (ch : nat) (ret : bool) (idx : nat) : RM bool :=
  exit ← egress_at idx;
  r ← act (send exit (push_trace f (eg_id exit)));
  record_dispatch r (payload_len f);;
  if success r then
    ensure_stream_poll f idx ch;;
    (if ret then skip
     else pin_flow (flow_id f) idx;;
          if negb (is_idle (return_event r)) || is_open f
          then send_return ch f (return_event r);; skip else skip);;
    mret true
  else publish_path_io_error f r false;; mret ret.

Fixpoint replicas_done (f : BusFrame) (ch : nat) (ret : bool) (idxs : list nat) : RM bool :=
  match idxs with
  | [] => mret ret
  | idx :: idxs => ret ← replica_done f ch ret idx; replicas_done f ch ret idxs
  end.

Definition dispatch_replicate (f : BusFrame) (order : list nat) (ch : nat) : RM unit :=
  let order := valid_order order (length egresses) in
  match order with
  | [] => tx_send_ ch no_usable
  | _ =>
      ret ← replicas_done f ch false (arrivals order);
      if ret : bool then skip else tx_send_ ch no_usable
  end.

Definition schedule_frame (f : BusFrame) (candidates : list string) (ctx : RankContext)
  : RM ScheduleDecision :=
  match flow_semantics f, schedule_hint f with
  | Datagram, FanOut k => mret (Replicate (seq 0 (Nat.min k (length candidates))))
  | _, _ => act (schedule scheduler candidates ctx)
  end.

(** Move the pinned egress to the front while it is healthy and good enough. *)
Definition pin_order (f : BusFrame) (order : list nat) (candidates : list string)
    (ctx : RankContext) : RM (list nat) :=
  pin ← gets (fun s => flow_pins s !! flow_id f);
  match pin with
  | None => mret order
  | Some pinned =>
      exit ← egress_at pinned;
      bad ← gets (fun s => bool_decide (eg_id exit ∈ unhealthy s));
      if bad : bool then mret order
      else
        w ← gets world;
        unwrap (apply_pin_with_hysteresis order pinned (eg_id <$> egresses)
                  (fun id => score_for scheduler id candidates ctx w) within)
  end.

Definition dispatch_close (f : BusFrame) (ch : nat) : RM unit :=
  pin ← gets (fun s => flow_pins s !! flow_id f);
  modify (on_flow_pins (delete (flow_id f)));;
  if_some pin (fun idx =>
    exit ← egress_at idx;
    act (fun w => (tt, close exit (session_id f) w)));;
  abort_session_polls (session_id f);;
  modify (on_forwarder_datagrams (delete (session_id f)));;
  modify (on_forwarder_streams (delete (session_id f)));;
  close_flow_if_open (flow_id f) SessionClosed (session_id f);;
  modify (on_packet_returns (filter (fun p => p.1 <> flow_id f)));;
  tx_send_ ch (Closed SessionClosed).

Definition dispatch_route (f : BusFrame) (ch : nat) : RM unit :=
  bad ← gets unhealthy;
  let '(candidates, candidate_map) :=
    healthy_candidates compiled_candidates bad (flow_semantics f) (route_group f) (target_sink f) in
  activity ← activity_snapshot (source_key f);
  let ctx := rank_context f activity in
  decision ← schedule_frame f candidates ctx;
  match decision with
  | Ordered order =>
      order ← pin_order f (map_candidate_order order candidate_map) candidates ctx;
      dispatch_ordered f order ch
  | Replicate order =>
      order ← pin_order f (map_candidate_order order candidate_map) candidates ctx;
      dispatch_replicate (set_return f PacketDedup) order ch
  end.

Definition dispatch (f : BusFrame) (ch : nat) : RM unit :=
  if ttl f =? 0 then tx_send_ ch (Closed TtlExpired)
  else
    let f := set_ttl f (ttl f - 1) in
    match kind f with
    | KClose | KCancel => dispatch_close f ch
    | _ =>
        st ← gets (fun s => flow_states s !! flow_id f);
        match st with
        | Some st =>
            if negb (is_open f) && bool_decide (fs_shape st = Forwarder)
            then dispatch_forwarder_frame f st ch
            else dispatch_route f ch
        | None => dispatch_route f ch
        end
    end.
(** ** Histories of the runtime *)

(** What can happen to a runtime: a dispatch, a round of a poll task, a close
    guard fired by a session, bytes counted by a session, and the environment
    (health snapshots, receivers dropped or created, probes armed, shutdown). *)
Inductive Step :=
| SDispatch (f : BusFrame) (ch : nat)
| SPoll (key : string * nat)
| SCloseOnce (guard : nat) (reason : CloseReason)
| SAddBytes (c : nat) (dir : Direction) (n : Z)
| SHealth (bad : gset string)
| SChannels (alive : gset nat)
| SProbe (sid : string)
| SShutdown.

Definition run_step (st : Step) : RM unit :=
  match st with
  | SDispatch f ch => dispatch f ch
  | SPoll key => poll_step key
  | SCloseOnce g reason => close_once g reason
  | SAddBytes c dir n => add_bytes c dir n
  | SHealth bad => modify (on_unhealthy (fun _ => bad))
  | SChannels alive => modify (on_open_channels (fun _ => alive))
  | SProbe sid => modify (on_probe_channels (fun p => {[sid]} ∪ p))
  | SShutdown => modify (on_shutdown (fun _ => true))
  end.

Fixpoint run_steps (sts : list Step) : RM unit :=
  match sts with
  | [] => skip
  | st :: sts => run_step st;; run_steps sts
  end.

(** The runtime as [build] makes it. *)
Definition runtime_new (w : W) (alive : gset nat) : Runtime :=
  mkRuntime ∅ [] ∅ ∅ ∅ ∅ ∅ ∅ ∅ ∅ ∅ ∅ false [] w alive [] [] [].
End Dispatch.
