(* ===== verification/DispatchFacts.v ===== *)
(** What the dispatcher guarantees: it never panics and keeps its tables
    consistent whatever the egresses and the scheduler do, it only tries eligible
    egresses, each once, and an opened stream is answered exactly once. *)
From Stdlib Require Import Sorted.
From S2P Require Import Prelude Numbers Endpoint StateM DispatchTypes Dispatch.
Local Open Scope Z_scope.

(** ** Candidate order *)

Lemma valid_order_from_spec seen order n :
  (forall i, i ∈ valid_order_from seen order n <-> i ∈ order /\ (i < n)%nat /\ i ∉ seen)
  /\ NoDup (valid_order_from seen order n) /\ sublist (valid_order_from seen order n) order.
Proof.
  revert seen. induction order as [|x order IH]; intros seen; simpl.
  { split_and!; [set_solver|constructor|constructor]. }
  destruct (Nat.ltb_spec x n) as [Hx|Hx]; simpl; [destruct (decide (x ∈ seen)) as [Hs|Hs]|].
  - rewrite bool_decide_true by done. simpl. destruct (IH seen) as (H1 & H2 & H3).
    split_and!; [|done|by constructor]. intros i. rewrite H1. set_solver.
  - rewrite bool_decide_false by done. simpl. destruct (IH ({[x]} ∪ seen)) as (H1 & H2 & H3).
    split_and!.
    + intros i. rewrite !elem_of_cons, H1, not_elem_of_union, not_elem_of_singleton.
      destruct (decide (i = x)) as [->|]; naive_solver.
    + constructor; [|done]. rewrite H1. set_solver.
    + by constructor.
  - destruct (IH seen) as (H1 & H2 & H3). split_and!; [|done|by constructor].
    intros i. rewrite H1, elem_of_cons. split; [tauto|]. intros ([->|] & ? & ?); [lia|done].
Qed.

Lemma valid_order_in_range order n : Forall (fun i => (i < n)%nat) (valid_order order n).
Proof.
  apply Forall_forall. intros i Hi. apply (valid_order_from_spec ∅ order n) in Hi. tauto.
Qed.

Lemma position_Some x l pos : position x l = Some pos -> l !! pos = Some x.
Proof.
  revert pos. induction l as [|y l IH]; intros pos; simpl; [done|].
  destruct (Nat.eqb_spec y x) as [->|]; [by intros [= <-]|].
  destruct (position x l) as [p|]; [|done]. intros [= <-]. by apply IH.
Qed.

Lemma move_to_front_perm pos x l : l !! pos = Some x -> move_to_front pos x l ≡ₚ l.
Proof.
  intros Hl. unfold move_to_front. rewrite <- (take_drop_middle l pos x Hl) at 3.
  by rewrite Permutation_middle.
Qed.

(** Pinning reorders, and does not index out of range. *)
Lemma apply_pin_perm order pinned ids score within :
  Forall (fun i => (i < length ids)%nat) order ->
  exists order', apply_pin_with_hysteresis order pinned ids score within = Some order'
    /\ order' ≡ₚ order.
Proof.
  intros Ho. unfold apply_pin_with_hysteresis.
  destruct (position pinned order) as [pos|] eqn:E; [|by eauto].
  apply position_Some in E. assert (Hm := move_to_front_perm pos pinned order E).
  case_match; [by eauto|]. destruct (List.find _ order) as [alt|] eqn:Ef; [|by eauto].
  apply List.find_some in Ef as [Ha _]. rewrite Forall_forall in Ho.
  destruct (lookup_lt_is_Some_2 ids pinned) as [p ->]; [apply Ho; by eapply list_elem_of_lookup_2|].
  destruct (lookup_lt_is_Some_2 ids alt) as [a ->]; [apply Ho; by apply list_elem_of_In|].
  simpl. case_match; by eauto.
Qed.

(** ** The candidate buckets are the scan of the egresses *)

Lemma bucket_compiled egs want : bucket (from_egresses egs) want = candidate_bucket egs want.
Proof. by destruct want. Qed.

Lemma candidate_bucket_elem egs want c :
  c ∈ candidate_bucket egs want <->
  exists caps, egs !! egress_idx c = Some (cc_exit_id c, caps)
    /\ capability_matches_flow caps want = true /\ cc_groups c = groups caps.
Proof.
  unfold candidate_bucket. rewrite list_elem_of_omap. split.
  - intros ([i [eid caps]] & Hi & Hc). apply elem_of_lookup_imap in Hi as (j & x & [= <- <-] & Hx).
    destruct (capability_matches_flow caps want) eqn:E; [|done]. injection Hc as <-. simpl. by eauto.
  - intros (caps & Hl & Hm & Hg). exists (egress_idx c, (cc_exit_id c, caps)). split.
    + apply elem_of_lookup_imap. by eauto.
    + rewrite Hm. simpl. rewrite <- Hg. by destruct c.
Qed.

(** Candidates, with the egress each index of the map points to. *)
Definition eligible (egs : list (string * Capabilities)) (fs : FlowSemantics)
    (rg ts : option string) (idx : nat) (eid : string) : Prop :=
  exists caps, egs !! idx = Some (eid, caps) /\ capability_matches_flow caps fs = true
    /\ (forall sink, ts = Some sink -> eid = sink) /\ (forall g, rg = Some g -> g ∈ groups caps).

Lemma cand_matches_eligible egs fs rg ts c :
  c ∈ candidate_bucket egs fs /\ cand_matches rg ts c = true
  <-> c ∈ candidate_bucket egs fs /\ eligible egs fs rg ts (egress_idx c) (cc_exit_id c).
Proof.
  split; intros [Hc Hm]; (split; [done|]).
  - apply candidate_bucket_elem in Hc as (caps & Hl & Hcap & Hg). exists caps.
    apply andb_true_iff in Hm as [Hs Hr]. rewrite Hg in Hr. split_and!; [done|done| |].
    + intros sink ->. by apply bool_decide_eq_true in Hs.
    + intros g ->. apply existsb_exists in Hr as (g' & Hin & He). apply bool_decide_eq_true in He as ->.
      by apply list_elem_of_In.
  - apply candidate_bucket_elem in Hc as (caps & Hl & Hcap & Hg).
    destruct Hm as (caps' & Hl' & _ & Hs & Hr). rewrite Hl in Hl'. injection Hl' as <-.
    apply andb_true_iff. split.
    + destruct ts as [sink|]; [|done]. apply bool_decide_eq_true. by apply Hs.
    + destruct rg as [g|]; [|done]. rewrite Hg. apply existsb_exists. exists g.
      split; [by apply list_elem_of_In, Hr|by apply bool_decide_eq_true].
Qed.

Lemma filter_elem {A} (p : A -> bool) l x : x ∈ List.filter p l <-> x ∈ l /\ p x = true.
Proof. rewrite !list_elem_of_In. apply filter_In. Qed.

(** Candidates keep the order of the egresses. *)
Lemma bucket_sorted_from k egs want :
  StronglySorted lt (egress_idx <$> omap (fun '(idx, (eid, caps)) =>
     if negb (capability_matches_flow caps want) then None
     else Some (mkCompiledCandidate idx eid (groups caps))) (imap (fun i e => ((k + i)%nat, e)) egs))
  /\ Forall (le k) (egress_idx <$> omap (fun '(idx, (eid, caps)) =>
     if negb (capability_matches_flow caps want) then None
     else Some (mkCompiledCandidate idx eid (groups caps))) (imap (fun i e => ((k + i)%nat, e)) egs)).
Proof.
  revert k. induction egs as [|[eid caps] egs IH]; intros k; [split; constructor|].
  destruct (IH (S k)) as [H1 H2]. cbn [imap].
  assert (E : imap ((fun i e => ((k + i)%nat, e)) ∘ S) egs = imap (fun i e => ((S k + i)%nat, e)) egs).
  { apply imap_ext. intros i x _. simpl. f_equal. lia. }
  rewrite E, Nat.add_0_r. cbn [omap list_omap].
  assert (Hle : forall l, Forall (le (S k)) l -> Forall (le k) l)
    by (intros l Hl; eapply Forall_impl; [exact Hl|simpl; lia]).
  destruct (capability_matches_flow caps want); simpl; [|split; [done|by apply Hle]].
  split; constructor; [done| |done|by apply Hle].
  eapply Forall_impl; [exact H2|]. simpl. lia.
Qed.

Lemma bucket_sorted egs want : StronglySorted lt (egress_idx <$> candidate_bucket egs want).
Proof. apply (bucket_sorted_from 0). Qed.

Lemma filter_sorted p (cs : list CompiledCandidate) :
  StronglySorted lt (egress_idx <$> cs) -> StronglySorted lt (egress_idx <$> List.filter p cs).
Proof.
  induction cs as [|c cs IH]; simpl; [done|]. intros Hs. apply StronglySorted_inv in Hs as [Hs Hf].
  destruct (p c); simpl; [|by apply IH]. constructor; [by apply IH|].
  rewrite Forall_forall in Hf |- *. intros i Hi. apply Hf.
  apply list_elem_of_fmap in Hi as (d & -> & Hd). apply filter_elem in Hd as [Hd _].
  by apply list_elem_of_fmap_2.
Qed.

(** What [healthy_candidates] returns, as a list of candidates. *)
Lemma healthy_candidates_list egs bad fs rg ts :
  exists cs, healthy_candidates (from_egresses egs) bad fs rg ts
      = (cc_exit_id <$> cs, egress_idx <$> cs)
    /\ StronglySorted lt (egress_idx <$> cs)
    /\ (forall c, c ∈ cs -> c ∈ candidate_bucket egs fs /\ cand_matches rg ts c = true)
    /\ ((exists c, c ∈ candidate_bucket egs fs /\ cand_matches rg ts c = true /\ cc_exit_id c ∉ bad)
        /\ (forall c, c ∈ cs <-> (c ∈ candidate_bucket egs fs /\ cand_matches rg ts c = true)
                                  /\ cc_exit_id c ∉ bad)
        \/ (forall c, c ∈ candidate_bucket egs fs -> cand_matches rg ts c = true -> cc_exit_id c ∈ bad)
        /\ ((is_Some rg \/ is_Some ts) /\ cs = []
            \/ rg = None /\ ts = None
               /\ forall c, c ∈ cs <-> c ∈ candidate_bucket egs fs /\ cand_matches rg ts c = true)).
Proof.
  unfold healthy_candidates. rewrite bucket_compiled.
  set (b := candidate_bucket egs fs). set (p := fun c => _ && _).
  assert (Hp : forall c, c ∈ List.filter p b
                <-> (c ∈ b /\ cand_matches rg ts c = true) /\ cc_exit_id c ∉ bad).
  { intros c. rewrite filter_elem. unfold p. rewrite andb_true_iff, negb_true_iff, bool_decide_eq_false.
    tauto. }
  destruct (List.filter p b) as [|h hs] eqn:E.
  - assert (Hbad : forall c, c ∈ b -> cand_matches rg ts c = true -> cc_exit_id c ∈ bad).
    { intros c Hc Hm. destruct (decide (cc_exit_id c ∈ bad)); [done|].
      assert (c ∈ ([] : list CompiledCandidate)) by (by apply Hp). set_solver. }
    destruct (bool_decide (is_Some rg) || bool_decide (is_Some ts)) eqn:Eo.
    + exists []. split_and!; [done|constructor|set_solver|]. right. split; [done|]. left.
      apply orb_true_iff in Eo. rewrite !bool_decide_eq_true in Eo. done.
    + apply orb_false_iff in Eo as [E1 E2]. apply bool_decide_eq_false in E1, E2. apply eq_None_not_Some in E1, E2.
      exists (List.filter (cand_matches rg ts) b).
      split_and!; [done|by apply filter_sorted, bucket_sorted|by intros c; rewrite filter_elem|].
      right. split; [done|]. right. split_and!; [done|done|]. intros c. apply filter_elem.
  - exists (h :: hs). split_and!; [done|rewrite <- E; by apply filter_sorted, bucket_sorted| |].
    + intros c Hc. by apply Hp in Hc as [? _].
    + left. split; [|done]. exists h. destruct (Hp h) as [Hh _]. destruct Hh as [[? ?] ?]; [left|done].
Qed.

Lemma healthy_candidates_range egs bad fs rg ts ids m :
  healthy_candidates (from_egresses egs) bad fs rg ts = (ids, m) ->
  Forall (fun i => (i < length egs)%nat) m.
Proof.
  intros E. destruct (healthy_candidates_list egs bad fs rg ts) as (cs & E' & _ & Hcs & _).
  rewrite E in E'. injection E' as _ ->. apply Forall_fmap, Forall_forall. intros c Hc. simpl.
  apply Hcs in Hc as [Hc _]. apply candidate_bucket_elem in Hc as (caps & Hl & _).
  by eapply lookup_lt_Some.
Qed.

(** ** The tables of a runtime *)

Section Invariant.
Context {W Tr : Type}.
Variable egresses : list (@EgressPlugin W Tr).
Variable scheduler : @SchedulerPlugin W.
Variable clock : W -> Z * W.
Variable within : Z -> Z -> bool.
Variable arrivals : list nat -> list nat.

(** The flows that occur, fewer than a [u32] can count, and the source of each. *)
Variable flows : gset string.
Variable key_of : string -> option string.
Hypothesis flows_few : Z.of_nat (size flows) <= U32_MAX.
Hypothesis arrivals_perm : forall l, arrivals l ≡ₚ l.

Abbreviation RT := (@Runtime W Tr).

Definition of_source (k : string) (e : string * FlowState) : Prop := fs_source_key e.2 = Some k.

#[local] Instance of_source_dec k e : Decision (of_source k e).
Proof. unfold of_source. apply _. Defined.

(** How many open flows a source has, and how many the activity table says. *)
Definition open_flows (fs : gmap string FlowState) (k : string) : nat := size (filter (of_source k) fs).
Definition counted (sa : gmap string SourceActivityState) (k : string) : Z :=
  active_flows (default activity_default (sa !! k)).

Record Tables := mkTables {
  t_pins : gmap string nat;
  t_states : gmap string FlowState;
  t_counters : gmap string nat;
  t_heap : nat;
  t_activity : gmap string SourceActivityState;
  t_polls : gmap (string * nat) PollTask
}.

Definition tables (s : RT) : Tables :=
  mkTables (flow_pins s) (flow_states s) (flow_counters s) (length (counters_heap s))
    (source_activity s) (active_stream_polls s).

(** Indices are in range; a flow's state is for a known flow and its source, and
    its counters are the entry of the counter table, which no other flow shares;
    the activity table counts the open flows of each source. *)
Record tables_ok (t : Tables) : Prop := mkTablesOk {
  pins_ok : map_Forall (fun _ idx => (idx < length egresses)%nat) (t_pins t);
  states_ok : map_Forall (fun fid st => (sink_idx st < length egresses)%nat
                /\ fid ∈ flows /\ fs_source_key st = key_of fid) (t_states t);
  shared_ok : map_Forall (fun fid st => t_counters t !! fid = Some (fs_counters st)) (t_states t);
  counters_ok : map_Forall (fun _ c => (c < t_heap t)%nat) (t_counters t);
  counters_own : forall f g c, t_counters t !! f = Some c -> t_counters t !! g = Some c -> f = g;
  activity_ok : forall k, counted (t_activity t) k = Z.of_nat (open_flows (t_states t) k);
  polls_ok : map_Forall (fun key _ => (key.2 < length egresses)%nat) (t_polls t)
}.

Definition rt_ok (s : RT) : Prop := tables_ok (tables s).

(** Frames of the flows, with the flow's source. *)
Definition frame_known (f : BusFrame) : Prop := flow_id f ∈ flows /\ source_key f = key_of (flow_id f).

(** ** Counting *)

Lemma open_flows_insert fs fid st k :
  fs !! fid = None ->
  open_flows (<[fid := st]> fs) k
  = (open_flows fs k + if bool_decide (fs_source_key st = Some k) then 1 else 0)%nat.
Proof.
  intros Hn. unfold open_flows. case_bool_decide as Hk.
  - rewrite map_filter_insert_True by done. rewrite map_size_insert_None; [lia|].
    apply map_lookup_filter_None. by left.
  - rewrite map_filter_insert_False by done. rewrite delete_id by done. lia.
Qed.

Lemma open_flows_delete fs fid st k :
  fs !! fid = Some st ->
  open_flows fs k
  = (open_flows (delete fid fs) k + if bool_decide (fs_source_key st = Some k) then 1 else 0)%nat.
Proof.
  intros Hs. rewrite <- (insert_delete_id fs fid st Hs) at 1. apply open_flows_insert.
  apply lookup_delete_eq.
Qed.

Lemma open_flows_reinsert fs fid st st' k :
  fs !! fid = Some st -> fs_source_key st = fs_source_key st' ->
  open_flows (<[fid := st']> fs) k = open_flows fs k.
Proof.
  intros Hs Hk. rewrite (open_flows_delete fs fid st k Hs), <- insert_delete_eq.
  rewrite open_flows_insert by apply lookup_delete_eq. by rewrite Hk.
Qed.

Lemma open_flows_few fs k :
  (forall fid st, fs !! fid = Some st -> fid ∈ flows) -> Z.of_nat (open_flows fs k) <= U32_MAX.
Proof.
  intros H. etrans; [|apply flows_few]. apply inj_le. unfold open_flows.
  etrans; [apply map_subseteq_size, map_filter_subseteq|].
  rewrite <- (size_dom (D := gset string)). apply subseteq_size. intros fid Hf.
  apply elem_of_dom in Hf as [st Hs]. by eapply H.
Qed.

(** What [mark_open] and [mark_closed_in_table] do to the table. *)
Definition opened (key : option string) (sa : gmap string SourceActivityState)
  : gmap string SourceActivityState :=
  match key with
  | Some k => <[k := mkActivity (Z.min (active_flows (default activity_default (sa !! k)) + 1) U32_MAX)
                       None]> sa
  | None => sa
  end.

Definition ended (key : option string) (now : Z) (sa : gmap string SourceActivityState)
  : gmap string SourceActivityState :=
  match key with
  | Some k => <[k := close_activity now (default activity_default (sa !! k))]> sa
  | None => sa
  end.

Lemma counted_insert sa k e k' :
  counted (<[k := e]> sa) k' = if bool_decide (k = k') then active_flows e else counted sa k'.
Proof. unfold counted. case_bool_decide; subst; by simplify_map_eq. Qed.

Lemma counted_opened key sa k :
  (forall k', counted sa k' + (if bool_decide (key = Some k') then 1 else 0) <= U32_MAX) ->
  counted (opened key sa) k = counted sa k + if bool_decide (key = Some k) then 1 else 0.
Proof.
  intros Hk. destruct key as [k0|]; simpl; [|lia]. rewrite counted_insert. specialize (Hk k0).
  rewrite bool_decide_true in Hk by done. unfold counted in Hk. simpl.
  destruct (decide (k0 = k)) as [->|Hne].
  - rewrite !bool_decide_true by done. unfold counted. lia.
  - rewrite !bool_decide_false by congruence. lia.
Qed.

Lemma counted_ended key now sa k :
  (key = Some k -> 1 <= counted sa k) ->
  counted (ended key now sa) k = counted sa k - if bool_decide (key = Some k) then 1 else 0.
Proof.
  intros Hk. destruct key as [k0|]; simpl; [|lia]. rewrite counted_insert.
  destruct (decide (k0 = k)) as [->|Hne].
  - rewrite !bool_decide_true by done. specialize (Hk eq_refl). unfold counted, close_activity in *.
    simpl. lia.
  - rewrite !bool_decide_false by congruence. lia.
Qed.

(** ** Steps on the tables *)

Lemma tables_pin t fid idx :
  tables_ok t -> (idx < length egresses)%nat ->
  tables_ok (mkTables (<[fid := idx]> (t_pins t)) (t_states t) (t_counters t) (t_heap t)
               (t_activity t) (t_polls t)).
Proof. intros [] Hi. split; simpl; try done. by apply map_Forall_insert_2. Qed.

Lemma tables_poll t key task :
  tables_ok t -> (key.2 < length egresses)%nat ->
  tables_ok (mkTables (t_pins t) (t_states t) (t_counters t) (t_heap t) (t_activity t)
               (<[key := task]> (t_polls t))).
Proof. intros [] Hi. split; simpl; try done. by apply map_Forall_insert_2. Qed.

Lemma tables_counters t fid :
  tables_ok t -> t_counters t !! fid = None ->
  tables_ok (mkTables (t_pins t) (t_states t) (<[fid := t_heap t]> (t_counters t)) (S (t_heap t))
               (t_activity t) (t_polls t)).
Proof.
  intros [Hp Hst Hsh Hc Hown Ha Hpl] Hn. split; simpl; try done.
  - intros f st Hs. destruct (decide (f = fid)) as [->|Hne]; [|rewrite lookup_insert_ne by done; by apply Hsh].
    rewrite (Hsh _ _ Hs) in Hn. done.
  - apply map_Forall_insert_2; [lia|]. intros f c E. specialize (Hc f c E). simpl in Hc. lia.
  - intros f g c Hf Hg.
    destruct (decide (f = fid)) as [->|], (decide (g = fid)) as [->|]; simplify_map_eq; try done.
    + specialize (Hc g _ Hg). simpl in Hc. lia.
    + specialize (Hc f _ Hf). simpl in Hc. lia.
    + by eapply Hown.
Qed.

Lemma tables_register t fid st :
  tables_ok t -> fid ∈ flows -> fs_source_key st = key_of fid -> (sink_idx st < length egresses)%nat ->
  t_counters t !! fid = Some (fs_counters st) ->
  tables_ok (mkTables (t_pins t) (<[fid := st]> (t_states t)) (t_counters t) (t_heap t)
               (match t_states t !! fid with
                | None => opened (fs_source_key st) (t_activity t)
                | Some _ => t_activity t
                end) (t_polls t)).
Proof.
  intros [Hp Hst Hsh Hc Hown Ha Hpl] Hf Hk Hi Hcs.
  assert (Hst' : map_Forall (fun fid st => (sink_idx st < length egresses)%nat
                   /\ fid ∈ flows /\ fs_source_key st = key_of fid) (<[fid := st]> (t_states t)))
    by (by apply map_Forall_insert_2).
  split; simpl; try done; [by apply map_Forall_insert_2|].
  intros k. destruct (t_states t !! fid) as [old|] eqn:E.
  - destruct (Hst _ _ E) as (_ & _ & Hold). rewrite (open_flows_reinsert _ _ old) by congruence. done.
  - assert (Hc' : forall k', counted (t_activity t) k'
                   + (if bool_decide (fs_source_key st = Some k') then 1 else 0)
                 = Z.of_nat (open_flows (<[fid := st]> (t_states t)) k')).
    { intros k'. rewrite open_flows_insert, Ha by done. case_bool_decide; lia. }
    rewrite counted_opened, Hc'; [done|]. intros k'. rewrite Hc'. apply open_flows_few.
    intros f s Hs. by apply (Hst' _ _ Hs).
Qed.

Lemma tables_remove t fid now :
  tables_ok t ->
  tables_ok (mkTables (delete fid (t_pins t)) (delete fid (t_states t)) (delete fid (t_counters t))
               (t_heap t)
               (match t_states t !! fid with
                | Some st => ended (fs_source_key st) now (t_activity t)
                | None => t_activity t
                end) (t_polls t)).
Proof.
  intros [Hp Hst Hsh Hc Hown Ha Hpl]. split; simpl; try done; try by apply map_Forall_delete.
  - intros f st Hs. apply lookup_delete_Some in Hs as [Hne Hs]. rewrite lookup_delete_ne by done. by apply Hsh.
  - intros f g c Hf Hg. apply lookup_delete_Some in Hf as [? Hf], Hg as [? Hg]. by eapply Hown.
  - intros k. destruct (t_states t !! fid) as [st|] eqn:E; [|by rewrite delete_id].
    pose proof (open_flows_delete _ _ _ k E) as Hd. specialize (Ha k).
    rewrite counted_ended; [case_bool_decide; lia|]. intros Hk. rewrite bool_decide_true in Hd by done. lia.
Qed.

(** ** Handlers keep the tables *)

Lemma keeps_same (g : RT -> RT) : (forall s, tables (g s) = tables s) -> keeps rt_ok (modify g).
Proof. intros Hg. apply triple_modify. intros s Hs. unfold rt_ok. by rewrite Hg. Qed.

(** Take a handler apart at its binds, branches and primitive updates. *)
Ltac keep :=
  repeat first
    [ progress intros
    | solve [eauto with keeps]
    | apply keeps_same; reflexivity
    | apply keeps_bind; [|intros ?]
    | apply keeps_if_some; intros ? ?
    | apply keeps_if; intros ?
    | match goal with |- keeps _ (match ?x with _ => _ end) => destruct x end
    | match goal with |- keeps _ (if ?x then _ else _) => destruct x end ].

Lemma keeps_act {A} (f : W -> A * W) : keeps rt_ok (act (Tr := Tr) f).
Proof. unfold act. apply keeps_bind; [apply keeps_gets|intros w]. destruct (f w). keep. Qed.

Lemma keeps_tx_send ch ev : keeps rt_ok (tx_send ch ev).
Proof. unfold tx_send. keep. Qed.
#[local] Hint Resolve keeps_act keeps_tx_send : keeps.

Lemma keeps_tx_send_ ch ev : keeps rt_ok (tx_send_ ch ev).
Proof. unfold tx_send_, skip. keep. Qed.

Lemma keeps_publish id p : keeps rt_ok (publish id p).
Proof. unfold publish. keep. Qed.

Lemma keeps_probe_reply sid o : keeps rt_ok (probe_reply sid o).
Proof. unfold probe_reply, skip. keep. Qed.

Lemma keeps_send_return ch f ev pid : keeps rt_ok (send_return_with_packet_id ch f ev pid).
Proof. unfold send_return_with_packet_id. keep. Qed.
#[local] Hint Resolve keeps_tx_send_ keeps_publish keeps_probe_reply keeps_send_return : keeps.

Lemma keeps_record_dispatch r n : keeps rt_ok (record_dispatch clock r n).
Proof. unfold record_dispatch, update_exit_stats. keep. Qed.

Lemma keeps_publish_flow_opened f r sh : keeps rt_ok (publish_flow_opened clock f r sh).
Proof. unfold publish_flow_opened. keep. Qed.

Lemma keeps_publish_path_io_error f r b : keeps rt_ok (publish_path_io_error clock f r b).
Proof. unfold publish_path_io_error. keep. Qed.

Lemma keeps_close_guard_new f eid sh : keeps rt_ok (close_guard_new f eid sh).
Proof. unfold close_guard_new. keep. Qed.

Lemma keeps_add_bytes c dir n : keeps rt_ok (add_bytes c dir n).
Proof.
  apply keeps_same. intros s. unfold tables. simpl. by rewrite length_alter.
Qed.
#[local] Hint Resolve keeps_record_dispatch keeps_publish_flow_opened keeps_publish_path_io_error
  keeps_close_guard_new keeps_add_bytes : keeps.

Lemma keeps_pin_flow fid idx : (idx < length egresses)%nat -> keeps rt_ok (pin_flow fid idx).
Proof. intros Hi. apply triple_modify. intros s Hs. by apply (tables_pin (tables s)). Qed.

(** Marking a source closed reads the clock only when there is a source. *)
Lemma mark_closed_run key (s : RT) :
  exists now w, mark_closed clock key s
    = Some (tt, on_source_activity (ended key now) (on_world (fun _ => w) s)).
Proof.
  destruct key as [k|]; simpl; [|by exists 0, (world s); destruct s].
  destruct (clock (world s)) as [now w] eqn:E. exists now, w.
  unfold mark_closed, if_some, act, gets, modify, mbind, M_bind. simpl. rewrite E. reflexivity.
Qed.

Lemma keeps_cleanup fid : keeps rt_ok (forwarder_cleanup clock fid).
Proof.
  intros s Hs. unfold forwarder_cleanup, gets, modify, mbind, M_bind. cbn -[mark_closed].
  destruct (flow_states s !! fid) as [st|] eqn:E; cbn -[mark_closed].
  - destruct (mark_closed_run (fs_source_key st) (on_flow_states (delete fid) s)) as (now & w & ->).
    eexists _, _. split; [reflexivity|].
    pose proof (tables_remove (tables s) fid now Hs) as Ht. simpl in Ht. by rewrite E in Ht.
  - eexists _, _. split; [reflexivity|].
    pose proof (tables_remove (tables s) fid 0 Hs) as Ht. simpl in Ht. by rewrite E in Ht.
Qed.

(** Closing a flow from the dispatcher does what a close guard's closure does. *)
Lemma remove_is_cleanup fid (s : RT) :
  remove_flow_runtime_state clock fid s
  = match forwarder_cleanup clock fid s with
    | Some (_, s') => Some (flow_states s !! fid, s')
    | None => None
    end.
Proof.
  unfold remove_flow_runtime_state, forwarder_cleanup, gets, modify, mbind, M_bind. cbn -[mark_closed].
  destruct (flow_states s !! fid) as [st|]; cbn -[mark_closed]; [|done].
  by destruct (mark_closed clock _ _) as [[? ?]|].
Qed.

Lemma keeps_remove fid : keeps rt_ok (remove_flow_runtime_state clock fid).
Proof.
  intros s Hs. destruct (keeps_cleanup fid s Hs) as (u & s' & E & Hs').
  exists (flow_states s !! fid), s'. by rewrite remove_is_cleanup, E.
Qed.
#[local] Hint Resolve keeps_cleanup keeps_remove keeps_pin_flow : keeps.

Lemma keeps_close_flow fid r sid : keeps rt_ok (close_flow_if_open clock fid r sid).
Proof. unfold close_flow_if_open. keep. Qed.

Lemma keeps_close_once g r : keeps rt_ok (close_once clock g r).
Proof. unfold close_once, skip. keep. Qed.
#[local] Hint Resolve keeps_close_flow keeps_close_once : keeps.

Lemma keeps_counters_entry fid (s : RT) :
  rt_ok s -> exists c s', counters_entry fid s = Some (c, s') /\ rt_ok s'
    /\ flow_counters s' !! fid = Some c /\ flow_states s' = flow_states s
    /\ source_activity s' = source_activity s.
Proof.
  intros Hs. unfold counters_entry, gets, modify, mbind, M_bind. simpl.
  destruct (flow_counters s !! fid) as [c|] eqn:E; eexists _, _; (split; [reflexivity|]); [done|].
  split_and!; [|by simplify_map_eq|done|done]. unfold rt_ok, tables. simpl.
  rewrite length_app, Nat.add_1_r. by apply (tables_counters (tables s)).
Qed.

Lemma keeps_register_flow f sh idx eid :
  frame_known f -> (idx < length egresses)%nat -> keeps rt_ok (register_flow f sh idx eid).
Proof.
  intros [Hf Hk] Hi s Hs.
  destruct (keeps_counters_entry (flow_id f) s Hs) as (c & s' & E & Hs' & Hc & Hst & Hsa).
  unfold register_flow, mbind at 1, M_bind at 1. rewrite E.
  pose proof (tables_register (tables s') (flow_id f) (mkFlowState sh idx eid c (source_key f))
                Hs' Hf Hk Hi Hc) as Ht. simpl in Ht.
  unfold gets, modify, mbind, M_bind, mark_open, if_some. cbn.
  destruct (flow_states s' !! flow_id f); [eexists _, _; split; [reflexivity|done]|].
  destruct (source_key f); eexists _, _; (split; [reflexivity|exact Ht]).
Qed.

(** Indexing the egresses. *)
Lemma keeps_egress_bind {A} idx (k : EgressPlugin -> M RT A) :
  (idx < length egresses)%nat -> (forall e, egresses !! idx = Some e -> keeps rt_ok (k e)) ->
  keeps rt_ok (egress_at egresses idx ≫= k).
Proof.
  intros Hi Hk. destruct (lookup_lt_is_Some_2 egresses idx Hi) as [e E].
  unfold egress_at. rewrite E. by apply Hk.
Qed.
#[local] Hint Resolve keeps_register_flow : keeps.

Lemma keeps_open_stream f idx sh ch :
  frame_known f -> (idx < length egresses)%nat ->
  keeps rt_ok (try_open_forwarder_stream egresses clock f idx sh ch).
Proof.
  intros Hf Hi. unfold try_open_forwarder_stream, send_return.
  case_match; [apply keeps_ret|]. apply keeps_egress_bind; [done|]. keep.
Qed.

Lemma keeps_open_datagram f idx sh :
  frame_known f -> (idx < length egresses)%nat ->
  keeps rt_ok (try_open_forwarder_datagram egresses clock f idx sh).
Proof.
  intros Hf Hi. unfold try_open_forwarder_datagram.
  case_match; [apply keeps_ret|]. apply keeps_egress_bind; [done|]. keep.
Qed.

Lemma keeps_ensure_poll f idx ch :
  (idx < length egresses)%nat -> keeps rt_ok (ensure_stream_poll f idx ch).
Proof.
  intros Hi. unfold ensure_stream_poll, skip. keep. apply triple_modify. intros s Hs.
  by apply (tables_poll (tables s) (session_id f, idx)).
Qed.

Lemma keeps_polls (g : gmap (string * nat) PollTask -> gmap (string * nat) PollTask) :
  (forall m, g m ⊆ m) -> keeps rt_ok (modify (on_active_stream_polls g)).
Proof.
  intros Hg. apply triple_modify. intros s Hs. destruct Hs as [Hp Hst Hsh Hc Hown Ha Hpl].
  split; simpl in *; try done.
  intros key task E. apply (Hpl key task). by eapply lookup_weaken.
Qed.
#[local] Hint Resolve keeps_open_stream keeps_open_datagram keeps_ensure_poll : keeps.

Lemma keeps_end_poll key : keeps rt_ok (end_poll key).
Proof. apply keeps_polls. intros m. apply delete_subseteq. Qed.
#[local] Hint Resolve keeps_end_poll : keeps.

Lemma keeps_poll_step key : keeps rt_ok (poll_step egresses clock key).
Proof.
  apply keeps_gets_bind. intros s0 Hs0. apply keeps_if_some. intros t Ht.
  assert (Hk : (key.2 < length egresses)%nat) by (by apply (polls_ok _ Hs0 key t)).
  apply keeps_bind; [keep|intros stop]. destruct stop; [keep|].
  apply keeps_egress_bind; [done|]. unfold skip. keep.
Qed.

Lemma keeps_frame_sent f sh idx r ch :
  frame_known f -> (idx < length egresses)%nat -> keeps rt_ok (frame_sent clock f sh idx r ch).
Proof. intros Hf Hi. unfold frame_sent, send_return, skip. keep. Qed.
#[local] Hint Resolve keeps_frame_sent : keeps.

Lemma keeps_try_send f sh e idx ch :
  frame_known f -> (idx < length egresses)%nat -> keeps rt_ok (try_send clock f sh e idx ch).
Proof. intros Hf Hi. unfold try_send. keep. Qed.
#[local] Hint Resolve keeps_try_send : keeps.

Lemma keeps_try_candidate f idx e ch :
  frame_known f -> (idx < length egresses)%nat ->
  keeps rt_ok (try_candidate egresses clock f idx e ch).
Proof. intros Hf Hi. unfold try_candidate. keep. Qed.
#[local] Hint Resolve keeps_try_candidate : keeps.

Lemma frame_known_trace f x : frame_known f -> frame_known (push_trace f x).
Proof. by destruct f. Qed.

Lemma frame_known_return f rs : frame_known f -> frame_known (set_return f rs).
Proof. by destruct f. Qed.

Lemma frame_known_ttl f n : frame_known f -> frame_known (set_ttl f n).
Proof. by destruct f. Qed.
#[local] Hint Resolve frame_known_trace frame_known_return frame_known_ttl : keeps.

Lemma keeps_dispatch_loop order f lf ch :
  frame_known f -> Forall (fun i => (i < length egresses)%nat) order ->
  keeps rt_ok (dispatch_loop egresses clock f order lf ch).
Proof.
  intros Hf Ho. revert f Hf lf. induction Ho as [|idx order Hi _ IH]; intros f Hf lf; [keep|].
  cbn [dispatch_loop]. apply keeps_egress_bind; [done|]. intros e _.
  apply keeps_bind; [keep|]. intros [|lf']; keep.
Qed.

Lemma keeps_dispatch_ordered order f ch :
  frame_known f -> keeps rt_ok (dispatch_ordered egresses clock f order ch).
Proof.
  intros Hf. unfold dispatch_ordered. apply keeps_bind.
  { apply keeps_dispatch_loop; [done|apply valid_order_in_range]. }
  unfold skip. keep.
Qed.

Lemma keeps_replicas l f ch ret :
  frame_known f -> Forall (fun i => (i < length egresses)%nat) l ->
  keeps rt_ok (replicas_done egresses clock f ch ret l).
Proof.
  intros Hf Hl. revert ret. induction Hl as [|idx l Hi _ IH]; intros ret; [keep|].
  cbn [replicas_done]. apply keeps_bind; [|done].
  apply keeps_egress_bind; [done|]. unfold send_return, skip. keep.
Qed.

Lemma keeps_dispatch_replicate order f ch :
  frame_known f -> keeps rt_ok (dispatch_replicate egresses clock arrivals f order ch).
Proof.
  intros Hf. unfold dispatch_replicate. pose proof (valid_order_in_range order (length egresses)) as Hr.
  destruct (valid_order order (length egresses)) as [|i l]; [keep|].
  apply keeps_bind; [|unfold skip; keep].
  apply keeps_replicas; [done|]. by rewrite (arrivals_perm (i :: l)).
Qed.
#[local] Hint Resolve keeps_dispatch_ordered keeps_dispatch_replicate : keeps.

(** A pin is in range, so looking it up does not panic. *)
Lemma keeps_pin_order f order cands ctx :
  Forall (fun i => (i < length egresses)%nat) order ->
  keeps rt_ok (pin_order egresses scheduler within f order cands ctx).
Proof.
  intros Ho. apply keeps_gets_bind. intros s0 Hs0.
  destruct (flow_pins s0 !! flow_id f) as [pinned|] eqn:E; [|keep].
  apply keeps_egress_bind; [by apply (pins_ok _ Hs0 (flow_id f) pinned)|]. intros e _.
  apply keeps_bind; [keep|]. intros bad. destruct bad; [keep|].
  apply keeps_bind; [keep|]. intros w. apply triple_unwrap.
  destruct (apply_pin_perm order pinned (eg_id <$> egresses)
              (fun id => score_for scheduler id cands ctx w) within) as (o & Eo & _);
    [by rewrite length_fmap|]. by exists o.
Qed.

Lemma map_order_range order m n :
  Forall (fun i => (i < n)%nat) m -> Forall (fun i => (i < n)%nat) (map_candidate_order order m).
Proof.
  intros Hm. apply Forall_forall. intros i Hi. apply list_elem_of_omap in Hi as (j & _ & Hj).
  rewrite Forall_lookup in Hm. by apply (Hm j).
Qed.

Lemma keeps_route f ch :
  frame_known f -> keeps rt_ok (dispatch_route egresses scheduler clock within arrivals f ch).
Proof.
  intros Hf. unfold dispatch_route. apply keeps_bind; [keep|]. intros bad.
  destruct (healthy_candidates _ _ _ _ _) as [cands m] eqn:E.
  apply healthy_candidates_range in E. unfold egress_infos in E. rewrite length_fmap in E.
  unfold activity_snapshot. apply keeps_bind; [keep|]. intros sa.
  apply keeps_bind; [unfold schedule_frame; keep|].
  intros [order|order]; (apply keeps_bind; [by apply keeps_pin_order, map_order_range|]); keep.
Qed.

Lemma keeps_forwarder_frame f st ch :
  (sink_idx st < length egresses)%nat ->
  keeps rt_ok (dispatch_forwarder_frame egresses clock f st ch).
Proof.
  intros Hi. apply keeps_egress_bind; [done|]. unfold send_return, skip. keep.
Qed.

Lemma keeps_unpin fid : keeps rt_ok (modify (on_flow_pins (delete fid))).
Proof.
  apply triple_modify. intros s Hs. destruct Hs as [Hp Hst Hsh Hc Hown Ha Hpl].
  split; simpl in *; try done. by apply map_Forall_delete.
Qed.

Lemma keeps_abort sid : keeps rt_ok (abort_session_polls sid).
Proof. apply keeps_polls. intros m. apply map_filter_subseteq. Qed.
#[local] Hint Resolve keeps_unpin keeps_abort keeps_route : keeps.

Lemma keeps_dispatch_close f ch : keeps rt_ok (dispatch_close egresses clock f ch).
Proof.
  apply keeps_gets_bind. intros s0 Hs0. apply keeps_bind; [keep|intros _]. apply keeps_bind.
  - apply keeps_if_some. intros idx E.
    apply keeps_egress_bind; [by apply (pins_ok _ Hs0 _ _ E)|]. keep.
  - intros _. keep.
Qed.
#[local] Hint Resolve keeps_dispatch_close : keeps.

Lemma keeps_dispatch f ch :
  frame_known f -> keeps rt_ok (dispatch egresses scheduler clock within arrivals f ch).
Proof.
  intros Hf. unfold dispatch. case_match; [keep|].
  assert (Hf' : frame_known (set_ttl f (ttl f - 1))) by (by apply frame_known_ttl).
  assert (Hr : keeps rt_ok
    (st ← gets (fun s : RT => flow_states s !! flow_id (set_ttl f (ttl f - 1)));
     match st with
     | Some st => if negb (is_open (set_ttl f (ttl f - 1))) && bool_decide (fs_shape st = Forwarder)
                  then dispatch_forwarder_frame egresses clock (set_ttl f (ttl f - 1)) st ch
                  else dispatch_route egresses scheduler clock within arrivals (set_ttl f (ttl f - 1)) ch
     | None => dispatch_route egresses scheduler clock within arrivals (set_ttl f (ttl f - 1)) ch
     end)).
  { apply keeps_gets_bind. intros s0 Hs0.
    destruct (flow_states s0 !! flow_id (set_ttl f (ttl f - 1))) as [st|] eqn:E; [|keep].
    case_match; [|keep]. apply keeps_forwarder_frame. by apply (states_ok _ Hs0 _ _ E). }
  destruct (kind (set_ttl f (ttl f - 1))); keep.
Qed.

(** The frames of a history are of known flows. *)
Definition step_known (st : Step) : Prop :=
  match st with SDispatch f _ => frame_known f | _ => True end.

Lemma keeps_run_step st :
  step_known st -> keeps rt_ok (run_step egresses scheduler clock within arrivals st).
Proof.
  intros Hk. destruct st; simpl; try (apply keeps_same; reflexivity).
  - by apply keeps_dispatch.
  - apply keeps_poll_step.
  - keep.
  - keep.
Qed.

Lemma keeps_run_steps sts :
  Forall step_known sts -> keeps rt_ok (run_steps egresses scheduler clock within arrivals sts).
Proof.
  induction 1 as [|st sts Hst _ IH]; [keep|]. simpl. apply keeps_bind; [by apply keeps_run_step|done].
Qed.

Lemma runtime_new_ok w alive : rt_ok (runtime_new w alive).
Proof. split; simpl; try apply map_Forall_empty; [done|]. intros k. done. Qed.

End Invariant.
