(* ===== verification/DispatchTheorems.v ===== *)
(** The dispatcher's theorems, each with a concrete bus on which it applies. *)
From Stdlib Require Import Sorted.
From S2P Require Import Prelude Numbers Endpoint StateM DispatchTypes Dispatch DispatchFacts.
Local Open Scope Z_scope.

Section Answer.
Context {W Tr : Type}.
Variable egresses : list (@EgressPlugin W Tr).
Variable clock : W -> Z * W.

Abbreviation RT := (@Runtime W Tr).

(** What the outside sees of a runtime: the returns and the flow tables. *)
Record View := mkView {
  v_returned : list (nat * ReturnEvent);
  v_open : gset nat;
  v_pins : gmap string nat;
  v_states : gmap string FlowState;
  v_counters : gmap string nat;
  v_activity : gmap string SourceActivityState
}.

Definition view (s : RT) : View :=
  mkView (returned s) (open_channels s) (flow_pins s) (flow_states s) (flow_counters s)
    (source_activity s).

Definition quiet {A} (m : M RT A) : Prop := forall P : View -> Prop, keeps (fun s => P (view s)) m.

Lemma quiet_modify (g : RT -> RT) : (forall s, view (g s) = view s) -> quiet (modify g).
Proof. intros Hg P. apply triple_modify. intros s Hs. by rewrite Hg. Qed.

Lemma quiet_bind {A B} (m : M RT A) (k : A -> M RT B) :
  quiet m -> (forall a, quiet (k a)) -> quiet (m ≫= k).
Proof. intros Hm Hk P. apply keeps_bind; [apply Hm|intros a; apply Hk]. Qed.

Lemma quiet_act {A} (f : W -> A * W) : quiet (act (Tr := Tr) f).
Proof.
  apply quiet_bind; [intros P; apply keeps_gets|]. intros w. destruct (f w).
  apply quiet_bind; [by apply quiet_modify|]. intros _ P. apply keeps_ret.
Qed.

Lemma quiet_publish id p : quiet (publish id p).
Proof. by apply quiet_modify. Qed.

Lemma quiet_record r n : quiet (record_dispatch clock r n).
Proof. apply quiet_bind; [apply quiet_act|]. intros _. by apply quiet_modify. Qed.

Lemma quiet_flow_opened f r sh : quiet (publish_flow_opened clock f r sh).
Proof. apply quiet_bind; [apply quiet_act|]. intros. apply quiet_publish. Qed.

Lemma quiet_path_io_error f r b : quiet (publish_path_io_error clock f r b).
Proof. apply quiet_bind; [apply quiet_act|]. intros. apply quiet_publish. Qed.

Lemma quiet_guard f eid sh : quiet (close_guard_new f eid sh).
Proof.
  apply quiet_bind; [intros P; apply keeps_gets|]. intros g.
  apply quiet_bind; [by apply quiet_modify|]. intros _ P. apply keeps_ret.
Qed.

Lemma quiet_ensure_poll f idx ch : quiet (ensure_stream_poll f idx ch).
Proof.
  unfold ensure_stream_poll, skip. case_match; [intros P; apply keeps_ret|].
  apply quiet_bind; [intros P; apply keeps_gets|]. intros b. destruct b; [intros P; apply keeps_ret|].
  by apply quiet_modify.
Qed.

Lemma quiet_probe_reply sid o : quiet (probe_reply sid o).
Proof.
  apply quiet_bind; [intros P; apply keeps_gets|]. intros b.
  destruct b; [|intros P; apply keeps_ret].
  apply quiet_bind; [by apply quiet_modify|]. intros _. by apply quiet_modify.
Qed.

(** A quiet step first: what holds of the view still holds after it. *)
Lemma triple_quiet {A B} (P : View -> Prop) (m : M RT A) (k : A -> M RT B) Q :
  quiet m -> (forall a, triple (fun s => P (view s)) (k a) Q) -> triple (fun s => P (view s)) (m ≫= k) Q.
Proof. intros Hm Hk. eapply triple_bind; [apply (Hm P)|done]. Qed.

(** ** Registration and answer *)

(** The flow of [f] is pinned to [idx] and registered there as [eid]; nothing has
    been returned since [v]. *)
Definition registered (v : View) (f : BusFrame) (idx : nat) (eid : string) (v' : View) : Prop :=
  v_returned v' = v_returned v /\ v_open v' = v_open v
  /\ v_pins v' = <[flow_id f := idx]> (v_pins v)
  /\ exists sh c, v_states v' = <[flow_id f := mkFlowState sh idx eid c (source_key f)]> (v_states v)
       /\ v_counters v' !! flow_id f = Some c.

Definition pinned_at (v : View) (f : BusFrame) (idx : nat) (v' : View) : Prop :=
  v_returned v' = v_returned v /\ v_open v' = v_open v
  /\ v_pins v' = <[flow_id f := idx]> (v_pins v) /\ v_states v' = v_states v.

Lemma triple_pin v f idx :
  triple (fun s : RT => view s = v) (pin_flow (flow_id f) idx)
    (fun _ s => pinned_at v f idx (view s)).
Proof. apply triple_modify. by intros s <-. Qed.

Lemma triple_register v f sh idx eid :
  triple (fun s : RT => pinned_at v f idx (view s)) (register_flow f sh idx eid)
    (fun _ s => registered v f idx eid (view s)).
Proof.
  intros s (Hr & Ho & Hp & Hs). simpl in *.
  unfold register_flow, counters_entry, gets, modify, mark_open, if_some, mbind, M_bind. cbn.
  destruct (flow_counters s !! flow_id f) eqn:Ec; cbn;
    destruct (flow_states s !! flow_id f); cbn; destruct (source_key f) eqn:Ek; cbn;
    (eexists _, _; split; [reflexivity|]); unfold registered; simpl; rewrite Ek;
    (split_and!; [done|done|done|]); eexists _, _; (split; [by rewrite Hs|]); simpl;
    by simplify_map_eq.
Qed.

(** The opener has heard [Connected], and the flow's entries are those of [idx]. *)
Definition opened_at (v : View) (f : BusFrame) (ch idx : nat) (v' : View) : Prop :=
  exists eid ep rtt sh c,
    v_returned v' = v_returned v ++ [(ch, Connected eid ep rtt)]
    /\ v_pins v' = <[flow_id f := idx]> (v_pins v)
    /\ v_states v' = <[flow_id f := mkFlowState sh idx eid c (source_key f)]> (v_states v)
    /\ v_counters v' !! flow_id f = Some c.

Lemma triple_answer v f ch idx eid ep rtt :
  return_semantics f = Direct -> ch ∈ v_open v ->
  triple (fun s : RT => registered v f idx eid (view s))
    (send_return ch f (Connected eid ep rtt))
    (fun _ s => opened_at v f ch idx (view s)).
Proof.
  intros Hd Hc s (Hr & Ho & Hp & sh & c & Hs & Hcs). simpl in *.
  unfold send_return, send_return_with_packet_id. rewrite bool_decide_true by done.
  unfold tx_send, gets, modify, mbind, M_bind. cbn. rewrite bool_decide_true by (by rewrite Ho). cbn.
  eexists _, _. split; [reflexivity|]. exists eid, ep, rtt, sh, c. simpl. by rewrite Hr.
Qed.

(** What a candidate leaves behind. *)
Definition tried (v : View) (f : BusFrame) (ch idx : nat) (w : Walk) (s : RT) : Prop :=
  match w with Done => opened_at v f ch idx (view s) | Next _ => view s = v end.

(** Registering and answering, the common end of both ways to open a stream. *)
Lemma triple_frame_sent v f sh idx r ch :
  is_open f = true -> return_semantics f = Direct -> ch ∈ v_open v ->
  triple (fun s : RT => view s = v) (frame_sent clock f sh idx r ch)
    (fun _ s => opened_at v f ch idx (view s)).
Proof.
  intros Hop Hd Hc. unfold frame_sent, open_return_event. rewrite Hop, orb_true_r.
  eapply triple_bind; [apply triple_pin|]. intros ?. cbn beta.
  eapply (triple_bind _ (fun _ s => registered v f idx (r_exit_id r) (view s))).
  { eapply triple_bind; [apply triple_register|]. intros ?. cbn beta. apply (quiet_flow_opened f r sh). }
  intros _. apply (triple_quiet (registered v f idx (r_exit_id r))); [apply quiet_ensure_poll|]. intros _.
  eapply triple_bind; [by apply triple_answer|]. intros ?. cbn beta. by apply triple_ret.
Qed.

Lemma triple_try_send v f sh e idx ch :
  is_open f = true -> return_semantics f = Direct -> ch ∈ v_open v ->
  triple (fun s : RT => view s = v) (try_send clock f sh e idx ch) (tried v f ch idx).
Proof.
  intros Hop Hd Hc. apply (triple_quiet (fun v' => v' = v)); [apply quiet_act|]. intros r.
  apply (triple_quiet (fun v' => v' = v)); [apply quiet_record|]. intros _. destruct (success r).
  - eapply triple_bind; [by apply triple_frame_sent|]. intros ?. cbn beta. by apply triple_ret.
  - apply (triple_quiet (fun v' => v' = v)); [apply quiet_path_io_error|]. intros _. by apply triple_ret.
Qed.

Definition stream_outcome (v : View) (f : BusFrame) (ch idx : nat) (o : ForwarderOpenOutcome)
    (s : RT) : Prop :=
  match o with FHandled => opened_at v f ch idx (view s) | _ => view s = v end.

Lemma triple_open_stream v f sh idx ch :
  is_open f = true -> return_semantics f = Direct -> ch ∈ v_open v -> (idx < length egresses)%nat ->
  triple (fun s : RT => view s = v) (try_open_forwarder_stream egresses clock f idx sh ch)
    (stream_outcome v f ch idx).
Proof.
  intros Hop Hd Hc Hi. unfold try_open_forwarder_stream.
  case_match; [by apply triple_ret|]. destruct (lookup_lt_is_Some_2 egresses idx Hi) as [e Ee].
  unfold egress_at. rewrite Ee. cbn [unwrap]. apply (triple_quiet (fun v' => v' = v)).
  { intros P. apply keeps_ret. }
  intros e'. apply (triple_quiet (fun v' => v' = v)); [apply quiet_act|].
  intros [[o|reason]|]; [..|by apply triple_ret].
  - apply (triple_quiet (fun v' => v' = v)); [apply quiet_record|]. intros _.
    eapply triple_bind; [apply triple_pin|]. intros ?. cbn beta.
    eapply triple_bind; [apply triple_register|]. intros c. cbn [r_exit_id connected_result].
    set (R := registered v f idx (eg_id e')).
    apply (triple_quiet R); [apply quiet_guard|]. intros g.
    apply (triple_quiet R); [by apply quiet_modify|]. intros _.
    apply (triple_quiet R); [apply quiet_flow_opened|]. intros _.
    eapply triple_bind; [by apply triple_answer|]. intros ?. cbn beta. by apply triple_ret.
  - apply (triple_quiet (fun v' => v' = v)); [apply quiet_record|]. intros _.
    apply (triple_quiet (fun v' => v' = v)); [apply quiet_path_io_error|]. intros _. by apply triple_ret.
Qed.

Lemma derive_not_datagram fs rs n caps reqs :
  fs <> Datagram -> derive fs rs n caps reqs <> DatagramForwarder.
Proof. intros Hf. unfold derive. repeat case_match; done. Qed.

Lemma triple_try_candidate v f idx e ch :
  is_open f = true -> return_semantics f = Direct -> flow_semantics f <> Datagram ->
  ch ∈ v_open v -> (idx < length egresses)%nat ->
  triple (fun s : RT => view s = v) (try_candidate egresses clock f idx e ch) (tried v f ch idx).
Proof.
  intros Hop Hd Hs Hc Hi. unfold try_candidate. rewrite Hop.
  set (sh := derive _ _ _ _ _). assert (Hsh : sh <> DatagramForwarder) by (by apply derive_not_datagram).
  simpl andb. case_bool_decide as Hf; [|rewrite bool_decide_false by done; by apply triple_try_send].
  eapply triple_bind; [by apply triple_open_stream|].
  intros [|ev|]; simpl; [by apply triple_ret|by apply triple_ret|by apply triple_try_send].
Qed.

Lemma push_trace_fields f x :
  is_open (push_trace f x) = is_open f /\ return_semantics (push_trace f x) = return_semantics f
  /\ flow_semantics (push_trace f x) = flow_semantics f /\ flow_id (push_trace f x) = flow_id f
  /\ source_key (push_trace f x) = source_key f.
Proof. by destruct f. Qed.

(** The frame as the last of [pre] has left it. *)
Fixpoint traced (f : BusFrame) (pre : list nat) : BusFrame :=
  match pre with
  | [] => f
  | idx :: pre =>
      traced (match egresses !! idx with Some e => push_trace f (eg_id e) | None => f end) pre
  end.

(** The walk over the candidates, up to the first that takes the flow. *)
Lemma dispatch_loop_spec order f lf ch (s : RT) :
  is_open f = true -> return_semantics f = Direct -> flow_semantics f <> Datagram ->
  ch ∈ open_channels s -> Forall (fun i => (i < length egresses)%nat) order ->
  (exists lf' s', dispatch_loop egresses clock f order lf ch s = Some (Next lf', s')
     /\ view s' = view s)
  \/ (exists pre idx post e lf' s1 s', order = pre ++ idx :: post /\ egresses !! idx = Some e
     /\ dispatch_loop egresses clock f pre lf ch s = Some (Next lf', s1) /\ view s1 = view s
     /\ try_candidate egresses clock (traced f (pre ++ [idx])) idx e ch s1 = Some (Done, s')
     /\ dispatch_loop egresses clock f order lf ch s = Some (Done, s')
     /\ opened_at (view s) f ch idx (view s')).
Proof.
  intros Hop Hd Hs Hc Ho. revert f lf s Hop Hd Hs Hc.
  induction Ho as [|idx order Hi _ IH]; intros f lf s Hop Hd Hs Hc.
  { left. by exists lf, s. }
  destruct (lookup_lt_is_Some_2 egresses idx Hi) as [e Ee].
  destruct (push_trace_fields f (eg_id e)) as (F1 & F2 & F3 & F4 & F5).
  set (g := push_trace f (eg_id e)) in *.
  assert (Hloop : forall l, dispatch_loop egresses clock f (idx :: l) lf ch s
            = match try_candidate egresses clock g idx e ch s with
              | Some (Done, s') => Some (Done, s')
              | Some (Next lf', s') => dispatch_loop egresses clock g l lf' ch s'
              | None => None
              end).
  { intros l. cbn [dispatch_loop]. unfold egress_at. rewrite Ee.
    cbn [unwrap]. unfold mbind, M_bind, mret, M_ret. fold g.
    by destruct (try_candidate egresses clock g idx e ch s) as [[[|] ?]|]. }
  destruct (triple_try_candidate (view s) g idx e ch) with s as (w & s1 & E1 & Ht); try congruence; try done.
  rewrite Hloop, E1. destruct w as [|lf1]; simpl in Ht.
  - right. exists [], idx, order, e, lf, s, s1. cbn [traced app]. rewrite Ee. fold g.
    split_and!; try done. unfold opened_at in *. by rewrite F4, F5 in Ht.
  - destruct (IH g lf1 s1) as [(lf' & s' & E & Hv)|Hr]; try congruence.
    { apply (f_equal v_open) in Ht. simpl in Ht. by rewrite Ht. }
    + left. exists lf', s'. split; [done|]. by rewrite Hv.
    + destruct Hr as (pre & j & post & e' & lf' & s2 & s' & -> & Ee' & Hpre & Hv & Htry & Hl & Ha).
      right. exists (idx :: pre), j, post, e', lf', s2, s'.
      split_and!; [done|done|by rewrite Hloop, E1|by rewrite Hv| |done|].
      * cbn [app traced]. rewrite Ee. exact Htry.
      * unfold opened_at in *. by rewrite Ht, F4, F5 in Ha.
Qed.
End Answer.

(** * Theorems *)

Local Open Scope Z_scope.

(** ** A bus with one exit that refuses and one that accepts *)

Definition stream_caps (gs : list string) : Capabilities := mkCapabilities "tcp" true false None gs.

(** The world counts the sends; the clock is ten times that count. *)
Definition refusing (eid : string) : @EgressPlugin nat unit :=
  mkEgress eid (stream_caps ["g"]) (fun _ w => (None, w)) (fun _ w => (None, w))
    (fun _ w => (mkExitResult eid false 0 None (Closed ConnectionRefused), S w))
    (fun _ w => (Idle, w)) (fun _ w => w).

Definition accepting (eid : string) : @EgressPlugin nat unit :=
  mkEgress eid (stream_caps ["g"]) (fun _ w => (None, w)) (fun _ w => (None, w))
    (fun _ w => (mkExitResult eid true 7 None Idle, S w))
    (fun _ w => (Closed UpstreamEof, w)) (fun _ w => w).

Definition ex_egresses : list (@EgressPlugin nat unit) := [refusing "a"; accepting "b"].
Definition ex_scheduler : @SchedulerPlugin nat :=
  mkScheduler (fun cands _ w => (Ordered (seq 0 (length cands)), w)) (fun _ _ _ _ => 0).
Definition ex_clock (w : nat) : Z * nat := (10 * Z.of_nat w, w).
Definition ex_frame (fid : string) (k : FrameKind) : BusFrame :=
  mkFrame 0 fid ("s-" +:+ fid) 0 k [] (mkEndpoint "h" 80) 8 Control None None Auto []
    ByteStream Direct (Some "client") None None None.

(** ** Properties *)

(** C3: whatever the egresses, the scheduler and the clock do, a history of
    dispatches, poll rounds, close guards and environment changes never panics;
    after it every pin and registered flow names an existing egress, every
    registered flow shares its byte counters with the counter table and with no
    other flow, and the activity table counts exactly the open flows of each
    source (flows keep their source, and are fewer than a u32 can count). *)
Theorem dispatch_tables_consistent {W Tr : Type} (egresses : list (@EgressPlugin W Tr))
    (scheduler : SchedulerPlugin) (clock : W -> Z * W) (within : Z -> Z -> bool)
    (arrivals : list nat -> list nat) (flows : gset string) (key_of : string -> option string)
    (w : W) (alive : gset nat) (sts : list Step)
    (Hfew : Z.of_nat (size flows) <= U32_MAX) (Harr : forall l, arrivals l ≡ₚ l)
    (Hsts : Forall (step_known flows key_of) sts) :
  exists s, run_steps egresses scheduler clock within arrivals sts (runtime_new w alive) = Some (tt, s)
    /\ (forall fid idx, flow_pins s !! fid = Some idx -> (idx < length egresses)%nat)
    /\ (forall fid st, flow_states s !! fid = Some st ->
          (sink_idx st < length egresses)%nat
          /\ flow_counters s !! fid = Some (fs_counters st)
          /\ (fs_counters st < length (counters_heap s))%nat
          /\ forall gid, flow_counters s !! gid = Some (fs_counters st) -> gid = fid)
    /\ (forall k, active_flows (default activity_default (source_activity s !! k))
                  = Z.of_nat (open_flows (flow_states s) k)).
Proof.
  destruct (keeps_run_steps egresses scheduler clock within arrivals flows key_of Hfew Harr sts Hsts
              (runtime_new w alive)) as ([] & s & E & Hs); [apply runtime_new_ok|].
  exists s. destruct Hs as [Hp Hst Hsh Hc Hown Ha _]. simpl in *. split_and!; [done|done| |done].
  intros fid st Hf. specialize (Hsh fid st Hf).
  split_and!; [by apply (Hst fid st)|done|by apply (Hc fid)|]. intros gid Hg. by eapply Hown.
Qed.

Lemma dispatch_tables_consistent_witness :
  let sts := [SDispatch (ex_frame "f" KOpen) 0; SDispatch (ex_frame "g" KOpen) 1;
              SDispatch (ex_frame "f" KData) 0; SPoll ("s-g", 1%nat);
              SDispatch (ex_frame "f" KClose) 0; SDispatch (ex_frame "f" KOpen) 0] in
  exists s, run_steps ex_egresses ex_scheduler ex_clock (fun _ _ => true) (fun l => l) sts
              (runtime_new 0%nat {[0%nat; 1%nat]}) = Some (tt, s)
    /\ flow_pins s = {["f" := 1%nat]}
    /\ (forall fid st, flow_states s !! fid = Some st -> (sink_idx st < 2)%nat)
    /\ active_flows (default activity_default (source_activity s !! "client"))
       = Z.of_nat (open_flows (flow_states s) "client").
Proof.
  destruct (dispatch_tables_consistent ex_egresses ex_scheduler ex_clock (fun _ _ => true)
    (fun l => l) {["f"; "g"]} (fun _ => Some "client") 0%nat {[0%nat; 1%nat]}
    [SDispatch (ex_frame "f" KOpen) 0; SDispatch (ex_frame "g" KOpen) 1;
     SDispatch (ex_frame "f" KData) 0; SPoll ("s-g", 1%nat);
     SDispatch (ex_frame "f" KClose) 0; SDispatch (ex_frame "f" KOpen) 0])
    as (s & E & _ & Hst & Ha).
  - by vm_compute.
  - done.
  - repeat constructor; simpl; set_solver.
  - exists s. split; [exact E|]. split_and!; [|intros fid st Hf; by apply (Hst fid st)|apply Ha].
    vm_compute in E. injection E as <-. reflexivity.
Defined.

(** C4: opening a stream along an order of candidates answers its channel exactly
    once. Either every candidate refuses, the answer is [Closed] and no flow table
    changes; or the answer is [Connected] from the first candidate that takes the
    flow (the ones before it in the order, duplicates and unknown indices left
    out, all refused it, the ones after it are not contacted), and the flow is
    pinned to it and registered with the exit id of the answer. *)
Theorem stream_open_answered_once {W Tr : Type} (egresses : list (@EgressPlugin W Tr))
    (clock : W -> Z * W) (f : BusFrame) (order : list nat) (ch : nat) (s : Runtime)
    (Hk : kind f = KOpen) (Hd : return_semantics f = Direct) (Hs : flow_semantics f <> Datagram)
    (Hc : ch ∈ open_channels s) :
  exists s', dispatch_ordered egresses clock f order ch s = Some (tt, s')
    /\ ((exists reason, returned s' = returned s ++ [(ch, Closed reason)]
           /\ flow_pins s' = flow_pins s /\ flow_states s' = flow_states s
           /\ flow_counters s' = flow_counters s /\ source_activity s' = source_activity s)
        \/ exists pre idx post e lf s1 eid ep rtt sh c,
             valid_order order (length egresses) = pre ++ idx :: post /\ egresses !! idx = Some e
             /\ dispatch_loop egresses clock f pre None ch s = Some (Next lf, s1)
             /\ try_candidate egresses clock (traced egresses f (pre ++ [idx])) idx e ch s1
                = Some (Done, s')
             /\ returned s' = returned s ++ [(ch, Connected eid ep rtt)]
             /\ flow_pins s' = <[flow_id f := idx]> (flow_pins s)
             /\ flow_states s' = <[flow_id f := mkFlowState sh idx eid c (source_key f)]> (flow_states s)
             /\ flow_counters s' !! flow_id f = Some c).
Proof.
  destruct (dispatch_loop_spec egresses clock (valid_order order (length egresses)) f None ch s)
    as [(lf & s1 & E & Hv)|Hr]; [by unfold is_open; rewrite bool_decide_true|done|done|done|
      apply valid_order_in_range| |].
  - destruct (quiet_probe_reply (session_id f) (Failed (default no_usable lf)) (fun v => v = view s) s1 Hv)
      as ([] & s2 & E2 & Hv2). exists (on_returned (fun l => l ++ [(ch, failed_return lf)]) s2). split.
    + unfold dispatch_ordered, mbind, M_bind. rewrite E. cbn iota. rewrite E2.
      unfold tx_send_, tx_send, gets, modify, skip, mbind, M_bind. cbn.
      apply (f_equal v_open) in Hv2. simpl in Hv2. by rewrite Hv2, bool_decide_true.
    + left. assert (Hf : exists reason, failed_return lf = Closed reason)
        by (destruct lf as [[]|]; simpl; eauto). destruct Hf as [reason Hf]. exists reason.
      rewrite Hf. injection Hv2 as Hr _ Hp Hst Hcs Hsa. simpl. by rewrite Hr, Hp, Hst, Hcs, Hsa.
  - destruct Hr as (pre & idx & post & e & lf & s1 & s' & Ho & Ee & Hpre & _ & Htry & El & Ha).
    exists s'. split; [unfold dispatch_ordered, mbind, M_bind; by rewrite El|]. right.
    destruct Ha as (eid & ep & rtt & sh & c & H1 & H2 & H3 & H4).
    by exists pre, idx, post, e, lf, s1, eid, ep, rtt, sh, c.
Qed.

Lemma stream_open_answered_once_witness :
  exists s', dispatch_ordered ex_egresses ex_clock (ex_frame "f" KOpen) [0%nat; 9%nat; 0%nat; 1%nat] 5
               (runtime_new 0%nat {[5%nat]}) = Some (tt, s')
    /\ exists ev, returned s' = [(5%nat, ev)].
Proof.
  destruct (stream_open_answered_once ex_egresses ex_clock (ex_frame "f" KOpen)
    [0%nat; 9%nat; 0%nat; 1%nat] 5 (runtime_new 0%nat {[5%nat]})) as (s' & E & Hor);
    [reflexivity|reflexivity|discriminate|simpl; set_solver|].
  exists s'. split; [exact E|]. destruct Hor as [(r & H & _)|(? & ? & ? & ? & ? & ? & eid & ep & rtt & ? & ? & H)].
  - by exists (Closed r).
  - exists (Connected eid ep rtt). apply H.
Defined.

(** the candidates of a flow are, in the order of the egresses, exactly the
    healthy egresses whose capabilities carry the flow and which are the target
    sink and in the route group asked for. When none of them is healthy the list
    is empty if a sink or a group was asked for, and all of them otherwise. *)
Theorem healthy_candidates_exact (egs : list (string * Capabilities)) (bad : gset string)
    (fs : FlowSemantics) (rg ts : option string) :
  let '(ids, m) := healthy_candidates (from_egresses egs) bad fs rg ts in
  let chosen idx eid := exists i, m !! i = Some idx /\ ids !! i = Some eid in
  StronglySorted lt m /\ length ids = length m
  /\ ((exists idx eid, eligible egs fs rg ts idx eid /\ eid ∉ bad)
      /\ (forall idx eid, chosen idx eid <-> eligible egs fs rg ts idx eid /\ eid ∉ bad)
      \/ (forall idx eid, eligible egs fs rg ts idx eid -> eid ∈ bad)
      /\ ((is_Some rg \/ is_Some ts) /\ m = []
          \/ rg = None /\ ts = None /\ forall idx eid, chosen idx eid <-> eligible egs fs rg ts idx eid)).
Proof.
  destruct (healthy_candidates_list egs bad fs rg ts) as (cs & -> & Hsort & _ & Hor).
  assert (Hchosen : forall idx eid,
    (exists i, (egress_idx <$> cs) !! i = Some idx /\ (cc_exit_id <$> cs) !! i = Some eid)
    <-> exists c, c ∈ cs /\ egress_idx c = idx /\ cc_exit_id c = eid).
  { intros idx eid. split.
    - intros (i & Hi & He). rewrite list_lookup_fmap in Hi. rewrite list_lookup_fmap in He. destruct (cs !! i) as [c|] eqn:E; [|done].
      injection Hi as <-. injection He as <-. exists c. split; [by eapply list_elem_of_lookup_2|done].
    - intros (c & Hc & <- & <-). apply list_elem_of_lookup in Hc as [i Hi]. exists i.
      by rewrite !list_lookup_fmap, Hi. }
  assert (Helig : forall idx eid, eligible egs fs rg ts idx eid <->
    exists c, (c ∈ candidate_bucket egs fs /\ cand_matches rg ts c = true)
              /\ egress_idx c = idx /\ cc_exit_id c = eid).
  { intros idx eid. split.
    - intros He. pose proof He as (caps & Hl & Hm & _).
      exists (mkCompiledCandidate idx eid (groups caps)). split; [|done]. apply cand_matches_eligible.
      split; [|done]. apply candidate_bucket_elem. by exists caps.
    - intros (c & Hc & <- & <-). by apply cand_matches_eligible in Hc as [_ ?]. }
  cbn beta iota zeta. setoid_rewrite Hchosen. setoid_rewrite Helig. rewrite !length_fmap.
  split_and!; [done|done|]. destruct Hor as [[(c & Hb & Hm & Hh) Hcs]|[Hall Hcs]].
  - left. split; [by exists (egress_idx c), (cc_exit_id c); split; [exists c|]|].
    intros idx eid. setoid_rewrite Hcs. split.
    + intros (d & [Hd Hn] & <- & <-). split; [by exists d|done].
    + intros [(d & Hd & <- & <-) Hn]. by exists d.
  - right. split; [intros idx eid (d & [Hd Hn] & <- & <-); by apply Hall|].
    destruct Hcs as [[Hsome ->]|(-> & -> & Hcs)]; [by left|right]. split_and!; [done|done|].
    intros idx eid. by setoid_rewrite Hcs.
Qed.

(** the egresses a dispatch tries are each tried once, come from the candidate
    list, and every candidate the scheduler ranked is among them, whatever ranks
    the scheduler gives (repeated or out of range) and wherever the flow is
    pinned; pinning never indexes out of range. *)
Theorem tried_order_is_ranked_candidates (n : nat) (ids : list string) (m order : list nat)
    (pinned : nat) (score : string -> Z) (within : Z -> Z -> bool)
    (Hn : length ids = n) (Hm : Forall (fun i => (i < n)%nat) m) :
  exists order', apply_pin_with_hysteresis (map_candidate_order order m) pinned ids score within
      = Some order'
    /\ NoDup (valid_order order' n)
    /\ forall idx, idx ∈ valid_order order' n <-> exists i, i ∈ order /\ m !! i = Some idx.
Proof.
  subst n. destruct (apply_pin_perm (map_candidate_order order m) pinned ids score within)
    as (order' & E & Hp); [by apply map_order_range|].
  exists order'. split; [done|].
  destruct (valid_order_from_spec ∅ order' (length ids)) as (H1 & H2 & _). split; [done|].
  intros idx. unfold valid_order. rewrite H1, Hp. unfold map_candidate_order. rewrite list_elem_of_omap.
  split; [intros (Hi & _); done|]. intros (i & Hi & Hl). split_and!; [by exists i| |set_solver].
  rewrite Forall_lookup in Hm. by apply (Hm i).
Qed.

Lemma tried_order_is_ranked_candidates_witness :
  exists order', apply_pin_with_hysteresis (map_candidate_order [2; 0; 2; 7] [0; 2; 3])%nat 0
                   ["a"; "b"; "c"; "d"] (fun _ => 1) (fun p a => p <=? a) = Some order'
    /\ NoDup (valid_order order' 4)
    /\ forall idx, idx ∈ valid_order order' 4 <-> exists i, i ∈ [2; 0; 2; 7]%nat /\ [0; 2; 3]%nat !! i = Some idx.
Proof.
  apply (tried_order_is_ranked_candidates 4 ["a"; "b"; "c"; "d"] [0; 2; 3]%nat [2; 0; 2; 7]%nat 0
           (fun _ => 1) (fun p a => p <=? a)); [reflexivity|]. repeat constructor; lia.
Defined.
