(* ===== verification/Rules.v ===== *)
(** The rule engine (lib/mb-rule/src/types.rs, data_handle.rs): contexts, match
    expressions, rule chains, their evaluation and their validation. Address
    prefixes (ipnet), regular expressions (regex) and JSON values (serde_json) are
    library types: a class of parameters. *)
From S2P Require Import Prelude.
#[local] Set Warnings "-register-all".
Local Open Scope Z_scope.

Inductive IpAddr := V4 (a : Z) | V6 (a : Z).

#[export] Instance IpAddr_eq_dec : EqDecision IpAddr.
Proof. solve_decision. Defined.

(** What the engine uses of the libraries. *)
Class RuleLibs := {
  IpNet : Type;
  net_contains : IpNet -> IpAddr -> bool;
  Regex : Type;
  is_match : Regex -> string -> bool;
  regex_str : Regex -> string;
  Json : Type;
  is_null : Json -> bool;
  is_object : Json -> bool
}.

(** ** Data (types.rs) *)

Inductive RuleNetwork := Tcp | Udp.
Inductive RuleSessionShape := ShStream | ShDatagram.
Inductive RuleTrafficClass := RInteractive | RBulk | RControl.
Inductive RuleTransformKind := TFragment | TCompress | TEncrypt | TChecksum | TParity.
Inductive RuleSocks5Command := SConnect | SBind | SUdpAssociate.
Inductive RuleScheduleHint := HAuto | HFanOut (k : Z).

#[export] Instance RuleNetwork_eq_dec : EqDecision RuleNetwork.
Proof. solve_decision. Defined.
#[export] Instance RuleSessionShape_eq_dec : EqDecision RuleSessionShape.
Proof. solve_decision. Defined.
#[export] Instance RuleTrafficClass_eq_dec : EqDecision RuleTrafficClass.
Proof. solve_decision. Defined.
#[export] Instance RuleTransformKind_eq_dec : EqDecision RuleTransformKind.
Proof. solve_decision. Defined.
#[export] Instance RuleSocks5Command_eq_dec : EqDecision RuleSocks5Command.
Proof. solve_decision. Defined.

Record RuleCtx := mkRuleCtx {
  src_ip : option IpAddr;
  dst_ip : option IpAddr;
  dst_port : option Z;
  network : option RuleNetwork;
  rule_flow_id : option string;
  session_shape : option RuleSessionShape;
  operation : option string;
  rule_schedule_hint : option RuleScheduleHint;
  rule_traffic_class : option RuleTrafficClass;
  transform_kind : option RuleTransformKind;
  fragment_group : option string;
  hostname : option string;
  socks5_command : option RuleSocks5Command;
  consumer : option string;
  dns_qtype : option string;
  authenticated_user : option string;
  dst_geo : option string;
  asn : option Z;
  geosite_tags : list string
}.

Inductive RulesetFormat := DomainSuffix | IpCidr | Classical.
Inductive RulesetField := FHostname | FSrcIp | FDstIp.
Inductive RulesetSource := Inline (values : list string) | LocalFile (path : string).

Record Ruleset := mkRuleset {
  rs_name : string;
  rs_format : RulesetFormat;
  rs_field : option RulesetField;
  rs_source : RulesetSource
}.

Inductive ValidateError :=
| ComposeAllowDenyConflict | ComposeMultipleRouteGroup | ComposeMultipleResolverPool
| ComposeMultipleCostBias | EmptyCompose | EmptyRouteGroup | EmptyResolverPool
| InvalidTransformParams | InvalidFanoutK | InvalidCostBias | EmptyRulesetName | EmptyRulesetRef
| DuplicateRulesetName (name : string) | EmptyRulesetValue (name : string)
| EmptyRulesetPath (name : string) | EmptyRuleId | EmptyPredicateValue (field : string)
| EmptyPredicateSet (field : string) | EmptyMatchGroup (op : string)
| InvalidDstPortRange (a b : Z) | RulesetIpCidrField (name : string)
| RulesetDomainSuffixField (name : string) | RulesetClassicalField (name : string).

Section Engine.
Context `{RuleLibs}.

Inductive Predicate :=
| SrcCidr (n : IpNet) | DstCidr (n : IpNet) | SrcIpEq (ip : IpAddr) | DstIpEq (ip : IpAddr)
| DstPortEq (p : Z) | DstPortRange (a b : Z) | NetworkEq (n : RuleNetwork)
| SessionShapeEq (s : RuleSessionShape) | OperationEq (s : string)
| Socks5CommandEq (c : RuleSocks5Command) | HostnameExact (s : string)
| HostnameSuffix (s : string) | HostnameKeyword (s : string) | HostnameRegex (r : Regex)
| FragmentGroupExact (s : string) | TransformKindEq (k : RuleTransformKind)
| TrafficClassEq (c : RuleTrafficClass) | RulesetMember (name : string) | Consumer (s : string)
| DnsQtype (s : string) | AuthenticatedUserEq (s : string) | AuthenticatedUserAny
| DstGeoEq (s : string) | AsnEq (n : Z) | AsnAny (l : list Z) | GeositeTag (t : string).

Inductive MatchExpr :=
| Term (p : Predicate)
| Pred (p : Predicate)
| All (xs : list MatchExpr)
| Any (xs : list MatchExpr)
| Not (x : MatchExpr).

Inductive Action :=
| Allow | Deny | SetRouteGroup (g : string) | SetResolverPool (p : string)
| SetScheduleHint (h : RuleScheduleHint) | SetTransform (k : RuleTransformKind) (params : Json)
| Compose (actions : list Action) | SetCostBias (n : Z).

Record Rule := mkRule { rule_id : option string; rule_match : MatchExpr; rule_action : Action }.
Record RuleChain := mkChain { rules : list Rule; chain_default : Action }.

Record MatchTrace := mkTrace {
  matched : bool;
  rule_index : option nat;
  trace_rule_id : option string;
  default_used : bool
}.

Record RuleDecision := mkDecision { decision_action : Action; trace : MatchTrace }.

Record ResolvedRuleset := mkResolved {
  rr_field : option RulesetField;
  rr_format : RulesetFormat;
  entries : list string;
  cidrs : list IpNet
}.

Definition RuleSetRegistry := gmap string ResolvedRuleset.

(** ** Evaluation (data_handle.rs) *)

(** [o == Some(x)] and [o.is_some_and(f)] *)
Definition is_eq {A} `{EqDecision A} (o : option A) (x : A) : bool := bool_decide (o = Some x).
Definition is_some_and {A} (o : option A) (f : A -> bool) : bool :=
  match o with Some x => f x | None => false end.

(** [h.contains(s)] *)
Fixpoint str_contains (s h : string) : bool :=
  starts_with s h || match h with EmptyString => false | String _ h => str_contains s h end.

(** [u8::to_ascii_lowercase], [eq_ignore_ascii_case] *)
Definition ascii_lower (a : Ascii.ascii) : Ascii.ascii :=
  if in_range 65 90 a then Ascii.ascii_of_N (byte_of a + 32) else a.

Fixpoint eq_ignore_ascii_case (a b : string) : bool :=
  match a, b with
  | EmptyString, EmptyString => true
  | String x a, String y b => bool_decide (ascii_lower x = ascii_lower y) && eq_ignore_ascii_case a b
  | _, _ => false
  end.

Definition pick_ip (ctx : RuleCtx) (f : option RulesetField) : option IpAddr :=
  match f with
  | Some FSrcIp => src_ip ctx
  | Some FDstIp => dst_ip ctx
  | _ => None
  end.

Definition eval_ruleset (name : string) (ctx : RuleCtx) (reg : RuleSetRegistry) : bool :=
  match reg !! name with
  | None => false
  | Some rs =>
      match rr_format rs with
      | DomainSuffix => is_some_and (hostname ctx) (fun h => existsb (fun s => ends_with s h) (entries rs))
      | IpCidr =>
          is_some_and (pick_ip ctx (rr_field rs))
            (fun ip => existsb (fun n => net_contains n ip) (cidrs rs))
      | Classical => false
      end
  end.

Definition eval_predicate (p : Predicate) (ctx : RuleCtx) (reg : RuleSetRegistry) : bool :=
  match p with
  | SrcCidr n => is_some_and (src_ip ctx) (net_contains n)
  | DstCidr n => is_some_and (dst_ip ctx) (net_contains n)
  | SrcIpEq ip => is_eq (src_ip ctx) ip
  | DstIpEq ip => is_eq (dst_ip ctx) ip
  | DstPortEq p => is_eq (dst_port ctx) p
  | DstPortRange a b => is_some_and (dst_port ctx) (fun p => (a <=? p) && (p <=? b))
  | NetworkEq n => is_eq (network ctx) n
  | SessionShapeEq s => is_eq (session_shape ctx) s
  | OperationEq s => is_eq (operation ctx) s
  | Socks5CommandEq c => is_eq (socks5_command ctx) c
  | HostnameExact s => is_eq (hostname ctx) s
  | HostnameSuffix s => is_some_and (hostname ctx) (ends_with s)
  | HostnameKeyword s => is_some_and (hostname ctx) (str_contains s)
  | HostnameRegex r => is_some_and (hostname ctx) (is_match r)
  | FragmentGroupExact s => is_eq (fragment_group ctx) s
  | TransformKindEq k => is_eq (transform_kind ctx) k
  | TrafficClassEq c => is_eq (rule_traffic_class ctx) c
  | RulesetMember name => eval_ruleset name ctx reg
  | Consumer s => is_eq (consumer ctx) s
  | DnsQtype s => is_some_and (dns_qtype ctx) (fun q => eq_ignore_ascii_case q s)
  | AuthenticatedUserEq s => is_eq (authenticated_user ctx) s
  | AuthenticatedUserAny => bool_decide (is_Some (authenticated_user ctx))
  | DstGeoEq s => is_eq (dst_geo ctx) s
  | AsnEq n => is_eq (asn ctx) n
  | AsnAny l => is_some_and (asn ctx) (fun a => existsb (Z.eqb a) l)
  | GeositeTag t => existsb (fun x => bool_decide (x = t)) (geosite_tags ctx)
  end.

Fixpoint eval_match (m : MatchExpr) (ctx : RuleCtx) (reg : RuleSetRegistry) : bool :=
  match m with
  | Term p | Pred p => eval_predicate p ctx reg
  | All xs => forallb (fun x => eval_match x ctx reg) xs
  | Any xs => existsb (fun x => eval_match x ctx reg) xs
  | Not x => negb (eval_match x ctx reg)
  end.

(** [for (idx, rule) in chain.rules.iter().enumerate()] *)
Fixpoint eval_rules (idx : nat) (rs : list Rule) (dflt : Action) (ctx : RuleCtx)
    (reg : RuleSetRegistry) : RuleDecision :=
  match rs with
  | [] => mkDecision dflt (mkTrace false None None true)
  | r :: rs =>
      if eval_match (rule_match r) ctx reg
      then mkDecision (rule_action r) (mkTrace true (Some idx) (rule_id r) false)
      else eval_rules (S idx) rs dflt ctx reg
  end.

Definition evaluate_with_trace (chain : RuleChain) (ctx : RuleCtx) (reg : RuleSetRegistry)
  : RuleDecision :=
  eval_rules 0 (rules chain) (chain_default chain) ctx reg.

(** ** Validation *)

Abbreviation vcheck := (result unit ValidateError).

Definition check_value (field value : string) : vcheck :=
  if str_is_empty value then Err (EmptyPredicateValue field) else Ok tt.

Definition validate_predicate (p : Predicate) : vcheck :=
  match p with
  | DstPortRange a b => if b <? a then Err (InvalidDstPortRange a b) else Ok tt
  | HostnameExact s => check_value "hostname" s
  | OperationEq s => check_value "operation" s
  | HostnameSuffix s => check_value "hostname_suffix" s
  | HostnameKeyword s => check_value "hostname_keyword" s
  | HostnameRegex r => check_value "hostname_regex" (regex_str r)
  | FragmentGroupExact s => check_value "fragment_group" s
  | RulesetMember name => if str_is_empty name then Err EmptyRulesetRef else Ok tt
  | Consumer s => check_value "consumer" s
  | DnsQtype s => check_value "dns_qtype" s
  | AuthenticatedUserEq s => check_value "authenticated_user" s
  | DstGeoEq s => check_value "dst_geo" s
  | AsnAny l => match l with [] => Err (EmptyPredicateSet "asn") | _ => Ok tt end
  | GeositeTag s => check_value "geosite_tag" s
  | _ => Ok tt
  end.

Fixpoint validate_match (m : MatchExpr) : vcheck :=
  match m with
  | Term p | Pred p => validate_predicate p
  | All items => match items with [] => Err (EmptyMatchGroup "all") | _ => try_each validate_match items end
  | Any items => match items with [] => Err (EmptyMatchGroup "any") | _ => try_each validate_match items end
  | Not inner => validate_match inner
  end.

(** Counts of sub-actions; they stay far below [u32::MAX]. *)
Record ComposeEffects := mkEffects {
  has_allow : bool;
  has_deny : bool;
  route_groups : nat;
  resolver_pools : nat;
  cost_biases : nat
}.

Definition effects_default : ComposeEffects := mkEffects false false 0 0 0.

Fixpoint collect_effects (a : Action) (out : ComposeEffects) : ComposeEffects :=
  let '(mkEffects al de rg rp cb) := out in
  match a with
  | Allow => mkEffects true de rg rp cb
  | Deny => mkEffects al true rg rp cb
  | SetRouteGroup _ => mkEffects al de (S rg) rp cb
  | SetResolverPool _ => mkEffects al de rg (S rp) cb
  | SetCostBias _ => mkEffects al de rg rp (S cb)
  | Compose items => fold_left (fun out sub => collect_effects sub out) items out
  | _ => out
  end.

(** The checks at the end of [validate_action]. *)
Definition check_effects (a : Action) : vcheck :=
  let eff := collect_effects a effects_default in
  if has_allow eff && has_deny eff then Err ComposeAllowDenyConflict
  else if (1 <? route_groups eff)%nat then Err ComposeMultipleRouteGroup
  else if (1 <? resolver_pools eff)%nat then Err ComposeMultipleResolverPool
  else if (1 <? cost_biases eff)%nat then Err ComposeMultipleCostBias
  else Ok tt.

Fixpoint validate_action (a : Action) : vcheck :=
  match a with
  | SetRouteGroup g => if str_is_empty g then Err EmptyRouteGroup else Ok tt
  | SetResolverPool p => if str_is_empty p then Err EmptyResolverPool else Ok tt
  | SetScheduleHint (HFanOut k) => if k =? 0 then Err InvalidFanoutK else Ok tt
  | SetTransform _ params =>
      if negb (is_null params) && negb (is_object params) then Err InvalidTransformParams else Ok tt
  | SetCostBias n => if negb ((-9000 <=? n) && (n <=? 9000)) then Err InvalidCostBias else Ok tt
  | Compose [] => Err EmptyCompose
  | Compose actions => do? try_each validate_action actions; check_effects a
  | _ => Ok tt
  end.

Definition validate_ruleset (rs : Ruleset) : vcheck :=
  if str_is_empty (rs_name rs) then Err EmptyRulesetName
  else
    do? match rs_source rs with
        | Inline [] => Err (EmptyRulesetValue (rs_name rs))
        | Inline values => if existsb str_is_empty values then Err (EmptyRulesetValue (rs_name rs)) else Ok tt
        | LocalFile path => if str_is_empty path then Err (EmptyRulesetPath (rs_name rs)) else Ok tt
        end;
    match rs_format rs, rs_field rs with
    | IpCidr, Some (FSrcIp | FDstIp) => Ok tt
    | IpCidr, _ => Err (RulesetIpCidrField (rs_name rs))
    | DomainSuffix, Some FHostname => Ok tt
    | DomainSuffix, _ => Err (RulesetDomainSuffixField (rs_name rs))
    | Classical, None => Ok tt
    | Classical, Some _ => Err (RulesetClassicalField (rs_name rs))
    end.

(** [ruleset_names.insert(..)] *)
Fixpoint validate_rulesets (seen : gset string) (rss : list Ruleset) : vcheck :=
  match rss with
  | [] => Ok tt
  | rs :: rss =>
      do? validate_ruleset rs;
      do? ensure (negb (bool_decide (rs_name rs ∈ seen))) (DuplicateRulesetName (rs_name rs));
      validate_rulesets ({[rs_name rs]} ∪ seen) rss
  end.

Definition validate_rule (r : Rule) : vcheck :=
  do? ensure (negb (is_eq (rule_id r) EmptyString)) EmptyRuleId;
  do? validate_match (rule_match r);
  validate_action (rule_action r).

Definition validate (chain : RuleChain) (rulesets : list Ruleset) : vcheck :=
  do? try_each validate_rule (rules chain);
  do? validate_action (chain_default chain);
  validate_rulesets ∅ rulesets.
End Engine.
