(* ===== verification/RulesFacts.v ===== *)
(** What the rule engine decides and what its validation accepts: the meaning of
    match expressions as propositions, first match wins, and the contract of
    [validate] on chains and rulesets. *)
From S2P Require Import Prelude Rules.
#[local] Set Warnings "-register-all".
Local Open Scope Z_scope.

Section Facts.
Context `{RuleLibs}.

(** ** Induction on the nested types *)

Lemma match_ind (P : MatchExpr -> Prop) :
  (forall p, P (Term p)) -> (forall p, P (Pred p)) ->
  (forall xs, Forall P xs -> P (All xs)) -> (forall xs, Forall P xs -> P (Any xs)) ->
  (forall x, P x -> P (Not x)) -> forall m, P m.
Proof.
  intros HT HP HA HO HN. fix IH 1. intros [p|p|xs|xs|x]; [apply HT|apply HP| | |apply HN, IH].
  - apply HA. induction xs as [|x xs IHxs]; constructor; [apply IH|exact IHxs].
  - apply HO. induction xs as [|x xs IHxs]; constructor; [apply IH|exact IHxs].
Qed.

Lemma action_ind (P : Action -> Prop) :
  (forall a, (forall l, a <> Compose l) -> P a) -> (forall l, Forall P l -> P (Compose l)) ->
  forall a, P a.
Proof.
  intros HL HC. fix IH 1. intros a. destruct a; try (apply HL; discriminate).
  apply HC. induction actions as [|x xs IHxs]; constructor; [apply IH|exact IHxs].
Qed.

(** ** Meaning of match expressions *)

Definition pred_holds (p : Predicate) (ctx : RuleCtx) (reg : RuleSetRegistry) : Prop :=
  match p with
  | SrcCidr n => exists ip, src_ip ctx = Some ip /\ net_contains n ip = true
  | DstCidr n => exists ip, dst_ip ctx = Some ip /\ net_contains n ip = true
  | SrcIpEq ip => src_ip ctx = Some ip
  | DstIpEq ip => dst_ip ctx = Some ip
  | DstPortEq p => dst_port ctx = Some p
  | DstPortRange a b => exists p, dst_port ctx = Some p /\ a <= p <= b
  | NetworkEq n => network ctx = Some n
  | SessionShapeEq s => session_shape ctx = Some s
  | OperationEq s => operation ctx = Some s
  | Socks5CommandEq c => socks5_command ctx = Some c
  | HostnameExact s => hostname ctx = Some s
  | HostnameSuffix s => exists pre, hostname ctx = Some (pre +:+ s)
  | HostnameKeyword s => exists pre post, hostname ctx = Some (pre +:+ s +:+ post)
  | HostnameRegex r => exists h, hostname ctx = Some h /\ is_match r h = true
  | FragmentGroupExact s => fragment_group ctx = Some s
  | TransformKindEq k => transform_kind ctx = Some k
  | TrafficClassEq c => rule_traffic_class ctx = Some c
  | RulesetMember name =>
      exists rs, reg !! name = Some rs
        /\ match rr_format rs with
           | DomainSuffix => exists pre s, s ∈ entries rs /\ hostname ctx = Some (pre +:+ s)
           | IpCidr => exists ip n, n ∈ cidrs rs /\ net_contains n ip = true
                         /\ (rr_field rs = Some FSrcIp /\ src_ip ctx = Some ip
                             \/ rr_field rs = Some FDstIp /\ dst_ip ctx = Some ip)
           | Classical => False
           end
  | Consumer s => consumer ctx = Some s
  | DnsQtype s => exists q, dns_qtype ctx = Some q /\ eq_ignore_ascii_case q s = true
  | AuthenticatedUserEq s => authenticated_user ctx = Some s
  | AuthenticatedUserAny => authenticated_user ctx <> None
  | DstGeoEq s => dst_geo ctx = Some s
  | AsnEq n => asn ctx = Some n
  | AsnAny l => exists n, asn ctx = Some n /\ n ∈ l
  | GeositeTag t => t ∈ geosite_tags ctx
  end.

Fixpoint holds (m : MatchExpr) (ctx : RuleCtx) (reg : RuleSetRegistry) : Prop :=
  match m with
  | Term p | Pred p => pred_holds p ctx reg
  | All xs => foldr (fun x P => holds x ctx reg /\ P) True xs
  | Any xs => foldr (fun x P => holds x ctx reg \/ P) False xs
  | Not x => ~ holds x ctx reg
  end.

Lemma is_eq_iff {A} `{EqDecision A} (o : option A) x : is_eq o x = true <-> o = Some x.
Proof. apply bool_decide_eq_true. Qed.

Lemma is_some_and_iff {A} (o : option A) f : is_some_and o f = true <-> exists x, o = Some x /\ f x = true.
Proof. destruct o; simpl; naive_solver. Qed.

Lemma strip_suffix_self s : strip_suffix s s = Some EmptyString.
Proof. destruct s; unfold strip_suffix; destruct (decide _); done. Qed.

Lemma ends_with_iff s h : ends_with s h = true <-> exists pre, h = pre +:+ s.
Proof.
  unfold ends_with. split.
  - destruct (strip_suffix s h) as [r|] eqn:E; [|done]. intros _. exists r. by apply strip_suffix_app.
  - intros [pre ->]. induction pre as [|a pre IH].
    + change (EmptyString +:+ s) with s. by rewrite (strip_suffix_self s).
    + change (String a pre +:+ s) with (String a (pre +:+ s)). cbn [strip_suffix].
      destruct (decide (String a (pre +:+ s) = s)); [done|].
      by destruct (strip_suffix s (pre +:+ s)).
Qed.

Lemma starts_with_iff s h : starts_with s h = true <-> exists post, h = s +:+ post.
Proof.
  unfold starts_with. split.
  - destruct (strip_prefix s h) as [r|] eqn:E; [|done]. intros _. exists r. by apply strip_prefix_app.
  - intros [post E]. apply strip_prefix_app in E. by rewrite E.
Qed.

Lemma str_contains_iff s h : str_contains s h = true <-> exists pre post, h = pre +:+ s +:+ post.
Proof.
  induction h as [|a h IH]; cbn [str_contains]; rewrite orb_true_iff, starts_with_iff.
  - split; [intros [[post E]|]; [by exists EmptyString, post|done]|].
    intros (pre & post & E). left. destruct pre; [by exists post|done].
  - rewrite IH. split.
    + intros [[post E]|(pre & post & ->)]; [by exists EmptyString, post|by exists (String a pre), post].
    + intros (pre & post & E). destruct pre as [|b pre]; [left; by exists post|].
      injection E as <- ->. right. by exists pre, post.
Qed.

Lemma existsb_iff {A} (f : A -> bool) l : existsb f l = true <-> exists x, x ∈ l /\ f x = true.
Proof. rewrite existsb_exists. by setoid_rewrite list_elem_of_In. Qed.

Lemma eval_ruleset_iff name ctx reg :
  eval_ruleset name ctx reg = true <-> pred_holds (RulesetMember name) ctx reg.
Proof.
  unfold eval_ruleset, pred_holds. destruct (reg !! name) as [rs|]; [|naive_solver].
  transitivity (match rr_format rs with
    | DomainSuffix => exists pre s, s ∈ entries rs /\ hostname ctx = Some (pre +:+ s)
    | IpCidr => exists ip n, n ∈ cidrs rs /\ net_contains n ip = true
                  /\ (rr_field rs = Some FSrcIp /\ src_ip ctx = Some ip
                      \/ rr_field rs = Some FDstIp /\ dst_ip ctx = Some ip)
    | Classical => False end); [|naive_solver].
  destruct (rr_format rs); [| |done].
  - rewrite is_some_and_iff. setoid_rewrite existsb_iff. setoid_rewrite ends_with_iff. naive_solver.
  - rewrite is_some_and_iff. setoid_rewrite existsb_iff. unfold pick_ip.
    destruct (rr_field rs) as [[]|]; naive_solver.
Qed.

Lemma eval_predicate_iff p ctx reg : eval_predicate p ctx reg = true <-> pred_holds p ctx reg.
Proof.
  destruct p; cbn [eval_predicate pred_holds];
    rewrite ?is_eq_iff, ?is_some_and_iff, ?existsb_iff, ?bool_decide_eq_true; try done.
  - setoid_rewrite andb_true_iff. by setoid_rewrite Z.leb_le.
  - setoid_rewrite ends_with_iff. naive_solver.
  - setoid_rewrite str_contains_iff. naive_solver.
  - apply eval_ruleset_iff.
  - symmetry. apply not_eq_None_Some.
  - setoid_rewrite existsb_iff. setoid_rewrite Z.eqb_eq. naive_solver.
  - setoid_rewrite bool_decide_eq_true. naive_solver.
Qed.

Lemma eval_match_iff m ctx reg : eval_match m ctx reg = true <-> holds m ctx reg.
Proof.
  induction m as [p|p|xs IH|xs IH|x IH] using match_ind; cbn [eval_match holds];
    [apply eval_predicate_iff..| | |].
  - induction IH as [|x xs Hx _ IHxs]; simpl; [done|]. by rewrite andb_true_iff, Hx, IHxs.
  - induction IH as [|x xs Hx _ IHxs]; simpl; [done|]. by rewrite orb_true_iff, Hx, IHxs.
  - rewrite negb_true_iff, <- IH. by destruct (eval_match x ctx reg).
Qed.

Lemma eval_rules_iff k rs dflt ctx reg d :
  eval_rules k rs dflt ctx reg = d <->
  (exists i r, rs !! i = Some r /\ holds (rule_match r) ctx reg
     /\ (forall j r', (j < i)%nat -> rs !! j = Some r' -> ~ holds (rule_match r') ctx reg)
     /\ d = mkDecision (rule_action r) (mkTrace true (Some (k + i)%nat) (rule_id r) false))
  \/ Forall (fun r => ~ holds (rule_match r) ctx reg) rs
     /\ d = mkDecision dflt (mkTrace false None None true).
Proof.
  revert k. induction rs as [|r rs IH]; intros k; cbn [eval_rules].
  { split; [intros <-; by right|]. intros [(i & r & Hi & _)|[_ ->]]; [done|done]. }
  destruct (eval_match (rule_match r) ctx reg) eqn:E.
  - apply eval_match_iff in E. split.
    + intros <-. left. exists 0%nat, r. rewrite Nat.add_0_r. split_and!; [done|done|lia|done].
    + intros [(i & r' & Hi & Hh & Hb & ->)|[Hf _]]; [|by apply Forall_cons in Hf as [? _]].
      destruct i as [|i]; [injection Hi as <-; by rewrite Nat.add_0_r|].
      exfalso. apply (Hb 0%nat r); [lia|done|done].
  - assert (Hn : ~ holds (rule_match r) ctx reg) by (rewrite <- eval_match_iff; congruence).
    rewrite (IH (S k)). split.
    + intros [(i & r' & Hi & Hh & Hb & ->)|[Hf ->]]; [left|right; by split; [constructor|]].
      exists (S i), r'. rewrite Nat.add_succ_r. split_and!; [done|done| |done].
      intros [|j] r'' Hj Hl; [by injection Hl as <-|]. apply (Hb j); [lia|done].
    + intros [(i & r' & Hi & Hh & Hb & ->)|[Hf ->]]; [|right; by apply Forall_cons in Hf as [_ ?]].
      destruct i as [|i]; [by injection Hi as <-|]. left. exists i, r'.
      replace (S k + i)%nat with (k + S i)%nat by lia. split_and!; [done|done| |done]. intros j r'' Hj Hl. apply (Hb (S j)); [lia|done].
Qed.

(** ** The contract of validation *)

Definition pred_ok (p : Predicate) : Prop :=
  match p with
  | DstPortRange a b => a <= b
  | HostnameExact s | OperationEq s | HostnameSuffix s | HostnameKeyword s | FragmentGroupExact s
  | RulesetMember s | Consumer s | DnsQtype s | AuthenticatedUserEq s | DstGeoEq s | GeositeTag s =>
      s <> EmptyString
  | HostnameRegex r => regex_str r <> EmptyString
  | AsnAny l => l <> []
  | _ => True
  end.

Inductive match_ok : MatchExpr -> Prop :=
| ok_term p : pred_ok p -> match_ok (Term p)
| ok_pred p : pred_ok p -> match_ok (Pred p)
| ok_all xs : xs <> [] -> Forall match_ok xs -> match_ok (All xs)
| ok_any xs : xs <> [] -> Forall match_ok xs -> match_ok (Any xs)
| ok_not x : match_ok x -> match_ok (Not x).

(** The simple actions of an action, and that no composition is empty. *)
Fixpoint leaves (a : Action) : list Action :=
  match a with Compose l => flat_map leaves l | a => [a] end.

Fixpoint no_empty (a : Action) : bool :=
  match a with Compose [] => false | Compose l => forallb no_empty l | _ => true end.

Definition leaf_ok (a : Action) : Prop :=
  match a with
  | SetRouteGroup g => g <> EmptyString
  | SetResolverPool p => p <> EmptyString
  | SetScheduleHint (HFanOut k) => k <> 0
  | SetTransform _ params => is_null params = true \/ is_object params = true
  | SetCostBias n => -9000 <= n <= 9000
  | _ => True
  end.

Definition is_allow (a : Action) : bool := match a with Allow => true | _ => false end.
Definition is_deny (a : Action) : bool := match a with Deny => true | _ => false end.
Definition is_group (a : Action) : bool := match a with SetRouteGroup _ => true | _ => false end.
Definition is_pool (a : Action) : bool := match a with SetResolverPool _ => true | _ => false end.
Definition is_bias (a : Action) : bool := match a with SetCostBias _ => true | _ => false end.

Definition count (f : Action -> bool) (l : list Action) : nat := length (List.filter f l).

(** Among the simple actions: no [Allow] with a [Deny], and at most one of each of
    the settings that can hold one value. *)
Definition compatible (l : list Action) : Prop :=
  ~ (Allow ∈ l /\ Deny ∈ l)
  /\ (count is_group l <= 1)%nat /\ (count is_pool l <= 1)%nat /\ (count is_bias l <= 1)%nat.

Definition action_ok (a : Action) : Prop :=
  no_empty a = true /\ Forall leaf_ok (leaves a) /\ compatible (leaves a).

Definition ruleset_ok (rs : Ruleset) : Prop :=
  rs_name rs <> EmptyString
  /\ match rs_source rs with
     | Inline values => values <> [] /\ Forall (fun v => v <> EmptyString) values
     | LocalFile path => path <> EmptyString
     end
  /\ match rs_format rs with
     | IpCidr => rs_field rs = Some FSrcIp \/ rs_field rs = Some FDstIp
     | DomainSuffix => rs_field rs = Some FHostname
     | Classical => rs_field rs = None
     end.

Definition rule_ok (r : Rule) : Prop :=
  rule_id r <> Some EmptyString /\ match_ok (rule_match r) /\ action_ok (rule_action r).

Definition chain_ok (chain : RuleChain) (rulesets : list Ruleset) : Prop :=
  Forall rule_ok (rules chain) /\ action_ok (chain_default chain)
  /\ Forall ruleset_ok rulesets /\ NoDup (rs_name <$> rulesets).

(** ** Validation decides it *)

Lemma empty_iff {E} (s : string) (e : E) :
  (if str_is_empty s then Err e else Ok tt) = Ok tt <-> s <> EmptyString.
Proof. by destruct s. Qed.

Lemma validate_predicate_iff p : validate_predicate p = Ok tt <-> pred_ok p.
Proof.
  destruct p; cbn [validate_predicate pred_ok]; unfold check_value; try apply empty_iff; try done.
  - destruct (Z.ltb_spec b a); split; try done; lia.
  - match goal with |- context [match ?l with [] => _ | _ => _ end] => by destruct l end.
Qed.

Lemma try_each_Forall {A E} (f : A -> result unit E) (P : A -> Prop) l :
  Forall (fun x => f x = Ok tt <-> P x) l -> try_each f l = Ok tt <-> Forall P l.
Proof.
  intros Hl. rewrite try_each_ok. split; intros Hf; rewrite Forall_forall in *; intros x Hx;
    apply (Hl x Hx), Hf, Hx.
Qed.

Lemma validate_match_iff m : validate_match m = Ok tt <-> match_ok m.
Proof.
  induction m as [p|p|xs IH|xs IH|x IH] using match_ind; cbn [validate_match].
  - rewrite validate_predicate_iff. split; [by constructor|by inversion 1].
  - rewrite validate_predicate_iff. split; [by constructor|by inversion 1].
  - destruct xs as [|x xs]; [split; [done|by inversion 1]|].
    rewrite (try_each_Forall _ _ _ IH). split; [by constructor|by inversion 1].
  - destruct xs as [|x xs]; [split; [done|by inversion 1]|].
    rewrite (try_each_Forall _ _ _ IH). split; [by constructor|by inversion 1].
  - rewrite IH. split; [by constructor|by inversion 1].
Qed.

(** The effect of one simple action. *)
Definition leaf_effect (out : ComposeEffects) (a : Action) : ComposeEffects :=
  let '(mkEffects al de rg rp cb) := out in
  mkEffects (al || is_allow a) (de || is_deny a) (rg + if is_group a then 1 else 0)
    (rp + if is_pool a then 1 else 0) (cb + if is_bias a then 1 else 0).

Lemma collect_effects_leaves a out : collect_effects a out = fold_left leaf_effect (leaves a) out.
Proof.
  revert out. induction a as [a Ha|l IH] using action_ind; intros out.
  - destruct a; try (by destruct (Ha actions)); destruct out; simpl;
      by rewrite ?orb_true_r, ?orb_false_r, ?Nat.add_0_r, ?Nat.add_1_r.
  - destruct out as [al de rg rp cb]. cbn [collect_effects leaves].
    generalize (mkEffects al de rg rp cb). induction IH as [|x l Hx _ IHl]; intros out; simpl; [done|].
    by rewrite IHl, Hx, fold_left_app.
Qed.

Lemma fold_leaf_effects l out :
  fold_left leaf_effect l out
  = mkEffects (has_allow out || existsb is_allow l) (has_deny out || existsb is_deny l)
      (route_groups out + count is_group l) (resolver_pools out + count is_pool l)
      (cost_biases out + count is_bias l).
Proof.
  unfold count. revert out. induction l as [|a l IH]; intros [al de rg rp cb]; simpl.
  { by rewrite !orb_false_r, !Nat.add_0_r. }
  rewrite IH. simpl. rewrite <- !orb_assoc. f_equal; [..]; repeat case_match; simpl; lia.
Qed.

Lemma is_allow_elem l : existsb is_allow l = true <-> Allow ∈ l.
Proof.
  rewrite existsb_iff. split; [|by intros Hl; exists Allow].
  intros (a & Ha & E). by destruct a.
Qed.

Lemma is_deny_elem l : existsb is_deny l = true <-> Deny ∈ l.
Proof.
  rewrite existsb_iff. split; [|by intros Hl; exists Deny].
  intros (a & Ha & E). by destruct a.
Qed.

Lemma check_effects_iff a : check_effects a = Ok tt <-> compatible (leaves a).
Proof.
  unfold check_effects, compatible. rewrite collect_effects_leaves, fold_leaf_effects. simpl.
  rewrite <- is_allow_elem, <- is_deny_elem.
  destruct (existsb is_allow (leaves a)), (existsb is_deny (leaves a)); simpl;
    repeat (match goal with |- context [(1 <? ?x)%nat] => destruct (Nat.ltb_spec 1 x) end);
    split; try done; try lia; try (intros (Hn & ? & ? & ?); first [lia|by destruct Hn]);
    intros _; (split; [by intros [? ?]|lia]).
Qed.

(** The simple actions of a part are among those of the whole. *)
Lemma compatible_sublist l k : sublist l k -> compatible k -> compatible l.
Proof.
  intros Hs (Hn & Hg & Hp & Hb).
  assert (Hc : forall f, (count f l <= count f k)%nat).
  { intros f. unfold count. clear -Hs. induction Hs; simpl; [lia|..]; case_match; simpl; lia. }
  assert (Hi : forall x, x ∈ l -> x ∈ k) by (intros x Hx; by eapply elem_of_sublist).
  split_and!; [|etrans; [apply Hc|done]..]. intros [? ?]. apply Hn. split; by apply Hi.
Qed.

Lemma leaves_sublist x l : x ∈ l -> sublist (leaves x) (flat_map leaves l).
Proof.
  induction l as [|y l IH]; intros Hx; [by apply not_elem_of_nil in Hx|]. simpl.
  apply elem_of_cons in Hx as [->|Hx]; [by apply sublist_inserts_r|by apply sublist_inserts_l, IH].
Qed.

Lemma action_ok_compose l :
  l <> [] -> action_ok (Compose l) <-> Forall action_ok l /\ compatible (flat_map leaves l).
Proof.
  intros Hne. unfold action_ok at 1.
  assert (Hempty : no_empty (Compose l) = forallb no_empty l) by (by destruct l).
  rewrite Hempty, forallb_forall. cbn [leaves]. rewrite !Forall_forall. split.
  - intros (Hn & Hl & Hc). split; [|done]. intros x Hx. split_and!.
    + by apply Hn, list_elem_of_In.
    + apply Forall_forall. intros y Hy. apply Hl. by eapply elem_of_sublist, leaves_sublist.
    + by eapply compatible_sublist; [apply leaves_sublist|].
  - intros [Hf Hc]. split_and!; [| |done].
    + intros x Hx. apply list_elem_of_In in Hx. by destruct (Hf x Hx).
    + intros y Hy. apply list_elem_of_In, in_flat_map in Hy as (x & Hx & Hy).
      apply list_elem_of_In in Hx. destruct (Hf x Hx) as (_ & Hl & _). rewrite Forall_forall in Hl.
      by apply Hl, list_elem_of_In.
Qed.

Lemma action_ok_leaf a : (forall l, a <> Compose l) -> action_ok a <-> leaf_ok a.
Proof.
  intros Ha. assert (Hl : leaves a = [a]) by (destruct a; try done; by destruct (Ha actions)).
  assert (Hn : no_empty a = true) by (destruct a; try done; by destruct (Ha actions)).
  unfold action_ok. rewrite Hl, Hn, Forall_singleton. unfold compatible, count.
  split; [tauto|]. intros Hok. split_and!; [done|done| |simpl; case_match; simpl; lia..].
  rewrite !list_elem_of_singleton. intros [<- ?]. done.
Qed.

Lemma validate_action_iff a : validate_action a = Ok tt <-> action_ok a.
Proof.
  induction a as [a Ha|l IH] using action_ind.
  - rewrite action_ok_leaf by done.
    destruct a as [| |g|p|[|k]|k params|l|n]; cbn [validate_action leaf_ok]; try done;
      try apply empty_iff; try by destruct (Ha l).
    + destruct (Z.eqb_spec k 0); split; done.
    + destruct (is_null params), (is_object params); simpl; naive_solver.
    + destruct (Z.leb_spec (-9000) n), (Z.leb_spec n 9000); simpl; split; try done; lia.
  - destruct l as [|x l]; [split; [done|by intros [? _]]|].
    rewrite action_ok_compose by done.
    change (validate_action (Compose (x :: l)))
      with (do? try_each validate_action (x :: l); check_effects (Compose (x :: l))).
    rewrite seq_ok, (try_each_Forall _ _ _ IH), check_effects_iff. done.
Qed.

Lemma validate_ruleset_iff rs : validate_ruleset rs = Ok tt <-> ruleset_ok rs.
Proof.
  unfold validate_ruleset, ruleset_ok. destruct (rs_name rs) as [|c n]; simpl; [split; [done|by intros [? _]]|].
  rewrite seq_ok.
  assert (Hsrc : match rs_source rs with
     | Inline [] => Err (EmptyRulesetValue (String c n))
     | Inline values => if existsb str_is_empty values then Err (EmptyRulesetValue (String c n)) else Ok tt
     | LocalFile path => if str_is_empty path then Err (EmptyRulesetPath (String c n)) else Ok tt
     end = Ok tt <-> match rs_source rs with
     | Inline values => values <> [] /\ Forall (fun v => v <> EmptyString) values
     | LocalFile path => path <> EmptyString
     end).
  { destruct (rs_source rs) as [values|path]; [|apply empty_iff].
    destruct values as [|v vs]; [naive_solver|].
    destruct (existsb str_is_empty (v :: vs)) eqn:E; split; try done.
    - intros [_ Hf]. apply existsb_iff in E as (x & Hx & Ex). rewrite Forall_forall in Hf.
      destruct x; [by destruct (Hf _ Hx)|done].
    - intros _. split; [done|]. apply Forall_forall. intros x Hx ->.
      rewrite <- not_true_iff_false, existsb_iff in E. apply E. by exists EmptyString. }
  rewrite Hsrc. destruct (rs_format rs), (rs_field rs) as [[]|]; naive_solver.
Qed.

Lemma validate_rulesets_iff seen rss :
  validate_rulesets seen rss = Ok tt <->
  Forall ruleset_ok rss /\ NoDup (rs_name <$> rss) /\ Forall (fun n => n ∉ seen) (rs_name <$> rss).
Proof.
  revert seen. induction rss as [|rs rss IH]; intros seen; simpl.
  { split; [intros _; split_and!; constructor|done]. }
  rewrite !seq_ok, ensure_ok, validate_ruleset_iff, IH, negb_true_iff, bool_decide_eq_false.
  rewrite NoDup_cons, !Forall_cons, !Forall_forall. set_solver.
Qed.

Lemma validate_rule_iff r : validate_rule r = Ok tt <-> rule_ok r.
Proof.
  unfold validate_rule, rule_ok.
  rewrite !seq_ok, ensure_ok, validate_match_iff, validate_action_iff, negb_true_iff.
  unfold is_eq. by rewrite bool_decide_eq_false.
Qed.

Lemma validate_iff chain rss : validate chain rss = Ok tt <-> chain_ok chain rss.
Proof.
  unfold validate, chain_ok. rewrite !seq_ok, validate_action_iff, validate_rulesets_iff.
  rewrite (try_each_Forall validate_rule rule_ok)
    by (apply Forall_forall; intros r _; apply validate_rule_iff).
  rewrite !Forall_forall. set_solver.
Qed.
End Facts.

(** ** Properties *)

(** a chain decides by its first rule whose match expression holds of the
    context, read as a proposition (conjunction, disjunction and negation over
    predicates, suffix and keyword matches as decompositions of the host name),
    with that rule's action, index and id in the trace; when no rule's holds the
    default action is taken and the trace says so. *)
Theorem rule_chain_first_match `{RuleLibs} (chain : RuleChain) (ctx : RuleCtx)
    (reg : RuleSetRegistry) (d : RuleDecision) :
  evaluate_with_trace chain ctx reg = d <->
  (exists i r, rules chain !! i = Some r /\ holds (rule_match r) ctx reg
     /\ (forall j r', (j < i)%nat -> rules chain !! j = Some r' -> ~ holds (rule_match r') ctx reg)
     /\ d = mkDecision (rule_action r) (mkTrace true (Some i) (rule_id r) false))
  \/ Forall (fun r => ~ holds (rule_match r) ctx reg) (rules chain)
     /\ d = mkDecision (chain_default chain) (mkTrace false None None true).
Proof. apply (eval_rules_iff 0). Qed.

(** validation accepts exactly the chains and rulesets of the contract: ids,
    predicate values and groups are not empty, port ranges are ordered, the
    simple actions of every composition (at any depth) are well-formed, hold at
    most one route group, resolver pool and cost bias and never both [Allow] and
    [Deny], and rulesets are complete, fit their format and have distinct names. *)
Theorem rule_validation_exact `{RuleLibs} (chain : RuleChain) (rulesets : list Ruleset) :
  validate chain rulesets = Ok tt <-> chain_ok chain rulesets.
Proof. apply validate_iff. Qed.

(** ** A concrete engine *)

Module Demo.
(** Prefixes as (address, bits) of IPv4, expressions that match one host, and
    JSON that is null, an object or something else. *)
#[local] Instance demo_libs : RuleLibs := {|
  IpNet := Z * Z;
  net_contains := fun '(a, bits) ip =>
    match ip with V4 x => Z.shiftr x (32 - bits) =? Z.shiftr a (32 - bits) | V6 _ => false end;
  Regex := string;
  is_match := fun r h => bool_decide (r = h);
  regex_str := fun r => r;
  Json := option bool;
  is_null := fun j => bool_decide (j = None);
  is_object := fun j => bool_decide (j = Some true)
|}.

Definition ctx (h : string) (ip : Z) : RuleCtx :=
  mkRuleCtx (Some (V4 ip)) None (Some 443) (Some Tcp) None None None None None None None (Some h)
    None None None None None None [].

Definition chain : RuleChain :=
  mkChain
    [mkRule (Some "lan") (All [Pred (SrcCidr (167772160, 8)); Not (Pred (DstPortEq 22))]) (SetRouteGroup "lan");
     mkRule None (Any [Pred (HostnameSuffix ".example"); Pred (RulesetMember "ads")])
       (Compose [Allow; SetRouteGroup "out"; SetCostBias (-100)])]
    Deny.

Example demo_decisions :
  validate chain [] = Ok tt
  /\ evaluate_with_trace chain (ctx "a.example" 167772161) ∅
     = mkDecision (SetRouteGroup "lan") (mkTrace true (Some 0%nat) (Some "lan") false)
  /\ trace (evaluate_with_trace chain (ctx "a.example" 1) ∅) = mkTrace true (Some 1%nat) None false
  /\ decision_action (evaluate_with_trace chain (ctx "b.test" 1) ∅) = Deny.
Proof. vm_compute. split_and!; reflexivity. Qed.

Example demo_conflict_in_depth :
  validate (mkChain [] (Compose [Allow; Compose [SetRouteGroup "g"; Compose [Deny]]])) []
  = Err ComposeAllowDenyConflict.
Proof. reflexivity. Qed.
End Demo.
