(* ===== verification/Socks5.v ===== *)
(** The SOCKS5 wire codec (lib/mb-proto-socks5/src/lib.rs): greetings, requests,
    replies, UDP datagrams, user/password negotiation, with their round trips and
    exact incompleteness.  A decoder returns its value and the bytes left in the
    buffer; an error leaves the buffer as it was. *)
From S2P Require Import Prelude Numbers Endpoint NetAddr.
Local Open Scope Z_scope.

Inductive Method := NoAuth | GssApi | UserPass | Unknown (code : Z).

Definition wire_code (m : Method) : Z :=
  match m with NoAuth => 0x00 | GssApi => 0x01 | UserPass => 0x02 | Unknown c => c end.

Inductive Reply :=
| Succeeded | GeneralFailure | ConnectionNotAllowed | NetworkUnreachable | HostUnreachable
| ConnectionRefused | TtlExpired | CommandNotSupported | AddressTypeNotSupported.

(** [reply as u8] *)
Definition reply_code (r : Reply) : Z :=
  match r with
  | Succeeded => 0 | GeneralFailure => 1 | ConnectionNotAllowed => 2 | NetworkUnreachable => 3
  | HostUnreachable => 4 | ConnectionRefused => 5 | TtlExpired => 6 | CommandNotSupported => 7
  | AddressTypeNotSupported => 8
  end.

Definition reply_from_wire (code : Z) : Reply :=
  match code with
  | 0 => Succeeded | 2 => ConnectionNotAllowed | 3 => NetworkUnreachable | 4 => HostUnreachable
  | 5 => ConnectionRefused | 6 => TtlExpired | 7 => CommandNotSupported | 8 => AddressTypeNotSupported
  | _ => GeneralFailure
  end.

Inductive Command := Connect | Bind | UdpAssociate.

Definition command_code (c : Command) : Z := match c with Connect => 1 | Bind => 2 | UdpAssociate => 3 end.

Record Request := mkRequest { command : Command; req_endpoint : Endpoint }.
Record ReplyFrame := mkReply { reply : Reply; reply_endpoint : option Endpoint }.
Record UdpDatagram := mkUdp { target : Endpoint; payload : list Z }.
Record UserPassRequest := mkUserPass { username : list Z; password : list Z }.

Inductive CodecError :=
| Incomplete
| UnsupportedVersion (v : Z)
| InvalidAtyp (v : Z)
| UnsupportedCommand (v : Z)
| UnsupportedFragment (v : Z)
| ReservedNotZero (v : Z)
| InvalidHost
| EndpointRejected (e : ParseError)
| UnsupportedAuthVersion (v : Z)
| InvalidAuthLen.

Definition USER_PASS_VERSION : Z := 0x01.
Definition USER_PASS_STATUS_SUCCESS : Z := 0x00.
Definition USER_PASS_STATUS_FAILURE : Z := 0xff.

(** [buf[i]], within the length the code has checked. *)
Definition at_ (buf : list Z) (i : nat) : Z := nth i buf 0.
Definition slice (a b : nat) (buf : list Z) : list Z := take (b - a) (drop a buf).

(** ** Greeting *)

Definition encode_greeting (methods : list Method) : list Z :=
  [0x05; as_u8 (Z.of_nat (length methods))] ++ (wire_code <$> methods).

Definition method_of (b : Z) : Method :=
  match b with 0 => NoAuth | 1 => GssApi | 2 => UserPass | other => Unknown other end.

Definition decode_greeting (buf : list Z) : result (list Method * list Z) CodecError :=
  if (length buf <? 2)%nat then Err Incomplete
  else if negb (at_ buf 0 =? 0x05) then Err (UnsupportedVersion (at_ buf 0))
  else
    let n := Z.to_nat (at_ buf 1) in
    if (length buf <? 2 + n)%nat then Err Incomplete
    else Ok (method_of <$> slice 2 (2 + n) buf, drop (2 + n) buf).

(** ** Endpoints *)

Definition encode_endpoint (e : Endpoint) : list Z :=
  match parse_ipv4 (host e) with
  | Some ip4 => [0x01] ++ ip4
  | None =>
      match parse_ipv6 (host e) with
      | Some ip6 => [0x04] ++ octets_of_groups ip6
      | None => [0x03; as_u8 (Z.of_nat (String.length (host e)))] ++ bytes_of_string (host e)
      end
  end ++ to_be_bytes 2 (port e).

Definition decode_endpoint_at (buf : list Z) (offset : nat) : result (Endpoint * nat) CodecError :=
  if (length buf <=? offset)%nat then Err Incomplete
  else
    let atyp := at_ buf offset in
    let? (host, host_end) :=
      (if atyp =? 0x01 then
         if (length buf <? offset + 1 + 4 + 2)%nat then Err Incomplete
         else
           let start := (offset + 1)%nat in
           Ok (show_ipv4 [at_ buf start; at_ buf (start + 1); at_ buf (start + 2); at_ buf (start + 3)],
               (start + 4)%nat)
       else if atyp =? 0x03 then
         if (length buf <? offset + 2)%nat then Err Incomplete
         else
           let len := Z.to_nat (at_ buf (offset + 1)) in
           if (length buf <? offset + 2 + len + 2)%nat then Err Incomplete
           else
             let start := (offset + 2)%nat in
             match from_utf8 (slice start (start + len) buf) with
             | None => Err InvalidHost
             | Some host => Ok (host, (start + len)%nat)
             end
       else if atyp =? 0x04 then
         if (length buf <? offset + 1 + 16 + 2)%nat then Err Incomplete
         else
           let start := (offset + 1)%nat in
           Ok (show_ipv6 (groups_of_octets (slice start (start + 16) buf)), (start + 16)%nat)
       else Err (InvalidAtyp atyp)) in
    let port := from_be_bytes [at_ buf host_end; at_ buf (host_end + 1)] in
    match endpoint_new host port with
    | Err e => Err (EndpointRejected e)
    | Ok ep => Ok (ep, (host_end + 2)%nat)
    end.

Definition endpoint_total_at (buf : list Z) (offset : nat) : result nat CodecError :=
  if (length buf <=? offset)%nat then Err Incomplete
  else
    let b := at_ buf offset in
    let? total :=
      (if b =? 0x01 then Ok (offset + 1 + 4 + 2)%nat
       else if b =? 0x03 then
         if (length buf <? offset + 2)%nat then Err Incomplete
         else Ok (offset + 2 + Z.to_nat (at_ buf (offset + 1)) + 2)%nat
       else if b =? 0x04 then Ok (offset + 1 + 16 + 2)%nat
       else Err (InvalidAtyp b)) in
    if (length buf <? total)%nat then Err Incomplete else Ok total.

(** ** Requests *)

Definition encode_request (c : Command) (e : Endpoint) : list Z :=
  [0x05; command_code c; 0x00] ++ encode_endpoint e.
Definition encode_connect_request (e : Endpoint) : list Z := encode_request Connect e.
Definition encode_udp_associate_request (e : Endpoint) : list Z := encode_request UdpAssociate e.

Definition command_of (b : Z) : result Command CodecError :=
  match b with 1 => Ok Connect | 2 => Ok Bind | 3 => Ok UdpAssociate | other => Err (UnsupportedCommand other) end.

Definition decode_request (buf : list Z) : result (Request * list Z) CodecError :=
  if (length buf <? 7)%nat then Err Incomplete
  else if negb (at_ buf 0 =? 0x05) then Err (UnsupportedVersion (at_ buf 0))
  else
    let? command := command_of (at_ buf 1) in
    if negb (at_ buf 2 =? 0) then Err (ReservedNotZero (at_ buf 2))
    else
      let? (ep, total) := decode_endpoint_at buf 3 in
      Ok (mkRequest command ep, drop total buf).

(** The request is consumed even when its command is not CONNECT. *)
Definition decode_connect_request (buf : list Z) : result Endpoint CodecError * list Z :=
  match decode_request buf with
  | Err e => (Err e, buf)
  | Ok (r, rest) =>
      match command r with
      | Connect => (Ok (req_endpoint r), rest)
      | c => (Err (UnsupportedCommand (command_code c)), rest)
      end
  end.

(** ** Replies *)

Definition encode_reply (r : Reply) : list Z := [0x05; reply_code r; 0x00; 0x01; 127; 0; 0; 1; 0; 0].
Definition encode_reply_with_endpoint (r : Reply) (e : Endpoint) : list Z :=
  [0x05; reply_code r; 0x00] ++ encode_endpoint e.

Definition reply_header (buf : list Z) : result Reply CodecError :=
  if (length buf <? 10)%nat then Err Incomplete
  else if negb (at_ buf 0 =? 0x05) then Err (UnsupportedVersion (at_ buf 0))
  else if negb (at_ buf 2 =? 0) then Err (ReservedNotZero (at_ buf 2))
  else Ok (reply_from_wire (at_ buf 1)).

Definition decode_reply (buf : list Z) : result (Reply * list Z) CodecError :=
  let? r := reply_header buf in
  let? total := endpoint_total_at buf 3 in
  Ok (r, drop total buf).

Definition decode_reply_frame (buf : list Z) : result (ReplyFrame * list Z) CodecError :=
  let? r := reply_header buf in
  let? total := endpoint_total_at buf 3 in
  let endpoint := match decode_endpoint_at buf 3 with Ok (e, _) => Some e | Err _ => None end in
  Ok (mkReply r endpoint, drop total buf).

Definition reply_frame_total_len (buf : list Z) : result nat CodecError :=
  if (length buf <? 4)%nat then Err Incomplete
  else
    let b := at_ buf 3 in
    if b =? 0x01 then Ok (4 + 4 + 2)%nat
    else if b =? 0x04 then Ok (4 + 16 + 2)%nat
    else if b =? 0x03 then
      if (length buf <? 5)%nat then Err Incomplete else Ok (4 + 1 + Z.to_nat (at_ buf 4) + 2)%nat
    else Err (InvalidAtyp b).

(** ** UDP datagrams *)

Definition encode_udp_datagram (e : Endpoint) (payload : list Z) : list Z :=
  [0x00; 0x00; 0x00] ++ encode_endpoint e ++ payload.

(** The whole buffer is consumed. *)
Definition decode_udp_datagram (buf : list Z) : result UdpDatagram CodecError :=
  if (length buf <? 7)%nat then Err Incomplete
  else if negb (at_ buf 0 =? 0) || negb (at_ buf 1 =? 0) then Err (UnsupportedVersion (at_ buf 0))
  else if negb (at_ buf 2 =? 0) then Err (UnsupportedFragment (at_ buf 2))
  else
    let? (target, payload_start) := decode_endpoint_at buf 3 in
    Ok (mkUdp target (drop payload_start buf)).

(** ** User/password *)

Definition auth_len_ok (l : list Z) : bool := negb (length l =? 0)%nat && negb (255 <? length l)%nat.

Definition encode_user_pass_request (user pass : list Z) : result (list Z) CodecError :=
  if negb (auth_len_ok user) then Err InvalidAuthLen
  else if negb (auth_len_ok pass) then Err InvalidAuthLen
  else Ok ([USER_PASS_VERSION; as_u8 (Z.of_nat (length user))] ++ user
           ++ [as_u8 (Z.of_nat (length pass))] ++ pass).

Definition decode_user_pass_request (buf : list Z) : result (UserPassRequest * list Z) CodecError :=
  if (length buf <? 2)%nat then Err Incomplete
  else if negb (at_ buf 0 =? USER_PASS_VERSION) then Err (UnsupportedAuthVersion (at_ buf 0))
  else
    let ulen := Z.to_nat (at_ buf 1) in
    if (ulen =? 0)%nat then Err InvalidAuthLen
    else if (length buf <? 2 + ulen + 1)%nat then Err Incomplete
    else
      let plen := Z.to_nat (at_ buf (2 + ulen)) in
      if (plen =? 0)%nat then Err InvalidAuthLen
      else
        let total := (2 + ulen + 1 + plen)%nat in
        if (length buf <? total)%nat then Err Incomplete
        else Ok (mkUserPass (slice 2 (2 + ulen) buf) (slice (2 + ulen + 1) total buf), drop total buf).

Definition encode_user_pass_reply (status : Z) : list Z := [USER_PASS_VERSION; status].

Definition decode_user_pass_reply (buf : list Z) : result (Z * list Z) CodecError :=
  if (length buf <? 2)%nat then Err Incomplete
  else if negb (at_ buf 0 =? USER_PASS_VERSION) then Err (UnsupportedAuthVersion (at_ buf 0))
  else Ok (at_ buf 1, drop 2 buf).
