(* ===== verification/Socks5Facts.v ===== *)
(** The SOCKS5 codec, the theorems: every message is read back from its encoding
    whatever follows it, and a proper prefix of a request is incomplete. *)
From S2P Require Import Prelude Numbers Endpoint NetAddr Socks5.
Local Open Scope Z_scope.

(** ** Reading behind a prefix *)

Lemma at_shift pre l i : at_ (pre ++ l) (length pre + i) = at_ l i.
Proof. unfold at_. apply app_nth2_plus. Qed.

Lemma at_shift0 pre l : at_ (pre ++ l) (length pre) = at_ l 0.
Proof. rewrite <- (at_shift pre l 0). f_equal. lia. Qed.

Lemma slice_shift pre l a b : slice (length pre + a) (length pre + b) (pre ++ l) = slice a b l.
Proof.
  unfold slice. rewrite drop_app_ge by lia. f_equal; [lia|]. f_equal. lia.
Qed.

Lemma slice_front l r : slice 0 (length l) (l ++ r) = l.
Proof. unfold slice. rewrite Nat.sub_0_r. apply take_app_length. Qed.

(** Reading an endpoint at an offset is reading it at the start of what follows. *)
Lemma decode_endpoint_shift pre l :
  decode_endpoint_at (pre ++ l) (length pre)
  = match decode_endpoint_at l 0 with Ok (e, n) => Ok (e, (length pre + n)%nat) | Err x => Err x end.
Proof.
  unfold decode_endpoint_at. rewrite length_app, at_shift0.
  assert (Hle : (length pre + length l <=? length pre)%nat = (length l <=? 0)%nat)
    by (apply eq_bool_prop_intro; rewrite !Is_true_true, !Nat.leb_le; lia).
  assert (Hlt : forall k m, m = (length pre + k)%nat -> (length pre + length l <? m)%nat = (length l <? k)%nat)
    by (intros k m ->; apply eq_bool_prop_intro; rewrite !Is_true_true, !Nat.ltb_lt; lia).
  rewrite Hle. destruct (length l <=? 0)%nat; [done|].
  destruct (at_ l 0 =? 1); [|destruct (at_ l 0 =? 3); [|destruct (at_ l 0 =? 4); [|done]]].
  - rewrite (Hlt (0 + 1 + 4 + 2)%nat) by lia. destruct (length l <? _)%nat; [done|].
    rewrite <- !Nat.add_assoc, !at_shift. cbn [Nat.add].
    by destruct (endpoint_new _ _).
  - rewrite (Hlt (0 + 2)%nat) by lia. destruct (length l <? 0 + 2)%nat; [done|].
    rewrite at_shift. cbn [Nat.add].
    rewrite (Hlt (S (S (Z.to_nat (at_ l 1)) + 2))%nat) by lia. destruct (length l <? _)%nat; [done|].
    replace (length pre + 2 + Z.to_nat (at_ l 1))%nat with (length pre + (2 + Z.to_nat (at_ l 1)))%nat by lia.
    rewrite slice_shift. cbn [Nat.add]. destruct (from_utf8 _); [|done].
    rewrite <- (Nat.add_assoc (length pre)), !at_shift. cbn [Nat.add].
    destruct (endpoint_new _ _); [|done]. cbn. do 2 f_equal. lia.
  - rewrite (Hlt (0 + 1 + 16 + 2)%nat) by lia. destruct (length l <? _)%nat; [done|].
    rewrite <- !Nat.add_assoc, slice_shift, !at_shift. cbn [Nat.add].
    by destruct (endpoint_new _ _).
Qed.

(** ** Endpoints *)

(** The host a receiver reads: address literals in canonical form. *)
Definition canon_host (h : string) : string :=
  match parse_ipv4 h with
  | Some o => show_ipv4 o
  | None => match parse_ipv6 h with Some g => show_ipv6 g | None => h end
  end.

Definition canon (e : Endpoint) : Endpoint := mkEndpoint (canon_host (host e)) (port e).

(** Only IPv6 literals have another spelling. *)
Lemma canon_same e : parse_ipv6 (host e) = None -> canon e = e.
Proof.
  intros H6. unfold canon, canon_host. rewrite H6. destruct e as [h p]. simpl in *.
  destruct (parse_ipv4 h) as [o|] eqn:E; [|done]. apply parse_ipv4_shown in E as (_ & _ & ->). done.
Qed.

Lemma canon_ok e : endpoint_ok e -> endpoint_ok (canon e).
Proof.
  intros (Hh & Hl & Hp). unfold canon, canon_host, endpoint_ok. simpl.
  destruct (parse_ipv4 (host e)) as [o|] eqn:E4.
  - apply parse_ipv4_shown in E4 as (_ & _ & ->). done.
  - destruct (parse_ipv6 (host e)) as [g|] eqn:E6; [|done].
    apply parse_ipv6_ok in E6 as [Hg1 Hg2]. destruct (show_ipv6_len g Hg1 Hg2). done.
Qed.

Lemma canon_new e : endpoint_ok e -> endpoint_new (canon_host (host e)) (port e) = Ok (canon e).
Proof.
  intros He. apply endpoint_new_ok; [|split; [done|by apply canon_ok]]. destruct He as (_ & _ & ?). lia.
Qed.

Lemma port_bytes p : 0 <= p < 65536 -> exists a b, to_be_bytes 2 p = [a; b] /\ from_be_bytes [a; b] = p.
Proof.
  intros Hp. pose proof (to_be_bytes_length 2 p) as Hl. pose proof (from_to_be 2 p ltac:(simpl; lia)) as Hf.
  destruct (to_be_bytes 2 p) as [|a [|b [|]]]; simpl in Hl; try lia. exists a, b. done.
Qed.

Lemma encode_endpoint_length e :
  endpoint_ok e -> (7 <= length (encode_endpoint e) \/ parse_ipv4 (host e) = None /\ parse_ipv6 (host e) = None)%nat
  /\ (4 + 1 <= length (encode_endpoint e))%nat.
Proof.
  intros (Hh & _ & _). unfold encode_endpoint. rewrite length_app, to_be_bytes_length.
  destruct (parse_ipv4 (host e)) as [o|] eqn:E4.
  - apply parse_ipv4_shown in E4 as (Hl & _). simpl. rewrite Hl. split; [left|]; lia.
  - destruct (parse_ipv6 (host e)) as [g|] eqn:E6.
    + apply parse_ipv6_ok in E6 as [Hg _]. rewrite length_app, octets_length, Hg. split; [left|]; simpl; lia.
    + rewrite length_app, bytes_of_string_length. split; [right; done|].
      destruct (host e); simpl; [done|lia].
Qed.

Lemma decode_v6 o p1 p2 rest :
  length o = 16%nat ->
  decode_endpoint_at ([4] ++ o ++ p1 :: p2 :: rest) 0
  = match endpoint_new (show_ipv6 (groups_of_octets o)) (from_be_bytes [p1; p2]) with
    | Ok e => Ok (e, 19%nat)
    | Err x => Err (EndpointRejected x)
    end.
Proof.
  intros Ho. unfold decode_endpoint_at. rewrite (proj2 (Nat.leb_gt _ _)) by (simpl; lia).
  change (at_ ([4] ++ o ++ p1 :: p2 :: rest) 0) with 4. cbn [Z.eqb Pos.eqb].
  rewrite (proj2 (Nat.ltb_ge _ _)) by (rewrite !length_app, Ho; simpl; lia).
  change (slice (0 + 1) (0 + 1 + 16) ([4] ++ o ++ p1 :: p2 :: rest))
    with (slice (length [4] + 0) (length [4] + 16) ([4] ++ (o ++ p1 :: p2 :: rest))).
  rewrite slice_shift. rewrite <- Ho, slice_front, Ho.
  change ([4] ++ o ++ p1 :: p2 :: rest) with ((4 :: o) ++ p1 :: p2 :: rest).
  assert (Hi : (0 + 1 + 16)%nat = length (4 :: o)) by (simpl; lia). rewrite Hi, at_shift0, at_shift.
  cbn [at_ nth length]. by rewrite Ho.
Qed.

Lemma decode_domain l p1 p2 rest :
  decode_endpoint_at ([3; Z.of_nat (length l)] ++ l ++ p1 :: p2 :: rest) 0
  = match from_utf8 l with
    | None => Err InvalidHost
    | Some h => match endpoint_new h (from_be_bytes [p1; p2]) with
                | Ok e => Ok (e, (2 + length l + 2)%nat)
                | Err x => Err (EndpointRejected x)
                end
    end.
Proof.
  set (buf := [3; Z.of_nat (length l)] ++ l ++ p1 :: p2 :: rest).
  unfold decode_endpoint_at. rewrite (proj2 (Nat.leb_gt _ _)) by (simpl; lia).
  change (at_ buf 0) with 3. cbn [Z.eqb Pos.eqb].
  assert (Hlen : length buf = (2 + length l + 2 + length rest)%nat)
    by (subst buf; rewrite !length_app; simpl; lia).
  rewrite (proj2 (Nat.ltb_ge _ _)) by lia. change (at_ buf (0 + 1)) with (Z.of_nat (length l)).
  rewrite Nat2Z.id, (proj2 (Nat.ltb_ge _ _)) by lia.
  assert (Hsl : slice (0 + 2) (0 + 2 + length l) buf = l).
  { pose proof (slice_shift [3; Z.of_nat (length l)] (l ++ p1 :: p2 :: rest) 0 (length l)) as S.
    rewrite slice_front in S. exact S. }
  rewrite Hsl. destruct (from_utf8 l); [|done].
  assert (Hat : forall i, at_ buf (0 + 2 + length l + i) = at_ (p1 :: p2 :: rest) i).
  { intros i. pose proof (at_shift ([3; Z.of_nat (length l)] ++ l) (p1 :: p2 :: rest) i) as S.
    rewrite <- app_assoc in S. rewrite length_app in S. exact S. }
  pose proof (Hat 0%nat) as H0. rewrite Nat.add_0_r in H0. rewrite H0, Hat. done.
Qed.

Lemma decode_endpoint_encoded e rest :
  endpoint_ok e -> is_utf8 (host e) = true ->
  decode_endpoint_at (encode_endpoint e ++ rest) 0 = Ok (canon e, length (encode_endpoint e)).
Proof.
  intros He Hu. pose proof (canon_new e He) as Hnew. destruct He as (Hh & Hl255 & Hp).
  destruct (port_bytes (port e)) as (p1 & p2 & Hpb & Hpf); [unfold U16_MAX in Hp; lia|].
  unfold encode_endpoint. unfold canon_host in Hnew. rewrite Hpb.
  destruct (parse_ipv4 (host e)) as [o|] eqn:E4.
  - apply parse_ipv4_shown in E4 as (Hl & _ & _). destruct (list_of_4 o Hl) as (a & b & c & d & ->).
    unfold decode_endpoint_at. simpl app. cbn [at_ nth length Nat.leb Nat.ltb Nat.add Z.eqb Pos.eqb].
    by rewrite Hpf, Hnew.
  - destruct (parse_ipv6 (host e)) as [g|] eqn:E6.
    + apply parse_ipv6_ok in E6 as [Hg1 Hg2].
      assert (Ho : length (octets_of_groups g) = 16%nat) by (rewrite octets_length, Hg1; done).
      rewrite <- !app_assoc. etransitivity; [exact (decode_v6 _ p1 p2 rest Ho)|].
      rewrite groups_octets, Hpf, Hnew by done.
      do 2 f_equal. by rewrite !length_app, Ho.
    + pose proof (bytes_of_string_length (host e)) as Hll.
      rewrite <- Hll. assert (Ha : as_u8 (Z.of_nat (length (bytes_of_string (host e))))
                               = Z.of_nat (length (bytes_of_string (host e)))) by (apply Z.mod_small; lia).
      rewrite Ha, <- !app_assoc. etransitivity; [exact (decode_domain _ p1 p2 rest)|].
      rewrite from_utf8_bytes, Hpf, Hnew by done.
      do 2 f_equal. rewrite !length_app. simpl. lia.
Qed.

(** ** Messages *)

Lemma at_cons3 a b c l : at_ ([a; b; c] ++ l) 0 = a /\ at_ ([a; b; c] ++ l) 1 = b /\ at_ ([a; b; c] ++ l) 2 = c.
Proof. done. Qed.

Lemma decode_endpoint_framed a b c e rest :
  endpoint_ok e -> is_utf8 (host e) = true ->
  decode_endpoint_at ([a; b; c] ++ encode_endpoint e ++ rest) 3
  = Ok (canon e, (3 + length (encode_endpoint e))%nat).
Proof.
  intros He Hu. change 3%nat with (length [a; b; c]) at 1. rewrite decode_endpoint_shift.
  by rewrite decode_endpoint_encoded.
Qed.

Lemma drop_framed (pre enc rest : list Z) : drop (length pre + length enc) (pre ++ enc ++ rest) = rest.
Proof. rewrite app_assoc, <- length_app. apply drop_app_length. Qed.

Lemma request_roundtrip c e rest :
  endpoint_ok e -> is_utf8 (host e) = true ->
  decode_request (encode_request c e ++ rest) = Ok (mkRequest c (canon e), rest).
Proof.
  intros He Hu. unfold encode_request, decode_request. rewrite <- app_assoc.
  destruct (encode_endpoint_length e He) as [_ Hl].
  rewrite (proj2 (Nat.ltb_ge _ _)) by (rewrite !length_app; simpl; lia).
  destruct (at_cons3 5 (command_code c) 0 (encode_endpoint e ++ rest)) as (-> & -> & ->).
  cbn [Z.eqb Pos.eqb negb]. assert (command_of (command_code c) = Ok c) as -> by (by destruct c).
  rewrite decode_endpoint_framed by done. do 2 f_equal. apply (drop_framed [5; command_code c; 0]).
Qed.

Lemma udp_roundtrip e payload :
  endpoint_ok e -> is_utf8 (host e) = true ->
  decode_udp_datagram (encode_udp_datagram e payload) = Ok (mkUdp (canon e) payload).
Proof.
  intros He Hu. unfold encode_udp_datagram, decode_udp_datagram.
  destruct (encode_endpoint_length e He) as [_ Hl].
  rewrite (proj2 (Nat.ltb_ge _ _)) by (rewrite !length_app; simpl; lia).
  destruct (at_cons3 0 0 0 (encode_endpoint e ++ payload)) as (-> & -> & ->).
  cbn [Z.eqb negb orb]. rewrite decode_endpoint_framed by done. do 2 f_equal. apply (drop_framed [0; 0; 0]).
Qed.

Lemma endpoint_total_framed a b c e rest :
  endpoint_ok e ->
  endpoint_total_at ([a; b; c] ++ encode_endpoint e ++ rest) 3 = Ok (3 + length (encode_endpoint e))%nat.
Proof.
  intros (Hh & Hl & Hp). unfold endpoint_total_at, encode_endpoint.
  rewrite (proj2 (Nat.leb_gt _ _)) by (rewrite !length_app, to_be_bytes_length; simpl; lia).
  destruct (parse_ipv4 (host e)) as [o|] eqn:E4.
  - apply parse_ipv4_shown in E4 as (Ho & _).
    change (at_ _ 3) with 1. cbn [Z.eqb Pos.eqb].
    rewrite (proj2 (Nat.ltb_ge _ _)) by (rewrite !length_app, to_be_bytes_length, Ho; simpl; lia).
    f_equal. by rewrite !length_app, to_be_bytes_length, Ho.
  - destruct (parse_ipv6 (host e)) as [g|] eqn:E6.
    + apply parse_ipv6_ok in E6 as [Hg _]. change (at_ _ 3) with 4. cbn [Z.eqb Pos.eqb].
      rewrite (proj2 (Nat.ltb_ge _ _)) by (rewrite !length_app, to_be_bytes_length, octets_length, Hg; simpl; lia).
      f_equal. by rewrite !length_app, to_be_bytes_length, octets_length, Hg.
    + change (at_ _ 3) with 3. cbn [Z.eqb Pos.eqb].
      rewrite (proj2 (Nat.ltb_ge _ _)) by (rewrite !length_app, to_be_bytes_length; simpl; lia).
      change (at_ _ (3 + 1)) with (as_u8 (Z.of_nat (String.length (host e)))).
      assert (as_u8 (Z.of_nat (String.length (host e))) = Z.of_nat (String.length (host e))) as ->
        by (apply Z.mod_small; lia). rewrite Nat2Z.id.
      rewrite (proj2 (Nat.ltb_ge _ _)) by (rewrite !length_app, to_be_bytes_length, bytes_of_string_length; simpl; lia).
      f_equal. rewrite !length_app, to_be_bytes_length, bytes_of_string_length. simpl. lia.
Qed.

Lemma reply_roundtrip r e rest :
  endpoint_ok e -> is_utf8 (host e) = true -> (7 <= length (encode_endpoint e ++ rest))%nat ->
  decode_reply_frame (encode_reply_with_endpoint r e ++ rest) = Ok (mkReply r (Some (canon e)), rest)
  /\ decode_reply (encode_reply_with_endpoint r e ++ rest) = Ok (r, rest).
Proof.
  intros He Hu Hl. unfold encode_reply_with_endpoint, decode_reply_frame, decode_reply, reply_header.
  rewrite <- app_assoc, (proj2 (Nat.ltb_ge _ _)) by (rewrite length_app; simpl; lia).
  destruct (at_cons3 5 (reply_code r) 0 (encode_endpoint e ++ rest)) as (-> & -> & ->).
  cbn [Z.eqb Pos.eqb negb]. assert (reply_from_wire (reply_code r) = r) as -> by (by destruct r).
  rewrite endpoint_total_framed, decode_endpoint_framed by done.
  rewrite (drop_framed [5; reply_code r; 0]). done.
Qed.

Definition method_ok (m : Method) : bool :=
  match m with Unknown c => (2 <? c) && (c <? 256) | _ => true end.

Lemma method_roundtrip m : method_ok m = true -> method_of (wire_code m) = m.
Proof.
  destruct m as [| | |c]; simpl; [done..|]. intros [Hc%Z.ltb_lt _]%andb_true_iff.
  destruct c as [|[[|[]|]|[|[]|]|]|]; simpl; try done; lia.
Qed.

Lemma greeting_roundtrip ms rest :
  (length ms <= 255)%nat -> forallb method_ok ms = true ->
  decode_greeting (encode_greeting ms ++ rest) = Ok (ms, rest).
Proof.
  intros Hl Hm. unfold encode_greeting, decode_greeting.
  assert (Ha : as_u8 (Z.of_nat (length ms)) = Z.of_nat (length ms)) by (apply Z.mod_small; lia). rewrite Ha.
  rewrite <- app_assoc. set (w := wire_code <$> ms). assert (Hw : length w = length ms) by apply length_fmap.
  set (buf := [5; Z.of_nat (length ms)] ++ w ++ rest).
  assert (Hb : length buf = (2 + length ms + length rest)%nat)
    by (subst buf; rewrite !length_app, Hw; simpl; lia).
  rewrite (proj2 (Nat.ltb_ge _ _)) by lia. change (at_ buf 0) with 5. change (at_ buf 1) with (Z.of_nat (length ms)).
  cbn [Z.eqb Pos.eqb negb]. rewrite Nat2Z.id, (proj2 (Nat.ltb_ge _ _)) by lia.
  assert (Hs : slice 2 (2 + length ms) buf = w).
  { pose proof (slice_shift [5; Z.of_nat (length ms)] (w ++ rest) 0 (length w)) as S.
    rewrite slice_front, Hw in S. exact S. }
  rewrite Hs. subst w. rewrite <- list_fmap_compose. do 2 f_equal.
  - clear -Hm. induction ms as [|m ms IH]; [done|]. simpl in Hm. apply andb_true_iff in Hm as [Hm Hms].
    cbn. by rewrite method_roundtrip, IH.
  - rewrite <- Hw. apply (drop_framed [5; Z.of_nat (length ms)]).
Qed.

Lemma user_pass_roundtrip u p enc rest :
  encode_user_pass_request u p = Ok enc ->
  decode_user_pass_request (enc ++ rest) = Ok (mkUserPass u p, rest).
Proof.
  unfold encode_user_pass_request, auth_len_ok.
  destruct (Nat.eqb_spec (length u) 0) as [|Hu0]; [done|]. destruct (Nat.ltb_spec 255 (length u)) as [|Hu]; [done|].
  destruct (Nat.eqb_spec (length p) 0) as [|Hp0]; [done|]. destruct (Nat.ltb_spec 255 (length p)) as [|Hp]; [done|].
  cbn [negb andb]. intros [= <-]. unfold decode_user_pass_request.
  assert (H8 : forall n, (n <= 255)%nat -> as_u8 (Z.of_nat n) = Z.of_nat n) by (intros; apply Z.mod_small; lia).
  rewrite !H8 by done. cbn [app]. rewrite <- app_assoc. cbn [app].
  set (tl := Z.of_nat (length p) :: p ++ rest).
  set (buf := USER_PASS_VERSION :: Z.of_nat (length u) :: u ++ tl).
  assert (Hb : length buf = (2 + length u + 1 + length p + length rest)%nat)
    by (subst buf tl; cbn [length]; rewrite length_app; cbn [length]; rewrite length_app; lia).
  rewrite (proj2 (Nat.ltb_ge _ _)) by lia. change (at_ buf 0) with USER_PASS_VERSION. rewrite Z.eqb_refl. cbn [negb].
  change (at_ buf 1) with (Z.of_nat (length u)). rewrite Nat2Z.id.
  rewrite (proj2 (Nat.eqb_neq _ _)), (proj2 (Nat.ltb_ge _ _)) by lia.
  assert (Hpl : at_ buf (2 + length u) = Z.of_nat (length p)).
  { pose proof (at_shift0 ([USER_PASS_VERSION; Z.of_nat (length u)] ++ u) tl) as S.
    rewrite length_app, <- app_assoc in S. exact S. }
  rewrite Hpl, Nat2Z.id, (proj2 (Nat.eqb_neq _ _)), (proj2 (Nat.ltb_ge _ _)) by lia.
  assert (Hs1 : slice 2 (2 + length u) buf = u).
  { pose proof (slice_shift [USER_PASS_VERSION; Z.of_nat (length u)] (u ++ tl) 0 (length u)) as S.
    rewrite slice_front in S. exact S. }
  set (pre := [USER_PASS_VERSION; Z.of_nat (length u)] ++ u ++ [Z.of_nat (length p)]).
  assert (Hpre : length pre = (2 + length u + 1)%nat) by (subst pre; rewrite !length_app; simpl; lia).
  assert (Hbuf : buf = pre ++ p ++ rest) by (subst buf pre tl; rewrite <- !app_assoc; done).
  assert (Hs2 : slice (2 + length u + 1) (2 + length u + 1 + length p) buf = p).
  { rewrite Hbuf, <- Hpre. pose proof (slice_shift pre (p ++ rest) 0 (length p)) as S.
    rewrite slice_front, Nat.add_0_r in S. exact S. }
  rewrite Hs1, Hs2. do 2 f_equal. rewrite Hbuf, <- Hpre. apply drop_framed.
Qed.

(** Every SOCKS5 message is read back from its encoding, whatever follows it in
    the buffer: greetings of up to 255 methods, requests of every command, replies,
    UDP datagrams with their payload, and credentials of 1 to 255 bytes.  Hosts come
    back in canonical form, which only IPv6 literals are not already in. *)
Theorem socks5_messages_roundtrip (e : Endpoint) (c : Command) (r : Reply) (ms : list Method)
    (u p enc payload rest : list Z) :
  endpoint_ok e -> is_utf8 (host e) = true ->
  (length ms <= 255)%nat -> forallb method_ok ms = true ->
  (7 <= length (encode_endpoint e ++ rest))%nat ->
  decode_request (encode_request c e ++ rest) = Ok (mkRequest c (canon e), rest)
  /\ decode_reply_frame (encode_reply_with_endpoint r e ++ rest) = Ok (mkReply r (Some (canon e)), rest)
  /\ decode_udp_datagram (encode_udp_datagram e payload) = Ok (mkUdp (canon e) payload)
  /\ decode_greeting (encode_greeting ms ++ rest) = Ok (ms, rest)
  /\ (encode_user_pass_request u p = Ok enc -> decode_user_pass_request (enc ++ rest) = Ok (mkUserPass u p, rest))
  /\ (parse_ipv6 (host e) = None -> canon e = e).
Proof.
  intros He Hu Hl Hm H7. split_and!.
  - by apply request_roundtrip.
  - by apply reply_roundtrip.
  - by apply udp_roundtrip.
  - by apply greeting_roundtrip.
  - apply user_pass_roundtrip.
  - apply canon_same.
Qed.

Example socks5_messages_roundtrip_witness :
  let e := mkEndpoint "example.org" 443 in
  decode_request (encode_request UdpAssociate e ++ [7]) = Ok (mkRequest UdpAssociate e, [7])
  /\ decode_reply_frame (encode_reply_with_endpoint Succeeded e ++ [7]) = Ok (mkReply Succeeded (Some e), [7]).
Proof.
  intros e.
  destruct (socks5_messages_roundtrip e UdpAssociate Succeeded [NoAuth; Unknown 9] [] [] [] [] [7])
    as (H1 & H2 & _); [|reflexivity|simpl; lia|reflexivity|vm_compute; lia|exact (conj H1 H2)].
  unfold endpoint_ok, U16_MAX. simpl. split_and!; [done|lia|lia|lia].
Defined.

(** A complete reply whose bound address is a host name of one or two bytes is
    shorter than the ten bytes the decoder waits for. *)
Example short_domain_reply_stays_incomplete :
  let frame := encode_reply_with_endpoint Succeeded (mkEndpoint "a" 80) in
  reply_frame_total_len frame = Ok (length frame)
  /\ decode_reply_frame frame = Err Incomplete /\ decode_reply frame = Err Incomplete.
Proof. vm_compute. auto. Qed.

(** ** Prefixes *)

Lemma at_take k l i : (i < k)%nat -> at_ (take k l) i = at_ l i.
Proof.
  unfold at_. rewrite !nth_lookup. intros Hi. by rewrite lookup_take_lt.
Qed.

(** Streaming: every proper prefix of an encoded request is reported incomplete,
    never as an error or as another request. *)
Lemma request_short (c : Command) (e : Endpoint) (k : nat) :
  endpoint_ok e -> (k < length (encode_request c e))%nat ->
  decode_request (take k (encode_request c e)) = Err Incomplete.
Proof.
  intros (Hh & Hl255 & Hp) Hk. unfold decode_request.
  assert (Hlen : length (take k (encode_request c e)) = k) by (rewrite length_take; lia). rewrite Hlen.
  destruct (Nat.ltb_spec k 7) as [|H7]; [done|].
  rewrite !at_take by lia. unfold encode_request in *.
  destruct (at_cons3 5 (command_code c) 0 (encode_endpoint e)) as (-> & -> & ->).
  cbn [Z.eqb Pos.eqb negb]. assert (command_of (command_code c) = Ok c) as -> by (by destruct c).
  unfold decode_endpoint_at. rewrite Hlen, (proj2 (Nat.leb_gt _ _)) by lia. rewrite at_take by lia.
  rewrite length_app in Hk. unfold encode_endpoint in *. rewrite length_app, to_be_bytes_length in Hk.
  destruct (parse_ipv4 (host e)) as [o|] eqn:E4.
  - apply parse_ipv4_shown in E4 as (Ho & _). rewrite length_app, Ho in Hk.
    change (at_ _ 3) with 1. cbn [Z.eqb Pos.eqb]. simpl in Hk.
    by rewrite (proj2 (Nat.ltb_lt _ _)) by lia.
  - destruct (parse_ipv6 (host e)) as [g|] eqn:E6.
    + apply parse_ipv6_ok in E6 as [Hg _]. rewrite length_app, octets_length, Hg in Hk.
      change (at_ _ 3) with 4. cbn [Z.eqb Pos.eqb]. simpl in Hk.
      by rewrite (proj2 (Nat.ltb_lt _ _)) by lia.
    + rewrite length_app, bytes_of_string_length in Hk.
      change (at_ ([5; command_code c; 0] ++ _) 3) with 3. cbn [Z.eqb Pos.eqb].
      rewrite (proj2 (Nat.ltb_ge _ _)) by lia. rewrite at_take by lia.
      change (at_ ([5; command_code c; 0] ++ _) (3 + 1)) with (as_u8 (Z.of_nat (String.length (host e)))).
      assert (as_u8 (Z.of_nat (String.length (host e))) = Z.of_nat (String.length (host e))) as ->
        by (apply Z.mod_small; lia). rewrite Nat2Z.id. simpl in Hk.
      by rewrite (proj2 (Nat.ltb_lt _ _)) by lia.
Qed.

Example request_short_witness :
  decode_request (take 9 (encode_request Connect (mkEndpoint "10.0.0.1" 80))) = Err Incomplete.
Proof.
  apply request_short; [|vm_compute; lia].
  unfold endpoint_ok, U16_MAX. simpl. split_and!; [done|lia|lia|lia].
Defined.
