(* ===== verification/HttpProxy.v ===== *)
(** The HTTP/1.1 proxy request-head codec (lib/mb-proto-http-proxy/src/lib.rs):
    finding the end of the head, the request line, header fields, CONNECT and
    absolute-form targets, and the head forwarded upstream. *)
From S2P Require Import Prelude Numbers Rules NetAddr Endpoint.
Local Open Scope Z_scope.

(** ** Parts of [str] used here *)

Definition CRLF : string := String (ascii_z 13) (String (ascii_z 10) "").

(** [s.split("\r\n")]: cuts at every occurrence, left to right. *)
Fixpoint split_crlf (s : string) : list string :=
  match s with
  | EmptyString => [EmptyString]
  | String a s1 =>
      match s1 with
      | String b s2 =>
          if (byte_z a =? 13) && (byte_z b =? 10) then EmptyString :: split_crlf s2
          else match split_crlf s1 with h :: t => String a h :: t | [] => [String a ""] end
      | EmptyString => [String a ""]
      end
  end.

(** The UTF-8 encodings of the characters [char::is_whitespace] accepts. *)
Definition whitespace : list (list Z) :=
  ((fun b => [b]) <$> [9; 10; 11; 12; 13; 32])
  ++ [[0xc2; 0x85]; [0xc2; 0xa0]; [0xe1; 0x9a; 0x80]]
  ++ ((fun b => [0xe2; 0x80; b]) <$> seqZ 0x80 11)
  ++ [[0xe2; 0x80; 0xa8]; [0xe2; 0x80; 0xa9]; [0xe2; 0x80; 0xaf]; [0xe2; 0x81; 0x9f]; [0xe3; 0x80; 0x80]].

Definition is_prefix (p l : list Z) : bool := bool_decide (take (length p) l = p).

(** Drops the characters of [ws] in front; every round drops at least one byte. *)
Fixpoint trim_front (ws : list (list Z)) (fuel : nat) (l : list Z) : list Z :=
  match fuel with
  | O => l
  | S fuel =>
      match List.find (fun w => is_prefix w l) ws with
      | Some w => trim_front ws fuel (drop (length w) l)
      | None => l
      end
  end.

(** [s.trim()] *)
Definition trim (s : string) : string :=
  let l := trim_front whitespace (String.length s) (bytes_of_string s) in
  string_of_bytes (reverse (trim_front (reverse <$> whitespace) (length l) (reverse l))).

(** [s.find(p)] and the two slices around it. *)
Fixpoint span_until (p : Ascii.ascii -> bool) (s : string) : string * string :=
  match s with
  | EmptyString => (EmptyString, EmptyString)
  | String a s' => if p a then (EmptyString, s) else let '(h, t) := span_until p s' in (String a h, t)
  end.

(** ** Data *)

Inductive RequestKind := Connect | ForwardHttp (method origin_form : string).

Record RequestHead := mkHead {
  kind : RequestKind;
  target : Endpoint;
  consumed : nat;
  forwarded_head : string;
  proxy_authorization : option string;
}.

Inductive HttpProxyError :=
| HIncomplete | HeaderTooLarge | InvalidUtf8 | MalformedRequestLine
| UnsupportedVersion (v : string) | InvalidConnectTarget (t : string) | UnsupportedMethod (m : string)
| UnsupportedScheme (s : string) | MalformedAbsoluteForm | MalformedHeader
| EndpointError (e : ParseError).

Record AbsoluteTarget := mkAbsolute {
  abs_host : string;
  abs_port : Z;
  authority : string;
  origin_form : string;
}.

(** ** Operations *)

(** The index of the first CR LF CR LF, plus four. *)
Fixpoint find_header_end (input : list Z) : option nat :=
  match input with
  | [] => None
  | _ :: rest =>
      if bool_decide (take 4 input = [13; 10; 13; 10]) then Some 4%nat
      else S <$> find_header_end rest
  end.

Definition parse_request_line (line : string) : result (string * string * string) HttpProxyError :=
  match split_on " " line with
  | [method; target; version] =>
      if str_is_empty method || str_is_empty target || str_is_empty version
      then Err MalformedRequestLine else Ok (method, target, version)
  | _ => Err MalformedRequestLine
  end.

(** [b <= 0x20 || b == b':'] *)
Definition bad_name_byte (a : Ascii.ascii) : bool := (byte_z a <=? 0x20) || (byte_z a =? 58).

Fixpoint parse_headers (lines : list string) : result (list (string * string)) HttpProxyError :=
  match lines with
  | [] => Ok []
  | line :: lines =>
      if str_is_empty line then parse_headers lines
      else
        match split_once ":" line with
        | None => Err MalformedHeader
        | Some (name, value) =>
            if str_is_empty name || negb (str_all (fun a => negb (bad_name_byte a)) name)
            then Err MalformedHeader
            else let? hs := parse_headers lines in Ok ((name, trim value) :: hs)
        end
  end.

Definition header_value (headers : list (string * string)) (name : string) : option string :=
  snd <$> List.find (fun '(h, _) => eq_ignore_ascii_case h name) headers.

(** [map_err(endpoint_error)] *)
Definition endpoint_error {A} (r : result A ParseError) : result A HttpProxyError :=
  match r with Ok a => Ok a | Err e => Err (EndpointError e) end.

Definition authority_to_endpoint (auth : string) (default_port : Z) :
    result (Endpoint * string) HttpProxyError :=
  match strip_prefix "[" auth with
  | Some rest =>
      match split_once "]" rest with
      | None => Err MalformedAbsoluteForm
      | Some (host, after) =>
          if str_is_empty after then
            let? e := endpoint_error (endpoint_new host default_port) in
            Ok (e, ("[" +:+ host +:+ "]")%string)
          else if starts_with ":" after then
            let? e := endpoint_error (endpoint_parse auth) in Ok (e, auth)
          else Err MalformedAbsoluteForm
      end
  | None =>
      match rsplit_once ":" auth with
      | Some (host, port) =>
          if str_is_empty host || str_is_empty port then Err MalformedAbsoluteForm
          else let? e := endpoint_error (endpoint_parse auth) in Ok (e, auth)
      | None => let? e := endpoint_error (endpoint_new auth default_port) in Ok (e, auth)
      end
  end.

Definition slash_or_query (a : Ascii.ascii) : bool := bool_decide (a = "/"%char) || bool_decide (a = "?"%char).

Definition parse_http_absolute_form (input : string) : result AbsoluteTarget HttpProxyError :=
  match strip_prefix "http://" input with
  | None =>
      Err (UnsupportedScheme (match split_once ":" input with Some (scheme, _) => scheme | None => "" end))
  | Some rest =>
      let '(auth, suffix) := span_until slash_or_query rest in
      if str_is_empty auth then Err MalformedAbsoluteForm
      else
        let? (endpoint, auth) := authority_to_endpoint auth 80 in
        let origin := if str_is_empty suffix then "/"
                      else if starts_with "?" suffix then "/" +:+ suffix else suffix in
        Ok (mkAbsolute (host endpoint) (port endpoint) auth origin)
  end%string.

(** The fields that are not passed on. *)
Definition hop_header (name : string) : bool :=
  eq_ignore_ascii_case name "host" || eq_ignore_ascii_case name "proxy-authorization"
  || eq_ignore_ascii_case name "proxy-connection".

Fixpoint forward_headers (headers : list (string * string)) : string :=
  match headers with
  | [] => ""
  | (name, value) :: hs =>
      if hop_header name then forward_headers hs
      else name +:+ ": " +:+ value +:+ CRLF +:+ forward_headers hs
  end%string.

Definition rewrite_forward_head (method version : string) (t : AbsoluteTarget)
    (headers : list (string * string)) : string :=
  method +:+ " " +:+ origin_form t +:+ " " +:+ version +:+ CRLF +:+ "Host: " +:+ authority t +:+ CRLF
  +:+ forward_headers headers +:+ CRLF.

Definition forwardable (method : string) : bool :=
  bool_decide (method ∈ ["GET"; "HEAD"; "POST"; "PUT"]%string).

(** The head behind its end: request line, fields, and the kind of request. *)
Definition parse_head (head : string) (end_ : nat) : result RequestHead HttpProxyError :=
  match split_crlf head with
  | [] => Err MalformedRequestLine
  | request_line :: lines =>
      let? (method, tgt, version) := parse_request_line request_line in
      if negb (String.eqb version "HTTP/1.1") then Err (UnsupportedVersion version)
      else
        let? headers := parse_headers lines in
        let proxy_auth := header_value headers "proxy-authorization" in
        if String.eqb method "CONNECT" then
          if starts_with "/" tgt || Rules.str_contains "://" tgt then Err (InvalidConnectTarget tgt)
          else
            let? e := endpoint_error (endpoint_parse tgt) in
            Ok (mkHead Connect e end_ "" proxy_auth)
        else if negb (forwardable method) then Err (UnsupportedMethod method)
        else
          let? abs := parse_http_absolute_form tgt in
          let? e := endpoint_error (endpoint_new (abs_host abs) (abs_port abs)) in
          Ok (mkHead (ForwardHttp method (origin_form abs)) e end_
                (rewrite_forward_head method version abs headers) proxy_auth)
  end.

Definition parse_request_head (input : list Z) (max_header_bytes : nat) :
    result (option RequestHead) HttpProxyError :=
  match find_header_end input with
  | None => if (max_header_bytes <? length input)%nat then Err HeaderTooLarge else Ok None
  | Some end_ =>
      if (max_header_bytes <? end_)%nat then Err HeaderTooLarge
      else
        match from_utf8 (take end_ input) with
        | None => Err InvalidUtf8
        | Some head => let? h := parse_head head end_ in Ok (Some h)
        end
  end.
