(* ===== verification/HttpProxyFacts.v ===== *)
(** The HTTP proxy codec, the theorems. *)
From S2P Require Import Prelude Numbers Rules RulesFacts NetAddr Endpoint HttpProxy.
Local Open Scope Z_scope.

(** ** The end of the head *)

Definition terminator : list Z := [13; 10; 13; 10].

Lemma find_header_end_bound l n : find_header_end l = Some n -> (4 <= n <= length l)%nat.
Proof.
  revert n. induction l as [|b l IH]; intros n; cbn [find_header_end]; [done|].
  case_bool_decide as E.
  - intros [= <-]. apply (f_equal length) in E. rewrite length_take in E. cbn [length] in E |- *. lia.
  - destruct (find_header_end l) as [m|]; [|done]. intros [= <-]. specialize (IH m eq_refl). simpl. lia.
Qed.

Lemma find_header_end_app l m n : find_header_end l = Some n -> find_header_end (l ++ m) = Some n.
Proof.
  revert n. induction l as [|b l IH]; intros n; cbn [find_header_end app]; [done|].
  case_bool_decide as E.
  - intros [= <-]. rewrite bool_decide_eq_true_2; [done|].
    assert (4 <= length (b :: l))%nat by (apply (f_equal length) in E; rewrite length_take in E; cbn [length] in E |- *; lia).
    change (b :: l ++ m) with ((b :: l) ++ m). by rewrite take_app_le.
  - destruct (find_header_end l) as [k|] eqn:Ef; [|done]. intros [= <-].
    rewrite bool_decide_eq_false_2, (IH k eq_refl); [done|]. intros E'. apply E.
    apply find_header_end_bound in Ef. change (b :: l ++ m) with ((b :: l) ++ m) in E'.
    rewrite take_app_le in E' by (simpl; lia). done.
Qed.

Lemma find_header_end_none_iff l :
  find_header_end l = None <-> forall pre post, l <> pre ++ terminator ++ post.
Proof.
  induction l as [|b l IH]; cbn [find_header_end].
  - split; [|done]. intros _ [|] post; done.
  - case_bool_decide as E.
    + split; [done|]. intros H. exfalso. apply (H [] (drop 4 (b :: l))).
      rewrite app_nil_l. unfold terminator. rewrite <- E. by rewrite take_drop.
    + assert (Hf : S <$> find_header_end l = None <-> find_header_end l = None)
        by (destruct (find_header_end l); naive_solver).
      rewrite Hf, IH. split.
      * intros H [|x pre] post Hb; [|injection Hb as _ Hb; by apply (H pre post)].
        apply E. rewrite Hb. done.
      * intros H pre post ->. by apply (H (b :: pre) post).
Qed.

(** A terminator that is not inside [l] ends behind it. *)
Lemma find_header_end_late l m n :
  find_header_end l = None -> find_header_end (l ++ m) = Some n -> (length l < n)%nat.
Proof.
  revert n. induction l as [|b l IH]; intros n; cbn [find_header_end app].
  - intros _ Hn%find_header_end_bound. simpl. lia.
  - case_bool_decide as E; [done|]. intros Hl. case_bool_decide as E'.
    + intros [= <-]. destruct (decide (4 <= length (b :: l))%nat) as [Hle|]; [|simpl in *; lia].
      exfalso. apply E. change (b :: l ++ m) with ((b :: l) ++ m) in E'. by rewrite take_app_le in E'.
    + destruct (find_header_end (l ++ m)) as [k|] eqn:Ef; [|done]. intros [= <-].
      assert (find_header_end l = None) as Hl' by (destruct (find_header_end l); [done|done]).
      specialize (IH k Hl' eq_refl). simpl. lia.
Qed.

Lemma parse_head_consumed head n h : parse_head head n = Ok h -> consumed h = n.
Proof.
  unfold parse_head, endpoint_error. destruct (split_crlf head) as [|rl lines]; [done|].
  destruct (parse_request_line rl) as [[[m t] v]|]; [|done]. destruct (negb _); [done|].
  destruct (parse_headers lines) as [hs|]; [|done]. destruct (String.eqb m "CONNECT").
  - destruct (_ || _); [done|]. destruct (endpoint_parse t); [|done]. by intros [= <-].
  - destruct (negb _); [done|]. destruct (parse_http_absolute_form t) as [a|]; [|done].
    destruct (endpoint_new _ _); [|done]. by intros [= <-].
Qed.

(** Reading a request head from a growing buffer: the parser asks for more bytes
    exactly while the blank line has not arrived and the limit is not exceeded; any
    other answer, a request or an error, is final, whatever follows; a request never
    takes more bytes than the limit or than are there. *)
Theorem request_head_streaming (input more : list Z) (max : nat) :
  (parse_request_head input max = Ok None <->
     (forall pre post, input <> pre ++ terminator ++ post) /\ (length input <= max)%nat)
  /\ (parse_request_head input max <> Ok None ->
      parse_request_head (input ++ more) max = parse_request_head input max)
  /\ (forall h, parse_request_head input max = Ok (Some h) ->
      (4 <= consumed h <= max)%nat /\ (consumed h <= length input)%nat).
Proof.
  unfold parse_request_head. rewrite <- find_header_end_none_iff.
  destruct (find_header_end input) as [n|] eqn:E.
  - pose proof (find_header_end_bound _ _ E) as Hn. rewrite (find_header_end_app _ more _ E).
    rewrite take_app_le by lia. split_and!; [|done|].
    + split; [|by intros [? _]]. destruct (max <? n)%nat; [done|]. destruct (from_utf8 _); [|done].
      by destruct (parse_head _ _).
    + intros h. destruct (Nat.ltb_spec max n); [done|]. destruct (from_utf8 _) as [head|]; [|done].
      destruct (parse_head head n) as [h'|] eqn:Eh; [|done]. intros [= <-].
      apply parse_head_consumed in Eh. lia.
  - destruct (Nat.ltb_spec max (length input)) as [Hlt|Hge].
    + split_and!; [split; [done|intros [_ ?]; lia]| |done]. intros _.
      destruct (find_header_end (input ++ more)) as [n|] eqn:E'.
      * apply find_header_end_late in E'; [|done]. by rewrite (proj2 (Nat.ltb_lt _ _)) by lia.
      * rewrite length_app. by rewrite (proj2 (Nat.ltb_lt _ _)) by lia.
    + split_and!; [|done|done]. done.
Qed.

(** ** Strings without CR LF *)

Fixpoint no_crlf (s : string) : bool :=
  match s with
  | EmptyString => true
  | String a s1 =>
      negb ((byte_z a =? 13) && match s1 with String b _ => byte_z b =? 10 | EmptyString => false end)
      && no_crlf s1
  end.

Lemma no_crlf_tail p s : no_crlf (p +:+ s) = true -> no_crlf s = true.
Proof. induction p as [|a p IH]; simpl; [done|]. intros [_ ?]%andb_true_iff. auto. Qed.

Lemma no_crlf_front s q : no_crlf (s +:+ q) = true -> no_crlf s = true.
Proof.
  induction s as [|a s IH]; simpl; [done|]. intros [Ha Hs]%andb_true_iff. rewrite IH by done.
  rewrite andb_true_r. destruct s as [|b s]; [by rewrite andb_false_r|done].
Qed.

Lemma no_crlf_infix p s q : no_crlf (p +:+ s +:+ q) = true -> no_crlf s = true.
Proof. intros H. apply no_crlf_tail in H. by eapply no_crlf_front. Qed.

Definition starts_lf (s : string) : bool := match s with String b _ => byte_z b =? 10 | EmptyString => false end.

Lemma no_crlf_app a b : no_crlf a = true -> no_crlf b = true -> starts_lf b = false -> no_crlf (a +:+ b) = true.
Proof.
  induction a as [|x a IH]; simpl; [done|]. intros [Hx Ha]%andb_true_iff Hb Hl. rewrite IH by done.
  rewrite andb_true_r. destruct a as [|y a]; [|done].
  change (String.append EmptyString b) with b. fold (starts_lf b). by rewrite Hl, andb_false_r.
Qed.

Lemma split_crlf_cons a s :
  split_crlf (String a s)
  = match s with
    | String b s2 =>
        if (byte_z a =? 13) && (byte_z b =? 10) then EmptyString :: split_crlf s2
        else match split_crlf s with h :: t => String a h :: t | [] => [String a ""] end
    | EmptyString => [String a ""]
    end.
Proof. by destruct s. Qed.

(** A piece in front of a CR LF is cut off whole. *)
Lemma split_crlf_piece s rest :
  no_crlf s = true -> split_crlf (s +:+ CRLF +:+ rest) = s :: split_crlf rest.
Proof.
  induction s as [|a s IH]; [done|]. intros Hs. cbn [no_crlf] in Hs. apply andb_true_iff in Hs as [Ha Hs].
  change ((String a s) +:+ CRLF +:+ rest) with (String a (s +:+ CRLF +:+ rest)).
  rewrite split_crlf_cons, IH by done. destruct s as [|b s]; simpl.
  - by rewrite andb_false_r.
  - apply negb_true_iff in Ha. by rewrite Ha.
Qed.

Lemma split_crlf_pieces n : forall s, (String.length s <= n)%nat -> Forall (fun p => no_crlf p = true) (split_crlf s).
Proof.
  induction n as [|n IH]; intros s Hs.
  { destruct s; simpl in Hs; [|lia]. by repeat constructor. }
  destruct s as [|a s]; [by repeat constructor|]. rewrite split_crlf_cons. simpl in Hs.
  destruct s as [|b s].
  { constructor; [|constructor]. cbn [no_crlf]. by rewrite andb_false_r. }
  destruct ((byte_z a =? 13) && (byte_z b =? 10)) eqn:E.
  - constructor; [done|]. apply IH. simpl in Hs. lia.
  - pose proof (IH (String b s) ltac:(lia)) as Hf.
    destruct (split_crlf (String b s)) as [|h t] eqn:Eh.
    { constructor; [|constructor]. cbn [no_crlf]. by rewrite andb_false_r. }
    apply Forall_cons in Hf as [Hh Ht]. constructor; [|done]. cbn [no_crlf]. rewrite Hh, andb_true_r.
    destruct h as [|c h]; [by rewrite andb_false_r|].
    assert (c = b) as -> by (clear -Eh; rewrite split_crlf_cons in Eh; repeat case_match; by simplify_eq).
    by rewrite E.
Qed.

(** ** Pieces of a string are infixes of it *)

Definition infix_of (m s : string) : Prop := exists p q, (s = p +:+ m +:+ q)%string.

Lemma infix_no_crlf m s : infix_of m s -> no_crlf s = true -> no_crlf m = true.
Proof. intros (p & q & ->). apply no_crlf_infix. Qed.

Lemma infix_refl s : infix_of s s.
Proof. exists "", "". by rewrite str_app_nil. Qed.

Lemma infix_trans a b c : infix_of a b -> infix_of b c -> infix_of a c.
Proof. intros (p & q & ->) (p' & q' & ->). exists (p' +:+ p), (q +:+ q'). by rewrite !str_app_assoc. Qed.

Lemma string_of_bytes_app a b : string_of_bytes (a ++ b) = (string_of_bytes a +:+ string_of_bytes b)%string.
Proof. induction a as [|x a IH]; [done|]. exact (f_equal (String _) IH). Qed.

Lemma trim_front_drop ws fuel : forall l, exists k, trim_front ws fuel l = drop k l.
Proof.
  induction fuel as [|fuel IH]; intros l; cbn [trim_front]; [by exists 0%nat|].
  destruct (List.find _ ws) as [w|]; [|by exists 0%nat].
  destruct (IH (drop (length w) l)) as [k ->]. exists (length w + k)%nat. by rewrite drop_drop.
Qed.

Lemma trim_infix s : infix_of (trim s) s.
Proof.
  unfold trim. destruct (trim_front_drop whitespace (String.length s) (bytes_of_string s)) as [k ->].
  set (l := drop k (bytes_of_string s)).
  destruct (trim_front_drop (reverse <$> whitespace) (length l) (reverse l)) as [j ->].
  exists (string_of_bytes (take k (bytes_of_string s))), (string_of_bytes (reverse (take j (reverse l)))).
  rewrite <- !string_of_bytes_app, <- reverse_app, take_drop, reverse_involutive. subst l.
  by rewrite take_drop, string_of_bytes_of.
Qed.

Lemma split_on_infix c s : Forall (fun p => infix_of p s) (split_on c s).
Proof.
  assert (Hcons : forall a p s', infix_of p s' -> infix_of p (String a s'))
    by (intros a p s' (x & y & ->); by exists (String a x), y).
  induction s as [|a s IH]; cbn [split_on]; [constructor; [apply infix_refl|constructor]|].
  assert (Hall : Forall (fun p => infix_of p (String a s)) (split_on c s))
    by (eapply Forall_impl; [exact IH|]; intros p; apply Hcons).
  destruct (decide (a = c)); [constructor; [by exists "", (String a s)|done]|].
  destruct (split_on c s) as [|h t] eqn:E; [constructor; [by exists "", s|constructor]|].
  apply Forall_cons in Hall as [_ Hall]. constructor; [|done].
  assert (Hpre : exists q, (s = h +:+ q)%string).
  { clear -E. revert h t E. induction s as [|b s IHs]; intros h t E; cbn [split_on] in E; [injection E as <- _; by exists ""|].
    destruct (decide (b = c)); [injection E as <- _; by exists (String b s)|].
    destruct (split_on c s) as [|h' t'] eqn:E'; [injection E as <- _; by exists s|].
    injection E as <- _. destruct (IHs _ _ eq_refl) as [q ->]. by exists q. }
  destruct Hpre as [q ->]. by exists "", q.
Qed.

Lemma split_once_some c s a b : split_once c s = Some (a, b) -> s = (a +:+ String c b)%string.
Proof.
  revert a b. induction s as [|x s IH]; intros a b; simpl; [done|].
  case_decide as Hx; [intros [= <- <-]; by subst|].
  destruct (split_once c s) as [[h t]|] eqn:E; [|done]. cbn. intros [= <- <-].
  by rewrite (IH h t eq_refl).
Qed.

Lemma span_until_app p s : s = ((span_until p s).1 +:+ (span_until p s).2)%string.
Proof.
  induction s as [|a s IH]; [done|]. cbn [span_until]. destruct (p a); [done|].
  destruct (span_until p s) as [h t]. simpl in *. by rewrite IH at 1.
Qed.

(** ** The forwarded head *)

Definition field_line (f : string * string) : string := (f.1 +:+ ": " +:+ f.2)%string.

Lemma parse_headers_lines lines hs :
  Forall (fun l => no_crlf l = true) lines -> parse_headers lines = Ok hs ->
  Forall (fun f => no_crlf (field_line f) = true) hs.
Proof.
  revert hs. induction lines as [|l lines IH]; intros hs Hl; cbn [parse_headers]; [by intros [= <-]|].
  apply Forall_cons in Hl as [Hl Hls]. destruct (str_is_empty l); [by apply IH|].
  destruct (split_once ":" l) as [[n v]|] eqn:E; [|done]. destruct (_ || _); [done|].
  destruct (parse_headers lines) as [hs'|]; [|done]. intros [= <-]. constructor; [|by apply IH].
  apply split_once_some in E as ->. unfold field_line. cbn [fst snd].
  apply no_crlf_app; [by eapply no_crlf_front| |done]. simpl.
  apply no_crlf_tail in Hl. apply (infix_no_crlf _ v (trim_infix v)).
  change (String ":" v) with (":" +:+ v)%string in Hl. by apply no_crlf_tail in Hl.
Qed.

Definition kept_fields (hs : list (string * string)) : list (string * string) :=
  List.filter (fun f => negb (hop_header f.1)) hs.

Lemma forward_headers_lines hs rest :
  Forall (fun f => no_crlf (field_line f) = true) hs ->
  split_crlf (forward_headers hs +:+ rest) = (field_line <$> kept_fields hs) ++ split_crlf rest.
Proof.
  induction 1 as [|[n v] hs Hf _ IH]; [done|]. cbn [forward_headers kept_fields List.filter fst].
  destruct (hop_header n); cbn [negb]; [exact IH|].
  replace ((n +:+ ": " +:+ v +:+ CRLF +:+ forward_headers hs) +:+ rest)%string
    with (field_line (n, v) +:+ CRLF +:+ (forward_headers hs +:+ rest))%string
    by (unfold field_line; by rewrite !str_app_assoc).
  rewrite split_crlf_piece by done. by rewrite IH.
Qed.

Lemma authority_unchanged a p e a' : authority_to_endpoint a p = Ok (e, a') -> a' = a.
Proof.
  unfold authority_to_endpoint, endpoint_error. destruct (strip_prefix "[" a) as [rest|] eqn:E.
  - apply strip_prefix_app in E as ->. destruct (split_once "]" rest) as [[h after]|] eqn:E'; [|done].
    apply split_once_some in E' as ->. destruct after; cbn [str_is_empty].
    + destruct (endpoint_new h p); [|done]. by intros [= _ <-].
    + destruct (starts_with _ _); [|done]. destruct (endpoint_parse _); [|done]. by intros [= _ <-].
  - destruct (rsplit_once ":" a) as [[h q]|].
    + destruct (_ || _); [done|]. destruct (endpoint_parse a); [|done]. by intros [= _ <-].
    + destruct (endpoint_new a p); [|done]. by intros [= _ <-].
Qed.

Lemma absolute_parts t a :
  parse_http_absolute_form t = Ok a -> no_crlf t = true ->
  no_crlf (authority a) = true /\ no_crlf (origin_form a) = true.
Proof.
  unfold parse_http_absolute_form. destruct (strip_prefix "http://" t) as [rest|] eqn:E; [|done].
  apply strip_prefix_app in E as ->. pose proof (span_until_app slash_or_query rest) as Hs.
  destruct (span_until slash_or_query rest) as [auth suffix]. simpl in Hs.
  destruct (str_is_empty auth); [done|].
  destruct (authority_to_endpoint auth 80) as [[e a']|] eqn:Ea; [|done]. apply authority_unchanged in Ea as ->.
  intros [= <-] Ht. simpl in Ht. subst rest. simpl.
  assert (Hsuf : no_crlf suffix = true) by (by eapply no_crlf_tail). split; [by eapply no_crlf_front|].
  destruct (str_is_empty suffix); [done|]. destruct (starts_with "?" suffix); [|done]. exact Hsuf.
Qed.

Lemma rewrite_lines m t hs :
  m ∈ ["GET"; "HEAD"; "POST"; "PUT"]%string -> no_crlf (authority t) = true -> no_crlf (origin_form t) = true ->
  Forall (fun f => no_crlf (field_line f) = true) hs ->
  split_crlf (rewrite_forward_head m "HTTP/1.1" t hs)
  = (m +:+ " " +:+ origin_form t +:+ " HTTP/1.1")%string :: ("Host: " +:+ authority t)%string
    :: (field_line <$> kept_fields hs) ++ [""; ""]%string.
Proof.
  intros Hm Ha Ho Hh. unfold rewrite_forward_head.
  replace (m +:+ " " +:+ origin_form t +:+ " " +:+ "HTTP/1.1" +:+ CRLF +:+ "Host: " +:+ authority t +:+ CRLF
           +:+ forward_headers hs +:+ CRLF)%string
    with ((m +:+ " " +:+ origin_form t +:+ " HTTP/1.1") +:+ CRLF +:+ (("Host: " +:+ authority t) +:+ CRLF
           +:+ (forward_headers hs +:+ CRLF)))%string by (by rewrite !str_app_assoc).
  rewrite split_crlf_piece.
  2: { apply no_crlf_app; [|exact (no_crlf_app _ " HTTP/1.1" Ho eq_refl eq_refl)|done]. clear -Hm.
       repeat (apply elem_of_cons in Hm as [->|Hm]; [done|]). by apply elem_of_nil in Hm. }
  rewrite split_crlf_piece by exact Ha. by rewrite forward_headers_lines.
Qed.

(** What is sent upstream for a forwarded request: cut at its CR LFs the head is the
    request line in origin form, one Host field with the authority of the target, the
    client's fields in order without Host, Proxy-Authorization and Proxy-Connection,
    and the blank line.  No credential of the proxy and no second Host leaves it, and
    no field of the client can start another line. *)
Theorem forwarded_head_fields (input : list Z) (max : nat) (h : RequestHead) (m o : string) :
  parse_request_head input max = Ok (Some h) -> kind h = ForwardHttp m o ->
  exists auth hs request_line lines,
    split_crlf (string_of_bytes (take (consumed h) input)) = request_line :: lines
    /\ parse_headers lines = Ok hs
    /\ split_crlf (forwarded_head h)
       = (m +:+ " " +:+ o +:+ " HTTP/1.1")%string :: ("Host: " +:+ auth)%string
         :: (field_line <$> kept_fields hs) ++ [""; ""]%string
    /\ Forall (fun f => hop_header f.1 = false) (kept_fields hs)
    /\ proxy_authorization h = header_value hs "proxy-authorization".
Proof.
  unfold parse_request_head. destruct (find_header_end input) as [n|]; [|by destruct (_ <? _)%nat].
  destruct (_ <? _)%nat; [done|]. unfold from_utf8. destruct (utf8_valid _ _); [|done].
  set (head := string_of_bytes (take n input)).
  destruct (parse_head head n) as [h'|] eqn:E; [|done]. intros [= ->] Hk.
  pose proof (parse_head_consumed _ _ _ E) as ->. unfold parse_head in E.
  pose proof (split_crlf_pieces (String.length head) head ltac:(lia)) as Hp. fold head.
  destruct (split_crlf head) as [|rl lines]; [done|]. apply Forall_cons in Hp as [Hrl Hlines].
  unfold parse_request_line in E. pose proof (split_on_infix " " rl) as Hsp.
  destruct (split_on " " rl) as [|m' [|t [|v [|]]]]; try done.
  rewrite !Forall_cons in Hsp. destruct Hsp as (_ & Ht & _). destruct (_ || _ || _); [done|].
  destruct (String.eqb_spec v "HTTP/1.1") as [Hv|]; [|done]. rewrite Hv in E. cbn [negb] in E.
  destruct (parse_headers lines) as [hs|] eqn:Eh; [|done]. unfold endpoint_error in E.
  destruct (String.eqb m' "CONNECT").
  { destruct (_ || _); [done|]. destruct (endpoint_parse t); [|done]. injection E as <-. done. }
  unfold forwardable in E. destruct (bool_decide_reflect (m' ∈ ["GET"; "HEAD"; "POST"; "PUT"]%string)) as [Hm|]; [|done].
  cbn [negb] in E. destruct (parse_http_absolute_form t) as [a|] eqn:Ea; [|done].
  destruct (endpoint_new _ _); [|done]. injection E as <-. simpl in Hk |- *. injection Hk as -> <-.
  apply absolute_parts in Ea as [Haut Hori]; [|eapply infix_no_crlf; [exact Ht|exact Hrl]].
  exists (authority a), hs, rl, lines. split_and!; [done|done| | |done].
  - apply rewrite_lines; try done. by eapply parse_headers_lines.
  - apply Forall_forall. intros f Hf%list_elem_of_In. apply List.filter_In in Hf as [_ Hf].
    by apply negb_true_iff in Hf.
Qed.

Definition sample_request : list Z :=
  bytes_of_string ("GET http://h.example:8080/a?b HTTP/1.1" +:+ CRLF +:+ "Host: evil" +:+ CRLF
    +:+ "Proxy-Authorization: Basic x" +:+ CRLF +:+ "Accept:  y " +:+ CRLF +:+ CRLF +:+ "body")%string.

Example forwarded_head_fields_witness :
  exists h auth hs, parse_request_head sample_request 1024 = Ok (Some h)
    /\ split_crlf (forwarded_head h)
       = ["GET /a?b HTTP/1.1"; ("Host: " +:+ auth); "Accept: y"; ""; ""]%string
    /\ Forall (fun f => hop_header f.1 = false) (kept_fields hs).
Proof.
  destruct (parse_request_head sample_request 1024) as [[h|]|] eqn:E; [|vm_compute in E; discriminate..].
  assert (Hk : kind h = ForwardHttp "GET" "/a?b") by (vm_compute in E; injection E as <-; reflexivity).
  destruct (forwarded_head_fields sample_request 1024 h "GET" "/a?b" E Hk) as (auth & hs & rl & ls & H1 & H2 & H3 & H4 & _).
  exists h, auth, hs. split; [reflexivity|]. split; [|exact H4]. rewrite H3.
  assert (Hc : consumed h = 97%nat) by (vm_compute in E; injection E as <-; reflexivity).
  rewrite Hc in H1. vm_compute in H1. injection H1 as <- <-. vm_compute in H2. injection H2 as <-. reflexivity.
Defined.
