(* ===== verification/Dns.v ===== *)
(** The DNS wire codec (lib/mb-proto-dns/src): names with compression, resource
    records, messages, and the TCP framing. *)
From S2P Require Import Prelude Numbers Rules NetAddr.
Local Open Scope Z_scope.

Inductive DecodeError :=
| Truncated (pos : nat)
| CompressionLoop
| InvalidLabel (b : Z)
| Oversize (s : string)
| InvalidRData (qtype : Z)
| NotUtf8.

Inductive QType := QA | QCname | QPtr | QTxt | QAaaa | QOpt | QAny.

#[export] Instance qtype_eq_dec : EqDecision QType.
Proof. solve_decision. Defined.

(** [qtype as u16] *)
Definition qtype_u16 (q : QType) : Z :=
  match q with QA => 1 | QCname => 5 | QPtr => 12 | QTxt => 16 | QAaaa => 28 | QOpt => 41 | QAny => 255 end.

Definition from_u16 (v : Z) : option QType :=
  match v with
  | 1 => Some QA | 5 => Some QCname | 12 => Some QPtr | 16 => Some QTxt | 28 => Some QAaaa | 41 => Some QOpt
  | 255 => Some QAny | _ => None
  end.

(** The only class is IN, wire value 1. *)
Definition CLASS_IN : Z := 1.

(** ** Names *)

(** A name is its canonical text: ASCII lower case with a trailing dot. *)
Record Name := mkName { canonical : string }.

Definition is_ascii (a : Ascii.ascii) : bool := byte_z a <? 128.

Fixpoint str_lower (s : string) : string :=
  match s with EmptyString => EmptyString | String a s => String (ascii_lower a) (str_lower s) end.

Definition from_ascii (s : string) : result Name DecodeError :=
  if str_is_empty s then Err (InvalidLabel 0)
  else if negb (str_all is_ascii s) then Err NotUtf8
  else
    let out := str_lower s in
    Ok (mkName (if ends_with "." out then out else out +:+ ".")).

(** [split('.').filter(|s| !s.is_empty())] *)
Definition labels (n : Name) : list string :=
  List.filter (fun l => negb (str_is_empty l)) (split_on "." (canonical n)).

Definition default_root : Name := mkName ".".

(** ** Messages *)

Record MessageHeader := mkHeader { h_id : Z; h_flags : Z; qd : Z; an : Z; ns : Z; ar : Z }.

Definition qr (h : MessageHeader) : bool := Z.land (Z.shiftr (h_flags h) 15) 1 =? 1.
Definition tc (h : MessageHeader) : bool := Z.land (Z.shiftr (h_flags h) 9) 1 =? 1.
Definition rcode (h : MessageHeader) : Z := Z.land (h_flags h) 0x000f.

Record Question := mkQuestion { q_name : Name; q_type : QType }.

(** Addresses as their octets. *)
Inductive RData :=
| RA (octets : list Z)
| RAaaa (octets : list Z)
| RPtr (n : Name)
| RCname (n : Name)
| RTxt (parts : list string)
| ROpt (udp_payload_size ext_rcode edns_version flags : Z) (options : list Z)
| ROpaque (qtype : Z) (raw : list Z).

Record ResourceRecord := mkRR { rr_name : Name; rr_type : QType; ttl : Z; data : RData }.

Record Message := mkMessage {
  header : MessageHeader;
  questions : list Question;
  answers : list ResourceRecord;
  authorities : list ResourceRecord;
  additionals : list ResourceRecord;
}.

(** ** Decoding: a reader takes the message and a position *)

Definition byte_at (buf : list Z) (i : nat) : Z := nth i buf 0.
Definition bytes_at (buf : list Z) (i len : nat) : list Z := take len (drop i buf).

Definition cur_u16 (buf : list Z) (pos : nat) : result (Z * nat) DecodeError :=
  if (length buf <? pos + 2)%nat then Err (Truncated pos)
  else Ok (from_be_bytes (bytes_at buf pos 2), (pos + 2)%nat).

Definition cur_u32 (buf : list Z) (pos : nat) : result (Z * nat) DecodeError :=
  if (length buf <? pos + 4)%nat then Err (Truncated pos)
  else Ok (from_be_bytes (bytes_at buf pos 4), (pos + 4)%nat).

Definition MAX_POINTER_HOPS : nat := 16.

(** The bytes of a label as lower-case text. *)
Definition label_text (l : list Z) : result string DecodeError :=
  if forallb (fun b => b <? 128) l then Ok (str_lower (string_of_bytes l)) else Err NotUtf8.

(** [loop]: [after] is the cursor once a pointer was followed; [None] is fuel used up. *)
Fixpoint name_loop (fuel : nat) (buf : list Z) (pos jumps : nat) (after : option nat) (out : string) :
    option (result (string * nat) DecodeError) :=
  match fuel with
  | O => None
  | S fuel =>
      if (length buf <=? pos)%nat then Some (Err (Truncated pos))
      else
        let len := byte_at buf pos in
        if len =? 0 then Some (Ok (out, match after with Some p => p | None => (pos + 1)%nat end))
        else if Z.land len 0xC0 =? 0xC0 then
          if (length buf <=? pos + 1)%nat then Some (Err (Truncated pos))
          else
            let ptr := Z.to_nat (Z.lor (Z.shiftl (Z.land len 0x3F) 8) (byte_at buf (pos + 1))) in
            let after := match after with Some p => Some p | None => Some (pos + 2)%nat end in
            let jumps := S jumps in
            if (MAX_POINTER_HOPS <? jumps)%nat then Some (Err CompressionLoop)
            else if (pos <=? ptr)%nat then Some (Err CompressionLoop)
            else name_loop fuel buf ptr jumps after out
        else if negb (Z.land len 0xC0 =? 0) then Some (Err (InvalidLabel len))
        else
          let llen := Z.to_nat len in
          if (length buf <? pos + 1 + llen)%nat then Some (Err (Truncated pos))
          else
            match label_text (bytes_at buf (pos + 1) llen) with
            | Err e => Some (Err e)
            | Ok text => name_loop fuel buf (pos + 1 + llen) jumps after (out +:+ text +:+ ".")
            end
  end.

(** At most sixteen jumps, and a label moves the position forward in between. *)
Definition name_fuel (buf : list Z) : nat := ((MAX_POINTER_HOPS + 1) * S (length buf))%nat.

Definition decode_name (buf : list Z) (pos : nat) : result (Name * nat) DecodeError :=
  match name_loop (name_fuel buf) buf pos 0 None "" with
  | None => Err CompressionLoop
  | Some (Err e) => Err e
  | Some (Ok (out, pos)) =>
      let out := if str_is_empty out then "."%string else out in
      let? n := from_ascii out in Ok (n, pos)
  end.

(** [while i < rdlen] of a TXT record: a segment takes at least one byte. *)
Fixpoint txt_loop (fuel : nat) (rdata : list Z) (qtype : Z) : result (list string) DecodeError :=
  match rdata, fuel with
  | [], _ => Ok []
  | _, O => Err NotUtf8
  | l :: rest, S fuel =>
      let l := Z.to_nat l in
      if (length rest <? l)%nat then Err (InvalidRData qtype)
      else
        match from_utf8 (take l rest) with
        | None => Err NotUtf8
        | Some s => let? parts := txt_loop fuel (drop l rest) qtype in Ok (s :: parts)
        end
  end.

Definition decode_rdata (buf : list Z) (qtype_raw qclass_raw ttl : Z) (start rdlen : nat) :
    result RData DecodeError :=
  let rdata := bytes_at buf start rdlen in
  match from_u16 qtype_raw with
  | Some QA => if negb (rdlen =? 4)%nat then Err (InvalidRData qtype_raw) else Ok (RA rdata)
  | Some QAaaa => if negb (rdlen =? 16)%nat then Err (InvalidRData qtype_raw) else Ok (RAaaa rdata)
  | Some QPtr => let? (n, _) := decode_name buf start in Ok (RPtr n)
  | Some QCname => let? (n, _) := decode_name buf start in Ok (RCname n)
  | Some QTxt => let? parts := txt_loop rdlen rdata qtype_raw in Ok (RTxt parts)
  | Some QOpt =>
      Ok (ROpt qclass_raw (as_u8 (Z.shiftr ttl 24)) (as_u8 (Z.shiftr ttl 16)) (Z.land ttl 0xFFFF) rdata)
  | _ => Ok (ROpaque qtype_raw rdata)
  end.

Definition decode_rr (buf : list Z) (pos : nat) : result (ResourceRecord * nat) DecodeError :=
  let? (name, pos) := decode_name buf pos in
  let? (qtype_raw, pos) := cur_u16 buf pos in
  let? (qclass_raw, pos) := cur_u16 buf pos in
  let? (ttl, pos) := cur_u32 buf pos in
  let? (rdlen, pos) := cur_u16 buf pos in
  let rdlen := Z.to_nat rdlen in
  if (length buf <? pos + rdlen)%nat then Err (Truncated pos)
  else
    let? data := decode_rdata buf qtype_raw qclass_raw ttl pos rdlen in
    Ok (mkRR name (default QA (from_u16 qtype_raw)) ttl data, (pos + rdlen)%nat).

Definition decode_question (buf : list Z) (pos : nat) : result (Question * nat) DecodeError :=
  let? (name, pos) := decode_name buf pos in
  let? (qtype_raw, pos) := cur_u16 buf pos in
  let? (_, pos) := cur_u16 buf pos in
  Ok (mkQuestion name (default QA (from_u16 qtype_raw)), pos).

(** [for _ in 0..n] *)
Fixpoint decode_many {A} (item : list Z -> nat -> result (A * nat) DecodeError) (n : nat)
    (buf : list Z) (pos : nat) : result (list A * nat) DecodeError :=
  match n with
  | O => Ok ([], pos)
  | S n =>
      let? (x, pos) := item buf pos in
      let? (xs, pos) := decode_many item n buf pos in
      Ok (x :: xs, pos)
  end.

Definition decode_message (buf : list Z) : result Message DecodeError :=
  let? (id, pos) := cur_u16 buf 0 in
  let? (flags, pos) := cur_u16 buf pos in
  let? (qd, pos) := cur_u16 buf pos in
  let? (an, pos) := cur_u16 buf pos in
  let? (ns, pos) := cur_u16 buf pos in
  let? (ar, pos) := cur_u16 buf pos in
  let? (questions, pos) := decode_many decode_question (Z.to_nat qd) buf pos in
  let? (answers, pos) := decode_many decode_rr (Z.to_nat an) buf pos in
  let? (authorities, pos) := decode_many decode_rr (Z.to_nat ns) buf pos in
  let? (additionals, pos) := decode_many decode_rr (Z.to_nat ar) buf pos in
  Ok (mkMessage (mkHeader id flags qd an ns ar) questions answers authorities additionals).

(** ** Encoding *)

Definition put_u16 (z : Z) : list Z := to_be_bytes 2 (as_u16 z).
Definition put_u32 (z : Z) : list Z := to_be_bytes 4 z.
Definition u16_max : nat := Z.to_nat 65535.

Fixpoint encode_labels (ls : list string) : result (list Z) DecodeError :=
  match ls with
  | [] => Ok [0]
  | l :: ls =>
      if (63 <? String.length l)%nat then Err (Oversize "label > 63 octets")
      else let? rest := encode_labels ls in
           Ok ([as_u8 (Z.of_nat (String.length l))] ++ bytes_of_string l ++ rest)
  end.

Definition encode_name (n : Name) : result (list Z) DecodeError := encode_labels (labels n).

Fixpoint encode_txt (parts : list string) : result (list Z) DecodeError :=
  match parts with
  | [] => Ok []
  | p :: parts =>
      if (255 <? String.length p)%nat then Err (Oversize "TXT segment > 255")
      else let? rest := encode_txt parts in
           Ok ([as_u8 (Z.of_nat (String.length p))] ++ bytes_of_string p ++ rest)
  end.

(** [None] is the [unreachable!] of OPT data under another type. *)
Definition encode_rdata (d : RData) : option (result (list Z) DecodeError) :=
  match d with
  | RA o | RAaaa o => Some (Ok o)
  | RPtr n | RCname n => Some (encode_name n)
  | RTxt parts => Some (encode_txt parts)
  | ROpt _ _ _ _ _ => None
  | ROpaque _ raw => Some (Ok raw)
  end.

(** The outcome of [encode_rr]: [None] is a panic. *)
Definition encode_rr (rr : ResourceRecord) : option (result (list Z) DecodeError) :=
  if decide (rr_type rr = QOpt) then
    match data rr with
    | ROpt udp ext ver flags options =>
        let ttl := Z.lor (Z.lor (Z.shiftl ext 24) (Z.shiftl ver 16)) flags in
        if (u16_max <? length options)%nat then Some (Err (Oversize "OPT options > u16"))
        else Some (Ok ([0] ++ put_u16 (qtype_u16 QOpt) ++ put_u16 udp ++ put_u32 ttl
                       ++ put_u16 (Z.of_nat (length options)) ++ options))
    | _ => Some (Err (InvalidRData (qtype_u16 QOpt)))
    end
  else
    match encode_name (rr_name rr) with
    | Err e => Some (Err e)
    | Ok name =>
        match encode_rdata (data rr) with
        | None => None
        | Some (Err e) => Some (Err e)
        | Some (Ok body) =>
            if (u16_max <? length body)%nat then Some (Err (Oversize "rdata > u16"))
            else Some (Ok (name ++ put_u16 (qtype_u16 (rr_type rr)) ++ put_u16 CLASS_IN ++ put_u32 (ttl rr)
                           ++ put_u16 (Z.of_nat (length body)) ++ body))
        end
    end.

Fixpoint encode_rrs (rrs : list ResourceRecord) : option (result (list Z) DecodeError) :=
  match rrs with
  | [] => Some (Ok [])
  | rr :: rrs =>
      match encode_rr rr with
      | None => None
      | Some (Err e) => Some (Err e)
      | Some (Ok b) =>
          match encode_rrs rrs with
          | Some (Ok bs) => Some (Ok (b ++ bs))
          | other => other
          end
      end
  end.

Definition encode_question (q : Question) : result (list Z) DecodeError :=
  let? name := encode_name (q_name q) in
  Ok (name ++ put_u16 (qtype_u16 (q_type q)) ++ put_u16 CLASS_IN).

Fixpoint encode_questions (qs : list Question) : result (list Z) DecodeError :=
  match qs with
  | [] => Ok []
  | q :: qs => let? b := encode_question q in let? bs := encode_questions qs in Ok (b ++ bs)
  end.

Definition encode_message (m : Message) : option (result (list Z) DecodeError) :=
  if (u16_max <? length (questions m))%nat || (u16_max <? length (answers m))%nat
     || (u16_max <? length (authorities m))%nat || (u16_max <? length (additionals m))%nat
  then Some (Err (Oversize "section count > u16"))
  else
    let counts := put_u16 (h_id (header m)) ++ put_u16 (h_flags (header m))
                  ++ put_u16 (Z.of_nat (length (questions m))) ++ put_u16 (Z.of_nat (length (answers m)))
                  ++ put_u16 (Z.of_nat (length (authorities m))) ++ put_u16 (Z.of_nat (length (additionals m))) in
    match encode_questions (questions m) with
    | Err e => Some (Err e)
    | Ok qs =>
        match encode_rrs (answers m ++ authorities m ++ additionals m) with
        | Some (Ok rrs) => Some (Ok (counts ++ qs ++ rrs))
        | other => other
        end
    end.

Definition edns_opt_rr (udp_payload_size : Z) (dnssec_ok : bool) : ResourceRecord :=
  mkRR default_root QOpt 0 (ROpt udp_payload_size 0 0 (if dnssec_ok then 0x8000 else 0) []).

(** ** TCP framing *)

Definition write_tcp_frame (out msg : list Z) : list Z :=
  out ++ put_u16 (Z.of_nat (length msg)) ++ msg.

Definition try_read_tcp_frame (buf : list Z) : option (list Z) * list Z :=
  if (length buf <? 2)%nat then (None, buf)
  else
    let len := Z.to_nat (from_be_bytes (bytes_at buf 0 2)) in
    if (length buf <? 2 + len)%nat then (None, buf)
    else (Some (bytes_at buf 2 len), drop (2 + len) buf).
