(* ===== verification/DnsFacts.v ===== *)
(** The DNS codec: reading a name ends on every message, and what the encoder
    writes is read back. *)
From S2P Require Import Prelude Numbers Rules RulesFacts NetAddr QuicPacket Dns.
Local Open Scope Z_scope.

(** ** Reading a name ends *)

(** Enough fuel for the jumps that are left and the bytes in front of the position. *)
Definition name_measure (len pos jumps : nat) : nat := ((MAX_POINTER_HOPS - jumps) * S len + (len - pos) + 1)%nat.

Lemma name_measure_jump len pos ptr jumps :
  (pos < len)%nat -> (S jumps <= MAX_POINTER_HOPS)%nat ->
  (name_measure len ptr (S jumps) < name_measure len pos jumps)%nat.
Proof. unfold name_measure, MAX_POINTER_HOPS. intros. replace (16 - jumps)%nat with (S (16 - S jumps)) by lia. lia. Qed.

Lemma name_measure_label len pos n jumps :
  (pos < len)%nat -> (name_measure len (pos + 1 + n) jumps < name_measure len pos jumps)%nat.
Proof. unfold name_measure. lia. Qed.

(** The cursor after the name: past its first byte and inside the message. *)
Definition after_ok (len start : nat) (after : option nat) (pos : nat) : Prop :=
  match after with Some p => (start < p <= len)%nat | None => (start <= pos)%nat end.

Lemma name_loop_total buf start fuel : forall pos jumps after out,
  (name_measure (length buf) pos jumps <= fuel)%nat -> after_ok (length buf) start after pos ->
  (exists e, name_loop fuel buf pos jumps after out = Some (Err e)) \/
  exists s p, name_loop fuel buf pos jumps after out = Some (Ok (s, p)) /\ (start < p <= length buf)%nat.
Proof.
  induction fuel as [|fuel IH]; intros pos jumps after out Hf Ha; [unfold name_measure in Hf; rewrite Nat.add_1_r in Hf; by apply Nat.nle_succ_0 in Hf|].
  cbn [name_loop]. destruct (Nat.leb_spec (length buf) pos) as [|Hpos]; [left; eauto|].
  destruct (Z.eqb_spec (byte_at buf pos) 0) as [|].
  { right. eexists _, _. split; [done|]. destruct after; cbn in Ha; lia. }
  destruct (Z.land _ 0xC0 =? 0xC0).
  { destruct (Nat.leb_spec (length buf) (pos + 1)); [left; eauto|].
    destruct (Nat.ltb_spec MAX_POINTER_HOPS (S jumps)); [left; eauto|].
    destruct (pos <=? _)%nat; [left; eauto|]. apply IH.
    - assert (Hm := name_measure_jump (length buf) pos
        (Z.to_nat (Z.lor (Z.shiftl (Z.land (byte_at buf pos) 0x3F) 8) (byte_at buf (pos + 1)))) jumps). lia.
    - destruct after; cbn in *; lia. }
  destruct (negb _); [left; eauto|].
  destruct (Nat.ltb_spec (length buf) (pos + 1 + Z.to_nat (byte_at buf pos))); [left; eauto|].
  destruct (label_text _); [|left; eauto]. apply IH.
  - pose proof (name_measure_label (length buf) pos (Z.to_nat (byte_at buf pos)) jumps). lia.
  - destruct after; cbn in *; lia.
Qed.

Lemma name_fuel_enough buf pos : (name_measure (length buf) pos 0 <= name_fuel buf)%nat.
Proof. unfold name_measure, name_fuel, MAX_POINTER_HOPS. lia. Qed.

(** More fuel changes nothing once the loop has ended. *)
Lemma name_loop_fuel buf fuel : forall extra pos jumps after out r,
  name_loop fuel buf pos jumps after out = Some r -> name_loop (fuel + extra) buf pos jumps after out = Some r.
Proof.
  induction fuel as [|fuel IH]; intros extra pos jumps after out r; [done|]. cbn [name_loop Nat.add].
  repeat case_match; eauto.
Qed.

(** Reading a name ends on every message, position and chain of
    compression pointers: the loop returns within its bound (sixteen jumps, each
    followed by at most the length of the message), a larger bound gives the same
    result, and a name that is read leaves the cursor past its start and inside
    the message. *)
Theorem decode_name_terminates (buf : list Z) (pos extra : nat) :
  exists r, name_loop (name_fuel buf) buf pos 0 None "" = Some r /\
            name_loop (name_fuel buf + extra) buf pos 0 None "" = Some r /\
            forall n p, decode_name buf pos = Ok (n, p) -> (pos < p <= length buf)%nat.
Proof.
  destruct (name_loop_total buf pos (name_fuel buf) pos 0 None "" (name_fuel_enough buf pos)) as [[e He]|(s & p & Hs & Hp)];
    [cbn; lia| |]; eexists; (split; [eassumption|]); (split; [by apply name_loop_fuel|]); intros n q; unfold decode_name.
  - by rewrite He.
  - rewrite Hs. destruct (from_ascii _); cbn; [|done]. by intros [= _ <-].
Qed.

(** ** Names *)

(** A label as the decoder produces it: 1 to 63 lower-case ASCII bytes without a dot. *)
Definition label_char (a : Ascii.ascii) : bool :=
  is_ascii a && bool_decide (ascii_lower a = a) && bool_decide (a <> "."%char).

Definition label_ok (l : string) : bool :=
  negb (str_is_empty l) && (String.length l <=? 63)%nat && str_all label_char l.

Fixpoint dotted (ls : list string) : string :=
  match ls with [] => "" | l :: ls => l +:+ "." +:+ dotted ls end.

Definition name_of (ls : list string) : Name := mkName (match ls with [] => "." | _ => dotted ls end).
Definition name_ok (n : Name) : Prop := exists ls, n = name_of ls /\ Forall (fun l => label_ok l = true) ls.

Lemma label_ok_inv l :
  label_ok l = true -> l <> "" /\ (String.length l <= 63)%nat /\ str_all label_char l = true.
Proof.
  unfold label_ok. rewrite !andb_true_iff, Nat.leb_le. intros [[H1 H2] H3]. repeat split; try done. by intros ->.
Qed.

Lemma label_chars l :
  str_all label_char l = true ->
  str_lower l = l /\ str_all is_ascii l = true /\ forallb (fun b => b <? 128) (bytes_of_string l) = true.
Proof.
  induction l as [|a l IH]; cbn [str_all str_lower bytes_of_string forallb]; [done|].
  unfold label_char at 1. rewrite !andb_true_iff, !bool_decide_eq_true. intros [[[Ha Hl] _] Hs].
  destruct (IH Hs) as (-> & -> & ->). rewrite Hl, Ha. unfold is_ascii in Ha. by rewrite Ha.
Qed.

Lemma split_on_label l rest :
  str_all label_char l = true -> split_on "." (l +:+ "." +:+ rest) = l :: split_on "." rest.
Proof.
  induction l as [|a l IH]; cbn [str_all]; [done|].
  unfold label_char at 1. rewrite !andb_true_iff, !bool_decide_eq_true. intros [[_ Hd] Hs].
  change (String a l +:+ "." +:+ rest) with (String a (l +:+ "." +:+ rest)). cbn [split_on].
  by rewrite decide_False, IH by done.
Qed.

Lemma labels_name_of ls : Forall (fun l => label_ok l = true) ls -> labels (name_of ls) = ls.
Proof.
  intros Hls. unfold labels, name_of. destruct ls as [|l0 ls0]; [done|]. cbn [canonical].
  revert Hls. generalize (l0 :: ls0) as ls. clear. induction ls as [|l ls IH]; intros Hls; [done|].
  apply Forall_cons in Hls as [Hl Hls]. apply label_ok_inv in Hl as (Hne & _ & Hc).
  cbn [dotted]. rewrite split_on_label by done. cbn [List.filter].
  destruct l; [done|]. cbn [str_is_empty negb]. by rewrite IH.
Qed.

Lemma str_lower_app a b : str_lower (a +:+ b) = str_lower a +:+ str_lower b.
Proof.
  induction a as [|x a IH]; [done|]. change (String x a +:+ b) with (String x (a +:+ b)).
  cbn [str_lower]. by rewrite IH.
Qed.

Lemma dotted_ends l ls : exists p, dotted (l :: ls) = p +:+ ".".
Proof.
  revert l. induction ls as [|k ls IH]; intros l.
  - by exists l.
  - destruct (IH k) as [p Hp]. exists (l +:+ "." +:+ p). change (dotted (l :: k :: ls)) with (l +:+ "." +:+ dotted (k :: ls)).
    rewrite Hp. by rewrite <- !str_app_assoc.
Qed.

Lemma dotted_chars ls :
  Forall (fun l => label_ok l = true) ls -> str_lower (dotted ls) = dotted ls /\ str_all is_ascii (dotted ls) = true.
Proof.
  induction 1 as [|l ls Hl _ [IH1 IH2]]; [done|]. apply label_ok_inv in Hl as (_ & _ & Hc).
  apply label_chars in Hc as (H1 & H2 & _). cbn [dotted].
  by rewrite !str_lower_app, !str_all_app, H1, H2, IH1, IH2.
Qed.

(** The text the loop collects becomes the name. *)
Lemma from_ascii_dotted ls :
  Forall (fun l => label_ok l = true) ls ->
  from_ascii (if str_is_empty (dotted ls) then "." else dotted ls) = Ok (name_of ls).
Proof.
  intros Hls. destruct ls as [|l ls]; [done|]. pose proof (dotted_chars _ Hls) as [H1 H2].
  apply Forall_cons in Hls as [Hl _]. apply label_ok_inv in Hl as (Hne & _).
  assert (Hx : str_is_empty (dotted (l :: ls)) = false) by (by destruct l).
  rewrite Hx. unfold from_ascii. rewrite Hx, H2, H1. cbn [negb].
  destruct (dotted_ends l ls) as [p Hp].
  assert (ends_with "." (dotted (l :: ls)) = true) as -> by (apply ends_with_iff; by exists p). done.
Qed.

(** ** Readers *)

(** [item] reads [x] from [enc], wherever it stands. *)
Definition reads {A} (item : list Z -> nat -> result (A * nat) DecodeError) (enc : list Z) (x : A) : Prop :=
  forall pre rest, item (pre ++ enc ++ rest) (length pre) = Ok (x, length pre + length enc)%nat.

(** The same, after a prefix of [pre] has been read. *)
Lemma reads_after {A} (item : list Z -> nat -> result (A * nat) DecodeError) enc x pre done_ rest :
  reads item enc x ->
  item (pre ++ done_ ++ enc ++ rest) (length pre + length done_)%nat = Ok (x, length pre + length done_ + length enc)%nat.
Proof. intros H. rewrite (app_assoc pre), <- length_app. apply H. Qed.

Lemma byte_at_shift pre l i : byte_at (pre ++ l) (length pre + i) = byte_at l i.
Proof. unfold byte_at. rewrite app_nth2_plus. done. Qed.

Lemma byte_at_front pre a l : byte_at (pre ++ a :: l) (length pre) = a.
Proof. pose proof (byte_at_shift pre (a :: l) 0) as H. by rewrite Nat.add_0_r in H. Qed.

Lemma bytes_at_front pre l rest : bytes_at (pre ++ l ++ rest) (length pre) (length l) = l.
Proof. unfold bytes_at. by rewrite drop_app_length, take_app_length. Qed.

Lemma cur_u16_reads z : 0 <= z < 65536 -> reads cur_u16 (put_u16 z) z.
Proof.
  intros Hz pre rest. unfold cur_u16, put_u16. rewrite !length_app, to_be_bytes_length.
  destruct (Nat.ltb_spec (length pre + (2 + length rest)) (length pre + 2)); [lia|].
  pose proof (bytes_at_front pre (to_be_bytes 2 (as_u16 z)) rest) as Hb. rewrite to_be_bytes_length in Hb.
  rewrite Hb, from_to_be; [|apply Z.mod_pos_bound; lia]. unfold as_u16. by rewrite Z.mod_small.
Qed.

Lemma cur_u32_reads z : 0 <= z < 2 ^ 32 -> reads cur_u32 (put_u32 z) z.
Proof.
  intros Hz pre rest. unfold cur_u32, put_u32. rewrite !length_app, to_be_bytes_length.
  destruct (Nat.ltb_spec (length pre + (4 + length rest)) (length pre + 4)); [lia|].
  pose proof (bytes_at_front pre (to_be_bytes 4 z) rest) as Hb. rewrite to_be_bytes_length in Hb.
  by rewrite Hb, from_to_be.
Qed.

Lemma decode_many_reads {A} (item : list Z -> nat -> result (A * nat) DecodeError) (encs : list (list Z)) xs :
  Forall2 (reads item) encs xs -> reads (decode_many item (length xs)) (concat encs) xs.
Proof.
  induction 1 as [|enc x encs xs Hx _ IH]; intros pre rest; cbn [decode_many length concat].
  - by rewrite Nat.add_0_r.
  - rewrite <- app_assoc, Hx. cbn beta iota. rewrite (reads_after _ _ _ _ _ _ IH).
    cbn beta iota. by rewrite length_app, Nat.add_assoc.
Qed.

(** ** Names round trip *)

Definition label_bytes (l : string) : list Z := as_u8 (Z.of_nat (String.length l)) :: bytes_of_string l.

Lemma encode_labels_ok ls :
  Forall (fun l => label_ok l = true) ls -> encode_labels ls = Ok (concat (label_bytes <$> ls) ++ [0]).
Proof.
  induction 1 as [|l ls Hl _ IH]; [done|]. apply label_ok_inv in Hl as (_ & Hlen & _).
  cbn [encode_labels]. destruct (Nat.ltb_spec 63 (String.length l)); [lia|]. rewrite IH. cbn.
  by rewrite <- app_assoc.
Qed.

(** The length byte of a label is neither the end nor a pointer. *)
Lemma label_len_byte l :
  label_ok l = true ->
  let b := as_u8 (Z.of_nat (String.length l)) in
  b = Z.of_nat (String.length l) /\ b <> 0 /\ Z.land b 0xC0 = 0.
Proof.
  intros Hl. apply label_ok_inv in Hl as (Hne & Hlen & _). cbn zeta.
  assert (H : as_u8 (Z.of_nat (String.length l)) = Z.of_nat (String.length l)) by (apply Z.mod_small; lia).
  rewrite H. split; [done|]. split; [destruct l; [done|cbn [String.length]; lia]|].
  assert (Hb : 0 <= Z.of_nat (String.length l) < 2 ^ 6) by lia. revert Hb. generalize (Z.of_nat (String.length l)) as n.
  intros n Hn. apply Z.bits_inj'. intros i Hi. rewrite Z.land_spec, Z.bits_0.
  destruct (Z.ltb_spec i 6) as [Hi6|Hi6].
  - assert (i = 0 \/ i = 1 \/ i = 2 \/ i = 3 \/ i = 4 \/ i = 5) as Hc by lia.
    apply andb_false_iff. right. by destruct Hc as [->|[->|[->|[->|[->| ->]]]]].
  - apply andb_false_iff. left. destruct (Z.eq_dec n 0) as [->|]; [apply Z.bits_0|].
    apply Z.bits_above_log2; [lia|]. apply Z.log2_lt_pow2; [lia|].
    assert (2 ^ 6 <= 2 ^ i) by (apply Z.pow_le_mono_r; lia). lia.
Qed.

Lemma label_text_bytes l : str_all label_char l = true -> label_text (bytes_of_string l) = Ok l.
Proof.
  intros Hc. apply label_chars in Hc as (H1 & _ & H3). unfold label_text.
  by rewrite H3, string_of_bytes_of, H1.
Qed.

(** One turn of the loop on a label. *)
Lemma name_loop_label l fuel pre rest jumps after out :
  label_ok l = true ->
  name_loop (S fuel) (pre ++ label_bytes l ++ rest) (length pre) jumps after out
  = name_loop fuel (pre ++ label_bytes l ++ rest) (length pre + length (label_bytes l)) jumps after (out +:+ l +:+ ".").
Proof.
  intros Hl. pose proof (label_len_byte l Hl) as (Hb & Hn0 & Hc0). apply label_ok_inv in Hl as (_ & _ & Hchars).
  assert (Hat : byte_at (pre ++ label_bytes l ++ rest) (length pre) = Z.of_nat (String.length l)).
  { rewrite <- Hb. apply byte_at_front. }
  assert (Hlen : length (pre ++ label_bytes l ++ rest) = (length pre + S (String.length l) + length rest)%nat).
  { rewrite !length_app. cbn [label_bytes length]. rewrite bytes_of_string_length. lia. }
  assert (Hx : bytes_at (pre ++ label_bytes l ++ rest) (length pre + 1) (String.length l) = bytes_of_string l).
  { pose proof (bytes_at_front (pre ++ [as_u8 (Z.of_nat (String.length l))]) (bytes_of_string l) rest) as H.
    rewrite length_app, <- app_assoc, bytes_of_string_length in H. exact H. }
  cbn [name_loop]. rewrite Hat, Hlen. rewrite Hb in Hn0, Hc0. rewrite Hc0, Nat2Z.id, Hx.
  rewrite label_text_bytes by done.
  destruct (Nat.leb_spec (length pre + S (String.length l) + length rest) (length pre)); [lia|].
  destruct (Z.eqb_spec (Z.of_nat (String.length l)) 0); [done|]. cbn [Z.eqb negb].
  destruct (Nat.ltb_spec (length pre + S (String.length l) + length rest) (length pre + 1 + String.length l)); [lia|].
  f_equal. cbn [label_bytes length]. rewrite bytes_of_string_length. lia.
Qed.

Lemma name_loop_reads ls : Forall (fun l => label_ok l = true) ls -> forall fuel pre rest out,
  (length ls < fuel)%nat ->
  name_loop fuel (pre ++ (concat (label_bytes <$> ls) ++ [0]) ++ rest) (length pre) 0 None out
  = Some (Ok (out +:+ dotted ls, (length pre + length (concat (label_bytes <$> ls) ++ [0%Z]))%nat)).
Proof.
  induction 1 as [|l ls Hl _ IH]; intros fuel pre rest out Hf; (destruct fuel as [|fuel]; [cbn in Hf; lia|]).
  - cbn [name_loop fmap list_fmap concat app dotted length]. rewrite byte_at_front, length_app. cbn [length].
    destruct (Nat.leb_spec (length pre + S (length rest)) (length pre)); [lia|]. cbn. by rewrite str_app_nil.
  - rewrite fmap_cons. cbn [concat]. rewrite <- !(app_assoc (label_bytes l)), name_loop_label by done.
    rewrite (app_assoc pre), <- length_app, IH by (cbn in Hf; lia).
    cbn [dotted]. rewrite !str_app_assoc, !length_app. do 3 f_equal. lia.
Qed.

Lemma label_bytes_count ls : (length ls <= length (concat (label_bytes <$> ls)))%nat.
Proof.
  induction ls as [|l ls IH]; [cbn; lia|]. rewrite fmap_cons. cbn [concat length]. rewrite length_app.
  cbn [label_bytes length]. lia.
Qed.

Lemma decode_name_reads n :
  name_ok n -> exists enc, encode_name n = Ok enc /\ reads decode_name enc n.
Proof.
  intros (ls & -> & Hls). unfold encode_name. rewrite labels_name_of, encode_labels_ok by done.
  eexists. split; [done|]. intros pre rest. unfold decode_name.
  rewrite name_loop_reads by
    first [done | unfold name_fuel, MAX_POINTER_HOPS; rewrite !length_app; pose proof (label_bytes_count ls); lia].
  change ("" +:+ dotted ls) with (dotted ls). by rewrite from_ascii_dotted.
Qed.

(** ** Records round trip *)

Lemma reads_bind {A B} (p : list Z -> nat -> result (A * nat) DecodeError)
    (k : A -> list Z -> nat -> result (B * nat) DecodeError) e1 e2 x y :
  reads p e1 x -> reads (k x) e2 y ->
  reads (fun buf pos => let? (x, pos) := p buf pos in k x buf pos) (e1 ++ e2) y.
Proof.
  intros Hp Hk pre rest. rewrite <- app_assoc, Hp. cbn beta iota. rewrite (reads_after _ _ _ _ _ _ Hk).
  by rewrite length_app, Nat.add_assoc.
Qed.

Lemma reads_ret {A} (x : A) : reads (fun _ pos => Ok (x, pos)) [] x.
Proof. intros pre rest. by rewrite Nat.add_0_r. Qed.

(** The record data of [body] is read as [d]. *)
Definition reads_data (qt cl t : Z) (body : list Z) (d : RData) : Prop :=
  forall pre rest, decode_rdata (pre ++ body ++ rest) qt cl t (length pre) (length body) = Ok d.

Lemma decode_rr_reads nm n qt cl t body d :
  reads decode_name nm n -> 0 <= qt < 65536 -> 0 <= cl < 65536 -> 0 <= t < 2 ^ 32 -> (length body <= u16_max)%nat ->
  reads_data qt cl t body d ->
  reads decode_rr (nm ++ put_u16 qt ++ put_u16 cl ++ put_u32 t ++ put_u16 (Z.of_nat (length body)) ++ body)
    (mkRR n (default QA (from_u16 qt)) t d).
Proof.
  intros Hn Hqt Hcl Ht Hb Hd. unfold u16_max in Hb.
  eapply (reads_bind decode_name); [done|]. eapply (reads_bind cur_u16); [by apply cur_u16_reads|].
  eapply (reads_bind cur_u16); [by apply cur_u16_reads|]. eapply (reads_bind cur_u32); [by apply cur_u32_reads|].
  eapply (reads_bind cur_u16); [apply cur_u16_reads; lia|].
  intros pre rest. rewrite Nat2Z.id, !length_app.
  destruct (Nat.ltb_spec (length pre + (length body + length rest)) (length pre + length body)); [lia|].
  by rewrite Hd.
Qed.

(** A record the encoder can express: the data fits the type, OPT carries its
    fields in the class and ttl, and no unknown type hides under a known one. *)
Definition data_ok (q : QType) (n : Name) (t : Z) (d : RData) : Prop :=
  match q, d with
  | QA, RA o => length o = 4%nat
  | QAaaa, RAaaa o => length o = 16%nat
  | QPtr, RPtr m | QCname, RCname m => name_ok m
  | QTxt, RTxt parts => Forall (fun p => is_utf8 p = true) parts
  | QOpt, ROpt udp ext ver flags _ =>
      n = default_root /\ 0 <= udp < 65536 /\ is_byte ext /\ is_byte ver /\ 0 <= flags < 65536 /\
      t = 2 ^ 24 * ext + 2 ^ 16 * ver + flags
  | QAny, ROpaque 255 _ => True
  | _, _ => False
  end.

Definition rr_ok (rr : ResourceRecord) : Prop :=
  name_ok (rr_name rr) /\ 0 <= ttl rr < 2 ^ 32 /\ data_ok (rr_type rr) (rr_name rr) (ttl rr) (data rr).

Lemma opt_ttl_parts ext ver flags :
  is_byte ext -> is_byte ver -> 0 <= flags < 65536 ->
  let t := 2 ^ 24 * ext + 2 ^ 16 * ver + flags in
  Z.lor (Z.lor (Z.shiftl ext 24) (Z.shiftl ver 16)) flags = t /\
  as_u8 (Z.shiftr t 24) = ext /\ as_u8 (Z.shiftr t 16) = ver /\ Z.land t 0xFFFF = flags.
Proof.
  intros He Hv Hf t. unfold is_byte in *. split_and!.
  - rewrite (Z.lor_comm _ flags), (Z.lor_comm (Z.shiftl ext 24)), Z.lor_assoc, (lor_shifted flags) by lia.
    rewrite !Z.shiftl_mul_pow2 by lia. rewrite <- (Z.shiftl_mul_pow2 ext), lor_shifted, Z.shiftl_mul_pow2 by lia.
    subst t. lia.
  - unfold as_u8. rewrite Z.shiftr_div_pow2 by lia. subst t.
    replace (2 ^ 24 * ext + 2 ^ 16 * ver + flags) with (2 ^ 16 * ver + flags + ext * 2 ^ 24) by lia.
    rewrite Z.div_add, Z.div_small, Z.mod_small by lia. lia.
  - unfold as_u8. rewrite Z.shiftr_div_pow2 by lia. subst t.
    replace (2 ^ 24 * ext + 2 ^ 16 * ver + flags) with (flags + (ver + ext * 2 ^ 8) * 2 ^ 16) by lia.
    rewrite Z.div_add, Z.div_small by lia. rewrite Z.add_0_l, Z.mod_add, Z.mod_small by lia. done.
  - change 0xFFFF with (Z.ones 16). rewrite Z.land_ones by lia. subst t.
    replace (2 ^ 24 * ext + 2 ^ 16 * ver + flags) with (flags + (ver + ext * 2 ^ 8) * 2 ^ 16) by lia.
    rewrite Z.mod_add, Z.mod_small by lia. done.
Qed.

Lemma txt_roundtrip parts qt : Forall (fun p => is_utf8 p = true) parts ->
  (exists s, encode_txt parts = Err (Oversize s)) \/
  exists enc, encode_txt parts = Ok enc /\ forall fuel, (length enc <= fuel)%nat -> txt_loop fuel enc qt = Ok parts.
Proof.
  induction 1 as [|p parts Hp _ IH]; [right; exists []; split; [done|by intros []]|]. cbn [encode_txt].
  destruct (Nat.ltb_spec 255 (String.length p)) as [|Hle]; [left; eauto|].
  destruct IH as [[s ->]|(enc & -> & IH)]; [left; eauto|]. right. eexists. split; [done|].
  intros [|fuel] Hf; [cbn in Hf; lia|]. cbn [txt_loop app] in *. unfold as_u8.
  rewrite Z.mod_small, Nat2Z.id, <- (bytes_of_string_length p) by lia. rewrite length_app.
  destruct (Nat.ltb_spec (length (bytes_of_string p) + length enc) (length (bytes_of_string p))); [lia|].
  rewrite take_app_length, drop_app_length, from_utf8_bytes, IH by
    first [done | cbn [length] in Hf; rewrite length_app in Hf; lia]. done.
Qed.

Lemma u16_fits len : (len <= u16_max)%nat -> (u16_max <? len)%nat = false.
Proof. apply Nat.ltb_ge. Qed.

(** The data part of a record, with the class the encoder writes. *)
Lemma rdata_roundtrip q n t d :
  data_ok q n t d -> q <> QOpt ->
  encode_rdata d <> None /\
  ((exists s, encode_rdata d = Some (Err (Oversize s))) \/
   exists body, encode_rdata d = Some (Ok body) /\ reads_data (qtype_u16 q) CLASS_IN t body d).
Proof.
  intros Hd Hq. destruct q, d; cbn [data_ok] in Hd; try done; (split; [done|]); cbn [encode_rdata].
  - right. eexists. split; [done|]. intros pre rest. unfold decode_rdata. cbn [qtype_u16 from_u16].
    by rewrite bytes_at_front, Hd.
  - destruct (decode_name_reads _ Hd) as (enc & -> & Hr). right. eexists. split; [done|].
    intros pre rest. unfold decode_rdata. cbn [qtype_u16 from_u16]. by rewrite Hr.
  - destruct (decode_name_reads _ Hd) as (enc & -> & Hr). right. eexists. split; [done|].
    intros pre rest. unfold decode_rdata. cbn [qtype_u16 from_u16]. by rewrite Hr.
  - destruct (txt_roundtrip _ (qtype_u16 QTxt) Hd) as [[s ->]|(enc & -> & Hr)]; [left; eauto|].
    right. eexists. split; [done|]. intros pre rest. unfold decode_rdata. cbn [qtype_u16 from_u16].
    rewrite bytes_at_front. cbn [qtype_u16] in Hr. by rewrite Hr.
  - right. eexists. split; [done|]. intros pre rest. unfold decode_rdata. cbn [qtype_u16 from_u16].
    by rewrite bytes_at_front, Hd.
  - destruct (decide (qtype = 255)) as [->|Hne].
    + right. eexists. split; [done|]. intros pre rest. unfold decode_rdata. cbn [qtype_u16 from_u16].
      by rewrite bytes_at_front.
    + exfalso. repeat (destruct qtype as [|qtype|qtype]; try done; repeat (destruct qtype as [qtype|qtype|]; try done)).
Qed.

Definition encodes (out : option (result (list Z) DecodeError)) (good : list Z -> Prop) : Prop :=
  (exists s, out = Some (Err (Oversize s))) \/ exists enc, out = Some (Ok enc) /\ good enc.

Lemma default_root_reads : reads decode_name [0] default_root.
Proof. destruct (decode_name_reads default_root) as (enc & He & Hr); [by exists []|]. by injection He as <-. Qed.

Lemma qtype_u16_inv q : 0 <= qtype_u16 q < 65536 /\ from_u16 (qtype_u16 q) = Some q.
Proof. destruct q; cbn; split; (done || lia). Qed.

Lemma rr_roundtrip rr : rr_ok rr -> encodes (encode_rr rr) (fun enc => reads decode_rr enc rr).
Proof.
  destruct rr as [n q t d]. intros (Hn & Ht & Hd). cbn [rr_name rr_type ttl data] in *. unfold encode_rr.
  cbn [rr_name rr_type ttl data]. pose proof (qtype_u16_inv q) as [Hq1 Hq2]. case_decide as Hq.
  - subst q. destruct d; cbn [data_ok] in Hd; try done. destruct Hd as (-> & Hu & He & Hv & Hf & ->).
    destruct (u16_max <? length options)%nat eqn:Ho; [left; eauto|]. right. eexists. split; [done|].
    pose proof (opt_ttl_parts _ _ _ He Hv Hf) as (-> & H1 & H2 & H3). apply Nat.ltb_ge in Ho.
    eapply (decode_rr_reads [0] default_root (qtype_u16 QOpt)); try done; [apply default_root_reads|].
    intros pre rest. unfold decode_rdata. cbn [qtype_u16 from_u16]. by rewrite bytes_at_front, H1, H2, H3.
  - destruct (decode_name_reads _ Hn) as (nm & -> & Hr).
    destruct (rdata_roundtrip _ _ _ _ Hd Hq) as [_ [[s ->]|(body & -> & Hbody)]]; [left; eauto|].
    destruct (u16_max <? length body)%nat eqn:Ho; [left; eauto|]. right. eexists. split; [done|].
    apply Nat.ltb_ge in Ho. replace q with (default QA (from_u16 (qtype_u16 q))) at 2 by (by rewrite Hq2).
    apply decode_rr_reads; try done.
Qed.

Lemma rrs_roundtrip rrs : Forall rr_ok rrs ->
  encodes (encode_rrs rrs) (fun enc => exists encs, enc = concat encs /\ Forall2 (reads decode_rr) encs rrs).
Proof.
  induction 1 as [|rr rrs Hrr _ IH]; [right; exists []; split; [done|]; by exists []|]. cbn [encode_rrs].
  destruct (rr_roundtrip rr Hrr) as [[s ->]|(b & -> & Hb)]; [left; eauto|].
  destruct IH as [[s ->]|(bs & -> & encs & -> & Hbs)]; [left; eauto|].
  right. eexists. split; [done|]. exists (b :: encs). split; [done|by constructor].
Qed.

Definition question_ok (q : Question) : Prop := name_ok (q_name q).

Lemma questions_roundtrip qs : Forall question_ok qs ->
  exists encs, encode_questions qs = Ok (concat encs) /\ Forall2 (reads decode_question) encs qs.
Proof.
  induction 1 as [|[n q] qs Hq _ IH]; [by exists []|]. cbn [encode_questions].
  destruct (decode_name_reads _ Hq) as (nm & He & Hr). destruct IH as (encs & -> & IH).
  unfold encode_question. cbn [q_name q_type]. cbn [q_name] in He. rewrite He.
  exists ((nm ++ put_u16 (qtype_u16 q) ++ put_u16 CLASS_IN) :: encs). split; [done|]. constructor; [|done].
  pose proof (qtype_u16_inv q) as [Hq1 Hq2].
  eapply (reads_bind decode_name); [done|]. eapply (reads_bind cur_u16); [by apply cur_u16_reads|].
  rewrite <- (app_nil_r (put_u16 CLASS_IN)). eapply (reads_bind cur_u16); [by apply cur_u16_reads|].
  rewrite Hq2. apply reads_ret.
Qed.

(** ** Messages round trip *)

Definition message_ok (m : Message) : Prop :=
  let h := header m in
  0 <= h_id h < 65536 /\ 0 <= h_flags h < 65536 /\
  qd h = Z.of_nat (length (questions m)) /\ an h = Z.of_nat (length (answers m)) /\
  ns h = Z.of_nat (length (authorities m)) /\ ar h = Z.of_nat (length (additionals m)) /\
  Forall question_ok (questions m) /\
  Forall rr_ok (answers m) /\ Forall rr_ok (authorities m) /\ Forall rr_ok (additionals m).

(** The message parser as a reader. *)
Definition message_reader (buf : list Z) (pos : nat) : result (Message * nat) DecodeError :=
  let? (id, pos) := cur_u16 buf pos in
  let? (flags, pos) := cur_u16 buf pos in
  let? (qd, pos) := cur_u16 buf pos in
  let? (an, pos) := cur_u16 buf pos in
  let? (ns, pos) := cur_u16 buf pos in
  let? (ar, pos) := cur_u16 buf pos in
  let? (questions, pos) := decode_many decode_question (Z.to_nat qd) buf pos in
  let? (answers, pos) := decode_many decode_rr (Z.to_nat an) buf pos in
  let? (authorities, pos) := decode_many decode_rr (Z.to_nat ns) buf pos in
  let? (additionals, pos) := decode_many decode_rr (Z.to_nat ar) buf pos in
  Ok (mkMessage (mkHeader id flags qd an ns ar) questions answers authorities additionals, pos).

Lemma decode_message_reader buf :
  decode_message buf = match message_reader buf 0 with Ok (m, _) => Ok m | Err e => Err e end.
Proof. unfold decode_message, message_reader. by repeat case_match; simplify_eq. Qed.

Lemma many_reads {A} (item : list Z -> nat -> result (A * nat) DecodeError) (encs : list (list Z)) xs z :
  Forall2 (reads item) encs xs -> z = Z.of_nat (length xs) -> reads (decode_many item (Z.to_nat z)) (concat encs) xs.
Proof. intros H ->. rewrite Nat2Z.id. by apply decode_many_reads. Qed.

Lemma message_reads m qs a b c :
  message_ok m -> (length (questions m) <= u16_max)%nat -> (length (answers m) <= u16_max)%nat ->
  (length (authorities m) <= u16_max)%nat -> (length (additionals m) <= u16_max)%nat ->
  Forall2 (reads decode_question) qs (questions m) -> Forall2 (reads decode_rr) a (answers m) ->
  Forall2 (reads decode_rr) b (authorities m) -> Forall2 (reads decode_rr) c (additionals m) ->
  reads message_reader
    (put_u16 (h_id (header m)) ++ put_u16 (h_flags (header m)) ++ put_u16 (qd (header m)) ++ put_u16 (an (header m))
     ++ put_u16 (ns (header m)) ++ put_u16 (ar (header m)) ++ concat qs ++ concat a ++ concat b ++ concat c ++ []) m.
Proof.
  unfold u16_max. intros (Hid & Hfl & Hqd & Han & Hns & Har & _) Lq La Lb Lc Fq Fa Fb Fc. destruct m as [[id fl q' a' n' r'] Q A N R].
  cbn [header h_id h_flags qd an ns ar questions answers authorities additionals] in *.
  do 6 (eapply (reads_bind cur_u16); [apply cur_u16_reads; lia|]).
  eapply (reads_bind (decode_many decode_question _)); [by apply many_reads|].
  do 3 (eapply (reads_bind (decode_many decode_rr _)); [by apply many_reads|]).
  apply reads_ret.
Qed.

(** C39: Every message that can be expressed on the wire (counts equal to the
    sections, canonical names, record data of its type, OPT fields in class and
    ttl) is either refused by the encoder as oversized or encoded to bytes that
    decode to exactly that message; the encoder never panics on it. *)
Theorem dns_message_roundtrip (m : Message) :
  message_ok m ->
  (exists s, encode_message m = Some (Err (Oversize s))) \/
  exists wire, encode_message m = Some (Ok wire) /\ decode_message wire = Ok m.
Proof.
  intros Hm. pose proof Hm as (Hid & Hfl & Hqd & Han & Hns & Har & Hq & Ha & Hn & Hr). unfold encode_message.
  destruct (_ || _) eqn:Hlen; [left; eauto|]. rewrite !orb_false_iff, !Nat.ltb_ge in Hlen.
  destruct Hlen as [[[Lq La] Ln] Lr].
  destruct (questions_roundtrip _ Hq) as (qs & -> & Fq).
  destruct (rrs_roundtrip (answers m ++ authorities m ++ additionals m)) as [[s ->]|(enc & -> & encs & -> & Fr)];
    [by rewrite !Forall_app|left; eauto|]. right. eexists. split; [done|].
  apply Forall2_app_inv_r in Fr as (ea & er & Fa & Fr & ->). apply Forall2_app_inv_r in Fr as (eb & ec & Fb & Fc & ->).
  rewrite decode_message_reader. rewrite <- Hqd, <- Han, <- Hns, <- Har, !concat_app.
  pose proof (message_reads m qs ea eb ec Hm Lq La Ln Lr Fq Fa Fb Fc [] []) as H.
  rewrite !app_nil_r in H. rewrite <- !app_assoc. cbn [app length] in H. by rewrite H.
Qed.

Definition sample_message : Message :=
  mkMessage (mkHeader 7 0x8180 1 3 0 1) [mkQuestion (name_of ["example"; "org"]) QA]
    [mkRR (name_of ["example"; "org"]) QCname 60 (RCname (name_of ["www"; "example"; "org"]));
     mkRR (name_of ["www"; "example"; "org"]) QA 60 (RA [192; 0; 2; 1]);
     mkRR (name_of ["example"; "org"]) QTxt 60 (RTxt ["v=1"; "ok"])]
    [] [mkRR default_root QOpt 0x8000 (ROpt 1232 0 0 0x8000 [])].

Lemma sample_message_ok : message_ok sample_message.
Proof.
  assert (H : forall ls, forallb label_ok ls = true -> name_ok (name_of ls)).
  { intros ls Hls. exists ls. split; [done|]. induction ls; [done|]. cbn in Hls. apply andb_true_iff in Hls as [? ?]. auto. }
  assert (H1 := H ["example"; "org"] eq_refl). assert (H2 := H ["www"; "example"; "org"] eq_refl).
  assert (H3 := H [] eq_refl). unfold message_ok, sample_message, rr_ok, question_ok.
  repeat match goal with |- _ /\ _ => split | |- Forall _ _ => constructor end; try done; cbn [header h_id h_flags ttl data_ok]; try lia.
  by repeat constructor.
Qed.

Lemma dns_message_roundtrip_witness :
  exists wire, encode_message sample_message = Some (Ok wire) /\ decode_message wire = Ok sample_message.
Proof.
  destruct (dns_message_roundtrip sample_message sample_message_ok) as [[s Hs]|H]; [vm_compute in Hs; discriminate|exact H].
Defined.

(** ** TCP framing *)

Lemma tcp_frame_roundtrip msg rest :
  (length msg <= u16_max)%nat -> try_read_tcp_frame (write_tcp_frame [] msg ++ rest) = (Some msg, rest).
Proof.
  unfold u16_max. intros Hm. unfold try_read_tcp_frame, write_tcp_frame. cbn [app].
  assert (Hx : put_u16 (Z.of_nat (length msg)) = to_be_bytes 2 (Z.of_nat (length msg))).
  { unfold put_u16, as_u16. by rewrite Z.mod_small by lia. }
  assert (Hlen : length (put_u16 (Z.of_nat (length msg))) = 2%nat) by (rewrite Hx; apply to_be_bytes_length).
  pose proof (bytes_at_front [] (put_u16 (Z.of_nat (length msg))) (msg ++ rest)) as Hb.
  rewrite Hlen in Hb. cbn [app length] in Hb. rewrite <- app_assoc, Hb, Hx, from_to_be, Nat2Z.id by lia. rewrite <- Hx.
  rewrite !length_app, Hlen.
  destruct (Nat.ltb_spec (2 + (length msg + length rest)) 2); [lia|].
  destruct (Nat.ltb_spec (2 + (length msg + length rest)) (2 + length msg)); [lia|].
  f_equal.
  - rewrite <- Hlen at 1. by rewrite bytes_at_front.
  - rewrite app_assoc. replace (2 + length msg)%nat with (length (put_u16 (Z.of_nat (length msg)) ++ msg))
      by (rewrite length_app, Hlen; done). apply drop_app_length.
Qed.

(** A record of a type the code does not know is kept as opaque data, but written
    back under type A: re-encoding an MX record (type 15) changes its type. *)
Example opaque_record_changes_type :
  exists rr enc, decode_rr ([0] ++ put_u16 15 ++ put_u16 1 ++ put_u32 60 ++ put_u16 3 ++ [0; 10; 0]) 0 = Ok (rr, 14%nat) /\
    data rr = ROpaque 15 [0; 10; 0] /\ encode_rr rr = Some (Ok enc) /\
    decode_rr enc 0 = Err (InvalidRData 1).
Proof. eexists _, _. by repeat split. Qed.
