(* ===== verification/Config.v ===== *)
(** The runtime's configuration (crates/mesh-bus-runtime/src/config.rs, config/,
    config_validate.rs): the data serde reads from YAML, what [parse_config] does
    with it, and [validate_config] with the messages it reports.  A path is its
    string; a [HashMap] is a list in its iteration order. *)
From S2P Require Import Prelude Numbers NetAddr LoadBalance KernelRegistry MeshWire MeshSec DispatchTypes.
Local Open Scope string_scope.
Local Open Scope Z_scope.

(** ** Identity and MeshSec (config/meshsec.rs) *)

Record NodeCfg := mkNode { node_id : string }.

Inductive MeshSecKeyRoleCfg := KeyActive | KeyAccept.
Inductive MeshSecProfileCfg := MeshSec0RttPskXChaCha.

#[export] Instance MeshSecKeyRoleCfg_eq_dec : EqDecision MeshSecKeyRoleCfg.
Proof. solve_decision. Defined.

Record MeshSecKeyCfg := mkKey { key_id : string; key_hex : string; key_role : MeshSecKeyRoleCfg }.

Record MeshSecPeerCfg := mkMeshSec {
  ms_profile : MeshSecProfileCfg;
  static_key_hex : option string;
  active_key_id : option string;
  keyring : list MeshSecKeyCfg
}.

Record PeerCfg := mkPeer {
  pc_id : string;
  pc_node_id : string;
  pc_route_groups : list string;
  pc_meshsec : option MeshSecPeerCfg
}.

(** [hex.is_char_boundary(i)] of a UTF-8 string *)
Definition is_char_boundary (hex : list Z) (i : nat) : bool :=
  (length hex =? i)%nat || negb (continuation (nth i hex 0)).

(** [u8::from_str_radix(s, 16)] of a two-byte slice: a sign is skipped. *)
Definition hex_pair (a b : Z) : option Z :=
  let digits := if a =? 43 then [b] else [a; b] in
  foldl (fun acc d => acc ← acc; d ← to_digit 16 (ascii_z d); Some (acc * 16 + d)) (Some 0) digits.

(** The bytes from index [i] on; the outer [None] is the panic of a slice inside a
    character. *)
Fixpoint decode_hex (n : nat) (hex : list Z) (i : nat) : option (option (list Z)) :=
  match n with
  | O => Some (Some [])
  | S n =>
      if negb (is_char_boundary hex (2 * i) && is_char_boundary hex (2 * i + 2)) then None
      else
        match hex_pair (nth (2 * i) hex 0) (nth (2 * i + 1) hex 0) with
        | None => Some None
        | Some b =>
            match decode_hex n hex (S i) with
            | Some (Some bs) => Some (Some (b :: bs))
            | other => other
            end
        end
  end.

Definition decode_static_key_hex (hex : string) : option (option (list Z)) :=
  if negb (String.length hex =? 64)%nat then Some None
  else decode_hex 32 (bytes_of_string hex) 0.

Definition is_active (k : MeshSecKeyCfg) : bool := bool_decide (key_role k = KeyActive).

(** The outer [None] is a panic, as in [decode_static_key_hex]. *)
Definition active_static_key (m : MeshSecPeerCfg) : option (option (list Z)) :=
  match static_key_hex m with
  | Some hex => decode_static_key_hex hex
  | None =>
      match active_key_id m with
      | None => Some None
      | Some id =>
          match List.find (fun k => bool_decide (key_id k = id) && is_active k) (keyring m) with
          | None => Some None
          | Some k => decode_static_key_hex (key_hex k)
          end
      end
  end.

(** [if let Some(key) = decode(..) { keys.push(key) }] *)
Definition push_key (keys : option (list (list Z))) (k : MeshSecKeyCfg) : option (list (list Z)) :=
  keys ← keys; d ← decode_static_key_hex (key_hex k);
  Some (keys ++ match d with Some key => [key] | None => [] end)%list.

Definition open_static_keys (m : MeshSecPeerCfg) : option (list (list Z)) :=
  match static_key_hex m with
  | Some hex => d ← decode_static_key_hex hex; Some (match d with Some key => [key] | None => [] end)
  | None =>
      match active_key_id m with
      | None => Some []
      | Some id =>
          let active := match List.find (fun k => bool_decide (key_id k = id)) (keyring m) with
                        | Some k => [k] | None => [] end in
          let accept := List.filter (fun k => negb (bool_decide (key_id k = id)) && negb (is_active k)) (keyring m) in
          foldl push_key (Some []) (active ++ accept)%list
      end
  end.

(** ** Plugins (config/plugins.rs) *)

Inductive TrafficClassCfg := CfgInteractive | CfgBulk | CfgControl | CfgProbe.

Definition traffic_to_core (t : TrafficClassCfg) : TrafficClass :=
  match t with CfgInteractive => Interactive | CfgBulk => Bulk | CfgControl => Control | CfgProbe => TcProbe end.

Inductive NativeEventModeCfg := CfgSecureUdpNative | CfgMeshFrame.

Definition native_to_proto (m : NativeEventModeCfg) : NativeEventMode :=
  match m with CfgSecureUdpNative => SecureUdpNative | CfgMeshFrame => MeshFrameMode end.

Inductive DeliveryModeCfg := CfgSteer | CfgStripe | CfgReplicate | CfgRepair | CfgProbeMode.

Definition delivery_to_proto (m : DeliveryModeCfg) : DeliveryMode :=
  match m with
  | CfgSteer => MeshWire.Steer | CfgStripe => MeshWire.Stripe | CfgReplicate => MeshWire.Replicate
  | CfgRepair => MeshWire.Repair | CfgProbeMode => MeshWire.Probe
  end.

Definition default_replicate_fanout : Z := 2.
Definition default_probe_budget : Z := 4.
Definition default_priority : Z := 1.

Record AuthUserCfg := mkAuthUser { user_name : string; user_password : string }.
Record AuthCfg := mkAuth { users : list AuthUserCfg }.
Record Socks5UpstreamAuthCfg := mkUpstreamAuth { up_username : string; up_password : string }.

(** Ingress fields in the source's order; [rb] and [sb] are
    [socket_recv_buffer_bytes] and [socket_send_buffer_bytes]. *)
Inductive IngressCfg :=
| InSocks5 (listen : string) (rule_chain_path : option string) (auth : option AuthCfg)
    (handshake_timeout_ms accept_backoff_ms max_connections udp_forward_concurrency rb sb : option Z)
| InHttpConnect (listen : string) (auth : option AuthCfg)
    (handshake_timeout_ms max_header_bytes max_connections rb sb : option Z)
| InTcp (listen target : string) (route_group : option string) (tc : option TrafficClassCfg)
    (deadline_ms : option Z) (source_label : option string) (rb sb : option Z)
| InUdp (listen target : string) (route_group : option string) (tc : option TrafficClassCfg)
    (deadline_ms : option Z) (source_label : option string) (rb sb : option Z)
| InMeshPeerUdp (listen : string) (native : NativeEventModeCfg).

Definition pipeline_source_kind (i : IngressCfg) : option string :=
  match i with InMeshPeerUdp _ _ => None | _ => Some "application/source" end.

Definition supports_pipeline (i : IngressCfg) : bool := bool_decide (is_Some (pipeline_source_kind i)).

Inductive EgressCfg :=
| ETcp (id : string) (wan : option string) (priority : Z) (groups : list string) (timeout : Z) (rb sb : option Z)
| ESocks5 (id : string) (wan : option string) (priority : Z) (groups : list string) (upstream : string) (timeout : Z)
| ESocks5Udp (id : string) (wan : option string) (priority : Z) (groups : list string) (upstream : string)
    (timeout : Z) (auth : option Socks5UpstreamAuthCfg)
| EUdp (id : string) (wan : option string) (priority : Z) (groups : list string) (timeout : Z) (rb sb : option Z)
| EMeshPeerUdp (id peer peer_addr : string) (wan : option string) (priority : Z) (groups : list string)
    (native : NativeEventModeCfg) (delivery : DeliveryModeCfg) (replicate_fanout probe_budget timeout : Z)
| EServiceTcp (id service : string) (wan : option string) (priority : Z) (route_group : option string)
    (groups : list string) (connect : string) (timeout : Z)
| EServiceUdp (id service : string) (wan : option string) (priority : Z) (route_group : option string)
    (groups : list string) (connect : string) (timeout : Z) (rb sb : option Z).

Definition egress_id (e : EgressCfg) : string :=
  match e with
  | ETcp id _ _ _ _ _ _ | ESocks5 id _ _ _ _ _ | ESocks5Udp id _ _ _ _ _ _ | EUdp id _ _ _ _ _ _
  | EMeshPeerUdp id _ _ _ _ _ _ _ _ _ _ | EServiceTcp id _ _ _ _ _ _ _ | EServiceUdp id _ _ _ _ _ _ _ _ _ => id
  end.

Definition wan_of (e : EgressCfg) : option string :=
  match e with
  | ETcp _ w _ _ _ _ _ | ESocks5 _ w _ _ _ _ | ESocks5Udp _ w _ _ _ _ _ | EUdp _ w _ _ _ _ _
  | EMeshPeerUdp _ _ _ w _ _ _ _ _ _ _ | EServiceTcp _ _ w _ _ _ _ _ | EServiceUdp _ _ w _ _ _ _ _ _ _ => w
  end.

Definition wan_id (e : EgressCfg) : string := default (egress_id e) (wan_of e).

Definition raw_priority (e : EgressCfg) : Z :=
  match e with
  | ETcp _ _ p _ _ _ _ | ESocks5 _ _ p _ _ _ | ESocks5Udp _ _ p _ _ _ _ | EUdp _ _ p _ _ _ _
  | EMeshPeerUdp _ _ _ _ p _ _ _ _ _ _ | EServiceTcp _ _ _ p _ _ _ _ | EServiceUdp _ _ _ p _ _ _ _ _ _ => p
  end.

Definition egress_priority (e : EgressCfg) : Z := Z.max (raw_priority e) 1.

Definition egress_groups (e : EgressCfg) : list string :=
  match e with
  | ETcp _ _ _ g _ _ _ | ESocks5 _ _ _ g _ _ | ESocks5Udp _ _ _ g _ _ _ | EUdp _ _ _ g _ _ _
  | EMeshPeerUdp _ _ _ _ _ g _ _ _ _ _ | EServiceTcp _ _ _ _ _ g _ _ | EServiceUdp _ _ _ _ _ g _ _ _ _ => g
  end.

Definition pipeline_sink_kind (e : EgressCfg) : string :=
  match e with
  | ETcp _ _ _ _ _ _ _ | ESocks5 _ _ _ _ _ _ | EServiceTcp _ _ _ _ _ _ _ _ => "stream_egress"
  | EMeshPeerUdp _ _ _ _ _ _ _ _ _ _ _ => "stream_egress"
  | ESocks5Udp _ _ _ _ _ _ _ | EUdp _ _ _ _ _ _ _ | EServiceUdp _ _ _ _ _ _ _ _ _ _ => "datagram_egress"
  end.

(** (stream, datagram) *)
Definition pipeline_capability_bits (e : EgressCfg) : bool * bool :=
  match e with
  | ETcp _ _ _ _ _ _ _ | ESocks5 _ _ _ _ _ _ | EServiceTcp _ _ _ _ _ _ _ _ => (true, false)
  | ESocks5Udp _ _ _ _ _ _ _ | EUdp _ _ _ _ _ _ _ | EServiceUdp _ _ _ _ _ _ _ _ _ _ => (false, true)
  | EMeshPeerUdp _ _ _ _ _ _ _ _ _ _ _ => (true, true)
  end.

Definition egress_timeout (e : EgressCfg) : Z :=
  match e with
  | ETcp _ _ _ _ t _ _ | ESocks5 _ _ _ _ _ t | ESocks5Udp _ _ _ _ _ t _ | EUdp _ _ _ _ t _ _
  | EMeshPeerUdp _ _ _ _ _ _ _ _ _ _ t | EServiceTcp _ _ _ _ _ _ _ t | EServiceUdp _ _ _ _ _ _ _ t _ _ => t
  end.

Definition egress_peer_id (e : EgressCfg) : option string :=
  match e with EMeshPeerUdp _ p _ _ _ _ _ _ _ _ _ => Some p | _ => None end.

Definition egress_native_mode (e : EgressCfg) : NativeEventMode :=
  match e with EMeshPeerUdp _ _ _ _ _ _ n _ _ _ _ => native_to_proto n | _ => SecureUdpNative end.

Definition delivery_policy (e : EgressCfg) : DeliveryMode * Z * Z :=
  match e with
  | EMeshPeerUdp _ _ _ _ _ _ _ d fanout budget _ => (delivery_to_proto d, fanout, budget)
  | _ => (MeshWire.Steer, 2, 4)
  end.

(** ** Scheduler, health and observability (config/scheduler.rs, health.rs, observability.rs) *)

Inductive LoadBalanceModeCfg := CfgRoundRobin | CfgStickySessions | CfgConsistentHashing | CfgSourceLeaseRotate.
Inductive SourceLeaseKeyScopeCfg := ScopeSource.
Inductive SourceLeaseMaxAgePolicyCfg := CfgOff | CfgSoft | CfgHard.

Record SourceLeaseRotateCfg := mkLeaseCfg {
  lc_key_scope : SourceLeaseKeyScopeCfg;
  lc_idle_timeout_secs : Z;
  lc_max_age_secs : Z;
  lc_max_age_policy : SourceLeaseMaxAgePolicyCfg;
  lc_switch_cooldown_secs : Z
}.

Definition lease_cfg_default : SourceLeaseRotateCfg := mkLeaseCfg ScopeSource 600 3600 CfgOff 60.

Inductive SchedulerCfg :=
| CfgCake
| CfgReplicateAll
| CfgLoadBalance (mode : LoadBalanceModeCfg) (sticky_ttl_secs : Z) (lease : SourceLeaseRotateCfg).

Definition default_sticky_ttl_secs : Z := 600.
Definition max_age_into (p : SourceLeaseMaxAgePolicyCfg) : MaxAgePolicy :=
  match p with CfgOff => MaxAgeOff | CfgSoft => Soft | CfgHard => Hard end.

(** [x.saturating_mul(1_000)] on u64 *)
Definition secs_to_ms (x : Z) : Z := Z.min (x * 1000) (2 ^ 64 - 1).

Definition lease_into (c : SourceLeaseRotateCfg) : SourceLeaseRotateConfig :=
  mkLeaseConfig (secs_to_ms (lc_idle_timeout_secs c)) (secs_to_ms (lc_max_age_secs c))
    (max_age_into (lc_max_age_policy c)) (secs_to_ms (lc_switch_cooldown_secs c)).

Record HealthCfg := mkHealthCfg { hc_failure_threshold : Z; hc_recovery_window_ms : Z; hc_probe_after_ms : Z }.

Inductive LogFormat := LogCompact | LogPretty | LogJson.
Record LoggingCfg := mkLogging { log_level : string; log_format : LogFormat }.
Definition default_log_level : string := "info".

Inductive MetricsCfg :=
| PrometheusTextfile (path : string) (labels : list (string * string))
| PrometheusHttp (listen : string) (labels : list (string * string)).

Inductive OperatorAuthCfg := BearerTokenFile (path : string).
Inductive OperatorCfg := LocalHttp (listen : string) (auth : option OperatorAuthCfg).

(** ** Pipeline block (config/pipeline.rs) *)

Record GeoIpCfg := mkGeoIpCfg { country_path : option string; asn_path : option string }.
Record GeositeCfg := mkGeositeCfg { geosite_path : option string }.
Record DnsCacheCfg := mkDnsCacheCfg { serve_stale_window_ms : option Z }.

Record PipelineSourceCfg := mkSourceCfg {
  ingress_index : option nat;
  source_cfg_id : option string;
  source_cfg_kind : string;
  source_initial_writes : list string
}.

Definition default_pipeline_source_kind : string := "application/source".
Definition default_pipeline_source_initial_writes : list string :=
  ["net.dst_host"; "net.dst_port"; "net.protocol"; "net.src_ip"; "auth.user"; "trace.flow_id";
   "ext.operation"; "ext.dst_ip_primary"].

Definition source_cfg_default : PipelineSourceCfg :=
  mkSourceCfg None None default_pipeline_source_kind default_pipeline_source_initial_writes.

Record PipelineCfg := mkPipelineCfg {
  rule_chain_path : option string;
  rule_chain_forward : option string;
  rule_chain_resolver : option string;
  geoip_cfg : option GeoIpCfg;
  geosite_cfg : option GeositeCfg;
  dns_cache_cfg : option DnsCacheCfg;
  source_cfg : PipelineSourceCfg
}.

Definition forward_rule_chain_path (p : PipelineCfg) : option string :=
  match rule_chain_forward p with Some x => Some x | None => rule_chain_path p end.

(** ** The configuration (config.rs) *)

Record Config := mkConfig {
  cfg_node : option NodeCfg;
  cfg_peers : list PeerCfg;
  cfg_logging : LoggingCfg;
  cfg_health : HealthCfg;
  cfg_metrics : option MetricsCfg;
  cfg_operator : option OperatorCfg;
  cfg_scheduler : SchedulerCfg;
  cfg_ingresses : list IngressCfg;
  cfg_egresses : list EgressCfg;
  cfg_pipeline : option PipelineCfg
}.

(** The outer [None] is the panic of a malformed key that was never validated. *)
Definition meshsec_seal_context (cfg : Config) (peer : string) (boot_salt : list Z) :
    option (option MeshSecSealContext) :=
  match cfg_node cfg, List.find (fun p => bool_decide (pc_id p = peer)) (cfg_peers cfg) with
  | Some node, Some p =>
      match pc_meshsec p with
      | None => Some None
      | Some m =>
          key ← active_static_key m;
          Some (match key with
                | Some key => Some (mkSealContext (node_id node) (pc_node_id p) key boot_salt)
                | None => None
                end)
      end
  | _, _ => Some None
  end.

Definition peer_open_keys (p : PeerCfg) : option (list MeshSecOpenKey) :=
  match pc_meshsec p with
  | None => Some []
  | Some m => keys ← open_static_keys m; Some (List.map (mkOpenKey (pc_id p) (pc_node_id p)) keys)
  end.

Definition meshsec_open_keys (cfg : Config) : option (list MeshSecOpenKey) :=
  kss ← mapM peer_open_keys (cfg_peers cfg); Some (concat kss).

(** A service egress is a member of its route group. *)
Definition join_route_group (rg : option string) (groups : list string) : list string :=
  match rg with
  | Some rg => if negb (str_is_empty rg) && negb (str_mem rg groups) then (groups ++ [rg])%list else groups
  | None => groups
  end.

Definition normalize_egress (e : EgressCfg) : EgressCfg :=
  match e with
  | EServiceTcp id s w p rg g c t => EServiceTcp id s w p rg (join_route_group rg g) c t
  | EServiceUdp id s w p rg g c t rb sb => EServiceUdp id s w p rg (join_route_group rg g) c t rb sb
  | e => e
  end.

Definition normalize_config (c : Config) : Config :=
  mkConfig (cfg_node c) (cfg_peers c) (cfg_logging c) (cfg_health c) (cfg_metrics c) (cfg_operator c)
    (cfg_scheduler c) (cfg_ingresses c) (normalize_egress <$> cfg_egresses c) (cfg_pipeline c).
