(* ===== verification/ConfigValidate.v ===== *)
(** [validate_config] (crates/mesh-bus-runtime/src/config_validate.rs): the checks in
    the source's order, with the messages of its errors. *)
From S2P Require Import Prelude Numbers NetAddr KernelRegistry MeshWire MeshSec DispatchTypes Config.
Local Open Scope string_scope.
Local Open Scope Z_scope.

(** [anyhow::Result<()>]: the error is its message. *)
Abbreviation vres := (result unit string).

(** [if cond { return Err(..) }] *)
Definition bail_if (cond : bool) (msg : string) : vres := if cond then Err msg else Ok tt.

Definition is_digit_byte (b : Ascii.ascii) : bool := in_range 48 57 b.
Definition is_alpha_byte (b : Ascii.ascii) : bool := in_range 65 90 b || in_range 97 122 b.

Definition reject_empty_str (value : option string) (label : string) : vres :=
  bail_if (bool_decide (value = Some "")) (label +:+ " must not be empty").

(** Paths are strings here, so this reads as the check above. *)
Definition reject_empty_path (value : option string) (label : string) : vres :=
  bail_if (bool_decide (value = Some "")) (label +:+ " must not be empty").

Definition reject_zero (value : option Z) (label : string) : vres :=
  bail_if (bool_decide (value = Some 0)) (label +:+ " must be >= 1").

Definition id_byte (b : Ascii.ascii) : bool :=
  is_ascii_alphanumeric b || str_mem (String b EmptyString) ["_"; "."; ":"; "-"].

Definition reject_invalid_id_shape (id label type_name : string) : vres :=
  bail_if (negb (str_all id_byte id)) (label +:+ " must match " +:+ type_name +:+ " pattern ^[A-Za-z0-9_.:-]+$").

Definition is_prometheus_label_name (key : string) : bool :=
  match key with
  | EmptyString => false
  | String first rest =>
      (is_alpha_byte first || bool_decide (first = "_"%char))
      && str_all (fun b => is_ascii_alphanumeric b || bool_decide (b = "_"%char)) rest
  end.

Definition validate_prometheus_label_names (keys : list string) : vres :=
  try_each (fun key => bail_if (negb (is_prometheus_label_name key))
    ("metrics labels key `" +:+ key +:+ "` must match Prometheus label name pattern ^[A-Za-z_][A-Za-z0-9_]*$")) keys.

Definition is_metadata_key (key : string) : bool :=
  match split_once "." key with
  | None => false
  | Some (head, rest) =>
      str_mem head METADATA_NAMESPACES
      && forallb (fun part => negb (str_is_empty part)
           && str_all (fun b => is_ascii_alphanumeric b || bool_decide (b = "_"%char)) part) (split_on "." rest)
  end.

(** ** The sections *)

Definition validate_logging (cfg : Config) : vres :=
  bail_if (negb (str_mem (log_level (cfg_logging cfg)) ["trace"; "debug"; "info"; "warn"; "error"]))
    "logging level must be one of trace, debug, info, warn, error".

Definition validate_health (cfg : Config) : vres :=
  do? bail_if (hc_failure_threshold (cfg_health cfg) =? 0) "health failure_threshold must be >= 1";
  do? bail_if (hc_recovery_window_ms (cfg_health cfg) =? 0) "health recovery_window_ms must be >= 1";
  bail_if (hc_probe_after_ms (cfg_health cfg) =? 0) "health probe_after_ms must be >= 1".

Definition validate_scheduler (cfg : Config) : vres :=
  match cfg_scheduler cfg with
  | CfgLoadBalance _ ttl lease =>
      do? bail_if (ttl =? 0) "scheduler sticky_ttl_secs must be >= 1";
      do? bail_if (lc_idle_timeout_secs lease =? 0) "scheduler source_lease_rotate idle_timeout_secs must be >= 1";
      bail_if (lc_max_age_secs lease =? 0) "scheduler source_lease_rotate max_age_secs must be >= 1"
  | _ => Ok tt
  end.

Definition validate_metrics (cfg : Config) : vres :=
  match cfg_metrics cfg with
  | Some (PrometheusTextfile path labels) =>
      do? reject_empty_str (Some path) "metrics PrometheusTextfile path";
      validate_prometheus_label_names labels.*1
  | Some (PrometheusHttp listen labels) =>
      do? reject_empty_str (Some listen) "metrics PrometheusHttp listen";
      validate_prometheus_label_names labels.*1
  | None => Ok tt
  end.

(** The message of [AddrParseError]. *)
Definition bad_socket_addr : string := "invalid socket address syntax".

Definition validate_operator (cfg : Config) : vres :=
  match cfg_operator cfg with
  | Some (LocalHttp listen auth) =>
      do? reject_empty_str (Some listen) "operator LocalHttp listen";
      match parse_socket_addr listen with
      | None => Err ("operator LocalHttp listen must be a socket address: " +:+ listen +:+ ": " +:+ bad_socket_addr)
      | Some addr =>
          do? bail_if (negb (is_loopback addr))
                ("operator LocalHttp listen must be loopback-only for M0, got " +:+ listen);
          match auth with
          | Some (BearerTokenFile path) =>
              bail_if (str_is_empty path) "operator LocalHttp auth BearerTokenFile path must not be empty"
          | None => Ok tt
          end
      end
  | None => Ok tt
  end.

(** ** Identity *)

Definition is_hex_digit (b : Ascii.ascii) : bool := in_range 48 57 b || in_range 65 70 b || in_range 97 102 b.

Definition validate_meshsec_hex (peer : PeerCfg) (field hex : string) : vres :=
  bail_if (negb (String.length hex =? 64)%nat || negb (str_all is_hex_digit hex))
    ("peer " +:+ pc_id peer +:+ " meshsec " +:+ field +:+ " must be exactly 64 hex characters").

(** [for key in &meshsec.keyring]: the ids seen, and whether the active one was. *)
Fixpoint keyring_loop (peer : PeerCfg) (active : string) (keys : list MeshSecKeyCfg) (ids : list string)
    (active_found : bool) : result bool string :=
  match keys with
  | [] => Ok active_found
  | key :: keys =>
      do? bail_if (str_is_empty (key_id key)) ("peer " +:+ pc_id peer +:+ " meshsec key id must not be empty");
      do? bail_if (str_mem (key_id key) ids)
            ("peer " +:+ pc_id peer +:+ " meshsec keyring duplicate key id " +:+ key_id key);
      do? validate_meshsec_hex peer ("keyring[" +:+ key_id key +:+ "].static_key_hex") (key_hex key);
      if decide (key_id key = active) then
        do? bail_if (negb (is_active key))
              ("peer " +:+ pc_id peer +:+ " meshsec active_key_id " +:+ active
               +:+ " must reference a key with role active");
        keyring_loop peer active keys (key_id key :: ids) true
      else keyring_loop peer active keys (key_id key :: ids) active_found
  end.

Definition validate_meshsec_keyring (peer : PeerCfg) (m : MeshSecPeerCfg) : vres :=
  match active_key_id m with
  | None => Err ("peer " +:+ pc_id peer +:+ " meshsec keyring requires active_key_id")
  | Some active =>
      do? bail_if (str_is_empty active) ("peer " +:+ pc_id peer +:+ " meshsec active_key_id must not be empty");
      let? found := keyring_loop peer active (keyring m) [] false in
      bail_if (negb found)
        ("peer " +:+ pc_id peer +:+ " meshsec active_key_id " +:+ active +:+ " is not present in keyring")
  end.

(** The [expect] of the source is the argument [m]: the caller checked it. *)
Definition validate_meshsec_keys (peer : PeerCfg) (m : MeshSecPeerCfg) : vres :=
  match static_key_hex m, keyring m with
  | Some hex, [] => validate_meshsec_hex peer "static_key_hex" hex
  | None, _ :: _ => validate_meshsec_keyring peer m
  | Some _, _ :: _ => Err ("peer " +:+ pc_id peer +:+ " meshsec must use either static_key_hex or keyring, not both")
  | None, [] => Err ("peer " +:+ pc_id peer +:+ " meshsec requires static_key_hex or keyring")
  end.

(** [for peer in &cfg.peers], with the ids seen so far. *)
Fixpoint peers_loop (node : option NodeCfg) (peers : list PeerCfg) (ids nodes : list string) : vres :=
  match peers with
  | [] => Ok tt
  | p :: peers =>
      do? reject_empty_str (Some (pc_id p)) "peer id";
      do? reject_empty_str (Some (pc_node_id p)) "peer node_id";
      do? reject_invalid_id_shape (pc_id p) "peer id" "PeerId";
      do? reject_invalid_id_shape (pc_node_id p) "peer node_id" "NodeId";
      do? bail_if (str_mem (pc_id p) ids) ("duplicate peer id: " +:+ pc_id p);
      do? bail_if (bool_decide (node_id <$> node = Some (pc_node_id p))) ("duplicate node_id: " +:+ pc_node_id p);
      do? bail_if (str_mem (pc_node_id p) nodes) ("duplicate node_id: " +:+ pc_node_id p);
      do? bail_if (existsb str_is_empty (pc_route_groups p))
            ("peer " +:+ pc_id p +:+ " route_groups contains empty label");
      do? match pc_meshsec p with
          | None => Ok tt
          | Some m =>
              do? bail_if (bool_decide (node = None))
                    ("peer " +:+ pc_id p +:+ " has meshsec but top-level node.id is missing");
              validate_meshsec_keys p m
          end;
      peers_loop node peers (pc_id p :: ids) (pc_node_id p :: nodes)
  end.

Definition validate_peer_route_groups (e : EgressCfg) (p : PeerCfg) : vres :=
  match pc_route_groups p with
  | [] => Ok tt
  | allowed =>
      try_each (fun g => bail_if (negb (str_mem g allowed))
        ("egress " +:+ egress_id e +:+ " unknown peer route_group `" +:+ g +:+ "` for peer " +:+ pc_id p))
        (egress_groups e)
  end.

Definition validate_egress_peer (cfg : Config) (e : EgressCfg) : vres :=
  match egress_peer_id e with
  | None => Ok tt
  | Some id =>
      match List.find (fun p => bool_decide (pc_id p = id)) (cfg_peers cfg) with
      | None => Err ("egress " +:+ egress_id e +:+ " references unknown peer_id " +:+ id)
      | Some p => validate_peer_route_groups e p
      end
  end.

Definition validate_mesh_identity (cfg : Config) : vres :=
  do? match cfg_node cfg with
      | None => Ok tt
      | Some node =>
          do? reject_empty_str (Some (node_id node)) "node id";
          reject_invalid_id_shape (node_id node) "node id" "NodeId"
      end;
  do? peers_loop (cfg_node cfg) (cfg_peers cfg) [] [];
  try_each (validate_egress_peer cfg) (cfg_egresses cfg).

(** [udp_egress_count]: how many egresses are bound to the peer. *)
Definition udp_egress_count (cfg : Config) (id : string) : nat :=
  length (List.filter (fun e => bool_decide (egress_peer_id e = Some id)) (cfg_egresses cfg)).

Definition validate_meshsec_peer_uniqueness (cfg : Config) : vres :=
  try_each (fun p =>
    match pc_meshsec p with
    | None => Ok tt
    | Some _ =>
        bail_if (2 <=? udp_egress_count cfg (pc_id p))%nat
          ("peer " +:+ pc_id p +:+ " carries meshsec and is bound by more than one mesh_peer_udp egress; "
           +:+ "a shared MeshSec K_tx must not reuse a counter nonce across egresses (fail-closed)")
    end) (cfg_peers cfg).

Definition parse_mesh_peer_udp_listen (listen : string) : result SocketAddr string :=
  match parse_socket_addr listen with
  | Some a => Ok a
  | None => Err ("MeshPeerUdp ingress listen must be a socket address: " +:+ listen +:+ ": " +:+ bad_socket_addr)
  end.

Definition validate_mesh_peer_udp_wan_requires_meshsec (cfg : Config) : vres :=
  let has_meshsec_peer := existsb (fun p => bool_decide (is_Some (pc_meshsec p))) (cfg_peers cfg) in
  try_each (fun i =>
    match i with
    | InMeshPeerUdp listen _ =>
        let? addr := parse_mesh_peer_udp_listen listen in
        if is_loopback addr then Ok tt
        else bail_if (negb has_meshsec_peer)
               ("MeshPeerUdp ingress " +:+ listen +:+ " requires MeshSec when binding a non-loopback address; "
                +:+ "add peers[].meshsec or bind loopback for debug-clear")
    | _ => Ok tt
    end) (cfg_ingresses cfg).

(** ** Ingresses and egresses *)

Definition validate_auth_user (u : AuthUserCfg) : vres :=
  do? reject_empty_str (Some (user_name u)) "HttpConnect ingress auth user name";
  reject_empty_str (Some (user_password u)) "HttpConnect ingress auth user password".

(** The checks of a Tcp or Udp ingress, which differ in their label only. *)
Definition validate_direct_ingress (kind listen target : string) (route_group : option string)
    (deadline_ms : option Z) (source_label : option string) (rb sb : option Z) : vres :=
  do? reject_empty_str (Some listen) (kind +:+ " ingress listen");
  do? reject_empty_str (Some target) (kind +:+ " ingress target");
  do? reject_empty_str route_group (kind +:+ " ingress route_group");
  do? reject_empty_str source_label (kind +:+ " ingress source_label");
  do? reject_zero deadline_ms (kind +:+ " ingress deadline_ms");
  do? reject_zero rb (kind +:+ " ingress socket_recv_buffer_bytes");
  reject_zero sb (kind +:+ " ingress socket_send_buffer_bytes").

Definition validate_ingress (i : IngressCfg) : vres :=
  match i with
  | InSocks5 listen _ _ handshake backoff conns udp rb sb =>
      do? reject_empty_str (Some listen) "Socks5 ingress listen";
      do? reject_zero handshake "Socks5 ingress handshake_timeout_ms";
      do? reject_zero backoff "Socks5 ingress accept_backoff_ms";
      do? reject_zero conns "Socks5 ingress max_connections";
      do? reject_zero udp "Socks5 ingress udp_forward_concurrency";
      do? reject_zero rb "Socks5 ingress socket_recv_buffer_bytes";
      reject_zero sb "Socks5 ingress socket_send_buffer_bytes"
  | InHttpConnect listen auth handshake header conns rb sb =>
      do? reject_empty_str (Some listen) "HttpConnect ingress listen";
      do? reject_zero handshake "HttpConnect ingress handshake_timeout_ms";
      do? reject_zero header "HttpConnect ingress max_header_bytes";
      do? reject_zero conns "HttpConnect ingress max_connections";
      do? reject_zero rb "HttpConnect ingress socket_recv_buffer_bytes";
      do? reject_zero sb "HttpConnect ingress socket_send_buffer_bytes";
      match auth with Some a => try_each validate_auth_user (users a) | None => Ok tt end
  | InTcp listen target rg _ dl label rb sb => validate_direct_ingress "Tcp" listen target rg dl label rb sb
  | InUdp listen target rg _ dl label rb sb => validate_direct_ingress "Udp" listen target rg dl label rb sb
  | InMeshPeerUdp listen _ => reject_empty_str (Some listen) "MeshPeerUdp ingress listen"
  end.

Definition validate_buffers (id : string) (rb sb : option Z) : vres :=
  do? reject_zero rb ("egress " +:+ id +:+ " socket_recv_buffer_bytes");
  reject_zero sb ("egress " +:+ id +:+ " socket_send_buffer_bytes").

(** The common checks of a service egress. *)
Definition validate_service (id service connect : string) (route_group : option string) : vres :=
  do? bail_if (str_is_empty service) ("egress " +:+ id +:+ " service_id must not be empty");
  do? bail_if (str_is_empty connect) ("egress " +:+ id +:+ " connect must not be empty");
  reject_empty_str route_group ("egress " +:+ id +:+ " route_group").

Definition validate_egress (e : EgressCfg) (id : string) : vres :=
  do? bail_if (str_is_empty (wan_id e)) ("egress " +:+ id +:+ " wan_id must not be empty");
  do? bail_if (existsb str_is_empty (egress_groups e)) ("egress " +:+ id +:+ " groups contains empty label");
  match e with
  | ETcp _ _ _ _ _ rb sb | EUdp _ _ _ _ _ rb sb => validate_buffers id rb sb
  | ESocks5 _ _ _ _ upstream _ => reject_empty_str (Some upstream) "Socks5 egress upstream"
  | ESocks5Udp _ _ _ _ upstream _ auth =>
      do? reject_empty_str (Some upstream) "Socks5Udp egress upstream";
      match auth with
      | Some a =>
          do? reject_empty_str (Some (up_username a)) ("egress " +:+ id +:+ " Socks5Udp auth username");
          reject_empty_str (Some (up_password a)) ("egress " +:+ id +:+ " Socks5Udp auth password")
      | None => Ok tt
      end
  | EMeshPeerUdp _ peer addr _ _ _ _ _ _ _ _ =>
      do? reject_empty_str (Some peer) ("egress " +:+ id +:+ " peer_id");
      reject_empty_str (Some addr) ("egress " +:+ id +:+ " peer")
  | EServiceTcp _ service _ _ rg _ connect _ => validate_service id service connect rg
  | EServiceUdp _ service _ _ rg _ connect _ rb sb =>
      do? validate_service id service connect rg;
      validate_buffers id rb sb
  end.

(** [for egress in &cfg.egresses], with the ids seen so far. *)
Fixpoint egresses_loop (es : list EgressCfg) (ids : list string) : vres :=
  match es with
  | [] => Ok tt
  | e :: es =>
      let id := egress_id e in
      do? bail_if (str_is_empty id) "egress id must not be empty";
      do? reject_invalid_id_shape id "egress id" "SinkId";
      do? validate_egress e id;
      do? bail_if (str_mem id ids) ("duplicate egress id: " +:+ id);
      do? bail_if (raw_priority e =? 0) ("egress " +:+ id +:+ " priority must be >= 1");
      do? bail_if (egress_timeout e =? 0) ("egress " +:+ id +:+ " timeout_ms must be >= 1");
      egresses_loop es (id :: ids)
  end.

(** ** The pipeline block *)

Definition validate_geo (p : PipelineCfg) : vres :=
  do? match geoip_cfg p with
      | None => Ok tt
      | Some g =>
          do? reject_empty_path (country_path g) "pipeline geoip.country_path";
          do? reject_empty_path (asn_path g) "pipeline geoip.asn_path";
          bail_if (bool_decide (country_path g = None) || bool_decide (asn_path g = None))
            "pipeline geoip requires both country_path and asn_path"
      end;
  match geosite_cfg p with
  | None => Ok tt
  | Some g =>
      do? reject_empty_path (geosite_path g) "pipeline geosite.path";
      bail_if (bool_decide (geosite_path g = None)) "pipeline geosite.path is required"
  end.

Definition declares (kind : string) (i : IngressCfg) : bool := bool_decide (pipeline_source_kind i = Some kind).

Definition validate_source_ingress (cfg : Config) (s : PipelineSourceCfg) : vres :=
  let kind := source_cfg_kind s in
  match ingress_index s with
  | Some idx =>
      match cfg_ingresses cfg !! idx with
      | None => Err ("pipeline source ingress_index " +:+ dec_show (Z.of_nat idx) +:+ " is out of range")
      | Some i =>
          bail_if (negb (declares kind i))
            ("pipeline source ingress_index " +:+ dec_show (Z.of_nat idx)
             +:+ " does not declare pipeline source kind " +:+ kind)
      end
  | None =>
      match length (List.filter (declares kind) (cfg_ingresses cfg)) with
      | O => Err ("pipeline requires at least one ingress declaring pipeline source kind " +:+ kind)
      | S O => Ok tt
      | _ => Err ("pipeline source ingress_index is required when multiple ingresses declare pipeline source kind "
                  +:+ kind)
      end
  end.

(** [matches!(head, "policy" | "transport")] with its message *)
Definition reject_reserved_write (key : string) : vres :=
  bail_if (str_mem (head key) ["policy"; "transport"])
    ("pipeline source initial_writes `" +:+ key +:+ "` targets reserved lower-layer namespace `" +:+ head key
     +:+ "`; per docs/handbook/spec/data-ontology.schema.json#metadata_namespace_ownership only net|auth|trace|ext"
     +:+ " are operator-writable at ingress (source_initial_writes_allowed=true)").

Definition validate_initial_write (key : string) : vres :=
  do? bail_if (negb (is_metadata_key key))
        ("pipeline source initial_writes contains invalid metadata key `" +:+ key +:+ "`");
  reject_reserved_write key.

Definition validate_pipeline (cfg : Config) (p : PipelineCfg) : vres :=
  let s := source_cfg p in
  do? reject_empty_path (rule_chain_path p) "pipeline rule_chain_path";
  do? reject_empty_path (rule_chain_forward p) "pipeline rule_chain_forward";
  do? reject_empty_path (rule_chain_resolver p) "pipeline rule_chain_resolver";
  do? validate_geo p;
  do? reject_empty_str (source_cfg_id s) "pipeline source id";
  do? match source_cfg_id s with
      | Some id => reject_invalid_id_shape id "pipeline source id" "SourceId"
      | None => Ok tt
      end;
  do? reject_empty_str (Some (source_cfg_kind s)) "pipeline source kind";
  do? bail_if (negb (bool_decide (source_cfg_kind s = "application/source")))
        ("pipeline source kind must be application/source, got " +:+ source_cfg_kind s);
  do? bail_if (bool_decide (forward_rule_chain_path p = None))
        "pipeline requires rule_chain_forward or legacy rule_chain_path";
  do? validate_source_ingress cfg s;
  try_each validate_initial_write (source_initial_writes s).

(** ** The whole; a warning about a single-path Replicate is a log line only. *)
Definition validate_config (cfg : Config) : vres :=
  do? bail_if (bool_decide (cfg_ingresses cfg = [])) "at least one ingress is required";
  do? bail_if (bool_decide (cfg_egresses cfg = [])) "at least one egress is required";
  do? validate_logging cfg;
  do? validate_health cfg;
  do? validate_scheduler cfg;
  do? validate_metrics cfg;
  do? validate_operator cfg;
  do? validate_mesh_identity cfg;
  do? validate_meshsec_peer_uniqueness cfg;
  do? try_each validate_ingress (cfg_ingresses cfg);
  do? validate_mesh_peer_udp_wan_requires_meshsec cfg;
  do? egresses_loop (cfg_egresses cfg) [];
  match cfg_pipeline cfg with Some p => validate_pipeline cfg p | None => Ok tt end.

(** [parse_config] after [serde_yaml] has read the text. *)
Definition parse_config (read : result Config string) : result Config string :=
  match read with
  | Err e => Err ("config parse error: " +:+ e)
  | Ok cfg => let cfg := normalize_config cfg in do? validate_config cfg; Ok cfg
  end.
