(* ===== verification/ConfigFacts.v ===== *)
(** What a valid configuration is, and that [validate_config] accepts exactly those. *)
From S2P Require Import Prelude Numbers NetAddr KernelRegistry RegistrySpec MeshWire MeshSec DispatchTypes Config ConfigValidate.
Local Open Scope string_scope.
Local Open Scope Z_scope.

(** ** The contract *)

Definition named (o : option string) : Prop := o <> Some "".
Definition positive (o : option Z) : Prop := o <> Some 0.
Definition labelled (l : list string) : Prop := "" ∉ l.
Definition hex_ok (hex : string) : Prop := String.length hex = 64%nat /\ str_all is_hex_digit hex = true.

(** A key ring: distinct named keys, and the active one has the active role. *)
Record ring_ok (active : string) (keys : list MeshSecKeyCfg) : Prop := {
  rg_ids : NoDup (key_id <$> keys);
  rg_keys : Forall (fun k => key_id k <> "" /\ hex_ok (key_hex k)) keys;
  rg_active : exists k, k ∈ keys /\ key_id k = active;
  rg_role : forall k, k ∈ keys -> key_id k = active -> key_role k = KeyActive
}.

Definition meshsec_ok (m : MeshSecPeerCfg) : Prop :=
  (exists hex, static_key_hex m = Some hex /\ keyring m = [] /\ hex_ok hex)
  \/ (static_key_hex m = None /\ exists active, active_key_id m = Some active /\ active <> "" /\ ring_ok active (keyring m)).

Record peer_ok (node : option NodeCfg) (p : PeerCfg) : Prop := {
  po_id : shaped (pc_id p);
  po_node : shaped (pc_node_id p);
  po_groups : labelled (pc_route_groups p);
  po_meshsec : forall m, pc_meshsec p = Some m -> is_Some node /\ meshsec_ok m
}.

Definition node_ids (cfg : Config) : list string :=
  match cfg_node cfg with Some n => [node_id n] | None => [] end ++ (pc_node_id <$> cfg_peers cfg).

(** Peers, and the egresses bound to them. *)
Record mesh_ok (cfg : Config) : Prop := {
  mo_node : forall n, cfg_node cfg = Some n -> shaped (node_id n);
  mo_ids : NoDup (pc_id <$> cfg_peers cfg);
  mo_nodes : NoDup (node_ids cfg);
  mo_peers : Forall (peer_ok (cfg_node cfg)) (cfg_peers cfg);
  mo_bound : forall e id, e ∈ cfg_egresses cfg -> egress_peer_id e = Some id ->
    exists p, p ∈ cfg_peers cfg /\ pc_id p = id
      /\ (pc_route_groups p = [] \/ forall g, g ∈ egress_groups e -> g ∈ pc_route_groups p);
  mo_single : forall p i j e e', p ∈ cfg_peers cfg -> is_Some (pc_meshsec p) ->
    cfg_egresses cfg !! i = Some e -> cfg_egresses cfg !! j = Some e' ->
    egress_peer_id e = Some (pc_id p) -> egress_peer_id e' = Some (pc_id p) -> i = j;
  mo_wan : forall listen n, InMeshPeerUdp listen n ∈ cfg_ingresses cfg ->
    exists a, parse_socket_addr listen = Some a
      /\ (is_loopback a = true \/ exists p, p ∈ cfg_peers cfg /\ is_Some (pc_meshsec p))
}.

Definition ingress_ok (i : IngressCfg) : Prop :=
  match i with
  | InSocks5 listen _ _ handshake backoff conns udp rb sb =>
      listen <> "" /\ Forall positive [handshake; backoff; conns; udp; rb; sb]
  | InHttpConnect listen auth handshake hdr conns rb sb =>
      listen <> "" /\ Forall positive [handshake; hdr; conns; rb; sb]
      /\ (forall a u, auth = Some a -> u ∈ users a -> user_name u <> "" /\ user_password u <> "")
  | InTcp listen target rg _ dl label rb sb | InUdp listen target rg _ dl label rb sb =>
      listen <> "" /\ target <> "" /\ named rg /\ named label /\ Forall positive [dl; rb; sb]
  | InMeshPeerUdp listen _ => listen <> ""
  end.

Record egress_ok (e : EgressCfg) : Prop := {
  eo_id : shaped (egress_id e);
  eo_wan : wan_id e <> "";
  eo_groups : labelled (egress_groups e);
  eo_priority : raw_priority e <> 0;
  eo_timeout : egress_timeout e <> 0;
  eo_kind : match e with
    | ETcp _ _ _ _ _ rb sb | EUdp _ _ _ _ _ rb sb => positive rb /\ positive sb
    | ESocks5 _ _ _ _ upstream _ => upstream <> ""
    | ESocks5Udp _ _ _ _ upstream _ auth =>
        upstream <> "" /\ (forall a, auth = Some a -> up_username a <> "" /\ up_password a <> "")
    | EMeshPeerUdp _ peer addr _ _ _ _ _ _ _ _ => peer <> "" /\ addr <> ""
    | EServiceTcp _ service _ _ rg _ connect _ => service <> "" /\ connect <> "" /\ named rg
    | EServiceUdp _ service _ _ rg _ connect _ rb sb =>
        (service <> "" /\ connect <> "" /\ named rg) /\ positive rb /\ positive sb
    end
}.

(** The source of the event pipeline: exactly one ingress is selected. *)
Definition selects (cfg : Config) (s : PipelineSourceCfg) (idx : nat) : Prop :=
  (exists i, cfg_ingresses cfg !! idx = Some i /\ pipeline_source_kind i = Some (source_cfg_kind s))
  /\ match ingress_index s with
     | Some k => k = idx
     | None => forall k i, cfg_ingresses cfg !! k = Some i ->
                 pipeline_source_kind i = Some (source_cfg_kind s) -> k = idx
     end.

Record pipeline_ok (cfg : Config) (p : PipelineCfg) : Prop := {
  pk_paths : named (rule_chain_path p) /\ named (rule_chain_forward p) /\ named (rule_chain_resolver p);
  pk_geoip : forall g, geoip_cfg p = Some g -> exists c a, country_path g = Some c /\ asn_path g = Some a /\ c <> "" /\ a <> "";
  pk_geosite : forall g, geosite_cfg p = Some g -> exists s, geosite_path g = Some s /\ s <> "";
  pk_id : forall id, source_cfg_id (source_cfg p) = Some id -> shaped id;
  pk_kind : source_cfg_kind (source_cfg p) = "application/source";
  pk_chain : is_Some (forward_rule_chain_path p);
  pk_source : exists idx, selects cfg (source_cfg p) idx;
  pk_writes : forall k, k ∈ source_initial_writes (source_cfg p) ->
    is_valid_metadata_key k = true /\ head k ∉ ["policy"; "transport"]
}.

Definition metrics_ok (m : MetricsCfg) : Prop :=
  match m with
  | PrometheusTextfile path labels | PrometheusHttp path labels =>
      path <> "" /\ Forall (fun k => is_prometheus_label_name k = true) labels.*1
  end.

Definition operator_ok (o : OperatorCfg) : Prop :=
  match o with
  | LocalHttp listen auth =>
      (exists a, parse_socket_addr listen = Some a /\ is_loopback a = true) /\ auth <> Some (BearerTokenFile "")
  end.

Definition scheduler_ok (s : SchedulerCfg) : Prop :=
  match s with
  | CfgLoadBalance _ ttl lease => ttl <> 0 /\ lc_idle_timeout_secs lease <> 0 /\ lc_max_age_secs lease <> 0
  | _ => True
  end.

Record ConfigOk (cfg : Config) : Prop := {
  ck_ingresses : cfg_ingresses cfg <> [];
  ck_egresses : cfg_egresses cfg <> [];
  ck_level : log_level (cfg_logging cfg) ∈ ["trace"; "debug"; "info"; "warn"; "error"];
  ck_health : hc_failure_threshold (cfg_health cfg) <> 0 /\ hc_recovery_window_ms (cfg_health cfg) <> 0
              /\ hc_probe_after_ms (cfg_health cfg) <> 0;
  ck_scheduler : scheduler_ok (cfg_scheduler cfg);
  ck_metrics : forall m, cfg_metrics cfg = Some m -> metrics_ok m;
  ck_operator : forall o, cfg_operator cfg = Some o -> operator_ok o;
  ck_mesh : mesh_ok cfg;
  ck_ingress : Forall ingress_ok (cfg_ingresses cfg);
  ck_egress : Forall egress_ok (cfg_egresses cfg);
  ck_egress_ids : NoDup (egress_id <$> cfg_egresses cfg);
  ck_pipeline : forall p, cfg_pipeline cfg = Some p -> pipeline_ok cfg p
}.

(** ** Each check, as what it checks *)

Lemma bail_if_ok c msg : bail_if c msg = Ok tt <-> c = false.
Proof. destruct c; cbn; split; congruence. Qed.

Lemma bool_false_iff (P : Prop) `{Decision P} : bool_decide P = false <-> ~ P.
Proof. apply bool_decide_eq_false. Qed.

Lemma reject_empty_ok v l : reject_empty_str v l = Ok tt <-> named v.
Proof. unfold reject_empty_str. by rewrite bail_if_ok, bool_decide_eq_false. Qed.

Lemma reject_path_ok v l : reject_empty_path v l = Ok tt <-> named v.
Proof. unfold reject_empty_path. by rewrite bail_if_ok, bool_decide_eq_false. Qed.

Lemma reject_zero_ok v l : reject_zero v l = Ok tt <-> positive v.
Proof. unfold reject_zero. by rewrite bail_if_ok, bool_decide_eq_false. Qed.

Lemma named_some s : named (Some s) <-> s <> "".
Proof. unfold named. split; [intros H ->; by apply H|intros H [= ->]; by apply H]. Qed.

Lemma str_empty_false s : str_is_empty s = false <-> s <> "".
Proof. destruct s; cbn; split; congruence. Qed.

Lemma existsb_empty l : existsb str_is_empty l = false <-> labelled l.
Proof.
  unfold labelled. induction l as [|s l IH]; cbn [existsb]; [set_solver|].
  rewrite orb_false_iff, IH, str_empty_false. set_solver.
Qed.

(** Not empty and of the id alphabet: the kernel's id shape. *)
Lemma id_shape_ok id l t : id <> "" -> reject_invalid_id_shape id l t = Ok tt <-> shaped id.
Proof.
  intros Hne. unfold reject_invalid_id_shape, shaped, is_valid_id_shape.
  rewrite bail_if_ok, negb_false_iff. apply str_empty_false in Hne. rewrite Hne. cbn [negb andb].
  unfold id_byte. reflexivity.
Qed.

Lemma shaped_nonempty id : shaped id -> id <> "".
Proof. unfold shaped, is_valid_id_shape. by intros H ->. Qed.

Create Rewrite HintDb cfg_ok.
#[local] Hint Rewrite bail_if_ok bool_false_iff reject_empty_ok reject_path_ok reject_zero_ok named_some
  str_empty_false existsb_empty negb_false_iff str_mem_iff Z.eqb_neq orb_false_iff
  @bool_decide_eq_true : cfg_ok.

Lemma metadata_key_same key : is_metadata_key key = is_valid_metadata_key key.
Proof. reflexivity. Qed.

Lemma match_option_ok {A E} (o : option A) (f : A -> result unit E) :
  match o with Some x => f x | None => Ok tt end = Ok tt <-> forall x, o = Some x -> f x = Ok tt.
Proof. destruct o; split; naive_solver. Qed.

(** Unfold a checker and read its steps off. *)
Ltac checks := autorewrite with mb_ok cfg_ok.

Lemma validate_logging_iff cfg :
  validate_logging cfg = Ok tt <-> log_level (cfg_logging cfg) ∈ ["trace"; "debug"; "info"; "warn"; "error"].
Proof. unfold validate_logging. by checks. Qed.

Lemma validate_health_iff cfg :
  validate_health cfg = Ok tt <->
  hc_failure_threshold (cfg_health cfg) <> 0 /\ hc_recovery_window_ms (cfg_health cfg) <> 0
  /\ hc_probe_after_ms (cfg_health cfg) <> 0.
Proof. unfold validate_health. by checks. Qed.

Lemma validate_scheduler_iff cfg : validate_scheduler cfg = Ok tt <-> scheduler_ok (cfg_scheduler cfg).
Proof. unfold validate_scheduler, scheduler_ok. destruct (cfg_scheduler cfg); [done|done|]. by checks. Qed.

Lemma label_names_iff keys :
  validate_prometheus_label_names keys = Ok tt <-> Forall (fun k => is_prometheus_label_name k = true) keys.
Proof. unfold validate_prometheus_label_names. checks. apply Forall_iff. intros k. by checks. Qed.

Lemma validate_metrics_iff cfg :
  validate_metrics cfg = Ok tt <-> forall m, cfg_metrics cfg = Some m -> metrics_ok m.
Proof.
  unfold validate_metrics, metrics_ok. destruct (cfg_metrics cfg) as [[|]|]; [| |naive_solver];
    checks; rewrite label_names_iff; naive_solver.
Qed.

Lemma validate_operator_iff cfg :
  validate_operator cfg = Ok tt <-> forall o, cfg_operator cfg = Some o -> operator_ok o.
Proof.
  unfold validate_operator, operator_ok. destruct (cfg_operator cfg) as [[listen auth]|]; [|naive_solver].
  destruct (parse_socket_addr listen) as [a|] eqn:Ha; checks.
  - assert (Hl : listen <> "") by (by intros ->). destruct auth as [[path]|]; checks.
    + split; [intros (_ & Hlo & Hp) o [= <-]; split; [eauto|]; by intros [= ->]|].
      intros H. destruct (H _ eq_refl) as [(a' & E & Hlo) Hp]. assert (a' = a) as -> by congruence.
      repeat split; try done. by intros ->.
    + split; [intros (_ & Hlo & _) o [= <-]; split; [eauto|done]|].
      intros H. destruct (H _ eq_refl) as [(a' & E & Hlo) _]. by assert (a' = a) as -> by congruence.
  - split; [by intros [_ ?]|]. intros H. destruct (H _ eq_refl) as [(a & E & _) _]. congruence.
Qed.

(** ** Keys *)

Lemma validate_hex_iff p f hex : validate_meshsec_hex p f hex = Ok tt <-> hex_ok hex.
Proof. unfold validate_meshsec_hex, hex_ok. checks. by rewrite Nat.eqb_eq. Qed.

Definition has_id (active : string) (keys : list MeshSecKeyCfg) : bool :=
  existsb (fun k => bool_decide (key_id k = active)) keys.

Lemma then_ok {A E} (r : result unit E) (k : result A E) x : (do? r; k) = Ok x <-> r = Ok tt /\ k = Ok x.
Proof. destruct r as [[]|e]; split; try (intros [? ?]); auto; discriminate. Qed.

Lemma mem_false x l : str_mem x l = false <-> x ∉ l.
Proof. unfold str_mem. apply bool_decide_eq_false. Qed.

(** No later item repeats the one just seen. *)
Lemma fresh_cons {A} (f : A -> string) (a : A) (l : list A) (ids : list string) :
  (forall x, x ∈ l -> f x ∉ (f a :: ids)) <->
  (f a ∉ (f <$> l)) /\ (forall x, x ∈ l -> f x ∉ ids).
Proof.
  setoid_rewrite not_elem_of_cons. split.
  - intros H. split; [|naive_solver]. intros (y & E & Hy)%list_elem_of_fmap. by destruct (H y Hy).
  - intros [Hk H] x Hx. split; [intros E; apply Hk, list_elem_of_fmap; eauto|auto].
Qed.

Lemma forall_cons_iff {A} (P : A -> Prop) a (l : list A) : (forall x, x ∈ (a :: l) -> P x) <-> P a /\ forall x, x ∈ l -> P x.
Proof. setoid_rewrite elem_of_cons. naive_solver. Qed.

Lemma keyring_loop_iff p active keys : forall ids found b,
  keyring_loop p active keys ids found = Ok b <->
  Forall (fun k => key_id k <> "" /\ hex_ok (key_hex k)) keys /\ NoDup (key_id <$> keys)
  /\ (forall k, k ∈ keys -> key_id k ∉ ids)
  /\ (forall k, k ∈ keys -> key_id k = active -> key_role k = KeyActive) /\ b = found || has_id active keys.
Proof.
  induction keys as [|k keys IH]; intros ids found b; cbn [keyring_loop].
  - cbn. rewrite orb_false_r. split; [intros [= <-]|naive_solver].
    split_and!; [constructor|constructor|set_solver|set_solver|done].
  - rewrite !then_ok, validate_hex_iff. checks. rewrite mem_false, Forall_cons, fmap_cons, NoDup_cons.
    rewrite !forall_cons_iff. cbn [has_id existsb]. fold (has_id active keys). case_decide as Ha.
    + rewrite then_ok, IH, fresh_cons. checks. unfold is_active. checks. rewrite bool_decide_true by done.
      cbn [orb]. rewrite orb_true_r. naive_solver.
    + rewrite IH, fresh_cons, bool_decide_false by done. cbn [orb]. naive_solver.
Qed.

Lemma has_id_iff active keys : has_id active keys = true <-> exists k, k ∈ keys /\ key_id k = active.
Proof.
  unfold has_id. rewrite existsb_exists. setoid_rewrite bool_decide_eq_true. setoid_rewrite <- list_elem_of_In. done.
Qed.

Lemma validate_keyring_iff p m :
  validate_meshsec_keyring p m = Ok tt <->
  exists active, active_key_id m = Some active /\ active <> "" /\ ring_ok active (keyring m).
Proof.
  unfold validate_meshsec_keyring. destruct (active_key_id m) as [active|]; [|split; [done|naive_solver]].
  rewrite then_ok. checks. destruct (keyring_loop p active (keyring m) [] false) as [b|e] eqn:E.
  - apply keyring_loop_iff in E as (H1 & H2 & _ & H3 & ->). checks. cbn [orb]. rewrite has_id_iff.
    split; [intros [Ha Hk]; exists active; by repeat split|]. intros (a & [= <-] & Ha & Hr). by destruct Hr.
  - split; [by intros [_ ?]|]. intros (a & [= <-] & Ha & [R1 R2 R3 R4]). exfalso.
    assert (keyring_loop p active (keyring m) [] false = Ok true); [|congruence].
    apply keyring_loop_iff. split_and!; try done; [set_solver|]. symmetry. by apply has_id_iff.
Qed.

Lemma validate_keys_iff p m : validate_meshsec_keys p m = Ok tt <-> meshsec_ok m.
Proof.
  unfold validate_meshsec_keys, meshsec_ok.
  destruct (static_key_hex m) as [hex|], (keyring m) as [|k ks] eqn:Ek.
  - rewrite validate_hex_iff. naive_solver.
  - split; [done|]. naive_solver.
  - split; [done|]. intros [(? & ? & _)|(_ & a & _ & _ & [_ _ (k & Hk & _) _])]; [done|set_solver].
  - rewrite validate_keyring_iff, Ek. naive_solver.
Qed.

(** ** Peers *)

Lemma node_clash_iff (node : option NodeCfg) id :
  node_id <$> node <> Some id <-> id ∉ match node with Some n => [node_id n] | None => [] end.
Proof. destruct node; cbn; set_solver. Qed.

Lemma peers_loop_iff node peers : forall ids nodes,
  peers_loop node peers ids nodes = Ok tt <->
  Forall (peer_ok node) peers /\ NoDup (pc_id <$> peers) /\ NoDup (pc_node_id <$> peers)
  /\ (forall p, p ∈ peers -> pc_id p ∉ ids) /\ (forall p, p ∈ peers -> pc_node_id p ∉ nodes)
  /\ (forall p, p ∈ peers -> node_id <$> node <> Some (pc_node_id p)).
Proof.
  induction peers as [|p peers IH]; intros ids nodes; cbn [peers_loop].
  - split; [intros _|done]. split_and!; try constructor; set_solver.
  - checks. rewrite IH, !mem_false, Forall_cons, !fmap_cons, !NoDup_cons, !fresh_cons, !forall_cons_iff.
    assert (Hp : peer_ok node p <-> pc_id p <> "" /\ pc_node_id p <> "" /\
      reject_invalid_id_shape (pc_id p) "peer id" "PeerId" = Ok tt /\
      reject_invalid_id_shape (pc_node_id p) "peer node_id" "NodeId" = Ok tt /\ labelled (pc_route_groups p) /\
      match pc_meshsec p with
      | Some m => do? bail_if (bool_decide (node = None))
                    ("peer " +:+ pc_id p +:+ " has meshsec but top-level node.id is missing"); validate_meshsec_keys p m
      | None => Ok tt
      end = Ok tt).
    { rewrite match_option_ok. setoid_rewrite then_ok. setoid_rewrite validate_keys_iff. split.
      - intros [H1 H2 H3 H4]. pose proof (shaped_nonempty _ H1). pose proof (shaped_nonempty _ H2).
        rewrite !id_shape_ok by done. split_and!; try done. intros m Hm. destruct (H4 m Hm) as [[n ->] ?]. by checks.
      - intros (H1 & H2 & H3 & H4 & H5 & H6). rewrite id_shape_ok in H3, H4 by done. split; try done.
        intros m Hm. destruct (H6 m Hm) as [Hn ?]. split; [|done]. destruct node; [eauto|done]. }
    rewrite Hp. tauto.
Qed.

(** ** Positions in a list *)

(** At most one position satisfies [f] exactly when the filter keeps at most one. *)
Lemma filter_single {A} (f : A -> bool) (l : list A) :
  (length (List.filter f l) < 2)%nat <->
  forall i j x y, l !! i = Some x -> l !! j = Some y -> f x = true -> f y = true -> i = j.
Proof.
  induction l as [|a l IH]; cbn [List.filter]; [split; [|cbn; lia]; by intros _ [] ?|].
  destruct (f a) eqn:Ha; cbn [length].
  - split.
    + intros Hl. assert (Hnil : List.filter f l = []) by (destruct (List.filter f l); [done|cbn in Hl; lia]).
      assert (Hno : forall i x, l !! i = Some x -> f x = true -> False).
      { intros i x Hi Hx. assert (x ∈ List.filter f l) by (rewrite list_elem_of_In, filter_In, <- list_elem_of_In;
          split; [by eapply list_elem_of_lookup_2|done]). by rewrite Hnil in *; apply elem_of_nil in H. }
      intros [|i] [|j] x y Hi Hj Hx Hy; [done| | |]; exfalso; cbn in *; eauto.
    + intros H. destruct (List.filter f l) as [|b r] eqn:Er; [cbn; lia|]. exfalso.
      assert (Hb : b ∈ List.filter f l) by (rewrite Er; left). rewrite list_elem_of_In, filter_In, <- list_elem_of_In in Hb.
      destruct Hb as [Hb Hfb]. apply list_elem_of_lookup in Hb as [j Hj].
      by pose proof (H 0%nat (S j) a b eq_refl Hj Ha Hfb).
  - rewrite IH. split.
    + intros H [|i] [|j] x y Hi Hj Hx Hy; cbn in *; try congruence. f_equal. eauto.
    + intros H i j x y Hi Hj Hx Hy. by pose proof (H (S i) (S j) x y Hi Hj Hx Hy) as [= ->].
Qed.

Lemma filter_some {A} (f : A -> bool) (l : list A) :
  (0 < length (List.filter f l))%nat <-> exists i x, l !! i = Some x /\ f x = true.
Proof.
  split.
  - destruct (List.filter f l) as [|b r] eqn:Er; [cbn; lia|]. intros _.
    assert (Hb : b ∈ List.filter f l) by (rewrite Er; left). rewrite list_elem_of_In, filter_In, <- list_elem_of_In in Hb.
    destruct Hb as [Hb Hf]. apply list_elem_of_lookup in Hb as [i Hi]. eauto.
  - intros (i & x & Hi & Hx). apply list_elem_of_lookup_2 in Hi.
    assert (Hin : x ∈ List.filter f l) by (by rewrite list_elem_of_In, filter_In, <- list_elem_of_In).
    destruct (List.filter f l); [by apply elem_of_nil in Hin|cbn; lia].
Qed.

(** ** Egresses bound to peers *)

Lemma find_peer_iff (peers : list PeerCfg) id p :
  NoDup (pc_id <$> peers) ->
  List.find (fun p => bool_decide (pc_id p = id)) peers = Some p <-> p ∈ peers /\ pc_id p = id.
Proof.
  intros Hnd. induction peers as [|q peers IH]; cbn [List.find]; [split; [done|]; by intros [?%elem_of_nil _]|].
  rewrite fmap_cons, NoDup_cons in Hnd. destruct Hnd as [Hq Hnd]. case_bool_decide as Hid.
  - split; [intros [= <-]; split; [left|done]|]. intros [[->|Hp]%elem_of_cons Hpi]; [done|].
    destruct Hq. apply list_elem_of_fmap. exists p. by rewrite Hpi, Hid.
  - rewrite IH by done. rewrite elem_of_cons. naive_solver.
Qed.

Lemma peer_groups_iff e p :
  validate_peer_route_groups e p = Ok tt <->
  pc_route_groups p = [] \/ forall g, g ∈ egress_groups e -> g ∈ pc_route_groups p.
Proof.
  unfold validate_peer_route_groups. destruct (pc_route_groups p) as [|g0 gs]; [naive_solver|].
  checks. rewrite Forall_forall. split.
  - intros H. right. intros g Hg. specialize (H g Hg). cbn beta in H. by autorewrite with cfg_ok in H.
  - intros [?|H]; [done|]. intros g Hg. checks. auto.
Qed.

Lemma egress_peers_iff cfg :
  NoDup (pc_id <$> cfg_peers cfg) ->
  Forall (fun e => validate_egress_peer cfg e = Ok tt) (cfg_egresses cfg) <->
  forall e id, e ∈ cfg_egresses cfg -> egress_peer_id e = Some id ->
    exists p, p ∈ cfg_peers cfg /\ pc_id p = id
      /\ (pc_route_groups p = [] \/ forall g, g ∈ egress_groups e -> g ∈ pc_route_groups p).
Proof.
  intros Hnd. rewrite Forall_forall. unfold validate_egress_peer. split.
  - intros H e id He Hid. specialize (H e He). cbn beta in H. rewrite Hid in H.
    destruct (List.find _ _) as [p|] eqn:Hf; [|done]. apply find_peer_iff in Hf as [Hp Hpi]; [|done].
    exists p. by rewrite <- peer_groups_iff.
  - intros H e He. destruct (egress_peer_id e) as [id|] eqn:Hid; [|done].
    destruct (H e id He Hid) as (p & Hp & Hpi & Hg).
    assert (List.find (fun p => bool_decide (pc_id p = id)) (cfg_peers cfg) = Some p) as -> by (by apply find_peer_iff).
    by apply peer_groups_iff.
Qed.

Lemma uniqueness_iff cfg :
  validate_meshsec_peer_uniqueness cfg = Ok tt <->
  forall p i j e e', p ∈ cfg_peers cfg -> is_Some (pc_meshsec p) ->
    cfg_egresses cfg !! i = Some e -> cfg_egresses cfg !! j = Some e' ->
    egress_peer_id e = Some (pc_id p) -> egress_peer_id e' = Some (pc_id p) -> i = j.
Proof.
  unfold validate_meshsec_peer_uniqueness, udp_egress_count. checks. rewrite Forall_forall. split.
  - intros H p i j e e' Hp [m Hm] Hi Hj He He'. specialize (H p Hp). cbn beta in H. rewrite Hm in H.
    autorewrite with cfg_ok in H. apply Nat.leb_gt in H. rewrite filter_single in H.
    eapply H; try done; by apply bool_decide_eq_true.
  - intros H p Hp. destruct (pc_meshsec p) as [m|] eqn:Hm; [|done]. checks. apply Nat.leb_gt, filter_single.
    intros i j x y Hi Hj Hx Hy. apply bool_decide_eq_true in Hx, Hy. by eapply H.
Qed.

Lemma wan_iff cfg :
  validate_mesh_peer_udp_wan_requires_meshsec cfg = Ok tt <->
  forall listen n, InMeshPeerUdp listen n ∈ cfg_ingresses cfg ->
    exists a, parse_socket_addr listen = Some a
      /\ (is_loopback a = true \/ exists p, p ∈ cfg_peers cfg /\ is_Some (pc_meshsec p)).
Proof.
  unfold validate_mesh_peer_udp_wan_requires_meshsec, parse_mesh_peer_udp_listen. checks. rewrite Forall_forall.
  assert (Hsec : existsb (fun p => bool_decide (is_Some (pc_meshsec p))) (cfg_peers cfg) = true <->
    exists p, p ∈ cfg_peers cfg /\ is_Some (pc_meshsec p)).
  { rewrite existsb_exists. setoid_rewrite bool_decide_eq_true. by setoid_rewrite <- list_elem_of_In. }
  setoid_rewrite <- Hsec. clear Hsec. split.
  - intros H listen n Hi. specialize (H _ Hi). cbn beta iota in H.
    destruct (parse_socket_addr listen) as [a|]; [|done]. exists a. split; [done|].
    destruct (is_loopback a); [by left|]. right. by autorewrite with cfg_ok in H.
  - intros H [] Hi; try done. destruct (H _ _ Hi) as (a & -> & [->|Hs]); [done|].
    destruct (is_loopback a); [done|]. by checks.
Qed.

Lemma mesh_iff cfg :
  (do? validate_mesh_identity cfg; do? validate_meshsec_peer_uniqueness cfg;
   validate_mesh_peer_udp_wan_requires_meshsec cfg) = Ok tt <-> mesh_ok cfg.
Proof.
  unfold validate_mesh_identity. checks. rewrite peers_loop_iff, uniqueness_iff, wan_iff.
  assert (Hnode : match cfg_node cfg with
    | Some n => do? reject_empty_str (Some (node_id n)) "node id"; reject_invalid_id_shape (node_id n) "node id" "NodeId"
    | None => Ok tt
    end = Ok tt <-> forall n, cfg_node cfg = Some n -> shaped (node_id n)).
  { destruct (cfg_node cfg) as [n|]; [|naive_solver]. checks. split.
    - intros [H1 H2] ? [= <-]. by rewrite id_shape_ok in H2.
    - intros H. specialize (H n eq_refl). pose proof (shaped_nonempty _ H). by rewrite id_shape_ok. }
  rewrite Hnode. clear Hnode.
  assert (Hnd : NoDup (node_ids cfg) <-> NoDup (pc_node_id <$> cfg_peers cfg) /\
    forall p, p ∈ cfg_peers cfg -> node_id <$> cfg_node cfg <> Some (pc_node_id p)).
  { unfold node_ids. destruct (cfg_node cfg) as [n|]; cbn [app fmap option_fmap option_map].
    - rewrite NoDup_cons. split; intros [H1 H2]; (split; [|done]) || (split; [done|]).
      + intros p Hp [= E]. apply H1, list_elem_of_fmap. by exists p.
      + intros (p & E & Hp)%list_elem_of_fmap. apply (H2 p Hp). by rewrite E.
    - naive_solver. }
  split.
  - intros [(H1 & (H2 & H3 & H4 & _ & _ & H5) & H6) [H7 H8]]. rewrite egress_peers_iff in H6 by done.
    split; try done. by apply Hnd.
  - intros [H1 H2 H3 H4 H5 H6 H7]. apply Hnd in H3 as [H3 H3']. rewrite egress_peers_iff by done.
    split_and!; try done; set_solver.
Qed.

(** ** Ingresses, egresses and the pipeline block *)

Lemma direct_ingress_iff k listen target rg dl label rb sb :
  validate_direct_ingress k listen target rg dl label rb sb = Ok tt <->
  listen <> "" /\ target <> "" /\ named rg /\ named label /\ Forall positive [dl; rb; sb].
Proof. unfold validate_direct_ingress. checks. rewrite !Forall_cons. naive_solver. Qed.

Lemma validate_ingress_iff i : validate_ingress i = Ok tt <-> ingress_ok i.
Proof.
  destruct i; cbn [validate_ingress ingress_ok]; rewrite ?direct_ingress_iff; checks; rewrite ?Forall_cons; [naive_solver| |done..].
  destruct auth as [a|]; checks.
  - assert (Hu : Forall (fun u => validate_auth_user u = Ok tt) (users a) <->
      forall u, u ∈ users a -> user_name u <> "" /\ user_password u <> "").
    { rewrite Forall_forall. unfold validate_auth_user. split; intros H u Hu; specialize (H u Hu); [|by checks].
      by autorewrite with mb_ok cfg_ok in H. }
    rewrite Hu. naive_solver.
  - naive_solver.
Qed.

Lemma validate_egress_iff e :
  egress_id e <> "" ->
  (reject_invalid_id_shape (egress_id e) "egress id" "SinkId" = Ok tt /\ validate_egress e (egress_id e) = Ok tt
   /\ raw_priority e <> 0 /\ egress_timeout e <> 0) <-> egress_ok e.
Proof.
  intros Hne. rewrite id_shape_ok by done. unfold validate_egress, validate_buffers, validate_service. checks.
  assert (Hk : forall A B C D E F : Prop, (A /\ (B /\ C /\ D) /\ E /\ F) <-> (A /\ B /\ C /\ E /\ F /\ D)) by tauto.
  rewrite Hk. clear Hk. split.
  - intros (H1 & H2 & H3 & H4 & H5 & H6). split; try done. destruct e; try (by autorewrite with mb_ok cfg_ok in H6).
    destruct auth; autorewrite with mb_ok cfg_ok in H6; naive_solver.
  - intros [H1 H2 H3 H4 H5 H6]. split_and!; try done. destruct e; checks; try done. destruct auth; checks; naive_solver.
Qed.

Lemma egresses_loop_iff es : forall ids,
  egresses_loop es ids = Ok tt <->
  Forall egress_ok es /\ NoDup (egress_id <$> es) /\ (forall e, e ∈ es -> egress_id e ∉ ids).
Proof.
  induction es as [|e es IH]; intros ids; cbn [egresses_loop].
  - split; [intros _|done]. split_and!; try constructor. set_solver.
  - checks. rewrite IH, mem_false, Forall_cons, fmap_cons, NoDup_cons, fresh_cons, forall_cons_iff. split.
    + intros (H1 & H2 & H3 & H4 & H5 & H6 & H7). rewrite <- validate_egress_iff by done. tauto.
    + intros ((H1 & H2) & H3 & H4). pose proof (shaped_nonempty _ (eo_id _ H1)) as Hne.
      rewrite <- validate_egress_iff in H1 by done. tauto.
Qed.

Lemma source_ingress_iff cfg s :
  validate_source_ingress cfg s = Ok tt <-> exists idx, selects cfg s idx.
Proof.
  unfold validate_source_ingress, selects, declares. destruct (ingress_index s) as [k|].
  - destruct (cfg_ingresses cfg !! k) as [i|] eqn:Hi.
    + checks. split; [intros H; exists k; split; [eauto|done]|]. intros (idx & (j & Hj & Hk) & ->). congruence.
    + split; [done|]. intros (idx & (j & Hj & _) & ->). congruence.
  - pose proof (filter_single (declares (source_cfg_kind s)) (cfg_ingresses cfg)) as H1.
    pose proof (filter_some (declares (source_cfg_kind s)) (cfg_ingresses cfg)) as H2.
    unfold declares in H1, H2. destruct (length _) as [|[|n]].
    + split; [done|]. intros (idx & (i & Hi & Hk) & _). exfalso.
      assert (0 < 0)%nat; [|lia]. apply H2. exists idx, i. by rewrite bool_decide_eq_true.
    + split; [intros _|done]. destruct (proj1 H2) as (idx & i & Hi & Hk); [lia|]. apply bool_decide_eq_true in Hk.
      exists idx. split; [eauto|]. intros k j Hj Hjk. apply (proj1 H1 ltac:(lia) k idx j i); try done; by apply bool_decide_eq_true.
    + split; [done|]. intros (idx & _ & Hun). exfalso. assert (S (S n) < 2)%nat; [|lia]. apply H1.
      intros a b x y Ha Hb Hx Hy. apply bool_decide_eq_true in Hx, Hy. by rewrite (Hun a x Ha Hx), (Hun b y Hb Hy).
Qed.

Lemma geo_iff p :
  validate_geo p = Ok tt <->
  (forall g, geoip_cfg p = Some g -> exists c a, country_path g = Some c /\ asn_path g = Some a /\ c <> "" /\ a <> "")
  /\ (forall g, geosite_cfg p = Some g -> exists s, geosite_path g = Some s /\ s <> "").
Proof.
  unfold validate_geo. checks. rewrite !match_option_ok. f_equiv; apply forall_proper; intros g; (split; intros H Hg; specialize (H Hg)).
  - autorewrite with mb_ok cfg_ok in H. destruct (country_path g) as [c|], (asn_path g) as [a|]; try (by destruct H as (_ & _ & ? & ?)).
    destruct H as (H1 & H2 & _). apply named_some in H1, H2. eauto 10.
  - destruct H as (c & a & -> & -> & Hc & Ha). by checks.
  - autorewrite with mb_ok cfg_ok in H. destruct (geosite_path g) as [s|]; [|by destruct H]. destruct H as [H _].
    apply named_some in H. eauto.
  - destruct H as (s & -> & Hs). by checks.
Qed.

Lemma initial_writes_iff ws :
  Forall (fun k => validate_initial_write k = Ok tt) ws <->
  forall k, k ∈ ws -> is_valid_metadata_key k = true /\ head k ∉ ["policy"; "transport"].
Proof.
  rewrite Forall_forall. unfold validate_initial_write, reject_reserved_write. apply forall_proper. intros k.
  checks. by rewrite mem_false, metadata_key_same.
Qed.

Lemma validate_pipeline_iff cfg p : validate_pipeline cfg p = Ok tt <-> pipeline_ok cfg p.
Proof.
  unfold validate_pipeline. checks. rewrite geo_iff, source_ingress_iff, initial_writes_iff, match_option_ok.
  assert (Hid : (named (source_cfg_id (source_cfg p)) /\ forall id, source_cfg_id (source_cfg p) = Some id ->
      reject_invalid_id_shape id "pipeline source id" "SourceId" = Ok tt) <->
    forall id, source_cfg_id (source_cfg p) = Some id -> shaped id).
  { destruct (source_cfg_id (source_cfg p)) as [id|]; [|unfold named; naive_solver]. rewrite named_some. split.
    - intros [H1 H2] ? [= <-]. specialize (H2 _ eq_refl). by rewrite id_shape_ok in H2.
    - intros H. specialize (H _ eq_refl). pose proof (shaped_nonempty _ H). split; [done|]. intros ? [= <-]. by rewrite id_shape_ok. }
  split.
  - intros (H1 & H2 & H3 & [H4 H5] & H6 & H7 & _ & H8 & H9 & H10 & H11). split; try done.
    + by apply Hid.
    + destruct (forward_rule_chain_path p); [eauto|done].
  - intros [(H1 & H2 & H3) H4 H5 H6 H7 [x Hx] H9 H10]. apply Hid in H6 as [H6 H6']. rewrite H7, Hx. split_and!; done.
Qed.

Lemma validate_config_iff cfg : validate_config cfg = Ok tt <-> ConfigOk cfg.
Proof.
  unfold validate_config. pose proof (mesh_iff cfg) as Hm. rewrite !seq_ok in Hm.
  rewrite !seq_ok, !bail_if_ok, !bool_decide_eq_false, validate_logging_iff, validate_health_iff, validate_scheduler_iff,
    validate_metrics_iff, validate_operator_iff, egresses_loop_iff, try_each_ok, match_option_ok.
  setoid_rewrite validate_pipeline_iff.
  assert (Hi : Forall (fun i => validate_ingress i = Ok tt) (cfg_ingresses cfg) <-> Forall ingress_ok (cfg_ingresses cfg))
    by (apply Forall_iff; intros i; apply validate_ingress_iff).
  split.
  - intros (H1 & H2 & H3 & H4 & H5 & H6 & H7 & H8 & H9 & H10 & H11 & (H12 & H13 & _) & H14). split; try done; tauto.
  - intros [H1 H2 H3 H4 H5 H6 H7 H8 H9 H10 H11 H12]. apply Hm in H8 as (? & ? & ?). split_and!; try tauto. set_solver.
Qed.
