(* ===== verification/ConfigTheorems.v ===== *)
(** What a configuration that [parse_config] accepts guarantees: the contract of
    ConfigFacts, keys that decode, and two nodes whose configurations name each other
    and can talk over MeshSec. *)
From S2P Require Import Prelude Numbers NetAddr KernelRegistry RegistrySpec MeshWire Replay MeshSec MeshSecFacts DispatchTypes Config ConfigValidate ConfigFacts.
Local Open Scope string_scope.
Local Open Scope Z_scope.

(** ** Keys that passed validation decode *)

Lemma hex_digit_value c :
  is_hex_digit c = true -> exists d, to_digit 16 c = Some d /\ 0 <= d < 16.
Proof.
  intros H. destruct (to_digit 16 c) as [d|] eqn:E.
  - exists d. split; [done|]. revert H E. destruct c as [[] [] [] [] [] [] [] []]; vm_compute; intros H [= <-]; by try split.
  - revert H E. by destruct c as [[] [] [] [] [] [] [] []].
Qed.

(** What [decode_hex] reads at position [i]: an ASCII hex digit. *)
Definition hex_at (l : list Z) (i : nat) : Prop :=
  continuation (nth i l 0) = false /\ nth i l 0 <> 43 /\
  exists d, to_digit 16 (ascii_z (nth i l 0)) = Some d /\ 0 <= d < 16.

Lemma hex_digits_at s i :
  str_all is_hex_digit s = true -> (i < String.length s)%nat -> hex_at (bytes_of_string s) i.
Proof.
  unfold hex_at. revert i. induction s as [|a s IH]; intros i; cbn [str_all String.length bytes_of_string]; [lia|].
  intros [Ha Hs]%andb_prop Hi. destruct i as [|i]; cbn [nth]; [|apply IH; [done|lia]].
  rewrite ascii_z_byte. split_and!; [| |by apply hex_digit_value].
  - revert Ha. by destruct a as [[] [] [] [] [] [] [] []].
  - revert Ha. by destruct a as [[] [] [] [] [] [] [] []].
Qed.

Lemma decode_hex_ok l n : forall i,
  (forall j, (j < length l)%nat -> hex_at l j) -> length l = (2 * (i + n))%nat ->
  exists key, decode_hex n l i = Some (Some key) /\ length key = n /\ bytes_ok key.
Proof.
  induction n as [|n IH]; intros i Hl Hlen; cbn [decode_hex]; [exists []; by split_and!; try constructor|].
  assert (Hb : is_char_boundary l (2 * i) = true /\ is_char_boundary l (2 * i + 2) = true).
  { unfold is_char_boundary. split; [destruct (Hl (2 * i)%nat) as (-> & _); [lia|apply orb_true_r]|].
    destruct n as [|n]; [apply orb_true_intro; left; apply Nat.eqb_eq; lia|].
    destruct (Hl (2 * i + 2)%nat) as (-> & _); [lia|apply orb_true_r]. }
  destruct Hb as [-> ->]. cbn [andb negb].
  destruct (Hl (2 * i)%nat) as (_ & Hp & d1 & E1 & B1); [lia|].
  destruct (Hl (2 * i + 1)%nat) as (_ & _ & d2 & E2 & B2); [lia|].
  unfold hex_pair. rewrite (proj2 (Z.eqb_neq _ _) Hp). cbn [foldl mbind option_bind]. rewrite E1, E2. cbn [mbind option_bind].
  destruct (IH (S i) Hl) as (key & -> & Hk & Hok); [lia|].
  eexists. split; [done|]. cbn [length]. split; [lia|]. constructor; [|done]. unfold is_byte. lia.
Qed.

Lemma hex_ok_decodes hex : hex_ok hex ->
  exists key, decode_static_key_hex hex = Some (Some key) /\ length key = 32%nat /\ bytes_ok key.
Proof.
  intros [Hl Hd]. unfold decode_static_key_hex. rewrite Hl. cbn [Nat.eqb negb].
  apply (decode_hex_ok _ 32 0); rewrite bytes_of_string_length, Hl; [|done]. intros j Hj. apply hex_digits_at; [done|lia].
Qed.

(** ** The keys of a peer, read off the configuration *)

(** The hex text a peer seals with. *)
Definition sealing_hex (m : MeshSecPeerCfg) (hex : string) : Prop :=
  static_key_hex m = Some hex \/
  (static_key_hex m = None /\ exists k, k ∈ keyring m /\ active_key_id m = Some (key_id k) /\ key_hex k = hex).

(** The hex texts a peer's packets are accepted under. *)
Definition accepted_hex (m : MeshSecPeerCfg) (hex : string) : Prop :=
  sealing_hex m hex \/
  (static_key_hex m = None /\ exists k, k ∈ keyring m /\ key_role k = KeyAccept /\ key_hex k = hex).

Lemma ring_find active keys k (f : MeshSecKeyCfg -> bool) :
  ring_ok active keys -> k ∈ keys -> key_id k = active -> f k = true ->
  List.find (fun k => bool_decide (key_id k = active) && f k) keys = Some k.
Proof.
  intros [Hnd _ _ _] Hk Hid Hf. clear -Hnd Hk Hid Hf.
  induction keys as [|q keys IH]; [by apply elem_of_nil in Hk|].
  rewrite fmap_cons, NoDup_cons in Hnd. destruct Hnd as [Hq Hnd]. cbn [List.find].
  apply elem_of_cons in Hk as [->|Hk]; [by rewrite bool_decide_true, Hf|].
  rewrite bool_decide_false; [by apply IH|]. intros E. apply Hq. rewrite E, <- Hid. by apply list_elem_of_fmap_2.
Qed.

Lemma ring_hex active keys k : ring_ok active keys -> k ∈ keys -> hex_ok (key_hex k).
Proof. intros [_ H _ _] Hk. rewrite Forall_forall in H. by apply H. Qed.

Lemma accepted_hex_ok m hex : meshsec_ok m -> accepted_hex m hex -> hex_ok hex.
Proof.
  intros [(h & E & _ & Hh)|(E & a & Ha & _ & Hr)] [[Hs|(Hs & k & Hk & _ & <-)]|(Hs & k & Hk & _ & <-)];
    try congruence; by eapply ring_hex.
Qed.

Lemma active_key_decodes m hex key :
  meshsec_ok m -> sealing_hex m hex -> decode_static_key_hex hex = Some (Some key) ->
  active_static_key m = Some (Some key).
Proof.
  intros Hm Hs Hd. unfold active_static_key. destruct Hs as [->|(-> & k & Hk & Ha & <-)]; [done|].
  destruct Hm as [(h & E & En & _)|(_ & a & Ha' & _ & Hr)]; [rewrite En in Hk; by apply elem_of_nil in Hk|].
  rewrite Ha. assert (a = key_id k) as -> by congruence.
  rewrite (ring_find _ _ k is_active Hr Hk eq_refl); [done|].
  unfold is_active. rewrite (rg_role _ _ Hr k Hk eq_refl). done.
Qed.

Definition decoded (k : MeshSecKeyCfg) (key : list Z) : Prop := decode_static_key_hex (key_hex k) = Some (Some key).

Lemma push_keys_total ks : Forall (fun k => hex_ok (key_hex k)) ks ->
  forall acc, exists keys, foldl push_key (Some acc) ks = Some (acc ++ keys)%list /\ Forall2 decoded ks keys.
Proof.
  induction 1 as [|k ks Hk _ IH]; intros acc; [exists []; by rewrite app_nil_r|]. cbn [foldl].
  destruct (hex_ok_decodes _ Hk) as (key & Hd & _). unfold push_key at 2. cbn [mbind option_bind]. rewrite Hd. cbn [mbind option_bind].
  destruct (IH (acc ++ [key])%list) as (keys & -> & Hks). exists (key :: keys). rewrite <- app_assoc. split; [done|by constructor].
Qed.

Lemma ring_first active keys k :
  ring_ok active keys -> k ∈ keys -> key_id k = active ->
  List.find (fun k => bool_decide (key_id k = active)) keys = Some k.
Proof.
  intros Hr Hk Hid. rewrite <- (ring_find _ _ k (fun _ => true) Hr Hk Hid eq_refl). clear.
  induction keys as [|q l IH]; [done|]. cbn [List.find]. rewrite andb_true_r. destruct (bool_decide _); [done|apply IH].
Qed.

(** The entries [open_static_keys] decodes: the active one, then the accepted ones. *)
Lemma ring_opening active keys ka k :
  ring_ok active keys -> ka ∈ keys -> key_id ka = active ->
  k ∈ ([ka] ++ List.filter (fun k => negb (bool_decide (key_id k = active)) && negb (is_active k)) keys)%list
  <-> (k ∈ keys /\ key_id k = active) \/ (k ∈ keys /\ key_role k = KeyAccept).
Proof.
  intros Hr Hka Hid. rewrite elem_of_app, list_elem_of_singleton, list_elem_of_In, filter_In, <- list_elem_of_In.
  rewrite andb_true_iff, !negb_true_iff, bool_decide_eq_false. unfold is_active. rewrite bool_decide_eq_false. split.
  - intros [->|(? & _ & Hn)]; [by left|right]. split; [done|]. by destruct (key_role k).
  - intros [[Hk E]|[Hk Hrole]]; [left|right].
    + pose proof (ring_first _ _ k Hr Hk E) as H1. rewrite (ring_first _ _ ka Hr Hka Hid) in H1. congruence.
    + split_and!; [done| |by rewrite Hrole]. intros E. by rewrite (rg_role _ _ Hr k Hk E) in Hrole.
Qed.

(** Opening keys never panic, and they are the accepted ones. *)
Lemma open_keys_decode m :
  meshsec_ok m -> exists keys, open_static_keys m = Some keys /\
    forall key, key ∈ keys <-> exists hex, accepted_hex m hex /\ decode_static_key_hex hex = Some (Some key).
Proof.
  unfold open_static_keys, accepted_hex, sealing_hex.
  intros [(hex & -> & -> & Hh)|(-> & active & -> & _ & Hr)].
  - destruct (hex_ok_decodes _ Hh) as (key & Hd & _). rewrite Hd. exists [key]. split; [done|]. intros key'.
    rewrite list_elem_of_singleton. split; [intros ->; eauto|].
    intros (h & [[[= <-]|[? _]]|[? _]] & Hd'); [congruence|done|done].
  - destruct (rg_active _ _ Hr) as (ka & Hka & Hid). rewrite (ring_first _ _ ka Hr Hka Hid).
    pose proof (fun k => ring_opening _ _ ka k Hr Hka Hid) as Hacc. set (ks := ([ka] ++ _)%list) in *.
    destruct (push_keys_total ks) with (acc := @nil (list Z)) as (keys & -> & H2).
    { rewrite Forall_forall. intros k Hk%Hacc. eapply ring_hex; [exact Hr|]. naive_solver. }
    exists keys. split; [done|]. intros key. split.
    + intros (i & Hi)%list_elem_of_lookup. destruct (Forall2_lookup_r _ _ _ _ _ H2 Hi) as (k & Hk & Hd).
      exists (key_hex k). split; [|exact Hd]. apply list_elem_of_lookup_2, Hacc in Hk as [[Hk <-]|[Hk Hrole]]; eauto 10.
    + intros (hex & Hx & Hd). assert (exists k, k ∈ ks /\ key_hex k = hex) as (k & Hk & <-).
      { destruct Hx as [[?|(_ & k & Hk & [= E] & <-)]|(_ & k & Hk & Hrole & <-)]; [done| |];
          exists k; rewrite Hacc; eauto. }
      apply list_elem_of_lookup in Hk as [i Hi]. destruct (Forall2_lookup_l _ _ _ _ _ H2 Hi) as (key' & Hk' & Hd').
      unfold decoded in Hd'. assert (key' = key) as -> by congruence. by eapply list_elem_of_lookup_2.
Qed.

(** ** The whole configuration *)

Lemma config_open_keys cfg :
  ConfigOk cfg -> exists keys, meshsec_open_keys cfg = Some keys /\
    forall k, k ∈ keys <-> exists p m hex key, p ∈ cfg_peers cfg /\ pc_meshsec p = Some m /\ accepted_hex m hex
      /\ decode_static_key_hex hex = Some (Some key) /\ k = mkOpenKey (pc_id p) (pc_node_id p) key.
Proof.
  intros [_ _ _ _ _ _ _ Hmesh _ _ _ _]. pose proof (mo_peers _ Hmesh) as Hp. clear Hmesh.
  unfold meshsec_open_keys. induction Hp as [|p ps Hp _ IH]; [exists []; split; [done|]; set_solver|].
  destruct IH as (keys & Hk & Hkeys). cbn [mapM]. destruct (mapM peer_open_keys ps) as [kss|]; [|done].
  cbn [mbind option_bind] in Hk. injection Hk as <-.
  assert (Hone : exists own, peer_open_keys p = Some own /\ forall k, k ∈ own <-> exists m hex key,
      pc_meshsec p = Some m /\ accepted_hex m hex /\ decode_static_key_hex hex = Some (Some key)
      /\ k = mkOpenKey (pc_id p) (pc_node_id p) key).
  { unfold peer_open_keys. destruct (pc_meshsec p) as [m|] eqn:Hm; [|exists []; split; [done|]; set_solver].
    destruct (open_keys_decode m) as (own & Ho & Hown); [by apply (po_meshsec _ _ Hp)|]. rewrite Ho.
    eexists. split; [done|]. intros k. change (List.map ?f ?l) with (f <$> l). rewrite list_elem_of_fmap.
    setoid_rewrite Hown. naive_solver. }
  destruct Hone as (own & -> & Hown). cbn [mbind option_bind mret option_ret]. eexists. split; [done|].
  intros k. cbn [concat]. rewrite elem_of_app, Hown, Hkeys. setoid_rewrite elem_of_cons. naive_solver.
Qed.

Lemma config_seal_key cfg node p m hex salt :
  ConfigOk cfg -> cfg_node cfg = Some node -> p ∈ cfg_peers cfg -> pc_meshsec p = Some m -> sealing_hex m hex ->
  exists key, decode_static_key_hex hex = Some (Some key) /\ length key = 32%nat /\ bytes_ok key
    /\ meshsec_seal_context cfg (pc_id p) salt = Some (Some (mkSealContext (node_id node) (pc_node_id p) key salt)).
Proof.
  intros [_ _ _ _ _ _ _ Hmesh _ _ _ _] Hn Hp Hm Hs.
  pose proof (proj1 (Forall_forall _ _) (mo_peers _ Hmesh) p Hp) as Hpo. destruct (po_meshsec _ _ Hpo m Hm) as [_ Hok].
  destruct (hex_ok_decodes hex) as (key & Hd & Hl & Hb); [eapply accepted_hex_ok; [exact Hok|by left]|].
  exists key. split_and!; try done. unfold meshsec_seal_context. rewrite Hn.
  rewrite (proj2 (find_peer_iff _ _ p (mo_ids _ Hmesh)) (conj Hp eq_refl)), Hm.
  by rewrite (active_key_decodes m hex key Hok Hs Hd).
Qed.

Lemma meshsec_ok_seals m : meshsec_ok m -> exists hex, sealing_hex m hex.
Proof.
  intros [(hex & H & _)|(H & a & Ha & _ & Hr)]; [exists hex; by left|].
  destruct (rg_active _ _ Hr) as (k & Hk & Hid). exists (key_hex k). right. rewrite Ha, <- Hid. eauto.
Qed.

#[export] Instance MeshSecOpenKey_eq_dec : EqDecision MeshSecOpenKey.
Proof. solve_decision. Defined.

(** Every MeshSec peer of a valid configuration can be sealed to, under a 32-byte key. *)
Lemma config_peers_seal cfg p salt :
  ConfigOk cfg -> p ∈ cfg_peers cfg -> is_Some (pc_meshsec p) ->
  exists ctx, meshsec_seal_context cfg (pc_id p) salt = Some (Some ctx) /\ length (static_key ctx) = 32%nat.
Proof.
  intros Hok Hp [m Hm]. pose proof (proj1 (Forall_forall _ _) (mo_peers _ (ck_mesh _ Hok)) p Hp) as Hpo.
  destruct (po_meshsec _ _ Hpo m Hm) as [[node Hn] Hms]. destruct (meshsec_ok_seals m Hms) as [hex Hs].
  destruct (config_seal_key cfg node p m hex salt Hok Hn Hp Hm Hs) as (key & _ & Hl & _ & Hc). eauto.
Qed.

(** ** Main theorems *)

(** A service egress with a route group is a candidate of that group. *)
Definition in_own_group (e : EgressCfg) : Prop :=
  match e with
  | EServiceTcp _ _ _ _ (Some g) groups _ _ | EServiceUdp _ _ _ _ (Some g) groups _ _ _ _ => g ∈ groups
  | _ => True
  end.

Lemma join_group_mem g groups : g <> "" -> g ∈ join_route_group (Some g) groups.
Proof.
  intros Hg. unfold join_route_group. apply str_empty_false in Hg. rewrite Hg. cbn [negb andb].
  destruct (str_mem g groups) eqn:E; cbn [negb]; [by apply str_mem_iff|]. apply elem_of_app. right. by apply list_elem_of_singleton.
Qed.

Lemma normalized_in_group e : egress_ok (normalize_egress e) -> in_own_group (normalize_egress e).
Proof.
  intros [_ _ _ _ _ H]. destruct e; try done; cbn in *; destruct route_group as [g|]; try done; apply join_group_mem;
    [destruct H as (_ & _ & H)|destruct H as ((_ & _ & H) & _)]; by apply named_some.
Qed.

(** C17: [parse_config] accepts a configuration exactly when its normalised form meets
    the declarative contract [ConfigOk] -- unique ids, well-formed key rings, egresses
    bound to declared peers within their route groups, exactly one ingress selected
    as pipeline source, no public mesh listener without MeshSec, a loopback operator
    port -- and then every service egress is a member of its own route group; a text
    serde refuses is an error. *)
Theorem parse_config_exact (read : result Config string) (cfg : Config) :
  parse_config read = Ok cfg <->
  exists raw, read = Ok raw /\ cfg = normalize_config raw /\ ConfigOk cfg /\ Forall in_own_group (cfg_egresses cfg).
Proof.
  unfold parse_config. destruct read as [raw|e]; [|split; [done|]; by intros (? & ? & _)].
  rewrite then_ok, validate_config_iff. split.
  - intros [Hok [= <-]]. exists raw. split_and!; try done. pose proof (ck_egress _ Hok) as He.
    cbn in *. rewrite Forall_fmap in *. eapply Forall_impl; [exact He|]. intros e. apply normalized_in_group.
  - intros (? & [= <-] & -> & Hok & _). done.
Qed.

(** C18: For two valid configurations that list each other's node id as a peer, where the
    key the first seals with is one the second accepts (its active key, or a rotated
    one kept in the [accept] role): both key sets are built without a panic, and a
    packet sealed under the first configuration opens under the second to the same
    bytes and the sender's peer id, when no other configured key decrypts it and the
    replay window accepts its counter. *)
Theorem paired_configs_talk `{MeshCrypto, !MeshCryptoLaws} (cfgA cfgB : Config) (nA nB : NodeCfg) (pA pB : PeerCfg)
    (mA mB : MeshSecPeerCfg) (hex : string) (salt clear : list Z) (epoch cnt lo hi : Z) (r r' : MeshSecReplayCache)
    (HA : ConfigOk cfgA) (HB : ConfigOk cfgB) (HnA : cfg_node cfgA = Some nA) (HnB : cfg_node cfgB = Some nB)
    (HpB : pB ∈ cfg_peers cfgA) (HpA : pA ∈ cfg_peers cfgB)
    (HidB : pc_node_id pB = node_id nB) (HidA : pc_node_id pA = node_id nA)
    (HmA : pc_meshsec pB = Some mA) (HmB : pc_meshsec pA = Some mB)
    (Hseal : sealing_hex mA hex) (Hacc : accepted_hex mB hex)
    (Hsalt : length salt = MESHSEC_BOOT_SALT_LEN) (Hcnt : 0 <= cnt < 2 ^ 64)
    (Hlen : (length clear <= MESHSEC_MAX_CLEAR_LEN)%nat) (Hep : lo <= epoch <= hi) (Hrange : hi - lo < 256)
    (Hr : check_and_insert r (pc_id pA, epoch, salt) cnt = (Ok tt, r')) :
  exists kb keys packet,
    let ctx := mkSealContext (node_id nA) (node_id nB) kb salt in
    let key := mkOpenKey (pc_id pA) (node_id nA) kb in
    decode_static_key_hex hex = Some (Some kb)
    /\ meshsec_seal_context cfgA (pc_id pB) salt = Some (Some ctx)
    /\ meshsec_open_keys cfgB = Some keys /\ key ∈ keys
    /\ seal_bytes clear ctx epoch cnt = Ok packet
    /\ ((forall k, k ∈ keys -> k <> key ->
           meshsec_try_decrypt k (node_id nB) epoch (sealed_header ctx epoch cnt)
             (take MESHSEC_HEADER_LEN packet) (drop MESHSEC_HEADER_LEN packet) = None) ->
        open_bytes packet keys (node_id nB) lo hi r = (Ok (pc_id pA, clear), r')).
Proof.
  destruct (config_seal_key cfgA nA pB mA hex salt HA HnA HpB HmA Hseal) as (kb & Hd & _ & _ & Hctx).
  destruct (config_open_keys cfgB HB) as (keys & Hkeys & Hin). set (key := mkOpenKey (pc_id pA) (node_id nA) kb).
  assert (Hk : key ∈ keys) by (apply Hin; exists pA, mB, hex, kb; by rewrite HidA).
  destruct (list_elem_of_split_l keys key Hk) as (pre & post & Heq & Hpre). rewrite HidB in Hctx.
  destruct (seal_open (mkSealContext (node_id nA) (node_id nB) kb salt) key epoch cnt)
    with (clear := clear) (pre := pre) (post := post) (lo := lo) (hi := hi) (r := r) (r' := r')
    as (packet & Hs & _ & Ho); try done.
  rewrite <- Heq in Ho. exists kb, keys, packet.
  split_and!; try done. intros Hno. apply Ho. rewrite Forall_forall. intros k Hkp.
  apply Hno; [rewrite Heq; by apply elem_of_app; left|]. intros ->. done.
Qed.

(** ** Two nodes *)

Module DemoConfigs.
Definition hex_of (s : string) : string := s +:+ s +:+ s +:+ s +:+ s +:+ s +:+ s +:+ s.
Definition old_key : MeshSecKeyCfg := mkKey "k1" (hex_of "00112233") KeyAccept.
Definition new_key : MeshSecKeyCfg := mkKey "k2" ("0000000000000000000000000000000000000000000000000000000000dEADb7") KeyActive.

Definition base (node : string) (peer : PeerCfg) : Config :=
  mkConfig (Some (mkNode node)) [peer] (mkLogging "info" LogCompact) (mkHealthCfg 3 30000 10000) None
    (Some (LocalHttp "127.0.0.1:9090" None)) (CfgLoadBalance CfgStickySessions 600 lease_cfg_default)
    [InMeshPeerUdp "0.0.0.0:7000" CfgSecureUdpNative; InTcp "127.0.0.1:80" "example.org:80" (Some "web") None None None None None]
    [EMeshPeerUdp "wan1" (pc_id peer) "192.0.2.1:7000" None 1 [] CfgSecureUdpNative CfgSteer 2 4 5000;
     EServiceTcp "svc" "web" None 1 (Some "web") [] "127.0.0.1:8080" 5000]
    (Some (mkPipelineCfg None (Some "rules.yaml") None None None None source_cfg_default)).

(** Node a still seals with the old key; node b has rotated, and accepts it. *)
Definition peer_b : PeerCfg := mkPeer "peer-b" "node-b" [] (Some (mkMeshSec MeshSec0RttPskXChaCha (Some (key_hex old_key)) None [])).
Definition peer_a : PeerCfg :=
  mkPeer "peer-a" "node-a" [] (Some (mkMeshSec MeshSec0RttPskXChaCha None (Some "k2") [old_key; new_key])).
Definition cfg_a : Config := normalize_config (base "node-a" peer_b).
Definition cfg_b : Config := normalize_config (base "node-b" peer_a).

Example config_a_parses : parse_config (Ok (base "node-a" peer_b)) = Ok cfg_a /\ parse_config (Ok (base "node-b" peer_a)) = Ok cfg_b.
Proof. vm_compute. split; reflexivity. Qed.

Example second_peer_egress_refused :
  parse_config (Ok (mkConfig (cfg_node cfg_a) (cfg_peers cfg_a) (cfg_logging cfg_a) (cfg_health cfg_a) None None CfgCake
    (cfg_ingresses cfg_a) (cfg_egresses cfg_a ++ [EMeshPeerUdp "wan2" "peer-b" "192.0.2.1:7001" None 1 [] CfgSecureUdpNative CfgSteer 2 4 5000])
    None)) = Err "peer peer-b carries meshsec and is bound by more than one mesh_peer_udp egress; a shared MeshSec K_tx must not reuse a counter nonce across egresses (fail-closed)".
Proof. vm_compute. reflexivity. Qed.
End DemoConfigs.
Import DemoConfigs DemoCrypto.

Lemma paired_configs_talk_witness :
  exists keys packet, meshsec_open_keys cfg_b = Some keys
    /\ open_bytes packet keys "node-b" 999 1001 (replay_new 1024)
       = (Ok ("peer-a"%string, [5; 6; 7]), (check_and_insert (replay_new 1024) ("peer-a"%string, 1000, [9; 9; 9; 9]) 42).2).
Proof.
  assert (HA : ConfigOk cfg_a) by (apply validate_config_iff; vm_compute; reflexivity).
  assert (HB : ConfigOk cfg_b) by (apply validate_config_iff; vm_compute; reflexivity).
  destruct (paired_configs_talk cfg_a cfg_b (mkNode "node-a") (mkNode "node-b") peer_a peer_b
    (mkMeshSec MeshSec0RttPskXChaCha (Some (key_hex old_key)) None []) (mkMeshSec MeshSec0RttPskXChaCha None (Some "k2") [old_key; new_key])
    (key_hex old_key) [9; 9; 9; 9] [5; 6; 7] 1000 42 999 1001 (replay_new 1024)
    (check_and_insert (replay_new 1024) ("peer-a"%string, 1000, [9; 9; 9; 9]) 42).2 HA HB)
    as (kb & keys & packet & Hd & _ & Hk & _ & Hs & Ho);
    [reflexivity|reflexivity|left|left|reflexivity|reflexivity|reflexivity|reflexivity|left; reflexivity| |reflexivity|lia| |lia|lia|reflexivity|].
  - right. split; [reflexivity|]. exists old_key. split; [left|split; reflexivity].
  - apply (bool_decide_unpack _). vm_compute. exact I.
  - exists keys, packet. split; [exact Hk|]. apply Ho.
    vm_compute in Hd. injection Hd as <-. vm_compute in Hk. injection Hk as <-. vm_compute in Hs. injection Hs as <-.
    intros k Hin Hne. repeat (apply elem_of_cons in Hin as [->|Hin]); [vm_compute; reflexivity|destruct Hne; reflexivity|apply elem_of_nil in Hin; destruct Hin].
Defined.
