(* ===== verification/Geosite.v ===== *)
(** Geosite tags by hostname suffix (lib/mb-geosite/src/lib.rs): the parser of the
    operator's list, the trie over reversed labels and its lookups. *)
From S2P Require Import Prelude NetAddr Rules HttpProxy.
#[local] Set Warnings "-register-all".
Local Open Scope string_scope.

(** ** Strings *)

(** [str::to_ascii_lowercase] *)
Fixpoint to_ascii_lowercase (s : string) : string :=
  match s with EmptyString => EmptyString | String a s => String (Rules.ascii_lower a) (to_ascii_lowercase s) end.

(** [s.trim_start_matches('.')] *)
Fixpoint trim_start_dots (s : string) : string :=
  match s with String "."%char s' => trim_start_dots s' | _ => s end.

(** [while s.ends_with('.') { s.pop(); }] *)
Fixpoint pop_dots (s : string) : string :=
  match s with
  | EmptyString => EmptyString
  | String a s' =>
      match pop_dots s' with
      | EmptyString => if decide (a = "."%char) then EmptyString else String a EmptyString
      | r => String a r
      end
  end.

Definition newline : Ascii.ascii := Ascii.ascii_of_nat 10.
Definition carriage_return : string := String (Ascii.ascii_of_nat 13) EmptyString.

(** [s.lines()]: the pieces before a newline lose a trailing carriage return, and the
    rest is a line when it is not empty. *)
Fixpoint lines_of (pieces : list string) : list string :=
  match pieces with
  | [] => []
  | [rest] => if str_is_empty rest then [] else [rest]
  | p :: pieces => default p (strip_suffix carriage_return p) :: lines_of pieces
  end.

Definition str_lines (s : string) : list string := lines_of (split_on newline s).

(** ** Data *)

Inductive GeositeError :=
| ReadFailed (path source : string)
| InvalidLine (line : nat) (reason : string).

Inductive Node := mkNode { tags : list string; children : gmap string Node }.

Definition node_default : Node := mkNode [] ∅.

Record GeositeDb := mkDb { root : Node }.
Definition geosite_empty : GeositeDb := mkDb node_default.

(** ** Checks on names *)

Definition normalize_host (raw : string) : string := pop_dots (to_ascii_lowercase (trim_start_dots (trim raw))).

Definition is_valid_tag (tag : string) : bool :=
  str_all (fun b => is_ascii_alphanumeric b || bool_decide (b ∈ ["_"%char; "-"%char; "."%char])) tag.

Definition is_valid_label (label : string) : bool :=
  negb (str_is_empty label) && (String.length label <=? 63)%nat && negb (starts_with "-" label)
  && negb (ends_with "-" label)
  && str_all (fun b => is_ascii_alphanumeric b || bool_decide (b = "-"%char)) label.

Definition is_valid_domain_suffix (suffix : string) : bool :=
  (String.length suffix <=? 253)%nat && negb (Rules.str_contains ":" suffix)
  && forallb is_valid_label (split_on "."%char suffix).

(** ** The trie *)

(** [s.rsplit('.')] *)
Definition rlabels (s : string) : list string := rev (split_on "."%char s).

(** [node = node.children.entry(label).or_default()] down the labels, then [push]. *)
Fixpoint node_insert (labels : list string) (tag : string) (n : Node) : Node :=
  match labels with
  | [] => mkNode (tags n ++ [tag])%list (children n)
  | l :: labels => mkNode (tags n) (<[l := node_insert labels tag (default node_default (children n !! l))]> (children n))
  end.

Definition db_insert (db : GeositeDb) (suffix tag : string) : GeositeDb :=
  mkDb (node_insert (rlabels suffix) (to_ascii_lowercase tag) (root db)).

(** The tags [for_each_match] visits, in order. *)
Fixpoint node_matches (labels : list string) (n : Node) : list string :=
  match labels with
  | [] => []
  | l :: labels =>
      match children n !! l with
      | None => []
      | Some next => (tags next ++ node_matches labels next)%list
      end
  end.

Definition for_each_match (db : GeositeDb) (host : string) : list string := node_matches (rlabels host) (root db).

Definition geosite_lookup (db : GeositeDb) (host : string) : list string :=
  let host := normalize_host host in
  if str_is_empty host then [] else for_each_match db host.

(** The closure of [lookup_packed]. *)
Definition push_packed (out : list Z) (tag : string) : list Z :=
  ((match out with [] => [] | _ => out ++ [0%Z] end) ++ bytes_of_string tag)%list.

Definition geosite_lookup_packed (db : GeositeDb) (host : string) : list Z :=
  let host := normalize_host host in
  if str_is_empty host then [] else foldl push_packed [] (for_each_match db host).

(** ** Parsing *)

(** One line: nothing, an entry, or the reason of its error. *)
Definition parse_line (raw : string) : result (option (string * string)) string :=
  let line := trim raw in
  if str_is_empty line || starts_with "#" line then Ok None
  else
    match split_once ":"%char line with
    | None => Err "expected tag:domain"
    | Some (tag, suffix) =>
        let tag := trim tag in
        let suffix := normalize_host (trim suffix) in
        if str_is_empty tag then Err "empty tag"
        else if negb (is_valid_tag tag) then Err "invalid tag"
        else if str_is_empty suffix then Err "empty domain"
        else if negb (is_valid_domain_suffix suffix) then Err "invalid domain"
        else Ok (Some (suffix, tag))
    end.

Fixpoint parse_lines (line_no : nat) (ls : list string) (db : GeositeDb) : result GeositeDb GeositeError :=
  match ls with
  | [] => Ok db
  | l :: ls =>
      match parse_line l with
      | Err reason => Err (InvalidLine line_no reason)
      | Ok None => parse_lines (S line_no) ls db
      | Ok (Some (suffix, tag)) => parse_lines (S line_no) ls (db_insert db suffix tag)
      end
  end.

Definition geosite_parse (body : string) : result GeositeDb GeositeError := parse_lines 1 (str_lines body) geosite_empty.

(** What [std::fs::read_to_string] gives: the text, a missing file, or another error. *)
Inductive FileRead := FileText (body : string) | FileMissing | FileError (source : string).

(** A missing file is an empty database. *)
Definition geosite_open (path : string) (read : FileRead) : result GeositeDb GeositeError :=
  match read with
  | FileText body => geosite_parse body
  | FileMissing => Ok geosite_empty
  | FileError source => Err (ReadFailed path source)
  end.

Definition demo_list : string :=
  "# list" +:+ String newline ("ads: .Doubleclick.NET." +:+ String newline ("cn:com.cn" +:+ String newline "CN:example.com.cn")).

Example geosite_examples :
  match geosite_parse demo_list with
  | Ok db => geosite_lookup db "stats.doubleclick.net" = ["ads"] /\ geosite_lookup db "www.Example.com.cn." = ["cn"; "cn"]
             /\ geosite_lookup db "notdoubleclick.net" = [] /\ geosite_lookup db "net" = []
             /\ geosite_lookup_packed db "a.example.com.cn" = [99; 110; 0; 99; 110]%Z
  | Err _ => False
  end /\ geosite_parse "nocolon" = Err (InvalidLine 1 "expected tag:domain").
Proof. vm_compute. repeat split. Qed.

(** * What a lookup gives *)

Local Open Scope string_scope.

(** ** Splitting at a separator *)

Lemma split_on_nonempty c s : split_on c s <> [].
Proof. destruct s as [|a s]; cbn [split_on]; [done|]. case_decide; [done|]. by destruct (split_on c s). Qed.

Lemma split_on_app c a b :
  split_on c (a +:+ String c b) = (split_on c a ++ split_on c b)%list.
Proof.
  induction a as [|x a IH]; simpl; [by rewrite decide_True|]. rewrite IH. case_decide; [done|].
  by destruct (split_on c a) eqn:E; [apply split_on_nonempty in E|].
Qed.

Fixpoint join (c : Ascii.ascii) (l : list string) : string :=
  match l with [] => "" | [s] => s | s :: l => s +:+ String c (join c l) end.

Lemma join_split c s : join c (split_on c s) = s.
Proof.
  induction s as [|a s IH]; cbn [split_on]; [done|].
  destruct (split_on c s) as [|h t] eqn:E; [by apply split_on_nonempty in E|].
  case_decide as Ha; [subst a|]; simpl in *; rewrite <- IH; by destruct t.
Qed.

Lemma join_app c l k : l <> [] -> k <> [] -> join c (l ++ k) = join c l +:+ String c (join c k).
Proof.
  intros Hl Hk. induction l as [|s l IH]; [done|]. destruct l as [|s' l].
  - cbn. by destruct k.
  - cbn [app join] in *. rewrite IH by done. by rewrite str_app_assoc.
Qed.

(** The labels of [suf] end the labels of [s] exactly when [suf] is [s] or follows a dot. *)
Lemma split_suffix_iff c suf s :
  (exists pre, split_on c s = (pre ++ split_on c suf)%list) <-> s = suf \/ exists pre, s = pre +:+ String c suf.
Proof.
  split.
  - intros [pre Hs]. pose proof (join_split c s) as Hj. rewrite Hs in Hj. destruct pre as [|p pre].
    + left. cbn [app] in Hj. by rewrite join_split in Hj.
    + right. rewrite join_app in Hj by (done || apply split_on_nonempty). rewrite join_split in Hj. eauto.
  - intros [->|[pre ->]]; [by exists []|]. rewrite split_on_app. eauto.
Qed.

(** ** The trie as a map from paths to tags *)

Fixpoint node_at (path : list string) (n : Node) : list string :=
  match path with
  | [] => tags n
  | l :: path => match children n !! l with Some next => node_at path next | None => [] end
  end.

Lemma node_at_default path : node_at path node_default = [].
Proof. by destruct path. Qed.

Lemma node_at_insert path q t : forall n,
  node_at path (node_insert q t n) = (node_at path n ++ if decide (path = q) then [t] else [])%list.
Proof.
  revert path. induction q as [|l q IH]; intros [|l' path] n; cbn [node_at node_insert tags children].
  - by rewrite decide_True.
  - by rewrite decide_False, app_nil_r.
  - by rewrite decide_False, app_nil_r.
  - destruct (decide (l' = l)) as [->|Hne].
    + rewrite lookup_insert_eq, IH.
      destruct (children n !! l) as [next|]; cbn [default from_option id]; [|rewrite node_at_default];
        repeat case_decide; congruence.
    + rewrite lookup_insert_ne by done. rewrite decide_False by congruence. by rewrite app_nil_r.
Qed.

(** The non-empty prefixes of a path, shortest first. *)
Fixpoint prefixes (labels : list string) : list (list string) :=
  match labels with [] => [] | l :: ls => [l] :: (cons l <$> prefixes ls) end.

Lemma node_matches_at labels : forall n, node_matches labels n = flat_map (fun p => node_at p n) (prefixes labels).
Proof.
  induction labels as [|l ls IH]; intros n; cbn; [done|].
  assert (Hf : forall ps, flat_map (fun p => node_at p n) (cons l <$> ps) =
    match children n !! l with Some next => flat_map (fun p => node_at p next) ps | None => [] end).
  { induction ps as [|p ps IHp]; cbn; [by destruct (children n !! l)|]. rewrite IHp. by destruct (children n !! l). }
  rewrite Hf. destruct (children n !! l) as [next|]; [by rewrite IH|done].
Qed.

Lemma elem_of_prefixes labels p : p ∈ prefixes labels <-> p <> [] /\ exists r, labels = (p ++ r)%list.
Proof.
  revert p. induction labels as [|l ls IH]; intros p; cbn.
  - split; [by intros ?%elem_of_nil|]. intros [Hp [r Hr]]. by destruct p.
  - rewrite elem_of_cons, list_elem_of_fmap. setoid_rewrite IH. split.
    + intros [->|(q & -> & Hq & r & ->)]; (split; [done|]); eauto.
    + intros [Hp [r Hr]]. destruct p as [|x p]; [done|]. injection Hr as <- ->. destruct p as [|y p]; [by left|].
      right. exists (y :: p). split; [done|]. split; [done|]. eauto.
Qed.

(** ** What the parser builds *)

(** The entries of a list: the lines that are not blank or comments. *)
Definition entries_of (ls : list string) : list (string * string) :=
  omap (fun l => match parse_line l with Ok o => o | Err _ => None end) ls.

Definition tags_at (es : list (string * string)) (path : list string) : list string :=
  omap (fun '(suffix, tag) => if decide (path = rlabels suffix) then Some (to_ascii_lowercase tag) else None) es.

Lemma parse_lines_at ls : forall k db db',
  parse_lines k ls db = Ok db' ->
  forall path, node_at path (root db') = (node_at path (root db) ++ tags_at (entries_of ls) path)%list.
Proof.
  induction ls as [|l ls IH]; intros k db db' H path; cbn in *; [injection H as <-; by rewrite app_nil_r|].
  unfold tags_at, entries_of. cbn [omap list_omap].
  destruct (parse_line l) as [[[suffix tag]|]|]; [| |done]; rewrite (IH _ _ _ H); [|done].
  cbn. rewrite node_at_insert, <- app_assoc. by case_decide.
Qed.

(** An error names the first line that is not an entry, and its reason. *)
Lemma parse_lines_error ls : forall k db e,
  parse_lines k ls db = Err e -> exists i l reason, ls !! i = Some l /\ parse_line l = Err reason
    /\ e = InvalidLine (k + i) reason /\ Forall (fun l => is_ok (parse_line l) = true) (take i ls).
Proof.
  induction ls as [|l ls IH]; intros k db e H; cbn in *; [done|]. destruct (parse_line l) as [[[suffix tag]|]|reason] eqn:E.
  3: { injection H as <-. exists 0, l, reason. split_and!; try done. by rewrite Nat.add_0_r. }
  all: destruct (IH _ _ _ H) as (i & l' & r & Hi & Hr & -> & Hf); exists (S i), l', r; cbn [lookup list_lookup take];
    (split_and!; [done|done|f_equal; lia|by constructor; [rewrite E|]]).
Qed.

(** ** Membership *)

Definition suffix_of_host (suffix host : string) : Prop := host = suffix \/ exists pre, host = pre +:+ String "."%char suffix.

Lemma rlabels_prefix suffix host :
  (exists r, rlabels host = (rlabels suffix ++ r)%list) <-> suffix_of_host suffix host.
Proof.
  unfold suffix_of_host. rewrite <- split_suffix_iff. unfold rlabels. split.
  - intros [r Hr]. exists (rev r). rewrite <- (rev_involutive (split_on _ host)), Hr, rev_app_distr, rev_involutive. done.
  - intros [pre ->]. exists (rev pre). by rewrite rev_app_distr.
Qed.

Lemma elem_of_tags_at es path t :
  t ∈ tags_at es path <-> exists suffix tag, (suffix, tag) ∈ es /\ path = rlabels suffix /\ t = to_ascii_lowercase tag.
Proof.
  unfold tags_at. rewrite list_elem_of_omap. split.
  - intros ([suffix tag] & Hin & H). case_decide; [|done]. injection H as <-. eauto 6.
  - intros (suffix & tag & Hin & -> & ->). exists (suffix, tag). by rewrite decide_True.
Qed.

Lemma elem_of_flat_map {A B} (f : A -> list B) l y : y ∈ flat_map f l <-> exists x, x ∈ l /\ y ∈ f x.
Proof. rewrite list_elem_of_In, in_flat_map. by setoid_rewrite <- list_elem_of_In. Qed.

(** A parsed list tags a host with exactly the tags, in lower case, of the entries
    whose domain is the host or a suffix of it that starts after a dot -- never inside a
    label -- in the order of the lookup: shorter domains first, and entries of one
    domain in the order of the file. *)
Theorem geosite_matches_label_suffixes (body host : string) (db : GeositeDb)
    (Hdb : geosite_parse body = Ok db) (Hhost : normalize_host host <> "") :
  geosite_lookup db host = flat_map (tags_at (entries_of (str_lines body))) (prefixes (rlabels (normalize_host host)))
  /\ forall t, t ∈ geosite_lookup db host <-> exists suffix tag, (suffix, tag) ∈ entries_of (str_lines body)
       /\ suffix_of_host suffix (normalize_host host) /\ t = to_ascii_lowercase tag.
Proof.
  assert (Heq : geosite_lookup db host = flat_map (tags_at (entries_of (str_lines body))) (prefixes (rlabels (normalize_host host)))).
  { unfold geosite_lookup, for_each_match. destruct (normalize_host host) as [|a s]; [done|]. cbn [str_is_empty].
    rewrite node_matches_at. apply flat_map_ext. intros p. rewrite (parse_lines_at _ _ _ _ Hdb). cbn [root geosite_empty].
    by rewrite node_at_default. }
  split; [done|]. intros t. rewrite Heq, elem_of_flat_map. setoid_rewrite elem_of_tags_at. setoid_rewrite elem_of_prefixes.
  setoid_rewrite <- rlabels_prefix. split.
  - intros (p & [_ [r Hr]] & suffix & tag & Hin & -> & ->). eauto 6.
  - intros (suffix & tag & Hin & [r Hr] & ->). exists (rlabels suffix). split; [|by eauto 6]. split; [|by eauto].
    unfold rlabels. intros E. apply (split_on_nonempty "."%char suffix). rewrite <- (rev_involutive (split_on _ _)), E. done.
Qed.

Lemma geosite_matches_label_suffixes_witness :
  exists db, geosite_parse demo_list = Ok db /\ geosite_lookup db "ads.doubleclick.net" = ["ads"].
Proof.
  assert (Hok : is_ok (geosite_parse demo_list) = true) by (vm_compute; reflexivity).
  destruct (geosite_parse demo_list) as [db|] eqn:E; [|discriminate Hok]. exists db. split; [reflexivity|].
  assert (Hn : normalize_host "ads.doubleclick.net" <> "") by (vm_compute; discriminate).
  rewrite (proj1 (geosite_matches_label_suffixes demo_list "ads.doubleclick.net" db E Hn)). vm_compute. reflexivity.
Defined.
