(* ===== verification/Floats.v ===== *)
(** [f64] and [f32] as the sources use them: IEEE 754 binary numbers of the
    Standard Library's executable specification, and Rust's casts on them. *)
From Stdlib Require Export SpecFloat.
From S2P Require Import Prelude.
Local Open Scope Z_scope.

Definition F64 := spec_float.
Definition F32 := spec_float.

Definition u64_max : Z := 2 ^ 64 - 1.

(** [z as f64] and [z as f32] of an integer: to nearest, ties to even *)
Definition f64_of_z (z : Z) : F64 := binary_normalize 53 1024 z 0 false.
Definition f32_of_z (z : Z) : F32 := binary_normalize 24 128 z 0 false.

Definition f64_add : F64 -> F64 -> F64 := SFadd 53 1024.
Definition f64_sub : F64 -> F64 -> F64 := SFsub 53 1024.
Definition f64_mul : F64 -> F64 -> F64 := SFmul 53 1024.
Definition f64_div : F64 -> F64 -> F64 := SFdiv 53 1024.
Definition f32_add : F32 -> F32 -> F32 := SFadd 24 128.
Definition f32_div : F32 -> F32 -> F32 := SFdiv 24 128.

(** The literal [n / d] of a decimal: the quotient is correctly rounded. *)
Definition f64_lit (n d : Z) : F64 := f64_div (f64_of_z n) (f64_of_z d).
Definition f32_lit (n d : Z) : F32 := f32_div (f32_of_z n) (f32_of_z d).

Definition is_nan (x : spec_float) : bool := match x with S754_nan => true | _ => false end.

(** [x.min(y)]: a NaN is ignored *)
Definition f_min (x y : spec_float) : spec_float :=
  if is_nan x then y else if is_nan y then x else if SFltb x y then x else y.

(** [x.clamp(lo, hi)] *)
Definition f_clamp (x lo hi : spec_float) : spec_float :=
  if SFltb x lo then lo else if SFltb hi x then hi else x.

(** [x as f64] of an [f32]: exact *)
Definition f64_of_f32 (x : F32) : F64 :=
  match x with
  | S754_finite s m e => binary_normalize 53 1024 (cond_Zopp s (Z.pos m)) e s
  | other => other
  end.

(** [x.round()]: half away from zero *)
Definition f64_round (x : F64) : F64 :=
  match x with
  | S754_finite s m e =>
      if 0 <=? e then x
      else binary_normalize 53 1024 (cond_Zopp s (Z.shiftr (2 * Z.pos m + 2 ^ (- e)) (1 - e))) 0 s
  | other => other
  end.

(** [x as u64]: toward zero, saturating, NaN to zero *)
Definition f64_to_u64 (x : F64) : Z :=
  match x with
  | S754_finite false m e => Z.min (Z.shiftl (Z.pos m) e) u64_max
  | S754_infinity false => u64_max
  | _ => 0
  end.

Example float_examples :
  f64_to_u64 (f64_lit 29 10) = 2 /\ f64_to_u64 (f64_round (f64_lit 5 2)) = 3
  /\ f64_to_u64 (f64_mul (f64_sub (f64_of_z 1) (f64_lit 9 10)) (f64_of_z 10000)) = 999
  /\ f64_to_u64 (f64_of_z (2 ^ 64 - 1)) = u64_max /\ f64_to_u64 (f64_of_z (2 ^ 53 + 1)) = 2 ^ 53
  /\ f64_to_u64 S754_nan = 0 /\ f64_to_u64 (f64_div (f64_of_z 1) (f64_of_z 0)) = u64_max
  /\ SFltb (f64_of_z 0) (f64_of_f32 (f32_lit 1 10)) = true.
Proof. vm_compute. repeat split. Qed.

(** A cast to [u64] is in range. *)
Lemma f64_to_u64_range x : 0 <= f64_to_u64 x <= u64_max.
Proof.
  assert (0 <= u64_max) by (unfold u64_max; lia).
  destruct x as [[]|[]| |[] m e]; cbn [f64_to_u64]; try lia.
  split; [|lia]. apply Z.min_glb; [|lia]. by apply Z.shiftl_nonneg.
Qed.
