(* ===== verification/Observation.v ===== *)
(** Observations (crates/mesh-bus-core/src/kernel/observation/, observation_wiring.rs,
    metrics_observer.rs): event types, the registry of observers and its checks, the
    status of subscribers, and the bus.

    A channel is a number; what a receiver does is outside.  [publish] offers the
    event to each sender.  [publish_reliable] waits for every send until a deadline:
    its argument lists the sends that finish before it, in the order they do. *)
From S2P Require Import Prelude Numbers StateM Dfs Endpoint DispatchTypes Dispatch.
Local Open Scope Z_scope.

(** ** Event types (event_type.rs) *)

Inductive EventTypeId := ECore (c : CoreEventId) | EObs (n : Z).

#[export] Instance CoreEventId_eq_dec : EqDecision CoreEventId.
Proof. solve_decision. Defined.
#[export] Instance EventTypeId_eq_dec : EqDecision EventTypeId.
Proof. solve_decision. Defined.

Definition CORE_RANGE_END : Z := 16.
Definition OBS_MESHSEC_DROP : EventTypeId := EObs 0.
Definition OBS_NATIVE_DROP : EventTypeId := EObs 1.

Definition core_u32 (c : CoreEventId) : Z :=
  match c with FlowOpened => 0 | FlowPathChanged => 1 | FlowClosed => 2 | PathIoError => 3 end.

(** [EventTypeId::as_u32] *)
Definition type_u32 (t : EventTypeId) : Z :=
  match t with ECore c => core_u32 c | EObs n => as_u32 (CORE_RANGE_END + n) end.

#[export] Instance EventTypeId_countable : Countable EventTypeId.
Proof.
  refine (inj_countable' (fun t => match t with ECore c => inl (core_u32 c) | EObs n => inr n end)
    (fun s => match s with
              | inl 0 => ECore FlowOpened | inl 1 => ECore FlowPathChanged | inl 2 => ECore FlowClosed
              | inl _ => ECore PathIoError | inr n => EObs n end) _).
  by intros [[]|].
Defined.

Inductive DeliveryPolicy := Lossy | Reliable.

Record EventTypeSpec := mkTypeSpec {
  et_id : EventTypeId;
  schema_hash : Z;
  multi_writer : bool;
  delivery : DeliveryPolicy
}.

Definition default_event_type_specs : list EventTypeSpec :=
  [ mkTypeSpec (ECore FlowOpened) 0xC0010001 false Reliable;
    mkTypeSpec (ECore FlowPathChanged) 0xC0010002 false Reliable;
    mkTypeSpec (ECore FlowClosed) 0xC0010003 false Reliable;
    mkTypeSpec (ECore PathIoError) 0xC0010004 false Lossy;
    mkTypeSpec OBS_MESHSEC_DROP 0x0B5EC001 true Lossy;
    mkTypeSpec OBS_NATIVE_DROP 0x0B5EC002 true Lossy ].

(** ** The registry of observers (registry.rs) *)

Record ObserverSpec := mkObserver {
  ob_id : Z;
  ob_owner : Z;
  ob_scope : Z;
  ob_reads : list EventTypeId;
  ob_writes : list EventTypeId;
  ob_pulls : list Z
}.

Inductive RegError :=
| UnknownEventType (t : EventTypeId) (o : Z)
| CoreWriteViolation (o : Z) (t : EventTypeId)
| DuplicateExclusiveWriter (t : EventTypeId)
| CycleInObservationGraph (o : Z)
| ScopeMissing (o : Z)
| UnknownPullSource (p : Z).

Record ObservationRegistry := mkObsRegistry {
  event_types : zmap EventTypeSpec;
  observers : zmap ObserverSpec;
  pull_sources : list Z
}.

Definition obs_registry_new : ObservationRegistry := mkObsRegistry [] [] [].

Definition register_event_type (r : ObservationRegistry) (s : EventTypeSpec) : ObservationRegistry :=
  mkObsRegistry (zm_insert (event_types r) (type_u32 (et_id s)) s) (observers r) (pull_sources r).

Definition register_observer (r : ObservationRegistry) (s : ObserverSpec) : result ObservationRegistry RegError :=
  if ob_scope s =? 0 then Err (ScopeMissing (ob_id s))
  else Ok (mkObsRegistry (event_types r) (zm_insert (observers r) (ob_id s) s) (pull_sources r)).

Definition register_pull_source (r : ObservationRegistry) (id : Z) : ObservationRegistry :=
  mkObsRegistry (event_types r) (observers r)
    (if bool_decide (id ∈ pull_sources r) then pull_sources r else id :: pull_sources r).

Definition observers_in_scope (r : ObservationRegistry) (scope : Z) : list Z :=
  ob_id <$> List.filter (fun s => ob_scope s =? scope) (zm_values (observers r)).

Definition registry_unwire_scope (r : ObservationRegistry) (scope : Z) : ObservationRegistry :=
  let to_drop := (List.filter (fun '(_, s) => ob_scope s =? scope) (observers r)).*1 in
  mkObsRegistry (event_types r) (foldl zm_remove (observers r) to_drop) (pull_sources r).

Definition known_type (r : ObservationRegistry) (t : EventTypeId) : bool :=
  bool_decide (is_Some (zm_get (event_types r) (type_u32 t))).

Definition is_core (t : EventTypeId) : bool := match t with ECore _ => true | EObs _ => false end.

(** Unknown types and writes to core events *)
Definition observer_errors (r : ObservationRegistry) (s : ObserverSpec) : list RegError :=
  flat_map (fun t => if known_type r t then [] else [UnknownEventType t (ob_id s)]) (ob_reads s)
  ++ flat_map (fun t => (if is_core t then [CoreWriteViolation (ob_id s) t] else [])
                        ++ (if known_type r t then [] else [UnknownEventType t (ob_id s)])) (ob_writes s).

(** [*writer_count.entry(w.as_u32()).or_default() += 1] *)
Definition count_write (m : zmap nat) (t : EventTypeId) : zmap nat :=
  if is_core t then m else zm_insert m (type_u32 t) (S (default 0%nat (zm_get m (type_u32 t)))).

Definition writer_count (r : ObservationRegistry) : zmap nat :=
  foldl count_write [] (flat_map ob_writes (zm_values (observers r))).

Definition writer_errors (r : ObservationRegistry) : list RegError :=
  flat_map (fun '(k, n) =>
    if (1 <? n)%nat then
      match zm_get (event_types r) k with
      | Some t => if multi_writer t then [] else [DuplicateExclusiveWriter (et_id t)]
      | None => []
      end
    else []) (writer_count r).

Definition pull_errors (r : ObservationRegistry) : list RegError :=
  flat_map (fun s => flat_map (fun p => if bool_decide (p ∈ pull_sources r) then [] else [UnknownPullSource p])
                       (ob_pulls s)) (zm_values (observers r)).

(** [by_read] and [edges]: an observer leads to those that read what it writes. *)
Definition readers (r : ObservationRegistry) (k : Z) : list Z :=
  flat_map (fun s => flat_map (fun t => if type_u32 t =? k then [ob_id s] else []) (ob_reads s))
    (zm_values (observers r)).

Definition obs_edges (r : ObservationRegistry) (o : Z) : list Z :=
  flat_map (fun s => if ob_id s =? o then flat_map (fun t => readers r (type_u32 t)) (ob_writes s) else [])
    (zm_values (observers r)).

(** The source recurses without a bound; the number of nodes is enough. *)
Definition obs_nodes (r : ObservationRegistry) : list Z :=
  zm_keys (observers r) ++ (ob_id <$> zm_values (observers r)).

Definition cycle_errors (r : ObservationRegistry) : list RegError :=
  match dfs_all (fun _ n => n) (length (obs_nodes r)) (obs_edges r) (zm_keys (observers r)) ∅ with
  | Some (Err c) => [CycleInObservationGraph c]
  | _ => []
  end.

Definition obs_verify (r : ObservationRegistry) : result unit (list RegError) :=
  let errs := flat_map (observer_errors r) (zm_values (observers r)) ++ writer_errors r ++ pull_errors r ++ cycle_errors r in
  match errs with [] => Ok tt | _ => Err errs end.

(** What an observer plugin declares (observation_wiring.rs). *)
Record ObserverDecl := mkDecl {
  subscribed_core_events : list CoreEventId;
  subscribed_events : list EventTypeId;
  observation_writes : list EventTypeId;
  observation_pulls : list Z
}.

Definition observer_spec_of (idx : nat) (o : ObserverDecl) : ObserverSpec :=
  mkObserver (as_u32 (Z.of_nat (idx + 1))) 1 (as_u32 (Z.of_nat (idx + 1)))
    ((ECore <$> subscribed_core_events o) ++ subscribed_events o) (observation_writes o) (observation_pulls o).

Fixpoint register_observers (idx : nat) (os : list ObserverDecl) (r : ObservationRegistry)
  : result ObservationRegistry RegError :=
  match os with
  | [] => Ok r
  | o :: os => let? r := register_observer r (observer_spec_of idx o) in register_observers (S idx) os r
  end.

Definition verify_observer_declarations (os : list ObserverDecl) : result unit (list RegError) :=
  match register_observers 0 os (foldl register_event_type obs_registry_new default_event_type_specs) with
  | Err e => Err [e]
  | Ok r => obs_verify r
  end.

(** ** Subscribers (subscriber.rs) *)

Definition MAX_LIFECYCLE_TIMEOUTS_BEFORE_UNWIRE : Z := 8.

Inductive UnwireReason := LifecycleTimeoutThresholdExceeded | ChannelClosed | ScopeRevoked.

Inductive SubscriberStatus :=
| Healthy
| Degraded (consecutive_timeouts : Z)
| Unwired (reason : UnwireReason) (at_ns total_timeouts last_timeout_at_ns : Z).

Abbreviation SubKey := (EventTypeId * nat)%type (only parsing).

Record SubscriberStatusTable := mkStatus {
  st_map : gmap SubKey SubscriberStatus;
  cumulative : gmap SubKey Z
}.

Definition status_new : SubscriberStatusTable := mkStatus ∅ ∅.

Definition record_timeout (s : SubscriberStatusTable) (key : SubKey) (at_ns : Z) : bool * SubscriberStatusTable :=
  let total := match cumulative s !! key with Some v => as_u32 (v + 1) | None => 1 end in
  let cum := <[key := total]> (cumulative s) in
  match default Healthy (st_map s !! key) with
  | Unwired _ _ _ _ => (false, mkStatus (st_map s) cum)
  | Healthy => (false, mkStatus (<[key := Degraded 1]> (st_map s)) cum)
  | Degraded consecutive_timeouts =>
      let c := as_u32 (consecutive_timeouts + 1) in
      if MAX_LIFECYCLE_TIMEOUTS_BEFORE_UNWIRE <=? c
      then (true, mkStatus (<[key := Unwired LifecycleTimeoutThresholdExceeded at_ns total at_ns]> (st_map s)) cum)
      else (false, mkStatus (<[key := Degraded c]> (st_map s)) cum)
  end.

Definition record_success (s : SubscriberStatusTable) (key : SubKey) : SubscriberStatusTable :=
  match st_map s !! key with
  | Some (Unwired _ _ _ _) => s
  | _ => mkStatus (<[key := Healthy]> (st_map s)) (cumulative s)
  end.

Definition record_unwired (reason : UnwireReason) (s : SubscriberStatusTable) (key : SubKey) (at_ns : Z)
  : SubscriberStatusTable :=
  mkStatus (<[key := Unwired reason at_ns (default 0 (cumulative s !! key)) at_ns]> (st_map s)) (cumulative s).

Definition record_closed : SubscriberStatusTable -> SubKey -> Z -> SubscriberStatusTable := record_unwired ChannelClosed.
Definition record_scope_revoked : SubscriberStatusTable -> SubKey -> Z -> SubscriberStatusTable := record_unwired ScopeRevoked.

(** ** The bus (bus.rs) *)

Record ScopedSender := mkSender { tx : nat; sender_scope : Z }.

Definition UNSCOPED : Z := 0.
Definition INITIAL_SLOTS : nat := 64.

Record DeliveryReport := mkReport { delivered : Z; timed_out : Z; closed : Z }.

Record ObservationBus := mkBus {
  routing : list (list ScopedSender);
  bus_status : SubscriberStatusTable
}.

Definition bus_new : ObservationBus := mkBus (replicate INITIAL_SLOTS []) status_new.

Definition slot_idx (t : EventTypeId) : nat := Z.to_nat (type_u32 t).

Definition wire_subscriber_scoped (b : ObservationBus) (t : EventTypeId) (ch : nat) (scope : Z) : ObservationBus :=
  let next := if (length (routing b) <=? slot_idx t)%nat
              then routing b ++ replicate (slot_idx t + 8 - length (routing b)) [] else routing b in
  mkBus (alter (fun v => v ++ [mkSender ch scope]) (slot_idx t) next) (bus_status b).

Definition wire_subscriber (b : ObservationBus) (t : EventTypeId) (ch : nat) : ObservationBus :=
  wire_subscriber_scoped b t ch UNSCOPED.

Definition decode_type (packed : Z) : EventTypeId :=
  if packed =? 0 then ECore FlowOpened else if packed =? 1 then ECore FlowPathChanged
  else if packed =? 2 then ECore FlowClosed else if packed =? 3 then ECore PathIoError
  else EObs (as_u32 (packed - CORE_RANGE_END)).

(** One slot of [unwire_scope]: the status of the senders dropped from index [i] on. *)
Fixpoint revoke_slot (t : EventTypeId) (scope now_ns : Z) (i : nat) (slot : list ScopedSender)
    (s : SubscriberStatusTable) : list ScopedSender * SubscriberStatusTable :=
  match slot with
  | [] => ([], s)
  | x :: slot =>
      if sender_scope x =? scope
      then revoke_slot t scope now_ns (S i) slot (record_scope_revoked s (t, i) now_ns)
      else let '(kept, s) := revoke_slot t scope now_ns (S i) slot s in (x :: kept, s)
  end.

Fixpoint revoke_slots (k : nat) (scope now_ns : Z) (slots : list (list ScopedSender)) (s : SubscriberStatusTable)
  : list (list ScopedSender) * SubscriberStatusTable :=
  match slots with
  | [] => ([], s)
  | slot :: slots =>
      let '(kept, s) := revoke_slot (decode_type (as_u32 (Z.of_nat k))) scope now_ns 0 slot s in
      let '(rest, s) := revoke_slots (S k) scope now_ns slots s in (kept :: rest, s)
  end.

Definition unwire_scope (b : ObservationBus) (scope now_ns : Z) : ObservationBus :=
  if scope =? UNSCOPED then b
  else let '(next, s) := revoke_slots 0 scope now_ns (routing b) (bus_status b) in mkBus next s.

(** The channels [publish] offers the event to, each with [try_send]. *)
Definition bus_publish (b : ObservationBus) (t : EventTypeId) : list nat := tx <$> default [] (routing b !! slot_idx t).

(** One send that finished before the deadline. *)
Definition record_completion (t : EventTypeId) (at_ns : Z) (acc : DeliveryReport * SubscriberStatusTable)
    (done : nat * bool) : DeliveryReport * SubscriberStatusTable :=
  let '(rep, s) := acc in
  let '(idx, sent) := done in
  if sent then (mkReport (delivered rep + 1) (timed_out rep) (closed rep), record_success s (t, idx))
  else (mkReport (delivered rep) (timed_out rep) (closed rep + 1), record_closed s (t, idx) at_ns).

(** The senders [0..n] that had not finished; collects those to unwire. *)
Fixpoint record_timeouts (t : EventTypeId) (at_ns : Z) (idxs : list nat)
    (acc : DeliveryReport * SubscriberStatusTable * list nat) : DeliveryReport * SubscriberStatusTable * list nat :=
  match idxs with
  | [] => acc
  | idx :: idxs =>
      let '(rep, s, unwired) := acc in
      let '(unwired_now, s) := record_timeout s (t, idx) at_ns in
      record_timeouts t at_ns idxs (mkReport (delivered rep) (timed_out rep + 1) (closed rep), s,
        if unwired_now then unwired ++ [idx] else unwired)
  end.

(** [v.remove(i)] for the indices from the largest down *)
Definition drop_indices (slot : list ScopedSender) (unwired : list nat) : list ScopedSender :=
  foldl (fun v i => if (i <? length v)%nat then take i v ++ drop (S i) v else v) slot (rev unwired).

Definition publish_reliable (b : ObservationBus) (t : EventTypeId) (at_ns : Z) (done : list (nat * bool))
  : DeliveryReport * ObservationBus :=
  match routing b !! slot_idx t with
  | None | Some [] => (mkReport 0 0 0, b)
  | Some senders =>
      let '(rep, s) := foldl (record_completion t at_ns) (mkReport 0 0 0, bus_status b) done in
      let pending := List.filter (fun i => negb (bool_decide (i ∈ done.*1))) (List.seq 0 (length senders)) in
      let '(rep, s, unwired) := record_timeouts t at_ns pending (rep, s, []) in
      (rep, mkBus (match unwired with [] => routing b | _ => <[slot_idx t := drop_indices senders unwired]> (routing b) end) s)
  end.

(** ** Metrics (metrics_observer.rs) *)

(** The fields of [EventPayloadInner] that observers read. *)
Record ObsPayload := mkObsPayload {
  o_exit_id : option string;
  o_selected_exit : option string;
  o_bytes_out : Z;
  o_payload_bytes : Z;
  o_rtt_ms : Z;
  o_success : option bool;
  o_at_ms : Z;
  o_reason : option string
}.

Record EventEnvelope := mkEnvelope { env_type : EventTypeId; env_payload : ObsPayload; env_at_ns : Z }.

(** The payload the dispatcher publishes, as its observers read it. *)
Definition obs_of_dispatch (p : EventPayload) : ObsPayload :=
  mkObsPayload (p_exit_id p) (selected_exit p) 0 (p_payload_bytes p) (p_rtt_ms p) (p_success p) (at_ms p) None.

Record MetricsSnapshot := mkMetrics {
  dispatch_success : Z;
  dispatch_failure : Z;
  bytes_sent : Z;
  meshsec_drop_total : Z;
  meshsec_auth_drop_total : Z;
  meshsec_replay_drop_total : Z;
  native_drop_total : Z;
  native_queue_overflow_drop_total : Z
}.

Definition on_core_event (m : MetricsSnapshot) (e : EventEnvelope) : MetricsSnapshot :=
  let '(mkMetrics ok ko by_ md ma mr nd nq) := m in
  let p := env_payload e in
  let sent := Z.max (o_bytes_out p) (o_payload_bytes p) in
  match env_type e with
  | ECore FlowOpened => mkMetrics (as_u64 (ok + 1)) ko (as_u64 (by_ + sent)) md ma mr nd nq
  | ECore FlowClosed =>
      mkMetrics ok (if default true (o_success p) then ko else as_u64 (ko + 1)) (as_u64 (by_ + sent)) md ma mr nd nq
  | ECore PathIoError => mkMetrics ok (as_u64 (ko + 1)) by_ md ma mr nd nq
  | _ => m
  end.

Definition on_observation_event (m : MetricsSnapshot) (e : EventEnvelope) : MetricsSnapshot :=
  let '(mkMetrics ok ko by_ md ma mr nd nq) := m in
  let reason := o_reason (env_payload e) in
  if decide (env_type e = OBS_MESHSEC_DROP) then
    let auth := bool_decide (reason = Some "auth"%string) in
    let replay := bool_decide (reason = Some "replay"%string) || bool_decide (reason = Some "replay_too_old"%string) in
    mkMetrics ok ko by_ (as_u64 (md + 1)) (if auth then as_u64 (ma + 1) else ma)
      (if negb auth && replay then as_u64 (mr + 1) else mr) nd nq
  else if decide (env_type e = OBS_NATIVE_DROP) then
    mkMetrics ok ko by_ md ma mr (as_u64 (nd + 1))
      (if bool_decide (reason = Some "queue_overflow"%string) then as_u64 (nq + 1) else nq)
  else m.

(** [tokio::spawn] of wire_core_observers: the dispatch on the event's type *)
Definition metrics_on_event (m : MetricsSnapshot) (e : EventEnvelope) : MetricsSnapshot :=
  match env_type e with ECore _ => on_core_event m e | EObs _ => on_observation_event m e end.
