(* ===== verification/ObservationFacts.v ===== *)
(** What the observation registry accepts, what a reliable publication counts, and what
    the status of an index outlives. *)
From stdpp Require Import relations.
From Stdlib Require Import Sorted.
From S2P Require Import Prelude Numbers Dfs StateM DispatchTypes Dispatch Observation.
Local Open Scope Z_scope.

Lemma flat_map_nil {A B} (f : A -> list B) l : flat_map f l = [] <-> forall x, x ∈ l -> f x = [].
Proof.
  induction l as [|x l IH]; cbn; [split; [by intros _ ? ?%elem_of_nil|done]|].
  rewrite app_nil, IH. setoid_rewrite elem_of_cons. naive_solver.
Qed.

Lemma elem_of_flat_map_iff {A B} (f : A -> list B) l y : y ∈ flat_map f l <-> exists x, x ∈ l /\ y ∈ f x.
Proof. rewrite list_elem_of_In, in_flat_map. by setoid_rewrite <- list_elem_of_In. Qed.

Lemma if_nil {A} (b : bool) (l : list A) : l <> [] -> (if b then [] else l) = [] <-> b = true.
Proof. destruct b; naive_solver. Qed.

(** ** The contract of the registry *)

Section Registry.
Variable r : ObservationRegistry.

Definition declared (s : ObserverSpec) : Prop := s ∈ zm_values (observers r).
Definition known (t : EventTypeId) : Prop := is_Some (zm_get (event_types r) (type_u32 t)).

(** Observer [a] writes a type that observer [b] reads. *)
Definition feeds (a b : Z) : Prop :=
  exists s s' t t', declared s /\ declared s' /\ ob_id s = a /\ ob_id s' = b
    /\ t ∈ ob_writes s /\ t' ∈ ob_reads s' /\ type_u32 t = type_u32 t'.

Definition writes_to (k : Z) : list EventTypeId :=
  List.filter (fun t => negb (is_core t) && (type_u32 t =? k)) (flat_map ob_writes (zm_values (observers r))).

Record ObsOk : Prop := {
  oo_known : forall s t, declared s -> t ∈ ob_reads s \/ t ∈ ob_writes s -> known t;
  oo_core : forall s c, declared s -> ECore c ∉ ob_writes s;
  oo_exclusive : forall k t, zm_get (event_types r) k = Some t -> multi_writer t = false -> (length (writes_to k) <= 1)%nat;
  oo_pulls : forall s p, declared s -> p ∈ ob_pulls s -> p ∈ pull_sources r;
  oo_acyclic : forall o, ~ tc feeds o o
}.

Lemma observer_errors_iff s :
  observer_errors r s = [] <->
  (forall t, t ∈ ob_reads s \/ t ∈ ob_writes s -> known t) /\ (forall c, ECore c ∉ ob_writes s).
Proof.
  unfold observer_errors. rewrite app_nil, !flat_map_nil.
  assert (Hk : forall t (e : RegError), (if known_type r t then [] else [e]) = [] <-> known t).
  { intros t e. rewrite if_nil by done. unfold known_type. apply bool_decide_eq_true. }
  setoid_rewrite app_nil. setoid_rewrite Hk. split.
  - intros [H1 H2]. split; [intros t [?|?]; [auto|by apply H2]|]. intros c Hc. by destruct (H2 _ Hc) as [? _].
  - intros [H1 H2]. split; [auto|]. intros t Ht. split; [|auto]. destruct t as [c|]; [by destruct (H2 c)|done].
Qed.

Lemma count_writes_get ts : forall m k, zm_wf m ->
  let n := length (List.filter (fun t => negb (is_core t) && (type_u32 t =? k)) ts) in
  zm_wf (foldl count_write m ts) /\
  zm_get (foldl count_write m ts) k = (if (n =? 0)%nat then zm_get m k else Some (default 0 (zm_get m k) + n)%nat).
Proof.
  induction ts as [|t ts IH]; intros m k Hm; cbn [foldl List.filter]; [done|].
  unfold count_write at 2 4. destruct (is_core t) eqn:Hc; cbn [negb andb]; [by apply IH|].
  set (m' := zm_insert m _ _). assert (Hm' : zm_wf m') by (by apply zm_insert_wf).
  destruct (IH m' k Hm') as [Hwf Hg]. split; [done|]. rewrite Hg. unfold m'. rewrite zm_get_insert by done.
  rewrite Z.eqb_sym. destruct (Z.eqb_spec (type_u32 t) k) as [->|]; cbn [length]; [|done].
  destruct (length _) as [|n]; cbn; f_equal; lia.
Qed.

Lemma writer_errors_iff :
  writer_errors r = [] <->
  forall k t, zm_get (event_types r) k = Some t -> multi_writer t = false -> (length (writes_to k) <= 1)%nat.
Proof.
  unfold writer_errors. rewrite flat_map_nil.
  assert (Hget : forall k, zm_get (writer_count r) k =
    if (length (writes_to k) =? 0)%nat then None else Some (length (writes_to k))).
  { intros k. unfold writer_count. rewrite (proj2 (count_writes_get _ [] k ltac:(constructor))). done. }
  assert (Hwf : zm_wf (writer_count r)) by (exact (proj1 (count_writes_get _ [] 0 ltac:(constructor)))).
  split.
  - intros H k t Hk Hm. destruct (decide (length (writes_to k) <= 1)%nat) as [|Hlt]; [done|]. exfalso.
    assert (Hin : (k, length (writes_to k)) ∈ writer_count r).
    { apply zm_get_in. rewrite Hget. destruct (Nat.eqb_spec (length (writes_to k)) 0); [lia|done]. }
    specialize (H _ Hin). cbn beta iota in H. rewrite Hk, Hm in H. by destruct (Nat.ltb_spec 1 (length (writes_to k))); [|lia].
  - intros H [k n] Hin. apply zm_in_get in Hin; [|done]. rewrite Hget in Hin.
    destruct (Nat.eqb_spec (length (writes_to k)) 0); [done|]. injection Hin as <-.
    destruct (Nat.ltb_spec 1 (length (writes_to k))) as [Hl|]; [|done].
    destruct (zm_get (event_types r) k) as [t|] eqn:E; [|done]. destruct (multi_writer t) eqn:Hm; [done|].
    specialize (H k t E Hm). lia.
Qed.

Lemma pull_errors_iff : pull_errors r = [] <-> forall s p, declared s -> p ∈ ob_pulls s -> p ∈ pull_sources r.
Proof.
  unfold pull_errors. rewrite flat_map_nil. setoid_rewrite flat_map_nil. setoid_rewrite if_nil; [|done].
  setoid_rewrite bool_decide_eq_true. unfold declared. naive_solver.
Qed.

Lemma obs_edges_feeds a b : b ∈ obs_edges r a <-> feeds a b.
Proof.
  assert (Hr : forall k, b ∈ readers r k <-> exists s' t', declared s' /\ t' ∈ ob_reads s' /\ type_u32 t' = k /\ ob_id s' = b).
  { intros k. unfold readers. rewrite elem_of_flat_map_iff. setoid_rewrite elem_of_flat_map_iff. split.
    - intros (s' & Hs & t' & Ht & Hb). destruct (Z.eqb_spec (type_u32 t') k); [|by apply elem_of_nil in Hb].
      apply list_elem_of_singleton in Hb. eauto 8.
    - intros (s' & t' & Hs & Ht & Hk & <-). exists s'. split; [done|]. exists t'. split; [done|].
      rewrite (proj2 (Z.eqb_eq _ _) Hk). left. }
  unfold obs_edges, feeds. rewrite elem_of_flat_map_iff. split.
  - intros (s & Hs & Hb). destruct (Z.eqb_spec (ob_id s) a); [|by apply elem_of_nil in Hb].
    apply elem_of_flat_map_iff in Hb as (t & Ht & (s' & t' & Hs' & Ht' & Hk & Hb)%Hr). exists s, s', t, t'. by repeat split.
  - intros (s & s' & t & t' & Hs & Hs' & Ha & Hb & Ht & Ht' & Hk). exists s. split; [done|].
    rewrite (proj2 (Z.eqb_eq _ _) Ha). apply elem_of_flat_map_iff. exists t. split; [done|]. apply Hr. eauto 8.
Qed.

(** Every observer is registered under its own id. *)
Definition keyed_observers : Prop := forall k s, (k, s) ∈ observers r -> ob_id s = k.

Lemma cycle_errors_iff : keyed_observers -> cycle_errors r = [] <-> forall o, ~ tc feeds o o.
Proof.
  intros Hkey. unfold cycle_errors.
  assert (Hid : forall s, declared s -> ob_id s ∈ zm_keys (observers r)).
  { intros s ([k s'] & -> & Hin)%list_elem_of_fmap. cbn [snd]. rewrite (Hkey _ _ Hin). apply list_elem_of_fmap. by exists (k, s'). }
  assert (Hsrc : forall a b, b ∈ obs_edges r a -> a ∈ zm_keys (observers r)).
  { intros a b (s & s' & t & t' & Hs & _ & <- & _)%obs_edges_feeds. auto. }
  assert (Hcl : forall a b, a ∈ obs_nodes r -> b ∈ obs_edges r a -> b ∈ obs_nodes r).
  { intros a b _ (s & s' & t & t' & _ & Hs' & _ & <- & _)%obs_edges_feeds. apply elem_of_app. left. auto. }
  pose proof (dfs_all_defined (obs_edges r) (fun _ n => n) (obs_nodes r) (zm_keys (observers r)) Hcl) as Hdef.
  destruct (dfs_all _ _ _ _ _) as [res|] eqn:E.
  2: { exfalso. revert E. apply Hdef; [|done]. intros n Hn. apply elem_of_app. by left. }
  pose proof (dfs_all_acyclic (obs_edges r) (fun _ n => n) _ Hsrc _ _ E) as Hac.
  assert (Htc : (forall n, ~ tc (edge (obs_edges r)) n n) <-> forall o, ~ tc feeds o o).
  { assert (forall a b, tc (edge (obs_edges r)) a b <-> tc feeds a b) as Heq.
    { intros a b. split; intros Ht; induction Ht as [x y Hxy|x y z Hxy _ IH];
        [apply tc_once|eapply tc_l; [|exact IH]|apply tc_once|eapply tc_l; [|exact IH]]; by apply obs_edges_feeds. }
    by setoid_rewrite Heq. }
  rewrite <- Htc, <- Hac. destruct res; cbn; naive_solver.
Qed.

Lemma obs_verify_iff : keyed_observers -> obs_verify r = Ok tt <-> ObsOk.
Proof.
  intros Hkey. unfold obs_verify.
  assert (Hl : forall l : list RegError, match l with [] => Ok tt | _ => Err l end = Ok tt <-> l = [])
    by (intros []; split; done).
  rewrite Hl, !app_nil, flat_map_nil, writer_errors_iff, pull_errors_iff, cycle_errors_iff by done.
  setoid_rewrite observer_errors_iff. split.
  - intros (H1 & H2 & H3 & H4). split; try done; intros s ? Hs; [by apply H1|by apply (H1 s Hs)].
  - intros [H1 H2 H3 H4 H5]. split_and!; try done. intros s Hs. split; [intros t Ht; by eapply H1|intros c; by eapply H2].
Qed.
End Registry.

(** ** Declarations of plugins *)

(** The ids fit [u32] after [CORE_RANGE_END] is added. *)
Definition type_fits (t : EventTypeId) : Prop :=
  match t with ECore _ => True | EObs n => 0 <= n < 2 ^ 32 - CORE_RANGE_END end.

Definition decl_fits (o : ObserverDecl) : Prop := Forall type_fits (subscribed_events o ++ observation_writes o).

Definition default_types : list EventTypeId := et_id <$> default_event_type_specs.

Record decl_ok (o : ObserverDecl) : Prop := {
  do_reads : forall t, t ∈ subscribed_events o -> t ∈ default_types;
  do_writes : forall t, t ∈ observation_writes o -> t = OBS_MESHSEC_DROP \/ t = OBS_NATIVE_DROP;
  do_pulls : observation_pulls o = []
}.

(** Plugin [i] writes a type that plugin [j] subscribes to. *)
Definition decl_feeds (os : list ObserverDecl) (i j : nat) : Prop :=
  exists o o' t, os !! i = Some o /\ os !! j = Some o' /\ t ∈ observation_writes o /\ t ∈ subscribed_events o'.

Lemma type_u32_inj t t' : type_fits t -> type_fits t' -> type_u32 t = type_u32 t' -> t = t'.
Proof.
  unfold type_fits, type_u32, CORE_RANGE_END, as_u32.
  destruct t as [[]|n], t' as [[]|n']; cbn [core_u32]; intros H1 H2; rewrite ?Z.mod_small by lia;
    intros E; try done; try lia. f_equal. lia.
Qed.

Definition base_registry : ObservationRegistry := foldl register_event_type obs_registry_new default_event_type_specs.

Lemma base_known r t : event_types r = event_types base_registry -> type_fits t -> known r t <-> t ∈ default_types.
Proof.
  intros Hr Hfit. unfold known. rewrite Hr, zm_get_keys.
  change (zm_keys (event_types base_registry)) with [0; 1; 2; 3; 16; 17]. split.
  - intros Hin. assert (Hd : exists t', t' ∈ default_types /\ type_fits t' /\ type_u32 t' = type_u32 t).
    { unfold default_types. cbn. repeat (apply elem_of_cons in Hin as [->|Hin]); [..|by apply elem_of_nil in Hin];
        [exists (ECore FlowOpened)|exists (ECore FlowPathChanged)|exists (ECore FlowClosed)|exists (ECore PathIoError)
        |exists OBS_MESHSEC_DROP|exists OBS_NATIVE_DROP]; (split; [set_solver|split; [cbn; lia || done|reflexivity]]). }
    destruct Hd as (t' & Hin' & Hf' & E). by rewrite <- (type_u32_inj t' t Hf' Hfit E).
  - unfold default_types. cbn. intros Hin.
    repeat (apply elem_of_cons in Hin as [->|Hin]); [..|by apply elem_of_nil in Hin]; vm_compute; set_solver.
Qed.

Lemma zm_insert_last {V} (m : zmap V) k v : Forall (fun k' => k' < k) (zm_keys m) -> zm_insert m k v = m ++ [(k, v)].
Proof.
  unfold zm_keys. induction m as [|[k0 v0] m IH]; intros H; cbn; [done|]. cbn in H. apply Forall_cons in H as [Hk H].
  destruct (Z.ltb_spec k k0); [lia|]. destruct (Z.eqb_spec k k0); [lia|]. by rewrite IH.
Qed.

Definition spec_entry (i : nat) (o : ObserverDecl) : Z * ObserverSpec := (Z.of_nat (i + 1), observer_spec_of i o).

Lemma register_all os : forall k r,
  Z.of_nat (k + length os) < 2 ^ 32 -> Forall (fun x => x < Z.of_nat (k + 1)) (zm_keys (observers r)) ->
  register_observers k os r =
    Ok (mkObsRegistry (event_types r) (observers r ++ imap (fun i => spec_entry (k + i)) os) (pull_sources r)).
Proof.
  induction os as [|o os IH]; intros k r Hk Hr; cbn [register_observers imap length] in *.
  - rewrite app_nil_r. by destruct r.
  - unfold register_observer. cbn [ob_scope ob_id observer_spec_of]. unfold as_u32. rewrite Z.mod_small by lia.
    destruct (Z.eqb_spec (Z.of_nat (k + 1)) 0); [lia|]. rewrite zm_insert_last by done. rewrite IH; cbn; [|lia|].
    + rewrite <- app_assoc. cbn [app]. rewrite Nat.add_0_r. do 4 f_equal.
      apply imap_ext. intros i x _. cbn. by rewrite Nat.add_succ_r.
    + unfold zm_keys. rewrite fmap_app, Forall_app. split.
      * eapply Forall_impl; [exact Hr|]. cbn. intros; lia.
      * constructor; [cbn; lia|constructor].
Qed.

(** The registry a list of plugins builds. *)
Definition decl_registry (os : list ObserverDecl) : ObservationRegistry :=
  mkObsRegistry (event_types base_registry) (imap spec_entry os) [].

Lemma verify_declarations_registry os :
  Z.of_nat (length os) < 2 ^ 32 -> verify_observer_declarations os = obs_verify (decl_registry os).
Proof. intros Hl. unfold verify_observer_declarations. fold base_registry. by rewrite (register_all os 0) by (done || constructor). Qed.

Lemma decl_registry_declared os s :
  declared (decl_registry os) s <-> exists i o, os !! i = Some o /\ s = observer_spec_of i o.
Proof.
  unfold declared, zm_values. cbn [observers decl_registry]. rewrite list_elem_of_fmap. setoid_rewrite elem_of_lookup_imap. split.
  - intros ([k s'] & -> & i & o & E & Ho). injection E as -> ->. eauto.
  - intros (i & o & Ho & ->). exists (spec_entry i o). eauto.
Qed.

Lemma decl_registry_feeds os a b :
  Z.of_nat (length os) < 2 ^ 32 -> Forall decl_fits os -> Forall decl_ok os ->
  feeds (decl_registry os) a b <->
  exists i j, a = Z.of_nat (i + 1) /\ b = Z.of_nat (j + 1) /\ decl_feeds os i j.
Proof.
  intros Hl Hfit Hok.
  assert (Hid : forall i o, os !! i = Some o -> ob_id (observer_spec_of i o) = Z.of_nat (i + 1)).
  { intros i o Ho. apply lookup_lt_Some in Ho. cbn. unfold as_u32. by rewrite Z.mod_small by lia. }
  rewrite Forall_forall in Hfit, Hok. split.
  - intros (s & s' & t & t' & (i & o & Ho & ->)%decl_registry_declared & (j & o' & Ho' & ->)%decl_registry_declared & Ha & Hb & Ht & Ht' & E).
    rewrite (Hid _ _ Ho) in Ha. rewrite (Hid _ _ Ho') in Hb. exists i, j. split_and!; [done..|]. exists o, o', t. split_and!; try done.
    pose proof (list_elem_of_lookup_2 _ _ _ Ho) as Hin. pose proof (list_elem_of_lookup_2 _ _ _ Ho') as Hin'.
    cbn in Ht, Ht'. apply elem_of_app in Ht' as [(c & -> & _)%list_elem_of_fmap|Ht'].
    + destruct (do_writes _ (Hok _ Hin) t Ht) as [->| ->]; destruct c; discriminate E.
    + pose proof (Hfit _ Hin) as Hf. pose proof (Hfit _ Hin') as Hf'. unfold decl_fits in Hf, Hf'. rewrite Forall_forall in Hf, Hf'.
      rewrite (type_u32_inj t t'); try done; [apply Hf|apply Hf']; apply elem_of_app; auto.
  - intros (i & j & -> & -> & o & o' & t & Ho & Ho' & Ht & Ht'). exists (observer_spec_of i o), (observer_spec_of j o'), t, t.
    split_and!; [apply decl_registry_declared; eauto|apply decl_registry_declared; eauto|by apply Hid|by apply Hid|done| |done].
    cbn. apply elem_of_app. by right.
Qed.

Lemma tc_index (R : Z -> Z -> Prop) (Q : nat -> nat -> Prop) :
  (forall a b, R a b <-> exists i j, a = Z.of_nat (i + 1) /\ b = Z.of_nat (j + 1) /\ Q i j) ->
  (forall o, ~ tc R o o) <-> forall i, ~ tc Q i i.
Proof.
  intros HRQ. assert (Hto : forall i j, tc Q i j -> tc R (Z.of_nat (i + 1)) (Z.of_nat (j + 1))).
  { intros i j Ht. induction Ht as [x y Hxy|x y z Hxy _ IH]; [apply tc_once|eapply tc_l; [|exact IH]]; apply HRQ; eauto. }
  assert (Hfrom : forall a b, tc R a b -> exists i j, a = Z.of_nat (i + 1) /\ b = Z.of_nat (j + 1) /\ tc Q i j).
  { intros a b Ht. induction Ht as [x y Hxy|x y z Hxy _ IH].
    - apply HRQ in Hxy as (i & j & -> & -> & Hq). exists i, j. split_and!; [done..|by apply tc_once].
    - apply HRQ in Hxy as (i & j & -> & -> & Hq). destruct IH as (j' & k & Ej & -> & Hjk).
      assert (j' = j) as -> by lia. exists i, k. split_and!; [done..|]. by eapply tc_l. }
  split.
  - intros H i Hi. by apply (H (Z.of_nat (i + 1))), Hto.
  - intros H o Ho. destruct (Hfrom _ _ Ho) as (i & j & -> & Ej & Hq). assert (j = i) as -> by lia. by apply (H i).
Qed.

Lemma fits_of o t : decl_fits o -> t ∈ subscribed_events o \/ t ∈ observation_writes o -> type_fits t.
Proof. unfold decl_fits. rewrite Forall_forall. intros H Ht. apply H, elem_of_app. exact Ht. Qed.

Lemma core_default c : ECore c ∈ default_types.
Proof. unfold default_types. cbn. destruct c; set_solver. Qed.

Section Declarations.
Variable os : list ObserverDecl.
Hypothesis Hl : Z.of_nat (length os) < 2 ^ 32.
Hypothesis Hfit : Forall decl_fits os.
#[local] Abbreviation reg := (decl_registry os).

Lemma decl_at i o : os !! i = Some o -> declared reg (observer_spec_of i o) /\ decl_fits o.
Proof.
  intros Ho. split; [apply decl_registry_declared; eauto|]. by eapply (proj1 (Forall_forall _ _) Hfit), list_elem_of_lookup_2.
Qed.

Lemma decl_registry_keyed : keyed_observers reg.
Proof.
  intros k s (i & o & [= -> ->] & Ho)%elem_of_lookup_imap. apply lookup_lt_Some in Ho. cbn. unfold as_u32. by rewrite Z.mod_small by lia.
Qed.

Lemma registry_ok_declarations : ObsOk reg -> Forall decl_ok os.
Proof.
  intros [H1 H2 _ H4 _]. rewrite Forall_forall. intros o (i & Ho)%list_elem_of_lookup. destruct (decl_at i o Ho) as [Hd Hfo]. split.
  - intros t Ht. apply (base_known reg); [done|eapply fits_of; eauto|]. apply (H1 _ t Hd). left. cbn. apply elem_of_app. by right.
  - intros t Ht. assert (t ∈ default_types) as Hin by (apply (base_known reg); [done|eapply fits_of; eauto|]; apply (H1 _ t Hd); by right).
    destruct t as [c|n]; [by destruct (H2 _ c Hd)|]. unfold default_types in Hin. cbn in Hin. set_solver.
  - destruct (observation_pulls o) as [|p l] eqn:E; [done|]. exfalso.
    assert (Hp : p ∈ pull_sources reg) by (apply (H4 _ p Hd); cbn; rewrite E; left). by apply elem_of_nil in Hp.
Qed.

Hypothesis Hok : Forall decl_ok os.

Lemma decl_ok_at i o : os !! i = Some o -> decl_ok o.
Proof. intros Ho. by eapply (proj1 (Forall_forall _ _) Hok), list_elem_of_lookup_2. Qed.

(** No type of a single writer is written at all. *)
Lemma declarations_exclusive k t :
  zm_get (event_types reg) k = Some t -> multi_writer t = false -> writes_to reg k = [].
Proof.
  intros Hk Hm. unfold writes_to. destruct (List.filter _ _) as [|w l] eqn:E; [done|]. exfalso.
  assert (Hw : In w (List.filter (fun t => negb (is_core t) && (type_u32 t =? k)) (flat_map ob_writes (zm_values (observers reg)))))
    by (rewrite E; by left).
  apply filter_In in Hw as [Hw Hk']. apply list_elem_of_In, elem_of_flat_map_iff in Hw as (s & Hs & Hw).
  apply decl_registry_declared in Hs as (i & o & Ho & ->). cbn in Hw.
  apply andb_prop in Hk' as [_ Hk']. apply Z.eqb_eq in Hk'. subst k. revert Hk Hm.
  destruct (do_writes _ (decl_ok_at i o Ho) _ Hw) as [->| ->]; vm_compute; intros [= <-]; discriminate.
Qed.

Lemma declarations_registry_ok : (forall o, ~ tc (feeds reg) o o) -> ObsOk reg.
Proof.
  intros Hac. split; [| | | |done].
  - intros s t (i & o & Ho & ->)%decl_registry_declared Ht. destruct (decl_at i o Ho) as [_ Hfo]. pose proof (decl_ok_at i o Ho) as Hd.
    assert (t ∈ default_types /\ type_fits t) as [Hdt Hft]; [|by apply base_known].
    destruct Ht as [[(c & -> & _)%list_elem_of_fmap|Ht]%elem_of_app|Ht].
    + split; [apply core_default|done].
    + split; [by apply (do_reads _ Hd)|eapply fits_of; eauto].
    + split; [|eapply fits_of; eauto]. destruct (do_writes _ Hd t Ht) as [->| ->]; unfold default_types; cbn; set_solver.
  - intros s c (i & o & Ho & ->)%decl_registry_declared Hc. by destruct (do_writes _ (decl_ok_at i o Ho) _ Hc).
  - intros k t Hk Hm. rewrite (declarations_exclusive k t Hk Hm). cbn. lia.
  - intros s p (i & o & Ho & ->)%decl_registry_declared Hp. cbn in Hp.
    rewrite (do_pulls _ (decl_ok_at i o Ho)) in Hp. by apply elem_of_nil in Hp.
Qed.
End Declarations.

(** The declarations of a list of observer plugins pass verification exactly when
    every plugin subscribes to default event types, writes only the two drop events
    and pulls nothing, and no plugin is fed by itself through the types the plugins
    write and subscribe to. *)
Theorem observer_declarations_exact (os : list ObserverDecl)
    (Hl : Z.of_nat (length os) < 2 ^ 32) (Hfit : Forall decl_fits os) :
  verify_observer_declarations os = Ok tt <->
  Forall decl_ok os /\ forall i, ~ tc (decl_feeds os) i i.
Proof.
  rewrite verify_declarations_registry, (obs_verify_iff _ (decl_registry_keyed os Hl)) by done. split.
  - intros Ho. pose proof (registry_ok_declarations os Hl Hfit Ho) as Hd. split; [done|].
    rewrite <- (tc_index (feeds (decl_registry os))); [apply Ho|]. intros a b. by apply decl_registry_feeds.
  - intros [Hd Hac]. rewrite <- (tc_index (feeds (decl_registry os))) in Hac by (intros a b; by apply decl_registry_feeds).
    by apply declarations_registry_ok.
Qed.

(** A counter of drops that also reports them, and one that reads the reports. *)
Definition demo_decls : list ObserverDecl :=
  [mkDecl [FlowClosed] [OBS_MESHSEC_DROP] [OBS_NATIVE_DROP] []; mkDecl [PathIoError] [OBS_NATIVE_DROP] [] []].

Lemma observer_declarations_exact_witness :
  verify_observer_declarations demo_decls = Ok tt /\ forall i, ~ tc (decl_feeds demo_decls) i i.
Proof.
  assert (Hv : verify_observer_declarations demo_decls = Ok tt) by (vm_compute; reflexivity).
  split; [exact Hv|]. apply (observer_declarations_exact demo_decls); [vm_compute; reflexivity| |exact Hv].
  repeat constructor; cbn; lia.
Defined.

(** * Reliable publication *)

Local Open Scope Z_scope.

(** ** Counting *)

Definition outcomes (sent : bool) (done : list (nat * bool)) : Z :=
  Z.of_nat (length (List.filter (fun d => Bool.eqb d.2 sent) done)).

Definition pending_of (n : nat) (done : list (nat * bool)) : list nat :=
  List.filter (fun i => negb (bool_decide (i ∈ done.*1))) (List.seq 0 n).

Lemma completions_report t at_ns done : forall rep s,
  (foldl (record_completion t at_ns) (rep, s) done).1 =
  mkReport (delivered rep + outcomes true done) (timed_out rep) (closed rep + outcomes false done).
Proof.
  unfold outcomes. induction done as [|[i []] done IH]; intros [d o c] s; cbn [foldl List.filter].
  - cbn. by rewrite !Z.add_0_r.
  - unfold record_completion at 2. rewrite IH. cbn. f_equal; lia.
  - unfold record_completion at 2. rewrite IH. cbn. f_equal; lia.
Qed.

Lemma timeouts_report t at_ns idxs : forall rep s un,
  (record_timeouts t at_ns idxs (rep, s, un)).1.1 =
  mkReport (delivered rep) (timed_out rep + Z.of_nat (length idxs)) (closed rep).
Proof.
  induction idxs as [|i idxs IH]; intros [d o c] s un; cbn [record_timeouts]; [cbn; by rewrite Z.add_0_r|].
  destruct (record_timeout s (t, i) at_ns) as [b s']. rewrite IH. cbn [delivered timed_out closed length]. f_equal. lia.
Qed.

Lemma pending_length n done :
  NoDup done.*1 -> Forall (fun d => (d.1 < n)%nat) done ->
  (length (pending_of n done) + length done = n)%nat.
Proof.
  intros Hnd Hlt. assert (Hp : done.*1 ++ pending_of n done ≡ₚ List.seq 0 n).
  { apply NoDup_Permutation.
    - apply NoDup_app. split; [done|]. split; [|apply NoDup_ListNoDup, List.NoDup_filter, seq_NoDup].
      intros i Hi Hp. unfold pending_of in Hp. rewrite list_elem_of_In, filter_In in Hp. destruct Hp as [_ Hp].
      by rewrite bool_decide_true in Hp.
    - apply NoDup_ListNoDup, seq_NoDup.
    - intros i. unfold pending_of. rewrite elem_of_app, !list_elem_of_In, filter_In, <- !list_elem_of_In. split.
      + intros [(d & -> & Hd)%list_elem_of_fmap|[Hi _]]; [|done]. rewrite Forall_forall in Hlt. specialize (Hlt d Hd).
        apply list_elem_of_In, in_seq. lia.
      + intros Hi. destruct (decide (i ∈ done.*1)); [by left|right]. by rewrite bool_decide_false. }
  apply Permutation_length in Hp. rewrite length_app, length_fmap, length_seq in Hp. lia.
Qed.

Lemma outcomes_total done : outcomes true done + outcomes false done = Z.of_nat (length done).
Proof. unfold outcomes. induction done as [|[i []] done IH]; cbn [List.filter Bool.eqb snd length]; lia. Qed.

(** ** Status *)

Definition is_unwired (s : SubscriberStatusTable) (key : SubKey) : Prop :=
  exists r a n l, st_map s !! key = Some (Unwired r a n l).

(** One more timeout unwires the subscriber of this index. *)
Definition due (s : SubscriberStatusTable) (key : SubKey) : bool :=
  match st_map s !! key with
  | Some (Degraded c) => MAX_LIFECYCLE_TIMEOUTS_BEFORE_UNWIRE <=? as_u32 (c + 1)
  | _ => false
  end.

Lemma timeout_due s key at_ns : (record_timeout s key at_ns).1 = due s key.
Proof.
  unfold record_timeout, due. destruct (st_map s !! key) as [[]|]; cbn; try done. by destruct (_ <=? _).
Qed.

Lemma timeout_other s key key' at_ns : key <> key' -> st_map (record_timeout s key at_ns).2 !! key' = st_map s !! key'.
Proof.
  intros Hne. unfold record_timeout. destruct (default Healthy _) as [|c|]; cbn; try (by rewrite lookup_insert_ne); [|done].
  destruct (_ <=? _); cbn; by rewrite lookup_insert_ne.
Qed.

Lemma timeouts_unwired t at_ns idxs : forall rep s un, NoDup idxs ->
  (record_timeouts t at_ns idxs (rep, s, un)).2 = un ++ List.filter (fun i => due s (t, i)) idxs.
Proof.
  induction idxs as [|i idxs IH]; intros rep s un Hnd; cbn [record_timeouts List.filter]; [by rewrite app_nil_r|].
  apply NoDup_cons in Hnd as [Hi Hnd]. pose proof (timeout_due s (t, i) at_ns) as Hd.
  pose proof (timeout_other s (t, i)) as Ho.
  destruct (record_timeout s (t, i) at_ns) as [b s'] eqn:E. rewrite IH by done. cbn in Hd. subst b.
  assert (Hf : List.filter (fun i0 => due s' (t, i0)) idxs = List.filter (fun i0 => due s (t, i0)) idxs).
  { apply List.filter_ext_in. intros j Hj%list_elem_of_In. unfold due.
    specialize (Ho (t, j) at_ns). rewrite E in Ho. cbn in Ho. rewrite Ho; [done|]. intros [= ->]. done. }
  rewrite Hf. destruct (due s (t, i)); [by rewrite <- app_assoc|done].
Qed.

Lemma completion_other t at_ns done : forall rep s key, key ∉ ((fun d => (t, d.1)) <$> done) ->
  st_map (foldl (record_completion t at_ns) (rep, s) done).2 !! key = st_map s !! key.
Proof.
  induction done as [|[i b] done IH]; intros rep s key Hk; [done|]. cbn [foldl].
  rewrite fmap_cons, not_elem_of_cons in Hk. destruct Hk as [Hne Hk]. cbn in Hne.
  unfold record_completion at 2. destruct b; rewrite IH by done.
  - unfold record_success. destruct (st_map s !! (t, i)) as [[]|]; cbn [st_map]; [rewrite lookup_insert_ne by congruence; done..|done|by rewrite lookup_insert_ne by congruence].
  - unfold record_closed, record_unwired. cbn [st_map]. by rewrite lookup_insert_ne by congruence.
Qed.

(** ** Dropping *)

(** The senders of [slot], which starts at index [k], at the indices outside [un]. *)
Fixpoint keep_from (k : nat) (un : list nat) (slot : list ScopedSender) : list ScopedSender :=
  match slot with
  | [] => []
  | x :: slot => if bool_decide (k ∈ un) then keep_from (S k) un slot else x :: keep_from (S k) un slot
  end.

Lemma keep_from_below un i slot : forall k, (i < k)%nat -> keep_from k (i :: un) slot = keep_from k un slot.
Proof.
  induction slot as [|x slot IH]; intros k Hk; cbn; [done|]. rewrite IH by lia.
  assert (Hi : k ∈ i :: un <-> k ∈ un) by (rewrite elem_of_cons; split; [intros [->|?]; [lia|done]|auto]).
  by rewrite (bool_decide_ext _ _ Hi).
Qed.

Lemma keep_from_nil k slot : keep_from k [] slot = slot.
Proof. revert k. induction slot as [|x slot IH]; intros k; cbn; [done|]. by rewrite IH. Qed.

Lemma keep_from_remove un i slot : forall k, (k <= i < k + length slot)%nat -> Forall (fun j => i < j)%nat un ->
  let v := keep_from k un slot in
  (i - k < length v)%nat /\ take (i - k) v ++ drop (S (i - k)) v = keep_from k (i :: un) slot.
Proof.
  induction slot as [|x slot IH]; intros k Hk Hun; cbn [length] in Hk; [lia|].
  assert (Hkun : k ∉ un) by (rewrite Forall_forall in Hun; intros Hin; specialize (Hun k Hin); lia).
  cbn [keep_from]. rewrite (bool_decide_false _ Hkun). destruct (decide (k = i)) as [->|Hne].
  - rewrite Nat.sub_diag, bool_decide_true by left. cbn. split; [lia|]. rewrite drop_0. symmetry. apply keep_from_below. lia.
  - rewrite bool_decide_false by (intros [->|?]%elem_of_cons; done). destruct (IH (S k)) as [Hl Hv]; [lia|done|].
    replace (i - k)%nat with (S (i - S k)) by lia. cbn. split; [lia|]. by rewrite <- Hv.
Qed.

Lemma drop_indices_cons slot i un :
  drop_indices slot (i :: un) =
  let v := drop_indices slot un in if (i <? length v)%nat then take i v ++ drop (S i) v else v.
Proof. unfold drop_indices. cbn [rev]. by rewrite foldl_app. Qed.

(** Dropping increasing indices from the last down keeps the others. *)
Lemma drop_indices_keep slot un :
  StronglySorted lt un -> Forall (fun i => i < length slot)%nat un -> drop_indices slot un = keep_from 0 un slot.
Proof.
  induction un as [|i un IH]; intros Hs Hlt; [by rewrite keep_from_nil|].
  apply StronglySorted_inv in Hs as [Hs Hi]. apply Forall_cons in Hlt as [Hil Hlt].
  rewrite drop_indices_cons. cbn zeta. rewrite IH by done. destruct (keep_from_remove un i slot 0) as [Hl Hv]; [lia|done|].
  rewrite Nat.sub_0_r in Hl, Hv. by rewrite (proj2 (Nat.ltb_lt _ _) Hl).
Qed.

Lemma seq_sorted n : forall k, StronglySorted lt (List.seq k n).
Proof.
  induction n as [|n IH]; intros k; cbn; constructor; [done|]. rewrite Forall_forall. intros i Hi%list_elem_of_In%in_seq. lia.
Qed.

Lemma filter_sorted_lt (f : nat -> bool) l : StronglySorted lt l -> StronglySorted lt (List.filter f l).
Proof.
  induction 1 as [|i l Hs IH Hi]; cbn; [constructor|]. destruct (f i); [constructor|]; try done.
  rewrite Forall_forall in *. intros j Hj%list_elem_of_In. apply filter_In in Hj as [Hj _]. by apply Hi, list_elem_of_In.
Qed.

Lemma pending_nodup n done : NoDup (pending_of n done).
Proof. apply NoDup_ListNoDup, List.NoDup_filter, seq_NoDup. Qed.

(** The senders a publication unwires: those it waited for in vain once too often. *)
Definition dropped (s : SubscriberStatusTable) (t : EventTypeId) (n : nat) (done : list (nat * bool)) : list nat :=
  List.filter (fun i => due s (t, i)) (pending_of n done).

Lemma publish_shape b t at_ns done x senders :
  routing b !! slot_idx t = Some (x :: senders) ->
  exists s, publish_reliable b t at_ns done =
    (mkReport (outcomes true done) (Z.of_nat (length (pending_of (S (length senders)) done))) (outcomes false done),
     mkBus (<[slot_idx t := keep_from 0 (dropped (bus_status b) t (S (length senders)) done) (x :: senders)]> (routing b)) s).
Proof.
  intros Hr. unfold publish_reliable. rewrite Hr. change (List.filter _ _) with (pending_of (length (x :: senders)) done).
  set (n := length (x :: senders)). set (p := pending_of n done).
  pose proof (completions_report t at_ns done (mkReport 0 0 0) (bus_status b)) as Hrep.
  pose proof (completion_other t at_ns done (mkReport 0 0 0) (bus_status b)) as Hst.
  destruct (foldl (record_completion t at_ns) (mkReport 0 0 0, bus_status b) done) as [rep s1]. cbn in Hrep, Hst. subst rep.
  set (rep := mkReport _ _ _). pose proof (timeouts_report t at_ns p rep s1 []) as Hr2.
  pose proof (timeouts_unwired t at_ns p rep s1 [] (pending_nodup n done)) as Hun.
  destruct (record_timeouts t at_ns p (rep, s1, [])) as [[rep' s2] un]. cbn [fst snd app] in Hr2, Hun. subst rep' un.
  assert (Hdue : List.filter (fun i => due s1 (t, i)) p = dropped (bus_status b) t n done).
  { apply List.filter_ext_in. intros i Hi. unfold due. rewrite Hst; [done|]. unfold p, pending_of in Hi.
    apply filter_In in Hi as [_ Hi]. apply negb_true_iff, bool_decide_eq_false in Hi.
    intros (d & [= ->] & Hd)%list_elem_of_fmap. by apply Hi, list_elem_of_fmap_2. }
  change (S (length senders)) with n. rewrite Hdue. exists s2. f_equal.
  f_equal. rewrite drop_indices_keep.
  - destruct (dropped (bus_status b) t n done) eqn:E; [|done]. rewrite keep_from_nil. by rewrite list_insert_id.
  - by apply filter_sorted_lt, filter_sorted_lt, seq_sorted.
  - rewrite Forall_forall. intros i Hi%list_elem_of_In. do 2 apply filter_In in Hi as [Hi _]. apply in_seq in Hi. unfold n in *. lia.
Qed.

(** ** Theorems *)

(** A reliable publication counts every subscriber exactly once -- delivered, closed
    or timed out -- and removes from the route exactly the subscribers it waited for
    in vain whose timeouts in a row reach the limit, keeping the order of the others. *)
Theorem reliable_publish_accounts (b : ObservationBus) (t : EventTypeId) (at_ns : Z) (done : list (nat * bool))
    (x : ScopedSender) (senders : list ScopedSender)
    (Hr : routing b !! slot_idx t = Some (x :: senders))
    (Hnd : NoDup done.*1) (Hlt : Forall (fun d => (d.1 < S (length senders))%nat) done) :
  let '(rep, b') := publish_reliable b t at_ns done in
  delivered rep = outcomes true done /\ closed rep = outcomes false done
  /\ delivered rep + closed rep + timed_out rep = Z.of_nat (S (length senders))
  /\ routing b' !! slot_idx t = Some (keep_from 0 (dropped (bus_status b) t (S (length senders)) done) (x :: senders))
  /\ (forall k, k <> slot_idx t -> routing b' !! k = routing b !! k).
Proof.
  destruct (publish_shape b t at_ns done x senders Hr) as [s ->]. cbn [delivered closed timed_out routing].
  pose proof (pending_length (S (length senders)) done Hnd Hlt). pose proof (outcomes_total done).
  split_and!; [done|done|lia| |].
  - apply list_lookup_insert_eq. by eapply lookup_lt_Some.
  - intros k Hk. by apply list_lookup_insert_ne.
Qed.

Lemma unwired_success s key key' : is_unwired s key -> is_unwired (record_success s key') key.
Proof.
  intros (r & a & n & l & H). unfold record_success. destruct (st_map s !! key') as [[]|] eqn:E; unfold is_unwired; cbn [st_map];
    try (destruct (decide (key' = key)) as [->|]; [congruence|rewrite lookup_insert_ne by done]); eauto.
Qed.

Lemma unwired_closed s key key' at_ns : is_unwired s key -> is_unwired (record_closed s key' at_ns) key.
Proof.
  intros (r & a & n & l & H). unfold record_closed, record_unwired, is_unwired. cbn [st_map].
  destruct (decide (key' = key)) as [->|]; [rewrite lookup_insert_eq; eauto|rewrite lookup_insert_ne by done; eauto].
Qed.

Lemma unwired_timeout s key key' at_ns : is_unwired s key -> is_unwired (record_timeout s key' at_ns).2 key.
Proof.
  intros (r & a & n & l & H). unfold is_unwired. destruct (decide (key' = key)) as [->|Hne].
  - unfold record_timeout. rewrite H. cbn. eauto.
  - rewrite timeout_other by done. eauto.
Qed.

Lemma unwired_publish b t t' i at_ns done :
  is_unwired (bus_status b) (t, i) -> is_unwired (bus_status (publish_reliable b t' at_ns done).2) (t, i).
Proof.
  intros H. unfold publish_reliable. destruct (routing b !! slot_idx t') as [[|x senders]|]; [done| |done].
  assert (Hc : forall ds rep s, is_unwired s (t, i) -> is_unwired (foldl (record_completion t' at_ns) (rep, s) ds).2 (t, i)).
  { clear. induction ds as [|[j []] ds IH]; intros rep s Hs; cbn [foldl]; [exact Hs| |]; unfold record_completion at 2;
      apply IH; [by apply unwired_success|by apply unwired_closed]. }
  assert (Ht : forall idxs rep s un, is_unwired s (t, i) -> is_unwired (record_timeouts t' at_ns idxs (rep, s, un)).1.2 (t, i)).
  { clear. induction idxs as [|j idxs IH]; intros rep s un Hs; cbn [record_timeouts]; [done|].
    pose proof (unwired_timeout s (t, i) (t', j) at_ns Hs) as Hs'. destruct (record_timeout s (t', j) at_ns) as [b s']. by apply IH. }
  specialize (Hc done (mkReport 0 0 0) _ H). destruct (foldl _ _ done) as [rep s]. cbn in Hc.
  set (p := List.filter _ _). specialize (Ht p rep s [] Hc). destruct (record_timeouts t' at_ns p (rep, s, [])) as [[rep' s'] un]. exact Ht.
Qed.

(** A sequence of reliable publications of one type. *)
Definition publish_all (b : ObservationBus) (t : EventTypeId) (ps : list (Z * list (nat * bool))) : ObservationBus :=
  foldl (fun b '(at_ns, done) => (publish_reliable b t at_ns done).2) b ps.

(** An index whose status is [Unwired] -- because the subscriber that had it was
    dropped, and the next one moved down to it -- is never dropped again: however many
    publications its subscriber lets time out, the route does not change. *)
Theorem unwired_index_is_never_dropped (b : ObservationBus) (t : EventTypeId) (senders : list ScopedSender)
    (ps : list (Z * list (nat * bool)))
    (Hr : routing b !! slot_idx t = Some senders)
    (Hu : forall i, (i < length senders)%nat -> is_unwired (bus_status b) (t, i)) :
  routing (publish_all b t ps) = routing b.
Proof.
  revert b Hr Hu. induction ps as [|[at_ns ds] ps IH]; intros b Hr Hu; [done|]. cbn [publish_all foldl].
  change (foldl _ ?b ps) with (publish_all b t ps).
  assert (Hsame : routing (publish_reliable b t at_ns ds).2 = routing b).
  { destruct senders as [|x senders]; [unfold publish_reliable; by rewrite Hr|].
    destruct (publish_shape b t at_ns ds x senders Hr) as [s ->]. cbn [routing snd].
    assert (dropped (bus_status b) t (S (length senders)) ds = []) as ->; [|rewrite keep_from_nil; by apply list_insert_id].
    unfold dropped. destruct (List.filter _ _) as [|i l] eqn:E; [done|]. exfalso.
    assert (Hi : In i (i :: l)) by (by left). rewrite <- E in Hi. apply filter_In in Hi as [Hi Hd].
    unfold pending_of in Hi. apply filter_In in Hi as [Hi _]. apply in_seq in Hi.
    destruct (Hu i) as (r & a & n & k & Hs); [cbn; lia|]. unfold due in Hd. by rewrite Hs in Hd. }
  rewrite <- Hsame. apply IH; [by rewrite Hsame|]. intros i Hi. by apply unwired_publish, Hu.
Qed.

(** Two subscribers of one type; the first stops reading, is unwired after eight
    publications, and the second takes its index. *)
Definition demo_type : EventTypeId := ECore FlowClosed.
Definition demo_bus : ObservationBus :=
  publish_all (wire_subscriber (wire_subscriber bus_new demo_type 1) demo_type 2) demo_type (replicate 8 (5, [(1%nat, true)])).

Example demo_first_unwired : routing demo_bus !! slot_idx demo_type = Some [mkSender 2 0].
Proof. vm_compute. reflexivity. Qed.

(** The second subscriber stops reading too, and is never unwired. *)
Lemma unwired_index_is_never_dropped_witness :
  bus_publish (publish_all demo_bus demo_type (replicate 1000 (6, []))) demo_type = [2%nat].
Proof.
  unfold bus_publish. rewrite (unwired_index_is_never_dropped demo_bus demo_type [mkSender 2 0] (replicate 1000 (6, []))).
  - vm_compute. reflexivity.
  - vm_compute. reflexivity.
  - intros [|i] Hi; [|cbn in Hi; lia]. eexists _, _, _, _. vm_compute. reflexivity.
Defined.

Lemma reliable_publish_accounts_witness :
  let b := wire_subscriber (wire_subscriber bus_new demo_type 1) demo_type 2 in
  let '(rep, b') := publish_reliable b demo_type 5 [(1%nat, true)] in
  delivered rep = 1 /\ closed rep = 0 /\ delivered rep + closed rep + timed_out rep = 2.
Proof.
  intros b.
  assert (H := reliable_publish_accounts b demo_type 5 [(1%nat, true)] (mkSender 1 0) [mkSender 2 0]).
  destruct (publish_reliable b demo_type 5 [(1%nat, true)]) as [rep b'] eqn:E.
  destruct H as (H1 & H2 & H3 & _).
  - reflexivity.
  - repeat constructor. by intros ?%elem_of_nil.
  - repeat constructor.
  - split; [exact H1|]. split; [exact H2|]. exact H3.
Defined.
