(* ===== verification/Health.v ===== *)
(** Health of exits (lib/mb-health/src/lib.rs, kernel/health_observer.rs,
    kernel/health_snapshot.rs): sliding windows of samples, the table of failures and
    the snapshot the dispatcher reads. *)
From S2P Require Import Prelude Numbers LoadBalance DispatchTypes Dispatch Floats Observation.
Local Open Scope Z_scope.

(** ** Integers *)

(** [x as i64], and what [+] and [-] wrap to *)
Definition as_i64 (z : Z) : Z := let u := z mod 2 ^ 64 in if u <? 2 ^ 63 then u else u - 2 ^ 64.

(** ** Windows *)

Record HealthWindow := mkWindow {
  capacity : nat;
  rtts : list Z;
  outcome_samples : list bool;
  rtt_ewma : option Z;
  jitter_ewma : option Z;
  byte_samples : list (Z * Z)
}.

Definition window_new (capacity : nat) : HealthWindow := mkWindow capacity [] [] None None [].

(** [if q.len() == capacity { q.pop_front(); } q.push_back(x)] *)
Definition push_capped {A} (cap : nat) (q : list A) (x : A) : list A :=
  (if (length q =? cap)%nat then tail q else q) ++ [x].

(** [let updated = prev + (new - prev) / 8; updated.max(0) as u64] *)
Definition ewma_step (prev : option Z) (x : Z) : Z :=
  match prev with
  | None => x
  | Some prev =>
      let p := as_i64 prev in
      let n := as_i64 x in
      Z.max (as_i64 (p + Z.quot (as_i64 (n - p)) 8)) 0
  end.

Definition record_rtt (w : HealthWindow) (rtt_ms : Z) : HealthWindow :=
  let mean := ewma_step (rtt_ewma w) rtt_ms in
  let new_dev := Z.abs (as_i64 (as_i64 rtt_ms - as_i64 mean)) in
  mkWindow (capacity w) (push_capped (capacity w) (rtts w) rtt_ms) (outcome_samples w) (Some mean)
    (Some (ewma_step (jitter_ewma w) new_dev)) (byte_samples w).

Definition record_outcome (w : HealthWindow) (success : bool) : HealthWindow :=
  mkWindow (capacity w) (rtts w) (push_capped (capacity w) (outcome_samples w) success) (rtt_ewma w) (jitter_ewma w)
    (byte_samples w).

Definition sample_count (w : HealthWindow) : nat := length (rtts w).
Definition mean_rtt_ms (w : HealthWindow) : Z := default 0 (rtt_ewma w).
Definition window_jitter_ms (w : HealthWindow) : Z := default 0 (jitter_ewma w).

Definition record_payload (w : HealthWindow) (payload_bytes at_ms : Z) : HealthWindow :=
  mkWindow (capacity w) (rtts w) (outcome_samples w) (rtt_ewma w) (jitter_ewma w)
    (push_capped (capacity w) (byte_samples w) (at_ms, payload_bytes)).

Definition window_goodput_bps (w : HealthWindow) : Z :=
  match byte_samples w, last (byte_samples w) with
  | (first_t, _) :: _ :: _, Some (last_t, _) =>
      if last_t <=? first_t then 0
      else Z.min (as_u64 (foldr Z.add 0 (snd <$> byte_samples w)) * 1000) u64_max / (last_t - first_t)
  | _, _ => 0
  end.

Definition success_rate (w : HealthWindow) : F64 :=
  match outcome_samples w with
  | [] => f64_of_z 1
  | os => f64_div (f64_of_z (Z.of_nat (length (List.filter (fun x => x) os)))) (f64_of_z (Z.of_nat (length os)))
  end.

(** ** The failure table *)

Record HealthPolicy := mkPolicy { failure_threshold : Z; recovery_window_ms : Z; probe_after_ms : Z }.
Definition health_policy_default : HealthPolicy := mkPolicy 2 60000 1000.

Record ExitHealth := mkExitHealth { failures : Z; last_failure_ms : Z; last_success_ms : Z }.

Record ExitHealthTable := mkTable { policy : HealthPolicy; exits : gmap string ExitHealth }.
Definition table_new (p : HealthPolicy) : ExitHealthTable := mkTable p ∅.

Definition can_dispatch (t : ExitHealthTable) (exit_id : string) (now_ms : Z) : bool :=
  match exits t !! exit_id with
  | None => true
  | Some h =>
      if failures h <? failure_threshold (policy t) then true
      else probe_after_ms (policy t) <=? saturating_sub now_ms (last_failure_ms h)
  end.

Definition health_record (t : ExitHealthTable) (exit_id : string) (success : bool) (now_ms : Z) : ExitHealthTable :=
  let h := default (mkExitHealth 0 0 0) (exits t !! exit_id) in
  let h := if success then mkExitHealth 0 (last_failure_ms h) now_ms
           else
             let fs := if recovery_window_ms (policy t) <? saturating_sub now_ms (last_failure_ms h) then 0 else failures h in
             mkExitHealth (Z.min (fs + 1) 255) now_ms (last_success_ms h) in
  mkTable (policy t) (<[exit_id := h]> (exits t)).

(** ** The observer and its snapshot *)

Inductive Sample := Success (exit_id : string) (at_ms : Z) | Failure (exit_id : string) (at_ms : Z).

Definition health_sample (e : EventEnvelope) : option Sample :=
  let p := env_payload e in
  exit_id ← match o_selected_exit p with Some x => Some x | None => o_exit_id p end;
  match env_type e with
  | ECore FlowClosed => Some (if default true (o_success p) then Success exit_id (o_at_ms p) else Failure exit_id (o_at_ms p))
  | ECore PathIoError => Some (Failure exit_id (o_at_ms p))
  | _ => None
  end.

Definition publish_health (t : ExitHealthTable) (exit_ids : list string) (now_ms : Z) : gset string :=
  list_to_set (List.filter (fun id => negb (can_dispatch t id now_ms)) exit_ids).

(** The drainer: the table and the snapshot it last published. *)
Definition drain_sample (exit_ids : list string) (st : ExitHealthTable * gset string) (s : Sample)
  : ExitHealthTable * gset string :=
  match s with
  | Success id at_ms => let t := health_record st.1 id true at_ms in (t, publish_health t exit_ids at_ms)
  | Failure id at_ms => let t := health_record st.1 id false at_ms in (t, publish_health t exit_ids at_ms)
  end.

Definition drain (p : HealthPolicy) (exit_ids : list string) (ss : list Sample) : ExitHealthTable * gset string :=
  foldl (drain_sample exit_ids) (table_new p, ∅) ss.

(** ** Invariants of windows *)

Definition window_ok (w : HealthWindow) : Prop :=
  (length (rtts w) <= capacity w)%nat /\ (length (outcome_samples w) <= capacity w)%nat
  /\ (length (byte_samples w) <= capacity w)%nat /\ (0 < capacity w)%nat.

Lemma push_capped_length {A} cap (q : list A) x :
  (length q <= cap)%nat -> (0 < cap)%nat -> (length (push_capped cap q x) <= cap)%nat.
Proof.
  intros Hq Hc. unfold push_capped. rewrite length_app. cbn [length]. destruct (Nat.eqb_spec (length q) cap) as [E|]; [|lia].
  destruct q; cbn in *; lia.
Qed.

Lemma window_ok_record w rtt ok pb at_ms :
  window_ok w -> window_ok (record_rtt w rtt) /\ window_ok (record_outcome w ok) /\ window_ok (record_payload w pb at_ms).
Proof.
  intros (H1 & H2 & H3 & H4). unfold window_ok. cbn. split_and!; try done; by apply push_capped_length.
Qed.

(** The smoothed value stays between the previous one and the sample. *)
Lemma ewma_between prev x lo hi :
  0 <= lo -> hi < 2 ^ 62 -> lo <= x <= hi -> (forall p, prev = Some p -> lo <= p <= hi) -> lo <= ewma_step prev x <= hi.
Proof.
  intros Hlo Hhi Hx Hp. destruct prev as [p|]; cbn [ewma_step]; [|done]. specialize (Hp p eq_refl).
  assert (Hid : forall z, - 2 ^ 63 <= z < 2 ^ 63 -> as_i64 z = z).
  { intros z Hz. unfold as_i64. destruct (Z.ltb_spec (z mod 2 ^ 64) (2 ^ 63)).
    - destruct (Z.le_gt_cases 0 z); [by rewrite Z.mod_small by lia|].
      rewrite <- (Z.mod_add z 1 (2 ^ 64)), Z.mod_small in H by lia. lia.
    - destruct (Z.le_gt_cases 0 z); [rewrite Z.mod_small in H by lia; lia|].
      rewrite <- (Z.mod_add z 1 (2 ^ 64)), Z.mod_small by lia. lia. }
  rewrite !(Hid p), !(Hid x), (Hid (x - p)) by lia.
  pose proof (Z.quot_rem' (x - p) 8). pose proof (Z.rem_bound_abs (x - p) 8).
  assert (Hq : (0 <= x - p -> 0 <= Z.quot (x - p) 8 <= x - p) /\ (x - p <= 0 -> x - p <= Z.quot (x - p) 8 <= 0)).
  { split; intros Hs; [pose proof (Z.rem_nonneg (x - p) 8)|pose proof (Z.rem_nonpos (x - p) 8)]; lia. }
  rewrite Hid by lia. lia.
Qed.

(** * What the tables guarantee *)

Local Open Scope Z_scope.

(** ** The recent samples of one exit, newest first *)

Definition sample_of (id : string) (s : Sample) : option (bool * Z) :=
  match s with
  | Success x t => if decide (x = id) then Some (true, t) else None
  | Failure x t => if decide (x = id) then Some (false, t) else None
  end.

Definition recent (id : string) (ss : list Sample) : list (bool * Z) := rev (omap (sample_of id) ss).

(** Failures in a row, none later than the recovery window after the one before. *)
Fixpoint run (recovery : Z) (l : list (bool * Z)) : nat :=
  match l with
  | (false, t) :: rest =>
      match rest with
      | (false, t') :: _ => if recovery <? saturating_sub t t' then 1%nat else S (run recovery rest)
      | _ => 1%nat
      end
  | _ => 0%nat
  end.

Fixpoint last_failure (l : list (bool * Z)) : Z :=
  match l with [] => 0 | (false, t) :: _ => t | (true, _) :: l => last_failure l end.

Record failing (recovery : Z) (l : list (bool * Z)) : Prop := {
  fl_failed : Forall (fun s => s.1 = false) l;
  fl_gaps : forall i a b, l !! i = Some a -> l !! S i = Some b -> saturating_sub a.2 b.2 <= recovery
}.

Lemma failing_cons recovery s l :
  failing recovery (s :: l) <->
  s.1 = false /\ failing recovery l /\ (forall b, l !! 0%nat = Some b -> saturating_sub s.2 b.2 <= recovery).
Proof.
  split.
  - intros [H1 H2]. apply Forall_cons in H1 as [Hs H1]. split_and!; [done| |].
    + split; [done|]. intros i a b Ha Hb. apply (H2 (S i)); done.
    + intros b Hb. by apply (H2 0%nat).
  - intros (Hs & [H1 H2] & H0). split; [by constructor|]. intros [|i] a b Ha Hb; cbn in *; [injection Ha as <-; auto|eauto].
Qed.

(** The run is the longest failing prefix. *)
Lemma run_iff recovery l : forall n, (n <= run recovery l)%nat <-> (n <= length l)%nat /\ failing recovery (take n l).
Proof.
  induction l as [|[ok t] l IH]; intros n.
  - cbn. split; [intros; assert (n = 0%nat) as -> by lia|lia]. split; [done|]. split; [constructor|by intros [] ?].
  - destruct n as [|n]; [split; [intros _; split; [lia|]; split; [constructor|by intros [] ?]|lia]|].
    cbn [take length]. rewrite failing_cons. cbn [fst snd]. destruct ok.
    { split; [cbn; lia|]. by intros [_ [? _]]. }
    cbn [run]. destruct l as [|[ok' t'] l].
    { cbn. split; [intros; assert (n = 0%nat) as -> by lia|lia]. split_and!; [lia|done| |done]. split; [constructor|by intros [] ?]. }
    destruct ok'.
    { split; [intros; assert (n = 0%nat) as -> by lia|].
      - split_and!; [lia|done| |done]. cbn. split; [constructor|by intros [] ?].
      - intros (_ & _ & [Hf _] & _). destruct n; [lia|]. cbn in Hf. by apply Forall_cons in Hf as [? _]. }
    destruct (Z.ltb_spec recovery (saturating_sub t t')) as [Hgap|Hgap].
    + split; [intros; assert (n = 0%nat) as -> by lia|].
      * split_and!; [lia|done| |done]. cbn. split; [constructor|by intros [] ?].
      * intros (_ & _ & _ & Hg). destruct n; [lia|]. specialize (Hg (false, t') eq_refl). cbn in Hg. lia.
    + rewrite <- Nat.succ_le_mono, (IH n). split; [|naive_solver lia].
      intros [Hl Hf]. split_and!; [lia|done|done|]. intros b Hb. destruct n; [done|]. cbn in Hb. by injection Hb as <-.
Qed.

(** ** The table is the history *)

Definition entry_ok (p : HealthPolicy) (l : list (bool * Z)) (h : option ExitHealth) : Prop :=
  match h with
  | None => l = []
  | Some h => l <> [] /\ failures h = Z.min (Z.of_nat (run (recovery_window_ms p) l)) 255 /\ last_failure_ms h = last_failure l
  end.

Lemma run_cons_failure recovery l t :
  run recovery ((false, t) :: l) =
  S (if (run recovery l =? 0)%nat || (recovery <? saturating_sub t (last_failure l)) then 0 else run recovery l).
Proof.
  destruct l as [|[[] t'] l]; [done|done|]. cbn [last_failure].
  assert (Hpos : run recovery ((false, t') :: l) <> 0%nat)
    by (cbn; destruct l as [|[[] ?] ?]; try done; by destruct (_ <? _)).
  apply Nat.eqb_neq in Hpos. rewrite Hpos. cbn [orb]. remember ((false, t') :: l) as l' eqn:E. cbn [run]. rewrite E at 1.
  by destruct (recovery <? saturating_sub t t').
Qed.

Lemma record_entry p t id ok now l :
  policy t = p -> entry_ok p l (exits t !! id) ->
  entry_ok p ((ok, now) :: l) (exits (health_record t id ok now) !! id).
Proof.
  intros Hp Hl. unfold health_record. cbn [exits]. rewrite lookup_insert_eq. unfold entry_ok.
  assert (Hd : let h := default (mkExitHealth 0 0 0) (exits t !! id) in
    failures h = Z.min (Z.of_nat (run (recovery_window_ms p) l)) 255 /\ last_failure_ms h = last_failure l).
  { destruct (exits t !! id) as [h|]; cbn in Hl |- *; [tauto|]. by subst l. }
  destruct Hd as [Hf Hlast]. destruct ok; cbn [failures last_failure_ms last_failure]; (split; [done|]); [split; [done|done]|].
  split; [|done]. rewrite run_cons_failure, Hp, <- Hlast. rewrite Hf.
  destruct (Nat.eqb_spec (run (recovery_window_ms p) l) 0) as [E|]; cbn [orb]; [rewrite E; destruct (_ <? _); cbn; lia|].
  destruct (_ <? _); lia.
Qed.

Lemma recent_snoc id ss s :
  recent id (ss ++ [s]) = match sample_of id s with Some x => x :: recent id ss | None => recent id ss end.
Proof. unfold recent. rewrite omap_app. cbn [omap list_omap]. destruct (sample_of id s); rewrite ?app_nil_r; [by rewrite rev_app_distr|done]. Qed.

Definition sample_exit (s : Sample) : string := match s with Success x _ | Failure x _ => x end.
Definition sample_ok (s : Sample) : bool := match s with Success _ _ => true | Failure _ _ => false end.
Definition sample_at (s : Sample) : Z := match s with Success _ t | Failure _ t => t end.

Lemma drain_snoc p ids ss s :
  drain p ids (ss ++ [s]) =
  let t := health_record (drain p ids ss).1 (sample_exit s) (sample_ok s) (sample_at s) in (t, publish_health t ids (sample_at s)).
Proof. unfold drain. rewrite foldl_app. cbn [foldl]. by destruct s. Qed.

Lemma drain_entries p ids ss : policy (drain p ids ss).1 = p /\ forall id, entry_ok p (recent id ss) (exits (drain p ids ss).1 !! id).
Proof.
  induction ss as [|s ss [Hp He]] using rev_ind; [done|]. rewrite drain_snoc. cbn [fst]. split; [done|].
  intros id. rewrite recent_snoc. destruct (decide (sample_exit s = id)) as [<-|Hne].
  - assert (sample_of (sample_exit s) s = Some (sample_ok s, sample_at s)) as -> by (destruct s; cbn; by rewrite decide_True).
    by apply record_entry.
  - assert (sample_of id s = None) as -> by (destruct s; cbn in *; by rewrite decide_False).
    unfold health_record. cbn [exits]. rewrite lookup_insert_ne by done. apply He.
Qed.

Lemma can_dispatch_run p ids ss id now :
  1 <= failure_threshold p <= 255 ->
  can_dispatch (drain p ids ss).1 id now = false <->
  (Z.to_nat (failure_threshold p) <= run (recovery_window_ms p) (recent id ss))%nat
  /\ saturating_sub now (last_failure (recent id ss)) < probe_after_ms p.
Proof.
  intros Hth. destruct (drain_entries p ids ss) as [Hp He]. specialize (He id). unfold can_dispatch. rewrite Hp.
  destruct (exits (drain p ids ss).1 !! id) as [h|]; cbn in He; [|rewrite He; cbn; split; [done|lia]].
  destruct He as (_ & Hf & Hl). rewrite <- Hl. destruct (Z.ltb_spec (failures h) (failure_threshold p)).
  - split; [done|]. lia.
  - rewrite Z.leb_gt. split; [|tauto]. intros ?. split; [|done]. lia.
Qed.

Lemma drain_snapshot p ids ss s :
  (drain p ids (ss ++ [s])).2 = publish_health (drain p ids (ss ++ [s])).1 ids (sample_at s).
Proof. by rewrite drain_snoc. Qed.

Lemma elem_of_publish t ids now id : id ∈ publish_health t ids now <-> id ∈ ids /\ can_dispatch t id now = false.
Proof. unfold publish_health. by rewrite elem_of_list_to_set, list_elem_of_In, filter_In, <- list_elem_of_In, negb_true_iff. Qed.

(** After a sample is drained, the published snapshot holds exactly the configured
    exits whose newest [failure_threshold] samples are all failures, each within the
    recovery window of the one before, with the last failure less than
    [probe_after_ms] before that sample. *)
Theorem snapshot_holds_failing_exits (p : HealthPolicy) (ids : list string) (ss : list Sample) (s : Sample) (id : string)
    (Hth : 1 <= failure_threshold p <= 255) :
  let l := recent id (ss ++ [s]) in
  let n := Z.to_nat (failure_threshold p) in
  id ∈ (drain p ids (ss ++ [s])).2 <->
  id ∈ ids /\ ((n <= length l)%nat /\ failing (recovery_window_ms p) (take n l))
  /\ saturating_sub (sample_at s) (last_failure l) < probe_after_ms p.
Proof. cbn zeta. by rewrite drain_snapshot, elem_of_publish, can_dispatch_run, run_iff. Qed.

(** The snapshot only changes with a sample: once an exit is in it, the exit stays out
    of the dispatcher's choice after its probe delay has passed, although the table
    would allow the probe; and when every exit of a route group is in the snapshot, a
    flow of that group has no candidate at all. *)
Theorem probe_waits_for_a_sample (p : HealthPolicy) (ids : list string) (ss : list Sample) (id : string) (now : Z)
    (Hth : 1 <= failure_threshold p <= 255)
    (Hin : id ∈ (drain p ids ss).2)
    (Hnow : last_failure (recent id ss) + probe_after_ms p <= now)
    (cc : CompiledCandidates) (fs : FlowSemantics) (g : string)
    (Hg : forall c, c ∈ bucket cc fs -> g ∈ cc_groups c -> cc_exit_id c ∈ (drain p ids ss).2) :
  can_dispatch (drain p ids ss).1 id now = true
  /\ healthy_candidates cc (drain p ids ss).2 fs (Some g) None = ([], []).
Proof.
  split.
  - destruct (can_dispatch _ _ _) eqn:E; [done|]. apply can_dispatch_run in E as [_ E]; [|done]. unfold saturating_sub in E. lia.
  - unfold healthy_candidates. destruct (List.filter _ _) as [|c l] eqn:E; [done|]. exfalso.
    assert (Hc : In c (c :: l)) by (by left). rewrite <- E in Hc. apply filter_In in Hc as [Hc Hm].
    apply andb_prop in Hm as [Hm Hu]. apply negb_true_iff, bool_decide_eq_false in Hu. apply Hu, Hg; [by apply list_elem_of_In|].
    unfold cand_matches in Hm. cbn in Hm. apply existsb_exists in Hm as (g' & Hg' & E'). apply bool_decide_eq_true in E' as ->.
    by apply list_elem_of_In.
Qed.

(** ** A single exit that fails twice *)

Definition demo_samples : list Sample := [Success "wan" 100; Failure "wan" 200; Failure "wan" 300].

Lemma snapshot_holds_failing_exits_witness : "wan"%string ∈ (drain health_policy_default ["wan"%string] demo_samples).2.
Proof.
  apply (snapshot_holds_failing_exits health_policy_default ["wan"%string] [Success "wan" 100; Failure "wan" 200] (Failure "wan" 300) "wan").
  - cbn. lia.
  - split; [left|]. split; [|vm_compute; reflexivity]. split; [vm_compute; lia|]. split; [repeat constructor|].
    intros [|[|i]] a b Ha Hb; vm_compute in Ha, Hb; try done. injection Ha as <-. injection Hb as <-. vm_compute. discriminate.
Defined.

Lemma probe_waits_for_a_sample_witness :
  let cc := from_egresses [("wan"%string, mkCapabilities "tcp" true false None ["web"%string])] in
  healthy_candidates cc (drain health_policy_default ["wan"%string] demo_samples).2 ByteStream (Some "web"%string) None = ([], []).
Proof.
  intros cc. apply (probe_waits_for_a_sample health_policy_default ["wan"%string] demo_samples "wan" 1000000).
  - cbn. lia.
  - apply (bool_decide_unpack _). vm_compute. exact I.
  - vm_compute. discriminate.
  - intros c Hc _. vm_compute in Hc. apply elem_of_cons in Hc as [->|Hc]; [|by apply elem_of_nil in Hc].
    apply (bool_decide_unpack _). vm_compute. exact I.
Defined.
