(* ===== verification/Schedulers.v ===== *)
(** The scheduler plugins (crates/mesh-bus-scheduler-replicate, -cake,
    -loadbalance, with lib/mb-cost and lib/mb-cake): what the dispatcher calls through [SchedulerPlugin].  The state of
    a plugin is the world its functions act on; its clock is a number beside it. *)
From Stdlib Require Import Sorted.
From S2P Require Import Prelude Numbers Endpoint NetAddr LoadBalance LoadBalanceFacts DispatchTypes Dispatch DispatchFacts.
From S2P Require Import Floats Observation Health.
Local Open Scope Z_scope.

(** ** Scores *)

Definition u64_sat_add (a b : Z) : Z := Z.min (a + b) u64_max.
Definition u64_sat_mul (a b : Z) : Z := Z.min (a * b) u64_max.

Record ScoreInputs := mkInputs {
  si_rtt_ms : Z;
  si_jitter_ms : Z;
  si_success_rate : F64;
  si_price_weight : Z;
  si_goodput_bps : option Z;
  si_capacity_bps : option Z
}.

Definition saturation_penalty (goodput_bps capacity_bps : option Z) : Z :=
  match goodput_bps, capacity_bps with
  | Some g, Some c =>
      if c =? 0 then 0
      else
        let util := f64_div (f64_of_z g) (f64_of_z c) in
        if SFltb util (f64_lit 70 100) then 0
        else f64_to_u64 (f64_mul (f_min (f64_div (f64_sub util (f64_lit 70 100)) (f64_lit 30 100)) (f64_of_z 1)) (f64_of_z 10000))
  | _, _ => 0
  end.

Definition score_compute (i : ScoreInputs) : Z :=
  if SFleb (si_success_rate i) (f64_of_z 0) then u64_max
  else
    let rtt := u64_sat_mul (si_rtt_ms i) (Z.max (si_price_weight i) 1) in
    let penalty := f64_to_u64 (f64_mul (f64_sub (f64_of_z 1) (si_success_rate i)) (f64_of_z 10000)) in
    u64_sat_add (u64_sat_add (u64_sat_add rtt (si_jitter_ms i)) penalty)
      (saturation_penalty (si_goodput_bps i) (si_capacity_bps i)).

Example score_examples :
  score_compute (mkInputs 20 5 (f64_of_z 1) 1 None None) = 25
  /\ score_compute (mkInputs 20 5 (f64_lit 9 10) 1 None None) = 1024
  /\ score_compute (mkInputs 20 5 (f64_of_z 0) 1 None None) = u64_max
  /\ score_compute (mkInputs 1 0 (f64_of_z 1) 0 (Some 85) (Some 100)) = 5001
  /\ score_compute (mkInputs 1 0 (f64_of_z 1) 0 (Some 200) (Some 100)) = 10001.
Proof. vm_compute. repeat split. Qed.

(** ** Ranking *)

Record ExitMetric := mkMetric {
  em_id : string;
  em_rtt_ms : Z;
  em_jitter_ms : Z;
  em_success_rate : F64;
  em_weight : Z;
  em_goodput_bps : option Z;
  em_capacity_bps : option Z
}.

(** A stable sort: [x] goes after the elements that are not greater. *)
Section Sort.
Context {A : Type} (leb : A -> A -> bool).

Fixpoint sort_insert (x : A) (l : list A) : list A :=
  match l with [] => [x] | y :: l' => if leb x y then x :: l else y :: sort_insert x l' end.

Definition sort_by (l : list A) : list A := foldr sort_insert [] l.

Lemma sort_insert_perm x l : sort_insert x l ≡ₚ x :: l.
Proof. induction l as [|y l IH]; cbn; [done|]. destruct (leb x y); [done|]. rewrite IH. by constructor. Qed.

Lemma sort_by_perm l : sort_by l ≡ₚ l.
Proof. induction l as [|x l IH]; cbn; [done|]. by rewrite sort_insert_perm, IH. Qed.

Hypothesis leb_total : forall a b, leb a b = true \/ leb b a = true.
Hypothesis leb_trans : forall a b c, leb a b = true -> leb b c = true -> leb a c = true.

Lemma sort_insert_sorted x l :
  StronglySorted (fun a b => leb a b = true) l -> StronglySorted (fun a b => leb a b = true) (sort_insert x l).
Proof.
  induction l as [|y l IH]; intros Hs; cbn; [repeat constructor|]. apply StronglySorted_inv in Hs as [Hs Hall].
  destruct (leb x y) eqn:E.
  - constructor; [by constructor|]. constructor; [done|]. eapply Forall_impl; [exact Hall|]. intros z. by apply leb_trans.
  - constructor; [by apply IH|]. rewrite sort_insert_perm. constructor; [|done]. destruct (leb_total x y); congruence.
Qed.

Lemma sort_by_sorted l : StronglySorted (fun a b => leb a b = true) (sort_by l).
Proof. induction l as [|x l IH]; cbn; [constructor|]. by apply sort_insert_sorted. Qed.
End Sort.

Section Rank.
(** [FxHasher::write] on the 64-bit state *)
Variable fx_write : Z -> list Z -> Z.

Definition tiebreaker (session_id exit_id : string) : Z :=
  fx_write (fx_write (fx_write 0 (bytes_of_string session_id)) (bytes_of_string "|")) (bytes_of_string exit_id).

Definition scored (price_weight : Z) (session_id : string) (m : ExitMetric) : Z * Z * string :=
  (score_compute (mkInputs (em_rtt_ms m) (em_jitter_ms m) (em_success_rate m) (Z.max price_weight 1)
                    (em_goodput_bps m) (em_capacity_bps m)),
   tiebreaker session_id (em_id m), em_id m).

(** [sa.cmp(sb).then(ta.cmp(tb))] is not [Greater] *)
Definition scored_leb (a b : Z * Z * string) : bool :=
  let '(sa, ta, _) := a in
  let '(sb, tb, _) := b in
  (sa <? sb) || (sa =? sb) && (ta <=? tb).

Definition rank (metrics : list ExitMetric) (session_id : string) (price_weight : Z) : list string :=
  snd <$> sort_by scored_leb (scored price_weight session_id <$> metrics).

Lemma rank_perm metrics session pw : rank metrics session pw ≡ₚ em_id <$> metrics.
Proof.
  unfold rank. rewrite sort_by_perm, <- list_fmap_compose. done.
Qed.

Lemma scored_leb_total a b : scored_leb a b = true \/ scored_leb b a = true.
Proof. destruct a as [[sa ta] ia], b as [[sb tb] ib]. cbn. lia. Qed.

Lemma scored_leb_trans a b c : scored_leb a b = true -> scored_leb b c = true -> scored_leb a c = true.
Proof. destruct a as [[sa ta] ia], b as [[sb tb] ib], c as [[sc tc] ic]. cbn. lia. Qed.

(** The first of a ranking has the least score, and among those the least hash. *)
Lemma rank_first metrics session pw x rest :
  rank metrics session pw = x :: rest ->
  exists m, m ∈ metrics /\ em_id m = x /\
    forall m', m' ∈ metrics -> scored_leb (scored pw session m) (scored pw session m') = true.
Proof.
  unfold rank. pose proof (sort_by_sorted scored_leb scored_leb_total scored_leb_trans (scored pw session <$> metrics)) as Hs.
  pose proof (sort_by_perm scored_leb (scored pw session <$> metrics)) as Hp.
  destruct (sort_by scored_leb _) as [|s l]; [done|]. intros [= <- _].
  assert (Hin : s ∈ scored pw session <$> metrics) by (rewrite <- Hp; left).
  apply list_elem_of_fmap in Hin as (m & -> & Hm). exists m. split_and!; [done|done|].
  intros m' Hm'. assert (Hin : scored pw session m' ∈ scored pw session m :: l) by (rewrite Hp; by apply list_elem_of_fmap_2).
  apply StronglySorted_inv in Hs as [_ Hall]. rewrite Forall_forall in Hall.
  apply elem_of_cons in Hin as [->|Hin]; [|by apply Hall]. destruct (scored_leb_total (scored pw session m) (scored pw session m)); done.
Qed.
End Rank.

(** * The schedulers *)

Local Open Scope Z_scope.

(** ** Replicate *)

Definition replicate_scheduler : @SchedulerPlugin unit :=
  {| schedule cands _ w := (Replicate (List.seq 0 (length cands)), w); score_for _ _ _ _ := 0 |}.

(** [candidates.iter().position(|c| c == x)] *)
Fixpoint str_position (x : string) (l : list string) : option nat :=
  match l with
  | [] => None
  | y :: l => if decide (y = x) then Some 0%nat else S <$> str_position x l
  end.

(** ** CAKE *)

Definition UNKNOWN_RTT_MS : Z := 10.

Record MetricSnapshot := mkMetricSnapshot {
  ms_rtt_ms : Z;
  ms_jitter_ms : Z;
  ms_success_rate : F64;
  ms_goodput_bps : option Z
}.

Record CakeScheduler := mkCake {
  windows : gmap string HealthWindow;
  snapshot : gmap string MetricSnapshot
}.

Definition cake_new : CakeScheduler := mkCake ∅ ∅.

Definition positive_goodput (g : option Z) : option Z :=
  match g with Some v => if 0 <? v then Some v else None | None => None end.

Definition metric_for (c : CakeScheduler) (id : string) : ExitMetric :=
  let m := snapshot c !! id in
  mkMetric id (from_option ms_rtt_ms UNKNOWN_RTT_MS m) (from_option ms_jitter_ms 0 m)
    (from_option ms_success_rate (f64_of_z 1) m) 1 (positive_goodput (m ≫= ms_goodput_bps)) None.

Definition window_snapshot (w : HealthWindow) : MetricSnapshot :=
  let g := window_goodput_bps w in
  mkMetricSnapshot (mean_rtt_ms w) (window_jitter_ms w) (success_rate w) (if 0 <? g then Some g else None).

Definition republish_snapshot (ws : gmap string HealthWindow) : gmap string MetricSnapshot := window_snapshot <$> ws.

Definition rank_config (ctx : RankContext) : Z := match c_traffic_class ctx with Bulk => 2 | _ => 1 end.

Definition cake_feedback (c : CakeScheduler) (exit_id : string) (ok : bool) (rtt_ms payload_bytes at_ms : Z) : CakeScheduler :=
  let w := default (window_new 64) (windows c !! exit_id) in
  let w := record_outcome (record_rtt w rtt_ms) ok in
  let w := if 0 <? payload_bytes then record_payload w payload_bytes at_ms else w in
  let ws := <[exit_id := w]> (windows c) in
  mkCake ws (republish_snapshot ws).

(** The sample an observed event carries, with the success assumed without one. *)
Definition feedback_sample (success_default : bool) (e : EventEnvelope) (c : CakeScheduler) : CakeScheduler :=
  let p := env_payload e in
  match match o_selected_exit p with Some x => Some x | None => o_exit_id p end with
  | None => c
  | Some exit_id =>
      cake_feedback c exit_id (default success_default (o_success p)) (o_rtt_ms p)
        (Z.max (o_bytes_out p) (o_payload_bytes p)) (o_at_ms p)
  end.

(** [SchedulerPlugin::on_observation] *)
Definition on_observation (c : CakeScheduler) (e : EventEnvelope) : CakeScheduler :=
  match env_type e with
  | ECore FlowOpened | ECore FlowClosed => feedback_sample true e c
  | ECore PathIoError => feedback_sample false e c
  | _ => c
  end.

(** [CakeFeedbackObserver::on_core_event], and the task that feeds the scheduler *)
Definition observer_on_core_event (c : CakeScheduler) (e : EventEnvelope) : CakeScheduler :=
  match env_type e with
  | ECore FlowClosed => feedback_sample true e c
  | ECore PathIoError => feedback_sample false e c
  | _ => c
  end.

Definition goodput_bps_for (c : CakeScheduler) (id : string) : option Z :=
  positive_goodput (snapshot c !! id ≫= ms_goodput_bps).

Section Cake.
Variable fx_write : Z -> list Z -> Z.

Definition cake_schedule (c : CakeScheduler) (candidates : list string) (ctx : RankContext) : ScheduleDecision :=
  let order_ids := rank fx_write (metric_for c <$> candidates) (c_flow_id ctx) (rank_config ctx) in
  Ordered (omap (fun oid => str_position oid candidates) order_ids).

Definition cake_score_for (id : string) (candidates : list string) (ctx : RankContext) (c : CakeScheduler) : Z :=
  let m := metric_for c id in
  score_compute (mkInputs (em_rtt_ms m) (em_jitter_ms m) (em_success_rate m) (Z.max (rank_config ctx) 1)
    (em_goodput_bps m) (em_capacity_bps m)).

Definition cake_scheduler : @SchedulerPlugin CakeScheduler :=
  {| schedule cands ctx c := (cake_schedule c cands ctx, c); score_for := cake_score_for |}.
End Cake.

(** ** Load balancing *)

Inductive LoadBalanceMode := RoundRobin | StickySessions | ConsistentHashing | SourceLeaseRotateMode.

Record LoadBalanceState := mkLbState {
  lb_ids : list string;
  rr : Wrr;
  sticky : StickyTable;
  source_lease : SourceLeaseRotate
}.

Record LoadBalanceScheduler := mkLb {
  lb_mode : LoadBalanceMode;
  lb_state : LoadBalanceState;
  lb_weights : gmap string Z
}.

Definition default_source_lease_settings : SourceLeaseRotateConfig := mkLeaseConfig 600000 3600000 MaxAgeOff 60000.

Definition with_sticky_ttl_ms (mode : LoadBalanceMode) (sticky_ttl_ms : Z) : LoadBalanceScheduler :=
  mkLb mode (mkLbState [] (wrr_new []) (sticky_new sticky_ttl_ms) (lease_new default_source_lease_settings)) ∅.

Definition lb_new (mode : LoadBalanceMode) : LoadBalanceScheduler := with_sticky_ttl_ms mode 600000.

Definition with_source_lease_rotate (settings : SourceLeaseRotateConfig) : LoadBalanceScheduler :=
  mkLb SourceLeaseRotateMode (mkLbState [] (wrr_new []) (sticky_new 600000) (lease_new settings)) ∅.

Definition with_weights (s : LoadBalanceScheduler) (ws : list (string * Z)) : LoadBalanceScheduler :=
  mkLb (lb_mode s) (lb_state s) (foldl (fun m '(k, v) => <[k := v]> m) ∅ ws).

Definition to_candidates (weights : gmap string Z) (candidates : list string) : list Candidate :=
  (fun id => mkCandidate id (Z.max (default 1 (weights !! id)) 1)) <$> candidates.

Definition lb_refresh (st : LoadBalanceState) (weights : gmap string Z) (candidates : list string) : LoadBalanceState :=
  if decide (candidates = lb_ids st) then st
  else mkLbState candidates (wrr_new (to_candidates weights candidates)) (sticky st) (source_lease st).

Definition target_key_or_flow (ctx : RankContext) : string := default (c_flow_id ctx) (c_target_key ctx).
Definition source_lease_key (ctx : RankContext) : string := default (c_flow_id ctx) (c_source_key ctx).

(** [order.remove(pos); order.insert(0, pos)] on [0..n] *)
Definition order_with_first (candidates : list string) (picked : option string) : list nat :=
  let order := List.seq 0 (length candidates) in
  match picked ≫= (fun p => str_position p candidates) with
  | Some pos => move_to_front pos pos order
  | None => order
  end.

Section LoadBalancing.
(** [DefaultHasher] over source and target; the hash of a key (fxhash); the comparison
    of two weighted scores of a lease. *)
Variable hash_pair64 : option string -> option string -> Z.
Variable fxhash : string -> Z.
Variable score_gt : string -> Z -> Candidate -> Candidate -> bool.

Definition hash_pair (src tgt : option string) : string := ("h:" +:+ hex_show 16 (hash_pair64 src tgt))%string.

Definition sticky_key (ctx : RankContext) : string :=
  match c_source_key ctx, c_target_key ctx with
  | None, None => c_flow_id ctx
  | src, tgt => hash_pair src tgt
  end.

Definition pick_source_lease_decision (st : LoadBalanceState) (weights : gmap string Z) (candidates : list string)
    (ctx : RankContext) (now_ms : Z) : option SourceLeaseDecision * LoadBalanceState :=
  let '(d, lease) := pick_inner score_gt (source_lease st) (source_lease_key ctx) (to_candidates weights candidates) now_ms
    ((fun a => mkLeaseActivity (sa_active_flows a) (sa_idle_since_ms a)) <$> c_source_activity ctx) in
  (d, mkLbState (lb_ids st) (rr st) (sticky st) lease).

(** [None] when a picker's loop does not end. *)
Definition lb_pick (s : LoadBalanceScheduler) (candidates : list string) (ctx : RankContext) (now_ms : Z)
  : option (option string * LoadBalanceState) :=
  let st := lb_state s in
  let cs := to_candidates (lb_weights s) candidates in
  match lb_mode s with
  | ConsistentHashing => Some (consistent_pick fxhash cs (target_key_or_flow ctx), st)
  | StickySessions =>
      '(p, t) ← sticky_pick (sticky st) (sticky_key ctx) cs now_ms;
      Some (p, mkLbState (lb_ids st) (rr st) t (source_lease st))
  | RoundRobin =>
      let st := lb_refresh st (lb_weights s) candidates in
      '(p, w) ← wrr_pick (rr st);
      Some (p, mkLbState (lb_ids st) w (sticky st) (source_lease st))
  | SourceLeaseRotateMode =>
      let '(d, st) := pick_source_lease_decision st (lb_weights s) candidates ctx now_ms in
      Some (candidate_id <$> d, st)
  end.

Definition lb_schedule (s : LoadBalanceScheduler) (candidates : list string) (ctx : RankContext) (now_ms : Z)
  : option (ScheduleDecision * LoadBalanceScheduler) :=
  '(picked, st) ← lb_pick s candidates ctx now_ms;
  Some (Ordered (order_with_first candidates picked), mkLb (lb_mode s) st (lb_weights s)).

(** As the dispatcher's plugin: the state beside the time of the clock.  The scheduler
    has no scores of its own. *)
Definition lb_scheduler : @SchedulerPlugin (Z * LoadBalanceScheduler) :=
  {| schedule cands ctx w := match lb_schedule w.2 cands ctx w.1 with
                             | Some (d, s) => (d, (w.1, s)) | None => (Ordered [], w) end;
     score_for _ _ _ _ := 0 |}.
End LoadBalancing.

(** * What a ranking covers *)

Local Open Scope Z_scope.

(** ** The interface *)

Class CoveringScheduler {W : Type} (inv : W -> Prop) (s : @SchedulerPlugin W) := {
  covers : forall cands ctx w, inv w -> NoDup cands ->
    indices (schedule s cands ctx w).1 ≡ₚ List.seq 0 (length cands);
  keeps_world : forall cands ctx w, inv w -> inv (schedule s cands ctx w).2
}.

(** ** Positions *)

Lemma str_position_lookup x l i : str_position x l = Some i -> l !! i = Some x.
Proof.
  revert i. induction l as [|y l IH]; intros i H; cbn in H; [done|]. case_decide as E; [injection H as <-; by subst y|].
  destruct (str_position x l) as [j|]; [|done]. injection H as <-. by apply IH.
Qed.

Lemma str_position_member x l : x ∈ l -> is_Some (str_position x l).
Proof.
  induction l as [|y l IH]; intros Hx; [by apply elem_of_nil in Hx|]. cbn. case_decide; [done|].
  apply elem_of_cons in Hx as [->|Hx]; [done|]. destruct (IH Hx) as [i ->]. done.
Qed.

Lemma str_position_nodup l i x : NoDup l -> l !! i = Some x -> str_position x l = Some i.
Proof.
  intros Hnd Hi. destruct (str_position_member x l) as [j Hj]; [by eapply list_elem_of_lookup_2|].
  rewrite Hj. f_equal. apply str_position_lookup in Hj. by eapply NoDup_lookup.
Qed.

(** The positions of the elements of a list without duplicates, in their order. *)
Lemma positions_id l : NoDup l -> omap (fun x => str_position x l) l = List.seq 0 (length l).
Proof.
  intros Hnd. assert (H : forall k suf, drop k l = suf -> omap (fun x => str_position x l) suf = List.seq k (length suf)).
  { intros k suf. revert k. induction suf as [|x suf IH]; intros k Hk; [done|].
    assert (Hx : l !! k = Some x) by (rewrite <- (Nat.add_0_r k), <- lookup_drop, Hk; done).
    cbn [omap list_omap List.seq length]. rewrite (str_position_nodup l k x Hnd Hx). f_equal. apply IH.
    replace (S k) with (k + 1)%nat by lia. by rewrite <- drop_drop, Hk. }
  apply (H 0%nat). by rewrite drop_0.
Qed.

Lemma positions_perm l k : NoDup l -> k ≡ₚ l -> omap (fun x => str_position x l) k ≡ₚ List.seq 0 (length l).
Proof. intros Hnd Hp. rewrite Hp. by rewrite positions_id. Qed.

Lemma order_with_first_perm cands picked : order_with_first cands picked ≡ₚ List.seq 0 (length cands).
Proof.
  unfold order_with_first. destruct (picked ≫= _) as [pos|] eqn:E; [|done]. apply bind_Some in E as (p & _ & Hp).
  apply move_to_front_perm. apply str_position_lookup, lookup_lt_Some in Hp.
  by apply (lookup_seq_lt 0).
Qed.

(** ** The three plugins *)

#[export] Instance replicate_covers : CoveringScheduler (fun _ => True) replicate_scheduler.
Proof. split; done. Qed.

#[export] Instance cake_covers (fx_write : Z -> list Z -> Z) : CoveringScheduler (fun _ => True) (cake_scheduler fx_write).
Proof.
  split; [|done]. intros cands ctx w _ Hnd. cbn. apply positions_perm; [done|]. rewrite rank_perm, <- list_fmap_compose.
  change (em_id ∘ metric_for w) with (fun x : string => x). by rewrite list_fmap_id.
Qed.

(** The pickers were built from weighted candidates. *)
Definition weighted (w : Wrr) : Prop := (cands w <> [] -> wrr_ok w) /\ Forall (fun c => 0 < weight c) (cands w).

Definition lb_inv (s : LoadBalanceScheduler) : Prop :=
  weighted (rr (lb_state s)) /\ sticky_inv (sticky (lb_state s)) /\ weighted (picker (sticky (lb_state s))).

Lemma to_candidates_weighted ws cands : weighted (wrr_new (to_candidates ws cands)).
Proof.
  unfold weighted, to_candidates. cbn. split.
  - intros Hne. split; cbn; [|lia]. destruct cands; [done|cbn; lia].
  - apply Forall_fmap, Forall_true. intros x. cbn. lia.
Qed.

(** A pick from weighted candidates ends. *)
Lemma weighted_pick w : weighted w -> exists p w', wrr_pick w = Some (p, w') /\ weighted w'.
Proof.
  intros [Hok Hw]. destruct (cands w) as [|c cs] eqn:E.
  - exists None, w. split; [unfold wrr_pick; by rewrite E|]. split; by rewrite E.
  - destruct (wrr_pick_ahead w) as (x & w' & Hp & Hok' & Hc & _); [by apply Hok| |].
    + rewrite cycle_nil, E. intros Hall. inversion Hall as [|? ? H1 _]; subst. inversion Hw as [|? ? H2 _]; subst. lia.
    + exists (Some x), w'. split; [done|]. split; [done|]. by rewrite Hc, E.
Qed.

Section Balancer.
Variable hash_pair64 : option string -> option string -> Z.
Variable fxhash : string -> Z.
Variable score_gt : string -> Z -> Candidate -> Candidate -> bool.

Lemma refresh_weighted t ws cands :
  sticky_inv t -> weighted (picker t) ->
  let t' := refresh_picker t (to_candidates ws cands) in sticky_inv t' /\ weighted (picker t').
Proof.
  intros Hi Hw. cbn zeta. destruct (refresh_inv t (to_candidates ws cands) Hi) as [Hi' _]. split; [done|].
  unfold refresh_picker. case_decide; [done|]. apply to_candidates_weighted.
Qed.

(** A sticky pick ends and keeps the invariant, whatever was kept and expired. *)
Lemma sticky_pick_total t key ws cands now :
  sticky_inv t -> weighted (picker t) ->
  exists p t', sticky_pick t key (to_candidates ws cands) now = Some (p, t') /\ sticky_inv t' /\ weighted (picker t').
Proof.
  intros Hi Hw. unfold sticky_pick. destruct (to_candidates ws cands) as [|c cs] eqn:E.
  - eexists _, _. split; [done|]. rewrite <- E. by apply refresh_weighted.
  - rewrite <- E. destruct (match sticky_entries t !! key with Some e => _ | None => None end) as [x|]; [by exists (Some x), t|].
    destruct (refresh_weighted t ws cands Hi Hw) as [[Hi1 Hi2] Hw']. set (t1 := refresh_picker t (to_candidates ws cands)) in *.
    destruct (weighted_pick (picker t1) Hw') as (p & w' & Hp & Hw''). rewrite Hp. cbn [mbind option_bind].
    apply wrr_pick_member in Hp as (Hc & Hok & _); [|done].
    destruct p as [p|]; eexists _, _; (split; [done|]); (split; [|done]); (split; cbn; [by rewrite Hc|exact Hok]).
Qed.

Lemma lb_schedule_total s cands ctx now :
  lb_inv s -> exists picked s', lb_schedule hash_pair64 fxhash score_gt s cands ctx now
      = Some (Ordered (order_with_first cands picked), s') /\ lb_inv s'.
Proof.
  intros (Hr & Hs & Hp). unfold lb_schedule, lb_pick. destruct (lb_mode s).
  - assert (Hr' : weighted (rr (lb_refresh (lb_state s) (lb_weights s) cands)) /\
      sticky (lb_refresh (lb_state s) (lb_weights s) cands) = sticky (lb_state s)).
    { unfold lb_refresh. case_decide; [done|]. split; [apply to_candidates_weighted|done]. }
    destruct Hr' as [Hr' Hsame]. destruct (weighted_pick _ Hr') as (p & w' & -> & Hw'). cbn [mbind option_bind].
    eexists _, _. split; [done|]. unfold lb_inv. cbn. by rewrite Hsame.
  - destruct (sticky_pick_total (sticky (lb_state s)) (sticky_key hash_pair64 ctx) (lb_weights s) cands now Hs Hp)
      as (p & t' & -> & Hi' & Hw'). cbn [mbind option_bind]. eexists _, _. split; [done|]. by split_and!.
  - cbn [mbind option_bind]. eexists _, _. split; [done|]. by split_and!.
  - unfold pick_source_lease_decision. destruct (pick_inner _ _ _ _ _ _) as [d lease]. cbn [mbind option_bind].
    eexists _, _. split; [done|]. by split_and!.
Qed.

#[export] Instance lb_covers : CoveringScheduler (fun w => lb_inv w.2) (lb_scheduler hash_pair64 fxhash score_gt).
Proof.
  split; intros cands ctx [now s] Hi; cbn in Hi; destruct (lb_schedule_total s cands ctx now Hi) as (picked & s' & E & Hi'); cbn; rewrite E.
  - intros _. apply order_with_first_perm.
  - exact Hi'.
Qed.
End Balancer.

Lemma lb_new_inv mode ttl ws : lb_inv (with_weights (with_sticky_ttl_ms mode ttl) ws).
Proof. unfold lb_inv, weighted, sticky_inv. cbn. split_and!; try done; constructor. Qed.

(** ** The client *)

Lemma fmap_perm_lookup (m : list nat) order : order ≡ₚ List.seq 0 (length m) -> map_candidate_order order m ≡ₚ m.
Proof.
  intros Hp. unfold map_candidate_order. rewrite Hp. clear Hp order.
  assert (H : forall k suf, drop k m = suf -> omap (fun idx => m !! idx) (List.seq k (length suf)) = suf).
  { intros k suf. revert k. induction suf as [|x suf IH]; intros k Hk; [done|]. cbn [List.seq length omap list_omap].
    assert (Hx : m !! k = Some x) by (rewrite <- (Nat.add_0_r k), <- lookup_drop, Hk; done).
    rewrite Hx. f_equal. apply IH. replace (S k) with (k + 1)%nat by lia. by rewrite <- drop_drop, Hk. }
  specialize (H 0%nat m (drop_0 m)). by rewrite H.
Qed.

Lemma valid_order_nodup order n : NoDup order -> Forall (fun i => (i < n)%nat) order -> valid_order order n = order.
Proof.
  unfold valid_order. assert (H : forall seen, (forall i, i ∈ order -> i ∉ seen) -> NoDup order ->
    Forall (fun i => (i < n)%nat) order -> valid_order_from seen order n = order); [|intros; apply H; set_solver].
  induction order as [|i order IH]; intros seen Hs Hnd Hlt; [done|]. cbn [valid_order_from]. apply NoDup_cons in Hnd as [Hi Hnd].
  apply Forall_cons in Hlt as [Hil Hlt]. rewrite (proj2 (Nat.ltb_lt _ _) Hil), bool_decide_false by (apply Hs; left).
  cbn [negb andb]. f_equal. apply IH; [|done|done]. intros j Hj. assert (j <> i) by (intros ->; done). specialize (Hs j). set_solver.
Qed.

Lemma candidates_nodup egs bad fs rg ts ids m :
  NoDup (fst <$> egs) -> healthy_candidates (from_egresses egs) bad fs rg ts = (ids, m) ->
  NoDup ids /\ NoDup m /\ length ids = length m.
Proof.
  intros Hnd E. destruct (healthy_candidates_list egs bad fs rg ts) as (cs & E' & Hs & Hcs & _).
  rewrite E in E'. injection E' as -> ->.
  assert (Hm : NoDup (egress_idx <$> cs)).
  { clear -Hs. induction Hs as [|i l _ IH Hi]; constructor; [|done]. rewrite Forall_forall in Hi. intros Hin. specialize (Hi i Hin). lia. }
  split_and!; [|done|by rewrite !length_fmap]. apply NoDup_fmap_2_strong; [|by apply NoDup_fmap_1 in Hm].
  intros x y Hx Hy Hid. apply Hcs in Hx as [(cx & Hx & _ & Hgx)%candidate_bucket_elem _].
  apply Hcs in Hy as [(cy & Hy & _ & Hgy)%candidate_bucket_elem _].
  assert (Hi : egress_idx x = egress_idx y).
  { apply (NoDup_lookup (fst <$> egs) _ _ (cc_exit_id x)); [done|..]; rewrite list_lookup_fmap; [by rewrite Hx|by rewrite Hy, Hid]. }
  rewrite Hi, Hy in Hx. injection Hx as _ <-. destruct x, y; cbn in *; congruence.
Qed.

(** With a scheduler that keeps the interface, a dispatch tries every candidate -- every
    healthy egress that carries the flow's semantics, its route group and its target --
    exactly once, wherever the flow is pinned, and pinning never indexes out of range. *)
Theorem every_candidate_is_tried {W : Type} (inv : W -> Prop) (s : @SchedulerPlugin W) `{!CoveringScheduler inv s}
    (egs : list (string * Capabilities)) (bad : gset string) (fs : FlowSemantics) (rg ts : option string)
    (ids : list string) (m : list nat) (ctx : RankContext) (w : W)
    (pinned : nat) (score : string -> Z) (within : Z -> Z -> bool)
    (Hnd : NoDup (fst <$> egs)) (Hw : inv w)
    (Hc : healthy_candidates (from_egresses egs) bad fs rg ts = (ids, m)) :
  let order := map_candidate_order (indices (schedule s ids ctx w).1) m in
  valid_order order (length egs) ≡ₚ m
  /\ exists order', apply_pin_with_hysteresis order pinned (fst <$> egs) score within = Some order'
       /\ valid_order order' (length egs) ≡ₚ m.
Proof.
  destruct (candidates_nodup _ _ _ _ _ _ _ Hnd Hc) as (Hi & Hm & Hl). pose proof (healthy_candidates_range _ _ _ _ _ _ _ Hc) as Hr.
  assert (Hp : map_candidate_order (indices (schedule s ids ctx w).1) m ≡ₚ m)
    by (apply fmap_perm_lookup; rewrite <- Hl; by apply covers).
  assert (Hv : forall order, order ≡ₚ m -> valid_order order (length egs) ≡ₚ m)
    by (intros order Ho; rewrite valid_order_nodup; rewrite ?Ho; done).
  cbn zeta. split; [by apply Hv|].
  destruct (apply_pin_perm (map_candidate_order (indices (schedule s ids ctx w).1) m) pinned (fst <$> egs) score within)
    as (order' & E & Hp'); [rewrite Hp, length_fmap; done|].
  exists order'. split; [done|]. apply Hv. by rewrite Hp'.
Qed.

(** Three exits of one group, balanced by weights. *)
Definition demo_egresses : list (string * Capabilities) :=
  [("a"%string, mkCapabilities "tcp" true false None ["web"%string]); ("b"%string, mkCapabilities "udp" false true None ["web"%string]);
   ("c"%string, mkCapabilities "mesh" true true None ["web"%string])].
Definition demo_ctx : RankContext :=
  rank_context (frame_open (fun _ _ _ => 7) "s1" (mkEndpoint "example.org" 443)) None.
Definition demo_lb : LoadBalanceScheduler :=
  with_weights (with_sticky_ttl_ms StickySessions 600000) [("c"%string, 3)].

Lemma every_candidate_is_tried_witness :
  let s := lb_scheduler (fun _ _ => 5) (fun _ => 9) (fun _ _ _ _ => false) in
  valid_order (map_candidate_order (indices (schedule s ["a"%string; "c"%string] demo_ctx (1000, demo_lb)).1) [0; 2]%nat) 3 ≡ₚ [0; 2]%nat.
Proof.
  intros s. apply (every_candidate_is_tried (fun w => lb_inv w.2) s demo_egresses ∅ ByteStream (Some "web"%string) None
    ["a"%string; "c"%string] [0; 2]%nat demo_ctx (1000, demo_lb) 0 (fun _ => 0) (fun _ _ => false)).
  - apply (bool_decide_unpack _). vm_compute. exact I.
  - apply lb_new_inv.
  - vm_compute. reflexivity.
Defined.
