(* ===== verification/Resolver.v ===== *)
(** The resolver's data (crates/mesh-bus-resolver/src: types.rs, cache.rs, rule.rs,
    signals.rs, policy.rs, dns_wire.rs): requests and answers, the answer cache, the
    projection of rule decisions, the choice of servers, and query and reply
    messages.  Durations and instants are nanoseconds. *)
From S2P Require Import Prelude Numbers NetAddr Rules Geosite Dns.
Local Open Scope string_scope.
Local Open Scope Z_scope.

(** ** Data (types.rs) *)

Inductive QueryType := QtA | QtAaaa | QtPtr | QtCname | QtTxt.

#[export] Instance QueryType_eq_dec : EqDecision QueryType.
Proof. solve_decision. Defined.

#[export] Instance QueryType_countable : Countable QueryType.
Proof.
  refine (inj_countable' (fun q => match q with QtA => 0 | QtAaaa => 1 | QtPtr => 2 | QtCname => 3 | QtTxt => 4 end)
    (fun z => match z with 0 => QtA | 1 => QtAaaa | 2 => QtPtr | 3 => QtCname | _ => QtTxt end) _).
  by intros [].
Defined.


#[export] Instance SocketAddr_countable : Countable SocketAddr.
Proof.
  refine (inj_countable' (fun a => match a with SockV4 o p => inl (o, p) | SockV6 g s p => inr (g, s, p) end)
    (fun x => match x with inl (o, p) => SockV4 o p | inr (g, s, p) => SockV6 g s p end) _).
  by intros [].
Defined.

Record ResolveRequest := mkResolveRequest { qname : string; qtype : QueryType; req_consumer : string }.

(** Addresses as their octets. *)
Inductive AnswerRecord :=
| AnsA (octets : list Z)
| AnsAaaa (octets : list Z)
| AnsPtr (name : string)
| AnsCname (name : string)
| AnsTxt (parts : list string).

Inductive ResolverSource :=
| SrcSystem
| SrcMeshDirect (server : SocketAddr)
| SrcTunneled (server : SocketAddr).

Record ResolveAnswer := mkAnswer {
  records : list AnswerRecord;
  source : ResolverSource;
  truncated : bool;
  rtt : Z;
  min_rr_ttl : Z
}.

Inductive ServerPolicy := PolicyRoundRobin | PolicyConsistentHash | PolicyFanOut (k : Z).
Inductive PoolMode := SystemMode | MeshDirect (p : ServerPolicy) | Tunneled (p : ServerPolicy).
Inductive UpstreamScheme := SchemeUdp | SchemeTcp.

Record UpstreamServer := mkServer { scheme : UpstreamScheme; addr : SocketAddr }.

Record Pool := mkPool {
  pool_id : string;
  mode : PoolMode;
  servers : list UpstreamServer;
  pool_route_group : option string
}.

Inductive ResolveError :=
| Denied
| NxDomain
| Timeout (after : Z)
| Io (msg : string)
| Decode (e : DecodeError)
| PoolNotFound (id : string)
| NoDatagramPort
| NoStreamPort.

Inductive WinnerExit :=
| SinglePath (server : SocketAddr)
| FanOut (winner : SocketAddr) (losers : list SocketAddr)
| WinSystem.

Record ResolutionSignals := mkSignals {
  qname_key : string;
  pool : string;
  resolver_rtt_ms : Z;
  winner_exit : WinnerExit;
  attempted : Z;
  answer_count : Z;
  sig_truncated : bool;
  matched_rule_id : option string;
  matched_rule_index : option Z;
  sig_default_used : bool;
  action : string;
  schedule_hint : string
}.

(** ** The cache (cache.rs); the current instant is an argument *)

Definition secs (n : Z) : Z := n * 10 ^ 9.
Definition as_millis (d : Z) : Z := as_u64 (d / 10 ^ 6).

Definition TTL_MAX_POSITIVE : Z := secs 300.
Definition TTL_DEFAULT_NEGATIVE : Z := secs 60.

(** [CacheKey]: name and type *)
Abbreviation CacheKey := (string * QueryType)%type (only parsing).

Record PositiveEntry := mkPositive { pos_records : list AnswerRecord; pos_expires_at : Z }.
Record ReverseEntry := mkReverse { rev_qname : string; rev_geo : option string; rev_asn : option Z; rev_expires_at : Z }.

Record DnsCache := mkCache {
  positive : gmap CacheKey PositiveEntry;
  negative : gmap CacheKey Z;
  reverse_map : gmap (Z * Z) ReverseEntry;
  stale_window : Z
}.

Definition cache_new : DnsCache := mkCache ∅ ∅ ∅ (secs 60).
Definition with_stale_window (window : Z) : DnsCache := mkCache ∅ ∅ ∅ window.

Inductive Lookup :=
| Positive (records : list AnswerRecord) (expires_at : Z)
| Negative (expires_at : Z).

Definition lookup_expires (l : Lookup) : Z := match l with Positive _ e => e | Negative e => e end.
Definition is_fresh (now : Z) (l : Lookup) : bool := now <? lookup_expires l.
Definition lookup_records (l : Lookup) : list AnswerRecord := match l with Positive r _ => r | Negative _ => [] end.

(** [exp.saturating_duration_since(now)] *)
Definition lookup_remaining (now : Z) (l : Lookup) : Z := Z.max 0 (lookup_expires l - now).

Definition put_positive (c : DnsCache) (now : Z) (key : CacheKey) (rs : list AnswerRecord) (ttl : Z) : DnsCache :=
  let clamped := Z.min ttl TTL_MAX_POSITIVE in
  mkCache (<[key := mkPositive rs (now + clamped)]> (positive c)) (negative c) (reverse_map c) (stale_window c).

Definition put_negative (c : DnsCache) (now : Z) (key : CacheKey) (ttl : option Z) : DnsCache :=
  mkCache (positive c) (<[key := now + default TTL_DEFAULT_NEGATIVE ttl]> (negative c)) (reverse_map c) (stale_window c).

Definition cache_lookup (c : DnsCache) (key : CacheKey) : option Lookup :=
  match positive c !! key with
  | Some p => Some (Positive (pos_records p) (pos_expires_at p))
  | None => Negative <$> negative c !! key
  end.

Definition lookup_stale (c : DnsCache) (now : Z) (key : CacheKey) : option Lookup :=
  match positive c !! key with
  | None => None
  | Some p =>
      if now <? pos_expires_at p then None
      else if stale_window c <? now - pos_expires_at p then None
      else Some (Positive (pos_records p) (pos_expires_at p))
  end.

(** An address is its family (4 or 6) and number. *)
Definition put_reverse (c : DnsCache) (ip : Z * Z) (e : ReverseEntry) : DnsCache :=
  mkCache (positive c) (negative c) (<[ip := e]> (reverse_map c)) (stale_window c).

(** An expired entry is removed. *)
Definition lookup_reverse (c : DnsCache) (now : Z) (ip : Z * Z) : option ReverseEntry * DnsCache :=
  match reverse_map c !! ip with
  | Some e =>
      if now <? rev_expires_at e then (Some e, c)
      else (None, mkCache (positive c) (negative c) (delete ip (reverse_map c)) (stale_window c))
  | None => (None, mkCache (positive c) (negative c) (delete ip (reverse_map c)) (stale_window c))
  end.

(** ** Special-use names (data_handle.rs) *)

Definition is_special_use_localhost (q : string) : bool :=
  bool_decide (q = "localhost.") || ends_with ".localhost." q.

Definition is_special_use_invalid_or_reserved (q : string) : bool :=
  ends_with ".invalid." q || ends_with ".test." q || ends_with ".example." q
  || bool_decide (q = "invalid.") || bool_decide (q = "test.") || bool_decide (q = "example.").

Definition rfc6303_ranges : list string :=
  ["10.in-addr.arpa."; "168.192.in-addr.arpa."; "254.169.in-addr.arpa."; "d.f.ip6.arpa."; "c.f.ip6.arpa."].

Definition is_rfc6303_reverse (q : string) : bool :=
  existsb (fun r => ends_with r q) rfc6303_ranges
  || existsb (fun n => ends_with ("." +:+ dec_show n +:+ ".172.in-addr.arpa.") q
                       || ends_with (dec_show n +:+ ".172.in-addr.arpa.") q) (seqZ 16 16).

(** ** Names and wire messages (dns_wire.rs) *)

Definition normalize_qname (q : string) : string :=
  let s := str_lower q in if ends_with "." s then s else s +:+ ".".

Definition qtype_to_dns (q : QueryType) : QType :=
  match q with QtA => QA | QtAaaa => QAaaa | QtPtr => QPtr | QtCname => QCname | QtTxt => QTxt end.

(** RD set, one question, the default EDNS record. *)
Definition query_message (txid : Z) (name : Name) (q : QueryType) : Message :=
  mkMessage (mkHeader txid 0x0100 0 0 0 0) [mkQuestion name (qtype_to_dns q)] [] [] [edns_opt_rr 1232 false].

(** The outer [None] is a panic of the encoder. *)
Definition build_query (txid : Z) (q : string) (qt : QueryType) : option (result (list Z) ResolveError) :=
  match from_ascii q with
  | Err e => Some (Err (Decode e))
  | Ok name => map_err Decode <$> encode_message (query_message txid name qt)
  end.

Definition validate_reply (reply : Message) (txid : Z) (qname_lower : string) : bool :=
  if negb (h_id (header reply) =? txid) then false
  else match questions reply with
       | q :: _ => bool_decide (canonical (q_name q) = qname_lower)
       | [] => true
       end.

Definition rdata_to_answer (rr : ResourceRecord) : option AnswerRecord :=
  match data rr with
  | RA ip => Some (AnsA ip)
  | RAaaa ip => Some (AnsAaaa ip)
  | RPtr n => Some (AnsPtr (canonical n))
  | RCname n => Some (AnsCname (canonical n))
  | RTxt parts => Some (AnsTxt parts)
  | _ => None
  end.

(** [iter().map(|rr| rr.ttl).min().unwrap_or(60)] *)
Definition min_ttl (rrs : list ResourceRecord) : Z :=
  match rrs with [] => 60 | rr :: rrs => foldl Z.min (ttl rr) (ttl <$> rrs) end.

(** [extract_answer]: [src] names the server, [d] is the round trip the caller fills in. *)
Definition extract_answer (msg : Message) (src : ResolverSource) (d : Z) : ResolveAnswer :=
  mkAnswer (omap rdata_to_answer (answers msg)) src (tc (header msg)) d (min_ttl (answers msg)).

(** ** Servers (policy.rs); [hash64] is the standard library's [DefaultHasher] *)

Definition select_round_robin (ss : list UpstreamServer) (counter : Z) : option UpstreamServer * Z :=
  (ss !! Z.to_nat (counter mod Z.of_nat (length ss)), as_u64 (counter + 1)).

Definition select_consistent_hash (hash64 : string -> Z) (ss : list UpstreamServer) (qname_lower : string) :
    option UpstreamServer :=
  ss !! Z.to_nat (as_u64 (hash64 qname_lower) mod Z.of_nat (length ss)).

Definition select_fanout (ss : list UpstreamServer) (k : Z) : list UpstreamServer :=
  take (Z.to_nat (Z.min k (Z.of_nat (length ss)))) ss.

(** ** Signals (signals.rs) and the projection of a decision (rule.rs) *)

Definition fresh_signals (qname_lower pool_name : string) : ResolutionSignals :=
  mkSignals qname_lower pool_name 0 WinSystem 0 0 false None None false "allow" "ordered".

Section Projection.
Context `{RuleLibs}.

Definition action_label (a : Action) : string :=
  match a with
  | Allow => "allow"
  | Deny => "deny"
  | SetResolverPool p => "set_resolver_pool:" +:+ p
  | SetRouteGroup g => "set_route_group:" +:+ g
  | SetScheduleHint HAuto => "set_schedule_hint:auto"
  | SetScheduleHint (HFanOut k) => "set_schedule_hint:fanout:k=" +:+ dec_show k
  | SetTransform _ _ => "set_transform"
  | Compose _ => "compose"
  | SetCostBias _ => "unknown"
  end.

Definition record_rule_decision (s : ResolutionSignals) (d : RuleDecision) : ResolutionSignals :=
  mkSignals (qname_key s) (pool s) (resolver_rtt_ms s) (winner_exit s) (attempted s) (answer_count s) (sig_truncated s)
    (trace_rule_id (trace d)) ((fun i => as_u32 (Z.of_nat i)) <$> rule_index (trace d)) (default_used (trace d))
    (action_label (decision_action d)) (schedule_hint s).

Record Projection := mkProjection {
  proj_pool : option string;
  proj_route_group : option string;
  schedule_hint_label : string;
  proj_action_label : string;
  denied : bool
}.

Definition projection_default : Projection := mkProjection None None "" "" false.

Definition qtype_str (q : QueryType) : string :=
  match q with QtA => "A" | QtAaaa => "AAAA" | QtPtr => "PTR" | QtCname => "CNAME" | QtTxt => "TXT" end.

Definition build_rule_ctx (req : ResolveRequest) : RuleCtx :=
  let s := pop_dots (str_lower (qname req)) in
  let host := if str_is_empty s then None else Some s in
  mkRuleCtx None None None None None None None None None None None host None (Some (req_consumer req))
    (Some (qtype_str (qtype req))) None None None [].

(** [if p.action_label.is_empty() { p.action_label = label }] *)
Definition label_if_empty (label : string) (p : Projection) : Projection :=
  if str_is_empty (proj_action_label p)
  then mkProjection (proj_pool p) (proj_route_group p) (schedule_hint_label p) label (denied p) else p.

Fixpoint walk (a : Action) (p : Projection) : Projection :=
  match a with
  | Allow => label_if_empty "allow" p
  | Deny => mkProjection (proj_pool p) (proj_route_group p) (schedule_hint_label p) "deny" true
  | SetRouteGroup g =>
      label_if_empty ("set_route_group:" +:+ g)
        (mkProjection (proj_pool p) (Some g) (schedule_hint_label p) (proj_action_label p) (denied p))
  | SetScheduleHint h =>
      mkProjection (proj_pool p) (proj_route_group p)
        (match h with HAuto => "ordered" | HFanOut k => "fanout:k=" +:+ dec_show k end) (proj_action_label p) (denied p)
  | SetResolverPool pl =>
      mkProjection (Some pl) (proj_route_group p) (schedule_hint_label p) ("set_resolver_pool:" +:+ pl) (denied p)
  | SetTransform _ _ => p
  | Compose acts =>
      (fix each (xs : list Action) (p : Projection) : Projection :=
         match xs with
         | [] => p
         | x :: xs => let p := walk x p in if denied p then p else each xs p
         end) acts p
  | SetCostBias _ => p
  end.

Definition project_decision (d : RuleDecision) : Projection :=
  label_if_empty "allow" (walk (decision_action d) (mkProjection None None "ordered" "" false)).
End Projection.
