(* ===== verification/ResolverRun.v ===== *)
(** The resolver at work (crates/mesh-bus-resolver/src: m3.rs, m2.rs, m1.rs,
    data_handle.rs): the system resolver, queries over datagram and stream sessions
    of the bus, and [resolve] with its cache, special-use names, rule chain, pools and
    access log.  The clock, randomness, getaddrinfo and the sessions are a class of
    parameters over a world; the resolver's own state is a record. *)
From S2P Require Import Prelude Numbers NetAddr Rules Endpoint StateM Dns KernelRegistry Resolver.
Local Open Scope string_scope.
Local Open Scope Z_scope.

(** [SocketAddr]'s address and its display. *)
Definition ip_text (a : SocketAddr) : string :=
  match a with SockV4 o _ => show_ipv4 o | SockV6 g _ _ => show_ipv6 g end.
Definition sock_port (a : SocketAddr) : Z := match a with SockV4 _ p => p | SockV6 _ _ p => p end.
Definition sock_text (a : SocketAddr) : string :=
  match a with
  | SockV4 o p => show_ipv4 o +:+ ":" +:+ dec_show p
  | SockV6 g s p =>
      "[" +:+ show_ipv6 g +:+ (if s =? 0 then "" else "%" +:+ dec_show s) +:+ "]:" +:+ dec_show p
  end.

(** The display of [mb_endpoint::ParseError]. *)
Definition parse_error_text (e : ParseError) : string :=
  match e with
  | EmptyHost => "empty host"
  | MissingColon => "missing colon between host and port"
  | InvalidPort s => "invalid port: " +:+ s
  | HostTooLong n => "host too long: " +:+ dec_show (Z.of_nat n) +:+ " bytes (max 255)"
  | MalformedIpv6 => "malformed ipv6 address (missing closing bracket)"
  end.

(** What the resolver puts into a [BusSessionRequest]. *)
Record SessionRequest := mkSession { sr_target : Endpoint; sr_target_key : string; sr_route_group : option string }.

(** [spawn_blocking(..to_socket_addrs())]: the task's or the system's error, or addresses. *)
Inductive SysLookup := JoinFailed (e : string) | SysFailed (e : string) | SysAddrs (l : list SocketAddr).

(** [timeout(budget, session.recv_from())] *)
Inductive Received := Elapsed | SessionClosed | Got (data : list Z).

(** The outside world.  A session is a number; errors are their [Debug] texts.  A
    stream exchange runs under one deadline: [st_send] is [None] when it strikes while
    sending, [st_patience] is the number of chunks that arrive before it strikes. *)
Class ResolverNet (W : Type) := {
  clock : W -> Z * W;
  random_u16 : W -> Z * W;
  getaddrinfo : string -> W -> SysLookup * W;
  open_datagram : SessionRequest -> W -> result nat string * W;
  dg_send_to : nat -> Endpoint -> list Z -> W -> result unit string * W;
  dg_recv_from : nat -> Z -> W -> Received * W;
  dg_close : nat -> W -> W;
  open_stream : SessionRequest -> W -> result nat string * W;
  st_connect : nat -> W -> result unit string * W;
  st_send : nat -> list Z -> Z -> W -> option (result unit string) * W;
  st_patience : nat -> W -> nat;
  st_recv : nat -> W -> option (list Z) * W;
  hash64 : string -> Z
}.

(** [CachedConn] *)
Record CachedConn := mkCachedConn { conn_sid : nat; rx_buf : list Z }.

(** The result of [resolve]: both sides carry the signals. *)
Abbreviation resolved := (result (ResolveAnswer * ResolutionSignals) (ResolveError * ResolutionSignals)).

Section Run.
Context {W : Type} `{!ResolverNet W} `{RuleLibs}.

Record RState := mkRState {
  rs_cache : option DnsCache;
  rr_counters : gmap string Z;
  conn_entries : gmap (SocketAddr * option string) CachedConn;
  world : W;
  log : list (string * ResolutionSignals)
}.

Definition set_cache (c : option DnsCache) (s : RState) : RState :=
  mkRState c (rr_counters s) (conn_entries s) (world s) (log s).
Definition set_counters (f : gmap string Z -> gmap string Z) (s : RState) : RState :=
  mkRState (rs_cache s) (f (rr_counters s)) (conn_entries s) (world s) (log s).
Definition set_conns (f : gmap (SocketAddr * option string) CachedConn -> gmap (SocketAddr * option string) CachedConn)
    (s : RState) : RState :=
  mkRState (rs_cache s) (rr_counters s) (f (conn_entries s)) (world s) (log s).

(** One step of the world. *)
Definition net {A} (f : W -> A * W) : M RState A := fun s =>
  let '(a, w) := f (world s) in Some (a, mkRState (rs_cache s) (rr_counters s) (conn_entries s) w (log s)).

Definition now : M RState Z := net clock.

(** [start.elapsed()] *)
Definition elapsed (start : Z) : M RState Z := t ← now; mret (Z.max 0 (t - start)).

(** ** The system resolver (m3.rs) *)

Definition parse_ip (s : string) : option AnswerRecord :=
  match parse_ipv4 s with
  | Some o => Some (AnsA o)
  | None => (fun g => AnsAaaa (octets_of_groups g)) <$> parse_ipv6 s
  end.

(** The record of an address, when its family is wanted. *)
Definition sys_record (qt : QueryType) (a : SocketAddr) : option AnswerRecord :=
  let want_v4 := bool_decide (qt = QtA) in
  let want_v6 := bool_decide (qt = QtAaaa) in
  match a with
  | SockV4 o _ => if want_v4 || negb want_v6 then Some (AnsA o) else None
  | SockV6 g _ _ => if want_v6 || negb want_v4 then Some (AnsAaaa (octets_of_groups g)) else None
  end.

Definition resolve_system (q : string) (qt : QueryType) : M RState (result ResolveAnswer ResolveError) :=
  start ← now;
  let host := Geosite.pop_dots q in
  match parse_ip host with
  | Some rec => d ← elapsed start; mret (Ok (mkAnswer [rec] SrcSystem false d 60))
  | None =>
      r ← net (getaddrinfo (host +:+ ":0"));
      match r with
      | JoinFailed e => mret (Err (Io ("spawn_blocking: " +:+ e)))
      | SysFailed e => mret (Err (Io ("getaddrinfo: " +:+ e)))
      | SysAddrs [] => mret (Err NxDomain)
      | SysAddrs l =>
          match omap (sys_record qt) l with
          | [] => mret (Err NxDomain)
          | rs => d ← elapsed start; mret (Ok (mkAnswer rs SrcSystem false d 60))
          end
      end
  end.

(** ** One query over a datagram session (m2.rs) *)

Definition session_request (server : SocketAddr) (route_group : option string) :
    result SessionRequest ResolveError :=
  match endpoint_new (ip_text server) (sock_port server) with
  | Err e => Err (Io (parse_error_text e))
  | Ok ep => Ok (mkSession ep (sock_text server) route_group)
  end.

Definition check_reply (data : list Z) (txid : Z) (qname_lower : string) : result Message ResolveError :=
  match decode_message data with
  | Err e => Err (Decode e)
  | Ok msg => if validate_reply msg txid qname_lower then Ok msg else Err (Io "TXID or QNAME mismatch (RFC 5452)")
  end.

(** The message and how long it took. *)
Definition single_shot (budget : Z) (route_group : option string) (q : string) (qt : QueryType)
    (server : SocketAddr) (txid : Z) : M RState (result (Message * Z) ResolveError) :=
  let qname_lower := normalize_qname q in
  req ←? mret (session_request server route_group);
  opened ← net (open_datagram req);
  sid ←? mret (map_err (fun e => Io ("open_datagram: " +:+ e)) opened);
  built ← unwrap (build_query txid q qt);
  payload ←? mret built;
  sent ← net (dg_send_to sid (sr_target req) payload);
  _ ←? mret (map_err (fun e => Io ("send_to: " +:+ e)) sent);
  start ← now;
  r ← net (dg_recv_from sid budget);
  d ← elapsed start;
  net (fun w => (tt, dg_close sid w));;
  match r with
  | Elapsed => mret (Err (Timeout budget))
  | SessionClosed => mret (Err (Io "session closed before reply"))
  | Got data => msg ←? mret (check_reply data txid qname_lower); mret (Ok (msg, d))
  end.

(** ** One query over a cached stream session (m1.rs) *)

Definition conn_key (server : SocketAddr) (route_group : option string) : SocketAddr * option string :=
  (server, route_group).

Definition get_or_open (server : SocketAddr) (route_group : option string) : M RState (result unit ResolveError) :=
  hit ← gets (fun s => conn_entries s !! conn_key server route_group);
  match hit with
  | Some _ => mret (Ok tt)
  | None =>
      req ←? mret (session_request server route_group);
      opened ← net (open_stream req);
      sid ←? mret (map_err (fun e => Io ("open_stream: " +:+ e)) opened);
      conn ← net (st_connect sid);
      _ ←? mret (map_err (fun e => Io ("stream connect: " +:+ e)) conn);
      modify (set_conns (insert (conn_key server route_group) (mkCachedConn sid [])));;
      mret (Ok tt)
  end.

Definition evict (server : SocketAddr) (route_group : option string) : M RState unit :=
  modify (set_conns (delete (conn_key server route_group))).

(** [n] chunks arrive before the deadline; the outer [None] is the deadline. *)
Fixpoint read_one_frame (n : nat) (sid : nat) (rx : list Z) : M RState (option (result (list Z) ResolveError) * list Z) :=
  match try_read_tcp_frame rx with
  | (Some frame, rx) => mret (Some (Ok frame), rx)
  | (None, rx) =>
      match n with
      | O => mret (None, rx)
      | S n =>
          chunk ← net (st_recv sid);
          match chunk with
          | Some chunk => read_one_frame n sid (rx ++ chunk)%list
          | None => mret (Some (Err (Io "stream closed before full frame")), rx)
          end
      end
  end.

(** The send and the read under the deadline; the buffer keeps what was read. *)
Definition send_recv (key : SocketAddr * option string) (c : CachedConn) (framed : list Z) (budget : Z) :
    M RState (option (result (list Z) ResolveError)) :=
  sent ← net (st_send (conn_sid c) framed budget);
  match sent with
  | None => mret None
  | Some (Err e) => mret (Some (Err (Io ("stream send: " +:+ e))))
  | Some (Ok _) =>
      n ← gets (fun s => st_patience (conn_sid c) (world s));
      '(r, rx) ← read_one_frame n (conn_sid c) (rx_buf c);
      modify (set_conns (insert key (mkCachedConn (conn_sid c) rx)));;
      mret r
  end.

Definition single_shot_tcp (budget : Z) (route_group : option string) (q : string) (qt : QueryType)
    (server : SocketAddr) (txid : Z) : M RState (result (Message * Z) ResolveError) :=
  let qname_lower := normalize_qname q in
  _ ←? get_or_open server route_group;
  built ← unwrap (build_query txid q qt);
  payload ←? mret built;
  c ← gets (fun s => conn_entries s !! conn_key server route_group);
  c ← unwrap c;
  start ← now;
  r ← send_recv (conn_key server route_group) c (write_tcp_frame [] payload) budget;
  d ← elapsed start;
  match r with
  | None => evict server route_group;; mret (Err (Timeout budget))
  | Some (Err e) => evict server route_group;; mret (Err e)
  | Some (Ok data) =>
      match decode_message data with
      | Err e => mret (Err (Decode e))
      | Ok msg =>
          if validate_reply msg txid qname_lower then mret (Ok (msg, d))
          else evict server route_group;; mret (Err (Io "TXID or QNAME mismatch (RFC 5452)"))
      end
  end.

(** ** Choosing servers: the common part of m1.rs and m2.rs *)

Record Telemetry := mkTelemetry {
  winner : SocketAddr;
  losers : list SocketAddr;
  tel_attempted : Z;
  tel_rtt_ms : Z;
  tel_truncated : bool;
  tel_answer_count : Z
}.

Definition count_u32 {A} (l : list A) : Z := as_u32 (Z.of_nat (length l)).

(** The answer and telemetry of a reply, with the source [src]. *)
Definition answered (src : SocketAddr -> ResolverSource) (msg : Message) (win : SocketAddr) (lose : list SocketAddr)
    (att rtt_ms : Z) : ResolveAnswer * Telemetry :=
  (extract_answer msg (src win) (rtt_ms * 10 ^ 6),
   mkTelemetry win lose att rtt_ms (tc (header msg)) (count_u32 (answers msg))).

(** [find_map(Result::ok)] over the shots at [addrs], one after the other. *)
Fixpoint shoot_all (shot : SocketAddr -> Z -> M RState (result (Message * Z) ResolveError))
    (addrs : list SocketAddr) : M RState (list (result (Message * Z * SocketAddr) ResolveError)) :=
  match addrs with
  | [] => mret []
  | a :: addrs =>
      txid ← net random_u16;
      r ← shot a txid;
      rs ← shoot_all shot addrs;
      mret (match r with Ok (m, d) => Ok (m, d, a) | Err e => Err e end :: rs)
  end.

Fixpoint first_ok {A E} (rs : list (result A E)) : option A :=
  match rs with [] => None | Ok a :: _ => Some a | Err _ :: rs => first_ok rs end.

Definition resolve_fanout (shot : SocketAddr -> Z -> M RState (result (Message * Z) ResolveError))
    (src : SocketAddr -> ResolverSource) (ss : list UpstreamServer) (k : Z) :
    M RState (result (ResolveAnswer * Telemetry) ResolveError) :=
  match select_fanout ss k with
  | [] => mret (Err (Io "fanout k=0 produced no servers"))
  | chosen =>
      let addrs := addr <$> chosen in
      rs ← shoot_all shot addrs;
      match first_ok rs with
      | None => mret (Err (Io "all fanout attempts failed"))
      | Some (msg, d, win) =>
          mret (Ok (answered src msg win (List.filter (fun a => negb (bool_decide (a = win))) addrs)
                      (count_u32 chosen) (as_millis d)))
      end
  end.

(** The server of a single-path policy; a round-robin pick moves the pool's counter. *)
Definition pick_server (policy : ServerPolicy) (pool_name q : string) (ss : list UpstreamServer) : M RState UpstreamServer :=
  match policy with
  | PolicyRoundRobin =>
      c ← gets (fun s => default 0 (rr_counters s !! pool_name));
      let '(server, next) := select_round_robin ss c in
      modify (set_counters (alter (fun _ => next) pool_name));;
      unwrap server
  | _ => unwrap (select_consistent_hash hash64 ss (normalize_qname q))
  end.

Definition resolve_upstream (shot : SocketAddr -> Z -> M RState (result (Message * Z) ResolveError))
    (src : SocketAddr -> ResolverSource) (policy : ServerPolicy) (pool_name q : string) (ss : list UpstreamServer) :
    M RState (result (ResolveAnswer * Telemetry) ResolveError) :=
  match ss with
  | [] => mret (Err (Io "no servers configured"))
  | _ =>
      match policy with
      | PolicyFanOut k => resolve_fanout shot src ss k
      | _ =>
          server ← pick_server policy pool_name q ss;
          txid ← net random_u16;
          t0 ← now;
          reply ←? shot (addr server) txid;
          d ← elapsed t0;
          mret (Ok (answered src reply.1 (addr server) [] 1 (as_millis d)))
      end
  end.

Definition resolve_mesh_direct (policy : ServerPolicy) (pool_name : string) (ss : list UpstreamServer)
    (route_group : option string) (q : string) (qt : QueryType) (budget : Z) :
    M RState (result (ResolveAnswer * Telemetry) ResolveError) :=
  resolve_upstream (single_shot budget route_group q qt) SrcMeshDirect policy pool_name q ss.

Definition resolve_tunneled (policy : ServerPolicy) (pool_name : string) (ss : list UpstreamServer)
    (route_group : option string) (q : string) (qt : QueryType) (budget : Z) :
    M RState (result (ResolveAnswer * Telemetry) ResolveError) :=
  resolve_upstream (single_shot_tcp budget route_group q qt) SrcTunneled policy pool_name q ss.

(** ** The builder (data_handle.rs) *)

Inductive ConfigError :=
| NoPool
| DuplicatePool (id : string)
| UnsupportedTunneledScheme (id : string)
| UnsupportedMeshDirectScheme (id : string)
| SystemModeHasServers (id : string).

(** [has_opener] and [has_stream_opener] say whether an opener was injected. *)
Record ResolverBuilder := mkBuilder {
  b_pools : list Pool;
  b_default_pool : option string;
  b_rule_chain : option RuleChain;
  b_rule_sets : option RuleSetRegistry;
  b_has_opener : bool;
  b_has_stream_opener : bool;
  b_query_timeout : option Z;
  b_cache : option DnsCache
}.

Definition builder_new : ResolverBuilder := mkBuilder [] None None None false false None None.

Definition with_pool (b : ResolverBuilder) (p : Pool) : ResolverBuilder :=
  mkBuilder (b_pools b ++ [p])%list (b_default_pool b) (b_rule_chain b) (b_rule_sets b) (b_has_opener b)
    (b_has_stream_opener b) (b_query_timeout b) (b_cache b).
Definition with_default_pool (b : ResolverBuilder) (id : string) : ResolverBuilder :=
  mkBuilder (b_pools b) (Some id) (b_rule_chain b) (b_rule_sets b) (b_has_opener b) (b_has_stream_opener b)
    (b_query_timeout b) (b_cache b).
Definition with_rule_chain (b : ResolverBuilder) (chain : RuleChain) (sets : RuleSetRegistry) : ResolverBuilder :=
  mkBuilder (b_pools b) (b_default_pool b) (Some chain) (Some sets) (b_has_opener b) (b_has_stream_opener b)
    (b_query_timeout b) (b_cache b).
Definition with_datagram_opener (b : ResolverBuilder) : ResolverBuilder :=
  mkBuilder (b_pools b) (b_default_pool b) (b_rule_chain b) (b_rule_sets b) true (b_has_stream_opener b)
    (b_query_timeout b) (b_cache b).
Definition with_stream_opener (b : ResolverBuilder) : ResolverBuilder :=
  mkBuilder (b_pools b) (b_default_pool b) (b_rule_chain b) (b_rule_sets b) (b_has_opener b) true
    (b_query_timeout b) (b_cache b).
Definition with_query_timeout (b : ResolverBuilder) (t : Z) : ResolverBuilder :=
  mkBuilder (b_pools b) (b_default_pool b) (b_rule_chain b) (b_rule_sets b) (b_has_opener b) (b_has_stream_opener b)
    (Some t) (b_cache b).
Definition with_cache (b : ResolverBuilder) (c : DnsCache) : ResolverBuilder :=
  mkBuilder (b_pools b) (b_default_pool b) (b_rule_chain b) (b_rule_sets b) (b_has_opener b) (b_has_stream_opener b)
    (b_query_timeout b) (Some c).

Definition is_udp (s : UpstreamServer) : bool := match scheme s with SchemeUdp => true | SchemeTcp => false end.

Definition validate_pool (p : Pool) : result unit ConfigError :=
  match mode p with
  | SystemMode => ensure (bool_decide (length (servers p) = 0%nat)) (SystemModeHasServers (pool_id p))
  | MeshDirect _ => try_each (fun s => ensure (is_udp s) (UnsupportedMeshDirectScheme (pool_id p))) (servers p)
  | Tunneled _ => try_each (fun s => ensure (negb (is_udp s)) (UnsupportedTunneledScheme (pool_id p))) (servers p)
  end.

Fixpoint validate_pools (seen : list string) (ps : list Pool) : result unit ConfigError :=
  match ps with
  | [] => Ok tt
  | p :: ps =>
      do? ensure (negb (str_mem (pool_id p) seen)) (DuplicatePool (pool_id p));
      do? validate_pool p;
      validate_pools (pool_id p :: seen) ps
  end.

Definition builder_validate (b : ResolverBuilder) : result unit ConfigError :=
  match b_pools b with [] => Err NoPool | ps => validate_pools [] ps end.

(** The immutable part of a [Resolver]. *)
Record Resolver := mkResolver {
  pools : gmap string Pool;
  default_pool : option string;
  rule_chain : option RuleChain;
  rule_sets : option RuleSetRegistry;
  has_opener : bool;
  has_stream_opener : bool;
  query_timeout : Z
}.

(** The resolver and its initial state in the world [w]. *)
Definition builder_build (b : ResolverBuilder) (w : W) : result (Resolver * RState) ConfigError :=
  do? builder_validate b;
  Ok (mkResolver (list_to_map ((fun p => (pool_id p, p)) <$> rev (b_pools b))) (b_default_pool b) (b_rule_chain b)
        (b_rule_sets b) (b_has_opener b) (b_has_stream_opener b) (default (secs 3) (b_query_timeout b)),
      mkRState (b_cache b) (list_to_map ((fun p => (pool_id p, 0)) <$> b_pools b)) ∅ w []).

(** ** [resolve] *)

Definition emit_access_log (sig : ResolutionSignals) (target : string) : M RState unit :=
  modify (fun s => mkRState (rs_cache s) (rr_counters s) (conn_entries s) (world s) (log s ++ [(target, sig)])%list).

Definition OPEN : string := "mesh_bus.resolver.open".
Definition DENIED : string := "mesh_bus.resolver.denied".

(** Log the signals and return. *)
Definition finish (target : string) (r : resolved) : M RState resolved :=
  emit_access_log (match r with Ok (_, sig) => sig | Err (_, sig) => sig end) target;; mret r.

(** [Instant::now] is only read when there is a cache to write. *)
Definition cache_write (key : string * QueryType) (a : ResolveAnswer) : M RState unit :=
  c ← gets rs_cache;
  match c with
  | None => skip
  | Some c =>
      t ← now;
      modify (set_cache (Some (put_positive c t key (records a) (secs (Z.max (min_rr_ttl a) 1)))))
  end.

Definition localhost_records (qt : QueryType) : list AnswerRecord :=
  let v4 := AnsA [127; 0; 0; 1] in
  let v6 := AnsAaaa (replicate 15 0 ++ [1])%list in
  match qt with QtA => [v4] | QtAaaa => [v6] | _ => [v4; v6] end.

Definition sig_answer (s : ResolutionSignals) (rtt_ms count : Z) (trunc : bool) : ResolutionSignals :=
  mkSignals (qname_key s) (pool s) rtt_ms (winner_exit s) (attempted s) count trunc (matched_rule_id s)
    (matched_rule_index s) (sig_default_used s) (action s) (schedule_hint s).
Definition sig_winner (s : ResolutionSignals) (att : Z) (w : WinnerExit) : ResolutionSignals :=
  mkSignals (qname_key s) (pool s) (resolver_rtt_ms s) w att (answer_count s) (sig_truncated s) (matched_rule_id s)
    (matched_rule_index s) (sig_default_used s) (action s) (schedule_hint s).
Definition sig_pool (s : ResolutionSignals) (p : string) : ResolutionSignals :=
  mkSignals (qname_key s) p (resolver_rtt_ms s) (winner_exit s) (attempted s) (answer_count s) (sig_truncated s)
    (matched_rule_id s) (matched_rule_index s) (sig_default_used s) (action s) (schedule_hint s).

(** [if sig.schedule_hint.is_empty() { .. }] *)
Definition sig_hint (s : ResolutionSignals) (label : string) : ResolutionSignals :=
  if str_is_empty (schedule_hint s) then
    mkSignals (qname_key s) (pool s) (resolver_rtt_ms s) (winner_exit s) (attempted s) (answer_count s) (sig_truncated s)
      (matched_rule_id s) (matched_rule_index s) (sig_default_used s) (action s)
      (if str_is_empty label then "ordered" else label)
  else s.

(** [apply_m1_result], [apply_m2_result] and [apply_telemetry] *)
Definition apply_telemetry (key : string * QueryType) (sig : ResolutionSignals) (src : SocketAddr -> ResolverSource)
    (r : result (ResolveAnswer * Telemetry) ResolveError) : M RState resolved :=
  match r with
  | Err e => finish OPEN (Err (e, sig))
  | Ok (a, tel) =>
      let a := mkAnswer (records a) (src (winner tel)) (truncated a) (rtt a) (min_rr_ttl a) in
      let w := match losers tel with [] => SinglePath (winner tel) | ls => FanOut (winner tel) ls end in
      let sig := sig_winner (sig_answer sig (tel_rtt_ms tel) (tel_answer_count tel) (tel_truncated tel))
                   (tel_attempted tel) w in
      cache_write key a;;
      finish OPEN (Ok (a, sig))
  end.

(** The fresh entry of the cache, if any. *)
Definition fresh_hit (key : string * QueryType) : M RState (option Lookup) :=
  c ← gets rs_cache;
  match c with
  | None => mret None
  | Some c =>
      match cache_lookup c key with
      | None => mret None
      | Some hit => t ← now; mret (if is_fresh t hit then Some hit else None)
      end
  end.

Definition cached_answer (qname_lower : string) (hit : Lookup) : resolved :=
  let sig := sig_answer (fresh_signals qname_lower "cache") 0 (count_u32 (lookup_records hit)) false in
  match hit with
  | Positive rs _ => Ok (mkAnswer rs SrcSystem false 0 0, sig)
  | Negative _ => Err (NxDomain, sig)
  end.

(** A system lookup with the signals it fills in. *)
Definition system_answer (sig : ResolutionSignals) (a : ResolveAnswer) : ResolutionSignals :=
  sig_answer sig (as_millis (rtt a)) (count_u32 (records a)) (truncated a).

(** The names that bypass the rule chain. *)
Definition special_use (req : ResolveRequest) (qname_lower : string) : option (M RState resolved) :=
  if is_special_use_localhost qname_lower then
    Some (finish OPEN (Ok (mkAnswer (localhost_records (qtype req)) SrcSystem false 0 60,
                           fresh_signals qname_lower "(special-use:localhost)")))
  else if is_special_use_invalid_or_reserved qname_lower then
    Some (finish OPEN (Err (NxDomain, fresh_signals qname_lower "(special-use:nxdomain)")))
  else if is_rfc6303_reverse qname_lower then
    let sig := fresh_signals qname_lower "(rfc6303:system)" in
    Some (r ← resolve_system (qname req) (qtype req);
          finish OPEN (match r with Ok a => Ok (a, system_answer sig a) | Err e => Err (e, sig) end))
  else None.

(** The rule chain's projection and signals; the error is a denial. *)
Definition evaluate_rules (r : Resolver) (req : ResolveRequest) (qname_lower : string) :
    result (Projection * ResolutionSignals) ResolutionSignals :=
  let sig := fresh_signals qname_lower "" in
  match rule_chain r with
  | None => Ok (projection_default, sig)
  | Some chain =>
      let d := evaluate_with_trace chain (build_rule_ctx req) (default ∅ (rule_sets r)) in
      let p := project_decision d in
      let sig := record_rule_decision sig d in
      if denied p then Err (sig_pool sig "(denied)") else Ok (p, sig)
  end.

(** The pool's lookup. *)
Definition query_pool (r : Resolver) (p : Pool) (pool_name : string) (proj : Projection) (req : ResolveRequest)
    (key : string * QueryType) (sig : ResolutionSignals) : M RState resolved :=
  match mode p with
  | SystemMode =>
      ans ← resolve_system (qname req) (qtype req);
      match ans with
      | Err e => finish OPEN (Err (e, sig))
      | Ok a => cache_write key a;; finish OPEN (Ok (a, system_answer sig a))
      end
  | MeshDirect policy =>
      if has_opener r then
        res ← resolve_mesh_direct policy pool_name (servers p) (proj_route_group proj) (qname req) (qtype req) (query_timeout r);
        apply_telemetry key sig SrcMeshDirect res
      else finish OPEN
             (Err (Io "MeshDirect pool requires DatagramOpener (use ResolverBuilder::with_datagram_opener)", sig))
  | Tunneled policy =>
      if has_stream_opener r then
        res ← resolve_tunneled policy pool_name (servers p) (proj_route_group proj) (qname req) (qtype req) (query_timeout r);
        apply_telemetry key sig SrcTunneled res
      else finish OPEN
             (Err (Io "Tunneled pool requires StreamOpener (use ResolverBuilder::with_stream_opener)", sig))
  end.

Definition resolve (r : Resolver) (req : ResolveRequest) : M RState resolved :=
  let qname_lower := normalize_qname (qname req) in
  let key := (qname_lower, qtype req) in
  hit ← fresh_hit key;
  match hit with
  | Some hit => finish OPEN (cached_answer qname_lower hit)
  | None =>
      match special_use req qname_lower with
      | Some m => m
      | None =>
          match evaluate_rules r req qname_lower with
          | Err sig => finish DENIED (Err (Denied, sig))
          | Ok (proj, sig) =>
              let pool_name := default (default "(none)" (default_pool r)) (proj_pool proj) in
              let sig := sig_hint (sig_pool sig pool_name) (schedule_hint_label proj) in
              match pools r !! pool_name with
              | None => finish OPEN (Err (PoolNotFound pool_name, sig))
              | Some p => query_pool r p pool_name proj req key sig
              end
          end
      end
  end.
End Run.
