(* ===== verification/ResolverFacts.v ===== *)
(** Theorems about the resolver: every query is answered and logged once, denied
    queries reach nobody, answers are the replies that configured servers sent to the query,
    the cache answers until its entry expires, and round-robin pools are fair. *)
From S2P Require Import Prelude Numbers NetAddr Rules RulesFacts Endpoint StateM Dns DnsFacts Resolver ResolverRun.
Local Open Scope string_scope.
Local Open Scope Z_scope.

(** ** Rule projection *)

Section Projections.
Context `{RuleLibs}.

(** An action denies when a [Deny] is anywhere in it. *)
Fixpoint has_deny (a : Action) : bool :=
  match a with
  | Deny => true
  | Compose acts => existsb has_deny acts
  | _ => false
  end.

Fixpoint action_ind' (P : Action -> Prop) (Hleaf : forall a, (forall l, a <> Compose l) -> P a)
    (Hc : forall l, Forall P l -> P (Compose l)) (a : Action) : P a :=
  match a with
  | Compose l =>
      Hc l ((fix go (l : list Action) : Forall P l :=
               match l with
               | [] => Forall_nil_2 P
               | x :: l => Forall_cons_2 P x l (action_ind' P Hleaf Hc x) (go l)
               end) l)
  | other => Hleaf other ltac:(done)
  end.

Lemma denied_label s p : denied (label_if_empty s p) = denied p.
Proof. unfold label_if_empty. by destruct (str_is_empty _). Qed.

Lemma denied_walk a : forall p, denied (walk a p) = denied p || has_deny a.
Proof.
  induction a as [a Ha|l IH] using action_ind'; intros p.
  - destruct a; cbn [walk has_deny]; rewrite ?denied_label, ?orb_true_r, ?orb_false_r; cbn [denied]; try done.
    by destruct (Ha actions).
  - cbn [walk has_deny]. revert p. induction IH as [|x xs Hx _ IHxs]; intros p; [by rewrite orb_false_r|].
    cbn [existsb]. rewrite orb_assoc, <- Hx. destruct (denied (walk x p)) eqn:E; [done|]. rewrite IHxs, E. done.
Qed.

Lemma denied_project d : denied (project_decision d) = has_deny (decision_action d).
Proof. unfold project_decision. by rewrite denied_label, denied_walk. Qed.

(** Whether the chain of a resolver denies a request. *)
Definition chain_denies (r : Resolver) (req : ResolveRequest) : bool :=
  match ResolverRun.rule_chain r with
  | None => false
  | Some chain =>
      has_deny (decision_action (evaluate_with_trace chain (build_rule_ctx req) (default ∅ (rule_sets r))))
  end.
End Projections.

(** ** Nothing panics, and who touches what *)

Lemma build_query_some txid q qt : exists r, build_query txid q qt = Some r.
Proof.
  unfold build_query. destruct (from_ascii q) as [n|e]; [|by eexists]. unfold encode_message. cbn -[encode_questions put_u16].
  destruct (encode_questions _); by eexists.
Qed.

Lemma round_robin_some ss c : ss <> [] -> exists s, (select_round_robin ss c).1 = Some s.
Proof.
  intros Hss. apply lookup_lt_is_Some. destruct ss; [done|]. cbn [length].
  pose proof (Z.mod_pos_bound c (Z.of_nat (S (length ss)))). lia.
Qed.

Lemma consistent_hash_some h ss q : ss <> [] -> exists s, select_consistent_hash h ss q = Some s.
Proof.
  intros Hss. apply lookup_lt_is_Some. destruct ss; [done|]. cbn [length].
  pose proof (Z.mod_pos_bound (as_u64 (h q)) (Z.of_nat (S (length ss)))). lia.
Qed.

Section Keep.
Context {W : Type} `{!ResolverNet W} `{RuleLibs}.
Context (I : @RState W -> Prop).

(** An invariant that the world, the counters and the connections cannot break. *)
Definition offline : Prop :=
  forall s f, I s -> I (mkRState (rs_cache s) (f (rr_counters s)) (conn_entries s) (world s) (log s))
  /\ (forall g, I (mkRState (rs_cache s) (rr_counters s) (g (conn_entries s)) (world s) (log s)))
  /\ (forall w, I (mkRState (rs_cache s) (rr_counters s) (conn_entries s) w (log s))).
Hypothesis Hoff : offline.

Lemma keeps_net {A} (f : W -> A * W) : keeps I (net f).
Proof. intros s Hs. unfold net. destruct (f (world s)) as [a w]. do 2 eexists. split; [done|]. by apply (Hoff s id). Qed.

Lemma keeps_unwrap {A} (o : option A) : is_Some o -> keeps I (unwrap o).
Proof. intros [a ->]. apply keeps_ret. Qed.

Lemma keeps_try {A B E} (m : M RState (result A E)) (k : A -> M RState (result B E)) :
  keeps I m -> (forall a, keeps I (k a)) -> keeps I (try_bind m k).
Proof. intros Hm Hk. apply keeps_bind; [done|]. intros [a|e]; [apply Hk|apply keeps_ret]. Qed.

Lemma keeps_conns f : keeps I (modify (set_conns f)).
Proof. apply triple_modify. intros s Hs. by apply (Hoff s id). Qed.

Lemma keeps_counters f : keeps I (modify (set_counters f)).
Proof. apply triple_modify. intros s Hs. by apply (Hoff s f). Qed.

Hint Resolve keeps_net keeps_conns keeps_counters keeps_unwrap keeps_ret keeps_gets : keeps.

Ltac keeping :=
  repeat first
    [ progress auto with keeps
    | apply keeps_try; [|intros ?]
    | apply keeps_bind; [|intros ?]
    | match goal with |- keeps _ (match ?x with _ => _ end) => destruct x end
    | progress cbv zeta ].

Lemma keeps_elapsed t : keeps I (elapsed t).
Proof. unfold elapsed, now. keeping. Qed.
Hint Resolve keeps_elapsed : keeps.

Lemma keeps_now : keeps I now.
Proof. apply keeps_net. Qed.
Hint Resolve keeps_now : keeps.

Lemma keeps_system q qt : keeps I (resolve_system q qt).
Proof. unfold resolve_system. keeping. Qed.

Lemma keeps_single_shot b rg q qt a txid : keeps I (single_shot b rg q qt a txid).
Proof. unfold single_shot. keeping. destruct (build_query_some txid q qt) as [r ->]. eauto with keeps. Qed.

Lemma keeps_read_frame n sid : forall rx, keeps I (read_one_frame n sid rx).
Proof. induction n; intros rx; cbn [read_one_frame]; keeping. Qed.

Lemma keeps_send_recv key c framed b : keeps I (send_recv key c framed b).
Proof. unfold send_recv. pose proof keeps_read_frame. keeping. Qed.
Hint Resolve keeps_send_recv : keeps.

Lemma keeps_evict a rg : keeps I (evict a rg).
Proof. apply keeps_conns. Qed.
Hint Resolve keeps_evict : keeps.

(** Afterwards the connection is in the table. *)
Lemma get_or_open_spec a rg :
  triple I (get_or_open a rg) (fun r s => I s /\ (r = Ok tt -> is_Some (conn_entries s !! conn_key a rg))).
Proof.
  intros s Hs. unfold get_or_open. rewrite run_bind, run_gets. destruct (conn_entries s !! conn_key a rg) eqn:E.
  { exists (Ok tt), s. rewrite run_ret, E. split; [done|]. split; [done|]. by eexists. }
  rewrite run_try, run_ret. destruct (session_request a rg) as [req|e]; [|by exists (Err e), s].
  rewrite run_bind. destruct (keeps_net (open_stream req) s Hs) as (o & s1 & -> & H1).
  rewrite run_try, run_ret. destruct o as [sid|e]; cbn [map_err]; [|by exists (Err (Io ("open_stream: " +:+ e))), s1].
  rewrite run_bind. destruct (keeps_net (st_connect sid) s1 H1) as (o & s2 & -> & H2).
  rewrite run_try, run_ret. destruct o as [?|e]; cbn [map_err]; [|by exists (Err (Io ("stream connect: " +:+ e))), s2].
  rewrite run_bind, run_modify. do 2 eexists. split; [done|]. split; [by apply (Hoff s2 id)|]. intros _.
  cbn [set_conns conn_entries]. rewrite lookup_insert. by case_decide.
Qed.

Lemma keeps_single_shot_tcp b rg q qt a txid : keeps I (single_shot_tcp b rg q qt a txid).
Proof.
  unfold single_shot_tcp. cbv zeta. unfold try_bind at 1.
  eapply triple_bind; [apply get_or_open_spec|]. intros [[]|e]; [|by apply triple_ret; intros s [Hs _]].
  destruct (build_query_some txid q qt) as [built ->]. intros s [Hs Hc]. destruct (Hc eq_refl) as [c Ec].
  rewrite run_bind. cbn [unwrap]. rewrite run_ret, run_try, run_ret. destruct built as [payload|e]; [|by exists (Err e), s].
  rewrite run_bind, run_gets, run_bind, Ec. cbn [unwrap]. rewrite run_ret.
  revert s Hs Hc Ec. cut (keeps I (start ← now;
    r ← send_recv (conn_key a rg) c (write_tcp_frame [] payload) b; d ← elapsed start;
    match r with
    | None => evict a rg;; mret (Err (Timeout b))
    | Some (Err e) => evict a rg;; mret (Err e)
    | Some (Ok data) =>
        match decode_message data with
        | Err e => mret (Err (Decode e))
        | Ok msg => if validate_reply msg txid (normalize_qname q) then mret (Ok (msg, d))
                    else evict a rg;; mret (Err (Io "TXID or QNAME mismatch (RFC 5452)"))
        end
    end)).
  { intros Hk s Hs _ _. exact (Hk s Hs). }
  keeping.
Qed.

Lemma keeps_shoot_all shot addrs : (forall a t, keeps I (shot a t)) -> keeps I (shoot_all shot addrs).
Proof. intros Hs. induction addrs; cbn [shoot_all]; keeping. Qed.

Lemma keeps_upstream shot src policy name q ss : (forall a t, keeps I (shot a t)) ->
  keeps I (resolve_upstream shot src policy name q ss).
Proof.
  intros Hs. unfold resolve_upstream. destruct ss as [|s0 ss]; [apply keeps_ret|].
  assert (Hp : keeps I (pick_server policy name q (s0 :: ss))).
  { unfold pick_server. destruct policy; [|by apply keeps_unwrap, consistent_hash_some..].
    apply keeps_gets_bind. intros st _. destruct (select_round_robin _ _) as [o n] eqn:E.
    apply keeps_bind; [apply keeps_counters|]. intros _. apply keeps_unwrap.
    destruct (round_robin_some (s0 :: ss) (default 0 (rr_counters st !! name))) as [x Hx]; [done|].
    rewrite E in Hx. cbn in Hx. by rewrite Hx. }
  destruct policy as [| |k].
  1,2: keeping.
  unfold resolve_fanout. destruct (select_fanout _ _); [apply keeps_ret|].
  apply keeps_bind; [by apply keeps_shoot_all|]. intros rs. destruct (first_ok rs) as [[[? ?] ?]|]; apply keeps_ret.
Qed.
End Keep.

#[export] Hint Resolve keeps_system keeps_single_shot keeps_single_shot_tcp keeps_now keeps_elapsed : keeps.

(** ** Every query is answered and logged *)

Section Facts.
Context {W : Type} `{!ResolverNet W} `{RuleLibs}.

(** The signals of an answer or error. *)
Definition signals_of (res : resolved) : ResolutionSignals := match res with Ok (_, s) => s | Err (_, s) => s end.

Definition is_denied (res : resolved) : bool := match res with Err (Denied, _) => true | _ => false end.

(** *** Only the rule chain denies *)

Definition no_denial {A S} (m : M S (result A ResolveError)) : Prop := forall s x s', m s = Some (x, s') -> x <> Err Denied.

Lemma nd_ret {A S} (x : result A ResolveError) : x <> Err Denied -> no_denial (mret x : M S _).
Proof. intros Hx s y s'. rewrite run_ret. by intros [= <- _]. Qed.

Lemma nd_bind {A B S} (m : M S A) (k : A -> M S (result B ResolveError)) :
  (forall a, no_denial (k a)) -> no_denial (m ≫= k).
Proof. intros Hk s x s'. rewrite run_bind. destruct (m s) as [[a s1]|]; [apply Hk|done]. Qed.

Lemma nd_try {A B S} (m : M S (result A ResolveError)) (k : A -> M S (result B ResolveError)) :
  no_denial m -> (forall a, no_denial (k a)) -> no_denial (try_bind m k).
Proof.
  intros Hm Hk s x s'. rewrite run_try. destruct (m s) as [[[a|e] s1]|] eqn:E; [apply Hk| |done].
  intros [= <- _]. intros [= ->]. by apply (Hm _ _ _ E).
Qed.

Lemma nd_map_io {A} (f : string -> string) (x : result A string) : map_err (fun e => Io (f e)) x <> Err Denied.
Proof. by destruct x. Qed.

Lemma nd_session a rg : session_request a rg <> Err Denied.
Proof. unfold session_request. by destruct (endpoint_new _ _). Qed.

Lemma nd_build txid q qt x : build_query txid q qt = Some x -> x <> Err Denied.
Proof.
  unfold build_query. destruct (from_ascii q); [|by intros [= <-]]. destruct (encode_message _) as [[y|e]|]; [..|done]; by intros [= <-].
Qed.

Lemma nd_check d t q : check_reply d t q <> Err Denied.
Proof. unfold check_reply. destruct (decode_message d); [|done]. by destruct (validate_reply _ _ _). Qed.

Lemma nd_unwrap_build {A} txid q qt (k : list Z -> M (@RState W) (result A ResolveError)) :
  (forall p, no_denial (k p)) -> no_denial (built ← unwrap (build_query txid q qt); try_bind (mret built) k).
Proof.
  intros Hk. destruct (build_query txid q qt) as [b|] eqn:E; [|by intros s x s'].
  intros s x s'. rewrite run_bind. cbn [unwrap]. rewrite run_ret. by apply nd_try; [apply nd_ret, (nd_build _ _ _ _ E)|].
Qed.

Ltac undenied :=
  repeat first
    [ apply nd_ret; first [done | apply (nd_map_io (fun e => "open_datagram: " +:+ e)) | apply (nd_map_io (fun e => "send_to: " +:+ e))
                          | apply (nd_map_io (fun e => "open_stream: " +:+ e)) | apply (nd_map_io (fun e => "stream connect: " +:+ e))
                          | apply nd_session | apply nd_check ]
    | apply nd_unwrap_build; intros ?
    | apply nd_try; [|intros ?]
    | apply nd_bind; intros ?
    | match goal with |- no_denial (match ?x with _ => _ end) => destruct x end
    | progress cbv zeta ].

Lemma nd_system q qt : no_denial (resolve_system (W:=W) q qt).
Proof. unfold resolve_system. undenied. Qed.

Lemma nd_single_shot b rg q qt a txid : no_denial (single_shot (W:=W) b rg q qt a txid).
Proof. unfold single_shot. undenied. Qed.

Lemma nd_get_or_open a rg : no_denial (get_or_open (W:=W) a rg).
Proof. unfold get_or_open. undenied. Qed.

Lemma nd_read_frame n sid : forall rx s x s',
  read_one_frame (W:=W) n sid rx s = Some (x, s') -> x.1 <> Some (Err Denied).
Proof.
  induction n as [|n IH]; intros rx s x s'; cbn [read_one_frame];
    destruct (try_read_tcp_frame rx) as [[f|] rx']; rewrite ?run_ret; try by intros [= <- _].
  rewrite run_bind. destruct (net _ s) as [[[chunk|] s1]|]; [apply IH| |done]. rewrite run_ret. by intros [= <- _].
Qed.

Lemma nd_send_recv key c framed b s x s' : send_recv (W:=W) key c framed b s = Some (x, s') -> x <> Some (Err Denied).
Proof.
  unfold send_recv. rewrite run_bind. destruct (net _ s) as [[[[?|?]|] s1]|]; [|by rewrite run_ret; intros [= <- _]..|done].
  rewrite run_bind, run_gets, run_bind. destruct (read_one_frame _ _ _ s1) as [[[r rx] s2]|] eqn:E; [|done].
  rewrite run_bind, run_modify, run_ret. intros [= <- _]. apply (nd_read_frame _ _ _ _ _ _ E).
Qed.

Lemma nd_single_shot_tcp b rg q qt a txid : no_denial (single_shot_tcp (W:=W) b rg q qt a txid).
Proof.
  unfold single_shot_tcp. cbv zeta. apply nd_try; [apply nd_get_or_open|]. intros _. apply nd_unwrap_build. intros payload.
  apply nd_bind. intros c. apply nd_bind. intros c'. apply nd_bind. intros start s x s'. rewrite run_bind.
  destruct (send_recv _ _ _ _ s) as [[r s1]|] eqn:E; [|done]. apply nd_send_recv in E. revert s1 x s'.
  apply nd_bind. intros d. destruct r as [[data|e]|]; undenied. apply nd_ret. congruence.
Qed.

Lemma nd_upstream shot src policy name q ss : (forall a t, no_denial (shot a t)) ->
  no_denial (resolve_upstream (W:=W) shot src policy name q ss).
Proof. intros Hs. unfold resolve_upstream, resolve_fanout. undenied; apply Hs. Qed.

(** *** The state a query leaves *)

Lemma run_finish target (res : resolved) (s : @RState W) :
  finish target res s = Some (res, mkRState (rs_cache s) (rr_counters s) (conn_entries s) (world s)
                                     (log s ++ [(target, signals_of res)])).
Proof. unfold finish, emit_access_log. rewrite run_bind, run_modify, run_ret. by destruct res as [[? ?]|[? ?]]. Qed.

(** A query that ended with one log line, and no denial of its own. *)
Definition logged (m : M (@RState W) resolved) : Prop := forall l,
  triple (fun s => log s = l) m (fun res s => is_denied res = false /\ log s = (l ++ [(OPEN, signals_of res)])%list).

Lemma logged_finish (res : resolved) : is_denied res = false -> logged (finish OPEN res).
Proof. intros Hd l s Hs. rewrite run_finish. do 2 eexists. split; [done|]. split; [done|]. cbn. by rewrite Hs. Qed.

Lemma logged_bind {A} (m : M (@RState W) A) (k : A -> M RState resolved) (Q : A -> Prop) :
  (forall l, triple (fun s => log s = l) m (fun a s => Q a /\ log s = l)) -> (forall a, Q a -> logged (k a)) ->
  logged (m ≫= k).
Proof.
  intros Hm Hk l. eapply triple_bind; [apply Hm|]. intros a. apply triple_pure. intros Ha. by apply Hk.
Qed.

(** Keeping the log, and a property of what is returned. *)
Lemma keeps_and {A} (m : M (@RState W) A) (Q : A -> Prop) l :
  keeps (fun s => log s = l) m -> (forall s x s', m s = Some (x, s') -> Q x) ->
  triple (fun s => log s = l) m (fun a s => Q a /\ log s = l).
Proof. intros Hk HQ s Hs. destruct (Hk s Hs) as (a & s' & E & Hl). exists a, s'. split; [done|]. split; [by eapply HQ|done]. Qed.

Lemma offline_log (l : list (string * ResolutionSignals)) : offline (W:=W) (fun s => log s = l).
Proof. intros s f Hs. by split_and!. Qed.
Hint Resolve offline_log : core.

Lemma keeps_cache_write key a l : keeps (fun s : @RState W => log s = l) (cache_write key a).
Proof.
  unfold cache_write. apply keeps_bind; [apply keeps_gets|]. intros [c|]; [|apply keeps_ret].
  apply keeps_bind; [by apply keeps_now|]. intros t. by apply triple_modify.
Qed.

Lemma not_denied_err e (sig : ResolutionSignals) : e <> Denied -> is_denied (Err (e, sig)) = false.
Proof. by destruct e. Qed.

Lemma logged_special req q m : special_use (W:=W) req q = Some m -> logged m.
Proof.
  unfold special_use. destruct (is_special_use_localhost q); [by intros [= <-]; apply logged_finish|].
  destruct (is_special_use_invalid_or_reserved q); [by intros [= <-]; apply logged_finish|].
  destruct (is_rfc6303_reverse q); [|done]. intros [= <-].
  apply (logged_bind _ _ (fun x => x <> Err Denied)).
  - intros l. apply keeps_and; [by apply keeps_system|apply nd_system].
  - intros [a|e] Hr; apply logged_finish; [done|]. apply not_denied_err; congruence.
Qed.

Lemma logged_telemetry key sig src res : res <> Err Denied -> logged (apply_telemetry (W:=W) key sig src res).
Proof.
  intros Hr. unfold apply_telemetry. destruct res as [[a tel]|e].
  - apply (logged_bind _ _ (fun _ => True)); [|by intros; apply logged_finish].
    intros l. by apply keeps_and; [apply keeps_cache_write|].
  - apply logged_finish, not_denied_err; congruence.
Qed.

Lemma logged_pool r p name proj req key sig : logged (query_pool (W:=W) r p name proj req key sig).
Proof.
  unfold query_pool. destruct (mode p) as [|policy|policy].
  - apply (logged_bind _ _ (fun x => x <> Err Denied)).
    + intros l. apply keeps_and; [by apply keeps_system|apply nd_system].
    + intros [a|e] Hr; [|apply logged_finish, not_denied_err; congruence].
      apply (logged_bind _ _ (fun _ => True)); [|by intros; apply logged_finish].
      intros l. by apply keeps_and; [apply keeps_cache_write|].
  - destruct (has_opener r); [|by apply logged_finish]. apply (logged_bind _ _ (fun x => x <> Err Denied)).
    + intros l. apply keeps_and; [apply keeps_upstream; auto with keeps|]. apply nd_upstream, nd_single_shot.
    + intros res. apply logged_telemetry.
  - destruct (has_stream_opener r); [|by apply logged_finish]. apply (logged_bind _ _ (fun x => x <> Err Denied)).
    + intros l. apply keeps_and; [apply keeps_upstream; auto with keeps|]. apply nd_upstream, nd_single_shot_tcp.
    + intros res. apply logged_telemetry.
Qed.

(** [fresh_hit] reads the clock when there is an entry. *)
Lemma fresh_hit_run key (s : @RState W) : exists o w,
  fresh_hit key s = Some (o, mkRState (rs_cache s) (rr_counters s) (conn_entries s) w (log s))
  /\ (w = world s \/ w = (clock (world s)).2)
  /\ (forall hit, o = Some hit <-> exists c, rs_cache s = Some c /\ cache_lookup c key = Some hit
        /\ (clock (world s)).1 < lookup_expires hit).
Proof.
  unfold fresh_hit. rewrite run_bind, run_gets. destruct (rs_cache s) as [c|] eqn:Ec.
  2:{ exists None, (world s). destruct s; cbn in *; subst. split_and!; [done|by left|]. naive_solver. }
  destruct (cache_lookup c key) as [l|] eqn:El.
  2:{ exists None, (world s). destruct s; cbn in *; subst. split_and!; [done|by left|]. naive_solver. }
  rewrite run_bind. unfold now, net. destruct (clock (world s)) as [t w] eqn:Ew. rewrite run_ret. cbn [fst snd] in *.
  do 2 eexists. split; [by rewrite Ec|]. split; [by right|]. intros hit. unfold is_fresh.
  destruct (Z.ltb_spec t (lookup_expires l)) as [Hlt|Hge]; split.
  - intros [= <-]. by exists c.
  - intros (c' & [= <-] & E & _). congruence.
  - done.
  - intros (c' & [= <-] & E & ?). replace hit with l in * by congruence. lia.
Qed.

Lemma evaluate_rules_denies r req q sig : evaluate_rules r req q = Err sig -> chain_denies r req = true.
Proof.
  unfold evaluate_rules, chain_denies. destruct (ResolverRun.rule_chain r) as [chain|]; [|done].
  rewrite denied_project. by destruct (has_deny _).
Qed.

Lemma evaluate_rules_passes r req q x : evaluate_rules r req q = Ok x -> chain_denies r req = false.
Proof.
  unfold evaluate_rules, chain_denies. destruct (ResolverRun.rule_chain r) as [chain|]; [|done].
  rewrite denied_project. by destruct (has_deny _).
Qed.

(** Every query ends -- no panic, whatever the network, the servers and the system
    resolver do -- and leaves exactly one access-log line with the signals it returns;
    the line has the denial target exactly when the query was denied, and only the
    rule chain denies. *)
Theorem every_query_is_logged_once (r : Resolver) (req : ResolveRequest) (s : @RState W) :
  exists res s', resolve r req s = Some (res, s')
    /\ log s' = (log s ++ [(if is_denied res then DENIED else OPEN, signals_of res)])%list
    /\ (is_denied res = true -> chain_denies r req = true).
Proof.
  unfold resolve. rewrite run_bind. destruct (fresh_hit_run (normalize_qname (qname req), qtype req) s) as (o & w & -> & _ & _).
  set (s0 := mkRState _ _ _ w _). assert (Hl : forall m, logged m -> exists res s', m s0 = Some (res, s')
    /\ log s' = (log s ++ [(if is_denied res then DENIED else OPEN, signals_of res)])%list
    /\ (is_denied res = true -> chain_denies r req = true)).
  { intros m Hm. destruct (Hm (log s) s0 eq_refl) as (res & s' & E & Hd & Hlog). exists res, s'. by rewrite Hd. }
  destruct o as [hit|]; [apply Hl, logged_finish; by destruct hit|].
  destruct (special_use req _) as [m|] eqn:Em; [by eapply Hl, logged_special|].
  destruct (evaluate_rules r req _) as [[proj sig]|sig] eqn:Er.
  - destruct (pools r !! _); [apply Hl, logged_pool|by apply Hl, logged_finish].
  - rewrite run_finish. do 2 eexists. split; [done|]. split; [done|]. intros _. by eapply evaluate_rules_denies.
Qed.

(** Names that are answered before the rules are asked. *)
Definition special_name (req : ResolveRequest) : bool :=
  let q := normalize_qname (qname req) in
  is_special_use_localhost q || is_special_use_invalid_or_reserved q || is_rfc6303_reverse q.

Lemma special_use_none req : special_name req = false -> special_use (W:=W) req (normalize_qname (qname req)) = None.
Proof.
  unfold special_name, special_use. intros H1. apply orb_false_iff in H1 as [H1 H2]. apply orb_false_iff in H1 as [H1 H3].
  by rewrite H1, H2, H3.
Qed.

(** No entry of the cache is fresh for the request. *)
Definition cache_miss (req : ResolveRequest) (s : @RState W) : Prop :=
  forall c l, rs_cache s = Some c -> cache_lookup c (normalize_qname (qname req), qtype req) = Some l ->
    lookup_expires l <= (clock (world s)).1.

Lemma fresh_hit_miss req (s : @RState W) : cache_miss req s -> exists w,
  fresh_hit (normalize_qname (qname req), qtype req) s
    = Some (None, mkRState (rs_cache s) (rr_counters s) (conn_entries s) w (log s))
  /\ (w = world s \/ w = (clock (world s)).2).
Proof.
  intros Hm. destruct (fresh_hit_run (normalize_qname (qname req), qtype req) s) as ([hit|] & w & E & Hw & Hh); [|by exists w].
  destruct (proj1 (Hh hit) eq_refl) as (c & Hc & Hl & Hlt). specialize (Hm c hit Hc Hl). lia.
Qed.

(** A query the rules deny reaches nobody: with no fresh cache entry and no
    special-use name it returns [Denied], and the cache, the counters, the connections
    and the network are as before, but for a look at the clock. *)
Theorem denied_query_reaches_nobody (r : Resolver) (req : ResolveRequest) (s : @RState W)
    (Hd : chain_denies r req = true) (Hs : special_name req = false) (Hm : cache_miss req s) :
  exists sig s', resolve r req s = Some (Err (Denied, sig), s')
    /\ pool sig = "(denied)" /\ rs_cache s' = rs_cache s /\ rr_counters s' = rr_counters s
    /\ conn_entries s' = conn_entries s /\ (world s' = world s \/ world s' = (clock (world s)).2).
Proof.
  unfold resolve. rewrite run_bind. destruct (fresh_hit_miss req s Hm) as (w & -> & Hw). rewrite special_use_none by done.
  destruct (evaluate_rules r req _) as [x|sig] eqn:Er; [apply evaluate_rules_passes in Er; congruence|].
  rewrite run_finish. do 2 eexists. split; [done|]. split; [|done].
  revert Er. unfold evaluate_rules. destruct (ResolverRun.rule_chain r); [|done]. destruct (denied _); [|done]. by intros [= <-].
Qed.

(** ** The cache *)

Lemma offline_cache (c : option DnsCache) : offline (W:=W) (fun s => rs_cache s = c).
Proof. intros s f Hs. by split_and!. Qed.
Hint Resolve offline_cache : core.

(** What an answered query leaves in the cache: the records, until the smaller of the
    answer's TTL (at least a second) and five minutes after the time it was written, the
    last time the clock was read. *)
Definition stored (c : DnsCache) (key : string * QueryType) (a : ResolveAnswer) (s' : @RState W) : Prop :=
  exists w0, world s' = (clock w0).2
    /\ rs_cache s' = Some (put_positive c (clock w0).1 key (records a) (secs (Z.max (min_rr_ttl a) 1))).

Lemma cache_write_run key a c (s : @RState W) : rs_cache s = Some c -> exists s',
  cache_write key a s = Some (tt, s') /\ stored c key a s'.
Proof.
  intros Hc. unfold cache_write. rewrite run_bind, run_gets, Hc, run_bind. unfold now, net.
  destruct (clock (world s)) as [t w] eqn:E. rewrite run_modify. eexists. split; [done|]. exists (world s). by rewrite E.
Qed.

Lemma write_finish key a sig c (s : @RState W) a' sig' s' : rs_cache s = Some c ->
  (cache_write key a;; finish OPEN (Ok (a, sig))) s = Some (Ok (a', sig'), s') -> stored c key a' s'.
Proof.
  intros Hc. rewrite run_bind. destruct (cache_write_run key a c s Hc) as (s1 & -> & Hst). rewrite run_finish.
  by intros [= <- <- <-].
Qed.

Lemma telemetry_stores key sig src res c (s : @RState W) a sig' s' : rs_cache s = Some c ->
  apply_telemetry key sig src res s = Some (Ok (a, sig'), s') -> stored c key a s'.
Proof. intros Hc. unfold apply_telemetry. destruct res as [[a0 tel]|e]; [by apply write_finish|by rewrite run_finish]. Qed.

Lemma pool_stores r p name proj req key sig c (s : @RState W) a sig' s' : rs_cache s = Some c ->
  query_pool r p name proj req key sig s = Some (Ok (a, sig'), s') -> stored c key a s'.
Proof.
  intros Hc. unfold query_pool. destruct (mode p) as [|policy|policy].
  - rewrite run_bind. destruct (keeps_system _ (offline_cache (Some c)) (qname req) (qtype req) s Hc) as (res & s1 & -> & H1).
    destruct res as [a0|e]; [by apply write_finish|by rewrite run_finish].
  - destruct (has_opener r); [|by rewrite run_finish]. rewrite run_bind.
    destruct (keeps_upstream _ (offline_cache (Some c)) (single_shot (query_timeout r) (proj_route_group proj) (qname req)
      (qtype req)) SrcMeshDirect policy name (qname req) (servers p) ltac:(auto with keeps) s Hc) as (res & s1 & E & H1).
    unfold resolve_mesh_direct. rewrite E. by apply telemetry_stores.
  - destruct (has_stream_opener r); [|by rewrite run_finish]. rewrite run_bind.
    destruct (keeps_upstream _ (offline_cache (Some c)) (single_shot_tcp (query_timeout r) (proj_route_group proj) (qname req)
      (qtype req)) SrcTunneled policy name (qname req) (servers p) ltac:(auto with keeps) s Hc) as (res & s1 & E & H1).
    unfold resolve_tunneled. rewrite E. by apply telemetry_stores.
Qed.

Lemma resolve_stores r req c (s : @RState W) a sig s' :
  rs_cache s = Some c -> special_name req = false -> cache_miss req s ->
  resolve r req s = Some (Ok (a, sig), s') -> stored c (normalize_qname (qname req), qtype req) a s'.
Proof.
  intros Hc Hs Hm. unfold resolve. rewrite run_bind. destruct (fresh_hit_miss req s Hm) as (w & -> & Hw).
  rewrite special_use_none by done. destruct (evaluate_rules r req _) as [[proj sig0]|sig0]; [|by rewrite run_finish].
  destruct (pools r !! _) as [p|]; [|by rewrite run_finish]. by apply pool_stores.
Qed.

Lemma resolve_cached r req c rs e (s : @RState W) : rs_cache s = Some c ->
  positive c !! (normalize_qname (qname req), qtype req) = Some (mkPositive rs e) -> (clock (world s)).1 < e ->
  exists sig s', resolve r req s = Some (Ok (mkAnswer rs SrcSystem false 0 0, sig), s')
    /\ pool sig = "cache" /\ rs_cache s' = Some c /\ rr_counters s' = rr_counters s /\ conn_entries s' = conn_entries s
    /\ (world s' = world s \/ world s' = (clock (world s)).2).
Proof.
  intros Hc Hp Hlt. unfold resolve. rewrite run_bind.
  destruct (fresh_hit_run (normalize_qname (qname req), qtype req) s) as (o & w & -> & Hw & Hh).
  assert (o = Some (Positive rs e)) as ->. { apply Hh. exists c. unfold cache_lookup. by rewrite Hp. }
  rewrite run_finish. do 2 eexists. split; [done|]. by split_and!.
Qed.

(** Once a query was answered, its records are in the cache for the answer's smallest
    TTL, at least a second and at most five minutes, from the last reading of the
    clock; and until then every query for the same name and type gets these records,
    without a session or a rule being looked at.  This holds for every consumer, also
    one the rules deny. *)
Theorem cached_answer_serves_everyone (r : Resolver) (req : ResolveRequest) (c : DnsCache) (s s1 : @RState W)
    (a : ResolveAnswer) (sig : ResolutionSignals)
    (Hc : rs_cache s = Some c) (Hs : special_name req = false) (Hm : cache_miss req s)
    (Hr : resolve r req s = Some (Ok (a, sig), s1)) :
  exists w0 c1,
    let expires := (clock w0).1 + Z.min (secs (Z.max (min_rr_ttl a) 1)) TTL_MAX_POSITIVE in
    world s1 = (clock w0).2 /\ rs_cache s1 = Some c1
    /\ positive c1 !! (normalize_qname (qname req), qtype req) = Some (mkPositive (records a) expires)
    /\ forall req' s2, normalize_qname (qname req') = normalize_qname (qname req) -> qtype req' = qtype req ->
         rs_cache s2 = Some c1 -> (clock (world s2)).1 < expires ->
         exists sig' s3, resolve r req' s2 = Some (Ok (mkAnswer (records a) SrcSystem false 0 0, sig'), s3)
           /\ rs_cache s3 = Some c1 /\ rr_counters s3 = rr_counters s2 /\ conn_entries s3 = conn_entries s2
           /\ (world s3 = world s2 \/ world s3 = (clock (world s2)).2).
Proof.
  destruct (resolve_stores r req c s a sig s1 Hc Hs Hm Hr) as (w0 & Hw & Hst). exists w0. eexists. cbv zeta.
  split; [done|]. split; [exact Hst|]. assert (Hl : forall c1 e, positive (put_positive c1 e (normalize_qname (qname req), qtype req)
    (records a) (secs (Z.max (min_rr_ttl a) 1))) !! (normalize_qname (qname req), qtype req)
    = Some (mkPositive (records a) (e + Z.min (secs (Z.max (min_rr_ttl a) 1)) TTL_MAX_POSITIVE))).
  { intros c1 e. cbn. rewrite lookup_insert. by case_decide. }
  split; [apply Hl|]. intros req' s2 Hkey Hqt Hc2 Hlt.
  edestruct (resolve_cached r req') as (sig' & s3 & E & _ & H3 & H4); [exact Hc2| |exact Hlt|].
  { rewrite Hkey, Hqt. apply Hl. }
  by exists sig', s3.
Qed.

(** ** Returned values *)

(** Whatever is returned without an error satisfies [G]. *)
Definition ok_post {A E} (m : M (@RState W) (result A E)) (G : A -> Prop) : Prop :=
  forall s x s', m s = Some (Ok x, s') -> G x.

Lemma op_err {A E} (e : E) (G : A -> Prop) : ok_post (mret (Err e)) G.
Proof. intros s x s'. by rewrite run_ret. Qed.

Lemma op_ok {A E} (a : A) (G : A -> Prop) : G a -> ok_post (E:=E) (mret (Ok a)) G.
Proof. intros Ha s x s'. rewrite run_ret. by intros [= <- _]. Qed.

Lemma op_bind {A B E} (m : M (@RState W) A) (k : A -> M RState (result B E)) G :
  (forall a, ok_post (k a) G) -> ok_post (m ≫= k) G.
Proof. intros Hk s x s'. rewrite run_bind. destruct (m s) as [[a s1]|]; [apply Hk|done]. Qed.

Lemma op_try {A B E} (m : M (@RState W) (result A E)) (k : A -> M RState (result B E)) G' G :
  ok_post m G' -> (forall a, G' a -> ok_post (k a) G) -> ok_post (try_bind m k) G.
Proof. intros Hm Hk s x s'. rewrite run_try. destruct (m s) as [[[a|e] s1]|] eqn:E1; [|done..]. by apply Hk, (Hm _ _ _ E1). Qed.

Lemma op_any {A E} (m : M (@RState W) (result A E)) : ok_post m (fun _ => True).
Proof. done. Qed.

Ltac ok_steps :=
  repeat first
    [ apply op_err
    | eapply op_try; [apply op_any|intros ? _]
    | apply op_bind; intros ?
    | match goal with |- ok_post (match ?x with _ => _ end) _ => destruct x eqn:? end
    | progress cbv zeta ].

Lemma pick_server_in policy name q ss (s : @RState W) server s' :
  pick_server policy name q ss s = Some (server, s') -> server ∈ ss.
Proof.
  assert (Hu : forall i (s : @RState W), unwrap (ss !! i) s = Some (server, s') -> server ∈ ss).
  { intros i s0. destruct (ss !! i) eqn:El; [|done]. intros [= -> _]. by apply list_elem_of_lookup_2 in El. }
  unfold pick_server. destruct policy; [|apply Hu..]. rewrite run_bind, run_gets. unfold select_round_robin.
  rewrite run_bind, run_modify. apply Hu.
Qed.

Lemma system_source q qt : ok_post (resolve_system (W:=W) q qt) (fun a => source a = SrcSystem).
Proof. unfold resolve_system. ok_steps; by apply op_ok. Qed.

Lemma pool_hint sig name label : pool (sig_hint (sig_pool sig name) label) = name.
Proof. unfold sig_hint. by destruct (str_is_empty _). Qed.

(** ** Failed lookups *)

(** The message with another response code. *)
Definition with_rcode (m : Message) (code : Z) : Message :=
  let h := header m in
  mkMessage (mkHeader (h_id h) (Z.lor (Z.shiftl (Z.shiftr (h_flags h) 4) 4) code) (qd h) (an h) (ns h) (ar h))
    (questions m) (answers m) (authorities m) (additionals m).

Lemma tc_with_rcode m code : 0 <= code < 16 -> tc (header (with_rcode m code)) = tc (header m).
Proof.
  intros Hc. unfold tc. cbn [with_rcode header h_flags]. f_equal. apply Z.bits_inj'. intros i Hi0.
  rewrite !Z.land_spec. destruct (decide (i = 0)) as [->|Hi].
  2:{ rewrite (Z.bits_above_log2 1 i), !andb_false_r; [done|lia|cbn; lia]. }
  rewrite !Z.shiftr_spec, Z.lor_spec, Z.shiftl_spec, Z.shiftr_spec by lia.
  rewrite (Z.bits_above_log2 code); [by rewrite orb_false_r|lia|].
  destruct (decide (code = 0)) as [->|]; [done|]. apply Z.log2_lt_pow2; lia.
Qed.

(** The response code of a reply is not looked at: a reply with any other code -- a
    server failure, a refusal, a name that does not exist -- is accepted, and answered
    and cached with the same records, TTL, truncation and counts. *)
Theorem response_code_is_ignored (msg : Message) (code txid att rtt_ms : Z) (q : string)
    (src : SocketAddr -> ResolverSource) (win : SocketAddr) (lose : list SocketAddr) (Hcode : 0 <= code < 16) :
  rcode (header (with_rcode msg code)) = code
  /\ validate_reply (with_rcode msg code) txid q = validate_reply msg txid q
  /\ answered src (with_rcode msg code) win lose att rtt_ms = answered src msg win lose att rtt_ms.
Proof.
  split_and!; [|done|unfold answered, extract_answer; by rewrite tc_with_rcode].
  unfold rcode. cbn [with_rcode header h_flags]. apply Z.bits_inj. intros i. rewrite Z.land_spec, Z.lor_spec.
  destruct (decide (i < 0)); [by rewrite !Z.testbit_neg_r by lia|]. rewrite Z.shiftl_spec by lia.
  destruct (decide (i < 4)) as [Hi|Hi].
  - rewrite (Z.testbit_neg_r _ (i - 4)) by lia. change 15 with (Z.ones 4). rewrite Z.ones_spec_low by lia. by rewrite andb_true_r.
  - change 15 with (Z.ones 4). rewrite Z.ones_spec_high by lia. rewrite andb_false_r. symmetry.
    apply Z.bits_above_log2; [lia|]. destruct (decide (code = 0)) as [->|]; [cbn; lia|].
    assert (Z.log2 code < 4); [apply Z.log2_lt_pow2; lia|lia].
Qed.
End Facts.

(** ** Answers and the replies on the wire *)

(** *** Frames of a stream *)

Lemma try_read_more l more f rest :
  try_read_tcp_frame l = (Some f, rest) -> try_read_tcp_frame (l ++ more) = (Some f, rest ++ more)%list.
Proof.
  unfold try_read_tcp_frame, bytes_at. rewrite !drop_0. destruct (Nat.ltb_spec (length l) 2); [done|].
  destruct (Nat.ltb_spec (length l) (2 + Z.to_nat (from_be_bytes (take 2 l)))); [done|]. intros [= <- <-].
  rewrite length_app. destruct (Nat.ltb_spec (length l + length more) 2); [lia|].
  rewrite take_app_le by lia. destruct (Nat.ltb_spec (length l + length more) (2 + Z.to_nat (from_be_bytes (take 2 l)))); [lia|].
  rewrite !drop_app_le by lia. rewrite take_app_le by (rewrite length_drop; lia). done.
Qed.

Lemma try_read_none l rest : try_read_tcp_frame l = (None, rest) -> rest = l.
Proof. unfold try_read_tcp_frame. repeat case_match; congruence. Qed.

(** What is left of a stream behind its first [n] frames. *)
Fixpoint skip_frames (n : nat) (l : list Z) : option (list Z) :=
  match n with
  | O => Some l
  | S n => match try_read_tcp_frame l with (Some _, rest) => skip_frames n rest | (None, _) => None end
  end.

Lemma skip_frames_more n l more r : skip_frames n l = Some r -> skip_frames n (l ++ more) = Some (r ++ more)%list.
Proof.
  revert l. induction n as [|n IH]; intros l; cbn [skip_frames]; [by intros [= ->]|].
  destruct (try_read_tcp_frame l) as [[f|] rest] eqn:E; [|done]. rewrite (try_read_more _ _ _ _ E). apply IH.
Qed.

Lemma skip_frames_next n l r f rest :
  skip_frames n l = Some r -> try_read_tcp_frame r = (Some f, rest) -> skip_frames (S n) l = Some rest.
Proof.
  revert l. induction n as [|n IH]; intros l; cbn [skip_frames]; [by intros [= ->] ->|].
  destruct (try_read_tcp_frame l) as [[g|] m]; [|done]. apply IH.
Qed.

Section Wire.
Context {W : Type} {N : ResolverNet W} `{RuleLibs}.

(** *** A world that is watched

    Any world, in which the sessions are numbered as they are opened, and the transaction
    numbers that were drawn and all that was sent and received are written down. *)
Inductive NetEvent :=
| DrewTxid (txid : Z)
| OpenedDatagram (req : SessionRequest) (sid : nat)
| SentTo (sid : nat) (to : Endpoint) (payload : list Z)
| GotFrom (sid : nat) (data : list Z)
| OpenedStream (req : SessionRequest) (sid : nat)
| Sent (sid : nat) (bytes : list Z)
| GotChunk (sid : nat) (bytes : list Z).

Record Watched := mkWatched { inner : W; handles : list nat; seen : list NetEvent }.

Definition through {A} (f : W -> A * W) (ev : A -> list NetEvent) (w : Watched) : A * Watched :=
  let '(a, v) := f (inner w) in (a, mkWatched v (handles w) (seen w ++ ev a)).

Definition opening (f : W -> result nat string * W) (ev : nat -> NetEvent) (w : Watched) : result nat string * Watched :=
  match f (inner w) with
  | (Ok sid, v) => (Ok (length (handles w)), mkWatched v (handles w ++ [sid]) (seen w ++ [ev (length (handles w))]))
  | (Err e, v) => (Err e, mkWatched v (handles w) (seen w))
  end.

Definition handle (sid : nat) (w : Watched) : nat := default 0%nat (handles w !! sid).

#[export] Instance watched_net : ResolverNet Watched := {|
  clock := through clock (fun _ => []);
  random_u16 := through random_u16 (fun t => [DrewTxid t]);
  getaddrinfo q := through (getaddrinfo q) (fun _ => []);
  open_datagram req := opening (open_datagram req) (OpenedDatagram req);
  dg_send_to sid to b w :=
    through (dg_send_to (handle sid w) to b) (fun r => match r with Ok _ => [SentTo sid to b] | Err _ => [] end) w;
  dg_recv_from sid t w :=
    through (dg_recv_from (handle sid w) t) (fun r => match r with Got d => [GotFrom sid d] | _ => [] end) w;
  dg_close sid w := mkWatched (dg_close (handle sid w) (inner w)) (handles w) (seen w);
  open_stream req := opening (open_stream req) (OpenedStream req);
  st_connect sid w := through (st_connect (handle sid w)) (fun _ => []) w;
  st_send sid b t w :=
    through (st_send (handle sid w) b t) (fun r => match r with Some (Ok _) => [Sent sid b] | _ => [] end) w;
  st_patience sid w := st_patience (handle sid w) (inner w);
  st_recv sid w := through (st_recv (handle sid w)) (fun r => match r with Some b => [GotChunk sid b] | None => [] end) w;
  hash64 := hash64 |}.

(** The queries sent on a stream session, and the bytes that came back on it. *)
Definition sends (sid : nat) (l : list NetEvent) : nat :=
  length (List.filter (fun e => match e with Sent i _ => (i =? sid)%nat | _ => false end) l).
Definition got_on (sid : nat) (l : list NetEvent) : list Z :=
  flat_map (fun e => match e with GotChunk i b => if (i =? sid)%nat then b else [] | _ => [] end) l.

Lemma sends_app sid l k : sends sid (l ++ k) = (sends sid l + sends sid k)%nat.
Proof. unfold sends. by rewrite List.filter_app, length_app. Qed.

Lemma got_on_app sid l k : got_on sid (l ++ k) = (got_on sid l ++ got_on sid k)%list.
Proof. apply flat_map_app. Qed.

(** *** Genuine replies *)

(** The message carries the transaction's number and, if it repeats a question, the
    query's name. *)
Definition genuine (q : string) (txid : Z) (msg : Message) : Prop :=
  h_id (header msg) = txid /\ forall x l, questions msg = x :: l -> canonical (q_name x) = normalize_qname q.

Lemma validate_genuine msg txid q : validate_reply msg txid (normalize_qname q) = true -> genuine q txid msg.
Proof.
  unfold validate_reply, genuine. destruct (Z.eqb_spec (h_id (header msg)) txid); [|done]. cbn [negb].
  destruct (questions msg) as [|x l]; intros Hv; [done|]. split; [done|]. intros y k [= <- <-]. by apply bool_decide_eq_true in Hv.
Qed.

(** A query over a session of its own: what was sent is the query under [txid], to the
    server, and what was received next is the message. *)
Definition datagram_exchange (rg : option string) (q : string) (qt : QueryType) (srv : SocketAddr) (txid : Z)
    (pre evs : list NetEvent) (msg : Message) : Prop :=
  exists req sid payload data, session_request srv rg = Ok req
    /\ evs = [OpenedDatagram req sid; SentTo sid (sr_target req) payload; GotFrom sid data]
    /\ build_query txid q qt = Some (Ok payload) /\ decode_message data = Ok msg /\ genuine q txid msg.

(** A query over a stream session, which was opened to the server now or before: if it is
    the session's query number [n], the message is frame number [n] of what was received on
    the session. *)
Definition stream_exchange (rg : option string) (q : string) (qt : QueryType) (srv : SocketAddr) (txid : Z)
    (pre evs : list NetEvent) (msg : Message) : Prop :=
  exists req sid opened payload chunks stream data rest, session_request srv rg = Ok req
    /\ evs = (opened ++ Sent sid (write_tcp_frame [] payload) :: (GotChunk sid <$> chunks))%list
    /\ (opened = [] \/ opened = [OpenedStream req sid]) /\ OpenedStream req sid ∈ (pre ++ opened)%list
    /\ build_query txid q qt = Some (Ok payload)
    /\ skip_frames (sends sid pre) (got_on sid (pre ++ evs)) = Some stream /\ try_read_tcp_frame stream = (Some data, rest)
    /\ decode_message data = Ok msg /\ genuine q txid msg.

(** Between [before] and [after], a transaction number was drawn, and its query exchanged. *)
Definition exchanged (ex : SocketAddr -> Z -> list NetEvent -> list NetEvent -> Message -> Prop) (srv : SocketAddr)
    (before after : list NetEvent) (msg : Message) : Prop :=
  exists mid txid evs post, after = (before ++ mid ++ [DrewTxid txid] ++ evs ++ post)%list
    /\ ex srv txid (before ++ mid ++ [DrewTxid txid])%list evs msg.

Lemma exchanged_earlier ex srv b1 b2 a msg : exchanged ex srv (b1 ++ b2) a msg -> exchanged ex srv b1 a msg.
Proof. intros (mid & txid & evs & post & -> & Hx). exists (b2 ++ mid)%list, txid, evs, post. by rewrite <- !app_assoc in *. Qed.

Lemma exchanged_later ex srv b a more msg : exchanged ex srv b a msg -> exchanged ex srv b (a ++ more) msg.
Proof. intros (mid & txid & evs & post & -> & Hx). exists mid, txid, evs, (post ++ more)%list. by rewrite <- !app_assoc. Qed.

(** *** The connections' buffers are in step with their sessions *)

Abbreviation WState := (@RState Watched).

Definition conn_ok (s : WState) (key : SocketAddr * option string) (c : CachedConn) : Prop :=
  (exists req, session_request key.1 key.2 = Ok req /\ OpenedStream req (conn_sid c) ∈ seen (world s))
  /\ (conn_sid c < length (handles (world s)))%nat
  /\ skip_frames (sends (conn_sid c) (seen (world s))) (got_on (conn_sid c) (seen (world s))) = Some (rx_buf c).

Record in_step (s : WState) : Prop := mkInStep {
  conns_ok : forall key c, conn_entries s !! key = Some c -> conn_ok s key c;
  conns_apart : forall k1 k2 c1 c2, conn_entries s !! k1 = Some c1 -> conn_entries s !! k2 = Some c2 ->
    conn_sid c1 = conn_sid c2 -> k1 = k2;
  nothing_unopened : forall sid, (length (handles (world s)) <= sid)%nat ->
    sends sid (seen (world s)) = 0%nat /\ got_on sid (seen (world s)) = []
}.

Definition is_quiet (e : NetEvent) : bool := match e with Sent _ _ | GotChunk _ _ => false | _ => true end.

Lemma quiet_sends sid l : forallb is_quiet l = true -> sends sid l = 0%nat /\ got_on sid l = [].
Proof.
  induction l as [|e l IH]; [done|]. cbn. intros [He Hl]%andb_true_iff. destruct (IH Hl) as [I1 I2]. unfold sends in *. by destruct e.
Qed.

(** A step that leaves the connections and their sessions alone. *)
Definition quietly (s s' : WState) : Prop :=
  conn_entries s' = conn_entries s /\ (length (handles (world s)) <= length (handles (world s')))%nat
  /\ exists evs, seen (world s') = (seen (world s) ++ evs)%list /\ forallb is_quiet evs = true.

Lemma quietly_refl s : quietly s s.
Proof. split_and!; [done|lia|]. exists []. by rewrite app_nil_r. Qed.

Lemma quietly_trans s1 s2 s3 : quietly s1 s2 -> quietly s2 s3 -> quietly s1 s3.
Proof.
  intros (E1 & L1 & e1 & S1 & Q1) (E2 & L2 & e2 & S2 & Q2). split_and!; [congruence|lia|]. exists (e1 ++ e2)%list.
  rewrite S2, S1, <- app_assoc. split; [done|]. by rewrite forallb_app, Q1, Q2.
Qed.

Lemma quietly_in_step s s' : quietly s s' -> in_step s -> in_step s'.
Proof.
  intros (E & L & evs & S & Q) [H1 H2 H3]. split.
  - rewrite E. intros key c Hc. destruct (H1 key c Hc) as ((req & Hr & Ho) & Hl & Hs). split_and!.
    + exists req. split; [done|]. rewrite S. apply elem_of_app. by left.
    + lia.
    + rewrite S, sends_app, got_on_app. destruct (quiet_sends (conn_sid c) evs Q) as [-> ->].
      by rewrite Nat.add_0_r, app_nil_r.
  - rewrite E. exact H2.
  - intros sid Hsid. rewrite S, sends_app, got_on_app. destruct (quiet_sends sid evs Q) as [-> ->].
    destruct (H3 sid) as [-> ->]; [lia|done].
Qed.

Definition quiet {A} (m : M WState A) : Prop := forall s x s', m s = Some (x, s') -> quietly s s'.

Lemma quiet_ret {A} (a : A) : quiet (mret a).
Proof. intros s x s'. rewrite run_ret. intros [= _ <-]. apply quietly_refl. Qed.

Lemma quiet_gets {A} (f : WState -> A) : quiet (gets f).
Proof. intros s x s'. rewrite run_gets. intros [= _ <-]. apply quietly_refl. Qed.

Lemma quiet_unwrap {A} (o : option A) : quiet (unwrap o).
Proof. destruct o; [apply quiet_ret|by intros s x s']. Qed.

Lemma hush_bind {A B} (m : M WState A) (k : A -> M WState B) : quiet m -> (forall a, quiet (k a)) -> quiet (m ≫= k).
Proof.
  intros Hm Hk s x s'. rewrite run_bind. destruct (m s) as [[a s1]|] eqn:E; [|done]. intros E2.
  eapply quietly_trans; [by eapply Hm|by eapply Hk].
Qed.

Lemma quiet_try {A B E} (m : M WState (result A E)) (k : A -> M WState (result B E)) :
  quiet m -> (forall a, quiet (k a)) -> quiet (try_bind m k).
Proof. intros Hm Hk. apply hush_bind; [done|]. intros [a|e]; [apply Hk|apply quiet_ret]. Qed.

Lemma hush_modify (f : WState -> WState) : (forall s, conn_entries (f s) = conn_entries s /\ world (f s) = world s) -> quiet (modify f).
Proof. intros Hf s x s'. rewrite run_modify. intros [= _ <-]. destruct (Hf s) as [E1 E2]. split; [done|]. rewrite E2. apply (quietly_refl s). Qed.

Lemma quiet_through {A} (f : Watched -> W -> A * W) (ev : A -> list NetEvent) :
  (forall a, forallb is_quiet (ev a) = true) -> quiet (net (fun w => through (f w) ev w)).
Proof.
  intros Hev s x s'. unfold net, through. destruct (f (world s) (inner (world s))) as [a v]. intros [= _ <-].
  split_and!; [done|cbn; lia|]. by exists (ev a).
Qed.

Lemma quiet_opening f ev : (forall n, is_quiet (ev n) = true) -> quiet (net (opening f ev)).
Proof.
  intros Hev s x s'. unfold net, opening. destruct (f _) as [[sid|e] v]; intros [= _ <-]; split_and!; try done.
  - cbn. rewrite length_app. lia.
  - exists [ev (length (handles (world s)))]. cbn. by rewrite Hev.
  - exists []. cbn. by rewrite app_nil_r.
Qed.

Lemma quiet_now : quiet now.
Proof. by apply (quiet_through (fun _ => clock) (fun _ => [])). Qed.

Lemma quiet_random : quiet (net random_u16).
Proof. by apply (quiet_through (fun _ => random_u16) (fun t => [DrewTxid t])). Qed.

Lemma quiet_getaddrinfo q : quiet (net (getaddrinfo q)).
Proof. by apply (quiet_through (fun _ => getaddrinfo q) (fun _ => [])). Qed.

Lemma quiet_open_datagram req : quiet (net (open_datagram req)).
Proof. by apply quiet_opening. Qed.

Lemma quiet_open_stream req : quiet (net (open_stream req)).
Proof. by apply quiet_opening. Qed.

Lemma quiet_send_to sid to b : quiet (net (dg_send_to sid to b)).
Proof.
  apply (quiet_through (fun w => dg_send_to (handle sid w) to b) (fun r => match r with Ok _ => [SentTo sid to b] | Err _ => [] end)).
  by intros [].
Qed.

Lemma quiet_recv_from sid t : quiet (net (dg_recv_from sid t)).
Proof.
  apply (quiet_through (fun w => dg_recv_from (handle sid w) t) (fun r => match r with Got d => [GotFrom sid d] | _ => [] end)).
  by intros [].
Qed.

Lemma quiet_connect sid : quiet (net (st_connect sid)).
Proof. by apply (quiet_through (fun w => st_connect (handle sid w)) (fun _ => [])). Qed.

Lemma quiet_close sid : quiet (net (fun w => (tt, dg_close sid w))).
Proof. intros s x s'. unfold net. intros [= _ <-]. split_and!; [done|done|]. exists []. cbn. by rewrite app_nil_r. Qed.

Create HintDb quiet.
Hint Resolve quiet_ret quiet_gets quiet_unwrap quiet_now quiet_random quiet_getaddrinfo quiet_open_datagram quiet_open_stream
  quiet_send_to quiet_recv_from quiet_connect quiet_close : quiet.

Ltac quieting :=
  repeat first
    [ progress auto with quiet
    | apply quiet_try; [|intros ?]
    | apply hush_bind; [|intros ?]
    | match goal with |- quiet (match ?x with _ => _ end) => destruct x end
    | progress cbv zeta ].

Lemma quiet_elapsed t : quiet (elapsed t).
Proof. unfold elapsed. quieting. Qed.
Hint Resolve quiet_elapsed : quiet.

Lemma quiet_system q qt : quiet (resolve_system q qt).
Proof. unfold resolve_system. quieting. Qed.

Lemma quiet_single_shot b rg q qt a txid : quiet (single_shot b rg q qt a txid).
Proof. unfold single_shot. quieting. Qed.

Lemma quiet_pick policy name q ss : quiet (pick_server policy name q ss).
Proof.
  unfold pick_server. destruct policy; [|apply quiet_unwrap..]. apply hush_bind; [apply quiet_gets|]. intros c.
  destruct (select_round_robin _ _). apply hush_bind; [by apply hush_modify|]. intros _. apply quiet_unwrap.
Qed.

Lemma quiet_cache_write key a : quiet (cache_write key a).
Proof.
  unfold cache_write. apply hush_bind; [apply quiet_gets|]. intros [c|]; [|apply quiet_ret].
  apply hush_bind; [apply quiet_now|]. intros t. by apply hush_modify.
Qed.

Lemma quiet_finish target (res : resolved) : quiet (finish target res).
Proof. unfold finish. apply hush_bind; [by apply hush_modify|]. intros _. apply quiet_ret. Qed.

Lemma quiet_telemetry key sig src res : quiet (apply_telemetry key sig src res).
Proof.
  unfold apply_telemetry. destruct res as [[a tel]|e]; [|apply quiet_finish]. cbv zeta.
  apply hush_bind; [apply quiet_cache_write|]. intros _. apply quiet_finish.
Qed.

Lemma quiet_fresh_hit key : quiet (fresh_hit key).
Proof. unfold fresh_hit. quieting. Qed.

(** *** What a query writes down *)

Definition emits {A} (m : M WState A) (Q : A -> list NetEvent -> Prop) : Prop :=
  forall s x s', m s = Some (x, s') -> exists evs, seen (world s') = (seen (world s) ++ evs)%list /\ Q x evs.

Lemma emits_ret {A} (a : A) (Q : A -> list NetEvent -> Prop) : Q a [] -> emits (mret a) Q.
Proof. intros HQ s x s'. rewrite run_ret. intros [= <- <-]. exists []. by rewrite app_nil_r. Qed.

Lemma emits_bind {A B} (m : M WState A) (k : A -> M WState B) Qm Q :
  emits m Qm -> (forall a e1, Qm a e1 -> emits (k a) (fun b e2 => Q b (e1 ++ e2)%list)) -> emits (m ≫= k) Q.
Proof.
  intros Hm Hk s x s'. rewrite run_bind. destruct (m s) as [[a s1]|] eqn:E; [|done]. intros E2.
  destruct (Hm _ _ _ E) as (e1 & S1 & H1). destruct (Hk a e1 H1 _ _ _ E2) as (e2 & S2 & H2). exists (e1 ++ e2)%list.
  split; [|done]. by rewrite S2, S1, app_assoc.
Qed.

Lemma emits_through {A} (f : Watched -> W -> A * W) (ev : A -> list NetEvent) :
  emits (net (fun w => through (f w) ev w)) (fun a evs => evs = ev a).
Proof. intros s x s'. unfold net, through. destruct (f _ _) as [a v]. intros [= <- <-]. by exists (ev a). Qed.

Lemma emits_opening f ev :
  emits (net (opening f ev)) (fun r evs => evs = match r with Ok sid => [ev sid] | Err _ => [] end).
Proof.
  intros s x s'. unfold net, opening. destruct (f _) as [[sid|e] v]; intros [= <- <-]; eexists; (split; [|done]); [done|].
  cbn. by rewrite app_nil_r.
Qed.

Lemma emits_now : emits now (fun _ evs => evs = []).
Proof. apply (emits_through (fun _ => clock) (fun _ => [])). Qed.

Lemma emits_elapsed t : emits (elapsed t) (fun _ evs => evs = []).
Proof. eapply emits_bind; [apply emits_now|]. intros a e1 ->. by apply emits_ret. Qed.

Lemma emits_close sid : emits (net (fun w => (tt, dg_close sid w))) (fun _ evs => evs = []).
Proof. intros s x s'. unfold net. intros [= _ <-]. exists []. cbn. by rewrite app_nil_r. Qed.

Lemma emits_try_ret {A B E} (r : result A E) (k : A -> M WState (result B E)) Q :
  (forall e, r = Err e -> Q (Err e) []) -> (forall a, r = Ok a -> emits (k a) Q) -> emits (try_bind (mret r) k) Q.
Proof. intros He Hk. destruct r as [a|e]; [|by apply emits_ret, He]. intros s x s'. rewrite run_try, run_ret. by apply Hk. Qed.

Lemma map_err_ok {A E F} (f : E -> F) (r : result A E) a : map_err f r = Ok a -> r = Ok a.
Proof. destruct r; [|done]. by intros [= ->]. Qed.

(** A shot in a state in step leaves one in step, and an answer of it was exchanged. *)
Definition shot_ok (ex : SocketAddr -> Z -> list NetEvent -> list NetEvent -> Message -> Prop)
    (shot : SocketAddr -> Z -> M WState (result (Message * Z) ResolveError)) : Prop :=
  forall a txid s x s', in_step s -> shot a txid s = Some (x, s') ->
    in_step s' /\ exists evs, seen (world s') = (seen (world s) ++ evs)%list
      /\ forall m d, x = Ok (m, d) -> ex a txid (seen (world s)) evs m.

Lemma single_shot_ok b rg q qt : shot_ok (datagram_exchange rg q qt) (single_shot b rg q qt).
Proof.
  intros a txid s x s' Hs E. split; [apply (quietly_in_step s); [by eapply quiet_single_shot|done]|].
  revert s x s' Hs E. cut (emits (single_shot b rg q qt a txid)
    (fun x evs => forall m d pre, x = Ok (m, d) -> datagram_exchange rg q qt a txid pre evs m)).
  { intros He s x s' _ E. destruct (He _ _ _ E) as (evs & S & Hx). exists evs. split; [done|]. intros m d. apply Hx. }
  unfold single_shot. apply emits_try_ret; [done|]. intros req Hreq.
  eapply emits_bind; [apply emits_opening|]. intros opened e1 ->. apply emits_try_ret; [by intros|]. intros sid ->%map_err_ok.
  destruct (build_query txid q qt) as [built|] eqn:Eb; [|by intros ? ? ?]. intros s x s'. rewrite run_bind. cbn [unwrap]. rewrite run_ret.
  revert s x s'. apply emits_try_ret; [by intros|]. intros payload ->.
  eapply emits_bind; [apply (emits_through (fun w => dg_send_to (handle sid w) (sr_target req) payload))|]. intros sent e2 ->.
  apply emits_try_ret; [by intros|]. intros u ->%map_err_ok.
  eapply emits_bind; [apply emits_now|]. intros start e3 ->.
  eapply emits_bind; [apply (emits_through (fun w => dg_recv_from (handle sid w) b))|]. intros r e4 ->.
  eapply emits_bind; [apply emits_elapsed|]. intros d e5 ->.
  eapply emits_bind; [apply emits_close|]. intros [] e6 ->. destruct r as [| |data]; [by apply emits_ret..|].
  apply emits_try_ret; [by intros|]. intros msg Hc. apply emits_ret. intros m d' pre [= <- <-].
  unfold check_reply in Hc. destruct (decode_message data) as [m|] eqn:Ed; [|done].
  destruct (validate_reply m txid (normalize_qname q)) eqn:Ev; [|done]. injection Hc as ->.
  exists req, sid, payload, data. split_and!; try done. by apply validate_genuine.
Qed.

(** *** Stream sessions *)

Lemma in_step_eq (s s' : WState) : conn_entries s' = conn_entries s -> world s' = world s -> in_step s -> in_step s'.
Proof. intros E1 E2 [H1 H2 H3]. split; unfold conn_ok in *; rewrite ?E1, ?E2; done. Qed.

(** The event is about the stream session [sid]. *)
Definition about (sid : nat) (e : NetEvent) : Prop := match e with Sent i _ | GotChunk i _ => i = sid | _ => False end.

Lemma about_other sid sid' l : Forall (about sid) l -> sid' <> sid -> sends sid' l = 0%nat /\ got_on sid' l = [].
Proof.
  intros Hl Hne. induction Hl as [|e l He _ [I1 I2]]; [done|]. change (e :: l) with ([e] ++ l)%list.
  rewrite sends_app, got_on_app, I1, I2. destruct e; try done; cbn in He; subst; unfold sends; cbn;
    by destruct (Nat.eqb_spec sid sid').
Qed.

(** A connection that was used and dropped. *)
Lemma talk_in_step (s s' : WState) key c evs :
  in_step s -> conn_entries s !! key = Some c -> conn_entries s' = delete key (conn_entries s) ->
  handles (world s') = handles (world s) -> seen (world s') = (seen (world s) ++ evs)%list -> Forall (about (conn_sid c)) evs ->
  in_step s'.
Proof.
  intros [H1 H2 H3] Hc Ec Eh Es Hev. destruct (H1 _ _ Hc) as (_ & Hl & _). split.
  - intros k c'. rewrite Ec. intros [Hne Hk]%lookup_delete_Some. destruct (H1 k c' Hk) as ((req & Hr & Ho) & Hl' & Hs).
    unfold conn_ok. rewrite Eh, Es, sends_app, got_on_app. destruct (about_other _ (conn_sid c') _ Hev) as [-> ->].
    { intros E. by apply Hne, (H2 _ _ _ _ Hc Hk). }
    rewrite Nat.add_0_r, app_nil_r. split_and!; try done. exists req. split; [done|]. apply elem_of_app. by left.
  - intros k1 k2 c1 c2. rewrite Ec. intros [_ E1]%lookup_delete_Some [_ E2]%lookup_delete_Some. by apply H2.
  - rewrite Eh, Es. intros sid Hsid. rewrite sends_app, got_on_app. destruct (about_other _ sid _ Hev) as [-> ->]; [lia|].
    by destruct (H3 sid Hsid) as [-> ->].
Qed.

(** A connection that is put into the table. *)
Lemma insert_in_step (s s' : WState) key c :
  in_step s -> conn_entries s' = <[key := c]> (conn_entries s) -> world s' = world s -> conn_ok s key c ->
  (forall k' c', conn_entries s !! k' = Some c' -> conn_sid c' = conn_sid c -> k' = key) -> in_step s'.
Proof.
  intros [H1 H2 H3] Ec Ew Hok Hap. split; unfold conn_ok in *; rewrite ?Ew; [| |done].
  - intros k c'. rewrite Ec. intros [[<- <-]|[_ Hk]]%lookup_insert_Some; [done|by apply H1].
  - intros k1 k2 c1 c2. rewrite Ec. intros [[<- <-]|[_ E1]]%lookup_insert_Some [[<- <-]|[_ E2]]%lookup_insert_Some Esid; try done.
    + symmetry. by eapply Hap.
    + by eapply Hap.
    + by eapply H2.
Qed.

(** The session that is opened is not yet a connection's, and nothing passed on it. *)
Lemma open_in_step (s s' s2 : WState) a rg req sid :
  in_step s -> session_request a rg = Ok req -> net (open_stream req) s = Some (Ok sid, s') ->
  conn_entries s2 = <[conn_key a rg := mkCachedConn sid []]> (conn_entries s') -> world s2 = world s' -> in_step s2.
Proof.
  intros Hs Hreq E Ec Ew. pose proof (quietly_in_step _ _ (quiet_open_stream req _ _ _ E) Hs) as Hs'.
  revert E. unfold net. cbn [open_stream watched_net]. unfold opening. destruct (open_stream req _) as [[i|e] v]; [|done]. intros [= <- Es].
  apply (insert_in_step s' s2 _ _ Hs' Ec Ew).
  - subst s'. cbn [conn_sid rx_buf conn_ok world handles seen conn_key fst snd]. split_and!.
    + exists req. split; [done|]. cbn. apply elem_of_app. right. by left.
    + cbn. rewrite length_app. cbn. lia.
    + cbn [world seen conn_sid rx_buf]. rewrite sends_app, got_on_app. destruct (nothing_unopened s Hs (length (handles (world s)))) as [-> ->]; [lia|done].
  - intros k c Hk. cbn [conn_sid]. intros Esid. subst s'. cbn [conn_entries] in Hk. destruct (conns_ok s Hs _ _ Hk) as (_ & Hl & _). lia.
Qed.

Lemma get_or_open_ok a rg s x s' : in_step s -> get_or_open a rg s = Some (x, s') ->
  in_step s' /\ exists opened, seen (world s') = (seen (world s) ++ opened)%list
    /\ (x = Ok tt -> exists c req, conn_entries s' !! conn_key a rg = Some c /\ session_request a rg = Ok req
        /\ (opened = [] \/ opened = [OpenedStream req (conn_sid c)])).
Proof.
  intros Hs. unfold get_or_open. rewrite run_bind, run_gets. destruct (conn_entries s !! conn_key a rg) as [c|] eqn:Ec.
  { rewrite run_ret. intros [= <- <-]. split; [done|]. exists []. rewrite app_nil_r. split; [done|]. intros _.
    destruct (conns_ok s Hs _ _ Ec) as ((req & Hr & _) & _). exists c, req. split_and!; auto. }
  rewrite run_try, run_ret. destruct (session_request a rg) as [req|e] eqn:Hreq.
  2: { intros [= <- <-]. split; [done|]. exists []. by rewrite app_nil_r. }
  rewrite run_bind. destruct (net (open_stream req) s) as [[o s1]|] eqn:Eo; [|done].
  pose proof (quiet_open_stream _ _ _ _ Eo) as Q1. destruct (emits_opening _ _ _ _ _ Eo) as (e1 & S1 & He1).
  rewrite run_try, run_ret. destruct o as [sid|e]; cbn [map_err].
  2: { intros [= <- <-]. split; [by apply (quietly_in_step s)|]. by exists e1. }
  rewrite run_bind. destruct (net (st_connect sid) s1) as [[o s2]|] eqn:E2; [|done].
  pose proof (quiet_connect _ _ _ _ E2) as Q2.
  destruct (emits_through (fun w => st_connect (handle sid w)) (fun _ => []) _ _ _ E2) as (e2 & S2 & ->).
  rewrite app_nil_r in S2. rewrite run_try, run_ret. destruct o as [u|e]; cbn [map_err].
  2: { intros [= <- <-]. split; [by apply (quietly_in_step s); [eapply quietly_trans|]|]. exists e1. by rewrite S2. }
  rewrite run_bind, run_modify, run_ret. intros [= <- <-]. cbn [world set_conns]. split.
  - assert (Hin : in_step (mkRState (rs_cache s1) (rr_counters s1) (<[conn_key a rg := mkCachedConn sid []]> (conn_entries s1)) (world s1) (log s1)))
      by (by eapply open_in_step).
    eapply quietly_in_step; [|exact Hin]. destruct Q2 as (Q21 & Q22 & Q23). split_and!; cbn; [by rewrite Q21|done|done].
  - exists e1. rewrite S2. split; [done|]. intros _. exists (mkCachedConn sid []), req. cbn. split; [by apply lookup_insert_eq|].
    split; [done|]. right. exact He1.
Qed.

(** Reading on until a frame is complete. *)
Lemma read_frame_ok n sid : forall rx (s : WState) r rx' s', read_one_frame n sid rx s = Some ((r, rx'), s') ->
  conn_entries s' = conn_entries s /\ handles (world s') = handles (world s)
  /\ exists chunks, seen (world s') = (seen (world s) ++ (GotChunk sid <$> chunks))%list
    /\ forall f, r = Some (Ok f) -> try_read_tcp_frame (rx ++ concat chunks) = (Some f, rx').
Proof.
  induction n as [|n IH]; intros rx s r rx' s'; cbn [read_one_frame]; destruct (try_read_tcp_frame rx) as [[f|] rx1] eqn:Et.
  1,3: rewrite run_ret; intros [= <- <- <-]; split_and!; try done; exists []; cbn; rewrite !app_nil_r; split; [done|]; by intros g [= <-].
  { rewrite run_ret. intros [= <- <- <-]. split_and!; try done. exists []. by rewrite app_nil_r. }
  apply try_read_none in Et as ->. rewrite run_bind. unfold net. cbn [st_recv watched_net]. unfold through.
  destruct (st_recv _ _) as [[chunk|] v]; cbn [handles seen].
  - intros E. destruct (IH _ _ _ _ _ E) as (E1 & E2 & chunks & E3 & Hf). cbn [conn_entries world handles seen] in *. split_and!; try done.
    exists (chunk :: chunks). cbn [fmap list_fmap concat]. rewrite E3, <- app_assoc. split; [done|]. intros f Ef. rewrite app_assoc. by apply Hf.
  - rewrite run_ret. intros [= <- <- <-]. split_and!; try done. exists []. by rewrite !app_nil_r.
Qed.

Lemma about_chunks sid chunks : Forall (about sid) (GotChunk sid <$> chunks).
Proof. apply Forall_fmap, Forall_true. done. Qed.

Lemma chunks_got_on sid chunks : sends sid (GotChunk sid <$> chunks) = 0%nat /\ got_on sid (GotChunk sid <$> chunks) = concat chunks.
Proof.
  induction chunks as [|b chunks [I1 I2]]; [done|]. change (GotChunk sid <$> b :: chunks) with ([GotChunk sid b] ++ (GotChunk sid <$> chunks))%list.
  rewrite sends_app, got_on_app, I1, I2. cbn. by rewrite Nat.eqb_refl, app_nil_r.
Qed.

(** A query and its frame keep the connection in step; anything else, and the connection
    has to go. *)
Lemma send_recv_ok key c framed b (s : WState) r s' :
  in_step s -> conn_entries s !! key = Some c -> send_recv key c framed b s = Some (r, s') ->
  in_step (set_conns (delete key) s') /\ exists evs, seen (world s') = (seen (world s) ++ evs)%list
    /\ forall data, r = Some (Ok data) -> in_step s' /\ exists chunks stream rest,
         evs = Sent (conn_sid c) framed :: (GotChunk (conn_sid c) <$> chunks)
         /\ skip_frames (sends (conn_sid c) (seen (world s))) (got_on (conn_sid c) (seen (world s) ++ evs)) = Some stream
         /\ try_read_tcp_frame stream = (Some data, rest).
Proof.
  intros Hs Hc. pose proof (conns_ok s Hs _ _ Hc) as ((req & Hr & Ho) & Hl & Hk).
  unfold send_recv. rewrite run_bind. unfold net at 1. cbn [st_send watched_net]. unfold through at 1.
  destruct (st_send _ _ _ _) as [[[u|e]|] v]; cbn [handles seen].
  2,3: rewrite run_ret; intros [= <- <-]; (split; [|exists []; by split]);
       apply (talk_in_step s _ key c []); cbn; rewrite ?app_nil_r; done.
  rewrite run_bind, run_gets, run_bind. set (s1 := mkRState _ _ _ _ _). destruct (read_one_frame _ _ _ s1) as [[[r0 rx] s2]|] eqn:Er; [|done].
  rewrite run_bind, run_modify, run_ret. intros [= <- <-].
  destruct (read_frame_ok _ _ _ _ _ _ _ Er) as (E1 & E2 & chunks & E3 & Hf). subst s1. cbn [conn_entries world handles seen] in *.
  rewrite <- app_assoc in E3. set (evs := ([Sent (conn_sid c) framed] ++ (GotChunk (conn_sid c) <$> chunks))%list) in *.
  assert (Hev : Forall (about (conn_sid c)) evs) by (constructor; [done|apply about_chunks]).
  assert (Hdel : in_step (set_conns (delete key) s2)).
  { apply (talk_in_step s _ key c evs); cbn [set_conns conn_entries world]; [done|done|by rewrite E1|done..]. }
  split.
  { eapply in_step_eq; [| |exact Hdel]; cbn [set_conns conn_entries world]; [|done]. by rewrite delete_insert_eq. }
  exists evs. cbn [set_conns world]. split; [exact E3|]. intros data ->. specialize (Hf data eq_refl).
  destruct (chunks_got_on (conn_sid c) chunks) as [C1 C2].
  assert (Hst : skip_frames (sends (conn_sid c) (seen (world s))) (got_on (conn_sid c) (seen (world s) ++ evs)) = Some (rx_buf c ++ concat chunks)%list).
  { rewrite got_on_app. change (got_on (conn_sid c) evs) with (got_on (conn_sid c) (GotChunk (conn_sid c) <$> chunks)).
    rewrite C2. by apply skip_frames_more. }
  split; [|by exists chunks, (rx_buf c ++ concat chunks)%list, rx].
  eapply (insert_in_step (set_conns (delete key) s2) _ key (mkCachedConn (conn_sid c) rx) Hdel); cbn [set_conns conn_entries world conn_sid]; [|done| |].
  - by rewrite insert_delete_eq.
  - unfold conn_ok. cbn [set_conns world conn_sid rx_buf]. rewrite E2, E3. split_and!; [|done|].
    + exists req. split; [done|]. apply elem_of_app. by left.
    + assert (sends (conn_sid c) evs = 1%nat) as Hone.
      { subst evs. rewrite sends_app, C1. unfold sends. cbn. by rewrite Nat.eqb_refl. }
      rewrite sends_app, Hone, Nat.add_1_r. by eapply skip_frames_next.
  - intros k' c' [Hne Hk']%lookup_delete_Some Esid. rewrite E1 in Hk'. by eapply (conns_apart s Hs).
Qed.

Lemma single_shot_tcp_ok b rg q qt : shot_ok (stream_exchange rg q qt) (single_shot_tcp b rg q qt).
Proof.
  intros a txid s x s' Hs. unfold single_shot_tcp. cbv zeta. rewrite run_try.
  destruct (get_or_open a rg s) as [[o s1]|] eqn:Eo; [|done]. destruct (get_or_open_ok _ _ _ _ _ Hs Eo) as (Hs1 & opened & S1 & Ho).
  destruct o as [[]|e]. 2: { intros [= <- <-]. split; [done|]. by exists opened. }
  destruct (Ho eq_refl) as (c & req & Hc & Hreq & Hop). rewrite run_bind.
  destruct (build_query txid q qt) as [built|] eqn:Eb; [|done]. cbn [unwrap]. rewrite run_ret, run_try, run_ret.
  destruct built as [payload|e]. 2: { intros [= <- <-]. split; [done|]. by exists opened. }
  rewrite run_bind, run_gets, run_bind, Hc. cbn [unwrap]. rewrite run_ret, run_bind.
  destruct (now s1) as [[start s2]|] eqn:E2; [|done]. pose proof (quiet_now _ _ _ E2) as Q2.
  destruct (emits_now _ _ _ E2) as (e2 & S2 & ->). rewrite app_nil_r in S2. pose proof (quietly_in_step _ _ Q2 Hs1) as Hs2.
  assert (Hc2 : conn_entries s2 !! conn_key a rg = Some c) by (by rewrite (proj1 Q2)).
  rewrite run_bind. destruct (send_recv _ _ _ _ s2) as [[r s3]|] eqn:E3; [|done].
  destruct (send_recv_ok _ _ _ _ _ _ _ Hs2 Hc2 E3) as (Hdel & evs & S3 & Hdata). rewrite run_bind.
  destruct (elapsed start s3) as [[d s4]|] eqn:E4; [|done]. pose proof (quiet_elapsed _ _ _ _ E4) as Q4.
  destruct (emits_elapsed _ _ _ _ E4) as (e4 & S4 & ->). rewrite app_nil_r in S4.
  assert (Hev : in_step (set_conns (delete (conn_key a rg)) s4)).
  { eapply quietly_in_step; [|exact Hdel]. destruct Q4 as (Q41 & Q42 & Q43). split_and!; cbn; [by rewrite Q41|done|done]. }
  assert (S : seen (world s4) = (seen (world s) ++ opened ++ evs)%list) by (by rewrite S4, S3, S2, S1, <- app_assoc).
  assert (Hout : forall e : ResolveError, (evict a rg;; mret (Err e)) s4 = Some (x, s') ->
    in_step s' /\ exists evs, seen (world s') = (seen (world s) ++ evs)%list /\ forall m d, x = Ok (m, d) -> stream_exchange rg q qt a txid (seen (world s)) evs m).
  { intros e. unfold evict. rewrite run_bind, run_modify, run_ret. intros [= <- <-]. split; [done|]. by exists (opened ++ evs)%list. }
  destruct r as [[data|e]|]; [|apply Hout..]. destruct (Hdata data eq_refl) as (Hs3 & chunks & stream & rest & Hevs & Hsk & Htr).
  assert (Hs4 : in_step s4) by (by eapply quietly_in_step).
  destruct (decode_message data) as [msg|e] eqn:Ed. 2: { rewrite run_ret. intros [= <- <-]. split; [done|]. by exists (opened ++ evs)%list. }
  destruct (validate_reply msg txid (normalize_qname q)) eqn:Ev; [|apply Hout]. rewrite run_ret. intros [= <- <-]. split; [done|].
  exists (opened ++ evs)%list. split; [done|]. intros m d' [= <- <-].
  exists req, (conn_sid c), opened, payload, chunks, stream, data, rest. rewrite S2, S1 in Hsk. split_and!; try done.
  - by rewrite Hevs.
  - destruct (conns_ok s1 Hs1 _ _ Hc) as ((req' & Hr' & Ho') & _). cbn [conn_key fst snd] in Hr'. rewrite Hreq in Hr'. injection Hr' as <-. by rewrite <- S1.
  - rewrite app_assoc. rewrite <- Hsk. f_equal. rewrite sends_app. destruct Hop as [->| ->]; cbn; lia.
  - by apply validate_genuine.
Qed.

(** *** From the shots to the answer *)

Lemma shoot_all_ok ex shot addrs : shot_ok ex shot -> forall s rs s', in_step s -> shoot_all shot addrs s = Some (rs, s') ->
  in_step s' /\ exists evs, seen (world s') = (seen (world s) ++ evs)%list
    /\ forall m d a, first_ok rs = Some (m, d, a) -> a ∈ addrs /\ exchanged ex a (seen (world s)) (seen (world s')) m.
Proof.
  intros Hshot. induction addrs as [|a0 addrs IH]; intros s rs s' Hs; cbn [shoot_all].
  { rewrite run_ret. intros [= <- <-]. split; [done|]. exists []. by rewrite app_nil_r. }
  rewrite run_bind. destruct (net random_u16 s) as [[txid s1]|] eqn:E1; [|done].
  pose proof (quietly_in_step _ _ (quiet_random _ _ _ E1) Hs) as Hs1.
  destruct (emits_through (fun _ => random_u16) (fun t => [DrewTxid t]) _ _ _ E1) as (e1 & S1 & ->).
  rewrite run_bind. destruct (shot a0 txid s1) as [[x s2]|] eqn:E2; [|done].
  destruct (Hshot _ _ _ _ _ Hs1 E2) as (Hs2 & e2 & S2 & Hx). rewrite run_bind.
  destruct (shoot_all shot addrs s2) as [[rs' s3]|] eqn:E3; [|done]. destruct (IH _ _ _ Hs2 E3) as (Hs3 & e3 & S3 & Hrs).
  rewrite run_ret. intros [= <- <-]. split; [done|]. exists ([DrewTxid txid] ++ e2 ++ e3)%list.
  assert (S : seen (world s3) = (seen (world s) ++ [DrewTxid txid] ++ e2 ++ e3)%list) by (by rewrite S3, S2, S1, <- !app_assoc).
  split; [done|]. intros m d a. destruct x as [[m0 d0]|e]; cbn [first_ok].
  - intros [= <- <- <-]. split; [left|]. exists [], txid, e2, e3. split; [done|]. rewrite app_nil_l, <- S1. by eapply Hx.
  - intros Hf. destruct (Hrs _ _ _ Hf) as [Hin He]. split; [by right|]. rewrite S2, S1, <- app_assoc in He. by eapply exchanged_earlier.
Qed.

(** An answer of a pool: the records, TTL and truncation of a message that was exchanged
    with the server it names. *)
Definition of_message (ex : SocketAddr -> Z -> list NetEvent -> list NetEvent -> Message -> Prop) (ss : list UpstreamServer)
    (srv : SocketAddr) (before after : list NetEvent) (a : ResolveAnswer) : Prop :=
  srv ∈ addr <$> ss /\ exists msg, exchanged ex srv before after msg /\ records a = omap rdata_to_answer (answers msg)
    /\ truncated a = tc (header msg) /\ min_rr_ttl a = min_ttl (answers msg).

Lemma of_message_more ex ss srv b a more x : of_message ex ss srv b a x -> of_message ex ss srv b (a ++ more) x.
Proof. intros (Hin & m & Hx & Hr). split; [done|]. exists m. split; [by apply exchanged_later|done]. Qed.

Definition upstream_ok (ex : SocketAddr -> Z -> list NetEvent -> list NetEvent -> Message -> Prop) (ss : list UpstreamServer)
    (m : M WState (result (ResolveAnswer * Telemetry) ResolveError)) : Prop :=
  forall s x s', in_step s -> m s = Some (x, s') -> in_step s' /\ seen (world s) `prefix_of` seen (world s')
    /\ forall a tel, x = Ok (a, tel) -> of_message ex ss (winner tel) (seen (world s)) (seen (world s')) a.

Lemma single_path_ok ex shot src policy name q ss : shot_ok ex shot ->
  upstream_ok ex ss (server ← pick_server policy name q ss; txid ← net random_u16; t0 ← now;
    reply ←? shot (addr server) txid; d ← elapsed t0; mret (Ok (answered src reply.1 (addr server) [] 1 (as_millis d)))).
Proof.
  intros Hshot s x s' Hs. rewrite run_bind. destruct (pick_server _ _ _ _ s) as [[server s1]|] eqn:E1; [|done].
  pose proof (quiet_pick _ _ _ _ _ _ _ E1) as Q1. apply pick_server_in in E1. rewrite run_bind.
  destruct (net random_u16 s1) as [[txid s2]|] eqn:E2; [|done]. pose proof (quiet_random _ _ _ E2) as Q2.
  destruct (emits_through (fun _ => random_u16) (fun t => [DrewTxid t]) _ _ _ E2) as (e2 & S2 & ->).
  rewrite run_bind. destruct (now s2) as [[t0 s3]|] eqn:E3; [|done]. pose proof (quiet_now _ _ _ E3) as Q3.
  destruct (emits_now _ _ _ E3) as (e3 & S3 & ->). rewrite app_nil_r in S3.
  pose proof (quietly_in_step _ _ (quietly_trans _ _ _ Q1 (quietly_trans _ _ _ Q2 Q3)) Hs) as Hs3.
  destruct Q1 as (_ & _ & e1 & S1 & _). rewrite run_try. destruct (shot _ _ s3) as [[o s4]|] eqn:E4; [|done].
  destruct (Hshot _ _ _ _ _ Hs3 E4) as (Hs4 & e4 & S4 & Hx).
  assert (S : seen (world s4) = (seen (world s) ++ e1 ++ [DrewTxid txid] ++ e4)%list) by (by rewrite S4, S3, S2, S1, <- !app_assoc).
  destruct o as [[m d]|e]. 2: { intros [= <- <-]. split_and!; [done|by eexists|done]. }
  rewrite run_bind. destruct (elapsed t0 s4) as [[d' s5]|] eqn:E5; [|done]. pose proof (quietly_in_step _ _ (quiet_elapsed _ _ _ _ E5) Hs4) as Hs5.
  destruct (emits_elapsed _ _ _ _ E5) as (e5 & S5 & ->). rewrite app_nil_r in S5. rewrite run_ret. intros [= <- <-].
  split_and!; [done|rewrite S5; by eexists|]. intros a tel [= <- <-]. cbn [winner answered snd fst]. split; [by apply list_elem_of_fmap_2|].
  exists m. split; [|done]. exists e1, txid, e4, []. rewrite app_nil_r, S5. split; [done|].
  specialize (Hx m d eq_refl). by rewrite S3, S2, S1, <- !app_assoc in Hx.
Qed.

Lemma fanout_ok ex shot src ss k : shot_ok ex shot -> upstream_ok ex ss (resolve_fanout shot src ss k).
Proof.
  intros Hshot s x s' Hs. unfold resolve_fanout. destruct (select_fanout ss k) as [|c cs] eqn:Ec.
  { rewrite run_ret. by intros [= <- <-]. }
  cbv zeta. rewrite run_bind. destruct (shoot_all _ _ s) as [[rs s1]|] eqn:Er; [|done].
  destruct (shoot_all_ok _ _ _ Hshot _ _ _ Hs Er) as (Hs1 & evs & S1 & Hf).
  destruct (first_ok rs) as [[[m d] win]|] eqn:Ef; rewrite run_ret; intros [= <- <-]; split_and!; try done; try by eexists.
  intros a tel [= <- <-]. destruct (Hf _ _ _ eq_refl) as [Hin Hx]. cbn [answered snd fst winner]. split; [|by exists m].
  rewrite <- Ec in Hin. unfold select_fanout in Hin. revert Hin. rewrite !list_elem_of_fmap.
  intros (u & -> & Hu). exists u. split; [done|]. apply elem_of_take in Hu as (i & Hi & _). by apply list_elem_of_lookup_2 in Hi.
Qed.

Lemma resolve_upstream_ok ex shot src policy name q ss : shot_ok ex shot -> upstream_ok ex ss (resolve_upstream shot src policy name q ss).
Proof.
  intros Hshot. unfold resolve_upstream. destruct ss as [|u ss]; [intros s x s' Hs; rewrite run_ret; by intros [= <- <-]|].
  destruct policy; [by apply single_path_ok..|by apply fanout_ok].
Qed.

(** What an answer says of its source. *)
Definition server_answer (r : Resolver) (req : ResolveRequest) (before after : list NetEvent)
    (a : ResolveAnswer) (sig : ResolutionSignals) : Prop :=
  match source a with
  | SrcSystem => True
  | SrcMeshDirect srv => exists p rg, pools r !! pool sig = Some p
      /\ of_message (datagram_exchange rg (qname req) (qtype req)) (servers p) srv before after a
  | SrcTunneled srv => exists p rg, pools r !! pool sig = Some p
      /\ of_message (stream_exchange rg (qname req) (qtype req)) (servers p) srv before after a
  end.

Section Query.
Context (r : Resolver) (req : ResolveRequest) (before : list NetEvent).

Definition ends_well (m : M WState resolved) : Prop :=
  forall s x s', in_step s -> before `prefix_of` seen (world s) -> m s = Some (x, s') ->
    in_step s' /\ forall a sig, x = Ok (a, sig) -> server_answer r req before (seen (world s')) a sig.

Lemma quietly_prefix s s' : quietly s s' -> before `prefix_of` seen (world s) -> before `prefix_of` seen (world s').
Proof. intros (_ & _ & evs & -> & _) Hb. by apply prefix_app_r. Qed.

Lemma ew_bind {A} (m : M WState A) k (G : A -> Prop) :
  quiet m -> (forall s a s', m s = Some (a, s') -> G a) -> (forall a, G a -> ends_well (k a)) -> ends_well (m ≫= k).
Proof.
  intros Hm HG Hk s x s' Hs Hb. rewrite run_bind. destruct (m s) as [[a s1]|] eqn:E; [|done].
  apply Hk; [by eapply HG|by eapply quietly_in_step; [eapply Hm|]|by eapply quietly_prefix; [eapply Hm|]].
Qed.

Lemma ew_finish target (res : resolved) : (forall a sig, res = Ok (a, sig) -> source a = SrcSystem) -> ends_well (finish target res).
Proof.
  intros Hres s x s' Hs Hb E. split; [by eapply quietly_in_step; [eapply quiet_finish|]|]. rewrite run_finish in E.
  injection E as <- _. intros a sig Ha. unfold server_answer. by rewrite (Hres _ _ Ha).
Qed.

Lemma ew_system k : (forall a, source a = SrcSystem -> ends_well (k (Ok a))) -> (forall e, ends_well (k (Err e))) ->
  ends_well (resolve_system (qname req) (qtype req) ≫= k).
Proof.
  intros Ho He. apply (ew_bind _ _ (fun x => forall a, x = Ok a -> source a = SrcSystem)); [apply quiet_system| |].
  - intros s x s' E a ->. by eapply system_source.
  - intros [a|e] Hx; [by apply Ho, Hx|apply He].
Qed.

(** The server's name goes from the telemetry into the answer. *)
Lemma ew_telemetry key sig src p rg ex (m : M WState (result (ResolveAnswer * Telemetry) ResolveError)) :
  upstream_ok (ex rg (qname req) (qtype req)) (servers p) m -> pools r !! pool sig = Some p ->
  (src = SrcMeshDirect /\ ex = datagram_exchange \/ src = SrcTunneled /\ ex = stream_exchange) ->
  ends_well (res ← m; apply_telemetry key sig src res).
Proof.
  intros Hm Hp Hsrc s x s' Hs [pre Hb]. rewrite run_bind. destruct (m s) as [[res s1]|] eqn:Em; [|done].
  destruct (Hm _ _ _ Hs Em) as (Hs1 & [evs S1] & Hx). intros E. pose proof (quiet_telemetry _ _ _ _ _ _ _ E) as Q.
  split; [by eapply quietly_in_step|]. destruct Q as (_ & _ & e2 & S2 & _). intros a sig' ->.
  destruct res as [[a0 tel]|e]; [|by unfold apply_telemetry in E; rewrite run_finish in E].
  specialize (Hx a0 tel eq_refl). unfold apply_telemetry in E. rewrite run_bind in E.
  destruct (cache_write _ _ s1) as [[[] s2]|]; [|done]. rewrite run_finish in E. injection E as <- <- _.
  assert (Hof : of_message (ex rg (qname req) (qtype req)) (servers p) (winner tel) before (seen (world s')) a0).
  { rewrite S2. apply of_message_more. destruct Hx as (Hin & msg & Hx & Hrest). split; [done|]. exists msg. split; [|done].
    rewrite Hb in Hx. by eapply exchanged_earlier. }
  unfold server_answer. cbn [source]. destruct Hsrc as [[-> ->]|[-> ->]]; by exists p, rg.
Qed.

Lemma ew_pool p proj key sig : pools r !! pool sig = Some p -> ends_well (query_pool r p (pool sig) proj req key sig).
Proof.
  intros Hp. unfold query_pool. destruct (mode p) as [|policy|policy].
  - apply ew_system; [intros a Ha|intros e; by apply ew_finish].
    apply (ew_bind _ _ (fun _ => True)); [apply quiet_cache_write|done|]. intros _ _. apply ew_finish. by intros ? ? [= <- _].
  - destruct (has_opener r); [|by apply ew_finish].
    eapply (ew_telemetry key sig SrcMeshDirect p _ datagram_exchange); [apply resolve_upstream_ok, single_shot_ok|done|auto].
  - destruct (has_stream_opener r); [|by apply ew_finish].
    eapply (ew_telemetry key sig SrcTunneled p _ stream_exchange); [apply resolve_upstream_ok, single_shot_tcp_ok|done|auto].
Qed.

Lemma resolve_ends_well : ends_well (resolve r req).
Proof.
  unfold resolve. apply (ew_bind _ _ (fun _ => True)); [apply quiet_fresh_hit|done|]. intros [hit|] _.
  { apply ew_finish. intros a sig. destruct hit; [|done]. by intros [= <- _]. }
  destruct (special_use req _) as [m|] eqn:Em.
  { revert Em. unfold special_use. destruct (is_special_use_localhost _).
    { intros [= <-]. apply ew_finish. by intros a sig [= <- _]. }
    destruct (is_special_use_invalid_or_reserved _); [by intros [= <-]; apply ew_finish|].
    destruct (is_rfc6303_reverse _); [|done]. intros [= <-].
    apply ew_system; [intros a Ha|intros e]; apply ew_finish; [by intros ? ? [= <- _]|done]. }
  destruct (evaluate_rules r req _) as [[proj sig]|sig]; [|by apply ew_finish].
  set (name := default _ (proj_pool proj)). destruct (pools r !! name) as [p|] eqn:Ep; [|by apply ew_finish].
  rewrite <- (pool_hint sig name (schedule_hint_label proj)) at 1. apply ew_pool. by rewrite pool_hint.
Qed.
End Query.

(** The states of a resolver: as it was built, and after each of its queries. *)
Inductive served (r : Resolver) : WState -> Prop :=
| ServedNone b w s : builder_build b (mkWatched w [] []) = Ok (r, s) -> served r s
| ServedQuery req s x s' : served r s -> resolve r req s = Some (x, s') -> served r s'.

Lemma served_in_step r s : served r s -> in_step s.
Proof.
  induction 1 as [b w s E|req s x s' _ IH E].
  - unfold builder_build in E. destruct (builder_validate b); [|done]. injection E as _ <-.
    split; cbn [conn_entries world handles seen]; [intros ? ? Hx|intros ? ? ? ? Hx|done]; by apply lookup_empty_Some in Hx.
  - by apply (resolve_ends_well r req (seen (world s)) s x s' IH).
Qed.

(** C40: an answer that names a server is what that server sent to this very query. It is a
    server of the pool the signals name; during the call a transaction number was drawn,
    the query was encoded under it and sent on a session that was opened to that server,
    and the message the answer's records, TTL and truncation are taken from is the
    datagram that was received next on that session, or, on a stream session that is also
    used for other queries, the frame with the query's own number among the frames
    received on it; the message carries that transaction number and, when it repeats a
    question, repeats the query's name. *)
Theorem upstream_answer_is_genuine (r : Resolver) (req : ResolveRequest) (s s' : WState) (a : ResolveAnswer)
    (sig : ResolutionSignals) (Hs : served r s) (Hr : resolve r req s = Some (Ok (a, sig), s')) :
  server_answer r req (seen (world s)) (seen (world s')) a sig.
Proof. by apply (resolve_ends_well r req (seen (world s)) s _ s' (served_in_step r s Hs) (reflexivity _) Hr). Qed.
End Wire.

(** ** A concrete resolver *)

Module Demo.

(** No ruleset values, regular expressions or JSON. *)
#[export] Instance demo_libs : RuleLibs := {|
  IpNet := unit; net_contains _ _ := false; Regex := unit; is_match _ _ := false; regex_str _ := "";
  Json := unit; is_null _ := true; is_object _ := false |}.

(** A world of a clock that ticks a second at each look, and the bytes a server sends
    as its next reply. *)
Record DemoNet := mkDemo { ticks : Z; reply_bytes : list Z }.

#[export] Instance demo_net : ResolverNet DemoNet := {|
  clock w := (secs (ticks w), mkDemo (ticks w + 1) (reply_bytes w));
  random_u16 w := (7, w);
  getaddrinfo _ w := (SysAddrs [SockV4 [93; 184; 216; 34] 0], w);
  open_datagram _ w := (Ok 0%nat, w);
  dg_send_to _ _ _ w := (Ok tt, w);
  dg_recv_from _ _ w := (Got (reply_bytes w), w);
  dg_close _ w := w;
  open_stream _ w := (Ok 0%nat, w);
  st_connect _ w := (Ok tt, w);
  st_send _ _ _ w := (Some (Ok tt), w);
  st_patience _ _ := 1%nat;
  st_recv _ w := (Some (write_tcp_frame [] (reply_bytes w)), w);
  hash64 _ := 0 |}.

Definition server : SocketAddr := SockV4 [9; 9; 9; 9] 53.
Definition only_ops : RuleChain := mkChain [mkRule (Some "ops-only") (Not (Pred (Consumer "ops"))) Deny] Allow.

Definition builder : ResolverBuilder :=
  with_cache (with_datagram_opener (with_rule_chain (with_default_pool
    (with_pool builder_new (mkPool "mesh" (MeshDirect PolicyRoundRobin) [mkServer SchemeUdp server] None)) "mesh")
    only_ops ∅)) cache_new.

(** A reply to transaction 7 for corp.net: one address, TTL 120. *)
Definition reply : Message :=
  mkMessage (mkHeader 7 0x8180 1 1 0 0) [mkQuestion (mkName "corp.net.") QA]
    [mkRR (mkName "corp.net.") QA 120 (RA [10; 0; 0; 8])] [] [].

Definition bytes_of (m : Message) : list Z := match encode_message m with Some (Ok b) => b | _ => [] end.

Definition start (m : Message) : Resolver * @RState DemoNet :=
  match builder_build builder (mkDemo 0 (bytes_of m)) with
  | Ok x => x
  | Err _ => (mkResolver ∅ None None None false false 0, mkRState None ∅ ∅ (mkDemo 0 []) [])
  end.

Definition ops_query : ResolveRequest := mkResolveRequest "Corp.net" QtA "ops".
Definition guest_query : ResolveRequest := mkResolveRequest "corp.net." QtA "guest".

(** The state and answer after the query of [ops]. *)
Definition after_ops (m : Message) : option (resolved * @RState DemoNet) := resolve (start m).1 ops_query (start m).2.
Definition state_after (m : Message) : @RState DemoNet :=
  match after_ops m with Some (_, s) => s | None => (start m).2 end.
Definition answer_of (r : option (resolved * @RState DemoNet)) : option (list AnswerRecord * Z) :=
  match r with Some (Ok (a, _), _) => Some (records a, min_rr_ttl a) | _ => None end.

Example ops_gets_address : answer_of (after_ops reply) = Some ([AnsA [10; 0; 0; 8]], 120).
Proof. vm_compute. reflexivity. Qed.

(** The same resolver, and one with a stream pool, in the watched world. *)
Definition tcp_builder : ResolverBuilder :=
  with_stream_opener (with_default_pool
    (with_pool builder_new (mkPool "tunnel" (Tunneled PolicyConsistentHash) [mkServer SchemeTcp server] None)) "tunnel").

Definition watch (b : ResolverBuilder) : Resolver * @RState (@Watched DemoNet) :=
  match builder_build b (mkWatched (mkDemo 0 (bytes_of reply)) [] []) with
  | Ok x => x
  | Err _ => (mkResolver ∅ None None None false false 0, mkRState None ∅ ∅ (mkWatched (mkDemo 0 []) [] []) [])
  end.

(** What is asked twice: the answer's source and records, the pool and the events. *)
Definition view (b : ResolverBuilder) (s : @RState (@Watched DemoNet)) :=
  match resolve (watch b).1 ops_query s with
  | Some (Ok (a, sig), s') => Some (source a, pool sig, records a, length (seen (world s')))
  | _ => None
  end.
Definition asked (b : ResolverBuilder) : @RState (@Watched DemoNet) :=
  match resolve (watch b).1 ops_query (watch b).2 with Some (_, s) => s | None => (watch b).2 end.

Example datagram_view : view builder (watch builder).2 = Some (SrcMeshDirect server, "mesh", [AnsA [10; 0; 0; 8]], 4%nat).
Proof. vm_compute. reflexivity. Qed.

(** The second query uses the connection of the first. *)
Example stream_view :
  view tcp_builder (watch tcp_builder).2 = Some (SrcTunneled server, "tunnel", [AnsA [10; 0; 0; 8]], 4%nat)
  /\ view tcp_builder (asked tcp_builder) = Some (SrcTunneled server, "tunnel", [AnsA [10; 0; 0; 8]], 7%nat).
Proof. split; vm_compute; reflexivity. Qed.

Lemma watched_built b : builder_build b (mkWatched (mkDemo 0 (bytes_of reply)) [] []) = Ok (watch b) -> served (watch b).1 (watch b).2.
Proof. intros E. eapply ServedNone. rewrite E. by destruct (watch b). Qed.

Lemma asked_served b : builder_build b (mkWatched (mkDemo 0 (bytes_of reply)) [] []) = Ok (watch b) -> served (watch b).1 (asked b).
Proof.
  intros E. pose proof (watched_built b E) as Hs. unfold asked. destruct (resolve (watch b).1 ops_query (watch b).2) as [[x s]|] eqn:Er; [|done].
  by eapply ServedQuery.
Qed.

(** The rules deny [guest], who gets the cached answer of [ops] all the same. *)
Example guest_gets_cached_address :
  chain_denies (start reply).1 guest_query = true
  /\ answer_of (resolve (start reply).1 guest_query (start reply).2) = None
  /\ answer_of (resolve (start reply).1 guest_query (state_after reply)) = Some ([AnsA [10; 0; 0; 8]], 0).
Proof. vm_compute. auto. Qed.

(** A name error: code 3 and no answer. *)
Definition name_error : Message :=
  mkMessage (mkHeader 7 0x8183 1 0 0 0) [mkQuestion (mkName "corp.net.") QA] [] [] [].

(** It is an answer without records, and cached as one for a minute. *)
Example name_error_is_an_answer :
  rcode (header name_error) = 3 /\ answer_of (after_ops name_error) = Some ([], 60)
  /\ answer_of (resolve (start name_error).1 ops_query (state_after name_error)) = Some ([], 0).
Proof. vm_compute. auto. Qed.

Lemma no_cache_miss req : cache_miss req (start reply).2.
Proof. intros c l [= <-]. by unfold cache_lookup. Qed.
End Demo.
Import Demo.

Lemma denied_query_reaches_nobody_witness :
  exists sig s', resolve (Demo.start Demo.reply).1 Demo.guest_query (Demo.start Demo.reply).2 = Some (Err (Denied, sig), s')
    /\ pool sig = "(denied)" /\ rr_counters s' = rr_counters (Demo.start Demo.reply).2.
Proof.
  destruct (denied_query_reaches_nobody (Demo.start Demo.reply).1 Demo.guest_query (Demo.start Demo.reply).2)
    as (sig & s' & E & Hp & _ & Hr & _); [vm_compute; reflexivity|vm_compute; reflexivity|apply Demo.no_cache_miss|].
  by exists sig, s'.
Defined.

Lemma cached_answer_serves_everyone_witness :
  exists w0 c1, rs_cache (Demo.state_after Demo.reply) = Some c1
    /\ positive c1 !! ("corp.net.", QtA) = Some (mkPositive [AnsA [10; 0; 0; 8]] ((@clock _ Demo.demo_net w0).1 + secs 120)).
Proof.
  pose proof Demo.ops_gets_address as Ha.
  destruct (Demo.after_ops Demo.reply) as [[[[a sig]|e] s1]|] eqn:E; [|discriminate Ha..].
  destruct (cached_answer_serves_everyone (Demo.start Demo.reply).1 Demo.ops_query cache_new (Demo.start Demo.reply).2 s1 a sig
    ltac:(vm_compute; reflexivity) ltac:(vm_compute; reflexivity) (Demo.no_cache_miss _) E) as (w0 & c1 & _ & Hc & Hp & _).
  exists w0, c1. unfold Demo.state_after. rewrite E. split; [exact Hc|].
  injection Ha as Hrec Httl. rewrite Hrec, Httl in Hp. exact Hp.
Defined.

(** A datagram answer, and one on a stream session that already carried a query. *)
Lemma upstream_answer_is_genuine_witness :
  (exists a p rg after, records a = [AnsA [10; 0; 0; 8]] /\ pools (Demo.watch Demo.builder).1 !! "mesh" = Some p
    /\ of_message (datagram_exchange rg "Corp.net" QtA) (servers p) Demo.server [] after a)
  /\ (exists a p rg after, records a = [AnsA [10; 0; 0; 8]] /\ pools (Demo.watch Demo.tcp_builder).1 !! "tunnel" = Some p
    /\ of_message (stream_exchange rg "Corp.net" QtA) (servers p) Demo.server (seen (world (Demo.asked Demo.tcp_builder))) after a).
Proof.
  split.
  - pose proof Demo.datagram_view as Hv. unfold Demo.view in Hv.
    destruct (resolve (Demo.watch Demo.builder).1 Demo.ops_query (Demo.watch Demo.builder).2) as [[[[a sig]|e] s1]|] eqn:E; [|discriminate Hv..].
    pose proof (upstream_answer_is_genuine (Demo.watch Demo.builder).1 Demo.ops_query (Demo.watch Demo.builder).2 s1 a sig
      (Demo.watched_built Demo.builder ltac:(vm_compute; reflexivity)) E) as Ht.
    clear E. injection Hv as H1 H2 H3 _. unfold server_answer in Ht. rewrite H1, H2 in Ht. destruct Ht as (p & rg & Hp & Ho).
    exists a, p, rg, (seen (world s1)). split; [exact H3|]. split; [exact Hp|exact Ho].
  - pose proof (proj2 Demo.stream_view) as Hv. unfold Demo.view in Hv.
    destruct (resolve (Demo.watch Demo.tcp_builder).1 Demo.ops_query (Demo.asked Demo.tcp_builder)) as [[[[a sig]|e] s1]|] eqn:E; [|discriminate Hv..].
    pose proof (upstream_answer_is_genuine (Demo.watch Demo.tcp_builder).1 Demo.ops_query (Demo.asked Demo.tcp_builder) s1 a sig
      (Demo.asked_served Demo.tcp_builder ltac:(vm_compute; reflexivity)) E) as Ht.
    clear E. injection Hv as H1 H2 H3 _. unfold server_answer in Ht. rewrite H1, H2 in Ht. destruct Ht as (p & rg & Hp & Ho).
    exists a, p, rg, (seen (world s1)). split; [exact H3|]. split; [exact Hp|exact Ho].
Defined.

Lemma response_code_is_ignored_witness :
  validate_reply (with_rcode Demo.reply 2) 7 "corp.net." = true
  /\ (answered SrcMeshDirect (with_rcode Demo.reply 2) Demo.server [] 1 0).1
     = (answered SrcMeshDirect Demo.reply Demo.server [] 1 0).1.
Proof.
  destruct (response_code_is_ignored Demo.reply 2 7 1 0 "corp.net." SrcMeshDirect Demo.server [] ltac:(lia)) as (_ & Hv & Ha).
  rewrite Hv, Ha. split; vm_compute; reflexivity.
Defined.
