(* ===== verification/RuleYaml.v ===== *)
(** The YAML form of rule chains (lib/mb-rule/src/data_handle/yaml_parser.rs) and the
    loading of rule sets ([RuleSetRegistry::load] of data_handle.rs).  A document is the
    value serde_yaml read; [None] is a panic.  Address prefixes, regular expressions,
    JSON conversion and debug texts are the libraries': a class of parameters. *)
From S2P Require Import Prelude Numbers NetAddr Floats Rules HttpProxy Geosite.
#[local] Set Warnings "-register-all".
Local Open Scope string_scope.
Local Open Scope Z_scope.

(** ** Values (serde_yaml::Value) *)

Inductive Yaml :=
| YNull
| YBool (b : bool)
| YPosInt (n : Z)
| YNegInt (n : Z)
| YFloat (x : F64)
| YString (s : string)
| YSequence (l : list Yaml)
| YMapping (m : list (Yaml * Yaml))
| YTagged (tag : string) (v : Yaml).

Abbreviation YMap := (list (Yaml * Yaml)) (only parsing).

(** [untag_ref]: the accessors look through tags *)
Fixpoint untag (v : Yaml) : Yaml := match v with YTagged _ v => untag v | v => v end.

Definition as_str (v : Yaml) : option string := match untag v with YString s => Some s | _ => None end.
Definition as_mapping (v : Yaml) : option YMap := match untag v with YMapping m => Some m | _ => None end.
Definition as_sequence (v : Yaml) : option (list Yaml) := match untag v with YSequence l => Some l | _ => None end.
Definition as_yaml_u64 (v : Yaml) : option Z := match untag v with YPosInt n => Some n | _ => None end.
Definition as_yaml_i64 (v : Yaml) : option Z :=
  match untag v with YPosInt n => if n <? 2 ^ 63 then Some n else None | YNegInt n => Some n | _ => None end.

(** [map.get(key).map(f)] with a [&str] key: an untagged string *)
Section Get.
Context {A : Type} (f : Yaml -> A).

Fixpoint get_with (key : string) (m : YMap) : option A :=
  match m with
  | [] => None
  | (k, v) :: m =>
      match k with
      | YString s => if decide (s = key) then Some (f v) else get_with key m
      | _ => get_with key m
      end
  end.

(** [x.as_sequence()] with the elements under [f] *)
Fixpoint seq_with (v : Yaml) : option (list A) :=
  match v with
  | YSequence l => Some ((fix go (l : list Yaml) : list A := match l with [] => [] | x :: l => f x :: go l end) l)
  | YTagged _ v => seq_with v
  | _ => None
  end.
End Get.

Definition map_get (m : YMap) (key : string) : option Yaml := get_with id key m.
Definition contains_key (m : YMap) (key : string) : bool := bool_decide (is_Some (get_with (fun _ => tt) key m)).
Definition get_str (m : YMap) (key : string) : option string := map_get m key ≫= as_str.

(** [iter().map(f).collect::<Result<_, _>>()] *)
Fixpoint collect {A E} (l : list (result A E)) : result (list A) E :=
  match l with
  | [] => Ok []
  | r :: l => let? a := r in let? l := collect l in Ok (a :: l)
  end.

(** ** Errors *)

Inductive IntErrorKind := IntEmpty | InvalidDigit | PosOverflow.

Inductive ParseError :=
| EYaml (e : string)
| MissingDefault
| MissingRules
| UnknownAction (s : string)
| UnknownPredicateKey (s : string)
| RuleBothMatchAndFlat
| ECidr (e : string)
| ERegex (e : string)
| EIp
| EInt (k : IntErrorKind)
| InvalidValue (field value : string).

Fixpoint parse_u16_digits (s : string) (acc : Z) : result Z IntErrorKind :=
  match s with
  | EmptyString => Ok acc
  | String a s =>
      if is_digit a then
        let acc := acc * 10 + digit_val a in
        if 65535 <? acc then Err PosOverflow else parse_u16_digits s acc
      else Err InvalidDigit
  end.

(** [s.parse::<u16>()] *)
Definition parse_u16 (s : string) : result Z IntErrorKind :=
  if str_is_empty s then Err IntEmpty
  else if bool_decide (s = "+") then Err InvalidDigit
  else parse_u16_digits (match strip_prefix "+" s with Some r => r | None => s end) 0.

(** [s.parse::<IpAddr>()] *)
Definition parse_rule_ip (s : string) : option IpAddr :=
  match parse_ipv4 s with
  | Some o => Some (V4 (from_be_bytes o))
  | None => (fun g => V6 (from_be_bytes (octets_of_groups g))) <$> parse_ipv6 s
  end.

(** What the parser uses of the libraries: parsers with the text of their errors, and
    the [Debug] text of a value. *)
Class RuleParsers `{RuleLibs} := {
  net_parse : string -> result IpNet string;
  regex_new : string -> result Regex string;
  json_null : Json;
  yaml_to_json : Yaml -> result Json string;
  yaml_debug : Yaml -> string
}.

Section Parser.
Context `{RuleParsers}.

Definition of_option {A} (o : option A) (e : ParseError) : result A ParseError :=
  match o with Some a => Ok a | None => Err e end.

(** [for key in map.keys() { as_str, then matches!(key, allowed..) }] *)
Definition check_keys (not_str : ParseError) (allowed : list string) (unknown : string -> ParseError) (m : YMap) :
    result unit ParseError :=
  try_each (fun kv =>
    let? key := of_option (as_str kv.1) not_str in ensure (bool_decide (key ∈ allowed)) (unknown key)) m.

Definition reject_empty_symbol (field value : string) : result unit ParseError :=
  ensure (negb (str_is_empty value)) (InvalidValue field "empty").

Definition reject_empty_match_group {A} (field : string) (values : list A) : result unit ParseError :=
  match values with [] => Err (InvalidValue field "empty") | _ => Ok tt end.

Definition parse_non_empty_string (field : string) (v : Yaml) : result string ParseError :=
  let? s := of_option (as_str v) (InvalidValue field (yaml_debug v)) in
  do? reject_empty_symbol field s; Ok s.

(** ** Predicates *)

(** The constructor named by a string, out of a table. *)
Definition one_of {A} (field : string) (table : list (string * A)) (s : string) : result A ParseError :=
  of_option (bt_get table s) (InvalidValue field s).

Definition networks : list (string * RuleNetwork) := [("tcp", Tcp); ("udp", Udp)].
Definition shapes : list (string * RuleSessionShape) := [("stream", ShStream); ("datagram", ShDatagram)].
Definition socks5_commands : list (string * RuleSocks5Command) :=
  [("connect", SConnect); ("bind", SBind); ("udp_associate", SUdpAssociate)].
Definition traffic_classes : list (string * RuleTrafficClass) :=
  [("interactive", RInteractive); ("bulk", RBulk); ("control", RControl)].
Definition transform_kinds : list (string * RuleTransformKind) :=
  [("fragment", TFragment); ("compress", TCompress); ("encrypt", TEncrypt); ("checksum", TChecksum);
   ("parity", TParity)].

Definition parse_dst_port (v : Yaml) : result Predicate ParseError :=
  let? n := of_option (as_yaml_u64 v) (InvalidValue "dst_port" (default "" (as_str v))) in
  do? ensure (n <=? 65535) (InvalidValue "dst_port" (dec_show n));
  Ok (DstPortEq n).

Definition parse_dst_port_range (s : string) : result Predicate ParseError :=
  let? ab := of_option (split_once "-"%char s) (InvalidValue "dst_port_range" s) in
  let? a := map_err EInt (parse_u16 ab.1) in
  let? b := map_err EInt (parse_u16 ab.2) in
  do? ensure (a <=? b) (InvalidValue "dst_port_range" s);
  Ok (DstPortRange a b).

Definition parse_asn_item (v : Yaml) : result Z ParseError :=
  let? n := of_option (as_yaml_u64 v) (InvalidValue "asn[]" (yaml_debug v)) in
  do? ensure (n <=? 2 ^ 32 - 1) (InvalidValue "asn[]" (dec_show n));
  Ok n.

Definition parse_asn (v : Yaml) : result Predicate ParseError :=
  match as_yaml_u64 v with
  | Some n => do? ensure (n <=? 2 ^ 32 - 1) (InvalidValue "asn" (dec_show n)); Ok (AsnEq n)
  | None =>
      match as_sequence v with
      | Some [] => Err (InvalidValue "asn" "empty")
      | Some l => let? l := collect (parse_asn_item <$> l) in Ok (AsnAny l)
      | None => Err (InvalidValue "asn" (yaml_debug v))
      end
  end.

(** [Ok(P::X(parse_non_empty_string(field, val)?))] *)
Definition str_pred (field : string) (v : Yaml) (p : string -> Predicate) : result Predicate ParseError :=
  let? s := parse_non_empty_string field v in Ok (p s).

Definition map_ok {A B E} (f : A -> B) (r : result A E) : result B E := let? a := r in Ok (f a).

(** What each key of [parse_predicate] does with the value. *)
Definition predicate_table (v : Yaml) : list (string * result Predicate ParseError) :=
  let s := default "" (as_str v) in
  [("src_cidr", map_ok SrcCidr (map_err ECidr (net_parse s)));
   ("dst_cidr", map_ok DstCidr (map_err ECidr (net_parse s)));
   ("src_ip", map_ok SrcIpEq (of_option (parse_rule_ip s) EIp));
   ("dst_ip", map_ok DstIpEq (of_option (parse_rule_ip s) EIp));
   ("dst_port", parse_dst_port v);
   ("dst_port_range", parse_dst_port_range s);
   ("network", map_ok NetworkEq (one_of "network" networks s));
   ("session_shape", map_ok SessionShapeEq (one_of "session_shape" shapes s));
   ("operation", str_pred "operation" v OperationEq);
   ("socks5_command", map_ok Socks5CommandEq (one_of "socks5_command" socks5_commands s));
   ("hostname", str_pred "hostname" v HostnameExact);
   ("hostname_suffix", str_pred "hostname_suffix" v HostnameSuffix);
   ("hostname_keyword", str_pred "hostname_keyword" v HostnameKeyword);
   ("hostname_regex", let? p := parse_non_empty_string "hostname_regex" v in
                      map_ok HostnameRegex (map_err ERegex (regex_new p)));
   ("fragment_group", str_pred "fragment_group" v FragmentGroupExact);
   ("traffic_class", map_ok TrafficClassEq (one_of "traffic_class" traffic_classes s));
   ("transform_kind", map_ok TransformKindEq (one_of "transform_kind" transform_kinds s));
   ("ruleset", do? reject_empty_symbol "ruleset" s; Ok (RulesetMember s));
   ("consumer", str_pred "consumer" v Consumer);
   ("dns_qtype", str_pred "dns_qtype" v DnsQtype);
   ("authenticated_user", let? u := parse_non_empty_string "authenticated_user" v in
                          Ok (if bool_decide (u = "*") then AuthenticatedUserAny else AuthenticatedUserEq u));
   ("dst_geo", str_pred "dst_geo" v DstGeoEq);
   ("asn", parse_asn v);
   ("geosite_tag", str_pred "geosite_tag" v GeositeTag)].

Definition parse_predicate (key : string) (v : Yaml) : result Predicate ParseError :=
  match bt_get (predicate_table v) key with Some r => r | None => Err (UnknownPredicateKey key) end.

(** ** Match expressions *)

Definition parse_term (k v : Yaml) : result MatchExpr ParseError :=
  map_ok Term (parse_predicate (default "" (as_str k)) v).

Definition check_control (m : YMap) : result unit ParseError :=
  try_each (fun ctrl =>
    ensure (negb (contains_key m ctrl && (1 <? length m)%nat))
      (UnknownAction ("match control key `" +:+ ctrl +:+ "` must be the only key in mapping")))
    ["all"; "any"; "not"; "ruleset"].

(** The last part of [parse_match]: predicates, several of them a conjunction. *)
Definition parse_terms (m : YMap) : result MatchExpr ParseError :=
  match m with
  | [] => Err (UnknownAction "empty match")
  | [(k, v)] => parse_term k v
  | m => map_ok All (collect ((fun kv => parse_term kv.1 kv.2) <$> m))
  end.

Fixpoint parse_match (v : Yaml) : result MatchExpr ParseError :=
  match v with
  | YTagged _ v => parse_match v
  | YMapping m =>
      do? check_control m;
      match get_with (seq_with parse_match) "all" m with
      | Some (Some items) => do? reject_empty_match_group "all" items; map_ok All (collect items)
      | _ =>
          match get_with (seq_with parse_match) "any" m with
          | Some (Some items) => do? reject_empty_match_group "any" items; map_ok Any (collect items)
          | _ =>
              match get_with parse_match "not" m with
              | Some inner => map_ok Not inner
              | None =>
                  match get_str m "ruleset" with
                  | Some name => do? reject_empty_symbol "ruleset" name; Ok (Term (RulesetMember name))
                  | None => parse_terms m
                  end
              end
          end
      end
  | _ => Err (UnknownAction "match must be mapping")
  end.

(** ** Actions *)

Definition parse_empty_action_payload (field : string) (v : Yaml) : result unit ParseError :=
  let? m := of_option (as_mapping v) (InvalidValue field (yaml_debug v)) in
  match m with [] => Ok tt | _ => Err (InvalidValue field "non-empty payload") end.

Definition parse_fanout (v : Yaml) : result RuleScheduleHint ParseError :=
  let? m := of_option (as_mapping v) (InvalidValue "fanout" (yaml_debug v)) in
  do? check_keys (UnknownAction "fanout keys must be strings") ["k"]
        (fun key => InvalidValue ("fanout." +:+ key) "unknown key") m;
  let? k := of_option (map_get m "k" ≫= as_yaml_u64) (InvalidValue "fanout.k" "missing") in
  do? ensure (negb ((k =? 0) || (2 ^ 32 - 1 <? k))) (InvalidValue "fanout.k" (dec_show k));
  Ok (HFanOut k).

Definition parse_schedule_hint (v : Yaml) : result RuleScheduleHint ParseError :=
  if bool_decide (as_str v = Some "auto") then Ok HAuto
  else
    let? m := of_option (as_mapping v) (UnknownAction "schedule_hint shape") in
    do? check_keys (UnknownAction "schedule_hint keys must be strings") ["fanout"]
          (fun key => InvalidValue ("schedule_hint." +:+ key) "unknown key") m;
    match map_get m "fanout" with
    | Some f => parse_fanout f
    | None => Err (UnknownAction "unknown schedule_hint")
    end.

Definition parse_transform (v : Yaml) : result Action ParseError :=
  let? m := of_option (as_mapping v) (UnknownAction "set_transform must be mapping") in
  do? check_keys (UnknownAction "set_transform keys must be strings") ["kind"; "params"]
        (fun key => InvalidValue ("set_transform." +:+ key) "unknown key") m;
  let? kind := of_option (get_str m "kind") (UnknownAction "set_transform.kind missing") in
  let? kind := one_of "transform.kind" transform_kinds kind in
  let? params :=
    match map_get m "params" with
    | None => Ok json_null
    | Some p =>
        do? ensure (bool_decide (is_Some (as_mapping p))) (InvalidValue "set_transform.params" (yaml_debug p));
        map_err (InvalidValue "set_transform.params") (yaml_to_json p)
    end in
  Ok (SetTransform kind params).

(** A name under an action key. *)
Definition parse_label (field : string) (v : Yaml) : result string ParseError :=
  let? s := of_option (as_str v) (InvalidValue field (yaml_debug v)) in
  do? ensure (negb (str_is_empty s)) (InvalidValue field "empty");
  Ok s.

Definition parse_cost_bias (v : Yaml) : result Action ParseError :=
  let? n := of_option (as_yaml_i64 v) (InvalidValue "set_cost_bias" (yaml_debug v)) in
  do? ensure ((-9000 <=? n) && (n <=? 9000))
        (InvalidValue "set_cost_bias" ((if n <? 0 then "-" else "") +:+ dec_show (Z.abs n)));
  Ok (SetCostBias n).

Definition parse_compose (subs : option (list (result Action ParseError))) : result Action ParseError :=
  match subs with
  | None => Err (UnknownAction "compose must be sequence")
  | Some [] => Err (InvalidValue "compose" "empty")
  | Some l => map_ok Compose (collect l)
  end.

(** What each key of an action does with the value; [subs] are the parsed elements of a
    sequence value. *)
Definition action_table (v : Yaml) (subs : option (list (result Action ParseError))) :
    list (string * result Action ParseError) :=
  [("allow", do? parse_empty_action_payload "allow" v; Ok Allow);
   ("deny", do? parse_empty_action_payload "deny" v; Ok Deny);
   ("set_route_group", map_ok SetRouteGroup (parse_label "set_route_group" v));
   ("set_resolver_pool", map_ok SetResolverPool (parse_label "set_resolver_pool" v));
   ("set_schedule_hint", map_ok SetScheduleHint (parse_schedule_hint v));
   ("set_transform", parse_transform v);
   ("compose", parse_compose subs);
   ("set_cost_bias", parse_cost_bias v)].

Definition parse_keyed_action (key : string) (v : Yaml) (subs : option (list (result Action ParseError))) :
    result Action ParseError :=
  match bt_get (action_table v subs) key with Some r => r | None => Err (UnknownAction key) end.

Fixpoint parse_action (v : Yaml) : result Action ParseError :=
  match v with
  | YTagged _ v => parse_action v
  | YString s =>
      if bool_decide (s = "allow") then Ok Allow
      else if bool_decide (s = "deny") then Ok Deny else Err (UnknownAction s)
  | YMapping m =>
      match m with
      | [(k, x)] =>
          let? key := of_option (as_str k) (UnknownAction "action key must be a string") in
          parse_keyed_action key x (seq_with parse_action x)
      | m => Err (UnknownAction ("action mapping must have exactly one key, got " +:+ dec_show (Z.of_nat (length m))))
      end
  | _ => Err (UnknownAction "action must be string or mapping")
  end.

(** ** Rules; [None] is the panic of [expect] on a key that is no string *)

Definition parse_rule_id (o : option Yaml) : result (option string) ParseError :=
  match o with
  | None => Ok None
  | Some (YString s) => if str_is_empty s then Err (InvalidValue "id" "empty") else Ok (Some s)
  | Some other => Err (InvalidValue "id" (yaml_debug other))
  end.

Definition is_flat (kv : Yaml * Yaml) : bool :=
  negb (bool_decide (default "" (as_str kv.1) ∈ ["action"; "match"; "id"])).

(** The loop over the flat keys. *)
Fixpoint parse_flat (m : YMap) : option (result (list MatchExpr) ParseError) :=
  match m with
  | [] => Some (Ok [])
  | (k, v) :: m =>
      key ← as_str k;
      match parse_predicate key v with
      | Err e => Some (Err e)
      | Ok p => rest ← parse_flat m; Some (map_ok (cons (Term p)) rest)
      end
  end.

Definition parse_rule_match (m : YMap) : option (result MatchExpr ParseError) :=
  let flat := List.filter is_flat m in
  match map_get m "match" with
  | Some mv => Some (match flat with [] => parse_match mv | _ => Err RuleBothMatchAndFlat end)
  | None =>
      r ← parse_flat flat;
      Some (let? terms := r in
            match terms with
            | [] => Err (UnknownAction "rule has no predicates")
            | [t] => Ok t
            | ts => Ok (All ts)
            end)
  end.

Definition parse_rule (v : Yaml) : option (result Rule ParseError) :=
  match as_mapping v with
  | None => Some (Err (UnknownAction "rule must be mapping"))
  | Some m =>
      match map_get m "action" with
      | None => Some (Err (UnknownAction "rule missing `action`"))
      | Some av =>
          match parse_action av, parse_rule_id (map_get m "id") with
          | Err e, _ => Some (Err e)
          | Ok _, Err e => Some (Err e)
          | Ok action, Ok id => r ← parse_rule_match m; Some (map_ok (fun mt => mkRule id mt action) r)
          end
      end
  end.

(** [collect] stops at the first error. *)
Fixpoint parse_rules (l : list Yaml) : option (result (list Rule) ParseError) :=
  match l with
  | [] => Some (Ok [])
  | v :: l =>
      r ← parse_rule v;
      match r with
      | Err e => Some (Err e)
      | Ok rule => rest ← parse_rules l; Some (map_ok (cons rule) rest)
      end
  end.

(** ** Rule sets *)

Definition formats : list (string * RulesetFormat) :=
  [("domain-suffix", DomainSuffix); ("ip-cidr", IpCidr); ("classical", Classical)].
Definition fields : list (string * RulesetField) := [("hostname", FHostname); ("src_ip", FSrcIp); ("dst_ip", FDstIp)].

Definition is_classical (f : RulesetFormat) : bool := match f with Classical => true | _ => false end.

Definition parse_inline_value (at_ : string) (v : Yaml) : result string ParseError :=
  let? s := of_option (as_str v) (InvalidValue (at_ +:+ ".values[]") (yaml_debug v)) in
  do? ensure (negb (str_is_empty s)) (InvalidValue (at_ +:+ ".values[]") "empty");
  Ok s.

Definition parse_inline (at_ : string) (m : YMap) : result RulesetSource ParseError :=
  do? ensure (negb (contains_key m "path")) (InvalidValue (at_ +:+ ".path") "not allowed for inline source");
  let? l := of_option (map_get m "values" ≫= as_sequence) (UnknownAction (at_ +:+ ".values missing")) in
  match l with
  | [] => Err (InvalidValue (at_ +:+ ".values") "empty")
  | l => map_ok Inline (collect (parse_inline_value at_ <$> l))
  end.

Definition parse_local (at_ : string) (m : YMap) : result RulesetSource ParseError :=
  do? ensure (negb (contains_key m "values")) (InvalidValue (at_ +:+ ".values") "not allowed for local source");
  let? p := of_option (get_str m "path") (UnknownAction (at_ +:+ ".path missing")) in
  do? ensure (negb (str_is_empty p)) (InvalidValue (at_ +:+ ".path") "empty");
  Ok (LocalFile p).

Definition parse_source (at_ : string) (m : YMap) (kind : string) : result RulesetSource ParseError :=
  if bool_decide (kind = "inline") then parse_inline at_ m
  else if bool_decide (kind = "local") then parse_local at_ m
  else Err (InvalidValue (at_ +:+ ".type") kind).

Definition parse_ruleset (name : string) (v : Yaml) : result Ruleset ParseError :=
  let at_ := "rule_sets." +:+ name in
  let? m := of_option (as_mapping v) (UnknownAction (at_ +:+ " must be mapping")) in
  do? check_keys (UnknownAction (at_ +:+ " keys must be strings")) ["type"; "format"; "field"; "values"; "path"]
        (fun key => InvalidValue (at_ +:+ "." +:+ key) "unknown key") m;
  let? f := of_option (get_str m "format") (UnknownAction (at_ +:+ ".format missing")) in
  let? format := one_of (at_ +:+ ".format") formats f in
  let? field := match get_str m "field" with
                | None => Ok None
                | Some f => map_ok Some (one_of (at_ +:+ ".field") fields f)
                end in
  do? ensure (negb (is_classical format && bool_decide (is_Some field)))
        (InvalidValue (at_ +:+ ".field") "not allowed for classical");
  let? kind := of_option (get_str m "type") (UnknownAction (at_ +:+ ".type missing (inline|local)")) in
  map_ok (mkRuleset name format field) (parse_source at_ m kind).

Definition parse_named_ruleset (kv : Yaml * Yaml) : result Ruleset ParseError :=
  let? name := of_option (as_str kv.1) (UnknownAction "rule_sets keys must be strings") in
  do? ensure (negb (str_is_empty name)) (InvalidValue "rule_sets" "empty name");
  parse_ruleset name kv.2.

Definition parse_rulesets (o : option Yaml) : result (list Ruleset) ParseError :=
  match o with
  | None => Ok []
  | Some (YMapping m) => collect (parse_named_ruleset <$> m)
  | Some _ => Err (UnknownAction "rule_sets must be mapping")
  end.

(** ** Documents: what serde_yaml read, or its error *)

Definition parse_chain_and_rulesets_yaml (doc : result Yaml string) :
    option (result (RuleChain * list Ruleset) ParseError) :=
  match doc with
  | Err e => Some (Err (EYaml e))
  | Ok raw =>
      match as_mapping raw with
      | None => Some (Err (UnknownAction "chain must be mapping"))
      | Some m =>
          match check_keys (UnknownAction "top-level keys must be strings") ["rules"; "default"; "rule_sets"]
                  (fun key => InvalidValue key "unknown top-level key") m with
          | Err e => Some (Err e)
          | Ok _ =>
              match map_get m "default" with
              | None => Some (Err MissingDefault)
              | Some d =>
                  match parse_action d with
                  | Err e => Some (Err e)
                  | Ok dflt =>
                      match map_get m "rules" with
                      | None => Some (Err MissingRules)
                      | Some (YSequence l) =>
                          rs ← parse_rules l;
                          Some (let? rs := rs in
                                let? sets := parse_rulesets (map_get m "rule_sets") in
                                Ok (mkChain rs dflt, sets))
                      | Some _ => Some (Err (UnknownAction "rules must be sequence"))
                      end
                  end
              end
          end
      end
  end.

Definition parse_chain_yaml (doc : result Yaml string) : option (result RuleChain ParseError) :=
  map_ok fst <$> parse_chain_and_rulesets_yaml doc.

(** ** [RuleSetRegistry::load]; [read] is [std::fs::read_to_string] *)

Definition validate_error_text (e : ValidateError) : string :=
  match e with
  | ComposeAllowDenyConflict => "Compose contains both Allow and Deny"
  | ComposeMultipleRouteGroup => "Compose contains more than one SetRouteGroup"
  | ComposeMultipleResolverPool => "Compose contains more than one set_resolver_pool"
  | ComposeMultipleCostBias => "Compose contains more than one SetCostBias"
  | EmptyCompose => "Compose must not be empty"
  | EmptyRouteGroup => "SetRouteGroup must not be empty"
  | EmptyResolverPool => "set_resolver_pool must not be empty"
  | InvalidTransformParams => "SetTransform params must be absent or object"
  | InvalidFanoutK => "fanout.k must be >= 1"
  | InvalidCostBias => "SetCostBias must be between -9000 and 9000"
  | EmptyRulesetName => "ruleset name must not be empty"
  | EmptyRulesetRef => "ruleset reference must not be empty"
  | DuplicateRulesetName name => "ruleset `" +:+ name +:+ "` is duplicate"
  | EmptyRulesetValue name => "ruleset `" +:+ name +:+ "` value must not be empty"
  | EmptyRulesetPath name => "ruleset `" +:+ name +:+ "` local path must not be empty"
  | EmptyRuleId => "rule id must not be empty"
  | EmptyPredicateValue field => "predicate `" +:+ field +:+ "` must not be empty"
  | EmptyPredicateSet field => "predicate set `" +:+ field +:+ "` must not be empty"
  | EmptyMatchGroup op => "match `" +:+ op +:+ "` group must not be empty"
  | InvalidDstPortRange a b =>
      "dst_port_range start `" +:+ dec_show a +:+ "` must be <= end `" +:+ dec_show b +:+ "`"
  | RulesetIpCidrField name => "Ruleset `" +:+ name +:+ "` format `ip-cidr` requires field=src_ip or dst_ip"
  | RulesetDomainSuffixField name => "Ruleset `" +:+ name +:+ "` format `domain-suffix` requires field=hostname"
  | RulesetClassicalField name => "Ruleset `" +:+ name +:+ "` format `classical` must omit field"
  end.

Section Load.
Variable read : string -> result string string.

(** The lines of a file that are neither blank nor comments, trimmed. *)
Definition file_entries (body : string) : list string :=
  HttpProxy.trim <$> List.filter (fun l => negb (str_is_empty (HttpProxy.trim l)) && negb (starts_with "#" (HttpProxy.trim l)))
    (str_lines body).

Definition raw_lines (s : RulesetSource) : result (list string) ParseError :=
  match s with
  | Inline values => Ok values
  | LocalFile path =>
      map_ok file_entries (map_err (fun e => UnknownAction ("read " +:+ path +:+ ": " +:+ e)) (read path))
  end.

Definition parse_cidr_line (name l : string) : result IpNet ParseError :=
  map_err (fun e => InvalidValue ("rule_sets." +:+ name +:+ ".values[]") (l +:+ ": " +:+ e)) (net_parse l).

Definition resolve_ruleset (rs : Ruleset) : result ResolvedRuleset ParseError :=
  do? map_err (fun e => InvalidValue ("rule_sets." +:+ rs_name rs) (validate_error_text e)) (validate_ruleset rs);
  let? lines := raw_lines (rs_source rs) in
  match lines with
  | [] => Err (InvalidValue "rule_sets" ("`" +:+ rs_name rs +:+ "` empty"))
  | lines =>
      match rs_format rs with
      | IpCidr =>
          let? nets := collect (parse_cidr_line (rs_name rs) <$> lines) in
          Ok (mkResolved (rs_field rs) IpCidr [] nets)
      | f => Ok (mkResolved (rs_field rs) f lines [])
      end
  end.

Fixpoint load_sets (out : RuleSetRegistry) (sets : list Ruleset) : result RuleSetRegistry ParseError :=
  match sets with
  | [] => Ok out
  | rs :: sets =>
      do? ensure (negb (bool_decide (is_Some (out !! rs_name rs))))
            (InvalidValue "rule_sets" ("duplicate name `" +:+ rs_name rs +:+ "`"));
      let? r := resolve_ruleset rs in
      load_sets (<[rs_name rs := r]> out) sets
  end.

Definition registry_load (sets : list Ruleset) : result RuleSetRegistry ParseError := load_sets ∅ sets.
End Load.
End Parser.
