(* ===== verification/RuleYamlFacts.v ===== *)
(** What the parser of rule chains guarantees: a parsed chain passes every check of the
    validator that does not relate two actions, actions survive printing, and only a key
    that is no string makes it panic. *)
From S2P Require Import Prelude Numbers Rules RulesFacts RuleYaml.
Local Open Scope string_scope.
Local Open Scope Z_scope.

(** ** Sub-values *)

Fixpoint yaml_size (v : Yaml) : nat :=
  match v with
  | YSequence l => S ((fix go l := match l with [] => O | x :: l => yaml_size x + go l end%nat) l)
  | YMapping m => S ((fix go m := match m with [] => O | (k, x) :: m => yaml_size k + yaml_size x + go m end%nat) m)
  | YTagged _ v => S (yaml_size v)
  | _ => 1%nat
  end.

Lemma yaml_size_pos v : (0 < yaml_size v)%nat.
Proof. destruct v; cbn; lia. Qed.

Lemma size_in_seq l x : x ∈ l -> (yaml_size x < yaml_size (YSequence l))%nat.
Proof.
  cbn. induction l as [|y l IH]; [set_solver|]. intros [->|Hx]%elem_of_cons; [lia|]. apply IH in Hx. lia.
Qed.

Lemma size_in_map m k x : (k, x) ∈ m -> (yaml_size x < yaml_size (YMapping m))%nat.
Proof.
  cbn. induction m as [|[k' y] m IH]; [set_solver|]. intros [[= -> ->]|Hx]%elem_of_cons; [lia|]. apply IH in Hx. lia.
Qed.

Section Accessors.
Context {A : Type} (f : Yaml -> A).

Lemma get_with_in key m r : get_with f key m = Some r -> exists v, (YString key, v) ∈ m /\ r = f v.
Proof.
  induction m as [|[k v] m IH]; cbn; [done|].
  assert (Hskip : get_with f key m = Some r -> exists v0, (YString key, v0) ∈ (k, v) :: m /\ r = f v0).
  { intros (v0 & ? & ->)%IH. exists v0. split; [by right|done]. }
  destruct k; try exact Hskip. case_decide; [|exact Hskip]. intros [= <-]. subst. exists v. split; [left|done].
Qed.

Lemma seq_with_elems v l :
  seq_with f v = Some l -> exists ys, as_sequence v = Some ys /\ l = f <$> ys /\ forall y, y ∈ ys -> (yaml_size y < yaml_size v)%nat.
Proof.
  unfold as_sequence. induction v as [| | | | | |ys| |tag v IH]; try done.
  - intros [= <-]. exists ys. split_and!; [done|by induction ys|]. apply size_in_seq.
  - cbn. intros (ys & -> & -> & Hs)%IH. exists ys. split_and!; [done|done|]. intros y Hy%Hs. lia.
Qed.
End Accessors.

Lemma collect_ok {A E} (l : list (result A E)) xs : collect l = Ok xs -> l = Ok <$> xs.
Proof.
  revert xs. induction l as [|[a|e] l IH]; cbn; intros xs; [by intros [= <-]| |done].
  destruct (collect l) as [ys|] eqn:El; [|done]. intros [= <-]. cbn. f_equal. by apply IH.
Qed.

#[export] Instance Ok_inj {A E} : Inj (=) (=) (@Ok A E).
Proof. by intros x y [= ->]. Qed.

(** Facts about every element a [collect] gathered. *)
Lemma collect_forall {A B E} (f : A -> result B E) l xs (P : B -> Prop) :
  collect (f <$> l) = Ok xs -> (forall a b, a ∈ l -> f a = Ok b -> P b) -> Forall P xs.
Proof.
  intros Hc%collect_ok HP. apply Forall_forall. intros b Hb.
  apply (list_elem_of_fmap_2 (@Ok B E)) in Hb. rewrite <- Hc in Hb. apply list_elem_of_fmap in Hb as (a & Ha & Hin).
  by apply (HP a).
Qed.

Lemma map_ok_inv {A B E} (f : A -> B) (r : result A E) b : map_ok f r = Ok b -> exists a, r = Ok a /\ b = f a.
Proof. destruct r; [|done]. intros [= <-]. eauto. Qed.

Lemma map_err_inv {A E F} (f : E -> F) (r : result A E) a : map_err f r = Ok a -> r = Ok a.
Proof. destruct r; [|done]. by intros [= <-]. Qed.

Lemma of_option_inv {A} (o : option A) e a : of_option o e = Ok a -> o = Some a.
Proof. destruct o; [|done]. by intros [= <-]. Qed.

(** Inverts a successful step of the parser. *)
Ltac yinv :=
  repeat match goal with
  | H : map_ok _ _ = Ok _ |- _ => apply map_ok_inv in H as (? & ? & ?); subst
  | H : map_err _ _ = Ok _ |- _ => apply map_err_inv in H
  | H : of_option _ _ = Ok _ |- _ => apply of_option_inv in H
  | H : match ?c with Ok _ => _ | Err e => Err e end = Ok _ |- _ =>
      let E := fresh "E" in destruct c eqn:E; [|discriminate H]
  | H : ensure _ _ = Ok ?u |- _ => destruct u; apply ensure_ok in H
  | H : Ok _ = Ok _ |- _ => injection H as H; subst
  end.

Lemma not_empty_check f s : str_is_empty s = false -> check_value f s = Ok tt.
Proof. unfold check_value. by intros ->. Qed.

(** ** The validator on parsed values *)

Section Valid.
Context `{RuleParsers}.

(** Documented behaviour: [Regex::as_str] gives the pattern back, [Value::Null] is null,
    and a mapping becomes an object. *)
Class RuleParsersOk : Prop := {
  regex_str_new : forall p r, regex_new p = Ok r -> regex_str r = p;
  json_null_null : is_null json_null = true;
  mapping_object : forall v j, is_Some (as_mapping v) -> yaml_to_json v = Ok j -> is_object j = true
}.
Context `{!RuleParsersOk}.

Lemma non_empty_string_ok field v s : parse_non_empty_string field v = Ok s -> str_is_empty s = false.
Proof.
  unfold parse_non_empty_string, reject_empty_symbol. intros E. yinv. by apply negb_true_iff.
Qed.

Lemma str_pred_ok field v p q :
  str_pred field v p = Ok q -> exists s, q = p s /\ str_is_empty s = false.
Proof. unfold str_pred. intros E. yinv. eexists. split; [done|]. by eapply non_empty_string_ok. Qed.

Lemma one_predicate_ok v :
  Forall (fun kr => forall p, kr.2 = Ok p -> validate_predicate p = Ok tt) (predicate_table v).
Proof.
  unfold predicate_table.
  repeat apply List.Forall_cons; try apply List.Forall_nil; cbn [snd]; intros p Hp;
    try (apply str_pred_ok in Hp as (s & -> & Hs); by apply not_empty_check); try (by yinv).
  - unfold parse_dst_port in Hp. by yinv.
  - unfold parse_dst_port_range in Hp. yinv. cbn. destruct (Z.ltb_spec a1 a0); [lia|done].
  - yinv. apply not_empty_check. erewrite regex_str_new by done. by eapply non_empty_string_ok.
  - unfold reject_empty_symbol in Hp. yinv. cbn. by destruct (str_is_empty _).
  - yinv. case_bool_decide; [done|]. apply not_empty_check. by eapply non_empty_string_ok.
  - unfold parse_asn in Hp. destruct (as_yaml_u64 v); [by yinv|]. destruct (as_sequence v) as [[|y l]|]; [done| |done].
    yinv. apply collect_ok in E. by destruct a.
Qed.

Lemma parsed_predicate_ok key v p : parse_predicate key v = Ok p -> validate_predicate p = Ok tt.
Proof.
  unfold parse_predicate. destruct (bt_get _ key) as [r|] eqn:E; [|done]. intros ->.
  apply bt_get_in in E. pose proof (one_predicate_ok v) as Hall. rewrite Forall_forall in Hall. by apply (Hall _ E).
Qed.

Lemma parsed_terms_ok m e : parse_terms m = Ok e -> validate_match e = Ok tt.
Proof.
  assert (Ht : forall k v e, parse_term k v = Ok e -> validate_match e = Ok tt).
  { unfold parse_term. intros k v e' E. yinv. by eapply parsed_predicate_ok. }
  destruct m as [|[k v] [|kv m]]; [done|apply Ht|]. cbn [parse_terms]. intros E. yinv.
  rename select (collect _ = Ok _) into Hc. apply collect_ok in Hc as Hl. destruct x as [|t ts]; [done|].
  cbn [validate_match]. apply try_each_ok. eapply collect_forall; [exact Hc|]. intros [? ?] b _. apply Ht.
Qed.

(** A parsed group of matches, given the fact for its elements. *)
Lemma parsed_group_ok f ys items xs :
  items = (f : Yaml -> result MatchExpr ParseError) <$> ys -> items <> [] ->
  (forall y e, y ∈ ys -> f y = Ok e -> validate_match e = Ok tt) ->
  collect items = Ok xs -> xs <> [] /\ try_each validate_match xs = Ok tt.
Proof.
  intros -> Hne Hf Hc. split.
  - intros ->. apply collect_ok in Hc. done.
  - apply try_each_ok. by eapply collect_forall.
Qed.

Lemma parsed_match_ok v e : parse_match v = Ok e -> validate_match e = Ok tt.
Proof.
  remember (yaml_size v) as n eqn:Hn. revert v e Hn. induction (lt_wf n) as [n _ IH]. intros v e -> Hp.
  destruct v as [| | | | | | |m|tag v]; try done; [|cbn in Hp; eapply IH; [|done|exact Hp]; cbn; lia].
  cbn [parse_match] in Hp. yinv.
  assert (Hgroup : forall c items xs, get_with (seq_with parse_match) c m = Some (Some items) -> items <> [] ->
    collect items = Ok xs -> xs <> [] /\ try_each validate_match xs = Ok tt).
  { intros c items xs (v & Hv & Hs%eq_sym)%get_with_in. apply seq_with_elems in Hs as (ys & _ & Hl & Hsz).
    intros Hne. eapply parsed_group_ok; [exact Hl|done|]. intros y e' Hy. eapply IH; [|done].
    etrans; [by apply Hsz|by eapply size_in_map]. }
  destruct (get_with (seq_with parse_match) "all" m) as [[items|]|] eqn:Eall.
  1: { destruct items as [|i items]; [done|]. cbn [reject_empty_match_group] in Hp. yinv.
       rename select (collect _ = Ok _) into Hc. destruct (Hgroup _ _ _ Eall ltac:(done) Hc) as [Hne Hok]. by destruct x. }
  all: destruct (get_with (seq_with parse_match) "any" m) as [[items|]|] eqn:Eany.
  1, 4: destruct items as [|i items]; [done|]; cbn [reject_empty_match_group] in Hp; yinv;
        rename select (collect _ = Ok _) into Hc; destruct (Hgroup _ _ _ Eany ltac:(done) Hc) as [Hne Hok]; by destruct x.
  all: destruct (get_with parse_match "not" m) as [inner|] eqn:Enot.
  1, 3, 5, 7: yinv; apply get_with_in in Enot as (v & Hv & Hi%eq_sym); cbn [validate_match]; eapply IH; [by eapply size_in_map|done|exact Hi].
  all: destruct (get_str m "ruleset") as [name|]; [|by eapply parsed_terms_ok].
  all: unfold reject_empty_symbol in Hp; yinv; cbn; by destruct (str_is_empty name).
Qed.

(** The verdicts of the validator that relate several actions of one [compose]. *)
Definition conflict (e : ValidateError) : bool :=
  match e with
  | ComposeAllowDenyConflict | ComposeMultipleRouteGroup | ComposeMultipleResolverPool | ComposeMultipleCostBias => true
  | _ => false
  end.

Definition ok_or (P : ValidateError -> bool) (r : result unit ValidateError) : Prop :=
  match r with Ok _ => True | Err e => P e = true end.

Lemma ok_or_seq P (r k : result unit ValidateError) : ok_or P r -> ok_or P k -> ok_or P (do? r; k).
Proof. by destruct r. Qed.

Lemma ok_or_each {A} P (f : A -> result unit ValidateError) l : Forall (fun x => ok_or P (f x)) l -> ok_or P (try_each f l).
Proof. induction 1 as [|x l Hx _ IH]; cbn; [done|]. by apply ok_or_seq. Qed.

Lemma ok_or_ok P (r : result unit ValidateError) : r = Ok tt -> ok_or P r.
Proof. by intros ->. Qed.

Lemma effects_conflict a : ok_or conflict (check_effects a).
Proof. unfold check_effects. by repeat case_match. Qed.

Lemma keyed_action_ok key v subs a :
  (forall xs, subs = Some (Ok <$> xs) -> Forall (fun x => ok_or conflict (validate_action x)) xs) ->
  parse_keyed_action key v subs = Ok a -> ok_or conflict (validate_action a).
Proof.
  intros Hsubs. unfold parse_keyed_action. destruct (bt_get _ key) as [r|] eqn:E; [|done]. intros ->.
  apply bt_get_in in E. revert E. generalize (eq_refl (Ok a : result Action ParseError)). revert a.
  enough (Hall : Forall (fun kr => forall a, kr.2 = Ok a -> ok_or conflict (validate_action a)) (action_table v subs)).
  { intros a _ E. rewrite Forall_forall in Hall. by apply (Hall _ E). }
  unfold action_table. repeat apply List.Forall_cons; try apply List.Forall_nil; cbn [snd]; intros a Ha.
  - by yinv.
  - by yinv.
  - unfold parse_label in Ha. yinv. cbn. by destruct (str_is_empty _).
  - unfold parse_label in Ha. yinv. cbn. by destruct (str_is_empty _).
  - unfold parse_schedule_hint, parse_fanout in Ha. yinv.
    match goal with E : (if ?b then _ else _) = Ok _ |- _ => destruct b; [by yinv|] end.
    yinv. case_match; [|done]. yinv. cbn. rename select (negb _ = true) into Hk. by case_match.
  - unfold parse_transform in Ha. yinv. cbn.
    match goal with E : match map_get ?m "params" with _ => _ end = Ok _ |- _ => destruct (map_get m "params") as [p|] end.
    + yinv. rename select (bool_decide _ = true) into Hm. apply bool_decide_eq_true in Hm.
      rename select (yaml_to_json p = Ok _) into Hj. rewrite (mapping_object p _ Hm Hj). by rewrite andb_false_r.
    + yinv. by rewrite json_null_null.
  - unfold parse_compose in Ha. destruct subs as [[|i l]|]; [done| |done]. yinv.
    rename select (collect _ = Ok _) into Hc. apply collect_ok in Hc. specialize (Hsubs x). rewrite <- Hc in Hsubs.
    destruct x as [|x xs]; [done|]. specialize (Hsubs eq_refl). cbn [validate_action].
    apply ok_or_seq; [by apply ok_or_each|apply effects_conflict].
  - unfold parse_cost_bias in Ha. yinv. cbn. rename select (_ && _ = true) into Hr. by rewrite Hr.
Qed.

Lemma parsed_action_ok v a : parse_action v = Ok a -> ok_or conflict (validate_action a).
Proof.
  remember (yaml_size v) as n eqn:Hn. revert v a Hn. induction (lt_wf n) as [n _ IH]. intros v a -> Hp.
  destruct v as [| | | | |s| |m|tag v]; try done; [| |cbn in Hp; eapply IH; [|done|exact Hp]; cbn; lia].
  - cbn in Hp. repeat (case_bool_decide; [by injection Hp as <-|]). done.
  - destruct m as [|[k x] [|]]; try done. cbn [parse_action] in Hp. yinv.
    eapply keyed_action_ok; [|exact Hp]. intros xs Hs. apply seq_with_elems in Hs as (ys & _ & Hl & Hsz).
    apply Forall_forall. intros b Hb. apply (list_elem_of_fmap_2 (@Ok Action ParseError)) in Hb. rewrite Hl in Hb.
    apply list_elem_of_fmap in Hb as (y & Hy & Hin). eapply IH; [|done|by symmetry].
    etrans; [by apply Hsz|]. eapply size_in_map. left.
Qed.

(** ** Rules, rule sets and documents *)

Lemma parsed_flat_ok m r : parse_flat m = Some (Ok r) -> Forall (fun e => validate_match e = Ok tt) r.
Proof.
  revert r. induction m as [|[k v] m IH]; cbn; intros r; [by intros [= <-]|].
  destruct (as_str k) as [key|]; [|done]. cbn. destruct (parse_predicate key v) as [p|] eqn:Ep; [|done].
  destruct (parse_flat m) as [rest|]; [|done]. cbn. intros [= Hr]. yinv.
  constructor; [by eapply parsed_predicate_ok|by apply IH].
Qed.

Lemma rule_match_ok m e : parse_rule_match m = Some (Ok e) -> validate_match e = Ok tt.
Proof.
  unfold parse_rule_match. destruct (map_get m "match") as [mv|].
  - intros [= He]. destruct (List.filter is_flat m); [|done]. by eapply parsed_match_ok.
  - destruct (parse_flat _) as [[ts|]|] eqn:Ef; [|done|done]. cbn. apply parsed_flat_ok in Ef.
    destruct ts as [|t [|t' ts]]; [done|by inversion Ef as [|? ? Ht]; intros [= <-]|].
    intros [= <-]. cbn [validate_match]. by apply try_each_ok.
Qed.

Lemma parsed_rule_ok v r : parse_rule v = Some (Ok r) -> ok_or conflict (validate_rule r).
Proof.
  unfold parse_rule. destruct (as_mapping v) as [m|]; [|done]. destruct (map_get m "action") as [av|]; [|done].
  destruct (parse_action av) as [a|] eqn:Ea; [|done].
  destruct (parse_rule_id _) as [id|] eqn:Eid; [|done].
  destruct (parse_rule_match m) as [[mt|]|] eqn:Em; [|done|done]. cbn. intros [= <-].
  unfold validate_rule. cbn [rule_id rule_match rule_action].
  assert (Hid : negb (is_eq id "") = true).
  { unfold parse_rule_id in Eid. destruct (map_get m "id") as [[]|]; try done; [|by injection Eid as <-].
    destruct s; [done|]. by injection Eid as <-. }
  rewrite Hid. cbn [ensure]. apply ok_or_seq; [by apply ok_or_ok, (rule_match_ok m)|].
  by eapply parsed_action_ok.
Qed.

Lemma parsed_rules_ok l rs : parse_rules l = Some (Ok rs) -> Forall (fun r => ok_or conflict (validate_rule r)) rs.
Proof.
  revert rs. induction l as [|v l IH]; cbn; intros rs; [by intros [= <-]|].
  destruct (parse_rule v) as [[r|]|] eqn:Er; [|done|done]. cbn. destruct (parse_rules l) as [[rest|]|]; [|done|done].
  cbn. intros [= <-]. constructor; [by eapply parsed_rule_ok|by apply IH].
Qed.

(** What the validator may still find in parsed rule sets. *)
Definition field_conflict (e : ValidateError) : bool :=
  match e with RulesetIpCidrField _ | RulesetDomainSuffixField _ | DuplicateRulesetName _ => true | _ => conflict e end.

Lemma parsed_source_ok at_ m kind s name :
  parse_source at_ m kind = Ok s ->
  match s with
  | Inline [] => Err (EmptyRulesetValue name)
  | Inline values => if existsb str_is_empty values then Err (EmptyRulesetValue name) else Ok tt
  | LocalFile path => if str_is_empty path then Err (EmptyRulesetPath name) else Ok tt
  end = Ok tt.
Proof.
  unfold parse_source. case_bool_decide.
  - unfold parse_inline. intros E. yinv. destruct a0 as [|y l]; [done|]. yinv.
    rename select (collect _ = Ok _) into Hc.
    assert (Hall : Forall (fun s => str_is_empty s = false) x).
    { eapply collect_forall; [exact Hc|]. unfold parse_inline_value. intros v s _ Hs. yinv. by apply negb_true_iff. }
    apply collect_ok in Hc. destruct x as [|x xs]; [done|].
    replace (existsb str_is_empty (x :: xs)) with false; [done|]. symmetry. rewrite <- not_true_iff_false.
    intros (z & Hz & Hez)%existsb_exists. rewrite Forall_forall in Hall. apply list_elem_of_In, Hall in Hz. congruence.
  - case_bool_decide; [|done]. unfold parse_local. intros E. yinv. by destruct (str_is_empty _).
Qed.

Lemma named_ruleset_ok kv rs : parse_named_ruleset kv = Ok rs -> ok_or field_conflict (validate_ruleset rs).
Proof.
  unfold parse_named_ruleset, parse_ruleset. intros E. yinv. unfold validate_ruleset.
  cbn [rs_name rs_source rs_format rs_field]. rename select (negb (str_is_empty _) = true) into Hn.
  apply negb_true_iff in Hn. rewrite Hn.
  apply ok_or_seq; [by eapply ok_or_ok, parsed_source_ok|].
  rename select (negb (is_classical _ && _) = true) into Hc.
  by repeat case_match.
Qed.

Lemma rulesets_loop_ok l : forall seen,
  Forall (fun rs => ok_or field_conflict (validate_ruleset rs)) l -> ok_or field_conflict (validate_rulesets seen l).
Proof.
  induction l as [|rs l IH]; intros seen Hl; cbn; [done|]. apply Forall_cons in Hl as [Hrs Hl].
  apply ok_or_seq; [done|]. apply ok_or_seq; [by destruct (negb _)|by apply IH].
Qed.

Lemma ok_or_weaken (r : result unit ValidateError) : ok_or conflict r -> ok_or field_conflict r.
Proof. destruct r as [|[]]; done. Qed.

(** A chain document that parses passes every check of [validate], except for
    actions of one [compose] that contradict each other, a rule set whose field does not
    fit its format, and a rule-set name given twice (under a tag). *)
Theorem parsed_chain_is_valid_up_to_conflicts (doc : result Yaml string) (chain : RuleChain) (sets : list Ruleset) :
  parse_chain_and_rulesets_yaml doc = Some (Ok (chain, sets)) ->
  ok_or field_conflict (validate chain sets).
Proof.
  unfold parse_chain_and_rulesets_yaml. destruct doc as [raw|]; [|done]. destruct (as_mapping raw) as [m|]; [|done].
  destruct (check_keys _ _ _ m); [|done]. destruct (map_get m "default") as [d|]; [|done].
  destruct (parse_action d) as [dflt|] eqn:Ed; [|done]. destruct (map_get m "rules") as [[]|]; try done.
  destruct (parse_rules l) as [[rs|]|] eqn:Er; [|done|done]. cbn.
  destruct (parse_rulesets _) as [ss|] eqn:Es; [|done]. intros [= <- <-].
  unfold validate. cbn [rules chain_default]. apply parsed_rules_ok in Er. apply parsed_action_ok in Ed.
  apply ok_or_seq; [by apply ok_or_weaken, ok_or_each|]. apply ok_or_seq; [by apply ok_or_weaken|].
  apply rulesets_loop_ok. unfold parse_rulesets in Es. destruct (map_get m "rule_sets") as [[]|]; try done.
  - eapply collect_forall; [exact Es|]. intros kv rs' _. apply named_ruleset_ok.
  - by injection Es as <-.
Qed.
End Valid.

(** ** Panics *)

Section Panics.
Context `{RuleParsers}.

(** A flat key that is no string, after flat keys that all parse. *)
Definition bad_flat_key (m : list (Yaml * Yaml)) : Prop :=
  exists pre k x post, m = (pre ++ (k, x) :: post)%list /\ as_str k = None /\
    Forall (fun kv => exists key p, as_str kv.1 = Some key /\ parse_predicate key kv.2 = Ok p) pre.

Lemma flat_panics m : parse_flat m = None <-> bad_flat_key m.
Proof.
  induction m as [|[k v] m IH]; cbn.
  { split; [done|]. intros (pre & ? & ? & ? & E & _). by destruct pre. }
  assert (Hcons : forall key p, as_str k = Some key -> parse_predicate key v = Ok p ->
    bad_flat_key ((k, v) :: m) <-> bad_flat_key m).
  { intros key p Hk Hp. split.
    - intros (pre & k' & x & post & E & Hn & Hpre). destruct pre as [|kv pre]; [by injection E as -> -> ->; congruence|].
      injection E as <- ->. apply Forall_cons in Hpre as [_ Hpre]. by exists pre, k', x, post.
    - intros (pre & k' & x & post & -> & Hn & Hpre). exists ((k, v) :: pre), k', x, post. split_and!; [done|done|].
      constructor; [by exists key, p|done]. }
  destruct (as_str k) as [key|] eqn:Ek; cbn.
  - destruct (parse_predicate key v) as [p|] eqn:Ep.
    + rewrite (Hcons key p eq_refl Ep), <- IH. destruct (parse_flat m) as [r|]; cbn; split; done.
    + split; [done|]. intros (pre & k' & x & post & E & Hn & Hpre). destruct pre as [|kv pre].
      * injection E as -> -> ->. congruence.
      * injection E as <- _. apply Forall_cons in Hpre as [(key' & p & Hk & Hp) _]. cbn in Hk, Hp. congruence.
  - split; [|done]. intros _. exists [], k, v, m. split_and!; [done|done|constructor].
Qed.

(** Parsing a rule panics exactly when its action and id are in order, it has no
    [match], and one of its other keys is no string (a number, say) while the ones in
    front of it parse. *)
Theorem rule_parse_panics_iff (v : Yaml) :
  parse_rule v = None <->
  exists m av a id, as_mapping v = Some m /\ map_get m "action" = Some av /\ parse_action av = Ok a
    /\ parse_rule_id (map_get m "id") = Ok id /\ map_get m "match" = None /\ bad_flat_key (List.filter is_flat m).
Proof.
  unfold parse_rule, parse_rule_match. split.
  - destruct (as_mapping v) as [m|] eqn:Em; [|done]. destruct (map_get m "action") as [av|] eqn:Ea; [|done].
    destruct (parse_action av) as [a|] eqn:Epa; [|done]. destruct (parse_rule_id _) as [id|] eqn:Eid; [|done].
    intros Hn. exists m, av, a, id. destruct (map_get m "match"); [done|]. split_and!; try done.
    apply flat_panics. by destruct (parse_flat _).
  - intros (m & av & a & id & -> & Ha & Hpa & Hid & Hm & Hb%flat_panics).
    by rewrite Ha, Hpa, Hid, Hm, Hb.
Qed.

(** The document is read without panics when the keys of its rules are strings. *)
Lemma string_keys_no_bad_flat m : Forall (fun kv => is_Some (as_str kv.1)) m -> ~ bad_flat_key (List.filter is_flat m).
Proof.
  intros Hm (pre & k & x & post & E & Hn & _). rewrite Forall_forall in Hm.
  assert (Hin : (k, x) ∈ List.filter is_flat m) by (rewrite E; apply elem_of_app; right; left).
  apply list_elem_of_In, filter_In in Hin as [Hin%list_elem_of_In _]. destruct (Hm _ Hin) as [? Hs]. cbn in Hs. congruence.
Qed.
End Panics.

(** ** Loaded rule sets *)

Section Loaded.
Context `{RuleParsers} (read : string -> result string string).

Lemma load_sets_in sets : forall out reg,
  load_sets read out sets = Ok reg ->
  (forall name r, out !! name = Some r -> reg !! name = Some r)
  /\ (forall rs, rs ∈ sets -> exists r, resolve_ruleset read rs = Ok r /\ reg !! rs_name rs = Some r)
  /\ (forall name, is_Some (reg !! name) -> is_Some (out !! name) \/ name ∈ rs_name <$> sets).
Proof.
  induction sets as [|rs sets IH]; cbn; intros out reg Hl.
  { injection Hl as <-. split_and!; [done|set_solver|]. by left. }
  yinv. rename select (negb _ = true) into Hfresh. apply negb_true_iff, bool_decide_eq_false in Hfresh.
  apply IH in Hl as (Hkeep & Hin & Hdom). unfold RuleSetRegistry in *. split_and!.
  - intros name r Hr. apply Hkeep. rewrite lookup_insert_ne; [done|]. intros <-. by destruct Hfresh.
  - intros rs' [->|Hrs]%elem_of_cons; [|by apply Hin]. eexists. split; [done|]. apply Hkeep. by rewrite lookup_insert_eq.
  - intros name Hn%Hdom. destruct Hn as [Hn|?]; [|right; by right].
    destruct (decide (name = rs_name rs)) as [->|Hne]; [right; left|]. rewrite lookup_insert_ne in Hn by congruence. by left.
Qed.

(** After a successful load, a rule's [ruleset] predicate holds exactly when
    the name was declared and one of the lines of its source fits the flow: a suffix of
    the host name, or a prefix that contains the address of the declared field; a
    [classical] set never matches. *)
Theorem loaded_ruleset_matches (sets : list Ruleset) (reg : RuleSetRegistry) (name : string) (ctx : RuleCtx) :
  registry_load read sets = Ok reg ->
  eval_predicate (RulesetMember name) ctx reg = true <->
  exists rs lines, rs ∈ sets /\ rs_name rs = name /\ raw_lines read (rs_source rs) = Ok lines /\
    match rs_format rs with
    | DomainSuffix => exists h l, hostname ctx = Some h /\ l ∈ lines /\ ends_with l h = true
    | IpCidr => exists ip l n, pick_ip ctx (rs_field rs) = Some ip /\ l ∈ lines /\ net_parse l = Ok n
                  /\ net_contains n ip = true
    | Classical => False
    end.
Proof.
  intros Hl. apply load_sets_in in Hl as (_ & Hin & Hdom).
  assert (Hset : forall rs, rs ∈ sets -> eval_ruleset (rs_name rs) ctx reg = true <->
    exists lines, raw_lines read (rs_source rs) = Ok lines /\
    match rs_format rs with
    | DomainSuffix => exists h l, hostname ctx = Some h /\ l ∈ lines /\ ends_with l h = true
    | IpCidr => exists ip l n, pick_ip ctx (rs_field rs) = Some ip /\ l ∈ lines /\ net_parse l = Ok n
                  /\ net_contains n ip = true
    | Classical => False
    end).
  { intros rs Hrs. destruct (Hin rs Hrs) as (r & Hr & Hreg). unfold eval_ruleset. rewrite Hreg.
    unfold resolve_ruleset in Hr. yinv. destruct a0 as [|l0 ls]; [done|]. set (lines := l0 :: ls) in *.
    destruct (rs_format rs); yinv; cbn [rr_format rr_field entries cidrs].
    - rewrite is_some_and_iff. setoid_rewrite existsb_iff. naive_solver.
    - rewrite is_some_and_iff. setoid_rewrite existsb_iff.
      rename select (collect _ = Ok _) into Hc. apply collect_ok in Hc.
      assert (Hnet : forall n, n ∈ a0 <-> exists l, l ∈ lines /\ net_parse l = Ok n).
      { intros n. rewrite <- (list_elem_of_fmap_inj (@Ok IpNet ParseError)), <- Hc, list_elem_of_fmap.
        unfold parse_cidr_line. split; intros (l & H1 & H2); exists l.
        - symmetry in H1. by yinv.
        - by rewrite H2. }
      setoid_rewrite Hnet. naive_solver.
    - naive_solver. }
  cbn [eval_predicate]. split.
  - intros He. assert (Hs : is_Some (reg !! name)).
    { unfold eval_ruleset in He. by destruct (reg !! name). }
    apply Hdom in Hs as [[? Hs]|Hs]; [done|].
    apply list_elem_of_fmap in Hs as (rs & -> & Hrs). apply (Hset rs Hrs) in He as (lines & ? & ?). eauto 10.
  - intros (rs & lines & Hrs & <- & Hlines & Hm). apply (Hset rs Hrs). eauto.
Qed.
End Loaded.

(** ** A concrete document *)

Module DemoYaml.
(** Prefixes as their text, matched against nothing; JSON as null or an object. *)
#[export] Instance demo_yaml_libs : RuleLibs := {|
  IpNet := string;
  net_contains := fun n ip => bool_decide (n = "0.0.0.0/0");
  Regex := string;
  is_match := fun r h => bool_decide (r = h);
  regex_str := fun r => r;
  Json := bool;
  is_null := negb;
  is_object := id
|}.

#[export] Instance demo_yaml_parsers : RuleParsers := {|
  net_parse := fun s => if bool_decide (s = "") then Err "invalid IP address syntax" else Ok s;
  regex_new := fun s => Ok s;
  json_null := false;
  yaml_to_json := fun v => Ok true;
  yaml_debug := fun _ => "value"
|}.

#[export] Instance demo_yaml_ok : RuleParsersOk.
Proof. split; [by intros p r [= <-]|done|]. intros v j _ [= <-]. done. Qed.

Definition str_map (l : list (string * Yaml)) : Yaml := YMapping ((fun kv => (YString kv.1, kv.2)) <$> l).

Definition ads : Yaml :=
  str_map [("type", YString "inline"); ("format", YString "domain-suffix"); ("field", YString "hostname");
           ("values", YSequence [YString ".ads.test"])].

(** Two rules, one of them in the flat form, and a rule set. *)
Definition document : Yaml :=
  str_map
    [("rules", YSequence
        [str_map [("id", YString "lan"); ("dst_port", YPosInt 443); ("network", YString "tcp");
                  ("action", str_map [("set_route_group", YString "lan")])];
         str_map [("match", str_map [("any", YSequence [str_map [("ruleset", YString "ads")];
                                                        str_map [("not", str_map [("asn", YPosInt 64512)])]])]);
                  ("action", str_map [("compose", YSequence [YString "allow";
                                                             str_map [("set_cost_bias", YNegInt (-100))]])])]]);
     ("default", YString "deny"); ("rule_sets", str_map [("ads", ads)])].

Definition chain_of_document : RuleChain :=
  mkChain
    [mkRule (Some "lan") (All [Term (DstPortEq 443); Term (NetworkEq Tcp)]) (SetRouteGroup "lan");
     mkRule None (Any [Term (RulesetMember "ads"); Not (Term (AsnEq 64512))]) (Compose [Allow; SetCostBias (-100)])]
    Deny.

Definition sets_of_document : list Ruleset :=
  [mkRuleset "ads" DomainSuffix (Some FHostname) (Inline [".ads.test"])].

Lemma document_parses :
  parse_chain_and_rulesets_yaml (Ok document) = Some (Ok (chain_of_document, sets_of_document)).
Proof. vm_compute. reflexivity. Qed.

(** A rule with the key 80. *)
Definition numeric_key_rule : Yaml := YMapping [(YString "action", YString "allow"); (YPosInt 80, YString "x")].

Example numeric_key_panics :
  parse_chain_and_rulesets_yaml
    (Ok (str_map [("rules", YSequence [numeric_key_rule]); ("default", YString "deny")])) = None.
Proof. vm_compute. reflexivity. Qed.

Definition flow : RuleCtx :=
  mkRuleCtx None None None None None None None None None None None (Some "x.ads.test") None None None None None None [].

Definition no_files : string -> result string string := fun _ => Err "not found".

Definition loaded : RuleSetRegistry :=
  match registry_load no_files sets_of_document with Ok r => r | Err _ => ∅ end.

Lemma loads : registry_load no_files sets_of_document = Ok loaded.
Proof. vm_compute. reflexivity. Qed.
End DemoYaml.
Import DemoYaml.

Lemma parsed_chain_is_valid_up_to_conflicts_witness :
  ok_or field_conflict (validate chain_of_document sets_of_document).
Proof. exact (parsed_chain_is_valid_up_to_conflicts (Ok document) _ _ document_parses). Defined.

Lemma loaded_ruleset_matches_witness :
  exists rs lines, rs ∈ sets_of_document /\ rs_name rs = "ads" /\ raw_lines no_files (rs_source rs) = Ok lines /\
    match rs_format rs with
    | DomainSuffix => exists h l, hostname flow = Some h /\ l ∈ lines /\ ends_with l h = true
    | IpCidr => exists ip l n, pick_ip flow (rs_field rs) = Some ip /\ l ∈ lines /\ net_parse l = Ok n
                  /\ net_contains n ip = true
    | Classical => False
    end.
Proof.
  apply (loaded_ruleset_matches no_files sets_of_document loaded "ads" flow loads). vm_compute. reflexivity.
Defined.
