(* ===== verification/Hooks.v ===== *)
(** The four hooks of the forward pipeline and its runtime
    (crates/mesh-bus-pipeline-hooks/src): name resolution, country and AS enrichment,
    the rule chain, and the choice of an exit.  The thread-local context is an argument
    of the hooks; the resolver and the reverse map are the answers they give during the
    run. *)
From S2P Require Import Prelude Numbers NetAddr Floats Schedulers Rules Geosite Dns Resolver ResolverRun.
From S2P Require Import KernelRegistry Pipeline.
Local Open Scope string_scope.
Local Open Scope Z_scope.

(** [Reader::open_readfile] gives a reader or the text of its error; a failed lookup is
    [None], and so is a field the record has not. *)
Class Mmdb := {
  Reader : Type;
  open_readfile : string -> result Reader string;
  lookup_country : Reader -> IpAddr -> option (option string);
  lookup_asn : Reader -> IpAddr -> option (option Z * option string)
}.

Record GeoIpResult := mkGeoIpResult { country : string; geo_asn : Z; asn_org : string }.

Definition geoip_unknown : GeoIpResult := mkGeoIpResult "XX" 0 "".

Section GeoIp.
Context `{Mmdb}.

Record MmdbHandles := mkHandles { h_country : Reader; h_asn : Reader }.
Record GeoIpDb := mkGeoIpDb { geo_inner : option MmdbHandles }.

Inductive GeoIpError := GeoOpen (e : string).

Definition geoip_empty : GeoIpDb := mkGeoIpDb None.

Definition geoip_open (country_path asn_path : string) : result GeoIpDb GeoIpError :=
  let? c := map_err GeoOpen (open_readfile country_path) in
  let? a := map_err GeoOpen (open_readfile asn_path) in
  Ok (mkGeoIpDb (Some (mkHandles c a))).

Definition geoip_lookup (db : GeoIpDb) (ip : IpAddr) : GeoIpResult :=
  match geo_inner db with
  | None => geoip_unknown
  | Some h =>
      let c := default "XX" (lookup_country (h_country h) ip ≫= id) in
      let '(n, org) :=
        match lookup_asn (h_asn h) ip with
        | Some (n, org) => (default 0 n, default "" org)
        | None => (0, "")
        end in
      mkGeoIpResult c n org
  end.
End GeoIp.

(** * The hooks *)

Local Open Scope string_scope.
Local Open Scope Z_scope.

(** ** Addresses: [std::net::IpAddr] by its octets *)

Inductive HostIp := Ip4 (octets : list Z) | Ip6 (octets : list Z).

(** [s.parse::<IpAddr>()] and its display *)
Definition parse_host_ip (s : string) : option HostIp :=
  match parse_ipv4 s with
  | Some o => Some (Ip4 o)
  | None => (fun g => Ip6 (octets_of_groups g)) <$> parse_ipv6 s
  end.

Definition show_host_ip (ip : HostIp) : string :=
  match ip with Ip4 o => show_ipv4 o | Ip6 o => show_ipv6 (groups_of_octets o) end.

(** The same address as the rule engine and the reverse map have it. *)
Definition rule_ip (ip : HostIp) : IpAddr :=
  match ip with Ip4 o => V4 (from_be_bytes o) | Ip6 o => V6 (from_be_bytes o) end.
Definition reverse_key (ip : HostIp) : Z * Z :=
  match ip with Ip4 o => (4, from_be_bytes o) | Ip6 o => (6, from_be_bytes o) end.

(** ** Context (context.rs) *)

Record ExitCandidate := mkCandidate {
  cand_sink_id : string;
  cand_route_groups : list string;
  supports_stream : bool;
  supports_datagram : bool;
  cand_rtt_ms : Z;
  cand_success_rate : F64;
  cand_jitter_ms : Z
}.

(** ** Metadata (ext_meta.rs) *)

Definition set_ext (f : SmallMap -> SmallMap) (ev : Event) : Event :=
  let m := meta ev in
  mkEvent (payload ev)
    (mkTypedMap (net m) (transport m) (policy_route_group m) (auth_user m) (trace_flow_id m) (f (ext m))).

Definition write_ext (ev : Event) (key : string) (val : MetaValue) : Event := set_ext (fun m => ext_set m key val) ev.

Definition set_dst_host (h : string) (ev : Event) : Event :=
  let m := meta ev in
  mkEvent (payload ev)
    (mkTypedMap (mkNetMeta (src_ip (net m)) (Some h) (dst_port (net m)) (net_protocol (net m))) (transport m)
       (policy_route_group m) (auth_user m) (trace_flow_id m) (ext m)).

Definition set_route_group (g : string) (ev : Event) : Event :=
  let m := meta ev in
  mkEvent (payload ev) (mkTypedMap (net m) (transport m) (Some g) (auth_user m) (trace_flow_id m) (ext m)).

Definition set_schedule (h : option ScheduleHintLabel) (k : option Z) (ev : Event) : Event :=
  let m := meta ev in
  mkEvent (payload ev)
    (mkTypedMap (net m) (mkTransportMeta (tm_deadline_ms (transport m)) h k) (policy_route_group m) (auth_user m)
       (trace_flow_id m) (ext m)).

(** [ext.iter().find(|(k, _)| *k == key)] with a [match] on the value's kind *)
Definition ext_string (ev : Event) (key : string) : option string :=
  match ext_get (ext (meta ev)) key with Some (MString s) => Some s | _ => None end.
Definition ext_bytes (ev : Event) (key : string) : option (list Z) :=
  match ext_get (ext (meta ev)) key with Some (MBytes b) => Some b | _ => None end.
Definition ext_u64 (ev : Event) (key : string) : option Z :=
  match ext_get (ext (meta ev)) key with Some (MU64 n) => Some n | _ => None end.

(** [Verdict::Reject(Reason::code(c))] *)
Definition reject (c : string) : Verdict := Reject (mkReason c None).

(** ** Specifications of the hooks (specs.rs) *)

Definition RESOLVE_HOOK : HookSpec :=
  mkHookSpec "net.resolve_or_recover" HkNet ["net.*"; "ext.*"] ["net.dst_host"; "ext.dst_ip_primary"]
    ["ext.dst_ips"; "ext.dst_ip_primary"; "ext.dns_rtt_ms"; "ext.resolution_mode"; "ext.geo_country"; "ext.asn";
     "net.dst_host"] true false [] [] false.

Definition ENRICH_HOOK : HookSpec :=
  mkHookSpec "net.enrich_geo_asn" HkNet ["ext.*"; "net.*"] ["ext.dst_ips"; "net.dst_host"]
    ["ext.geo_country"; "ext.asn"; "ext.geosite_tags"] false false [] [] false.

Definition RULE_HOOK : HookSpec :=
  mkHookSpec "policy.rule_chain" HkPolicy ["policy.*"; "transport.*"; "ext.*"; "net.*"; "auth.*"]
    ["net.dst_host"; "net.dst_port"; "net.src_ip"; "net.protocol"; "auth.user"; "ext.operation"; "ext.dst_ip_primary";
     "ext.geo_country"; "ext.asn"; "ext.geosite_tags"]
    ["policy.route_group"; "transport.schedule_hint"; "transport.schedule_fanout_k"; "ext.cost_bias"]
    true false [] [] false.

Definition pick_sink_hook_spec (accept : list SinkId) : HookSpec :=
  mkHookSpec "transport.pick_sink_cake" HkTransport ["transport.*"; "net.*"; "trace.*"; "policy.*"; "ext.*"]
    ["net.protocol"; "policy.route_group"; "ext.cost_bias"; "ext.dns_rtt_ms"; "trace.flow_id"] [] true false [] accept
    false.

(** ** Packed addresses: a tag (4 or 16) and the octets *)

Definition pack_ip (ip : HostIp) : list Z := match ip with Ip4 o => 4 :: o | Ip6 o => 16 :: o end.

Definition decode_first_ip (buf : list Z) : option HostIp :=
  match buf with
  | [] => None
  | tag :: rest =>
      if (tag =? 4) && (5 <=? length buf)%nat then Some (Ip4 (take 4 rest))
      else if (tag =? 16) && (17 <=? length buf)%nat then Some (Ip6 (take 16 rest))
      else None
  end.

(** The address of a record, if it has one. *)
Definition record_ip (r : AnswerRecord) : option HostIp :=
  match r with AnsA o => Some (Ip4 o) | AnsAaaa o => Some (Ip6 o) | _ => None end.

(** The loop over [ans.records]: the packed addresses and the first one. *)
Definition pack_records (rs : list AnswerRecord) : list Z * option HostIp :=
  let ips := omap record_ip rs in (ips ≫= pack_ip, ips !! 0%nat).

(** ** Cost bias: sign bit and magnitude *)

(** [x as i32] *)
Definition as_i32 (z : Z) : Z := (z + 2 ^ 31) mod 2 ^ 32 - 2 ^ 31.

Definition encode_bias (v : Z) : Z :=
  let clamped := Z.max (-9000) (Z.min v 9000) in
  if 0 <=? clamped then clamped else Z.lor (Z.shiftl 1 63) (- clamped).

Definition decode_bias (raw : Z) : Z :=
  let sign := Z.land (Z.shiftr raw 63) 1 in
  let mag := Z.land raw (Z.shiftl 1 63 - 1) in
  if sign =? 0 then as_i32 mag else as_i32 (- mag).

Definition bias_multiplier (bias_milli : Z) : F32 :=
  f_clamp (f32_add (f32_of_z 1) (f32_div (f32_of_z bias_milli) (f32_of_z 1000))) (f32_lit 1 10) (f32_of_z 10).

Definition base_rtt (dns_rtt : Z) (c : ExitCandidate) : Z :=
  if (cand_rtt_ms c =? 0) && (0 <? dns_rtt) then dns_rtt else cand_rtt_ms c.

Definition effective_rtt (multiplier : F32) (base : Z) : Z :=
  if SFltb (f32_of_z 0) multiplier
  then f64_to_u64 (f64_round (f64_div (f64_of_z base) (f64_of_f32 multiplier)))
  else base.

Definition read_cost_bias (ev : Event) : Z := decode_bias (default 0 (ext_u64 ev "cost_bias")).
Definition read_dns_rtt (ev : Event) : Z := default 0 (ext_u64 ev "dns_rtt_ms").

Definition ensure_trailing_dot (s : string) : string := if ends_with "." s then s else s +:+ ".".

(** ** Texts of the resolver's errors (mesh-bus-resolver/src/types.rs) *)

(** [format!("{:#x}", b)] of a byte *)
Definition hex_byte (b : Z) : string := "0x" +:+ hex_show (if b <? 16 then 1 else 2) b.

Definition decode_error_text (e : DecodeError) : string :=
  match e with
  | Truncated pos => "truncated DNS message at offset " +:+ dec_show (Z.of_nat pos)
  | CompressionLoop => "compression pointer loop or budget exceeded"
  | InvalidLabel b => "invalid label length byte " +:+ hex_byte b
  | Oversize s => "message oversize: " +:+ s
  | InvalidRData q => "invalid rdata for type " +:+ dec_show q
  | NotUtf8 => "not utf-8 in TXT rdata"
  end.

(** [n] decimal digits of [z], without trailing zeros. *)
Fixpoint fraction_digits (n : nat) (z : Z) : string :=
  match n with
  | O => ""
  | S n => if z =? 0 then "" else String (digit (z / 10 ^ Z.of_nat n)) (fraction_digits n (z mod 10 ^ Z.of_nat n))
  end.

Definition fixed_point (whole : Z) (n : nat) (frac : Z) (unit : string) : string :=
  dec_show whole +:+ (if frac =? 0 then "" else "." +:+ fraction_digits n frac) +:+ unit.

(** [format!("{:?}", d)] of a [Duration] in nanoseconds *)
Definition duration_text (d : Z) : string :=
  if 10 ^ 9 <=? d then fixed_point (d / 10 ^ 9) 9 (d mod 10 ^ 9) "s"
  else if 10 ^ 6 <=? d then fixed_point (d / 10 ^ 6) 6 (d mod 10 ^ 6) "ms"
  else if 10 ^ 3 <=? d then fixed_point (d / 10 ^ 3) 3 (d mod 10 ^ 3) (string_of_bytes [0xc2; 0xb5; 0x73])
  else dec_show d +:+ "ns".

Definition resolve_error_text (e : ResolveError) : string :=
  match e with
  | Denied => "denied by rule"
  | NxDomain => "nxdomain"
  | Timeout after => "timeout after " +:+ duration_text after
  | Io msg => "upstream io: " +:+ msg
  | Decode e => "decode: " +:+ decode_error_text e
  | PoolNotFound id => "pool not found: " +:+ id
  | NoDatagramPort => "no datagram-capable bus port"
  | NoStreamPort => "no stream-capable bus port"
  end.

Example error_texts :
  resolve_error_text (Timeout (3 * 10 ^ 9)) = "timeout after 3s"
  /\ resolve_error_text (Timeout (1500 * 10 ^ 6)) = "timeout after 1.5s"
  /\ resolve_error_text (Timeout 2050000) = "timeout after 2.05ms"
  /\ resolve_error_text (Decode (InvalidLabel 0x80)) = "decode: invalid label length byte 0x80".
Proof. vm_compute. repeat split. Qed.

Section Hooks.
Context `{RuleLibs} `{Mmdb}.

Record SharedHookCtx := mkShared {
  sh_resolver : ResolveRequest -> resolved;
  sh_reverse : HostIp -> option ReverseEntry;
  sh_geoip : GeoIpDb;
  sh_geosite : GeositeDb;
  sh_rule_chain : RuleChain;
  sh_rule_sets : RuleSetRegistry;
  sh_candidates : list ExitCandidate
}.

(** [current()]: what [install_scoped] left in the thread, if anything *)
Variable current : option SharedHookCtx.

(** ** net.resolve_or_recover (resolve.rs) *)

Definition resolution_mode (s : ResolverSource) : string :=
  match s with SrcSystem => "m3" | SrcMeshDirect _ => "m2" | SrcTunneled _ => "m1" end.

Definition resolve_failure (e : ResolveError) : Verdict :=
  match e with
  | NxDomain => reject "nxdomain"
  | Denied => reject "denied"
  | _ => Reject (mkReason "resolve_failure" (Some (resolve_error_text e)))
  end.

(** The forward path, from a host name. *)
Definition resolve_forward (shared : SharedHookCtx) (host : string) (ev : Event) : Verdict * Event :=
  if str_is_empty host then (reject "invalid_dst_host", ev)
  else
    match sh_resolver shared (mkResolveRequest (ensure_trailing_dot host) QtA "forward_pipeline") with
    | Err (e, _) => (resolve_failure e, ev)
    | Ok (ans, sig) =>
        let '(buf, first_ip) := pack_records (records ans) in
        match first_ip with
        | None => (reject "nxdomain", ev)
        | Some ip =>
            let ev := write_ext ev "dst_ips" (MBytes buf) in
            let ev := write_ext ev "dst_ip_primary" (MString (show_host_ip ip)) in
            let ev := write_ext ev "dns_rtt_ms" (MU64 (resolver_rtt_ms sig)) in
            let ev := write_ext ev "resolution_mode" (MString (resolution_mode (source ans))) in
            (Continue, ev)
        end
    end.

(** The recovery path, from an address. *)
Definition resolve_recover (shared : SharedHookCtx) (ip_str : string) (ev : Event) : Verdict * Event :=
  match parse_host_ip ip_str with
  | None => (reject "dst_ip_primary_unparseable", ev)
  | Some ip =>
      let ev :=
        match sh_reverse shared ip with
        | Some entry =>
            let ev := set_dst_host (rev_qname entry) ev in
            let ev := match rev_geo entry with Some geo => write_ext ev "geo_country" (MString geo) | None => ev end in
            let ev := match rev_asn entry with Some n => write_ext ev "asn" (MU64 n) | None => ev end in
            write_ext ev "resolution_mode" (MString "reverse_map")
        | None => write_ext ev "resolution_mode" (MString "passthrough_ip")
        end in
      (Continue, write_ext ev "dst_ips" (MBytes (pack_ip ip)))
  end.

Definition resolve_or_recover : HookFn := fun ev ctx =>
  let '(v, ev) :=
    match current with
    | None => (reject "hook_ctx_missing", ev)
    | Some shared =>
        match dst_host (net (meta ev)) with
        | Some host => resolve_forward shared host ev
        | None =>
            match ext_string ev "dst_ip_primary" with
            | Some ip_str => resolve_recover shared ip_str ev
            | None => (reject "no_target", ev)
            end
        end
    end in
  (v, ev, ctx).

(** ** net.enrich_geo_asn (geo.rs) *)

Definition enrich (shared : SharedHookCtx) (ev : Event) : Verdict * Event :=
  match ext_bytes ev "dst_ips" with
  | None => (Continue, ev)
  | Some buf =>
      match decode_first_ip buf with
      | None => (reject "invalid_dst_ips", ev)
      | Some first_ip =>
          let result := geoip_lookup (sh_geoip shared) (rule_ip first_ip) in
          let tags :=
            match dst_host (net (meta ev)) with
            | Some host => geosite_lookup_packed (sh_geosite shared) host
            | None => []
            end in
          let ev := write_ext ev "geo_country" (MString (country result)) in
          let ev := write_ext ev "asn" (MU64 (geo_asn result)) in
          let ev := write_ext ev "geosite_tags" (MBytes tags) in
          (Continue, ev)
      end
  end.

Definition enrich_geo_asn : HookFn := fun ev ctx =>
  let '(v, ev) := match current with None => (Continue, ev) | Some shared => enrich shared ev end in (v, ev, ctx).

(** ** policy.rule_chain (rule.rs) *)

(** [b.split(|x| *x == 0)] *)
Fixpoint split_nul (b : list Z) : list (list Z) :=
  match b with
  | [] => [[]]
  | x :: b =>
      if x =? 0 then [] :: split_nul b
      else match split_nul b with [] => [[x]] | h :: t => (x :: h) :: t end
  end.

Definition unpack_tags (b : list Z) : list string :=
  omap from_utf8 (List.filter (fun s => negb (bool_decide (s = []))) (split_nul b)).

(** [c] with the fields the loop fills in. *)
Definition with_ext (c : RuleCtx) (ip : option IpAddr) (op geo : option string) (n : option Z) (tags : list string) : RuleCtx :=
  mkRuleCtx (Rules.src_ip c) ip (Rules.dst_port c) (network c) (rule_flow_id c) (session_shape c) op
    (rule_schedule_hint c) (rule_traffic_class c) (transform_kind c) (fragment_group c) (hostname c) (socks5_command c)
    (consumer c) (dns_qtype c) (authenticated_user c) geo n tags.

(** One entry of [ext]. *)
Definition read_entry (c : RuleCtx) (k : string) (v : MetaValue) : result RuleCtx Reason :=
  let ip := dst_ip c in let op := operation c in let geo := dst_geo c in let n := asn c in
  let tags := geosite_tags c in
  match v with
  | MString s =>
      if bool_decide (k = "dst_ip_primary") then
        match parse_host_ip s with
        | Some a => Ok (with_ext c (Some (rule_ip a)) op geo n tags)
        | None => Err (mkReason "invalid_dst_ip_primary" None)
        end
      else if bool_decide (k = "operation") then Ok (with_ext c ip (Some s) geo n tags)
      else if bool_decide (k = "geo_country") then Ok (with_ext c ip op (Some s) n tags)
      else Ok c
  | MU64 z => if bool_decide (k = "asn") then Ok (with_ext c ip op geo (Some (Numbers.as_u32 z)) tags) else Ok c
  | MBytes b => if bool_decide (k = "geosite_tags") then Ok (with_ext c ip op geo n (unpack_tags b)) else Ok c
  | MBool _ => Ok c
  end.

Fixpoint read_entries (c : RuleCtx) (m : SmallMap) : result RuleCtx Reason :=
  match m with
  | [] => Ok c
  | (k, v) :: m => let? c := read_entry c k v in read_entries c m
  end.

(** [build_rule_ctx] of the hook *)
Definition event_rule_ctx (ev : Event) : result RuleCtx Reason :=
  let n := net (meta ev) in
  let? ip := match src_ip n with
             | Some s => match parse_host_ip s with
                         | Some a => Ok (Some (rule_ip a))
                         | None => Err (mkReason "invalid_src_ip" None)
                         end
             | None => Ok None
             end in
  let? family := match net_protocol n with
                 | Some "tcp" => Ok Tcp
                 | Some "udp" => Ok Udp
                 | Some _ => Err (mkReason "invalid_transport_family" None)
                 | None => Err (mkReason "missing_transport_family" None)
                 end in
  read_entries
    (mkRuleCtx ip None (dst_port n) (Some family) None None None None None None None (dst_host n) None None None
       (auth_user (meta ev)) None None []) (ext (meta ev)).

Fixpoint apply_action (a : Action) (ev : Event) : Verdict * Event :=
  match a with
  | Allow => (Continue, ev)
  | Deny => (reject "denied_by_rule", ev)
  | SetRouteGroup g => (Continue, set_route_group g ev)
  | SetCostBias b => (Continue, write_ext ev "cost_bias" (MU64 (encode_bias b)))
  | SetScheduleHint HAuto => (Continue, set_schedule None None ev)
  | SetScheduleHint (HFanOut k) => (Continue, set_schedule (Some LFanOut) (Some k) ev)
  | SetTransform _ _ | SetResolverPool _ => (reject "unsupported_forward_rule_action", ev)
  | Compose items =>
      (fix each (xs : list Action) (ev : Event) : Verdict * Event :=
         match xs with
         | [] => (Continue, ev)
         | x :: xs => match apply_action x ev with (Continue, ev) => each xs ev | other => other end
         end) items ev
  end.

Definition rule_chain_hook : HookFn := fun ev ctx =>
  let '(v, ev) :=
    match current with
    | None => (reject "hook_ctx_missing", ev)
    | Some shared =>
        match event_rule_ctx ev with
        | Err reason => (Reject reason, ev)
        | Ok rctx =>
            apply_action (decision_action (evaluate_with_trace (sh_rule_chain shared) rctx (sh_rule_sets shared))) ev
        end
    end in
  (v, ev, ctx).

(** ** transport.pick_sink_cake (pick_sink.rs) *)

(** [FxHasher::write] of the ranking *)
Variable fx_write : Z -> list Z -> Z.

Definition serves_family (family : string) (c : ExitCandidate) : bool :=
  if bool_decide (family = "tcp") then supports_stream c
  else if bool_decide (family = "udp") then supports_datagram c else false.

Definition serves_group (g : option string) (c : ExitCandidate) : bool :=
  match g with None => true | Some g => str_mem g (cand_route_groups c) end.

Definition usable (family : string) (g : option string) (cands : list ExitCandidate) : list ExitCandidate :=
  List.filter (serves_group g) (List.filter (serves_family family) cands).

Definition exit_metric (multiplier : F32) (dns_rtt : Z) (c : ExitCandidate) : ExitMetric :=
  mkMetric (cand_sink_id c) (effective_rtt multiplier (base_rtt dns_rtt c)) (cand_jitter_ms c) (cand_success_rate c) 1
    None None.

Definition pick (shared : SharedHookCtx) (ev : Event) : Verdict :=
  match net_protocol (net (meta ev)) with
  | None => reject "missing_transport_family"
  | Some family =>
      if str_mem family ["tcp"; "udp"] then
        match usable family (policy_route_group (meta ev)) (sh_candidates shared) with
        | [] => reject "no_usable_exit"
        | filtered =>
            let metrics := exit_metric (bias_multiplier (read_cost_bias ev)) (read_dns_rtt ev) <$> filtered in
            let flow := default "flow:anon" (trace_flow_id (meta ev)) in
            match rank fx_write metrics flow 0 with
            | top :: _ => Accept top
            | [] => reject "no_usable_exit"
            end
        end
      else reject "invalid_transport_family"
  end.

Definition pick_sink_cake : HookFn := fun ev ctx =>
  (match current with None => reject "hook_ctx_missing" | Some shared => pick shared ev end, ev, ctx).
End Hooks.
