(* ===== verification/Forward.v ===== *)
(** The forward pipeline as a whole: its runtime
    (crates/mesh-bus-pipeline-hooks/src/runtime.rs) and its assembly from the
    configuration (crates/mesh-bus-runtime/src/pipeline.rs).

    Hook functions read a thread-local context: a registry is a function of it.  The
    resolver keeps state of its own: the assembled runtime is a function of that state,
    and answers of its handles are those of the state.  Files are read through a class
    of parameters; [None] is a panic. *)
From S2P Require Import Prelude Numbers Floats Schedulers StateM Endpoint Rules RuleYaml Geosite MeshWire.
From S2P Require Import MeshSec LoadBalance Config ConfigValidate Resolver ResolverRun KernelRegistry Pipeline Hooks.
Local Open Scope string_scope.

Definition is_absolute (p : string) : bool := starts_with "/" p.

(** [base.join(p)]: an absolute [p] replaces the base, and a separator goes between
    them when the base does not end with one. *)
Definition path_join (base p : string) : string :=
  if is_absolute p then p
  else if str_is_empty base || ends_with "/" base then base +:+ p
  else base +:+ "/" +:+ p.

Fixpoint join_slash (l : list string) : string :=
  match l with [] => "" | [x] => x | x :: l => x +:+ "/" +:+ join_slash l end.

(** Empty and [.] components at the end do not count, a leading [.] does; the last
    component is in front here. *)
Fixpoint trim_right (rooted : bool) (rev_body : list string) : list string :=
  match rev_body with
  | [] => []
  | x :: rest =>
      if str_is_empty x then trim_right rooted rest
      else if bool_decide (x = ".") then
        match rest with [] => if rooted then [] else [x] | _ => trim_right rooted rest end
      else rev_body
  end.

(** [p.parent()] *)
Definition path_parent (p : string) : option string :=
  let rooted := is_absolute p in
  let pieces := split_on "/"%char p in
  let body := if rooted then tail pieces else pieces in
  match trim_right rooted (rev body) with
  | [] => None
  | _ :: init => Some ((if rooted then "/" else "") +:+ join_slash (rev (trim_right rooted init)))
  end.

Example path_examples :
  path_join "/etc/mb" "rules.yaml" = "/etc/mb/rules.yaml" /\ path_join "" "r.yaml" = "r.yaml"
  /\ path_join "a/" "b" = "a/b" /\ path_join "a" "/b" = "/b"
  /\ path_parent "/etc/mb/r.yaml" = Some "/etc/mb" /\ path_parent "r.yaml" = Some "" /\ path_parent "/" = None
  /\ path_parent "/r" = Some "/" /\ path_parent "" = None /\ path_parent "a//b/" = Some "a"
  /\ path_parent "a/./b" = Some "a" /\ path_parent "./b" = Some "." /\ path_parent "." = Some "".
Proof. vm_compute. repeat split. Qed.

(** * The runtime and its assembly *)

Local Open Scope string_scope.
Local Open Scope Z_scope.

(** What is read from disk: texts, and serde_yaml's value of a text. *)
Class Files := {
  fs_read : string -> FileRead;
  yaml_from_str : string -> result Yaml string
}.

(** The text or the text of the error of [read_to_string]. *)
Definition read_text (r : FileRead) : result string string :=
  match r with
  | FileText body => Ok body
  | FileMissing => Err "No such file or directory (os error 2)"
  | FileError e => Err e
  end.

(** ** The runtime (runtime.rs) *)

Section Runtime.
Context `{RuleLibs} `{Mmdb}.

(** A registry whose functions read the thread-local context. *)
Abbreviation HookRegistry := (option SharedHookCtx -> KernelRegistry) (only parsing).

Record PipelineRuntime := mkRuntime {
  rt_shared : SharedHookCtx;
  rt_registry : HookRegistry;
  rt_source : SourceId
}.

Inductive PipelineRuntimeError :=
| KernelRegistryVerify (e : VerifyError)
| RtMissingSourceWiring (source_id : string)
| PipelineRunFailed (e : PipelineRunError).

Definition has_wiring (reg : KernelRegistry) (src : SourceId) : bool :=
  existsb (fun w => bool_decide (w_source w = src)) (wirings reg).

(** [PipelineRuntime::new]; the functions' bodies play no part in the compilation. *)
Definition runtime_new (shared : SharedHookCtx) (reg : HookRegistry) (src : SourceId) :
    option (result PipelineRuntime PipelineRuntimeError) :=
  compiled ← from_registry (reg None);
  Some (do? map_err KernelRegistryVerify compiled;
        do? ensure (has_wiring (reg None) src) (RtMissingSourceWiring src);
        Ok (mkRuntime shared reg src)).

Record PipelineRun := mkPipelineRun { run_verdict : Verdict; run_event : Event; run_trace : list HookTrace }.

(** The context is installed for the run and cleared after it. *)
Definition run_pipeline_event (rt : PipelineRuntime) (ev : Event) :
    option (result PipelineRun PipelineRuntimeError) :=
  let reg := rt_registry rt (Some (rt_shared rt)) in
  match List.find (fun w => bool_decide (w_source w = rt_source rt)) (wirings reg) with
  | None => Some (Err (RtMissingSourceWiring (rt_source rt)))
  | Some w =>
      compiled ← from_registry reg;
      match compiled with
      | Err e => Some (Err (KernelRegistryVerify e))
      | Ok ck =>
          r ← compiled_run_pipeline ck (w_pipeline w) ev (mkKernelCtx []);
          Some (match r with
                | (Ok v, ev, kctx) => Ok (mkPipelineRun v ev (hook_trace kctx))
                | (Err e, _, _) => Err (PipelineRunFailed e)
                end)
      end
  end.
End Runtime.

(** ** The assembly (pipeline.rs) *)

Definition PIPELINE_ID : string := "forward".

Definition resolve_relative (base_dir p : string) : string := if is_absolute p then p else path_join base_dir p.

Inductive AssemblyError :=
| PipelineBlockMissing
| ChainPathMissing
| ReadChain (label path e : string)
| ParseChain (label path : string) (e : ParseError)
| ValidateChain (label path : string) (e : ValidateError)
| LoadRuleSets (path : string) (e : ParseError)
| UnsupportedForwardAction
| GeoIpPathsMissing
| OpenGeoIp (country asn : string) (e : GeoIpError)
| GeositePathMissing
| OpenGeosite (path : string) (e : GeositeError)
| ResolverBuild (e : ConfigError)
| SourceIndexOutOfRange (idx : nat)
| SourceIndexKind (idx : nat) (kind : string)
| NoSourceIngress (kind : string)
| AmbiguousSourceIngress (kind : string)
| ReservedInitialWrite (key head : string)
| RegistryVerify (e : VerifyError)
| RuntimeError (e : PipelineRuntimeError).

Section Assembly.
Context `{RuleParsers} `{Mmdb} `{Files}.

Definition rebase_source (chain_dir : string) (rs : Ruleset) : Ruleset :=
  match rs_source rs with
  | LocalFile path =>
      if is_absolute path then rs
      else mkRuleset (rs_name rs) (rs_format rs) (rs_field rs) (LocalFile (path_join chain_dir path))
  | Inline _ => rs
  end.

Definition load_chain_from_path (label path base_dir : string) :
    option (result (RuleChain * RuleSetRegistry) AssemblyError) :=
  let chain_path := resolve_relative base_dir path in
  match read_text (fs_read chain_path) with
  | Err e => Some (Err (ReadChain label chain_path e))
  | Ok body =>
      parsed ← parse_chain_and_rulesets_yaml (yaml_from_str body);
      Some (let? (chain, rulesets) := map_err (ParseChain label chain_path) parsed in
            do? map_err (ValidateChain label chain_path) (validate chain rulesets);
            let rulesets := match path_parent chain_path with
                            | Some dir => rebase_source dir <$> rulesets
                            | None => rulesets
                            end in
            let? reg := map_err (LoadRuleSets chain_path) (registry_load (fun p => read_text (fs_read p)) rulesets) in
            Ok (chain, reg))
  end.

Fixpoint validate_forward_action (a : Action) : result unit AssemblyError :=
  match a with
  | Allow | Deny | SetRouteGroup _ | SetScheduleHint _ | SetCostBias _ => Ok tt
  | Compose actions => try_each validate_forward_action actions
  | SetResolverPool _ | SetTransform _ _ => Err UnsupportedForwardAction
  end.

Definition validate_forward_actions (chain : RuleChain) : result unit AssemblyError :=
  do? try_each (fun r => validate_forward_action (rule_action r)) (rules chain);
  validate_forward_action (chain_default chain).

Definition load_forward_chain (p : PipelineCfg) (base_dir : string) :
    option (result (RuleChain * RuleSetRegistry) AssemblyError) :=
  match forward_rule_chain_path p with
  | None => Some (Err ChainPathMissing)
  | Some path =>
      r ← load_chain_from_path "rule_chain_forward" path base_dir;
      Some (let? (chain, sets) := r in do? validate_forward_actions chain; Ok (chain, sets))
  end.

Definition load_resolver_chain (p : PipelineCfg) (base_dir : string) :
    option (result (option (RuleChain * RuleSetRegistry)) AssemblyError) :=
  match rule_chain_resolver p with
  | None => Some (Ok None)
  | Some path => r ← load_chain_from_path "rule_chain_resolver" path base_dir; Some (map_ok Some r)
  end.

Definition load_geoip (p : PipelineCfg) (base_dir : string) : result GeoIpDb AssemblyError :=
  match geoip_cfg p with
  | None => Ok geoip_empty
  | Some geo =>
      match country_path geo, asn_path geo with
      | Some c, Some a =>
          let c := resolve_relative base_dir c in
          let a := resolve_relative base_dir a in
          map_err (OpenGeoIp c a) (geoip_open c a)
      | _, _ => Err GeoIpPathsMissing
      end
  end.

Definition load_geosite (p : PipelineCfg) (base_dir : string) : result GeositeDb AssemblyError :=
  match geosite_cfg p with
  | None => Ok geosite_empty
  | Some g =>
      match geosite_path g with
      | None => Err GeositePathMissing
      | Some path =>
          let path := resolve_relative base_dir path in
          map_err (OpenGeosite path) (geosite_open path (fs_read path))
      end
  end.

Definition build_dns_cache (p : PipelineCfg) : DnsCache :=
  match dns_cache_cfg p with
  | None => cache_new
  | Some c =>
      match serve_stale_window_ms c with None => cache_new | Some ms => with_stale_window (ms * 10 ^ 6) end
  end.

Definition default_builder (cache : DnsCache) (chain : option (RuleChain * RuleSetRegistry)) : ResolverBuilder :=
  let b := with_cache (with_default_pool (with_pool builder_new (mkPool "default" SystemMode [] None)) "default") cache in
  match chain with Some (chain, sets) => with_rule_chain b chain sets | None => b end.

Definition build_default_resolver {W} (cache : DnsCache) (chain : option (RuleChain * RuleSetRegistry)) (w : W) :
    result (Resolver * RState) AssemblyError :=
  map_err ResolverBuild (builder_build (default_builder cache chain) w).

Definition candidates_from_egresses (cfg : Config) : list ExitCandidate :=
  (fun e => let '(st, dg) := pipeline_capability_bits e in
            mkCandidate (egress_id e) (egress_groups e) st dg 0 (f64_of_z 1) 0) <$> cfg_egresses cfg.

(** ** The source of events *)

Definition indices_of (kind : string) (l : list IngressCfg) : list nat :=
  fst <$> List.filter (fun ii => declares kind ii.2) (zip (List.seq 0 (length l)) l).

Definition resolve_pipeline_source_index (cfg : Config) (p : PipelineCfg) : result nat AssemblyError :=
  let kind := source_cfg_kind (source_cfg p) in
  match ingress_index (source_cfg p) with
  | Some idx =>
      match cfg_ingresses cfg !! idx with
      | None => Err (SourceIndexOutOfRange idx)
      | Some i => do? ensure (declares kind i) (SourceIndexKind idx kind); Ok idx
      end
  | None =>
      match indices_of kind (cfg_ingresses cfg) with
      | [idx] => Ok idx
      | [] => Err (NoSourceIngress kind)
      | _ => Err (AmbiguousSourceIngress kind)
      end
  end.

Definition selected_pipeline_source_index (cfg : Config) : result (option nat) AssemblyError :=
  match cfg_pipeline cfg with
  | None => Ok None
  | Some p => map_ok Some (resolve_pipeline_source_index cfg p)
  end.

Definition check_initial_write (key : string) : result unit AssemblyError :=
  ensure (negb (str_mem (head key) ["policy"; "transport"])) (ReservedInitialWrite key (head key)).

Definition pipeline_source_from_config (cfg : Config) (p : PipelineCfg) : result (SourceId * SourceSpec) AssemblyError :=
  let? idx := resolve_pipeline_source_index cfg p in
  do? try_each check_initial_write (source_initial_writes (source_cfg p));
  let id := default ("ingress:" +:+ dec_show (Z.of_nat idx)) (source_cfg_id (source_cfg p)) in
  Ok (id, mkSourceSpec id (source_cfg_kind (source_cfg p)) (source_initial_writes (source_cfg p))).

(** ** The registry *)

(** [BTreeMap::insert] *)
Fixpoint bt_insert {V} (m : btree V) (k : string) (v : V) : btree V :=
  match m with
  | [] => [(k, v)]
  | (k', v') :: m' =>
      match String.compare k k' with
      | Eq => (k, v) :: m'
      | Lt => (k, v) :: m
      | Gt => (k', v') :: bt_insert m' k v
      end
  end.

Definition bt_inserts {V} (l : list (string * V)) : btree V := foldl (fun m kv => bt_insert m kv.1 kv.2) [] l.

Definition sink_specs (es : list EgressCfg) : list (string * SinkSpec) :=
  (fun e => (egress_id e, mkSinkSpec (egress_id e) (pipeline_sink_kind e))) <$> es.

Definition forward_hooks (es : list EgressCfg) : list (string * HookSpec) :=
  [("net.resolve_or_recover", RESOLVE_HOOK); ("net.enrich_geo_asn", ENRICH_HOOK); ("policy.rule_chain", RULE_HOOK);
   ("transport.pick_sink_cake", pick_sink_hook_spec (egress_id <$> es))].

(** [FxHasher::write], a parameter of the ranking *)
Variable fx_write : Z -> list Z -> Z.

Definition forward_fns (current : option SharedHookCtx) : list (string * HookFn) :=
  [("net.resolve_or_recover", resolve_or_recover current); ("net.enrich_geo_asn", enrich_geo_asn current);
   ("policy.rule_chain", rule_chain_hook current); ("transport.pick_sink_cake", pick_sink_cake current fx_write)].

Definition forward_pipeline : Pipeline :=
  mkPipeline PIPELINE_ID
    ["net.resolve_or_recover"; "net.enrich_geo_asn"; "policy.rule_chain"; "transport.pick_sink_cake"].

Definition forward_registry (src : SourceId) (spec : SourceSpec) (es : list EgressCfg) (current : option SharedHookCtx) :
    KernelRegistry :=
  mkKernelRegistry [(src, spec)] (bt_inserts (sink_specs es)) (bt_inserts (forward_hooks es))
    [(PIPELINE_ID, forward_pipeline)] [mkWiring src PIPELINE_ID] (bt_inserts (forward_fns current)).

(** ** The whole *)

Section Whole.
Context {W : Type} `{!ResolverNet W}.

(** The answers of the resolver's handle and of the reverse map in a state.  The code has
    no case for a resolver that panics; the one here is never taken, since every query is
    answered ([ResolverFacts.every_query_is_logged_once]). *)
Definition handle_of (r : Resolver) (s : RState) (req : ResolveRequest) : resolved :=
  match resolve r req s with
  | Some (res, _) => res
  | None => Err (Io "resolver panicked", fresh_signals (qname req) "")
  end.

Definition reverse_of (s : RState) (ip : HostIp) : option ReverseEntry :=
  match rs_cache s with
  | Some c => let '(t, _) := clock (world s) in (lookup_reverse c t (reverse_key ip)).1
  | None => None
  end.

(** The resolver, its first state, and the runtime as it is in a state. *)
Definition build_pipeline_runtime (cfg : Config) (base_dir : string) (w : W) :
    option (result (Resolver * RState * (RState -> PipelineRuntime)) AssemblyError) :=
  match cfg_pipeline cfg with
  | None => Some (Err PipelineBlockMissing)
  | Some p =>
      forward ← load_forward_chain p base_dir;
      match forward with
      | Err e => Some (Err e)
      | Ok (chain, sets) =>
          match load_geoip p base_dir, load_geosite p base_dir with
          | Err e, _ => Some (Err e)
          | Ok _, Err e => Some (Err e)
          | Ok geoip, Ok geosite =>
              let cache := build_dns_cache p in
              rchain ← load_resolver_chain p base_dir;
              match rchain with
              | Err e => Some (Err e)
              | Ok rchain =>
                  match build_default_resolver cache rchain w, pipeline_source_from_config cfg p with
                  | Err e, _ => Some (Err e)
                  | Ok _, Err e => Some (Err e)
                  | Ok (r, s0), Ok (src, spec) =>
                      let reg := forward_registry src spec (cfg_egresses cfg) in
                      match verify (reg None) with
                      | Err e => Some (Err (RegistryVerify e))
                      | Ok _ =>
                          let shared s := mkShared (handle_of r s) (reverse_of s) geoip geosite chain sets
                                            (candidates_from_egresses cfg) in
                          rt ← runtime_new (shared s0) reg src;
                          Some (do? map_err RuntimeError rt; Ok (r, s0, fun s => mkRuntime (shared s) reg src))
                      end
                  end
              end
          end
      end
  end.
End Whole.
End Assembly.
