(* ===== verification/ForwardRun.v ===== *)
(** A run of the assembled pipeline: the four hooks in order, each verdict declared, no
    panic; what an action of the forward chain does; and what the rule chain sees. *)
From stdpp Require Import relations.
From S2P Require Import Prelude Numbers NetAddr Floats Schedulers Rules RulesFacts RuleYaml RuleYamlFacts Geosite.
From S2P Require Import Resolver ResolverRun Config ConfigValidate KernelRegistry RegistrySpec Pipeline.
From S2P Require Import ConfigFacts Hooks Forward.
Local Open Scope string_scope.

(** Membership in a list whose front is explicit. *)
Ltac in_list := cbn [app]; repeat first [assumption | left | right].

(** ** Ordered insertion *)

Lemma bt_insert_in {V} (m : btree V) k v k' v' : (k', v') ∈ bt_insert m k v -> (k', v') = (k, v) \/ (k', v') ∈ m.
Proof.
  induction m as [|[k0 v0] m IH]; cbn; [set_solver|]. destruct (String.compare k k0); set_solver.
Qed.

Lemma bt_insert_keys {V} (m : btree V) k v x : x ∈ bt_keys (bt_insert m k v) <-> x = k \/ x ∈ bt_keys m.
Proof.
  unfold bt_keys. induction m as [|[k0 v0] m IH]; cbn; [set_solver|].
  destruct (String.compare k k0) eqn:E; cbn; [|set_solver|set_solver].
  apply String.compare_eq_iff in E as ->. set_solver.
Qed.

Lemma bt_inserts_acc {V} (l : list (string * V)) : forall m,
  (forall k v, (k, v) ∈ foldl (fun m kv => bt_insert m kv.1 kv.2) m l -> (k, v) ∈ m \/ (k, v) ∈ l)
  /\ (forall x, x ∈ bt_keys (foldl (fun m kv => bt_insert m kv.1 kv.2) m l) <-> x ∈ bt_keys m \/ x ∈ l.*1).
Proof.
  induction l as [|[k v] l IH]; intros m; cbn; [set_solver|]. destruct (IH (bt_insert m k v)) as [Hin Hkeys]. split.
  - intros k' v' H%Hin. destruct H as [H|?]; [|set_solver]. apply bt_insert_in in H. set_solver.
  - intros x. rewrite Hkeys, bt_insert_keys. set_solver.
Qed.

Lemma bt_inserts_in {V} (l : list (string * V)) k v : (k, v) ∈ bt_inserts l -> (k, v) ∈ l.
Proof. intros H. apply (bt_inserts_acc l []) in H. set_solver. Qed.

Lemma bt_inserts_keys {V} (l : list (string * V)) x : x ∈ bt_keys (bt_inserts l) <-> x ∈ l.*1.
Proof. rewrite (proj2 (bt_inserts_acc l [])). set_solver. Qed.

(** ** Verification *)

Section Registry.
Context `{RuleParsers} `{Mmdb} (fx_write : Z -> list Z -> Z).
Context (src : SourceId) (spec : SourceSpec) (es : list EgressCfg) (current : option SharedHookCtx).

Abbreviation reg := (forward_registry fx_write src spec es current).

Lemma forward_hooks_sorted :
  hooks reg = [("net.enrich_geo_asn", ENRICH_HOOK); ("net.resolve_or_recover", RESOLVE_HOOK);
               ("policy.rule_chain", RULE_HOOK); ("transport.pick_sink_cake", pick_sink_hook_spec (egress_id <$> es))].
Proof. reflexivity. Qed.

Lemma forward_fns_sorted :
  fns reg = [("net.enrich_geo_asn", enrich_geo_asn current); ("net.resolve_or_recover", resolve_or_recover current);
             ("policy.rule_chain", rule_chain_hook current); ("transport.pick_sink_cake", pick_sink_cake current fx_write)].
Proof. reflexivity. Qed.

Lemma hook_resolve : bt_get (hooks reg) "net.resolve_or_recover" = Some RESOLVE_HOOK.
Proof. reflexivity. Qed.
Lemma hook_enrich : bt_get (hooks reg) "net.enrich_geo_asn" = Some ENRICH_HOOK.
Proof. reflexivity. Qed.
Lemma hook_rule : bt_get (hooks reg) "policy.rule_chain" = Some RULE_HOOK.
Proof. reflexivity. Qed.
Lemma hook_pick : bt_get (hooks reg) "transport.pick_sink_cake" = Some (pick_sink_hook_spec (egress_id <$> es)).
Proof. reflexivity. Qed.

Lemma fn_resolve : bt_get (fns reg) "net.resolve_or_recover" = Some (resolve_or_recover current).
Proof. reflexivity. Qed.
Lemma fn_enrich : bt_get (fns reg) "net.enrich_geo_asn" = Some (enrich_geo_asn current).
Proof. reflexivity. Qed.
Lemma fn_rule : bt_get (fns reg) "policy.rule_chain" = Some (rule_chain_hook current).
Proof. reflexivity. Qed.
Lemma fn_pick : bt_get (fns reg) "transport.pick_sink_cake" = Some (pick_sink_cake current fx_write).
Proof. reflexivity. Qed.

Lemma sink_keys k : k ∈ bt_keys (sinks reg) <-> k ∈ egress_id <$> es.
Proof.
  change (sinks reg) with (bt_inserts (sink_specs es)). rewrite bt_inserts_keys. unfold sink_specs.
  by rewrite <- list_fmap_compose.
Qed.

Lemma sink_spec_of id k : (id, k) ∈ sinks reg -> exists e, e ∈ es /\ id = egress_id e /\ k = mkSinkSpec id (pipeline_sink_kind e).
Proof.
  change (sinks reg) with (bt_inserts (sink_specs es)). intros Hin%bt_inserts_in.
  apply list_elem_of_fmap in Hin as (e & [= -> ->] & He). eauto.
Qed.

(** The keys a run reads before a hook has written them. *)
Definition required_writes : list string :=
  ["net.dst_host"; "ext.dst_ip_primary"; "net.dst_port"; "net.src_ip"; "net.protocol"; "auth.user"; "ext.operation";
   "trace.flow_id"].

Lemma required_is_default k : k ∈ required_writes <-> k ∈ default_pipeline_source_initial_writes.
Proof. unfold required_writes, default_pipeline_source_initial_writes. set_solver. Qed.

Hypothesis Hsrc : shaped src.
Hypothesis Hspec : s_id spec = src /\ s_kind spec = "application/source".
Hypothesis Hwrites : forall k, k ∈ initial_writes spec -> is_valid_metadata_key k = true.
Hypothesis Hes : Forall (fun e => shaped (egress_id e)) es.

Lemma available_eq : initial_available reg PIPELINE_ID = (initial_writes spec ++ [])%list.
Proof.
  unfold initial_available. cbn [wirings forward_registry filter list_filter].
  rewrite decide_True by done. cbn. by rewrite decide_True.
Qed.

(** What one hook may read, by position. *)
Lemma reads_checked :
  Forall (fun k => k ∈ initial_writes spec) required_writes ->
  check_pipeline_namespaces reg PIPELINE_ID (p_hooks forward_pipeline) (initial_available reg PIPELINE_ID) = Ok tt.
Proof.
  intros Hreq. rewrite available_eq, app_nil_r. unfold required_writes in Hreq. rewrite !Forall_cons in Hreq.
  destruct Hreq as (? & ? & ? & ? & ? & ? & ? & ? & _).
  assert (Hm : forall k l, k ∈ l -> str_mem k l = true) by (intros; by apply str_mem_iff).
  cbn [check_pipeline_namespaces p_hooks forward_pipeline]. rewrite hook_resolve, hook_enrich, hook_rule, hook_pick.
  unfold check_hook_namespaces. cbn [h_kind reads writes allowed_namespaces side_effect_only RESOLVE_HOOK ENRICH_HOOK
    RULE_HOOK pick_sink_hook_spec try_each].
  repeat match goal with
  | |- context [ensure (ns_covers ?a ?b) _] =>
      replace (ns_covers a b) with true by reflexivity; cbn [ensure]
  | |- context [ensure (negb ?b) _] => replace (negb b) with true by reflexivity; cbn [ensure]
  | |- context [ensure (str_mem ?k ?l) _] => rewrite (Hm k l) by in_list; cbn [ensure]
  end.
  done.
Qed.

Lemma reads_required :
  check_pipeline_namespaces reg PIPELINE_ID (p_hooks forward_pipeline) (initial_available reg PIPELINE_ID) = Ok tt ->
  Forall (fun k => k ∈ initial_writes spec) required_writes.
Proof.
  rewrite available_eq, app_nil_r. cbn [check_pipeline_namespaces p_hooks forward_pipeline].
  rewrite hook_resolve, hook_enrich, hook_rule, hook_pick. rewrite !seq_ok.
  intros (Hr & _ & Hu & Hp & _). unfold check_hook_namespaces in Hr, Hu, Hp. rewrite !seq_ok in Hr, Hu, Hp.
  destruct Hr as (_ & _ & _ & _ & Hr), Hu as (_ & _ & _ & _ & Hu), Hp as (_ & _ & _ & _ & Hp).
  rewrite try_each_ok, Forall_forall in Hr, Hu, Hp. unfold required_writes.
  assert (Hread : forall l k, ensure (str_mem k l) (UnsatisfiedRead "" "" k) = Ok tt -> k ∈ l).
  { intros l k Hk%ensure_ok. by apply str_mem_iff. }
  assert (Hr' : forall k, k ∈ reads RESOLVE_HOOK -> k ∈ initial_writes spec).
  { intros k Hk%Hr%ensure_ok. by apply str_mem_iff. }
  assert (Hu' : forall k, k ∈ reads RULE_HOOK -> k ∈ (writes ENRICH_HOOK ++ writes RESOLVE_HOOK ++ initial_writes spec)%list).
  { intros k Hk%Hu%ensure_ok. by apply str_mem_iff. }
  assert (Hp' : "trace.flow_id" ∈ (writes RULE_HOOK ++ writes ENRICH_HOOK ++ writes RESOLVE_HOOK ++ initial_writes spec)%list).
  { apply str_mem_iff. eapply ensure_ok, Hp. cbn. in_list. }
  assert (Hskip : forall k l, k ∉ l -> k ∈ (l ++ initial_writes spec)%list -> k ∈ initial_writes spec) by set_solver.
  rewrite app_assoc in Hp', Hu'. rewrite app_assoc in Hp'.
  repeat apply List.Forall_cons; try apply List.Forall_nil.
  1-2: apply Hr'; cbn; in_list.
  6: eapply Hskip; [|exact Hp']; by apply (bool_decide_unpack _).
  all: eapply Hskip; [|apply Hu'; cbn; in_list]; by apply (bool_decide_unpack _).
Qed.

(** Membership in the four hooks. *)
Lemma hook_cases (P : string -> HookSpec -> Prop) :
  P "net.enrich_geo_asn" ENRICH_HOOK -> P "net.resolve_or_recover" RESOLVE_HOOK -> P "policy.rule_chain" RULE_HOOK ->
  P "transport.pick_sink_cake" (pick_sink_hook_spec (egress_id <$> es)) ->
  forall h s, (h, s) ∈ hooks reg -> P h s.
Proof.
  intros He Hr Hu Hp h s. rewrite forward_hooks_sorted.
  intros [[= -> ->]|[[= -> ->]|[[= -> ->]|[[= -> ->]|Hn]%elem_of_cons]%elem_of_cons]%elem_of_cons]%elem_of_cons; try done.
  by apply not_elem_of_nil in Hn.
Qed.

Lemma pipeline_only pid p : (pid, p) ∈ pipelines reg -> pid = PIPELINE_ID /\ p = forward_pipeline.
Proof. change (pipelines reg) with [(PIPELINE_ID, forward_pipeline)]. intros [[= -> ->]|?%not_elem_of_nil]%elem_of_cons; done. Qed.

Lemma source_only id s : (id, s) ∈ sources reg -> id = src /\ s = spec.
Proof. change (sources reg) with [(src, spec)]. intros [[= -> ->]|?%not_elem_of_nil]%elem_of_cons; done. Qed.

Lemma wiring_only w : w ∈ wirings reg -> w = mkWiring src PIPELINE_ID.
Proof. change (wirings reg) with [mkWiring src PIPELINE_ID]. intros [->|?%not_elem_of_nil]%elem_of_cons; done. Qed.

Lemma jump_targets_none p : jump_targets reg forward_pipeline = [] /\ (p = forward_pipeline -> jump_targets reg p = []).
Proof. split; [reflexivity|]. by intros ->. Qed.

Lemma forward_ids_shaped : ids_shaped reg.
Proof.
  split.
  - by repeat constructor.
  - apply Forall_forall. intros k Hk%sink_keys. apply list_elem_of_fmap in Hk as (e & -> & He).
    rewrite Forall_forall in Hes. by apply Hes.
  - rewrite forward_hooks_sorted, forward_fns_sorted. repeat constructor.
  - repeat constructor.
  - repeat constructor. done.
  - repeat constructor.
  - rewrite forward_hooks_sorted. cbn [bt_values fmap list_fmap snd]. repeat apply List.Forall_cons; try apply List.Forall_nil.
    1-3: by repeat split; constructor.
    split_and!; [done|constructor|]. cbn. by apply Forall_fmap.
Qed.

(** Everything [verify] checks, except that reads are satisfied. *)
Lemma forward_structure_checks :
  check_registry_identities reg = Ok tt /\ check_id_shapes reg = Ok tt /\ check_spec_kinds reg = Ok tt
  /\ check_wirings_exist reg = Ok tt /\ check_hooks_exist reg = Ok tt /\ check_accept_declarations reg = Ok tt
  /\ check_sink_targets reg = Ok tt /\ check_jump_declarations reg = Ok tt /\ check_jump_targets reg = Ok tt
  /\ check_jump_dag reg = Ok tt /\ check_pipeline_terminates reg = Ok tt /\ check_metadata_keys reg = Ok tt
  /\ check_namespace_patterns reg = Ok tt /\ check_hook_fns reg = Ok tt.
Proof.
  destruct Hspec as [Hid Hkind].
  assert (Hhooks : forall f : string * HookSpec -> check,
    f ("net.enrich_geo_asn", ENRICH_HOOK) = Ok tt -> f ("net.resolve_or_recover", RESOLVE_HOOK) = Ok tt ->
    f ("policy.rule_chain", RULE_HOOK) = Ok tt ->
    f ("transport.pick_sink_cake", pick_sink_hook_spec (egress_id <$> es)) = Ok tt -> try_each f (hooks reg) = Ok tt).
  { intros f He Hr Hu Hp. rewrite forward_hooks_sorted. cbn [try_each]. by rewrite He, Hr, Hu, Hp. }
  assert (Hwired : bool_decide (src ∈ [src]) = true) by (apply bool_decide_eq_true; set_solver).
  split_and!; try reflexivity.
  - apply check_registry_identities_iff. split_and!.
    + by intros id s [-> ->]%source_only.
    + by intros id k (e & _ & -> & ->)%sink_spec_of.
    + exact (hook_cases (fun h s => h_id s = h) eq_refl eq_refl eq_refl eq_refl).
    + by intros pid p [-> ->]%pipeline_only.
  - apply check_id_shapes_iff, forward_ids_shaped.
  - apply check_spec_kinds_iff. split; [by intros id s [-> ->]%source_only|].
    intros id k (e & _ & -> & ->)%sink_spec_of. destruct e; cbn; in_list.
  - apply check_wirings_exist_iff. split.
    + repeat constructor. set_solver.
    + intros w ->%wiring_only. cbn. set_solver.
    + intros w ->%wiring_only. cbn. set_solver.
    + cbn. set_solver.
  - apply Hhooks; try reflexivity. cbn. apply try_each_ok, Forall_forall. intros k Hk.
    apply ensure_ok, bt_contains_keys. by apply (sink_keys k).
  - unfold check_metadata_keys. apply seq_ok. split.
    + cbn. rewrite (proj2 (try_each_ok _ _)); [done|]. apply Forall_forall. intros k Hk. by apply ensure_ok, Hwrites.
    + by apply Hhooks.
Qed.

Lemma forward_verifies :
  verify reg = Ok tt <-> Forall (fun k => k ∈ initial_writes spec) required_writes.
Proof.
  pose proof forward_structure_checks as Hc. unfold verify. rewrite !seq_ok.
  assert (Hn : check_namespace_rules reg = Ok tt <->
    check_pipeline_namespaces reg PIPELINE_ID (p_hooks forward_pipeline) (initial_available reg PIPELINE_ID) = Ok tt).
  { unfold check_namespace_rules. change (pipelines reg) with [(PIPELINE_ID, forward_pipeline)]. cbn [try_each].
    rewrite seq_ok. tauto. }
  split.
  - intros Hv. apply reads_required, Hn. tauto.
  - intros Hreq%reads_checked. apply Hn in Hreq. tauto.
Qed.
End Registry.

(** * Runs of the registry *)

Local Open Scope string_scope.
Local Open Scope Z_scope.

Lemma from_registry_err reg e : from_registry reg = Some (Err e) -> verify reg = Err e.
Proof.
  unfold from_registry. destruct (verify reg) as [[]|e']; [|by intros [= <-]]. cbn.
  destruct (mapM (compile_hook reg) _); [|done]. cbn. by destruct (mapM _ _).
Qed.

(** ** Verdicts of the hooks *)

Definition rejected_with (codes : list string) (v : Verdict) : Prop :=
  exists r, v = Reject r /\ reason_code r ∈ codes.

Definition resolve_codes : list string :=
  ["invalid_dst_host"; "nxdomain"; "denied"; "resolve_failure"; "dst_ip_primary_unparseable"; "no_target"].
Definition ctx_codes : list string :=
  ["invalid_src_ip"; "invalid_transport_family"; "missing_transport_family"; "invalid_dst_ip_primary"].

Section Steps.
Context `{RuleParsers} `{Mmdb} (fx_write : Z -> list Z -> Z) (shared : SharedHookCtx).

Definition resolve_step (ev : Event) : Verdict * Event := (resolve_or_recover (Some shared) ev (mkKernelCtx [])).1.
Definition enrich_step (ev : Event) : Verdict * Event := enrich shared ev.
Definition rule_step (ev : Event) : Verdict * Event := (rule_chain_hook (Some shared) ev (mkKernelCtx [])).1.

Lemma resolve_hook_step ev k : resolve_or_recover (Some shared) ev k = (resolve_step ev, k).
Proof. unfold resolve_step, resolve_or_recover. by repeat case_match. Qed.

Lemma enrich_hook_step ev k : enrich_geo_asn (Some shared) ev k = (enrich_step ev, k).
Proof. unfold enrich_step, enrich_geo_asn. by destruct (enrich shared ev). Qed.

Lemma rule_hook_step ev k : rule_chain_hook (Some shared) ev k = (rule_step ev, k).
Proof. unfold rule_step, rule_chain_hook. by repeat case_match. Qed.

Lemma rejects_in codes c : c ∈ codes -> rejected_with codes (reject c).
Proof. intros Hc. by exists (mkReason c None). Qed.

Lemma resolve_verdict ev : (resolve_step ev).1 = Continue \/ rejected_with resolve_codes (resolve_step ev).1.
Proof.
  unfold resolve_step, resolve_or_recover, resolve_forward, resolve_recover.
  destruct (dst_host _) as [host|].
  - destruct (str_is_empty host); [right; by apply rejects_in; in_list|].
    destruct (sh_resolver _ _) as [[ans sig]|[e sig]].
    + destruct (pack_records _) as [buf [ip|]]; [by left|right; apply rejects_in; in_list].
    + right. destruct e; cbn; eexists; (split; [reflexivity|cbn; in_list]).
  - destruct (ext_string _ _); [|right; apply rejects_in; in_list].
    destruct (parse_host_ip _); [by left|right; apply rejects_in; in_list].
Qed.

Lemma enrich_verdict ev : (enrich_step ev).1 = Continue \/ rejected_with ["invalid_dst_ips"] (enrich_step ev).1.
Proof.
  unfold enrich_step, enrich. destruct (ext_bytes _ _); [|by left].
  destruct (decode_first_ip _); [by left|right; apply rejects_in; in_list].
Qed.

(** ** Actions *)

Lemma apply_compose_cons x xs ev :
  apply_action (Compose (x :: xs)) ev
  = match apply_action x ev with (Continue, ev') => apply_action (Compose xs) ev' | other => other end.
Proof. reflexivity. Qed.

(** An action that passes the check of the assembly either continues or denies, and it
    denies exactly when one of its leaves does. *)
Lemma forward_action_verdict (a : Action) :
  validate_forward_action a = Ok tt -> forall ev,
  (apply_action a ev).1 = if existsb is_deny (leaves a) then reject "denied_by_rule" else Continue.
Proof.
  induction a as [a Ha|l IH] using action_ind; intros Hv ev.
  { destruct a as [| | | |[]| |l|]; try done. by destruct (Ha l). }
  cbn [validate_forward_action] in Hv. apply try_each_ok in Hv. revert ev.
  induction l as [|x l IHl]; intros ev; [done|]. apply Forall_cons in Hv as [Hx Hl]. apply Forall_cons in IH as [IHx IH].
  rewrite apply_compose_cons. specialize (IHx Hx ev). specialize (IHl IH Hl).
  change (leaves (Compose (x :: l))) with (leaves x ++ leaves (Compose l))%list. rewrite existsb_app.
  destruct (apply_action x ev) as [v ev']. cbn [fst] in IHx. subst v.
  destruct (existsb is_deny (leaves x)); [done|]. cbn [orb]. apply IHl.
Qed.

Lemma chain_action chain rctx sets :
  validate_forward_actions chain = Ok tt ->
  validate_forward_action (decision_action (evaluate_with_trace chain rctx sets)) = Ok tt.
Proof.
  unfold validate_forward_actions, evaluate_with_trace. rewrite seq_ok, try_each_ok. intros [Hr Hd].
  generalize 0%nat. induction (rules chain) as [|r rs IH]; intros k; cbn; [done|].
  apply Forall_cons in Hr as [Hr Hrs]. destruct (eval_match _ _ _); [done|]. by apply IH.
Qed.

Lemma entry_codes c k v e : read_entry c k v = Err e -> reason_code e ∈ ctx_codes.
Proof.
  unfold read_entry. destruct v; repeat case_bool_decide; try done.
  destruct (parse_host_ip s); [done|]. intros [= <-]. cbn. in_list.
Qed.

Lemma ctx_errors ev e : event_rule_ctx ev = Err e -> reason_code e ∈ ctx_codes.
Proof.
  unfold event_rule_ctx.
  assert (He : forall m c, read_entries c m = Err e -> reason_code e ∈ ctx_codes).
  { induction m as [|[k v] m IH]; intros c; cbn; [done|]. destruct (read_entry c k v) eqn:E; [apply IH|].
    intros [= <-]. by eapply entry_codes. }
  set (ip := match src_ip _ with Some _ => _ | None => _ end). set (fam := match net_protocol _ with Some _ => _ | None => _ end).
  assert (Hip : forall e', ip = Err e' -> reason_code e' ∈ ctx_codes).
  { subst ip. intros e'. repeat case_match; intros; simplify_eq; cbn; in_list. }
  assert (Hfam : forall e', fam = Err e' -> reason_code e' ∈ ctx_codes).
  { subst fam. intros e'. destruct (net_protocol _) as [s|]; [|intros [= <-]; cbn; in_list].
    repeat case_match; intros; simplify_eq; cbn; in_list. }
  destruct ip as [?|e']; [|intros [= <-]; by apply Hip]. destruct fam as [?|e']; [|intros [= <-]; by apply Hfam].
  apply He.
Qed.

Lemma rule_verdict ev :
  validate_forward_actions (sh_rule_chain shared) = Ok tt ->
  (rule_step ev).1 = Continue \/ rejected_with ("denied_by_rule" :: ctx_codes) (rule_step ev).1.
Proof.
  intros Hv. unfold rule_step, rule_chain_hook. destruct (event_rule_ctx ev) as [rctx|e] eqn:E.
  - pose proof (forward_action_verdict _ (chain_action _ rctx (sh_rule_sets shared) Hv) ev) as Ha.
    destruct (apply_action _ ev) as [v ev']. cbn in *. subst v. destruct (existsb _ _); [right|by left].
    apply rejects_in. in_list.
  - right. exists e. split; [done|]. apply ctx_errors in E. by right.
Qed.

(** ** The choice *)

Lemma pick_usable ev id :
  pick fx_write shared ev = Accept id ->
  exists c family, c ∈ sh_candidates shared /\ cand_sink_id c = id
    /\ net_protocol (net (meta ev)) = Some family /\ serves_family family c = true
    /\ serves_group (policy_route_group (meta ev)) c = true.
Proof.
  unfold pick. destruct (net_protocol _) as [family|]; [|done]. destruct (str_mem _ _); [|done].
  destruct (usable _ _ _) as [|c0 cs] eqn:Eu; [done|].
  set (metrics := exit_metric _ _ <$> _).
  destruct (rank fx_write metrics _ 0) as [|top rest] eqn:Er; [done|]. intros [= <-].
  assert (Hin : top ∈ em_id <$> metrics) by (rewrite <- rank_perm, Er; left).
  unfold metrics in Hin. rewrite <- list_fmap_compose in Hin. apply list_elem_of_fmap in Hin as (c & -> & Hc).
  rewrite <- Eu in Hc. unfold usable in Hc. apply list_elem_of_In, filter_In in Hc as [Hc Hg].
  apply filter_In in Hc as [Hc%list_elem_of_In Hf]. by exists c, family.
Qed.

Definition pick_codes : list string := ["no_usable_exit"; "invalid_transport_family"; "missing_transport_family"].

Lemma pick_verdict ev : (exists id, pick fx_write shared ev = Accept id) \/ rejected_with pick_codes (pick fx_write shared ev).
Proof.
  unfold pick. destruct (net_protocol _) as [family|]; [|right; apply rejects_in; in_list].
  destruct (str_mem _ _); [|right; apply rejects_in; in_list].
  destruct (usable _ _ _) as [|c0 cs]; [right; apply rejects_in; in_list|].
  destruct (rank _ _ _ _); [right; apply rejects_in; in_list|by left; eauto].
Qed.

(** ** The composition *)

Definition forward_steps (ev : Event) : Verdict * Event :=
  match resolve_step ev with
  | (Continue, ev) =>
      match enrich_step ev with
      | (Continue, ev) => match rule_step ev with (Continue, ev) => (pick fx_write shared ev, ev) | out => out end
      | out => out
      end
  | out => out
  end.

Section Run.
Context (src : SourceId) (spec : SourceSpec) (es : list EgressCfg).
Abbreviation reg := (forward_registry fx_write src spec es (Some shared)).

Definition trace_after (k : KernelCtx) (h : string) (v : Verdict) : KernelCtx :=
  mkKernelCtx (hook_trace k ++ [hook_trace_record h v]).

(** A hook that continues or rejects passes the checks on its verdict. *)
Lemma call_plain id f accepts jumps ev k v ev' :
  f ev k = ((v, ev'), k) -> v = Continue \/ (exists r, v = Reject r) ->
  call_hook id f accepts jumps ev k = (Ok v, ev', trace_after k id v).
Proof. unfold call_hook. intros ->. by intros [->|[r ->]]. Qed.

Lemma plain codes v : v = Continue \/ rejected_with codes v -> v = Continue \/ exists r, v = Reject r.
Proof. intros [?|(r & ? & _)]; eauto. Qed.

Lemma call_resolve ev k :
  resolve_hook reg "net.resolve_or_recover" ev k
  = (Ok (resolve_step ev).1, (resolve_step ev).2, trace_after k "net.resolve_or_recover" (resolve_step ev).1).
Proof.
  unfold resolve_hook. rewrite hook_resolve, fn_resolve.
  apply call_plain; [rewrite resolve_hook_step; by destruct (resolve_step ev)|]. by eapply plain, resolve_verdict.
Qed.

Lemma call_enrich ev k :
  resolve_hook reg "net.enrich_geo_asn" ev k
  = (Ok (enrich_step ev).1, (enrich_step ev).2, trace_after k "net.enrich_geo_asn" (enrich_step ev).1).
Proof.
  unfold resolve_hook. rewrite hook_enrich, fn_enrich.
  apply call_plain; [rewrite enrich_hook_step; by destruct (enrich_step ev)|]. by eapply plain, enrich_verdict.
Qed.

Hypothesis Hchain : validate_forward_actions (sh_rule_chain shared) = Ok tt.
Hypothesis Hcands : forall c, c ∈ sh_candidates shared -> cand_sink_id c ∈ egress_id <$> es.

Lemma call_rule ev k :
  resolve_hook reg "policy.rule_chain" ev k
  = (Ok (rule_step ev).1, (rule_step ev).2, trace_after k "policy.rule_chain" (rule_step ev).1).
Proof.
  unfold resolve_hook. rewrite hook_rule, fn_rule.
  apply call_plain; [rewrite rule_hook_step; by destruct (rule_step ev)|]. by eapply plain, rule_verdict.
Qed.

Lemma call_pick ev k :
  resolve_hook reg "transport.pick_sink_cake" ev k
  = (Ok (pick fx_write shared ev), ev, trace_after k "transport.pick_sink_cake" (pick fx_write shared ev)).
Proof.
  unfold resolve_hook. rewrite hook_pick, fn_pick.
  destruct (pick_verdict ev) as [[id Hid]|Hr].
  - unfold call_hook, pick_sink_cake. rewrite Hid. cbn [check_verdict may_accept_to pick_sink_hook_spec].
    destruct (pick_usable ev id Hid) as (c & family & Hc & <- & _). rewrite (proj2 (str_mem_iff _ _)) by (by apply Hcands).
    done.
  - apply call_plain; [done|]. destruct Hr as (r & Hr & _). eauto.
Qed.

Lemma forward_run ev k :
  exists k', run_pipeline_with_registry reg PIPELINE_ID ev k = (Ok (forward_steps ev).1, (forward_steps ev).2, k').
Proof.
  unfold run_pipeline_with_registry, run_pipeline.
  change (bt_values (pipelines reg)) with [forward_pipeline]. cbn [run_loop MAX_JUMP_DEPTH List.find].
  rewrite bool_decide_eq_true_2 by done. cbn [p_hooks forward_pipeline run_hooks].
  unfold forward_steps. rewrite call_resolve. destruct (resolve_step ev) as [v1 ev1] eqn:E1.
  pose proof (resolve_verdict ev) as Hv1. rewrite E1 in Hv1. cbn [fst snd] in *.
  destruct Hv1 as [->|(r & -> & _)]; [|by eauto].
  rewrite call_enrich. destruct (enrich_step ev1) as [v2 ev2] eqn:E2.
  pose proof (enrich_verdict ev1) as Hv2. rewrite E2 in Hv2. cbn [fst snd] in *.
  destruct Hv2 as [->|(r & -> & _)]; [|by eauto].
  rewrite call_rule. destruct (rule_step ev2) as [v3 ev3] eqn:E3.
  pose proof (rule_verdict ev2 Hchain) as Hv3. rewrite E3 in Hv3. cbn [fst snd] in *.
  destruct Hv3 as [->|(r & -> & _)]; [|by eauto].
  rewrite call_pick. destruct (pick_verdict ev3) as [[id ->]|(r & -> & _)]; eauto.
Qed.

Lemma forward_wf : registry_wf reg.
Proof.
  split.
  - unfold bt_wf. rewrite forward_hooks_sorted. by apply (bool_decide_unpack _).
  - apply NoDup_singleton.
  - rewrite forward_hooks_sorted. cbn. lia.
  - cbn. lia.
Qed.

Lemma forward_event_run ev :
  verify reg = Ok tt ->
  exists tr, run_pipeline_event (mkRuntime shared (forward_registry fx_write src spec es) src) ev
             = Some (Ok (mkPipelineRun (forward_steps ev).1 (forward_steps ev).2 tr)).
Proof.
  intros Hv. unfold run_pipeline_event. cbn [rt_registry rt_shared rt_source].
  change (wirings reg) with [mkWiring src PIPELINE_ID]. cbn [List.find w_source w_pipeline].
  rewrite bool_decide_eq_true_2 by done.
  destruct (from_registry reg) as [[ck|e]|] eqn:Ef.
  - cbn [mbind option_bind]. unfold compiled_run_pipeline.
    rewrite (crun_loop_eq reg ck forward_wf (from_registry_compiles _ _ Ef)). cbn [mbind option_bind].
    destruct (forward_run ev (mkKernelCtx [])) as [k' Hr]. unfold run_pipeline_with_registry, run_pipeline in Hr.
    cbn [w_pipeline]. rewrite Hr. eauto.
  - apply from_registry_err in Ef. congruence.
  - apply from_registry_panics in Ef as (h & Hh & Hn); [|apply forward_wf|done]. exfalso. apply Hn.
    rewrite forward_fns_sorted. rewrite forward_hooks_sorted in Hh. exact Hh.
Qed.
End Run.
End Steps.
