(* ===== verification/ForwardFacts.v ===== *)
(** What the assembled forward pipeline promises: which configurations it accepts, how
    its runs end, what its rules decide, and which exit they choose. *)
From S2P Require Import Schedulers Prelude Numbers NetAddr Floats Rules RulesFacts RuleYaml RuleYamlFacts.
From S2P Require Import Geosite StateM Dns Resolver ResolverRun ResolverFacts Config ConfigValidate ConfigFacts.
From S2P Require Import KernelRegistry RegistrySpec Pipeline Hooks Forward ForwardRun.
Local Open Scope string_scope.
Local Open Scope Z_scope.

(** ** The source of a valid configuration *)

Lemma indices_of_iff kind l k : k ∈ indices_of kind l <-> exists i, l !! k = Some i /\ declares kind i = true.
Proof.
  unfold indices_of. rewrite list_elem_of_fmap. split.
  - intros ([k' i] & -> & Hin). apply list_elem_of_In, filter_In in Hin as [Hin Hd]. apply list_elem_of_In in Hin.
    exists i. split; [|done]. apply list_elem_of_lookup in Hin as [n Hn]. apply lookup_zip_with_Some in Hn as (a & b & E & Ha & Hb).
    injection E as <- <-. apply lookup_seq in Ha as [-> _]. done.
  - intros (i & Hi & Hd). exists (k, i). split; [done|]. apply list_elem_of_In, filter_In. split; [|done].
    apply list_elem_of_In, list_elem_of_lookup. exists k. apply lookup_zip_with_Some. exists k, i. split_and!; [done| |done].
    apply lookup_seq. apply lookup_lt_Some in Hi. lia.
Qed.

Lemma filter_keys_nodup {A B} (f : A * B -> bool) (l : list (A * B)) : NoDup l.*1 -> NoDup (List.filter f l).*1.
Proof.
  induction l as [|x l IH]; cbn; intros Hnd; [constructor|]. apply NoDup_cons in Hnd as [Hx Hnd].
  destruct (f x); [|by apply IH]. cbn. constructor; [|by apply IH]. intros Hin. apply Hx.
  apply list_elem_of_fmap in Hin as (y & E & Hy). apply list_elem_of_In, filter_In in Hy as [Hy%list_elem_of_In _].
  apply list_elem_of_fmap. eauto.
Qed.

Lemma indices_of_nodup kind l : NoDup (indices_of kind l).
Proof. unfold indices_of. apply filter_keys_nodup. rewrite fst_zip by (rewrite length_seq; lia). apply NoDup_seq. Qed.

Lemma source_index_ok cfg p idx :
  selects cfg (source_cfg p) idx -> resolve_pipeline_source_index cfg p = Ok idx.
Proof.
  unfold selects, resolve_pipeline_source_index. intros ((i & Hi & Hk) & Hidx).
  assert (Hd : declares (source_cfg_kind (source_cfg p)) i = true) by (by apply bool_decide_eq_true).
  destruct (ingress_index (source_cfg p)) as [k|]; [subst k; by rewrite Hi, Hd|].
  set (l := indices_of _ _). assert (Hall : forall k, k ∈ l <-> k = idx).
  { intros k. unfold l. rewrite indices_of_iff. split; [|intros ->; eauto].
    intros (j & Hj & Hdj%bool_decide_eq_true). by eapply Hidx. }
  pose proof (indices_of_nodup (source_cfg_kind (source_cfg p)) (cfg_ingresses cfg)) as Hnd. fold l in Hnd.
  destruct l as [|a [|b l]].
  - exfalso. apply (not_elem_of_nil idx). by apply Hall.
  - f_equal. apply Hall. left.
  - apply NoDup_cons in Hnd as [Hab _]. exfalso. apply Hab.
    assert (a = idx) as -> by (apply Hall; left). assert (b = idx) as -> by (apply Hall; right; left). left.
Qed.

Lemma digits_shaped s : str_all is_digit s = true ->
  str_all (fun b => is_ascii_alphanumeric b || str_mem (String b EmptyString) ["_"; "."; ":"; "-"]) s = true.
Proof.
  induction s as [|a s IH]; cbn; [done|]. rewrite !andb_true_iff. intros [Ha Hs]. split; [|by apply IH].
  unfold is_ascii_alphanumeric. unfold is_digit in Ha. by rewrite Ha.
Qed.

Lemma ingress_id_shaped n : shaped ("ingress:" +:+ dec_show n).
Proof.
  unfold shaped, is_valid_id_shape. rewrite str_all_app. cbn [str_is_empty negb andb].
  rewrite (digits_shaped (dec_show n)) by apply dec_show_digits. rewrite andb_true_r. vm_compute. reflexivity.
Qed.

Section Source.
Context (cfg : Config) (p : PipelineCfg).
Hypothesis Hcfg : ConfigOk cfg.
Hypothesis Hp : cfg_pipeline cfg = Some p.

Lemma configured_source :
  exists src, pipeline_source_from_config cfg p
    = Ok (src, mkSourceSpec src "application/source" (source_initial_writes (source_cfg p))) /\ shaped src.
Proof.
  destruct (ck_pipeline _ Hcfg p Hp) as [_ _ _ Hid Hkind _ [idx Hsel] Hw]. unfold pipeline_source_from_config.
  rewrite (source_index_ok cfg p idx Hsel).
  replace (try_each check_initial_write _) with (Ok tt : result unit AssemblyError).
  - rewrite Hkind. eexists. split; [done|]. destruct (source_cfg_id _) as [id|]; [by apply Hid|apply ingress_id_shaped].
  - symmetry. apply try_each_ok, Forall_forall. intros k Hk. apply ensure_ok, negb_true_iff, mem_false. by apply Hw.
Qed.

Lemma configured_sinks_shaped : Forall (fun e => shaped (egress_id e)) (cfg_egresses cfg).
Proof. eapply Forall_impl; [apply (ck_egress _ Hcfg)|]. intros e He. apply (eo_id _ He). Qed.
End Source.

(** C19: For a configuration that passes validation, the source and the registry of
    the forward pipeline can always be built, and the registry verifies exactly when the
    source declares the eight keys the hooks read before any of them is written -- the
    default list. *)
Theorem configured_registry_verifies `{RuleParsers} `{Mmdb} (fx_write : Z -> list Z -> Z) (cfg : Config) (p : PipelineCfg)
    (current : option SharedHookCtx) (Hcfg : validate_config cfg = Ok tt) (Hp : cfg_pipeline cfg = Some p) :
  exists src spec, pipeline_source_from_config cfg p = Ok (src, spec) /\
    (verify (forward_registry fx_write src spec (cfg_egresses cfg) current) = Ok tt <->
     forall k, k ∈ default_pipeline_source_initial_writes -> k ∈ source_initial_writes (source_cfg p)).
Proof.
  apply validate_config_iff in Hcfg. destruct (configured_source cfg p Hcfg Hp) as (src & Hsrc & Hsh).
  eexists src, _. split; [exact Hsrc|]. rewrite forward_verifies; [|done|done| |by apply configured_sinks_shaped].
  - cbn [initial_writes]. rewrite Forall_forall. by setoid_rewrite required_is_default.
  - cbn [initial_writes]. intros k Hk. by apply (pk_writes _ _ (ck_pipeline _ Hcfg p Hp)).
Qed.

(** ** Assembled runtimes *)

Section Assembled.
Context `{RuleParsers} `{Mmdb} `{Files} (fx_write : Z -> list Z -> Z).
Context {W : Type} `{!ResolverNet W}.

(** Verification looks at the names of the functions only. *)
Lemma try_each_ext {A E} (f g : A -> result unit E) l : (forall x, f x = g x) -> try_each f l = try_each g l.
Proof. intros Hfg. induction l as [|x l IH]; cbn; [done|]. by rewrite Hfg, IH. Qed.

Lemma verify_fn_names so si ho pi wi (f g : btree HookFn) :
  bt_keys f = bt_keys g -> (forall h, bt_contains f h = bt_contains g h) ->
  verify (mkKernelRegistry so si ho pi wi f) = verify (mkKernelRegistry so si ho pi wi g).
Proof.
  intros Hk Hc. unfold verify. set (rf := mkKernelRegistry so si ho pi wi f). set (rg := mkKernelRegistry so si ho pi wi g).
  assert (Hid : check_id_shapes rf = check_id_shapes rg).
  { unfold check_id_shapes. cbn [sources sinks hooks pipelines wirings fns rf rg]. by rewrite Hk. }
  assert (Hfn : check_hook_fns rf = check_hook_fns rg).
  { unfold check_hook_fns. cbn [hooks pipelines fns rf rg]. rewrite Hk. destruct (try_each _ (bt_keys g)); [|done].
    apply try_each_ext. intros [pid p]. apply try_each_ext. intros h. by rewrite Hc. }
  assert (Hwi : check_wirings_exist rf = check_wirings_exist rg).
  { unfold check_wirings_exist. cbn [wirings sources rf rg].
    enough (Hl : forall ws wired, check_wirings_loop rf ws wired = check_wirings_loop rg ws wired) by (by rewrite Hl).
    induction ws as [|w ws IH]; intros wired; cbn; [done|]. by rewrite IH. }
  assert (Hns : check_namespace_rules rf = check_namespace_rules rg).
  { unfold check_namespace_rules. apply try_each_ext. intros [pid p]. change (initial_available rf pid) with (initial_available rg pid).
    generalize (initial_available rg pid). induction (p_hooks p) as [|h hs IH]; intros av; cbn; [done|].
    destruct (bt_get ho h); by rewrite ?IH. }
  rewrite Hid, Hfn, Hwi, Hns. reflexivity.
Qed.

Lemma verify_any_context src spec es c1 c2 :
  verify (forward_registry fx_write src spec es c1) = verify (forward_registry fx_write src spec es c2).
Proof.
  unfold forward_registry. apply verify_fn_names; [reflexivity|]. intros h.
  apply eq_true_iff_eq. rewrite !bt_contains_keys. reflexivity.
Qed.

(** What the shared context of an assembled runtime consists of. *)
Record assembled (cfg : Config) (r : Resolver) (mk : @RState W -> PipelineRuntime) (src : SourceId) (spec : SourceSpec) (geoip : GeoIpDb)
    (geosite : GeositeDb) (chain : RuleChain) (sets : RuleSetRegistry) : Prop := {
  as_chain : validate_forward_actions chain = Ok tt;
  as_verified : verify (forward_registry fx_write src spec (cfg_egresses cfg) None) = Ok tt;
  as_runtime : forall s, mk s = mkRuntime (mkShared (handle_of r s) (reverse_of s) geoip geosite chain sets
                                             (candidates_from_egresses cfg))
                                  (forward_registry fx_write src spec (cfg_egresses cfg)) src
}.

Lemma build_assembled cfg base (w : W) r s0 mk :
  build_pipeline_runtime fx_write cfg base w = Some (Ok (r, s0, mk)) ->
  exists p rchain src spec geoip geosite chain sets, cfg_pipeline cfg = Some p
    /\ assembled cfg r mk src spec geoip geosite chain sets
    /\ build_default_resolver (build_dns_cache p) rchain w = Ok (r, s0).
Proof.
  unfold build_pipeline_runtime. destruct (cfg_pipeline cfg) as [p|]; [|done].
  destruct (load_forward_chain p base) as [[[chain sets]|]|] eqn:Ec; cbn [mbind option_bind]; [|done|done].
  destruct (load_geoip p base) as [geoip|]; [|done]. destruct (load_geosite p base) as [geosite|]; [|done].
  destruct (load_resolver_chain p base) as [[rchain|]|]; cbn [mbind option_bind]; [|done|done].
  destruct (build_default_resolver _ rchain w) as [[r' s']|] eqn:Er; [|done].
  destruct (pipeline_source_from_config cfg p) as [[src spec]|]; [|done].
  destruct (verify (forward_registry _ src spec _ None)) as [[]|] eqn:Ev; [|done].
  destruct (runtime_new _ _ src) as [[rt|]|]; cbn [mbind option_bind map_err]; [|done|done]. intros [= <- <- <-].
  exists p, rchain, src, spec, geoip, geosite, chain, sets. split_and!; [done| |done]. split; [|done|done].
  unfold load_forward_chain in Ec. destruct (forward_rule_chain_path p); [|done].
  destruct (load_chain_from_path _ _ _) as [[[c' st]|]|]; cbn [mbind option_bind] in Ec; [|done|done].
  destruct (validate_forward_actions c') as [[]|] eqn:Ea; [|done]. by injection Ec as -> ->.
Qed.

(** The exits of a configuration. *)
Lemma configured_candidate cfg c :
  c ∈ candidates_from_egresses cfg ->
  exists e, e ∈ cfg_egresses cfg
    /\ c = mkCandidate (egress_id e) (egress_groups e) (pipeline_capability_bits e).1 (pipeline_capability_bits e).2 0
             (f64_of_z 1) 0.
Proof.
  unfold candidates_from_egresses. intros (e & -> & He)%list_elem_of_fmap. exists e. split; [done|].
  by destruct (pipeline_capability_bits e).
Qed.

Definition forward_codes : list string :=
  (resolve_codes ++ ["invalid_dst_ips"; "denied_by_rule"] ++ ctx_codes ++ pick_codes)%list.

(** An egress that carries the transport of the event and belongs to its route group. *)
Definition suits (ev : Event) (e : EgressCfg) : Prop :=
  (net_protocol (net (meta ev)) = Some "tcp" /\ (pipeline_capability_bits e).1 = true
   \/ net_protocol (net (meta ev)) = Some "udp" /\ (pipeline_capability_bits e).2 = true)
  /\ (forall g, policy_route_group (meta ev) = Some g -> g ∈ egress_groups e).

Lemma assembled_run cfg r mk src spec geoip geosite chain sets s ev :
  assembled cfg r mk src spec geoip geosite chain sets ->
  exists tr, run_pipeline_event (mk s) ev
    = Some (Ok (mkPipelineRun (forward_steps fx_write (rt_shared (mk s)) ev).1 (forward_steps fx_write (rt_shared (mk s)) ev).2 tr)).
Proof.
  intros [Hc Hv Hm]. rewrite (Hm s). cbn [rt_shared]. apply forward_event_run; [done| |].
  - cbn [sh_candidates]. intros c (e & He & ->)%configured_candidate. cbn. apply list_elem_of_fmap. eauto.
  - by rewrite (verify_any_context _ _ _ _ None).
Qed.

Lemma steps_verdict shared ev :
  validate_forward_actions (sh_rule_chain shared) = Ok tt ->
  let out := forward_steps fx_write shared ev in
  (exists id, out.1 = Accept id /\ pick fx_write shared out.2 = Accept id) \/ rejected_with forward_codes out.1.
Proof.
  intros Hc. cbv zeta. unfold forward_steps.
  assert (Hsub : forall codes v, (forall c, c ∈ codes -> c ∈ forward_codes) -> rejected_with codes v -> rejected_with forward_codes v).
  { intros codes v Hs (rs & -> & Hr). exists rs. eauto. }
  assert (Hin : forall c, c ∈ resolve_codes \/ c ∈ ["invalid_dst_ips"; "denied_by_rule"] \/ c ∈ ctx_codes \/ c ∈ pick_codes ->
    c ∈ forward_codes).
  { intros c. unfold forward_codes. rewrite !elem_of_app. tauto. }
  pose proof (resolve_verdict shared ev) as Hv1. destruct (resolve_step shared ev) as [v1 ev1]. cbn [fst] in Hv1.
  destruct Hv1 as [->|Hv1]; [|right; destruct Hv1 as (rs & -> & Hr); exists rs; split; [done|apply Hin; auto]].
  pose proof (enrich_verdict shared ev1) as Hv2. destruct (enrich_step shared ev1) as [v2 ev2]. cbn [fst] in Hv2.
  destruct Hv2 as [->|Hv2]; [|right; destruct Hv2 as (rs & -> & Hr); exists rs; split; [done|apply Hin; set_solver]].
  pose proof (rule_verdict shared ev2 Hc) as Hv3. destruct (rule_step shared ev2) as [v3 ev3]. cbn [fst] in Hv3.
  destruct Hv3 as [->|Hv3].
  2: { right. destruct Hv3 as (rs & -> & Hr). exists rs. split; [done|]. apply Hin.
       apply elem_of_cons in Hr as [->|Hr]; [|auto]. right. left. in_list. }
  cbn [fst snd]. destruct (pick_verdict fx_write shared ev3) as [[id Hid]|(rs & -> & Hr)]; [left; eauto|].
  right. exists rs. split; [done|]. apply Hin. auto.
Qed.
End Assembled.

(** C14: Every run of an assembled pipeline, whatever the event and the state of the
    resolver, ends without panic and without a run error: it accepts an egress of the
    configuration that carries the event's transport and belongs to the route group the
    rules left, or rejects with one of the fifteen documented codes -- never with
    [hook_ctx_missing] or [unsupported_forward_rule_action]. *)
Theorem forward_run_ends_in_a_verdict `{RuleParsers} `{Mmdb} `{Files} {W} `{!ResolverNet W} (fx_write : Z -> list Z -> Z)
    (cfg : Config) (base_dir : string) (w : W) (r : Resolver) (s0 : RState) (mk : RState -> PipelineRuntime)
    (Hbuild : build_pipeline_runtime fx_write cfg base_dir w = Some (Ok (r, s0, mk))) (s : RState) (ev : Event) :
  exists run, run_pipeline_event (mk s) ev = Some (Ok run) /\
    match run_verdict run with
    | Accept id => exists e, e ∈ cfg_egresses cfg /\ egress_id e = id /\ suits (run_event run) e
    | Reject reason => reason_code reason ∈ forward_codes
    | _ => False
    end.
Proof.
  apply build_assembled in Hbuild as (p & rchain & src & spec & geoip & geosite & chain & sets & _ & Has & _).
  destruct (assembled_run fx_write cfg r mk src spec geoip geosite chain sets s ev Has) as [tr Hrun].
  eexists. split; [exact Hrun|]. destruct Has as [Hc _ Hm]. rewrite (Hm s). cbn [rt_shared run_verdict run_event].
  set (shared := mkShared _ _ _ _ _ _ _). destruct (steps_verdict fx_write shared ev Hc) as [(id & -> & Hid)|(rs & -> & Hr)]; [|done].
  apply pick_usable in Hid as (c & family & Hin & <- & Hf & Hfam & Hg).
  apply configured_candidate in Hin as (e & He & ->). exists e. split_and!; [done|done|]. split.
  - unfold serves_family in Hfam. cbn in Hfam. destruct (bool_decide (family = "tcp")) eqn:Et.
    + apply bool_decide_eq_true in Et as ->. by left.
    + destruct (bool_decide (family = "udp")) eqn:Eu; [|done]. apply bool_decide_eq_true in Eu as ->. by right.
  - intros g Hgr. rewrite Hgr in Hg. by apply str_mem_iff in Hg.
Qed.

(** * What the rules judge *)

Local Open Scope string_scope.
Local Open Scope Z_scope.

(** ** Addresses *)

Definition ip_ok (ip : HostIp) : Prop :=
  match ip with Ip4 o => length o = 4%nat /\ bytes_ok o | Ip6 o => length o = 16%nat /\ bytes_ok o end.

Lemma octets_groups o : bytes_ok o -> Nat.even (length o) = true -> octets_of_groups (groups_of_octets o) = o.
Proof.
  intros Ho. remember (length o) as n eqn:Hn. revert o Hn Ho. induction (lt_wf n) as [n _ IH]. intros o -> Ho He.
  destruct o as [|a [|b o]]; [done|done|]. unfold bytes_ok in Ho. rewrite !Forall_cons in Ho. destruct Ho as (Ha & Hb & Ho).
  unfold is_byte in Ha, Hb. cbn [groups_of_octets].
  change (octets_of_groups (?x :: ?g)) with (x / 256 :: x mod 256 :: octets_of_groups g).
  rewrite (IH (length o)); [|cbn; lia|done|done|done]. f_equal; [|f_equal].
  - rewrite Z.div_add_l by lia. rewrite Z.div_small by lia. lia.
  - rewrite Z.add_comm, Z.mod_add by lia. apply Z.mod_small. lia.
Qed.

Lemma groups_ok_of_octets o : bytes_ok o -> Forall group_ok (groups_of_octets o).
Proof.
  remember (length o) as n eqn:Hn. revert o Hn. induction (lt_wf n) as [n _ IH]. intros o -> Ho.
  destruct o as [|a [|b o]]; [constructor|constructor|]. unfold bytes_ok in Ho. rewrite !Forall_cons in Ho.
  destruct Ho as (Ha & Hb & Ho). unfold is_byte in Ha, Hb. cbn [groups_of_octets]. constructor; [unfold group_ok; lia|].
  eapply IH; [|done|done]. cbn. lia.
Qed.

Lemma groups_length o : length (groups_of_octets o) = (length o / 2)%nat.
Proof.
  remember (length o) as n eqn:Hn. revert o Hn. induction (lt_wf n) as [n _ IH]. intros o ->.
  destruct o as [|a [|b o]]; [done|done|]. cbn [groups_of_octets length]. rewrite (IH (length o)) by (done || cbn; lia).
  change (S (S (length o))) with (2 + length o)%nat. by rewrite (Nat.div_add_l 1 2) by done.
Qed.

Lemma parse_show_host_ip ip : ip_ok ip -> parse_host_ip (show_host_ip ip) = Some ip.
Proof.
  unfold parse_host_ip, show_host_ip. destruct ip as [o|o]; intros [Hl Ho].
  - by rewrite parse_show_ipv4.
  - assert (Hg : length (groups_of_octets o) = 8%nat) by (by rewrite groups_length, Hl).
    rewrite show_ipv6_not_ipv4, parse_show_ipv6 by (done || by apply groups_ok_of_octets). cbn.
    rewrite octets_groups; [done|done|by rewrite Hl].
Qed.

Lemma decode_packed ip rest : ip_ok ip -> decode_first_ip (pack_ip ip ++ rest) = Some ip.
Proof.
  destruct ip as [o|o]; intros [Hl _]; cbn [pack_ip app decode_first_ip].
  - cbn [length]. rewrite length_app, Hl. cbn -[take]. by rewrite take_app_length' by done.
  - cbn [length]. rewrite length_app, Hl. cbn -[take]. by rewrite take_app_length' by done.
Qed.

(** ** Tags *)

(** A tag that survives packing: not empty, no NUL, UTF-8. *)
Definition tag_ok (t : string) : Prop :=
  t <> "" /\ Forall (fun b => b <> 0) (bytes_of_string t) /\ is_utf8 t = true.

Lemma split_nul_clean b : Forall (fun x => x <> 0) b -> split_nul b = [b].
Proof. induction 1 as [|x b Hx _ IH]; cbn; [done|]. rewrite IH. by destruct (Z.eqb_spec x 0). Qed.

Lemma split_nul_app a b : Forall (fun x => x <> 0) a -> split_nul (a ++ 0 :: b) = a :: split_nul b.
Proof. induction 1 as [|x a Hx _ IH]; cbn; [done|]. rewrite IH. by destruct (Z.eqb_spec x 0). Qed.

Fixpoint packed (tags : list string) : list Z :=
  match tags with
  | [] => []
  | [t] => bytes_of_string t
  | t :: tags => bytes_of_string t ++ 0 :: packed tags
  end.

Lemma bytes_nonempty t : t <> "" -> bytes_of_string t <> [].
Proof. by destruct t. Qed.

Lemma packed_nonempty t tags : Forall tag_ok (t :: tags) -> packed (t :: tags) <> [].
Proof.
  intros [[Ht _] _]%Forall_cons. apply bytes_nonempty in Ht. cbn. destruct tags; [done|].
  by destruct (bytes_of_string t).
Qed.

Lemma packed_snoc tags t : Forall tag_ok tags -> packed (tags ++ [t]) = push_packed (packed tags) t.
Proof.
  intros Hall. unfold push_packed. induction tags as [|x tags IH]; [done|].
  apply Forall_cons in Hall as Hx. destruct Hx as [Hx Hall']. pose proof (packed_nonempty x tags Hall) as Hne.
  destruct (packed (x :: tags)) as [|b l] eqn:E; [done|]. rewrite <- E. clear Hne.
  destruct tags as [|y tags]; [by rewrite <- app_assoc|].
  change (packed ((x :: y :: tags) ++ [t])) with (bytes_of_string x ++ 0 :: packed ((y :: tags) ++ [t]))%list.
  rewrite IH by done. change (packed (x :: y :: tags)) with (bytes_of_string x ++ 0 :: packed (y :: tags))%list.
  destruct (packed (y :: tags)) eqn:E'; [by apply packed_nonempty in E'|]. by rewrite <- !app_assoc.
Qed.

Lemma packed_fold tags : forall done_, Forall tag_ok (done_ ++ tags) ->
  foldl push_packed (packed done_) tags = packed (done_ ++ tags).
Proof.
  induction tags as [|t tags IH]; intros done_ Hall; cbn; [by rewrite app_nil_r|].
  rewrite <- packed_snoc by (by apply Forall_app in Hall as [? _]).
  replace (done_ ++ t :: tags)%list with ((done_ ++ [t]) ++ tags)%list in * by (by rewrite <- app_assoc). by apply IH.
Qed.

Lemma unpack_packed tags : Forall tag_ok tags -> unpack_tags (packed tags) = tags.
Proof.
  unfold unpack_tags. induction 1 as [|t tags (Hne & Hz & Hu) Hall IH]; [done|].
  assert (Hf : bool_decide (bytes_of_string t = []) = false) by (by apply bool_decide_eq_false, bytes_nonempty).
  destruct tags as [|y tags].
  - cbn [packed]. rewrite split_nul_clean by done. cbn [List.filter]. rewrite Hf. cbn. by rewrite from_utf8_bytes.
  - change (packed (t :: y :: tags)) with (bytes_of_string t ++ 0 :: packed (y :: tags))%list.
    rewrite split_nul_app by done. cbn [List.filter]. rewrite Hf. cbn [negb omap list_omap]. rewrite from_utf8_bytes by done.
    by rewrite IH.
Qed.

(** The tags of a host go through the event unchanged. *)
Lemma tags_unpacked db host : Forall tag_ok (geosite_lookup db host) ->
  unpack_tags (geosite_lookup_packed db host) = geosite_lookup db host.
Proof.
  unfold geosite_lookup, geosite_lookup_packed. destruct (str_is_empty (normalize_host host)); [done|].
  intros Hall. rewrite (packed_fold _ []) by done. by apply unpack_packed.
Qed.

(** ** The context of the rules *)

Lemma ext_get_none m k : k ∉ m.*1 -> ext_get m k = None.
Proof.
  induction m as [|[k' v] m IH]; cbn; [done|]. intros Hk. rewrite decide_False by set_solver. apply IH. set_solver.
Qed.

Definition str_of (v : option MetaValue) : option string := match v with Some (MString s) => Some s | _ => None end.
Definition u64_of (v : option MetaValue) : option Z := match v with Some (MU64 n) => Some n | _ => None end.
Definition bytes_of (v : option MetaValue) : option (list Z) := match v with Some (MBytes b) => Some b | _ => None end.

Definition or_else {A} (a b : option A) : option A := match a with Some _ => a | None => b end.

(** The context with what the extension map says. *)
Definition ctx_of (c : RuleCtx) (m : SmallMap) : RuleCtx :=
  with_ext c (or_else (rule_ip <$> (str_of (ext_get m "dst_ip_primary") ≫= parse_host_ip)) (dst_ip c))
    (or_else (str_of (ext_get m "operation")) (operation c)) (or_else (str_of (ext_get m "geo_country")) (dst_geo c))
    (or_else (Numbers.as_u32 <$> u64_of (ext_get m "asn")) (asn c))
    (default (geosite_tags c) (unpack_tags <$> bytes_of (ext_get m "geosite_tags"))).

Lemma read_entries_get m : NoDup m.*1 ->
  (forall s, ext_get m "dst_ip_primary" = Some (MString s) -> is_Some (parse_host_ip s)) ->
  forall c, read_entries c m = Ok (ctx_of c m).
Proof.
  induction m as [|[k v] m IH]; intros Hnd Hip c; [by destruct c|].
  cbn [fmap list_fmap fst] in Hnd. apply NoDup_cons in Hnd as [Hk%ext_get_none Hnd].
  assert (Hip' : forall s, ext_get m "dst_ip_primary" = Some (MString s) -> is_Some (parse_host_ip s)).
  { intros s Hs. apply Hip. cbn. case_decide; [subst k; congruence|done]. }
  specialize (IH Hnd Hip'). cbn [read_entries]. unfold read_entry.
  destruct v as [s|n|b|bs]; repeat case_bool_decide; subst; cbv zeta.
  1: { destruct (Hip s) as [ip Hs]; [by cbn; rewrite decide_True|]. rewrite Hs, IH. f_equal. unfold ctx_of. cbn.
       rewrite Hk. by repeat (rewrite decide_True by done || rewrite decide_False by done); cbn; rewrite Hs. }
  all: rewrite IH; f_equal; unfold ctx_of; cbn; rewrite ?Hk; repeat case_decide; subst; try done; rewrite ?Hk; try done.
Qed.

(** ** Tags of a parsed list *)

Definition plain_ascii (a : Ascii.ascii) : bool := (0 <? byte_z a) && (byte_z a <? 128).

Lemma plain_utf8 s : str_all plain_ascii s = true ->
  Forall (fun b => b <> 0) (bytes_of_string s) /\ is_utf8 s = true.
Proof.
  unfold is_utf8. induction s as [|a s IH]; cbn; [by split; [constructor|]|].
  rewrite andb_true_iff. intros [Ha [Hs Hu]%IH]. unfold plain_ascii in Ha.
  apply andb_true_iff in Ha as [H0%Z.ltb_lt H1%Z.ltb_lt]. split; [constructor; [lia|done]|].
  unfold between. replace ((0 <=? byte_z a) && (byte_z a <=? 0x7f)) with true; [done|].
  symmetry. apply andb_true_iff. split; apply Z.leb_le; lia.
Qed.

Lemma valid_tag_lower s : is_valid_tag s = true -> str_all plain_ascii (to_ascii_lowercase s) = true.
Proof.
  unfold is_valid_tag. induction s as [|a s IH]; cbn; [done|]. rewrite !andb_true_iff. intros [Ha Hs]. split; [|by apply IH].
  assert (Hall : forallb (fun z => let a := ascii_z z in
     implb (is_ascii_alphanumeric a || bool_decide (a ∈ ["_"%char; "-"%char; "."%char])) (plain_ascii (ascii_lower a)))
     (seqZ 0 256) = true) by (vm_compute; reflexivity).
  apply (forallb_range _ 256 (byte_z a)) in Hall; [|split; [unfold byte_z; lia|]].
  - cbv zeta beta in Hall. rewrite ascii_z_byte, Ha in Hall. done.
  - unfold byte_z, byte_of. pose proof (Ascii.N_ascii_bounded a). lia.
Qed.

Lemma parsed_tags_ok body db host : geosite_parse body = Ok db -> Forall tag_ok (geosite_lookup db host).
Proof.
  intros Hdb. unfold geosite_lookup, for_each_match. destruct (str_is_empty (normalize_host host)); [constructor|].
  apply Forall_forall. intros t. rewrite node_matches_at. intros (path & _ & Ht)%elem_of_flat_map.
  rewrite (parse_lines_at _ _ _ _ Hdb) in Ht. cbn [root geosite_empty] in Ht. rewrite node_at_default in Ht.
  apply elem_of_tags_at in Ht as (suffix & tag & Hin & _ & ->). unfold entries_of in Hin.
  apply list_elem_of_omap in Hin as (line & _ & Hl). destruct (parse_line line) as [o|] eqn:E; [|done]. subst o.
  unfold parse_line in E. repeat case_match; try done. simplify_eq.
  rename select (negb (is_valid_tag _) = false) into Hv. apply negb_false_iff in Hv.
  split; [by destruct (HttpProxy.trim s)|]. by apply plain_utf8, valid_tag_lower.
Qed.

(** ** From the resolver to the rules *)

Section Judge.
Context `{RuleLibs} `{Mmdb}.

Lemma ext_write ev k v : ext (meta (write_ext ev k v)) = ext_set (ext (meta ev)) k v.
Proof. reflexivity. Qed.
Lemma net_write ev k v : net (meta (write_ext ev k v)) = net (meta ev).
Proof. reflexivity. Qed.

(** Reads of an extension map written key by key. *)
Ltac ext_reads :=
  repeat first [rewrite ext_write | rewrite net_write | rewrite ext_get_set_eq | rewrite ext_get_set_ne by done].

Lemma with_ext_fields c ip op geo n tags :
  dst_ip (with_ext c ip op geo n tags) = ip /\ dst_geo (with_ext c ip op geo n tags) = geo
  /\ asn (with_ext c ip op geo n tags) = n /\ geosite_tags (with_ext c ip op geo n tags) = tags
  /\ hostname (with_ext c ip op geo n tags) = hostname c.
Proof. by split_and!. Qed.

(** C15: When a name resolves, the rules judge the first address of the answer, its
    country and AS number, and exactly the site tags of the name: packing and unpacking
    addresses, printing and parsing them, and joining and splitting tags lose nothing,
    and the enrichment never rejects what the resolver accepted. *)
Theorem rules_judge_the_resolved_address (shared : SharedHookCtx) (ev : Event) (k : KernelCtx) (host : string)
    (ans : ResolveAnswer) (sig : ResolutionSignals) (ip : HostIp) (more : list HostIp) (body : string)
    (Hhost : dst_host (net (meta ev)) = Some host) (Hne : host <> "")
    (Hres : sh_resolver shared (mkResolveRequest (ensure_trailing_dot host) QtA "forward_pipeline") = Ok (ans, sig))
    (Hips : omap record_ip (records ans) = ip :: more) (Hok : ip_ok ip)
    (Hsite : geosite_parse body = Ok (sh_geosite shared))
    (Hasn : 0 <= geo_asn (geoip_lookup (sh_geoip shared) (rule_ip ip)) < 2 ^ 32)
    (Hkeys : NoDup (ext (meta ev)).*1)
    (Hsrc : forall s, src_ip (net (meta ev)) = Some s -> is_Some (parse_host_ip s))
    (Hproto : net_protocol (net (meta ev)) = Some "tcp" \/ net_protocol (net (meta ev)) = Some "udp") :
  exists ev1 ev2 rctx,
    resolve_or_recover (Some shared) ev k = (Continue, ev1, k)
    /\ enrich_geo_asn (Some shared) ev1 k = (Continue, ev2, k)
    /\ event_rule_ctx ev2 = Ok rctx
    /\ dst_ip rctx = Some (rule_ip ip)
    /\ dst_geo rctx = Some (country (geoip_lookup (sh_geoip shared) (rule_ip ip)))
    /\ asn rctx = Some (geo_asn (geoip_lookup (sh_geoip shared) (rule_ip ip)))
    /\ geosite_tags rctx = geosite_lookup (sh_geosite shared) host
    /\ hostname rctx = Some host.
Proof.
  unfold resolve_or_recover. rewrite Hhost. unfold resolve_forward. destruct host as [|a host]; [done|]. set (h := String a host) in *.
  cbn [str_is_empty h]. fold h. rewrite Hres. unfold pack_records. rewrite Hips. cbn [lookup list_lookup mbind list_bind].
  set (ev1 := write_ext (write_ext (write_ext (write_ext ev "dst_ips" _) _ _) _ _) _ _).
  unfold enrich_geo_asn, enrich. exists ev1. unfold ext_bytes at 1.
  assert (Hb : ext_get (ext (meta ev1)) "dst_ips" = Some (MBytes (pack_ip ip ++ (more ≫= pack_ip)))).
  { unfold ev1. ext_reads. done. }
  rewrite Hb, decode_packed by done. replace (net (meta ev1)) with (net (meta ev)) by (unfold ev1; by ext_reads).
  rewrite Hhost. set (geo := geoip_lookup _ _). set (ev2 := write_ext (write_ext (write_ext ev1 _ _) _ _) _ _).
  exists ev2. unfold event_rule_ctx. replace (net (meta ev2)) with (net (meta ev)) by (unfold ev2, ev1; by ext_reads).
  set (src := match src_ip _ with Some _ => _ | None => _ end). assert (Hs : exists o, src = Ok o).
  { unfold src. destruct (src_ip _) as [s|]; [|eauto]. destruct (Hsrc s eq_refl) as [i ->]. eauto. }
  destruct Hs as [o ->]. assert (Hf : exists f, match net_protocol (net (meta ev)) with
    | Some "tcp" => Ok Tcp | Some "udp" => Ok Udp | Some _ => Err (mkReason "invalid_transport_family" None)
    | None => Err (mkReason "missing_transport_family" None) end = Ok f) by (destruct Hproto as [-> | ->]; eauto).
  destruct Hf as [f ->].
  assert (Hip : ext_get (ext (meta ev2)) "dst_ip_primary" = Some (MString (show_host_ip ip))) by (unfold ev2, ev1; by ext_reads).
  rewrite read_entries_get.
  2: { unfold ev2, ev1. rewrite !ext_write. by repeat apply ext_set_keys_nodup. }
  2: { rewrite Hip. intros s [= <-]. rewrite parse_show_host_ip by done. eauto. }
  eexists. split; [done|]. split; [done|]. split; [done|]. unfold ctx_of. rewrite Hip.
  replace (ext_get (ext (meta ev2)) "geo_country") with (Some (MString (country geo))) by (unfold ev2; by ext_reads).
  replace (ext_get (ext (meta ev2)) "asn") with (Some (MU64 (geo_asn geo))) by (unfold ev2; by ext_reads).
  replace (ext_get (ext (meta ev2)) "geosite_tags") with (Some (MBytes (geosite_lookup_packed (sh_geosite shared) h)))
    by (unfold ev2; by ext_reads).
  destruct (with_ext_fields (mkRuleCtx o None (dst_port (net (meta ev))) (Some f) None None None None None None None (Some h) None None
    None (auth_user (meta ev2)) None None []) (Some (rule_ip ip))
    (or_else (str_of (ext_get (ext (meta ev2)) "operation")) None) (Some (country geo)) (Some (geo_asn geo))
    (geosite_lookup (sh_geosite shared) h)) as (H1 & H2 & H3 & H4 & H5).
  cbn [str_of mbind option_bind u64_of bytes_of fmap option_fmap option_map or_else default from_option].
  rewrite parse_show_host_ip by done. cbn [fmap option_fmap option_map or_else].
  unfold Numbers.as_u32. rewrite Z.mod_small by done. rewrite tags_unpacked by (by eapply parsed_tags_ok). by split_and!.
Qed.
End Judge.
