(* ===== verification/ForwardTheorems.v ===== *)
(** The choice of the exit in the forward pipeline: the effects of the rules' actions, the
    encoding of cost biases, the ranking of configured exits, and the reverse map. *)
From S2P Require Import Prelude Numbers NetAddr Floats Schedulers Rules RulesFacts RuleYaml RuleYamlFacts.
From S2P Require Import Geosite StateM Resolver ResolverRun ResolverFacts Config ConfigValidate KernelRegistry Pipeline.
From S2P Require Import Hooks Forward ForwardRun ForwardFacts.
Local Open Scope string_scope.
Local Open Scope Z_scope.

(** ** Actions *)

Section Actions.
Context `{RuleParsers} `{Mmdb}.

(** The leaves of an action, applied one after the other. *)
Definition apply_leaves (l : list Action) (ev : Event) : Event := foldl (fun ev a => (apply_action a ev).2) ev l.

Lemma apply_leaves_of (a : Action) : forall ev,
  validate_forward_action a = Ok tt -> existsb is_deny (leaves a) = false -> apply_action a ev = (Continue, apply_leaves (leaves a) ev).
Proof.
  induction a as [a Ha|l IH] using action_ind; intros ev Hv Hd.
  { destruct a as [| | | |[]| |l|]; try done. by destruct (Ha l). }
  cbn [validate_forward_action] in Hv. apply try_each_ok in Hv. revert ev Hd.
  induction l as [|x l IHl]; intros ev Hd; [done|]. apply Forall_cons in Hv as [Hx Hl]. apply Forall_cons in IH as [IHx IH].
  rewrite apply_compose_cons. change (leaves (Compose (x :: l))) with (leaves x ++ leaves (Compose l))%list in *.
  rewrite existsb_app in Hd. apply orb_false_iff in Hd as [Hdx Hdl]. rewrite (IHx _ Hx Hdx).
  rewrite (IHl IH Hl _ Hdl). unfold apply_leaves. by rewrite foldl_app.
Qed.

(** The route group after the leaves: the last one they name, or the old one. *)
Definition group_after (old : option string) (l : list Action) : option string :=
  foldl (fun acc a => match a with SetRouteGroup g => Some g | _ => acc end) old l.

Lemma leaf_not_compose (b : Action) : forall a xs, a ∈ leaves b -> a <> Compose xs.
Proof.
  induction b as [b Hb|l IH] using action_ind; intros a xs Ha.
  - destruct b; cbn in Ha; try (apply list_elem_of_singleton in Ha; by subst). by destruct (Hb actions).
  - cbn [leaves] in Ha. apply list_elem_of_In, in_flat_map in Ha as (x & Hx%list_elem_of_In & Ha%list_elem_of_In).
    rewrite Forall_forall in IH. by eapply IH.
Qed.

Lemma leaves_group l : forall ev, (forall a, a ∈ l -> forall xs, a <> Compose xs) ->
  policy_route_group (meta (apply_leaves l ev)) = group_after (policy_route_group (meta ev)) l.
Proof.
  unfold apply_leaves, group_after. induction l as [|a l IH]; intros ev Hl; cbn; [done|].
  assert (Hl' : forall b, b ∈ l -> forall xs, b <> Compose xs) by (intros; apply Hl; by right).
  specialize (Hl a ltac:(left)). destruct a as [| | | |[]| |xs|]; try (by rewrite IH). by destruct (Hl xs).
Qed.

(** A list with one setting at most of a kind, and the setting itself. *)
Lemma count_zero f l : count f l = 0%nat -> forall a, a ∈ l -> f a = false.
Proof.
  unfold count. intros Hc a Ha. destruct (f a) eqn:E; [|done].
  assert (Hin : In a (List.filter f l)) by (apply filter_In; split; [by apply list_elem_of_In|done]).
  destruct (List.filter f l); [done|]. discriminate.
Qed.

Lemma fold_one {A} (f : Action -> bool) (pick_ : A -> Action -> A) l x v :
  (count f l <= 1)%nat -> x ∈ l -> f x = true -> (forall acc a, f a = false -> pick_ acc a = acc) ->
  (forall acc, pick_ acc x = v) -> forall old, foldl pick_ old l = v.
Proof.
  intros Hc Hin Hx Hskip Hv old. apply list_elem_of_split in Hin as (l1 & l2 & ->).
  unfold count in Hc. rewrite List.filter_app, length_app in Hc. cbn [List.filter] in Hc. rewrite Hx in Hc. cbn [length] in Hc.
  rewrite foldl_app. cbn [foldl]. rewrite Hv.
  assert (Hz : count f l2 = 0%nat) by (unfold count; lia). clear Hc.
  pose proof (count_zero f l2 Hz) as H2. clear Hz. induction l2 as [|y l2 IH]; cbn; [done|].
  rewrite Hskip by (apply H2; left). apply IH. intros a Ha. apply H2. by right.
Qed.

Lemma fold_none {A} (f : Action -> bool) (pick_ : A -> Action -> A) l :
  (forall a, a ∈ l -> f a = false) -> (forall acc a, f a = false -> pick_ acc a = acc) -> forall old, foldl pick_ old l = old.
Proof.
  intros Hn Hskip. induction l as [|y l IH]; intros old; cbn; [done|]. rewrite Hskip by (apply Hn; left).
  apply IH. intros a Ha. apply Hn. by right.
Qed.

(** ** Cost biases *)

Definition bias_ok (b : Z) : bool :=
  let m := bias_multiplier b in
  SFleb (f32_lit 1 10) m && SFleb m (f32_of_z 10) && SFltb (f32_of_z 0) m && (effective_rtt m 0 =? 0).

Lemma bias_facts b : -9000 <= b <= 9000 -> bias_ok b = true.
Proof.
  intros Hb.
  assert (Hall : forallb (fun i => forallb (fun j => bias_ok (100 * i + j - 9000)) (seqZ 0 100)) (seqZ 0 180) = true
                 /\ bias_ok 9000 = true) by (vm_compute; split; reflexivity).
  destruct Hall as [Hall Hlast]. destruct (decide (b = 9000)) as [->|Hne]; [exact Hlast|].
  replace b with (100 * ((b + 9000) / 100) + (b + 9000) mod 100 - 9000) by (pose proof (Z.div_mod (b + 9000) 100); lia).
  set (i := (b + 9000) / 100).
  apply (forallb_range (fun j => bias_ok (100 * i + j - 9000)) 100); [|apply Z.mod_pos_bound; lia].
  apply (forallb_range (fun i => forallb (fun j => bias_ok (100 * i + j - 9000)) (seqZ 0 100)) 180); [exact Hall|].
  unfold i. split; [apply Z.div_pos; lia|apply Z.div_lt_upper_bound; lia].
Qed.

Lemma bias_facts_split b : -9000 <= b <= 9000 ->
  SFleb (f32_lit 1 10) (bias_multiplier b) = true
  /\ SFleb (bias_multiplier b) (f32_of_z 10) = true /\ SFltb (f32_of_z 0) (bias_multiplier b) = true
  /\ effective_rtt (bias_multiplier b) 0 = 0.
Proof.
  intros Hb%bias_facts. unfold bias_ok in Hb. apply andb_true_iff in Hb as [Hb He]. apply andb_true_iff in Hb as [Hb Hp].
  apply andb_true_iff in Hb as [Hl Hh]. apply Z.eqb_eq in He. auto.
Qed.

Definition clamp_bias (v : Z) : Z := Z.max (-9000) (Z.min v 9000).

Lemma encode_clamp v : encode_bias v = encode_bias (clamp_bias v) /\ -9000 <= clamp_bias v <= 9000.
Proof.
  assert (Hc : -9000 <= clamp_bias v <= 9000) by (unfold clamp_bias; lia). split; [|done].
  unfold encode_bias. fold (clamp_bias v). fold (clamp_bias (clamp_bias v)).
  replace (clamp_bias (clamp_bias v)) with (clamp_bias v); [done|]. unfold clamp_bias. lia.
Qed.

Lemma decode_encode v : decode_bias (encode_bias v) = clamp_bias v.
Proof.
  destruct (encode_clamp v) as [-> Hc]. generalize dependent (clamp_bias v). intros b Hb.
  assert (Hcl : Z.max (-9000) (Z.min b 9000) = b) by lia. unfold encode_bias. rewrite Hcl.
  assert (Hfit : forall z, -9000 <= z <= 9000 -> as_i32 z = z).
  { intros z Hz. unfold as_i32. rewrite Z.mod_small; lia. }
  assert (Hlow : forall z, 0 <= z <= 9000 -> Z.land z (Z.shiftl 1 63 - 1) = z /\ Z.shiftr z 63 = 0).
  { intros z Hz. rewrite Z.shiftl_1_l, Z.sub_1_r, <- Z.ones_equiv, Z.land_ones, Z.shiftr_div_pow2 by lia.
    split; [apply Z.mod_small|apply Z.div_small]; lia. }
  unfold decode_bias. destruct (Z.leb_spec 0 b).
  - destruct (Hlow b) as [Hm Hs]; [lia|]. rewrite Hm, Hs. by apply Hfit.
  - destruct (Hlow (- b)) as [Hm Hs]; [lia|]. rewrite Z.land_lor_distr_l, Z.shiftr_lor, Hm, Hs.
    change (Z.land (Z.lor (Z.shiftr (Z.shiftl 1 63) 63) 0) 1) with 1. change (1 =? 0) with false.
    change (Z.land (Z.shiftl 1 63) (Z.shiftl 1 63 - 1)) with 0. rewrite Z.lor_0_l, Z.opp_involutive.
    apply Hfit. lia.
Qed.

Definition bias_after (old : option Z) (l : list Action) : option Z :=
  foldl (fun acc a => match a with SetCostBias b => Some (encode_bias b) | _ => acc end) old l.

Lemma leaves_bias l : forall ev, (forall a, a ∈ l -> forall xs, a <> Compose xs) ->
  ext_u64 (apply_leaves l ev) "cost_bias" = bias_after (ext_u64 ev "cost_bias") l.
Proof.
  unfold apply_leaves, bias_after. induction l as [|a l IH]; intros ev Hl; cbn; [done|].
  assert (Hl' : forall b, b ∈ l -> forall xs, b <> Compose xs) by (intros; apply Hl; by right).
  specialize (Hl a ltac:(left)). destruct a as [| | | |[]| |xs|b]; try (by rewrite IH); [by destruct (Hl xs)|].
  rewrite IH by done. f_equal. unfold ext_u64. cbn. by rewrite ext_get_set_eq.
Qed.

Lemma decided_ok chain sets rctx reg :
  validate chain sets = Ok tt -> action_ok (decision_action (evaluate_with_trace chain rctx reg)).
Proof.
  unfold validate. rewrite !seq_ok, try_each_ok. intros (Hr & Hd & _). unfold evaluate_with_trace.
  apply validate_action_iff. generalize 0%nat. induction (rules chain) as [|r rs IH]; intros k; cbn; [done|].
  apply Forall_cons in Hr as [Hr Hrs]. destruct (eval_match _ _ _); [|by apply IH]. cbn.
  unfold validate_rule in Hr. rewrite !seq_ok in Hr. tauto.
Qed.
End Actions.

(** C16: On a chain that was validated for the forward pipeline, the hook does what the
    decided action says: it rejects with [denied_by_rule] exactly when the action denies;
    otherwise it continues, the exit is chosen from the route group the action names (or
    the old one), and the ranking reads back exactly the cost bias it sets. *)
Theorem rule_hook_applies_the_action `{RuleParsers} `{Mmdb} (shared : SharedHookCtx) (sets : list Ruleset) (ev : Event)
    (k : KernelCtx) (rctx : RuleCtx)
    (Hvalid : validate (sh_rule_chain shared) sets = Ok tt)
    (Hforward : validate_forward_actions (sh_rule_chain shared) = Ok tt)
    (Hctx : event_rule_ctx ev = Ok rctx) :
  let l := leaves (decision_action (evaluate_with_trace (sh_rule_chain shared) rctx (sh_rule_sets shared))) in
  if existsb is_deny l then (rule_chain_hook (Some shared) ev k).1.1 = reject "denied_by_rule"
  else exists ev', rule_chain_hook (Some shared) ev k = (Continue, ev', k)
    /\ (forall g, SetRouteGroup g ∈ l -> policy_route_group (meta ev') = Some g)
    /\ ((forall g, SetRouteGroup g ∉ l) -> policy_route_group (meta ev') = policy_route_group (meta ev))
    /\ (forall b, SetCostBias b ∈ l -> read_cost_bias ev' = b)
    /\ ((forall b, SetCostBias b ∉ l) -> read_cost_bias ev' = read_cost_bias ev).
Proof.
  cbv zeta. unfold rule_chain_hook. rewrite Hctx. set (a := decision_action _).
  assert (Hva : validate_forward_action a = Ok tt) by (by apply chain_action).
  destruct (existsb is_deny (leaves a)) eqn:Hd.
  { pose proof (forward_action_verdict a Hva ev) as Hv. rewrite Hd in Hv. by destruct (apply_action a ev). }
  rewrite (apply_leaves_of a ev Hva Hd). eexists. split; [done|].
  destruct (decided_ok (sh_rule_chain shared) sets rctx (sh_rule_sets shared) Hvalid) as (_ & Hleaf & _ & Hg & _ & Hb).
  fold a in Hleaf, Hg, Hb. pose proof (leaf_not_compose a) as Hnc. unfold read_cost_bias.
  rewrite leaves_group, leaves_bias by eauto. unfold group_after, bias_after. split_and!.
  - intros g Hin. by eapply (fold_one is_group); [..|intros ? []|].
  - intros Hn. apply (fold_none is_group); [|by intros ? []]. intros x Hx. destruct x; try done. by destruct (Hn g).
  - intros b Hin. rewrite (fold_one is_bias _ _ _ (Some (encode_bias b)) Hb Hin); [..|by intros ? []|done]; [|done].
    change (default 0 (Some (encode_bias b))) with (encode_bias b). rewrite decode_encode. rewrite Forall_forall in Hleaf. specialize (Hleaf _ Hin). cbn in Hleaf.
    unfold clamp_bias. lia.
  - intros Hn. f_equal. f_equal. apply (fold_none is_bias); [|by intros ? []]. intros x Hx. destruct x; try done.
    by destruct (Hn n).
Qed.

(** Whatever an action asks for, the bias the ranking reads is the value clamped to
    -9000..9000, the multiplier made of it lies between a tenth and ten and is positive, so
    that the division by it is always taken, and the effective round trip stays a [u64],
    and stays zero for an exit without a measured one. *)
Theorem cost_bias_is_bounded (v base : Z) :
  let b := decode_bias (encode_bias v) in
  b = clamp_bias v
  /\ SFleb (f32_lit 1 10) (bias_multiplier b) = true /\ SFleb (bias_multiplier b) (f32_of_z 10) = true
  /\ effective_rtt (bias_multiplier b) base
     = f64_to_u64 (f64_round (f64_div (f64_of_z base) (f64_of_f32 (bias_multiplier b))))
  /\ 0 <= effective_rtt (bias_multiplier b) base <= u64_max
  /\ effective_rtt (bias_multiplier b) 0 = 0.
Proof.
  cbv zeta. rewrite decode_encode. destruct (encode_clamp v) as [_ Hc]. destruct (bias_facts_split _ Hc) as (Hlo & Hhi & Hpos & H0).
  assert (He : effective_rtt (bias_multiplier (clamp_bias v)) base
    = f64_to_u64 (f64_round (f64_div (f64_of_z base) (f64_of_f32 (bias_multiplier (clamp_bias v)))))).
  { unfold effective_rtt. by rewrite Hpos. }
  split_and!; try done; rewrite He; apply f64_to_u64_range.
Qed.

(** A bias can erase the order of two round trips: the effective values are
    rounded to milliseconds. *)
Theorem large_bias_erases_rtt_order :
  effective_rtt (bias_multiplier 9000) 1 = effective_rtt (bias_multiplier 9000) 4
  /\ effective_rtt (bias_multiplier 0) 1 < effective_rtt (bias_multiplier 0) 4.
Proof. vm_compute. split; reflexivity. Qed.

(** ** The ranking of configured exits *)

Lemma sort_insert_map {A B} (f : A -> B) (leb : B -> B -> bool) x l :
  sort_insert leb (f x) (f <$> l) = f <$> sort_insert (fun a b => leb (f a) (f b)) x l.
Proof. induction l as [|y l IH]; cbn; [done|]. destruct (leb (f x) (f y)); cbn; [done|]. by rewrite IH. Qed.

Lemma sort_by_map {A B} (f : A -> B) (leb : B -> B -> bool) l :
  sort_by leb (f <$> l) = f <$> sort_by (fun a b => leb (f a) (f b)) l.
Proof. unfold sort_by. induction l as [|x l IH]; cbn; [done|]. rewrite IH. apply sort_insert_map. Qed.

Lemma sort_by_ext {A} (leb leb' : A -> A -> bool) l : (forall a b, leb a b = leb' a b) -> sort_by leb l = sort_by leb' l.
Proof.
  intros He. unfold sort_by. induction l as [|x l IH]; cbn; [done|]. rewrite IH. generalize (foldr (sort_insert leb') [] l) as r.
  induction r as [|y r IHr]; cbn; [done|]. by rewrite He, IHr.
Qed.

Section Hash.
Variable fx_write : Z -> list Z -> Z.

(** The order of exits with equal scores: by the hash alone. *)
Definition hash_order (flow : string) (ids : list string) : list string :=
  sort_by (fun a b => tiebreaker fx_write flow a <=? tiebreaker fx_write flow b) ids.

Lemma rank_equal_scores metrics flow pw s :
  Forall (fun m => (scored fx_write pw flow m).1.1 = s) metrics ->
  rank fx_write metrics flow pw = hash_order flow (em_id <$> metrics).
Proof.
  intros Hs. unfold rank.
  assert (He : scored fx_write pw flow <$> metrics = (fun i => (s, tiebreaker fx_write flow i, i)) <$> (em_id <$> metrics)).
  { rewrite <- list_fmap_compose. induction Hs as [|m l Hm _ IH]; cbn; [done|]. by rewrite IH, <- Hm. }
  rewrite He, sort_by_map, <- list_fmap_compose. unfold hash_order.
  rewrite (list_fmap_ext _ id), list_fmap_id by done. apply sort_by_ext. intros a b. cbn. rewrite Z.ltb_irrefl, Z.eqb_refl. done.
Qed.

Lemma configured_metrics cfg family g flow m d :
  exists s, Forall (fun x => (scored fx_write 0 flow x).1.1 = s)
              (exit_metric m d <$> usable family g (candidates_from_egresses cfg)).
Proof.
  exists (score_compute (mkInputs (effective_rtt m (if 0 <? d then d else 0)) 0 (f64_of_z 1) 1 None None)).
  apply Forall_forall. intros x (c & -> & Hc)%list_elem_of_fmap.
  apply list_elem_of_In, filter_In in Hc as [Hc _]. apply filter_In in Hc as [Hc%list_elem_of_In _].
  apply list_elem_of_fmap in Hc as (e & -> & _). destruct (pipeline_capability_bits e). cbn. unfold base_rtt. cbn.
  by destruct (0 <? d).
Qed.
End Hash.

(** The exits of a configuration are all entered without measurements, so the
    choice among those that serve the flow's family and route group is made by the hash of
    the flow and the exit alone: neither a cost bias nor the DNS round trip has a part in
    it, and a flow keeps its exit. *)
Theorem configured_exit_is_by_hash `{RuleParsers} `{Mmdb} (fx_write : Z -> list Z -> Z) (cfg : Config) (shared : SharedHookCtx)
    (ev : Event) (family : string)
    (Hcands : sh_candidates shared = candidates_from_egresses cfg)
    (Hfamily : net_protocol (net (meta ev)) = Some family)
    (Hknown : str_mem family ["tcp"; "udp"] = true) :
  let flow := default "flow:anon" (trace_flow_id (meta ev)) in
  let exits := cand_sink_id <$> usable family (policy_route_group (meta ev)) (candidates_from_egresses cfg) in
  pick fx_write shared ev
  = match hash_order fx_write flow exits with top :: _ => Accept top | [] => reject "no_usable_exit" end.
Proof.
  cbv zeta. unfold pick. rewrite Hfamily, Hknown, Hcands.
  set (flow := default _ _). set (g := policy_route_group _). set (m := bias_multiplier _). set (d := read_dns_rtt ev).
  destruct (configured_metrics fx_write cfg family g flow m d) as [s Hs]. apply rank_equal_scores in Hs.
  rewrite <- list_fmap_compose in Hs. cbn [exit_metric em_id compose] in Hs.
  change (em_id ∘ exit_metric m d) with cand_sink_id in Hs.
  destruct (usable family g (candidates_from_egresses cfg)) as [|c cs]; [done|]. by rewrite <- Hs.
Qed.

(** * The reverse map *)

Local Open Scope string_scope.
Local Open Scope Z_scope.

Section Queries.
Context `{RuleLibs} {W : Type} `{!ResolverNet W}.

Definition no_reverse (s : @RState W) : Prop := forall c, rs_cache s = Some c -> reverse_map c = ∅.

Lemma offline_no_reverse : offline no_reverse.
Proof. intros s f Hs. by split_and!. Qed.
Hint Resolve offline_no_reverse : core.

Lemma finish_no_reverse t res : keeps no_reverse (finish t res).
Proof. intros s Hs. rewrite run_finish. by do 2 eexists. Qed.

Lemma write_no_reverse key a : keeps no_reverse (cache_write key a).
Proof.
  intros s Hs. destruct (rs_cache s) as [c|] eqn:E.
  - destruct (cache_write_run key a c s E) as (s' & -> & w0 & _ & Hc). do 2 eexists. split; [done|].
    intros c'. rewrite Hc. intros [= <-]. exact (Hs c E).
  - unfold cache_write. rewrite run_bind, run_gets, E. by do 2 eexists.
Qed.
Hint Resolve finish_no_reverse write_no_reverse : keeps.

Lemma telemetry_no_reverse key sig src res : keeps no_reverse (apply_telemetry key sig src res).
Proof. unfold apply_telemetry. destruct res as [[a tel]|e]; [|auto with keeps]. apply keeps_bind; auto with keeps. Qed.
Hint Resolve telemetry_no_reverse : keeps.

Lemma pool_no_reverse r p name proj req key sig : keeps no_reverse (query_pool r p name proj req key sig).
Proof.
  unfold query_pool. destruct (mode p) as [|policy|policy].
  - apply keeps_bind; [auto with keeps|]. intros [a|e]; [|auto with keeps]. apply keeps_bind; auto with keeps.
  - destruct (has_opener r); [|auto with keeps]. apply keeps_bind; [|auto with keeps].
    apply keeps_upstream; auto with keeps.
  - destruct (has_stream_opener r); [|auto with keeps]. apply keeps_bind; [|auto with keeps].
    apply keeps_upstream; auto with keeps.
Qed.

Lemma special_no_reverse req q m : special_use req q = Some m -> keeps no_reverse m.
Proof.
  unfold special_use. destruct (is_special_use_localhost q); [intros [= <-]; auto with keeps|].
  destruct (is_special_use_invalid_or_reserved q); [intros [= <-]; auto with keeps|].
  destruct (is_rfc6303_reverse q); [|done]. intros [= <-]. apply keeps_bind; auto with keeps.
Qed.

Lemma resolve_no_reverse r req : keeps no_reverse (resolve r req).
Proof.
  unfold resolve. apply keeps_bind.
  { intros s Hs. destruct (fresh_hit_run (normalize_qname (qname req), qtype req) s) as (o & w & -> & _). by do 2 eexists. }
  intros [hit|]; [auto with keeps|]. destruct (special_use req _) as [m|] eqn:Es; [by eapply special_no_reverse|].
  destruct (evaluate_rules r req _) as [[proj sig]|sig]; [|auto with keeps].
  destruct (pools r !! _) as [p|]; [|auto with keeps]. apply pool_no_reverse.
Qed.

(** The states a resolver passes through: queries, one after the other, and the world
    going on between them. *)
Inductive served (r : Resolver) (s0 : @RState W) : RState -> Prop :=
| served_start : served r s0 s0
| served_query s req res s' : served r s0 s -> resolve r req s = Some (res, s') -> served r s0 s'
| served_time s w : served r s0 s ->
    served r s0 (mkRState (rs_cache s) (rr_counters s) (conn_entries s) w (log s)).

Lemma served_no_reverse r s0 s : no_reverse s0 -> served r s0 s -> no_reverse s.
Proof.
  intros H0. induction 1 as [|s req res s' _ IH E|s w _ IH]; [done| |by apply (offline_no_reverse s id)].
  destruct (resolve_no_reverse r req s IH) as (x & s2 & E' & Hs). rewrite E in E'. by injection E' as _ <-.
Qed.
End Queries.

(** In an assembled runtime, after any queries, the resolver's handle gives what
    the resolver returns, which it always does, and the reverse map is empty: an event
    with an address and no name passes the hook with that address and without a name. *)
Theorem addresses_are_never_named `{RuleParsers} `{Mmdb} `{Files} {W} `{!ResolverNet W} (fx_write : Z -> list Z -> Z)
    (cfg : Config) (base : string) (w : W) (r : Resolver) (s0 s : RState) (mk : RState -> PipelineRuntime)
    (ev : Event) (k : KernelCtx) (ip_str : string) (ip : HostIp)
    (Hbuild : build_pipeline_runtime fx_write cfg base w = Some (Ok (r, s0, mk))) (Hserved : served r s0 s)
    (Hhost : dst_host (net (meta ev)) = None) (Hext : ext_string ev "dst_ip_primary" = Some ip_str)
    (Hip : parse_host_ip ip_str = Some ip) :
  (forall req, exists s', resolve r req s = Some (sh_resolver (rt_shared (mk s)) req, s'))
  /\ (forall ip', sh_reverse (rt_shared (mk s)) ip' = None)
  /\ resolve_or_recover (Some (rt_shared (mk s))) ev k
     = (Continue, write_ext (write_ext ev "resolution_mode" (MString "passthrough_ip")) "dst_ips" (MBytes (pack_ip ip)), k).
Proof.
  destruct (build_assembled fx_write cfg base w r s0 mk Hbuild) as (p & rchain & src & spec & gi & gs & chain & sets & _ & [_ _ Hm] & Hr).
  assert (Hstart : no_reverse s0).
  { unfold build_default_resolver, builder_build in Hr. destruct (builder_validate _); [|done]. injection Hr as _ <-.
    intros c. cbn. destruct rchain as [[? ?]|]; intros [= <-]; unfold build_dns_cache;
      (destruct (dns_cache_cfg p) as [dc|]; [destruct (serve_stale_window_ms dc)|]); done. }
  pose proof (served_no_reverse r s0 s Hstart Hserved) as Hs. rewrite (Hm s). cbn [rt_shared sh_resolver sh_reverse].
  assert (Hrev : forall ip', reverse_of s ip' = None).
  { intros ip'. unfold reverse_of. destruct (rs_cache s) as [c|] eqn:Ec; [|done]. destruct (clock (world s)) as [t w'].
    unfold lookup_reverse. by rewrite (Hs c Ec), lookup_empty. }
  split_and!; [|done|].
  - intros req. unfold handle_of. destruct (resolve_no_reverse r req s Hs) as (res & s' & -> & _). by exists s'.
  - unfold resolve_or_recover. rewrite Hhost, Hext. unfold resolve_recover. rewrite Hip. cbn [sh_reverse]. by rewrite Hrev.
Qed.
