(* ===== verification/ForwardDemo.v ===== *)
(** A node whose pipeline sends web traffic to its service and denies advertising sites:
    the assembled runtime, and the forward theorems at it. *)
From S2P Require Import Prelude Numbers NetAddr Floats Rules RulesFacts RuleYaml RuleYamlFacts Geosite StateM.
From S2P Require Import Resolver ResolverRun ResolverFacts Config ConfigValidate ConfigFacts ConfigTheorems KernelRegistry Pipeline.
From S2P Require Import Hooks Forward ForwardRun ForwardFacts ForwardTheorems.
Local Open Scope string_scope.
Local Open Scope Z_scope.

Module ForwardDemo.
Import DemoYaml.

(** Databases that know one country and one network. *)
#[export] Instance demo_mmdb : Mmdb := {|
  Reader := unit;
  open_readfile _ := Ok tt;
  lookup_country _ _ := Some (Some "US");
  lookup_asn _ _ := Some (Some 15133, Some "EDGECAST")
|}.

Definition rules_document : Yaml :=
  str_map
    [("rules", YSequence
        [str_map [("id", YString "ads"); ("geosite_tag", YString "ads"); ("action", YString "deny")];
         str_map [("id", YString "web"); ("dst_port", YPosInt 443); ("network", YString "tcp");
                  ("action", str_map [("compose", YSequence [str_map [("set_route_group", YString "web")];
                                                             str_map [("set_cost_bias", YNegInt (-100))]])])]]);
     ("default", YString "allow")].

#[export] Instance demo_files : Files := {|
  fs_read p := if bool_decide (p = "/etc/mesh/rules.yaml") then FileText "rules"
               else if bool_decide (p = "/etc/mesh/sites.txt") then FileText demo_list else FileMissing;
  yaml_from_str _ := Ok rules_document
|}.

Definition fx (h : Z) (bs : list Z) : Z := foldl (fun a b => (Z.lxor a b * 0x517cc1b727220a95) mod 2 ^ 64) h bs.

(** The configuration of node a, with site tags and databases. *)
Definition pipeline : PipelineCfg :=
  mkPipelineCfg None (Some "rules.yaml") None (Some (mkGeoIpCfg (Some "c.mmdb") (Some "a.mmdb"))) (Some (mkGeositeCfg (Some "sites.txt")))
    (Some (mkDnsCacheCfg (Some 1000))) (mkSourceCfg (Some 1%nat) None "application/source" default_pipeline_source_initial_writes).

Definition cfg : Config :=
  let c := DemoConfigs.cfg_a in
  mkConfig (cfg_node c) (cfg_peers c) (cfg_logging c) (cfg_health c) (cfg_metrics c) (cfg_operator c) (cfg_scheduler c)
    (cfg_ingresses c) (cfg_egresses c) (Some pipeline).

Definition w : ResolverFacts.Demo.DemoNet := ResolverFacts.Demo.mkDemo 0 [].
#[export] Existing Instance ResolverFacts.Demo.demo_net.

Definition built : option (result (Resolver * RState * (RState -> PipelineRuntime)) AssemblyError) :=
  build_pipeline_runtime fx cfg "/etc/mesh" w.

Definition web_event (host : option string) (more : list (string * MetaValue)) : Event :=
  mkEvent [] (mkTypedMap (mkNetMeta (Some "10.1.2.3") host (Some 443) (Some "tcp"))
    (transport TypedMap_default) None None (Some "flow:7") more).

(** The parts of the runtime; the defaults are never used. *)
Definition res : Resolver := match built with Some (Ok (r, _, _)) => r | _ => mkResolver ∅ None None None false false 0 end.
Definition state : RState := match built with Some (Ok (_, s, _)) => s | _ => mkRState None ∅ ∅ w [] end.
Definition runtime : RState -> PipelineRuntime :=
  match built with
  | Some (Ok (_, _, mk)) => mk
  | _ => fun s => mkRuntime (mkShared (handle_of res s) (reverse_of s) geoip_empty geosite_empty (mkChain [] Deny) ∅ [])
                    (fun _ => forward_registry fx "" (mkSourceSpec "" "" []) [] None) ""
  end.
Definition view (r : option (result PipelineRun PipelineRuntimeError)) : option (Verdict * list string) :=
  match r with Some (Ok run) => Some (run_verdict run, (ext (meta (run_event run))).*1) | _ => None end.

Definition is_built : bool := match built with Some (Ok _) => true | _ => false end.

Lemma built_ok : build_pipeline_runtime fx cfg "/etc/mesh" w = Some (Ok (res, state, runtime)).
Proof.
  fold built. assert (Hb : is_built = true) by (vm_compute; reflexivity). unfold is_built, res, state, runtime in *.
  by destruct built as [[[[r s] mk]|]|].
Qed.

(** An ordinary site goes to the service, an advertising one is denied, an address keeps
    its own. *)
Example forward_runs :
  view (run_pipeline_event (runtime state) (web_event (Some "example.org") []))
  = Some (Accept "svc", ["dst_ips"; "dst_ip_primary"; "dns_rtt_ms"; "resolution_mode"; "geo_country"; "asn"; "geosite_tags"; "cost_bias"])
  /\ fst <$> view (run_pipeline_event (runtime state) (web_event (Some "stats.doubleclick.net") []))
     = Some (reject "denied_by_rule")
  /\ fst <$> view (run_pipeline_event (runtime state) (web_event None [("dst_ip_primary", MString "192.0.2.7")]))
     = Some (Accept "svc").
Proof. vm_compute. auto. Qed.
End ForwardDemo.
Import DemoYaml ForwardDemo.

Lemma configured_registry_verifies_witness : exists src spec,
  pipeline_source_from_config cfg pipeline = Ok (src, spec)
  /\ verify (forward_registry fx src spec (cfg_egresses cfg) None) = Ok tt.
Proof.
  assert (Hcfg : validate_config cfg = Ok tt) by (vm_compute; reflexivity).
  destruct (configured_registry_verifies fx cfg pipeline None Hcfg eq_refl) as (src & spec & Hs & Hv).
  exists src, spec. split; [exact Hs|]. apply Hv. done.
Defined.

Lemma forward_run_ends_in_a_verdict_witness : exists run id,
  run_pipeline_event (runtime state) (web_event (Some "example.org") []) = Some (Ok run) /\ run_verdict run = Accept id
  /\ exists e, e ∈ cfg_egresses cfg /\ egress_id e = id /\ suits (run_event run) e.
Proof.
  destruct (forward_run_ends_in_a_verdict fx cfg "/etc/mesh" w res state runtime built_ok state (web_event (Some "example.org") []))
    as (run & Hr & Hv).
  destruct forward_runs as [Hd _]. unfold view in Hd. rewrite Hr in Hd. injection Hd as Hd _. rewrite Hd in Hv.
  exists run, "svc". split; [exact Hr|]. split; [exact Hd|exact Hv].
Defined.

Lemma addresses_are_never_named_witness :
  let ev := web_event None [("dst_ip_primary", MString "192.0.2.7")] in
  resolve_or_recover (Some (rt_shared (runtime state))) ev (mkKernelCtx [])
  = (Continue, write_ext (write_ext ev "resolution_mode" (MString "passthrough_ip")) "dst_ips" (MBytes [4; 192; 0; 2; 7]), mkKernelCtx []).
Proof.
  refine (proj2 (proj2 (addresses_are_never_named fx cfg "/etc/mesh" w res state state runtime
    (web_event None [("dst_ip_primary", MString "192.0.2.7")]) (mkKernelCtx []) "192.0.2.7" (Ip4 [192; 0; 2; 7])
    built_ok (served_start res state) eq_refl eq_refl _))). vm_compute. reflexivity.
Defined.

Definition shared : SharedHookCtx := rt_shared (runtime state).

Lemma configured_exit_is_by_hash_witness :
  pick fx shared (web_event (Some "example.org") []) = Accept "wan1".
Proof.
  pose proof (configured_exit_is_by_hash fx cfg shared (web_event (Some "example.org") []) "tcp") as Hp.
  rewrite Hp; vm_compute; reflexivity.
Defined.

Definition cn_event : Event := web_event (Some "www.example.com.cn") [].
Definition cn_answer : ResolveAnswer * ResolutionSignals :=
  match sh_resolver shared (mkResolveRequest "www.example.com.cn." QtA "forward_pipeline") with
  | Ok x => x
  | Err (_, sig) => (mkAnswer [] SrcSystem false 0 0, sig)
  end.

Lemma rules_judge_the_resolved_address_witness : exists ev1 ev2 rctx,
  resolve_or_recover (Some shared) cn_event (mkKernelCtx []) = (Continue, ev1, mkKernelCtx [])
  /\ enrich_geo_asn (Some shared) ev1 (mkKernelCtx []) = (Continue, ev2, mkKernelCtx [])
  /\ event_rule_ctx ev2 = Ok rctx
  /\ dst_ip rctx = Some (rule_ip (Ip4 [93; 184; 216; 34])) /\ dst_geo rctx = Some "US" /\ asn rctx = Some 15133
  /\ geosite_tags rctx = ["cn"; "cn"] /\ hostname rctx = Some "www.example.com.cn".
Proof.
  refine (rules_judge_the_resolved_address shared cn_event (mkKernelCtx []) "www.example.com.cn" cn_answer.1 cn_answer.2
    (Ip4 [93; 184; 216; 34]) [] demo_list eq_refl _ _ _ _ _ _ _ _ _).
  - discriminate.
  - vm_compute. reflexivity.
  - vm_compute. reflexivity.
  - split; [reflexivity|]. unfold bytes_ok, is_byte. repeat (apply Forall_cons; split; [lia|]). by apply Forall_nil.
  - vm_compute. reflexivity.
  - vm_compute. split; [discriminate|reflexivity].
  - constructor.
  - intros s [= <-]. vm_compute. eexists. reflexivity.
  - left. reflexivity.
Defined.

Definition web_ctx : RuleCtx :=
  match event_rule_ctx (web_event (Some "example.org") []) with
  | Ok c => c
  | Err _ => mkRuleCtx None None None None None None None None None None None None None None None None None None []
  end.

Lemma rule_hook_applies_the_action_witness : exists ev',
  rule_chain_hook (Some shared) (web_event (Some "example.org") []) (mkKernelCtx []) = (Continue, ev', mkKernelCtx [])
  /\ policy_route_group (meta ev') = Some "web" /\ read_cost_bias ev' = -100.
Proof.
  assert (Hl : leaves (decision_action (evaluate_with_trace (sh_rule_chain shared) web_ctx (sh_rule_sets shared)))
               = [SetRouteGroup "web"; SetCostBias (-100)]) by (vm_compute; reflexivity).
  pose proof (rule_hook_applies_the_action shared [] (web_event (Some "example.org") []) (mkKernelCtx []) web_ctx) as Hh.
  rewrite Hl in Hh. cbv beta zeta in Hh. cbn [existsb is_deny orb] in Hh.
  destruct Hh as (ev' & He & Hg & _ & Hb & _); [vm_compute; reflexivity..|].
  exists ev'. split; [exact He|]. split; [apply Hg|apply Hb]; [left|right; left].
Defined.
