(* ===== verification/UdpLoop.v ===== *)
(** The UDP packet loop (crates/mesh-bus-core/src/transport/udp_loop): bounded queues,
    pacing, the path-MTU guard, and the send and receive loops over the Linux batch
    calls.  The system calls are parameters ([UdpSys]); a wait for readiness that is not
    over yet is [None].  Then what is made of a path's statistics (link_evidence.rs), and
    the check of fragments (transport/transform). *)
From stdpp Require Import sorting.
From S2P Require Import Prelude Numbers NetAddr Floats.
Local Open Scope Z_scope.

(** [a.saturating_add(b)] and [a as u32] clamped, of a [u32] *)
Definition u32_max : Z := 2 ^ 32 - 1.
Definition u32_sat_add (a b : Z) : Z := Z.min (a + b) u32_max.
Definition min_u32 (n : Z) : Z := Z.min n u32_max.

(** ** Queues (queue.rs) *)

Record OutboundDatagram := mkOutbound { destination : SocketAddr; out_payload : list Z }.
Record InboundDatagram := mkInbound { source_addr : SocketAddr; in_payload : list Z; received_at : Z }.

Definition OUTBOUND_QUEUE_CAPACITY : nat := 1024.

Record QueueFull := mkQueueFull { capacity : nat }.

Record DatagramQueues := mkQueues {
  outbound : list OutboundDatagram;
  inbound : list InboundDatagram;
  outbound_bytes : Z
}.

Definition queues_default : DatagramQueues := mkQueues [] [] 0.

Definition usize_max : Z := 2 ^ 64 - 1.

Definition enqueue_outbound (q : DatagramQueues) (d : OutboundDatagram) : result unit QueueFull * DatagramQueues :=
  if (OUTBOUND_QUEUE_CAPACITY <=? length (outbound q))%nat then (Err (mkQueueFull OUTBOUND_QUEUE_CAPACITY), q)
  else (Ok tt, mkQueues (outbound q ++ [d])%list (inbound q)
                 (Z.min (outbound_bytes q + Z.of_nat (length (out_payload d))) usize_max)).

Definition drain_outbound (q : DatagramQueues) : list OutboundDatagram * DatagramQueues :=
  (outbound q, mkQueues [] (inbound q) 0).

Definition push_inbound (q : DatagramQueues) (d : InboundDatagram) : DatagramQueues :=
  mkQueues (outbound q) (inbound q ++ [d])%list (outbound_bytes q).

Definition queues_drain_inbound (q : DatagramQueues) : list InboundDatagram * DatagramQueues :=
  (inbound q, mkQueues (outbound q) [] (outbound_bytes q)).

(** ** Pacing (pacing.rs), in microseconds, and the path MTU (pmtu.rs) *)

Record Pacer := mkPacer { rate_bytes_per_sec : Z }.

Definition delay_for (p : Pacer) (bytes : Z) : Z :=
  if (rate_bytes_per_sec p =? 0) || (bytes =? 0) then 0
  else Z.min (bytes * 1000000 / rate_bytes_per_sec p) (2 ^ 64 - 1).

Definition CONSERVATIVE_PMTU : Z := 1232.

Definition clamp_to_pmtu (len : Z) : Z := Z.min len CONSERVATIVE_PMTU.

(** ** Send plans (batch_linux.rs) *)

Definition MAX_MMSG : nat := 32.
Definition MAX_GSO_SEGMENTS : nat := 64.
Definition GSO_PAYLOAD_BYTES : Z := 65507.

Record GsoOutcome := mkGso { segments : nat; segment_size : Z }.

Definition same_shape (first d : OutboundDatagram) : bool :=
  bool_decide (destination d = destination first) && (length (out_payload d) =? length (out_payload first))%nat.

(** The loop of [gso_prefix]: how many datagrams of the shape of [first] fit. *)
Fixpoint gso_run (first : OutboundDatagram) (l : list OutboundDatagram) (segs : nat) (bytes : Z) : nat :=
  match l with
  | [] => segs
  | d :: l =>
      if negb (same_shape first d) then segs
      else
        let next := bytes + Z.of_nat (length (out_payload first)) in
        if GSO_PAYLOAD_BYTES <? next then segs else gso_run first l (S segs) next
  end.

Definition gso_prefix (batch : list OutboundDatagram) : option GsoOutcome :=
  match batch with
  | [] => None
  | first :: _ =>
      let size := Z.of_nat (length (out_payload first)) in
      if (size =? 0) || (2 ^ 16 - 1 <? size) then None
      else
        let segs := gso_run first (take MAX_GSO_SEGMENTS batch) 0 0 in
        if (segs <? 2)%nat then None else Some (mkGso segs size)
  end.

(** ** System calls *)

Inductive SysError := WouldBlock | Errno (code : Z) | ShortSend.

Class UdpSys (W : Type) := {
  (** wait until the socket can be written, or read *)
  sys_writable : W -> option (result unit SysError * W);
  sys_readable : W -> option (result unit SysError * W);
  (** [sendmsg] of the datagrams as one super-buffer *)
  sys_sendmsg : list OutboundDatagram -> W -> result unit SysError * W;
  (** [sendmmsg]: how many of the datagrams were accepted *)
  sys_sendmmsg : list OutboundDatagram -> W -> result nat SysError * W;
  (** [recvmmsg] of [MAX_MMSG] datagrams at most; no address for an unknown family *)
  sys_recvmmsg : W -> result (list (option SocketAddr * list Z)) SysError * W;
  sys_now_ms : W -> Z * W
}.

Definition EINVAL : Z := 22.
Definition EIO : Z := 5.
Definition EMSGSIZE : Z := 90.

Definition is_gso_fallback_error (e : SysError) : bool :=
  match e with Errno c => (c =? EINVAL) || (c =? EIO) || (c =? EMSGSIZE) | _ => false end.

(** ** The endpoint (socket.rs) *)

Record BatchIoStats := mkBatchStats {
  send_syscalls : Z;
  send_datagrams : Z;
  recv_syscalls : Z;
  recv_datagrams : Z;
  gso_send_syscalls : Z;
  gso_send_datagrams : Z;
  gso_fallbacks : Z;
  send_errors : Z
}.

Record UdpEndpoint := mkEndpointState {
  counters : BatchIoStats;
  gso_disabled : bool;
  last_gso_segment_size : Z
}.

Definition endpoint_start : UdpEndpoint := mkEndpointState (mkBatchStats 0 0 0 0 0 0 0 0) false 0.

Definition current_gso_segment_size (e : UdpEndpoint) : option Z :=
  if last_gso_segment_size e =? 0 then None else Some (last_gso_segment_size e).

Definition count_send (n g : nat) (c : BatchIoStats) : BatchIoStats :=
  mkBatchStats (as_u64 (send_syscalls c + 1)) (as_u64 (send_datagrams c + Z.of_nat n)) (recv_syscalls c) (recv_datagrams c)
    (as_u64 (gso_send_syscalls c + if (0 <? g)%nat then 1 else 0)) (as_u64 (gso_send_datagrams c + Z.of_nat g))
    (gso_fallbacks c) (send_errors c).
Definition count_recv (n : nat) (c : BatchIoStats) : BatchIoStats :=
  mkBatchStats (send_syscalls c) (send_datagrams c) (as_u64 (recv_syscalls c + 1)) (as_u64 (recv_datagrams c + Z.of_nat n))
    (gso_send_syscalls c) (gso_send_datagrams c) (gso_fallbacks c) (send_errors c).
Definition count_fallback (c : BatchIoStats) : BatchIoStats :=
  mkBatchStats (send_syscalls c) (send_datagrams c) (recv_syscalls c) (recv_datagrams c)
    (gso_send_syscalls c) (gso_send_datagrams c) (as_u64 (gso_fallbacks c + 1)) (send_errors c).
Definition count_send_error (c : BatchIoStats) : BatchIoStats :=
  mkBatchStats (send_syscalls c) (send_datagrams c) (recv_syscalls c) (recv_datagrams c)
    (gso_send_syscalls c) (gso_send_datagrams c) (gso_fallbacks c) (as_u64 (send_errors c + 1)).

Definition after_gso (plan : GsoOutcome) (e : UdpEndpoint) : UdpEndpoint :=
  mkEndpointState (count_send (segments plan) (segments plan) (counters e)) (gso_disabled e) (segment_size plan).
Definition after_fallback (e : UdpEndpoint) : UdpEndpoint := mkEndpointState (count_fallback (counters e)) true 0.
Definition after_send_error (e : UdpEndpoint) : UdpEndpoint :=
  mkEndpointState (count_send_error (counters e)) (gso_disabled e) (last_gso_segment_size e).
Definition after_mmsg (n : nat) (e : UdpEndpoint) : UdpEndpoint :=
  mkEndpointState (count_send n 0 (counters e)) (gso_disabled e) (last_gso_segment_size e).
Definition after_recv (n : nat) (e : UdpEndpoint) : UdpEndpoint :=
  mkEndpointState (count_recv n (counters e)) (gso_disabled e) (last_gso_segment_size e).

Section Loop.
Context {W : Type} `{!UdpSys W}.

(** What one round of the send loop does: send, go on, stop or fail. *)
Inductive Round := Sent (n : nat) | Again | Stop | Failed (e : SysError).

(** The GSO attempt of a round; [None]: fall through to [sendmmsg]. *)
Definition try_gso (batch : list OutboundDatagram) (e : UdpEndpoint) (w : W) : option Round * UdpEndpoint * W :=
  if gso_disabled e then (None, e, w)
  else match gso_prefix batch with
       | None => (None, e, w)
       | Some plan =>
           let '(r, w) := sys_sendmsg (take (segments plan) batch) w in
           match r with
           | Ok _ => (Some (Sent (segments plan)), after_gso plan e, w)
           | Err WouldBlock => (Some Again, e, w)
           | Err err =>
               if is_gso_fallback_error err then (None, after_fallback e, w)
               else (Some (Failed err), after_send_error e, w)
           end
       end.

Definition try_mmsg (batch : list OutboundDatagram) (e : UdpEndpoint) (w : W) : Round * UdpEndpoint * W :=
  let '(r, w) := sys_sendmmsg (take MAX_MMSG batch) w in
  match r with
  | Ok O => (Stop, e, w)
  | Ok n => (Sent n, after_mmsg n e, w)
  | Err WouldBlock => (Again, e, w)
  | Err err => (Failed err, after_send_error e, w)
  end.

Definition send_round (batch : list OutboundDatagram) (e : UdpEndpoint) (w : W) : Round * UdpEndpoint * W :=
  match try_gso batch e w with
  | (Some r, e, w) => (r, e, w)
  | (None, e, w) => try_mmsg batch e w
  end.

(** [fuel] bounds the waits for the socket; [None] is a send that still waits. *)
Fixpoint send_batch (fuel : nat) (batch : list OutboundDatagram) (sent : nat) (e : UdpEndpoint) (w : W) :
    option (result nat SysError * UdpEndpoint * W) :=
  if (length batch <=? sent)%nat then Some (Ok sent, e, w)
  else match fuel with
       | O => None
       | S fuel =>
           match sys_writable w with
           | None => None
           | Some (Err err, w) => Some (Err err, e, w)
           | Some (Ok _, w) =>
               match send_round (drop sent batch) e w with
               | (Sent n, e, w) => send_batch fuel batch (sent + n) e w
               | (Again, e, w) => send_batch fuel batch sent e w
               | (Stop, e, w) => Some (Ok sent, e, w)
               | (Failed err, e, w) => Some (Err err, e, w)
               end
           end
       end.

(** The datagrams of one [recvmmsg] with a known source. *)
Definition received (l : list (option SocketAddr * list Z)) : list (SocketAddr * list Z) :=
  omap (fun p => match p with (Some src, b) => Some (src, b) | (None, _) => None end) l.

(** The receive loop, until a batch is not full; [None] when [fuel] full batches came. *)
Fixpoint recv_batches (fuel : nat) (out : list (SocketAddr * list Z)) (e : UdpEndpoint) (w : W) :
    option (result (list (SocketAddr * list Z)) SysError * UdpEndpoint * W) :=
  match fuel with
  | O => None
  | S fuel =>
      let '(r, w) := sys_recvmmsg w in
      match r with
      | Ok l =>
          let batch := received l in
          let e := after_recv (length batch) e in
          let out := (out ++ batch)%list in
          if (length batch =? MAX_MMSG)%nat then recv_batches fuel out e w else Some (Ok out, e, w)
      | Err WouldBlock => Some (Ok out, e, w)
      | Err err => Some (Err err, e, w)
      end
  end.

Definition recv_ready (fuel : nat) (e : UdpEndpoint) (w : W) :
    option (result (list (SocketAddr * list Z)) SysError * UdpEndpoint * W) :=
  match sys_readable w with
  | None => None
  | Some (Err err, w) => Some (Err err, e, w)
  | Some (Ok _, w) => recv_batches fuel [] e w
  end.
End Loop.

(** ** The packet loop (mod.rs) *)

(** The fields of path_stats.rs the loop writes; the others stay [None]. *)
Record PathStats := mkPathStats {
  send_buf_used_bytes : option Z;
  recv_batch_size : option Z;
  gso_size : option Z;
  pacing_delay_us : option Z;
  pmtu : option Z;
  stat_send_errors : Z;
  drops : Z;
  queue_full_drops : Z;
  sampled_at_ms : Z
}.

Record UdpPacketLoop := mkLoop {
  endpoint : UdpEndpoint;
  queues : DatagramQueues;
  peer_addr : option SocketAddr;
  pacer : Pacer;
  stats : PathStats
}.

Definition loop_bind : UdpPacketLoop :=
  mkLoop endpoint_start queues_default None (mkPacer 0)
    (mkPathStats None None None None (Some CONSERVATIVE_PMTU) 0 0 0 0).
Definition with_peer (l : UdpPacketLoop) (p : SocketAddr) : UdpPacketLoop :=
  mkLoop (endpoint l) (queues l) (Some p) (pacer l) (stats l).
Definition with_pacing (l : UdpPacketLoop) (rate : Z) : UdpPacketLoop :=
  mkLoop (endpoint l) (queues l) (peer_addr l) (mkPacer rate) (stats l).

Definition set_stats (f : PathStats -> PathStats) (l : UdpPacketLoop) : UdpPacketLoop :=
  mkLoop (endpoint l) (queues l) (peer_addr l) (pacer l) (f (stats l)).
Definition set_queues (q : DatagramQueues) (l : UdpPacketLoop) : UdpPacketLoop :=
  mkLoop (endpoint l) q (peer_addr l) (pacer l) (stats l).
Definition set_endpoint (e : UdpEndpoint) (l : UdpPacketLoop) : UdpPacketLoop :=
  mkLoop e (queues l) (peer_addr l) (pacer l) (stats l).

Definition refresh_send_buf_stats (l : UdpPacketLoop) : UdpPacketLoop :=
  set_stats (fun s => mkPathStats (Some (min_u32 (outbound_bytes (queues l)))) (recv_batch_size s) (gso_size s) (pacing_delay_us s)
                        (pmtu s) (stat_send_errors s) (drops s) (queue_full_drops s) (sampled_at_ms s)) l.

Definition count_queue_full (s : PathStats) : PathStats :=
  mkPathStats (send_buf_used_bytes s) (recv_batch_size s) (gso_size s) (pacing_delay_us s) (pmtu s) (stat_send_errors s)
    (drops s) (u32_sat_add (queue_full_drops s) 1) (sampled_at_ms s).

Definition try_enqueue (l : UdpPacketLoop) (d : OutboundDatagram) : result unit QueueFull * UdpPacketLoop :=
  let '(r, q) := enqueue_outbound (queues l) d in
  let l := set_queues q l in
  let l := if is_ok r then l else set_stats count_queue_full l in
  (r, refresh_send_buf_stats l).

Definition enqueue (l : UdpPacketLoop) (d : OutboundDatagram) : UdpPacketLoop := (try_enqueue l d).2.

Definition record_release (delay dropped : Z) (l : UdpPacketLoop) : UdpPacketLoop :=
  set_stats (fun s => mkPathStats (send_buf_used_bytes s) (recv_batch_size s) (current_gso_segment_size (endpoint l)) (Some delay)
                        (Some CONSERVATIVE_PMTU) (min_u32 (send_errors (counters (endpoint l)))) (u32_sat_add (drops s) dropped)
                        (queue_full_drops s) (sampled_at_ms s)) l.

Definition sample_at (ms : Z) (l : UdpPacketLoop) : UdpPacketLoop :=
  set_stats (fun s => mkPathStats (send_buf_used_bytes s) (recv_batch_size s) (gso_size s) (pacing_delay_us s) (pmtu s)
                        (stat_send_errors s) (drops s) (queue_full_drops s) ms) l.

Record FlushOutcome := mkFlush { flush_sent : nat; pmtu_dropped : nat }.

Definition within_pmtu (d : OutboundDatagram) : bool := Z.of_nat (length (out_payload d)) <=? CONSERVATIVE_PMTU.
Definition batch_bytes (l : list OutboundDatagram) : Z := foldr (fun d n => Z.of_nat (length (out_payload d)) + n) 0 l.

Section PacketLoop.
Context {W : Type} `{!UdpSys W}.

Definition sample_now (l : UdpPacketLoop) (w : W) : UdpPacketLoop * W :=
  let '(ms, w) := sys_now_ms w in (sample_at ms l, w).

Definition flush (fuel : nat) (l : UdpPacketLoop) (w : W) : option (result FlushOutcome SysError * UdpPacketLoop * W) :=
  let '(all, q) := drain_outbound (queues l) in
  let l := set_queues q l in
  match all with
  | [] => Some (Ok (mkFlush 0 0), l, w)
  | _ =>
      let batch := List.filter within_pmtu all in
      let dropped := (length all - length batch)%nat in
      match batch with
      | [] => Some (Ok (mkFlush 0 dropped), record_release 0 (as_u32 (Z.of_nat dropped)) l, w)
      | _ =>
          let delay := delay_for (pacer l) (batch_bytes batch) in
          match send_batch fuel batch 0 (endpoint l) w with
          | None => None
          | Some (Err err, e, w) => Some (Err err, set_endpoint e l, w)
          | Some (Ok sent, e, w) =>
              let l := record_release (min_u32 delay) (as_u32 (Z.of_nat dropped)) (set_endpoint e l) in
              let '(l, w) := sample_now (refresh_send_buf_stats l) w in
              Some (Ok (mkFlush sent dropped), l, w)
          end
      end
  end.

Definition poll_recv (fuel : nat) (at_ : Z) (l : UdpPacketLoop) (w : W) :
    option (result nat SysError * UdpPacketLoop * W) :=
  match recv_ready fuel (endpoint l) w with
  | None => None
  | Some (Err err, e, w) => Some (Err err, set_endpoint e l, w)
  | Some (Ok ds, e, w) =>
      let l := set_endpoint e l in
      let count := length ds in
      if (0 <? count)%nat then
        let q := foldl (fun q sb => push_inbound q (mkInbound sb.1 sb.2 at_)) (queues l) ds in
        let l := set_stats (fun s => mkPathStats (send_buf_used_bytes s) (Some (min_u32 (Z.of_nat count))) (gso_size s)
                              (pacing_delay_us s) (pmtu s) (stat_send_errors s) (drops s) (queue_full_drops s)
                              (sampled_at_ms s)) (set_queues q l) in
        let '(l, w) := sample_now l w in
        Some (Ok count, l, w)
      else Some (Ok count, l, w)
  end.
End PacketLoop.

Definition drain_inbound (l : UdpPacketLoop) : list InboundDatagram * UdpPacketLoop :=
  let '(ds, q) := queues_drain_inbound (queues l) in (ds, set_queues q l).

(** ** What leaves the socket *)

(** A super-buffer the kernel splits into the datagrams it was made of: one destination
    and size, at most 64 segments and 65507 bytes. *)
Definition legal_gso (l : list OutboundDatagram) : Prop :=
  match l with
  | [] => False
  | first :: _ =>
      Forall (fun d => same_shape first d = true) l /\ (length l <= MAX_GSO_SEGMENTS)%nat
      /\ Z.of_nat (length l) * Z.of_nat (length (out_payload first)) <= GSO_PAYLOAD_BYTES
  end.

(** The documented behaviour of the calls, with a log of the datagrams that left and a
    bound on the refusals to come. *)
Class UdpSysLaws (W : Type) `{!UdpSys W} := {
  sys_log : W -> list OutboundDatagram;
  sys_patience : W -> nat;
  writable_law w : exists r w', sys_writable w = Some (r, w') /\ sys_log w' = sys_log w /\ (sys_patience w' <= sys_patience w)%nat;
  sendmsg_law l w r w' : sys_sendmsg l w = (r, w') ->
    match r with
    | Ok _ => (legal_gso l -> sys_log w' = sys_log w ++ l)%list /\ (sys_patience w' <= sys_patience w)%nat
    | Err WouldBlock => sys_log w' = sys_log w /\ (sys_patience w' < sys_patience w)%nat
    | Err _ => sys_log w' = sys_log w /\ (sys_patience w' <= sys_patience w)%nat
    end;
  sendmmsg_law l w r w' : sys_sendmmsg l w = (r, w') -> l <> [] ->
    match r with
    | Ok n => (1 <= n <= length l)%nat /\ sys_log w' = (sys_log w ++ take n l)%list /\ (sys_patience w' <= sys_patience w)%nat
    | Err WouldBlock => sys_log w' = sys_log w /\ (sys_patience w' < sys_patience w)%nat
    | Err _ => sys_log w' = sys_log w /\ (sys_patience w' <= sys_patience w)%nat
    end;
  now_law w : sys_log (sys_now_ms w).2 = sys_log w
}.

Lemma take_split {A} (n k : nat) (l : list A) : (take n l ++ take k (drop n l))%list = take (n + k) l.
Proof. revert l. induction n as [|n IH]; intros [|x l]; cbn; [by rewrite ?drop_nil, ?take_nil..|]. by rewrite IH. Qed.

Lemma gso_run_spec first l : forall segs bytes, bytes = Z.of_nat segs * Z.of_nat (length (out_payload first)) ->
  bytes <= GSO_PAYLOAD_BYTES ->
  exists k, gso_run first l segs bytes = (segs + k)%nat /\ (k <= length l)%nat
    /\ Forall (fun d => same_shape first d = true) (take k l)
    /\ Z.of_nat (segs + k) * Z.of_nat (length (out_payload first)) <= GSO_PAYLOAD_BYTES.
Proof.
  induction l as [|d l IH]; intros segs bytes Hb Hle; cbn.
  { exists 0%nat. rewrite Nat.add_0_r. split_and!; [done|done|done|lia]. }
  assert (H0 : exists k, segs = (segs + k)%nat /\ (k <= S (length l))%nat
    /\ Forall (fun d => same_shape first d = true) (take k (d :: l))
    /\ Z.of_nat (segs + k) * Z.of_nat (length (out_payload first)) <= GSO_PAYLOAD_BYTES).
  { exists 0%nat. rewrite Nat.add_0_r. split_and!; [done|lia|done|lia]. }
  destruct (same_shape first d) eqn:Es; cbn [negb]; [|exact H0].
  destruct (GSO_PAYLOAD_BYTES <? _) eqn:Eb; [exact H0|]. apply Z.ltb_ge in Eb.
  destruct (IH (S segs) (bytes + Z.of_nat (length (out_payload first)))) as (k & -> & Hk & Hf & Hz); [lia|lia|].
  exists (S k). split_and!; [lia|lia|cbn; by constructor|]. by replace (segs + S k)%nat with (S segs + k)%nat by lia.
Qed.

Lemma gso_prefix_legal batch plan : gso_prefix batch = Some plan ->
  (2 <= segments plan <= length batch)%nat /\ legal_gso (take (segments plan) batch).
Proof.
  unfold gso_prefix. destruct batch as [|first batch]; [done|]. destruct (_ || _); [done|].
  destruct (gso_run_spec first (take MAX_GSO_SEGMENTS (first :: batch)) 0 0) as (k & -> & Hk & Hf & Hz);
    [lia|unfold GSO_PAYLOAD_BYTES; lia|].
  rewrite Nat.add_0_l in *. destruct (Nat.ltb_spec k 2); [done|]. intros [= <-]. cbn [segments].
  rewrite length_take in Hk. rewrite take_take, Nat.min_l in Hf by lia. split; [lia|].
  destruct k as [|k]; [lia|]. cbn [take legal_gso]. split; [done|]. cbn [length] in *. rewrite length_take. split; [lia|].
  replace (S (k `min` length batch)) with (S k) by lia. lia.
Qed.

Section Sending.
Context {W : Type} `{!UdpSys W} `{!UdpSysLaws W}.

Lemma send_round_spec batch e w r e' w' : batch <> [] -> send_round batch e w = (r, e', w') ->
  (sys_patience w' <= sys_patience w)%nat
  /\ match r with
     | Sent n => (1 <= n <= length batch)%nat /\ sys_log w' = (sys_log w ++ take n batch)%list
     | Again => sys_log w' = sys_log w /\ (sys_patience w' < sys_patience w)%nat
     | Stop => False
     | Failed _ => sys_log w' = sys_log w
     end.
Proof.
  intros Hne. unfold send_round.
  assert (Hm : forall w1, sys_log w1 = sys_log w -> (sys_patience w1 <= sys_patience w)%nat -> forall e1,
    try_mmsg batch e1 w1 = (r, e', w') -> (sys_patience w' <= sys_patience w)%nat
    /\ match r with
       | Sent n => (1 <= n <= length batch)%nat /\ sys_log w' = (sys_log w ++ take n batch)%list
       | Again => sys_log w' = sys_log w /\ (sys_patience w' < sys_patience w)%nat
       | Stop => False
       | Failed _ => sys_log w' = sys_log w
       end).
  { intros w1 Hl Hp e1. unfold try_mmsg. destruct (sys_sendmmsg _ w1) as [rr w2] eqn:E.
    apply sendmmsg_law in E; [|by destruct batch]. rewrite length_take in E.
    destruct rr as [[|n]|[|c|]]; intros [= <- <- <-]; rewrite Hl in E; [lia| |by destruct E; repeat split; try lia..].
    destruct E as (Hn & He & Hw). rewrite take_take, Nat.min_l in He by lia. split; [lia|]. split; [lia|done]. }
  unfold try_gso. destruct (gso_disabled e); [by apply Hm|].
  destruct (gso_prefix batch) as [plan|] eqn:Eg; [|by apply Hm].
  apply gso_prefix_legal in Eg as [Hseg Hlegal]. destruct (sys_sendmsg _ w) as [rr w2] eqn:E. apply sendmsg_law in E.
  destruct rr as [[]|[|c|]]; [| | |].
  - intros [= <- <- <-]. destruct E as [Hl Hp]. split; [done|]. split; [lia|]. by apply Hl.
  - intros [= <- <- <-]. destruct E as [Hl Hp]. split; [lia|]. done.
  - destruct E as [Hl Hp]. destruct (is_gso_fallback_error (Errno c)); [by apply Hm|]. intros [= <- <- <-]. done.
  - destruct E as [Hl Hp]. intros [= <- <- <-]. done.
Qed.

Lemma send_batch_spec fuel : forall batch sent e w, (sent <= length batch)%nat ->
  match send_batch fuel batch sent e w with
  | None => (fuel < sys_patience w + (length batch - sent))%nat
  | Some (r, _, w') => exists k, (sent <= k <= length batch)%nat
      /\ sys_log w' = (sys_log w ++ take (k - sent) (drop sent batch))%list
      /\ (forall n, r = Ok n -> n = k /\ k = length batch)
  end.
Proof.
  induction fuel as [|fuel IH]; intros batch sent e w Hs; cbn [send_batch]; destruct (Nat.leb_spec (length batch) sent).
  1,3: exists sent; rewrite Nat.sub_diag, app_nil_r; split; [lia|]; split; [done|]; intros n [= <-]; lia.
  { lia. }
  destruct (writable_law w) as (r & w1 & -> & Hl & Hp). destruct r as [[]|err].
  2: { exists sent. rewrite Nat.sub_diag, app_nil_r. split; [lia|]. done. }
  destruct (send_round (drop sent batch) e w1) as [[rd e2] w2] eqn:E.
  assert (Hne : drop sent batch <> []). { intros Hd. apply (f_equal length) in Hd. rewrite length_drop in Hd. cbn in Hd. lia. }
  apply send_round_spec in E as [Hp2 E]; [|done]. rewrite length_drop in E. destruct rd as [n| | |err].
  - destruct E as [Hn Hlog]. specialize (IH batch (sent + n)%nat e2 w2 ltac:(lia)).
    destruct (send_batch fuel batch (sent + n) e2 w2) as [[[r e3] w3]|]; [|lia].
    destruct IH as (k & Hk & Hlog' & Hok). exists k. split; [lia|]. split; [|done].
    rewrite Hlog', Hlog, Hl, <- app_assoc. f_equal. replace (k - sent)%nat with (n + (k - (sent + n)))%nat by lia.
    rewrite <- drop_drop. apply take_split.
  - destruct E as [Hlog Hlt]. specialize (IH batch sent e2 w2 ltac:(lia)).
    destruct (send_batch fuel batch sent e2 w2) as [[[r e3] w3]|]; [|lia]. by rewrite Hlog, Hl in IH.
  - done.
  - exists sent. rewrite Nat.sub_diag, app_nil_r, E, Hl. split; [lia|]. done.
Qed.
End Sending.

(** C23: A flush returns once the socket has stopped refusing; it takes the whole queue, sends
    a prefix of the datagrams within the path MTU in order, each once and whether or not
    they are merged into super-buffers, and all of them unless it reports an error; what
    it reports are the numbers of those sent and of those dropped as too long. *)
Theorem flush_sends_each_datagram_once {W} `{!UdpSys W} `{!UdpSysLaws W} (fuel : nat) (l : UdpPacketLoop) (w : W)
    (Hfuel : (sys_patience w + length (outbound (queues l)) <= fuel)%nat) :
  let batch := List.filter within_pmtu (outbound (queues l)) in
  exists r l' w' k, flush fuel l w = Some (r, l', w')
    /\ outbound (queues l') = [] /\ (k <= length batch)%nat /\ sys_log w' = (sys_log w ++ take k batch)%list
    /\ (forall o, r = Ok o -> k = length batch /\ flush_sent o = k
                  /\ pmtu_dropped o = (length (outbound (queues l)) - k)%nat).
Proof.
  cbv zeta. unfold flush. cbn [drain_outbound]. destruct (outbound (queues l)) as [|d ds] eqn:Eq.
  { do 4 eexists. split; [done|]. cbn. split_and!; [done|apply Nat.le_0_l|by rewrite app_nil_r|]. intros o [= <-]. done. }
  set (batch := List.filter within_pmtu (d :: ds)).
  assert (Hlen : (length batch <= length (d :: ds))%nat) by apply List.filter_length_le.
  destruct batch as [|b bs] eqn:Eb.
  { do 4 eexists. split; [done|]. cbn [length take]. split_and!; [done|apply Nat.le_0_l|by rewrite app_nil_r|]. intros o [= <-]. done. }
  pose proof (send_batch_spec fuel (b :: bs) 0 (endpoint (set_queues (mkQueues [] (inbound (queues l)) 0) l)) w ltac:(lia)) as Hs.
  destruct (send_batch _ _ _ _ _) as [[[r e] w1]|]; [|lia]. destruct Hs as (k & Hk & Hlog & Hok). rewrite Nat.sub_0_r in Hlog.
  destruct r as [n|err].
  - destruct (Hok n eq_refl) as [-> ->]. unfold sample_now. destruct (sys_now_ms w1) as [ms w2] eqn:En.
    pose proof (now_law w1) as Hn. rewrite En in Hn. cbn [snd] in Hn.
    do 4 eexists. split; [done|]. split_and!; [done|done|by rewrite Hn, Hlog|]. intros o [= <-]. done.
  - do 4 eexists. split; [done|]. split_and!; [done|apply Hk|done|]. done.
Qed.

Module UdpDemo.
(** A kernel that refuses once, then takes super-buffers and five datagrams a call. *)
Record Wire := mkWire { refusals : nat; wire_log : list OutboundDatagram }.

#[export] Instance wire_sys : UdpSys Wire := {|
  sys_writable w := Some (Ok tt, w);
  sys_readable w := Some (Ok tt, w);
  sys_sendmsg l w := match refusals w with
                     | O => (Ok tt, mkWire 0 (wire_log w ++ l))
                     | S n => (Err WouldBlock, mkWire n (wire_log w))
                     end;
  sys_sendmmsg l w := match refusals w with
                      | O => (Ok (Nat.min 5 (length l)), mkWire 0 (wire_log w ++ take (Nat.min 5 (length l)) l))
                      | S n => (Err WouldBlock, mkWire n (wire_log w))
                      end;
  sys_recvmmsg w := (Err WouldBlock, w);
  sys_now_ms w := (7, w)
|}.

#[export] Program Instance wire_laws : UdpSysLaws Wire := {| sys_log := wire_log; sys_patience := refusals |}.
Next Obligation. intros w. exists (Ok tt), w. done. Qed.
Next Obligation. intros l w r w'. cbn. destruct (refusals w) eqn:E; intros [= <- <-]; cbn; rewrite ?E; split; [done|lia|done|lia]. Qed.
Next Obligation.
  intros l w r w'. cbn. destruct (refusals w) eqn:E; intros [= <- <-] Hne; cbn [refusals wire_log]; rewrite ?E.
  - split; [|split; [done|lia]]. clear E. destruct l as [|? [|? [|? [|? [|? ?]]]]]; cbn; [done|lia..].
  - split; [done|lia].
Qed.
Next Obligation. done. Qed.

Definition dgram (port n : Z) : OutboundDatagram := mkOutbound (SockV4 [10; 0; 0; 1] port) (replicate (Z.to_nat n) 0).
Definition loaded : UdpPacketLoop := foldl enqueue loop_bind [dgram 1 100; dgram 1 100; dgram 1 2000; dgram 2 100].

Example demo_flush : (fun '(r, _, w) => (r, length (wire_log w))) <$> flush 9 loaded (mkWire 1 []) = Some (Ok (mkFlush 3 1), 3%nat).
Proof. vm_compute. reflexivity. Qed.
End UdpDemo.
Import UdpDemo.

Lemma flush_sends_each_datagram_once_witness : exists r l' w' k,
  flush 9 loaded (mkWire 1 []) = Some (r, l', w') /\ outbound (queues l') = [] /\ (k <= 3)%nat
  /\ wire_log w' = take k [dgram 1 100; dgram 1 100; dgram 2 100].
Proof.
  destruct (flush_sends_each_datagram_once 9 loaded (mkWire 1 [])) as (r & l' & w' & k & Hf & Hq & Hk & Hl & _).
  { vm_compute. repeat constructor. }
  exists r, l', w', k. split; [exact Hf|]. split; [exact Hq|]. split; [exact Hk|exact Hl].
Defined.

(** * Link evidence (link_evidence.rs) *)

Record LinkEvidence := mkEvidence {
  le_srtt : F64; le_rttvar : F64; le_delivery_ratio : F64; le_loss_burst : Z; le_reorder_score : F64; le_pmtu : Z;
  le_queue_delay : F64; le_cost_weight : F64
}.

Definition LOSS_COST_PENALTY_US : F64 := f64_of_z 50000.

(** [rtt] and [rttvar] are the statistics' round-trip times, which the loop does not fill. *)
Definition from_path_stats (rtt rttvar : option Z) (s : PathStats) : LinkEvidence :=
  let opt o := f64_of_z (default 0 o) in
  let failures := f64_add (f64_add (f64_of_z (stat_send_errors s)) (f64_of_z (drops s))) (f64_of_z (queue_full_drops s)) in
  let ratio := if SFeqb failures (f64_of_z 0) then f64_of_z 1 else f64_div (f64_of_z 1) (f64_add (f64_of_z 1) failures) in
  let cost := f64_add (f64_add (opt rtt) (f64_mul (f64_of_z 4) (opt rttvar))) (f64_mul LOSS_COST_PENALTY_US (f64_sub (f64_of_z 1) ratio)) in
  mkEvidence (opt rtt) (opt rttvar) ratio (drops s) (f64_of_z 0) (default 0 (pmtu s)) (opt (pacing_delay_us s)) cost.

Record EvidenceEntry := mkEntry { ee_evidence : LinkEvidence; ee_observed_at_ms : Z }.
Record LinkEvidenceSnapshot := mkEvidenceSnapshot { ev_configured : list string; ev_evidence : gmap string EvidenceEntry; ev_ttl_ms : Z }.

Definition evidence_new (configured : list string) (ttl_ms : Z) : LinkEvidenceSnapshot := mkEvidenceSnapshot configured ∅ ttl_ms.
Definition observe_link (neighbor : string) (e : LinkEvidence) (now_ms : Z) (s : LinkEvidenceSnapshot) : LinkEvidenceSnapshot :=
  mkEvidenceSnapshot (ev_configured s) (<[neighbor := mkEntry e now_ms]> (ev_evidence s)) (ev_ttl_ms s).

(** [now_ms.saturating_sub(observed_at_ms) <= ttl_ms] *)
Definition link_is_fresh (s : LinkEvidenceSnapshot) (observed_at_ms now_ms : Z) : bool := Z.max 0 (now_ms - observed_at_ms) <=? ev_ttl_ms s.

Definition candidate_mouths (s : LinkEvidenceSnapshot) (now_ms : Z) : list string :=
  merge_sort String.le (List.filter (fun k => match ev_evidence s !! k with Some e => link_is_fresh s (ee_observed_at_ms e) now_ms | None => false end)
                          (map_to_list (ev_evidence s)).*1).
Definition evidence_for (s : LinkEvidenceSnapshot) (neighbor : string) (now_ms : Z) : option LinkEvidence :=
  match ev_evidence s !! neighbor with
  | Some e => if link_is_fresh s (ee_observed_at_ms e) now_ms then Some (ee_evidence e) else None
  | None => None
  end.

(** ** Theorems *)

Definition observe_all (xs : list (string * LinkEvidence * Z)) (s : LinkEvidenceSnapshot) : LinkEvidenceSnapshot :=
  foldl (fun s '(n, e, t) => observe_link n e t s) s xs.

Lemma candidate_iff s now k : k ∈ candidate_mouths s now <-> is_Some (evidence_for s k now).
Proof.
  unfold candidate_mouths, evidence_for. rewrite merge_sort_Permutation, list_elem_of_In, filter_In, <- list_elem_of_In.
  rewrite list_elem_of_fmap.
  destruct (ev_evidence s !! k) as [e|] eqn:E.
  - destruct (link_is_fresh s (ee_observed_at_ms e) now); [|split; [by intros [_ ?]|by intros [? ?]]].
    split; [by eauto|]. intros _. split; [|done]. exists (k, e). split; [done|]. by apply elem_of_map_to_list.
  - split; [by intros [_ ?]|by intros [? ?]].
Qed.

(** After any observations the candidates are, in order and each once, the neighbours whose
    last observation is not older than the time to live; a neighbour that is none keeps its
    entry and the configured peers are as they were. *)
Theorem candidates_are_the_fresh (configured : list string) (ttl now : Z) (xs : list (string * LinkEvidence * Z)) :
  let s := observe_all xs (evidence_new configured ttl) in
  Sorted String.le (candidate_mouths s now) /\ NoDup (candidate_mouths s now)
  /\ (forall k, k ∈ candidate_mouths s now <-> is_Some (evidence_for s k now))
  /\ ev_configured s = configured
  /\ (forall k, (exists e t, (k, e, t) ∈ xs) <-> is_Some (ev_evidence s !! k)).
Proof.
  intros s. split_and!.
  - unfold candidate_mouths. apply Sorted_merge_sort. apply _.
  - unfold candidate_mouths. rewrite merge_sort_Permutation. apply NoDup_ListNoDup, List.NoDup_filter, NoDup_ListNoDup, NoDup_fst_map_to_list.
  - intros k. apply candidate_iff.
  - unfold s, observe_all.
    assert (Hc : forall xs s0, ev_configured (foldl (fun s '(n, e, t) => observe_link n e t s) s0 xs) = ev_configured s0); [|by rewrite Hc].
    induction xs0 as [|[[n e] t] xs0 IH]; intros s0; simpl; [done|]. by rewrite IH.
  - intros k. unfold s, observe_all.
    assert (Hk : forall xs s0, is_Some (ev_evidence (foldl (fun s '(n, e, t) => observe_link n e t s) s0 xs) !! k)
      <-> (exists e t, (k, e, t) ∈ xs) \/ is_Some (ev_evidence s0 !! k)).
    { induction xs0 as [|[[n e] t] xs0 IH]; intros s0; simpl; [set_solver|]. rewrite IH. simpl.
      destruct (decide (n = k)) as [->|Hne].
      - rewrite lookup_insert_eq. split; [intros _; left; exists e, t; set_solver|eauto].
      - rewrite lookup_insert_ne by done. set_solver. }
    rewrite Hk. simpl. rewrite lookup_empty. split; [by left|]. intros [?|[? ?]]; done.
Qed.

(** * Fragments (transform/data_handle.rs) *)

Record FragmentMetadata := mkFragment {
  fg_group_id : string; fg_fragment_id : string; fg_seq : Z; fg_total : Z; fg_offset : Z; fg_deadline_ms : option Z; fg_checksum : string
}.
Inductive TransformError := InvalidTotal | SeqOutOfRange | EmptyGroupId | EmptyFragmentId.

Definition validate_fragment (f : FragmentMetadata) : result unit TransformError :=
  if str_is_empty (fg_group_id f) then Err EmptyGroupId
  else if str_is_empty (fg_fragment_id f) then Err EmptyFragmentId
  else if fg_total f =? 0 then Err InvalidTotal
  else if fg_total f <=? fg_seq f then Err SeqOutOfRange
  else Ok tt.
