(* ===== verification/MeshPeer.v ===== *)
(** The mesh-peer UDP egress (crates/mesh-bus-egress-mesh-peer-udp/src): delivery policy,
    packet encoding, the sender with its two queues, the receiving driver, and the halves
    of stream and datagram sessions.

    The tasks of a session share their state through locks and channels; here each is a
    function on it.  A request's completion channel is a number, and the answers are
    logged; the clock is an argument; a flush of the packet loop is the answer of the
    environment to the datagrams it takes. *)
From S2P Require Import Prelude Numbers NetAddr Endpoint DispatchTypes StateM Replay MeshWire MeshCodec Reorder.
From S2P Require Import MeshSec UdpLoop.
Local Open Scope string_scope.
Local Open Scope Z_scope.

(** ** policy.rs *)

Record DeliveryCoord := mkCoord { coord_addr : SocketAddr; coord_epoch : Z }.

Definition coord_new (addr : SocketAddr) : DeliveryCoord := mkCoord addr 0.

Definition coord_port_open (c : DeliveryCoord) (mouth : ReceiverMouth) : bool * DeliveryCoord :=
  match parse_socket_addr (udp_addr mouth) with
  | None => (false, c)
  | Some addr =>
      if mouth_epoch mouth <? coord_epoch c then (false, c) else (true, mkCoord addr (mouth_epoch mouth))
  end.

Definition REPAIR_RING_DEPTH : nat := 64.

Definition replicate_count (fanout : Z) : nat := Z.to_nat (Z.max 1 (Z.min fanout 4)).

Definition stripe_index (sq : Z) (mouth_count : nat) : nat :=
  if (mouth_count <=? 1)%nat then 0%nat else Z.to_nat (sq mod Z.of_nat mouth_count).

Record EgressPolicy := mkPolicy {
  pol_mode : DeliveryMode;
  replicate_fanout : Z;
  probe_budget : Z;
  probe_used : Z;
  retransmit : list (Z * list Z)
}.

Definition egress_policy_new (mode : DeliveryMode) (fanout budget : Z) : EgressPolicy := mkPolicy mode fanout budget 0 [].

Definition send_copies (p : EgressPolicy) : nat :=
  match pol_mode p with Replicate => replicate_count (replicate_fanout p) | _ => 1%nat end.

(** [while ring.len() > REPAIR_RING_DEPTH { ring.pop_front(); }] *)
Definition trim_ring (ring : list (Z * list Z)) : list (Z * list Z) := drop (length ring - REPAIR_RING_DEPTH) ring.

Definition remember (p : EgressPolicy) (sq : Z) (bytes : list Z) : EgressPolicy :=
  if negb (bool_decide (pol_mode p = Repair)) || (sq =? 0) then p
  else mkPolicy (pol_mode p) (replicate_fanout p) (probe_budget p) (probe_used p) (trim_ring (retransmit p ++ [(sq, bytes)])).

Definition in_ranges (rs : list SeqRange) (sq : Z) : bool := existsb (fun r => (start r <=? sq) && (sq <=? end_ r)) rs.

Definition to_retransmit (p : EgressPolicy) (ack : AckNack) : list (list Z) :=
  snd <$> List.filter (fun e => in_ranges (missing_ranges ack) e.1) (retransmit p).

Definition take_probe_token (p : EgressPolicy) : bool * EgressPolicy :=
  (probe_used p <? probe_budget p,
   mkPolicy (pol_mode p) (replicate_fanout p) (probe_budget p) (as_u64 (probe_used p + 1)) (retransmit p)).

(** ** meshsec.rs *)

Definition MAX_MESH_DATAGRAM_PAYLOAD_BYTES : nat := Z.to_nat 65000.
Definition MESH_DATAGRAM_FRAME_OVERHEAD : nat := 256.
Definition MESHSEC_STREAM_CHUNK_BYTES : nat := 832.
Definition STREAM_FLUSH_CHUNK_BATCH : nat := 64.
Definition MESHSEC_ACCEPTED_EPOCH_SKEW_SLOTS : Z := 1.

Definition meshsec_max_payload_bytes : nat := MESHSEC_MAX_CLEAR_LEN - MESH_DATAGRAM_FRAME_OVERHEAD.

(** The sealing context and the counter shared by the sessions of the egress. *)
Record MeshSecEgress := mkSealer { seal_ctx : MeshSecSealContext; seal_counter : Z }.

Definition stream_chunk_bytes (seal : option MeshSecEgress) : nat :=
  match seal with Some _ => MESHSEC_STREAM_CHUNK_BYTES | None => MAX_MESH_DATAGRAM_PAYLOAD_BYTES end.

Record MeshSecRecv := mkRecv {
  rx_local_node_id : string;
  rx_keys : list MeshSecOpenKey;
  rx_replay : MeshSecReplayCache
}.

Definition reply_recv (s : MeshSecEgress) : MeshSecRecv :=
  let ctx := seal_ctx s in
  mkRecv (local_node_id ctx) [mkOpenKey (remote_node_id ctx) (remote_node_id ctx) (static_key ctx)]
    (replay_new MESHSEC_REPLAY_WINDOW_BITS).

(** ** Packets (sender.rs of both peers) *)

Inductive SendError := SeBufferFull | SeAddressNotSupported | SePayloadTooLarge | SeClosed.

Definition MAX_UDP_PAYLOAD_BYTES : nat := Z.to_nat 65507.

Definition is_data_semantic (s : EventSemantic) : bool := match s with Datagram | Stream => true | _ => false end.

Definition is_control_frame (f : MeshFrame) : bool := negb (is_data_semantic (frame_event_meta f).2).

(** [s.counter.fetch_add(1)] *)
Definition next_counter (s : MeshSecEgress) : Z * MeshSecEgress :=
  (seal_counter s, mkSealer (seal_ctx s) (as_u64 (seal_counter s + 1))).

Section Packets.
Context `{Bincode WireFrame} `{Bincode MeshEvent} `{MeshCrypto}.

(** The clear bytes of a native event that carries a frame. *)
Definition encode_native (policy : string) (f : MeshFrame) : option (list Z) :=
  match encode_frame f with
  | Err _ => None
  | Ok clear =>
      let '(family, sq, sem) := frame_event_meta f in
      match encode_event (wrap_frame_event family sq sem policy clear) with Ok b => Some b | Err _ => None end
  end.

Definition sealed_or_closed (r : result (list Z) MeshSecError) : result (list Z) SendError :=
  match r with Ok b => Ok b | Err _ => Err SeClosed end.

Definition encode_packet (mode : NativeEventMode) (policy : string) (now : Z) (f : MeshFrame) (seal : option MeshSecEgress) :
    result (list Z) SendError * option MeshSecEgress :=
  let epoch := meshsec_epoch_number now in
  match mode, seal with
  | MeshFrameMode, Some s =>
      let '(c, s) := next_counter s in (sealed_or_closed (seal_mesh_frame f (seal_ctx s) epoch c), Some s)
  | MeshFrameMode, None => (match encode_frame f with Ok b => Ok b | Err _ => Err SeClosed end, None)
  | SecureUdpNative, _ =>
      match encode_native policy f, seal with
      | None, _ => (Err SeClosed, seal)
      | Some b, None => (Ok b, None)
      | Some b, Some s => let '(c, s) := next_counter s in (sealed_or_closed (seal_bytes b (seal_ctx s) epoch c), Some s)
      end
  end.

(** ** The sender (sender.rs) *)

Inductive SenderRequest :=
| ReqFrame (f : MeshFrame) (done_ : nat)
| ReqFrames (fs : list MeshFrame) (done_ : nat)
| ReqRepair (datagrams : list (list Z)) (done_ : nat).

Definition request_id (r : SenderRequest) : nat :=
  match r with ReqFrame _ d | ReqFrames _ d | ReqRepair _ d => d end.

Record PendingSend := mkPending { ps_datagrams : list OutboundDatagram; ps_done : nat }.

Record Sender := mkSender {
  sd_mode : NativeEventMode;
  sd_coord : DeliveryCoord;
  sd_policy : EgressPolicy;
  sd_seal : option MeshSecEgress;
  sd_loop : UdpPacketLoop;
  control_q : list SenderRequest;
  data_q : list SenderRequest;
  pending_data : list PendingSend;
  answers : list (nat * result unit SendError)
}.

Definition set_encoded (p : EgressPolicy) (seal : option MeshSecEgress) (s : Sender) : Sender :=
  mkSender (sd_mode s) (sd_coord s) p seal (sd_loop s) (control_q s) (data_q s) (pending_data s) (answers s).
Definition answer (id : nat) (r : result unit SendError) (s : Sender) : Sender :=
  mkSender (sd_mode s) (sd_coord s) (sd_policy s) (sd_seal s) (sd_loop s) (control_q s) (data_q s) (pending_data s)
    (answers s ++ [(id, r)]).
Definition set_loop (l : UdpPacketLoop) (s : Sender) : Sender :=
  mkSender (sd_mode s) (sd_coord s) (sd_policy s) (sd_seal s) l (control_q s) (data_q s) (pending_data s) (answers s).
Definition set_requests (c d : list SenderRequest) (s : Sender) : Sender :=
  mkSender (sd_mode s) (sd_coord s) (sd_policy s) (sd_seal s) (sd_loop s) c d (pending_data s) (answers s).
Definition set_pending (p : list PendingSend) (s : Sender) : Sender :=
  mkSender (sd_mode s) (sd_coord s) (sd_policy s) (sd_seal s) (sd_loop s) (control_q s) (data_q s) p (answers s).

Definition encode_frame_datagrams (now : Z) (f : MeshFrame) (s : Sender) : result (list OutboundDatagram) SendError * Sender :=
  let '(_, sq, sem) := frame_event_meta f in
  match encode_packet (sd_mode s) (policy_id (pol_mode (sd_policy s))) now f (sd_seal s) with
  | (Err e, seal) => (Err e, set_encoded (sd_policy s) seal s)
  | (Ok encoded, seal) =>
      if (MAX_UDP_PAYLOAD_BYTES <? length encoded)%nat then (Err SePayloadTooLarge, set_encoded (sd_policy s) seal s)
      else
        let p := if is_data_semantic sem then remember (sd_policy s) sq encoded else sd_policy s in
        (Ok (replicate (send_copies p) (mkOutbound (coord_addr (sd_coord s)) encoded)), set_encoded p seal s)
  end.

(** The loop of [SenderRequest::Frames]. *)
Fixpoint encode_frames (now : Z) (fs : list MeshFrame) (acc : list OutboundDatagram) (s : Sender) :
    result (list OutboundDatagram) SendError * Sender :=
  match fs with
  | [] => (Ok acc, s)
  | f :: fs =>
      match encode_frame_datagrams now f s with
      | (Ok ds, s) => encode_frames now fs (acc ++ ds) s
      | (Err e, s) => (Err e, s)
      end
  end.

Definition push_request (now : Z) (r : SenderRequest) (s : Sender) : list PendingSend * Sender :=
  match r with
  | ReqFrame f id =>
      match encode_frame_datagrams now f s with
      | (Ok ds, s) => ([mkPending ds id], s)
      | (Err e, s) => ([], answer id (Err e) s)
      end
  | ReqFrames fs id =>
      match encode_frames now fs [] s with
      | (Ok ds, s) => ([mkPending ds id], s)
      | (Err e, s) => ([], answer id (Err e) s)
      end
  | ReqRepair ds id => ([mkPending (mkOutbound (coord_addr (sd_coord s)) <$> ds) id], s)
  end.

Fixpoint push_requests (now : Z) (rs : list SenderRequest) (s : Sender) : list PendingSend * Sender :=
  match rs with
  | [] => ([], s)
  | r :: rs =>
      let '(p, s) := push_request now r s in
      let '(ps, s) := push_requests now rs s in (p ++ ps, s)%list
  end.

(** [try_enqueue] of the datagrams of one request, up to the first refusal. *)
Fixpoint enqueue_all (ds : list OutboundDatagram) (l : UdpPacketLoop) : bool * UdpPacketLoop :=
  match ds with
  | [] => (true, l)
  | d :: ds => match try_enqueue l d with (Ok _, l) => enqueue_all ds l | (Err _, l) => (false, l) end
  end.

(** The requests that wait for the flush; the others are answered [BufferFull]. *)
Fixpoint enqueue_pending (ps : list PendingSend) (s : Sender) : list nat * Sender :=
  match ps with
  | [] => ([], s)
  | p :: ps =>
      let '(ok, l) := enqueue_all (ps_datagrams p) (sd_loop s) in
      let s := set_loop l s in
      if ok then let '(ids, s) := enqueue_pending ps s in (ps_done p :: ids, s)
      else enqueue_pending ps (answer (ps_done p) (Err SeBufferFull) s)
  end.

(** What a flush of these datagrams comes to within the time-out; [None] is the time-out. *)
Definition FlushEnv : Type := list OutboundDatagram -> option (result FlushOutcome SysError).

Definition flush_verdict (o : option (result FlushOutcome SysError)) : result unit SendError :=
  match o with
  | Some (Ok out) => if (flush_sent out =? 0)%nat && (0 <? pmtu_dropped out)%nat then Err SePayloadTooLarge else Ok tt
  | Some (Err _) | None => Err SeClosed
  end.

Definition answer_all (ids : list nat) (r : result unit SendError) (s : Sender) : Sender :=
  foldl (fun s id => answer id r s) s ids.

Definition flush_pending (env : FlushEnv) (ps : list PendingSend) (s : Sender) : Sender :=
  match ps with
  | [] => s
  | _ =>
      let '(ids, s) := enqueue_pending ps s in
      match ids with
      | [] => s
      | _ =>
          let '(ds, q) := drain_outbound (queues (sd_loop s)) in
          answer_all ids (flush_verdict (env ds)) (set_loop (set_queues q (sd_loop s)) s)
      end
  end.

Definition handle_control (env : FlushEnv) (now : Z) (s : Sender) : Sender :=
  let rs := control_q s in
  let '(ps, s) := push_requests now rs (set_requests [] (data_q s) s) in
  flush_pending env ps s.

(** Take one request off the data queue. *)
Definition push_data (now : Z) (s : Sender) : Sender :=
  match data_q s with
  | [] => s
  | r :: rest =>
      let '(ps, s) := push_request now r (set_requests (control_q s) rest s) in
      set_pending (pending_data s ++ ps)%list s
  end.

Definition flush_pending_data (env : FlushEnv) (s : Sender) : Sender :=
  flush_pending env (pending_data s) (set_pending [] s).

Definition complete_pending_data (r : result unit SendError) (s : Sender) : Sender :=
  answer_all (ps_done <$> pending_data s) r (set_pending [] s).

Definition pending_data_datagrams (s : Sender) : nat := sum_list (length <$> (ps_datagrams <$> pending_data s)).

(** ** The receiving driver (demux.rs) *)

Definition CONTROL_QUEUE_BOUND : nat := 128.
Definition DATA_QUEUE_BOUND : nat := 1024.
Definition DATA_FLUSH_BATCH_DATAGRAMS : nat := 32.
Definition STREAM_CONTROL_BOUND : nat := 32.
Definition STREAM_DATA_BOUND : nat := 256.
Definition STREAM_EVENT_BOUND : nat := 16.
Definition DATAGRAM_BOUND : nat := 256.
Definition REPAIR_CONTROL_BOUND : nat := 64.
Definition NATIVE_REORDER_WINDOW : Z := 64.

Record Driver := mkDriver {
  dr_coord : DeliveryCoord;
  dr_policy : EgressPolicy;
  dr_mode : NativeEventMode;
  dr_meshsec : option MeshSecRecv;
  family_states : gmap (SocketAddr * string) FamilyReorderState;
  repair_q : list (list (list Z))
}.

Definition set_families (m : gmap (SocketAddr * string) FamilyReorderState) (d : Driver) : Driver :=
  mkDriver (dr_coord d) (dr_policy d) (dr_mode d) (dr_meshsec d) m (repair_q d).
Definition set_recv (r : option MeshSecRecv) (d : Driver) : Driver :=
  mkDriver (dr_coord d) (dr_policy d) (dr_mode d) r (family_states d) (repair_q d).

Definition decode_legacy_frame (payload : list Z) : option MeshFrame :=
  match decode_frame payload with
  | (Ok f, _) => Some f
  | (Err _, _) => match decode_mesh_frame_clear payload with Ok f => Some f | Err _ => None end
  end.

Definition enqueue_retransmit (ack : AckNack) (d : Driver) : Driver :=
  match to_retransmit (dr_policy d) ack with
  | [] => d
  | resend =>
      if (length (repair_q d) <? REPAIR_CONTROL_BOUND)%nat
      then mkDriver (dr_coord d) (dr_policy d) (dr_mode d) (dr_meshsec d) (family_states d) (repair_q d ++ [resend])%list
      else d
  end.

(** The state of a family, made on its first package. *)
Definition family_of (m : gmap (SocketAddr * string) FamilyReorderState) (k : SocketAddr * string) : FamilyReorderState :=
  default (family_new k.2 1 NATIVE_REORDER_WINDOW 0) (m !! k).

Definition decode_native_event (peer : SocketAddr) (e : MeshEvent) (d : Driver) : list MeshFrame * Driver :=
  match semantic e with
  | Control | Observation => (option_list (event_frame_payload e ≫= decode_legacy_frame), d)
  | Stream | Datagram =>
      match package e with
      | None => ([], d)
      | Some p =>
          let key := (peer, family_id e) in
          let '(outcome, fam) := push_package (family_of (family_states d) key) p in
          let d := set_families (<[key := fam]> (family_states d)) d in
          match outcome with
          | Deliver ps => (omap (fun p => decode_legacy_frame (payload p)) ps, d)
          | Gap ack => ([], enqueue_retransmit ack d)
          | WindowOverflow _ => ([], set_families (delete key (family_states d)) d)
          | Buffered | Duplicate => ([], d)
          end
      end
  end.

(** The epochs a receiver accepts at [now]. *)
Definition lo_epoch (now : Z) : Z := Z.max 0 (meshsec_epoch_number now - MESHSEC_ACCEPTED_EPOCH_SKEW_SLOTS).
Definition hi_epoch (now : Z) : Z := meshsec_epoch_number now + MESHSEC_ACCEPTED_EPOCH_SKEW_SLOTS.

Definition decode_clear (peer : SocketAddr) (clear : list Z) (d : Driver) : list MeshFrame * Driver :=
  match dr_mode d with
  | MeshFrameMode => (option_list (decode_legacy_frame clear), d)
  | SecureUdpNative =>
      match decode_event clear with
      | (Ok e, _) => decode_native_event peer e d
      | (Err _, _) => (option_list (decode_legacy_frame clear), d)
      end
  end.

Definition decode_datagram (now : Z) (peer : SocketAddr) (packet : list Z) (d : Driver) : list MeshFrame * Driver :=
  match dr_meshsec d with
  | None => decode_clear peer packet d
  | Some rx =>
      let kept replay := set_recv (Some (mkRecv (rx_local_node_id rx) (rx_keys rx) replay)) d in
      match dr_mode d with
      | MeshFrameMode =>
          match open_mesh_frame packet (rx_keys rx) (rx_local_node_id rx) (lo_epoch now) (hi_epoch now) (rx_replay rx) with
          | (Ok (_, f), replay) => ([f], kept replay)
          | (Err _, replay) => ([], kept replay)
          end
      | SecureUdpNative =>
          match open_bytes packet (rx_keys rx) (rx_local_node_id rx) (lo_epoch now) (hi_epoch now) (rx_replay rx) with
          | (Ok (_, clear), replay) => decode_clear peer clear (kept replay)
          | (Err _, replay) => ([], kept replay)
          end
      end
  end.

(** The datagrams with the times their decoding starts. *)
Fixpoint drain_frames (ds : list (Z * InboundDatagram)) (d : Driver) : list MeshFrame * Driver :=
  match ds with
  | [] => ([], d)
  | (now, i) :: ds =>
      let '(fs, d) := decode_datagram now (source_addr i) (in_payload i) d in
      let '(more, d) := drain_frames ds d in (fs ++ more, d)%list
  end.

(** Frames that steer the session and go no further. *)
Definition handle_common_frame (f : MeshFrame) (d : Driver) : bool * Driver :=
  match f with
  | FPortOpen mouth =>
      (true, mkDriver (coord_port_open (dr_coord d) mouth).2 (dr_policy d) (dr_mode d) (dr_meshsec d) (family_states d) (repair_q d))
  | FPortClose _ _ => (true, d)
  | FAckNack ack => (true, enqueue_retransmit ack d)
  | _ => (false, d)
  end.
End Packets.

(** *** The stream driver *)

Inductive StreamControl :=
| OpenAccepted (open_token : Z)
| OpenRejected (open_token : Z) (reason : CloseReasonWire).

Inductive StreamEvent := EvShutdownWrite | EvClose (reason : CloseReasonWire) | EvQueueFull.

(** The inboxes of a stream; [ctl_open] until the session is split, [running] until the
    driver ends. *)
Record StreamInboxes := mkInboxes {
  ctl_inbox : list StreamControl;
  ctl_open : bool;
  data_inbox : list (list Z);
  event_inbox : list StreamEvent;
  running : bool
}.

Definition inboxes_new : StreamInboxes := mkInboxes [] true [] [] true.

Definition stop_driver (i : StreamInboxes) : StreamInboxes :=
  mkInboxes (ctl_inbox i) (ctl_open i) (data_inbox i) (event_inbox i) false.

Definition push_control (c : StreamControl) (i : StreamInboxes) : StreamInboxes :=
  if ctl_open i && (length (ctl_inbox i) <? STREAM_CONTROL_BOUND)%nat
  then mkInboxes (ctl_inbox i ++ [c]) (ctl_open i) (data_inbox i) (event_inbox i) (running i)
  else stop_driver i.

Definition push_event (e : StreamEvent) (i : StreamInboxes) : StreamInboxes :=
  if (length (event_inbox i) <? STREAM_EVENT_BOUND)%nat
  then mkInboxes (ctl_inbox i) (ctl_open i) (data_inbox i) (event_inbox i ++ [e]) (running i)
  else i.

Definition push_stream_data (b : list Z) (i : StreamInboxes) : StreamInboxes :=
  if (length (data_inbox i) <? STREAM_DATA_BOUND)%nat
  then mkInboxes (ctl_inbox i) (ctl_open i) (data_inbox i ++ [b]) (event_inbox i) (running i)
  else push_event EvQueueFull i.

Definition stream_frame (sid : string) (f : MeshFrame) (i : StreamInboxes) : StreamInboxes :=
  if negb (running i) then i
  else match f with
       | FStreamOpenAccepted s token => if bool_decide (s = sid) then push_control (OpenAccepted token) i else i
       | FStreamOpenReject s token _ reason => if bool_decide (s = sid) then push_control (OpenRejected token reason) i else i
       | FStreamData s _ b => if bool_decide (s = sid) then push_stream_data b i else i
       | FStreamShutdownWrite s => if bool_decide (s = sid) then push_event EvShutdownWrite i else i
       | FStreamClose s reason => if bool_decide (s = sid) then push_event (EvClose reason) i else i
       | _ => i
       end.

(** One round of the driver's loop on the frames it drained. *)
Fixpoint stream_frames (sid : string) (fs : list MeshFrame) (d : Driver) (i : StreamInboxes) : Driver * StreamInboxes :=
  match fs with
  | [] => (d, i)
  | f :: fs =>
      if negb (running i) then (d, i)
      else
        let '(common, d) := handle_common_frame f d in
        stream_frames sid fs d (if common then i else stream_frame sid f i)
  end.

(** *** The datagram driver *)

Record DatagramInboxes := mkDgInboxes {
  dg_inbox : list (Endpoint * list Z);
  dg_errors : list DisconnectReason;
  dg_running : bool
}.

Definition datagram_frame (sid : string) (f : MeshFrame) (i : DatagramInboxes) : DatagramInboxes :=
  match f with
  | FDatagramReturn s _ src b =>
      if bool_decide (s = sid) then
        if (length (dg_inbox i) <? DATAGRAM_BOUND)%nat then mkDgInboxes (dg_inbox i ++ [(src, b)]) (dg_errors i) (dg_running i)
        else mkDgInboxes (dg_inbox i) (match dg_errors i with [] => [DQueueFull] | es => es end) false
      else i
  | FDatagramClose s _ => if bool_decide (s = sid) then mkDgInboxes (dg_inbox i) (dg_errors i) false else i
  | _ => i
  end.

Fixpoint datagram_frames (sid : string) (fs : list MeshFrame) (d : Driver) (i : DatagramInboxes) : Driver * DatagramInboxes :=
  match fs with
  | [] => (d, i)
  | f :: fs =>
      if negb (dg_running i) then (d, i)
      else
        let '(common, d) := handle_common_frame f d in
        datagram_frames sid fs d (if common then i else datagram_frame sid f i)
  end.

(** ** Sessions (lib.rs) *)

Definition close_reason_wire (r : DisconnectReason) : CloseReasonWire :=
  match r with
  | DNoUsableExit | DHostUnreachable => NoUsableExit
  | DAddressNotSupported | DQueueFull | DOther _ => ProtocolError
  | _ => Normal
  end.

Definition close_debug (r : CloseReasonWire) : string :=
  match r with
  | Normal => "Normal" | Unsupported => "Unsupported" | NoUsableExit => "NoUsableExit" | ProtocolError => "ProtocolError"
  end.

Definition wire_close_to_disconnect (r : CloseReasonWire) : DisconnectReason :=
  match r with
  | Normal => DSessionClosed
  | Unsupported | ProtocolError => DOther (close_debug r)
  | NoUsableExit => DNoUsableExit
  end.

Definition send_error_to_disconnect (e : SendError) : DisconnectReason :=
  match e with
  | SeAddressNotSupported => DAddressNotSupported
  | SePayloadTooLarge => DOther "mesh datagram open too large"
  | SeBufferFull => DQueueFull
  | SeClosed => DConnectionRefused
  end.

Definition control_result (c : StreamControl) (open_token : Z) : option (result unit DisconnectReason) :=
  match c with
  | OpenAccepted t => if t =? open_token then Some (Ok tt) else None
  | OpenRejected t reason => if t =? open_token then Some (Err (wire_close_to_disconnect reason)) else None
  end.

(** The wait of [connect] over the controls that came before the time-out; the flag says
    whether the driver ended. *)
Fixpoint await_open (token : Z) (cs : list StreamControl) (ended : bool) : result unit DisconnectReason :=
  match cs with
  | [] => Err (if ended then DConnectionReset else DTimedOut)
  | c :: cs => match control_result c token with Some r => r | None => await_open token cs ended end
  end.

(** [x.rotate_left(n)] of a [u64] *)
Definition rotate_left (x n : Z) : Z := Z.lor (as_u64 (Z.shiftl x n)) (Z.shiftr x (64 - n)).

(** [time] is [None] when the clock is before 1970. *)
Definition open_token (counter random : Z) (time : option (Z * Z)) : Z :=
  let time_mix := match time with
                  | Some (secs, nanos) => Z.lxor (as_u64 (Z.shiftl secs 32)) nanos
                  | None => rotate_left counter 17
                  end in
  let token := Z.lxor (Z.lxor random (rotate_left time_mix 23)) (rotate_left counter 41) in
  if token =? 0 then Z.lor counter 1 else token.

(** [payload.chunks(n)] *)
Fixpoint chunks_fuel (fuel n : nat) (b : list Z) : list (list Z) :=
  match fuel, b with
  | S fuel, _ :: _ => take n b :: chunks_fuel fuel n (drop n b)
  | _, _ => []
  end.
Definition chunks (n : nat) (b : list Z) : list (list Z) := chunks_fuel (length b) n b.

(** The data frames of a payload, numbered from [next]. *)
Fixpoint number_chunks (sid : string) (next : Z) (cs : list (list Z)) : list MeshFrame * Z :=
  match cs with
  | [] => ([], next)
  | c :: cs => let '(fs, n) := number_chunks sid (as_u64 (next + 1)) cs in (FStreamData sid next c :: fs, n)
  end.

Section SendHalf.
Context {S : Type} (send_data_frames : list MeshFrame -> S -> result unit SendError * S).

(** The loop of [send]: a batch goes out as soon as it is full, the rest at the end; the
    numbers of a batch that fails are used up. *)
Fixpoint send_chunks (sid : string) (cs : list (list Z)) (frames : list MeshFrame) (next : Z) (s : S) :
    result unit DisconnectReason * Z * S :=
  match cs with
  | [] =>
      let '(r, s) := send_data_frames frames s in
      (match r with Ok _ => Ok tt | Err e => Err (send_error_to_disconnect e) end, next, s)
  | c :: cs =>
      let frames := (frames ++ [FStreamData sid next c])%list in
      let next := as_u64 (next + 1) in
      if (STREAM_FLUSH_CHUNK_BATCH <=? length frames)%nat then
        match send_data_frames frames s with
        | (Err e, s) => (Err (send_error_to_disconnect e), next, s)
        | (Ok _, s) => send_chunks sid cs [] next s
        end
      else send_chunks sid cs frames next s
  end.

Definition stream_send (closed_ : bool) (sid : string) (chunk_bytes : nat) (b : list Z) (next : Z) (s : S) :
    result unit DisconnectReason * Z * S :=
  if closed_ then (Err DSessionClosed, next, s) else send_chunks sid (chunks chunk_bytes b) [] next s.
End SendHalf.

(** *** The receiving half of a stream *)

Record RecvHalf := mkRecvHalf {
  rh_pending : list (list Z);
  rh_terminal : option StreamEvent;
  rh_error : option DisconnectReason;
  rh_closed : bool
}.

Definition recv_half_new : RecvHalf := mkRecvHalf [] None None false.

Definition apply_stream_event (e : StreamEvent) (h : RecvHalf) : RecvHalf :=
  match e with
  | EvShutdownWrite | EvClose Normal => h
  | EvClose r => mkRecvHalf (rh_pending h) (rh_terminal h) (Some (wire_close_to_disconnect r)) (rh_closed h)
  | EvQueueFull => mkRecvHalf (rh_pending h) (rh_terminal h) (Some DQueueFull) (rh_closed h)
  end.

Definition set_data (l : list (list Z)) (i : StreamInboxes) : StreamInboxes :=
  mkInboxes (ctl_inbox i) (ctl_open i) l (event_inbox i) (running i).
Definition set_events (l : list StreamEvent) (i : StreamInboxes) : StreamInboxes :=
  mkInboxes (ctl_inbox i) (ctl_open i) (data_inbox i) l (running i).

Inductive Received := Chunk_ (b : list Z) | Ended | Waiting.

(** The branch an event takes: data that is still queued goes first. *)
Definition recv_event (e : StreamEvent) (h : RecvHalf) (i : StreamInboxes) : Received * RecvHalf * StreamInboxes :=
  match (rh_pending h ++ data_inbox i)%list with
  | b :: rest => (Chunk_ b, mkRecvHalf rest (Some e) (rh_error h) (rh_closed h), set_data [] i)
  | [] => (Ended, apply_stream_event e h, i)
  end.

(** [prefer_event] is the choice of [select!] when the data channel has ended and an
    event is ready too. *)
Definition stream_recv (prefer_event : bool) (h : RecvHalf) (i : StreamInboxes) : Received * RecvHalf * StreamInboxes :=
  match rh_pending h with
  | b :: rest => (Chunk_ b, mkRecvHalf rest (rh_terminal h) (rh_error h) (rh_closed h), i)
  | [] =>
      match data_inbox i with
      | b :: rest => (Chunk_ b, h, set_data rest i)
      | [] =>
          match rh_terminal h with
          | Some e => (Ended, apply_stream_event e (mkRecvHalf [] None (rh_error h) (rh_closed h)), i)
          | None =>
              if rh_closed h then (Ended, h, i)
              else match event_inbox i with
                   | e :: rest =>
                       if negb (running i) && negb prefer_event then (Ended, h, i)
                       else recv_event e h (set_events rest i)
                   | [] => if running i then (Waiting, h, i) else (Ended, h, i)
                   end
          end
      end
  end.

(** [split] drops the control inbox. *)
Definition split_stream (i : StreamInboxes) : StreamInboxes :=
  mkInboxes [] false (data_inbox i) (event_inbox i) (running i).

(** *** Datagrams *)

Definition mesh_send_to (closed_ : bool) (sid : string) (next : Z) (target : Endpoint) (b : list Z) :
    result MeshFrame SendError * Z :=
  if closed_ then (Err SeClosed, next)
  else if (MAX_MESH_DATAGRAM_PAYLOAD_BYTES <? length b)%nat then (Err SePayloadTooLarge, next)
  else (Ok (FDatagramSend sid next target b), as_u64 (next + 1)).

Definition mesh_recv_from (closed_ : bool) (err : option DisconnectReason) (i : DatagramInboxes) :
    option (option (Endpoint * list Z)) * option DisconnectReason * DatagramInboxes :=
  if closed_ then (Some None, err, i)
  else match dg_errors i with
       | r :: rs => (Some None, Some r, mkDgInboxes (dg_inbox i) rs (dg_running i))
       | [] =>
           if negb (dg_running i) then (Some None, err, i)
           else match dg_inbox i with
                | x :: rest => (Some (Some x), err, mkDgInboxes rest [] (dg_running i))
                | [] => (None, err, i)
                end
       end.

(** ** The sender's task *)

Section SenderTask.
Context `{Bincode WireFrame} `{Bincode MeshEvent} `{MeshCrypto}.

(** A request is refused at once when its queue is full. *)
Definition submit (control : bool) (r : SenderRequest) (s : Sender) : Sender :=
  if control then
    if (length (control_q s) <? CONTROL_QUEUE_BOUND)%nat then set_requests (control_q s ++ [r]) (data_q s) s
    else answer (request_id r) (Err SeBufferFull) s
  else
    if (length (data_q s) <? DATA_QUEUE_BOUND)%nat then set_requests (control_q s) (data_q s ++ [r]) s
    else answer (request_id r) (Err SeBufferFull) s.

(** The select loops of [run] and [collect_data_until_flush]: control before data before
    the timer, and a full batch before all of them. *)
Inductive sender_step : list nat * Sender -> list nat * Sender -> Prop :=
| step_submit control r ids s : request_id r ∉ ids -> sender_step (ids, s) (request_id r :: ids, submit control r s)
| step_full env ids s : (DATA_FLUSH_BATCH_DATAGRAMS <= pending_data_datagrams s)%nat ->
    sender_step (ids, s) (ids, flush_pending_data env s)
| step_control env now ids s : control_q s <> [] -> (pending_data_datagrams s < DATA_FLUSH_BATCH_DATAGRAMS)%nat ->
    sender_step (ids, s) (ids, handle_control env now s)
| step_data now ids s : control_q s = [] -> data_q s <> [] -> (pending_data_datagrams s < DATA_FLUSH_BATCH_DATAGRAMS)%nat ->
    sender_step (ids, s) (ids, push_data now s)
| step_timer env ids s : control_q s = [] -> data_q s = [] -> sender_step (ids, s) (ids, flush_pending_data env s)
| step_closed ids s : control_q s = [] -> data_q s = [] ->
    sender_step (ids, s) (ids, complete_pending_data (Err SeClosed) s).
End SenderTask.

Definition sender_start (mode : NativeEventMode) (peer : SocketAddr) (policy : EgressPolicy) (seal : option MeshSecEgress) : Sender :=
  mkSender mode (coord_new peer) policy seal (with_peer loop_bind peer) [] [] [] [].
