(* ===== verification/MeshIngress.v ===== *)
(** The mesh-peer UDP ingress (crates/mesh-bus-ingress-mesh-peer-udp/src): opening and
    decoding of packets, per-family reordering, and the sessions the frames of a peer
    open on the bus.  What the bus does with a session is a parameter ([PeerBus]), whose
    world also chooses the key a full hash map gives up; replies to a peer are logged with
    the sealing state they are sent with. *)
From S2P Require Import Prelude Numbers NetAddr Endpoint DispatchTypes Replay MeshWire MeshCodec Reorder MeshSec UdpLoop.
From S2P Require Import MeshPeer.
Local Open Scope string_scope.
Local Open Scope Z_scope.

Definition Key : Type := SocketAddr * string.

(** ** mouth_registry.rs *)

Definition MOUTH_SOFT_TTL_SECS : Z := 30.

Record MouthEntry := mkMouth {
  me_epoch : Z;
  me_udp_addr : string;
  me_family_filter : list string;
  me_capacity : Z;
  last_seen : Z
}.

(** Entries of other peers, and those of this peer seen lately. *)
Definition mouth_kept (peer : SocketAddr) (now : Z) (kv : Key * MouthEntry) : bool :=
  negb (bool_decide (kv.1.1 = peer)) || (Z.max 0 (now - last_seen kv.2) <=? MOUTH_SOFT_TTL_SECS).

Definition prune_mouths (peer : SocketAddr) (now : Z) (m : gmap Key MouthEntry) : gmap Key MouthEntry :=
  list_to_map (List.filter (mouth_kept peer now) (map_to_list m)).

Definition apply_port_open (m : gmap Key MouthEntry) (peer : SocketAddr) (mouth : ReceiverMouth) (now : Z) :
    bool * gmap Key MouthEntry :=
  let m := prune_mouths peer now m in
  let key := (peer, mouth_id mouth) in
  let fresh := mkMouth (mouth_epoch mouth) (udp_addr mouth) (family_filter mouth) (advertised_capacity mouth) now in
  match m !! key with
  | Some e => if mouth_epoch mouth <? me_epoch e then (false, m) else (true, <[key := fresh]> m)
  | None => (true, <[key := fresh]> m)
  end.

Definition apply_port_close (m : gmap Key MouthEntry) (peer : SocketAddr) (id : string) (epoch : Z) :
    bool * gmap Key MouthEntry :=
  match m !! (peer, id) with
  | Some e => if epoch <? me_epoch e then (false, m) else (true, delete (peer, id) m)
  | None => (false, m)
  end.

(** ** Drops and replies (lib.rs) *)

Inductive NativeDropReason :=
| EventDecode | ControlPayloadMissing | ControlFrameDecode | UnsupportedEventFamily | QueueOverflow | PackageFrameDecode
| StreamDataPending.

Definition native_drop_reason (r : NativeDropReason) : string :=
  match r with
  | EventDecode => "event_decode"
  | ControlPayloadMissing => "control_payload_missing"
  | ControlFrameDecode => "control_frame_decode"
  | UnsupportedEventFamily => "unsupported_event_family"
  | QueueOverflow => "queue_overflow"
  | PackageFrameDecode => "package_frame_decode"
  | StreamDataPending => "stream_data_pending"
  end.

Definition meshsec_drop_reason (e : MeshSecError) : string :=
  match e with
  | Auth => "auth"
  | MsReplay => "replay"
  | MsReplayTooOld => "replay_too_old"
  | MeshSec.Truncated => "truncated"
  | MsUnsupportedVersion _ => "unsupported_version"
  | MeshSec.PayloadTooLarge => "payload_too_large"
  | Serialize _ => "serialize"
  end.

Record MeshSecIngress := mkIngressSec { is_local_node_id : string; is_keys : list MeshSecOpenKey; is_boot_salt : list Z }.

(** The context of replies to a peer; the counter is the one kept under its id. *)
Record MeshSecReplySeal := mkReplySeal { reply_ctx : MeshSecSealContext; reply_peer_id : string }.

Definition reply_seal_for (ms : MeshSecIngress) (id : string) (counters : gmap string Z) :
    option MeshSecReplySeal * gmap string Z :=
  match List.find (fun k => bool_decide (peer_id k = id)) (is_keys ms) with
  | None => (None, counters)
  | Some k =>
      (Some (mkReplySeal (mkSealContext (is_local_node_id ms) (key_remote_node_id k) (key_static_key k) (is_boot_salt ms)) id),
       match counters !! id with Some _ => counters | None => <[id := 1]> counters end)
  end.

Definition reject_reason (r : DisconnectReason) : StreamOpenRejectReason :=
  match r with
  | DNoUsableExit | DHostUnreachable | DConnectionRefused | DNetworkUnreachable | DTimedOut => RNoUsableExit
  | _ => RProtocolError
  end.

Definition ingress_close_reason (r : DisconnectReason) : CloseReasonWire :=
  match r with
  | DNoUsableExit | DHostUnreachable | DConnectionRefused | DNetworkUnreachable | DTimedOut => NoUsableExit
  | DAddressNotSupported | DOther _ => ProtocolError
  | _ => Normal
  end.

Record PendingStreamData := mkPendingData { pd_frames : list (list Z); pd_bytes : Z }.

Definition pending_push (p : PendingStreamData) (b : list Z) : PendingStreamData :=
  mkPendingData (pd_frames p ++ [b]) (Z.min (pd_bytes p + Z.of_nat (length b)) usize_max).

(** ** The bus *)

(** Sessions are numbers; [true] from a send means it was taken. *)
Class PeerBus (B : Type) := {
  bus_open_datagram : Endpoint -> B -> option nat * B;
  (** opening and connecting *)
  bus_open_stream : Endpoint -> option string -> B -> result nat DisconnectReason * B;
  bus_send_to : nat -> Endpoint -> list Z -> B -> B;
  bus_send : nat -> list Z -> B -> bool * B;
  bus_shutdown : nat -> B -> B;
  bus_close : nat -> B -> B;
  (** [keys().next()] of a map with these keys *)
  hash_first : list Key -> B -> option Key
}.

(** An entry of the map gives way when it is full. *)
Definition CONTROL_REPLY_BOUND : nat := 64.

Record Reply := mkReply { rp_peer : SocketAddr; rp_seal : option MeshSecReplySeal; rp_frame : MeshFrame }.

Inductive DropLog := DropNative (peer : SocketAddr) (r : NativeDropReason) | DropMeshsec (peer : SocketAddr) (e : MeshSecError).

Record Ingress (B : Type) := mkIngress {
  sessions : gmap Key nat;
  stream_sessions : gmap Key nat;
  pending_stream_data : gmap Key PendingStreamData;
  in_families : gmap Key FamilyReorderState;
  mouths : gmap Key MouthEntry;
  in_replay : MeshSecReplayCache;
  reply_counters : gmap string Z;
  (** the queue of the control-reply worker, and the replies sent directly *)
  control_replies : list Reply;
  replies : list Reply;
  drop_log : list DropLog;
  bus : B
}.
Arguments mkIngress {B}. Arguments sessions {B}. Arguments stream_sessions {B}. Arguments pending_stream_data {B}.
Arguments in_families {B}. Arguments mouths {B}. Arguments in_replay {B}. Arguments reply_counters {B}.
Arguments control_replies {B}. Arguments replies {B}. Arguments drop_log {B}. Arguments bus {B}.

Record IngressCfg_ := mkIngressCfg {
  max_peer_sessions : nat;
  pending_max_bytes : Z;
  ig_meshsec : option MeshSecIngress;
  ig_mode : NativeEventMode
}.

Definition MAX_PEER_SESSIONS : nat := 1024.
Definition DEFAULT_PENDING_STREAM_DATA_MAX_BYTES : Z := 64 * 1024.
Definition with_max_peer_sessions (n : nat) (c : IngressCfg_) : IngressCfg_ :=
  mkIngressCfg (Nat.max n 1) (pending_max_bytes c) (ig_meshsec c) (ig_mode c).
Definition with_pending_stream_data_max_bytes (n : Z) (c : IngressCfg_) : IngressCfg_ :=
  mkIngressCfg (max_peer_sessions c) (Z.max n 1) (ig_meshsec c) (ig_mode c).
Definition ingress_cfg_new : IngressCfg_ :=
  mkIngressCfg MAX_PEER_SESSIONS DEFAULT_PENDING_STREAM_DATA_MAX_BYTES None SecureUdpNative.

Section Ingress.
Context {B : Type} `{!PeerBus B}.
Abbreviation St := (Ingress B).

Definition upd_sessions (f : gmap Key nat -> gmap Key nat) (s : St) : St :=
  mkIngress (f (sessions s)) (stream_sessions s) (pending_stream_data s) (in_families s) (mouths s) (in_replay s) (reply_counters s)
    (control_replies s) (replies s) (drop_log s) (bus s).
Definition upd_streams (f : gmap Key nat -> gmap Key nat) (s : St) : St :=
  mkIngress (sessions s) (f (stream_sessions s)) (pending_stream_data s) (in_families s) (mouths s) (in_replay s) (reply_counters s)
    (control_replies s) (replies s) (drop_log s) (bus s).
Definition upd_pending (f : gmap Key PendingStreamData -> gmap Key PendingStreamData) (s : St) : St :=
  mkIngress (sessions s) (stream_sessions s) (f (pending_stream_data s)) (in_families s) (mouths s) (in_replay s) (reply_counters s)
    (control_replies s) (replies s) (drop_log s) (bus s).
Definition upd_families (f : gmap Key FamilyReorderState -> gmap Key FamilyReorderState) (s : St) : St :=
  mkIngress (sessions s) (stream_sessions s) (pending_stream_data s) (f (in_families s)) (mouths s) (in_replay s) (reply_counters s)
    (control_replies s) (replies s) (drop_log s) (bus s).
Definition upd_mouths (f : gmap Key MouthEntry -> gmap Key MouthEntry) (s : St) : St :=
  mkIngress (sessions s) (stream_sessions s) (pending_stream_data s) (in_families s) (f (mouths s)) (in_replay s) (reply_counters s)
    (control_replies s) (replies s) (drop_log s) (bus s).
Definition set_sealing (r : MeshSecReplayCache) (c : gmap string Z) (s : St) : St :=
  mkIngress (sessions s) (stream_sessions s) (pending_stream_data s) (in_families s) (mouths s) r c
    (control_replies s) (replies s) (drop_log s) (bus s).
Definition send_reply (r : Reply) (s : St) : St :=
  mkIngress (sessions s) (stream_sessions s) (pending_stream_data s) (in_families s) (mouths s) (in_replay s) (reply_counters s)
    (control_replies s) (replies s ++ [r]) (drop_log s) (bus s).
Definition drop_with (d : DropLog) (s : St) : St :=
  mkIngress (sessions s) (stream_sessions s) (pending_stream_data s) (in_families s) (mouths s) (in_replay s) (reply_counters s)
    (control_replies s) (replies s) (drop_log s ++ [d]) (bus s).
Definition set_bus (b : B) (s : St) : St :=
  mkIngress (sessions s) (stream_sessions s) (pending_stream_data s) (in_families s) (mouths s) (in_replay s) (reply_counters s)
    (control_replies s) (replies s) (drop_log s) b.

(** [control_reply_tx.try_send]: nothing when the worker's queue is full. *)
Definition queue_reply (r : Reply) (s : St) : St :=
  if (length (control_replies s) <? CONTROL_REPLY_BOUND)%nat then
    mkIngress (sessions s) (stream_sessions s) (pending_stream_data s) (in_families s) (mouths s) (in_replay s) (reply_counters s)
      (control_replies s ++ [r]) (replies s) (drop_log s) (bus s)
  else s.

Definition ingress_start (b : B) : St := mkIngress ∅ ∅ ∅ ∅ ∅ (replay_new MESHSEC_REPLAY_WINDOW_BITS) ∅ [] [] [] b.

Definition keys_of {A} (m : gmap Key A) : list Key := (map_to_list m).*1.

Definition close_session (id : nat) (s : St) : St := set_bus (bus_close id (bus s)) s.

(** [if sessions.len() >= max_peer_sessions { .. }] for either map *)
Definition evict_session (max : nat) (s : St) : St :=
  if (max <=? size (sessions s))%nat then
    match hash_first (keys_of (sessions s)) (bus s) with
    | None => s
    | Some k =>
        match sessions s !! k with
        | None => s
        | Some id => close_session id (upd_sessions (delete k) s)
        end
    end
  else s.

Definition evict_stream (max : nat) (s : St) : St :=
  if (max <=? size (stream_sessions s))%nat then
    match hash_first (keys_of (stream_sessions s)) (bus s) with
    | None => s
    | Some k =>
        match stream_sessions s !! k with
        | None => s
        | Some id => close_session id (upd_streams (delete k) s)
        end
    end
  else s.

Section Handlers.
Variables (cfg : IngressCfg_) (peer : SocketAddr) (seal : option MeshSecReplySeal).

Definition on_datagram_open (o : MeshWire.DatagramOpen Endpoint) (s : St) : St :=
  match do_fixed_target o with
  | None => s
  | Some target =>
      let key := (peer, do_session_id o) in
      match sessions s !! key with
      | Some _ => s
      | None =>
          let '(r, b) := bus_open_datagram target (bus s) in
          let s := set_bus b s in
          match r with
          | None => s
          | Some id => upd_sessions (insert key id) (evict_session (max_peer_sessions cfg) s)
          end
      end
  end.

Definition on_datagram_send (sid : string) (target : Endpoint) (b : list Z) (s : St) : St :=
  let key := (peer, sid) in
  let send id s := set_bus (bus_send_to id target b (bus s)) s in
  match sessions s !! key with
  | Some id => send id s
  | None =>
      let '(r, bw) := bus_open_datagram target (bus s) in
      let s := set_bus bw s in
      match r with
      | None => s
      | Some id => send id (upd_sessions (insert key id) (evict_session (max_peer_sessions cfg) s))
      end
  end.

Definition on_datagram_close (sid : string) (s : St) : St :=
  let key := (peer, sid) in
  let s := upd_families (delete key) s in
  match sessions s !! key with
  | None => s
  | Some id => close_session id (upd_sessions (delete key) s)
  end.

(** Send to an open stream; a failure ends it. *)
Definition stream_write (key : Key) (id : nat) (b : list Z) (s : St) : bool * St :=
  let '(ok, bw) := bus_send id b (bus s) in
  let s := set_bus bw s in
  if ok then (true, s)
  else (false, match stream_sessions s !! key with
               | None => s
               | Some id => close_session id (upd_streams (delete key) s)
               end).

(** The data that came before the stream was open. *)
Fixpoint send_early (key : Key) (id : nat) (bs : list (list Z)) (s : St) : St :=
  match bs with
  | [] => s
  | b :: bs => match stream_write key id b s with (true, s) => send_early key id bs s | (false, s) => s end
  end.

Definition on_stream_open (o : MeshWire.StreamOpen Endpoint) (s : St) : St :=
  let key := (peer, so_session_id o) in
  match stream_sessions s !! key with
  | Some _ => s
  | None =>
      let '(r, b) := bus_open_stream (so_target o) (so_route_group o) (bus s) in
      let s := set_bus b s in
      match r with
      | Err reason =>
          send_reply (mkReply peer seal (FStreamOpenReject (so_session_id o) (so_open_token o) (reject_reason reason)
                                           (ingress_close_reason reason))) s
      | Ok id =>
          let s := send_reply (mkReply peer seal (FStreamOpenAccepted (so_session_id o) (so_open_token o))) s in
          let s := upd_streams (insert key id) (evict_stream (max_peer_sessions cfg) s) in
          match pending_stream_data s !! key with
          | None => s
          | Some p => send_early key id (pd_frames p) (upd_pending (delete key) s)
          end
      end
  end.

Definition on_stream_data (sid : string) (b : list Z) (s : St) : St :=
  let key := (peer, sid) in
  match stream_sessions s !! key with
  | Some id => (stream_write key id b s).2
  | None =>
      let p := default (mkPendingData [] 0) (pending_stream_data s !! key) in
      if pending_max_bytes cfg <? Z.min (pd_bytes p + Z.of_nat (length b)) usize_max
      then drop_with (DropNative peer StreamDataPending) (upd_pending (insert key p) s)
      else upd_pending (insert key (pending_push p b)) s
  end.

Definition on_stream_shutdown (sid : string) (s : St) : St :=
  match stream_sessions s !! (peer, sid) with
  | None => s
  | Some id => set_bus (bus_shutdown id (bus s)) s
  end.

Definition on_stream_close (sid : string) (s : St) : St :=
  let key := (peer, sid) in
  let s := upd_pending (delete key) (upd_families (delete key) s) in
  match stream_sessions s !! key with
  | None => s
  | Some id => close_session id (upd_streams (delete key) s)
  end.

Definition handle_frame (now : Z) (f : MeshFrame) (s : St) : St :=
  match f with
  | FDatagramOpen o => on_datagram_open o s
  | FDatagramSend sid _ target b => on_datagram_send sid target b s
  | FDatagramClose sid _ => on_datagram_close sid s
  | FStreamOpen o => on_stream_open o s
  | FStreamData sid _ b => on_stream_data sid b s
  | FStreamShutdownWrite sid => on_stream_shutdown sid s
  | FStreamClose sid _ => on_stream_close sid s
  | FPortOpen mouth => upd_mouths (fun m => (apply_port_open m peer mouth now).2) s
  | FPortClose id epoch => upd_mouths (fun m => (apply_port_close m peer id epoch).2) s
  | _ => s
  end.

Definition handle_frames (now : Z) (fs : list MeshFrame) (s : St) : St := foldl (fun s f => handle_frame now f s) s fs.
End Handlers.

Section Decode.
Context `{Bincode WireFrame} `{Bincode MeshEvent} `{MeshCrypto}.
Variable cfg : IngressCfg_.

(** Layer 1: the clear bytes and how to seal replies; [None]: dropped. *)
Definition open_inbound (now : Z) (peer : SocketAddr) (packet : list Z) (s : St) :
    option (list Z * option MeshSecReplySeal * bool) * St :=
  match ig_meshsec cfg with
  | None => (Some (packet, None, false), s)
  | Some ms =>
      match open_bytes packet (is_keys ms) (is_local_node_id ms) (lo_epoch now) (hi_epoch now) (in_replay s) with
      | (Err e, replay) => (None, drop_with (DropMeshsec peer e) (set_sealing replay (reply_counters s) s))
      | (Ok (id, clear), replay) =>
          let '(seal, counters) := reply_seal_for ms id (reply_counters s) in
          (Some (clear, seal, true), set_sealing replay counters s)
      end
  end.

(** The frames of delivered packages; one that does not decode is logged. *)
Fixpoint decode_packages (peer : SocketAddr) (ps : list DataPackage) (s : St) : list MeshFrame * St :=
  match ps with
  | [] => ([], s)
  | p :: ps =>
      match decode_frame (payload p) with
      | (Ok f, _) => let '(fs, s) := decode_packages peer ps s in (f :: fs, s)
      | (Err _, _) => decode_packages peer ps (drop_with (DropNative peer PackageFrameDecode) s)
      end
  end.

(** A new family takes the place of another when there are too many. *)
Definition evict_family (max : nat) (key : Key) (s : St) : St :=
  match in_families s !! key with
  | Some _ => s
  | None =>
      if (max <=? size (in_families s))%nat then
        match hash_first (keys_of (in_families s)) (bus s) with None => s | Some k => upd_families (delete k) s end
      else s
  end.

Definition push_family (peer : SocketAddr) (seal : option MeshSecReplySeal) (e : MeshEvent) (p : DataPackage) (s : St) :
    list MeshFrame * St :=
  let key := (peer, family_id e) in
  let s := evict_family (max_peer_sessions cfg) key s in
  let '(outcome, fam) := push_package (family_of (in_families s) key) p in
  let s := upd_families (insert key fam) s in
  match outcome with
  | Deliver ps => decode_packages peer ps s
  | WindowOverflow _ =>
      let s := drop_with (DropNative peer QueueOverflow) s in
      let s := match semantic e with
               | Stream => queue_reply (mkReply peer seal (FStreamClose (family_id e) ProtocolError)) s
               | _ => s
               end in
      ([], upd_families (delete key) s)
  | Gap ack => ([], queue_reply (mkReply peer seal (FAckNack ack)) s)
  | Buffered | Duplicate => ([], s)
  end.

(** Layer 2: the frames of the clear bytes, in order. *)
Definition decode_inbound (peer : SocketAddr) (clear : list Z) (seal : option MeshSecReplySeal) (sealed : bool) (s : St) :
    list MeshFrame * St :=
  match ig_mode cfg with
  | MeshFrameMode =>
      match (if sealed then decode_mesh_frame_clear clear else (decode_frame clear).1) with
      | Ok f => ([f], s)
      | Err _ => ([], s)
      end
  | SecureUdpNative =>
      match decode_event clear with
      | (Err _, _) => ([], drop_with (DropNative peer EventDecode) s)
      | (Ok e, _) =>
          match semantic e with
          | Control | Observation =>
              match event_frame_payload e with
              | None => ([], drop_with (DropNative peer ControlPayloadMissing) s)
              | Some b =>
                  match decode_frame b with
                  | (Ok f, _) => ([f], s)
                  | (Err _, _) => ([], drop_with (DropNative peer ControlFrameDecode) s)
                  end
              end
          | Stream | Datagram =>
              match package e with
              | None => ([], drop_with (DropNative peer UnsupportedEventFamily) s)
              | Some p => push_family peer seal e p s
              end
          end
      end
  end.

(** One datagram of the receive loop. *)
Definition handle_inbound (now : Z) (peer : SocketAddr) (packet : list Z) (s : St) : St :=
  match open_inbound now peer packet s with
  | (None, s) => s
  | (Some (clear, seal, sealed), s) =>
      let '(fs, s) := decode_inbound peer clear seal sealed s in
      handle_frames cfg peer seal now fs s
  end.

(** [encode_frame_datagrams] of the ingress's sender: a reply as the packet it becomes,
    and the counters after it. *)
Definition encode_reply (now : Z) (r : Reply) (counters : gmap string Z) :
    result OutboundDatagram SendError * gmap string Z :=
  let sealer := (fun sl => mkSealer (reply_ctx sl) (default 1 (counters !! reply_peer_id sl))) <$> rp_seal r in
  let '(res, sealer') := encode_packet (ig_mode cfg) STEER_DELIVERY_POLICY_ID now (rp_frame r) sealer in
  let counters := match rp_seal r, sealer' with
                  | Some sl, Some s' => <[reply_peer_id sl := seal_counter s']> counters
                  | _, _ => counters
                  end in
  match res with
  | Err e => (Err e, counters)
  | Ok b => if (MAX_UDP_PAYLOAD_BYTES <? length b)%nat then (Err SePayloadTooLarge, counters)
            else (Ok (mkOutbound (rp_peer r) b), counters)
  end.
End Decode.
End Ingress.

(** ** Response pumps *)

(** The frames a datagram session sends back, numbered from 1 with saturation. *)
Fixpoint return_frames (sid : string) (sq : Z) (l : list (Endpoint * list Z)) : list MeshFrame :=
  match l with
  | [] => []
  | (src, b) :: l => FDatagramReturn sid sq src b :: return_frames sid (Z.min (sq + 1) U64_MAX) l
  end.

(** The batches a stream session sends back for the payloads it reads, and its end. *)
Fixpoint pump_chunks (sid : string) (cs : list (list Z)) (frames : list MeshFrame) (sq : Z) : list (list MeshFrame) * Z :=
  match cs with
  | [] => (match frames with [] => [] | _ => [frames] end, sq)
  | c :: cs =>
      let frames := (frames ++ [FStreamData sid sq c])%list in
      let sq := Z.min (sq + 1) U64_MAX in
      if (STREAM_FLUSH_CHUNK_BATCH <=? length frames)%nat
      then let '(bs, n) := pump_chunks sid cs [] sq in (frames :: bs, n)
      else pump_chunks sid cs frames sq
  end.

Fixpoint pump_stream (sid : string) (chunk_bytes : nat) (sq : Z) (payloads : list (list Z)) : list (list MeshFrame) :=
  match payloads with
  | [] => [[FStreamShutdownWrite sid]]
  | b :: payloads => let '(bs, n) := pump_chunks sid (chunks chunk_bytes b) [] sq in (bs ++ pump_stream sid chunk_bytes n payloads)%list
  end.

(** ** The sender of replies (sender.rs) *)

Inductive ReplyRequest :=
| RqFrame (r : Reply) (done_ : nat)
| RqFrames (peer : SocketAddr) (seal : option MeshSecReplySeal) (fs : list MeshFrame) (done_ : nat).

Definition reply_id (r : ReplyRequest) : nat := match r with RqFrame _ d | RqFrames _ _ _ d => d end.

(** The counters are those of the ingress, shared with the seals of its replies. *)
Record ReplySender := mkReplySender {
  ry_loop : UdpPacketLoop;
  ry_counters : gmap string Z;
  ry_control : list ReplyRequest;
  ry_data : list ReplyRequest;
  ry_pending : list PendingSend;
  ry_answers : list (nat * result unit SendError)
}.

Definition reply_sender_start (l : UdpPacketLoop) (counters : gmap string Z) : ReplySender := mkReplySender l counters [] [] [] [].

Definition reply_answer (id : nat) (r : result unit SendError) (s : ReplySender) : ReplySender :=
  mkReplySender (ry_loop s) (ry_counters s) (ry_control s) (ry_data s) (ry_pending s) (ry_answers s ++ [(id, r)]).
Definition set_ry_loop (l : UdpPacketLoop) (s : ReplySender) : ReplySender :=
  mkReplySender l (ry_counters s) (ry_control s) (ry_data s) (ry_pending s) (ry_answers s).
Definition set_ry_counters (c : gmap string Z) (s : ReplySender) : ReplySender :=
  mkReplySender (ry_loop s) c (ry_control s) (ry_data s) (ry_pending s) (ry_answers s).
Definition set_ry_requests (c d : list ReplyRequest) (s : ReplySender) : ReplySender :=
  mkReplySender (ry_loop s) (ry_counters s) c d (ry_pending s) (ry_answers s).
Definition set_ry_pending (p : list PendingSend) (s : ReplySender) : ReplySender :=
  mkReplySender (ry_loop s) (ry_counters s) (ry_control s) (ry_data s) p (ry_answers s).

(** [send_frame] and [send_data_frames]: refused at once when the queue is full; data
    frames among which there is a control frame go one by one. *)
Definition reply_submit (control : bool) (r : ReplyRequest) (s : ReplySender) : ReplySender :=
  if control then
    if (length (ry_control s) <? CONTROL_QUEUE_BOUND)%nat then set_ry_requests (ry_control s ++ [r]) (ry_data s) s
    else reply_answer (reply_id r) (Err SeBufferFull) s
  else
    if (length (ry_data s) <? DATA_QUEUE_BOUND)%nat then set_ry_requests (ry_control s) (ry_data s ++ [r]) s
    else reply_answer (reply_id r) (Err SeBufferFull) s.
Definition send_as_batch (fs : list MeshFrame) : bool :=
  match fs with [] => false | _ => negb (existsb is_control_frame fs) end.

Section ReplyTask.
Context `{Bincode WireFrame} `{Bincode MeshEvent} `{MeshCrypto}.
Variable cfg : IngressCfg_.

Fixpoint encode_replies (now : Z) (rs : list Reply) (acc : list OutboundDatagram) (counters : gmap string Z) :
    result (list OutboundDatagram) SendError * gmap string Z :=
  match rs with
  | [] => (Ok acc, counters)
  | r :: rs =>
      match encode_reply cfg now r counters with
      | (Ok d, counters) => encode_replies now rs (acc ++ [d]) counters
      | (Err e, counters) => (Err e, counters)
      end
  end.

Definition request_replies (r : ReplyRequest) : list Reply :=
  match r with RqFrame r _ => [r] | RqFrames peer seal fs _ => mkReply peer seal <$> fs end.

Definition reply_push_request (now : Z) (r : ReplyRequest) (s : ReplySender) : list PendingSend * ReplySender :=
  match encode_replies now (request_replies r) [] (ry_counters s) with
  | (Ok ds, c) => ([mkPending ds (reply_id r)], set_ry_counters c s)
  | (Err e, c) => ([], reply_answer (reply_id r) (Err e) (set_ry_counters c s))
  end.

Fixpoint reply_push_requests (now : Z) (rs : list ReplyRequest) (s : ReplySender) : list PendingSend * ReplySender :=
  match rs with
  | [] => ([], s)
  | r :: rs =>
      let '(p, s) := reply_push_request now r s in
      let '(ps, s) := reply_push_requests now rs s in (p ++ ps, s)%list
  end.

Fixpoint reply_enqueue (ps : list PendingSend) (s : ReplySender) : list nat * ReplySender :=
  match ps with
  | [] => ([], s)
  | p :: ps =>
      let '(ok, l) := enqueue_all (ps_datagrams p) (ry_loop s) in
      let s := set_ry_loop l s in
      if ok then let '(ids, s) := reply_enqueue ps s in (ps_done p :: ids, s)
      else reply_enqueue ps (reply_answer (ps_done p) (Err SeBufferFull) s)
  end.

Definition reply_answer_all (ids : list nat) (r : result unit SendError) (s : ReplySender) : ReplySender :=
  foldl (fun s id => reply_answer id r s) s ids.

Definition reply_flush (env : FlushEnv) (ps : list PendingSend) (s : ReplySender) : ReplySender :=
  match ps with
  | [] => s
  | _ =>
      let '(ids, s) := reply_enqueue ps s in
      match ids with
      | [] => s
      | _ =>
          let '(ds, q) := drain_outbound (queues (ry_loop s)) in
          reply_answer_all ids (flush_verdict (env ds)) (set_ry_loop (set_queues q (ry_loop s)) s)
      end
  end.

Definition reply_handle_control (env : FlushEnv) (now : Z) (s : ReplySender) : ReplySender :=
  let rs := ry_control s in
  let '(ps, s) := reply_push_requests now rs (set_ry_requests [] (ry_data s) s) in
  reply_flush env ps s.

Definition reply_push_data (now : Z) (s : ReplySender) : ReplySender :=
  match ry_data s with
  | [] => s
  | r :: rest =>
      let '(ps, s) := reply_push_request now r (set_ry_requests (ry_control s) rest s) in
      set_ry_pending (ry_pending s ++ ps)%list s
  end.

Definition reply_flush_data (env : FlushEnv) (s : ReplySender) : ReplySender := reply_flush env (ry_pending s) (set_ry_pending [] s).
Definition reply_complete (r : result unit SendError) (s : ReplySender) : ReplySender :=
  reply_answer_all (ps_done <$> ry_pending s) r (set_ry_pending [] s).
Definition reply_pending_datagrams (s : ReplySender) : nat := sum_list (length <$> (ps_datagrams <$> ry_pending s)).

(** The select loops of [run] and [collect_data_until_flush] *)
Inductive reply_step : list nat * ReplySender -> list nat * ReplySender -> Prop :=
| ry_submit control r ids s : reply_id r ∉ ids -> reply_step (ids, s) (reply_id r :: ids, reply_submit control r s)
| ry_full env ids s : (DATA_FLUSH_BATCH_DATAGRAMS <= reply_pending_datagrams s)%nat -> reply_step (ids, s) (ids, reply_flush_data env s)
| ry_take_control env now ids s : ry_control s <> [] -> (reply_pending_datagrams s < DATA_FLUSH_BATCH_DATAGRAMS)%nat ->
    reply_step (ids, s) (ids, reply_handle_control env now s)
| ry_take_data now ids s : ry_control s = [] -> ry_data s <> [] -> (reply_pending_datagrams s < DATA_FLUSH_BATCH_DATAGRAMS)%nat ->
    reply_step (ids, s) (ids, reply_push_data now s)
| ry_timer env ids s : ry_control s = [] -> ry_data s = [] -> reply_step (ids, s) (ids, reply_flush_data env s)
| ry_closed ids s : ry_control s = [] -> ry_data s = [] -> reply_step (ids, s) (ids, reply_complete (Err SeClosed) s).
End ReplyTask.
