(* ===== verification/MeshPeerFacts.v ===== *)
(** The mesh peers: packets that fit the path, requests that are answered once, streams
    that arrive as they were sent, and the bounds of what an ingress keeps. *)
From stdpp Require Import relations.
From S2P Require Import Prelude Numbers NetAddr Endpoint DispatchTypes StateM Replay MeshWire MeshCodec Reorder ReorderFacts.
From S2P Require Import MeshSec MeshSecFacts UdpLoop MeshPeer MeshIngress.
Local Open Scope string_scope.
Local Open Scope Z_scope.

(** ** Sealed packets *)

Section Sealed.
Context `{Bincode WireFrame} `{Bincode MeshEvent} `{MeshCrypto} `{!MeshCryptoLaws}.

Lemma sealed_length clear ctx epoch cnt packet :
  length (ctx_boot_salt ctx) = MESHSEC_BOOT_SALT_LEN -> 0 <= cnt < 2 ^ 64 ->
  seal_bytes clear ctx epoch cnt = Ok packet -> (length packet <= MESHSEC_FIXED_OVERHEAD + 1024)%nat.
Proof.
  intros Hsalt Hcnt Hs. assert (Hlen : (length clear <= MESHSEC_MAX_CLEAR_LEN)%nat).
  { unfold seal_bytes in Hs. destruct (pack_meshsec_plaintext clear) as [plain|] eqn:E; [|done]. apply pack_spec in E as (Hl & _). exact Hl. }
  destruct (seal_shape ctx (mkOpenKey "" (local_node_id ctx) (static_key ctx)) epoch cnt eq_refl eq_refl Hsalt Hcnt clear Hlen)
    as (packet' & plain & Hs' & Hp & Hl & _).
  rewrite Hs in Hs'. injection Hs' as <-. rewrite Hl. apply pack_spec in Hp as (_ & Hb & _). apply bucket_spec in Hb as (Hin & _ & _).
  unfold MESHSEC_PADDING_BUCKETS in Hin. set_unfold. lia.
Qed.

Lemma encode_sealed_length mode policy now f s b s' :
  length (ctx_boot_salt (seal_ctx s)) = MESHSEC_BOOT_SALT_LEN -> 0 <= seal_counter s < 2 ^ 64 ->
  encode_packet mode policy now f (Some s) = (Ok b, s') -> (length b <= MESHSEC_FIXED_OVERHEAD + 1024)%nat.
Proof.
  intros Hsalt Hc. unfold encode_packet. destruct mode; cbn [next_counter].
  - destruct (encode_native policy f) as [e|]; [|done]. cbn. destruct (seal_bytes _ _ _ _) eqn:E; [|done]. intros [= <- <-].
    by eapply sealed_length.
  - unfold seal_mesh_frame. destruct (serialize_frame f); [|done]. cbn. destruct (seal_bytes _ _ _ _) eqn:E; [|done].
    intros [= <- <-]. by eapply sealed_length.
Qed.
End Sealed.

(** Every packet a sealing egress makes passes the path-MTU guard and the size check, in
    both wire modes: at most 1062 bytes, however long the frame. *)
Theorem sealed_packets_fit_the_path `{Bincode WireFrame} `{Bincode MeshEvent} `{MeshCrypto} `{!MeshCryptoLaws}
    (now : Z) (f : MeshFrame) (s : Sender) (m : MeshSecEgress) (ds : list OutboundDatagram) (s' : Sender)
    (Hseal : sd_seal s = Some m) (Hsalt : length (ctx_boot_salt (seal_ctx m)) = MESHSEC_BOOT_SALT_LEN)
    (Hcnt : 0 <= seal_counter m < 2 ^ 64) (Henc : encode_frame_datagrams now f s = (Ok ds, s')) :
  Forall (fun d => within_pmtu d = true /\ (length (out_payload d) <= 1062)%nat /\ destination d = coord_addr (sd_coord s)) ds
  /\ (1 <= length ds <= 4)%nat.
Proof.
  unfold encode_frame_datagrams in Henc. destruct (frame_event_meta f) as [[fam sq] sem]. rewrite Hseal in Henc.
  destruct (encode_packet _ _ now f (Some m)) as [[b|e] seal] eqn:E; [|done].
  apply encode_sealed_length in E; [|done..]. change (MESHSEC_FIXED_OVERHEAD + 1024)%nat with 1062%nat in E.
  destruct (_ <? _)%nat; [done|]. injection Henc as <- _. split.
  - apply Forall_replicate. cbn. split_and!; [|done|done]. unfold within_pmtu, CONSERVATIVE_PMTU. cbn. apply Z.leb_le. lia.
  - rewrite length_replicate. unfold send_copies, replicate_count. destruct (pol_mode _); lia.
Qed.

(** ** The sender answers *)

(** The requests that are not answered yet. *)
Definition waiting (s : Sender) : list nat :=
  ((request_id <$> control_q s) ++ (request_id <$> data_q s) ++ (ps_done <$> pending_data s))%list.

Definition answered (s : Sender) : list nat := (answers s).*1.

Definition same_queues (s s' : Sender) : Prop :=
  control_q s' = control_q s /\ data_q s' = data_q s /\ pending_data s' = pending_data s.

#[local] Instance same_queues_preorder : PreOrder same_queues.
Proof. split; [by intros s|]. intros s1 s2 s3 (? & ? & ?) (? & ? & ?). repeat split; congruence. Qed.

Section Answers.
Context `{Bincode WireFrame} `{Bincode MeshEvent} `{MeshCrypto}.

Lemma encode_one_keeps now f s r s' : encode_frame_datagrams now f s = (r, s') -> same_queues s s' /\ answers s' = answers s.
Proof.
  unfold encode_frame_datagrams. destruct (frame_event_meta f) as [[? ?] ?]. destruct (encode_packet _ _ _ _ _) as [[b|err] seal].
  - destruct (_ <? _)%nat; by intros [= <- <-].
  - by intros [= <- <-].
Qed.

Lemma encode_frames_keeps now fs : forall acc s r s',
  encode_frames now fs acc s = (r, s') -> same_queues s s' /\ answers s' = answers s.
Proof.
  induction fs as [|f fs IH]; cbn; intros acc s r s' Hs; [by injection Hs as <- <-|].
  destruct (encode_frame_datagrams now f s) as [[ds|e] s1] eqn:E; apply encode_one_keeps in E as [Hq Ha].
  - apply IH in Hs as [Hq' Ha']. split; [by etrans|congruence].
  - by injection Hs as <- <-.
Qed.

Lemma push_request_answers now r s ps s' : push_request now r s = (ps, s') ->
  same_queues s s' /\ (answered s' ++ (ps_done <$> ps))%list ≡ₚ (answered s ++ [request_id r])%list.
Proof.
  destruct r as [f id|fs id|ds id]; cbn.
  - destruct (encode_frame_datagrams now f s) as [[ds|e] s1] eqn:E; apply encode_one_keeps in E as [Hq Ha]; intros [= <- <-];
      (split; [done|]); unfold answered; cbn; by rewrite Ha, ?fmap_app, ?app_nil_r.
  - destruct (encode_frames now fs [] s) as [[ds|e] s1] eqn:E; apply encode_frames_keeps in E as [Hq Ha]; intros [= <- <-];
      (split; [done|]); unfold answered; cbn; by rewrite Ha, ?fmap_app, ?app_nil_r.
  - by intros [= <- <-].
Qed.

Lemma push_requests_answers now rs : forall s ps s', push_requests now rs s = (ps, s') ->
  same_queues s s' /\ (answered s' ++ (ps_done <$> ps))%list ≡ₚ (answered s ++ (request_id <$> rs))%list.
Proof.
  induction rs as [|r rs IH]; cbn; intros s ps s' Hs; [injection Hs as <- <-; cbn; by rewrite ?app_nil_r|].
  destruct (push_request now r s) as [p1 s1] eqn:E1. destruct (push_requests now rs s1) as [p2 s2] eqn:E2.
  injection Hs as <- <-. apply push_request_answers in E1 as [Hq1 Ha1]. apply IH in E2 as [Hq2 Ha2]. split; [by etrans|].
  rewrite fmap_app, (Permutation_app_comm (ps_done <$> p1)), app_assoc, Ha2, <- app_assoc.
  rewrite (Permutation_app_comm (request_id <$> rs)), app_assoc, Ha1, <- app_assoc. done.
Qed.

Lemma answer_all_answers ids r : forall s,
  same_queues s (answer_all ids r s) /\ answered (answer_all ids r s) = (answered s ++ ids)%list.
Proof.
  induction ids as [|id ids IH]; intros s; cbn; [by rewrite app_nil_r|].
  destruct (IH (answer id r s)) as [Hq Ha]. unfold answer_all in *. split; [exact Hq|]. rewrite Ha. unfold answered. cbn.
  by rewrite fmap_app, <- app_assoc.
Qed.

Lemma enqueue_pending_answers ps : forall s ids s', enqueue_pending ps s = (ids, s') ->
  same_queues s s' /\ (answered s' ++ ids)%list ≡ₚ (answered s ++ (ps_done <$> ps))%list.
Proof.
  induction ps as [|p ps IH]; cbn; intros s ids s' Hs; [injection Hs as <- <-; cbn; by rewrite ?app_nil_r|].
  destruct (enqueue_all _ _) as [[] l].
  - destruct (enqueue_pending ps (set_loop l s)) as [ids1 s1] eqn:E. injection Hs as <- <-. apply IH in E as [Hq Ha].
    split; [exact Hq|]. rewrite <- !Permutation_middle, Ha. done.
  - apply IH in Hs as [Hq Ha]. split; [exact Hq|]. rewrite Ha. unfold answered. cbn. by rewrite fmap_app, <- app_assoc.
Qed.

Lemma flush_pending_answers env ps s :
  same_queues s (flush_pending env ps s) /\ answered (flush_pending env ps s) ≡ₚ (answered s ++ (ps_done <$> ps))%list.
Proof.
  unfold flush_pending. destruct ps as [|p ps]; [by rewrite app_nil_r|].
  destruct (enqueue_pending (p :: ps) s) as [ids s1] eqn:E. apply enqueue_pending_answers in E as [Hq Ha].
  destruct ids as [|id ids]; [split; [done|]; by rewrite <- Ha, app_nil_r|]. destruct (drain_outbound _) as [ds q].
  destruct (answer_all_answers (id :: ids) (flush_verdict (env ds)) (set_loop (set_queues q (sd_loop s1)) s1)) as [Hq' Ha'].
  split; [by etrans|]. by rewrite Ha'.
Qed.

Lemma submit_answers control r s :
  (answered (submit control r s) ++ waiting (submit control r s))%list ≡ₚ request_id r :: (answered s ++ waiting s)%list.
Proof.
  unfold submit, waiting, answered.
  destruct control; destruct (_ <? _)%nat; cbn; rewrite ?fmap_app; cbn; rewrite <- ?app_assoc; cbn; solve_Permutation.
Qed.

Lemma handle_control_answers env now s :
  control_q (handle_control env now s) = [] /\ data_q (handle_control env now s) = data_q s
  /\ pending_data (handle_control env now s) = pending_data s
  /\ (answered (handle_control env now s) ++ waiting (handle_control env now s))%list ≡ₚ (answered s ++ waiting s)%list.
Proof.
  unfold handle_control. destruct (push_requests _ _ _) as [ps s1] eqn:E. apply push_requests_answers in E as [(Hc & Hd & Hp) Ha].
  destruct (flush_pending_answers env ps s1) as [(Hc' & Hd' & Hp') Ha']. cbn in *. split_and!; [congruence..|].
  unfold waiting. rewrite Hc', Hd', Hp', Hc, Hd, Hp, Ha', Ha. unfold answered. cbn. by rewrite <- app_assoc.
Qed.

Lemma push_data_answers now s r rest : data_q s = r :: rest ->
  control_q (push_data now s) = control_q s /\ data_q (push_data now s) = rest
  /\ (answered (push_data now s) ++ waiting (push_data now s))%list ≡ₚ (answered s ++ waiting s)%list.
Proof.
  unfold push_data. intros Eq. rewrite Eq. destruct (push_request _ _ _) as [ps s1] eqn:E.
  apply push_request_answers in E as [(Hc & Hd & Hp) Ha]. cbn in *. split; [done|]. split; [done|]. unfold waiting, answered in *. cbn in *.
  rewrite Hc, Hd, Hp, Eq. cbn. rewrite fmap_app. revert Ha. generalize ((answers s1).*1), (ps_done <$> ps). intros l1 l2 Ha.
  transitivity ((l1 ++ l2) ++ (request_id <$> control_q s) ++ (request_id <$> rest) ++ (ps_done <$> pending_data s))%list; [solve_Permutation|].
  rewrite Ha. solve_Permutation.
Qed.

Lemma flush_data_answers env s :
  control_q (flush_pending_data env s) = control_q s /\ data_q (flush_pending_data env s) = data_q s
  /\ pending_data (flush_pending_data env s) = []
  /\ (answered (flush_pending_data env s) ++ waiting (flush_pending_data env s))%list ≡ₚ (answered s ++ waiting s)%list.
Proof.
  unfold flush_pending_data. destruct (flush_pending_answers env (pending_data s) (set_pending [] s)) as [(Hc & Hd & Hp) Ha].
  cbn in *. split_and!; [done..|]. unfold waiting. rewrite Hc, Hd, Hp, Ha. unfold answered. cbn. solve_Permutation.
Qed.

Lemma complete_data_answers r s :
  (answered (complete_pending_data r s) ++ waiting (complete_pending_data r s))%list ≡ₚ (answered s ++ waiting s)%list.
Proof.
  unfold complete_pending_data. destruct (answer_all_answers (ps_done <$> pending_data s) r (set_pending [] s)) as [(Hc & Hd & Hp) Ha].
  cbn in *. unfold waiting. rewrite Hc, Hd, Hp, Ha. unfold answered. cbn. solve_Permutation.
Qed.

Lemma sender_step_answers x y : sender_step x y ->
  NoDup x.1 /\ (answered x.2 ++ waiting x.2)%list ≡ₚ x.1 -> NoDup y.1 /\ (answered y.2 ++ waiting y.2)%list ≡ₚ y.1.
Proof.
  intros Hs [Hn Hp]. destruct Hs as [control r ids s Hid|env ids s _|env now ids s _ _|now ids s _ Hd _|env ids s _ _|ids s _ _]; cbn in *.
  - split; [by constructor|]. by rewrite submit_answers, Hp.
  - split; [done|]. destruct (flush_data_answers env s) as (_ & _ & _ & ->). done.
  - split; [done|]. destruct (handle_control_answers env now s) as (_ & _ & _ & ->). done.
  - split; [done|]. destruct (data_q s) as [|r rest] eqn:E; [done|]. destruct (push_data_answers now s r rest E) as (_ & _ & ->). done.
  - split; [done|]. destruct (flush_data_answers env s) as (_ & _ & _ & ->). done.
  - split; [done|]. by rewrite complete_data_answers.
Qed.

(** A state from which the next pending request is looked at. *)
Lemma sender_makes_room ids s : exists s', rtc sender_step (ids, s) (ids, s')
  /\ control_q s' = control_q s /\ data_q s' = data_q s /\ (pending_data_datagrams s' < DATA_FLUSH_BATCH_DATAGRAMS)%nat.
Proof.
  destruct (decide (pending_data_datagrams s < DATA_FLUSH_BATCH_DATAGRAMS)%nat) as [|Hge]; [by exists s|].
  exists (flush_pending_data (fun _ => None) s). destruct (flush_data_answers (fun _ => None) s) as (Hc & Hd & Hp & _).
  split_and!; [apply rtc_once, step_full; lia|done|done|]. unfold pending_data_datagrams. rewrite Hp. cbn. unfold DATA_FLUSH_BATCH_DATAGRAMS. lia.
Qed.

Lemma sender_empties_control ids s : exists s', rtc sender_step (ids, s) (ids, s') /\ control_q s' = [] /\ data_q s' = data_q s.
Proof.
  destruct (sender_makes_room ids s) as (s1 & Hr & Hc & Hd & Hp). destruct (control_q s1) as [|r rs] eqn:E; [by exists s1|].
  exists (handle_control (fun _ => None) 0 s1). destruct (handle_control_answers (fun _ => None) 0 s1) as (Hc1 & Hd1 & _).
  split_and!; [|done|congruence]. eapply rtc_r; [exact Hr|]. apply step_control; [by rewrite E|done].
Qed.

Lemma sender_empties_data ids l : forall s, control_q s = [] -> data_q s = l ->
  exists s', rtc sender_step (ids, s) (ids, s') /\ waiting s' = [].
Proof.
  induction l as [|r rest IH]; intros s Hc Hd.
  - exists (flush_pending_data (fun _ => None) s). destruct (flush_data_answers (fun _ => None) s) as (Hc' & Hd' & Hp & _).
    split; [by apply rtc_once, step_timer|]. unfold waiting. by rewrite Hc', Hd', Hp, Hc, Hd.
  - destruct (sender_makes_room ids s) as (s1 & Hr & Hc1 & Hd1 & Hp). rewrite Hd in Hd1.
    destruct (push_data_answers 0 s1 r rest Hd1) as (Hc2 & Hd2 & _).
    destruct (IH (push_data 0 s1)) as (s' & Hr' & Hw); [congruence|done|]. exists s'. split; [|done].
    etrans; [exact Hr|]. eapply rtc_l; [|exact Hr']. apply step_data; [congruence|by rewrite Hd1|done].
Qed.
End Answers.

(** C21: However requests, encodings, flushes and time-outs of a sender interleave, the
    requests it has answered and those it still holds are together the ones it was given,
    each once: no completion is lost and none is sent twice.  And a sender that gets no
    more requests can always go on to answer all of them. *)
Theorem sender_answers_each_request_once `{Bincode WireFrame} `{Bincode MeshEvent} `{MeshCrypto}
    (mode : NativeEventMode) (peer : SocketAddr) (policy : EgressPolicy) (seal : option MeshSecEgress) (ids : list nat) (s : Sender)
    (Hrun : rtc sender_step ([], sender_start mode peer policy seal) (ids, s)) :
  NoDup (answers s).*1
  /\ ((answers s).*1 ++ waiting s)%list ≡ₚ ids
  /\ exists s', rtc sender_step (ids, s) (ids, s') /\ (answers s').*1 ≡ₚ ids.
Proof.
  assert (Hinv : forall x y, rtc sender_step x y ->
    NoDup x.1 /\ (answered x.2 ++ waiting x.2)%list ≡ₚ x.1 -> NoDup y.1 /\ (answered y.2 ++ waiting y.2)%list ≡ₚ y.1).
  { induction 1 as [|x y z Hs _ IH]; [done|]. intros Hx. by apply IH, (sender_step_answers _ _ Hs). }
  destruct (Hinv _ _ Hrun) as [Hn Hp]; [split; [constructor|done]|]. cbn in Hn, Hp. split_and!; [|done|].
  - rewrite <- Hp in Hn. by apply NoDup_app in Hn as [? _].
  - destruct (sender_empties_control ids s) as (s1 & Hr1 & Hc & _). destruct (sender_empties_data ids _ s1 Hc eq_refl) as (s2 & Hr2 & Hw).
    exists s2. assert (Hr : rtc sender_step (ids, s) (ids, s2)) by by etrans. split; [done|].
    destruct (Hinv _ _ Hr) as [_ Hp2]; [done|]. cbn in Hp2. by rewrite Hw, app_nil_r in Hp2.
Qed.

(** ** The sender of replies answers *)

Section ReplyAnswers.
Context `{Bincode WireFrame} `{Bincode MeshEvent} `{MeshCrypto} (cfg : IngressCfg_).

Definition ry_ids (s : ReplySender) : list nat := (ry_answers s).*1.
Definition ry_waiting (s : ReplySender) : list nat :=
  ((reply_id <$> ry_control s) ++ (reply_id <$> ry_data s) ++ (ps_done <$> ry_pending s))%list.

(** The queues of a state, which most steps leave alone *)
Definition ry_queues (s : ReplySender) : list ReplyRequest * list ReplyRequest * list PendingSend := (ry_control s, ry_data s, ry_pending s).

Lemma ry_push now r s ps s' : reply_push_request cfg now r s = (ps, s') ->
  ry_queues s' = ry_queues s /\ (ry_ids s' ++ (ps_done <$> ps))%list ≡ₚ (ry_ids s ++ [reply_id r])%list.
Proof.
  unfold reply_push_request. destruct (encode_replies _ _ _ _ _) as [[ds|e] c]; intros [= <- <-]; (split; [done|]); unfold ry_ids; cbn;
    by rewrite ?fmap_app, ?app_nil_r.
Qed.

Lemma ry_pushes now rs : forall s ps s', reply_push_requests cfg now rs s = (ps, s') ->
  ry_queues s' = ry_queues s /\ (ry_ids s' ++ (ps_done <$> ps))%list ≡ₚ (ry_ids s ++ (reply_id <$> rs))%list.
Proof.
  induction rs as [|r rs IH]; cbn; intros s ps s' Hs; [injection Hs as <- <-; cbn; by rewrite ?app_nil_r|].
  destruct (reply_push_request cfg now r s) as [p1 s1] eqn:E1. destruct (reply_push_requests cfg now rs s1) as [p2 s2] eqn:E2.
  injection Hs as <- <-. apply ry_push in E1 as [Hq1 Ha1]. apply IH in E2 as [Hq2 Ha2]. split; [congruence|].
  rewrite fmap_app, (Permutation_app_comm (ps_done <$> p1)), app_assoc, Ha2, <- app_assoc.
  rewrite (Permutation_app_comm (reply_id <$> rs)), app_assoc, Ha1, <- app_assoc. done.
Qed.

Lemma ry_all ids r : forall s, ry_queues (reply_answer_all ids r s) = ry_queues s /\ ry_ids (reply_answer_all ids r s) = (ry_ids s ++ ids)%list.
Proof.
  induction ids as [|id ids IH]; intros s; cbn; [by rewrite app_nil_r|]. destruct (IH (reply_answer id r s)) as [Hq Ha].
  unfold reply_answer_all in *. split; [exact Hq|]. rewrite Ha. unfold ry_ids. cbn. by rewrite fmap_app, <- app_assoc.
Qed.

Lemma ry_enqueue ps : forall s ids s', reply_enqueue ps s = (ids, s') ->
  ry_queues s' = ry_queues s /\ (ry_ids s' ++ ids)%list ≡ₚ (ry_ids s ++ (ps_done <$> ps))%list.
Proof.
  induction ps as [|p ps IH]; cbn; intros s ids s' Hs; [injection Hs as <- <-; cbn; by rewrite ?app_nil_r|].
  destruct (enqueue_all _ _) as [[] l].
  - destruct (reply_enqueue ps (set_ry_loop l s)) as [ids1 s1] eqn:E. injection Hs as <- <-. apply IH in E as [Hq Ha].
    split; [exact Hq|]. rewrite <- !Permutation_middle, Ha. done.
  - apply IH in Hs as [Hq Ha]. split; [exact Hq|]. rewrite Ha. unfold ry_ids. cbn. by rewrite fmap_app, <- app_assoc.
Qed.

Lemma ry_flush env ps s :
  ry_queues (reply_flush env ps s) = ry_queues s /\ ry_ids (reply_flush env ps s) ≡ₚ (ry_ids s ++ (ps_done <$> ps))%list.
Proof.
  unfold reply_flush. destruct ps as [|p ps]; [by rewrite app_nil_r|].
  destruct (reply_enqueue (p :: ps) s) as [ids s1] eqn:E. apply ry_enqueue in E as [Hq Ha].
  destruct ids as [|id ids]; [split; [done|]; by rewrite <- Ha, app_nil_r|]. destruct (drain_outbound _) as [ds q].
  destruct (ry_all (id :: ids) (flush_verdict (env ds)) (set_ry_loop (set_queues q (ry_loop s1)) s1)) as [Hq' Ha'].
  split; [by rewrite Hq'|]. by rewrite Ha'.
Qed.

Lemma ry_flush_data env s :
  (ry_ids (reply_flush_data env s) ++ ry_waiting (reply_flush_data env s))%list ≡ₚ (ry_ids s ++ ry_waiting s)%list.
Proof.
  unfold reply_flush_data. destruct (ry_flush env (ry_pending s) (set_ry_pending [] s)) as [[= Hc Hd Hp] Ha].
  unfold ry_waiting. rewrite Hc, Hd, Hp, Ha. unfold ry_ids. cbn. solve_Permutation.
Qed.

Lemma ry_step x y : reply_step cfg x y ->
  NoDup x.1 /\ (ry_ids x.2 ++ ry_waiting x.2)%list ≡ₚ x.1 -> NoDup y.1 /\ (ry_ids y.2 ++ ry_waiting y.2)%list ≡ₚ y.1.
Proof.
  intros Hs [Hn Hp]. destruct Hs as [control r ids s Hid|env ids s _|env now ids s _ _|now ids s _ Hd _|env ids s _ _|ids s _ _];
    cbn [fst snd] in *; (split; [by try constructor|]); try (rewrite ry_flush_data; exact Hp); rewrite <- Hp.
  - unfold reply_submit, ry_waiting, ry_ids. destruct control; destruct (_ <? _)%nat; cbn; rewrite ?fmap_app; cbn; solve_Permutation.
  - unfold reply_handle_control. destruct (reply_push_requests _ _ _ _) as [ps s1] eqn:E. apply ry_pushes in E as [[= Hc Hd Hq] Ha].
    destruct (ry_flush env ps s1) as [[= Hc' Hd' Hq'] Ha']. unfold ry_waiting. rewrite Hc', Hd', Hq', Hc, Hd, Hq, Ha', Ha.
    unfold ry_ids. cbn. by rewrite <- app_assoc.
  - unfold reply_push_data. destruct (ry_data s) as [|r rest] eqn:Eq; [done|]. destruct (reply_push_request _ _ _ _) as [ps s1] eqn:E.
    apply ry_push in E as [[= Hc Hd' Hq] Ha]. unfold ry_waiting, ry_ids in *. cbn in *. rewrite Hc, Hd', Hq, Eq. cbn. rewrite fmap_app.
    revert Ha. generalize ((ry_answers s1).*1), (ps_done <$> ps). intros l1 l2 Ha.
    transitivity ((l1 ++ l2) ++ (reply_id <$> ry_control s) ++ (reply_id <$> rest) ++ (ps_done <$> ry_pending s))%list; [solve_Permutation|].
    rewrite Ha. solve_Permutation.
  - unfold reply_complete. destruct (ry_all (ps_done <$> ry_pending s) (Err SeClosed) (set_ry_pending [] s)) as [[= Hc Hd Hq] Ha].
    unfold ry_waiting. rewrite Hc, Hd, Hq, Ha. unfold ry_ids. cbn. solve_Permutation.
Qed.

(** The sender of an ingress's replies loses no request and answers none twice, however its
    steps interleave. *)
Theorem replies_are_answered_once (l : UdpPacketLoop) (counters : gmap string Z) (ids : list nat) (s : ReplySender) :
  rtc (reply_step cfg) ([], reply_sender_start l counters) (ids, s) ->
  NoDup (ry_answers s).*1 /\ ((ry_answers s).*1 ++ ry_waiting s)%list ≡ₚ ids.
Proof.
  intros Hrun. assert (Hinv : forall x y, rtc (reply_step cfg) x y ->
    NoDup x.1 /\ (ry_ids x.2 ++ ry_waiting x.2)%list ≡ₚ x.1 -> NoDup y.1 /\ (ry_ids y.2 ++ ry_waiting y.2)%list ≡ₚ y.1).
  { induction 1 as [|x y z Hs _ IH]; [done|]. intros Hx. by apply IH, (ry_step _ _ Hs). }
  destruct (Hinv _ _ Hrun) as [Hn Hp]; [split; [constructor|done]|]. cbn in Hn, Hp. split; [|done].
  rewrite <- Hp in Hn. by apply NoDup_app in Hn as [? _].
Qed.
End ReplyAnswers.

(** ** A stream through an ingress *)

Definition frame_seq (f : MeshFrame) : Z := (frame_event_meta f).1.2.

(** Nothing arrives [w] numbers ahead of one that has not arrived. *)
Definition lag_ok (start w : Z) (ps : list DataPackage) : Prop :=
  forall i p k, ps !! i = Some p -> start <= k -> k + w <= seq p -> exists j q, (j < i)%nat /\ ps !! j = Some q /\ seq q = k.

Lemma family_stays_open_lag start s pre ps :
  family_inv start s (first_arrivals start pre) -> closed s = None ->
  Forall (fun p => 0 <= seq p < U64_MAX) ps -> lag_ok start (window s) (pre ++ ps) ->
  closed (push_all s ps).2 = None.
Proof.
  intros Hinv Hcl Hps. revert s pre Hinv Hcl. induction Hps as [|p ps Hp _ IH]; intros s pre Hinv Hcl Hlag; simpl; [done|].
  pose proof (family_step start s _ p Hinv Hcl Hp) as Hstep. pose proof (push_window s p) as Hpw.
  destruct (push_package s p) as [o s']. simpl in Hpw. destruct Hstep as [(Hcl' & Hinv' & _)|(_ & _ & _ & _ & Hover)].
  - specialize (IH s' (pre ++ [p])%list). rewrite Hpw, <- app_assoc in IH. destruct (push_all s' ps). apply IH; [|done|done].
    unfold first_arrivals, arrivals in *. by rewrite fmap_app, foldl_app.
  - destruct (fam_frontier _ _ _ Hinv) as [Hh Hnone]. pose proof (holds_range _ _ _ _ Hh) as Hr.
    destruct (Hlag (length pre) p (next_expected_seq s)) as (j & q & Hj & Hq & Hk); [by apply list_lookup_middle|lia|lia|].
    rewrite lookup_app_l in Hq by done. destruct (arrivals_complete start ∅ (package_op <$> pre) (next_expected_seq s) q) as [x Hx]; [lia| |].
    + apply list_elem_of_fmap. exists q. split; [unfold package_op; by rewrite Hk|]. by eapply list_elem_of_lookup_2.
    + unfold first_arrivals, arrivals in Hnone. congruence.
Qed.

Lemma family_delivers_lagging id start w d sent arrived :
  0 <= start -> start + Z.of_nat (length sent) <= U64_MAX -> seq <$> sent = seqZ start (Z.of_nat (length sent)) ->
  (forall p, p ∈ arrived <-> p ∈ sent) -> lag_ok start (Z.min w FAMILY_BITMAP_BITS) arrived ->
  let '(os, s) := push_all (family_new id start w d) arrived in delivered os = sent /\ closed s = None.
Proof.
  intros Hs Hmax Hnum Harr Hlag. pose proof (family_new_inv id start w d ltac:(lia)) as Hnew.
  assert (Hps : Forall (fun p => 0 <= seq p < U64_MAX) arrived).
  { apply Forall_forall. intros p [Hp Hl%lookup_lt_Some]%Harr%(sent_elem start sent Hnum). lia. }
  pose proof (family_stays_open_lag start _ [] arrived Hnew eq_refl Hps Hlag) as Hopen.
  pose proof (family_run start _ ∅ arrived Hnew eq_refl Hps) as Hr.
  destruct (push_all _ arrived) as [os s]. destruct Hr as (k & Hk & Hinv & Hv & Hn & Hc & _). split; [|done].
  rewrite (Hc Hopen), firstn_all in Hinv, Hv.
  destruct (numbered_arrivals start sent _ (sent_ops start sent Hnum arrived Harr)) as [Ha Hsome].
  eapply complete_frontier; [apply (fam_frontier _ _ _ Hinv)|done|done|done|done].
Qed.

Lemma concat_chunks n b : (0 < n)%nat -> concat (chunks n b) = b.
Proof.
  intros Hn. unfold chunks. enough (forall fuel b, (length b <= fuel)%nat -> concat (chunks_fuel fuel n b) = b) by auto. clear b.
  induction fuel as [|fuel IH]; intros b Hl; [by destruct b; cbn in Hl; [|lia]|].
  destruct b as [|x b]; [done|]. cbn [chunks_fuel concat]. rewrite IH; [apply take_drop|]. rewrite length_drop. cbn [length] in *. lia.
Qed.

Lemma number_chunks_frames sid cs : forall next, 0 <= next -> next + Z.of_nat (length cs) <= U64_MAX ->
  (number_chunks sid next cs).1 = zip_with (FStreamData sid) (seqZ next (Z.of_nat (length cs))) cs.
Proof.
  induction cs as [|c cs IH]; intros next H0 Hm; [done|]. cbn [number_chunks length] in *.
  change (as_u64 (next + 1)) with (incr next). rewrite incr_small by lia.
  specialize (IH (next + 1) ltac:(lia) ltac:(lia)). destruct (number_chunks sid (next + 1) cs) as [fs m]. cbn [fst] in *.
  rewrite seqZ_cons by lia. cbn. rewrite IH. by replace (Z.pred (Z.of_nat (S (length cs)))) with (Z.of_nat (length cs)) by lia.
Qed.

Lemma overflow_closes s p a s' : push_package s p = (WindowOverflow a, s') -> closed s' <> None.
Proof.
  unfold push_package. case_bool_decide as Hc; [intros [= <- <-]; by destruct Hc as [? ->]|].
  repeat case_match; by intros [= <- <-].
Qed.

Section Through.
Context {B : Type} `{!PeerBus B} `{Bincode WireFrame, !BincodeLaws WireFrame, Bincode MeshEvent, !BincodeLaws MeshEvent, MeshCrypto}.
Variables (cfg : IngressCfg_) (peer : SocketAddr) (sid policy : string) (id : nat).

(** A frame whose lengths fit the [u32] of the envelope, as the packet it becomes. *)
Definition is_packet (f : MeshFrame) (b : list Z) : Prop :=
  let '(family, sq, sem) := frame_event_meta f in
  exists bs es, serialize_frame f = Some bs /\ Z.of_nat (length bs) < 2 ^ 32
    /\ bc_serialize (wrap_frame_event family sq sem policy (envelope (msg_type f) bs)) = Some es /\ Z.of_nat (length es) < 2 ^ 32
    /\ encode_native policy f = Some b.

(** The package of a data frame. *)
Definition frame_package (f : MeshFrame) : DataPackage :=
  let '(family, sq, sem) := frame_event_meta f in
  match encode_frame f with
  | Ok clear => default (mkDataPackage "" 0 0 0 0 0 []) (package (wrap_frame_event family sq sem policy clear))
  | Err _ => mkDataPackage "" 0 0 0 0 0 []
  end.

Lemma packet_event sq c b : is_packet (FStreamData sid sq c) b ->
  exists e, decode_event b = (Ok e, []) /\ semantic e = Stream /\ family_id e = sid
    /\ package e = Some (frame_package (FStreamData sid sq c)) /\ seq (frame_package (FStreamData sid sq c)) = sq
    /\ decode_frame (payload (frame_package (FStreamData sid sq c))) = (Ok (FStreamData sid sq c), []).
Proof.
  unfold is_packet, encode_native, frame_package. cbn [frame_event_meta]. intros (bs & es & Hs & Hl & He & Hel & Hb).
  unfold encode_frame, encode_event in *. rewrite Hs in Hb |- *. rewrite He in Hb. injection Hb as <-.
  exists (wrap_frame_event sid sq Stream policy (envelope (msg_type (FStreamData (E := Endpoint) sid sq c)) bs)).
  split_and!; [|done..|].
  - rewrite <- (app_nil_r (envelope _ es)), decode_event_envelope by done. by rewrite (bc_roundtrip _ _ He).
  - change (decode_frame (envelope (msg_type (FStreamData (E := Endpoint) sid sq c)) bs) = (Ok (FStreamData sid sq c), [])).
    rewrite <- (app_nil_r (envelope _ bs)), decode_frame_envelope by done. unfold decode_mesh_frame_clear.
    by rewrite (deserialize_serialize (FStreamData sid sq c) bs); [|apply Forall_nil|].
Qed.

Definition sends (cs : list (list Z)) (w : B) : B := foldl (fun w c => (bus_send id c w).2) w cs.

(** The stream is open and the bus takes what it is sent. *)
Record ready (s : Ingress B) : Prop := {
  rd_stream : stream_sessions s !! (peer, sid) = Some id;
  rd_room : is_Some (in_families s !! (peer, sid)) \/ (size (in_families s) < max_peer_sessions cfg)%nat
}.

Hypothesis Htakes : forall c w, (bus_send id c w).1 = true.

Lemma data_frames_sent seal now fs : forall s, stream_sessions s !! (peer, sid) = Some id ->
  let s' := handle_frames cfg peer seal now (uncurry (FStreamData sid) <$> fs) s in
  stream_sessions s' = stream_sessions s /\ in_families s' = in_families s /\ bus s' = sends fs.*2 (bus s).
Proof.
  induction fs as [|[sq c] fs IH]; intros s Hs; [done|]. cbn. unfold on_stream_data, stream_write. rewrite Hs.
  destruct (bus_send id c (bus s)) as [ok w] eqn:E. pose proof (Htakes c (bus s)) as Hok. rewrite E in Hok. cbn in Hok. subst ok.
  cbn [snd]. destruct (IH (set_bus w s) Hs) as (Hss & Hff & Hbb). split_and!; [exact Hss|exact Hff|exact Hbb].
Qed.

Lemma packages_decode fs : forall s : Ingress B, Forall (fun f => exists b, is_packet (FStreamData sid f.1 f.2) b) fs ->
  decode_packages peer (frame_package <$> (uncurry (FStreamData sid) <$> fs)) s = (uncurry (FStreamData sid) <$> fs, s).
Proof.
  induction fs as [|[sq c] fs IH]; intros s Hf; [done|]. apply Forall_cons in Hf as [[b Hb] Hf].
  apply packet_event in Hb as (e & _ & _ & _ & _ & _ & Hd). cbn [fmap list_fmap decode_packages uncurry]. cbn [fst snd] in Hd. rewrite Hd.
  by rewrite IH.
Qed.

(** One packet of the stream, while its family stays open. *)
Lemma packet_through now sq c b s : ig_mode cfg = SecureUdpNative -> ig_meshsec cfg = None -> ready s ->
  is_packet (FStreamData sid sq c) b ->
  let '(o, fam) := push_package (family_of (in_families s) (peer, sid)) (frame_package (FStreamData sid sq c)) in
  closed fam = None ->
  forall fs, delivered_by o = frame_package <$> (uncurry (FStreamData sid) <$> fs) ->
    Forall (fun f => exists b, is_packet (FStreamData sid f.1 f.2) b) fs ->
    let s' := handle_inbound cfg now peer b s in
    stream_sessions s' = stream_sessions s /\ in_families s' = <[(peer, sid) := fam]> (in_families s) /\ bus s' = sends fs.*2 (bus s).
Proof.
  intros Hmode Hsec [Hstream Hroom] Hb. destruct (push_package _ _) as [o fam] eqn:Ep. intros Hcl fs Hfs Hpk. cbv zeta.
  unfold handle_inbound, open_inbound. rewrite Hsec. unfold decode_inbound. rewrite Hmode.
  destruct (packet_event sq c b Hb) as (e & -> & -> & Hfam & -> & _ & _). unfold push_family. rewrite Hfam.
  assert (Hev : evict_family (max_peer_sessions cfg) (peer, sid) s = s).
  { unfold evict_family. case_match eqn:E; [done|]. destruct Hroom as [[y Hy]|Hlt]; [by pose proof (eq_trans (eq_sym E) Hy)|].
    by rewrite (proj2 (Nat.leb_gt _ _) Hlt). }
  rewrite Hev, Ep. destruct o as [ps| | |a|a]; cbn [delivered_by] in Hfs.
  - subst ps. rewrite packages_decode by done.
    refine (data_frames_sent None now fs _ _). exact Hstream.
  - destruct fs; [done|discriminate].
  - destruct fs; [done|discriminate].
  - destruct fs; [|discriminate]. unfold queue_reply. by destruct (_ <? _)%nat.
  - by apply overflow_closes in Ep.
Qed.

(** The datagrams of a peer, with the times they are handled at. *)
Definition receive (pks : list (Z * list Z)) (s : Ingress B) : Ingress B :=
  foldl (fun s tb => handle_inbound cfg tb.1 peer tb.2 s) s pks.

Lemma packets_through ops pks : ig_mode cfg = SecureUdpNative -> ig_meshsec cfg = None ->
  Forall2 (fun op tb => is_packet (FStreamData sid op.1 op.2) tb.2) ops pks ->
  forall s fs, ready s ->
  let '(os, fam) := push_all (family_of (in_families s) (peer, sid)) (frame_package <$> (uncurry (FStreamData sid) <$> ops)) in
  closed fam = None -> delivered os = frame_package <$> (uncurry (FStreamData sid) <$> fs) ->
  Forall (fun f => exists b, is_packet (FStreamData sid f.1 f.2) b) fs ->
  bus (receive pks s) = sends fs.*2 (bus s).
Proof.
  intros Hmode Hsec Hops. induction Hops as [|[sq c] [now b] ops pks Hb _ IH]; intros s fs Hs; cbn [push_all fmap list_fmap].
  { intros _ Hd _. by destruct fs. }
  cbn [fst snd] in Hb. pose proof (packet_through now sq c b s Hmode Hsec Hs Hb) as Hone. cbn [uncurry].
  destruct (push_package _ _) as [o fam1]. destruct (push_all fam1 _) as [os fam] eqn:Ea. intros Hcl Hd Hpk.
  assert (Hcl1 : closed fam1 = None).
  { destruct (closed fam1) eqn:E; [|done]. rewrite push_all_closed in Ea by (by rewrite E). injection Ea as <- <-. congruence. }
  change (delivered (o :: os)) with (delivered_by o ++ delivered os)%list in Hd. rewrite <- list_fmap_compose in Hd.
  symmetry in Hd. apply fmap_app_inv in Hd as (f1 & f2 & Ho & Hos & ->). apply Forall_app in Hpk as [Hpk1 Hpk2].
  destruct (Hone Hcl1 f1) as (Hss & Hff & Hbb); [by rewrite <- list_fmap_compose|done|].
  change (receive ((now, b) :: pks) s) with (receive pks (handle_inbound cfg now peer b s)).
  specialize (IH (handle_inbound cfg now peer b s) f2).
  assert (Hfam : family_of (in_families (handle_inbound cfg now peer b s)) (peer, sid) = fam1).
  { unfold family_of. rewrite Hff. exact (f_equal (default _) (lookup_insert_eq (in_families s) (peer, sid) fam1)). }
  rewrite Hfam, Ea in IH. rewrite IH; [|split|done|by rewrite <- list_fmap_compose|done].
  - rewrite Hbb, fmap_app. unfold sends. by rewrite foldl_app.
  - rewrite Hss. apply Hs.
  - left. rewrite Hff. eexists. exact (lookup_insert_eq (in_families s) (peer, sid) fam1).
Qed.
Lemma package_seqs fs : Forall (fun f => exists b, is_packet (FStreamData sid f.1 f.2) b) fs ->
  seq <$> (frame_package <$> (uncurry (FStreamData sid) <$> fs)) = fs.*1.
Proof.
  induction 1 as [|[sq c] fs [b Hb] _ IH]; [done|]. apply packet_event in Hb as (e & _ & _ & _ & _ & Hq & _).
  cbn [fmap list_fmap uncurry fst snd] in *. by rewrite Hq, IH.
Qed.

(** The lag of packages is that of the numbers sent. *)
Lemma packages_lag (w : Z) ops : Forall (fun f => exists b, is_packet (FStreamData sid f.1 f.2) b) ops ->
  (forall i op k, ops !! i = Some op -> 1 <= k -> k + w <= op.1 -> exists j op', (j < i)%nat /\ ops !! j = Some op' /\ op'.1 = k) ->
  lag_ok 1 w (frame_package <$> (uncurry (FStreamData sid) <$> ops)).
Proof.
  intros Hpk Hlag i p k Hi Hk Hw. pose proof (package_seqs ops Hpk) as Hs. rewrite <- !list_fmap_compose in *.
  assert (Hat : forall j q, (frame_package ∘ uncurry (FStreamData sid) <$> ops) !! j = Some q -> fst <$> ops !! j = Some (seq q)).
  { intros j q Hj. rewrite <- list_lookup_fmap, <- Hs, list_fmap_compose, list_lookup_fmap. by rewrite Hj. }
  pose proof (Hat i p Hi) as Hseq. apply fmap_Some in Hseq as (op & Hop & Hq).
  destruct (Hlag i op k Hop Hk ltac:(lia)) as (j & op' & Hj & Hop' & Hk').
  exists j, (frame_package (uncurry (FStreamData sid) op')). split; [done|].
  assert (Hl : (frame_package ∘ uncurry (FStreamData sid) <$> ops) !! j = Some (frame_package (uncurry (FStreamData sid) op')))
    by (by rewrite list_lookup_fmap, Hop').
  split; [done|]. apply Hat in Hl. rewrite Hop' in Hl. cbn in Hl. injection Hl as <-. done.
Qed.
End Through.

(** C20: A payload cut into chunks and sent as native packets reaches the stream's session as
    it was: whatever the order in which the packets arrive and however often each is
    repeated, the bus gets the chunks in order, each once, and together they are the
    payload; provided that no packet arrives 64 ahead of one that has not arrived. *)
Theorem native_stream_arrives_in_order {B} `{!PeerBus B}
    `{Bincode WireFrame, !BincodeLaws WireFrame, Bincode MeshEvent, !BincodeLaws MeshEvent, MeshCrypto}
    (cfg : IngressCfg_) (peer : SocketAddr) (sid policy : string) (id n : nat) (b : list Z) (s : Ingress B)
    (arrived : list (Z * list Z)) (packets : list (Z * list Z))
    (Hmode : ig_mode cfg = SecureUdpNative) (Hsec : ig_meshsec cfg = None)
    (Hopen : stream_sessions s !! (peer, sid) = Some id) (Htakes : forall c w, (bus_send id c w).1 = true)
    (Hnew : in_families s !! (peer, sid) = None) (Hroom : (size (in_families s) < max_peer_sessions cfg)%nat)
    (Hn : (0 < n)%nat) (Hlen : 1 + Z.of_nat (length (chunks n b)) <= U64_MAX)
    (Harr : forall f, f ∈ uncurry (FStreamData sid) <$> arrived <-> f ∈ (number_chunks sid 1 (chunks n b)).1)
    (Hpk : Forall2 (fun op tb => is_packet policy (FStreamData sid op.1 op.2) tb.2) arrived packets)
    (Hlag : forall i op k, arrived !! i = Some op -> 1 <= k -> k + 64 <= op.1 -> exists j op', (j < i)%nat /\ arrived !! j = Some op' /\ op'.1 = k) :
  bus (receive cfg peer packets s) = sends id (chunks n b) (bus s) /\ concat (chunks n b) = b.
Proof.
  split; [|by apply concat_chunks]. set (cs := chunks n b) in *.
  pose proof (number_chunks_frames sid cs 1 ltac:(lia) Hlen) as Hfs. set (fs := zip (seqZ 1 (Z.of_nat (length cs))) cs).
  assert (Hfs' : (number_chunks sid 1 cs).1 = uncurry (FStreamData sid) <$> fs).
  { rewrite Hfs. unfold fs. rewrite zip_with_zip. done. }
  rewrite Hfs' in Harr.
  assert (Hin : forall op, op ∈ arrived <-> op ∈ fs).
  { assert (Hinj : Inj (=) (=) (uncurry (FStreamData (E := Endpoint) sid))) by by intros [? ?] [? ?] [= -> ->].
    intros op. by rewrite <- (list_elem_of_fmap_inj _ arrived), <- (list_elem_of_fmap_inj _ fs), Harr. }
  assert (Hok : Forall (fun f => exists b, is_packet policy (FStreamData sid f.1 f.2) b) arrived).
  { apply Forall_lookup. intros i f Hi. destruct (Forall2_lookup_l _ _ _ _ _ Hpk Hi) as (tb & _ & Htb). eauto. }
  assert (Hall : Forall (fun f => exists b, is_packet policy (FStreamData sid f.1 f.2) b) fs).
  { rewrite Forall_forall in Hok |- *. intros f Hf%Hin. by apply Hok. }
  pose proof (packets_through cfg peer sid policy id Htakes arrived packets Hmode Hsec Hpk s fs ltac:(split; [done|by right])) as Hrun.
  assert (Hfam : family_of (in_families s) (peer, sid) = family_new sid 1 64 0) by exact (f_equal (default _) Hnew).
  rewrite Hfam in Hrun.
  pose proof (family_delivers_lagging sid 1 64 0 (frame_package policy <$> (uncurry (FStreamData sid) <$> fs))
    (frame_package policy <$> (uncurry (FStreamData sid) <$> arrived))) as Hdel.
  assert (Hlc : length fs = length cs) by (unfold fs; rewrite length_zip, length_seqZ; lia).
  assert (Hnum : fs.*1 = seqZ 1 (Z.of_nat (length cs))) by (unfold fs; rewrite fst_zip; [done|rewrite length_seqZ; lia]).
  assert (Hcs : fs.*2 = cs) by (unfold fs; rewrite snd_zip; [done|rewrite length_seqZ; lia]).
  rewrite !length_fmap, Hlc in Hdel. destruct (push_all _ _) as [os fam]. destruct Hdel as [Hos Hcl]; [lia|lia|..].
  - by rewrite (package_seqs sid policy fs).
  - intros p. rewrite !list_elem_of_fmap. setoid_rewrite list_elem_of_fmap. by setoid_rewrite Hin.
  - by apply packages_lag.
  - rewrite <- Hcs. by apply Hrun.
Qed.

(** ** A lost package *)

(** The family waits for a number up to [n] and holds later ones only. *)
Definition stalled (n : Z) (f : FamilyReorderState) : Prop :=
  next_expected_seq f <= n /\ forall k, is_Some (buffer f !! k) -> n < k.

Lemma push_stalled n f p : stalled n f -> n < seq p ->
  delivered_by (push_package f p).1 = [] /\ stalled n (push_package f p).2.
Proof.
  intros [Hn Hb] Hp. unfold push_package. case_bool_decide; [done|]. destruct (_ || _); [done|].
  destruct (Z.eqb_spec (seq p) (next_expected_seq f)); [lia|]. destruct (_ <=? _); [done|].
  destruct (match highest_seen f with Some h => h <? seq p | None => true end); (split; [done|]); (split; [done|]); cbn;
    intros k; rewrite lookup_insert_is_Some; intros [<-|[_ Hk]]; auto.
Qed.

Section Stalled.
Context {B : Type} `{!PeerBus B} `{Bincode WireFrame} `{Bincode MeshEvent} `{MeshCrypto}.
Variables (cfg : IngressCfg_) (peer : SocketAddr) (family : string) (n : Z).
Hypothesis Hpos : 1 <= n.

(** The bytes of a stream or datagram package after [n]. *)
Definition later_package (b : list Z) : Prop :=
  exists e p rest, decode_event b = (Ok e, rest) /\ is_data_semantic (semantic e) = true /\ family_id e = family
    /\ package e = Some p /\ n < seq p.

Lemma family_gone_stalled (m : gmap Key FamilyReorderState) : m !! (peer, family) = None -> stalled n (family_of m (peer, family)).
Proof.
  intros Hm. assert (Hf : family_of m (peer, family) = family_new family 1 NATIVE_REORDER_WINDOW 0) by exact (f_equal (default _) Hm).
  rewrite Hf. split; [done|]. intros k [x Hx]. cbn in Hx. by rewrite lookup_empty in Hx.
Qed.

Lemma evict_keeps_stalled max (s : Ingress B) : stalled n (family_of (in_families s) (peer, family)) ->
  stalled n (family_of (in_families (evict_family max (peer, family) s)) (peer, family))
  /\ bus (evict_family max (peer, family) s) = bus s.
Proof.
  intros Hs. unfold evict_family. destruct (in_families s !! _) eqn:E; [done|]. destruct (_ <=? _)%nat; [|done].
  destruct (hash_first _ _) as [k|]; [|done]. split; [|done]. apply family_gone_stalled. cbn.
  apply lookup_delete_None. by right.
Qed.

Lemma later_package_stays now b (s : Ingress B) : ig_mode cfg = SecureUdpNative -> ig_meshsec cfg = None -> later_package b ->
  stalled n (family_of (in_families s) (peer, family)) ->
  stalled n (family_of (in_families (handle_inbound cfg now peer b s)) (peer, family)) /\ bus (handle_inbound cfg now peer b s) = bus s.
Proof.
  intros Hmode Hsec (e & p & rest & Hd & Hsem & Hfam & Hp & Hseq) Hs.
  unfold handle_inbound, open_inbound. rewrite Hsec. unfold decode_inbound. rewrite Hmode, Hd, Hp.
  destruct (evict_keeps_stalled (max_peer_sessions cfg) s Hs) as [Hs1 Hb1].
  assert (Hgoal : let '(fs, s') := push_family cfg peer None e p s in
    fs = [] /\ stalled n (family_of (in_families s') (peer, family)) /\ bus s' = bus s).
  { unfold push_family. rewrite Hfam. destruct (push_stalled n _ p Hs1 Hseq) as [Ho Hs2].
    destruct (push_package _ p) as [o fam]. cbn [fst snd] in Ho, Hs2. revert Hs1 Hb1.
    generalize (evict_family (max_peer_sessions cfg) (peer, family) s). intros s1 _ Hb1.
    assert (Hins : stalled n (family_of (<[(peer, family) := fam]> (in_families s1)) (peer, family))).
    { unfold family_of. by rewrite lookup_insert_eq. }
    destruct o as [ps| | |a|a]; cbn [delivered_by] in Ho.
    - subst ps. done.
    - done.
    - done.
    - split; [done|]. unfold queue_reply. destruct (_ <? _)%nat; done.
    - split; [done|]. split; [apply family_gone_stalled; cbn; apply lookup_delete_eq|].
      destruct (semantic e); try done; unfold queue_reply; destruct (_ <? _)%nat; done. }
  destruct (push_family cfg peer None e p s) as [fs s']. destruct Hgoal as (-> & Hg1 & Hg2).
  destruct (semantic e); done.
Qed.
End Stalled.

(** A package that is lost and not repaired ends its stream or datagram session in that
    direction: once a family waits for a number up to [n] and only later ones arrive,
    nothing is ever handed to the session again, whether they are buffered, overflow the
    window or start the family anew. *)
Theorem lost_package_silences_the_family {B} `{!PeerBus B} `{Bincode WireFrame} `{Bincode MeshEvent} `{MeshCrypto}
    (cfg : IngressCfg_) (peer : SocketAddr) (family : string) (n : Z) (s : Ingress B) (packets : list (Z * list Z))
    (Hmode : ig_mode cfg = SecureUdpNative) (Hsec : ig_meshsec cfg = None) (Hpos : 1 <= n)
    (Hwait : stalled n (family_of (in_families s) (peer, family)))
    (Hlater : Forall (fun tb => later_package family n tb.2) packets) :
  bus (receive cfg peer packets s) = bus s.
Proof.
  revert s Hwait. induction Hlater as [|[now b] packets Hb _ IH]; intros s Hwait; [done|].
  destruct (later_package_stays cfg peer family n Hpos now b s Hmode Hsec Hb Hwait) as [Hs Hbus].
  change (receive cfg peer ((now, b) :: packets) s) with (receive cfg peer packets (handle_inbound cfg now peer b s)).
  by rewrite IH.
Qed.

(** ** What an ingress keeps *)

(** [keys().next()] is a key of the map, unless it is empty. *)
Class PeerBusLaws (B : Type) `{!PeerBus B} :=
  hash_first_law ks w : match hash_first ks w with Some k => k ∈ ks | None => ks = [] end.

Definition early_bytes (p : PendingStreamData) : Z := Z.of_nat (length (concat (pd_frames p))).

Record bounded {B} (cfg : IngressCfg_) (s : Ingress B) : Prop := {
  bd_sessions : (size (sessions s) <= max_peer_sessions cfg)%nat;
  bd_streams : (size (stream_sessions s) <= max_peer_sessions cfg)%nat;
  bd_families : (size (in_families s) <= max_peer_sessions cfg)%nat;
  bd_early : forall k p, pending_stream_data s !! k = Some p -> pd_bytes p = early_bytes p /\ pd_bytes p <= pending_max_bytes cfg;
  bd_replies : (length (control_replies s) <= CONTROL_REPLY_BOUND)%nat
}.

Lemma size_insert_le {A} (m : gmap Key A) k x : (size (<[k := x]> m) <= S (size m))%nat.
Proof. rewrite map_size_insert. by destruct (m !! k); cbn; lia. Qed.
Lemma size_delete_le {A} (m : gmap Key A) k : (size (delete k m) <= size m)%nat.
Proof. rewrite map_size_delete. by destruct (m !! k); cbn; lia. Qed.
Lemma size_delete_lt {A} (m : gmap Key A) k : is_Some (m !! k) -> (size (delete k m) < size m)%nat.
Proof. intros [x Hx]. rewrite map_size_delete, Hx. cbn. assert (size m <> 0)%nat; [|lia]. rewrite map_size_ne_0_lookup. eauto. Qed.

Section Bounds.
Context {B : Type} `{!PeerBus B} `{!PeerBusLaws B} (cfg : IngressCfg_).
Hypothesis Hmax : (1 <= max_peer_sessions cfg)%nat.
Hypothesis Hearly : 0 <= pending_max_bytes cfg < usize_max.

(** The key given up is one of the map's. *)
Lemma first_is_key {A} (m : gmap Key A) (w : B) : (1 <= size m)%nat ->
  exists k, hash_first (keys_of m) w = Some k /\ is_Some (m !! k).
Proof.
  intros Hm. pose proof (hash_first_law (keys_of m) w) as Hk. destruct (hash_first _ _) as [k|].
  - exists k. split; [done|]. unfold keys_of in Hk. apply list_elem_of_fmap in Hk as ([k' x] & -> & Hx).
    apply elem_of_map_to_list in Hx. eauto.
  - exfalso. unfold keys_of in Hk. apply fmap_nil_inv in Hk. apply map_to_list_empty_iff in Hk as ->. by rewrite map_size_empty in Hm; lia.
Qed.

Lemma set_bus_bounded w (s : Ingress B) : bounded cfg s -> bounded cfg (set_bus w s).
Proof. by intros []. Qed.
Lemma drop_with_bounded d (s : Ingress B) : bounded cfg s -> bounded cfg (drop_with d s).
Proof. by intros []. Qed.

Lemma put_session_bounded k id (s : Ingress B) : bounded cfg s -> bounded cfg (upd_sessions (insert k id) (evict_session (max_peer_sessions cfg) s)).
Proof.
  intros [Hs Ht Hf He Hr]. unfold evict_session. destruct (Nat.leb_spec (max_peer_sessions cfg) (size (sessions s))) as [Hle|Hlt].
  - destruct (first_is_key (sessions s) (bus s) ltac:(lia)) as (k' & -> & [x Hx]). rewrite Hx. split; cbn; [|done..].
    pose proof (size_insert_le (delete k' (sessions s)) k id). pose proof (size_delete_lt (sessions s) k' (mk_is_Some _ _ Hx)). lia.
  - split; cbn; [|done..]. pose proof (size_insert_le (sessions s) k id). lia.
Qed.

Lemma put_stream_bounded k id (s : Ingress B) : bounded cfg s -> bounded cfg (upd_streams (insert k id) (evict_stream (max_peer_sessions cfg) s)).
Proof.
  intros [Hs Ht Hf He Hr]. unfold evict_stream. destruct (Nat.leb_spec (max_peer_sessions cfg) (size (stream_sessions s))) as [Hle|Hlt].
  - destruct (first_is_key (stream_sessions s) (bus s) ltac:(lia)) as (k' & -> & [x Hx]). rewrite Hx. split; cbn; [done| |done..].
    pose proof (size_insert_le (delete k' (stream_sessions s)) k id). pose proof (size_delete_lt (stream_sessions s) k' (mk_is_Some _ _ Hx)). lia.
  - split; cbn; [done| |done..]. pose proof (size_insert_le (stream_sessions s) k id). lia.
Qed.

Lemma put_family_bounded k fam (s : Ingress B) : bounded cfg s -> bounded cfg (upd_families (insert k fam) (evict_family (max_peer_sessions cfg) k s)).
Proof.
  intros [Hs Ht Hf He Hr]. unfold evict_family. destruct (in_families s !! k) eqn:E.
  { split; cbn; [done|done| |done..]. by rewrite map_size_insert, E. }
  destruct (Nat.leb_spec (max_peer_sessions cfg) (size (in_families s))) as [Hle|Hlt].
  - destruct (first_is_key (in_families s) (bus s) ltac:(lia)) as (k' & -> & Hx). split; cbn; [done|done| |done..].
    pose proof (size_insert_le (delete k' (in_families s)) k fam). pose proof (size_delete_lt (in_families s) k' Hx). lia.
  - split; cbn; [done|done| |done..]. pose proof (size_insert_le (in_families s) k fam). lia.
Qed.

Lemma drop_session_bounded k (s : Ingress B) : bounded cfg s -> bounded cfg (upd_sessions (delete k) s).
Proof. intros []. split; cbn; [|done..]. etrans; [apply size_delete_le|done]. Qed.
Lemma drop_stream_bounded k (s : Ingress B) : bounded cfg s -> bounded cfg (upd_streams (delete k) s).
Proof. intros []. split; cbn; [done| |done..]. etrans; [apply size_delete_le|done]. Qed.
Lemma drop_family_bounded k (s : Ingress B) : bounded cfg s -> bounded cfg (upd_families (delete k) s).
Proof. intros []. split; cbn; [done|done| |done..]. etrans; [apply size_delete_le|done]. Qed.
Lemma drop_early_bounded k (s : Ingress B) : bounded cfg s -> bounded cfg (upd_pending (delete k) s).
Proof. intros [Hs Ht Hf He Hr]. split; cbn; [done|done|done| |done]. intros k' p [_ Hp]%lookup_delete_Some. by apply (He k'). Qed.

Lemma send_reply_bounded r (s : Ingress B) : bounded cfg s -> bounded cfg (send_reply r s).
Proof. by intros []. Qed.
Lemma queue_reply_bounded r (s : Ingress B) : bounded cfg s -> bounded cfg (queue_reply r s).
Proof.
  intros []. unfold queue_reply. destruct (Nat.ltb_spec (length (control_replies s)) CONTROL_REPLY_BOUND); [|done].
  split; cbn; [done..|]. rewrite length_app. cbn. lia.
Qed.

#[local] Hint Resolve set_bus_bounded drop_with_bounded put_session_bounded put_stream_bounded put_family_bounded
  drop_session_bounded drop_stream_bounded drop_family_bounded drop_early_bounded send_reply_bounded queue_reply_bounded : core.

Lemma close_bounded id (s : Ingress B) : bounded cfg s -> bounded cfg (close_session id s).
Proof. unfold close_session. auto. Qed.
#[local] Hint Resolve close_bounded : core.

Lemma stream_write_bounded k id b (s : Ingress B) : bounded cfg s -> bounded cfg (stream_write k id b s).2.
Proof. intros Hs. unfold stream_write. destruct (bus_send id b (bus s)) as [[] w]; cbn; [auto|]. case_match; auto. Qed.

Lemma send_early_bounded k id bs : forall s : Ingress B, bounded cfg s -> bounded cfg (send_early k id bs s).
Proof.
  induction bs as [|b bs IH]; intros s Hs; cbn; [done|]. pose proof (stream_write_bounded k id b s Hs) as Hw.
  destruct (stream_write k id b s) as [[] s']; auto.
Qed.
#[local] Hint Resolve stream_write_bounded send_early_bounded : core.

Lemma early_data_bounded peer sid b (s : Ingress B) : bounded cfg s -> bounded cfg (on_stream_data cfg peer sid b s).
Proof.
  intros Hs. unfold on_stream_data. destruct (stream_sessions s !! _); [auto|].
  set (p := default _ _). assert (Hp : pd_bytes p = early_bytes p /\ pd_bytes p <= pending_max_bytes cfg).
  { unfold p. match goal with |- context [default _ ?x] => destruct x eqn:E end; [exact (bd_early _ _ Hs _ _ E)|]. unfold early_bytes. cbn. lia. }
  assert (Hput : forall q, pd_bytes q = early_bytes q /\ pd_bytes q <= pending_max_bytes cfg ->
    bounded cfg (upd_pending (insert (peer, sid) q) s)).
  { intros q Hq. destruct Hs as [Hs Ht Hf He Hr]. split; cbn; [done|done|done| |done].
    intros k r. rewrite lookup_insert_Some. intros [[_ <-]|[_ Hk]]; [done|by apply (He k)]. }
  destruct (Z.ltb_spec (pending_max_bytes cfg) (Z.min (pd_bytes p + Z.of_nat (length b)) usize_max)); [auto|].
  apply Hput. unfold pending_push, early_bytes in *. cbn. rewrite concat_app, length_app. cbn. rewrite app_nil_r. lia.
Qed.
#[local] Hint Resolve early_data_bounded : core.

Lemma handle_frame_bounded peer seal now f (s : Ingress B) : bounded cfg s -> bounded cfg (handle_frame cfg peer seal now f s).
Proof.
  intros Hs. destruct f; cbn [handle_frame]; try done; auto.
  - unfold on_stream_open. case_match; [done|]. destruct (bus_open_stream _ _ _) as [[id|r] w]; [|auto].
    case_match; auto 10.
  - unfold on_stream_shutdown. case_match; auto.
  - unfold on_stream_close. case_match; auto.
  - unfold on_datagram_open. case_match; [|done]. case_match; [done|]. destruct (bus_open_datagram _ _) as [[id|] w]; auto.
  - unfold on_datagram_send. case_match; [auto|]. destruct (bus_open_datagram _ _) as [[id|] w]; auto.
  - unfold on_datagram_close. case_match; auto.
  - by destruct Hs.
  - by destruct Hs.
Qed.

Lemma handle_frames_bounded peer seal now fs : forall s : Ingress B, bounded cfg s -> bounded cfg (handle_frames cfg peer seal now fs s).
Proof. induction fs as [|f fs IH]; intros s Hs; cbn; [done|]. by apply IH, handle_frame_bounded. Qed.

Context `{Bincode WireFrame} `{Bincode MeshEvent} `{MeshCrypto}.

Lemma decode_packages_bounded peer ps : forall s : Ingress B, bounded cfg s -> bounded cfg (decode_packages peer ps s).2.
Proof.
  induction ps as [|p ps IH]; intros s Hs; cbn; [done|]. destruct (decode_frame (payload p)) as [[f|err] rest]; [|auto].
  specialize (IH s Hs). by destruct (decode_packages peer ps s).
Qed.

Lemma decode_inbound_bounded peer clear seal sealed (s : Ingress B) : bounded cfg s ->
  bounded cfg (decode_inbound cfg peer clear seal sealed s).2.
Proof.
  intros Hs. unfold decode_inbound. destruct (ig_mode cfg); [|destruct sealed; by case_match].
    destruct (decode_event clear) as [[e|err] rest]; [|cbn; auto].
    assert (Hpush : forall p, bounded cfg (push_family cfg peer seal e p s).2).
    { intros p. unfold push_family. destruct (push_package _ p) as [o fam].
      pose proof (put_family_bounded (peer, family_id e) fam s Hs) as Hf.
      destruct o; [by apply decode_packages_bounded|done|done|cbn; auto|]. destruct (semantic e); cbn; auto 10. }
    destruct (semantic e), (package e); cbn; auto; repeat case_match; cbn; auto.
Qed.

Lemma handle_inbound_bounded now peer packet (s : Ingress B) : bounded cfg s -> bounded cfg (handle_inbound cfg now peer packet s).
Proof.
  intros Hs. unfold handle_inbound.
  assert (Ho : bounded cfg (open_inbound cfg now peer packet s).2).
  { unfold open_inbound. destruct (ig_meshsec cfg); [|done]. destruct (open_bytes _ _ _ _ _ _) as [[[id clear]|err] replay].
    - destruct (reply_seal_for _ _ _) as [seal counters]. by destruct Hs.
    - by destruct Hs. }
  destruct (open_inbound cfg now peer packet s) as [[[[clear seal] sealed]|] s1]; [|done].
  pose proof (decode_inbound_bounded peer clear seal sealed s1 Ho) as Hd.
  destruct (decode_inbound cfg peer clear seal sealed s1) as [fs s2]. by apply handle_frames_bounded.
Qed.
End Bounds.

(** C22: Whatever its peers send, an ingress never holds more sessions, streams or families
    than it is configured to, never queues more than 64 control replies, and keeps at most
    the configured number of bytes for a stream that is not open yet, which it counts
    exactly. *)
Theorem ingress_stays_within_its_bounds {B} `{!PeerBus B, !PeerBusLaws B} `{Bincode WireFrame} `{Bincode MeshEvent} `{MeshCrypto}
    (cfg : IngressCfg_) (b : B) (packets : list (Z * SocketAddr * list Z))
    (Hmax : (1 <= max_peer_sessions cfg)%nat) (Hearly : 0 <= pending_max_bytes cfg < usize_max) :
  bounded cfg (foldl (fun s '(now, peer, packet) => handle_inbound cfg now peer packet s) (ingress_start b) packets).
Proof.
  assert (Hs : bounded cfg (ingress_start b)).
  { split; cbn; [rewrite map_size_empty; lia..| |unfold CONTROL_REPLY_BOUND; lia]. intros k p Hp. by rewrite lookup_empty in Hp. }
  revert Hs. generalize (ingress_start b). induction packets as [|[[now peer] packet] packets IH]; intros s Hs; [done|].
  apply IH. by apply handle_inbound_bounded.
Qed.

(** ** Where the peers fall short *)

(** The bound on early data is one per stream: a peer that sends data for streams it never
    opens adds an entry for each. *)
Theorem early_data_is_not_bounded {B} `{!PeerBus B} (cfg : IngressCfg_) (peer : SocketAddr) (seal : option MeshSecReplySeal) (now : Z)
    (b : B) (sids : list string) (Hmax : 0 <= pending_max_bytes cfg) (Hdistinct : NoDup sids) :
  size (pending_stream_data (handle_frames cfg peer seal now ((fun sid => FStreamData sid 1 []) <$> sids) (ingress_start b))) = length sids.
Proof.
  enough (Hgen : forall s : Ingress B, stream_sessions s = ∅ -> (forall sid, sid ∈ sids -> pending_stream_data s !! (peer, sid) = None) ->
    size (pending_stream_data (handle_frames cfg peer seal now ((fun sid => FStreamData sid 1 []) <$> sids) s))
    = (size (pending_stream_data s) + length sids)%nat).
  { rewrite Hgen; [done|done|]. intros sid _. apply lookup_empty. }
  induction Hdistinct as [|sid sids Hnin _ IH]; intros s Hst Hnew; [cbn; lia|].
  pose proof (Hnew sid ltac:(set_solver)) as Hsid.
  assert (Hone : handle_frame cfg peer seal now (FStreamData sid 1 []) s
    = upd_pending (insert (peer, sid) (mkPendingData [[]] 0)) s).
  { cbn. unfold on_stream_data. rewrite Hst. unfold Key in *. rewrite lookup_empty, Hsid. cbn.
    change ((0 + Z.of_nat 0) `min` usize_max) with 0. by destruct (Z.ltb_spec (pending_max_bytes cfg) 0); [lia|]. }
  change (handle_frames cfg peer seal now ((fun sid => FStreamData sid 1 []) <$> sid :: sids) s) with
    (handle_frames cfg peer seal now ((fun sid => FStreamData sid 1 []) <$> sids) (handle_frame cfg peer seal now (FStreamData sid 1 []) s)).
  rewrite Hone, IH; [|done|].
  - cbn. rewrite map_size_insert_None by done. lia.
  - intros sid' Hin. cbn. rewrite lookup_insert_ne by (intros [= ->]; done). apply Hnew. set_solver.
Qed.

(** A datagram the path-MTU guard drops is reported sent when another of the same flush
    goes out. *)
Theorem dropped_datagram_is_reported_sent (small big : OutboundDatagram) (i j : nat) (s : Sender) (env : FlushEnv)
    (Hempty : queues (sd_loop s) = queues loop_bind) (Hsmall : within_pmtu small = true) (Hbig : within_pmtu big = false)
    (Henv : forall ds, env ds = Some (Ok (mkFlush (length (List.filter within_pmtu ds)) (length ds - length (List.filter within_pmtu ds))))) :
  answers (flush_pending env [mkPending [small] i; mkPending [big] j] s) = (answers s ++ [(i, Ok tt); (j, Ok tt)])%list.
Proof.
  unfold flush_pending. cbn [enqueue_pending enqueue_all ps_datagrams]. unfold try_enqueue. rewrite Hempty. cbn.
  rewrite Henv. cbn. rewrite Hsmall, Hbig. cbn. by rewrite <- app_assoc.
Qed.

(** A chunk that finds the inbox full is dropped and the stream goes on: the reader gets
    the chunks before it and those that arrive once there is room again, without it, and
    the error only after them. *)
Theorem full_inbox_leaves_a_hole (sid : string) (n : Z) (first lost later : list Z) (queued : list (list Z)) (i : StreamInboxes)
    (Hrun : running i = true) (Hev : event_inbox i = []) (Hdata : data_inbox i = first :: queued)
    (Hfull : length (data_inbox i) = STREAM_DATA_BOUND) :
  let i1 := stream_frame sid (FStreamData sid n lost) i in
  let '(r, h, i2) := stream_recv false recv_half_new i1 in
  let i3 := stream_frame sid (FStreamData sid (n + 1) later) i2 in
  r = Chunk_ first /\ data_inbox i3 = (queued ++ [later])%list /\ event_inbox i3 = [EvQueueFull].
Proof.
  destruct i as [c o d e r]. cbn in Hrun, Hev, Hdata, Hfull. subst r e d. unfold stream_frame, push_stream_data, push_event. cbn [negb running].
  rewrite !bool_decide_eq_true_2 by done. cbn [data_inbox event_inbox]. rewrite (proj2 (Nat.ltb_ge _ _)) by lia. cbn -[Nat.ltb].
  change (0 <? STREAM_EVENT_BOUND)%nat with true. cbn -[Nat.ltb]. rewrite (proj2 (Nat.ltb_lt (length queued) STREAM_DATA_BOUND)); [done|].
  cbn [length] in Hfull. lia.
Qed.

(** A gap in what comes back makes an egress in repair mode resend its own packets with
    the missing numbers; nothing asks the peer for the missing ones. *)
Theorem return_gap_resends_own_packets `{Bincode WireFrame} `{Bincode MeshEvent} `{MeshCrypto}
    (peer : SocketAddr) (sid policy : string) (back own : list Z) (d : Driver)
    (Hpol : retransmit (dr_policy d) = [(1, own)]) (Hroom : repair_q d = []) (Hfam : family_states d !! (peer, sid) = None) :
  let '(fs, d') := decode_native_event peer (wrap_frame_event sid 2 Stream policy back) d in
  fs = [] /\ repair_q d' = [[own]].
Proof.
  unfold decode_native_event. cbn [semantic wrap_frame_event native_frame_classes package family_id].
  assert (Hf : family_of (family_states d) (peer, sid) = family_new sid 1 NATIVE_REORDER_WINDOW 0) by exact (f_equal (default _) Hfam).
  rewrite Hf. cbn -[family_new]. unfold enqueue_retransmit, to_retransmit. cbn [dr_policy set_families]. rewrite Hpol. cbn. by rewrite Hroom.
Qed.

(** ** A small mesh *)

#[local] Existing Instances DemoCrypto.crypto DemoCrypto.crypto_laws.

Module PeerDemo.
(** A serializer of finitely many values. *)
Section Table.
Context {T} `{EqDecision T} (table : list (T * list Z)).

Definition table_bincode : Bincode T := {|
  bc_serialize x := snd <$> List.find (fun e => bool_decide (e.1 = x)) table;
  bc_deserialize b := fst <$> List.find (fun e => bool_decide (e.2 = b)) table;
  bc_encode_text _ := "unsupported";
  bc_decode_text _ := "invalid"
|}.

Lemma find_in {A} (f : A -> bool) l x : List.find f l = Some x -> x ∈ l /\ f x = true.
Proof. intros Hf. apply List.find_some in Hf as [Hin Hx]. split; [by apply list_elem_of_In|done]. Qed.

Lemma table_laws : Forall (fun e => bytes_ok e.2) table -> NoDup table.*2 -> @BincodeLaws T table_bincode.
Proof.
  intros Hb Hn. split; cbn; intros x bs Hx; apply fmap_Some in Hx as ([y c] & Hf & ->); apply find_in in Hf as [Hin Hy].
  - rewrite Forall_forall in Hb. by apply (Hb (y, c)).
  - apply bool_decide_eq_true in Hy. cbn in *. subst y.
    destruct (List.find (fun e => bool_decide (e.2 = c)) table) as [[y c']|] eqn:E.
    + apply find_in in E as [Hin' Hc]. apply bool_decide_eq_true in Hc. cbn in *. subst c'. f_equal.
      apply list_elem_of_lookup in Hin as [i Hi], Hin' as [j Hj].
      assert (i = j). { eapply (NoDup_lookup table.*2); [done|by rewrite list_lookup_fmap, Hi|by rewrite list_lookup_fmap, Hj]. }
      subst j. congruence.
    + exfalso. apply list_elem_of_In in Hin. pose proof (List.find_none _ _ E (x, c) Hin) as Hno. cbn in Hno. by rewrite bool_decide_eq_true_2 in Hno.
Qed.
End Table.

Definition peer : SocketAddr := SockV4 [10; 0; 0; 1] 7000.
Definition data1 : MeshFrame := FStreamData "s" 1 [1; 2].
Definition data2 : MeshFrame := FStreamData "s" 2 [3].
Definition shutdown : MeshFrame := FStreamShutdownWrite "s".
Definition frames : list (WireFrame * list Z) :=
  [(map_endpoint endpoint_ser data1, [1]); (map_endpoint endpoint_ser data2, [2]); (map_endpoint endpoint_ser shutdown, [3])].
#[export] Instance wire : Bincode WireFrame := table_bincode frames.

Definition event (f : MeshFrame) (b : list Z) : MeshEvent :=
  let '(family, sq, sem) := frame_event_meta f in wrap_frame_event family sq sem "steer" (envelope (msg_type f) b).
Definition events : list (MeshEvent * list Z) := [(event data1 [1], [11]); (event data2 [2], [12]); (event shutdown [3], [13])].
#[export] Instance event_wire : Bincode MeshEvent := table_bincode events.

#[export] Instance wire_laws : BincodeLaws WireFrame.
Proof. apply table_laws; [repeat constructor; lia|]. apply (bool_decide_unpack _). vm_compute. exact I. Qed.
#[export] Instance event_laws : BincodeLaws MeshEvent.
Proof. apply table_laws; [repeat constructor; lia|]. apply (bool_decide_unpack _). vm_compute. exact I. Qed.

(** A bus that takes everything and keeps a log. *)
Inductive BusOp := OpSend (id : nat) (b : list Z) | OpShutdown (id : nat) | OpOther.

#[export] Instance demo_bus : PeerBus (list BusOp) := {|
  bus_open_datagram _ w := (Some 0%nat, w);
  bus_open_stream _ _ w := (Ok 1%nat, w);
  bus_send_to _ _ _ w := (w ++ [OpOther])%list;
  bus_send id b w := (true, (w ++ [OpSend id b])%list);
  bus_shutdown id w := (w ++ [OpShutdown id])%list;
  bus_close _ w := (w ++ [OpOther])%list;
  hash_first ks _ := head ks
|}.
#[export] Instance demo_bus_laws : PeerBusLaws (list BusOp).
Proof. intros [|k ks] w; cbn; set_solver. Qed.

Definition packet (f : MeshFrame) : list Z := default [] (encode_native "steer" f).
Definition opened : Ingress (list BusOp) := upd_streams (insert (peer, "s") 1%nat) (ingress_start []).

(** The end of a stream is a control event, which no data waits for: it reaches the bus
    before the data that was sent first. *)
Example shutdown_overtakes_data :
  bus (receive ingress_cfg_new peer [(0, packet data2); (0, packet shutdown); (0, packet data1)] opened)
  = [OpShutdown 1; OpSend 1 [1; 2]; OpSend 1 [3]].
Proof. vm_compute. reflexivity. Qed.
End PeerDemo.
Import PeerDemo.

Lemma native_stream_arrives_in_order_witness :
  bus (receive ingress_cfg_new peer [(0, packet data2); (0, packet data1); (0, packet data2)] opened)
  = sends 1 (chunks 2 [1; 2; 3]) [] /\ concat (chunks 2 [1; 2; 3]) = [1; 2; 3].
Proof.
  apply (native_stream_arrives_in_order ingress_cfg_new peer "s" "steer" 1 2 [1; 2; 3] opened [(2, [3]); (1, [1; 2]); (2, [3])]).
  - reflexivity.
  - reflexivity.
  - vm_compute. reflexivity.
  - intros c w. reflexivity.
  - vm_compute. reflexivity.
  - apply (bool_decide_unpack _). vm_compute. exact I.
  - lia.
  - vm_compute. discriminate.
  - intros f. change (f ∈ [data2; data1; data2] <-> f ∈ [data1; data2]). set_solver.
  - repeat constructor; cbn [fst snd]; [exists [2], [12]|exists [1], [11]|exists [2], [12]]; (split_and!; vm_compute; reflexivity).
  - intros [|[|[|i]]] op k Hop Hk Hw; cbn in Hop; [injection Hop as <-; cbn in Hw; lia..|]. destruct i; discriminate.
Defined.

Lemma lost_package_silences_the_family_witness :
  bus (receive ingress_cfg_new peer [(0, packet data2); (5, packet data2)] opened) = [].
Proof.
  apply (lost_package_silences_the_family ingress_cfg_new peer "s" 1).
  - reflexivity.
  - reflexivity.
  - lia.
  - apply family_gone_stalled; [lia|]. vm_compute. reflexivity.
  - assert (Hl : later_package "s" 1 (packet data2)).
    { exists (event data2 [2]), (frame_package "steer" data2), []. split_and!; vm_compute; reflexivity. }
    repeat constructor; exact Hl.
Defined.

Lemma ingress_stays_within_its_bounds_witness :
  bounded (with_max_peer_sessions 0 ingress_cfg_new)
    (foldl (fun s '(now, peer, packet) => handle_inbound (with_max_peer_sessions 0 ingress_cfg_new) now peer packet s)
       (ingress_start []) [(0, peer, packet data1); (1, SockV4 [10; 0; 0; 2] 7, packet data1)]).
Proof.
  apply (ingress_stays_within_its_bounds (with_max_peer_sessions 0 ingress_cfg_new) []).
  - vm_compute. constructor.
  - vm_compute. split; [discriminate|reflexivity].
Defined.

Definition demo_sender : Sender :=
  sender_start SecureUdpNative peer (egress_policy_new Steer 9 0) (Some (mkSealer DemoCrypto.ctx 1)).

Lemma sealed_packets_fit_the_path_witness : exists ds s',
  encode_frame_datagrams 0 data1 demo_sender = (Ok ds, s') /\ (1 <= length ds <= 4)%nat.
Proof.
  destruct (encode_frame_datagrams 0 data1 demo_sender) as [[ds|e] s'] eqn:E.
  - exists ds, s'. split; [reflexivity|].
    refine (proj2 (sealed_packets_fit_the_path 0 data1 demo_sender (mkSealer DemoCrypto.ctx 1) ds s' _ _ _ E));
      [reflexivity|reflexivity|cbn; lia].
  - exfalso. revert E. vm_compute. discriminate.
Defined.

Lemma sender_answers_each_request_once_witness : exists s,
  rtc sender_step ([], demo_sender) ([7%nat], s) /\ ((answers s).*1 ++ waiting s)%list ≡ₚ [7%nat].
Proof.
  set (s1 := submit true (ReqRepair [[1; 2]] 7) demo_sender). set (s2 := handle_control (fun ds => Some (Ok (mkFlush (length ds) 0))) 0 s1).
  assert (Hrun : rtc sender_step ([], demo_sender) ([7%nat], s2)).
  { eapply rtc_l; [apply (step_submit true (ReqRepair [[1; 2]] 7)); apply not_elem_of_nil|].
    apply rtc_once, step_control; [intros Hc; vm_compute in Hc; discriminate Hc|]. apply (bool_decide_unpack _). vm_compute. exact I. }
  exists s2. split; [exact Hrun|].
  exact (proj1 (proj2 (sender_answers_each_request_once SecureUdpNative peer _ _ _ _ Hrun))).
Defined.
