(* ===== verification/Ingress.v ===== *)
(** What the ingress plugins share (crates/mesh-bus-ingress-{socks5,http-connect,tcp,udp}/src:
    event_build.rs, verdict_apply.rs, rule_ctx_build.rs, action_apply.rs, access.rs):
    session requests, the events and rule contexts made of a connection, and what
    verdicts and rule actions make of a request.  The direct TCP and UDP ingresses are
    here too.  A pipeline is the function [run_pipeline_event] of its runtime, whose
    [None] is a panic; the bus is a class of parameters. *)
From S2P Require Import Prelude Numbers NetAddr Endpoint DispatchTypes Rules Schedulers ResolverRun Dns.
From S2P Require Import KernelRegistry Pipeline Hooks Forward.
Local Open Scope string_scope.
Local Open Scope Z_scope.

(** ** Session requests (transport/session/types.rs) *)

Record BusSessionRequest := mkSessionRequest {
  rq_target : Endpoint;
  rq_flow_semantics : FlowSemantics;
  rq_traffic_class : TrafficClass;
  rq_deadline_ms : option Z;
  rq_policy_ref : option string;
  rq_return_semantics : ReturnSemantics;
  rq_schedule_hint : ScheduleHint;
  rq_source_key : option string;
  rq_target_key : option string;
  rq_route_group : option string;
  rq_target_sink : option string
}.

Definition request_stream (t : Endpoint) : BusSessionRequest :=
  mkSessionRequest t ByteStream Bulk None None Direct Auto None None None None.
Definition request_datagram (t : Endpoint) : BusSessionRequest :=
  mkSessionRequest t Datagram Interactive None None PacketDedup Auto None None None None.

Definition with_source_key (k : string) (r : BusSessionRequest) : BusSessionRequest :=
  mkSessionRequest (rq_target r) (rq_flow_semantics r) (rq_traffic_class r) (rq_deadline_ms r) (rq_policy_ref r)
    (rq_return_semantics r) (rq_schedule_hint r) (Some k) (rq_target_key r) (rq_route_group r) (rq_target_sink r).
Definition with_target_key (k : string) (r : BusSessionRequest) : BusSessionRequest :=
  mkSessionRequest (rq_target r) (rq_flow_semantics r) (rq_traffic_class r) (rq_deadline_ms r) (rq_policy_ref r)
    (rq_return_semantics r) (rq_schedule_hint r) (rq_source_key r) (Some k) (rq_route_group r) (rq_target_sink r).
Definition with_route_group (g : string) (r : BusSessionRequest) : BusSessionRequest :=
  mkSessionRequest (rq_target r) (rq_flow_semantics r) (rq_traffic_class r) (rq_deadline_ms r) (rq_policy_ref r)
    (rq_return_semantics r) (rq_schedule_hint r) (rq_source_key r) (rq_target_key r) (Some g) (rq_target_sink r).
Definition with_target_sink (s : string) (r : BusSessionRequest) : BusSessionRequest :=
  mkSessionRequest (rq_target r) (rq_flow_semantics r) (rq_traffic_class r) (rq_deadline_ms r) (rq_policy_ref r)
    (rq_return_semantics r) (rq_schedule_hint r) (rq_source_key r) (rq_target_key r) (rq_route_group r) (Some s).
Definition with_schedule_hint (h : ScheduleHint) (r : BusSessionRequest) : BusSessionRequest :=
  mkSessionRequest (rq_target r) (rq_flow_semantics r) (rq_traffic_class r) (rq_deadline_ms r) (rq_policy_ref r)
    (rq_return_semantics r) h (rq_source_key r) (rq_target_key r) (rq_route_group r) (rq_target_sink r).

(** ** Verdicts (verdict_apply.rs, the same in the four crates) *)

Inductive PipelineOutcome := PAllow (request : BusSessionRequest) | PDeny (reason : string) | PDrop.

Definition hint_of_label (l : ScheduleHintLabel) (k : option Z) : result ScheduleHint string :=
  match l with
  | LOrdered => Ok SinglePath
  | LFanOut => match k with Some k => Ok (FanOut (Z.to_nat k)) | None => Err "missing_schedule_fanout_k" end
  | LStripe => Ok Auto
  end.

Definition project (base : BusSessionRequest) (ev : Event) : result BusSessionRequest string :=
  let req := match policy_route_group (meta ev) with Some g => with_route_group g base | None => base end in
  match tm_schedule_hint (transport (meta ev)) with
  | None => Ok req
  | Some l =>
      match hint_of_label l (tm_schedule_fanout_k (transport (meta ev))) with
      | Ok h => Ok (with_schedule_hint h req)
      | Err e => Err e
      end
  end.

Definition apply_verdict (v : Verdict) (ev : Event) (base : BusSessionRequest) : PipelineOutcome :=
  match v with
  | Accept sink => match project base ev with Ok r => PAllow (with_target_sink sink r) | Err reason => PDeny reason end
  | Reject reason => PDeny (reason_code reason)
  | VDrop => PDrop
  | Continue | Jump _ => PDeny "pipeline_did_not_terminate"
  end.

(** ** Hosts, keys and events *)

#[export] Instance HostIp_eq_dec : EqDecision HostIp.
Proof. solve_decision. Defined.

(** The address of a host, or its lower-case name. *)
Definition host_fields (t : Endpoint) : string + HostIp :=
  match parse_host_ip (host t) with Some ip => inr ip | None => inl (str_lower (host t)) end.

Definition peer_ip (a : SocketAddr) : HostIp :=
  match a with SockV4 o _ => Ip4 o | SockV6 g _ _ => Ip6 (octets_of_groups g) end.

Definition flow_id (peer : SocketAddr) (t : Endpoint) : string :=
  sock_text peer +:+ "->" +:+ host t +:+ ":" +:+ dec_show (port t).

Definition ingress_event (op protocol : string) (user : option string) (peer : SocketAddr) (t : Endpoint) : Event :=
  let op := ("operation", MString op) in
  let '(name, ext) := match host_fields t with
                      | inl h => (Some h, [op])
                      | inr ip => (None, [op; ("dst_ip_primary", MString (show_host_ip ip))])
                      end in
  mkEvent [] (mkTypedMap (mkNetMeta (Some (ip_text peer)) name (Some (port t)) (Some protocol))
                (mkTransportMeta None None None) None user (Some (flow_id peer t)) ext).

Definition build_connect_event (peer : SocketAddr) (t : Endpoint) (user : option string) : Event :=
  ingress_event "connect" "tcp" user peer t.
Definition build_bind_event (peer : SocketAddr) (t : Endpoint) (user : option string) : Event :=
  ingress_event "bind" "tcp" user peer t.
Definition build_udp_packet_event (peer : SocketAddr) (t : Endpoint) (user : option string) : Event :=
  ingress_event "datagram_send" "udp" user peer t.
Definition build_http_proxy_event (peer : SocketAddr) (t : Endpoint) (op : string) : Event :=
  ingress_event op "tcp" None peer t.
Definition build_direct_stream_event (peer : SocketAddr) (t : Endpoint) : Event :=
  ingress_event "direct_stream_open" "tcp" None peer t.
Definition build_direct_datagram_event (peer : SocketAddr) (t : Endpoint) : Event :=
  ingress_event "direct_datagram_send" "udp" None peer t.

Definition socks5_source_key (peer : SocketAddr) : string := ip_text peer.
Definition socks5_target_key (t : Endpoint) : string :=
  match host_fields t with inl h => h | inr ip => show_host_ip ip end +:+ ":" +:+ dec_show (port t).

(** ** Rule contexts (rule_ctx_build.rs) *)

Definition socks5_ctx (peer : SocketAddr) (t : option Endpoint) (net_ : RuleNetwork) (shape : RuleSessionShape) (op : string)
    (cmd : RuleSocks5Command) (user : option string) : RuleCtx :=
  let fields := host_fields <$> t in
  mkRuleCtx (Some (rule_ip (peer_ip peer)))
    (match fields with Some (inr ip) => Some (rule_ip ip) | _ => None end)
    (port <$> t) (Some net_) None (Some shape) (Some op) None None None None
    (match fields with Some (inl h) => Some h | _ => None end)
    (Some cmd) None None user None None [].

Definition build_connect_ctx (peer : SocketAddr) (t : Endpoint) (user : option string) : RuleCtx :=
  socks5_ctx peer (Some t) Tcp ShStream "connect" SConnect user.
Definition build_bind_ctx (peer : SocketAddr) (t : Endpoint) (user : option string) : RuleCtx :=
  socks5_ctx peer (Some t) Tcp ShStream "bind" SBind user.
Definition build_udp_associate_ctx (peer : SocketAddr) (declared : Endpoint) (user : option string) : RuleCtx :=
  socks5_ctx peer None Udp ShDatagram "datagram_associate" SUdpAssociate user.
Definition build_udp_packet_ctx (peer : SocketAddr) (t : Endpoint) (user : option string) : RuleCtx :=
  socks5_ctx peer (Some t) Udp ShDatagram "datagram_send" SUdpAssociate user.

(** ** Rule actions (action_apply.rs) *)

Section Actions.
Context `{RuleLibs}.

Inductive ApplyOutcome := OAllow (request : BusSessionRequest) | ODeny.

Definition map_schedule_hint (h : RuleScheduleHint) : ScheduleHint :=
  match h with HAuto => Auto | HFanOut k => FanOut (Z.to_nat k) end.

Fixpoint apply_one (a : Action) (r : BusSessionRequest) : ApplyOutcome :=
  match a with
  | Allow => OAllow r
  | Deny => ODeny
  | SetRouteGroup g => OAllow (with_route_group g r)
  | SetScheduleHint h => OAllow (with_schedule_hint (map_schedule_hint h) r)
  | Compose actions =>
      (fix go (l : list Action) (r : BusSessionRequest) : ApplyOutcome :=
         match l with
         | [] => OAllow r
         | a :: l => match apply_one a r with OAllow r => go l r | ODeny => ODeny end
         end) actions r
  | SetTransform _ _ | SetResolverPool _ | SetCostBias _ => ODeny
  end.

Definition apply_decision (d : RuleDecision) (r : BusSessionRequest) : ApplyOutcome := apply_one (decision_action d) r.

Definition UNPROJECTABLE : string := "unsupported legacy rule action: action cannot be projected onto BusSessionRequest".

Fixpoint validate_projectable_action (a : Action) : result unit string :=
  match a with
  | Allow | Deny | SetRouteGroup _ | SetScheduleHint _ => Ok tt
  | Compose actions =>
      (fix go (l : list Action) : result unit string :=
         match l with
         | [] => Ok tt
         | a :: l => match validate_projectable_action a with Ok _ => go l | Err e => Err e end
         end) actions
  | SetResolverPool _ | SetTransform _ _ | SetCostBias _ => Err UNPROJECTABLE
  end.

Fixpoint validate_rule_actions (l : list Rule) : result unit string :=
  match l with
  | [] => Ok tt
  | r :: l => match validate_projectable_action (rule_action r) with Ok _ => validate_rule_actions l | Err e => Err e end
  end.

Definition validate_rule_policy_actions (c : RuleChain) : result unit string :=
  match validate_rule_actions (rules c) with Ok _ => validate_projectable_action (chain_default c) | Err e => Err e end.

Definition socks5_action_label (a : Action) : string :=
  match a with
  | Allow => "allow"
  | Deny => "deny"
  | SetRouteGroup g => "set_route_group:" +:+ g
  | SetScheduleHint HAuto => "set_schedule_hint:auto"
  | SetScheduleHint (HFanOut k) => "set_schedule_hint:fanout:k=" +:+ dec_show k
  | SetTransform _ _ => "set_transform"
  | Compose _ => "compose"
  | SetResolverPool _ | SetCostBias _ => "unknown"
  end.

Definition schedule_hint_label (h : ScheduleHint) : string :=
  match h with
  | Auto => "auto"
  | SinglePath => "ordered"
  | FanOut k => "fanout:k=" +:+ dec_show (Z.of_nat k)
  | Stripe n => "stripe:n=" +:+ dec_show (Z.of_nat n)
  end.
End Actions.

(** ** The world of a connection *)

(** What [run_pipeline_event] of a runtime answers. *)
Abbreviation PipelineFn := (Event -> option (result PipelineRun PipelineRuntimeError)) (only parsing).

(** What a read of a connection gives within the handshake's time: bytes (never none: no
    bytes are the end), the end or a failure, or the time-out. *)
Inductive Read := RBytes (b : list Z) | REnd | RLate.

(** The client's socket and the bus.  A session is a number; a connect gives the local
    endpoint of its primary path, if it has one, and [None] is one that did not end within
    the time-out. *)
Class IngressWorld (W : Type) := {
  sock_read : W -> Read * W;
  (** [local_addr] *)
  sock_local : W -> option SocketAddr;
  sock_write : list Z -> W -> bool * W;
  bus_datagrams : bool;
  port_open_stream : BusSessionRequest -> W -> result nat DisconnectReason * W;
  session_connect : nat -> W -> option (result (option Endpoint) DisconnectReason) * W;
  port_open_datagram : BusSessionRequest -> W -> result nat DisconnectReason * W;
  session_send_to : nat -> Endpoint -> list Z -> W -> W;
  (** the end of a session: of its answers' task and of its send half *)
  session_close : nat -> W -> W;
  (** [pump.abort()]: of its answers' task only *)
  pump_abort : nat -> W -> W;
  (** [keys().next()] of a map with these keys *)
  map_first : forall {K : Type}, list K -> W -> option K
}.

(** ** Direct TCP (crates/mesh-bus-ingress-tcp/src/lib.rs) and the decision of direct UDP *)

(** The request of a connection; the outer [None] is a panic of the pipeline. *)
Definition decide_request (ev : Event) (base : BusSessionRequest) (pipeline : option PipelineFn) : option (option BusSessionRequest) :=
  match pipeline with
  | None => Some (Some base)
  | Some run =>
      match run ev with
      | None => None
      | Some (Err _) => Some None
      | Some (Ok r) => Some (match apply_verdict (run_verdict r) (run_event r) base with PAllow q => Some q | PDeny _ | PDrop => None end)
      end
  end.

Definition decide_stream (peer : SocketAddr) (target : Endpoint) (pipeline : option PipelineFn) : option (option BusSessionRequest) :=
  decide_request (build_direct_stream_event peer target) (request_stream target) pipeline.
Definition decide_datagram (peer : SocketAddr) (target : Endpoint) (pipeline : option PipelineFn) : option (option BusSessionRequest) :=
  decide_request (build_direct_datagram_event peer target) (request_datagram target) pipeline.

Section Direct.
Context {W : Type} `{!IngressWorld W}.

(** The session to relay, if the connection gets that far. *)
Definition tcp_handle_conn (peer : SocketAddr) (target : Endpoint) (pipeline : option PipelineFn) (w : W) : option nat * W :=
  match decide_stream peer target pipeline with
  | None | Some None => (None, w)
  | Some (Some q) =>
      match port_open_stream q w with
      | (Err _, w) => (None, w)
      | (Ok id, w) => match session_connect id w with
                      | (Some (Ok _), w) => (Some id, w)
                      | (_, w) => (None, w)
                      end
      end
  end.

(** *** Direct UDP (crates/mesh-bus-ingress-udp/src/lib.rs) *)

Definition MAX_UDP_PEER_SESSIONS : nat := 1024.
Definition udp_max_peer_sessions (max : nat) : nat := Nat.max max 1.

(** A full map gives up an entry, which is closed. *)
Definition evict_one {K A} `{Countable K} (max : nat) (close : A -> W -> W) (m : gmap K A) (w : W) : gmap K A * W :=
  if (max <=? size m)%nat then
    match map_first (map_to_list m).*1 w with
    | None => (m, w)
    | Some k => match m !! k with None => (m, w) | Some a => (delete k m, close a w) end
    end
  else (m, w).

(** One datagram; the outer [None] is a panic. *)
Definition udp_datagram (max : nat) (target : Endpoint) (pipeline : option PipelineFn) (peer : SocketAddr) (b : list Z)
    (m : gmap SocketAddr nat) (w : W) : option (gmap SocketAddr nat * W) :=
  match m !! peer with
  | Some id => Some (m, session_send_to id target b w)
  | None =>
      match decide_datagram peer target pipeline with
      | None => None
      | Some None => Some (m, w)
      | Some (Some q) =>
          match port_open_datagram q w with
          | (Err _, w) => Some (m, w)
          | (Ok sid, w) =>
              let '(m, w) := evict_one max session_close m w in
              Some (<[peer := sid]> m, session_send_to sid target b w)
          end
      end
  end.
End Direct.

(** ** Relays *)

(** What happens on either side: bytes, with whether the other side took them, or the end. *)
Inductive RelayIn := ClientBytes (b : list Z) (sent : bool) | ClientEnd | BusBytes (b : list Z) (written : bool) | BusEnd.
Inductive RelayOut := ToBus (b : list Z) | ToBusEnd | ToClient (b : list Z).

(** The two directions that still run. *)
Record Relay := mkRelay { sending : bool; returning : bool }.

(** One direction's step: what it puts out and whether it goes on. *)
Definition send_step (i : RelayIn) : list RelayOut * bool :=
  match i with
  | ClientBytes b true => ([ToBus b], true)
  | ClientBytes _ false | ClientEnd => ([ToBusEnd], false)
  | _ => ([], true)
  end.
Definition return_step (i : RelayIn) : list RelayOut * bool :=
  match i with
  | BusBytes b true => ([ToClient b], true)
  | BusBytes _ false | BusEnd => ([], false)
  | _ => ([], true)
  end.

Definition relay_step (i : RelayIn) (r : Relay) : list RelayOut * Relay :=
  let '(o1, s) := if sending r then send_step i else ([], false) in
  let '(o2, t) := if returning r then return_step i else ([], false) in
  ((o1 ++ o2)%list, mkRelay s t).

(** [tokio::join!] of both directions (TCP and HTTP): each runs to its own end. *)
Fixpoint relay_join (is_ : list RelayIn) (r : Relay) : list RelayOut :=
  match is_ with
  | [] => []
  | i :: is_ => let '(o, r) := relay_step i r in (o ++ relay_join is_ r)%list
  end.

(** [tokio::select!] with the other direction aborted (SOCKS5 CONNECT): the end of one is
    the end of both. *)
Fixpoint relay_select (is_ : list RelayIn) (r : Relay) : list RelayOut :=
  if negb (sending r && returning r) then []
  else match is_ with
       | [] => []
       | i :: is_ => let '(o, r) := relay_step i r in (o ++ relay_select is_ r)%list
       end.
