(* ===== verification/Socks5Ingress.v ===== *)
(** The SOCKS5 ingress (crates/mesh-bus-ingress-socks5/src): the greeting and user
    negotiation, and the three commands.  The reads and writes of the client's socket, the
    bus and, for BIND and UDP ASSOCIATE, the local sockets are parameters. *)
From S2P Require Import Prelude Numbers NetAddr Endpoint DispatchTypes Rules Schedulers ResolverRun Dns.
From S2P Require Import KernelRegistry Pipeline Hooks Forward Ingress Socks5.
Local Open Scope string_scope.
Local Open Scope Z_scope.

(** ** Greeting and users (auth.rs) *)

Record AuthConfig := mkAuth { users : gmap string string }.

Definition auth_new : AuthConfig := mkAuth ∅.
Definition with_user (user pass : string) (a : AuthConfig) : AuthConfig := mkAuth (<[user := pass]> (users a)).
Definition auth_verify (a : AuthConfig) (user pass : string) : bool :=
  match users a !! user with Some stored => bool_decide (stored = pass) | None => false end.
Definition auth_is_empty (a : AuthConfig) : bool := bool_decide (users a = ∅).

Record Handshake := mkHandshake { hs_request : Request; hs_user : option string }.

#[export] Instance Method_eq_dec : EqDecision Method.
Proof. solve_decision. Defined.

Section Handshake.
Context {W : Type} `{!IngressWorld W}.

(** The first loop: the bytes after the greeting when a method was agreed on.  The outer
    [None] is the end of the fuel. *)
Fixpoint read_greeting (fuel : nat) (auth : option AuthConfig) (buf : list Z) (w : W) : option (option (list Z) * W) :=
  match fuel with
  | O => None
  | S fuel =>
      match sock_read w with
      | (REnd, w) | (RLate, w) => Some (None, w)
      | (RBytes c, w) =>
          let buf := (buf ++ c)%list in
          match decode_greeting buf with
          | Ok (methods, rest) =>
              let required := match auth with Some _ => UserPass | None => NoAuth end in
              if negb (bool_decide (required ∈ methods)) then Some (None, (sock_write [0x05; 0xff] w).2)
              else
                let '(ok, w) := sock_write [0x05; match required with UserPass => 0x02 | _ => 0x00 end] w in
                Some (if ok then Some rest else None, w)
          | Err Incomplete => read_greeting fuel auth buf w
          | Err _ => Some (None, w)
          end
      end
  end.

Definition auth_failure (w : W) : option (string * list Z) * W :=
  (None, (sock_write (encode_user_pass_reply USER_PASS_STATUS_FAILURE) w).2).

(** What is answered to a user and a password: the user and the bytes left. *)
Definition check_user (a : AuthConfig) (req : UserPassRequest) (rest : list Z) (w : W) : option (string * list Z) * W :=
  match from_utf8 (username req), from_utf8 (password req) with
  | Some user, Some pass =>
      if negb (auth_verify a user pass) then auth_failure w
      else
        let '(ok, w) := sock_write (encode_user_pass_reply USER_PASS_STATUS_SUCCESS) w in
        (if ok then Some (user, rest) else None, w)
  | _, _ => auth_failure w
  end.

Fixpoint run_user_pass_subnegotiation (fuel : nat) (a : AuthConfig) (buf : list Z) (w : W) :
    option (option (string * list Z) * W) :=
  match decode_user_pass_request buf with
  | Ok (req, rest) => Some (check_user a req rest w)
  | Err Incomplete =>
      match fuel with
      | O => None
      | S fuel =>
          match sock_read w with
          | (REnd, w) | (RLate, w) => Some (None, w)
          | (RBytes c, w) => run_user_pass_subnegotiation fuel a (buf ++ c) w
          end
      end
  | Err _ => Some (auth_failure w)
  end.

(** The last loop; what follows the request in the buffer is dropped with it. *)
Fixpoint read_request (fuel : nat) (user : option string) (buf : list Z) (w : W) : option (option Handshake * W) :=
  match decode_request buf with
  | Ok (req, _) => Some (Some (mkHandshake req user), w)
  | Err Incomplete =>
      match fuel with
      | O => None
      | S fuel =>
          match sock_read w with
          | (REnd, w) | (RLate, w) => Some (None, w)
          | (RBytes c, w) => read_request fuel user (buf ++ c) w
          end
      end
  | Err _ => Some (None, w)
  end.

Definition read_handshake (fuel : nat) (auth : option AuthConfig) (w : W) : option (option Handshake * W) :=
  match read_greeting fuel auth [] w with
  | None => None
  | Some (None, w) => Some (None, w)
  | Some (Some rest, w) =>
      match auth with
      | None => read_request fuel None rest w
      | Some a =>
          match run_user_pass_subnegotiation fuel a rest w with
          | None => None
          | Some (None, w) => Some (None, w)
          | Some (Some (user, rest), w) => read_request fuel (Some user) rest w
          end
      end
  end.
End Handshake.

(** ** The commands' world *)

(** The sockets that BIND and UDP ASSOCIATE open.  A bind gives the local address, whose
    inner [None] is a failing [local_addr]; an accept gives the peer or an error, and its
    outer [None] is the time-out. *)
Class LocalSockets (W : Type) := {
  tcp_bind : SocketAddr -> W -> option (option SocketAddr) * W;
  tcp_accept : W -> option (option SocketAddr) * W;
  copy_bidirectional : W -> W;
  udp_bind : SocketAddr -> W -> option (option SocketAddr) * W
}.

Section Commands.
Context `{!RuleLibs} {W : Type} `{!IngressWorld W} `{!LocalSockets W}.

Record RulePolicy := mkPolicy { policy_chain : RuleChain; policy_registry : RuleSetRegistry }.

Record AccessTrace := mkAccess {
  matched_rule_id : string; matched_rule_index : string; at_default_used : bool;
  at_action : string; at_route_group : string; at_schedule_hint : string
}.

Definition write_reply (r : Reply) (w : W) : W := (sock_write (encode_reply r) w).2.

(** [unwrap_or_else(|| "-".into())] *)
Definition or_dash (o : option string) : string := default "-" o.

Definition access_of (d : RuleDecision) (q : BusSessionRequest) : AccessTrace :=
  mkAccess (or_dash (trace_rule_id (trace d))) (or_dash ((fun i => dec_show (Z.of_nat i)) <$> rule_index (trace d)))
    (default_used (trace d)) (socks5_action_label (decision_action d)) (or_dash (rq_route_group q)) (schedule_hint_label (rq_schedule_hint q)).

(** *** CONNECT (connect.rs) *)

Definition reply_for_disconnect (r : DisconnectReason) : Reply :=
  match r with
  | DConnectionRefused => ConnectionRefused
  | DNetworkUnreachable => NetworkUnreachable
  | DHostUnreachable | DNoUsableExit | DNotConnected => HostUnreachable
  | DTimedOut | DTtlExpired => TtlExpired
  | _ => GeneralFailure
  end.

(** The first half: what becomes of the request.  [None] is a panic of the pipeline. *)
Inductive Admission := AdmRequest (q : BusSessionRequest) (t : option AccessTrace) | AdmReply (r : Reply) | AdmDrop.

Definition connect_base (peer : SocketAddr) (t : Endpoint) : BusSessionRequest :=
  with_target_key (socks5_target_key t) (with_source_key (socks5_source_key peer) (request_stream t)).

Definition admit_connect (peer : SocketAddr) (t : Endpoint) (policy : option RulePolicy) (pipeline : option PipelineFn)
    (user : option string) : option Admission :=
  let base := connect_base peer t in
  match pipeline with
  | Some run =>
      match run (build_connect_event peer t user) with
      | None => None
      | Some (Err _) => Some (AdmReply GeneralFailure)
      | Some (Ok r) =>
          Some match apply_verdict (run_verdict r) (run_event r) base with
               | PAllow q =>
                   AdmRequest q (Some (mkAccess "-" "-" false
                     (match run_verdict r with Accept _ => "allow" | _ => "unknown" end)
                     (or_dash (rq_route_group q)) (schedule_hint_label (rq_schedule_hint q))))
               | PDeny _ => AdmReply ConnectionNotAllowed
               | PDrop => AdmDrop
               end
      end
  | None =>
      Some match policy with
           | Some p =>
               let d := evaluate_with_trace (policy_chain p) (build_connect_ctx peer t user) (policy_registry p) in
               match apply_decision d base with
               | OAllow q => AdmRequest q (Some (access_of d q))
               | ODeny => AdmReply ConnectionNotAllowed
               end
           | None => AdmRequest base None
           end
  end.

(** The second half: the session that is to be relayed, after its reply. *)
Definition open_connect (q : BusSessionRequest) (w : W) : option nat * W :=
  match port_open_stream q w with
  | (Err reason, w) => (None, write_reply (reply_for_disconnect reason) w)
  | (Ok sid, w) =>
      match session_connect sid w with
      | (Some (Ok local), w) =>
          let reply := match local with
                       | Some e => encode_reply_with_endpoint Succeeded e
                       | None => encode_reply Succeeded
                       end in
          let '(ok, w) := sock_write reply w in
          (if ok then Some sid else None, w)
      | (Some (Err reason), w) => (None, write_reply (reply_for_disconnect reason) w)
      | (None, w) => (None, write_reply GeneralFailure w)
      end
  end.

Definition pipe_connect (peer : SocketAddr) (t : Endpoint) (policy : option RulePolicy) (pipeline : option PipelineFn)
    (user : option string) (w : W) : option (option (nat * option AccessTrace) * W) :=
  match admit_connect peer t policy pipeline user with
  | None => None
  | Some (AdmReply r) => Some (None, write_reply r w)
  | Some AdmDrop => Some (None, w)
  | Some (AdmRequest q tr) => let '(sid, w) := open_connect q w in Some ((fun s => (s, tr)) <$> sid, w)
  end.

(** *** BIND (bind.rs) *)

Inductive BindGate := BAllow | BDeny | BDrop | BFail.

Definition gate (peer : SocketAddr) (declared : Endpoint) (policy : option RulePolicy) (pipeline : option PipelineFn)
    (user : option string) : option BindGate :=
  let base := request_stream declared in
  match pipeline with
  | Some run =>
      match run (build_bind_event peer declared user) with
      | None => None
      | Some (Err _) => Some BFail
      | Some (Ok r) => Some match apply_verdict (run_verdict r) (run_event r) base with
                            | PAllow _ => BAllow | PDeny _ => BDeny | PDrop => BDrop
                            end
      end
  | None =>
      Some match policy with
           | Some p =>
               let d := evaluate_with_trace (policy_chain p) (build_bind_ctx peer declared user) (policy_registry p) in
               match apply_decision d base with OAllow _ => BAllow | ODeny => BDeny end
           | None => BAllow
           end
  end.

Definition ip_unspecified (ip : HostIp) : bool :=
  match ip with Ip4 o | Ip6 o => forallb (fun b => b =? 0) o end.

Definition peer_ip_allowed (declared : Endpoint) (connecting : HostIp) : bool :=
  match parse_host_ip (host declared) with
  | Some ip => ip_unspecified ip || bool_decide (ip = connecting)
  | None => true
  end.

Definition endpoint_from_sockaddr (a : SocketAddr) : option Endpoint :=
  match endpoint_new (ip_text a) (sock_port a) with Ok e => Some e | Err _ => None end.

(** [SocketAddr::new(ip, port)]: no scope *)
Definition sock_of_ip (ip : HostIp) (p : Z) : SocketAddr :=
  match ip with Ip4 o => SockV4 o p | Ip6 o => SockV6 (groups_of_octets o) 0 p end.

Definition bind_listen_addr (w : W) : SocketAddr :=
  sock_of_ip (match sock_local w with Some a => peer_ip a | None => Ip4 [127; 0; 0; 1] end) 0.

Definition run_bind_relay (declared : Endpoint) (w : W) : W :=
  match tcp_bind (bind_listen_addr w) w with
  | (None, w) => write_reply GeneralFailure w
  | (Some addr, w) =>
      match addr ≫= endpoint_from_sockaddr with
      | None => write_reply GeneralFailure w
      | Some e =>
          match sock_write (encode_reply_with_endpoint Succeeded e) w with
          | (false, w) => w
          | (true, w) =>
              match tcp_accept w with
              | (None, w) => write_reply TtlExpired w
              | (Some None, w) => write_reply GeneralFailure w
              | (Some (Some from), w) =>
                  if negb (peer_ip_allowed declared (peer_ip from)) then write_reply ConnectionNotAllowed w
                  else
                    let second := match endpoint_from_sockaddr from with
                                  | Some e => encode_reply_with_endpoint Succeeded e
                                  | None => encode_reply Succeeded
                                  end in
                    match sock_write second w with
                    | (false, w) => w
                    | (true, w) => copy_bidirectional w
                    end
              end
          end
      end
  end.

Definition bind_command (peer : SocketAddr) (declared : Endpoint) (policy : option RulePolicy) (pipeline : option PipelineFn)
    (user : option string) (w : W) : option W :=
  match gate peer declared policy pipeline user with
  | None => None
  | Some BAllow => Some (run_bind_relay declared w)
  | Some BDeny => Some (write_reply ConnectionNotAllowed w)
  | Some BDrop => Some w
  | Some BFail => Some (write_reply GeneralFailure w)
  end.

(** *** UDP ASSOCIATE (udp_assoc.rs) *)

Definition MAX_UDP_TARGET_SESSIONS : nat := 256.

(** A session to a target, and where its response pump sends: the client's address when
    the session was opened. *)
Record UdpTargetSession := mkTargetSession { ts_id : nat; ts_client : SocketAddr; ts_target : Endpoint }.

Record UdpAssociation := mkAssociation {
  ua_peer : SocketAddr;
  ua_policy : option RulePolicy;
  ua_pipeline : option PipelineFn;
  ua_user : option string;
  ua_sessions : gmap string UdpTargetSession
}.

Definition set_sessions (m : gmap string UdpTargetSession) (a : UdpAssociation) : UdpAssociation :=
  mkAssociation (ua_peer a) (ua_policy a) (ua_pipeline a) (ua_user a) m.

Definition association_new (declared : Endpoint) (policy : option RulePolicy) (pipeline : option PipelineFn)
    (user : option string) : option UdpAssociation :=
  match parse_host_ip (host declared) with
  | None => None
  | Some ip => Some (mkAssociation (sock_of_ip ip (port declared)) policy pipeline user ∅)
  end.

Definition owns_peer (a : UdpAssociation) (peer : SocketAddr) : bool :=
  if (sock_port (ua_peer a) =? 0) || ip_unspecified (peer_ip (ua_peer a)) then true
  else bool_decide (peer = ua_peer a).

Definition udp_base (a : UdpAssociation) (t : Endpoint) : BusSessionRequest :=
  with_target_key (socks5_target_key t) (with_source_key (socks5_source_key (ua_peer a)) (request_datagram t)).

(** What the pipeline or the rules make of the first datagram to a target; the outer
    [None] is a panic. *)
Definition admit_datagram (a : UdpAssociation) (t : Endpoint) : option (option BusSessionRequest) :=
  let base := udp_base a t in
  match ua_pipeline a with
  | Some run =>
      match run (build_udp_packet_event (ua_peer a) t (ua_user a)) with
      | None => None
      | Some (Err _) => Some None
      | Some (Ok r) => Some match apply_verdict (run_verdict r) (run_event r) base with
                            | PAllow q => Some q | PDeny _ | PDrop => None
                            end
      end
  | None =>
      Some match ua_policy a with
           | Some p =>
               let d := evaluate_with_trace (policy_chain p) (build_udp_packet_ctx (ua_peer a) t (ua_user a)) (policy_registry p) in
               match apply_decision d base with OAllow q => Some q | ODeny => None end
           | None => Some base
           end
  end.

(** Under the lock: another task may have opened the session in the meantime. *)
Definition install_session (q : BusSessionRequest) (t : Endpoint) (client : SocketAddr) (a : UdpAssociation) (w : W) :
    option UdpTargetSession * UdpAssociation * W :=
  match ua_sessions a !! endpoint_fmt t with
  | Some s => (Some s, a, w)
  | None =>
      match port_open_datagram q w with
      | (Err _, w) => (None, a, w)
      | (Ok sid, w) =>
          let s := mkTargetSession sid client t in
          let '(m, w) := evict_one MAX_UDP_TARGET_SESSIONS (fun old => pump_abort (ts_id old)) (ua_sessions a) w in
          (Some s, set_sessions (<[endpoint_fmt t := s]> m) a, w)
      end
  end.

(** [session_for] of a task whose steps no other task's come between. *)
Definition session_for (t : Endpoint) (client : SocketAddr) (a : UdpAssociation) (w : W) :
    option (option UdpTargetSession * UdpAssociation * W) :=
  match ua_sessions a !! endpoint_fmt t with
  | Some s => Some (Some s, a, w)
  | None =>
      match admit_datagram a t with
      | None => None
      | Some None => Some (None, a, w)
      | Some (Some q) => Some (install_session q t client a w)
      end
  end.

Definition forward_udp_packet (client : SocketAddr) (packet : list Z) (a : UdpAssociation) (w : W) : option (UdpAssociation * W) :=
  match decode_udp_datagram packet with
  | Err _ => Some (a, w)
  | Ok d =>
      match session_for (target d) client a w with
      | None => None
      | Some (None, a, w) => Some (a, w)
      | Some (Some s, a, w) => Some (a, session_send_to (ts_id s) (target d) (payload d) w)
      end
  end.

(** A datagram on the relay's socket (the body of [run_udp_relay]'s loop). *)
Definition relay_datagram (client : SocketAddr) (packet : list Z) (a : UdpAssociation) (w : W) : option (UdpAssociation * W) :=
  if negb (owns_peer a client) then Some (a, w) else forward_udp_packet client packet a w.

(** A datagram back (the body of [run_udp_response_pump]'s loop). *)
Definition response (s : UdpTargetSession) (source : Endpoint) (b : list Z) : SocketAddr * list Z :=
  let effective := if String.eqb (host source) "0.0.0.0" || String.eqb (host source) "::" then ts_target s else source in
  (ts_client s, encode_udp_datagram effective b).

(** Up to the relay; the outer [None] is a panic ([expect]). *)
Definition udp_associate (peer : SocketAddr) (declared : Endpoint) (policy : option RulePolicy) (pipeline : option PipelineFn)
    (user : option string) (w : W) : option (option (UdpAssociation * option AccessTrace) * W) :=
  let admitted := match pipeline, policy with
                  | None, Some p =>
                      let d := evaluate_with_trace (policy_chain p) (build_udp_associate_ctx peer declared user) (policy_registry p) in
                      match apply_decision d (request_datagram declared) with
                      | OAllow q => Some (Some (access_of d q))
                      | ODeny => None
                      end
                  | _, _ => Some None
                  end in
  match admitted with
  | None => Some (None, write_reply ConnectionNotAllowed w)
  | Some tr =>
      if negb bus_datagrams then Some (None, write_reply HostUnreachable w)
      else
        match udp_bind (bind_listen_addr w) w with
        | (None, w) | (Some None, w) => Some (None, write_reply GeneralFailure w)
        | (Some (Some addr), w) =>
            match endpoint_from_sockaddr addr with
            | None => None
            | Some e =>
                match sock_write (encode_reply_with_endpoint Succeeded e) w with
                | (false, w) => Some (None, w)
                | (true, w) =>
                    match association_new declared policy pipeline user with
                    | None => Some (None, write_reply GeneralFailure w)
                    | Some a => Some (Some (a, tr), w)
                    end
                end
            end
        end
  end.

(** *** Connections (lib.rs) *)

Definition with_auth (a : AuthConfig) : option AuthConfig := if auth_is_empty a then None else Some a.

(** What a connection comes to. *)
Inductive Served :=
| Aborted
| Relaying (session : nat) (trace : option AccessTrace)
| Associated (a : UdpAssociation) (trace : option AccessTrace)
| BindDone
| Refused.

(** [None] is a panic or the end of the handshake's fuel. *)
Definition handle_conn (fuel : nat) (peer : SocketAddr) (policy : option RulePolicy) (pipeline : option PipelineFn)
    (auth : option AuthConfig) (w : W) : option (Served * W) :=
  match read_handshake fuel auth w with
  | None => None
  | Some (None, w) => Some (Aborted, w)
  | Some (Some h, w) =>
      let e := req_endpoint (hs_request h) in
      match command (hs_request h) with
      | Connect =>
          (fun '(r, w) => (match r with Some (s, tr) => Relaying s tr | None => Refused end, w))
            <$> pipe_connect peer e policy pipeline (hs_user h) w
      | UdpAssociate =>
          (fun '(r, w) => (match r with Some (a, tr) => Associated a tr | None => Refused end, w))
            <$> udp_associate peer e policy pipeline (hs_user h) w
      | Bind => (fun w => (BindDone, w)) <$> bind_command peer e policy pipeline (hs_user h) w
      end
  end.
End Commands.
