(* ===== verification/HttpIngress.v ===== *)
(** The HTTP CONNECT and forward-proxy ingress (crates/mesh-bus-ingress-http-connect/src/lib.rs):
    Basic credentials, the request head read from the connection, the decision, the
    responses, and what is relayed first. *)
From S2P Require Import Prelude Numbers NetAddr Endpoint DispatchTypes Rules Schedulers ResolverRun Dns.
From S2P Require Import KernelRegistry Pipeline Hooks Forward Ingress HttpProxy.
Local Open Scope string_scope.
Local Open Scope Z_scope.

(** ** Base64 and comparison *)

Definition TABLE : string := "ABCDEFGHIJKLMNOPQRSTUVWXYZabcdefghijklmnopqrstuvwxyz0123456789+/".

(** [TABLE[i]], for [i < 64]. *)
Definition table (i : Z) : Z := nth (Z.to_nat i) (bytes_of_string TABLE) 0.

(** The four characters of a chunk of one to three bytes. *)
Definition base64_chunk (b0 : Z) (b1 b2 : option Z) : list Z :=
  let x1 := default 0 b1 in
  let x2 := default 0 b2 in
  [ table (Z.shiftr b0 2);
    table (Z.lor (Z.shiftl (Z.land b0 0x03) 4) (Z.shiftr x1 4));
    match b1 with Some _ => table (Z.lor (Z.shiftl (Z.land x1 0x0f) 2) (Z.shiftr x2 6)) | None => 61 end;
    match b2 with Some _ => table (Z.land x2 0x3f) | None => 61 end ].

Fixpoint base64_encode (input : list Z) : list Z :=
  match input with
  | [] => []
  | [b0] => base64_chunk b0 None None
  | [b0; b1] => base64_chunk b0 (Some b1) None
  | b0 :: b1 :: b2 :: rest => (base64_chunk b0 (Some b1) (Some b2) ++ base64_encode rest)%list
  end.

(** [diff |= (a ^ b) as usize] over the longer length, the missing bytes being 0. *)
Definition constant_time_eq (left right : list Z) : bool :=
  let max := Nat.max (length left) (length right) in
  let diff0 := Z.lxor (Z.of_nat (length left)) (Z.of_nat (length right)) in
  let diff := fold_left (fun d i => Z.lor d (Z.lxor (nth i left 0) (nth i right 0))) (seq 0 max) diff0 in
  diff =? 0.

(** ** Credentials *)

Record BasicAuth := mkBasicAuth { basic_users : gmap string string }.

Definition basic_new : BasicAuth := mkBasicAuth ∅.
Definition basic_with_user (user pass : string) (a : BasicAuth) : BasicAuth := mkBasicAuth (<[user := pass]> (basic_users a)).
Definition basic_is_empty (a : BasicAuth) : bool := bool_decide (basic_users a = ∅).

Definition verify_header (a : BasicAuth) (header : option string) : bool :=
  match header with
  | None => false
  | Some h =>
      match (match strip_prefix "Basic " h with Some e => Some e | None => strip_prefix "basic " h end) with
      | None => false
      | Some encoded =>
          existsb (fun '(user, pass) => constant_time_eq (bytes_of_string encoded)
                                          (base64_encode (bytes_of_string (user +:+ ":" +:+ pass))))
            (map_to_list (basic_users a))
      end
  end.

Definition with_auth_basic (a : BasicAuth) : option BasicAuth := if basic_is_empty a then None else Some a.

(** ** Responses *)

Definition close_response (status : string) : string := "HTTP/1.1 " +:+ status +:+ CRLF +:+ "Connection: close" +:+ CRLF +:+ CRLF.

Definition REQUEST_TIMEOUT : string := close_response "408 Request Timeout".
Definition AUTH_REQUIRED : string :=
  "HTTP/1.1 407 Proxy Authentication Required" +:+ CRLF +:+ "Proxy-Authenticate: Basic realm=" +:+ String (ascii_z 34) ""
  +:+ "mesh-bus" +:+ String (ascii_z 34) "" +:+ CRLF +:+ "Connection: close" +:+ CRLF +:+ CRLF.
Definition FORBIDDEN : string := close_response "403 Forbidden".
Definition BAD_GATEWAY : string := close_response "502 Bad Gateway".
Definition ESTABLISHED : string := "HTTP/1.1 200 Connection Established" +:+ CRLF +:+ CRLF.

Definition response_for_parse_error (e : HttpProxyError) : string :=
  match e with UnsupportedMethod _ => close_response "405 Method Not Allowed" | _ => close_response "400 Bad Request" end.

(** ** Connections *)

Record ConnConfig := mkConnConfig {
  cc_pipeline : option PipelineFn;
  cc_auth : option BasicAuth;
  max_header_bytes : nat
}.

Record ParsedConn := mkParsed { pc_head : RequestHead; buffered : list Z }.

(** The time-out of the handshake, or what [read_request_head] gives. *)
Inductive HeadRead := HeadLate | HeadRead_ (r : result ParsedConn HttpProxyError).

Definition http_operation (k : RequestKind) : string :=
  match k with Connect => "http_connect_open" | ForwardHttp _ _ => "http_forward_open" end.

(** [decide_request] of this crate; the outer [None] is a panic. *)
Definition decide_head (peer : SocketAddr) (h : RequestHead) (pipeline : option PipelineFn) : option (option BusSessionRequest) :=
  decide_request (build_http_proxy_event peer (target h) (http_operation (kind h))) (request_stream (target h)) pipeline.

(** What goes up before the client's next bytes. *)
Definition first_upstream (p : ParsedConn) : list Z :=
  match kind (pc_head p) with
  | Connect => buffered p
  | ForwardHttp _ _ => (bytes_of_string (forwarded_head (pc_head p)) ++ buffered p)%list
  end.

Section Connection.
Context {W : Type} `{!IngressWorld W}.

(** [None] is the end of the fuel. *)
Fixpoint read_request_head (fuel : nat) (max : nat) (buf : list Z) (w : W) : option (HeadRead * W) :=
  match parse_request_head buf max with
  | Err e => Some (HeadRead_ (Err e), w)
  | Ok (Some h) => Some (HeadRead_ (Ok (mkParsed h (drop (consumed h) buf))), w)
  | Ok None =>
      match fuel with
      | O => None
      | S fuel =>
          match sock_read w with
          | (RLate, w) => Some (HeadLate, w)
          | (REnd, w) => Some (HeadRead_ (Err HIncomplete), w)
          | (RBytes c, w) => read_request_head fuel max (buf ++ c) w
          end
      end
  end.

Definition write_error (response : string) (w : W) : W := (sock_write (bytes_of_string response) w).2.

(** From the request on: the session to relay, if it comes to that. *)
Definition open_http (q : BusSessionRequest) (k : RequestKind) (w : W) : option nat * W :=
  match port_open_stream q w with
  | (Err _, w) => (None, write_error BAD_GATEWAY w)
  | (Ok sid, w) =>
      match session_connect sid w with
      | (Some (Ok _), w) =>
          match k with
          | Connect => let '(ok, w) := sock_write (bytes_of_string ESTABLISHED) w in (if ok then Some sid else None, w)
          | ForwardHttp _ _ => (Some sid, w)
          end
      | (_, w) => (None, write_error BAD_GATEWAY w)
      end
  end.

(** The session and the bytes to relay first.  The outer [None] is a panic of the
    pipeline or the end of the fuel. *)
Definition http_handle_conn (fuel : nat) (peer : SocketAddr) (cfg : ConnConfig) (w : W) : option (option (nat * list Z) * W) :=
  match read_request_head fuel (max_header_bytes cfg) [] w with
  | None => None
  | Some (HeadLate, w) => Some (None, write_error REQUEST_TIMEOUT w)
  | Some (HeadRead_ (Err e), w) => Some (None, write_error (response_for_parse_error e) w)
  | Some (HeadRead_ (Ok p), w) =>
      if match cc_auth cfg with
         | Some a => negb (verify_header a (proxy_authorization (pc_head p)))
         | None => false
         end
      then Some (None, write_error AUTH_REQUIRED w)
      else
        match decide_head peer (pc_head p) (cc_pipeline cfg) with
        | None => None
        | Some None => Some (None, write_error FORBIDDEN w)
        | Some (Some q) =>
            let '(sid, w) := open_http q (kind (pc_head p)) w in
            Some ((fun s => (s, first_upstream p)) <$> sid, w)
        end
  end.
End Connection.

(** [relay]: the first bytes, if any, then both directions; a first send that fails ends
    the sending direction without its end being sent. *)
Definition http_relay (first : list Z) (sent : bool) (is_ : list RelayIn) : list RelayOut :=
  match first with
  | [] => relay_join is_ (mkRelay true true)
  | _ :: _ => if sent then ToBus first :: relay_join is_ (mkRelay true true)
              else relay_join is_ (mkRelay false true)
  end.
