(* ===== verification/IngressFacts.v ===== *)
(** Theorems on the ingress plugins ([Ingress], [Socks5Ingress], [HttpIngress]).  A
    connection runs against a script: the answers of the client, the bus and the local
    sockets in the order they are asked for, and the log of what the code did. *)
From S2P Require Import Prelude Numbers NetAddr Endpoint DispatchTypes Rules Schedulers ResolverRun Dns.
From S2P Require Import KernelRegistry Pipeline Hooks Forward Ingress Socks5 Socks5Facts Socks5Ingress.
Local Open Scope Z_scope.

(** ** Scripts *)

Inductive Effect :=
| Wrote (b : list Z)
| OpenedStream (q : BusSessionRequest)
| Connecting (sid : nat)
| OpenedDatagram (q : BusSessionRequest)
| SentTo (sid : nat) (t : Endpoint) (b : list Z)
| ClosedSession (sid : nat)
| AbortedPump (sid : nat)
| ListenedOn (a : SocketAddr)
| Copied.

Record Script := mkScript {
  s_local : option SocketAddr;
  s_reads : list Read;
  s_written : list bool;
  s_opens : list (result nat DisconnectReason);
  s_connects : list (option (result (option Endpoint) DisconnectReason));
  s_binds : list (option (option SocketAddr));
  s_accepts : list (option (option SocketAddr));
  s_pick : nat;
  s_log : list Effect
}.

(** The next answer, or the one that is given when there are no more. *)
Definition next {A} (dflt : A) (l : list A) : A * list A := match l with [] => (dflt, []) | a :: l => (a, l) end.

Definition log (e : Effect) (s : Script) : Script :=
  mkScript (s_local s) (s_reads s) (s_written s) (s_opens s) (s_connects s) (s_binds s) (s_accepts s) (s_pick s) (s_log s ++ [e]).

Definition script_read (s : Script) : Read * Script :=
  let '(r, l) := next REnd (s_reads s) in
  (r, mkScript (s_local s) l (s_written s) (s_opens s) (s_connects s) (s_binds s) (s_accepts s) (s_pick s) (s_log s)).

Definition script_write (b : list Z) (s : Script) : bool * Script :=
  let '(r, l) := next true (s_written s) in
  (r, log (Wrote b) (mkScript (s_local s) (s_reads s) l (s_opens s) (s_connects s) (s_binds s) (s_accepts s) (s_pick s) (s_log s))).

Definition script_open (e : Effect) (s : Script) : result nat DisconnectReason * Script :=
  let '(r, l) := next (Err DNoUsableExit) (s_opens s) in
  (r, log e (mkScript (s_local s) (s_reads s) (s_written s) l (s_connects s) (s_binds s) (s_accepts s) (s_pick s) (s_log s))).

Definition script_connect (sid : nat) (s : Script) : option (result (option Endpoint) DisconnectReason) * Script :=
  let '(r, l) := next None (s_connects s) in
  (r, log (Connecting sid) (mkScript (s_local s) (s_reads s) (s_written s) (s_opens s) l (s_binds s) (s_accepts s) (s_pick s) (s_log s))).

Definition script_bind (a : SocketAddr) (s : Script) : option (option SocketAddr) * Script :=
  let '(r, l) := next None (s_binds s) in
  (r, log (ListenedOn a) (mkScript (s_local s) (s_reads s) (s_written s) (s_opens s) (s_connects s) l (s_accepts s) (s_pick s) (s_log s))).

Definition script_accept (s : Script) : option (option SocketAddr) * Script :=
  let '(r, l) := next None (s_accepts s) in
  (r, mkScript (s_local s) (s_reads s) (s_written s) (s_opens s) (s_connects s) (s_binds s) l (s_pick s) (s_log s)).

#[export] Instance script_world : IngressWorld Script := {|
  sock_read := script_read;
  sock_local := s_local;
  sock_write := script_write;
  bus_datagrams := true;
  port_open_stream q := script_open (OpenedStream q);
  session_connect := script_connect;
  port_open_datagram q := script_open (OpenedDatagram q);
  session_send_to sid t b := log (SentTo sid t b);
  session_close sid := log (ClosedSession sid);
  pump_abort sid := log (AbortedPump sid);
  map_first K l s := nth_error l (s_pick s mod length l)
|}.

#[export] Instance script_sockets : LocalSockets Script := {|
  tcp_bind := script_bind;
  tcp_accept := script_accept;
  copy_bidirectional := log Copied;
  udp_bind := script_bind
|}.

(** A script with these bytes to read, all of whose writes succeed. *)
Definition reading (chunks : list (list Z)) (s : Script) : Prop :=
  s_reads s = RBytes <$> chunks /\ s_written s = [].

(** ** Messages read from chunks *)

Section Framed.
Context {A : Type} (decode : list Z -> result (A * list Z) CodecError) (enc : list Z) (v : A).
Hypothesis decode_enc : forall rest, decode (enc ++ rest) = Ok (v, rest).
Hypothesis decode_short : forall k, (k < length enc)%nat -> decode (take k enc) = Err Incomplete.

(** A buffer that agrees with the message is either a proper prefix or has all of it. *)
Lemma framed_cases buf more tail :
  buf ++ more = enc ++ tail ->
  (decode buf = Err Incomplete /\ (length buf < length enc)%nat) \/ exists rest, buf = enc ++ rest /\ decode buf = Ok (v, rest) /\ rest ++ more = tail.
Proof using decode_enc decode_short.
  intros E. destruct (decide (length buf < length enc)%nat) as [Hl|Hl].
  - left. split; [|done]. assert (buf = take (length buf) enc) as ->; [|by apply decode_short].
    rewrite <- (take_app_le enc tail), <- E, take_app_length by lia. done.
  - right. exists (drop (length enc) buf).
    assert (Hb : buf = enc ++ drop (length enc) buf).
    { rewrite <- (take_drop (length enc) buf) at 1. f_equal.
      rewrite <- (take_app_le buf more), E, take_app_length by lia. done. }
    split_and!; [exact Hb|rewrite Hb at 1; apply decode_enc|].
    rewrite Hb, <- app_assoc in E. by apply app_inv_head in E.
Qed.
End Framed.

Lemma greeting_short ms k :
  (length ms <= 255)%nat -> (k < length (encode_greeting ms))%nat -> decode_greeting (take k (encode_greeting ms)) = Err Incomplete.
Proof.
  intros Hm Hk. unfold decode_greeting.
  assert (Hl : length (take k (encode_greeting ms)) = k) by (rewrite length_take; lia). rewrite Hl.
  destruct (Nat.ltb_spec k 2) as [|H2]; [done|]. rewrite !at_take by lia.
  change (at_ (encode_greeting ms) 0) with 5. cbn [Z.eqb Pos.eqb negb].
  change (at_ (encode_greeting ms) 1) with (as_u8 (Z.of_nat (length ms))).
  assert (as_u8 (Z.of_nat (length ms)) = Z.of_nat (length ms)) as -> by (apply Z.mod_small; lia).
  unfold encode_greeting in Hk. rewrite length_app, length_fmap in Hk. simpl in Hk.
  by rewrite Nat2Z.id, (proj2 (Nat.ltb_lt _ _)) by lia.
Qed.

Lemma user_pass_short u p enc k :
  encode_user_pass_request u p = Ok enc -> (k < length enc)%nat -> decode_user_pass_request (take k enc) = Err Incomplete.
Proof.
  unfold encode_user_pass_request, auth_len_ok.
  destruct (Nat.eqb_spec (length u) 0) as [|Hu0]; [done|]. destruct (Nat.ltb_spec 255 (length u)) as [|Hu]; [done|].
  destruct (Nat.eqb_spec (length p) 0) as [|Hp0]; [done|]. destruct (Nat.ltb_spec 255 (length p)) as [|Hp]; [done|].
  cbn [negb andb]. intros [= <-].
  assert (H8 : forall n, (n <= 255)%nat -> as_u8 (Z.of_nat n) = Z.of_nat n) by (intros; apply Z.mod_small; lia).
  rewrite !H8 by done. set (enc := [USER_PASS_VERSION; Z.of_nat (length u)] ++ u ++ [Z.of_nat (length p)] ++ p).
  change (USER_PASS_VERSION :: _) with enc. intros Hk. unfold decode_user_pass_request.
  assert (Hl : length (take k enc) = k) by (rewrite length_take; lia). rewrite Hl.
  destruct (Nat.ltb_spec k 2) as [|H2]; [done|]. rewrite !at_take by lia.
  change (at_ enc 0) with USER_PASS_VERSION. rewrite Z.eqb_refl. cbn [negb].
  change (at_ enc 1) with (Z.of_nat (length u)). rewrite Nat2Z.id, (proj2 (Nat.eqb_neq _ _)) by lia.
  destruct (Nat.ltb_spec k (2 + length u + 1)) as [|H3]; [done|]. rewrite at_take by lia.
  assert (at_ enc (2 + length u) = Z.of_nat (length p)) as ->.
  { pose proof (at_shift0 ([USER_PASS_VERSION; Z.of_nat (length u)] ++ u) ([Z.of_nat (length p)] ++ p)) as S.
    rewrite length_app, <- app_assoc in S. exact S. }
  rewrite Nat2Z.id, (proj2 (Nat.eqb_neq _ _)), (proj2 (Nat.ltb_lt _ _)); [done| |lia].
  subst enc. rewrite !length_app in Hk. simpl in Hk. lia.
Qed.

(** *** The three loops of the handshake *)

Lemma script_read_chunk c chunks s :
  reading (c :: chunks) s -> exists s', sock_read s = (RBytes c, s') /\ reading chunks s' /\ s_log s' = s_log s.
Proof.
  intros [Hr Hw]. cbn [fmap list_fmap] in Hr. eexists. cbn [sock_read script_world]. unfold script_read. rewrite Hr. split_and!; [done|done|done].
Qed.

Lemma script_write_ok b chunks s :
  reading chunks s -> exists s', sock_write b s = (true, s') /\ reading chunks s' /\ s_log s' = s_log s ++ [Wrote b].
Proof.
  intros [Hr Hw]. eexists. cbn [sock_write script_world]. unfold script_write. rewrite Hw. split_and!; [done|done|done].
Qed.

(** What is left to read once a message has been taken. *)
Lemma chunks_remain buf (chunks : list (list Z)) enc tail :
  buf ++ concat chunks = enc ++ tail -> (length buf < length enc)%nat -> exists c cs, chunks = c :: cs.
Proof.
  intros E Hl. destruct chunks as [|c cs]; [|by eexists _, _]. rewrite app_nil_r in E. subst buf.
  rewrite length_app in Hl. lia.
Qed.

Lemma read_greeting_runs auth ms tail chunks buf s fuel :
  (length ms <= 255)%nat -> forallb method_ok ms = true ->
  match auth with Some _ => UserPass | None => NoAuth end ∈ ms ->
  buf ++ concat chunks = encode_greeting ms ++ tail -> (length buf < length (encode_greeting ms))%nat ->
  reading chunks s -> (length chunks <= fuel)%nat ->
  exists rest cs s', read_greeting fuel auth buf s = Some (Some rest, s') /\ rest ++ concat cs = tail /\ reading cs s'
    /\ (length cs <= length chunks)%nat
    /\ s_log s' = s_log s ++ [Wrote [5; match auth with Some _ => 2 | None => 0 end]].
Proof.
  intros Hl Hok Hin. revert buf s fuel. induction chunks as [|c chunks IH]; intros buf s fuel E Hshort Hr Hf.
  { destruct (chunks_remain _ _ _ _ E Hshort) as (? & ? & ?). done. }
  destruct fuel as [|fuel]; [simpl in Hf; lia|]. cbn [read_greeting].
  destruct (script_read_chunk _ _ _ Hr) as (s1 & -> & Hr1 & Hl1). cbn [concat] in E. rewrite app_assoc in E.
  destruct (framed_cases decode_greeting (encode_greeting ms) ms
              (fun rest => greeting_roundtrip ms rest Hl Hok) (fun k => greeting_short ms k Hl) _ _ _ E) as [[D Hs]|(rest & _ & D & Hrest)]; rewrite D.
  - destruct (IH (buf ++ c) s1 fuel E Hs Hr1 ltac:(simpl in Hf; lia)) as (rest & cs & s' & R & T & H1 & H2 & H3).
    exists rest, cs, s'. rewrite R, H3, Hl1. split_and!; [done..|simpl; lia|done].
  - rewrite bool_decide_eq_true_2 by done. cbn [negb].
    destruct (script_write_ok [5; match auth with Some _ => 2 | None => 0 end] _ _ Hr1) as (s2 & W & Hr2 & Hl2).
    exists rest, chunks, s2. destruct auth; cbn iota in *; rewrite W, Hl2, Hl1; split_and!; try done; simpl; lia.
Qed.

Lemma read_user_runs a user pass u p enc tail chunks buf s fuel :
  encode_user_pass_request u p = Ok enc -> from_utf8 u = Some user -> from_utf8 p = Some pass -> users a !! user = Some pass ->
  buf ++ concat chunks = enc ++ tail -> reading chunks s -> (length chunks <= fuel)%nat ->
  exists rest cs s', run_user_pass_subnegotiation fuel a buf s = Some (Some (user, rest), s') /\ rest ++ concat cs = tail
    /\ reading cs s' /\ (length cs <= length chunks)%nat /\ s_log s' = s_log s ++ [Wrote [1; 0]].
Proof.
  intros He Hu Hp Hm. revert buf s fuel. induction chunks as [|c chunks IH]; intros buf s fuel E Hr Hf.
  all: destruct (framed_cases decode_user_pass_request enc (mkUserPass u p)
    (fun rest => user_pass_roundtrip u p enc rest He) (fun k => user_pass_short u p enc k He) _ _ _ E) as [[D Hs]|(rest & _ & D & Hrest)].
  all: try (unfold run_user_pass_subnegotiation; destruct fuel; rewrite D; unfold check_user; cbn [username password]; rewrite Hu, Hp;
    unfold auth_verify; rewrite Hm, bool_decide_eq_true_2 by done; cbn [negb];
    destruct (script_write_ok [1; 0] _ _ Hr) as (s2 & W & Hr2 & Hl2);
    eexists rest, _, s2; change (encode_user_pass_reply USER_PASS_STATUS_SUCCESS) with [1; 0]; rewrite W; done).
  - destruct (chunks_remain _ _ _ _ E Hs) as (? & ? & ?). done.
  - destruct fuel as [|fuel]; [simpl in Hf; lia|]. cbn [run_user_pass_subnegotiation]. rewrite D.
    destruct (script_read_chunk _ _ _ Hr) as (s1 & -> & Hr1 & Hl1). cbn [concat] in E. rewrite app_assoc in E.
    destruct (IH (buf ++ c) s1 fuel E Hr1 ltac:(simpl in Hf; lia)) as (rest & cs & s' & R & T & H1 & H2 & H3).
    exists rest, cs, s'. rewrite R, H3, Hl1. split_and!; [done..|simpl; lia|done].
Qed.

Lemma read_request_runs c e user tail chunks buf s fuel :
  endpoint_ok e -> is_utf8 (host e) = true -> buf ++ concat chunks = encode_request c e ++ tail -> reading chunks s -> (length chunks <= fuel)%nat ->
  exists cs s', read_request fuel user buf s = Some (Some (mkHandshake (mkRequest c (canon e)) user), s')
    /\ reading cs s' /\ s_log s' = s_log s.
Proof.
  intros Ho Hu8. revert buf s fuel. induction chunks as [|ch chunks IH]; intros buf s fuel E Hr Hf.
  all: destruct (framed_cases decode_request (encode_request c e) (mkRequest c (canon e))
    (fun rest => request_roundtrip c e rest Ho Hu8) (fun k => request_short c e k Ho) _ _ _ E) as [[D Hs]|(rest & _ & D & Hrest)].
  all: try (unfold read_request; destruct fuel; rewrite D; by eexists _, s).
  - destruct (chunks_remain _ _ _ _ E Hs) as (? & ? & ?). done.
  - destruct fuel as [|fuel]; [simpl in Hf; lia|]. cbn [read_request]. rewrite D.
    destruct (script_read_chunk _ _ _ Hr) as (s1 & -> & Hr1 & Hl1). cbn [concat] in E. rewrite app_assoc in E.
    destruct (IH (buf ++ ch) s1 fuel E Hr1 ltac:(simpl in Hf; lia)) as (cs & s' & R & H1 & H2).
    exists cs, s'. by rewrite R, H2, Hl1.
Qed.

(** What a client sends, and what it is answered. *)
Definition client_user (auth : option AuthConfig) (cred : option (string * list Z)) : Prop :=
  match auth, cred with
  | None, None => True
  | Some a, Some (user, enc) =>
      exists u p pass, encode_user_pass_request u p = Ok enc /\ from_utf8 u = Some user /\ from_utf8 p = Some pass
        /\ users a !! user = Some pass
  | _, _ => False
  end.

Definition handshake_replies (auth : option AuthConfig) : list Effect :=
  match auth with None => [Wrote [5; 0]] | Some _ => [Wrote [5; 2]; Wrote [1; 0]] end.

(** whatever pieces a client's greeting, credentials and request arrive in, and
    whatever follows them, the handshake ends in that request with that user, after as many
    reads as there are pieces at most; the client is answered the method and, with
    authentication, the success, and nothing else. *)
Theorem handshake_admits_a_valid_client (auth : option AuthConfig) (cred : option (string * list Z)) (ms : list Method)
    (c : Command) (e : Endpoint) (tail : list Z) (chunks : list (list Z)) (s : Script) (fuel : nat) :
  (length ms <= 255)%nat -> forallb method_ok ms = true ->
  match auth with Some _ => UserPass | None => NoAuth end ∈ ms ->
  client_user auth cred -> endpoint_ok e -> is_utf8 (host e) = true ->
  concat chunks = encode_greeting ms ++ default [] (snd <$> cred) ++ encode_request c e ++ tail ->
  reading chunks s -> (length chunks <= fuel)%nat ->
  exists cs s', read_handshake fuel auth s = Some (Some (mkHandshake (mkRequest c (canon e)) (fst <$> cred)), s')
    /\ reading cs s' /\ s_log s' = s_log s ++ handshake_replies auth.
Proof.
  intros Hl Hok Hin Hc He Hu E Hr Hf. unfold read_handshake.
  assert (Hlen : (length (@nil Z) < length (encode_greeting ms))%nat)
    by (unfold encode_greeting; rewrite length_app; simpl; lia).
  destruct (read_greeting_runs auth ms _ chunks [] s fuel Hl Hok Hin E Hlen Hr Hf) as (rest & cs & s1 & -> & E1 & Hr1 & Hn & L1).
  destruct auth as [a|], cred as [[user enc]|]; try done; cbn [fmap option_fmap option_map default fst snd] in *.
  - destruct Hc as (u & p & pass & Henc & Hu1 & Hp1 & Hm).
    destruct (read_user_runs a user pass u p enc _ cs rest s1 fuel Henc Hu1 Hp1 Hm E1 Hr1 ltac:(lia))
      as (rest2 & cs2 & s2 & -> & E2 & Hr2 & Hn2 & L2).
    destruct (read_request_runs c e (Some user) tail cs2 rest2 s2 fuel He Hu E2 Hr2 ltac:(lia)) as (cs3 & s3 & -> & Hr3 & L3).
    exists cs3, s3. rewrite L3, L2, L1, <- app_assoc. done.
  - rewrite app_nil_l in E1.
    destruct (read_request_runs c e None tail cs rest s1 fuel He Hu E1 Hr1 ltac:(lia)) as (cs3 & s3 & -> & Hr3 & L3).
    exists cs3, s3. by rewrite L3, L1.
Qed.

(** *** Every handshake ends *)

(** A client that sends bytes, at least one at a time. *)
Definition client_ok (s : Script) : Prop :=
  Forall (fun r => match r with RBytes b => b <> [] /\ bytes_ok b | _ => True end) (s_reads s).

Lemma at_byte buf i : bytes_ok buf -> 0 <= at_ buf i < 256.
Proof.
  intros H. unfold at_. destruct (nth_in_or_default i buf 0) as [Hin| ->]; [|lia].
  apply list_elem_of_In in Hin. exact (proj1 (Forall_forall _ _) H _ Hin).
Qed.

Ltac bound_byte buf i := let H := fresh "Hb" in pose proof (at_byte buf i ltac:(assumption)) as H.

Lemma greeting_bound buf : bytes_ok buf -> decode_greeting buf = Err Incomplete -> (length buf < 257)%nat.
Proof.
  intros H. unfold decode_greeting. bound_byte buf 1%nat.
  destruct (Nat.ltb_spec (length buf) 2); [intros _; lia|]. destruct (negb _); [done|].
  destruct (Nat.ltb_spec (length buf) (2 + Z.to_nat (at_ buf 1))); [intros _; lia|done].
Qed.

Lemma user_pass_bound buf : bytes_ok buf -> decode_user_pass_request buf = Err Incomplete -> (length buf < 513)%nat.
Proof.
  intros H. unfold decode_user_pass_request. bound_byte buf 1%nat. bound_byte buf (2 + Z.to_nat (at_ buf 1))%nat.
  destruct (Nat.ltb_spec (length buf) 2); [intros _; lia|]. destruct (negb _); [done|]. destruct (_ =? 0)%nat; [done|].
  destruct (Nat.ltb_spec (length buf) (2 + Z.to_nat (at_ buf 1) + 1)); [intros _; lia|]. destruct (_ =? 0)%nat; [done|].
  match goal with |- context [(length buf <? ?n)%nat] => destruct (Nat.ltb_spec (length buf) n); [intros _; lia|done] end.
Qed.

Lemma request_bound buf : bytes_ok buf -> decode_request buf = Err Incomplete -> (length buf < 262)%nat.
Proof.
  intros H. unfold decode_request. destruct (Nat.ltb_spec (length buf) 7); [intros _; lia|]. destruct (negb _); [done|].
  destruct (command_of _) as [c|er] eqn:Ec; cbn; [|intros [= ->]; unfold command_of in Ec; by repeat case_match].
  destruct (negb _); [done|]. destruct (decode_endpoint_at buf 3) as [[e n]|er] eqn:E; cbn; [done|]. intros [= ->]. revert E.
  unfold decode_endpoint_at. bound_byte buf 4%nat.
  destruct (Nat.leb_spec (length buf) 3); [lia|]. destruct (_ =? 1).
  { destruct (Nat.ltb_spec (length buf) (3 + 1 + 4 + 2)); [intros _; lia|]. cbn. by destruct (endpoint_new _ _). }
  destruct (_ =? 3).
  { destruct (Nat.ltb_spec (length buf) (3 + 2)); [intros _; lia|].
    destruct (Nat.ltb_spec (length buf) (3 + 2 + Z.to_nat (at_ buf (3 + 1)) + 2)) as [Hlt|].
    { intros _. change (3 + 1)%nat with 4%nat in Hlt. lia. }
    destruct (from_utf8 _); cbn; [|done]. by destruct (endpoint_new _ _). }
  destruct (_ =? 4); [|done].
  destruct (Nat.ltb_spec (length buf) (3 + 1 + 16 + 2)); [intros _; lia|]. cbn. by destruct (endpoint_new _ _).
Qed.

(** The writes a handshake may do. *)
Definition only_writes (l : list Effect) : Prop := Forall (fun e => match e with Wrote _ => True | _ => False end) l.

Lemma client_write b s : client_ok s -> 
  client_ok (sock_write b s).2 /\ s_log (sock_write b s).2 = s_log s ++ [Wrote b] /\ s_reads s = s_reads (sock_write b s).2.
Proof. cbn [sock_write script_world]. unfold script_write, client_ok. destruct (next _ _). done. Qed.

Lemma greeting_rest buf ms rest : bytes_ok buf -> decode_greeting buf = Ok (ms, rest) -> bytes_ok rest /\ exists pre, buf = pre ++ rest.
Proof.
  intros H. unfold decode_greeting. destruct (_ <? _)%nat; [done|]. destruct (negb _); [done|]. destruct (_ <? _)%nat; [done|].
  intros [= _ <-]. split; [by apply Forall_drop|]. eexists. symmetry. apply take_drop.
Qed.

Lemma user_pass_rest buf r rest : bytes_ok buf -> decode_user_pass_request buf = Ok (r, rest) -> bytes_ok rest /\ exists pre, buf = pre ++ rest.
Proof.
  intros H. unfold decode_user_pass_request. destruct (_ <? _)%nat; [done|]. destruct (negb _); [done|]. destruct (_ =? 0)%nat; [done|].
  destruct (_ <? _)%nat; [done|]. destruct (_ =? 0)%nat; [done|]. destruct (_ <? _)%nat; [done|].
  intros [= _ <-]. split; [by apply Forall_drop|]. eexists. symmetry. apply take_drop.
Qed.

(** A loop's end: only writes in the meantime, and, if there is a result, a condition on
    it and the bytes read for it. *)
Definition ends_in {A} (s : Script) (o : option (option A * Script)) (P : list Z -> A -> Prop) : Prop :=
  exists r s' w, o = Some (r, s') /\ s_log s' = s_log s ++ w /\ only_writes w /\ client_ok s'
    /\ (forall a, r = Some a -> exists cs, s_reads s = (RBytes <$> cs) ++ s_reads s' /\ P (concat cs) a).

Lemma ends_stop {A} (P : list Z -> A -> Prop) s s' w :
  s_log s' = s_log s ++ w -> only_writes w -> client_ok s' -> ends_in s (Some (None, s')) P.
Proof. intros. exists None, s', w. done. Qed.

Lemma ends_here {A} (P : list Z -> A -> Prop) s : client_ok s -> ends_in s (Some (None, s)) P.
Proof. intros Hc. apply (ends_stop P s s []); [by rewrite app_nil_r|by apply Forall_nil_2|done]. Qed.

Lemma client_end s s' r : client_ok s -> sock_read s = (r, s') ->
  client_ok s' /\ s_log s' = s_log s /\ match r with RBytes c => s_reads s = RBytes c :: s_reads s' /\ c <> [] /\ bytes_ok c | _ => True end.
Proof.
  unfold client_ok. cbn [sock_read script_world]. unfold script_read. destruct (s_reads s) as [|x l] eqn:E; cbn [next].
  - intros _ [= <- <-]. split_and!; [by constructor|done|done].
  - intros H [= <- <-]. apply Forall_cons in H as [Hx H]. split_and!; [done|done|]. destruct x; [|done..]. by destruct Hx.
Qed.

(** One more read of a loop, whose condition is on the whole buffer. *)
Lemma ends_read {A} (P : list Z -> A -> Prop) (N : nat) s buf fuel (k : list Z -> Script -> option (option A * Script)) :
  client_ok s -> bytes_ok buf -> (length buf < N)%nat -> (N <= S fuel + length buf)%nat ->
  (forall buf s1, client_ok s1 -> bytes_ok buf -> (N <= fuel + length buf)%nat -> ends_in s1 (k buf s1) (fun sent => P (buf ++ sent))) ->
  ends_in s (match sock_read s with
             | (REnd, s') | (RLate, s') => Some (None, s')
             | (RBytes c, s') => k (buf ++ c) s'
             end) (fun sent => P (buf ++ sent)).
Proof.
  intros Hc Hb Hl HN K. destruct (sock_read s) as [r s1] eqn:Er.
  destruct (client_end s s1 r Hc Er) as (Hc1 & L & Hr). destruct r as [c| |].
  - destruct Hr as (R & Hne & Hbc).
    assert (HN1 : (N <= fuel + length (buf ++ c))%nat) by (rewrite length_app; destruct c; [done|simpl; lia]).
    destruct (K (buf ++ c) s1 Hc1 ltac:(by apply Forall_app) HN1) as (x & s' & w & -> & L' & W & Hc' & HP).
    exists x, s', w. rewrite <- L. split_and!; [done..|]. intros a Ha. destruct (HP a Ha) as (cs & R' & Pa).
    exists (c :: cs). split; [by rewrite R, R'|]. cbn [concat]. by rewrite app_assoc.
  - apply (ends_stop _ s s1 []); [by rewrite app_nil_r|by apply Forall_nil_2|done].
  - apply (ends_stop _ s s1 []); [by rewrite app_nil_r|by apply Forall_nil_2|done].
Qed.

Lemma ends_write {A} (P : list Z -> A -> Prop) s b (f : bool -> option A) :
  client_ok s -> (forall x, f true = Some x -> P [] x) -> f false = None ->
  ends_in s (let '(ok, s') := sock_write b s in Some (f ok, s')) P.
Proof.
  intros Hc Hp Hf. pose proof (client_write b s Hc) as (Hc1 & L & R). destruct (sock_write b s) as [ok s1]. cbn [snd] in *.
  exists (f ok), s1, [Wrote b]. split_and!; [done|done|by repeat constructor|done|].
  intros x Hx. destruct ok; [exists []; split; [done|by apply Hp]|]. by rewrite Hf in Hx.
Qed.

Lemma ends_refused {A} (P : list Z -> A -> Prop) s b : client_ok s -> ends_in s (Some (None, (sock_write b s).2)) P.
Proof.
  intros Hc. pose proof (client_write b s Hc) as (Hc1 & L & R). apply (ends_stop _ s _ [Wrote b]); [done|by repeat constructor|done].
Qed.

Definition greeting_done (buf rest : list Z) : Prop := bytes_ok rest /\ exists pre, buf = pre ++ rest.

(** The user's name and password are in the bytes read, and are configured. *)
Definition user_done (a : AuthConfig) (buf : list Z) (x : string * list Z) : Prop :=
  (bytes_ok x.2 /\ exists pre, buf = pre ++ x.2) /\
  exists req pass, decode_user_pass_request buf = Ok (req, x.2) /\ from_utf8 (username req) = Some x.1
    /\ from_utf8 (password req) = Some pass /\ users a !! x.1 = Some pass.

Definition request_done (user : option string) (buf : list Z) (h : Handshake) : Prop :=
  hs_user h = user /\ exists rest, decode_request buf = Ok (hs_request h, rest).

Lemma greeting_ends auth s buf fuel :
  client_ok s -> bytes_ok buf -> (length buf < 257)%nat -> (257 <= fuel + length buf)%nat ->
  ends_in s (read_greeting fuel auth buf s) (fun sent => greeting_done (buf ++ sent)).
Proof.
  revert s buf. induction fuel as [|fuel IH]; intros s buf Hc Hb Hl HN; [lia|]. cbn [read_greeting].
  pose (k := fun buf (w : Script) => match decode_greeting buf with
     | Ok (methods, rest) =>
         let required := match auth with Some _ => UserPass | None => NoAuth end in
         if negb (bool_decide (required ∈ methods)) then Some (None, (sock_write [0x05; 0xff] w).2)
         else let '(ok, w) := sock_write [0x05; match required with UserPass => 0x02 | _ => 0x00 end] w in
              Some (if ok then Some rest else None, w)
     | Err Incomplete => read_greeting fuel auth buf w
     | Err _ => Some (None, w)
     end).
  apply (ends_read greeting_done 257 s buf fuel k); [done..|]. subst k. clear - IH.
  intros buf s Hc Hb HN. cbv beta zeta. destruct (decode_greeting buf) as [[ms rest]|er] eqn:D.
  - match goal with |- context [negb ?b] => destruct (negb b) end; [by apply ends_refused|].
    apply (ends_write _ s _ (fun ok : bool => if ok then Some rest else None)); [done| |done].
    intros x [= <-]. rewrite app_nil_r. by apply (greeting_rest buf ms).
  - destruct er; try (by apply ends_here). apply IH; [done|done|by apply greeting_bound|done].
Qed.

Lemma user_ends a s buf fuel :
  client_ok s -> bytes_ok buf -> (513 <= fuel + length buf)%nat ->
  ends_in s (run_user_pass_subnegotiation fuel a buf s) (fun sent => user_done a (buf ++ sent)).
Proof.
  revert s buf. induction fuel as [|fuel IH]; intros s buf Hc Hb HN.
  all: cbn [run_user_pass_subnegotiation]; destruct (decode_user_pass_request buf) as [[req rest]|er] eqn:D.
  all: try (unfold check_user, auth_failure;
    destruct (from_utf8 (username req)) as [user|] eqn:Eu; [|by apply ends_refused];
    destruct (from_utf8 (password req)) as [pass|] eqn:Ep; [|by apply ends_refused];
    destruct (auth_verify a user pass) eqn:V; cbn [negb]; [|by apply ends_refused];
    pose proof (ends_write (fun sent => user_done a (buf ++ sent)) s
      (encode_user_pass_reply USER_PASS_STATUS_SUCCESS) (fun ok : bool => if ok then Some (user, rest) else None) Hc) as Ew;
    destruct (sock_write _ s); apply Ew; [|done]; intros x [= <-]; rewrite app_nil_r;
    split; [by apply (user_pass_rest buf req)|];
    unfold auth_verify in V; destruct (users a !! user) as [st|] eqn:Em; [|done]; apply bool_decide_eq_true in V as ->;
    by exists req, pass).
  all: assert (Hd : er = Incomplete \/ er <> Incomplete) by (destruct er; (by left) || by right).
  all: destruct Hd as [->|Hd]; [|destruct er; (done || by apply ends_refused)].
  - apply user_pass_bound in D; [|done]. lia.
  - apply user_pass_bound in D; [|done].
    apply (ends_read _ 513 s buf fuel (run_user_pass_subnegotiation fuel a)); [done..|]. exact (fun b s1 H1 H2 H3 => IH s1 b H1 H2 H3).
Qed.

Lemma request_ends user s buf fuel :
  client_ok s -> bytes_ok buf -> (262 <= fuel + length buf)%nat ->
  ends_in s (read_request fuel user buf s) (fun sent => request_done user (buf ++ sent)).
Proof.
  revert s buf. induction fuel as [|fuel IH]; intros s buf Hc Hb HN.
  all: cbn [read_request]; destruct (decode_request buf) as [[req rest]|er] eqn:D.
  all: try (eexists _, s, []; split_and!; [done|by rewrite app_nil_r|by apply Forall_nil_2|done|];
    intros h [= <-]; exists []; rewrite app_nil_r; split; [done|]; split; [done|]; by exists rest).
  all: assert (Hd : er = Incomplete \/ er <> Incomplete) by (destruct er; (by left) || by right).
  all: destruct Hd as [->|Hd]; [|destruct er; (done || by apply ends_here)].
  - apply request_bound in D; [|done]. lia.
  - apply request_bound in D; [|done].
    apply (ends_read _ 262 s buf fuel (read_request fuel user)); [done..|]. exact (fun b s1 H1 H2 H3 => IH s1 b H1 H2 H3).
Qed.

(** What a request rests on, in the bytes [sent] of its client: a request and, where
    users are configured, the name and password of one of them before it. *)
Definition admitted (auth : option AuthConfig) (sent : list Z) (h : Handshake) : Prop :=
  (exists pre body rest, sent = pre ++ body /\ decode_request body = Ok (hs_request h, rest)) /\
  match auth with
  | None => hs_user h = None
  | Some a =>
      exists pre body post req rest user pass, sent = pre ++ body ++ post /\ decode_user_pass_request body = Ok (req, rest)
        /\ from_utf8 (username req) = Some user /\ from_utf8 (password req) = Some pass
        /\ users a !! user = Some pass /\ hs_user h = Some user
  end.

(** C35: whatever a client sends, however few bytes at a time, the handshake ends within
    513 reads for each message; nothing but replies to the client comes of it; and a
    request it gives was sent and, where users are configured, after the name and the
    password of one of them. *)
Theorem handshake_ends_and_verifies (auth : option AuthConfig) (s : Script) (fuel : nat) :
  client_ok s -> (513 <= fuel)%nat ->
  exists r s' w, read_handshake fuel auth s = Some (r, s') /\ s_log s' = s_log s ++ w /\ only_writes w
    /\ forall h, r = Some h -> exists cs, s_reads s = (RBytes <$> cs) ++ s_reads s' /\ admitted auth (concat cs) h.
Proof.
  intros Hc Hf. unfold read_handshake.
  destruct (greeting_ends auth s [] fuel Hc ltac:(constructor) ltac:(simpl; lia) ltac:(simpl; lia)) as (r & s1 & w & -> & L1 & W1 & Hc1 & HP).
  destruct r as [rest|]; [|by exists None, s1, w]. destruct (HP rest eq_refl) as (cs & R1 & Hb & pre & E1).
  rewrite app_nil_l in E1. destruct auth as [a|].
  - destruct (user_ends a s1 rest fuel Hc1 Hb ltac:(lia)) as (r & s2 & w2 & -> & L2 & W2 & Hc2 & HP2).
    destruct r as [[user rest2]|]; [|exists None, s2, (w ++ w2); rewrite L2, L1, app_assoc; split_and!; [done|done|by apply Forall_app_2|done]].
    destruct (HP2 _ eq_refl) as (cs2 & R2 & (Hb2 & pre2 & E2) & req & pass & D & Hu & Hp & Hm).
    destruct (request_ends (Some user) s2 rest2 fuel Hc2 Hb2 ltac:(lia)) as (r & s3 & w3 & -> & L3 & W3 & _ & HP3).
    exists r, s3, (w ++ w2 ++ w3). rewrite L3, L2, L1, <- !app_assoc. split_and!; [done|done|by repeat apply Forall_app_2|].
    intros h ->. destruct (HP3 h eq_refl) as (cs3 & R3 & Hh & rest3 & D3). cbn [fst snd] in *.
    exists (cs ++ cs2 ++ cs3). rewrite R1, R2, R3, !fmap_app, <- !app_assoc. split; [done|]. split.
    + exists (pre ++ pre2), (rest2 ++ concat cs3), rest3. split; [|done].
      rewrite !concat_app, E1, <- !app_assoc. f_equal. by rewrite (app_assoc rest), E2, <- app_assoc.
    + exists pre, (rest ++ concat cs2), (concat cs3), req, rest2, user, pass. split_and!; try done.
      by rewrite !concat_app, E1, <- !app_assoc.
  - destruct (request_ends None s1 rest fuel Hc1 Hb ltac:(lia)) as (r & s3 & w3 & -> & L3 & W3 & _ & HP3).
    exists r, s3, (w ++ w3). rewrite L3, L1, app_assoc. split_and!; [done|done|by apply Forall_app_2|].
    intros h ->. destruct (HP3 h eq_refl) as (cs3 & R3 & Hh & rest3 & D3).
    exists (cs ++ cs3). rewrite R1, R3, fmap_app, <- app_assoc. split; [done|]. split; [|done].
    exists pre, (rest ++ concat cs3), rest3. split; [|done]. by rewrite concat_app, E1, <- app_assoc.
Qed.

(** ** Rule actions *)

Section ActionFacts.
Context `{!RuleLibs}.

(** The steps of a composition, in order. *)
Fixpoint leaves (a : Action) : list Action :=
  match a with Compose l => flat_map leaves l | a => [a] end.

Definition grants (a : Action) : bool := match a with Allow | SetRouteGroup _ | SetScheduleHint _ => true | _ => false end.
Definition projectable (a : Action) : Prop := grants a = true \/ a = Deny.

Definition project_leaf (r : BusSessionRequest) (a : Action) : BusSessionRequest :=
  match a with SetRouteGroup g => with_route_group g r | SetScheduleHint h => with_schedule_hint (map_schedule_hint h) r | _ => r end.

Fixpoint apply_all (l : list Action) (r : BusSessionRequest) : ApplyOutcome :=
  match l with [] => OAllow r | a :: l => match apply_one a r with OAllow r => apply_all l r | ODeny => ODeny end end.

Lemma apply_compose l r : apply_one (Compose l) r = apply_all l r.
Proof. reflexivity. Qed.

Definition apply_leaves (l : list Action) (r : BusSessionRequest) : ApplyOutcome :=
  if forallb grants l then OAllow (fold_left project_leaf l r) else ODeny.

Lemma apply_leaves_app l l' r :
  apply_leaves (l ++ l') r = match apply_leaves l r with OAllow r => apply_leaves l' r | ODeny => ODeny end.
Proof.
  unfold apply_leaves. rewrite forallb_app, fold_left_app. by destruct (forallb grants l), (forallb grants l').
Qed.

(** An action does what its steps do, one after the other. *)
Lemma apply_one_leaves : forall a r, apply_one a r = apply_leaves (leaves a) r.
Proof.
  fix IH 1. intros [| | | | | |l|] r; try reflexivity. rewrite apply_compose. cbn [leaves]. revert r.
  induction l as [|a l IHl]; intros r; [done|]. cbn [apply_all flat_map]. rewrite apply_leaves_app, IH.
  destruct (apply_leaves (leaves a) r); [apply IHl|done].
Qed.

Fixpoint validate_all (l : list Action) : result unit string :=
  match l with [] => Ok tt | a :: l => match validate_projectable_action a with Ok _ => validate_all l | Err e => Err e end end.

Lemma validate_compose l : validate_projectable_action (Compose l) = validate_all l.
Proof. reflexivity. Qed.

Lemma validate_leaves : forall a, validate_projectable_action a = Ok tt <-> Forall projectable (leaves a).
Proof.
  fix IH 1. intros [| | | | | |l|]; cbn [leaves].
  1-6, 8: unfold projectable; cbn; rewrite Forall_singleton; split; [intros; (by left) || (by right) || done|intros [?|?]; done].
  rewrite validate_compose. induction l as [|a l IHl]; [by split|]. cbn [validate_all flat_map].
  rewrite Forall_app, <- IH, <- IHl. destruct (validate_projectable_action a) as [[]|]; [|by split; [|intros [? _]]].
  split; [done|by intros [_ ?]].
Qed.

(** a policy that was accepted at start-up loses none of its actions when it decides:
    a request is denied exactly if the chosen action has a deny among its steps, and
    otherwise goes out with the route groups and hints of the steps in order. *)
Theorem validated_policy_is_carried_out (chain : RuleChain) (ctx : RuleCtx) (reg : RuleSetRegistry) (r : BusSessionRequest) :
  validate_rule_policy_actions chain = Ok tt ->
  let d := evaluate_with_trace chain ctx reg in
  let steps := leaves (decision_action d) in
  apply_decision d r = (if bool_decide (Exists (fun a => match a with Deny => true | _ => false end = true) steps)
                        then ODeny else OAllow (fold_left project_leaf steps r)).
Proof.
  unfold validate_rule_policy_actions, apply_decision. intros V.
  destruct (validate_rule_actions (rules chain)) as [[]|] eqn:Vr; [|done].
  cbv zeta. rewrite apply_one_leaves. set (d := evaluate_with_trace chain ctx reg).
  assert (Hp : Forall projectable (leaves (decision_action d))).
  { apply validate_leaves. subst d. unfold evaluate_with_trace. generalize 0%nat. clear - V Vr. revert Vr.
    induction (rules chain) as [|ru rs IH]; intros Vr i; cbn [eval_rules]; [done|]. cbn [validate_rule_actions] in Vr.
    destruct (validate_projectable_action (rule_action ru)) as [[]|] eqn:E; [|done].
    destruct (eval_match _ _ _); [done|by apply IH]. }
  clear - Hp. unfold apply_leaves. generalize (leaves (decision_action d)) Hp. clear. intros l Hp.
  assert (forallb grants l = negb (bool_decide (Exists (fun a => match a with Deny => true | _ => false end = true) l))) as ->.
  { induction Hp as [|a l [Ha| ->] _ IH]; [done| |].
    - cbn [forallb]. rewrite Ha, IH. cbn [andb]. f_equal. apply bool_decide_ext. rewrite Exists_cons.
      split; [by right|intros [?|?]; [by destruct a|done]].
    - cbn. rewrite bool_decide_eq_true_2; [done|]. by left. }
  by destruct (bool_decide _).
Qed.
End ActionFacts.

(** ** Requests a decision may make of a base request *)

(** All but the route group, the hint and the sink. *)
Definition same_session (a b : BusSessionRequest) : Prop :=
  rq_target b = rq_target a /\ rq_flow_semantics b = rq_flow_semantics a /\ rq_traffic_class b = rq_traffic_class a
  /\ rq_deadline_ms b = rq_deadline_ms a /\ rq_policy_ref b = rq_policy_ref a /\ rq_return_semantics b = rq_return_semantics a
  /\ rq_source_key b = rq_source_key a /\ rq_target_key b = rq_target_key a.

Lemma same_session_refl r : same_session r r.
Proof. done. Qed.

Lemma apply_verdict_same v ev base q : apply_verdict v ev base = PAllow q -> exists sink, v = Accept sink /\ same_session base q /\ rq_target_sink q = Some sink.
Proof.
  destruct v; try done. cbn. unfold project. destruct (policy_route_group (meta ev)), (tm_schedule_hint (transport (meta ev)));
    [destruct (hint_of_label _ _)| |destruct (hint_of_label _ _)|]; intros [= <-]; by eexists.
Qed.

Section CommandFacts.
Context `{!RuleLibs}.

Lemma fold_leaves_same (l : list Action) r : same_session r (fold_left project_leaf l r) /\ rq_target_sink (fold_left project_leaf l r) = rq_target_sink r.
Proof.
  assert (Hall : forall a b, same_session a b -> same_session a (fold_left project_leaf l b)
                /\ rq_target_sink (fold_left project_leaf l b) = rq_target_sink b); [|by apply Hall].
  induction l as [|x l IH]; intros a b Hab; [done|]. cbn [fold_left]. destruct (IH a (project_leaf b x)) as [H1 H2].
  - destruct x; exact Hab.
  - split; [done|]. rewrite H2. by destruct x.
Qed.

Lemma apply_decision_same (d : RuleDecision) base q :
  apply_decision d base = OAllow q -> same_session base q /\ rq_target_sink q = rq_target_sink base.
Proof.
  unfold apply_decision. rewrite apply_one_leaves. unfold apply_leaves. destruct (forallb _ _); [|done]. intros [= <-]. apply fold_leaves_same.
Qed.

(** What has to hold for a CONNECT to get as far as the bus. *)
Definition connect_granted (peer : SocketAddr) (t : Endpoint) (policy : option RulePolicy) (pipeline : option PipelineFn)
    (user : option string) (q : BusSessionRequest) : Prop :=
  match pipeline, policy with
  | Some run, _ => exists r sink, run (build_connect_event peer t user) = Some (Ok r) /\ run_verdict r = Accept sink /\ rq_target_sink q = Some sink
  | None, Some p =>
      forallb grants (leaves (decision_action (evaluate_with_trace (policy_chain p) (build_connect_ctx peer t user) (policy_registry p)))) = true
      /\ rq_target_sink q = None
  | None, None => q = connect_base peer t
  end.

Lemma admit_connect_granted peer t policy pipeline user q tr :
  admit_connect peer t policy pipeline user = Some (AdmRequest q tr) ->
  connect_granted peer t policy pipeline user q /\ same_session (connect_base peer t) q.
Proof.
  unfold admit_connect, connect_granted. destruct pipeline as [run|].
  - destruct (run _) as [[r|]|]; [|done..]. destruct (apply_verdict _ _ _) as [q'| |] eqn:E; [|done..]. intros [= <- _].
    apply apply_verdict_same in E as (sink & Hv & Hs & Hk). split; [|done]. by exists r, sink.
  - destruct policy as [p|]; [|intros [= <- _]; done].
    destruct (apply_decision _ _) as [q'|] eqn:E; [|done]. intros [= <- _]. pose proof (apply_decision_same _ _ _ E) as [H1 H2].
    split; [|done]. split; [|done]. unfold apply_decision in E. rewrite apply_one_leaves in E. unfold apply_leaves in E. by destruct (forallb _ _).
Qed.

Lemma admit_reply_refuses peer t policy pipeline user r :
  admit_connect peer t policy pipeline user = Some (AdmReply r) -> r = GeneralFailure \/ r = ConnectionNotAllowed.
Proof.
  unfold admit_connect. destruct pipeline as [run|].
  - destruct (run _) as [[x|]|]; [|intros [= <-]; by left|done]. destruct (apply_verdict _ _ _); [done|intros [= <-]; by right|done].
  - destruct policy as [p|]; [|done]. destruct (apply_decision _ _); [done|]. intros [= <-]. by right.
Qed.

Lemma script_write_log b (s : Script) : exists ok s', sock_write b s = (ok, s') /\ s_log s' = s_log s ++ [Wrote b].
Proof. cbn [sock_write script_world]. unfold script_write. destruct (next _ _) as [ok l]. by eexists _, _. Qed.

Lemma write_reply_log r (s : Script) : s_log (write_reply r s) = s_log s ++ [Wrote (encode_reply r)].
Proof. unfold write_reply. destruct (script_write_log (encode_reply r) s) as (ok & s' & -> & Hl). done. Qed.

Lemma reply_for_disconnect_fails r : reply_code (reply_for_disconnect r) <> 0.
Proof. by destruct r. Qed.

(** What the bus answers to the next open and the next connect ([None]: no answer in
    time), and whether the client's socket takes the next write. *)
Definition open_answer (s : Script) : result nat DisconnectReason := (next (Err DNoUsableExit) (s_opens s)).1.
Definition connect_answer (s : Script) : option (result (option Endpoint) DisconnectReason) := (next None (s_connects s)).1.
Definition write_answer (s : Script) : bool := (next true (s_written s)).1.

(** All that an admitted request does, in order, and the session that is relayed. *)
Definition connect_effects (q : BusSessionRequest) (s : Script) : list Effect * option nat :=
  match open_answer s with
  | Err reason => ([OpenedStream q; Wrote (encode_reply (reply_for_disconnect reason))], None)
  | Ok sid =>
      match connect_answer s with
      | Some (Ok local) =>
          ([OpenedStream q; Connecting sid;
            Wrote (match local with Some e => encode_reply_with_endpoint Succeeded e | None => encode_reply Succeeded end)],
           if write_answer s then Some sid else None)
      | Some (Err reason) => ([OpenedStream q; Connecting sid; Wrote (encode_reply (reply_for_disconnect reason))], None)
      | None => ([OpenedStream q; Connecting sid; Wrote (encode_reply GeneralFailure)], None)
      end
  end.

Lemma open_connect_log q (s : Script) :
  exists s', open_connect q s = ((connect_effects q s).2, s') /\ s_log s' = s_log s ++ (connect_effects q s).1.
Proof.
  unfold open_connect, connect_effects, open_answer, connect_answer, write_answer. cbn [port_open_stream script_world].
  unfold script_open. destruct (next _ (s_opens s)) as [[sid|reason] l]; cbn [fst].
  2: { eexists. split; [done|]. rewrite write_reply_log. cbn [s_log log]. by rewrite <- app_assoc. }
  cbn [session_connect script_world]. unfold script_connect. cbn [s_connects log].
  destruct (next _ (s_connects s)) as [[[local|reason]|] l']; cbn [fst snd].
  - cbn [sock_write script_world]. unfold script_write. cbn [s_written log]. destruct (next true (s_written s)) as [ok l2].
    eexists. split; [done|]. cbn [s_log log]. by rewrite <- !app_assoc.
  - eexists. split; [done|]. rewrite write_reply_log. cbn [s_log log]. by rewrite <- !app_assoc.
  - eexists. split; [done|]. rewrite write_reply_log. cbn [s_log log]. by rewrite <- !app_assoc.
Qed.

(** The reply says success exactly if the session was opened and connected. *)
Lemma reply_tells_the_outcome q s b :
  Wrote b ∈ (connect_effects q s).1 ->
  (at_ b 1 = 0 <-> exists sid local, open_answer s = Ok sid /\ connect_answer s = Some (Ok local)).
Proof.
  assert (Hf : forall r, reply_code r <> 0 -> forall P : Prop, (P -> False) -> (at_ (encode_reply r) 1 = 0 <-> P))
    by (intros r Hr P HP; split; [done|intros ?%HP; done]).
  unfold connect_effects. destruct (open_answer s) as [sid|reason]; [destruct (connect_answer s) as [[local|reason]|]|]; cbn [fst];
    intros Hb; repeat (apply elem_of_cons in Hb as [Hb|Hb]; [try done; injection Hb as -> |]); try by apply elem_of_nil in Hb.
  - split; [by exists sid, local|]. by destruct local.
  - apply Hf; [apply reply_for_disconnect_fails|]. by intros (? & ? & _ & ?).
  - apply Hf; [done|]. by intros (? & ? & _ & ?).
  - apply Hf; [apply reply_for_disconnect_fails|]. by intros (? & ? & ? & _).
Qed.

(** C36: a CONNECT comes to one of three ends.  Dropped: nothing is done.  Refused: one
    failure reply, and the bus is not asked.  Granted, which takes an accepting verdict, or
    rules all of whose steps grant, or neither being configured: one session is asked for,
    to the client's target under the client's and the target's keys; if the bus opens it,
    it is connected once; then one reply is written and nothing more is done.  The reply
    says success exactly if the session was opened and its connect succeeded, and only
    then, if the reply could be written, is that very session relayed. *)
Theorem connect_asks_the_bus_only_when_granted (peer : SocketAddr) (t : Endpoint) (policy : option RulePolicy)
    (pipeline : option PipelineFn) (user : option string) (s s' : Script) (out : option (nat * option AccessTrace)) :
  pipe_connect peer t policy pipeline user s = Some (out, s') ->
  (out = None /\ s' = s)
  \/ (exists r, out = None /\ r <> Succeeded /\ s_log s' = s_log s ++ [Wrote (encode_reply r)])
  \/ (exists q, connect_granted peer t policy pipeline user q /\ same_session (connect_base peer t) q
        /\ s_log s' = s_log s ++ (connect_effects q s).1 /\ fst <$> out = (connect_effects q s).2
        /\ forall b, Wrote b ∈ (connect_effects q s).1 ->
             (at_ b 1 = 0 <-> exists sid local, open_answer s = Ok sid /\ connect_answer s = Some (Ok local))).
Proof.
  unfold pipe_connect. destruct (admit_connect peer t policy pipeline user) as [[q tr|r|]|] eqn:A; [..|done].
  - destruct (open_connect_log q s) as (s1 & -> & L). intros [= <- <-]. right; right.
    apply admit_connect_granted in A as [G S]. exists q. split_and!; [done..| |by apply reply_tells_the_outcome].
    by destruct (connect_effects q s).2.
  - intros [= <- <-]. right; left. exists r. rewrite write_reply_log. split_and!; [done| |done].
    by apply admit_reply_refuses in A as [->| ->].
  - intros [= <- <-]. by left.
Qed.

(** *** UDP ASSOCIATE *)

(** The table is within its bound and every session in it is its key's. *)
Definition sessions_ok (a : UdpAssociation) : Prop :=
  (size (ua_sessions a) <= MAX_UDP_TARGET_SESSIONS)%nat /\ map_Forall (fun k ts => endpoint_fmt (ts_target ts) = k) (ua_sessions a).

Lemma evict_one_room {A} max (sid : A -> nat) (m : gmap string A) (s : Script) :
  (size m <= max)%nat -> (0 < max)%nat -> exists m' s' w, evict_one max (fun old => pump_abort (sid old)) m s = (m', s') /\ (size m' < max)%nat /\ m' ⊆ m
    /\ s_log s' = s_log s ++ w /\ (w = [] /\ m' = m \/ exists k x, m !! k = Some x /\ w = [AbortedPump (sid x)] /\ m' = delete k m).
Proof.
  intros Hs Hm. unfold evict_one. destruct (Nat.leb_spec max (size m)) as [Hf|Hf].
  2: { exists m, s, []. rewrite app_nil_r. split_and!; [done|lia|done|done|by left]. }
  cbn [map_first script_world]. set (l := (map_to_list m).*1).
  assert (Hl : length l = size m) by (subst l; by rewrite length_fmap, length_map_to_list).
  destruct (nth_error l (s_pick s mod length l)) as [k|] eqn:E.
  2: { apply nth_error_None in E. pose proof (Nat.mod_upper_bound (s_pick s) (length l)). lia. }
  apply nth_error_In, list_elem_of_In in E. subst l. apply list_elem_of_fmap in E as ([k' x] & -> & Hk%elem_of_map_to_list). cbn [fst].
  rewrite Hk. exists (delete k' m), (pump_abort (sid x) s), [AbortedPump (sid x)].
  split_and!; [done| |apply delete_subseteq|done|right; by exists k', x].
  rewrite map_size_delete, Hk. cbn. pose proof (map_size_ne_0_lookup_2 m k' ltac:(by eexists)). lia.
Qed.

Lemma admit_datagram_same a t q : admit_datagram a t = Some (Some q) -> same_session (udp_base a t) q.
Proof.
  unfold admit_datagram. destruct (ua_pipeline a) as [run|].
  - destruct (run _) as [[r|]|]; [|done..]. destruct (apply_verdict _ _ _) eqn:E; [|done..]. intros [= <-].
    by apply apply_verdict_same in E as (sink & _ & Hs & _).
  - destruct (ua_policy a) as [p|]; [|by intros [= <-]]. destruct (apply_decision _ _) eqn:E; [|done]. intros [= <-].
    by apply apply_decision_same in E as [Hs _].
Qed.

(** What a datagram to a target that has no session does. *)
Lemma install_session_log q t client a (s : Script) :
  sessions_ok a -> ua_sessions a !! endpoint_fmt t = None ->
  exists r a' s' w, install_session q t client a s = (r, a', s') /\ sessions_ok a' /\ s_log s' = s_log s ++ OpenedDatagram q :: w
    /\ ((r = None /\ a' = a /\ w = [])
        \/ exists sid m, r = Some (mkTargetSession sid client t) /\ a' = set_sessions (<[endpoint_fmt t := mkTargetSession sid client t]> m) a
             /\ (w = [] /\ m = ua_sessions a \/ exists k ts, ua_sessions a !! k = Some ts /\ w = [AbortedPump (ts_id ts)] /\ m = delete k (ua_sessions a))).
Proof.
  intros [Hs Hk] Hn. unfold install_session. rewrite Hn. cbn [port_open_datagram script_world]. unfold script_open.
  destruct (next _ (s_opens s)) as [[sid|er] l]; cbn zeta.
  2: { eexists None, a, _, []. split_and!; [done|done|done|by left]. }
  match goal with |- context [evict_one _ _ _ ?w] => destruct (evict_one_room MAX_UDP_TARGET_SESSIONS ts_id (ua_sessions a) w Hs ltac:(unfold MAX_UDP_TARGET_SESSIONS; lia)) as (m & s1 & ev & -> & Hm & Hsub & L & C) end.
  eexists _, _, s1, ev. split; [done|]. split; [|split].
  - split; cbn [ua_sessions set_sessions].
    + rewrite map_size_insert_None; [lia|]. destruct (m !! endpoint_fmt t) eqn:E; [|done].
      exfalso. rewrite (lookup_weaken _ _ _ _ E Hsub) in Hn. done.
    + apply map_Forall_insert_2; [done|]. intros k x Hx. apply Hk. by apply (lookup_weaken m).
  - rewrite L. cbn [s_log log]. by rewrite <- app_assoc.
  - right. exists sid, m. split_and!; [done|done|]. destruct C as [[-> ->]|(k & x & Hx & -> & ->)]; [by left|right; by exists k, x].
Qed.

(** What one datagram on the relay's socket may do. *)
Inductive datagram_step (client : SocketAddr) (packet : list Z) (a : UdpAssociation) : UdpAssociation -> list Effect -> Prop :=
| DatagramIgnored : datagram_step client packet a a []
| DatagramNoExit d q :
    owns_peer a client = true -> decode_udp_datagram packet = Ok d -> same_session (udp_base a (target d)) q ->
    datagram_step client packet a a [OpenedDatagram q]
| DatagramSent d ts :
    owns_peer a client = true -> decode_udp_datagram packet = Ok d -> ua_sessions a !! endpoint_fmt (target d) = Some ts ->
    datagram_step client packet a a [SentTo (ts_id ts) (target d) (payload d)]
| DatagramFirst d q sid :
    owns_peer a client = true -> decode_udp_datagram packet = Ok d -> same_session (udp_base a (target d)) q ->
    datagram_step client packet a (set_sessions (<[endpoint_fmt (target d) := mkTargetSession sid client (target d)]> (ua_sessions a)) a)
      [OpenedDatagram q; SentTo sid (target d) (payload d)]
| DatagramEvicts d q sid k old :
    owns_peer a client = true -> decode_udp_datagram packet = Ok d -> same_session (udp_base a (target d)) q -> ua_sessions a !! k = Some old ->
    datagram_step client packet a
      (set_sessions (<[endpoint_fmt (target d) := mkTargetSession sid client (target d)]> (delete k (ua_sessions a))) a)
      [OpenedDatagram q; AbortedPump (ts_id old); SentTo sid (target d) (payload d)].

Lemma relay_datagram_step client packet a a' (s s' : Script) :
  sessions_ok a -> relay_datagram client packet a s = Some (a', s') ->
  sessions_ok a' /\ exists w, s_log s' = s_log s ++ w /\ datagram_step client packet a a' w.
Proof.
  intros Hok. unfold relay_datagram. destruct (owns_peer a client) eqn:Ho; cbn [negb].
  2: { intros [= <- <-]. split; [done|]. exists []. rewrite app_nil_r. split; [done|constructor]. }
  unfold forward_udp_packet. destruct (decode_udp_datagram packet) as [d|] eqn:D.
  2: { intros [= <- <-]. split; [done|]. exists []. rewrite app_nil_r. split; [done|constructor]. }
  unfold session_for. destruct (ua_sessions a !! endpoint_fmt (target d)) as [ts|] eqn:E.
  { intros [= <- <-]. split; [done|]. eexists. split; [done|]. by econstructor. }
  destruct (admit_datagram a (target d)) as [[q|]|] eqn:A; [|intros [= <- <-]; split; [done|]; exists []; rewrite app_nil_r; split; [done|constructor]|done].
  apply admit_datagram_same in A.
  destruct (install_session_log q (target d) client a s Hok E) as (r & a1 & s1 & w & -> & Hok1 & L & C).
  destruct C as [(-> & -> & ->)|(sid & m & -> & -> & C)].
  - intros [= <- <-]. split; [done|]. eexists. split; [done|]. by econstructor.
  - intros [= <- <-]. split; [done|]. cbn [session_send_to script_world log s_log ts_id]. rewrite L.
    destruct C as [[-> ->]|(k & ts & Hk & -> & ->)]; eexists; rewrite <- app_assoc; (split; [done|]); by econstructor.
Qed.

(** Datagrams one after the other. *)
Fixpoint relay_all (l : list (SocketAddr * list Z)) (a : UdpAssociation) (s : Script) : option (UdpAssociation * Script) :=
  match l with
  | [] => Some (a, s)
  | (client, packet) :: l => match relay_datagram client packet a s with None => None | Some (a, s) => relay_all l a s end
  end.

Inductive datagram_run : list (SocketAddr * list Z) -> UdpAssociation -> UdpAssociation -> list Effect -> Prop :=
| RunEnd a : datagram_run [] a a []
| RunStep client packet l a a1 a2 w1 w2 :
    datagram_step client packet a a1 w1 -> datagram_run l a1 a2 w2 -> datagram_run ((client, packet) :: l) a a2 (w1 ++ w2).

(** however many datagrams an association relays, from whomever, it never holds more
    than 256 sessions, each to the target it is filed under; and every datagram is either
    ignored, or comes from the association's peer and is sent, as it was, to the target it
    names, on the session of that target, which is asked for under the association's own
    keys if there is none, one other session giving way if the table is full. *)
Theorem association_stays_bounded (declared : Endpoint) (policy : option RulePolicy) (pipeline : option PipelineFn)
    (user : option string) (l : list (SocketAddr * list Z)) (a a' : UdpAssociation) (s s' : Script) :
  association_new declared policy pipeline user = Some a -> relay_all l a s = Some (a', s') ->
  sessions_ok a' /\ exists w, s_log s' = s_log s ++ w /\ datagram_run l a a' w.
Proof.
  intros Ha. assert (Hok : sessions_ok a).
  { unfold association_new in Ha. destruct (parse_host_ip _); [|done]. injection Ha as <-. split; [cbn [ua_sessions]; rewrite map_size_empty; unfold MAX_UDP_TARGET_SESSIONS; lia|apply map_Forall_empty]. }
  clear Ha. revert a s Hok. induction l as [|[client packet] l IH]; intros a s Hok; cbn [relay_all].
  - intros [= <- <-]. split; [done|]. exists []. rewrite app_nil_r. split; [done|constructor].
  - destruct (relay_datagram client packet a s) as [[a1 s1]|] eqn:E; [|done]. intros Hr.
    destruct (relay_datagram_step _ _ _ _ _ _ Hok E) as (Hok1 & w & L & St).
    destruct (IH a1 s1 Hok1 Hr) as (Hok2 & w2 & L2 & Run). split; [done|]. exists (w ++ w2). rewrite L2, L, app_assoc. split; [done|].
    by econstructor.
Qed.
End CommandFacts.

(** ** Runs *)

(** A script of these reads, opens and connects. *)
Definition script_of (reads : list (list Z)) (opens : list (result nat DisconnectReason))
    (connects : list (option (result (option Endpoint) DisconnectReason))) : Script :=
  mkScript None (RBytes <$> reads) [] opens connects [] [] 0 [].

Definition host_a : Endpoint := mkEndpoint "10.0.0.1" 80.
Definition auth_a : AuthConfig := with_user "ann" "pw" auth_new.
Definition cred_a : list Z := [1; 3; 97; 110; 110; 2; 112; 119].

Lemma host_a_ok : endpoint_ok host_a.
Proof. unfold endpoint_ok, U16_MAX. cbn. split_and!; [done|lia|lia|lia]. Qed.

(** The greeting's last byte comes with the credentials, whose last byte comes with the
    request, whose end comes with data. *)
Definition chunks_a : list (list Z) :=
  [[5]; [1]; [2; 1; 3; 97; 110; 110; 2; 112]; [119; 5; 1; 0; 1; 10; 0]; [0; 1; 0; 80; 71; 69; 84]].

Lemma handshake_admits_a_valid_client_witness :
  exists cs s', read_handshake 5 (Some auth_a) (script_of chunks_a [] []) = Some (Some (mkHandshake (mkRequest Connect host_a) (Some "ann"%string)), s')
    /\ reading cs s' /\ s_log s' = [Wrote [5; 2]; Wrote [1; 0]].
Proof.
  change host_a with (canon host_a). change (Some "ann"%string) with (fst <$> Some ("ann"%string, cred_a)).
  apply (handshake_admits_a_valid_client (Some auth_a) (Some ("ann"%string, cred_a)) [UserPass] Connect host_a [71; 69; 84] chunks_a).
  - simpl. lia.
  - reflexivity.
  - apply list_elem_of_singleton. reflexivity.
  - exists [97; 110; 110], [112; 119], "pw"%string. split_and!; reflexivity.
  - exact host_a_ok.
  - reflexivity.
  - reflexivity.
  - split; reflexivity.
  - simpl. lia.
Defined.

(** The bytes a client sends right behind its request are read and given up: the
    handshake's buffer ends with it. *)
Theorem pipelined_bytes_are_dropped :
  exists s', read_handshake 5 None (script_of [[5; 1; 0]; encode_request Connect host_a ++ [71; 69; 84]] [] [])
    = Some (Some (mkHandshake (mkRequest Connect host_a) None), s') /\ s_reads s' = [].
Proof. eexists. split; vm_compute; reflexivity. Qed.

Lemma handshake_ends_and_verifies_witness :
  exists r s' w, read_handshake 513 (Some auth_a) (script_of chunks_a [] []) = Some (r, s') /\ s_log s' = [] ++ w /\ only_writes w
    /\ forall h, r = Some h -> exists cs, (RBytes <$> chunks_a) = (RBytes <$> cs) ++ s_reads s' /\ admitted (Some auth_a) (concat cs) h.
Proof.
  apply (handshake_ends_and_verifies (Some auth_a) (script_of chunks_a [] []) 513); [|lia].
  unfold client_ok. cbn. repeat (apply Forall_cons; split; [split; [done|]; unfold bytes_ok, is_byte; repeat (apply Forall_cons; split; [lia|]); by apply Forall_nil|]).
  by apply Forall_nil.
Defined.

(** Libraries without nets, patterns or JSON. *)
#[local] Instance no_libs : RuleLibs := {|
  IpNet := unit; net_contains _ _ := false; Regex := unit; is_match _ _ := false; regex_str _ := ""%string;
  Json := unit; is_null _ := true; is_object _ := false
|}.

Definition peer_a : SocketAddr := SockV4 [10; 0; 0; 9] 40000.

(** Web traffic goes to a group with a hint, the rest is denied. *)
Definition policy_a : RulePolicy :=
  mkPolicy (mkChain [mkRule (Some "web"%string) (Pred (DstPortEq 80)) (Compose [SetRouteGroup "g"; Compose [SetScheduleHint (HFanOut 2)]])] Deny) ∅.

Lemma validated_policy_is_carried_out_witness :
  apply_decision (evaluate_with_trace (policy_chain policy_a) (build_connect_ctx peer_a host_a None) ∅) (connect_base peer_a host_a)
  = OAllow (with_schedule_hint (FanOut 2) (with_route_group "g" (connect_base peer_a host_a))).
Proof.
  exact (validated_policy_is_carried_out (policy_chain policy_a) (build_connect_ctx peer_a host_a None) ∅ (connect_base peer_a host_a) eq_refl).
Defined.

Definition connected_a : Script := script_of [] [Ok 7%nat] [Some (Ok None)].

Lemma connect_asks_the_bus_only_when_granted_witness :
  exists o s', pipe_connect peer_a host_a (Some policy_a) None (Some "ann"%string) connected_a = Some (o, s')
    /\ fst <$> o = Some 7%nat
    /\ exists q, same_session (connect_base peer_a host_a) q /\ s_log s' = [OpenedStream q; Connecting 7; Wrote (encode_reply Succeeded)].
Proof.
  destruct (pipe_connect peer_a host_a (Some policy_a) None (Some "ann"%string) connected_a) as [[o s']|] eqn:E;
    [|vm_compute in E; discriminate E].
  exists o, s'. split; [reflexivity|].
  destruct (connect_asks_the_bus_only_when_granted peer_a host_a (Some policy_a) None (Some "ann"%string) connected_a s' o E)
    as [[-> _]|[(r & -> & _)|(q & _ & Hq & L & O & _)]]; [vm_compute in E; discriminate E..|].
  split; [exact O|]. exists q. split; [exact Hq|exact L].
Defined.

Definition assoc_a : UdpAssociation := mkAssociation peer_a None None None ∅.
Definition datagram_a : list Z := encode_udp_datagram host_a [1; 2; 3].

Lemma association_stays_bounded_witness :
  exists a' s', relay_all [(peer_a, datagram_a); (SockV4 [10; 0; 0; 8] 1, datagram_a)] assoc_a (script_of [] [Ok 7%nat] []) = Some (a', s')
    /\ sessions_ok a' /\ exists w, s_log s' = [] ++ w /\ datagram_run [(peer_a, datagram_a); (SockV4 [10; 0; 0; 8] 1, datagram_a)] assoc_a a' w.
Proof.
  destruct (relay_all [(peer_a, datagram_a); (SockV4 [10; 0; 0; 8] 1, datagram_a)] assoc_a (script_of [] [Ok 7%nat] [])) as [[a' s']|] eqn:E.
  - exists a', s'. split; [reflexivity|].
    exact (association_stays_bounded (mkEndpoint "10.0.0.9" 40000) None None None _ assoc_a a' (script_of [] [Ok 7%nat] []) s' eq_refl E).
  - vm_compute in E. discriminate E.
Defined.

(** *** Whose datagrams are relayed *)

(** An association declared with an unspecified address, whatever its port, relays the
    datagrams of everybody, and its rules and keys see the unspecified address. *)
Theorem unspecified_address_owns_everyone (p : Z) (client : SocketAddr) (t : Endpoint) :
  let a := mkAssociation (SockV4 [0; 0; 0; 0] p) (Some policy_a) None None ∅ in
  owns_peer a client = true /\ rq_source_key (udp_base a t) = Some "0.0.0.0"%string.
Proof. cbv zeta. unfold owns_peer. cbn. by rewrite orb_true_r. Qed.

(** The wildcard the comment names, an address and a port of zero, is not a request the
    codec takes. *)
Theorem wildcard_association_is_refused : decode_request [5; 3; 0; 1; 0; 0; 0; 0; 0; 0] = Err (EndpointRejected (InvalidPort "0")).
Proof. vm_compute. reflexivity. Qed.
