(* ===== verification/HttpIngressFacts.v ===== *)
(** Theorems on the HTTP ingress ([HttpIngress]) and the relays of [Ingress]: credentials
    are compared exactly, a request head is read whatever pieces it comes in and no byte
    behind it is lost, and what a client that ends its side still gets. *)
From S2P Require Import Prelude Numbers NetAddr Endpoint DispatchTypes Rules Schedulers ResolverRun Dns.
From S2P Require Import QuicPacket KernelRegistry Pipeline Hooks Forward Ingress IngressFacts HttpProxy HttpProxyFacts HttpIngress.
Local Open Scope Z_scope.

(** ** Comparison and base64 *)

Lemma lor_fold_zero (f : nat -> Z) l d :
  0 <= d -> (forall i, 0 <= f i) ->
  0 <= fold_left (fun d i => Z.lor d (f i)) l d /\
  (fold_left (fun d i => Z.lor d (f i)) l d = 0 <-> d = 0 /\ Forall (fun i => f i = 0) l).
Proof.
  intros Hd Hf. revert d Hd. induction l as [|i l IH]; intros d Hd; cbn [fold_left].
  - split; [done|]. split; [by split; [|constructor]|by intros []].
  - destruct (IH (Z.lor d (f i)) ltac:(by apply Z.lor_nonneg)) as [H1 H2]. split; [done|]. rewrite H2, Z.lor_eq_0_iff, Forall_cons. tauto.
Qed.

(** Every byte is looked at, and the answer is equality. *)
Lemma constant_time_eq_exact l r : bytes_ok l -> bytes_ok r -> constant_time_eq l r = true <-> l = r.
Proof.
  intros Hl Hr. unfold constant_time_eq. rewrite Z.eqb_eq.
  assert (Hn : forall b i, bytes_ok b -> 0 <= nth i b 0).
  { intros b i Hb. destruct (nth_in_or_default i b 0) as [Hin| ->]; [|lia]. apply list_elem_of_In in Hin.
    pose proof (proj1 (Forall_forall _ _) Hb _ Hin) as Hx. unfold is_byte in Hx. lia. }
  destruct (lor_fold_zero (fun i => Z.lxor (nth i l 0) (nth i r 0)) (seq 0 (Nat.max (length l) (length r)))
              (Z.lxor (Z.of_nat (length l)) (Z.of_nat (length r)))) as [_ H].
  { apply Z.lxor_nonneg. lia. } { intros i. apply Z.lxor_nonneg. split; intros _; by apply Hn. }
  rewrite H. clear H. split; [|intros ->; split; [apply Z.lxor_nilpotent|apply Forall_true; intros; apply Z.lxor_nilpotent]].
  intros [E F]. apply Z.lxor_eq in E. assert (length l = length r) as Elen by lia.
  apply (nth_ext _ _ 0 0 Elen). intros i Hi. rewrite Forall_forall in F. apply Z.lxor_eq, F.
  apply elem_of_seq. lia.
Qed.

Definition index_of (c : Z) : Z := Z.of_nat (default 64%nat (fst <$> list_find (fun x => x = c) (bytes_of_string TABLE))).

Lemma index_of_table i : 0 <= i < 64 -> index_of (table i) = i.
Proof.
  intros Hi. assert (H : forallb (fun i => index_of (table i) =? i) (seqZ 0 64) = true) by (vm_compute; reflexivity).
  rewrite forallb_forall in H. apply Z.eqb_eq, H, list_elem_of_In, elem_of_seqZ. lia.
Qed.

Lemma index_of_pad : index_of 61 = 64.
Proof. vm_compute. reflexivity. Qed.

Lemma table_not_pad i : 0 <= i < 64 -> table i <> 61.
Proof. intros Hi E. pose proof (index_of_table i Hi) as H. rewrite E, index_of_pad in H. lia. Qed.

Lemma table_inj i j : 0 <= i < 64 -> 0 <= j < 64 -> table i = table j -> i = j.
Proof. intros Hi Hj E. by rewrite <- (index_of_table i), <- (index_of_table j), E. Qed.

(** The four sextets of three bytes. *)
Lemma sextets b0 b1 b2 : 0 <= b0 < 256 -> 0 <= b1 < 256 -> 0 <= b2 < 256 ->
  Z.shiftr b0 2 = b0 / 4 /\ Z.lor (Z.shiftl (Z.land b0 0x03) 4) (Z.shiftr b1 4) = b0 mod 4 * 16 + b1 / 16
  /\ Z.lor (Z.shiftl (Z.land b1 0x0f) 2) (Z.shiftr b2 6) = b1 mod 16 * 4 + b2 / 64 /\ Z.land b2 0x3f = b2 mod 64.
Proof.
  intros H0 H1 H2. rewrite !Z.shiftr_div_pow2 by lia.
  change 3 with (Z.ones 2). change 0x0f with (Z.ones 4). change 0x3f with (Z.ones 6). rewrite !Z.land_ones by lia.
  rewrite !(Z.lor_comm (Z.shiftl _ _)). split_and!; [done| | |done].
  - rewrite lor_shifted, Z.shiftl_mul_pow2; [change (2 ^ 4) with 16; change (2 ^ 2) with 4; lia|lia|lia|].
    change (2 ^ 4) with 16. pose proof (Z.div_pos b1 16). pose proof (Z.div_lt_upper_bound b1 16 16). lia.
  - rewrite lor_shifted, Z.shiftl_mul_pow2; [change (2 ^ 6) with 64; change (2 ^ 4) with 16; change (2 ^ 2) with 4; lia|lia|lia|].
    change (2 ^ 6) with 64. change (2 ^ 2) with 4. pose proof (Z.div_pos b2 64). pose proof (Z.div_lt_upper_bound b2 64 4). lia.
Qed.

(** A chunk determines its bytes, and how many there were. *)
Lemma base64_chunk_inj b0 b1 b2 c0 c1 c2 :
  0 <= b0 < 256 -> 0 <= c0 < 256 -> (forall b, b1 = Some b -> 0 <= b < 256) -> (forall b, b2 = Some b -> 0 <= b < 256) ->
  (forall b, c1 = Some b -> 0 <= b < 256) -> (forall b, c2 = Some b -> 0 <= b < 256) ->
  (b1 = None -> b2 = None) -> (c1 = None -> c2 = None) ->
  base64_chunk b0 b1 b2 = base64_chunk c0 c1 c2 -> b0 = c0 /\ b1 = c1 /\ b2 = c2.
Proof.
  intros Hb0 Hc0 Hb1 Hb2 Hc1 Hc2 Nb Nc. unfold base64_chunk.
  assert (D : forall o, (forall b, o = Some b -> 0 <= b < 256) -> 0 <= default 0 o < 256) by (intros [x|] Hx; [by apply Hx|simpl; lia]).
  destruct (sextets b0 (default 0 b1) (default 0 b2) Hb0 (D _ Hb1) (D _ Hb2)) as (-> & -> & -> & ->).
  destruct (sextets c0 (default 0 c1) (default 0 c2) Hc0 (D _ Hc1) (D _ Hc2)) as (-> & -> & -> & ->).
  pose proof (D _ Hb1) as B1. pose proof (D _ Hb2) as B2. pose proof (D _ Hc1) as C1. pose proof (D _ Hc2) as C2.
  assert (Q : forall x, 0 <= x < 256 -> 0 <= x / 4 < 64 /\ 0 <= x / 16 < 16 /\ 0 <= x / 64 < 4 /\ 0 <= x mod 4 < 4 /\ 0 <= x mod 16 < 16
                /\ 0 <= x mod 64 < 64) by (intros; Z.to_euclidean_division_equations; lia).
  pose proof (Q _ Hb0) as Q0. pose proof (Q _ Hc0) as R0. pose proof (Q _ B1) as Q1. pose proof (Q _ C1) as R1. pose proof (Q _ B2) as Q2. pose proof (Q _ C2) as R2.
  intros [= E1 E2 E3 E4]. apply table_inj in E1; [|lia..]. apply table_inj in E2; [|lia..].
  destruct b1 as [x1|], c1 as [y1|]; cbn [default from_option id] in *.
  2: { exfalso. apply (table_not_pad (x1 mod 16 * 4 + default 0 b2 / 64)); [lia|done]. }
  2: { exfalso. apply (table_not_pad (y1 mod 16 * 4 + default 0 c2 / 64)); [lia|done]. }
  2: { rewrite Nb, Nc by done. split_and!; [|done|done]. Z.to_euclidean_division_equations. lia. }
  apply table_inj in E3; [|lia..].
  destruct b2 as [x2|], c2 as [y2|]; cbn [default from_option id] in *.
  2: { exfalso. by apply (table_not_pad (x2 mod 64)); [lia|]. }
  2: { exfalso. by apply (table_not_pad (y2 mod 64)); [lia|]. }
  2: { split_and!; [| |done]; [|f_equal]; Z.to_euclidean_division_equations; lia. }
  apply table_inj in E4; [|lia..]. split_and!; [|f_equal..]; Z.to_euclidean_division_equations; lia.
Qed.

Lemma base64_encode_cons b0 l :
  base64_encode (b0 :: l) = (base64_chunk b0 (l !! 0%nat) (l !! 1%nat) ++ base64_encode (drop 2 l))%list.
Proof. by destruct l as [|b1 [|b2 l]]. Qed.

Lemma base64_inj n l l' : (length l <= n)%nat -> bytes_ok l -> bytes_ok l' -> base64_encode l = base64_encode l' -> l = l'.
Proof.
  revert l l'. induction n as [|n IH]; intros l l' Hn Hl Hl'.
  { destruct l; [|simpl in Hn; lia]. destruct l'; [done|]. rewrite base64_encode_cons. done. }
  destruct l as [|b0 l], l' as [|c0 l']; [done|by rewrite base64_encode_cons..|].
  rewrite !base64_encode_cons. apply Forall_cons in Hl as [Hb0 Hl]. apply Forall_cons in Hl' as [Hc0 Hl'].
  assert (Hlook : forall k i b, bytes_ok k -> k !! i = Some b -> 0 <= b < 256) by (intros k i b Hk Hi; by apply (Forall_lookup_1 _ _ _ _ Hk Hi)).
  assert (Hnone : forall k : list Z, k !! 0%nat = None -> k !! 1%nat = None) by (by intros [|? ?]).
  intros E. apply app_inj_1 in E as [E1 E2]; [|done].
  apply base64_chunk_inj in E1 as (-> & E0 & E1); [|done|done|intros b; exact (Hlook _ _ b Hl)|intros b; exact (Hlook _ _ b Hl)|intros b; exact (Hlook _ _ b Hl')|intros b; exact (Hlook _ _ b Hl')|apply Hnone|apply Hnone].
  apply IH in E2; [|rewrite length_drop; simpl in Hn; lia|by apply Forall_drop..].
  f_equal. rewrite <- (take_drop 2 l), <- (take_drop 2 l'), E2. f_equal.
  clear - E0 E1. destruct l as [|? [|? ?]], l' as [|? [|? ?]]; cbn in E0, E1 |- *; rewrite ?take_0; congruence.
Qed.

Lemma base64_bytes_ok l : bytes_ok l -> bytes_ok (base64_encode l).
Proof.
  assert (T : forall i, 0 <= table i < 256).
  { intros i. unfold table. destruct (nth_in_or_default (Z.to_nat i) (bytes_of_string TABLE) 0) as [Hin| ->]; [|lia].
    apply list_elem_of_In in Hin. exact (proj1 (Forall_forall _ _) (bytes_of_string_ok TABLE) _ Hin). }
  assert (C : forall b0 b1 b2, bytes_ok (base64_chunk b0 b1 b2)).
  { intros b0 b1 b2. unfold base64_chunk. repeat constructor; try apply T; destruct b1, b2; try apply T; lia. }
  intros _. assert (forall n l, (length l <= n)%nat -> bytes_ok (base64_encode l)) as H; [|by apply (H (length l))].
  clear l. induction n as [|n IH]; intros [|b l] Hn; try (by constructor); [simpl in Hn; lia|].
  rewrite base64_encode_cons. apply Forall_app. split; [apply C|]. apply IH. rewrite length_drop. simpl in Hn. lia.
Qed.

(** ** Credentials *)

(** What a client sends for a user and a password. *)
Definition basic_header (user pass : string) : string :=
  ("Basic " +:+ string_of_bytes (base64_encode (bytes_of_string (user +:+ ":" +:+ pass))))%string.

Definition no_colon (s : string) : Prop := Forall (fun b => b <> 58) (bytes_of_string s).

Lemma colon_split u p u' p' : no_colon u -> no_colon u' -> (u +:+ ":" +:+ p = u' +:+ ":" +:+ p')%string -> u = u' /\ p = p'.
Proof.
  intros Hu Hu'. revert u' Hu'. induction u as [|a u IH]; intros [|b u'] Hu'; cbn; intros E.
  - by injection E.
  - injection E as <- _. exfalso. apply Forall_cons in Hu' as [H _]. by apply H.
  - injection E as -> _. exfalso. apply Forall_cons in Hu as [H _]. by apply H.
  - injection E as -> E. apply Forall_cons in Hu as [_ Hu]. apply Forall_cons in Hu' as [_ Hu'].
    by destruct (IH Hu u' Hu' E) as [-> ->].
Qed.

(** a proxy accepts the credentials of a user exactly if the user is configured with
    that password, as long as no name has a colon in it (such a name and password cannot be
    told from another pair), and no other header is accepted: its credentials are those of
    a configured user, byte for byte. *)
Theorem basic_credentials_exact (a : BasicAuth) (user pass : string) (header : option string) :
  (no_colon user -> (forall u p, basic_users a !! u = Some p -> no_colon u) ->
     verify_header a (Some (basic_header user pass)) = bool_decide (basic_users a !! user = Some pass))
  /\ (verify_header a header = true -> exists u p scheme, basic_users a !! u = Some p /\ scheme ∈ ["Basic "; "basic "]%string
        /\ header = Some (scheme +:+ string_of_bytes (base64_encode (bytes_of_string (u +:+ ":" +:+ p))))%string).
Proof.
  assert (Enc : forall l, bytes_ok l -> bytes_of_string (string_of_bytes (base64_encode l)) = base64_encode l)
    by (intros l Hl; by apply bytes_of_string_of, base64_bytes_ok).
  split.
  - intros Hu Ha. unfold verify_header, basic_header. rewrite (proj2 (strip_prefix_app "Basic " _ _)) by reflexivity.
    apply eq_iff_eq_true. rewrite existsb_exists, bool_decide_eq_true, Enc by apply bytes_of_string_ok. split.
    + intros ([u p] & Hin & E). apply list_elem_of_In, elem_of_map_to_list in Hin.
      apply constant_time_eq_exact in E; [|apply base64_bytes_ok, bytes_of_string_ok..].
      apply (base64_inj _ _ _ ltac:(reflexivity)), (f_equal string_of_bytes) in E; [|apply bytes_of_string_ok..].
      rewrite !string_of_bytes_of in E. destruct (colon_split _ _ _ _ Hu (Ha _ _ Hin) E) as [-> ->]. done.
    + intros Hm. exists (user, pass). split; [by apply list_elem_of_In, elem_of_map_to_list|].
      apply constant_time_eq_exact; [apply base64_bytes_ok, bytes_of_string_ok..|done].
  - unfold verify_header. destruct header as [h|]; [|done].
    destruct (match strip_prefix "Basic " h with Some e => Some e | None => strip_prefix "basic " h end) as [e|] eqn:E; [|done].
    rewrite existsb_exists. intros ([u p] & Hin & Hc). apply list_elem_of_In, elem_of_map_to_list in Hin.
    apply constant_time_eq_exact in Hc; [|apply bytes_of_string_ok|apply base64_bytes_ok, bytes_of_string_ok].
    exists u, p, (match strip_prefix "Basic " h with Some _ => "Basic "%string | None => "basic "%string end). split; [done|].
    rewrite <- Hc, string_of_bytes_of. destruct (strip_prefix "Basic " h) as [e'|] eqn:E'.
    + injection E as ->. apply strip_prefix_app in E' as ->. split; [left|done].
    + apply strip_prefix_app in E as ->. split; [right; left|done].
Qed.

(** ** The request head *)

(** A head that is in the bytes is found in whatever pieces they come, and the bytes
    behind it are the buffer's and the ones still to be read. *)
Lemma read_head_runs max total chunks buf s fuel :
  buf ++ concat chunks = total -> reading chunks s -> (length chunks <= fuel)%nat -> parse_request_head total max <> Ok None ->
  exists cs s' r, read_request_head fuel max buf s = Some (HeadRead_ r, s') /\ reading cs s' /\ s_log s' = s_log s
    /\ s_opens s' = s_opens s /\ s_connects s' = s_connects s
    /\ match r, parse_request_head total max with
       | Ok p, Ok (Some h) => pc_head p = h /\ buffered p ++ concat cs = drop (consumed h) total
       | Err e, Err e' => e = e'
       | _, _ => False
       end.
Proof.
  revert buf s fuel. induction chunks as [|c chunks IH]; intros buf s fuel <- Hr Hf Hn.
  all: assert (D : parse_request_head buf max = Ok None \/ parse_request_head buf max <> Ok None)
    by (destruct (parse_request_head buf max) as [[]|]; (by left) || by right).
  all: destruct D as [E|E].
  all: try (match goal with |- context [parse_request_head (_ ++ concat ?t) _] =>
      destruct (request_head_streaming buf (concat t) max) as (_ & Hfin' & Hcon); specialize (Hfin' E) end;
    assert (E1 : read_request_head fuel max buf s = Some (HeadRead_ (match parse_request_head buf max with
        Ok (Some h) => Ok (mkParsed h (drop (consumed h) buf)) | Ok None => Err HIncomplete | Err e => Err e end), s))
      by (destruct fuel; cbn [read_request_head]; destruct (parse_request_head buf max) as [[h|]|]; done);
    eexists _, s, _; split; [exact E1|]; split; [exact Hr|]; split_and!; [done..|]; rewrite Hfin';
    destruct (parse_request_head buf max) as [[h|]|] eqn:Eh; [|done|done]; split; [done|];
    destruct (Hcon h eq_refl) as [_ Hle]; cbn [buffered]; by rewrite drop_app_le).
  - exfalso. apply Hn. cbn [concat]. by rewrite app_nil_r.
  - destruct fuel as [|fuel]; [simpl in Hf; lia|]. cbn [read_request_head]. rewrite E.
    destruct Hr as [Hr Hw]. cbn [fmap list_fmap] in Hr. cbn [sock_read script_world]. unfold script_read. rewrite Hr. cbn [next].
    match goal with |- context [read_request_head fuel max (buf ++ c) ?s1] =>
      destruct (IH (buf ++ c) s1 fuel (eq_sym (app_assoc _ _ _)) ltac:(done) ltac:(simpl in Hf; lia) Hn) as (cs & s' & r & R & H1 & H2 & H3 & H4 & H5) end.
    exists cs, s', r. rewrite R. done.
Qed.

(** C37: a request the proxy lets through reaches the target whole: in whatever pieces
    the client's bytes arrive, the session is opened with the decided request, a CONNECT is
    answered that it is established and a forwarded request with nothing, and what is
    relayed, the first bytes and then the ones still to be read, is everything behind the
    head, after the rewritten head if the request is forwarded. *)
Theorem http_request_is_relayed_whole (peer : SocketAddr) (cfg : ConnConfig) (total : list Z) (chunks : list (list Z)) (h : RequestHead)
    (q : BusSessionRequest) (sid : nat) (local : option Endpoint) (s : Script) (fuel : nat) :
  concat chunks = total -> reading chunks s -> (length chunks <= fuel)%nat ->
  parse_request_head total (max_header_bytes cfg) = Ok (Some h) ->
  match cc_auth cfg with Some a => verify_header a (proxy_authorization h) = true | None => True end ->
  decide_head peer h (cc_pipeline cfg) = Some (Some q) ->
  hd_error (s_opens s) = Some (Ok sid) -> hd_error (s_connects s) = Some (Some (Ok local)) ->
  exists first cs s', http_handle_conn fuel peer cfg s = Some (Some (sid, first), s') /\ reading cs s'
    /\ first ++ concat cs = (match kind h with Connect => [] | ForwardHttp _ _ => bytes_of_string (forwarded_head h) end) ++ drop (consumed h) total
    /\ s_log s' = s_log s ++ [OpenedStream q; Connecting sid]
         ++ match kind h with Connect => [Wrote (bytes_of_string ESTABLISHED)] | ForwardHttp _ _ => [] end.
Proof.
  intros Ht Hr Hf Hp Hauth Hd Ho Hc. unfold http_handle_conn.
  destruct (read_head_runs (max_header_bytes cfg) total chunks [] s fuel Ht Hr Hf ltac:(by rewrite Hp))
    as (cs & s1 & r & -> & Hr1 & L1 & O1 & C1 & Hm). rewrite Hp in Hm. destruct r as [[ph pb]|]; [|done]. cbn [pc_head buffered] in *.
  destruct Hm as [-> Hrest].
  assert (match cc_auth cfg with Some a => negb (verify_header a (proxy_authorization h)) | None => false end = false) as ->
    by (destruct (cc_auth cfg); [by rewrite Hauth|done]). rewrite Hd. clear Hauth Hd Hp Hf.
  unfold open_http, first_upstream. cbn [pc_head buffered port_open_stream script_world]. unfold script_open.
  rewrite O1. destruct (s_opens s) as [|x ol]; [done|]. injection Ho as ->. cbn [next]. cbn [session_connect script_world]. unfold script_connect.
  cbn [s_connects log]. rewrite C1. destruct (s_connects s) as [|y cl]; [done|]. injection Hc as ->. cbn [next].
  destruct Hr1 as [Hr1 Hw1]. destruct (kind h).
  - cbn [sock_write script_world]. unfold script_write. cbn [s_written log]. rewrite Hw1. cbn [next fmap option_fmap option_map].
    eexists pb, cs, _. split; [done|]. split_and!; [done|done|cbn [s_log log]; by rewrite L1, <- !app_assoc].
  - cbn [fmap option_fmap option_map]. eexists _, cs, _. split; [done|]. split_and!; [done|by rewrite <- app_assoc, Hrest|cbn [s_log log]; by rewrite L1, <- app_assoc].
Qed.

(** ** Relays *)

(** A client that ends its side and then gets an answer: the relay of the TCP and HTTP
    ingresses carries it, that of the SOCKS5 ingress loses it. *)
Theorem socks5_half_close_loses_the_answer :
  let l := [ClientBytes [1] true; ClientEnd; BusBytes [2] true; BusEnd] in
  relay_join l (mkRelay true true) = [ToBus [1]; ToBusEnd; ToClient [2]]
  /\ relay_select l (mkRelay true true) = [ToBus [1]; ToBusEnd].
Proof. by split. Qed.

(** ** Runs *)

Definition request_a : list Z :=
  bytes_of_string ("GET http://h.example/x HTTP/1.1" +:+ CRLF +:+ "Host: h.example" +:+ CRLF +:+ CRLF +:+ "BODY")%string.
Definition chunks_http : list (list Z) := [take 20 request_a; drop 20 request_a; [33]].
Definition total_a : list Z := request_a ++ [33].
Definition cfg_a : ConnConfig := mkConnConfig None None 16384.
Definition head_a : RequestHead :=
  match parse_request_head total_a 16384 with
  | Ok (Some h) => h
  | _ => mkHead Connect (mkEndpoint "" 0) 0 "" None
  end.
Definition proxy_peer : SocketAddr := SockV4 [10; 0; 0; 9] 40000.
Definition script_http : Script := script_of chunks_http [Ok 7%nat] [Some (Ok None)].

Lemma http_request_is_relayed_whole_witness :
  exists first cs s', http_handle_conn 3 proxy_peer cfg_a script_http = Some (Some (7%nat, first), s') /\ reading cs s'
    /\ first ++ concat cs = bytes_of_string (forwarded_head head_a) ++ drop (consumed head_a) total_a
    /\ s_log s' = [OpenedStream (request_stream (target head_a)); Connecting 7].
Proof.
  destruct (http_request_is_relayed_whole proxy_peer cfg_a total_a chunks_http head_a (request_stream (target head_a)) 7 None script_http 3)
    as (first & cs & s' & H1 & H2 & H3 & H4).
  - vm_compute. reflexivity.
  - split; reflexivity.
  - simpl. lia.
  - vm_compute. reflexivity.
  - exact I.
  - reflexivity.
  - reflexivity.
  - reflexivity.
  - exists first, cs, s'. split_and!; [exact H1|exact H2|exact H3|exact H4].
Defined.

Lemma basic_credentials_exact_witness :
  verify_header (basic_with_user "ann" "pw" basic_new) (Some (basic_header "ann" "pw")) = true.
Proof.
  rewrite (proj1 (basic_credentials_exact (basic_with_user "ann" "pw" basic_new) "ann" "pw" None)).
  - vm_compute. reflexivity.
  - unfold no_colon. cbn. repeat (apply Forall_cons; split; [done|]). by apply Forall_nil.
  - intros u p. cbn. rewrite lookup_insert_Some, lookup_empty. intros [[<- _]|[_ ?]]; [|done].
    unfold no_colon. cbn. repeat (apply Forall_cons; split; [done|]). by apply Forall_nil.
Defined.

(** A name with a colon lets other credentials in: those of the name up to the colon. *)
Theorem colon_name_admits_another :
  verify_header (basic_with_user "a:b" "c" basic_new) (Some (basic_header "a" "b:c")) = true
  /\ basic_users (basic_with_user "a:b" "c" basic_new) !! "a"%string = None.
Proof. split; vm_compute; reflexivity. Qed.
