(* ===== verification/Session.v ===== *)
(** The bus port and its sessions (crates/mesh-bus-core/src/transport/session/*.rs,
    kernel/port.rs, session_handle.rs) and the bus's building, snapshot and shutdown
    (kernel/runtime.rs): what lies between an ingress plugin and the dispatcher; and the
    splicing of two sockets (lib/mb-splice), which takes the place of a session that gives
    up its own.

    A session's channels, the forwarders it takes over and the tables it shares with the
    dispatcher are a class of parameters, the system calls of a splice another. *)
From S2P Require Import Prelude Numbers Endpoint Ingress Observation DispatchTypes Dispatch.
Local Open Scope Z_scope.

(** ** Requests and frames (data_handle.rs) *)

Definition frame_shutdown_write (hash : string -> string -> Z -> Z) (sid : string) (sq : Z) (t : Endpoint) : BusFrame :=
  let '(mkFrame a b c d _ p g h i j k l m n o q r s u) := frame_close hash sid sq t in
  mkFrame a b c d KShutdownWrite p g h i j k l m n o q r s u.

Definition apply_request (f : BusFrame) (r : BusSessionRequest) : BusFrame :=
  mkFrame (packet_id f) (flow_id f) (session_id f) (f_seq f) (kind f) (payload f) (target f) (ttl f)
    (rq_traffic_class r) (rq_policy_ref r) (rq_deadline_ms r) (rq_schedule_hint r) (path_trace f)
    (rq_flow_semantics r) (rq_return_semantics r) (rq_source_key r) (rq_target_key r) (rq_route_group r) (rq_target_sink r).

Definition validate_stream_request (r : BusSessionRequest) : result unit DisconnectReason :=
  if negb (bool_decide (rq_flow_semantics r = ByteStream)) then Err DAddressNotSupported
  else if negb (bool_decide (rq_return_semantics r = Direct)) then Err DAddressNotSupported
  else match rq_schedule_hint r with FanOut _ | Stripe _ => Err DAddressNotSupported | _ => Ok tt end.

Definition validate_datagram_request (r : BusSessionRequest) : result unit DisconnectReason :=
  if negb (bool_decide (rq_flow_semantics r = Datagram)) then Err DAddressNotSupported
  else if bool_decide (rq_return_semantics r = SequenceReorder) then Err DAddressNotSupported
  else match rq_schedule_hint r with FanOut O | Stripe _ => Err DAddressNotSupported | _ => Ok tt end.

Definition convert_close_reason (r : CloseReason) : DisconnectReason :=
  match r with
  | TtlExpired => DTtlExpired | SessionClosed => DSessionClosed | NoUsableExit => DNoUsableExit
  | ConnectionRefused => DConnectionRefused | NetworkUnreachable => DNetworkUnreachable
  | HostUnreachable => DHostUnreachable | TimedOut => DTimedOut | NotConnected => DNotConnected
  | ConnectionReset => DConnectionReset | UpstreamEof => DUpstreamEof | ReaderClosed => DReaderClosed
  | AddressNotSupported => DAddressNotSupported | OtherClose s => DOther s
  end.

Inductive ScheduleMode := ModeOrdered | ModeReplicate | ModeStripe.

Definition schedule_mode_for (r : BusSessionRequest) : ScheduleMode :=
  match rq_schedule_hint r with FanOut _ => ModeReplicate | Stripe _ => ModeStripe | Auto | SinglePath => ModeOrdered end.

(** The path of a session: exit, local and remote endpoint and round-trip time; the other
    fields of its measurement and its state are constants. *)
Record BusPathInfo := mkPath { path_exit : string; path_local : Endpoint; path_remote : Endpoint; path_rtt_ms : Z }.

Record BusSessionInfo := mkInfo {
  info_session_id : string;
  info_flow_id : string;
  info_schedule_mode : ScheduleMode;
  info_paths : list BusPathInfo;
  info_primary : nat
}.

Definition session_info_for (hash : string -> string -> Z -> Z) (sid : string) (r : BusSessionRequest) : BusSessionInfo :=
  mkInfo sid (mint_for hash sid (rq_target r)) (schedule_mode_for r) [] 0.

(** [SendError] *)
Inductive DatagramError := DgBufferFull | DgAddressNotSupported | DgPayloadTooLarge | DgClosed.

(** ** The world of a session *)

(** What a failing system call says. *)
Inductive IoKind := IoRefused | IoTimedOut | IoNotConnected | IoReset | IoBrokenPipe | IoUnexpectedEof | IoOther (s : string).

Class SessionWorld (W Tr : Type) := {
  (** the channel to the dispatcher: [false] if it is closed *)
  submit : BusFrame -> W -> bool * W;
  (** the returns: [None] if their channel is closed and empty *)
  recv_return : W -> option ReturnEvent * W;
  (** [remove] of the tables shared with the dispatcher *)
  take_stream : string -> W -> option (@ForwarderStreamState Tr) * W;
  take_datagram : string -> W -> option (@ForwarderDatagramState Tr) * W;
  probe_insert : string -> W -> W;
  probe_remove : string -> W -> W;
  (** the answer to a probe: [None] if its sender is gone *)
  probe_wait : W -> option ProbeOutcome * W;
  (** an egress's halves *)
  tr_send : Tr -> list Z -> W -> result unit DisconnectReason * W;
  tr_shutdown : Tr -> W -> W;
  tr_abort : Tr -> DisconnectReason -> W -> W;
  tr_recv : Tr -> W -> option (list Z) * W;
  tr_last_error : Tr -> W -> option DisconnectReason;
  tr_send_to : Tr -> Endpoint -> list Z -> W -> result unit DatagramError * W;
  tr_recv_from : Tr -> W -> option (Endpoint * list Z) * W;
  tr_close : Tr -> W -> W;
  (** a spliced socket's two halves, if the runtime takes it, and their calls *)
  splice_halves : Tr -> W -> option (Tr * Tr) * W;
  io_write : Tr -> list Z -> W -> result unit IoKind * W;
  io_read : Tr -> W -> result (list Z) IoKind * W;
  (** the counters and the close guard a flow shares *)
  count : nat -> Direction -> Z -> W -> W;
  close_once : nat -> CloseReason -> W -> W
}.

Section Sessions.
Context {W Tr : Type} `{!SessionWorld W Tr} (hash : string -> string -> Z -> Z).

Definition u64_succ_sat (n : Z) : Z := Z.min (n + 1) (2 ^ 64 - 1).

(** ** Stream sessions *)

Record StreamSession := mkStreamSession {
  st_id : string;
  st_request : BusSessionRequest;
  st_info : BusSessionInfo;
  st_last_error : option DisconnectReason;
  st_pending : list (list Z);
  st_forwarder : option (@ForwarderStreamState Tr);
  st_seq : Z
}.

Definition stream_session_new (sid : string) (r : BusSessionRequest) (i : BusSessionInfo) : StreamSession :=
  mkStreamSession sid r i None [] None 0.

Definition record_connected_path (exit_id : string) (local : option Endpoint) (rtt : Z) (r : BusSessionRequest) (i : BusSessionInfo) :
    BusSessionInfo :=
  match local with
  | None => i
  | Some e => mkInfo (info_session_id i) (info_flow_id i) (info_schedule_mode i) [mkPath exit_id e (rq_target r) rtt] 0
  end.

(** The session after a connect that succeeded or failed. *)
Definition connect (s : StreamSession) (w : W) : result BusSessionInfo DisconnectReason * StreamSession * W :=
  let fail reason s w := (Err reason, mkStreamSession (st_id s) (st_request s) (st_info s) (Some reason) (st_pending s) (st_forwarder s) (st_seq s), w) in
  match submit (apply_request (frame_open hash (st_id s) (rq_target (st_request s))) (st_request s)) w with
  | (false, w) => (Err DSessionClosed, s, w)
  | (true, w) =>
      match recv_return w with
      | (Some (Connected e local rtt), w) =>
          let '(fwd, w) := take_stream (st_id s) w in
          let i := record_connected_path e local rtt (st_request s) (st_info s) in
          (Ok i, mkStreamSession (st_id s) (st_request s) i (st_last_error s) (st_pending s) fwd (st_seq s), w)
      | (Some Idle, w) => (Ok (st_info s), s, w)
      | (Some (Data _ p), w) =>
          (Ok (st_info s), mkStreamSession (st_id s) (st_request s) (st_info s) (st_last_error s) (st_pending s ++ [p]) (st_forwarder s) (st_seq s), w)
      | (Some (Closed reason), w) => fail (convert_close_reason reason) s w
      | (None, w) => fail DReaderClosed s w
      end
  end.

(** [abort] before the session is split. *)
Definition session_abort (reason : DisconnectReason) (s : StreamSession) (w : W) : StreamSession * W :=
  (mkStreamSession (st_id s) (st_request s) (st_info s) (Some reason) (st_pending s) (st_forwarder s) (st_seq s),
   (submit (apply_request (frame_close hash (st_id s) (st_seq s) (rq_target (st_request s))) (st_request s)) w).2).

(** The halves: over the dispatcher, over an egress's own, or over a spliced socket.  The
    references are the flow's counters and close guard. *)
Record FrameSend := mkFrameSend { fs_id : string; fs_request : BusSessionRequest; fs_seq : Z }.
Record FrameRecv := mkFrameRecv { fr_pending : list (list Z); fr_last_error : option DisconnectReason }.

Inductive BusSendHalf := SendFrames (s : FrameSend) | SendDirect (t : Tr) (counters close : nat) | SendSocket (t : Tr) (acct : nat * nat).
Inductive BusRecvHalf := RecvFrames (r : FrameRecv) | RecvDirect (t : Tr) (counters close : nat)
| RecvSocket (t : Tr) (acct : nat * nat) (last : option DisconnectReason).

Definition frame_halves (s : StreamSession) : BusSendHalf * BusRecvHalf :=
  (SendFrames (mkFrameSend (st_id s) (st_request s) (st_seq s)), RecvFrames (mkFrameRecv (st_pending s) (st_last_error s))).

Definition split_session (s : StreamSession) (w : W) : BusSendHalf * BusRecvHalf * W :=
  match st_forwarder s with
  | Some f =>
      match ss_transport f with
      | Halves snd rcv => (SendDirect snd (ss_counters f) (ss_close f), RecvDirect rcv (ss_counters f) (ss_close f), w)
      | TcpSplice sp =>
          match splice_halves sp w with
          | (Some (wr, rd), w) => (SendSocket wr (ss_counters f, ss_close f), RecvSocket rd (ss_counters f, ss_close f) None, w)
          | (None, w) => (frame_halves s, w)
          end
      end
  | None => (frame_halves s, w)
  end.

Definition into_tcp_splice (s : StreamSession) : result Tr StreamSession :=
  match st_forwarder s with
  | Some f => match ss_transport f with TcpSplice sp => Ok sp | Halves _ _ => Err s end
  | None => Err s
  end.

Definition disconnect_reason_from_io (k : IoKind) : DisconnectReason :=
  match k with
  | IoRefused => DConnectionRefused | IoTimedOut => DTimedOut | IoNotConnected => DNotConnected
  | IoReset | IoBrokenPipe => DConnectionReset | IoUnexpectedEof => DUpstreamEof | IoOther s => DOther s
  end.

Definition frame_send (f : BusFrame) (r : BusSessionRequest) (w : W) : bool * W := submit (apply_request f r) w.

Definition half_send (h : BusSendHalf) (p : list Z) (w : W) : result unit DisconnectReason * BusSendHalf * W :=
  match h with
  | SendFrames s =>
      let '(ok, w) := frame_send (frame_data hash (fs_id s) (fs_seq s) (rq_target (fs_request s)) p) (fs_request s) w in
      (if ok then Ok tt else Err DSessionClosed, SendFrames (mkFrameSend (fs_id s) (fs_request s) (u64_succ_sat (fs_seq s))), w)
  | SendDirect t c cl =>
      match tr_send t p w with
      | (Err e, w) => (Err e, h, w)
      | (Ok _, w) => (Ok tt, h, count c Up (Z.of_nat (length p)) w)
      end
  | SendSocket t a =>
      match io_write t p w with
      | (Err k, w) => (Err (disconnect_reason_from_io k), h, w)
      | (Ok _, w) => (Ok tt, h, count a.1 Up (Z.of_nat (length p)) w)
      end
  end.

Definition half_shutdown (h : BusSendHalf) (w : W) : W :=
  match h with
  | SendFrames s => (frame_send (frame_shutdown_write hash (fs_id s) (fs_seq s) (rq_target (fs_request s))) (fs_request s) w).2
  | SendDirect t _ _ | SendSocket t _ => tr_shutdown t w
  end.

Definition half_abort (h : BusSendHalf) (reason : DisconnectReason) (w : W) : W :=
  match h with
  | SendFrames s => (frame_send (frame_close hash (fs_id s) (fs_seq s) (rq_target (fs_request s))) (fs_request s) w).2
  | SendDirect t _ cl => close_once cl (close_from_disconnect reason) (tr_abort t reason w)
  | SendSocket t a => close_once a.2 (close_from_disconnect reason) w
  end.

(** The loop over the returns; [None] is the end of the fuel. *)
Fixpoint recv_frames (fuel : nat) (r : FrameRecv) (w : W) : option (option (list Z) * FrameRecv * W) :=
  match fr_pending r with
  | p :: rest => Some (Some p, mkFrameRecv rest (fr_last_error r), w)
  | [] =>
      match fuel with
      | O => None
      | S fuel =>
          match recv_return w with
          | (Some (Connected _ _ _), w) | (Some Idle, w) => recv_frames fuel r w
          | (Some (Data _ p), w) => Some (Some p, r, w)
          | (Some (Closed reason), w) => Some (None, mkFrameRecv [] (Some (convert_close_reason reason)), w)
          | (None, w) => Some (None, mkFrameRecv [] (Some DReaderClosed), w)
          end
      end
  end.

Definition half_recv (fuel : nat) (h : BusRecvHalf) (w : W) : option (option (list Z) * BusRecvHalf * W) :=
  match h with
  | RecvFrames r => (fun '(p, r, w) => (p, RecvFrames r, w)) <$> recv_frames fuel r w
  | RecvDirect t c cl =>
      match tr_recv t w with
      | (Some p, w) => Some (Some p, h, count c Down (Z.of_nat (length p)) w)
      | (None, w) => Some (None, h, close_once cl (close_from_disconnect (default DUpstreamEof (tr_last_error t w))) w)
      end
  | RecvSocket t a last =>
      match io_read t w with
      | (Ok [], w) => Some (None, RecvSocket t a (Some DUpstreamEof), close_once a.2 UpstreamEof w)
      | (Ok p, w) => Some (Some p, h, count a.1 Down (Z.of_nat (length p)) w)
      | (Err k, w) =>
          let reason := disconnect_reason_from_io k in
          Some (None, RecvSocket t a (Some reason), close_once a.2 (close_from_disconnect reason) w)
      end
  end.

(** ** Datagram sessions (datagram_halves.rs) *)

(** [DatagramShared]: what the two halves of a session share. *)
Record DatagramShared := mkDgShared {
  pending_sources : gmap Z Endpoint;
  dg_request : BusSessionRequest;
  dg_max_payload : Z
}.

Record DatagramSession := mkDatagramSession {
  dg_id : string;
  dg_info : BusSessionInfo;
  dg_seq : Z;
  dg_shared : DatagramShared;
  dg_forwarder : option (@ForwarderDatagramState Tr);
  probe_done : bool
}.

Definition datagram_session_new (sid : string) (r : BusSessionRequest) (i : BusSessionInfo) (max : Z) : DatagramSession :=
  mkDatagramSession sid i 0 (mkDgShared ∅ r max) None false.

(** [datagram_send]: the path over the dispatcher. *)
Definition datagram_send (sid : string) (sq : Z) (sh : DatagramShared) (t : Endpoint) (p : list Z) (w : W) :
    result unit DatagramError * Z * DatagramShared * W :=
  if dg_max_payload sh <? Z.of_nat (length p) then (Err DgPayloadTooLarge, sq, sh, w)
  else
    let sh' := mkDgShared (<[sq := t]> (pending_sources sh)) (dg_request sh) (dg_max_payload sh) in
    let '(ok, w) := submit (apply_request (frame_datagram hash sid sq t p) (dg_request sh)) w in
    (if ok then Ok tt else Err DgClosed, u64_succ_sat sq, sh', w).

(** A send on the forwarder's half, counted. *)
Definition forwarder_send_to (f : @ForwarderDatagramState Tr) (t : Endpoint) (p : list Z) (w : W) : result unit DatagramError * W :=
  match tr_send_to (ds_transport f).1 t p w with
  | (Ok _, w) => (Ok tt, count (ds_counters f) Up (Z.of_nat (length p)) w)
  | (Err e, w) => (Err e, w)
  end.

Definition set_datagram (d : DatagramSession) (sq : Z) (sh : DatagramShared) (f : option (@ForwarderDatagramState Tr)) (done : bool) :
    DatagramSession :=
  mkDatagramSession (dg_id d) (dg_info d) sq sh f done.

(** The rest of a send: over the dispatcher. *)
Definition route_datagram (d : DatagramSession) (t : Endpoint) (p : list Z) (w : W) : result unit DatagramError * DatagramSession * W :=
  let '(r, sq, sh, w) := datagram_send (dg_id d) (dg_seq d) (dg_shared d) t p w in
  (r, set_datagram d sq sh (dg_forwarder d) (probe_done d), w).

Definition may_probe (d : DatagramSession) (t : Endpoint) : bool :=
  negb (probe_done d) && bool_decide (t = rq_target (dg_request (dg_shared d)))
  && match rq_schedule_hint (dg_request (dg_shared d)) with FanOut _ => false | _ => true end.

(** The probe of the first send to the request's target; its guard takes the probe's
    entry away unless the forwarder was used. *)
Definition probe_send (d : DatagramSession) (t : Endpoint) (p : list Z) (w : W) : result unit DatagramError * DatagramSession * W :=
  let d := set_datagram d (dg_seq d) (dg_shared d) (dg_forwarder d) true in
  let w := probe_insert (dg_id d) w in
  match submit (apply_request (frame_open hash (dg_id d) t) (dg_request (dg_shared d))) w with
  | (false, w) => (Err DgClosed, d, probe_remove (dg_id d) w)
  | (true, w) =>
      match probe_wait w with
      | (Some Handled, w) =>
          match take_datagram (dg_id d) w with
          | (Some f, w) =>
              let d := set_datagram d (dg_seq d) (dg_shared d) (Some f) true in
              let '(r, w) := forwarder_send_to f t p w in (r, d, w)
          | (None, w) => route_datagram d t p (probe_remove (dg_id d) w)
          end
      | (Some (Failed _), w) => (Err DgClosed, d, probe_remove (dg_id d) w)
      | (Some Fallback, w) | (None, w) => route_datagram d t p (probe_remove (dg_id d) w)
      end
  end.

Definition session_send_datagram (d : DatagramSession) (t : Endpoint) (p : list Z) (w : W) : result unit DatagramError * DatagramSession * W :=
  match dg_forwarder d with
  | Some f =>
      if negb (bool_decide (t = fixed_target f)) then (Err DgAddressNotSupported, d, w)
      else let '(r, w) := forwarder_send_to f t p w in (r, d, w)
  | None =>
      if may_probe d t then probe_send d t p w
      else route_datagram (set_datagram d (dg_seq d) (dg_shared d) (dg_forwarder d) true) t p w
  end.

(** Where the answer to a sequence number came from: the target of that send, once. *)
Definition source_of (sq : Z) (sh : DatagramShared) : Endpoint * DatagramShared :=
  (default (rq_target (dg_request sh)) (pending_sources sh !! sq),
   mkDgShared (delete sq (pending_sources sh)) (dg_request sh) (dg_max_payload sh)).

(** The loop over the returns; the error of the receiving half is the last component. *)
Fixpoint recv_datagrams (fuel : nat) (sh : DatagramShared) (w : W) :
    option (option (Endpoint * list Z) * DatagramShared * option DisconnectReason * W) :=
  match fuel with
  | O => None
  | S fuel =>
      match recv_return w with
      | (Some (Data sq p), w) => let '(src, sh) := source_of sq sh in Some (Some (src, p), sh, None, w)
      | (Some (Connected _ _ _), w) | (Some Idle, w) => recv_datagrams fuel sh w
      | (Some (Closed reason), w) => Some (None, sh, Some (convert_close_reason reason), w)
      | (None, w) => Some (None, sh, Some DReaderClosed, w)
      end
  end.

Definition forwarder_recv_from (f : @ForwarderDatagramState Tr) (w : W) : option (Endpoint * list Z) * W :=
  match tr_recv_from (ds_transport f).2 w with
  | (Some (src, p), w) => (Some (src, p), count (ds_counters f) Down (Z.of_nat (length p)) w)
  | (None, w) => (None, w)
  end.

Definition session_recv_datagram (fuel : nat) (d : DatagramSession) (w : W) : option (option (Endpoint * list Z) * DatagramSession * W) :=
  match dg_forwarder d with
  | Some f => let '(r, w) := forwarder_recv_from f w in Some (r, d, w)
  | None =>
      match recv_datagrams fuel (dg_shared d) w with
      | None => None
      | Some (r, sh, _, w) => Some (r, set_datagram d (dg_seq d) sh (dg_forwarder d) (probe_done d), w)
      end
  end.

Definition datagram_close (d : DatagramSession) (w : W) : DatagramSession * W :=
  match dg_forwarder d with
  | Some f =>
      (set_datagram d (dg_seq d) (dg_shared d) None (probe_done d),
       (take_datagram (dg_id d) (close_once (ds_close f) SessionClosed (tr_close (ds_transport f).1 w))).2)
  | None =>
      let r := dg_request (dg_shared d) in
      (d, (submit (apply_request (frame_close hash (dg_id d) (dg_seq d) (rq_target r)) r) w).2)
  end.

(** *** The halves *)

Inductive DgSendHalf := DgSendFrames (sid : string) (sq : Z) | DgSendDirect (f : @ForwarderDatagramState Tr).
Inductive DgRecvHalf := DgRecvFrames (last : option DisconnectReason) | DgRecvDirect (f : @ForwarderDatagramState Tr).

(** The shared part stays behind both halves. *)
Definition split_datagram (d : DatagramSession) : DgSendHalf * DgRecvHalf * DatagramShared :=
  match dg_forwarder d with
  | Some f => (DgSendDirect f, DgRecvDirect f, dg_shared d)
  | None => (DgSendFrames (dg_id d) (dg_seq d), DgRecvFrames None, dg_shared d)
  end.

Definition dg_half_send (h : DgSendHalf) (sh : DatagramShared) (t : Endpoint) (p : list Z) (w : W) :
    result unit DatagramError * DgSendHalf * DatagramShared * W :=
  match h with
  | DgSendFrames sid sq =>
      let '(r, sq, sh, w) := datagram_send sid sq sh t p w in (r, DgSendFrames sid sq, sh, w)
  | DgSendDirect f =>
      if negb (bool_decide (t = fixed_target f)) then (Err DgAddressNotSupported, h, sh, w)
      else let '(r, w) := forwarder_send_to f t p w in (r, h, sh, w)
  end.

Definition dg_half_close (h : DgSendHalf) (sh : DatagramShared) (w : W) : W :=
  match h with
  | DgSendFrames sid sq => (submit (apply_request (frame_close hash sid sq (rq_target (dg_request sh))) (dg_request sh)) w).2
  | DgSendDirect f => close_once (ds_close f) SessionClosed (tr_close (ds_transport f).1 w)
  end.

Definition dg_half_recv (fuel : nat) (h : DgRecvHalf) (sh : DatagramShared) (w : W) :
    option (option (Endpoint * list Z) * DgRecvHalf * DatagramShared * W) :=
  match h with
  | DgRecvFrames last =>
      match recv_datagrams fuel sh w with
      | None => None
      | Some (r, sh, e, w) => Some (r, DgRecvFrames (match e with Some e => Some e | None => last end), sh, w)
      end
  | DgRecvDirect f =>
      match forwarder_recv_from f w with
      | (Some x, w) => Some (Some x, h, sh, w)
      | (None, w) =>
          let reason := match tr_last_error (ds_transport f).2 w with Some e => close_from_disconnect e | None => ReaderClosed end in
          Some (None, h, sh, close_once (ds_close f) reason w)
      end
  end.

(** ** The port (kernel/port.rs) *)

Record BusPort := mkPort { next_session_id : Z; port_stream : bool; port_datagram : bool }.

Definition MAX_DATAGRAM_PAYLOAD : Z := 65507.

(** [open_session]: the id of the next session. *)
Definition open_session (p : BusPort) : string * BusPort :=
  ("s-" +:+ dec_show (next_session_id p), mkPort (as_u64 (next_session_id p + 1)) (port_stream p) (port_datagram p)).

Definition bus_open_stream (r : BusSessionRequest) (p : BusPort) : result StreamSession DisconnectReason * BusPort :=
  match validate_stream_request r with
  | Err e => (Err e, p)
  | Ok _ => let '(sid, p) := open_session p in (Ok (stream_session_new sid r (session_info_for hash sid r)), p)
  end.

Definition bus_open_datagram (r : BusSessionRequest) (p : BusPort) : result DatagramSession DisconnectReason * BusPort :=
  match validate_datagram_request r with
  | Err e => (Err e, p)
  | Ok _ =>
      if negb (port_datagram p) then (Err DHostUnreachable, p)
      else let '(sid, p) := open_session p in
           (Ok (datagram_session_new sid r (session_info_for hash sid r) MAX_DATAGRAM_PAYLOAD), p)
  end.
End Sessions.

(** ** Splicing (lib/mb-splice/src/lib.rs)

    A session that gives up its socket is relayed by the kernel: one blocking thread per
    direction moves bytes with splice(2) from the source into a pipe and from the pipe to
    the destination.  A step of a thread is one system call, so that the calls of the two
    threads interleave. *)

Definition SPLICE_CHUNK_BYTES : nat := 64 * 1024.

(** What splice(2) says: a number of bytes, zero at the end of the source; [Interrupted]
    is EINTR. *)
Inductive SpliceAnswer := Moved (n : nat) | Interrupted | SpliceFails (e : string).

Class SpliceSys (W : Type) := {
  (** [into_std], [set_nonblocking] and [try_clone] of the two sockets, and [pipe2] *)
  prepare_sockets : W -> option string * W;
  pipe_new : Direction -> W -> option string * W;
  (** splice(2) of a direction's source into its pipe, and of its pipe to its destination *)
  splice_in : Direction -> nat -> W -> SpliceAnswer * W;
  splice_out : Direction -> nat -> W -> SpliceAnswer * W;
  (** [dst.shutdown(Shutdown::Write)] *)
  shutdown_dst : Direction -> W -> W;
  (** the accounting of the session *)
  splice_bytes : Direction -> Z -> W -> W;
  splice_closed : CloseReason -> W -> W
}.

Section Splicing.
Context {W : Type} `{!SpliceSys W}.

(** Where a thread is: [Draining total n remaining] in the inner loop. *)
Inductive SpliceThread :=
| Opening
| Filling (total : Z)
| Draining (total : Z) (n remaining : nat)
| Ended (r : result Z string).

(** [accounting] is whether the session has one; an interrupted call is made again. *)
Definition splice_step (accounting : bool) (d : Direction) (t : SpliceThread) (w : W) : SpliceThread * W :=
  match t with
  | Opening =>
      match pipe_new d w with
      | (Some e, w) => (Ended (Err e), w)
      | (None, w) => (Filling 0, w)
      end
  | Filling total =>
      match splice_in d SPLICE_CHUNK_BYTES w with
      | (Interrupted, w) => (Filling total, w)
      | (SpliceFails e, w) => (Ended (Err e), w)
      | (Moved O, w) => (Ended (Ok total), shutdown_dst d w)
      | (Moved n, w) => (Draining total n n, w)
      end
  | Draining total n remaining =>
      match splice_out d remaining w with
      | (Interrupted, w) => (Draining total n remaining, w)
      | (SpliceFails e, w) => (Ended (Err e), w)
      | (Moved O, w) => (Ended (Ok total), shutdown_dst d w)
      | (Moved written, w) =>
          let remaining := (remaining - written)%nat in
          if (0 <? remaining)%nat then (Draining total n remaining, w)
          else (Filling (as_u64 (total + Z.of_nat n)), if accounting then splice_bytes d (Z.of_nat n) w else w)
      end
  | Ended r => (Ended r, w)
  end.

Record SpliceStats := mkSpliceStats { bytes_up : Z; bytes_down : Z }.

(** The two threads, in any order of their calls. *)
Record Splice := mkSplice { sp_up : SpliceThread; sp_down : SpliceThread; sp_world : W }.

Definition splice_turn (accounting : bool) (s : Splice) (d : Direction) : Splice :=
  match d with
  | Up => let '(t, w) := splice_step accounting Up (sp_up s) (sp_world s) in mkSplice t (sp_down s) w
  | Down => let '(t, w) := splice_step accounting Down (sp_down s) (sp_world s) in mkSplice (sp_up s) t w
  end.

Definition splice_run (accounting : bool) (sched : list Direction) (s : Splice) : Splice :=
  foldl (splice_turn accounting) s sched.

(** [splice_tcp_streams] under a schedule; [None] while a thread is not at its end. *)
Definition splice_tcp_streams (accounting : bool) (sched : list Direction) (w : W) : option (result SpliceStats string * W) :=
  match prepare_sockets w with
  | (Some e, w) => Some (Err e, w)
  | (None, w) =>
      let s := splice_run accounting sched (mkSplice Opening Opening w) in
      match sp_up s, sp_down s with
      | Ended up, Ended down =>
          Some (match up, down with
                | Ok a, Ok b => Ok (mkSpliceStats a b)
                | Err e, _ | _, Err e => Err e
                end,
                if accounting then splice_closed UpstreamEof (sp_world s) else sp_world s)
      | _, _ => None
      end
  end.
End Splicing.

(** [relay] of the TCP ingress (crates/mesh-bus-ingress-tcp/src/lib.rs): a session that
    gives up its socket is spliced, the halves of any other are joined. *)
Section TcpRelay.
Context {W Tr : Type} `{!SessionWorld W Tr, !SpliceSys W}.

Inductive TcpRelay := RelaySpliced (r : result SpliceStats string) | RelayJoined (out : list RelayOut).

Definition tcp_relay (accounting : bool) (sched : list Direction) (is_ : list RelayIn) (s : @StreamSession Tr) (w : W) :
    option (TcpRelay * W) :=
  match into_tcp_splice s with
  | Ok _ => (fun '(r, w) => (RelaySpliced r, w)) <$> splice_tcp_streams accounting sched w
  | Err s => let '(_, _, w) := split_session s w in Some (RelayJoined (relay_join is_ (mkRelay true true)), w)
  end.
End TcpRelay.

(** ** The bus (kernel/runtime.rs) *)

Inductive BusError := NoScheduler | NoEgress | DrainTimeout | InvalidObservationRegistry (errors : list RegError).

Section Bus.
Context {W Tr : Type}.

(** The parts of a registry that decide whether a bus is built. *)
Record Registry := mkRegistry {
  reg_egresses : list (@EgressPlugin W Tr);
  reg_observers : list ObserverDecl;
  reg_scheduler : option (@SchedulerPlugin W)
}.

(** [build], as far as its port and its candidates. *)
Definition build (reg : Registry) : result (BusPort * CompiledCandidates) BusError :=
  match reg_scheduler reg with
  | None => Err NoScheduler
  | Some _ =>
      match reg_egresses reg with
      | [] => Err NoEgress
      | egs =>
          match verify_observer_declarations (reg_observers reg) with
          | Err es => Err (InvalidObservationRegistry es)
          | Ok _ =>
              Ok (mkPort 1 (existsb (fun e => supports_stream (capabilities e)) egs)
                    (existsb (fun e => supports_datagram (capabilities e)) egs),
                  from_egresses ((fun e => (eg_id e, capabilities e)) <$> egs))
          end
      end
  end.

Record ExitSnapshot := mkExitSnapshot {
  es_exit_id : string; es_protocol : string; es_stream : bool; es_datagram : bool; es_stats : ExitRuntimeStats
}.

Record BusSnapshot := mkBusSnapshot {
  bs_exits : list ExitSnapshot;
  bs_metrics : MetricsSnapshot;
  bs_flows : list (string * FlowCounters)
}.

(** [collect_snapshot]; a flow's counters are read through its reference. *)
Definition collect_snapshot (egs : list (@EgressPlugin W Tr)) (stats : gmap string ExitRuntimeStats) (m : MetricsSnapshot)
    (flows : gmap string nat) (heap : list FlowCounters) : BusSnapshot :=
  mkBusSnapshot
    ((fun e => mkExitSnapshot (eg_id e) (DispatchTypes.protocol (capabilities e)) (supports_stream (capabilities e))
                 (supports_datagram (capabilities e)) (default stats_default (stats !! eg_id e))) <$> egs)
    m ((fun '(f, c) => (f, default counters_new (heap !! c))) <$> map_to_list flows).
End Bus.

(** *** Shutdown *)

(** The handle's task: it looks at the number of dispatches in flight, and if there are
    some, registers for the next notification and waits for it. *)
Inductive DrainPhase := Looking | SawSome | Waiting | Drained | TimedOutDrain.

Record Drain := mkDrain { in_flight : nat; accepting : bool; phase : DrainPhase }.

(** [DISPATCH_CONCURRENCY_LIMIT] *)
Definition DISPATCH_CONCURRENCY_LIMIT : nat := 512.

(** A dispatch begins only while the bus's loop runs; the last one to end notifies the
    handle, if it is registered.  With [timed], a wait may also run out. *)
Inductive drain_step (timed : bool) : Drain -> Drain -> Prop :=
| DispatchBegins n p :
    (n < DISPATCH_CONCURRENCY_LIMIT)%nat -> drain_step timed (mkDrain n true p) (mkDrain (S n) true p)
| DispatchEnds n a p :
    drain_step timed (mkDrain (S n) a p) (mkDrain n a (match n, p with O, Waiting => Looking | _, _ => p end))
| LoopStops n p : drain_step timed (mkDrain n true p) (mkDrain n false p)
| HandleLooks n a : drain_step timed (mkDrain n a Looking) (mkDrain n a (match n with O => Drained | S _ => SawSome end))
| HandleRegisters n a : drain_step timed (mkDrain n a SawSome) (mkDrain n a Waiting)
| HandleIsLate n a : timed = true -> drain_step timed (mkDrain n a SawSome) (mkDrain n a TimedOutDrain)
| HandleExpires n a : timed = true -> drain_step timed (mkDrain n a Waiting) (mkDrain n a TimedOutDrain).
