(* ===== verification/SessionFacts.v ===== *)
(** Theorems on sessions, the port, spliced sockets and the bus's shutdown ([Session]). *)
From S2P Require Import Prelude Numbers Endpoint Rules Ingress Observation DispatchTypes Dispatch Session.
Local Open Scope Z_scope.

(** ** Streams *)

(** *** A scripted world *)

(** The exit's two halves, and a socket that can be spliced. *)
Inductive Half := HSend | HRecv | HSocket.

(** What was done: the frames the dispatcher took, the pieces the exit took, how often its
    side was ended, the bytes counted and the closes noted. *)
Record Log := mkLog {
  lg_frames : list BusFrame;
  lg_exit : list (list Z);
  lg_shut : nat;
  lg_counts : list (nat * Direction * Z);
  lg_closes : list (nat * CloseReason)
}.

(** What the world will answer, whatever it may be: to submissions, as returns, with which
    forwarder in the table, whether a socket is taken, what the exit says to writes, and
    what it gives to read before which end. *)
Record Script := mkScript {
  sc_submits : list bool;
  sc_returns : list ReturnEvent;
  sc_streams : gmap string (@ForwarderStreamState Half);
  sc_socket : bool;
  sc_writes : list bool;
  sc_reads : list (list Z);
  sc_end : option IoKind;
  sc_log : Log
}.

(** The next answer, yes once the list is used up. *)
Definition answer (l : list bool) : bool * list bool := match l with [] => (true, []) | b :: l => (b, l) end.

Definition log_frame (f : BusFrame) (g : Log) : Log :=
  mkLog (lg_frames g ++ [f]) (lg_exit g) (lg_shut g) (lg_counts g) (lg_closes g).
Definition log_exit (p : list Z) (g : Log) : Log :=
  mkLog (lg_frames g) (lg_exit g ++ [p]) (lg_shut g) (lg_counts g) (lg_closes g).
Definition log_shut (g : Log) : Log := mkLog (lg_frames g) (lg_exit g) (S (lg_shut g)) (lg_counts g) (lg_closes g).
Definition log_count (n : nat) (d : Direction) (z : Z) (g : Log) : Log :=
  mkLog (lg_frames g) (lg_exit g) (lg_shut g) (lg_counts g ++ [(n, d, z)]) (lg_closes g).
Definition log_close (n : nat) (r : CloseReason) (g : Log) : Log :=
  mkLog (lg_frames g) (lg_exit g) (lg_shut g) (lg_counts g) (lg_closes g ++ [(n, r)]).
Definition on_log (f : Log -> Log) (c : Script) : Script :=
  mkScript (sc_submits c) (sc_returns c) (sc_streams c) (sc_socket c) (sc_writes c) (sc_reads c) (sc_end c) (f (sc_log c)).

Definition sc_submit (f : BusFrame) (c : Script) : bool * Script :=
  let '(ok, l) := answer (sc_submits c) in
  (ok, mkScript l (sc_returns c) (sc_streams c) (sc_socket c) (sc_writes c) (sc_reads c) (sc_end c)
         (if ok then log_frame f (sc_log c) else sc_log c)).
Definition sc_recv (c : Script) : option ReturnEvent * Script :=
  match sc_returns c with
  | [] => (None, c)
  | e :: l => (Some e, mkScript (sc_submits c) l (sc_streams c) (sc_socket c) (sc_writes c) (sc_reads c) (sc_end c) (sc_log c))
  end.
Definition sc_take (sid : string) (c : Script) : option (@ForwarderStreamState Half) * Script :=
  (sc_streams c !! sid,
   mkScript (sc_submits c) (sc_returns c) (delete sid (sc_streams c)) (sc_socket c) (sc_writes c) (sc_reads c) (sc_end c) (sc_log c)).
Definition sc_write (p : list Z) (c : Script) : bool * Script :=
  let '(ok, l) := answer (sc_writes c) in
  (ok, mkScript (sc_submits c) (sc_returns c) (sc_streams c) (sc_socket c) l (sc_reads c) (sc_end c)
         (if ok then log_exit p (sc_log c) else sc_log c)).
Definition sc_read (c : Script) : option (list Z) * Script :=
  match sc_reads c with
  | [] => (None, c)
  | p :: l => (Some p, mkScript (sc_submits c) (sc_returns c) (sc_streams c) (sc_socket c) (sc_writes c) l (sc_end c) (sc_log c))
  end.

(** Only the sending half takes bytes, only the receiving one gives them. *)
#[export] Instance script_world : SessionWorld Script Half := {|
  submit := sc_submit;
  recv_return := sc_recv;
  take_stream := sc_take;
  take_datagram _ c := (None, c);
  probe_insert _ c := c;
  probe_remove _ c := c;
  probe_wait c := (None, c);
  tr_send t p c := match t with HSend => let '(ok, c) := sc_write p c in (if ok then Ok tt else Err DConnectionReset, c)
                   | _ => (Err DNotConnected, c) end;
  tr_shutdown t c := match t with HSend => on_log log_shut c | _ => c end;
  tr_abort _ _ c := c;
  tr_recv t c := match t with HRecv => sc_read c | _ => (None, c) end;
  tr_last_error _ c := disconnect_reason_from_io <$> sc_end c;
  tr_send_to _ _ _ c := (Err DgClosed, c);
  tr_recv_from _ c := (None, c);
  tr_close _ c := c;
  splice_halves t c := (match t with HSocket => if sc_socket c then Some (HSend, HRecv) else None | _ => None end, c);
  io_write t p c := match t with HSend => let '(ok, c) := sc_write p c in (if ok then Ok tt else Err IoReset, c)
                    | _ => (Err IoNotConnected, c) end;
  io_read t c := match t with
                 | HRecv => match sc_read c with
                            | (Some p, c) => (Ok p, c)
                            | (None, c) => (match sc_end c with None => Ok [] | Some k => Err k end, c)
                            end
                 | _ => (Err IoNotConnected, c)
                 end;
  count n d z c := on_log (log_count n d z) c;
  close_once n r c := on_log (log_close n r) c
|}.

(** *** What a session should do *)

Section Streams.
Context (hash : string -> string -> Z -> Z).

(** Every piece offered to the sending half, one after the other, with the results. *)
Fixpoint send_each (h : @BusSendHalf Half) (ps : list (list Z)) (c : Script) :
    list (result unit DisconnectReason) * @BusSendHalf Half * Script :=
  match ps with
  | [] => ([], h, c)
  | p :: ps =>
      let '(r, h, c) := half_send hash h p c in
      let '(rs, h, c) := send_each h ps c in (r :: rs, h, c)
  end.

(** Everything that can be received, to the end. *)
Fixpoint recv_all (fuel : nat) (h : @BusRecvHalf Half) (c : Script) : option (list (list Z) * @BusRecvHalf Half * Script) :=
  match fuel with
  | O => None
  | S fuel =>
      match half_recv fuel h c with
      | None => None
      | Some (None, h, c) => Some ([], h, c)
      | Some (Some p, h, c) => (fun '(l, h, c) => (p :: l, h, c)) <$> recv_all fuel h c
      end
  end.

(** The payloads among the returns, up to a close, and the reason of the end. *)
Fixpoint payloads (l : list ReturnEvent) : list (list Z) :=
  match l with
  | Data _ p :: l => p :: payloads l
  | Closed _ :: _ | [] => []
  | _ :: l => payloads l
  end.
Fixpoint end_reason (l : list ReturnEvent) : DisconnectReason :=
  match l with [] => DReaderClosed | Closed r :: _ => convert_close_reason r | _ :: l => end_reason l end.

(** The results of the offers, the pieces taken, and with their numbers as frames. *)
Fixpoint verdicts (e : DisconnectReason) (l : list bool) (ps : list (list Z)) : list (result unit DisconnectReason) :=
  match ps with [] => [] | _ :: ps => (if (answer l).1 then Ok tt else Err e) :: verdicts e (answer l).2 ps end.
Fixpoint taken (l : list bool) (ps : list (list Z)) : list (list Z) :=
  match ps with [] => [] | p :: ps => (if (answer l).1 then [p] else []) ++ taken (answer l).2 ps end.
Fixpoint taken_frames (l : list bool) (sq : Z) (ps : list (list Z)) : list (FrameKind * Z * list Z) :=
  match ps with
  | [] => []
  | p :: ps => (if (answer l).1 then [(KData, sq, p)] else []) ++ taken_frames (answer l).2 (sq + 1) ps
  end.

(** What varies between a session's frames, and what they all say: the session, the
    target, and the request's class, policy, deadline, hint, semantics, keys, group and
    sink. *)
Definition frame_view (f : BusFrame) : FrameKind * Z * list Z := (kind f, f_seq f, payload f).

Definition of_session (q : BusSessionRequest) (sid : string) (f : BusFrame) : Prop :=
  session_id f = sid /\ flow_id f = mint_for hash sid (rq_target q) /\ target f = rq_target q
  /\ packet_id f = f_seq f /\ ttl f = 8 /\ path_trace f = []
  /\ traffic_class f = rq_traffic_class q /\ policy_ref f = rq_policy_ref q /\ deadline_ms f = rq_deadline_ms q
  /\ schedule_hint f = rq_schedule_hint q /\ flow_semantics f = rq_flow_semantics q
  /\ return_semantics f = rq_return_semantics q /\ source_key f = rq_source_key q /\ target_key f = rq_target_key q
  /\ route_group f = rq_route_group q /\ target_sink f = rq_target_sink q.

(** The exit's own transport, if the dispatcher left one when it confirmed the connection,
    with its counters and close guard; a socket the runtime does not take is none. *)
Definition wired (f : @ForwarderStreamState Half) : Prop :=
  ss_transport f = Halves HSend HRecv \/ ss_transport f = TcpSplice HSocket.

Definition carrier (sid : string) (first : ReturnEvent) (c : Script) : option (nat * nat) :=
  match first, sc_streams c !! sid with
  | Connected _ _ _, Some f =>
      match ss_transport f with
      | TcpSplice _ => if sc_socket c then Some (ss_counters f, ss_close f) else None
      | Halves _ _ => Some (ss_counters f, ss_close f)
      end
  | _, _ => None
  end.

(** *** Over the dispatcher *)

Lemma send_each_frames sid q ps : forall sq c,
  0 <= sq -> sq + Z.of_nat (length ps) < 2 ^ 64 ->
  exists fs c', send_each (SendFrames (mkFrameSend sid q sq)) ps c
      = (verdicts DSessionClosed (sc_submits c) ps, SendFrames (mkFrameSend sid q (sq + Z.of_nat (length ps))), c')
    /\ Forall (of_session q sid) fs /\ frame_view <$> fs = taken_frames (sc_submits c) sq ps
    /\ sc_submits c' = drop (length ps) (sc_submits c) /\ sc_returns c' = sc_returns c
    /\ lg_frames (sc_log c') = lg_frames (sc_log c) ++ fs /\ lg_exit (sc_log c') = lg_exit (sc_log c).
Proof.
  induction ps as [|p ps IH]; intros sq c H0 Hs; cbn [send_each verdicts taken_frames length].
  - exists [], c. rewrite Z.add_0_r, drop_0, app_nil_r. split_and!; done.
  - cbn [length] in Hs. unfold half_send, frame_send. cbn [fs_id fs_request fs_seq submit script_world]. unfold sc_submit.
    destruct (answer (sc_submits c)) as [ok l] eqn:Ea. cbn [fst snd].
    assert (u64_succ_sat sq = sq + 1) as -> by (unfold u64_succ_sat; lia).
    set (f := apply_request _ q). set (c1 := mkScript l _ _ _ _ _ _ _).
    destruct (IH (sq + 1) c1) as (fs & c' & E & Hof & Hv & Hd & Hr & Hfr & Hex); [lia|lia|]. rewrite E.
    exists ((if ok then [f] else []) ++ fs), c'. subst c1. cbn [sc_submits sc_returns sc_log] in *.
    assert (sq + 1 + Z.of_nat (length ps) = sq + Z.of_nat (S (length ps))) as -> by lia.
    assert (Hdrop : drop (length ps) l = drop (S (length ps)) (sc_submits c)).
    { destruct (sc_submits c); injection Ea as <- <-; [by rewrite !drop_nil|done]. }
    split_and!; [done| | |congruence|done| |].
    + apply Forall_app. split; [|done]. destruct ok; [|done]. apply Forall_singleton. by split_and!.
    + rewrite fmap_app, Hv. by destruct ok.
    + rewrite Hfr. destruct ok; [by rewrite app_assoc|done].
    + rewrite Hex. by destruct ok.
Qed.

(** The next payload among the returns and what follows it. *)
Fixpoint next_data (l : list ReturnEvent) : option (list Z * list ReturnEvent) :=
  match l with
  | Data _ p :: l => Some (p, l)
  | Closed _ :: _ | [] => None
  | _ :: l => next_data l
  end.

Lemma next_data_spec l :
  match next_data l with
  | Some (p, l') => payloads l = p :: payloads l' /\ end_reason l = end_reason l' /\ (length l' < length l)%nat
  | None => payloads l = []
  end.
Proof.
  induction l as [|[e lo r|sq p| |r] l IH]; cbn [next_data payloads end_reason]; try done.
  - destruct (next_data l) as [[p l']|]; [|done]. destruct IH as (H1 & H2 & H3). split_and!; [done|done|simpl; lia].
  - split_and!; [done|done|simpl; lia].
  - destruct (next_data l) as [[p l']|]; [|done]. destruct IH as (H1 & H2 & H3). split_and!; [done|done|simpl; lia].
Qed.

Lemma recv_frames_next err fuel : forall c, (length (sc_returns c) < fuel)%nat ->
  exists c', recv_frames fuel (mkFrameRecv [] err) c = Some (match next_data (sc_returns c) with
      | Some (p, _) => (Some p, mkFrameRecv [] err, c')
      | None => (None, mkFrameRecv [] (Some (end_reason (sc_returns c))), c')
      end)
    /\ sc_log c' = sc_log c /\ (forall p l', next_data (sc_returns c) = Some (p, l') -> sc_returns c' = l').
Proof.
  induction fuel as [|fuel IH]; intros c Hf; [lia|]. cbn [recv_frames fr_pending recv_return script_world]. unfold sc_recv.
  destruct (sc_returns c) as [|[e lo r|sq p| |r] l] eqn:E; cbn [next_data end_reason].
  - by exists c.
  - match goal with |- context [recv_frames fuel _ ?d] => destruct (IH d ltac:(simpl in *; lia)) as (c' & H1 & H2 & H3) end.
    by exists c'.
  - eexists. split; [done|]. split; [done|]. by intros ? ? [= <- <-].
  - match goal with |- context [recv_frames fuel _ ?d] => destruct (IH d ltac:(simpl in *; lia)) as (c' & H1 & H2 & H3) end.
    by exists c'.
  - by eexists.
Qed.

Lemma recv_all_frames err fuel : forall pend c, (length pend + length (sc_returns c) + 1 < fuel)%nat ->
  exists c', recv_all fuel (RecvFrames (mkFrameRecv pend err)) c
    = Some (pend ++ payloads (sc_returns c), RecvFrames (mkFrameRecv [] (Some (end_reason (sc_returns c)))), c')
    /\ sc_log c' = sc_log c.
Proof.
  induction fuel as [|fuel IH]; intros pend c Hf; [lia|]. cbn [recv_all half_recv].
  destruct pend as [|p pend].
  - destruct (recv_frames_next err fuel c ltac:(simpl in Hf; lia)) as (c' & -> & Hl & Hc'). pose proof (next_data_spec (sc_returns c)) as Sp.
    destruct (next_data (sc_returns c)) as [[p l']|]; cbn [fmap option_fmap option_map]; [|rewrite Sp; by exists c'].
    destruct Sp as (H1 & H2 & H3). destruct (IH [] c') as (c2 & E & Hl2); [rewrite (Hc' p l' eq_refl); simpl in *; lia|].
    rewrite E, (Hc' p l' eq_refl). exists c2. cbn. split; [by rewrite H1, H2|congruence].
  - assert (recv_frames fuel (mkFrameRecv (p :: pend) err) c = Some (Some p, mkFrameRecv pend err, c)) as -> by (by destruct fuel).
    cbn [fmap option_fmap option_map]. destruct (IH pend c) as (c2 & -> & Hl2); [simpl in Hf; lia|]. by exists c2.
Qed.

(** *** Over the exit's own transport *)

(** The two forms of the halves, by counters and close guard. *)
Definition direct_send (n cl : nat) (h : @BusSendHalf Half) : Prop :=
  h = SendDirect HSend n cl \/ h = SendSocket HSend (n, cl).
Definition direct_recv (n cl : nat) (h : @BusRecvHalf Half) : Prop :=
  h = RecvDirect HRecv n cl \/ exists last, h = RecvSocket HRecv (n, cl) last.

Lemma half_send_direct n cl h p c :
  direct_send n cl h ->
  half_send hash h p c
  = let '(ok, c) := sc_write p c in
    if ok then (Ok tt, h, on_log (log_count n Up (Z.of_nat (length p))) c) else (Err DConnectionReset, h, c).
Proof.
  intros [-> | ->]; cbn [half_send tr_send io_write script_world]; by destruct (sc_write p c) as [[] ?].
Qed.

Definition counted (n : nat) (d : Direction) (ps : list (list Z)) : list (nat * Direction * Z) :=
  (fun p => (n, d, Z.of_nat (length p))) <$> ps.

Lemma send_each_direct n cl h ps : direct_send n cl h -> forall c,
  exists c', send_each h ps c = (verdicts DConnectionReset (sc_writes c) ps, h, c')
    /\ sc_reads c' = sc_reads c /\ sc_end c' = sc_end c
    /\ sc_log c' = mkLog (lg_frames (sc_log c)) (lg_exit (sc_log c) ++ taken (sc_writes c) ps) (lg_shut (sc_log c))
                     (lg_counts (sc_log c) ++ counted n Up (taken (sc_writes c) ps)) (lg_closes (sc_log c)).
Proof.
  intros Hh. induction ps as [|p ps IH]; intros c; cbn [send_each verdicts taken].
  { exists c. rewrite !app_nil_r. split_and!; try done. by destruct (sc_log c). }
  rewrite (half_send_direct n cl) by done. unfold sc_write. destruct (answer (sc_writes c)) as [ok l]. cbn [fst snd].
  destruct ok; cbn [app].
  - match goal with |- context [send_each h ps ?d] => destruct (IH d) as (c' & -> & H1 & H2 & H3) end.
    exists c'. cbn in *. rewrite H3. split_and!; try done. by rewrite <- !app_assoc.
  - match goal with |- context [send_each h ps ?d] => destruct (IH d) as (c' & -> & H1 & H2 & H3) end.
    exists c'. by cbn in *.
Qed.

Definition exit_end (c : Script) : CloseReason :=
  close_from_disconnect (default DUpstreamEof (disconnect_reason_from_io <$> sc_end c)).

Lemma recv_all_direct n cl fuel : forall h c,
  direct_recv n cl h -> Forall (fun p => p <> []) (sc_reads c) -> (length (sc_reads c) < fuel)%nat ->
  exists h' c', recv_all fuel h c = Some (sc_reads c, h', c')
    /\ sc_log c' = mkLog (lg_frames (sc_log c)) (lg_exit (sc_log c)) (lg_shut (sc_log c))
                     (lg_counts (sc_log c) ++ counted n Down (sc_reads c)) (lg_closes (sc_log c) ++ [(cl, exit_end c)]).
Proof.
  induction fuel as [|fuel IH]; intros h c Hh Hne Hf; [lia|]. cbn [recv_all].
  destruct (sc_reads c) as [|p l] eqn:Er.
  - destruct Hh as [-> |[last ->]]; cbn [half_recv tr_recv io_read script_world]; unfold sc_read; rewrite Er;
      cbn [tr_last_error script_world].
    + eexists _, _. split; [done|]. cbn. unfold exit_end. by rewrite app_nil_r.
    + unfold exit_end. destruct (sc_end c) as [k|] eqn:Ee; eexists _, _; (split; [done|]); cbn; by rewrite app_nil_r.
  - apply Forall_cons in Hne as [Hp Hne]. cbn [length] in Hf.
    set (c1 := on_log (log_count n Down (Z.of_nat (length p)))
                 (mkScript (sc_submits c) (sc_returns c) (sc_streams c) (sc_socket c) (sc_writes c) l (sc_end c) (sc_log c))).
    assert (E : exists h1, direct_recv n cl h1 /\ half_recv fuel h c = Some (Some p, h1, c1)).
    { destruct Hh as [-> |[last ->]]; cbn [half_recv tr_recv io_read script_world]; unfold sc_read; rewrite Er.
      - eexists. split; [by left|done].
      - destruct p; [done|]. eexists. split; [right; by exists last|done]. }
    destruct E as (h1 & Hh1 & ->). destruct (IH h1 c1 Hh1) as (h' & c' & E & Hl); [done|simpl; lia|]. rewrite E.
    exists h', c'. split; [done|]. rewrite Hl. subst c1. cbn. by rewrite <- app_assoc.
Qed.

(** *** The session *)

(** The world after the connection: one open frame more, one answer and one return less. *)
Definition connected (q : BusSessionRequest) (sid : string) (oks : list bool) (rest : list ReturnEvent) (c c1 : Script) : Prop :=
  sc_submits c1 = oks /\ sc_returns c1 = rest /\ sc_socket c1 = sc_socket c /\ sc_writes c1 = sc_writes c
  /\ sc_reads c1 = sc_reads c /\ sc_end c1 = sc_end c
  /\ sc_log c1 = log_frame (apply_request (frame_open hash sid (rq_target q)) q) (sc_log c).

(** The connection takes the forwarder from the table. *)
Lemma connect_scripted sid q inf oks first rest c :
  sc_submits c = true :: oks -> sc_returns c = first :: rest -> match first with Closed _ => False | _ => True end ->
  exists i pend c1,
    connect hash (stream_session_new sid q inf) c
    = (Ok i, mkStreamSession sid q i None pend (match first with Connected _ _ _ => sc_streams c !! sid | _ => None end) 0, c1)
    /\ payloads (first :: rest) = pend ++ payloads rest /\ (length pend <= 1)%nat /\ connected q sid oks rest c c1.
Proof.
  intros Hs Hr Hf. unfold connect, stream_session_new. cbn [submit script_world st_id st_request]. unfold sc_submit. rewrite Hs.
  cbn [answer recv_return script_world]. unfold sc_recv. cbn [sc_returns]. rewrite Hr.
  destruct first as [e lo rt|sq p'| |]; [|..|done]; cbn; eexists _, _, _; (split; [reflexivity|]); cbn; split_and!; try done; lia.
Qed.

(** What a session does over the dispatcher, the results and frames being [rs] and [fs]:
    the open, the pieces taken, the end if it is taken; the payloads of the returns. *)
Definition over_dispatcher (oks : list bool) (ps : list (list Z)) (returns : list ReturnEvent) (lg lg' : Log)
    (rs : list (result unit DisconnectReason)) (fs : list BusFrame) (got : list (list Z)) (rcv' : @BusRecvHalf Half) : Prop :=
  rs = verdicts DSessionClosed oks ps
  /\ frame_view <$> fs
     = (KOpen, 0, []) :: taken_frames oks 0 ps
       ++ (if (answer (drop (length ps) oks)).1 then [(KShutdownWrite, Z.of_nat (length ps), [])] else [])
  /\ got = payloads returns /\ rcv' = RecvFrames (mkFrameRecv [] (Some (end_reason returns)))
  /\ lg_exit lg' = lg_exit lg.

(** And over the exit's own transport: the open is the only frame. *)
Definition over_exit (n cl : nat) (ps : list (list Z)) (c : Script) (lg' : Log)
    (rs : list (result unit DisconnectReason)) (fs : list BusFrame) (got : list (list Z)) : Prop :=
  let lg := sc_log c in
  rs = verdicts DConnectionReset (sc_writes c) ps
  /\ frame_view <$> fs = [(KOpen, 0, [])]
  /\ lg_exit lg' = lg_exit lg ++ taken (sc_writes c) ps /\ lg_shut lg' = S (lg_shut lg)
  /\ got = sc_reads c
  /\ lg_counts lg' = lg_counts lg ++ counted n Up (taken (sc_writes c) ps) ++ counted n Down (sc_reads c)
  /\ lg_closes lg' = lg_closes lg ++ [(cl, exit_end c)].

(** The pieces, the end and then the receiving, over given halves. *)
Definition conversation (fuel : nat) (snd : @BusSendHalf Half) (rcv : @BusRecvHalf Half) (ps : list (list Z)) (c : Script) :
    option (list (result unit DisconnectReason) * list (list Z) * @BusRecvHalf Half * Script) :=
  let '(rs, h, c) := send_each snd ps c in
  (fun '(got, rcv, c) => (rs, got, rcv, c)) <$> recv_all fuel rcv (half_shutdown hash h c).

Lemma open_of_session q sid : of_session q sid (apply_request (frame_open hash sid (rq_target q)) q).
Proof. by split_and!. Qed.

Lemma conversation_frames q sid oks first rest pend ps c c1 fuel :
  connected q sid oks rest c c1 -> payloads (first :: rest) = pend ++ payloads rest ->
  end_reason (first :: rest) = end_reason rest ->
  Z.of_nat (length ps) < 2 ^ 64 -> (length pend + length rest + 1 < fuel)%nat ->
  exists rs got rcv' c4 fs,
    conversation fuel (SendFrames (mkFrameSend sid q 0)) (RecvFrames (mkFrameRecv pend None)) ps c1 = Some (rs, got, rcv', c4)
    /\ lg_frames (sc_log c4) = lg_frames (sc_log c) ++ fs /\ Forall (of_session q sid) fs
    /\ over_dispatcher oks ps (first :: rest) (sc_log c) (sc_log c4) rs fs got rcv'.
Proof.
  intros (E1 & E2 & _ & _ & _ & _ & E7) Hp Hend Hlen Hf. unfold over_dispatcher. rewrite Hp, Hend.
  destruct (send_each_frames sid q ps 0 c1) as (fs & c3 & E & Hof & Hv & Hd & Hr3 & Hfr & Hex); [lia|lia|].
  rewrite E1, ?Z.add_0_l in *. unfold conversation. rewrite E. set (op := apply_request _ q) in *.
  destruct (answer (drop (length ps) oks)) as [ok l] eqn:Ea. cbn [fst].
  set (sf := apply_request (frame_shutdown_write hash sid (Z.of_nat (length ps)) (rq_target q)) q).
  set (c4 := mkScript l (sc_returns c3) (sc_streams c3) (sc_socket c3) (sc_writes c3) (sc_reads c3) (sc_end c3)
               (if ok then log_frame sf (sc_log c3) else sc_log c3)).
  assert (Hsh : half_shutdown hash (SendFrames (mkFrameSend sid q (Z.of_nat (length ps)))) c3 = c4).
  { unfold half_shutdown, frame_send. cbn [fs_id fs_request fs_seq submit script_world]. unfold sc_submit.
    by rewrite Hd, Ea. }
  destruct (recv_all_frames None fuel pend c4) as (c5 & Er & Hl5); [subst c4; cbn [sc_returns]; rewrite Hr3, E2; lia|].
  change (sc_returns c4) with (sc_returns c3) in Er. rewrite Hsh, Er, Hr3, E2.
  eexists _, _, _, c5, (op :: fs ++ if ok then [sf] else []). split; [done|].
  assert (Hb : lg_frames (sc_log c3) = lg_frames (sc_log c) ++ op :: fs) by (rewrite Hfr, E7; cbn; by rewrite <- app_assoc).
  rewrite Hl5. subst c4. cbn [sc_log]. split_and!; try done.
  - destruct ok; cbn; rewrite Hb, <- ?app_assoc; cbn; [done|by rewrite app_nil_r].
  - constructor; [apply open_of_session|]. apply Forall_app. split; [done|]. destruct ok; [|done].
    apply Forall_singleton. by split_and!.
  - cbn [fmap list_fmap]. f_equal. rewrite fmap_app, Hv. by destruct ok.
  - destruct ok; cbn; rewrite Hex, E7; done.
Qed.

Lemma conversation_direct q sid oks rest n cl snd rcv ps c c1 fuel :
  connected q sid oks rest c c1 -> direct_send n cl snd -> direct_recv n cl rcv ->
  Forall (fun p => p <> []) (sc_reads c) -> (length (sc_reads c) < fuel)%nat ->
  exists rs got rcv' c4 fs,
    conversation fuel snd rcv ps c1 = Some (rs, got, rcv', c4)
    /\ lg_frames (sc_log c4) = lg_frames (sc_log c) ++ fs /\ Forall (of_session q sid) fs
    /\ over_exit n cl ps c (sc_log c4) rs fs got.
Proof.
  intros (_ & _ & _ & E4 & E5 & E6 & E7) Hsnd Hrcv Hne Hf.
  destruct (send_each_direct n cl snd ps Hsnd c1) as (c3 & E & R1 & R2 & R3). rewrite E4 in *.
  assert (Hsh : half_shutdown hash snd c3 = on_log log_shut c3) by (by destruct Hsnd as [-> | ->]).
  destruct (recv_all_direct n cl fuel rcv (on_log log_shut c3) Hrcv) as (h' & c4 & Er & Hl);
    [cbn; by rewrite R1, E5|cbn; rewrite R1, E5; lia|].
  eexists _, _, h', c4, [apply_request (frame_open hash sid (rq_target q)) q].
  unfold conversation, over_exit. rewrite E, Hsh, Er, Hl. split; [done|].
  cbn [on_log sc_reads sc_log log_shut lg_frames lg_exit lg_shut lg_counts lg_closes]. rewrite R1, R3, E5, E7. unfold exit_end.
  cbn [sc_end on_log log_frame lg_frames lg_exit lg_shut lg_counts lg_closes]. rewrite R2, E6.
  split_and!; try done; [apply Forall_singleton, open_of_session|by rewrite <- app_assoc].
Qed.

(** C24: a stream session whose open was taken and first answered with anything but a close
    is transparent, whichever way its bytes go. The open frame and
    every other frame it submits say its session, its target and the request's class,
    policy, deadline, hint, semantics, keys, group and sink. Without a transport of the
    exit's own (none in the table, or a socket the runtime does not take), its pieces go
    over the dispatcher in order with consecutive numbers, those the dispatcher takes,
    then the end of its side; it receives the payloads among its returns up to their
    close, whose reason it keeps, and the exit is left alone. With one, the open is the
    only frame: its pieces go to the exit in order, those the exit takes, counted
    upwards, then one end; it receives what the exit gives, counted downwards, to its
    end, whose reason is noted. Each offer is answered as the dispatcher or the exit
    answered it. *)
Theorem stream_session_is_transparent (q : BusSessionRequest) (port port' : BusPort) (s : @StreamSession Half) (first : ReturnEvent)
    (rest : list ReturnEvent) (oks : list bool) (ps : list (list Z)) (c : Script) (fuel : nat) :
  bus_open_stream hash q port = (Ok s, port') ->
  sc_submits c = true :: oks -> sc_returns c = first :: rest -> match first with Closed _ => False | _ => True end ->
  (forall f, sc_streams c !! st_id s = Some f -> wired f) -> Forall (fun p => p <> []) (sc_reads c) ->
  Z.of_nat (length ps) < 2 ^ 64 -> (length rest + length (sc_reads c) + 2 < fuel)%nat ->
  exists i s1 c1 snd rcv c2 rs got rcv' c3 fs,
    connect hash s c = (Ok i, s1, c1) /\ split_session s1 c1 = (snd, rcv, c2)
    /\ conversation fuel snd rcv ps c2 = Some (rs, got, rcv', c3)
    /\ lg_frames (sc_log c3) = lg_frames (sc_log c) ++ fs /\ Forall (of_session q (st_id s)) fs
    /\ match carrier (st_id s) first c with
       | None => over_dispatcher oks ps (first :: rest) (sc_log c) (sc_log c3) rs fs got rcv'
       | Some (n, cl) => over_exit n cl ps c (sc_log c3) rs fs got
       end.
Proof.
  intros Ho Hs Hr Hfirst Hw Hne Hlen Hf. unfold bus_open_stream in Ho. destruct (validate_stream_request q) as [[]|]; [|done].
  destruct (open_session port) as [sid p]. injection Ho as <- _. cbn [st_id stream_session_new] in *.
  destruct (connect_scripted sid q (session_info_for hash sid q) oks first rest c Hs Hr Hfirst) as (i & pend & c1 & C & Hp & Hpl & Hc).
  set (fwd := match first with Connected _ _ _ => _ | _ => None end) in *.
  exists i, (mkStreamSession sid q i None pend fwd 0), c1. rewrite C. unfold split_session. cbn [st_forwarder].
  assert (Hcar : carrier sid first c
    = match fwd with
      | Some f => match ss_transport f with
                  | TcpSplice _ => if sc_socket c then Some (ss_counters f, ss_close f) else None
                  | Halves _ _ => Some (ss_counters f, ss_close f) end
      | None => None end) by (unfold carrier; subst fwd; destruct first; try done; by destruct (_ !! _)).
  destruct (conversation_frames q sid oks first rest pend ps c c1 fuel Hc Hp) as (rs & got & rcv' & c3 & fs & Hframes);
    [by destruct first|done|lia|].
  rewrite Hcar. clear Hcar. destruct fwd as [f|] eqn:Ef; [|by eexists _, _, c1, rs, got, rcv', c3, fs].
  assert (Hwf : wired f) by (subst fwd; destruct first; try done; by apply Hw). clear Hw.
  pose proof (fun snd rcv S R => conversation_direct q sid oks rest (ss_counters f) (ss_close f) snd rcv ps c c1 fuel Hc S R Hne
    ltac:(lia)) as Hdirect.
  destruct Hwf as [-> | ->].
  - destruct (Hdirect _ _ (or_introl eq_refl) (or_introl eq_refl)) as (rs' & got' & r' & c4 & fs' & Hd).
    by eexists _, _, c1, rs', got', r', c4, fs'.
  - cbn [splice_halves script_world]. assert (sc_socket c1 = sc_socket c) as -> by apply Hc.
    destruct (sc_socket c); [|by eexists _, _, c1, rs, got, rcv', c3, fs].
    destruct (Hdirect _ _ (or_intror eq_refl) (or_intror (ex_intro _ None eq_refl))) as (rs' & got' & r' & c4 & fs' & Hd).
    by eexists _, _, c1, rs', got', r', c4, fs'.
Qed.
End Streams.

Definition no_log : Log := mkLog [] [] 0 [] [].

(** Once over the dispatcher, which refuses the second piece, and once over the exit's own
    socket. *)
Lemma stream_session_is_transparent_witness :
  let hash := fun _ _ _ => 7 in
  let q := request_stream (mkEndpoint "h" 80) in
  exists s port', bus_open_stream hash q (mkPort 1 true true) = (Ok s, port') /\
  let run c := match connect hash s c with
               | (Ok _, s1, c1) =>
                   let '(snd, rcv, c2) := split_session s1 c1 in
                   (fun '(rs, got, _, c3) => (rs, got, frame_view <$> lg_frames (sc_log c3), lg_exit (sc_log c3)))
                     <$> conversation hash 8 snd rcv [[1]; [2]; [3]] c2
               | _ => None
               end in
  run (mkScript [true; true; false] [Data 0 [9]; Idle; Data 1 [8]; Closed UpstreamEof] ∅ true [] [] None no_log)
  = Some ([Ok tt; Err DSessionClosed; Ok tt], [[9]; [8]],
          [(KOpen, 0, []); (KData, 0, [1]); (KData, 2, [3]); (KShutdownWrite, 3, [])], [])
  /\ run (mkScript [true] [Connected "x" None 5] {[ "s-1" := mkStreamState (TcpSplice HSocket) 4 5 ]} true
            [true; false] [[6]; [7; 8]] None no_log)
  = Some ([Ok tt; Err DConnectionReset; Ok tt], [[6]; [7; 8]], [(KOpen, 0, [])], [[1]; [3]]).
Proof.
  cbv zeta. exists (stream_session_new "s-1" (request_stream (mkEndpoint "h" 80))
         (session_info_for (fun _ _ _ => 7) "s-1" (request_stream (mkEndpoint "h" 80)))), (mkPort 2 true true).
  split; [vm_compute; reflexivity|]. split.
  - destruct (stream_session_is_transparent (fun _ _ _ => 7) (request_stream (mkEndpoint "h" 80)) (mkPort 1 true true)
      (mkPort 2 true true) (stream_session_new "s-1" (request_stream (mkEndpoint "h" 80))
         (session_info_for (fun _ _ _ => 7) "s-1" (request_stream (mkEndpoint "h" 80))))
      (Data 0 [9]) [Idle; Data 1 [8]; Closed UpstreamEof] [true; false] [[1]; [2]; [3]]
      (mkScript [true; true; false] [Data 0 [9]; Idle; Data 1 [8]; Closed UpstreamEof] ∅ true [] [] None no_log) 8)
      as (i & s1 & c1 & snd & rcv & c2 & rs & got & rcv' & c3 & fs & -> & -> & -> & Hfs & _ & H);
      [vm_compute; reflexivity|reflexivity|reflexivity|exact I|intros f Hf; vm_compute in Hf; discriminate|constructor|simpl; lia|simpl; lia|].
    match type of H with match ?x with _ => _ end => let v := eval vm_compute in x in change x with v in H end.
    destruct H as (-> & Hv & -> & _ & Hex). cbn [fmap option_fmap option_map].
    rewrite Hfs, Hex. change (lg_frames (sc_log (mkScript _ _ _ _ _ _ _ no_log)) ++ fs) with fs. rewrite Hv. reflexivity.
  - destruct (stream_session_is_transparent (fun _ _ _ => 7) (request_stream (mkEndpoint "h" 80)) (mkPort 1 true true)
      (mkPort 2 true true) (stream_session_new "s-1" (request_stream (mkEndpoint "h" 80))
         (session_info_for (fun _ _ _ => 7) "s-1" (request_stream (mkEndpoint "h" 80))))
      (Connected "x" None 5) [] [] [[1]; [2]; [3]]
      (mkScript [true] [Connected "x" None 5] {[ "s-1" := mkStreamState (TcpSplice HSocket) 4 5 ]} true
            [true; false] [[6]; [7; 8]] None no_log) 8)
      as (i & s1 & c1 & snd & rcv & c2 & rs & got & rcv' & c3 & fs & -> & -> & -> & Hfs & _ & H);
      [vm_compute; reflexivity|reflexivity|reflexivity|exact I|intros f Hf; vm_compute in Hf; injection Hf as <-; right; reflexivity
      |repeat constructor; discriminate|simpl; lia|simpl; lia|].
    match type of H with match ?x with _ => _ end => let v := eval vm_compute in x in change x with v in H end.
    destruct H as (-> & Hv & Hex & _ & -> & _). cbn [fmap option_fmap option_map].
    rewrite Hfs, Hex. change (lg_frames (sc_log (mkScript _ _ _ _ _ _ _ no_log)) ++ fs) with fs. rewrite Hv. reflexivity.
Defined.

(** ** Datagrams *)

(** *** Their channels *)

(** A session's channels over the dispatcher: the answers to its submissions (all taken once the list is
    used up), its returns, after which their channel is closed, and what it submitted.
    There are no forwarders. *)
Record Chan := mkChan { ch_taken : list bool; ch_returns : list ReturnEvent; ch_frames : list BusFrame }.

Definition chan_submit (f : BusFrame) (c : Chan) : bool * Chan :=
  match ch_taken c with
  | [] => (true, mkChan [] (ch_returns c) (ch_frames c ++ [f]))
  | ok :: l => (ok, mkChan l (ch_returns c) (if ok then ch_frames c ++ [f] else ch_frames c))
  end.
Definition chan_recv (c : Chan) : option ReturnEvent * Chan :=
  match ch_returns c with [] => (None, c) | e :: l => (Some e, mkChan (ch_taken c) l (ch_frames c)) end.

#[export] Instance chan_world : SessionWorld Chan unit := {|
  submit := chan_submit;
  recv_return := chan_recv;
  take_stream _ c := (None, c);
  take_datagram _ c := (None, c);
  probe_insert _ c := c;
  probe_remove _ c := c;
  probe_wait c := (None, c);
  tr_send _ _ c := (Err DSessionClosed, c);
  tr_shutdown _ c := c;
  tr_abort _ _ c := c;
  tr_recv _ c := (None, c);
  tr_last_error _ _ := None;
  tr_send_to _ _ _ c := (Err DgClosed, c);
  tr_recv_from _ c := (None, c);
  tr_close _ c := c;
  splice_halves _ c := (None, c);
  io_write _ _ c := (Err IoNotConnected, c);
  io_read _ c := (Err IoNotConnected, c);
  count _ _ _ c := c;
  close_once _ _ c := c
|}.

Section Datagrams.
Context (hash : string -> string -> Z -> Z).

(** What the two halves of a session do, in any order: a send and a receive, whose
    return is the next of the channel. *)
Inductive DgOp := DgSend (t : Endpoint) (p : list Z) | DgReceive.

(** The halves' state and the number of sends so far. *)
Record Halves2 := mkHalves2 { h_seq : Z; h_shared : DatagramShared; h_chan : Chan }.

Definition dg_op (fuel : nat) (sid : string) (o : DgOp) (h : Halves2) : option (option (Endpoint * list Z) * Halves2) :=
  match o with
  | DgSend t p => let '(_, sq, sh, c) := datagram_send hash sid (h_seq h) (h_shared h) t p (h_chan h) in Some (None, mkHalves2 sq sh c)
  | DgReceive =>
      match recv_datagrams fuel (h_shared h) (h_chan h) with
      | None => None
      | Some (r, sh, _, c) => Some (r, mkHalves2 (h_seq h) sh c)
      end
  end.

(** The targets of the sends, by number, and the numbers answered. *)
Definition pending_ok (sent : list Endpoint) (answered : gset Z) (h : Halves2) : Prop :=
  h_seq h = Z.of_nat (length sent) /\
  forall sq, pending_sources (h_shared h) !! sq
    = if bool_decide (sq ∈ answered \/ sq < 0) then None else sent !! Z.to_nat sq.

(** The answers among the returns, with their numbers. *)
Fixpoint answers (l : list ReturnEvent) : list (Z * list Z) :=
  match l with
  | Data sq p :: l => (sq, p) :: answers l
  | Closed _ :: _ | [] => []
  | _ :: l => answers l
  end.

Fixpoint dg_run (fuel : nat) (sid : string) (ops : list DgOp) (h : Halves2) : option (list (Endpoint * list Z)) :=
  match ops with
  | [] => Some []
  | o :: ops =>
      match dg_op fuel sid o h with
      | None => None
      | Some (r, h) => (fun l => match r with Some x => x :: l | None => l end) <$> dg_run fuel sid ops h
      end
  end.

(** What the client should get: each answer with the target of the send it answers;
    [None] if an answer comes before its send, or there is none to receive. *)
Fixpoint dg_spec (sent : list Endpoint) (rets : list (Z * list Z)) (ops : list DgOp) : option (list (Endpoint * list Z)) :=
  match ops with
  | [] => Some []
  | DgSend t _ :: ops => dg_spec (sent ++ [t]) rets ops
  | DgReceive :: ops =>
      match rets with
      | [] => None
      | (sq, p) :: rets =>
          if 0 <=? sq then
            match sent !! Z.to_nat sq with
            | None => None
            | Some t => cons (t, p) <$> dg_spec sent rets ops
            end
          else None
      end
  end.

Definition sends_fit (max : Z) (ops : list DgOp) : Prop :=
  Forall (fun o => match o with DgSend _ p => Z.of_nat (length p) <= max | DgReceive => True end) ops.

Lemma recv_datagrams_next sh c fuel sq p rets :
  answers (ch_returns c) = (sq, p) :: rets -> (length (ch_returns c) < fuel)%nat ->
  exists c', recv_datagrams fuel sh c = Some (Some ((source_of sq sh).1, p), (source_of sq sh).2, None, c')
    /\ answers (ch_returns c') = rets /\ (length (ch_returns c') < length (ch_returns c))%nat /\ ch_taken c' = ch_taken c.
Proof.
  revert c. induction fuel as [|fuel IH]; intros c Ha Hf; [lia|]. cbn [recv_datagrams recv_return chan_world]. unfold chan_recv.
  destruct (ch_returns c) as [|[e lo r|sq' p'| |r] l] eqn:E; cbn [answers] in Ha; try done.
  - destruct (IH (mkChan (ch_taken c) l (ch_frames c)) Ha ltac:(simpl in *; lia)) as (c' & H1 & H2 & H3 & H4).
    exists c'. split_and!; [done|done|simpl in *; lia|done].
  - injection Ha as -> -> <-. eexists. split_and!; [done|done|simpl; lia|done].
  - destruct (IH (mkChan (ch_taken c) l (ch_frames c)) Ha ltac:(simpl in *; lia)) as (c' & H1 & H2 & H3 & H4).
    exists c'. split_and!; [done|done|simpl in *; lia|done].
Qed.

Lemma pending_send sent answered h sid t p :
  pending_ok sent answered h -> ch_taken (h_chan h) = [] -> Z.of_nat (length p) <= dg_max_payload (h_shared h) ->
  Z.of_nat (length sent) + 1 < 2 ^ 64 -> (forall sq, sq ∈ answered -> sq < Z.of_nat (length sent)) ->
  exists h', dg_op 0 sid (DgSend t p) h = Some (None, h') /\ pending_ok (sent ++ [t]) answered h' /\ ch_taken (h_chan h') = []
    /\ ch_returns (h_chan h') = ch_returns (h_chan h) /\ dg_max_payload (h_shared h') = dg_max_payload (h_shared h).
Proof.
  intros [Hs Hp] Ht Hm Hb Ha. unfold dg_op, datagram_send. rewrite (proj2 (Z.ltb_ge _ _)) by done.
  cbn [submit chan_world]. unfold chan_submit. rewrite Ht. eexists. split; [done|]. split; [|done]. split; cbn [h_seq h_shared pending_sources].
  - rewrite length_app, Hs. unfold u64_succ_sat. cbn [length]. lia.
  - intros sq. rewrite Hs. destruct (decide (sq = Z.of_nat (length sent))) as [->|Hne].
    + rewrite lookup_insert_eq, bool_decide_eq_false_2 by (intros [?%Ha|?]; lia). by rewrite Nat2Z.id, list_lookup_middle.
    + rewrite lookup_insert_ne, Hp by done. case_bool_decide as C; [done|].
      destruct (decide (Z.to_nat sq < length sent)%nat); [by rewrite lookup_app_l|].
      rewrite (lookup_ge_None_2 sent) by lia. symmetry. apply lookup_ge_None_2. rewrite length_app. simpl.
      assert (0 <= sq) by (destruct (decide (sq < 0)); [exfalso; apply C; by right|lia]). lia.
Qed.

Lemma pending_answer (sent : list Endpoint) (answered : gset Z) sh sq t :
  (forall x, pending_sources sh !! x = if bool_decide (x ∈ answered \/ x < 0) then None else sent !! Z.to_nat x) ->
  0 <= sq -> sq ∉ answered -> sent !! Z.to_nat sq = Some t ->
  (source_of sq sh).1 = t
  /\ forall x, pending_sources (source_of sq sh).2 !! x = if bool_decide (x ∈ {[sq]} ∪ answered \/ x < 0) then None else sent !! Z.to_nat x.
Proof.
  intros Hp H0 Hn Ht. split.
  - unfold source_of. cbn. rewrite Hp, bool_decide_eq_false_2 by (intros [?|?]; [done|lia]). by rewrite Ht.
  - intros x. unfold source_of. cbn [snd pending_sources]. destruct (decide (x = sq)) as [->|Hx].
    + rewrite lookup_delete_eq, bool_decide_eq_true_2; [done|]. left. set_solver.
    + rewrite lookup_delete_ne, Hp by done.
      rewrite (bool_decide_ext (x ∈ answered \/ x < 0) (x ∈ {[sq]} ∪ answered \/ x < 0)) by set_solver. done.
Qed.

Lemma dg_run_spec fuel sid ops sent answered h out :
  pending_ok sent answered h -> ch_taken (h_chan h) = [] -> sends_fit (dg_max_payload (h_shared h)) ops ->
  Z.of_nat (length sent + length ops) < 2 ^ 64 -> (length (ch_returns (h_chan h)) < fuel)%nat ->
  (forall sq, sq ∈ answered -> sq < Z.of_nat (length sent)) ->
  NoDup (answers (ch_returns (h_chan h))).*1 -> (forall sq, sq ∈ (answers (ch_returns (h_chan h))).*1 -> sq ∉ answered) ->
  dg_spec sent (answers (ch_returns (h_chan h))) ops = Some out -> dg_run fuel sid ops h = Some out.
Proof.
  revert sent answered h out. induction ops as [|[t p|] ops IH]; intros sent answered h out Hok Ht Hfit Hb Hf Ha Hnd Hdis; cbn [dg_spec dg_run]; [done|..].
  all: apply Forall_cons in Hfit as [Hp Hfit].
  - intros Hs. destruct (pending_send sent answered h sid t p Hok Ht Hp ltac:(simpl in Hb; lia) Ha) as (h' & E & Hok' & Ht' & Hr' & Hm').
    change (dg_op fuel sid (DgSend t p) h) with (dg_op 0 sid (DgSend t p) h). rewrite E.
    rewrite (IH (sent ++ [t]) answered h' out Hok' Ht'); [done|by rewrite Hm'|rewrite length_app; simpl in *; lia|by rewrite Hr'|
      intros sq Hsq%Ha; rewrite length_app; simpl; lia|by rewrite Hr'|by rewrite Hr'|by rewrite Hr'].
  - destruct (answers (ch_returns (h_chan h))) as [|[sq p] rets] eqn:Er; [done|]. destruct (Z.leb_spec 0 sq) as [H0|]; [|done].
    destruct (sent !! Z.to_nat sq) as [t|] eqn:Es; [|done]. intros Hs. apply fmap_Some in Hs as (out' & Hs & ->).
    unfold dg_op. destruct (recv_datagrams_next (h_shared h) (h_chan h) fuel sq p rets Er Hf) as (c' & -> & Hr' & Hl' & Ht').
    destruct Hok as [Hseq Hpend]. cbn [fmap list_fmap fst] in Hnd, Hdis. apply NoDup_cons in Hnd as [Hni Hnd].
    destruct (pending_answer sent answered (h_shared h) sq t Hpend H0 (Hdis sq ltac:(set_solver)) Es) as [Hsrc Hpend'].
    rewrite (IH sent ({[sq]} ∪ answered) (mkHalves2 (h_seq h) (source_of sq (h_shared h)).2 c') out'); cbn [h_shared h_chan h_seq].
    + by rewrite Hsrc.
    + split; [done|exact Hpend'].
    + by rewrite Ht'.
    + exact Hfit.
    + simpl in Hb. lia.
    + lia.
    + intros x [->%elem_of_singleton|Hx%Ha]%elem_of_union; [|done]. apply lookup_lt_Some in Es. lia.
    + by rewrite Hr'.
    + rewrite Hr'. intros x Hx. assert (x <> sq) by (intros ->; done). pose proof (Hdis x ltac:(set_solver)). set_solver.
    + by rewrite Hr'.
Qed.

(** C25: however the sends and receives of a datagram session interleave, as long as no
    number is answered twice, every answer is received as coming from the target of the
    send it answers, in the order of the answers. *)
Theorem datagram_answers_name_their_target (sid : string) (q : BusSessionRequest) (max : Z) (ops : list DgOp) (c : Chan) (fuel : nat)
    (out : list (Endpoint * list Z)) :
  ch_taken c = [] -> sends_fit max ops -> Z.of_nat (length ops) < 2 ^ 64 -> (length (ch_returns c) < fuel)%nat ->
  NoDup (answers (ch_returns c)).*1 -> dg_spec [] (answers (ch_returns c)) ops = Some out ->
  dg_run fuel sid ops (mkHalves2 0 (mkDgShared ∅ q max) c) = Some out.
Proof.
  intros Ht Hfit Hb Hf Hnd Hs. apply (dg_run_spec fuel sid ops [] ∅); [|done|done|simpl; lia|done|set_solver|done|set_solver|done].
  split; [done|]. intros sq. cbn [h_shared pending_sources]. rewrite lookup_empty. case_bool_decide; [done|]. by rewrite lookup_nil.
Qed.
End Datagrams.

Lemma datagram_answers_name_their_target_witness :
  let a := mkEndpoint "a" 1 in let b := mkEndpoint "b" 2 in
  dg_run (fun _ _ _ => 0) 5 "s-1" [DgSend a [1]; DgSend b [2]; DgReceive; DgReceive]
    (mkHalves2 0 (mkDgShared ∅ (request_datagram a) MAX_DATAGRAM_PAYLOAD) (mkChan [] [Idle; Data 1 [9]; Data 0 [8]] []))
  = Some [(b, [9]); (a, [8])].
Proof.
  cbv zeta. apply datagram_answers_name_their_target.
  - reflexivity.
  - repeat (apply Forall_cons; split; [unfold MAX_DATAGRAM_PAYLOAD; simpl; lia || exact I|]). apply Forall_nil_2.
  - simpl. lia.
  - simpl. lia.
  - cbn. apply NoDup_cons. split; [set_solver|]. apply NoDup_cons. split; [set_solver|]. apply NoDup_nil_2.
  - reflexivity.
Defined.

(** A second answer to the same send is received as coming from the session's own
    target. *)
Theorem repeated_answer_changes_its_source :
  let a := mkEndpoint "a" 1 in let b := mkEndpoint "b" 2 in
  dg_run (fun _ _ _ => 0) 5 "s-1" [DgSend a [1]; DgSend b [2]; DgReceive; DgReceive]
    (mkHalves2 0 (mkDgShared ∅ (request_datagram a) MAX_DATAGRAM_PAYLOAD) (mkChan [] [Data 1 [9]; Data 1 [8]] []))
  = Some [(b, [9]); (a, [8])].
Proof. reflexivity. Qed.

(** Sends that are never answered stay in the session's table, without a bound. *)
Fixpoint send_many (hash : string -> string -> Z -> Z) (sid : string) (n : nat) (t : Endpoint) (h : Halves2) : Halves2 :=
  match n with
  | O => h
  | S n => send_many hash sid n t (let '(_, sq, sh, c) := datagram_send hash sid (h_seq h) (h_shared h) t [] (h_chan h) in mkHalves2 sq sh c)
  end.

Theorem unanswered_datagrams_accumulate (hash : string -> string -> Z -> Z) (sid : string) (n : nat) (t : Endpoint) (q : BusSessionRequest) (c : Chan) :
  Z.of_nat n < 2 ^ 64 - 1 -> ch_taken c = [] ->
  size (pending_sources (h_shared (send_many hash sid n t (mkHalves2 0 (mkDgShared ∅ q MAX_DATAGRAM_PAYLOAD) c)))) = n.
Proof.
  intros Hn Hc.
  assert (G : forall n (h : Halves2), 0 <= h_seq h -> h_seq h + Z.of_nat n < 2 ^ 64 - 1 -> ch_taken (h_chan h) = [] ->
    dg_max_payload (h_shared h) = MAX_DATAGRAM_PAYLOAD -> (forall x, h_seq h <= x -> pending_sources (h_shared h) !! x = None) ->
    size (pending_sources (h_shared (send_many hash sid n t h))) = (size (pending_sources (h_shared h)) + n)%nat).
  { clear. induction n as [|n IH]; intros h H0 Hn Ht Hm Hp; cbn [send_many]; [lia|].
    unfold datagram_send. rewrite Hm. change (MAX_DATAGRAM_PAYLOAD <? Z.of_nat (length [])) with false. cbv beta iota zeta.
    cbn [submit chan_world]. unfold chan_submit. rewrite Ht. cbv beta iota zeta.
    assert (u64_succ_sat (h_seq h) = h_seq h + 1) as -> by (unfold u64_succ_sat; lia).
    rewrite IH; cbn [h_seq h_shared h_chan pending_sources dg_max_payload]; [|lia|lia|done|done|].
    - rewrite map_size_insert_None by (apply Hp; lia). lia.
    - intros x Hx. rewrite lookup_insert_ne by lia. apply Hp. lia. }
  rewrite G; cbn [h_seq h_shared h_chan pending_sources dg_max_payload]; [|lia|lia|done|done|intros; apply lookup_empty].
  by rewrite map_size_empty.
Qed.

(** ** Splicing *)

(** *** A scripted kernel *)

(** What the kernel makes of a call: it moves some bytes, at least one if there are any,
    is interrupted, or fails.  Once the list is used up it moves all it may. *)
Inductive KAnswer := KMove (n : nat) | KInterrupt | KFail (e : string).

(** A direction: the bytes its source has still to give before its end, the pipe, the bytes
    its destination got, how often that was ended, and the bytes accounted for. *)
Record Kern := mkKern {
  k_src : list Z; k_pipe : list Z; k_dst : list Z; k_answers : list KAnswer; k_nopipe : option string;
  k_shut : nat; k_counted : Z
}.

Record Kernels := mkKernels { kn_up : Kern; kn_down : Kern; kn_refuses : option string; kn_closes : list CloseReason }.

Definition kern (d : Direction) (w : Kernels) : Kern := match d with Up => kn_up w | Down => kn_down w end.
Definition set_kern (d : Direction) (k : Kern) (w : Kernels) : Kernels :=
  match d with
  | Up => mkKernels k (kn_down w) (kn_refuses w) (kn_closes w)
  | Down => mkKernels (kn_up w) k (kn_refuses w) (kn_closes w)
  end.

Definition amount (n len : nat) (from : list Z) : nat := Nat.min (Nat.min len (length from)) (Nat.max 1 n).

Definition kern_in (len : nat) (k : Kern) : SpliceAnswer * Kern :=
  let moves n l :=
    let m := amount n len (k_src k) in
    (Moved m, mkKern (drop m (k_src k)) (k_pipe k ++ take m (k_src k)) (k_dst k) l (k_nopipe k) (k_shut k) (k_counted k)) in
  let keeps l := mkKern (k_src k) (k_pipe k) (k_dst k) l (k_nopipe k) (k_shut k) (k_counted k) in
  match k_answers k with
  | [] => moves len []
  | KMove n :: l => moves n l
  | KInterrupt :: l => (Interrupted, keeps l)
  | KFail e :: l => (SpliceFails e, keeps l)
  end.

Definition kern_out (len : nat) (k : Kern) : SpliceAnswer * Kern :=
  let moves n l :=
    let m := amount n len (k_pipe k) in
    (Moved m, mkKern (k_src k) (drop m (k_pipe k)) (k_dst k ++ take m (k_pipe k)) l (k_nopipe k) (k_shut k) (k_counted k)) in
  let keeps l := mkKern (k_src k) (k_pipe k) (k_dst k) l (k_nopipe k) (k_shut k) (k_counted k) in
  match k_answers k with
  | [] => moves len []
  | KMove n :: l => moves n l
  | KInterrupt :: l => (Interrupted, keeps l)
  | KFail e :: l => (SpliceFails e, keeps l)
  end.

#[export] Instance kernel_sys : SpliceSys Kernels := {|
  prepare_sockets w := (kn_refuses w, w);
  pipe_new d w := (k_nopipe (kern d w), w);
  splice_in d len w := let '(a, k) := kern_in len (kern d w) in (a, set_kern d k w);
  splice_out d len w := let '(a, k) := kern_out len (kern d w) in (a, set_kern d k w);
  shutdown_dst d w :=
    let k := kern d w in
    set_kern d (mkKern (k_src k) (k_pipe k) (k_dst k) (k_answers k) (k_nopipe k) (S (k_shut k)) (k_counted k)) w;
  splice_bytes d n w :=
    let k := kern d w in
    set_kern d (mkKern (k_src k) (k_pipe k) (k_dst k) (k_answers k) (k_nopipe k) (k_shut k) (k_counted k + n)) w;
  splice_closed r w := mkKernels (kn_up w) (kn_down w) (kn_refuses w) (kn_closes w ++ [r])
|}.

(** *** One direction *)

Lemma kern_set d k w : kern d (set_kern d k w) = k.
Proof. by destruct d. Qed.
Lemma kern_set_ne d d' k w : d <> d' -> kern d (set_kern d' k w) = kern d w.
Proof. by destruct d, d'. Qed.
Lemma set_kern_twice d k k' w : set_kern d k (set_kern d k' w) = set_kern d k w.
Proof. by destruct d. Qed.

Lemma splice_chunk_pos : (0 < SPLICE_CHUNK_BYTES)%nat.
Proof. unfold SPLICE_CHUNK_BYTES. lia. Qed.
#[local] Opaque SPLICE_CHUNK_BYTES.

(** Nothing goes wrong on a direction. *)
Definition fine (k : Kern) : Prop :=
  k_nopipe k = None /\ Forall (fun a => match a with KFail _ => False | _ => True end) (k_answers k).

Section Direction.
Context (accounting : bool) (k0 : Kern).
Hypothesis small : Z.of_nat (length (k_src k0)) < 2 ^ 64.

(** The bytes are where they should be, those counted were delivered, and the destination
    is ended exactly by a thread that has delivered everything. *)
Definition accounted (total : Z) (k : Kern) : Prop :=
  k_counted k = k_counted k0 + (if accounting then total else 0).

Definition progress (t : SpliceThread) (k : Kern) : Prop :=
  let delivered := Z.of_nat (length (k_dst k)) - Z.of_nat (length (k_dst k0)) in
  match t with
  | Opening => k_pipe k = [] /\ delivered = 0 /\ accounted 0 k /\ k_shut k = k_shut k0
  | Filling total => 0 <= total /\ k_pipe k = [] /\ delivered = total /\ accounted total k /\ k_shut k = k_shut k0
  | Draining total n remaining =>
      0 <= total /\ length (k_pipe k) = remaining /\ (0 < remaining <= n)%nat
      /\ delivered + Z.of_nat remaining = total + Z.of_nat n /\ accounted total k /\ k_shut k = k_shut k0
  | Ended (Ok total) =>
      0 <= total /\ k_pipe k = [] /\ k_src k = [] /\ delivered = total /\ accounted total k /\ k_shut k = S (k_shut k0)
  | Ended (Err _) => (exists total, 0 <= total <= delivered /\ accounted total k) /\ k_shut k = k_shut k0
  end.

Definition dir_ok (t : SpliceThread) (k : Kern) : Prop :=
  k_dst k ++ k_pipe k ++ k_src k = k_dst k0 ++ k_src k0 /\ progress t k
  /\ (fine k0 -> fine k /\ match t with Ended (Err _) => False | _ => True end).

(** The calls a thread can still make. *)
Definition calls_left (t : SpliceThread) (k : Kern) : nat :=
  match t with
  | Ended _ => 0
  | _ => (length (k_answers k) + 2 * length (k_src k) + length (k_pipe k) + match t with Opening => 2 | _ => 1 end)%nat
  end.

Lemma amount_pos n len from : (0 < len)%nat -> from <> [] -> (0 < amount n len from <= length from)%nat.
Proof. intros Hl Hf. unfold amount. destruct from; [done|]. cbn [length]. lia. Qed.

Definition keeps_going (t t' : SpliceThread) (k k' : Kern) : Prop :=
  dir_ok t' k' /\ (calls_left t' k' <= calls_left t k - 1)%nat.

Lemma filling_moves n l total k :
  dir_ok (Filling total) k -> k_src k <> [] -> (fine k0 -> fine (mkKern [] [] [] l (k_nopipe k) 0 0)) ->
  (length l <= length (k_answers k))%nat ->
  let m := amount n SPLICE_CHUNK_BYTES (k_src k) in
  keeps_going (Filling total) (Draining total m m) k
    (mkKern (drop m (k_src k)) (k_pipe k ++ take m (k_src k)) (k_dst k) l (k_nopipe k) (k_shut k) (k_counted k))
  /\ (0 < m)%nat.
Proof.
  intros (Hb & (H0 & Hp & Hd & Ha & Hs) & Hf) Hsrc Hl Hll m.
  pose proof (amount_pos n SPLICE_CHUNK_BYTES (k_src k) splice_chunk_pos Hsrc) as Hm. fold m in Hm.
  split; [|lia]. split; [split_and!|].
  - cbn. rewrite Hp in *. cbn in *. by rewrite take_drop.
  - cbn. rewrite Hp, app_nil_l, length_take. split_and!; try done; lia.
  - intros Hq. split; [|done]. destruct (Hl Hq) as [H1 H2]. by split.
  - cbn. rewrite Hp. cbn [app length]. rewrite length_take, length_drop. lia.
Qed.

Lemma draining_moves n l total c remaining k :
  dir_ok (Draining total c remaining) k -> (fine k0 -> fine (mkKern [] [] [] l (k_nopipe k) 0 0)) ->
  (length l <= length (k_answers k))%nat ->
  let m := amount n remaining (k_pipe k) in
  let k' := mkKern (k_src k) (drop m (k_pipe k)) (k_dst k ++ take m (k_pipe k)) l (k_nopipe k) (k_shut k) (k_counted k) in
  (0 < m)%nat
  /\ ((m < remaining)%nat -> keeps_going (Draining total c remaining) (Draining total c (remaining - m)) k k')
  /\ ((remaining <= m)%nat ->
      keeps_going (Draining total c remaining) (Filling (as_u64 (total + Z.of_nat c))) k
        (mkKern (k_src k') (k_pipe k') (k_dst k') l (k_nopipe k) (k_shut k)
           (k_counted k + if accounting then Z.of_nat c else 0))).
Proof.
  intros (Hb & (H0 & Hp & Hr & Hd & Ha & Hs) & Hf) Hl Hll m k'.
  assert (Hne : k_pipe k <> []) by (intros E; rewrite E in Hp; simpl in Hp; lia).
  pose proof (amount_pos n remaining (k_pipe k) ltac:(lia) Hne) as Hm. fold m in Hm.
  assert (Hcat : (k_dst k ++ take m (k_pipe k)) ++ drop m (k_pipe k) ++ k_src k = k_dst k0 ++ k_src k0).
  { rewrite <- Hb, <- app_assoc. f_equal. by rewrite app_assoc, take_drop. }
  assert (Hfine : fine k0 -> fine (mkKern (k_src k) [] [] l (k_nopipe k) 0 0)) by (intros [? ?]%Hl; by split).
  split; [lia|]. split; intros Hc.
  - split; [split_and!|].
    + done.
    + cbn. rewrite length_app, length_take, length_drop. split_and!; try done; lia.
    + intros [? ?]%Hl. by split.
    + cbn. rewrite length_drop. lia.
  - assert (Hall : drop m (k_pipe k) = []) by (apply drop_ge; lia).
    assert (Hlen : Z.of_nat (length (k_dst k)) + Z.of_nat remaining <= Z.of_nat (length (k_dst k0)) + Z.of_nat (length (k_src k0))).
    { apply (f_equal length) in Hb. rewrite !length_app in Hb. lia. }
    assert (Hu : as_u64 (total + Z.of_nat c) = total + Z.of_nat c) by (apply Z.mod_small; lia). rewrite Hu.
    split; [split_and!|].
    + exact Hcat.
    + cbn. rewrite length_app, length_take. unfold accounted in *. cbn. destruct accounting; split_and!; try done; lia.
    + intros [? ?]%Hl. by split.
    + cbn. rewrite Hall. cbn [length]. lia.
Qed.

Lemma fine_answers t k l :
  dir_ok t k -> (forall a, a ∈ l -> a ∈ k_answers k) -> fine k0 -> fine (mkKern [] [] [] l (k_nopipe k) 0 0).
Proof.
  intros (_ & _ & Hf) Hl [[H1 H2] _]%Hf. split; [done|]. cbn. rewrite Forall_forall in H2. apply Forall_forall.
  intros a Ha. by apply H2, Hl.
Qed.

Definition is_ended (t : SpliceThread) : bool := match t with Ended _ => true | _ => false end.
Definition answered (l : list KAnswer) (k : Kern) : Kern :=
  mkKern (k_src k) (k_pipe k) (k_dst k) l (k_nopipe k) (k_shut k) (k_counted k).

(** An interrupted call moves nothing; one that fails ends the thread. *)
Lemma interrupted_ok t k l :
  dir_ok t k -> k_answers k = KInterrupt :: l -> is_ended t = false -> keeps_going t t k (answered l k).
Proof.
  intros Hk Ea Ht. split; [|destruct t; try done; cbn; rewrite Ea; cbn [length]; lia].
  pose proof (fine_answers t k l Hk ltac:(rewrite Ea; set_solver)) as Hfa. destruct Hk as (Hb & Hp & Hf).
  split_and!; [done|by destruct t|]. intros Hq. split; [destruct (Hfa Hq); by split|by apply Hf].
Qed.

Lemma failed_ok t k l e :
  dir_ok t k -> k_answers k = KFail e :: l -> is_ended t = false -> keeps_going t (Ended (Err e)) k (answered l k).
Proof.
  intros (Hb & Hp & Hf) Ea Ht. split; [|destruct t; try done; cbn; lia]. split_and!; [done| |].
  - destruct t as [|total|total c remaining|]; [..|done]; cbn in Hp |- *; (split; [|apply Hp]).
    + destruct Hp as (_ & ? & ? & _). exists 0. split; [lia|done].
    + destruct Hp as (? & _ & ? & ? & _). exists total. split; [lia|done].
    + destruct Hp as (? & ? & ? & ? & ? & _). exists total. split; [lia|done].
  - intros [[_ H2] _]%Hf. rewrite Ea in H2. apply Forall_cons in H2 as [[] _].
Qed.

Section Step.
Context (d : Direction) (w : Kernels).
Abbreviation k := (kern d w).

Definition step_ok (t : SpliceThread) (r : SpliceThread * Kernels) : Prop :=
  exists t' k', r = (t', set_kern d k' w) /\ keeps_going t t' k k'.

Lemma set_kern_same : set_kern d k w = w.
Proof. destruct w. by destruct d. Qed.

Lemma opening_ok : dir_ok Opening k -> step_ok Opening (splice_step accounting d Opening w).
Proof.
  intros (Hb & (P1 & P2 & P3 & P4) & Hf). cbn [splice_step pipe_new kernel_sys].
  destruct (k_nopipe k) as [e|] eqn:En.
  - exists (Ended (Err e)), k. split; [by rewrite set_kern_same|]. split; [|simpl; lia]. split_and!; [done| |].
    + cbn. split; [|done]. exists 0. split; [lia|done].
    + intros [[H1 _] _]%Hf. congruence.
  - exists (Filling 0), k. split; [by rewrite set_kern_same|]. split; [|simpl; lia]. split_and!; [done| |].
    + cbn. split_and!; try done; lia.
    + intros Hq. split; [|done]. by apply Hf.
Qed.

(** The source at its end. *)
Lemma filling_ends total n l :
  dir_ok (Filling total) k -> k_src k = [] -> (forall a, a ∈ l -> a ∈ k_answers k) ->
  let m := amount n SPLICE_CHUNK_BYTES (k_src k) in
  m = 0%nat /\ keeps_going (Filling total) (Ended (Ok total)) k
    (mkKern (drop m (k_src k)) (k_pipe k ++ take m (k_src k)) (k_dst k) l (k_nopipe k) (S (k_shut k)) (k_counted k)).
Proof.
  intros Hk Es Hl m. pose proof (fine_answers _ _ l Hk Hl) as Hfa. destruct Hk as (Hb & (P0 & P1 & P2 & P3 & P4) & Hf).
  assert (m = 0%nat) as -> by (subst m; rewrite Es; unfold amount; simpl; lia). split; [done|]. split; [|simpl; lia]. split_and!.
  - cbn. by rewrite take_0, drop_0, app_nil_r.
  - cbn. rewrite take_0, drop_0, app_nil_r. split_and!; try done; by rewrite P4.
  - intros Hq. split; [|done]. destruct (Hfa Hq). by split.
Qed.

Lemma filling_call total n l :
  dir_ok (Filling total) k -> (forall a, a ∈ l -> a ∈ k_answers k) -> (length l <= length (k_answers k))%nat ->
  let m := amount n SPLICE_CHUNK_BYTES (k_src k) in
  let k1 := mkKern (drop m (k_src k)) (k_pipe k ++ take m (k_src k)) (k_dst k) l (k_nopipe k) (k_shut k) (k_counted k) in
  step_ok (Filling total)
    (match m with O => (Ended (Ok total), shutdown_dst d (set_kern d k1 w)) | S _ => (Draining total m m, set_kern d k1 w) end).
Proof.
  intros Hk Hl Hll m k1. destruct (decide (k_src k = [])) as [Es|Es].
  - destruct (filling_ends total n l Hk Es Hl) as [Em Hg]. fold m in Em, Hg. rewrite Em. cbn [shutdown_dst kernel_sys].
    rewrite kern_set, set_kern_twice. eexists _, _. split; [done|]. rewrite Em in Hg. subst k1. rewrite Em. exact Hg.
  - destruct (filling_moves n l total k Hk Es (fine_answers _ _ l Hk Hl) Hll) as [Hg Hm]. fold m k1 in Hg, Hm.
    destruct m as [|m'] eqn:Em; [lia|]. eexists _, _. split; [done|exact Hg].
Qed.

Lemma filling_ok total : dir_ok (Filling total) k -> step_ok (Filling total) (splice_step accounting d (Filling total) w).
Proof.
  intros Hk. cbn [splice_step splice_in kernel_sys]. unfold kern_in. destruct (k_answers k) as [|[n| |e] l] eqn:Ea.
  - pose proof (filling_call total SPLICE_CHUNK_BYTES [] Hk ltac:(set_solver) ltac:(simpl; lia)) as E. cbv zeta in *.
    by destruct (amount _ _ _).
  - pose proof (filling_call total n l Hk ltac:(rewrite Ea; set_solver) ltac:(rewrite Ea; simpl; lia)) as E. cbv zeta in *.
    by destruct (amount _ _ _).
  - eexists _, _. split; [done|]. by apply (interrupted_ok (Filling total)).
  - eexists _, _. split; [done|]. by apply (failed_ok (Filling total)).
Qed.

Lemma draining_call total c remaining n l :
  dir_ok (Draining total c remaining) k -> (forall a, a ∈ l -> a ∈ k_answers k) -> (length l <= length (k_answers k))%nat ->
  let m := amount n remaining (k_pipe k) in
  let k1 := mkKern (k_src k) (drop m (k_pipe k)) (k_dst k ++ take m (k_pipe k)) l (k_nopipe k) (k_shut k) (k_counted k) in
  step_ok (Draining total c remaining)
    (match m with
     | O => (Ended (Ok total), shutdown_dst d (set_kern d k1 w))
     | S _ => if (0 <? remaining - m)%nat then (Draining total c (remaining - m), set_kern d k1 w)
              else (Filling (as_u64 (total + Z.of_nat c)), if accounting then splice_bytes d (Z.of_nat c) (set_kern d k1 w) else set_kern d k1 w)
     end).
Proof.
  intros Hk Hl Hll m k1. destruct (draining_moves n l total c remaining k Hk (fine_answers _ _ l Hk Hl) Hll) as (Hm & H1 & H2).
  fold m in Hm, H1, H2. fold k1 in H1, H2. destruct m as [|m'] eqn:Em; [lia|]. rewrite <- Em in *.
  destruct (Nat.ltb_spec 0 (remaining - m)).
  - eexists _, _. split; [done|]. apply H1. lia.
  - eexists _, _. split; [|apply H2; lia]. cbn [splice_bytes kernel_sys]. rewrite kern_set, set_kern_twice.
    destruct accounting; [done|]. by rewrite Z.add_0_r.
Qed.

Lemma draining_ok total c remaining :
  dir_ok (Draining total c remaining) k -> step_ok (Draining total c remaining) (splice_step accounting d (Draining total c remaining) w).
Proof.
  intros Hk. cbn [splice_step splice_out kernel_sys]. unfold kern_out. destruct (k_answers k) as [|[n| |e] l] eqn:Ea.
  - pose proof (draining_call total c remaining remaining [] Hk ltac:(set_solver) ltac:(simpl; lia)) as E. cbv zeta in *.
    by destruct (amount _ _ _).
  - pose proof (draining_call total c remaining n l Hk ltac:(rewrite Ea; set_solver) ltac:(rewrite Ea; simpl; lia)) as E. cbv zeta in *.
    by destruct (amount _ _ _).
  - eexists _, _. split; [done|]. by apply (interrupted_ok (Draining total c remaining)).
  - eexists _, _. split; [done|]. by apply (failed_ok (Draining total c remaining)).
Qed.

(** A call of a thread changes its own direction only, and is one of those it had left. *)
Lemma splice_step_ok t : dir_ok t k -> step_ok t (splice_step accounting d t w).
Proof.
  intros Hk. destruct t as [|total|total c remaining|r]; [by apply opening_ok|by apply filling_ok|by apply draining_ok|].
  exists (Ended r), k. split; [by cbn; rewrite set_kern_same|]. split; [done|simpl; lia].
Qed.
End Step.
End Direction.

(** *** Both directions *)

Definition thread (d : Direction) {W} (s : @Splice W) : SpliceThread := match d with Up => sp_up s | Down => sp_down s end.

#[local] Instance direction_eq_dec : EqDecision Direction.
Proof. solve_decision. Defined.

Definition turns (d : Direction) (sched : list Direction) : nat := length (List.filter (fun d' => bool_decide (d' = d)) sched).

(** A call touches nothing but its direction. *)
Lemma splice_step_frame accounting e t w : exists k, (splice_step accounting e t w).2 = set_kern e k w.
Proof.
  destruct t; cbn [splice_step pipe_new splice_in splice_out kernel_sys].
  - exists (kern e w). rewrite set_kern_same. by destruct (k_nopipe _).
  - destruct (kern_in _ _) as [[[|m]| |] k]; cbn [snd shutdown_dst kernel_sys]; rewrite ?set_kern_twice; by eexists.
  - destruct (kern_out _ _) as [[[|m]| |] k]; cbn [snd shutdown_dst kernel_sys]; rewrite ?set_kern_twice; try by eexists.
    destruct (0 <? _)%nat; [by eexists|]. destruct accounting; [|by eexists]. cbn [snd splice_bytes kernel_sys].
    rewrite set_kern_twice. by eexists.
  - exists (kern e w). by rewrite set_kern_same.
Qed.

Lemma splice_turn_frame accounting s d' :
  let s' := splice_turn accounting s d' in
  kn_closes (sp_world s') = kn_closes (sp_world s)
  /\ forall d, d' <> d -> thread d s' = thread d s /\ kern d (sp_world s') = kern d (sp_world s).
Proof.
  assert (H : exists t k, splice_step accounting d' (thread d' s) (sp_world s) = (t, set_kern d' k (sp_world s))).
  { destruct (splice_step_frame accounting d' (thread d' s) (sp_world s)) as [k E].
    destruct (splice_step _ _ _ _) as [t w]. cbn in E. subst w. by eexists _, _. }
  destruct H as (t & k & E). cbv zeta. destruct d'; cbn [splice_turn thread] in *; rewrite E; (split; [done|]); by intros [].
Qed.

(** A schedule gives each thread its calls, whatever the other does. *)
Lemma splice_run_ok accounting d k0 sched : Z.of_nat (length (k_src k0)) < 2 ^ 64 -> forall s,
  dir_ok accounting k0 (thread d s) (kern d (sp_world s)) ->
  let s' := splice_run accounting sched s in
  dir_ok accounting k0 (thread d s') (kern d (sp_world s'))
  /\ (calls_left (thread d s') (kern d (sp_world s')) <= calls_left (thread d s) (kern d (sp_world s)) - turns d sched)%nat.
Proof.
  intros Hsm. induction sched as [|d' sched IH]; intros s Hok; [split; [done|cbn; lia]|].
  change (splice_run accounting (d' :: sched) s) with (splice_run accounting sched (splice_turn accounting s d')).
  unfold turns. cbn [List.filter]. destruct (decide (d' = d)) as [->|Hne].
  - rewrite bool_decide_eq_true_2 by done. cbn [length]. fold (turns d sched).
    destruct (splice_step_ok accounting k0 Hsm d (sp_world s) (thread d s) Hok) as (t' & k' & E & Hok' & Hc).
    assert (H1 : thread d (splice_turn accounting s d) = t' /\ sp_world (splice_turn accounting s d) = set_kern d k' (sp_world s)).
    { destruct d; cbn [splice_turn thread] in *; by rewrite E. }
    destruct H1 as [Ht Hw]. destruct (IH (splice_turn accounting s d)) as (I1 & I2); [by rewrite Ht, Hw, kern_set|].
    rewrite Ht, Hw, kern_set in I2. split; [done|lia].
  - rewrite bool_decide_eq_false_2 by done. fold (turns d sched).
    destruct (splice_turn_frame accounting s d') as [_ Hother]. destruct (Hother d Hne) as [Ht Hk].
    destruct (IH (splice_turn accounting s d')) as (I1 & I2); [by rewrite Ht, Hk|]. rewrite Ht, Hk in I2. by split.
Qed.

Lemma splice_run_closes accounting sched s : kn_closes (sp_world (splice_run accounting sched s)) = kn_closes (sp_world s).
Proof.
  revert s. induction sched as [|d sched IH]; intros s; [done|].
  change (splice_run accounting (d :: sched) s) with (splice_run accounting sched (splice_turn accounting s d)).
  rewrite IH. apply splice_turn_frame.
Qed.

(** The calls that are enough for a direction. *)
Definition enough (k : Kern) : nat := (2 + length (k_answers k) + 2 * length (k_src k))%nat.

(** C38: two spliced sockets, once prepared, carry each other's bytes. However the calls of the two threads
    interleave, and whatever splice(2) makes of them, at every moment a destination has a
    prefix of its source's bytes in order, the rest being in the pipe or still to come, and
    no more bytes are accounted for than were delivered. A direction on which no call fails
    and that gets its calls, at most two for each byte and one for each partial or
    interrupted one, delivers every byte of its source, then ends its destination, once,
    with the exact count, also when the other direction fails; and when both threads are at
    their end the close is noted once and the counts of both directions are the result. *)
Theorem splice_carries_each_stream (accounting : bool) (sched : list Direction) (w : Kernels) :
  kn_refuses w = None ->
  (forall d, k_pipe (kern d w) = [] /\ Z.of_nat (length (k_src (kern d w))) < 2 ^ 64) ->
  let s := splice_run accounting sched (mkSplice Opening Opening w) in
  (forall d, let k := kern d w in let k' := kern d (sp_world s) in
     k_dst k' ++ k_pipe k' ++ k_src k' = k_dst k ++ k_src k
     /\ k_counted k' - k_counted k <= Z.of_nat (length (k_dst k')) - Z.of_nat (length (k_dst k))
     /\ (fine k -> (enough k <= turns d sched)%nat ->
         thread d s = Ended (Ok (Z.of_nat (length (k_src k)))) /\ k_dst k' = k_dst k ++ k_src k /\ k_shut k' = S (k_shut k)
         /\ (accounting = true -> k_counted k' = k_counted k + Z.of_nat (length (k_src k)))))
  /\ ((forall d, enough (kern d w) <= turns d sched)%nat ->
      exists r w', splice_tcp_streams accounting sched w = Some (r, w')
        /\ kn_closes w' = kn_closes w ++ (if accounting then [UpstreamEof] else [])
        /\ ((forall d, fine (kern d w)) ->
            r = Ok (mkSpliceStats (Z.of_nat (length (k_src (kn_up w)))) (Z.of_nat (length (k_src (kn_down w))))))).
Proof.
  intros Hp Hw s.
  assert (Hdir : forall d, dir_ok accounting (kern d w) (thread d s) (kern d (sp_world s))
    /\ ((enough (kern d w) <= turns d sched)%nat -> is_ended (thread d s) = true)).
  { intros d. destruct (Hw d) as [Hpipe Hsm]. destruct (splice_run_ok accounting d (kern d w) sched Hsm (mkSplice Opening Opening w)) as [Hok Hc].
    - assert (Ho : thread d (mkSplice Opening Opening w) = Opening) by (by destruct d). rewrite Ho. cbn [sp_world].
      split_and!; [by rewrite Hpipe| |done]. cbn. unfold accounted. split_and!; [done|lia|destruct accounting; lia|done].
    - split; [done|]. fold s in Hc. assert (thread d (mkSplice Opening Opening w) = Opening) as E by (by destruct d). rewrite E in Hc.
      unfold calls_left, enough in *. cbn [sp_world] in Hc. rewrite Hpipe in Hc. cbn [length] in Hc. intros Ht. destruct (thread d s); [lia..|done]. }
  assert (Hfine : forall d, fine (kern d w) -> (enough (kern d w) <= turns d sched)%nat ->
    thread d s = Ended (Ok (Z.of_nat (length (k_src (kern d w)))))).
  { intros d Hf Ht. destruct (Hdir d) as [(Hb & Hpr & Hq) He]. specialize (He Ht). destruct (Hq Hf) as [_ Hne].
    destruct (thread d s) as [| | |[total|e]]; try done. destruct Hpr as (_ & Q1 & Q2 & Q3 & _). do 2 f_equal.
    apply (f_equal length) in Hb. rewrite Q1, Q2, !length_app in Hb. cbn [length] in Hb. lia. }
  split.
  - intros d k k'. destruct (Hdir d) as [(Hb & Hpr & Hq) He]. split_and!; [done| |].
    + unfold progress, accounted in Hpr. destruct (thread d s) as [|t|t n rem|[t|e]]; [| | | |destruct Hpr as [(t & ? & ?) _]];
        subst k k'; destruct accounting; lia.
    + intros Hf Ht. specialize (Hfine d Hf Ht). rewrite Hfine in Hpr. destruct Hpr as (_ & Q1 & Q2 & Q3 & Q4 & Q5).
      split_and!; [done| |done|intros ->; exact Q4]. rewrite Q1, Q2, !app_nil_r in Hb. exact Hb.
  - intros Ht. unfold splice_tcp_streams. cbn [prepare_sockets kernel_sys]. rewrite Hp. fold s.
    pose proof (proj2 (Hdir Up) (Ht Up)) as E1. pose proof (proj2 (Hdir Down) (Ht Down)) as E2. cbn [thread] in E1, E2.
    pose proof (Hfine Up) as F1. pose proof (Hfine Down) as F2. cbn [thread kern] in F1, F2.
    destruct (sp_up s) as [| | |r1] eqn:Eu; try done. destruct (sp_down s) as [| | |r2] eqn:Ed; try done.
    eexists _, _. split; [reflexivity|]. split.
    + destruct accounting; cbn; rewrite ?app_nil_r; unfold s; by rewrite splice_run_closes.
    + intros Hf. specialize (F1 (Hf Up) (Ht Up)). specialize (F2 (Hf Down) (Ht Down)). injection F1 as ->. by injection F2 as ->.
Qed.

(** Upwards a call is interrupted and one moves two bytes; downwards the second call
    fails. *)
Definition kernels_a : Kernels :=
  mkKernels (mkKern [1; 2; 3] [] [] [KInterrupt; KMove 2; KMove 1] None 0 0) (mkKern [7; 8] [] [] [KMove 1; KFail "reset"] None 0 0) None [].
Definition sched_a : list Direction := concat (replicate 12 [Up; Down]).

Lemma splice_carries_each_stream_witness :
  thread Up (splice_run true sched_a (mkSplice Opening Opening kernels_a)) = Ended (Ok 3)
  /\ k_dst (kern Up (sp_world (splice_run true sched_a (mkSplice Opening Opening kernels_a)))) = [1; 2; 3]
  /\ k_shut (kern Up (sp_world (splice_run true sched_a (mkSplice Opening Opening kernels_a)))) = 1%nat
  /\ exists r w', splice_tcp_streams true sched_a kernels_a = Some (r, w') /\ kn_closes w' = [UpstreamEof].
Proof.
  destruct (splice_carries_each_stream true sched_a kernels_a) as [Hd Hr].
  - reflexivity.
  - intros []; split; try reflexivity; simpl; lia.
  - destruct (Hd Up) as (_ & _ & Hu). clear Hd. destruct Hu as (H1 & H2 & H3 & _).
    + split; [reflexivity|]. repeat constructor.
    + vm_compute. lia.
    + split; [rewrite H1; reflexivity|]. split; [rewrite H2; reflexivity|]. split; [rewrite H3; reflexivity|]. clear H1 H2 H3.
      destruct Hr as (r & w' & E & Hc & _); [intros []; vm_compute; lia|]. exists r, w'. split; [exact E|rewrite Hc; reflexivity].
Defined.

(** ** Shutdown *)

Inductive drain_reach (timed : bool) : Drain -> Drain -> Prop :=
| DrainHere d : drain_reach timed d d
| DrainThere d1 d2 d3 : drain_step timed d1 d2 -> drain_reach timed d2 d3 -> drain_reach timed d1 d3.

Lemma drain_trans timed a b c : drain_reach timed a b -> drain_reach timed b c -> drain_reach timed a c.
Proof. induction 1; [done|]. intros. econstructor; [done|]. by apply IHdrain_reach. Qed.

(** The dispatches that are in flight can all end. *)
Lemma drain_dispatches timed n a p : exists p', drain_reach timed (mkDrain n a p) (mkDrain 0 a p').
Proof.
  revert p. induction n as [|n IH]; intros p; [eexists; constructor|].
  destruct (IH (match n, p with O, Waiting => Looking | _, _ => p end)) as [p' H]. exists p'.
  econstructor; [apply DispatchEnds|exact H].
Qed.

(** A shutdown with a time-out comes to its end from wherever it is: it is always
    possible for it to see the bus drained or to run out, whatever is still in flight and
    whether or not new dispatches go on beginning. *)
Theorem timed_shutdown_can_always_end (d : Drain) :
  exists d', drain_reach true d d' /\ (phase d' = Drained \/ phase d' = TimedOutDrain).
Proof.
  destruct d as [n a p]. assert (L : exists d', drain_reach true (mkDrain n a Looking) d' /\ (phase d' = Drained \/ phase d' = TimedOutDrain)).
  { destruct n as [|n].
    - eexists. split; [econstructor; [apply HandleLooks|constructor]|by left].
    - eexists. split; [econstructor; [apply HandleLooks|econstructor; [by apply HandleIsLate|constructor]]|by right]. }
  destruct p; [exact L|..].
  - eexists. split; [econstructor; [by apply HandleIsLate|constructor]|by right].
  - eexists. split; [econstructor; [by apply HandleExpires|constructor]|by right].
  - eexists. split; [constructor|by left].
  - eexists. split; [constructor|by right].
Qed.

(** A shutdown without one may miss its only notification: the last dispatch ends between
    the handle's look at the counter and its registration, the loop has stopped, and
    nothing ever wakes the handle again. *)
Theorem shutdown_can_miss_its_wakeup :
  drain_reach false (mkDrain 1 true Looking) (mkDrain 0 false Waiting)
  /\ forall d, ~ drain_step false (mkDrain 0 false Waiting) d.
Proof.
  split.
  - econstructor; [apply HandleLooks|]. econstructor; [apply DispatchEnds|]. econstructor; [apply LoopStops|].
    econstructor; [apply HandleRegisters|]. constructor.
  - intros d H. inversion H; subst; done.
Qed.

(** And it may end too early: the loop goes on accepting frames after the handle saw the
    bus drained, so a dispatch may still be in flight when the loop has stopped. *)
Theorem drained_bus_may_dispatch_again (timed : bool) :
  drain_reach timed (mkDrain 0 true Looking) (mkDrain 1 false Drained).
Proof.
  econstructor; [apply HandleLooks|]. econstructor; [apply DispatchBegins; unfold DISPATCH_CONCURRENCY_LIMIT; lia|].
  econstructor; [apply LoopStops|]. constructor.
Qed.

(** ** The port and the rules *)

(** A fan-out hint, which a rule may set and the validation of a policy accepts, makes
    the port refuse every byte stream. *)
Theorem fanout_hint_refuses_streams `{!RuleLibs} (k : Z) (r : BusSessionRequest) :
  exists q, apply_one (SetScheduleHint (HFanOut k)) r = OAllow q
    /\ validate_projectable_action (SetScheduleHint (HFanOut k)) = Ok tt
    /\ validate_stream_request q = Err DAddressNotSupported.
Proof.
  eexists. split; [reflexivity|]. split; [reflexivity|]. unfold validate_stream_request. cbn.
  by repeat destruct (negb _).
Qed.
