(* ===== verification/EgressAdapter.v ===== *)
(** The egress adapters (crates/mesh-bus-core/src/egress_adapter.rs, egress_adapter/*.rs):
    what turns an egress's stream and datagram sessions into the plugin the dispatcher
    calls, frame by frame.  The egress and its clock are a class of parameters; its halves
    are those of [SessionWorld]. *)
From S2P Require Import Prelude Numbers Endpoint StateM Ingress Observation DispatchTypes Dispatch Session SessionFacts.
Local Open Scope Z_scope.

(** ** The egress behind an adapter *)

Class InnerEgress (W Tr : Type) := {
  inner_id : string;
  clock_ms : W -> Z * W;
  inner_open_stream : BusSessionRequest -> BusSessionInfo -> W -> result Tr DisconnectReason * W;
  inner_connect : Tr -> W -> result BusSessionInfo DisconnectReason * W;
  (** [into_tcp_splice] and [split] of a connected session *)
  inner_splice : Tr -> option Tr;
  inner_split : Tr -> Tr * Tr;
  inner_open_datagram : BusSessionRequest -> BusSessionInfo -> W -> result Tr DisconnectReason * W
}.

Definition request_from_frame (f : BusFrame) : BusSessionRequest :=
  mkSessionRequest (target f) (flow_semantics f) (traffic_class f) (deadline_ms f) (policy_ref f) (return_semantics f)
    (schedule_hint f) (source_key f) (target_key f) (route_group f) (target_sink f).

(** Until it is connected, a session's path is the target's. *)
Definition session_info_from_frame (f : BusFrame) (exit_id : string) (mode : ScheduleMode) : BusSessionInfo :=
  mkInfo (session_id f) (flow_id f)
    (match schedule_hint f with FanOut _ => ModeReplicate | Stripe _ => ModeStripe | Auto | SinglePath => mode end)
    [mkPath exit_id (target f) (target f) 0] 0.

Definition primary_path (i : BusSessionInfo) : option BusPathInfo := info_paths i !! info_primary i.

(** The numbers of the sends to a target that wait for their answers, oldest first. *)
Abbreviation PendingDatagramSeqs := (gmap string (list Z)).

Section Adapters.
Context {W Tr : Type} `{!SessionWorld W Tr} `{!InnerEgress W Tr}.

(** [start.elapsed()] *)
Definition exit_result (ok : bool) (start : Z) (local : option Endpoint) (e : ReturnEvent) (w : W) : ExitResult * W :=
  let '(now, w) := clock_ms w in (mkExitResult inner_id ok (now - start) local e, w).

(** ** Streams *)

(** The sessions by their ids: the two halves. *)
Abbreviation StreamSessions := (gmap string (Tr * Tr)).

Definition open_for_frame (f : BusFrame) (m : StreamSessions) (w : W) :
    result (option Endpoint * Z) DisconnectReason * StreamSessions * W :=
  match inner_open_stream (request_from_frame f) (session_info_from_frame f inner_id ModeOrdered) w with
  | (Err e, w) => (Err e, m, w)
  | (Ok t, w) =>
      match inner_connect t w with
      | (Err e, w) => (Err e, m, w)
      | (Ok i, w) =>
          (Ok (path_local <$> primary_path i, default 0 (path_rtt_ms <$> primary_path i)), <[session_id f := inner_split t]> m, w)
      end
  end.

(** [open_forwarder_stream]: the session goes to the dispatcher instead of the table. *)
Definition adapter_open_forwarder (f : BusFrame) (w : W) : result (@OpenedForwarderStream Tr) DisconnectReason * W :=
  let '(start, w) := clock_ms w in
  match inner_open_stream (request_from_frame f) (session_info_from_frame f inner_id ModeOrdered) w with
  | (Err e, w) => (Err e, w)
  | (Ok t, w) =>
      match inner_connect t w with
      | (Err e, w) => (Err e, w)
      | (Ok i, w) =>
          let '(now, w) := clock_ms w in
          let rtt := match path_rtt_ms <$> primary_path i with Some r => if 0 <? r then r else now - start | None => now - start end in
          (Ok (mkOpenedStream (path_local <$> primary_path i) rtt
                 (match inner_splice t with Some sp => TcpSplice sp | None => Halves (inner_split t).1 (inner_split t).2 end)), w)
      end
  end.

Definition stream_send_frame (f : BusFrame) (m : StreamSessions) (w : W) : ExitResult * StreamSessions * W :=
  let '(start, w) := clock_ms w in
  let done ok local e m w := let '(r, w) := exit_result ok start local e w in (r, m, w) in
  let payload_of local m w :=
    match m !! session_id f with
    | None => done false None (Closed NotConnected) m w
    | Some halves =>
        match tr_send halves.1 (payload f) w with
        | (Ok _, w) => done true local Idle m w
        | (Err e, w) => done false local (Closed (close_from_disconnect e)) m w
        end
    end in
  match kind f with
  | KClose | KCancel =>
      let w := match m !! session_id f with Some h => tr_abort h.1 DSessionClosed w | None => w end in
      done true None (Closed SessionClosed) (delete (session_id f) m) w
  | KShutdownWrite =>
      let w := match m !! session_id f with Some h => tr_shutdown h.1 w | None => w end in
      done true None Idle m w
  | KOpen | KData | KDatagram | KProbe =>
      match m !! session_id f with
      | Some _ => payload_of None m w
      | None =>
          match open_for_frame f m w with
          | (Err e, m, w) => done false None (Closed (close_from_disconnect e)) m w
          | (Ok (local, rtt), m, w) =>
              match kind f with
              | KOpen => done true local (Connected inner_id local rtt) m w
              | _ => payload_of local m w
              end
          end
      end
  end.

Definition stream_poll (sid : string) (m : StreamSessions) (w : W) : ReturnEvent * W :=
  match m !! sid with
  | None => (Idle, w)
  | Some h =>
      match tr_recv h.2 w with
      | (Some p, w) => (Data 0 p, w)
      | (None, w) => (Closed (match tr_last_error h.2 w with Some e => close_from_disconnect e | None => ReaderClosed end), w)
      end
  end.

Definition stream_close (sid : string) (m : StreamSessions) (w : W) : StreamSessions * W :=
  (delete sid m, match m !! sid with Some h => tr_abort h.1 DSessionClosed w | None => w end).

(** ** Datagrams (datagram.rs, datagram_pending.rs) *)

Definition datagram_key (e : Endpoint) : string := endpoint_fmt e.

Definition push_pending_seq (t : Endpoint) (sq : Z) (p : PendingDatagramSeqs) : PendingDatagramSeqs :=
  <[datagram_key t := default [] (p !! datagram_key t) ++ [sq]]> p.

Definition store_queue (k : string) (q : list Z) (p : PendingDatagramSeqs) : PendingDatagramSeqs :=
  match q with [] => delete k p | _ :: _ => <[k := q]> p end.

Definition pop_pending_seq (src : Endpoint) (p : PendingDatagramSeqs) : option Z * PendingDatagramSeqs :=
  match p !! datagram_key src with
  | None => (None, p)
  | Some q => (head q, store_queue (datagram_key src) (tail q) p)
  end.

(** The first occurrence of a number is removed. *)
Fixpoint remove_first (sq : Z) (q : list Z) : list Z :=
  match q with [] => [] | x :: q => if x =? sq then q else x :: remove_first sq q end.

Definition remove_pending_seq (t : Endpoint) (sq : Z) (p : PendingDatagramSeqs) : PendingDatagramSeqs :=
  match p !! datagram_key t with
  | None => p
  | Some q => store_queue (datagram_key t) (remove_first sq q) p
  end.

Record DatagramState := mkDgState { da_send : Tr; da_recv : Tr; pending_by_source : PendingDatagramSeqs }.
Abbreviation DatagramSessions := (gmap string DatagramState).

Definition open_for_datagram (f : BusFrame) (m : DatagramSessions) (w : W) : result unit CloseReason * DatagramSessions * W :=
  match inner_open_datagram (request_from_frame f) (session_info_from_frame f inner_id ModeOrdered) w with
  | (Err e, w) => (Err (close_from_disconnect e), m, w)
  | (Ok t, w) => (Ok tt, <[session_id f := mkDgState (inner_split t).1 (inner_split t).2 ∅]> m, w)
  end.

(** [open_forwarder_datagram] *)
Definition adapter_open_forwarder_datagram (f : BusFrame) (w : W) : result (@OpenedForwarderDatagram Tr) DisconnectReason * W :=
  let '(start, w) := clock_ms w in
  match inner_open_datagram (request_from_frame f) (session_info_from_frame f inner_id ModeOrdered) w with
  | (Err e, w) => (Err e, w)
  | (Ok t, w) => let '(now, w) := clock_ms w in (Ok (mkOpenedDatagram None (now - start) (inner_split t)), w)
  end.

Definition close_of_send_error (e : DatagramError) : CloseReason :=
  match e with DgPayloadTooLarge | DgAddressNotSupported => AddressNotSupported | DgBufferFull => TimedOut | DgClosed => SessionClosed end.

(** A send on a session that is there. *)
Definition send_on_session (f : BusFrame) (st : DatagramState) (w : W) : option CloseReason * DatagramState * W :=
  let p := push_pending_seq (target f) (f_seq f) (pending_by_source st) in
  match tr_send_to (da_send st) (target f) (payload f) w with
  | (Ok _, w) => (None, mkDgState (da_send st) (da_recv st) p, w)
  | (Err e, w) => (Some (close_of_send_error e), mkDgState (da_send st) (da_recv st) (remove_pending_seq (target f) (f_seq f) p), w)
  end.

Definition datagram_send_frame (f : BusFrame) (m : DatagramSessions) (w : W) : ExitResult * DatagramSessions * W :=
  let '(start, w) := clock_ms w in
  let done ok e m w := let '(r, w) := exit_result ok start None e w in (r, m, w) in
  match kind f with
  | KClose | KCancel =>
      let w := match m !! session_id f with Some st => tr_close (da_send st) w | None => w end in
      done true (Closed SessionClosed) (delete (session_id f) m) w
  | _ =>
      let '(r, m, w) := match m !! session_id f with Some _ => (Ok tt, m, w) | None => open_for_datagram f m w end in
      match r with
      | Err reason => done false (Closed reason) m w
      | Ok _ =>
          match m !! session_id f with
          | None => done false (Closed NotConnected) m w
          | Some st =>
              let '(failed, st, w) := send_on_session f st w in
              let m := <[session_id f := st]> m in
              match failed with
              | Some reason => done false (Closed reason) m w
              | None => done true Idle m w
              end
          end
      end
  end.

(** An answer takes the oldest number of its source, or 0 if there is none. *)
Definition datagram_poll (sid : string) (m : DatagramSessions) (w : W) : ReturnEvent * DatagramSessions * W :=
  match m !! sid with
  | None => (Idle, m, w)
  | Some st =>
      match tr_recv_from (da_recv st) w with
      | (Some (src, b), w) =>
          let '(sq, p) := pop_pending_seq src (pending_by_source st) in
          (Data (default 0 sq) b, <[sid := mkDgState (da_send st) (da_recv st) p]> m, w)
      | (None, w) =>
          (Closed (match tr_last_error (da_recv st) w with Some e => close_from_disconnect e | None => UpstreamEof end), m, w)
      end
  end.

Definition datagram_adapter_close (sid : string) (m : DatagramSessions) (w : W) : DatagramSessions * W :=
  (delete sid m, match m !! sid with Some st => tr_close (da_send st) w | None => w end).
End Adapters.

(** ** Numbers of answers *)

(** A send to a target with its number, or an answer from a source. *)
Inductive PendingOp := Sends (t : Endpoint) (sq : Z) | Answers (src : Endpoint).

Fixpoint run_pending (ops : list PendingOp) (p : PendingDatagramSeqs) : list (option Z) :=
  match ops with
  | [] => []
  | Sends t sq :: ops => run_pending ops (push_pending_seq t sq p)
  | Answers src :: ops => let '(r, p) := pop_pending_seq src p in r :: run_pending ops p
  end.

(** The sends that are not answered yet, in order; an answer is the oldest one's to its
    source. *)
Fixpoint take_first (k : string) (l : list (string * Z)) : option Z * list (string * Z) :=
  match l with
  | [] => (None, [])
  | (k', sq) :: l => if String.eqb k' k then (Some sq, l) else let '(r, l) := take_first k l in (r, (k', sq) :: l)
  end.

Fixpoint pending_spec (ops : list PendingOp) (l : list (string * Z)) : list (option Z) :=
  match ops with
  | [] => []
  | Sends t sq :: ops => pending_spec ops (l ++ [(datagram_key t, sq)])
  | Answers src :: ops => let '(r, l) := take_first (datagram_key src) l in r :: pending_spec ops l
  end.

Definition queue_of (k : string) (l : list (string * Z)) : list Z := (List.filter (fun x => String.eqb x.1 k) l).*2.

Definition pending_repr (p : PendingDatagramSeqs) (l : list (string * Z)) : Prop :=
  forall k, p !! k = match queue_of k l with [] => None | q => Some q end.

Lemma queue_app k l x : queue_of k (l ++ [x]) = queue_of k l ++ (if String.eqb x.1 k then [x.2] else []).
Proof. unfold queue_of. rewrite List.filter_app, fmap_app. cbn. by destruct (String.eqb x.1 k). Qed.

Lemma take_first_spec k l :
  (take_first k l).1 = head (queue_of k l)
  /\ forall k', queue_of k' (take_first k l).2 = if String.eqb k' k then tail (queue_of k' l) else queue_of k' l.
Proof.
  unfold queue_of. induction l as [|[k0 sq] l [IH1 IH2]]; cbn [take_first List.filter fst].
  - split; [done|]. intros k'. by destruct (String.eqb k' k).
  - destruct (String.eqb_spec k0 k) as [->|Hne]; cbn [fst snd].
    + split; [done|]. intros k'. rewrite (String.eqb_sym k k'). by destruct (String.eqb_spec k' k) as [->|].
    + destruct (take_first k l) as [r l']. cbn [fst snd] in *. split; [done|]. intros k'. cbn [List.filter fst].
      destruct (String.eqb_spec k0 k') as [->|Hne'].
      * rewrite (proj2 (String.eqb_neq k' k) Hne). cbn. f_equal. specialize (IH2 k'). by rewrite (proj2 (String.eqb_neq k' k) Hne) in IH2.
      * apply IH2.
Qed.

Lemma repr_push t sq p l : pending_repr p l -> pending_repr (push_pending_seq t sq p) (l ++ [(datagram_key t, sq)]).
Proof.
  intros H k. unfold push_pending_seq. rewrite queue_app. cbn [fst snd]. destruct (String.eqb_spec (datagram_key t) k) as [<-|Hne].
  - rewrite lookup_insert_eq, H. destruct (queue_of (datagram_key t) l) as [|x q]; done.
  - rewrite lookup_insert_ne, app_nil_r by done. apply H.
Qed.

Lemma repr_pop src p l : pending_repr p l ->
  (pop_pending_seq src p).1 = (take_first (datagram_key src) l).1
  /\ pending_repr (pop_pending_seq src p).2 (take_first (datagram_key src) l).2.
Proof.
  intros H. destruct (take_first_spec (datagram_key src) l) as [T1 T2]. unfold pop_pending_seq. pose proof (H (datagram_key src)) as Hk. rewrite Hk.
  destruct (queue_of (datagram_key src) l) as [|x q] eqn:Eq.
  - split; [by rewrite T1|]. intros k. rewrite T2. cbn [snd]. destruct (String.eqb_spec k (datagram_key src)) as [->|]; [|apply H].
    by rewrite Hk, Eq.
  - split; [by rewrite T1|]. intros k. rewrite T2. cbn [snd tail]. unfold store_queue.
    destruct (String.eqb_spec k (datagram_key src)) as [->|Hne].
    + rewrite Eq. cbn [tail]. destruct q; [by rewrite lookup_delete_eq|by rewrite lookup_insert_eq].
    + destruct q; [rewrite lookup_delete_ne|rewrite lookup_insert_ne]; try done; apply H.
Qed.

(** an adapter numbers the answers of its datagrams as if it kept one list of the
    sends that are not answered yet: each answer takes the number of the oldest send to a
    target written like its source, so no number is given out twice, and an answer from
    anywhere else has none. *)
Theorem answers_take_the_oldest_send (ops : list PendingOp) : run_pending ops ∅ = pending_spec ops [].
Proof.
  assert (G : forall ops p l, pending_repr p l -> run_pending ops p = pending_spec ops l).
  { clear. induction ops as [|[t sq|src] ops IH]; intros p l H; cbn [run_pending pending_spec]; [done|..].
    - apply IH. by apply repr_push.
    - destruct (repr_pop src p l H) as [E R]. destruct (pop_pending_seq src p), (take_first (datagram_key src) l). cbn [fst snd] in *.
      subst. f_equal. by apply IH. }
  apply G. intros k. by rewrite lookup_empty.
Qed.

(** *** What an answer without a number comes to *)

(** The dispatcher returns an event with a packet number once: of a datagram session,
    whose answers it numbers by what the adapter says, the second answer with a number is
    taken and given up. *)
Lemma second_return_is_dropped {W Tr} (s : @Runtime W Tr) (ch : nat) (f : BusFrame) (ev : ReturnEvent) (pid : Z) :
  return_semantics f <> Direct -> (flow_id f, pid) ∈ packet_returns s ->
  exists s', send_return_with_packet_id ch f ev pid s = Some (true, s') /\ returned s' = returned s.
Proof.
  intros Hd Hin. unfold send_return_with_packet_id. rewrite bool_decide_eq_false_2 by done.
  unfold mbind, M_bind, gets, modify. rewrite bool_decide_eq_true_2 by done. eexists. split; [reflexivity|done].
Qed.

(** Answers from a source that no datagram was sent to by that name, such as the address
    of a target that was named by its host name, are all numbered 0; the dispatcher returns
    one event of a flow with that number and drops the others. *)
Theorem answers_of_a_named_target_are_lost {W Tr} (named actual : Endpoint) (sq : Z) (p : PendingDatagramSeqs) (s : @Runtime W Tr) (ch : nat)
    (f : BusFrame) (b : list Z) :
  p = push_pending_seq named sq ∅ -> datagram_key named <> datagram_key actual ->
  return_semantics f = PacketDedup -> (flow_id f, 0) ∈ packet_returns s ->
  default 0 (pop_pending_seq actual p).1 = 0 /\ (pop_pending_seq actual p).2 = p
  /\ exists s', send_return_with_packet_id ch f (Data (default 0 (pop_pending_seq actual p).1) b) 0 s = Some (true, s')
       /\ returned s' = returned s.
Proof.
  intros -> Hne Hr Hin. assert (E : pop_pending_seq actual (push_pending_seq named sq ∅) = (None, push_pending_seq named sq ∅)).
  { unfold pop_pending_seq, push_pending_seq. by rewrite lookup_insert_ne, lookup_empty. }
  rewrite E. split; [done|]. split; [done|]. apply second_return_is_dropped; [by rewrite Hr|done].
Qed.

(** ** Streams through an adapter *)

(** An exit that takes everything, and what it was given. *)
Inductive ExitEffect := ExOpened (r : BusSessionRequest) | ExSent (b : list Z) | ExShut | ExAborted.
Record Exit := mkExit { ex_clock : Z; ex_log : list ExitEffect }.
Definition ex_add (e : ExitEffect) (x : Exit) : Exit := mkExit (ex_clock x) (ex_log x ++ [e]).

#[export] Instance exit_world : SessionWorld Exit unit := {|
  submit _ x := (false, x);
  recv_return x := (None, x);
  take_stream _ x := (None, x);
  take_datagram _ x := (None, x);
  probe_insert _ x := x;
  probe_remove _ x := x;
  probe_wait x := (None, x);
  tr_send _ b x := (Ok tt, ex_add (ExSent b) x);
  tr_shutdown _ x := ex_add ExShut x;
  tr_abort _ _ x := ex_add ExAborted x;
  tr_recv _ x := (None, x);
  tr_last_error _ _ := None;
  tr_send_to _ _ b x := (Ok tt, ex_add (ExSent b) x);
  tr_recv_from _ x := (None, x);
  tr_close _ x := ex_add ExAborted x;
  splice_halves _ x := (None, x);
  io_write _ _ x := (Err IoNotConnected, x);
  io_read _ x := (Err IoNotConnected, x);
  count _ _ _ x := x;
  close_once _ _ x := x
|}.

#[export] Instance exit_inner : InnerEgress Exit unit := {|
  inner_id := "exit"%string;
  clock_ms x := (ex_clock x, mkExit (ex_clock x + 1) (ex_log x));
  inner_open_stream r _ x := (Ok tt, ex_add (ExOpened r) x);
  inner_connect _ x := (Ok (mkInfo "" "" ModeOrdered [] 0), x);
  inner_splice _ := None;
  inner_split _ := (tt, tt);
  inner_open_datagram r _ x := (Ok tt, ex_add (ExOpened r) x)
|}.

(** Frames one after the other, each of whose results must be a success. *)
Fixpoint send_frames (fs : list BusFrame) (m : gmap string (unit * unit)) (x : Exit) : option (gmap string (unit * unit) * Exit) :=
  match fs with
  | [] => Some (m, x)
  | f :: fs => let '(r, m, x) := stream_send_frame f m x in if success r then send_frames fs m x else None
  end.

Lemma send_frames_app fs gs m x m' x' : send_frames fs m x = Some (m', x') -> send_frames (fs ++ gs) m x = send_frames gs m' x'.
Proof.
  revert m x. induction fs as [|f fs IH]; intros m x; cbn [send_frames app]; [by intros [= -> ->]|].
  destruct (stream_send_frame f m x) as [[r m1] x1]. destruct (success r); [apply IH|done].
Qed.

(** The frames of a session's pieces, from a sequence number on. *)
Fixpoint data_frames (hash : string -> string -> Z -> Z) (sid : string) (q : BusSessionRequest) (sq : Z) (ps : list (list Z)) : list BusFrame :=
  match ps with
  | [] => []
  | p :: ps => apply_request (frame_data hash sid sq (rq_target q) p) q :: data_frames hash sid q (sq + 1) ps
  end.

Section Through.
Context (hash : string -> string -> Z -> Z).

Lemma send_data_frames sid q sq ps (m : gmap string (unit * unit)) x : m !! sid = Some (tt, tt) ->
  exists x', send_frames (data_frames hash sid q sq ps) m x = Some (m, x') /\ ex_log x' = ex_log x ++ (ExSent <$> ps).
Proof.
  intros Hm. revert sq x. induction ps as [|p ps IH]; intros sq x; cbn [data_frames send_frames].
  - exists x. by rewrite app_nil_r.
  - unfold stream_send_frame. cbn. rewrite Hm. cbn.
    match goal with |- context [send_frames _ m ?y] => destruct (IH (sq + 1) y) as (x' & E & L) end.
    exists x'. split; [exact E|]. rewrite L. cbn. by rewrite <- app_assoc.
Qed.

(** the frames of a stream session, taken one after the other by the adapter of an
    exit, open one session there with the very request of the client's session, give it
    the client's pieces in order and unchanged, and then the end of the client's side. *)
Theorem frames_reach_the_exit_in_order (sid : string) (q : BusSessionRequest) (ps : list (list Z)) (m : gmap string (unit * unit)) (x : Exit) :
  m !! sid = None ->
  let fs := [apply_request (frame_open hash sid (rq_target q)) q] ++ data_frames hash sid q 0 ps
            ++ [apply_request (frame_shutdown_write hash sid (Z.of_nat (length ps)) (rq_target q)) q] in
  exists x', send_frames fs m x = Some (<[sid := (tt, tt)]> m, x')
    /\ ex_log x' = ex_log x ++ [ExOpened q] ++ (ExSent <$> ps) ++ [ExShut].
Proof.
  intros Hm fs. subst fs. cbn [app send_frames]. unfold stream_send_frame at 1. cbn [kind apply_request frame_open session_id]. cbn.
  rewrite Hm. cbn. destruct q as [t fl tc dl pr rs hint sk tk rg ts].
  match goal with |- context [send_frames _ _ ?y] =>
    destruct (send_data_frames sid (mkSessionRequest t fl tc dl pr rs hint sk tk rg ts) 0 ps (<[sid := (tt, tt)]> m) y (lookup_insert_eq _ _ _)) as (x1 & E & L) end.
  cbn in E, L |- *. rewrite (send_frames_app _ _ _ _ _ _ E). cbn [send_frames]. unfold stream_send_frame. cbn. rewrite lookup_insert_eq. cbn.
  eexists. split; [reflexivity|]. cbn. rewrite L. by rewrite <- !app_assoc.
Qed.
End Through.

Lemma frames_reach_the_exit_in_order_witness :
  let q := request_stream (mkEndpoint "h" 80) in let hash := fun _ _ _ => 0 in
  exists x', send_frames ([apply_request (frame_open hash "s-1" (rq_target q)) q] ++ data_frames hash "s-1" q 0 [[1]; [2]]
      ++ [apply_request (frame_shutdown_write hash "s-1" (Z.of_nat 2) (rq_target q)) q]) ∅ (mkExit 0 [])
    = Some (<["s-1"%string := (tt, tt)]> ∅, x')
    /\ ex_log x' = [] ++ [ExOpened q] ++ (ExSent <$> [[1]; [2]]) ++ [ExShut].
Proof.
  exact (frames_reach_the_exit_in_order (fun _ _ _ => 0) "s-1" (request_stream (mkEndpoint "h" 80)) [[1]; [2]] ∅ (mkExit 0 []) (lookup_empty _)).
Defined.
