(* ===== verification/Egress.v ===== *)
(** The exits that end in a socket (crates/mesh-bus-egress-tcp, -udp, -socks5 and
    -service, and the TCP dialling of lib/mb-socket-tune): the sessions they open, the
    SOCKS5 client handshake, and the halves of their sessions; and the mesh egress with
    the opening and closing of its sessions (crates/mesh-bus-egress-mesh-peer-udp/src/lib.rs).

    The calls of a socket are a class of parameters.  A wait under a time-out is [None]
    when it is over before the call; outside of that the durations do not appear.  A
    [String] a failing call is reported with is part of its error. *)
From S2P Require Import Prelude Numbers NetAddr Endpoint Schedulers ResolverRun KernelRegistry Pipeline Hooks.
From S2P Require Import MeshWire MeshSec UdpLoop MeshPeer.
From S2P Require Import DispatchTypes Dispatch Ingress Session Socks5 Socks5Ingress.
Local Open Scope string_scope.
Local Open Scope Z_scope.

(** ** Sockets *)

(** A wait for a datagram or the closing of the session: it is closed, or there is a
    datagram with its source, or an error with its text. *)
Inductive DatagramWait := WaitClosed | WaitGot (b : list Z) (from : SocketAddr) | WaitFailed (text : string).

Class ExitSockets (W Sk : Type) := {
  (** [lookup_host], [TcpSocket::new_v4] or [new_v6], the two buffer sizes, [connect] *)
  lookup_host : string -> W -> option (result (list SocketAddr) IoKind) * W;
  tcp_socket : bool -> W -> result Sk IoKind * W;
  set_recv_buffer : Sk -> Z -> W -> result unit IoKind * W;
  set_send_buffer : Sk -> Z -> W -> result unit IoKind * W;
  socket_connect : Sk -> SocketAddr -> W -> option (result unit IoKind) * W;
  (** [TcpStream::connect] *)
  tcp_dial : string -> W -> option (result Sk IoKind) * W;
  sk_local_addr : Sk -> W -> result SocketAddr IoKind;
  sk_peer_addr : Sk -> W -> result SocketAddr IoKind;
  (** the text of an error, and [into_std] *)
  io_error_text : IoKind -> string;
  into_std : Sk -> W -> result Sk IoKind * W;
  (** a read of at most so many bytes: none at the end of the stream *)
  sk_read : Sk -> nat -> W -> option (result (list Z) IoKind) * W;
  sk_write_all : Sk -> list Z -> W -> option (result unit IoKind) * W;
  sk_shutdown : Sk -> W -> W;
  (** [UdpSocket::bind("0.0.0.0:0")], [connect], [send_to], [send] and [recv_from] *)
  udp_any : W -> result Sk IoKind * W;
  udp_connect : Sk -> string -> W -> result unit IoKind * W;
  udp_send_to : Sk -> string -> list Z -> W -> option (result unit IoKind) * W;
  udp_send_connected : Sk -> list Z -> W -> option (result unit IoKind) * W;
  udp_wait : Sk -> W -> DatagramWait * W;
  udp_wait_timed : Sk -> W -> option DatagramWait * W
}.

(** [disconnect_reason] of the TCP egress *)
Definition disconnect_reason (k : IoKind) : DisconnectReason :=
  match k with
  | IoRefused => DConnectionRefused | IoTimedOut => DTimedOut | IoNotConnected => DNotConnected
  | IoReset | IoBrokenPipe => DConnectionReset | IoUnexpectedEof => DUpstreamEof | IoOther s => DOther s
  end.

(** [tokio::time::timeout(..).await] and its two errors *)
Definition timed_io {A} (r : option (result A IoKind)) : result A DisconnectReason :=
  match r with
  | None => Err DTimedOut
  | Some (Err k) => Err (disconnect_reason k)
  | Some (Ok a) => Ok a
  end.

(** [Endpoint::new(..).expect(..)]: [None] is the panic, for port 0. *)
Definition endpoint_from_socket_addr (a : SocketAddr) : option Endpoint :=
  match endpoint_new (ip_text a) (sock_port a) with Ok e => Some e | Err _ => None end.

(** [format!("{}:{}", host, port)], without the brackets of an IPv6 address *)
Definition host_port (e : Endpoint) : string := host e +:+ ":" +:+ dec_show (port e).

(** ** Dialling (mb-socket-tune) *)

Record SocketBufferConfig := mkBuffers { recv_bytes : option Z; send_bytes : option Z }.
Definition no_buffers : SocketBufferConfig := mkBuffers None None.
Definition is_disabled (c : SocketBufferConfig) : bool :=
  match recv_bytes c, send_bytes c with None, None => true | _, _ => false end.

Section Exits.
Context {W Sk : Type} `{!ExitSockets W Sk}.

Definition u32_buffer_size (n : Z) : result Z IoKind :=
  if n <=? 2 ^ 32 - 1 then Ok n else Err (IoOther "socket buffer size exceeds u32::MAX").

Definition set_if (set : Sk -> Z -> W -> result unit IoKind * W) (n : option Z) (sk : Sk) (w : W) : result unit IoKind * W :=
  match n with None => (Ok tt, w) | Some n => set sk n w end.

Definition apply_sock_ref (c : SocketBufferConfig) (sk : Sk) (w : W) : result unit IoKind * W :=
  match set_if set_recv_buffer (recv_bytes c) sk w with
  | (Err k, w) => (Err k, w)
  | (Ok _, w) => set_if set_send_buffer (send_bytes c) sk w
  end.

Definition apply_udp_socket_buffers (c : SocketBufferConfig) (sk : Sk) (w : W) : result unit IoKind * W :=
  if is_disabled c then (Ok tt, w) else apply_sock_ref c sk w.

Definition apply_tcp_socket_buffers (c : SocketBufferConfig) (sk : Sk) (w : W) : result unit IoKind * W :=
  let checked set sk n w := match u32_buffer_size n with Err k => (Err k, w) | Ok n => set sk n w end in
  match set_if (checked set_recv_buffer) (recv_bytes c) sk w with
  | (Err k, w) => (Err k, w)
  | (Ok _, w) => set_if (checked set_send_buffer) (send_bytes c) sk w
  end.

Definition is_ipv4 (a : SocketAddr) : bool := match a with SockV4 _ _ => true | SockV6 _ _ _ => false end.

(** The addresses one after the other: only a connect that fails goes on to the next. *)
Fixpoint connect_first (peers : list SocketAddr) (last : option IoKind) (c : SocketBufferConfig) (w : W) :
    option (result Sk IoKind) * W :=
  match peers with
  | [] => (Some (Err (default (IoOther "address resolved to no endpoints") last)), w)
  | peer :: peers =>
      match tcp_socket (is_ipv4 peer) w with
      | (Err k, w) => (Some (Err k), w)
      | (Ok sk, w) =>
          match apply_tcp_socket_buffers c sk w with
          | (Err k, w) => (Some (Err k), w)
          | (Ok _, w) =>
              match socket_connect sk peer w with
              | (None, w) => (None, w)
              | (Some (Ok _), w) => (Some (Ok sk), w)
              | (Some (Err k), w) => connect_first peers (Some k) c w
              end
          end
      end
  end.

Definition connect_tcp (addr : string) (c : SocketBufferConfig) (w : W) : option (result Sk IoKind) * W :=
  match lookup_host addr w with
  | (None, w) => (None, w)
  | (Some (Err k), w) => (Some (Err k), w)
  | (Some (Ok peers), w) => connect_first peers None c w
  end.

(** ** What comes back from a stream *)

(** The task that reads a stream, what it has read and not sent yet, and the channel to
    the receiving half. *)
Inductive Item := Chunk (b : list Z) | Ended (r : DisconnectReason).
Record Returns := mkReturns { rt_reading : bool; rt_held : option Item; rt_queue : list Item }.

Definition returns_new : Returns := mkReturns true None [].

(** [read_returns]: what the next read is made into; the task ends after its end. *)
Definition item_of_read (r : result (list Z) IoKind) : Item :=
  match r with
  | Ok [] => Ended DUpstreamEof
  | Ok b => Chunk b
  | Err k => Ended (disconnect_reason k)
  end.

Definition returns_read (r : result (list Z) IoKind) (t : Returns) : Returns :=
  if rt_reading t then
    match rt_held t with
    | Some _ => t
    | None =>
        let i := item_of_read r in
        mkReturns (match i with Chunk _ => true | Ended _ => false end) (Some i) (rt_queue t)
    end
  else t.

(** [tx.send(..)] waits while the channel is full. *)
Definition returns_send (cap : nat) (t : Returns) : Returns :=
  match rt_held t with
  | Some i => if (length (rt_queue t) <? cap)%nat then mkReturns (rt_reading t) None (rt_queue t ++ [i]) else t
  | None => t
  end.

(** The halves of a stream session.  The outer [None] of a receive is that it waits. *)
Record ExitSendHalf := mkExitSend { es_writer : option Sk }.
Record ExitRecvHalf := mkExitRecv { er_returns : option Returns; er_last_error : option DisconnectReason }.

Definition exit_send (h : ExitSendHalf) (p : list Z) (w : W) : result unit DisconnectReason * W :=
  match es_writer h with
  | None => (Err DNotConnected, w)
  | Some sk => let '(r, w) := sk_write_all sk p w in (timed_io r, w)
  end.

Definition exit_shutdown_write (h : ExitSendHalf) (w : W) : ExitSendHalf * W :=
  (mkExitSend None, match es_writer h with Some sk => sk_shutdown sk w | None => w end).

Definition exit_abort_half (h : ExitSendHalf) : ExitSendHalf := mkExitSend None.

Definition exit_recv (h : ExitRecvHalf) : option (option (list Z) * ExitRecvHalf) :=
  match er_returns h with
  | None => Some (None, h)
  | Some t =>
      match rt_queue t with
      | Chunk b :: q => Some (Some b, mkExitRecv (Some (mkReturns (rt_reading t) (rt_held t) q)) (er_last_error h))
      | Ended r :: q => Some (None, mkExitRecv (Some (mkReturns (rt_reading t) (rt_held t) q)) (Some r))
      | [] =>
          if rt_reading t || (match rt_held t with Some _ => true | None => false end) then None
          else Some (None, mkExitRecv (Some t) (Some DReaderClosed))
      end
  end.

(** ** The TCP egress *)

Record TcpEgress := mkTcpEgress { te_id : string; te_caps : Capabilities; te_buffers : SocketBufferConfig; te_fixed : option Endpoint }.

Definition tcp_egress_new (id : string) : TcpEgress :=
  mkTcpEgress id (mkCapabilities "tcp" true false None []) no_buffers None.
Definition tcp_with_fixed_target (t : Endpoint) (e : TcpEgress) : TcpEgress := mkTcpEgress (te_id e) (te_caps e) (te_buffers e) (Some t).
Definition caps_with_groups (gs : list string) (c : Capabilities) : Capabilities :=
  mkCapabilities (protocol c) (supports_stream c) (supports_datagram c) (max_payload_bytes c) gs.
Definition tcp_with_groups (gs : list string) (e : TcpEgress) : TcpEgress :=
  mkTcpEgress (te_id e) (caps_with_groups gs (te_caps e)) (te_buffers e) (te_fixed e).
Definition tcp_with_buffers (c : SocketBufferConfig) (e : TcpEgress) : TcpEgress := mkTcpEgress (te_id e) (te_caps e) c (te_fixed e).

Record TcpStreamSession := mkTcpSession {
  ts_exit_id : string; ts_dial : Endpoint; ts_buffers : SocketBufferConfig; ts_info : BusSessionInfo;
  ts_stream : option Sk; ts_writer : option Sk; ts_returns : option Returns; ts_last_error : option DisconnectReason
}.

Definition tcp_open_stream (e : TcpEgress) (r : BusSessionRequest) (i : BusSessionInfo) : TcpStreamSession :=
  mkTcpSession (te_id e) (default (rq_target r) (te_fixed e)) (te_buffers e) i None None None None.

(** The one path of a connected session. *)
Definition connected_info (exit_id : string) (local remote : Endpoint) (i : BusSessionInfo) : BusSessionInfo :=
  mkInfo (info_session_id i) (info_flow_id i) (info_schedule_mode i) [mkPath exit_id local remote 0] 0.

(** [None] is the panic on a local address with port 0. *)
Definition tcp_session_connect (s : TcpStreamSession) (w : W) : option (result BusSessionInfo DisconnectReason * TcpStreamSession * W) :=
  let '(r, w) := connect_tcp (host_port (ts_dial s)) (ts_buffers s) w in
  match timed_io r with
  | Err e => Some (Err e, s, w)
  | Ok sk =>
      match sk_local_addr sk w with
      | Err k => Some (Err (DOther (io_error_text k)), s, w)
      | Ok a =>
          match endpoint_from_socket_addr a with
          | None => None
          | Some local =>
              let i := connected_info (ts_exit_id s) local (ts_dial s) (ts_info s) in
              Some (Ok i, mkTcpSession (ts_exit_id s) (ts_dial s) (ts_buffers s) i (Some sk) (ts_writer s) (ts_returns s) (ts_last_error s), w)
          end
      end
  end.

(** The socket of a connected session, or the session; a socket that cannot be taken is
    gone. *)
Definition tcp_into_splice (s : TcpStreamSession) (w : W) : result Sk TcpStreamSession * W :=
  match ts_stream s with
  | None => (Err s, w)
  | Some sk =>
      match into_std sk w with
      | (Ok sk, w) => (Ok sk, w)
      | (Err k, w) =>
          (Err (mkTcpSession (ts_exit_id s) (ts_dial s) (ts_buffers s) (ts_info s) None (ts_writer s) (ts_returns s) (Some (DOther (io_error_text k)))), w)
      end
  end.

Definition tcp_split (s : TcpStreamSession) : ExitSendHalf * ExitRecvHalf :=
  match ts_stream s with
  | Some sk => (mkExitSend (Some sk), mkExitRecv (Some returns_new) (ts_last_error s))
  | None => (mkExitSend (ts_writer s), mkExitRecv (ts_returns s) (ts_last_error s))
  end.

Definition tcp_session_abort (reason : DisconnectReason) (s : TcpStreamSession) : TcpStreamSession :=
  mkTcpSession (ts_exit_id s) (ts_dial s) (ts_buffers s) (ts_info s) (ts_stream s) None (ts_returns s) (Some reason).

(** ** The UDP egress *)

Definition MAX_UDP_PAYLOAD_BYTES : Z := 65507.

Record UdpEgress := mkUdpEgress { ue_id : string; ue_caps : Capabilities; ue_buffers : SocketBufferConfig; ue_fixed : option Endpoint }.

Definition udp_egress_new (id : string) : UdpEgress :=
  mkUdpEgress id (mkCapabilities "udp" false true (Some MAX_UDP_PAYLOAD_BYTES) []) no_buffers None.
Definition udp_with_groups (gs : list string) (e : UdpEgress) : UdpEgress :=
  mkUdpEgress (ue_id e) (caps_with_groups gs (ue_caps e)) (ue_buffers e) (ue_fixed e).
Definition udp_with_buffers (c : SocketBufferConfig) (e : UdpEgress) : UdpEgress := mkUdpEgress (ue_id e) (ue_caps e) c (ue_fixed e).
Definition udp_with_fixed_target (t : Endpoint) (e : UdpEgress) : UdpEgress := mkUdpEgress (ue_id e) (ue_caps e) (ue_buffers e) (Some t).

(** The socket and the flag [closed] are what the two halves share. *)
Record UdpExitSession := mkUdpExit { ux_info : BusSessionInfo; ux_socket : Sk; ux_closed : bool; ux_fixed : option Endpoint }.

Definition udp_open_datagram (e : UdpEgress) (i : BusSessionInfo) (w : W) : result UdpExitSession DisconnectReason * W :=
  match udp_any w with
  | (Err _, w) => (Err DConnectionRefused, w)
  | (Ok sk, w) =>
      match apply_udp_socket_buffers (ue_buffers e) sk w with
      | (Err _, w) => (Err DConnectionRefused, w)
      | (Ok _, w) => (Ok (mkUdpExit i sk false (ue_fixed e)), w)
      end
  end.

Definition closed_unless {A} (r : option (result A IoKind)) : result unit DatagramError :=
  match r with Some (Ok _) => Ok tt | _ => Err DgClosed end.

Definition udp_send (sk : Sk) (closed : bool) (t : Endpoint) (p : list Z) (w : W) : result unit DatagramError * W :=
  if closed then (Err DgClosed, w)
  else if MAX_UDP_PAYLOAD_BYTES <? Z.of_nat (length p) then (Err DgPayloadTooLarge, w)
  else let '(r, w) := udp_send_to sk (host_port t) p w in (closed_unless r, w).

Definition udp_session_send (s : UdpExitSession) (t : Endpoint) (p : list Z) (w : W) : result unit DatagramError * W :=
  udp_send (ux_socket s) (ux_closed s) (default t (ux_fixed s)) p w.

(** The loop over sources that are no endpoints; the outer [None] is the end of the fuel.
    [timed] tells whether the wait has a time-out. *)
Fixpoint udp_recv_loop (fuel : nat) (sk : Sk) (timed : bool) (err : option DisconnectReason) (w : W) :
    option (option (Endpoint * list Z) * option DisconnectReason * W) :=
  match fuel with
  | O => None
  | S fuel =>
      match if timed then udp_wait_timed sk w else let '(r, w) := udp_wait sk w in (Some r, w) with
      | (None, w) | (Some WaitClosed, w) => Some (None, err, w)
      | (Some (WaitFailed text), w) => Some (None, Some (DOther text), w)
      | (Some (WaitGot b from), w) =>
          match endpoint_new (ip_text from) (sock_port from) with
          | Ok e => Some (Some (e, b), err, w)
          | Err _ => udp_recv_loop fuel sk timed err w
          end
      end
  end.

Definition udp_recv (fuel : nat) (sk : Sk) (closed timed : bool) (err : option DisconnectReason) (w : W) :
    option (option (Endpoint * list Z) * option DisconnectReason * W) :=
  if closed then Some (None, err, w) else udp_recv_loop fuel sk timed err w.

(** The session waits with a time-out and forgets its error; its receiving half has none
    and keeps it. *)
Definition udp_session_recv (fuel : nat) (s : UdpExitSession) (w : W) : option (option (Endpoint * list Z) * W) :=
  '(r, _, w) ← udp_recv fuel (ux_socket s) (ux_closed s) true None w; Some (r, w).
Definition udp_half_recv (fuel : nat) (s : UdpExitSession) (err : option DisconnectReason) (w : W) :
    option (option (Endpoint * list Z) * option DisconnectReason * W) :=
  udp_recv fuel (ux_socket s) (ux_closed s) false err w.

Definition udp_session_close (s : UdpExitSession) : UdpExitSession := mkUdpExit (ux_info s) (ux_socket s) true (ux_fixed s).

(** ** The service egresses: a fixed target *)

Record ServiceTcpEgress := mkServiceTcp { sv_id : string; sv_tcp : TcpEgress }.
Definition service_tcp_new (id service : string) (to : Endpoint) : ServiceTcpEgress :=
  mkServiceTcp service (tcp_with_fixed_target to (tcp_egress_new id)).
Definition service_tcp_with_groups (gs : list string) (s : ServiceTcpEgress) : ServiceTcpEgress :=
  mkServiceTcp (sv_id s) (tcp_with_groups gs (sv_tcp s)).
Definition service_open_stream (s : ServiceTcpEgress) (r : BusSessionRequest) (i : BusSessionInfo) : TcpStreamSession :=
  tcp_open_stream (sv_tcp s) r i.

Record ServiceUdpEgress := mkServiceUdp { su_id : string; su_udp : UdpEgress }.
Definition service_udp_new (id service : string) (to : Endpoint) : ServiceUdpEgress :=
  mkServiceUdp service (udp_with_fixed_target to (udp_egress_new id)).
Definition service_udp_with_groups (gs : list string) (s : ServiceUdpEgress) : ServiceUdpEgress :=
  mkServiceUdp (su_id s) (udp_with_groups gs (su_udp s)).
Definition service_open_datagram (s : ServiceUdpEgress) (i : BusSessionInfo) (w : W) : result UdpExitSession DisconnectReason * W :=
  udp_open_datagram (su_udp s) i w.

(** ** The SOCKS5 client (upstream.rs) *)

Record Socks5UpstreamAuth := mkUpstreamAuth { up_username : list Z; up_password : list Z }.

(** [read_exact]: reads until the buffer is full.  Each read gives a byte at least, so as
    many reads as there are bytes are enough. *)
Fixpoint read_exact (fuel : nat) (sk : Sk) (need : nat) (w : W) : option (result (list Z) IoKind) * W :=
  match need, fuel with
  | O, _ => (Some (Ok []), w)
  | _, O => (None, w)
  | _, S fuel =>
      match sk_read sk need w with
      | (Some (Ok []), w) => (Some (Err IoUnexpectedEof), w)
      | (Some (Ok b), w) =>
          match read_exact fuel sk (need - length b) w with
          | (Some (Ok rest), w) => (Some (Ok (b ++ rest)%list), w)
          | r => r
          end
      | r => r
      end
  end.

Definition timed_read (sk : Sk) (n : nat) (w : W) : result (list Z) DisconnectReason * W :=
  let '(r, w) := read_exact n sk n w in (timed_io r, w).
Definition timed_write (sk : Sk) (b : list Z) (w : W) : result unit DisconnectReason * W :=
  let '(r, w) := sk_write_all sk b w in (timed_io r, w).

(** [{:#x}] of a byte *)
Definition hex_byte (b : Z) : string := "0x" +:+ (if b <? 16 then hex_show 1 b else hex_show 2 b).

(** The text of a [CodecError] *)
Definition codec_error_text (e : CodecError) : string :=
  match e with
  | Incomplete => "incomplete frame"
  | UnsupportedVersion v => "unsupported version: " +:+ dec_show v
  | InvalidAtyp v => "invalid address type: " +:+ dec_show v
  | UnsupportedCommand v => "unsupported command: " +:+ dec_show v
  | UnsupportedFragment v => "unsupported udp fragment: " +:+ dec_show v
  | ReservedNotZero v => "reserved byte must be zero: " +:+ dec_show v
  | InvalidHost => "invalid host bytes"
  | EndpointRejected e => "endpoint rejected: " +:+ parse_error_text e
  | UnsupportedAuthVersion v => "unsupported user/pass subnegotiation version: " +:+ dec_show v
  | InvalidAuthLen => "invalid user/pass length (ulen and plen must be 1..=255)"
  end.

Definition user_pass_subnegotiate (sk : Sk) (auth : option Socks5UpstreamAuth) (w : W) : result unit DisconnectReason * W :=
  match auth with
  | None => (Err (DOther "upstream demanded user/pass but none configured"), w)
  | Some c =>
      match encode_user_pass_request (up_username c) (up_password c) with
      | Err e => (Err (DOther (codec_error_text e)), w)
      | Ok req =>
          match timed_write sk req w with
          | (Err e, w) => (Err e, w)
          | (Ok _, w) =>
              match timed_read sk 2 w with
              | (Err e, w) => (Err e, w)
              | (Ok rbuf, w) =>
                  (match decode_user_pass_reply rbuf with
                   | Err e => Err (DOther (codec_error_text e))
                   | Ok (status, _) =>
                       if status =? USER_PASS_STATUS_SUCCESS then Ok tt
                       else Err (DOther ("upstream rejected credentials: " +:+ hex_byte status))
                   end, w)
              end
          end
      end
  end.

Definition offered_methods (auth : option Socks5UpstreamAuth) : list Method :=
  match auth with Some _ => [UserPass; NoAuth] | None => [NoAuth] end.

Definition negotiate_auth (sk : Sk) (auth : option Socks5UpstreamAuth) (w : W) : result unit DisconnectReason * W :=
  match timed_write sk (encode_greeting (offered_methods auth)) w with
  | (Err e, w) => (Err e, w)
  | (Ok _, w) =>
      match timed_read sk 2 w with
      | (Err e, w) => (Err e, w)
      | (Ok sel, w) =>
          if negb (at_ sel 0 =? 0x05) then (Err (DOther ("upstream socks5 version: " +:+ hex_byte (at_ sel 0))), w)
          else
            match at_ sel 1 with
            | 0x00 => (Ok tt, w)
            | 0x02 => user_pass_subnegotiate sk auth w
            | 0xff => (Err (DOther "upstream rejected all offered auth methods"), w)
            | other => (Err (DOther ("upstream selected unsupported auth method: " +:+ hex_byte other)), w)
            end
      end
  end.

(** The header, the length of a name if there is one, and the rest of the frame. *)
Definition read_reply_frame_atyp (sk : Sk) (w : W) : result ReplyFrame DisconnectReason * W :=
  let finish frame total w :=
    match timed_read sk (total - length frame) w with
    | (Err e, w) => (Err e, w)
    | (Ok rest, w) =>
        (match decode_reply_frame (frame ++ rest)%list with Ok (r, _) => Ok r | Err e => Err (DOther (codec_error_text e)) end, w)
    end in
  match timed_read sk 4 w with
  | (Err e, w) => (Err e, w)
  | (Ok frame, w) =>
      match reply_frame_total_len frame with
      | Ok total => finish frame total w
      | Err Incomplete =>
          match timed_read sk 1 w with
          | (Err e, w) => (Err e, w)
          | (Ok len, w) =>
              let frame := (frame ++ len)%list in
              match reply_frame_total_len frame with
              | Err e => (Err (DOther (codec_error_text e)), w)
              | Ok total => finish frame total w
              end
          end
      | Err e => (Err (DOther (codec_error_text e)), w)
      end
  end.

(** [{reply:?}] *)
Definition reply_debug (r : Reply) : string :=
  match r with
  | Succeeded => "Succeeded" | GeneralFailure => "GeneralFailure" | ConnectionNotAllowed => "ConnectionNotAllowed"
  | NetworkUnreachable => "NetworkUnreachable" | HostUnreachable => "HostUnreachable" | ConnectionRefused => "ConnectionRefused"
  | TtlExpired => "TtlExpired" | CommandNotSupported => "CommandNotSupported" | AddressTypeNotSupported => "AddressTypeNotSupported"
  end.

Definition disconnect_from_reply (r : Reply) : DisconnectReason :=
  match r with
  | NetworkUnreachable => DNetworkUnreachable
  | HostUnreachable => DHostUnreachable
  | ConnectionRefused => DConnectionRefused
  | TtlExpired => DTtlExpired
  | _ => DOther ("socks5 reply: " +:+ reply_debug r)
  end.

(** ** The SOCKS5 stream egress (lib.rs) *)

Record Socks5Egress := mkSocks5Egress { se_id : string; se_caps : Capabilities; se_upstream : string; se_auth : option Socks5UpstreamAuth }.

Definition socks5_egress_new (id upstream : string) : Socks5Egress :=
  mkSocks5Egress id (mkCapabilities "socks5" true false None []) upstream None.
Definition socks5_with_groups (gs : list string) (e : Socks5Egress) : Socks5Egress :=
  mkSocks5Egress (se_id e) (caps_with_groups gs (se_caps e)) (se_upstream e) (se_auth e).
Definition socks5_with_auth (a : Socks5UpstreamAuth) (e : Socks5Egress) : Socks5Egress :=
  mkSocks5Egress (se_id e) (se_caps e) (se_upstream e) (Some a).

Record Socks5StreamSession := mkSocks5Session {
  s5_exit_id : string; s5_upstream : string; s5_target : Endpoint; s5_auth : option Socks5UpstreamAuth; s5_info : BusSessionInfo;
  s5_writer : option Sk; s5_returns : option Returns; s5_last_error : option DisconnectReason
}.

Definition socks5_open_stream (e : Socks5Egress) (r : BusSessionRequest) (i : BusSessionInfo) : Socks5StreamSession :=
  mkSocks5Session (se_id e) (se_upstream e) (rq_target r) (se_auth e) i None None None.

(** The connection after the request was granted and its local endpoint: the upstream's,
    or the socket's own.  The outer [None] is a panic. *)
Definition open_socks5 (upstream : string) (t : Endpoint) (auth : option Socks5UpstreamAuth) (w : W) :
    option (result (Sk * Endpoint) DisconnectReason * W) :=
  let '(d, w) := tcp_dial upstream w in
  match timed_io d with
  | Err e => Some (Err e, w)
  | Ok sk =>
      match negotiate_auth sk auth w with
      | (Err e, w) => Some (Err e, w)
      | (Ok _, w) =>
          match timed_write sk (encode_connect_request t) w with
          | (Err e, w) => Some (Err e, w)
          | (Ok _, w) =>
              match read_reply_frame_atyp sk w with
              | (Err e, w) => Some (Err e, w)
              | (Ok r, w) =>
                  match reply r with
                  | Succeeded =>
                      match reply_endpoint r with
                      | Some local => Some (Ok (sk, local), w)
                      | None =>
                          match sk_local_addr sk w with
                          | Err _ => None
                          | Ok a => match endpoint_from_socket_addr a with Some local => Some (Ok (sk, local), w) | None => None end
                          end
                      end
                  | other => Some (Err (disconnect_from_reply other), w)
                  end
              end
          end
      end
  end.

Definition socks5_session_connect (s : Socks5StreamSession) (w : W) :
    option (result BusSessionInfo DisconnectReason * Socks5StreamSession * W) :=
  match open_socks5 (s5_upstream s) (s5_target s) (s5_auth s) w with
  | None => None
  | Some (Err e, w) => Some (Err e, s, w)
  | Some (Ok (sk, local), w) =>
      let i := connected_info (s5_exit_id s) local (s5_target s) (s5_info s) in
      Some (Ok i, mkSocks5Session (s5_exit_id s) (s5_upstream s) (s5_target s) (s5_auth s) i (Some sk) (Some returns_new) (s5_last_error s), w)
  end.

Definition socks5_split (s : Socks5StreamSession) : ExitSendHalf * ExitRecvHalf :=
  (mkExitSend (s5_writer s), mkExitRecv (s5_returns s) (s5_last_error s)).

(** The SOCKS5 session's halves and its reading task have the bodies of the TCP session's. *)
Definition socks5_half_send : ExitSendHalf -> list Z -> W -> result unit DisconnectReason * W := exit_send.
Definition socks5_half_shutdown_write : ExitSendHalf -> W -> ExitSendHalf * W := exit_shutdown_write.
Definition socks5_half_abort : ExitSendHalf -> ExitSendHalf := exit_abort_half.
Definition socks5_half_recv : ExitRecvHalf -> option (option (list Z) * ExitRecvHalf) := exit_recv.
Definition socks5_read_returns : result (list Z) IoKind -> Returns -> Returns := returns_read.

Definition socks5_session_abort (reason : DisconnectReason) (s : Socks5StreamSession) : Socks5StreamSession :=
  mkSocks5Session (s5_exit_id s) (s5_upstream s) (s5_target s) (s5_auth s) (s5_info s) None (s5_returns s) (Some reason).

(** ** The SOCKS5 datagram egress (udp.rs) *)

Record Socks5UdpEgress := mkSocks5UdpEgress { sg_id : string; sg_caps : Capabilities; sg_upstream : string; sg_auth : option Socks5UpstreamAuth }.

Definition socks5_udp_egress_new (id upstream : string) : Socks5UdpEgress :=
  mkSocks5UdpEgress id (mkCapabilities "socks5-udp" false true (Some MAX_UDP_PAYLOAD_BYTES) []) upstream None.
Definition socks5_udp_with_groups (gs : list string) (e : Socks5UdpEgress) : Socks5UdpEgress :=
  mkSocks5UdpEgress (sg_id e) (caps_with_groups gs (sg_caps e)) (sg_upstream e) (sg_auth e).
Definition socks5_udp_with_auth (a : Socks5UpstreamAuth) (e : Socks5UdpEgress) : Socks5UdpEgress :=
  mkSocks5UdpEgress (sg_id e) (sg_caps e) (sg_upstream e) (Some a).

(** The socket, the control connection that keeps the association alive, and the flag
    [closed] are what the halves share. *)
Record Socks5UdpSession := mkSocks5Udp { su_info : BusSessionInfo; su_socket : Sk; su_control : option Sk; su_closed : bool }.

(** Where the upstream relays: at its own address if it names none. *)
Definition resolve_relay (bnd : option Endpoint) (control : Sk) (w : W) : result Endpoint DisconnectReason :=
  match bnd with
  | None => Err (DOther "udp associate reply missing BND endpoint")
  | Some e =>
      if match parse_host_ip (host e) with Some ip => ip_unspecified ip | None => false end then
        match sk_peer_addr control w with
        | Err k => Err (disconnect_reason k)
        | Ok a =>
            match endpoint_new (ip_text a) (port e) with
            | Ok e => Ok e
            | Err x => Err (DOther ("relay endpoint: " +:+ parse_error_text x))
            end
        end
      else Ok e
  end.

Definition open_socks5_udp (upstream : string) (auth : option Socks5UpstreamAuth) (w : W) :
    option (result (Sk * Sk) DisconnectReason * W) :=
  match udp_any w with
  | (Err k, w) => Some (Err (disconnect_reason k), w)
  | (Ok sk, w) =>
      match sk_local_addr sk w with
      | Err k => Some (Err (disconnect_reason k), w)
      | Ok a =>
          match endpoint_from_socket_addr a with
          | None => None
          | Some local =>
              let '(d, w) := tcp_dial upstream w in
              match timed_io d with
              | Err e => Some (Err e, w)
              | Ok control =>
                  match negotiate_auth control auth w with
                  | (Err e, w) => Some (Err e, w)
                  | (Ok _, w) =>
                      match timed_write control (encode_udp_associate_request local) w with
                      | (Err e, w) => Some (Err e, w)
                      | (Ok _, w) =>
                          match read_reply_frame_atyp control w with
                          | (Err e, w) => Some (Err e, w)
                          | (Ok r, w) =>
                              match reply r with
                              | Succeeded =>
                                  match resolve_relay (reply_endpoint r) control w with
                                  | Err e => Some (Err e, w)
                                  | Ok relay =>
                                      match udp_connect sk (host_port relay) w with
                                      | (Err k, w) => Some (Err (disconnect_reason k), w)
                                      | (Ok _, w) => Some (Ok (sk, control), w)
                                      end
                                  end
                              | other => Some (Err (disconnect_from_reply other), w)
                              end
                          end
                      end
                  end
              end
          end
      end
  end.

Definition socks5_open_datagram (e : Socks5UdpEgress) (i : BusSessionInfo) (w : W) : option (result Socks5UdpSession DisconnectReason * W) :=
  match open_socks5_udp (sg_upstream e) (sg_auth e) w with
  | None => None
  | Some (Err x, w) => Some (Err x, w)
  | Some (Ok (sk, control), w) => Some (Ok (mkSocks5Udp i sk (Some control) false), w)
  end.

Definition relay_send (sk : Sk) (closed : bool) (t : Endpoint) (p : list Z) (w : W) : result unit DatagramError * W :=
  if closed then (Err DgClosed, w)
  else if MAX_UDP_PAYLOAD_BYTES <? Z.of_nat (length p) then (Err DgPayloadTooLarge, w)
  else let '(r, w) := udp_send_connected sk (encode_udp_datagram t p) w in (closed_unless r, w).

(** A datagram that is no SOCKS5 datagram is dropped.  The flag is looked at again before
    each wait, as the wait itself does. *)
Fixpoint relay_recv (fuel : nat) (sk : Sk) (closed : bool) (err : option DisconnectReason) (w : W) :
    option (option (Endpoint * list Z) * option DisconnectReason * W) :=
  match fuel with
  | O => None
  | S fuel =>
      if closed then Some (None, err, w)
      else
        match udp_wait sk w with
        | (WaitClosed, w) => Some (None, err, w)
        | (WaitFailed text, w) => Some (None, Some (DOther text), w)
        | (WaitGot b _, w) =>
            match decode_udp_datagram b with
            | Ok d => Some (Some (Socks5.target d, Socks5.payload d), err, w)
            | Err _ => relay_recv fuel sk closed err w
            end
        end
  end.

Definition socks5_udp_close (s : Socks5UdpSession) : Socks5UdpSession := mkSocks5Udp (su_info s) (su_socket s) None true.
End Exits.

(** ** The mesh egress (crates/mesh-bus-egress-mesh-peer-udp/src/lib.rs) *)

(** The egress and its builder.  The counter of its sealed packets starts at one and is shared by its clones; it is not
    part of this value. *)
Record MeshPeerUdpEgress := mkMeshEgress {
  mp_id : string; mp_caps : Capabilities; mp_peer : SocketAddr; mp_meshsec : option MeshSecSealContext;
  mp_native : NativeEventMode; mp_delivery : DeliveryMode; mp_fanout : Z; mp_budget : Z
}.

Definition mesh_egress_new (id : string) (peer : SocketAddr) : MeshPeerUdpEgress :=
  mkMeshEgress id (mkCapabilities "mesh-peer-udp" true true (Some (Z.of_nat MAX_MESH_DATAGRAM_PAYLOAD_BYTES)) []) peer None
    SecureUdpNative MeshWire.Steer 2 4.
Definition set_mesh_caps (c : Capabilities) (e : MeshPeerUdpEgress) : MeshPeerUdpEgress :=
  mkMeshEgress (mp_id e) c (mp_peer e) (mp_meshsec e) (mp_native e) (mp_delivery e) (mp_fanout e) (mp_budget e).
Definition mesh_with_groups (gs : list string) (e : MeshPeerUdpEgress) : MeshPeerUdpEgress :=
  set_mesh_caps (caps_with_groups gs (mp_caps e)) e.
Definition caps_shape (st dg : bool) (c : Capabilities) : Capabilities :=
  mkCapabilities (DispatchTypes.protocol c) st dg (max_payload_bytes c) (groups c).
Definition as_stream_adapter (e : MeshPeerUdpEgress) : MeshPeerUdpEgress := set_mesh_caps (caps_shape true false (mp_caps e)) e.
Definition as_datagram_adapter (e : MeshPeerUdpEgress) : MeshPeerUdpEgress := set_mesh_caps (caps_shape false true (mp_caps e)) e.
Definition mesh_with_delivery_policy (mode : DeliveryMode) (fanout budget : Z) (e : MeshPeerUdpEgress) : MeshPeerUdpEgress :=
  mkMeshEgress (mp_id e) (mp_caps e) (mp_peer e) (mp_meshsec e) (mp_native e) mode fanout budget.
Definition mesh_with_native_mode (m : NativeEventMode) (e : MeshPeerUdpEgress) : MeshPeerUdpEgress :=
  mkMeshEgress (mp_id e) (mp_caps e) (mp_peer e) (mp_meshsec e) m (mp_delivery e) (mp_fanout e) (mp_budget e).
Definition mesh_with_meshsec (ctx : MeshSecSealContext) (e : MeshPeerUdpEgress) : MeshPeerUdpEgress :=
  let c := mp_caps e in
  mkMeshEgress (mp_id e) (mkCapabilities (DispatchTypes.protocol c) (supports_stream c) (supports_datagram c)
                            (Some (Z.of_nat meshsec_max_payload_bytes)) (groups c))
    (mp_peer e) (Some ctx) (mp_native e) (mp_delivery e) (mp_fanout e) (mp_budget e).

(** *** Sessions *)

(** What a session has of its tasks: the packet loop's address, the sender, and the
    controls that reach the session before its time-out, with whether the driver ended. *)
Class MeshTasks (W : Type) := {
  task_bind : SocketAddr -> W -> option W;
  task_addr : W -> result SocketAddr string;
  task_send : MeshFrame -> W -> result unit SendError * W;
  open_controls : W -> list StreamControl * bool * W;
  fresh_token : W -> Z * W
}.

(** The address that is bound: any port, of the peer's family. *)
Definition bind_addr (peer : SocketAddr) : SocketAddr :=
  match peer with SockV4 _ _ => SockV4 [0; 0; 0; 0] 0 | SockV6 _ _ _ => SockV6 [0; 0; 0; 0; 0; 0; 0; 0] 0 0 end.

Definition mesh_max_payload_bytes (e : MeshPeerUdpEgress) : nat :=
  match mp_meshsec e with Some _ => meshsec_max_payload_bytes | None => MAX_MESH_DATAGRAM_PAYLOAD_BYTES end.

Definition flow_semantics_wire (r : BusSessionRequest) : FlowSemanticsWire :=
  match rq_flow_semantics r with ByteStream => MeshWire.ByteStream | Datagram => FDatagram | Message => MeshWire.Message end.
Definition return_semantics_wire (r : BusSessionRequest) : ReturnSemanticsWire :=
  match rq_return_semantics r with
  | Direct => MeshWire.Direct | PacketDedup => MeshWire.PacketDedup | SequenceReorder => MeshWire.SequenceReorder
  end.

(** [closed] is shared with the halves; [next] is the number of the next piece. *)
Record MeshStreamSession := mkMeshStream {
  ms_exit : string; ms_info : BusSessionInfo; ms_trace : list string; ms_request : BusSessionRequest; ms_sid : string;
  ms_next : Z; ms_connected : bool; ms_closed : bool; ms_last_error : option DisconnectReason
}.
Record MeshDatagramSession := mkMeshDatagram { md_info : BusSessionInfo; md_sid : string; md_next : Z; md_closed : bool }.

Section MeshSessions.
Context {W : Type} `{!MeshTasks W}.

(** [trace] is the information's path trace. *)
Definition mesh_open_stream (e : MeshPeerUdpEgress) (r : BusSessionRequest) (i : BusSessionInfo) (trace : list string) (w : W) :
    result (MeshStreamSession * W) DisconnectReason :=
  match task_bind (bind_addr (mp_peer e)) w with
  | None => Err DConnectionRefused
  | Some w => Ok (mkMeshStream (mp_id e) i trace r (info_session_id i) 1 false false None, w)
  end.

Definition open_frame (s : MeshStreamSession) (token : Z) : MeshFrame :=
  let r := ms_request s in
  FStreamOpen (mkStreamOpen (ms_sid s) token (rq_target r) (rq_route_group r) (flow_semantics_wire r) (return_semantics_wire r)
                 "local" (ms_trace s)).

(** [None] is the panic on a local address with port 0. *)
Definition mesh_connect (s : MeshStreamSession) (w : W) : option (result BusSessionInfo DisconnectReason * MeshStreamSession * W) :=
  if ms_connected s then Some (Ok (ms_info s), s, w)
  else
    let '(token, w) := fresh_token w in
    match task_send (open_frame s token) w with
    | (Err e, w) => Some (Err (send_error_to_disconnect e), s, w)
    | (Ok _, w) =>
        let '(cs, ended, w) := open_controls w in
        match await_open token cs ended with
        | Err e => Some (Err e, s, w)
        | Ok _ =>
            match task_addr w with
            | Err e => Some (Err (DOther e), s, w)
            | Ok a =>
                local ← endpoint_from_socket_addr a;
                let i := connected_info (ms_exit s) local (rq_target (ms_request s)) (ms_info s) in
                Some (Ok i, mkMeshStream (ms_exit s) i (ms_trace s) (ms_request s) (ms_sid s) (ms_next s) true (ms_closed s) (ms_last_error s), w)
            end
        end
    end.

Definition send_stream_close (sid : string) (r : CloseReasonWire) (w : W) : W := (task_send (FStreamClose sid r) w).2.

(** Of the session, and of its sending half *)
Definition mesh_abort (r : DisconnectReason) (s : MeshStreamSession) (w : W) : MeshStreamSession * W :=
  (mkMeshStream (ms_exit s) (ms_info s) (ms_trace s) (ms_request s) (ms_sid s) (ms_next s) (ms_connected s) true (Some r),
   send_stream_close (ms_sid s) (close_reason_wire r) w).
Definition mesh_half_abort (r : DisconnectReason) (s : MeshStreamSession) (w : W) : MeshStreamSession * W :=
  (mkMeshStream (ms_exit s) (ms_info s) (ms_trace s) (ms_request s) (ms_sid s) (ms_next s) (ms_connected s) true (ms_last_error s),
   send_stream_close (ms_sid s) (close_reason_wire r) w).
Definition mesh_shutdown_write (s : MeshStreamSession) (w : W) : W := (task_send (FStreamShutdownWrite (ms_sid s)) w).2.

Definition mesh_open_datagram (e : MeshPeerUdpEgress) (r : BusSessionRequest) (i : BusSessionInfo) (w : W) :
    result MeshDatagramSession DisconnectReason * W :=
  match task_bind (bind_addr (mp_peer e)) w with
  | None => (Err DConnectionRefused, w)
  | Some w =>
      let sid := info_session_id i in
      match task_send (FDatagramOpen (mkDatagramOpen sid (Some (rq_target r)) (Z.of_nat (mesh_max_payload_bytes e)))) w with
      | (Err x, w) => (Err (send_error_to_disconnect x), w)
      | (Ok _, w) => (Ok (mkMeshDatagram i sid 1 false), w)
      end
  end.

Definition mesh_datagram_send (t : Endpoint) (b : list Z) (s : MeshDatagramSession) (w : W) :
    result unit SendError * MeshDatagramSession * W :=
  let '(r, next) := mesh_send_to (md_closed s) (md_sid s) (md_next s) t b in
  let s := mkMeshDatagram (md_info s) (md_sid s) next (md_closed s) in
  match r with
  | Err e => (Err e, s, w)
  | Ok f => let '(r, w) := task_send f w in (r, s, w)
  end.

Definition send_close (sid : string) (w : W) : W := (task_send (FDatagramClose sid Normal) w).2.
Definition mesh_datagram_close (s : MeshDatagramSession) (w : W) : MeshDatagramSession * W :=
  (mkMeshDatagram (md_info s) (md_sid s) (md_next s) true, send_close (md_sid s) w).
End MeshSessions.
