(* ===== verification/EgressFacts.v ===== *)
(** Theorems on the exits ([Egress]): the SOCKS5 client against the SOCKS5 ingress of
    another node, what a stream's receiver gets of what is read, and services. *)
From S2P Require Import Prelude Numbers NetAddr Endpoint Schedulers ResolverRun KernelRegistry Pipeline Hooks.
From S2P Require Import MeshWire MeshSec UdpLoop MeshPeer MeshIngress.
From S2P Require Import DispatchTypes Dispatch Ingress Session Socks5 Socks5Facts Socks5Ingress IngressFacts Egress.
Local Open Scope Z_scope.

(** ** A peer that has sent these pieces *)

(** What can be read and waited for, and what was written, looked up and sent. *)
Record Dialog := mkDialog {
  d_in : list (list Z);
  d_waits : list DatagramWait;
  d_out : list (list Z);
  d_looked_up : list string;
  d_sent : list (string * list Z)
}.

Definition dialog_read (n : nat) (d : Dialog) : option (result (list Z) IoKind) * Dialog :=
  match d_in d with
  | [] => (Some (Ok []), d)
  | c :: cs =>
      (Some (Ok (take n c)),
       mkDialog (match drop n c with [] => cs | r => r :: cs end) (d_waits d) (d_out d) (d_looked_up d) (d_sent d))
  end.

Definition dialog_write (b : list Z) (d : Dialog) : option (result unit IoKind) * Dialog :=
  (Some (Ok tt), mkDialog (d_in d) (d_waits d) (d_out d ++ [b]) (d_looked_up d) (d_sent d)).

Definition dialog_send (t : string) (b : list Z) (d : Dialog) : option (result unit IoKind) * Dialog :=
  (Some (Ok tt), mkDialog (d_in d) (d_waits d) (d_out d) (d_looked_up d) (d_sent d ++ [(t, b)])).

Definition dialog_wait (d : Dialog) : DatagramWait * Dialog :=
  match d_waits d with
  | [] => (WaitClosed, d)
  | x :: l => (x, mkDialog (d_in d) l (d_out d) (d_looked_up d) (d_sent d))
  end.

Definition dialog_lookup (s : string) (d : Dialog) : Dialog :=
  mkDialog (d_in d) (d_waits d) (d_out d) (d_looked_up d ++ [s]) (d_sent d).

Definition local_a : SocketAddr := SockV4 [10; 0; 0; 5] 41000.

#[export] Instance dialog_world : ExitSockets Dialog unit := {|
  lookup_host s d := (Some (Ok [SockV4 [10; 0; 0; 6] 80]), dialog_lookup s d);
  tcp_socket _ d := (Ok tt, d);
  set_recv_buffer _ _ d := (Ok tt, d);
  set_send_buffer _ _ d := (Ok tt, d);
  socket_connect _ _ d := (Some (Ok tt), d);
  tcp_dial s d := (Some (Ok tt), dialog_lookup s d);
  sk_local_addr _ _ := Ok local_a;
  sk_peer_addr _ _ := Ok (SockV4 [10; 0; 0; 6] 1080);
  io_error_text _ := ""%string;
  into_std _ d := (Ok tt, d);
  sk_read _ := dialog_read;
  sk_write_all _ := dialog_write;
  sk_shutdown _ d := d;
  udp_any d := (Ok tt, d);
  udp_connect _ s d := (Ok tt, dialog_lookup s d);
  udp_send_to _ := dialog_send;
  udp_send_connected _ := dialog_send ""%string;
  udp_wait _ := dialog_wait;
  udp_wait_timed _ d := let '(r, d) := dialog_wait d in (Some r, d)
|}.

(** These bytes are still to come, in some pieces; only they change. *)
Definition incoming (d : Dialog) (l : list Z) : Prop := concat (d_in d) = l /\ Forall (fun c => c <> []) (d_in d).

Lemma read_gets b rest d fuel :
  incoming d (b ++ rest) -> (length b <= fuel)%nat ->
  exists d', read_exact fuel tt (length b) d = (Some (Ok b), d') /\ incoming d' rest /\ d_out d' = d_out d.
Proof.
  revert b d. induction fuel as [|fuel IH]; intros b d [E F] Hl; (destruct b as [|x b]; [exists d; split_and!; done|]); [simpl in Hl; lia|].
  set (n := length (x :: b)). cbn [length] in n. destruct (d_in d) as [|c cs] eqn:Ei; [done|].
  apply Forall_cons in F as [Hc F]. cbn [concat] in E.
  change (read_exact (S fuel) tt n d) with
    (match dialog_read n d with
     | (Some (Ok []), w) => (Some (Err IoUnexpectedEof), w)
     | (Some (Ok b), w) => match read_exact fuel tt (n - length b) w with (Some (Ok rest), w) => (Some (Ok (b ++ rest)), w) | r => r end
     | r => r
     end).
  unfold dialog_read. rewrite Ei. destruct c as [|y c]; [done|]. change (take n (y :: c)) with (y :: take (length b) c).
  change (drop n (y :: c)) with (drop (length b) c). injection E as -> E. cbn [length].
  apply app_eq_inv in E as [(k & -> & ->)|(k & -> & E)].
  - rewrite take_app_length, drop_app_length, Nat.sub_diag. cbn [read_exact]. destruct fuel; cbn [read_exact]; rewrite app_nil_r;
      (eexists; split_and!; [reflexivity|split|done]); by (destruct k; cbn; [|constructor]).
  - rewrite (take_ge c), (drop_ge c) by (rewrite length_app; lia). set (d1 := mkDialog _ _ _ _ _).
    destruct (IH k d1) as (d' & Hr & Hi & Ho); [split; done|cbn in Hl; rewrite length_app in Hl; lia|].
    exists d'. replace (n - S (length c))%nat with (length k) by (subst n; rewrite length_app; lia). by rewrite Hr.
Qed.

Lemma timed_read_gets b rest d n :
  incoming d (b ++ rest) -> n = length b ->
  exists d', timed_read tt n d = (Ok b, d') /\ incoming d' rest /\ d_out d' = d_out d.
Proof.
  intros Hi ->. destruct (read_gets b rest d (length b) Hi (le_n _)) as (d' & E & H). exists d'. unfold timed_read. by rewrite E.
Qed.

Lemma timed_write_logs b d :
  exists d', timed_write tt b d = (Ok tt, d') /\ d_in d' = d_in d /\ d_out d' = d_out d ++ [b].
Proof. eexists. split_and!; reflexivity. Qed.

(** ** The client's handshake *)

(** A frame is read whole when its first four bytes, or its first five, tell its length. *)
Lemma read_frame f rest d :
  incoming d (f ++ rest) -> (5 <= length f)%nat ->
  (reply_frame_total_len (take 4 f) = Ok (length f)
   \/ reply_frame_total_len (take 4 f) = Err Incomplete /\ reply_frame_total_len (take 5 f) = Ok (length f)) ->
  exists d', read_reply_frame_atyp tt d
      = (match decode_reply_frame f with Ok (r, _) => Ok r | Err e => Err (DOther (codec_error_text e)) end, d')
    /\ incoming d' rest /\ d_out d' = d_out d.
Proof.
  intros Hi H5 Ht. unfold read_reply_frame_atyp.
  assert (Hi4 : incoming d (take 4 f ++ drop 4 f ++ rest)) by (by rewrite app_assoc, take_drop).
  destruct (timed_read_gets _ _ _ 4 Hi4) as (d1 & -> & Hi1 & O1); [rewrite length_take; lia|].
  destruct Ht as [Ht|[Ht4 Ht5]].
  - rewrite Ht, length_take, Nat.min_l by lia.
    destruct (timed_read_gets _ _ d1 (length f - 4) Hi1) as (d2 & -> & Hi2 & O2); [by rewrite length_drop|].
    rewrite take_drop. exists d2. split_and!; [done|done|by rewrite O2].
  - rewrite Ht4. assert (Hd : drop 4 f = take 1 (drop 4 f) ++ drop 5 f) by (rewrite <- (take_drop 1 (drop 4 f)) at 1; by rewrite drop_drop).
    rewrite Hd, <- app_assoc in Hi1.
    destruct (timed_read_gets _ _ d1 1 Hi1) as (d2 & -> & Hi2 & O2); [rewrite length_take, length_drop; lia|].
    assert (take 4 f ++ take 1 (drop 4 f) = take 5 f) as -> by (by rewrite take_take_drop).
    rewrite Ht5, length_take, Nat.min_l by lia.
    destruct (timed_read_gets _ _ d2 (length f - 5) Hi2) as (d3 & -> & Hi3 & O3); [by rewrite length_drop|].
    rewrite take_drop. exists d3. split_and!; [done|done|by rewrite O3, O2].
Qed.

Lemma reply_total r e :
  endpoint_ok e -> let f := encode_reply_with_endpoint r e in
  reply_frame_total_len (take 4 f) = Ok (length f)
  \/ reply_frame_total_len (take 4 f) = Err Incomplete /\ reply_frame_total_len (take 5 f) = Ok (length f).
Proof.
  intros (Hh & Hl & Hp). unfold encode_reply_with_endpoint, encode_endpoint.
  destruct (parse_ipv4 (host e)) as [o|] eqn:E4; [|destruct (parse_ipv6 (host e)) as [g|] eqn:E6].
  - apply parse_ipv4_shown in E4 as (Ho & _). left. cbn zeta. rewrite !length_app, to_be_bytes_length, Ho. reflexivity.
  - apply parse_ipv6_ok in E6 as [Hg _]. left. cbn zeta. rewrite !length_app, to_be_bytes_length, octets_length, Hg. reflexivity.
  - right. split; [reflexivity|]. rewrite !length_app, to_be_bytes_length, bytes_of_string_length. cbn.
    assert (as_u8 (Z.of_nat (String.length (host e))) = Z.of_nat (String.length (host e))) as -> by (apply Z.mod_small; lia).
    rewrite Nat2Z.id. f_equal; lia.
Qed.

Lemma read_reply_endpoint r e rest d :
  endpoint_ok e -> is_utf8 (host e) = true -> (7 <= length (encode_endpoint e))%nat ->
  incoming d (encode_reply_with_endpoint r e ++ rest) ->
  exists d', read_reply_frame_atyp tt d = (Ok (mkReply r (Some (canon e))), d') /\ incoming d' rest /\ d_out d' = d_out d.
Proof.
  intros He Hu H7 Hi. destruct (read_frame _ rest d Hi) as (d' & E & H).
  - unfold encode_reply_with_endpoint. rewrite length_app. simpl. lia.
  - by apply reply_total.
  - exists d'. rewrite E. destruct (reply_roundtrip r e [] He Hu) as [R _]; [by rewrite app_nil_r|]. rewrite app_nil_r in R. by rewrite R.
Qed.

(** A reply without an endpoint names port 0, which is none. *)
Lemma read_reply_plain r rest d :
  incoming d (encode_reply r ++ rest) ->
  exists d', read_reply_frame_atyp tt d = (Ok (mkReply r None), d') /\ incoming d' rest /\ d_out d' = d_out d.
Proof.
  intros Hi. destruct (read_frame _ rest d Hi) as (d' & E & H); [simpl; lia|by left|].
  exists d'. rewrite E. split_and!; [by destruct r|apply H..].
Qed.

(** What an ingress with these users answers before the reply. *)
Definition ingress_answers (auth : option AuthConfig) : list (list Z) :=
  match auth with None => [[5; 0]] | Some _ => [[5; 2]; [1; 0]] end.

(** Credentials the users of an ingress include, and the name they give. *)
Definition upstream_user (auth : option AuthConfig) (up : option Socks5UpstreamAuth) (user : option string) : Prop :=
  match auth, up with
  | None, _ => user = None
  | Some a, Some c =>
      exists n p, user = Some n /\ from_utf8 (up_username c) = Some n /\ from_utf8 (up_password c) = Some p
        /\ users a !! n = Some p /\ auth_len_ok (up_username c) = true /\ auth_len_ok (up_password c) = true
  | Some _, None => False
  end.

(** What the client writes before its request. *)
Definition client_opening (auth : option AuthConfig) (up : option Socks5UpstreamAuth) : list (list Z) :=
  encode_greeting (offered_methods up)
  :: match auth, up with
     | Some _, Some c => match encode_user_pass_request (up_username c) (up_password c) with Ok b => [b] | Err _ => [] end
     | _, _ => []
     end.

Lemma user_pass_encoded c :
  auth_len_ok (up_username c) = true -> auth_len_ok (up_password c) = true ->
  exists b, encode_user_pass_request (up_username c) (up_password c) = Ok b.
Proof. intros H1 H2. unfold encode_user_pass_request. rewrite H1, H2. by eexists. Qed.

Lemma write_in b d l :
  incoming d l -> exists d', timed_write tt b d = (Ok tt, d') /\ incoming d' l /\ d_out d' = d_out d ++ [b].
Proof. intros H. destruct (timed_write_logs b d) as (d' & E & Ei & Eo). exists d'. unfold incoming. by rewrite Ei. Qed.

Lemma negotiation_runs auth up user rest d :
  upstream_user auth up user -> incoming d (concat (ingress_answers auth) ++ rest) ->
  exists d', negotiate_auth tt up d = (Ok tt, d') /\ incoming d' rest /\ d_out d' = d_out d ++ client_opening auth up.
Proof.
  intros Hu Hi. unfold negotiate_auth, client_opening.
  destruct (write_in (encode_greeting (offered_methods up)) d _ Hi) as (d1 & -> & Hi1 & O1).
  destruct auth as [a|].
  - destruct up as [c|]; [|done]. destruct Hu as (n & p & _ & _ & _ & _ & L1 & L2).
    destruct (user_pass_encoded c L1 L2) as [b Eb].
    destruct (timed_read_gets [5; 2] ([1; 0] ++ rest) d1 2 Hi1 eq_refl) as (d2 & -> & Hi2 & O2).
    cbn [at_ nth Z.eqb Pos.eqb negb]. unfold user_pass_subnegotiate. rewrite Eb.
    destruct (write_in b d2 _ Hi2) as (d3 & -> & Hi3 & O3).
    destruct (timed_read_gets [1; 0] rest d3 2 Hi3 eq_refl) as (d4 & -> & Hi4 & O4).
    exists d4. split_and!; [done|done|]. by rewrite O4, O3, O2, O1, <- app_assoc.
  - destruct (timed_read_gets [5; 0] rest d1 2 Hi1 eq_refl) as (d2 & -> & Hi2 & O2).
    exists d2. split_and!; [done|done|]. rewrite O2, O1. by destruct up.
Qed.

(** The handshake up to the reply. *)
Lemma client_reaches_the_reply auth up user e upstream rest d :
  upstream_user auth up user -> incoming d (concat (ingress_answers auth) ++ rest) ->
  exists d', open_socks5 upstream e up d
      = match read_reply_frame_atyp tt d' with
        | (Err x, w) => Some (Err x, w)
        | (Ok r, w) =>
            match reply r with
            | Succeeded => Some (Ok (tt, default (mkEndpoint "10.0.0.5" 41000) (reply_endpoint r)), w)
            | other => Some (Err (disconnect_from_reply other), w)
            end
        end
    /\ incoming d' rest /\ d_out d' = d_out d ++ client_opening auth up ++ [encode_connect_request e].
Proof.
  intros Hu Hi. unfold open_socks5. cbn [tcp_dial dialog_world timed_io].
  destruct (negotiation_runs auth up user rest (dialog_lookup upstream d) Hu) as (d1 & -> & Hi1 & O1); [done|].
  destruct (write_in (encode_connect_request e) d1 _ Hi1) as (d2 & -> & Hi2 & O2).
  exists d2. split_and!; [|done|by rewrite O2, O1, <- app_assoc].
  destruct (read_reply_frame_atyp tt d2) as [[[r [le|]]|x] w]; [..|done]; by destruct r.
Qed.

(** ** Chained nodes *)

Lemma offered_ok auth up user :
  upstream_user auth up user -> (match auth with Some _ => UserPass | None => NoAuth end) ∈ offered_methods up.
Proof. destruct auth, up; cbn; intros H; try done; set_solver. Qed.

Lemma offered_valid up : (length (offered_methods up) <= 255)%nat /\ forallb method_ok (offered_methods up) = true.
Proof. destruct up; cbn; split; (lia || done). Qed.

(** The client's opening is a valid client of the ingress. *)
Lemma opening_is_valid auth up user :
  upstream_user auth up user ->
  exists cred, client_user auth cred /\ fst <$> cred = user
    /\ concat (client_opening auth up) = encode_greeting (offered_methods up) ++ default [] (snd <$> cred).
Proof.
  intros Hu. destruct auth as [a|].
  - destruct up as [c|]; [|done]. destruct Hu as (n & p & -> & Un & Up & Ha & L1 & L2). destruct (user_pass_encoded c L1 L2) as [b Eb].
    exists (Some (n, b)). split_and!; [|done|].
    + exists (up_username c), (up_password c), p. done.
    + cbn [client_opening]. unfold client_opening. rewrite Eb. cbn [concat]. by rewrite app_nil_r.
  - exists None. split_and!; [done|by destruct up|]. unfold client_opening. cbn [concat]. by destruct up.
Qed.

(** C26: a node that leaves through a SOCKS5 egress and a node whose SOCKS5 ingress it
    reaches understand each other, in whatever pieces the bytes of either arrive.  There
    are requests and answers such that the egress, reading the answers and a granting
    reply, writes the requests, takes the bound endpoint as its local one and leaves what
    follows the reply to be read; and the ingress, reading the requests, writes those
    answers and ends in a CONNECT to the egress's target with the user of its
    credentials. *)
Theorem chained_nodes_agree (auth : option AuthConfig) (up : option Socks5UpstreamAuth) (user : option string)
    (upstream : string) (e local : Endpoint) :
  upstream_user auth up user -> endpoint_ok e -> is_utf8 (host e) = true ->
  endpoint_ok local -> is_utf8 (host local) = true -> (7 <= length (encode_endpoint local))%nat ->
  exists requests answers : list (list Z),
    (forall d tail, incoming d (concat answers ++ encode_reply_with_endpoint Succeeded local ++ tail) ->
       exists d', open_socks5 upstream e up d = Some (Ok (tt, canon local), d') /\ d_out d' = d_out d ++ requests /\ incoming d' tail)
    /\ (forall chunks tail s fuel, concat chunks = concat requests ++ tail -> reading chunks s -> (length chunks <= fuel)%nat ->
       exists cs s', read_handshake fuel auth s = Some (Some (mkHandshake (mkRequest Connect (canon e)) user), s')
         /\ reading cs s' /\ s_log s' = s_log s ++ (Wrote <$> answers)).
Proof.
  intros Hu He Ue Hl Ul H7. exists (client_opening auth up ++ [encode_connect_request e]), (ingress_answers auth). split.
  - intros d tail Hi. destruct (client_reaches_the_reply auth up user e upstream _ d Hu Hi) as (d1 & -> & Hi1 & O1).
    destruct (read_reply_endpoint Succeeded local tail d1 Hl Ul H7 Hi1) as (d2 & -> & Hi2 & O2).
    exists d2. split_and!; [done|by rewrite O2, O1|done].
  - intros chunks tail s fuel E Hr Hf. destruct (opening_is_valid auth up user Hu) as (cred & Hc & <- & Eo).
    destruct (offered_valid up) as [Ho1 Ho2].
    destruct (handshake_admits_a_valid_client auth cred (offered_methods up) Connect e tail chunks s fuel Ho1 Ho2
                (offered_ok auth up _ Hu) Hc He Ue) as (cs & s' & -> & Hr' & L); [|done|done|].
    + rewrite E, concat_app, Eo. cbn [concat]. by rewrite app_nil_r, <- !app_assoc.
    + exists cs, s'. split_and!; [done|done|]. rewrite L. by destruct auth.
Qed.

(** *** Refusals *)

(** What the first of two chained nodes says of the second one's failure. *)
Definition chained_reason (r : DisconnectReason) : DisconnectReason := disconnect_from_reply (reply_for_disconnect r).

Lemma reply_is_refusal r : reply_for_disconnect r <> Succeeded.
Proof. by destruct r. Qed.

Lemma chained_reason_stable r : chained_reason (chained_reason r) = chained_reason r.
Proof. by destruct r. Qed.

(** C28: why a session could not be opened travels back along a chain of nodes.  When the
    session of a granted CONNECT is refused or cannot be connected, the ingress writes one
    reply and gives the client up; the egress of the node before, reading that reply in
    whatever pieces, fails with a reason that no further node changes, and that is the
    first one for a refused connection, an unreachable network or host, and an expired
    TTL; it never connects. *)
Theorem refusals_travel_back (auth : option AuthConfig) (up : option Socks5UpstreamAuth) (user : option string)
    (upstream : string) (e : Endpoint) (r : DisconnectReason) :
  upstream_user auth up user ->
  exists b,
    (forall q s l sid l',
       s_opens s = Err r :: l \/ s_opens s = Ok sid :: l /\ s_connects s = Some (Err r) :: l' ->
       exists s' asked, open_connect q s = (None, s') /\ s_log s' = s_log s ++ OpenedStream q :: asked ++ [Wrote b] /\ (length asked <= 1)%nat)
    /\ (forall d tail, incoming d (concat (ingress_answers auth) ++ b ++ tail) ->
       exists d', open_socks5 upstream e up d = Some (Err (chained_reason r), d') /\ incoming d' tail)
    /\ chained_reason (chained_reason r) = chained_reason r
    /\ (r ∈ [DConnectionRefused; DNetworkUnreachable; DHostUnreachable; DTtlExpired] -> chained_reason r = r).
Proof.
  intros Hu. exists (encode_reply (reply_for_disconnect r)). split_and!.
  - intros q s l sid l' [Ho|[Ho Hc]]; unfold open_connect; cbn [port_open_stream session_connect script_world]; unfold script_open; rewrite Ho; cbn [next].
    + eexists _, []. split_and!; [reflexivity| |simpl; lia]. unfold write_reply. cbn [sock_write script_world]. unfold script_write.
      cbn. destruct (next true (s_written s)). cbn. by rewrite <- app_assoc.
    + unfold script_connect. cbn [s_connects log]. rewrite Hc. cbn [next]. eexists _, [Connecting sid].
      split_and!; [reflexivity| |simpl; lia]. unfold write_reply. cbn [sock_write script_world]. unfold script_write.
      cbn. destruct (next true (s_written s)). cbn. by rewrite <- !app_assoc.
  - intros d tail Hi. destruct (client_reaches_the_reply auth up user e upstream _ d Hu Hi) as (d1 & -> & Hi1 & _).
    destruct (read_reply_plain (reply_for_disconnect r) tail d1 Hi1) as (d2 & -> & Hi2 & _). cbn [reply].
    exists d2. split; [|done]. pose proof (reply_is_refusal r). unfold chained_reason. by destruct (reply_for_disconnect r).
  - apply chained_reason_stable.
  - intros Hin. repeat (apply elem_of_cons in Hin as [->|Hin]; [done|]). by apply elem_of_nil in Hin.
Qed.

(** ** What a stream's receiver gets *)

(** A step of the reading task (the next read, or the send of what it holds), or a
    receive; the order is anyone's.  A receive that has to wait changes nothing, and
    nobody receives after the end. *)
Inductive ReturnsStep := TaskReads | TaskSends | HalfReceives.

Record Flow := mkFlow {
  fl_reads : list (result (list Z) IoKind);
  fl_half : Returns;
  fl_got : list (list Z);
  fl_end : option DisconnectReason
}.

Definition returns_start (reads : list (result (list Z) IoKind)) : Flow := mkFlow reads returns_new [] None.

Definition returns_step (cap : nat) (x : ReturnsStep) (f : Flow) : Flow :=
  match x with
  | TaskReads =>
      match fl_reads f, rt_held (fl_half f), rt_reading (fl_half f) with
      | r :: reads, None, true => mkFlow reads (returns_read r (fl_half f)) (fl_got f) (fl_end f)
      | _, _, _ => f
      end
  | TaskSends => mkFlow (fl_reads f) (returns_send cap (fl_half f)) (fl_got f) (fl_end f)
  | HalfReceives =>
      match fl_end f, exit_recv (mkExitRecv (Some (fl_half f)) None) with
      | None, Some (Some b, mkExitRecv (Some t) _) => mkFlow (fl_reads f) t (fl_got f ++ [b]) None
      | None, Some (None, mkExitRecv (Some t) (Some r)) => mkFlow (fl_reads f) t (fl_got f) (Some r)
      | _, _ => f
      end
  end.

Definition returns_run (cap : nat) (xs : list ReturnsStep) (f : Flow) : Flow := fold_left (fun f x => returns_step cap x f) xs f.

(** The pieces of the reads up to the end, and why they end. *)
Fixpoint read_pieces (l : list (result (list Z) IoKind)) : list (list Z) :=
  match l with
  | Ok (x :: b) :: l => (x :: b) :: read_pieces l
  | _ => []
  end.
Fixpoint read_end (l : list (result (list Z) IoKind)) : option DisconnectReason :=
  match l with
  | [] => None
  | Ok [] :: _ => Some DUpstreamEof
  | Ok _ :: l => read_end l
  | Err k :: _ => Some (disconnect_reason k)
  end.

(** Pieces and end of what is on its way: the queue, then what is held, then, while the
    task reads, the reads. *)
Fixpoint item_pieces (l : list Item) (more : list (list Z)) : list (list Z) :=
  match l with [] => more | Chunk b :: l => b :: item_pieces l more | Ended _ :: _ => [] end.
Fixpoint item_end (l : list Item) (more : option DisconnectReason) : option DisconnectReason :=
  match l with [] => more | Chunk _ :: l => item_end l more | Ended r :: _ => Some r end.

Definition on_the_way (t : Returns) : list Item := rt_queue t ++ match rt_held t with Some i => [i] | None => [] end.

Definition is_end (i : Item) : bool := match i with Ended _ => true | Chunk _ => false end.

(** An end is the last thing on the way and stops the reading. *)
Definition returns_ok (cap : nat) (reads : list (result (list Z) IoKind)) (f : Flow) : Prop :=
  let t := fl_half f in
  (length (rt_queue t) <= cap)%nat
  /\ match fl_end f with
     | Some r => fl_got f = read_pieces reads /\ read_end reads = Some r
     | None =>
         rt_reading t = negb (existsb is_end (on_the_way t))
         /\ read_pieces reads = fl_got f ++ item_pieces (on_the_way t) (if rt_reading t then read_pieces (fl_reads f) else [])
         /\ read_end reads = item_end (on_the_way t) (if rt_reading t then read_end (fl_reads f) else None)
     end.

Lemma item_pieces_app l k m : existsb is_end l = false -> item_pieces (l ++ k) m = item_pieces l [] ++ item_pieces k m.
Proof. induction l as [|[b|r] l IH]; cbn; intros H; [done|by rewrite IH|done]. Qed.
Lemma item_pieces_more l m : existsb is_end l = false -> item_pieces l m = item_pieces l [] ++ m.
Proof. induction l as [|[b|r] l IH]; cbn; intros H; [done|by rewrite IH|done]. Qed.
Lemma item_end_app l k m : existsb is_end l = false -> item_end (l ++ k) m = item_end k m.
Proof. induction l as [|[b|r] l IH]; cbn; intros H; [done|by rewrite IH|done]. Qed.

Lemma returns_start_ok cap reads : returns_ok cap reads (returns_start reads).
Proof. unfold returns_ok, returns_start. cbn. split; [lia|done]. Qed.

Lemma flow_reads_ok cap reads f : returns_ok cap reads f -> returns_ok cap reads (returns_step cap TaskReads f).
Proof.
  destruct f as [l [rd held q] got e]. unfold returns_step. cbn [fl_reads fl_half fl_got fl_end rt_held rt_reading].
  destruct l as [|r l]; [done|]. destruct held as [i|]; [done|]. destruct rd; [|done].
  unfold returns_ok, on_the_way. cbn [fl_reads fl_half fl_got fl_end rt_held rt_reading rt_queue returns_read].
  intros [Hq H]. split; [done|]. destruct e as [e|]; [done|]. destruct H as (Hn & Hp & He). rewrite app_nil_r in *.
  symmetry in Hn. apply negb_true_iff in Hn.
  rewrite existsb_app, Hn, item_pieces_app, item_end_app by done.
  rewrite (item_pieces_more q) in Hp by done.
  assert (item_end q (read_end (r :: l)) = read_end (r :: l)) as Hq2.
  { pose proof (item_end_app q [] (read_end (r :: l)) Hn) as X. by rewrite app_nil_r in X. }
  rewrite He, Hq2, Hp. by destruct r as [[|x b]|k].
Qed.

Lemma flow_sends_ok cap reads f : returns_ok cap reads f -> returns_ok cap reads (returns_step cap TaskSends f).
Proof.
  destruct f as [l [rd held q] got e]. unfold returns_step, returns_send. cbn [fl_reads fl_half fl_got fl_end rt_held rt_reading rt_queue].
  destruct held as [i|]; [|done]. destruct (Nat.ltb_spec (length q) cap) as [Hlt|]; [|done].
  unfold returns_ok, on_the_way. cbn [fl_reads fl_half fl_got fl_end rt_held rt_reading rt_queue]. rewrite app_nil_r, length_app. cbn.
  intros [_ H]. split; [lia|done].
Qed.

Lemma flow_receives_ok cap reads f : returns_ok cap reads f -> returns_ok cap reads (returns_step cap HalfReceives f).
Proof.
  destruct f as [l [rd held q] got e]. unfold returns_step, exit_recv. cbn [fl_reads fl_half fl_got fl_end rt_held rt_reading rt_queue er_returns er_last_error].
  destruct e as [e|]; [done|]. unfold returns_ok, on_the_way. cbn [fl_reads fl_half fl_got fl_end rt_held rt_reading rt_queue].
  intros (Hq & Hn & Hp & He). destruct q as [|[b|r] q]; cbn [fl_reads fl_half fl_got fl_end rt_held rt_reading rt_queue app length] in *.
  - destruct held as [i|]; [by rewrite orb_true_r|]. destruct rd; [done|]. by cbn in Hn.
  - split_and!; [lia|done| |done]. rewrite Hp, <- app_assoc. done.
  - split_and!; [lia| |done]. by rewrite Hp, app_nil_r.
Qed.

Lemma returns_run_ok cap reads xs f : returns_ok cap reads f -> returns_ok cap reads (returns_run cap xs f).
Proof.
  revert f. induction xs as [|x xs IH]; intros f H; [done|]. apply IH. destruct x; [by apply flow_reads_ok|by apply flow_sends_ok|by apply flow_receives_ok].
Qed.

Lemma flow_run_app cap xs ys f : returns_run cap (xs ++ ys) f = returns_run cap ys (returns_run cap xs f).
Proof. apply fold_left_app. Qed.

(** What is still to be moved. *)
Definition flow_left (f : Flow) : nat :=
  3 * length (fl_reads f) + 2 * (match rt_held (fl_half f) with Some _ => 1 | None => 0 end) + length (rt_queue (fl_half f)).

(** Some step always moves something, while the end is to come. *)
Lemma flow_moves cap reads r f :
  (0 < cap)%nat -> returns_ok cap reads f -> read_end reads = Some r -> fl_end f = None ->
  exists x, (flow_left (returns_step cap x f) < flow_left f)%nat.
Proof.
  destruct f as [l [rd held q] got e]. unfold returns_ok, on_the_way, flow_left.
  cbn [fl_reads fl_half fl_got fl_end rt_held rt_reading rt_queue]. intros Hc [Hq H] Hr ->. destruct H as (Hn & _ & He).
  destruct q as [|[b|x] q]; [|exists HalfReceives; cbn; lia..]. destruct held as [i|].
  - exists TaskSends. cbn [returns_step fl_half fl_reads]. unfold returns_send. cbn [rt_held rt_queue length].
    rewrite (proj2 (Nat.ltb_lt 0 cap)) by done. cbn. lia.
  - cbn in Hn. subst rd. cbn in He. destruct l as [|y l]; [by rewrite He in Hr|]. exists TaskReads. cbn. lia.
Qed.

Lemma flow_can_end cap reads r f :
  (0 < cap)%nat -> returns_ok cap reads f -> read_end reads = Some r -> exists ys, fl_end (returns_run cap ys f) = Some r.
Proof.
  intros Hc Hf Hr. remember (flow_left f) as n eqn:En. revert f Hf En. induction n as [n IH] using lt_wf_ind. intros f Hf ->.
  destruct (fl_end f) as [x|] eqn:Ee.
  - exists []. cbn. destruct Hf as [_ H]. rewrite Ee in H. destruct H as [_ H]. congruence.
  - destruct (flow_moves cap reads r f Hc Hf Hr Ee) as [x Hx].
    destruct (IH _ Hx (returns_step cap x f)) as [ys Hy]; [by apply (returns_run_ok cap reads [x])|done|]. by exists (x :: ys).
Qed.

(** C29: whatever the order in which the task that reads an exit's stream and the half
    that receives from it run, the channel between them holds no more than its capacity,
    and what is received is, in order and each once, a prefix of the pieces read; the end
    is received when all of them are, with the reason the reading ended for; and if the
    stream ends, it can be received to its end from every state. *)
Theorem exit_bytes_arrive_in_order (cap : nat) (reads : list (result (list Z) IoKind)) (xs : list ReturnsStep) :
  (0 < cap)%nat ->
  let f := returns_run cap xs (returns_start reads) in
  fl_got f `prefix_of` read_pieces reads
  /\ (length (rt_queue (fl_half f)) <= cap)%nat
  /\ (forall r, fl_end f = Some r -> fl_got f = read_pieces reads /\ read_end reads = Some r)
  /\ (forall r, read_end reads = Some r -> exists ys, fl_end (returns_run cap ys f) = Some r).
Proof.
  intros Hc f. assert (Hf : returns_ok cap reads f) by (apply returns_run_ok, returns_start_ok). pose proof Hf as [Hq H].
  split_and!; [|done| |].
  - destruct (fl_end f); [destruct H as [-> _]; done|]. destruct H as (_ & -> & _). by eexists.
  - intros r Er. by rewrite Er in H.
  - intros r Hr. by apply (flow_can_end cap reads).
Qed.

Lemma exit_bytes_arrive_in_order_witness :
  let f := returns_run 256 [TaskReads; TaskSends; TaskReads; HalfReceives] (returns_start [Ok [1; 2]; Ok [3]; Ok []]) in
  fl_got f `prefix_of` [[1; 2]; [3]] /\ exists ys, fl_end (returns_run 256 ys f) = Some DUpstreamEof.
Proof.
  pose proof (exit_bytes_arrive_in_order 256 [Ok [1; 2]; Ok [3]; Ok []] [TaskReads; TaskSends; TaskReads; HalfReceives] ltac:(lia)) as (H1 & _ & _ & H2).
  split; [exact H1|]. by apply H2.
Defined.

(** ** Concrete nodes *)

Definition creds_a : Socks5UpstreamAuth := mkUpstreamAuth [97; 110; 110] [112; 119].

Lemma creds_a_ok : upstream_user (Some auth_a) (Some creds_a) (Some "ann"%string).
Proof. exists "ann"%string, "pw"%string. split_and!; reflexivity. Qed.

Lemma chained_nodes_agree_witness :
  exists requests answers : list (list Z),
    (forall d tail, incoming d (concat answers ++ encode_reply_with_endpoint Succeeded host_a ++ tail) ->
       exists d', open_socks5 "up:1080" host_a (Some creds_a) d = Some (Ok (tt, host_a), d') /\ d_out d' = d_out d ++ requests /\ incoming d' tail)
    /\ (forall chunks tail s fuel, concat chunks = concat requests ++ tail -> reading chunks s -> (length chunks <= fuel)%nat ->
       exists cs s', read_handshake fuel (Some auth_a) s = Some (Some (mkHandshake (mkRequest Connect host_a) (Some "ann"%string)), s')
         /\ reading cs s' /\ s_log s' = s_log s ++ (Wrote <$> answers)).
Proof.
  change host_a with (canon host_a). apply (chained_nodes_agree (Some auth_a) (Some creds_a) (Some "ann"%string) "up:1080" host_a host_a).
  - exact creds_a_ok.
  - exact host_a_ok.
  - reflexivity.
  - exact host_a_ok.
  - reflexivity.
  - vm_compute. lia.
Defined.

Lemma refusals_travel_back_witness :
  exists b,
    (forall d tail, incoming d (concat (ingress_answers (Some auth_a)) ++ b ++ tail) ->
       exists d', open_socks5 "up:1080" host_a (Some creds_a) d = Some (Err DHostUnreachable, d') /\ incoming d' tail).
Proof.
  destruct (refusals_travel_back (Some auth_a) (Some creds_a) (Some "ann"%string) "up:1080" host_a DNoUsableExit creds_a_ok)
    as (b & _ & H & _). exists b. exact H.
Defined.

(** A run of the two handshakes, with the answers in pieces of their own. *)
Example chained_run :
  open_socks5 "up:1080" host_a (Some creds_a)
    (mkDialog [[5]; [2; 1]; [0; 5; 0; 0; 1; 10]; [0; 0; 1; 0; 80; 72; 105]] [] [] [] [])
  = Some (Ok (tt, host_a),
      mkDialog [[72; 105]] [] [[5; 2; 2; 0]; [1; 3; 97; 110; 110; 2; 112; 119]; [5; 1; 0; 1; 10; 0; 0; 1; 0; 80]] ["up:1080"%string] []).
Proof. vm_compute. reflexivity. Qed.

(** ** Services *)

(** A service's exit looks up and sends to its configured endpoint only, whatever the
    target of a request or of a datagram is. *)
Theorem service_reaches_its_endpoint_only (id service : string) (to : Endpoint) (gs : list string) (q : BusSessionRequest)
    (i : BusSessionInfo) (t : Endpoint) (p : list Z) (d : Dialog) :
  Z.of_nat (length p) <= MAX_UDP_PAYLOAD_BYTES ->
  (exists r s d1, tcp_session_connect (service_open_stream (service_tcp_with_groups gs (service_tcp_new id service to)) q i) d = Some (Ok r, s, d1)
     /\ d_looked_up d1 = d_looked_up d ++ [host_port to] /\ (path_remote <$> info_paths r) = [to])
  /\ (exists s d1 d2, service_open_datagram (service_udp_with_groups gs (service_udp_new id service to)) i d = (Ok s, d1)
       /\ udp_session_send s t p d1 = (Ok tt, d2) /\ d_sent d2 = d_sent d ++ [(host_port to, p)]
       /\ udp_session_send (udp_session_close s) t p d2 = (Err DgClosed, d2)).
Proof.
  intros Hp. split.
  - do 3 eexists. split_and!; reflexivity.
  - eexists (mkUdpExit i tt false (Some to)), d, _. split; [reflexivity|].
    unfold udp_session_send, udp_send. cbn [ux_closed ux_fixed ux_socket default]. rewrite (proj2 (Z.ltb_ge _ _)) by done.
    split_and!; reflexivity.
Qed.

(** ** Datagrams of an upstream's relay *)

(** A receive passes over whatever is no SOCKS5 datagram and gives the first that is one,
    with the target it names. *)
Theorem relay_gives_the_first_datagram (junk : list (list Z * SocketAddr)) (e : Endpoint) (p : list Z) (from : SocketAddr)
    (more : list DatagramWait) (d : Dialog) (fuel : nat) :
  Forall (fun x => is_ok (decode_udp_datagram x.1) = false) junk -> endpoint_ok e -> is_utf8 (host e) = true ->
  d_waits d = ((fun x => WaitGot x.1 x.2) <$> junk) ++ WaitGot (encode_udp_datagram e p) from :: more -> (length junk < fuel)%nat ->
  exists d', relay_recv fuel tt false None d = Some (Some (canon e, p), None, d') /\ d_waits d' = more.
Proof.
  revert d fuel. induction junk as [|[b a] junk IH]; intros d fuel Hj He Hu Hw Hf; (destruct fuel as [|fuel]; [simpl in Hf; lia|]).
  - cbn [relay_recv udp_wait dialog_world]. unfold dialog_wait. rewrite Hw. cbn [fmap list_fmap app].
    rewrite udp_roundtrip by done. by eexists.
  - apply Forall_cons in Hj as [Hb Hj]. cbn [relay_recv udp_wait dialog_world]. unfold dialog_wait. rewrite Hw. cbn [fmap list_fmap app].
    destruct (decode_udp_datagram b) as [x|x] eqn:Eb; [by cbn in Hb; rewrite Eb in Hb|]. cbn [fst snd]. rewrite Eb. apply IH; [done..|simpl in Hf; lia].
Qed.

(** The largest payload the egress takes does not fit a datagram once it is wrapped: the
    send fails in the socket and is reported as closed instead of too large. *)
Theorem largest_payload_does_not_fit (t : Endpoint) (p : list Z) :
  endpoint_ok t -> Z.of_nat (length p) = MAX_UDP_PAYLOAD_BYTES ->
  exists d', relay_send tt false t p (mkDialog [] [] [] [] []) = (Ok tt, d')
    /\ Forall (fun x => MAX_UDP_PAYLOAD_BYTES < Z.of_nat (length x.2)) (d_sent d') /\ d_sent d' <> [].
Proof.
  intros Ht Hp. unfold relay_send. rewrite (proj2 (Z.ltb_ge _ _)) by lia. eexists. split_and!; [reflexivity| |done].
  constructor; [|done]. cbn [snd]. unfold encode_udp_datagram. rewrite !length_app. cbn [length]. lia.
Qed.

(** A complete reply whose bound name has one or two bytes is refused: the decoder wants
    ten bytes, and such a reply has fewer. *)
Theorem short_name_reply_is_refused :
  encode_reply_with_endpoint Succeeded (mkEndpoint "a" 80) = [5; 0; 0; 3; 1; 97; 0; 80]
  /\ exists d', read_reply_frame_atyp tt (mkDialog [[5; 0; 0; 3; 1; 97; 0; 80; 1; 2]] [] [] [] [])
       = (Err (DOther "incomplete frame"), d') /\ d_in d' = [[1; 2]].
Proof. split; [vm_compute; reflexivity|]. eexists. split; vm_compute; reflexivity. Qed.

(** * A mesh exit and the ingress it reaches *)

(** ** The ingress's replies to an open *)

Section Replies.
Context {B : Type} `{!PeerBus B}.

Lemma evict_stream_replies n (s : MeshIngress.Ingress B) : MeshIngress.replies (evict_stream n s) = MeshIngress.replies s.
Proof. unfold evict_stream, close_session. by repeat case_match. Qed.

Lemma stream_write_replies k id b (s : MeshIngress.Ingress B) : MeshIngress.replies (stream_write k id b s).2 = MeshIngress.replies s.
Proof. unfold stream_write, close_session. by repeat case_match. Qed.

Lemma send_early_replies k id bs : forall s : MeshIngress.Ingress B, MeshIngress.replies (send_early k id bs s) = MeshIngress.replies s.
Proof.
  induction bs as [|b bs IH]; intros s; simpl; [done|]. pose proof (stream_write_replies k id b s) as Hw.
  destruct (stream_write k id b s) as [[] s']; simpl in Hw; [by rewrite IH|done].
Qed.

(** Making room closes at most one kept session, and only if the table is full. *)
Lemma evict_stream_effect n (s : MeshIngress.Ingress B) :
  evict_stream n s = s
  \/ ((n <= size (MeshIngress.stream_sessions s))%nat
      /\ exists k id, MeshIngress.stream_sessions s !! k = Some id /\ bus (evict_stream n s) = MeshIngress.bus_close id (bus s)).
Proof.
  unfold evict_stream. destruct (Nat.leb_spec n (size (MeshIngress.stream_sessions s))) as [Hl|]; [|by left].
  destruct (hash_first _ _) as [k|]; [|by left].
  destruct (MeshIngress.stream_sessions s !! k) as [id|] eqn:E; [|by left]. right. split; [done|]. by exists k, id.
Qed.

(** What an open does to the bus beside the opening: nothing, or the close of one kept
    session to make room. *)
Definition made_room (max : nat) (s : MeshIngress.Ingress B) (b b' : B) : Prop :=
  b' = b \/ ((max <= size (MeshIngress.stream_sessions s))%nat
             /\ exists k id, MeshIngress.stream_sessions s !! k = Some id /\ b' = MeshIngress.bus_close id b).

(** The answer to an open that is not there yet, and the session kept for it. *)
Lemma open_answered cfg peer seal o (s : MeshIngress.Ingress B) :
  MeshIngress.stream_sessions s !! (peer, so_session_id o) = None ->
  let '(r, b) := MeshIngress.bus_open_stream (so_target o) (so_route_group o) (bus s) in
  let s' := MeshIngress.on_stream_open cfg peer seal o s in
  match r with
  | Ok id =>
      MeshIngress.replies s' = MeshIngress.replies s ++ [MeshIngress.mkReply peer seal (FStreamOpenAccepted (so_session_id o) (so_open_token o))]
      /\ (MeshIngress.pending_stream_data s !! (peer, so_session_id o) = None ->
          MeshIngress.stream_sessions s' !! (peer, so_session_id o) = Some id /\ made_room (max_peer_sessions cfg) s b (bus s'))
  | Err e =>
      MeshIngress.replies s' = MeshIngress.replies s ++ [MeshIngress.mkReply peer seal (FStreamOpenReject (so_session_id o) (so_open_token o) (reject_reason e) (ingress_close_reason e))]
      /\ MeshIngress.stream_sessions s' = MeshIngress.stream_sessions s /\ bus s' = b
  end.
Proof.
  intros Hn. unfold MeshIngress.on_stream_open. rewrite Hn. destruct (MeshIngress.bus_open_stream _ _ _) as [[id|e] b]; [|done].
  set (s1 := MeshIngress.send_reply _ _). set (s2 := upd_streams _ _).
  assert (Hr : MeshIngress.replies s2 = MeshIngress.replies s1) by (unfold s2; simpl; by rewrite evict_stream_replies).
  assert (Hp : MeshIngress.pending_stream_data s2 = MeshIngress.pending_stream_data s).
  { unfold s2. simpl. unfold evict_stream, close_session. by repeat case_match. }
  rewrite Hp. split.
  - destruct (MeshIngress.pending_stream_data s !! _); [rewrite send_early_replies|]; exact Hr.
  - intros ->. unfold s2. simpl. rewrite lookup_insert_eq. split; [done|].
    destruct (evict_stream_effect (max_peer_sessions cfg) s1) as [-> |(Hl & k & v & Hk & ->)]; [by left|right].
    split; [done|]. by exists k, v.
Qed.
End Replies.

(** ** The link: what the exit sends is handled at once, and the replies reach its driver *)

Record Link (B : Type) := mkLink { lk_ingress : MeshIngress.Ingress B; lk_inboxes : StreamInboxes; lk_sid : string; lk_token : Z }.
Arguments mkLink {B}. Arguments lk_ingress {B}. Arguments lk_inboxes {B}. Arguments lk_sid {B}. Arguments lk_token {B}.

Section Linked.
Context {B : Type} `{!PeerBus B} (cfg : IngressCfg_) (exit_addr : SocketAddr) (seal : option MeshSecReplySeal) (now : Z).

Definition deliver (f : MeshFrame) (w : Link B) : Link B :=
  let s := MeshIngress.handle_frame cfg exit_addr seal now f (lk_ingress w) in
  let new := drop (length (MeshIngress.replies (lk_ingress w))) (MeshIngress.replies s) in
  mkLink s (foldl (fun i r => stream_frame (lk_sid w) (MeshIngress.rp_frame r) i) (lk_inboxes w) new) (lk_sid w) (lk_token w).

Definition link_tasks : MeshTasks (Link B) := {|
  task_bind _ w := Some w;
  task_addr _ := Ok exit_addr;
  task_send f w := (Ok tt, deliver f w);
  open_controls w := (ctl_inbox (lk_inboxes w), negb (running (lk_inboxes w)), w);
  fresh_token w := (lk_token w, w)
|}.

(** C27: A stream a mesh exit connects is the one its peer's ingress opens.  Over a link that
    carries frames, connecting a session asks the peer's bus exactly once, for the very
    target and route group of the request: the bus is left as that one call left it, but
    for the close of one kept session when the ingress had no room.  The session is
    connected, with its exit's address and the target as its one path, exactly when the bus
    has opened it, and the ingress then keeps the bus's session under the exit's address and
    the session's id; otherwise it fails with the reason the ingress puts on the wire, and
    the ingress keeps the sessions it had. *)
Theorem mesh_connect_opens_at_the_peer (s : MeshStreamSession) (w : Link B) (local : Endpoint) :
  ms_connected s = false -> lk_sid w = ms_sid s -> lk_inboxes w = inboxes_new ->
  endpoint_from_socket_addr exit_addr = Some local ->
  MeshIngress.stream_sessions (lk_ingress w) !! (exit_addr, ms_sid s) = None ->
  MeshIngress.pending_stream_data (lk_ingress w) !! (exit_addr, ms_sid s) = None ->
  let q := ms_request s in
  let '(res, b) := MeshIngress.bus_open_stream (rq_target q) (rq_route_group q) (bus (lk_ingress w)) in
  exists s' w', 
    @mesh_connect (Link B) link_tasks s w
      = Some (match res with
              | Ok _ => Ok (connected_info (ms_exit s) local (rq_target q) (ms_info s))
              | Err e => Err (wire_close_to_disconnect (ingress_close_reason e))
              end, s', w')
    /\ match res with
       | Ok id =>
           ms_connected s' = true
           /\ MeshIngress.stream_sessions (lk_ingress w') !! (exit_addr, ms_sid s) = Some id
           /\ made_room (max_peer_sessions cfg) (lk_ingress w) b (bus (lk_ingress w'))
       | Err _ =>
           ms_connected s' = false
           /\ MeshIngress.stream_sessions (lk_ingress w') = MeshIngress.stream_sessions (lk_ingress w)
           /\ bus (lk_ingress w') = b
       end.
Proof.
  intros Hc Hsid Hi Hl Hn Hp q.
  pose proof (open_answered cfg exit_addr seal
    (mkStreamOpen (ms_sid s) (lk_token w) (rq_target q) (rq_route_group q) (flow_semantics_wire q) (return_semantics_wire q) "local" (ms_trace s))
    (lk_ingress w) Hn) as Ho. cbn -[MeshIngress.on_stream_open] in Ho.
  destruct (MeshIngress.bus_open_stream (rq_target q) (rq_route_group q) (bus (lk_ingress w))) as [[id|e] b]; destruct Ho as [Hr Hs];
    unfold mesh_connect; rewrite Hc; cbn -[deliver open_frame]; unfold deliver, open_frame; cbn -[stream_frame]; fold q; rewrite Hi, Hsid;
    rewrite Hr, drop_app_length; cbn; rewrite bool_decide_true by done; cbn; rewrite Z.eqb_refl.
  - rewrite Hl. cbn. eexists _, _. split; [reflexivity|]. split; [done|]. by apply Hs.
  - eexists _, _. split; [reflexivity|]. split; [done|]. exact Hs.
Qed.
End Linked.

(** A bus that opens every stream but one to a port *)
Definition bus_demo : PeerBus unit := {|
  MeshIngress.bus_open_datagram _ b := (None, b);
  MeshIngress.bus_open_stream e _ b := (if port e =? 25 then Err DHostUnreachable else Ok 7%nat, b);
  MeshIngress.bus_send_to _ _ _ b := b;
  MeshIngress.bus_send _ _ b := (true, b);
  MeshIngress.bus_shutdown _ b := b;
  MeshIngress.bus_close _ b := b;
  MeshIngress.hash_first _ _ := None
|}.

Definition mesh_session (e : Endpoint) : MeshStreamSession :=
  mkMeshStream "m1" (mkInfo "s-1" "f-1" ModeOrdered [] 0) [] (request_stream e) "s-1" 1 false false None.
Definition link_demo : Link unit := mkLink (ingress_start tt) inboxes_new "s-1" 99.

Lemma mesh_connect_opens_at_the_peer_witness :
  exists s' w', @mesh_connect _ (@link_tasks unit bus_demo ingress_cfg_new local_a None 0) (mesh_session (mkEndpoint "mail.example" 25)) link_demo
    = Some (Err DNoUsableExit, s', w') /\ ms_connected s' = false.
Proof.
  destruct (@mesh_connect_opens_at_the_peer unit bus_demo ingress_cfg_new local_a None 0 (mesh_session (mkEndpoint "mail.example" 25)) link_demo
    (mkEndpoint "10.0.0.5" 41000) eq_refl eq_refl eq_refl eq_refl eq_refl eq_refl) as (s' & w' & Hc & Hs & _).
  exists s', w'. split; [exact Hc|exact Hs].
Defined.
