(* ===== verification/Assembly.v ===== *)
(** A node made of its configuration (crates/mesh-bus-runtime/src/lib.rs): the checks of
    [preflight_config], and [run]: the scheduler, the observers, the exits and the
    ingresses it builds, in the order of the source, up to the tasks it spawns.

    Binding a listener is a parameter; [None] is a panic. *)
From S2P Require Import Prelude Numbers NetAddr Floats Endpoint Schedulers StateM Rules RuleYaml RuleYamlFacts Geosite MeshWire MeshSec.
From S2P Require Import LoadBalance Observation Resolver ResolverRun KernelRegistry Pipeline Hooks DispatchTypes Dispatch.
From S2P Require Import Ingress Session MeshPeer Socks5Ingress HttpIngress Egress Config ConfigValidate ConfigFacts ConfigTheorems Forward ForwardDemo.
Local Open Scope string_scope.
Local Open Scope Z_scope.

(** ** Rule policies of SOCKS5 ingresses *)

Inductive PolicyError :=
| PolicyNotFound (path : string)
| PolicyRead (path e : string)
| PolicyParse (path : string) (e : RuleYaml.ParseError)
| PolicyInvalid (path : string) (e : ValidateError)
| PolicyActions (path e : string)
| PolicySets (path : string) (e : RuleYaml.ParseError).

Inductive RunError :=
| RunSource (e : AssemblyError)
| RunPipeline (e : AssemblyError)
| RunPolicy (e : PolicyError)
| BadEndpoint (s : string) (e : Endpoint.ParseError)
| BadSocketAddr (s : string)
| BindFailed (what e : string)
| BusBuild (e : BusError)
| RuntimeMissing.

(** Binding: the error's text, if any. *)
Class Listeners := {
  listen_tcp : string -> option string;
  listen_udp : string -> option string;
  bind_loop : SocketAddr -> option string
}.

(** ** Texts of a configuration *)

Definition scheduler_name (s : SchedulerCfg) : string :=
  match s with CfgCake => "Cake" | CfgReplicateAll => "Replicate" | CfgLoadBalance _ _ _ => "LoadBalance" end.
Definition log_format_name (f : LogFormat) : string :=
  match f with LogCompact => "compact" | LogPretty => "pretty" | LogJson => "json" end.
Definition metrics_name (m : MetricsCfg) : string :=
  match m with PrometheusTextfile _ _ => "PrometheusTextfile" | PrometheusHttp _ _ => "PrometheusHttp" end.

Definition exit_status_line (e : EgressCfg) : string :=
  String (ascii_of_nat 10) ("exit=" +:+ egress_id e +:+ " wan=" +:+ wan_id e +:+ " priority=" +:+ dec_show (egress_priority e)
    +:+ " send_count=0 success_count=0 failure_count=0 last_rtt_ms=0 payload_bytes_total=0").

Definition status_text (cfg : Config) : string :=
  "scheduler=" +:+ scheduler_name (cfg_scheduler cfg)
  +:+ " ingresses=" +:+ dec_show (Z.of_nat (length (cfg_ingresses cfg)))
  +:+ " egresses=" +:+ dec_show (Z.of_nat (length (cfg_egresses cfg)))
  +:+ " logging=" +:+ log_level (cfg_logging cfg) +:+ "/" +:+ log_format_name (log_format (cfg_logging cfg))
  +:+ " metrics=" +:+ default "none" (metrics_name <$> cfg_metrics cfg)
  +:+ foldr (fun e s => exit_status_line e +:+ s) "" (cfg_egresses cfg).

(** ** Weights and labels *)

(** [collect] into a [HashMap]: the last of equal keys stays. *)
Definition egress_weights (es : list EgressCfg) : list (string * Z) := (fun e => (egress_id e, egress_priority e)) <$> es.
Definition egress_wan_labels (es : list EgressCfg) : gmap string string :=
  foldl (fun m e => <[egress_id e := wan_id e]> m) ∅ es.

(** The labels of one exit, in the order of their names. *)
Definition exit_labels (node : option NodeCfg) (e : EgressCfg) : btree string :=
  let of_node := match node with Some n => [("node_id", node_id n)] | None => [] end in
  match egress_peer_id e with
  | Some p => ([("hop_count", "1")] ++ of_node ++ [("path_id", egress_id e); ("peer_id", p)])%list
  | None => of_node
  end.

Definition egress_peer_labels (node : option NodeCfg) (es : list EgressCfg) : gmap string (btree string) :=
  foldl (fun m e => match exit_labels node e with [] => m | ls => <[egress_id e := ls]> m end) ∅ es.

(** ** The scheduler *)

Inductive BuiltScheduler := SchedCake (s : CakeScheduler) | SchedReplicate | SchedLoadBalance (s : LoadBalanceScheduler).

Definition mode_into (m : LoadBalanceModeCfg) : LoadBalanceMode :=
  match m with
  | CfgRoundRobin => RoundRobin | CfgStickySessions => StickySessions | CfgConsistentHashing => ConsistentHashing
  | CfgSourceLeaseRotate => SourceLeaseRotateMode
  end.

Definition build_scheduler (s : SchedulerCfg) (weights : list (string * Z)) : BuiltScheduler :=
  match s with
  | CfgCake => SchedCake cake_new
  | CfgReplicateAll => SchedReplicate
  | CfgLoadBalance mode ttl lease =>
      SchedLoadBalance (with_weights
        (match mode with
         | CfgSourceLeaseRotate => with_source_lease_rotate (lease_into lease)
         | _ => with_sticky_ttl_ms (mode_into mode) (secs_to_ms ttl)
         end) weights)
  end.

(** ** The exits *)

Inductive BuiltEgress :=
| BuiltTcp (e : TcpEgress)
| BuiltSocks5 (e : Socks5Egress)
| BuiltUdp (e : UdpEgress)
| BuiltSocks5Udp (e : Socks5UdpEgress)
| BuiltMesh (e : MeshPeerUdpEgress)
| BuiltServiceTcp (e : ServiceTcpEgress)
| BuiltServiceUdp (e : ServiceUdpEgress).

Definition built_id (b : BuiltEgress) : string :=
  match b with
  | BuiltTcp e => te_id e | BuiltSocks5 e => se_id e | BuiltUdp e => ue_id e | BuiltSocks5Udp e => sg_id e
  | BuiltMesh e => mp_id e | BuiltServiceTcp e => te_id (sv_tcp e) | BuiltServiceUdp e => ue_id (su_udp e)
  end.
Definition built_caps (b : BuiltEgress) : Capabilities :=
  match b with
  | BuiltTcp e => te_caps e | BuiltSocks5 e => se_caps e | BuiltUdp e => ue_caps e | BuiltSocks5Udp e => sg_caps e
  | BuiltMesh e => mp_caps e | BuiltServiceTcp e => te_caps (sv_tcp e) | BuiltServiceUdp e => ue_caps (su_udp e)
  end.

Definition run_endpoint (s : string) : result Endpoint RunError := map_err (BadEndpoint s) (endpoint_parse s).
Definition run_socket_addr (s : string) : result SocketAddr RunError :=
  match parse_socket_addr s with Some a => Ok a | None => Err (BadSocketAddr s) end.

Definition service_udp_with_buffers (c : SocketBufferConfig) (s : ServiceUdpEgress) : ServiceUdpEgress :=
  mkServiceUdp (su_id s) (udp_with_buffers c (su_udp s)).

(** One turn of the loop over the egresses. *)
Definition build_egress (seal : string -> option MeshSecSealContext) (e : EgressCfg) : result (list BuiltEgress) RunError :=
  match e with
  | ETcp id _ _ gs _ rb sb => Ok [BuiltTcp (tcp_with_buffers (mkBuffers rb sb) (tcp_with_groups gs (tcp_egress_new id)))]
  | ESocks5 id _ _ gs upstream _ => Ok [BuiltSocks5 (socks5_with_groups gs (socks5_egress_new id upstream))]
  | EUdp id _ _ gs _ rb sb => Ok [BuiltUdp (udp_with_buffers (mkBuffers rb sb) (udp_with_groups gs (udp_egress_new id)))]
  | ESocks5Udp id _ _ gs upstream _ auth =>
      let x := socks5_udp_with_groups gs (socks5_udp_egress_new id upstream) in
      Ok [BuiltSocks5Udp match auth with
                         | Some a => socks5_udp_with_auth (Egress.mkUpstreamAuth (bytes_of_string (Config.up_username a)) (bytes_of_string (Config.up_password a))) x
                         | None => x
                         end]
  | EMeshPeerUdp id peer_id addr _ _ gs _ _ _ _ _ =>
      let? peer := run_socket_addr addr in
      let '(mode, fanout, budget) := delivery_policy e in
      let x := mesh_with_delivery_policy mode fanout budget
                 (mesh_with_native_mode (egress_native_mode e) (mesh_with_groups gs (mesh_egress_new id peer))) in
      let x := match seal peer_id with Some ctx => mesh_with_meshsec ctx x | None => x end in
      Ok [BuiltMesh (as_stream_adapter x); BuiltMesh (as_datagram_adapter x)]
  | EServiceTcp id service _ _ _ gs connect _ =>
      let? to := run_endpoint connect in
      Ok [BuiltServiceTcp (service_tcp_with_groups gs (service_tcp_new id service to))]
  | EServiceUdp id service _ _ _ gs connect _ rb sb =>
      let? to := run_endpoint connect in
      Ok [BuiltServiceUdp (service_udp_with_buffers (mkBuffers rb sb) (service_udp_with_groups gs (service_udp_new id service to)))]
  end.

Fixpoint build_egresses (seal : string -> option MeshSecSealContext) (es : list EgressCfg) : result (list BuiltEgress) RunError :=
  match es with
  | [] => Ok []
  | e :: es =>
      let? b := build_egress seal e in
      let? bs := build_egresses seal es in
      Ok (b ++ bs)%list
  end.

(** ** The observers *)

Inductive BuiltObserver :=
| CounterObs
| PrometheusObs (textfile : option string) (wan : gmap string string) (peer : gmap string (btree string)) (static_ : list (string * string)).

Definition build_observers `{Listeners} (m : option MetricsCfg) (wan : gmap string string) (peer : gmap string (btree string)) :
    result (list BuiltObserver) RunError :=
  match m with
  | None => Ok [CounterObs]
  | Some (PrometheusTextfile path labels) => Ok [CounterObs; PrometheusObs (Some path) wan peer labels]
  | Some (PrometheusHttp listen labels) =>
      match listen_tcp listen with
      | Some e => Err (BindFailed ("metrics " +:+ listen) e)
      | None => Ok [CounterObs; PrometheusObs None wan peer labels]
      end
  end.

(** Both observers subscribe to all core events and to the two drop events. *)
Definition observer_decl (o : BuiltObserver) : ObserverDecl :=
  mkDecl [FlowOpened; FlowClosed; PathIoError] [OBS_MESHSEC_DROP; OBS_NATIVE_DROP] [] [].

(** ** The ingresses *)

(** Users of a configuration: the last of equal names stays. *)
Definition socks5_users (a : AuthCfg) : AuthConfig :=
  foldl (fun acc u => with_user (user_name u) (user_password u) acc) auth_new (Config.users a).
Definition http_users (a : AuthCfg) : BasicAuth :=
  foldl (fun acc u => basic_with_user (user_name u) (user_password u) acc) basic_new (Config.users a).

Section Assemble.
Context `{RuleParsers} `{Mmdb} `{Files} `{Listeners} {W : Type} `{!ResolverNet W}.
Variable fx_write : Z -> list Z -> Z.

Inductive BuiltIngress :=
| BuiltInSocks5 (listen : string) (policy : option (RuleChain * RuleSetRegistry)) (pipeline : bool) (auth : option AuthConfig)
    (handshake_timeout_ms accept_backoff_ms max_connections udp_forward_concurrency : Z) (b : SocketBufferConfig)
| BuiltInHttp (listen : string) (pipeline : bool) (auth : option BasicAuth)
    (handshake_timeout_ms max_header_bytes max_connections : Z) (b : SocketBufferConfig)
| BuiltInTcp (listen : string) (target : Endpoint) (pipeline : bool) (b : SocketBufferConfig)
| BuiltInUdp (listen : string) (target : Endpoint) (pipeline : bool) (b : SocketBufferConfig)
| BuiltInMesh (listen : SocketAddr) (native : NativeEventMode) (keys : option (string * list MeshSecOpenKey)).

(** *** Rule chains *)

(** The chain of a file with its rule sets, whose relative files are beside it. *)
Definition load_policy (p : string) : option (result (RuleChain * RuleSetRegistry) PolicyError) :=
  match read_text (fs_read p) with
  | Err e => Some (Err (PolicyRead p e))
  | Ok body =>
      parsed ← parse_chain_and_rulesets_yaml (yaml_from_str body);
      Some (let? (chain, rulesets) := map_err (PolicyParse p) parsed in
            do? map_err (PolicyInvalid p) (validate chain rulesets);
            do? map_err (PolicyActions p) (validate_rule_policy_actions chain);
            let rulesets := match path_parent p with Some dir => rebase_source dir <$> rulesets | None => rulesets end in
            let? reg := map_err (PolicySets p) (registry_load (fun q => read_text (fs_read q)) rulesets) in
            Ok (chain, reg))
  end.

Definition path_exists (p : string) : bool := match fs_read p with FileMissing => false | _ => true end.

(** The chains of the SOCKS5 ingresses the pipeline does not serve, from an index on. *)
Fixpoint validate_rule_chains_from (idx : nat) (source : option nat) (base_dir : string) (is_ : list IngressCfg) :
    option (result unit PolicyError) :=
  match is_ with
  | [] => Some (Ok tt)
  | i :: is_ =>
      let go := validate_rule_chains_from (S idx) source base_dir is_ in
      match i with
      | InSocks5 _ (Some path) _ _ _ _ _ _ _ =>
          if bool_decide (source = Some idx) then go
          else
            let p := resolve_relative base_dir path in
            if negb (path_exists p) then Some (Err (PolicyNotFound p))
            else r ← load_policy p; match r with Err e => Some (Err e) | Ok _ => go end
      | _ => go
      end
  end.

Definition preflight_config (cfg : Config) (base_dir : string) (w : W) : option (result unit RunError) :=
  match selected_pipeline_source_index cfg with
  | Err e => Some (Err (RunSource e))
  | Ok source =>
      chains ← validate_rule_chains_from 0 source base_dir (cfg_ingresses cfg);
      match chains with
      | Err e => Some (Err (RunPolicy e))
      | Ok _ =>
          match cfg_pipeline cfg with
          | None => Some (Ok tt)
          | Some _ =>
              rt ← build_pipeline_runtime fx_write cfg base_dir w;
              Some (match rt with Ok _ => Ok tt | Err e => Err (RunPipeline e) end)
          end
      end
  end.

(** *** One ingress *)

Definition bind_or {A} (r : option string) (what : string) (a : result A RunError) : result A RunError :=
  match r with Some e => Err (BindFailed what e) | None => a end.

(** [pipeline_runtime.clone().ok_or_else(..)] at the index of the source *)
Definition attach (source : option nat) (runtime : bool) (idx : nat) : result bool RunError :=
  if bool_decide (source = Some idx) then (if runtime then Ok true else Err RuntimeMissing) else Ok false.

(** One turn of the loop over the ingresses; [keys] are the node's id and its peers'
    opening keys. *)
Definition build_ingress (source : option nat) (runtime : bool) (base_dir : string) (node : option string) (keys : list MeshSecOpenKey)
    (idx : nat) (i : IngressCfg) : option (result BuiltIngress RunError) :=
  match i with
  | InSocks5 listen chain auth hs backoff conns udp rb sb =>
      match listen_tcp listen with
      | Some e => Some (Err (BindFailed listen e))
      | None =>
          let built policy pipeline :=
            BuiltInSocks5 listen policy pipeline (auth ≫= fun a => with_auth (socks5_users a))
              (default 5000 hs) (default 50 backoff) (default 1024 conns) (default 64 udp) (mkBuffers rb sb) in
          if bool_decide (source = Some idx) then
            Some (if runtime then Ok (built None true) else Err RuntimeMissing)
          else
            match chain with
            | None => Some (Ok (built None false))
            | Some path =>
                r ← load_policy (resolve_relative base_dir path);
                Some (match r with Ok p => Ok (built (Some p) false) | Err e => Err (RunPolicy e) end)
            end
      end
  | InTcp listen target _ _ _ _ rb sb =>
      Some (bind_or (listen_tcp listen) listen
              (let? e := run_endpoint target in
               let? p := attach source runtime idx in
               Ok (BuiltInTcp listen e p (mkBuffers rb sb))))
  | InHttpConnect listen auth hs header conns rb sb =>
      Some (bind_or (listen_tcp listen) listen
              (let? p := attach source runtime idx in
               Ok (BuiltInHttp listen p (auth ≫= fun a => with_auth_basic (http_users a))
                     (default 5000 hs) (default 16384 header) (default 1024 conns) (mkBuffers rb sb))))
  | InUdp listen target _ _ _ _ rb sb =>
      Some (bind_or (listen_udp listen) listen
              (let? e := run_endpoint target in
               let? p := attach source runtime idx in
               Ok (BuiltInUdp listen e p (mkBuffers rb sb))))
  | InMeshPeerUdp listen native =>
      Some (let? a := run_socket_addr listen in
            bind_or (bind_loop a) ("mesh peer udp " +:+ listen)
              (Ok (BuiltInMesh a (native_to_proto native)
                     (match node, keys with Some n, _ :: _ => Some (n, keys) | _, _ => None end))))
  end.

Fixpoint build_ingresses (source : option nat) (runtime : bool) (base_dir : string) (node : option string) (keys : list MeshSecOpenKey)
    (idx : nat) (is_ : list IngressCfg) : option (result (list BuiltIngress) RunError) :=
  match is_ with
  | [] => Some (Ok [])
  | i :: is_ =>
      r ← build_ingress source runtime base_dir node keys idx i;
      match r with
      | Err e => Some (Err e)
      | Ok b =>
          rs ← build_ingresses source runtime base_dir node keys (S idx) is_;
          Some (match rs with Ok bs => Ok (b :: bs) | Err e => Err e end)
      end
  end.

(** ** The node *)

Record Node := mkNodeBuilt {
  nd_scheduler : BuiltScheduler;
  nd_health : HealthCfg;
  nd_observers : list BuiltObserver;
  nd_egresses : list BuiltEgress;
  nd_ingresses : list BuiltIngress
}.

(** The sealing contexts of the peers that have one; a malformed key is a panic. *)
Fixpoint seal_contexts (cfg : Config) (salt : list Z) (ps : list PeerCfg) : option (gmap string MeshSecSealContext) :=
  match ps with
  | [] => Some ∅
  | p :: ps =>
      c ← meshsec_seal_context cfg (pc_id p) salt;
      m ← seal_contexts cfg salt ps;
      Some (match c with Some c => <[pc_id p := c]> m | None => m end)
  end.

Definition run (cfg : Config) (base_dir : string) (salt : list Z) (w : W) : option (result Node RunError) :=
  match selected_pipeline_source_index cfg with
  | Err e => Some (Err (RunSource e))
  | Ok source =>
      rt ← match cfg_pipeline cfg with
           | Some _ => r ← build_pipeline_runtime fx_write cfg base_dir w; Some (match r with Ok _ => Ok true | Err e => Err (RunPipeline e) end)
           | None => Some (Ok false)
           end;
      match rt with
      | Err e => Some (Err e)
      | Ok runtime =>
          keys ← meshsec_open_keys cfg;
          seals ← seal_contexts cfg salt (cfg_peers cfg);
          let es := cfg_egresses cfg in
          match build_observers (cfg_metrics cfg) (egress_wan_labels es) (egress_peer_labels (cfg_node cfg) es),
                build_egresses (fun p => seals !! p) es with
          | Err e, _ => Some (Err e)
          | Ok _, Err e => Some (Err e)
          | Ok obs, Ok exits =>
              match exits, verify_observer_declarations (observer_decl <$> obs) with
              | [], _ => Some (Err (BusBuild NoEgress))
              | _, Err errs => Some (Err (BusBuild (InvalidObservationRegistry errs)))
              | _, Ok _ =>
                  is_ ← build_ingresses source runtime base_dir (node_id <$> cfg_node cfg) keys 0 (cfg_ingresses cfg);
                  Some (match is_ with
                        | Err e => Err e
                        | Ok ins => Ok (mkNodeBuilt (build_scheduler (cfg_scheduler cfg) (egress_weights es)) (cfg_health cfg) obs exits ins)
                        end)
              end
          end
      end
  end.
End Assemble.

(** * What an assembled node is *)

(** ** Exits *)

(** What is built of one configured exit: plugins of its id and groups, of one shape each,
    together of the shapes the pipeline takes it for. *)
Lemma build_egress_shape seal e bs :
  build_egress seal e = Ok bs ->
  (forall b, b ∈ bs -> built_id b = egress_id e /\ groups (built_caps b) = egress_groups e)
  /\ existsb (fun b => supports_stream (built_caps b)) bs = (pipeline_capability_bits e).1
  /\ existsb (fun b => supports_datagram (built_caps b)) bs = (pipeline_capability_bits e).2.
Proof.
  destruct e; cbn [build_egress delivery_policy egress_native_mode];
    try (destruct (run_socket_addr _); [|done]); try (destruct (run_endpoint _); [|done]); intros [= <-];
    repeat (match goal with |- context [match ?a with Some _ => _ | None => _ end] => destruct a end);
    (split; [intros b Hb; repeat (apply elem_of_cons in Hb as [->|Hb]; [done|]); by apply elem_of_nil in Hb|done]).
Qed.

Lemma build_egresses_elem seal es bs :
  build_egresses seal es = Ok bs ->
  (forall b, b ∈ bs -> exists e own, e ∈ es /\ build_egress seal e = Ok own /\ b ∈ own)
  /\ (forall e, e ∈ es -> exists own, build_egress seal e = Ok own /\ own ⊆ bs).
Proof.
  revert bs. induction es as [|e es IH]; intros bs; cbn [build_egresses].
  - intros [= <-]. split; [by intros b ?%elem_of_nil|by intros e ?%elem_of_nil].
  - destruct (build_egress seal e) as [own|] eqn:Ee; [|done]. destruct (build_egresses seal es) as [bs'|] eqn:Es; [|done].
    intros [= <-]. destruct (IH bs' eq_refl) as [H1 H2]. split.
    + intros b [Hb|Hb]%elem_of_app; [exists e, own; set_solver|]. destruct (H1 b Hb) as (e' & o & ? & ? & ?). exists e', o. set_solver.
    + intros e' [->|He]%elem_of_cons; [exists own; set_solver|]. destruct (H2 e' He) as (o & ? & ?). exists o. set_solver.
Qed.

Lemma existsb_elem {A} (f : A -> bool) l : existsb f l = true <-> exists x, x ∈ l /\ f x = true.
Proof. rewrite existsb_exists. by setoid_rewrite <- list_elem_of_In. Qed.

(** The plugins of a shape [f] are those of the configured exits of that shape [g]. *)
Lemma exits_of_shape seal es bs (f : Capabilities -> bool) (g : EgressCfg -> bool) id gs :
  build_egresses seal es = Ok bs ->
  (forall e own, build_egress seal e = Ok own -> existsb (fun b => f (built_caps b)) own = g e) ->
  (exists b, b ∈ bs /\ built_id b = id /\ groups (built_caps b) = gs /\ f (built_caps b) = true)
  <-> (exists e, e ∈ es /\ egress_id e = id /\ egress_groups e = gs /\ g e = true).
Proof.
  intros Hb Hg. destruct (build_egresses_elem seal es bs Hb) as [H1 H2]. split.
  - intros (b & Hin & <- & <- & Hf). destruct (H1 b Hin) as (e & own & He & Ho & Hbo). destruct (build_egress_shape seal e own Ho) as (Hs & _ & _).
    destruct (Hs b Hbo) as [-> ->]. exists e. split_and!; [done..|]. rewrite <- (Hg e own Ho). apply existsb_elem. eauto.
  - intros (e & He & <- & <- & Ht). destruct (H2 e He) as (own & Ho & Hsub). rewrite <- (Hg e own Ho) in Ht.
    apply existsb_elem in Ht as (b & Hbo & Hf). destruct (build_egress_shape seal e own Ho) as (Hs & _ & _). destruct (Hs b Hbo) as [? ?].
    exists b. split_and!; [by apply Hsub|done..].
Qed.

Lemma candidate_elem cfg (f : ExitCandidate -> bool) (g : EgressCfg -> bool) id gs :
  (forall e, f (mkCandidate (egress_id e) (egress_groups e) (pipeline_capability_bits e).1 (pipeline_capability_bits e).2 0 (f64_of_z 1) 0) = g e) ->
  (exists e, e ∈ cfg_egresses cfg /\ egress_id e = id /\ egress_groups e = gs /\ g e = true)
  <-> (exists c, c ∈ candidates_from_egresses cfg /\ cand_sink_id c = id /\ cand_route_groups c = gs /\ f c = true).
Proof.
  intros Hf. unfold candidates_from_egresses. setoid_rewrite list_elem_of_fmap. split.
  - intros (e & He & <- & <- & Ht). rewrite <- Hf in Ht. destruct (pipeline_capability_bits e) as [a b] eqn:Eb. eexists. split; [exists e; rewrite Eb; split; [reflexivity|done]|]. done.
  - intros (c & (e & -> & He) & <- & <- & Ht). specialize (Hf e). destruct (pipeline_capability_bits e). exists e. split_and!; [done..|]. by rewrite <- Hf.
Qed.

(** ** Keys *)

Lemma seal_contexts_ok cfg salt ps :
  ConfigOk cfg -> ps ⊆ cfg_peers cfg ->
  exists m, seal_contexts cfg salt ps = Some m /\ forall p, p ∈ ps -> is_Some (pc_meshsec p) -> is_Some (m !! pc_id p).
Proof.
  intros Hok. induction ps as [|p ps IH]; intros Hs; [exists ∅; split; [done|by intros p ?%elem_of_nil]|].
  destruct IH as (m & Hm & Hall); [set_solver|]. cbn [seal_contexts]. rewrite Hm.
  assert (Hc : exists c, meshsec_seal_context cfg (pc_id p) salt = Some c /\ (is_Some (pc_meshsec p) -> is_Some c)).
  { destruct (pc_meshsec p) as [ms|] eqn:Ep.
    - destruct (config_peers_seal cfg p salt Hok) as (ctx & Hc & _); [set_solver|by eexists|]. exists (Some ctx). split; [done|by eexists].
    - unfold meshsec_seal_context. destruct (cfg_node cfg); [|exists None; split; [done|by intros []]].
      rewrite (proj2 (find_peer_iff _ _ p (mo_ids _ (ck_mesh _ Hok))) (conj (Hs p ltac:(set_solver)) eq_refl)), Ep.
      exists None. split; [done|by intros []]. }
  destruct Hc as (c & -> & Hc). cbn [mbind option_bind]. eexists. split; [reflexivity|].
  intros q [->|Hq]%elem_of_cons Hms; destruct c as [c|].
  - rewrite lookup_insert_eq. by eexists.
  - by destruct (Hc Hms).
  - destruct (decide (pc_id p = pc_id q)) as [->|]; [rewrite lookup_insert_eq; by eexists|rewrite lookup_insert_ne by done; by apply Hall].
  - by apply Hall.
Qed.

(** A mesh exit whose peer has a sealing context seals. *)
Lemma mesh_exit_seals seal e own x :
  build_egress seal e = Ok own -> BuiltMesh x ∈ own ->
  exists peer, egress_peer_id e = Some peer /\ mp_id x = egress_id e /\ (is_Some (seal peer) -> is_Some (mp_meshsec x)).
Proof.
  destruct e; cbn [build_egress delivery_policy egress_native_mode];
    try (destruct (run_socket_addr _); [|done]); try (destruct (run_endpoint _); [|done]); intros [= <-] Hin;
    try (repeat (apply elem_of_cons in Hin as [Hin|Hin]; [done|]); by apply elem_of_nil in Hin).
  destruct (seal peer) as [ctx|] eqn:Es; repeat (apply elem_of_cons in Hin as [Hin|Hin]); try by apply elem_of_nil in Hin.
  all: injection Hin as ->; exists peer; rewrite Es; split_and!; try done; by intros [].
Qed.

Section Facts.
Context `{RuleParsers} `{Mmdb} `{Files} `{Listeners} {W : Type} `{!ResolverNet W}.
Variable fx_write : Z -> list Z -> Z.

Lemma run_inv cfg base_dir salt w nd :
  run fx_write cfg base_dir salt w = Some (Ok nd) ->
  exists source rt keys seals,
    selected_pipeline_source_index cfg = Ok source /\ meshsec_open_keys cfg = Some keys
    /\ seal_contexts cfg salt (cfg_peers cfg) = Some seals
    /\ build_egresses (fun p => seals !! p) (cfg_egresses cfg) = Ok (nd_egresses nd)
    /\ build_ingresses source rt base_dir (node_id <$> cfg_node cfg) keys 0 (cfg_ingresses cfg) = Some (Ok (nd_ingresses nd)).
Proof.
  unfold run. destruct (selected_pipeline_source_index cfg) as [source|]; [|done].
  destruct (match cfg_pipeline cfg with Some _ => _ | None => _ end) as [[rt|]|]; [|done..]. cbn [mbind option_bind].
  destruct (meshsec_open_keys cfg) as [keys|]; [|done]. destruct (seal_contexts cfg salt (cfg_peers cfg)) as [seals|]; [|done].
  cbn [mbind option_bind]. destruct (build_observers _ _ _) as [obs|]; [|done].
  destruct (build_egresses _ _) as [[|x exits]|] eqn:Ee; [done| |done]. destruct (verify_observer_declarations _); [|done].
  destruct (build_ingresses _ _ _ _ _ _ _) as [[ins|]|] eqn:Ei; [|done..]. intros [= <-]. cbn [nd_egresses nd_ingresses]. by exists source, rt, keys, seals.
Qed.

(** C30: the exits of a node that was started are those its pipeline chooses from: a
    plugin of an id and groups that carries streams is there exactly if the pipeline takes
    a configured exit of that id and those groups for one that does, and likewise for
    datagrams; and every mesh exit to a peer whose configuration has MeshSec keys seals
    what it sends. *)
Theorem assembled_exits_match_the_pipeline (cfg : Config) (base_dir : string) (salt : list Z) (w : W) (nd : Node) :
  ConfigOk cfg -> run fx_write cfg base_dir salt w = Some (Ok nd) ->
  (forall id gs,
     (exists b, b ∈ nd_egresses nd /\ built_id b = id /\ groups (built_caps b) = gs /\ supports_stream (built_caps b) = true)
     <-> (exists c, c ∈ candidates_from_egresses cfg /\ cand_sink_id c = id /\ cand_route_groups c = gs /\ Hooks.supports_stream c = true))
  /\ (forall id gs,
     (exists b, b ∈ nd_egresses nd /\ built_id b = id /\ groups (built_caps b) = gs /\ supports_datagram (built_caps b) = true)
     <-> (exists c, c ∈ candidates_from_egresses cfg /\ cand_sink_id c = id /\ cand_route_groups c = gs /\ Hooks.supports_datagram c = true))
  /\ (forall x, BuiltMesh x ∈ nd_egresses nd ->
     exists e p, e ∈ cfg_egresses cfg /\ egress_id e = mp_id x /\ p ∈ cfg_peers cfg /\ egress_peer_id e = Some (pc_id p)
       /\ (is_Some (pc_meshsec p) -> is_Some (mp_meshsec x))).
Proof.
  intros Hok Hr. destruct (run_inv _ _ _ _ _ Hr) as (source & rt & keys & seals & _ & _ & Hs & Hb & _). split_and!.
  - intros id gs. rewrite <- (candidate_elem cfg Hooks.supports_stream (fun e => (pipeline_capability_bits e).1)) by done.
    eapply exits_of_shape; [exact Hb|]. intros e own Ho. by apply (build_egress_shape _ e own Ho).
  - intros id gs. rewrite <- (candidate_elem cfg Hooks.supports_datagram (fun e => (pipeline_capability_bits e).2)) by done.
    eapply exits_of_shape; [exact Hb|]. intros e own Ho. by apply (build_egress_shape _ e own Ho).
  - intros x Hx. destruct (build_egresses_elem _ _ _ Hb) as [Hfrom _]. destruct (Hfrom _ Hx) as (e & own & He & Ho & Hin).
    destruct (mesh_exit_seals _ e own x Ho Hin) as (peer & Hp & Hid & Hseal).
    destruct (mo_bound _ (ck_mesh _ Hok) e peer He Hp) as (p & Hpp & Hpe & _). exists e, p. rewrite <- Hpe in *.
    split_and!; [done..|]. intros Hms. apply Hseal. destruct (seal_contexts_ok cfg salt (cfg_peers cfg) Hok ltac:(done)) as (m & Em & Hall).
    rewrite Hs in Em. injection Em as ->. by apply Hall.
Qed.

(** *** Starting *)

(** What neither validation nor preflight looks at: the addresses are addresses. *)
Definition addressed_egress (e : EgressCfg) : Prop :=
  match e with
  | EMeshPeerUdp _ _ addr _ _ _ _ _ _ _ _ => is_Some (parse_socket_addr addr)
  | EServiceTcp _ _ _ _ _ _ c _ | EServiceUdp _ _ _ _ _ _ c _ _ _ => is_ok (endpoint_parse c) = true
  | _ => True
  end.
Definition addressed_ingress (i : IngressCfg) : Prop :=
  match i with InTcp _ t _ _ _ _ _ _ | InUdp _ t _ _ _ _ _ _ => is_ok (endpoint_parse t) = true | _ => True end.

(** The configuration's own addresses can be bound: those of its ingresses, and that of
    its metrics. *)
Definition binds_ingress (i : IngressCfg) : Prop :=
  match i with
  | InSocks5 l _ _ _ _ _ _ _ _ | InHttpConnect l _ _ _ _ _ _ | InTcp l _ _ _ _ _ _ _ => listen_tcp l = None
  | InUdp l _ _ _ _ _ _ _ => listen_udp l = None
  | InMeshPeerUdp l _ => forall a, parse_socket_addr l = Some a -> bind_loop a = None
  end.
Definition binds_metrics (m : option MetricsCfg) : Prop :=
  match m with Some (PrometheusHttp l _) => listen_tcp l = None | _ => True end.

Lemma egresses_build seal es : Forall addressed_egress es -> exists bs, build_egresses seal es = Ok bs.
Proof.
  induction 1 as [|e es He _ [bs IH]]; [by eexists|]. cbn [build_egresses]. rewrite IH.
  assert (Hb : exists b, build_egress seal e = Ok b); [|destruct Hb as [b ->]; by eexists].
  destruct e; cbn in *; try by eexists.
  - destruct He as [a Ha]. unfold run_socket_addr. rewrite Ha. by eexists.
  - unfold run_endpoint. destruct (endpoint_parse connect); [by eexists|done].
  - unfold run_endpoint. destruct (endpoint_parse connect); [by eexists|done].
Qed.

Definition served_by_pipeline (b : BuiltIngress) : bool :=
  match b with
  | BuiltInSocks5 _ _ p _ _ _ _ _ _ | BuiltInHttp _ p _ _ _ _ _ | BuiltInTcp _ _ p _ | BuiltInUdp _ _ p _ => p
  | BuiltInMesh _ _ _ => false
  end.

(** The ingress a configured one becomes: of the same kind, on its address, for its target,
    with its limits or their defaults, with its users, with the policy of its file unless
    the pipeline serves it, and with the node's keys for a mesh ingress. *)
Definition built_of (base_dir : string) (node : option string) (keys : list MeshSecOpenKey) (piped : bool) (i : IngressCfg) (b : BuiltIngress) : Prop :=
  match i, b with
  | InSocks5 l chain auth hs backoff conns udp rb sb, BuiltInSocks5 l' policy p users hs' backoff' conns' udp' bufs =>
      l' = l /\ p = piped /\ users = (auth ≫= fun a => with_auth (socks5_users a))
      /\ hs' = default 5000 hs /\ backoff' = default 50 backoff /\ conns' = default 1024 conns /\ udp' = default 64 udp
      /\ bufs = mkBuffers rb sb
      /\ match policy with
         | Some x => piped = false /\ exists f, chain = Some f /\ load_policy (resolve_relative base_dir f) = Some (Ok x)
         | None => piped = true \/ chain = None
         end
  | InHttpConnect l auth hs header conns rb sb, BuiltInHttp l' p users hs' header' conns' bufs =>
      l' = l /\ p = piped /\ users = (auth ≫= fun a => with_auth_basic (http_users a))
      /\ hs' = default 5000 hs /\ header' = default 16384 header /\ conns' = default 1024 conns /\ bufs = mkBuffers rb sb
  | InTcp l t _ _ _ _ rb sb, BuiltInTcp l' e p bufs | InUdp l t _ _ _ _ rb sb, BuiltInUdp l' e p bufs =>
      l' = l /\ endpoint_parse t = Ok e /\ p = piped /\ bufs = mkBuffers rb sb
  | InMeshPeerUdp l native, BuiltInMesh a mode ks =>
      piped = false /\ parse_socket_addr l = Some a /\ mode = native_to_proto native
      /\ ks = match node, keys with Some n, _ :: _ => Some (n, keys) | _, _ => None end
  | _, _ => False
  end.

(** The source of the pipeline is not a mesh ingress, and there is a runtime for it. *)
Definition source_ok (cfg : Config) (source : option nat) (runtime : bool) : Prop :=
  forall k, source = Some k -> runtime = true /\ forall i, cfg_ingresses cfg !! k = Some i -> supports_pipeline i = true.

Lemma attach_ok cfg source runtime idx :
  source_ok cfg source runtime -> attach source runtime idx = Ok (bool_decide (source = Some idx)).
Proof. intros Hs. unfold attach. case_bool_decide as E; [|done]. by destruct (Hs idx E) as [-> _]. Qed.

(** One ingress is built, with the pipeline exactly if it is its source. *)
Lemma ingress_builds cfg source runtime base_dir node keys idx i :
  binds_ingress i -> source_ok cfg source runtime -> cfg_ingresses cfg !! idx = Some i -> addressed_ingress i ->
  (forall l n, i = InMeshPeerUdp l n -> is_Some (parse_socket_addr l)) ->
  (forall l p a h b c u r s, i = InSocks5 l (Some p) a h b c u r s -> source <> Some idx ->
     exists x, load_policy (resolve_relative base_dir p) = Some (Ok x)) ->
  exists b, build_ingress source runtime base_dir node keys idx i = Some (Ok b)
    /\ built_of base_dir node keys (bool_decide (source = Some idx)) i b.
Proof.
  intros Hb Hs Hi Ha Hm Hp. destruct i; cbn [build_ingress addressed_ingress binds_ingress] in *; try rewrite Hb; cbn [bind_or].
  - case_bool_decide as E.
    + destruct (Hs idx E) as [-> _]. eexists. split; [done|]. cbn. split_and!; auto.
    + destruct rule_chain_path as [p|]; [|eexists; split; [done|]; cbn; split_and!; auto].
      destruct (Hp _ _ _ _ _ _ _ _ _ eq_refl E) as [x Ex]. rewrite Ex. eexists. split; [done|]. cbn. split_and!; eauto.
  - rewrite (attach_ok cfg) by done. by eexists.
  - unfold run_endpoint. destruct (endpoint_parse target) eqn:Et; [|done]. cbn [map_err]. rewrite (attach_ok cfg) by done. by eexists.
  - unfold run_endpoint. destruct (endpoint_parse target) eqn:Et; [|done]. cbn [map_err]. rewrite (attach_ok cfg) by done. by eexists.
  - destruct (Hm _ _ eq_refl) as [a Ea]. unfold run_socket_addr. rewrite Ea, (Hb a Ea). eexists. split; [reflexivity|]. cbn.
    split; [|done]. case_bool_decide as E; [|done]. destruct (Hs idx E) as [_ Hk]. by specialize (Hk _ Hi).
Qed.

Lemma ingresses_build cfg source runtime base_dir node keys is_ : forall idx,
  Forall binds_ingress is_ -> source_ok cfg source runtime -> is_ = drop idx (cfg_ingresses cfg) -> Forall addressed_ingress is_ ->
  (forall l n, InMeshPeerUdp l n ∈ is_ -> is_Some (parse_socket_addr l)) ->
  validate_rule_chains_from idx source base_dir is_ = Some (Ok tt) ->
  exists bs, build_ingresses source runtime base_dir node keys idx is_ = Some (Ok bs) /\ length bs = length is_
    /\ forall k i, is_ !! k = Some i ->
       exists b, bs !! k = Some b /\ built_of base_dir node keys (bool_decide (source = Some (idx + k)%nat)) i b.
Proof.
  induction is_ as [|i is_ IH]; intros idx Hb Hs Hd Ha Hm Hv; [exists []; done|]. cbn [build_ingresses].
  assert (Hi : cfg_ingresses cfg !! idx = Some i).
  { rewrite <- (Nat.add_0_r idx), <- lookup_drop, <- Hd. done. }
  apply Forall_cons in Ha as [Hai Ha]. apply Forall_cons in Hb as [Hbi Hb].
  assert (Hrest : validate_rule_chains_from (S idx) source base_dir is_ = Some (Ok tt)
    /\ forall l p a h b c u r s, i = InSocks5 l (Some p) a h b c u r s -> source <> Some idx ->
       exists x, load_policy (resolve_relative base_dir p) = Some (Ok x)).
  { cbn [validate_rule_chains_from] in Hv. destruct i as [l [p|] a h b c u r s| | | |]; try (split; [exact Hv|done]).
    case_bool_decide as E; [split; [exact Hv|done]|]. destruct (path_exists _); [|done]. cbn [negb] in Hv.
    destruct (load_policy (resolve_relative base_dir p)) as [[x|]|] eqn:El; [|done..]. split; [exact Hv|].
    intros ? ? ? ? ? ? ? ? ? [= -> -> -> -> -> -> -> -> ->] _. by exists x. }
  destruct Hrest as [Hvr Hp].
  destruct (ingress_builds cfg source runtime base_dir node keys idx i Hbi Hs Hi Hai) as (b & -> & Hsb); [|exact Hp|].
  { intros l n ->. apply (Hm l n). left. }
  destruct (IH (S idx) Hb Hs) as (bs & -> & Hl & Hk); [| done | |exact Hvr|].
  { rewrite (drop_S _ i) in Hd by done. by injection Hd. }
  { intros l n Hin. apply (Hm l n). by right. }
  exists (b :: bs). split_and!; [done|cbn; by rewrite Hl|]. intros [|k] j Hlk; cbn in Hlk.
  - injection Hlk as <-. exists b. by rewrite Nat.add_0_r.
  - rewrite <- Nat.add_succ_comm. by apply Hk.
Qed.

Lemma observers_verify (o : BuiltObserver) :
  verify_observer_declarations [observer_decl o] = Ok tt /\ verify_observer_declarations [observer_decl o; observer_decl o] = Ok tt.
Proof. vm_compute. done. Qed.

Lemma source_is_pipeline_capable cfg k i :
  selected_pipeline_source_index cfg = Ok (Some k) -> cfg_ingresses cfg !! k = Some i -> supports_pipeline i = true.
Proof.
  assert (Hd : forall kind j, declares kind j = true -> supports_pipeline j = true).
  { intros kind j Hj. apply bool_decide_eq_true in Hj. apply bool_decide_eq_true. rewrite Hj. by eexists. }
  unfold selected_pipeline_source_index, resolve_pipeline_source_index. destruct (cfg_pipeline cfg) as [p|]; [|done].
  destruct (ingress_index (source_cfg p)) as [idx|].
  - destruct (cfg_ingresses cfg !! idx) as [j|] eqn:Ej; [|done]. destruct (declares _ j) eqn:Ed; [|done]. cbn.
    intros [= ->] Hi. rewrite Ej in Hi. injection Hi as ->. by eapply Hd.
  - destruct (indices_of _ _) as [|x [|]] eqn:Ex; [done| |done]. cbn. intros [= ->] Hi.
    assert (Hin : k ∈ indices_of (source_cfg_kind (source_cfg p)) (cfg_ingresses cfg)) by (rewrite Ex; left).
    unfold indices_of in Hin. apply list_elem_of_fmap in Hin as ([k' j] & -> & Hin). cbn [fst] in *.
    apply list_elem_of_In, filter_In in Hin as [Hin Hj]. apply list_elem_of_In, list_elem_of_lookup in Hin as [n Hn].
    apply lookup_zip_with_Some in Hn as (a & b & [= -> ->] & Ha & Hb). apply lookup_seq in Ha as [-> _]. cbn in Hi.
    rewrite Hb in Hi. injection Hi as ->. by eapply Hd.
Qed.

(** C31: a configuration that passes the checks of the command line starts.  If it is
    valid and preflight succeeds, its targets and peers are addresses, and the addresses it
    gives its own listeners can be bound, then a node is assembled without a panic.  It has
    one ingress for each configured one, in order, of the same kind, on its address, for
    its target, with its limits or their defaults, its users, its rule policy and, for a
    mesh ingress, the node's keys; and the pipeline serves exactly the ingress the
    configuration selects for it. *)
Theorem checked_config_starts (cfg : Config) (base_dir : string) (salt : list Z) (w : W) :
  validate_config cfg = Ok tt -> preflight_config fx_write cfg base_dir w = Some (Ok tt) ->
  Forall addressed_egress (cfg_egresses cfg) -> Forall addressed_ingress (cfg_ingresses cfg) ->
  Forall binds_ingress (cfg_ingresses cfg) -> binds_metrics (cfg_metrics cfg) ->
  exists nd source keys, run fx_write cfg base_dir salt w = Some (Ok nd)
    /\ selected_pipeline_source_index cfg = Ok source /\ meshsec_open_keys cfg = Some keys
    /\ length (nd_ingresses nd) = length (cfg_ingresses cfg)
    /\ forall k i, cfg_ingresses cfg !! k = Some i ->
       exists b, nd_ingresses nd !! k = Some b
         /\ built_of base_dir (node_id <$> cfg_node cfg) keys (bool_decide (source = Some k)) i b.
Proof.
  intros Hv Hp Hae Hai Hb Hbm. apply validate_config_iff in Hv. unfold preflight_config in Hp. unfold run.
  destruct (selected_pipeline_source_index cfg) as [source|] eqn:Es; [|done].
  destruct (validate_rule_chains_from 0 source base_dir (cfg_ingresses cfg)) as [[[]|]|] eqn:Ec; [|done..]. cbn [mbind option_bind] in Hp.
  destruct (config_open_keys cfg Hv) as (keys & Ek & _). rewrite Ek.
  destruct (seal_contexts_ok cfg salt (cfg_peers cfg) Hv ltac:(done)) as (seals & -> & _).
  destruct (egresses_build (fun p => seals !! p) (cfg_egresses cfg) Hae) as [bs Hbs].
  assert (Hne : bs <> []).
  { destruct (build_egresses_elem _ _ _ Hbs) as [_ Hall]. pose proof (ck_egresses _ Hv) as Hn. destruct (cfg_egresses cfg) as [|e es]; [done|].
    destruct (Hall e ltac:(left)) as (own & Ho & Hsub). destruct (build_egress_shape _ e own Ho) as (_ & Hst & Hdg).
    intros ->. destruct own as [|x own]; [by destruct e|]. by specialize (Hsub x ltac:(left)) as ?%elem_of_nil. }
  assert (Hobs : exists obs, build_observers (cfg_metrics cfg) (egress_wan_labels (cfg_egresses cfg)) (egress_peer_labels (cfg_node cfg) (cfg_egresses cfg)) = Ok obs
    /\ verify_observer_declarations (observer_decl <$> obs) = Ok tt).
  { unfold build_observers. destruct (cfg_metrics cfg) as [[path ls|l ls]|].
    - eexists. split; [done|]. apply (observers_verify CounterObs).
    - cbn in Hbm. rewrite Hbm. eexists. split; [done|]. apply (observers_verify CounterObs).
    - eexists. split; [done|]. apply (observers_verify CounterObs). }
  destruct Hobs as (obs & Hob & Hver).
  assert (Hrt : exists rt, (match cfg_pipeline cfg with
      | Some _ => r ← build_pipeline_runtime fx_write cfg base_dir w; Some (match r with Ok _ => Ok true | Err e => Err (RunPipeline e) end)
      | None => Some (Ok false) end) = Some (Ok rt) /\ source_ok cfg source rt).
  { unfold selected_pipeline_source_index in Es. destruct (cfg_pipeline cfg) as [p|] eqn:Epp.
    - destruct (build_pipeline_runtime _ _ _ _) as [[x|]|]; [|done..]. exists true. split; [done|]. intros k ->. split; [done|].
      intros i Hi. apply (source_is_pipeline_capable cfg k i); [|done]. unfold selected_pipeline_source_index. by rewrite Epp.
    - exists false. split; [done|]. by injection Es as <-. }
  destruct Hrt as (rt & -> & Hso). cbn [mbind option_bind]. rewrite Hob, Hbs, Hver.
  destruct (ingresses_build cfg source rt base_dir (node_id <$> cfg_node cfg) keys (cfg_ingresses cfg) 0 Hb Hso eq_refl Hai) as (ins & -> & Hl & Hk); [|done|].
  { intros l n Hin. destruct (mo_wan _ (ck_mesh _ Hv) l n Hin) as (a & Ha & _). by eexists. }
  destruct bs as [|x bs]; [done|]. cbn [mbind option_bind]. eexists _, source, keys. split_and!; [reflexivity|done|done|done|exact Hk].
Qed.
End Facts.

(** ** A node *)

Module AssemblyDemo.
Import DemoYaml ForwardDemo.

(** A system that binds the two addresses of the configuration and nothing else. *)
#[export] Instance listeners : Listeners := {|
  listen_tcp l := if String.eqb l "127.0.0.1:80" then None else Some "address in use";
  listen_udp _ := Some "address in use";
  bind_loop a := if bool_decide (a = SockV4 [0; 0; 0; 0] 7000) then None else Some "address in use"
|}.

Definition salt : list Z := [1; 2; 3; 4].

(** The configuration with another target of its TCP ingress and other labels. *)
Definition direct (target : string) (rg : option string) (tc : option TrafficClassCfg) (dl : option Z) (label : option string) : Config :=
  mkConfig (cfg_node cfg) (cfg_peers cfg) (cfg_logging cfg) (cfg_health cfg) (cfg_metrics cfg) (cfg_operator cfg) (cfg_scheduler cfg)
    [InMeshPeerUdp "0.0.0.0:7000" CfgSecureUdpNative; InTcp "127.0.0.1:80" target rg tc dl label None None] (cfg_egresses cfg) (cfg_pipeline cfg).

Definition started (c : Config) : option (result Node RunError) := run fx c "/etc/mesh" salt w.

Definition kinds (nd : Node) : list (string * bool * bool) * list bool :=
  ((fun b => (built_id b, supports_stream (built_caps b), supports_datagram (built_caps b))) <$> nd_egresses nd, served_by_pipeline <$> nd_ingresses nd).

Example demo_starts :
  (match started cfg with Some (Ok nd) => Some (kinds nd) | _ => None end)
  = Some ([("wan1", true, false); ("wan1", false, true); ("svc", true, false)], [false; true]).
Proof. vm_compute. reflexivity. Qed.
End AssemblyDemo.
Import DemoYaml ForwardDemo AssemblyDemo.

Lemma demo_ok : ConfigOk cfg.
Proof. apply validate_config_iff. vm_compute. reflexivity. Qed.

Lemma checked_config_starts_witness :
  exists nd source keys, started cfg = Some (Ok nd)
    /\ selected_pipeline_source_index cfg = Ok source /\ meshsec_open_keys cfg = Some keys
    /\ length (nd_ingresses nd) = 2%nat
    /\ forall k i, cfg_ingresses cfg !! k = Some i ->
       exists b, nd_ingresses nd !! k = Some b
         /\ built_of "/etc/mesh" (node_id <$> cfg_node cfg) keys (bool_decide (source = Some k)) i b.
Proof.
  apply (checked_config_starts fx cfg "/etc/mesh" salt w).
  - vm_compute. reflexivity.
  - vm_compute. reflexivity.
  - repeat (apply Forall_cons; split; [cbn; try exact I; vm_compute; eauto|]); apply Forall_nil; exact I.
  - repeat (apply Forall_cons; split; [cbn; try exact I; vm_compute; eauto|]); apply Forall_nil; exact I.
  - repeat (apply Forall_cons; split); [..|apply Forall_nil; exact I].
    + intros a Ha. vm_compute in Ha. injection Ha as <-. vm_compute. reflexivity.
    + vm_compute. reflexivity.
  - vm_compute. exact I.
Defined.

Lemma assembled_exits_match_the_pipeline_witness :
  exists nd, started cfg = Some (Ok nd)
    /\ (forall id gs,
      (exists b, b ∈ nd_egresses nd /\ built_id b = id /\ groups (built_caps b) = gs /\ supports_stream (built_caps b) = true)
      <-> (exists c, c ∈ candidates_from_egresses cfg /\ cand_sink_id c = id /\ cand_route_groups c = gs /\ Hooks.supports_stream c = true)).
Proof.
  destruct (started cfg) as [[nd|]|] eqn:E; [|vm_compute in E; discriminate..].
  exists nd. split; [reflexivity|]. exact (proj1 (assembled_exits_match_the_pipeline fx cfg "/etc/mesh" salt w nd demo_ok E)).
Defined.

(** ** What the checks do not see *)

(** A configuration whose target is no endpoint is valid and passes preflight, and the
    node does not start. *)
Theorem checked_config_may_not_start :
  let c := direct "nohost" None None None None in
  validate_config c = Ok tt /\ preflight_config fx c "/etc/mesh" w = Some (Ok tt) /\ started c = Some (Err (BadEndpoint "nohost" MissingColon)).
Proof. vm_compute. split_and!; reflexivity. Qed.

(** The route group, traffic class, deadline and label of a TCP or UDP ingress are read
    and validated, and make no difference to the node. *)
Theorem direct_ingress_labels_are_ignored `{RuleParsers} `{Files} `{Listeners} (source : option nat) (runtime : bool) (base_dir : string)
    (node : option string) (keys : list MeshSecOpenKey) (idx : nat) (listen target : string) (rg rg' : option string)
    (tc tc' : option TrafficClassCfg) (dl dl' : option Z) (label label' : option string) (rb sb : option Z) :
  build_ingress source runtime base_dir node keys idx (InTcp listen target rg tc dl label rb sb)
  = build_ingress source runtime base_dir node keys idx (InTcp listen target rg' tc' dl' label' rb sb)
  /\ build_ingress source runtime base_dir node keys idx (InUdp listen target rg tc dl label rb sb)
  = build_ingress source runtime base_dir node keys idx (InUdp listen target rg' tc' dl' label' rb sb).
Proof. split; reflexivity. Qed.
