(* ===== verification/Operator.v ===== *)
(** What an operator sees of a node: the counting observers (crates/mesh-bus-observer-metrics
    and -observer-prometheus), the responses of the operator API
    (crates/mesh-bus-operator-api), its HTTP endpoint and the command line
    (crates/mesh-bus-bin).

    JSON and YAML texts are written by serde, digests by sha2: parameters.  A response's
    body is the value that is serialised. *)
From S2P Require Import Prelude Numbers NetAddr Floats Endpoint StateM Rules HttpProxy Geosite RuleYaml ResolverRun.
From S2P Require Import KernelRegistry Pipeline Hooks Dispatch Observation Ingress Session Socks5 HttpIngress Egress Config ConfigValidate Forward Assembly.
Local Open Scope string_scope.
Local Open Scope Z_scope.

(** * Text from bytes *)

(** [String::from_utf8_lossy]: what is not part of a character becomes U+FFFD, one for
    each start that goes wrong. *)
Definition REPLACEMENT : list Z := [0xef; 0xbf; 0xbd].

(** The second bytes of the sequences of three and of four bytes *)
Definition second_of_three (b c : Z) : bool :=
  if b =? 0xe0 then between 0xa0 0xbf c else if b =? 0xed then between 0x80 0x9f c else continuation c.
Definition second_of_four (b c : Z) : bool :=
  if b =? 0xf0 then between 0x90 0xbf c else if b =? 0xf4 then between 0x80 0x8f c else continuation c.

Fixpoint lossy (fuel : nat) (l : list Z) : list Z :=
  match l, fuel with
  | [], _ | _, O => []
  | b :: l, S fuel =>
      let bad rest := (REPLACEMENT ++ lossy fuel rest)%list in
      if between 0 0x7f b then b :: lossy fuel l
      else if between 0xc2 0xdf b then
        match l with c1 :: r => if continuation c1 then b :: c1 :: lossy fuel r else bad l | [] => bad [] end
      else if between 0xe0 0xef b then
        match l with
        | c1 :: r =>
            if second_of_three b c1 then
              match r with c2 :: r' => if continuation c2 then b :: c1 :: c2 :: lossy fuel r' else bad r | [] => bad [] end
            else bad l
        | [] => bad []
        end
      else if between 0xf0 0xf4 b then
        match l with
        | c1 :: r =>
            if second_of_four b c1 then
              match r with
              | c2 :: r' =>
                  if continuation c2 then
                    match r' with c3 :: r'' => if continuation c3 then b :: c1 :: c2 :: c3 :: lossy fuel r'' else bad r' | [] => bad [] end
                  else bad r
              | [] => bad []
              end
            else bad l
        | [] => bad []
        end
      else bad l
  end.
Definition from_utf8_lossy (l : list Z) : string := string_of_bytes (lossy (length l) l).

(** * Observers *)

Definition u64_add_sat (a b : Z) : Z := Z.min (a + b) (2 ^ 64 - 1).

(** ** Counters (mesh-bus-observer-metrics) *)

Record DropCounters := mkDrops {
  dc_meshsec : Z; dc_meshsec_auth : Z; dc_meshsec_replay : Z; dc_native : Z; dc_native_overflow : Z
}.
Record CounterObserver := mkCounter { co_exits : gmap string Z; co_drops : DropCounters }.
Definition counter_new : CounterObserver := mkCounter ∅ (mkDrops 0 0 0 0 0).

(** The exit an event is about *)
Definition event_exit (p : ObsPayload) : option string :=
  match o_selected_exit p with Some e => Some e | None => o_exit_id p end.

Definition counter_drop (e : EventEnvelope) (d : DropCounters) : DropCounters :=
  let reason := o_reason (env_payload e) in
  if decide (env_type e = OBS_MESHSEC_DROP) then
    let auth := bool_decide (reason = Some "auth") in
    let replay := bool_decide (reason = Some "replay") || bool_decide (reason = Some "replay_too_old") in
    mkDrops (as_u64 (dc_meshsec d + 1)) (if auth then as_u64 (dc_meshsec_auth d + 1) else dc_meshsec_auth d)
      (if negb auth && replay then as_u64 (dc_meshsec_replay d + 1) else dc_meshsec_replay d) (dc_native d) (dc_native_overflow d)
  else if decide (env_type e = OBS_NATIVE_DROP) then
    mkDrops (dc_meshsec d) (dc_meshsec_auth d) (dc_meshsec_replay d) (as_u64 (dc_native d + 1))
      (if bool_decide (reason = Some "queue_overflow") then as_u64 (dc_native_overflow d + 1) else dc_native_overflow d)
  else d.

Definition counter_on_event (e : EventEnvelope) (c : CounterObserver) : CounterObserver :=
  match env_type e with
  | ECore FlowOpened =>
      match event_exit (env_payload e) with
      | Some x => mkCounter (<[x := as_u64 (default 0 (co_exits c !! x) + 1)]> (co_exits c)) (co_drops c)
      | None => c
      end
  | ECore _ => c
  | EObs _ => mkCounter (co_exits c) (counter_drop e (co_drops c))
  end.

(** ** Prometheus *)

Record ExitStats := mkExitStats {
  xs_dispatch : Z; xs_success : Z; xs_failure : Z; xs_bytes : Z; xs_last_rtt : Z
}.
Definition exit_stats_default : ExitStats := mkExitStats 0 0 0 0 0.

Record DropStats := mkDropStats { by_meshsec : btree Z; by_native : btree Z }.

(** What the observer passes to its drainer *)
Record Measured := mkMeasured { ms_exit : string; ms_rtt : Z; ms_bytes : Z; ms_success : bool }.

Record PrometheusObserver := mkPrometheus {
  pr_stats : btree ExitStats;
  pr_drops : DropStats;
  pr_queue : list Measured
}.
Definition prometheus_new : PrometheusObserver := mkPrometheus [] (mkDropStats [] []) [].

Definition DRAIN_CHANNEL_CAPACITY : nat := 256.

(** An attempt is counted once: when its flow opens, or when it fails. *)
Definition measured (e : EventEnvelope) : option Measured :=
  let p := env_payload e in
  match env_type e with
  | ECore FlowOpened =>
      (fun x => mkMeasured x (o_rtt_ms p) (Z.max (o_bytes_out p) (o_payload_bytes p)) (default true (o_success p))) <$> event_exit p
  | ECore PathIoError =>
      (fun x => mkMeasured x (o_rtt_ms p) (Z.max (o_bytes_out p) (o_payload_bytes p)) (default false (o_success p))) <$> event_exit p
  | _ => None
  end.

Definition count_reason (r : string) (m : btree Z) : btree Z := bt_insert m r (as_u64 (default 0 (bt_get m r) + 1)).

(** [try_send]: a full channel loses the measurement. *)
Definition prometheus_on_event (e : EventEnvelope) (o : PrometheusObserver) : PrometheusObserver :=
  match env_type e with
  | ECore _ =>
      match measured e with
      | Some m => if (length (pr_queue o) <? DRAIN_CHANNEL_CAPACITY)%nat then mkPrometheus (pr_stats o) (pr_drops o) (pr_queue o ++ [m])%list else o
      | None => o
      end
  | EObs _ =>
      let r := default "unknown" (o_reason (env_payload e)) in
      let d := pr_drops o in
      if decide (env_type e = OBS_MESHSEC_DROP) then mkPrometheus (pr_stats o) (mkDropStats (count_reason r (by_meshsec d)) (by_native d)) (pr_queue o)
      else if decide (env_type e = OBS_NATIVE_DROP) then mkPrometheus (pr_stats o) (mkDropStats (by_meshsec d) (count_reason r (by_native d))) (pr_queue o)
      else o
  end.

Definition count_measured (m : Measured) (s : ExitStats) : ExitStats :=
  mkExitStats (u64_add_sat (xs_dispatch s) 1)
    (if ms_success m then u64_add_sat (xs_success s) 1 else xs_success s)
    (if ms_success m then xs_failure s else u64_add_sat (xs_failure s) 1)
    (u64_add_sat (xs_bytes s) (ms_bytes m)) (ms_rtt m).

(** One turn of the drainer *)
Definition prometheus_drain (o : PrometheusObserver) : PrometheusObserver :=
  match pr_queue o with
  | [] => o
  | m :: q =>
      mkPrometheus (bt_insert (pr_stats o) (ms_exit m) (count_measured m (default exit_stats_default (bt_get (pr_stats o) (ms_exit m)))))
        (pr_drops o) q
  end.

(** *** The text *)

(** A character replaced by a string, [s.replace(c, r)] *)
Fixpoint replace_char (c : Ascii.ascii) (r s : string) : string :=
  match s with
  | EmptyString => EmptyString
  | String a s => if decide (a = c) then r +:+ replace_char c r s else String a (replace_char c r s)
  end.

Definition quote : Ascii.ascii := ascii_of_nat 34.
Definition backslash : Ascii.ascii := ascii_of_nat 92.
Definition quoted (s : string) : string := String quote (s +:+ String quote EmptyString).

Definition escape_label (v : string) : string :=
  replace_char quote (String backslash (String quote EmptyString))
    (replace_char backslash (String backslash (String backslash EmptyString)) v).

Definition label (k v : string) : string := escape_label k +:+ "=" +:+ quoted (escape_label v).
Definition more_labels (l : btree string) : string := foldr (fun kv s => "," +:+ label kv.1 kv.2 +:+ s) "" l.

(** The labels of an exit; the static ones are sorted by their names. *)
Definition exit_text_labels (exit : string) (wan : gmap string string) (peer : gmap string (btree string)) (static_ : list (string * string)) : string :=
  label "exit_id" exit
  +:+ (match wan !! exit with Some w => ("," +:+ label "wan_id" w) | None => "" end)
  +:+ (match peer !! exit with Some ls => more_labels ls | None => "" end)
  +:+ more_labels (bt_inserts static_).

Definition reason_labels (reason : string) (static_ : list (string * string)) : string :=
  label "reason" reason +:+ more_labels (bt_inserts static_).

(** [{:.6}] of a number that is not negative: the exact value, ties to even *)
Definition pad6 (n : Z) : string :=
  let t := dec_show n in foldr (fun _ s => String "0"%char s) t (List.seq 0 (6 - String.length t)).
Definition fmt6 (x : F64) : string :=
  let micros :=
    match x with
    | S754_finite _ m e =>
        if 0 <=? e then Z.shiftl (Z.pos m) e * 10 ^ 6
        else
          let n := Z.pos m * 10 ^ 6 in
          let d := 2 ^ (- e) in
          let q := n / d in
          let r := n mod d in
          if (2 * r <? d) || ((2 * r =? d) && Z.even q) then q else q + 1
    | _ => 0
    end in
  dec_show (micros / 10 ^ 6) +:+ "." +:+ pad6 (micros mod 10 ^ 6).

Definition success_rate (s : ExitStats) : F64 :=
  if xs_dispatch s =? 0 then f64_of_z 0 else f64_div (f64_of_z (xs_success s)) (f64_of_z (xs_dispatch s)).

Definition eol : string := String (ascii_of_nat 10) EmptyString.

(** One metric: its two comment lines, and a line for each entry. *)
Definition metric {A} (name help type_ : string) (labels : string -> string) (value : A -> string) (l : btree A) : string :=
  "# HELP " +:+ name +:+ " " +:+ help +:+ eol +:+ "# TYPE " +:+ name +:+ " " +:+ type_ +:+ eol
  +:+ foldr (fun kv s => name +:+ "{" +:+ labels kv.1 +:+ "} " +:+ value kv.2 +:+ eol +:+ s) "" l.

Definition render_metrics (stats : btree ExitStats) (drops : DropStats) (wan : gmap string string) (peer : gmap string (btree string))
    (static_ : list (string * string)) : string :=
  let ls exit := exit_text_labels exit wan peer static_ in
  let rs reason := reason_labels reason static_ in
  metric "mesh_bus_dispatch_total" "Total dispatch attempts by exit." "counter" ls (fun s => dec_show (xs_dispatch s)) stats
  +:+ metric "mesh_bus_dispatch_success_total" "Successful dispatch attempts by exit." "counter" ls (fun s => dec_show (xs_success s)) stats
  +:+ metric "mesh_bus_dispatch_failure_total" "Failed dispatch attempts by exit." "counter" ls (fun s => dec_show (xs_failure s)) stats
  +:+ metric "mesh_bus_dispatch_payload_bytes_total" "Payload bytes sent by exit." "counter" ls (fun s => dec_show (xs_bytes s)) stats
  +:+ metric "mesh_bus_dispatch_rtt_ms_last" "Last observed dispatch RTT by exit." "gauge" ls (fun s => dec_show (xs_last_rtt s)) stats
  +:+ metric "mesh_bus_dispatch_success_rate" "Dispatch success ratio by exit." "gauge" ls (fun s => fmt6 (success_rate s)) stats
  +:+ metric "mesh_bus_meshsec_drop_total" "MeshSec packet drops by reason." "counter" rs dec_show (by_meshsec drops)
  +:+ metric "mesh_bus_native_drop_total" "Native mesh packet drops by reason." "counter" rs dec_show (by_native drops).

(** *** The HTTP endpoint *)

Fixpoint has_blank_line (l : list Z) : bool :=
  match l with [] => false | _ :: t => bool_decide (take 4 l = [13; 10; 13; 10]) || has_blank_line t end.

(** The request, once a blank line is there; a request of 4096 bytes without one is given
    up.  Each read gives a byte at least. *)
Section MetricsRequest.
Context {W : Type} (read : W -> Read * W).

Fixpoint read_http_request (fuel : nat) (buf : list Z) (w : W) : option (option (list Z) * W) :=
  match fuel with
  | O => None
  | S fuel =>
      match read w with
      | (REnd, w) | (RLate, w) => Some (None, w)
      | (RBytes c, w) =>
          let buf := (buf ++ c)%list in
          if has_blank_line buf then Some (Some buf, w)
          else if (4096 <=? length buf)%nat then Some (None, w)
          else read_http_request fuel buf w
      end
  end.
End MetricsRequest.

Definition crlf : string := String (ascii_of_nat 13) eol.

Definition metrics_response (request : list Z) (body : string) : string :=
  if starts_with "GET /metrics " (from_utf8_lossy request) then
    "HTTP/1.1 200 OK" +:+ crlf +:+ "content-type: text/plain; version=0.0.4" +:+ crlf +:+ "content-length: "
    +:+ dec_show (Z.of_nat (String.length body)) +:+ crlf +:+ "connection: close" +:+ crlf +:+ crlf +:+ body
  else
    let body := "not found" +:+ eol in
    "HTTP/1.1 404 Not Found" +:+ crlf +:+ "content-length: " +:+ dec_show (Z.of_nat (String.length body)) +:+ crlf
    +:+ "connection: close" +:+ crlf +:+ crlf +:+ body.

(** * The operator API *)

Record ConfigIdentity := mkIdentity { ci_path : string; ci_fingerprint : string }.
Record PeerStatus := mkPeerStatus { ps_id : string; ps_node : string; ps_groups : list string; ps_meshsec : bool }.
Record IngressStatus := mkIngressStatus { is_kind : string; is_listen : string; is_pipeline : bool }.
Record EgressStatus := mkEgressStatus {
  es_id : string; es_kind : string; es_wan : string; es_priority : Z; es_groups : list string; es_sink : string;
  es_supports_stream : bool; es_supports_datagram : bool; es_peer : option string
}.
Record StatusResponse := mkStatus {
  st_version : string; st_config : ConfigIdentity; st_node : option string; st_scheduler : string; st_logging : string; st_metrics : string;
  st_counts : nat * nat * nat; st_peers : list PeerStatus; st_ingresses : list IngressStatus; st_egresses : list EgressStatus
}.
Record LiveExit := mkLiveExit {
  lx_id : string; lx_protocol : string; lx_stream : bool; lx_datagram : bool; lx_send : Z; lx_success : Z; lx_failure : Z; lx_rtt : Z; lx_bytes : Z
}.
Record MetricsResponse := mkMetricsResponse {
  mr_config : ConfigIdentity; mr_metrics : MetricsSnapshot; mr_datagram_sends : Z; mr_datagram_failures : Z;
  mr_exits : list LiveExit; mr_flows : nat
}.
Record EffectiveConfig := mkEffective { ec_config : ConfigIdentity; ec_yaml : string }.
Record LiveStatus := mkLive { ls_status : StatusResponse; ls_metrics : MetricsResponse }.
Record CheckResponse := mkCheck { ck_ok : bool; ck_config : ConfigIdentity; ck_error : option string }.
Record ProbeResponse := mkProbe {
  pb_probe : string; pb_ok : bool; pb_target : string; pb_group : option string; pb_reason : string;
  pb_success : Z * Z; pb_failure : Z * Z; pb_duration : Z
}.
Record DiagnoseBundle := mkDiagnose { dg_status : LiveStatus; dg_metrics : MetricsResponse; dg_config : EffectiveConfig }.

Definition ingress_kind (i : IngressCfg) : string :=
  match i with
  | InSocks5 _ _ _ _ _ _ _ _ _ => "Socks5" | InHttpConnect _ _ _ _ _ _ _ => "HttpConnect" | InTcp _ _ _ _ _ _ _ _ => "Tcp"
  | InUdp _ _ _ _ _ _ _ _ => "Udp" | InMeshPeerUdp _ _ => "MeshPeerUdp"
  end.
Definition ingress_listen (i : IngressCfg) : string :=
  match i with
  | InSocks5 l _ _ _ _ _ _ _ _ | InHttpConnect l _ _ _ _ _ _ | InTcp l _ _ _ _ _ _ _ | InUdp l _ _ _ _ _ _ _ | InMeshPeerUdp l _ => l
  end.
Definition egress_kind (e : EgressCfg) : string :=
  match e with
  | ETcp _ _ _ _ _ _ _ => "Tcp" | ESocks5 _ _ _ _ _ _ => "Socks5" | ESocks5Udp _ _ _ _ _ _ _ => "Socks5Udp" | EUdp _ _ _ _ _ _ _ => "Udp"
  | EMeshPeerUdp _ _ _ _ _ _ _ _ _ _ _ => "MeshPeerUdp" | EServiceTcp _ _ _ _ _ _ _ _ => "ServiceTcp"
  | EServiceUdp _ _ _ _ _ _ _ _ _ _ => "ServiceUdp"
  end.

Definition peer_status (p : PeerCfg) : PeerStatus :=
  mkPeerStatus (pc_id p) (pc_node_id p) (pc_route_groups p) (match pc_meshsec p with Some _ => true | None => false end).
Definition ingress_status (i : IngressCfg) : IngressStatus := mkIngressStatus (ingress_kind i) (ingress_listen i) (supports_pipeline i).
Definition egress_status (e : EgressCfg) : EgressStatus :=
  let '(st, dg) := pipeline_capability_bits e in
  mkEgressStatus (egress_id e) (egress_kind e) (wan_id e) (egress_priority e) (egress_groups e) (pipeline_sink_kind e) st dg (egress_peer_id e).

(** ** Redaction *)

Definition is_secret_key (k : string) : bool :=
  let k := to_ascii_lowercase k in
  bool_decide (k = "static_key_hex") || Rules.str_contains "password" k || Rules.str_contains "secret" k.

Definition secret_entry (k : Yaml) : bool := match as_str k with Some s => is_secret_key s | None => false end.

Fixpoint redact_value (v : Yaml) : Yaml :=
  match v with
  | YMapping m =>
      YMapping ((fix go (m : list (Yaml * Yaml)) : list (Yaml * Yaml) :=
        match m with
        | [] => []
        | (k, v) :: m => (k, if secret_entry k then YString "<redacted>" else redact_value v) :: go m
        end) m)
  | YSequence l => YSequence ((fix go (l : list Yaml) : list Yaml := match l with [] => [] | v :: l => redact_value v :: go l end) l)
  | v => v
  end.

(** The lines that mention no secret, joined again *)
Definition safe_line (l : string) : bool :=
  negb (Rules.str_contains "static_key_hex" l) && negb (Rules.str_contains "MESH_BUS_MESHSEC_KEY_HEX" l)
  && negb (Rules.str_contains "password=" l) && negb (Rules.str_contains "Authorization:" l) && negb (Rules.str_contains "Bearer " l).
Fixpoint join_lines (l : list string) : string :=
  match l with [] => "" | [x] => x | x :: l => x +:+ eol +:+ join_lines l end.
Definition diagnose_safe_yaml (s : string) : string := join_lines (List.filter safe_line (str_lines s)).

(** ** Responses *)

Section Api.
Context `{RuleParsers} `{Mmdb} `{Files} {W : Type} `{!ResolverNet W}.
Variable fx_write : Z -> list Z -> Z.
(** SHA-256, [serde_yaml::to_string] and its failure's text, the text of an error *)
Variable sha256 : string -> list Z.
Variable yaml_to_string : Yaml -> result string string.
Variable run_error_text : RunError -> string.

Definition config_fingerprint (yaml : string) : string := foldr (fun b s => hex_show 2 b +:+ s) "" (take 8 (sha256 yaml)).
Definition config_identity (path yaml : string) : ConfigIdentity := mkIdentity path (config_fingerprint yaml).

Definition status_response (cfg : Config) (path yaml version : string) : StatusResponse :=
  mkStatus version (config_identity path yaml) (node_id <$> cfg_node cfg) (scheduler_name (cfg_scheduler cfg))
    (log_level (cfg_logging cfg) +:+ "/" +:+ log_format_name (log_format (cfg_logging cfg)))
    (default "none" (metrics_name <$> cfg_metrics cfg))
    (length (cfg_peers cfg), length (cfg_ingresses cfg), length (cfg_egresses cfg))
    (peer_status <$> cfg_peers cfg) (ingress_status <$> cfg_ingresses cfg) (egress_status <$> cfg_egresses cfg).

(** [None] is a panic of the preflight. *)
Definition config_check_response (path yaml : string) (parsed : result Config string) (base_dir : string) (w : W) : option CheckResponse :=
  let id := config_identity path yaml in
  match parse_config parsed with
  | Err e => Some (mkCheck false id (Some e))
  | Ok cfg =>
      r ← preflight_config fx_write cfg base_dir w;
      Some (match r with Ok _ => mkCheck true id None | Err e => mkCheck false id (Some (run_error_text e)) end)
  end.

Definition effective_config_response (path yaml : string) : result EffectiveConfig string :=
  let? v := yaml_from_str yaml in
  let? text := yaml_to_string (redact_value v) in
  Ok (mkEffective (config_identity path yaml) text).

Definition live_exit_snapshot (e : ExitSnapshot) : LiveExit :=
  let s := es_stats e in
  mkLiveExit (es_exit_id e) (es_protocol e) (es_stream e) (es_datagram e) (send_count s) (success_count s) (failure_count s)
    (last_rtt_ms s) (payload_bytes_total s).

(** [sum()] of u64s wraps. *)
Definition sum_u64 (l : list Z) : Z := foldl (fun a b => as_u64 (a + b)) 0 l.

Definition metrics_snapshot_response (path yaml : string) (s : BusSnapshot) : MetricsResponse :=
  let dg := List.filter es_datagram (bs_exits s) in
  mkMetricsResponse (config_identity path yaml) (bs_metrics s)
    (sum_u64 ((fun e => send_count (es_stats e)) <$> dg)) (sum_u64 ((fun e => failure_count (es_stats e)) <$> dg))
    (live_exit_snapshot <$> bs_exits s) (length (bs_flows s)).

Definition live_status_response (cfg : Config) (path yaml version : string) (s : BusSnapshot) : LiveStatus :=
  mkLive (status_response cfg path yaml version) (metrics_snapshot_response path yaml s).

Definition diagnose_bundle_response (cfg : Config) (path yaml version : string) (s : BusSnapshot) : result DiagnoseBundle string :=
  let? e := effective_config_response path yaml in
  Ok (mkDiagnose (live_status_response cfg path yaml version s) (metrics_snapshot_response path yaml s)
        (mkEffective (ec_config e) (diagnose_safe_yaml (ec_yaml e)))).

Definition probe_response (probe : string) (ok : bool) (target : string) (group : option string) (reason : string)
    (before after : MetricsSnapshot) (duration : Z) : ProbeResponse :=
  mkProbe probe ok target group reason (dispatch_success before, dispatch_success after) (dispatch_failure before, dispatch_failure after) duration.
End Api.

(** * Probes (operator_http.rs) *)

Record ProbeTarget := mkProbeTarget { pt_host : string; pt_port : Z; pt_authority : string }.

(** [rest.split('/').next()] *)
Definition before_slash (s : string) : string := default s (hd_error (split_on "/"%char s)).

(** [u16]'s [FromStr] and the display of its error *)
Definition parse_port (s : string) : option Z := parse_uint 65535 s.
Fixpoint digits_error (s : string) (acc : Z) : string :=
  match s with
  | EmptyString => ""
  | String a s =>
      if is_digit a then
        let acc := acc * 10 + digit_val a in
        if 65535 <? acc then "number too large to fit in target type" else digits_error s acc
      else "invalid digit found in string"
  end.
Definition port_error (s : string) : string :=
  if str_is_empty s then "cannot parse integer from empty string"
  else
    let d := match strip_prefix "+" s with Some r => r | None => s end in
    if str_is_empty d then "invalid digit found in string" else digits_error d 0.

Definition parse_probe_target (input : string) : result ProbeTarget string :=
  let '(raw, dflt) :=
    match strip_prefix "https://" input with
    | Some rest => (before_slash rest, Some 443)
    | None => match strip_prefix "http://" input with Some rest => (before_slash rest, Some 80) | None => (input, None) end
    end in
  let? (host, port) :=
    (match strip_prefix "[" raw with
     | Some stripped =>
         match split_once "]"%char stripped with
         | None => Err ("invalid bracketed target " +:+ input)
         | Some (host, rest) =>
             let given := match strip_prefix ":" rest with Some p => parse_port p | None => None end in
             match given with
             | Some p => Ok (host, p)
             | None => match dflt with Some p => Ok (host, p) | None => Err ("target port required for " +:+ input) end
             end
         end
     | None =>
         match rsplit_once ":"%char raw with
         | Some (host, p) =>
             match parse_port p with Some p => Ok (host, p) | None => Err ("invalid target port in " +:+ input +:+ ": " +:+ port_error p) end
         | None => match dflt with Some p => Ok (raw, p) | None => Err ("target port required for " +:+ input) end
         end
     end) in
  if str_is_empty host then Err "target host required"
  else Ok (mkProbeTarget host port (host +:+ ":" +:+ dec_show port)).

(** The ingress's address as it is reached on this machine *)
Definition loopback_addr (listen : string) : result SocketAddr string :=
  match parse_socket_addr listen with
  | None => Err ("invalid listen address " +:+ listen +:+ ": invalid socket address syntax")
  | Some (SockV4 o p) => Ok (SockV4 (if forallb (fun b => b =? 0) o then [127; 0; 0; 1] else o) p)
  | Some (SockV6 g s p) => Ok (SockV6 (if forallb (fun b => b =? 0) g then [0; 0; 0; 0; 0; 0; 0; 1] else g) s p)
  end.

Definition socks5_connect_request (t : ProbeTarget) : result (list Z) string :=
  let? addr :=
    (match parse_host_ip (pt_host t) with
     | Some (Ip4 o) => Ok ([0x01] ++ o)%list
     | Some (Ip6 o) => Ok ([0x04] ++ o)%list
     | None =>
         let h := bytes_of_string (pt_host t) in
         if (255 <? length h)%nat then Err "SOCKS5 domain too long" else Ok ([0x03; Z.of_nat (length h)] ++ h)%list
     end) in
  Ok ([0x05; 0x01; 0x00] ++ addr ++ to_be_bytes 2 (pt_port t))%list.

(** [{:02x?}] of bytes *)
Definition debug_bytes (l : list Z) : string :=
  "[" +:+ (match l with [] => "" | b :: l => hex_show 2 b +:+ foldr (fun b s => ", " +:+ hex_show 2 b +:+ s) "" l end) +:+ "]".

Section Probes.
Context {W Sk : Type} `{!ExitSockets W Sk}.

(** The calls inside a probe's time-out: [late] is the text when it is over first. *)
Definition within {A} (late : string) (r : option (result A IoKind)) : result A string :=
  match r with None => Err late | Some (Err k) => Err (io_error_text k) | Some (Ok a) => Ok a end.
Definition probe_read (late : string) (sk : Sk) (n : nat) (w : W) : result (list Z) string * W :=
  let '(r, w) := read_exact n sk n w in (within late r, w).
Definition probe_write (late : string) (sk : Sk) (b : list Z) (w : W) : result unit string * W :=
  let '(r, w) := sk_write_all sk b w in (within late r, w).

Definition read_socks5_reply (late : string) (sk : Sk) (w : W) : result unit string * W :=
  let discard n w := match probe_read late sk n w with (Ok _, w) => (Ok tt, w) | (Err e, w) => (Err e, w) end in
  match probe_read late sk 4 w with
  | (Err e, w) => (Err e, w)
  | (Ok head, w) =>
      if negb (at_ head 0 =? 0x05) || negb (at_ head 1 =? 0x00) then (Err ("SOCKS5 connect failed: " +:+ debug_bytes head), w)
      else
        match at_ head 3 with
        | 0x01 => discard 6%nat w
        | 0x03 =>
            match probe_read late sk 1 w with
            | (Err e, w) => (Err e, w)
            | (Ok len, w) => discard (Z.to_nat (at_ len 0) + 2)%nat w
            end
        | 0x04 => discard 18%nat w
        | other => (Err ("unknown SOCKS5 reply atyp " +:+ dec_show other), w)
        end
  end.

Definition find_listen (f : IngressCfg -> bool) (cfg : Config) : option string := ingress_listen <$> List.find f (cfg_ingresses cfg).
Definition is_socks5_cfg (i : IngressCfg) : bool := match i with InSocks5 _ _ _ _ _ _ _ _ _ => true | _ => false end.
Definition is_http_cfg (i : IngressCfg) : bool := match i with InHttpConnect _ _ _ _ _ _ _ => true | _ => false end.

Definition dial_ingress (late what : string) (addr : SocketAddr) (w : W) : result Sk string * W :=
  let '(r, w) := tcp_dial (sock_text addr) w in
  (match r with
   | None => Err late
   | Some (Err k) => Err ("connect " +:+ what +:+ " ingress " +:+ sock_text addr +:+ ": " +:+ io_error_text k)
   | Some (Ok sk) => Ok sk
   end, w).

Definition run_socks5_probe (cfg : Config) (target : string) (w : W) : result unit string * W :=
  let late := "socks5 probe handshake timeout" in
  match find_listen is_socks5_cfg cfg with
  | None => (Err "no configured SOCKS5 ingress", w)
  | Some listen =>
      match parse_probe_target target, loopback_addr listen with
      | Err e, _ => (Err e, w)
      | Ok _, Err e => (Err e, w)
      | Ok t, Ok addr =>
          match dial_ingress "socks5 probe connect timeout" "SOCKS5" addr w with
          | (Err e, w) => (Err e, w)
          | (Ok sk, w) =>
              match probe_write late sk [0x05; 0x01; 0x00] w with
              | (Err e, w) => (Err e, w)
              | (Ok _, w) =>
                  match probe_read late sk 2 w with
                  | (Err e, w) => (Err e, w)
                  | (Ok method, w) =>
                      if negb (bool_decide (method = [0x05; 0x00])) then (Err ("SOCKS5 NoAuth rejected: " +:+ debug_bytes method), w)
                      else
                        match socks5_connect_request t with
                        | Err e => (Err e, w)
                        | Ok request =>
                            match probe_write late sk request w with
                            | (Err e, w) => (Err e, w)
                            | (Ok _, w) => read_socks5_reply late sk w
                            end
                        end
                  end
              end
          end
      end
  end.

Definition run_http_connect_probe (cfg : Config) (target : string) (w : W) : result unit string * W :=
  let late := "http-connect probe timeout" in
  match find_listen is_http_cfg cfg with
  | None => (Err "no configured HTTP CONNECT ingress", w)
  | Some listen =>
      match parse_probe_target target, loopback_addr listen with
      | Err e, _ => (Err e, w)
      | Ok _, Err e => (Err e, w)
      | Ok t, Ok addr =>
          match dial_ingress "http-connect probe connect timeout" "HTTP CONNECT" addr w with
          | (Err e, w) => (Err e, w)
          | (Ok sk, w) =>
              let request := "CONNECT " +:+ pt_authority t +:+ " HTTP/1.1" +:+ crlf +:+ "Host: " +:+ pt_authority t +:+ crlf +:+ crlf in
              match probe_write late sk (bytes_of_string request) w with
              | (Err e, w) => (Err e, w)
              | (Ok _, w) =>
                  let '(r, w) := sk_read sk 128 w in
                  (let? head := within late r in
                   let text := from_utf8_lossy head in
                   if starts_with "HTTP/1.1 200 " text then Ok tt
                   else Err ("HTTP CONNECT failed: " +:+ default "" (hd_error (str_lines text))), w)
              end
          end
      end
  end.

Definition run_mesh_peer_probe (cfg : Config) (target : string) (w : W) : result unit string * W :=
  if negb (existsb (fun e => match egress_peer_id e with Some _ => true | None => false end) (cfg_egresses cfg)) then
    (Err "no configured MeshPeerUdp egress", w)
  else if existsb is_socks5_cfg (cfg_ingresses cfg) then run_socks5_probe cfg target w
  else if existsb is_http_cfg (cfg_ingresses cfg) then run_http_connect_probe cfg target w
  else (Err "mesh-peer probe requires a configured SOCKS5 or HTTP CONNECT ingress", w).
End Probes.

(** * The operator's HTTP endpoint (operator_http.rs) *)

Record RequestParts := mkParts { rp_method : string; rp_path : string; rp_body : string }.

(** [split_whitespace().next()] and what is left *)
Definition is_space (l : list Z) : bool := existsb (fun w => is_prefix w l) whitespace.
Fixpoint span_word (l : list Z) : list Z * list Z :=
  match l with
  | [] => ([], [])
  | b :: t => if is_space l then ([], l) else let '(a, r) := span_word t in (b :: a, r)
  end.
Definition next_word (l : list Z) : option (string * list Z) :=
  match trim_front whitespace (length l) l with
  | [] => None
  | l => let '(a, r) := span_word l in Some (string_of_bytes a, r)
  end.

(** [s.split_once(p)] at a string *)
Fixpoint split_at (p s : string) : option (string * string) :=
  match strip_prefix p s with
  | Some r => Some (EmptyString, r)
  | None => match s with EmptyString => None | String a s => '(h, t) ← split_at p s; Some (String a h, t) end
  end.

Definition request_parts (request : string) : option RequestParts :=
  line ← hd_error (str_lines request);
  '(method, l) ← next_word (bytes_of_string line);
  '(path, _) ← next_word l;
  Some (mkParts method path (default "" (snd <$> split_at (crlf +:+ crlf) request))).

(** [find_map] over the lines after the first *)
Definition authorization_of (line : string) : option string :=
  '(name, value) ← split_once ":"%char line;
  if eq_ignore_ascii_case name "authorization" then Some (trim value) else None.
Fixpoint find_authorization (lines : list string) : option string :=
  match lines with
  | [] => None
  | l :: lines => match authorization_of l with Some v => Some v | None => find_authorization lines end
  end.
Definition authorization_header (request : string) : option string := find_authorization (tl (str_lines request)).

Definition token_eq (a b : list Z) : bool :=
  let diff0 := Z.lxor (Z.of_nat (length a)) (Z.of_nat (length b)) in
  fold_left (fun d i => Z.lor d (Z.lxor (nth i a 0) (nth i b 0))) (seq 0 (Nat.max (length a) (length b))) diff0 =? 0.

Definition authorized (request : string) (token : option string) : bool :=
  match token with
  | None => true
  | Some expected =>
      match authorization_header request with
      | None => false
      | Some value =>
          match strip_prefix "Bearer " value with
          | None => false
          | Some actual => token_eq (bytes_of_string actual) (bytes_of_string expected)
          end
      end
  end.

(** The token of a configuration, from its file *)
Definition load_auth_token `{Files} (cfg : Config) : result (option string) string :=
  match cfg_operator cfg with
  | Some (LocalHttp _ (Some (BearerTokenFile path))) =>
      let? text := map_err (fun e => "read operator token file " +:+ path +:+ ": " +:+ e) (read_text (fs_read path)) in
      let token := trim text in
      if str_is_empty token then Err "operator token file is empty" else Ok (Some token)
  | _ => Ok None
  end.

Record ProbeRequest := mkProbeRequest { pq_target : option string; pq_group : option string; pq_timeout_ms : option Z }.

(** What is written as JSON, or as it is. *)
Inductive Body :=
| BText (s : string) | BLive (r : LiveStatus) | BMetrics (r : MetricsResponse) | BEffective (r : EffectiveConfig)
| BProbe (r : ProbeResponse) | BBundle (r : DiagnoseBundle).
Record Response := mkResponse { rs_status : Z; rs_type : string; rs_body : Body }.

Definition json_ok (b : Body) : Response := mkResponse 200 "application/json" b.
Definition plain (status : Z) (text : string) : Response := mkResponse status "text/plain" (BText (text +:+ eol)).

Record OperatorHttpState := mkOperatorHttp {
  oh_cfg : Config; oh_path : string; oh_yaml : string; oh_version : string; oh_token : option string
}.

(** The bus a request asks for its snapshot, and the clock *)
Class NodeView (W : Type) := { node_snapshot : W -> BusSnapshot; node_millis : W -> Z }.

Definition reason_phrase (status : Z) : string :=
  match status with
  | 200 => "OK" | 400 => "Bad Request" | 401 => "Unauthorized" | 403 => "Forbidden" | 404 => "Not Found"
  | _ => "Internal Server Error"
  end.

Section Endpoint.
Context `{Files} {W Sk : Type} `{!ExitSockets W Sk} `{!NodeView W}.
Variable sha256 : string -> list Z.
Variable yaml_to_string : Yaml -> result string string.
(** [serde_json::from_str] of a probe's request, [serde_json::to_string_pretty] *)
Variable probe_json : string -> result ProbeRequest string.
Variable to_json : Body -> string.

(** [None] when the body is not read: the connection is dropped. *)
Definition handle_probe (probe : string) (st : OperatorHttpState) (body : string) (w : W) : option ProbeResponse * W :=
  match (if str_is_empty (trim body) then Ok (mkProbeRequest None None None) else probe_json body) with
  | Err _ => (None, w)
  | Ok q =>
      let target := default "https://example.com" (pq_target q) in
      let before := node_snapshot w in
      let started := node_millis w in
      let '(r, w) :=
        if decide (probe = "socks5-connect") then run_socks5_probe (oh_cfg st) target w
        else if decide (probe = "http-connect") then run_http_connect_probe (oh_cfg st) target w
        else if decide (probe = "mesh-peer") then run_mesh_peer_probe (oh_cfg st) target w
        else (Err ("unknown probe " +:+ probe), w) in
      (Some (probe_response probe (match r with Ok _ => true | Err _ => false end) target (pq_group q)
               (match r with Ok _ => "completed" | Err e => e end) (bs_metrics before) (bs_metrics (node_snapshot w))
               (as_u64 (node_millis w - started))), w)
  end.

Definition ok_or_dropped {A} (f : A -> Body) (r : result A string) : option Response :=
  match r with Ok a => Some (json_ok (f a)) | Err _ => None end.

(** The response of a request's text; [None] when the connection ends without one. *)
Definition handle_request (st : OperatorHttpState) (request : string) (w : W) : option Response * W :=
  match request_parts request with
  | None => (Some (plain 400 "bad request"), w)
  | Some parts =>
      if negb (authorized request (oh_token st)) then
        (Some (plain (match authorization_header request with Some _ => 403 | None => 401 end) "unauthorized"), w)
      else
        let route := (rp_method parts, rp_path parts) in
        let probe name := let '(r, w) := handle_probe name st (rp_body parts) w in ((fun r => json_ok (BProbe r)) <$> r, w) in
        if decide (route = ("GET", "/status")) then
          (Some (json_ok (BLive (live_status_response sha256 (oh_cfg st) (oh_path st) (oh_yaml st) (oh_version st) (node_snapshot w)))), w)
        else if decide (route = ("GET", "/metrics/snapshot")) then
          (Some (json_ok (BMetrics (metrics_snapshot_response sha256 (oh_path st) (oh_yaml st) (node_snapshot w)))), w)
        else if decide (route = ("GET", "/config/effective")) then
          (ok_or_dropped BEffective (effective_config_response sha256 yaml_to_string (oh_path st) (oh_yaml st)), w)
        else if decide (route = ("POST", "/probe/socks5")) then probe "socks5-connect"
        else if decide (route = ("POST", "/probe/http-connect")) then probe "http-connect"
        else if decide (route = ("POST", "/probe/mesh-peer")) then probe "mesh-peer"
        else if decide (route = ("POST", "/diagnose/bundle")) then
          (ok_or_dropped BBundle
             (diagnose_bundle_response sha256 yaml_to_string (oh_cfg st) (oh_path st) (oh_yaml st) (oh_version st) (node_snapshot w)), w)
        else (Some (plain 404 "not found"), w)
  end.

Definition write_response (r : Response) : string :=
  let body := match rs_body r with BText s => s | b => to_json b end in
  "HTTP/1.1 " +:+ dec_show (rs_status r) +:+ " " +:+ reason_phrase (rs_status r) +:+ crlf
  +:+ "content-type: " +:+ rs_type r +:+ crlf +:+ "content-length: " +:+ dec_show (Z.of_nat (String.length body)) +:+ crlf
  +:+ "connection: close" +:+ crlf +:+ crlf +:+ body.

Definition MAX_REQUEST_BYTES : nat := Z.to_nat 8192.

(** One connection: what the first read gave, its failure being the connection's end. *)
Definition handle_connection (st : OperatorHttpState) (read : result (list Z) IoKind) (w : W) : option string * W :=
  match read with
  | Err _ => (None, w)
  | Ok bytes => let '(r, w) := handle_request st (from_utf8_lossy (take MAX_REQUEST_BYTES bytes)) w in (write_response <$> r, w)
  end.
End Endpoint.

(** * The command line (main.rs) *)

Inductive ProbeKind := PkSocks5Connect | PkHttpConnect | PkMeshPeer.
Definition api_path (k : ProbeKind) : string :=
  match k with PkSocks5Connect => "/probe/socks5" | PkHttpConnect => "/probe/http-connect" | PkMeshPeer => "/probe/mesh-peer" end.

Inductive AdminCommand :=
| AdStatus | AdConfigCheck | AdConfigEffective | AdMetricsSnapshot
| AdProbe (kind : ProbeKind) (target : string)
| AdDiagnose (remote_ssh : option string).
Inductive Command := CmdRun | CmdCheck | CmdStatus | CmdAdmin (a : AdminCommand).
Record Cli := mkCli { cli_cmd : Command; cli_path : string; cli_api : option string; cli_token_file : option string }.

Definition DEFAULT_CONFIG : string := "config/example.yaml".

(** The command and the arguments after it *)
Definition admin_command (args : list string) : AdminCommand * list string :=
  match args with
  | "status" :: rest => (AdStatus, rest)
  | "config-check" :: rest => (AdConfigCheck, rest)
  | "config-effective" :: rest => (AdConfigEffective, rest)
  | "metrics-snapshot" :: rest => (AdMetricsSnapshot, rest)
  | "diagnose" :: rest => (AdDiagnose None, rest)
  | "probe" :: "socks5-connect" :: rest => (AdProbe PkSocks5Connect "https://example.com", rest)
  | "probe" :: "http-connect" :: rest => (AdProbe PkHttpConnect "https://example.com", rest)
  | "probe" :: "mesh-peer" :: rest => (AdProbe PkMeshPeer "mesh-peer", rest)
  | _ => (AdStatus, args)
  end.

Definition with_target (v : string) (a : AdminCommand) : AdminCommand :=
  match a with AdProbe k _ => AdProbe k v | a => a end.
Definition with_remote (v : string) (a : AdminCommand) : AdminCommand :=
  match a with AdDiagnose _ => AdDiagnose (Some v) | a => a end.

(** What an option does with its value *)
Definition admin_option (name : string) : option (string -> AdminCommand * string * option string * option string -> AdminCommand * string * option string * option string) :=
  match name with
  | "--config" => Some (fun v '(c, p, a, t) => (c, v, a, t))
  | "--api" => Some (fun v '(c, p, a, t) => (c, p, Some v, t))
  | "--token-file" => Some (fun v '(c, p, a, t) => (c, p, a, Some v))
  | "--target" | "--peer" => Some (fun v '(c, p, a, t) => (with_target v c, p, a, t))
  | "--remote-ssh" => Some (fun v '(c, p, a, t) => (with_remote v c, p, a, t))
  | _ => None
  end.

Fixpoint admin_options (args : list string) (st : AdminCommand * string * option string * option string) :
    AdminCommand * string * option string * option string :=
  match args with
  | [] => st
  | arg :: rest =>
      match admin_option arg with
      | Some set => match rest with v :: rest => admin_options rest (set v st) | [] => st end
      | None => let '(c, _, a, t) := st in admin_options rest (c, arg, a, t)
      end
  end.

Definition parse_admin_args (args : list string) : AdminCommand * string * option string * option string :=
  let '(cmd, rest) := admin_command args in admin_options rest (cmd, DEFAULT_CONFIG, None, None).

Definition parse_path_arg (args : list string) : string :=
  match args with
  | "--config" :: p :: _ => p
  | ["--config"] => DEFAULT_CONFIG
  | p :: _ => p
  | [] => DEFAULT_CONFIG
  end.

Definition cli_parse (args : list string) : Cli :=
  match args with
  | "admin" :: rest => let '(c, p, a, t) := parse_admin_args rest in mkCli (CmdAdmin c) p a t
  | "run" :: rest => mkCli CmdRun (parse_path_arg rest) None None
  | "check" :: rest => mkCli CmdCheck (parse_path_arg rest) None None
  | "status" :: rest => mkCli CmdStatus (parse_path_arg rest) None None
  | p :: _ => mkCli CmdRun p None None
  | [] => mkCli CmdRun DEFAULT_CONFIG None None
  end.

(** ** Talking to a node *)

(** [trim_end_matches('/')] *)
Fixpoint trim_slashes (s : string) : string :=
  match s with
  | EmptyString => EmptyString
  | String a s =>
      match trim_slashes s with
      | EmptyString => if decide (a = "/"%char) then EmptyString else String a EmptyString
      | r => String a r
      end
  end.

Definition request_text (method path authority body : string) (token : option string) : string :=
  method +:+ " " +:+ path +:+ " HTTP/1.1" +:+ crlf +:+ "Host: " +:+ authority +:+ crlf
  +:+ (match token with Some t => "Authorization: Bearer " +:+ t +:+ crlf | None => "" end)
  +:+ (if str_is_empty body then ""
       else "Content-Type: application/json" +:+ crlf +:+ "Content-Length: " +:+ dec_show (Z.of_nat (String.length body)) +:+ crlf)
  +:+ "Connection: close" +:+ crlf +:+ crlf +:+ body.

(** Connecting, writing the request and reading the answer to its end *)
Inductive Exchange := NoConnect (e : string) | ExchangeFailed (e : string) | Answered (text : string).

Definition answer_body (api path response : string) : result string string :=
  match split_at (crlf +:+ crlf) response with
  | None => Err ("operator api " +:+ api +:+ " returned malformed HTTP response")
  | Some (head, body) =>
      if starts_with "HTTP/1.1 200 " head then Ok body
      else Err ("operator api " +:+ api +:+ path +:+ " failed: " +:+ default head (hd_error (str_lines head)))
  end.

Definition redact_text (input : string) : string := join_lines (List.filter safe_line (str_lines input)).

Record RemoteReport := mkRemote { rm_ssh : string; rm_systemd : string; rm_process : string; rm_sockets : string; rm_journal : string }.

(** What is printed *)
Inductive Printed :=
| PrStatus (r : StatusResponse) | PrCheck (r : CheckResponse) | PrText (s : string) | PrReport (bundle : string) (remote : option RemoteReport).

Section Commands.
Context `{RuleParsers} `{Mmdb} `{Files} `{Listeners} {W : Type} `{!ResolverNet W}.
Variable fx_write : Z -> list Z -> Z.
Variable sha256 : string -> list Z.
Variable yaml_to_string : Yaml -> result string string.
Variable run_error_text : RunError -> string.
(** The typed read of a configuration's text *)
Variable config_from_str : string -> result Config string.
Variable exchange : string -> string -> Exchange.
(** [ssh <remote> <command>]: its output; a probe's JSON; the bundle read and printed again *)
Variable ssh : string -> string -> result string string.
Variable target_json : string -> string.
Variable json_pretty : string -> result string string.
Variable version : string.

Definition read_config_yaml (path : string) : result string string :=
  map_err (fun e => "read " +:+ path +:+ ": " +:+ e) (read_text (fs_read path)).

Definition read_token_file (path : string) : result string string :=
  let? text := map_err (fun e => "read token file " +:+ path +:+ ": " +:+ e) (read_text (fs_read path)) in
  let token := trim text in
  if str_is_empty token then Err ("token file " +:+ path +:+ " is empty") else Ok token.
Definition read_token (file : option string) : result (option string) string :=
  match file with Some p => let? t := read_token_file p in Ok (Some t) | None => Ok None end.

Definition http_request (api method path body : string) (token : option string) : result string string :=
  match strip_prefix "http://" api with
  | None => Err ("operator api URL must start with http://, got " +:+ api)
  | Some rest =>
      let authority := trim_slashes rest in
      match exchange authority (request_text method path authority body token) with
      | NoConnect e => Err ("connect " +:+ api +:+ ": " +:+ e)
      | ExchangeFailed e => Err e
      | Answered response => answer_body api path response
      end
  end.

Definition ssh_capture (remote command : string) : result string string :=
  map_err (fun e => "ssh " +:+ remote +:+ ": " +:+ e) (ssh remote command).

Definition PROCESS_COMMAND : string :=
  "pid=$(pidof mesh-bus 2>/dev/null || true); if [ -n " +:+ quoted "$pid" +:+ " ]; then printf 'pid=%s\n' " +:+ quoted "$pid"
  +:+ "; grep -E '^(VmRSS|Threads|FDSize):' /proc/$pid/status; printf 'fd_count='; ls /proc/$pid/fd | wc -l; fi".

Definition remote_diagnose (remote : string) : result RemoteReport string :=
  let? systemd := ssh_capture remote "systemctl is-active mesh-bus.service || true" in
  let? sockets := ssh_capture remote "ss -lntup 2>/dev/null | grep mesh-bus || true" in
  let? journal := ssh_capture remote "journalctl -u mesh-bus.service -n 80 --no-pager 2>/dev/null || true" in
  let? process := ssh_capture remote PROCESS_COMMAND in
  Ok (mkRemote remote (redact_text systemd) (redact_text process) (redact_text sockets) (redact_text journal)).

Definition run_admin_api (cmd : AdminCommand) (api : string) (token_file : option string) : result Printed string :=
  let get path := let? token := read_token token_file in let? body := http_request api "GET" path "" token in Ok (PrText body) in
  match cmd with
  | AdStatus => get "/status"
  | AdConfigEffective => get "/config/effective"
  | AdMetricsSnapshot => get "/metrics/snapshot"
  | AdProbe k target =>
      let? token := read_token token_file in
      let? response := http_request api "POST" (api_path k) (target_json target) token in
      Ok (PrText response)
  | AdDiagnose remote =>
      let? token := read_token token_file in
      let? response := http_request api "POST" "/diagnose/bundle" "{}" token in
      let? value := json_pretty response in
      match remote with
      | None => Ok (PrReport value None)
      | Some r => let? report := remote_diagnose r in Ok (PrReport value (Some report))
      end
  | AdConfigCheck => Err "admin config-check is config-only in M0; use --config <file>"
  end.

Definition base_dir_of (path : string) : string := default "." (path_parent path).

(** What is printed, and the error the process ends with; [None] is a panic. *)
Definition run_admin (cmd : AdminCommand) (path : string) (api token_file : option string) (w : W) :
    option (list Printed * result unit string) :=
  let failed e := Some ([], Err e) in
  match api with
  | Some api => Some (match run_admin_api cmd api token_file with Ok p => ([p], Ok tt) | Err e => ([], Err e) end)
  | None =>
      match read_config_yaml path with
      | Err e => failed e
      | Ok yaml =>
          match cmd with
          | AdStatus =>
              match parse_config (config_from_str yaml) with
              | Err e => failed e
              | Ok cfg => Some ([PrStatus (status_response sha256 cfg path yaml version)], Ok tt)
              end
          | AdConfigCheck =>
              r ← config_check_response fx_write sha256 run_error_text path yaml (config_from_str yaml) (base_dir_of path) w;
              Some ([PrCheck r], if ck_ok r then Ok tt else Err ("operator config-check failed for " +:+ path))
          | AdConfigEffective =>
              match parse_config (config_from_str yaml) with
              | Err e => failed e
              | Ok cfg =>
                  r ← preflight_config fx_write cfg (base_dir_of path) w;
                  Some (match r with
                        | Err e => ([], Err (run_error_text e))
                        | Ok _ =>
                            match effective_config_response sha256 yaml_to_string path yaml with
                            | Err e => ([], Err e)
                            | Ok e => ([PrText (ec_yaml e)], Ok tt)
                            end
                        end)
              end
          | AdMetricsSnapshot => failed "admin metrics-snapshot requires --api <url>"
          | AdProbe _ _ => failed "admin probe requires --api <url>"
          | AdDiagnose _ => failed "admin diagnose requires --api <url>"
          end
      end
  end.

(** ** Starting *)

(** A started node: its parts, and the operator's endpoint when there is one. *)
Record Started := mkStarted { sd_node : Node; sd_operator : option (string * OperatorHttpState) }.

Definition start_node (cfg : Config) (path yaml : string) (salt : list Z) (w : W) : option (result Started string) :=
  let node operator :=
    r ← run fx_write cfg (base_dir_of path) salt w;
    Some (match r with Ok n => Ok (mkStarted n operator) | Err e => Err (run_error_text e) end) in
  match cfg_operator cfg with
  | None => node None
  | Some (LocalHttp listen _) =>
      match listen_tcp listen with
      | Some e => Some (Err ("bind operator " +:+ listen +:+ ": " +:+ e))
      | None =>
          match load_auth_token cfg with
          | Err e => Some (Err e)
          | Ok token => node (Some (listen, mkOperatorHttp cfg path yaml version token))
          end
      end
  end.
End Commands.
