(* ===== verification/OperatorFacts.v ===== *)
(** Theorems on the operator's plane ([Operator]): what the redacted configuration shows,
    who the endpoint answers and what its client understands, the metrics' balance. *)
From S2P Require Import Prelude Numbers NetAddr Endpoint StateM Rules HttpProxy Geosite RuleYaml RuleYamlFacts ResolverRun.
From S2P Require Import KernelRegistry Pipeline Hooks Dispatch Observation Ingress Session Socks5 HttpIngress HttpIngressFacts.
From S2P Require Import Egress EgressFacts Config Forward ForwardDemo Assembly Operator.
Local Open Scope string_scope.
Local Open Scope Z_scope.

(** * Redaction *)

(** Two documents that agree but for the values of secret keys; what is under a tag is not
    looked into. *)
Inductive public_eq : Yaml -> Yaml -> Prop :=
| pub_same v : public_eq v v
| pub_sequence l1 l2 : Forall2 public_eq l1 l2 -> public_eq (YSequence l1) (YSequence l2)
| pub_mapping m1 m2 : Forall2 public_entry m1 m2 -> public_eq (YMapping m1) (YMapping m2)
with public_entry : Yaml * Yaml -> Yaml * Yaml -> Prop :=
| pub_secret k v1 v2 : secret_entry k = true -> public_entry (k, v1) (k, v2)
| pub_public k v1 v2 : secret_entry k = false -> public_eq v1 v2 -> public_entry (k, v1) (k, v2).

Definition redact_entry (kv : Yaml * Yaml) : Yaml * Yaml :=
  (kv.1, if secret_entry kv.1 then YString "<redacted>" else redact_value kv.2).
Lemma redact_mapping m : redact_value (YMapping m) = YMapping (redact_entry <$> m).
Proof. simpl. f_equal. induction m as [|[k v] m IH]; [done|]. by rewrite fmap_cons, IH. Qed.
Lemma redact_sequence l : redact_value (YSequence l) = YSequence (redact_value <$> l).
Proof. done. Qed.

(** Equal images of two lists, entry by entry *)
Lemma fmap_eq_Forall2 {A B} (f : A -> B) (P : A -> A -> Prop) l : forall k,
  Forall (fun x => forall y, f x = f y <-> P x y) l -> f <$> l = f <$> k <-> Forall2 P l k.
Proof.
  induction l as [|x l IH]; intros [|y k] Hl; (try by split; [done|intros Hf; inversion Hf]).
  apply Forall_cons in Hl as [Hx Hl]. rewrite !fmap_cons. split.
  - intros [= Hf Hr]. constructor; [by apply Hx|by apply IH].
  - intros Hf. inversion Hf; subst. f_equal; [by apply Hx|by apply IH].
Qed.

(** Parts of smaller size *)
Section Parts.
Context (n : nat) (IH : forall v1, (yaml_size v1 < n)%nat -> forall v2, redact_value v1 = redact_value v2 <-> public_eq v1 v2).

Lemma redact_sequences_iff l1 l2 : (yaml_size (YSequence l1) < S n)%nat ->
  redact_value (YSequence l1) = redact_value (YSequence l2) <-> Forall2 public_eq l1 l2.
Proof.
  intros Hs. rewrite !redact_sequence.
  rewrite <- (fmap_eq_Forall2 redact_value); [split; [by intros [= ?]|by intros ->]|].
  apply Forall_forall. intros x Hx. apply IH. apply size_in_seq in Hx. lia.
Qed.

Lemma redact_mappings_iff m1 m2 : (yaml_size (YMapping m1) < S n)%nat ->
  redact_value (YMapping m1) = redact_value (YMapping m2) <-> Forall2 public_entry m1 m2.
Proof.
  intros Hs. rewrite !redact_mapping.
  rewrite <- (fmap_eq_Forall2 redact_entry); [split; [by intros [= ?]|by intros ->]|].
  apply Forall_forall. intros [k v] Hx [k' v']. apply size_in_map in Hx. unfold redact_entry. simpl fst. simpl snd in *. split.
  - intros [= <- Hv]. destruct (secret_entry k) eqn:E; [by apply pub_secret|]. apply pub_public; [done|]. apply IH; [lia|done].
  - intros He. inversion He as [? ? ? E|? ? ? E Hv]; subst; rewrite E; [done|]. f_equal. apply IH; [lia|done].
Qed.
End Parts.

Lemma redact_equal_iff n : forall v1, (yaml_size v1 < n)%nat -> forall v2, redact_value v1 = redact_value v2 <-> public_eq v1 v2.
Proof.
  induction n as [|n IH]; intros v1 Hs v2; [lia|].
  split; [|intros Hp; inversion Hp; subst; [done|by apply (redact_sequences_iff n IH)|by apply (redact_mappings_iff n IH)]].
  destruct v1, v2; intros Heq; try discriminate Heq;
    try (apply pub_sequence; by apply (redact_sequences_iff n IH)); try (apply pub_mapping; by apply (redact_mappings_iff n IH));
    simpl in Heq; simplify_eq; constructor.
Qed.

(** C33: What the effective configuration shows is the document less the values of secret
    keys and nothing else: two documents redact to the same one exactly when they have the
    same shape, the same keys in the same order and the same values, but for the values of
    keys that name a secret ([static_key_hex], or a name with [password] or [secret] in it,
    in any case).  So no secret under such a key, at any depth of mappings and sequences,
    shows, and no public value is lost. *)
Theorem redaction_hides_secrets_only (v1 v2 : Yaml) : redact_value v1 = redact_value v2 <-> public_eq v1 v2.
Proof. apply (redact_equal_iff (S (yaml_size v1))). lia. Qed.

(** A secret under a tag is shown. *)
Definition tagged_user (p : string) : Yaml := YTagged "!user" (YMapping [(YString "password", YString p)]).
Theorem tagged_secret_is_shown (p q : string) : p <> q -> redact_value (tagged_user p) <> redact_value (tagged_user q).
Proof. intros Hp [= Heq]. done. Qed.

(** * The operator's endpoint and its client *)

(** ** The token *)

Lemma token_eq_exact a b : token_eq (bytes_of_string a) (bytes_of_string b) = true <-> a = b.
Proof.
  split; [|intros ->; by apply constant_time_eq_exact; try apply bytes_of_string_ok].
  intros Heq. apply constant_time_eq_exact in Heq; try apply bytes_of_string_ok.
  by rewrite <- (string_of_bytes_of a), Heq, string_of_bytes_of.
Qed.

Lemma authorized_iff request token :
  authorized request (Some token) = true <-> authorization_header request = Some ("Bearer " +:+ token)%string.
Proof.
  unfold authorized. destruct (authorization_header request) as [v|]; [|by split].
  destruct (strip_prefix "Bearer " v) as [actual|] eqn:E.
  - apply strip_prefix_app in E as ->. rewrite token_eq_exact. split; [by intros ->|]. intros [= Heq]. done.
  - split; [done|]. intros [= ->]. by rewrite (proj2 (strip_prefix_app "Bearer " _ token) eq_refl) in E.
Qed.

(** ** Lines and words *)

(** A visible ASCII character *)
Definition visible (a : Ascii.ascii) : bool := in_range 33 126 a.
Definition word (s : string) : bool := negb (str_is_empty s) && str_all visible s.
(** A visible character or a space *)
Definition texty (a : Ascii.ascii) : bool := in_range 32 126 a.

Lemma texty_of_visible s : str_all visible s = true -> str_all texty s = true.
Proof.
  induction s as [|a s IH]; [done|]. simpl. rewrite !andb_true_iff. intros [Ha Hs]. split; [|auto].
  unfold visible, texty, in_range in *. rewrite andb_true_iff, !N.leb_le in *. lia.
Qed.

Lemma texty_not a c : texty a = true -> (byte_of c < 32)%N -> a <> c.
Proof. unfold texty, in_range. rewrite andb_true_iff, !N.leb_le. intros Ha Hc ->. lia. Qed.

Lemma strip_cr a : strip_suffix carriage_return (a +:+ carriage_return) = Some a.
Proof.
  induction a as [|c a IH]; [done|]. rewrite str_app_cons. unfold carriage_return in *. cbn [strip_suffix]. rewrite IH.
  case_decide as E; [|done]. injection E as _ E. by destruct a.
Qed.

Lemma split_newline a rest : str_all texty a = true ->
  split_on newline (a +:+ crlf +:+ rest) = (a +:+ carriage_return)%string :: split_on newline rest.
Proof.
  induction a as [|c a IH]; simpl; [done|]. rewrite andb_true_iff. intros [Hc Ha].
  rewrite decide_False by (by apply texty_not). by rewrite (IH Ha).
Qed.

Lemma str_lines_crlf a rest : str_all texty a = true -> str_lines (a +:+ crlf +:+ rest) = a :: str_lines rest.
Proof.
  intros Ha. unfold str_lines. rewrite (split_newline a rest Ha). pose proof (split_on_nonempty newline rest) as Hne.
  destruct (split_on newline rest) as [|p ps]; [done|]. cbn [lines_of]. by rewrite strip_cr.
Qed.

Definition BLANK : string := crlf +:+ crlf.

(** The first blank line is not in a line's text, nor where a text follows a line's end. *)
Lemma blank_bytes : BLANK = String (ascii_of_nat 13) (String (ascii_of_nat 10) (String (ascii_of_nat 13) (String (ascii_of_nat 10) EmptyString))).
Proof. done. Qed.

Lemma split_at_text a rest : str_all texty a = true ->
  split_at BLANK (a +:+ rest) = '(h, t) ← split_at BLANK rest; Some ((a +:+ h)%string, t).
Proof.
  induction a as [|c a IH]; simpl str_all.
  - intros _. change ("" +:+ rest)%string with rest. destruct (split_at BLANK rest) as [[]|]; done.
  - rewrite andb_true_iff. intros [Hc Ha]. rewrite str_app_cons. cbn [split_at].
    rewrite blank_bytes at 1. cbn [strip_prefix]. rewrite decide_False by (by apply not_eq_sym, texty_not).
    rewrite (IH Ha). by destruct (split_at BLANK rest) as [[]|].
Qed.

Lemma strip_blank_line c rest : texty c = true ->
  strip_prefix BLANK (String (ascii_of_nat 13) (String (ascii_of_nat 10) (String c rest))) = None.
Proof.
  intros Hc. apply eq_None_not_Some. intros [r Hr]. apply strip_prefix_app in Hr. rewrite blank_bytes in Hr.
  injection Hr as Heq _. by apply (texty_not c (ascii_of_nat 13) Hc) in Heq.
Qed.

Lemma split_at_line c rest : texty c = true ->
  split_at BLANK (crlf +:+ String c rest) = '(h, t) ← split_at BLANK (String c rest); Some ((crlf +:+ h)%string, t).
Proof.
  intros Hc. change (crlf +:+ String c rest)%string with (String (ascii_of_nat 13) (String (ascii_of_nat 10) (String c rest))).
  pose proof (strip_blank_line c rest Hc) as Hs. remember (String c rest) as r eqn:Hr. cbn [split_at]. rewrite Hs.
  change (strip_prefix BLANK (String (ascii_of_nat 10) r)) with (@None string).
  by destruct (split_at BLANK r) as [[]|].
Qed.

Lemma split_at_blank rest : split_at BLANK (BLANK +:+ rest) = Some (EmptyString, rest).
Proof. reflexivity. Qed.

(** *** Heads *)

(** Lines with their ends, and the same less the last end *)
Definition lines_text (ls : list string) : string := foldr (fun l s => l +:+ crlf +:+ s) "" ls.
Fixpoint head_text (ls : list string) : string :=
  match ls with [] => "" | [l] => l | l :: ls => l +:+ crlf +:+ head_text ls end.

Definition line_ok (l : string) : Prop := l <> "" /\ str_all texty l = true.

Lemma lines_text_cons l ls rest : (lines_text (l :: ls) +:+ rest = l +:+ crlf +:+ lines_text ls +:+ rest)%string.
Proof. unfold lines_text. cbn [foldr]. by rewrite !str_app_assoc. Qed.

Lemma str_lines_text ls rest : Forall line_ok ls -> str_lines (lines_text ls +:+ rest) = (ls ++ str_lines rest)%list.
Proof.
  induction 1 as [|l ls [_ Hl] Hls IH]; [done|]. rewrite lines_text_cons, str_lines_crlf by done. by rewrite IH.
Qed.

Lemma split_at_lines ls body : ls <> [] -> Forall line_ok ls ->
  split_at BLANK (lines_text ls +:+ crlf +:+ body) = Some (head_text ls, body).
Proof.
  intros Hne. induction 1 as [|l ls [_ Hl] Hls IH]; [done|]. rewrite lines_text_cons, split_at_text by done.
  destruct Hls as [|l' ls [Hne' Hl'] Hls].
  - change (crlf +:+ lines_text [] +:+ crlf +:+ body)%string with (BLANK +:+ body)%string. rewrite split_at_blank. simpl. by rewrite str_app_nil.
  - destruct l' as [|c l']; [done|]. simpl in Hl'. apply andb_true_iff in Hl' as [Hc _].
    specialize (IH ltac:(done)). rewrite lines_text_cons in *. rewrite str_app_cons in *. rewrite split_at_line, IH by done. done.
Qed.

Lemma head_first l ls : str_all texty l = true -> hd_error (str_lines (head_text (l :: ls))) = Some l \/ l = "".
Proof.
  intros Hl. destruct ls as [|l' ls]; cbn [head_text].
  - destruct l as [|c l]; [by right|left]. unfold str_lines.
    assert (Hs : split_on newline (String c l) = [String c l]); [|by rewrite Hs].
    revert Hl. generalize (String c l) as s. induction s as [|d s IH]; [done|]. simpl. rewrite andb_true_iff. intros [Hd Hs].
    rewrite decide_False by (by apply texty_not). by rewrite (IH Hs).
  - left. by rewrite str_lines_crlf.
Qed.

(** *** Words *)

(** No member begins with a visible character. *)
Definition starts_outside (ws : list (list Z)) : bool :=
  forallb (fun w => match w with [] => false | h :: _ => (h <? 33) || (126 <? h) end) ws.

Lemma no_prefix ws b l : starts_outside ws = true -> 33 <= b <= 126 ->
  existsb (fun w => is_prefix w (b :: l)) ws = false /\ List.find (fun w => is_prefix w (b :: l)) ws = None.
Proof.
  intros Hall Hb. revert Hall. induction ws as [|[|h w] ws IH]; simpl; [done|done|].
  rewrite andb_true_iff, orb_true_iff, !Z.ltb_lt. intros [Hw Hws].
  assert (Hp : is_prefix (h :: w) (b :: l) = false); [|rewrite Hp; simpl; by apply IH].
  unfold is_prefix. apply bool_decide_false. simpl. intros [= ->]. lia.
Qed.
Lemma space_starts b l : 33 <= b <= 126 -> existsb (fun w => is_prefix w (b :: l)) whitespace = false.
Proof. intros Hb. by apply no_prefix. Qed.
Lemma find_space b l : 33 <= b <= 126 -> List.find (fun w => is_prefix w (b :: l)) whitespace = None.
Proof. intros Hb. by apply no_prefix. Qed.

Lemma visible_byte a : visible a = true <-> 33 <= byte_z a <= 126.
Proof. unfold visible, in_range, byte_z. rewrite andb_true_iff, !N.leb_le. lia. Qed.

Lemma bytes_cons a s : bytes_of_string (String a s) = byte_z a :: bytes_of_string s.
Proof. done. Qed.
Lemma bytes_app a b : bytes_of_string (a +:+ b) = (bytes_of_string a ++ bytes_of_string b)%list.
Proof. induction a as [|c a IH]; [done|]. rewrite str_app_cons, !bytes_cons, IH. done. Qed.

Lemma span_word_app s r : str_all visible s = true -> span_word (bytes_of_string s ++ 32 :: r) = (bytes_of_string s, 32 :: r).
Proof.
  induction s as [|a s IH]; [done|]. simpl str_all. rewrite andb_true_iff. intros [Ha%visible_byte Hs].
  rewrite bytes_cons. cbn [app span_word]. unfold is_space. by rewrite space_starts, (IH Hs).
Qed.

Lemma next_word_app s r : word s = true -> next_word (bytes_of_string s ++ 32 :: r) = Some (s, 32 :: r).
Proof.
  unfold word. rewrite andb_true_iff. intros [Hne Hs]. unfold next_word. pose proof (span_word_app s r Hs) as Hw.
  destruct s as [|a s]; [done|]. simpl in Hs. apply andb_true_iff in Hs as [Ha%visible_byte _].
  rewrite bytes_cons in *. cbn [app length trim_front] in *. rewrite find_space by done. rewrite Hw.
  by rewrite <- bytes_cons, string_of_bytes_of.
Qed.

Lemma next_word_space s r : word s = true -> next_word (32 :: bytes_of_string s ++ 32 :: r) = Some (s, 32 :: r).
Proof.
  intros Hs. rewrite <- (next_word_app s r Hs). unfold next_word.
  assert (Hsp : trim_front whitespace (length (32 :: bytes_of_string s ++ 32 :: r)) (32 :: bytes_of_string s ++ 32 :: r)
                = trim_front whitespace (length (bytes_of_string s ++ 32 :: r)) (bytes_of_string s ++ 32 :: r)) by done.
  by rewrite Hsp.
Qed.

(** *** The token's line *)

Lemma reversed_outside : starts_outside (reverse <$> whitespace) = true.
Proof. vm_compute. reflexivity. Qed.

Lemma trim_end_visible l b : 33 <= b <= 126 ->
  reverse (trim_front (reverse <$> whitespace) (length (l ++ [b])) (reverse (l ++ [b]))) = (l ++ [b])%list.
Proof.
  intros Hb. rewrite reverse_app, reverse_singleton, length_app, Nat.add_comm. cbn [length Nat.add app trim_front].
  rewrite (proj2 (no_prefix (reverse <$> whitespace) b (reverse l) reversed_outside Hb)).
  by rewrite reverse_cons, reverse_involutive.
Qed.

Lemma word_last t : word t = true -> exists l b, bytes_of_string t = (l ++ [b])%list /\ 33 <= b <= 126.
Proof.
  unfold word. rewrite andb_true_iff. intros [Hne Ht]. destruct t as [|a t]; [done|]. clear Hne. revert a Ht.
  induction t as [|c t IH]; intros a; simpl str_all; rewrite !andb_true_iff.
  - intros [Ha%visible_byte _]. by exists [], (byte_z a).
  - intros [_ Ht]. destruct (IH c) as (l & b & Hl & Hb); [by simpl; rewrite andb_true_iff|].
    exists (byte_z a :: l), b. by rewrite bytes_cons, Hl.
Qed.

Lemma trim_bearer t : word t = true -> trim (" Bearer " +:+ t) = ("Bearer " +:+ t)%string.
Proof.
  intros Ht. apply word_last in Ht as (l & b & Hl & Hb). unfold trim.
  assert (Hf : trim_front whitespace (String.length (" Bearer " +:+ t)) (bytes_of_string (" Bearer " +:+ t))
               = bytes_of_string ("Bearer " +:+ t)).
  { change (String.length (" Bearer " +:+ t)) with (S (S (String.length ("earer " +:+ t)))).
    change (bytes_of_string (" Bearer " +:+ t)) with (32 :: 66 :: bytes_of_string ("earer " +:+ t)). cbn [trim_front].
    change (List.find (fun w => is_prefix w (32 :: 66 :: bytes_of_string ("earer " +:+ t))) whitespace) with (Some [32]).
    cbn [drop length]. by rewrite find_space by lia. }
  rewrite Hf, bytes_app, Hl, app_assoc, trim_end_visible by done.
  by rewrite <- app_assoc, <- Hl, <- bytes_app, string_of_bytes_of.
Qed.

(** ** A request as the client writes it *)

Definition request_lines (method path authority body : string) (token : option string) : list string :=
  ([(method +:+ " " +:+ path +:+ " HTTP/1.1")%string; ("Host: " +:+ authority)%string]
   ++ (match token with Some t => [("Authorization: Bearer " +:+ t)%string] | None => [] end)
   ++ (if str_is_empty body then []
       else ["Content-Type: application/json"; ("Content-Length: " +:+ dec_show (Z.of_nat (String.length body)))%string])
   ++ ["Connection: close"])%list.

Lemma request_text_lines method path authority body token :
  request_text method path authority body token = (lines_text (request_lines method path authority body token) +:+ crlf +:+ body)%string.
Proof.
  unfold request_text, request_lines.
  destruct token as [t|]; destruct (str_is_empty body) eqn:E; cbn [app]; rewrite ?lines_text_cons, !str_app_assoc;
    unfold lines_text; cbn [foldr]; reflexivity.
Qed.

Lemma digits_visible z : 0 <= z -> str_all texty (dec_show z) = true.
Proof.
  intros Hz. unfold dec_show. assert (Hacc : str_all texty "" = true) by done. revert Hacc. generalize "" as acc.
  generalize (S (Z.to_nat (Z.log2 z))) as fuel. intros fuel. revert z Hz.
  induction fuel as [|fuel IH]; intros z Hz acc Hacc; simpl; [done|].
  assert (Hd : str_all texty (String (digit (z mod 10)) acc) = true).
  { simpl. rewrite Hacc, andb_true_r. unfold digit, texty, in_range. pose proof (Z.mod_pos_bound z 10 ltac:(lia)).
    rewrite byte_of_ascii by lia. rewrite andb_true_iff, !N.leb_le. lia. }
  destruct (z <? 10); [done|]. apply IH; [|done]. apply Z.div_pos; lia.
Qed.

Lemma word_texty s : word s = true -> str_all texty s = true.
Proof. unfold word. rewrite andb_true_iff. intros [_ Hs]. by apply texty_of_visible. Qed.

Lemma word_cons s : word s = true -> s <> "".
Proof. unfold word. rewrite andb_true_iff. intros [Hs _] ->. done. Qed.

Lemma line_app (p s : string) : p <> "" -> str_all texty p = true -> str_all texty s = true -> line_ok (p +:+ s).
Proof. intros Hp Ht Hs. split; [by destruct p|]. by rewrite str_all_app, Ht, Hs. Qed.

Section Request.
Context (method path authority body : string) (token : option string).
Context (Hm : word method = true) (Hp : word path = true) (Ha : str_all visible authority = true)
  (Ht : match token with Some t => word t = true | None => True end).

Lemma request_lines_ok : Forall line_ok (request_lines method path authority body token).
Proof.
  unfold request_lines. repeat (apply Forall_app; split); [| | |by repeat constructor].
  - apply Forall_cons. split; [|apply Forall_cons; split; [|done]].
    + apply line_app; [by apply word_cons|by apply word_texty|]. rewrite !str_all_app, (word_texty path) by done. done.
    + apply line_app; [done..|]. by apply texty_of_visible.
  - destruct token as [t|]; [|done]. apply Forall_singleton, line_app; [done..|]. by apply word_texty.
  - destruct (str_is_empty body); [done|]. apply Forall_cons. split; [done|]. apply Forall_singleton, line_app; [done..|].
    apply digits_visible. lia.
Qed.

Lemma request_parts_text : request_parts (request_text method path authority body token) = Some (mkParts method path body).
Proof.
  unfold request_parts. rewrite request_text_lines. change (crlf +:+ crlf) with BLANK.
  rewrite split_at_lines by (done || apply request_lines_ok). rewrite str_lines_text by apply request_lines_ok.
  change (hd_error (request_lines method path authority body token ++ str_lines (crlf +:+ body)))
    with (Some (method +:+ " " +:+ path +:+ " HTTP/1.1")%string). cbn [mbind option_bind].
  rewrite !bytes_app. change (bytes_of_string " " ++ bytes_of_string path ++ bytes_of_string " HTTP/1.1")%list
    with (32 :: bytes_of_string path ++ 32 :: bytes_of_string "HTTP/1.1")%list.
  rewrite next_word_app by done. cbn [mbind option_bind]. by rewrite next_word_space.
Qed.

Lemma authorization_text t : token = Some t ->
  authorization_header (request_text method path authority body token) = Some ("Bearer " +:+ t)%string.
Proof.
  intros Htok. unfold authorization_header. rewrite request_text_lines, str_lines_text by apply request_lines_ok.
  rewrite Htok in Ht |- *. unfold request_lines. cbn [app tl find_authorization].
  change (authorization_of ("Host: " +:+ authority)) with (@None string).
  change (authorization_of ("Authorization: Bearer " +:+ t)) with (Some (trim (" Bearer " +:+ t))).
  by rewrite trim_bearer.
Qed.
End Request.

(** ** A response as the endpoint writes it *)

(** Text that is UTF-8 is kept. *)
Lemma lossy_valid fuel : forall l, utf8_valid fuel l = true -> lossy fuel l = l.
Proof.
  induction fuel as [|fuel IH]; intros [|b l]; simpl; try done.
  destruct (between 0 127 b); [intros; by rewrite IH|].
  destruct (between 194 223 b).
  { destruct l as [|c1 l]; [done|]. rewrite andb_true_iff. intros [-> Hv]. by rewrite IH. }
  destruct (between 224 239 b).
  { destruct l as [|c1 [|c2 l]]; [done..|]. fold (second_of_three b c1). rewrite !andb_true_iff. intros [[-> ->] Hv]. by rewrite IH. }
  destruct (between 240 244 b); [|done].
  destruct l as [|c1 [|c2 [|c3 l]]]; [done..|]. fold (second_of_four b c1). rewrite !andb_true_iff. intros [[[-> ->] ->] Hv]. by rewrite IH.
Qed.

Lemma lossy_string s : is_utf8 s = true -> from_utf8_lossy (bytes_of_string s) = s.
Proof.
  intros Hs. unfold from_utf8_lossy. rewrite bytes_of_string_length, lossy_valid by done. apply string_of_bytes_of.
Qed.

Section EndpointFacts.
Context `{Files} {W Sk : Type} `{!ExitSockets W Sk} `{!NodeView W}.
Context (sha256 : string -> list Z) (yaml_to_string : Yaml -> result string string)
  (probe_json : string -> result ProbeRequest string).

Abbreviation serve := (handle_request sha256 yaml_to_string probe_json).

(** What is answered past the token: a JSON text, or that there is no such resource. *)
Lemma served_response st request w p r :
  request_parts request = Some p -> authorized request (oh_token st) = true -> (serve st request w).1 = Some r ->
  (exists b, r = json_ok b) \/ r = plain 404 "not found".
Proof.
  intros Hp Ha. unfold handle_request. rewrite Hp, Ha. cbn [negb].
  repeat (case_decide; [cbn; try (destruct (handle_probe _ _ _ _ _) as [[]]; cbn); unfold ok_or_dropped; try case_match; intros [= <-]; eauto|]).
  intros [= <-]. auto.
Qed.

(** Every response has one of five statuses and one of two types. *)
Lemma response_shape st request w r :
  (serve st request w).1 = Some r ->
  (exists b, r = json_ok b) \/ (exists s t, s ∈ [400; 401; 403; 404] /\ r = plain s t).
Proof.
  destruct (request_parts request) as [p|] eqn:Hp.
  - destruct (authorized request (oh_token st)) eqn:Ha.
    + intros Hr. destruct (served_response st request w p r Hp Ha Hr) as [Hj| ->]; [by left|right]. eexists _, _. split; [|done]. set_solver.
    + unfold handle_request. rewrite Hp, Ha. cbn. intros [= <-]. right. eexists _, _. split; [|done].
      destruct (authorization_header request); set_solver.
  - unfold handle_request. rewrite Hp. cbn. intros [= <-]. right. eexists _, _. split; [|done]. set_solver.
Qed.

(** C32: An operator's endpoint with a token answers nobody without it.  When the first
    [Authorization] line after a request's first line is not [Bearer] and that very token,
    the answer is 400, 401 or 403, it is the same for every node whose token the request
    does not carry, whatever its configuration, its exits and its counters are, and nothing
    is probed; when it is, a well-formed request is not refused: what is answered is 200 or
    404. *)
Theorem operator_needs_its_token (st : OperatorHttpState) (token request : string) (w : W) :
  oh_token st = Some token ->
  (authorization_header request <> Some ("Bearer " +:+ token)%string ->
     exists r, rs_status r ∈ [400; 401; 403] /\
       forall st' token' w', oh_token st' = Some token' -> authorization_header request <> Some ("Bearer " +:+ token')%string ->
         serve st request w = (Some r, w) /\ serve st' request w' = (Some r, w'))
  /\ (authorization_header request = Some ("Bearer " +:+ token)%string ->
      forall p r, request_parts request = Some p -> (serve st request w).1 = Some r -> rs_status r ∈ [200; 404]).
Proof.
  assert (Hno : forall st t w, oh_token st = Some t -> authorization_header request <> Some ("Bearer " +:+ t)%string ->
    serve st request w = (Some (match request_parts request with
                                | Some _ => plain (match authorization_header request with Some _ => 403 | None => 401 end) "unauthorized"
                                | None => plain 400 "bad request" end), w)).
  { intros st0 t0 w0 Ht Hh. unfold handle_request. destruct (request_parts request); [|done].
    assert (Ha : authorized request (oh_token st0) = false); [|by rewrite Ha].
    rewrite Ht. apply not_true_is_false. by rewrite authorized_iff. }
  intros Ht. split.
  - intros Hh. eexists. split; [|intros st' t' w' Ht' Hh'; split; [by apply (Hno st token)|by apply (Hno st' t')]].
    destruct (request_parts request), (authorization_header request); simpl; set_solver.
  - intros Hh p r Hp Hr. apply authorized_iff in Hh. rewrite <- Ht in Hh.
    destruct (served_response st request w p r Hp Hh Hr) as [[b ->]| ->]; simpl; set_solver.
Qed.

(** *** The answer read back *)

Context (to_json : Body -> string).

Definition body_text (r : Response) : string := match rs_body r with BText s => s | b => to_json b end.

Definition response_lines (r : Response) : list string :=
  [("HTTP/1.1 " +:+ dec_show (rs_status r) +:+ " " +:+ reason_phrase (rs_status r))%string; ("content-type: " +:+ rs_type r)%string;
   ("content-length: " +:+ dec_show (Z.of_nat (String.length (body_text r))))%string; "connection: close"].

Lemma write_response_lines r : write_response to_json r = (lines_text (response_lines r) +:+ crlf +:+ body_text r)%string.
Proof. unfold response_lines, write_response. rewrite !lines_text_cons, !str_app_assoc. reflexivity. Qed.

Lemma response_lines_ok r : (exists b, r = json_ok b) \/ (exists s t, s ∈ [400; 401; 403; 404] /\ r = plain s t) -> Forall line_ok (response_lines r).
Proof.
  intros Hr. unfold response_lines. repeat (apply Forall_cons; split); [| | |done|done].
  - destruct Hr as [[b ->]|(s & t & Hs & ->)]; [done|]. simpl.
    repeat (apply elem_of_cons in Hs as [->|Hs]; [done|]). by apply not_elem_of_nil in Hs.
  - by destruct Hr as [[b ->]|(s & t & Hs & ->)].
  - apply line_app; [done..|]. apply digits_visible. lia.
Qed.

Lemma answer_read api path r : (exists b, r = json_ok b) \/ (exists s t, s ∈ [400; 401; 403; 404] /\ r = plain s t) ->
  answer_body api path (write_response to_json r) =
    if rs_status r =? 200 then Ok (body_text r)
    else Err ("operator api " +:+ api +:+ path +:+ " failed: HTTP/1.1 " +:+ dec_show (rs_status r) +:+ " " +:+ reason_phrase (rs_status r)).
Proof.
  intros Hr. unfold answer_body. rewrite write_response_lines. change (crlf +:+ crlf) with BLANK.
  pose proof (response_lines_ok r Hr) as Hl. rewrite split_at_lines by done.
  unfold response_lines in *. apply Forall_cons in Hl as [[Hne Hl] _].
  destruct (head_first _ [("content-type: " +:+ rs_type r)%string;
    ("content-length: " +:+ dec_show (Z.of_nat (String.length (body_text r))))%string; "connection: close"] Hl) as [Hh|He]; [|done].
  rewrite Hh. destruct Hr as [[b ->]|(s & t & Hs & ->)]; [done|]. simpl rs_status.
  repeat (apply elem_of_cons in Hs as [->|Hs]; [done|]). by apply not_elem_of_nil in Hs.
Qed.
End EndpointFacts.

(** C34: A command for a running node tells what the node answered.  What [http_request] sends is
    taken apart by the node's endpoint into the method, the path and the body it was given,
    and into the token when it has one; what it returns is the text of the node's response
    when the status is 200, an error that names the response's status line when it is
    another, and an error too when the node ends the connection without a response.  The
    request fits the node's one read. *)
Theorem admin_reads_the_nodes_answer `{Files} {W Sk : Type} `{!ExitSockets W Sk} `{!NodeView W}
    (sha256 : string -> list Z) (yaml_to_string : Yaml -> result string string) (probe_json : string -> result ProbeRequest string)
    (to_json : Body -> string) (exchange : string -> string -> Exchange) (st : OperatorHttpState) (w : W)
    (method path authority body : string) (token : option string) :
  let request := request_text method path authority body token in
  let served := handle_request sha256 yaml_to_string probe_json st request w in
  word method = true -> word path = true -> str_all visible authority = true -> trim_slashes authority = authority ->
  match token with Some t => word t = true | None => True end ->
  is_utf8 request = true -> (String.length request <= MAX_REQUEST_BYTES)%nat ->
  exchange authority request
    = Answered (default "" (handle_connection sha256 yaml_to_string probe_json to_json st (Ok (bytes_of_string request)) w).1) ->
  request_parts request = Some (mkParts method path body)
  /\ (forall t, token = Some t -> authorization_header request = Some ("Bearer " +:+ t)%string)
  /\ http_request exchange ("http://" +:+ authority) method path body token
     = match served.1 with
       | None => Err ("operator api http://" +:+ authority +:+ " returned malformed HTTP response")
       | Some r =>
           if rs_status r =? 200 then Ok (body_text to_json r)
           else Err ("operator api http://" +:+ authority +:+ path +:+ " failed: HTTP/1.1 " +:+ dec_show (rs_status r) +:+ " " +:+ reason_phrase (rs_status r))
       end.
Proof.
  intros request served Hm Hp Ha Hs Ht Hu Hlen Hex.
  split; [by apply request_parts_text|]. split; [intros t Et; by apply authorization_text|].
  unfold http_request. rewrite (proj2 (strip_prefix_app "http://" _ authority) eq_refl), Hs. fold request. rewrite Hex.
  unfold handle_connection. rewrite take_ge by (by rewrite bytes_of_string_length). rewrite lossy_string by done.
  fold served. pose proof (response_shape sha256 yaml_to_string probe_json st request w) as Hshape. fold served in Hshape.
  destruct served as [[r|] w']; simpl; [|done]. rewrite answer_read by (by apply Hshape). by rewrite str_app_assoc.
Qed.

(** * Counters *)

(** Successes and failures add up to the dispatches while these do not saturate. *)
Definition balanced (s : ExitStats) : Prop :=
  0 <= xs_success s /\ 0 <= xs_failure s /\ (xs_dispatch s < 2 ^ 64 - 1 -> xs_dispatch s = xs_success s + xs_failure s).

Lemma count_balanced m s : balanced s -> balanced (count_measured m s).
Proof.
  unfold balanced, count_measured, u64_add_sat. intros (Hs & Hf & Hd). destruct (ms_success m); simpl; split_and!; try lia;
    intros Hlt; assert (xs_dispatch s < 2 ^ 64 - 1) as Hb by lia; specialize (Hd Hb); lia.
Qed.

Lemma insert_all {V} (P : V -> Prop) (m : btree V) k v : Forall (fun kv => P kv.2) m -> P v -> Forall (fun kv => P kv.2) (bt_insert m k v).
Proof.
  intros Hm Hv. induction Hm as [|[k' v'] m Hk Hm IH]; simpl; [by repeat constructor|].
  repeat case_match; repeat (apply Forall_cons; split); done.
Qed.

(** Every line of the metrics is balanced, whatever the observer has been told: in the
    text of an exit successes and failures are the dispatches. *)
Inductive observed : PrometheusObserver -> Prop :=
| ob_new : observed prometheus_new
| ob_event e o : observed o -> observed (prometheus_on_event e o)
| ob_drain o : observed o -> observed (prometheus_drain o).

Theorem metrics_are_balanced (o : PrometheusObserver) : observed o -> Forall (fun kv => balanced kv.2) (pr_stats o).
Proof.
  induction 1 as [|e o Ho IH|o Ho IH]; [done| |].
  - unfold prometheus_on_event. repeat case_match; done.
  - unfold prometheus_drain. destruct (pr_queue o) as [|m q]; [done|]. simpl. apply insert_all; [done|]. apply count_balanced.
    destruct (bt_get (pr_stats o) (ms_exit m)) as [s|] eqn:E; simpl.
    + apply bt_get_in in E. by apply (proj1 (Forall_forall _ _) IH) in E.
    + unfold balanced. simpl. lia.
Qed.

(** ** The mesh-peer probe *)

(** Without a target of the operator's, the mesh-peer probe of the command line fails at
    every node: its default has no port. *)
Theorem default_mesh_probe_fails {W Sk : Type} `{!ExitSockets W Sk} (cfg : Config) (w : W) :
  exists target e, cli_cmd (cli_parse ["admin"; "probe"; "mesh-peer"]) = CmdAdmin (AdProbe PkMeshPeer target)
    /\ run_mesh_peer_probe cfg target w = (Err e, w).
Proof.
  exists "mesh-peer". unfold run_mesh_peer_probe, run_socks5_probe, run_http_connect_probe.
  change (parse_probe_target "mesh-peer") with (@Err ProbeTarget string "target port required for mesh-peer").
  repeat case_match; eauto.
Qed.

(** The counting observer counts flows as they open; a flow's end counts nothing. *)
Theorem closed_flows_are_not_counted (e : EventEnvelope) (c : CounterObserver) :
  env_type e = ECore FlowClosed -> counter_on_event e c = c.
Proof. intros He. unfold counter_on_event. by rewrite He. Qed.

(** * Witnesses *)

Module OperatorDemo.
Import DemoYaml ForwardDemo AssemblyDemo.

#[export] Instance node_view : NodeView Dialog := {|
  node_snapshot _ := mkBusSnapshot [] (mkMetrics 0 0 0 0 0 0 0 0) [];
  node_millis _ := 0
|}.

Definition sha (s : string) : list Z := bytes_of_string s.
Definition show_yaml (v : Yaml) : result string string := Ok "pipeline: {}".
Definition read_probe (s : string) : result ProbeRequest string := Err "expected value".
Definition show_json (b : Body) : string := "{}".

Definition operator : OperatorHttpState := mkOperatorHttp cfg "/etc/mesh/node.yaml" "node: a" "0.1.0" (Some "s3cret").
Definition idle : Dialog := mkDialog [] [] [] [] [].
Definition answer (authority request : string) : Exchange :=
  Answered (default "" (handle_connection sha show_yaml read_probe show_json operator (Ok (bytes_of_string request)) idle).1).

Definition ask (token : option string) : string := request_text "GET" "/status" "127.0.0.1:9900" "" token.
End OperatorDemo.
Import DemoYaml ForwardDemo AssemblyDemo OperatorDemo.

Lemma operator_needs_its_token_witness :
  (exists r, rs_status r = 403 /\ handle_request sha show_yaml read_probe operator (ask (Some "guess")) idle = (Some r, idle))
  /\ (forall r, (handle_request sha show_yaml read_probe operator (ask (Some "s3cret")) idle).1 = Some r -> rs_status r ∈ [200; 404]).
Proof.
  split.
  - destruct (operator_needs_its_token sha show_yaml read_probe operator "s3cret" (ask (Some "guess")) idle eq_refl) as [H _].
    destruct (H ltac:(vm_compute; discriminate)) as (r & _ & Hr). exists r.
    destruct (Hr operator "s3cret" idle eq_refl ltac:(vm_compute; discriminate)) as [Hs _]. split; [|exact Hs].
    vm_compute in Hs. injection Hs as <-. reflexivity.
  - intros r Hr. apply (proj2 (operator_needs_its_token sha show_yaml read_probe operator "s3cret" (ask (Some "s3cret")) idle eq_refl)) with
      (p := mkParts "GET" "/status" ""); [vm_compute; reflexivity..|exact Hr].
Defined.

Lemma admin_reads_the_nodes_answer_witness :
  http_request answer "http://127.0.0.1:9900" "GET" "/status" "" (Some "s3cret") = Ok "{}"
  /\ http_request answer "http://127.0.0.1:9900" "GET" "/status" "" None
     = Err "operator api http://127.0.0.1:9900/status failed: HTTP/1.1 401 Unauthorized".
Proof.
  split.
  - refine (eq_trans (proj2 (proj2 (admin_reads_the_nodes_answer sha show_yaml read_probe show_json answer operator idle
      "GET" "/status" "127.0.0.1:9900" "" (Some "s3cret") _ _ _ _ _ _ _ _))) _); first [apply Nat.leb_le; vm_compute; reflexivity|vm_compute; reflexivity|exact I].
  - refine (eq_trans (proj2 (proj2 (admin_reads_the_nodes_answer sha show_yaml read_probe show_json answer operator idle
      "GET" "/status" "127.0.0.1:9900" "" None _ _ _ _ _ _ _ _))) _); first [apply Nat.leb_le; vm_compute; reflexivity|vm_compute; reflexivity|exact I].
Defined.
